(* ===== verification/_CoqProject ===== *)
-Q . S2P
Prelude.v
VmEpoch.v
GuestMemory.v
GuestRawMemory.v
GuestMapping.v
GuestReserve.v
VmInvariant.v
MappingProps.v
RemapProps.v
ProtectProps.v
PrivateCopy.v
MemoryWitness.v
TimerQueue.v
Psynch.v
PsynchWake.v
PsynchRun.v
MutexHandoff.v
RwlockProps.v
PsynchWitness.v
CoopThreads.v
CoopProps.v
PsynchCalls.v
Debugger.v
DebuggerProps.v
CallbackExecutor.v
CallbackProps.v
Bytes.v
MachOImage.v
MachOImageProps.v
HostIO.v
CodeSignature.v
CodeSignatureProps.v
CodeDirectoryProps.v
CodeTransform.v
CodeTransformProps.v
DirectoryRewrite.v
SignatureRepack.v
SignatureRepackProps.v
EncryptedSignature.v
FatOutput.v
FatCopyProps.v
FatLayoutProps.v
SigningMetadata.v
SigningMetadataProps.v
FunctionStarts.v
FunctionStartsProps.v
DebuggerImage.v
GuestPaths.v
GuestPathsProps.v
InjectTheorems.v
SignatureTheorems.v
GuestBootstrap.v
GuestBootstrapProps.v
GuestEnvironment.v
LegacyLayout.v
LegacyLayoutProps.v
Syscalls.v
FileCalls.v
ScatterCalls.v
DescriptorCalls.v
SocketCalls.v
Dispatcher.v
SyscallLogic.v
Mediation.v
SymlinkProps.v
ReadvProps.v
MediationTheorem.v
HostCalls.v
HostCallsProps.v
VmTraps.v
VmTrapsProps.v
MachOLoad.v
MachOLoadProps.v
Workqueue.v
WorkqueueProps.v
WorkqueueStart.v
WorkqueueUpcall.v
MachMessages.v
MachMessagesProps.v
ThreadState.v
