(* ===== verification/Prelude.v ===== *)
(** LiveExec32: a verification development of its C and C++ core.

    LiveExec32 runs 32-bit ARM iOS programs on 64-bit hosts.  Two parts work
    together.  The runtime (src/HostFrameworks/LC32) executes guest code with a
    recompiler (an external library) and gives the guest an address space,
    threads, the Darwin synchronisation calls, timers, callbacks from host
    frameworks, files and a debugger.  The installer tweak (src/Tweak) makes an
    old application installable: it parses its Mach-O executable, adds a 64-bit
    slice to it and rewrites its code signatures.  This library models those parts
    as executable definitions and proves what they promise.  This file holds what
    every component shares: machine integers, Darwin constants, guest pages and
    page-sized chunks, the tactics [zb] and [case_if] and the hint database [lc32].

    ** Components of the runtime

    The guest address space.
    - VmEpoch.v: epoch-based reclamation of host mappings (dynarmic.cpp,
      [RetireMemoryBacking], [GuestVmEpochGuard], ...).  State: the epoch, the
      registered participants, the retired list and a log of released backings.
      It discharges the interface [Retirement], through which the mapping
      operations release a backing.
    - GuestMemory.v: the page map [memory] (the khash of dynarmic.h), the
      fast-path page table, the per-thread lookup cache and the
      permission-checked accesses of dynarmic_memory.cpp, up to
      [CopyGuestVmMemory].  The record [vm] is the shared state of all the
      memory files; host memory is a map from host addresses to bytes.
    - GuestRawMemory.v: the unchecked accesses of dynarmic_core.cpp.
    - GuestMapping.v: reserve, mmap, direct mmap, munmap, mprotect, vm_remap and
      the private-copy replacement of dynarmic_core.cpp.  Host calls (mmap,
      mprotect, vm_allocate, calloc, vector growth) are the fields of [host_env]
      and may fail at every point.
    - GuestReserve.v, VmInvariant.v, MappingProps.v, RemapProps.v,
      ProtectProps.v, PrivateCopy.v: the theorems.  [vm_ok] (VmInvariant.v) says
      that reference counts are exact, every page lies in its backing, the page
      table shows exactly what it may, and no lookup cache is stale.
    - MemoryWitness.v: a concrete address space for all of them.
    - VmTraps.v, VmTrapsProps.v: the Mach traps and BSD calls over these operations
      (dynarmic_syscalls.cpp).

    The debugger (dynarmic_core.cpp, debugger_server.cpp).
    - Debugger.v: physical writes through host page protections, software
      breakpoints, tracepoints, logical reads and writes.
    - DebuggerProps.v: the logical memory beneath the traps
      and the refinement to it.
    - FunctionStarts.v, FunctionStartsProps.v, DebuggerImage.v: ULEB128 and the
      normalisation of the function starts in the debugger's copies of images
      ([NormalizeDebuggerMachO]); the stream semantics and memory safety.

    Timers (guest_timer_queue.cpp, guest_timers.cpp).
    - TimerQueue.v: the queue behind the waiter thread, with kevent64 and the
      iteration order of the hash table as parameters.

    Synchronisation (dynarmic_psynch.cpp, dynarmic_thread_state.cpp).
    - Psynch.v: native guest threads: waiters, preposts, reader-writer grants,
      ulocks.  A blocking call is split in two: up to the wait, and its end
      ([FinishWait]: woken, timed out or interrupted).
    - PsynchWake.v: the wrapping generation order, and the wake loops against their
      specification.
    - PsynchRun.v: executions (any interleaving of calls) and the invariant that
      no grant waits beside a waiter it fits.
    - MutexHandoff.v: conservation of mutex grants.  RwlockProps.v: grants of
      reader-writer locks.  PsynchWitness.v: concrete executions.
    - CoopThreads.v, CoopProps.v: the cooperative scheduler
      (dynarmic_thread_state.cpp, dynarmic_native_jit.cpp).
    - PsynchCalls.v: the system calls over both kinds of threads.

    Suspending threads (dynarmic_thread_state.cpp).
    - ThreadState.v: the slot of a native guest thread ([NativeThreadStateSlot])
      between the thread that owns it and those that suspend it, resume it or ask
      for its registers; one definition per critical section, in any order.

    Callbacks (dynarmic.cpp).
    - CallbackExecutor.v, CallbackProps.v: host threads that hand callbacks to
      one guest thread.

    The workqueue (dynarmic_workqueue.cpp, dynarmic_native_jit.cpp,
    dynarmic_syscalls.cpp, dynarmic_thread_state.cpp).
    - Workqueue.v: worker requests and kernel events of libdispatch, the pump that
      turns them into native guest threads, and [StartNativeGuestWorkqueueWorker]
      with its stack, guard page and delivered event.  The pump is a loop of
      critical sections ([scan_threads], [select_job], [requeue], ...).
    - WorkqueueProps.v: every interleaving of the pump with system calls, timers,
      workers and the host ([step]).  WorkqueueStart.v: what a start leaves
      behind; concrete queues.
    - WorkqueueUpcall.v: the same queue when there are no native threads: one worker
      that borrows the processor of the thread it interrupts, with the transitions
      at safe points (dynarmic_callbacks.cpp, dynarmic_core.cpp) and the signal mask.

    Mach messages (guest_mach_messages.cpp, guest_mach_exceptions.cpp,
    dynarmic_syscalls.cpp).
    - MachMessages.v, MachMessagesProps.v: the messages the emulator answers
      itself, over a byte buffer in which an access outside is [Fault].

    Paths (filesystem.cpp).
    - GuestPaths.v, GuestPathsProps.v: lexical normalisation, mount points and the
      translation between guest and host paths; the reference definition.

    System calls (dynarmic_callbacks.cpp, dynarmic_syscalls.cpp,
    darwin_file_syscalls.cpp).
    - Syscalls.v: the monad [sys] of handlers over a [world] (guest memory, carry
      flag, tables, and a journal of what the host was asked); the host is the
      parameter [kernel].  Copying strings and paths from the guest.
    - FileCalls.v, ScatterCalls.v, DescriptorCalls.v, SocketCalls.v: the handlers.
    - Dispatcher.v: [CallSVC] over registers, the indirect call included.
    - SyscallLogic.v: the program logic [runs] with its tactic; Mediation.v,
      MediationTheorem.v: what a handler may ask the host for ([request_ok]).
    - SymlinkProps.v, ReadvProps.v: link targets, strings, scattered and
      asynchronous reads.
    - HostCalls.v, HostCallsProps.v: host calls that a stop
      request interrupts (dynarmic_internal.h, dynarmic_syscalls.cpp), a step
      relation whose steps are single loads and stores.

    Launch (guest_bootstrap.cpp, LiveExec32Shared.cpp, Tweak/LegacyBundleLayout.c).
    - GuestBootstrap.v, GuestBootstrapProps.v, GuestEnvironment.v: environment, home
      directory, the initial stack and its copy to guest memory.
    - LegacyLayout.v, LegacyLayoutProps.v: the links of the legacy
      bundle layout, as programs over file-system calls that the host may answer
      in any way; concrete stacks and paths.
    - MachOLoad.v, MachOLoadProps.v: selection and validation of
      the ARM image, and the walk over its commands that maps the segments.

    ** Components of the tweak

    - Bytes.v: byte buffers, bounds-checked accesses ([Fault] is an access outside
      the allocation) and the monad [outcome] of fallible code, with [safe] and
      [succeeds] for its results.
    - MachOImage.v, MachOImageProps.v: the Mach-O parser (MachOImage.c); the
      well-formedness of what it returns.
    - HostIO.v: the loops around pread and pwrite (MachOImage.c, FatMachO.c).  The
      classes [Pread] and [Pwrite] state what the calls promise; the parser's
      interface [FileReader] is discharged from them.
    - CodeSignature.v, CodeSignatureProps.v, CodeDirectoryProps.v: the parsers of
      super blobs and CodeDirectories (FatMachO.c).
    - CodeTransform.v, CodeTransformProps.v, DirectoryRewrite.v: the donor of the
      new blobs and the rewriting of a CodeDirectory; the digests of CommonCrypto
      are parameters ([Digests]).
    - SignatureRepack.v, SignatureRepackProps.v, EncryptedSignature.v: packing the
      blobs, and the new signature of an encrypted slice.
    - SigningMetadata.v, SigningMetadataProps.v: identifiers, Team ID and
      entitlements; CoreFoundation is a parameter.
    - FatOutput.v, FatCopyProps.v, FatLayoutProps.v: choice of the slices, layout, FAT
      header, copying, comparing and writing.
    - InjectTheorems.v, SignatureTheorems.v: the theorems that compose these
      files, with concrete files and signatures.

    ** What the theorems show

    - Address space: reclamation never frees a reachable mapping and frees every
      unreachable one (C1, C4); checked accesses refine a bytewise memory and
      writes read back (C5, C6; also [lookup_cache_transparent], [write_atomic] and
      [raw_access_bytes]); vm_copy is a snapshot ([vm_copy_snapshot]); the search
      finds the first hole (C7); every mapping operation keeps [vm_ok], changes exactly its range
      and leaves no trace when it fails (C8, C9; [munmap_correct],
      [mprotect_all_or_nothing], [private_copy_replaces], [direct_mmap_correct]).
      The traps: vm_allocate takes no page in use (C13), vm_map is all or nothing
      (C14), byte ranges are rounded to the pages they touch
      ([vm_byte_ranges_rounded]).
    - System calls: whatever the guest does, the host is asked only for what the
      mounts allow (C2); strings are copied as bytewise ([copy_cstring_exact]),
      symbolic links stay in their mount (C25), readv delivers what was read (C26),
      asynchronous reads are delivered once ([aio_delivered_once]); calls on the host
      process are refused ([refused_calls]); [writev_adds_errno] shows a wrong error
      number.
    - Host calls: an interruption that finds no active call has stopped all that are
      published, in every interleaving; which calls are not published (C3).
    - Launch: the start code reads back what the initial stack was built from (C27);
      the environment is exactly the selected one ([environment_exact]); the link
      operations are safe (C28, [publish_layout_safe]) and the link target resolves
      to the bundle ([relative_target_resolves]); an image is selected safely
      ([select_image_safe]) and loading maps exactly its segments (C29); [unaligned_segment_escapes] shows
      a segment that reaches behind the file's mapping.
    - Timers: no lost wakeup ([readiness_notified]); [stale_expirations_ignored],
      [timer_queue_invariant], [expirations_accumulate], [take_delivers_once] and
      [stop_is_final].
    - Synchronisation: no lost mutex handoff (C10, [no_lost_condition_signal]);
      conservation (C11); reader-writer grants and the word that
      reports them (C12, [no_pending_rwlock_grant]); the generation order ([sequence_order]); [interrupted_wait_loses_handoff] shows
      the one way a handoff is lost.  Cooperative threads: fairness ([scheduler_fair]);
      transparent switches ([context_switch_transparent]); [next_thread_round_robin], [park_never_strands],
      [cooperative_wake_exact] and [cooperative_handoff].
    - Suspension: a suspended thread stays where it is (C37), and a snapshot is what
      the registers were at a moment of the request (C38).
    - Workqueue: the pool stays bounded (C30), no accepted work is lost or done
      twice (C31), when the pump rests no work is left that could run (C32), and it
      does rest (C33); a start makes the worker libpthread expects or nothing (C34);
      [manager_spends_compensation] shows where the allowance of a blocked worker
      goes to the event manager.
      Without native threads an upcall is transparent to the thread it interrupts
      (C35); every request is served once, in order, and every event at most once,
      with the reason for one that is not (C36);
      [rotation_traps_in_upcall] shows a switch of threads that stops the guest under
      an upcall, [failed_upcall_loses_event] an event that is lost.
    - Mach messages: no request that MachMessages.v serves reaches outside its buffer
      and no reply to one claims more than the guest's (C39); clients read back what
      the host answered (C40);
      [mach_port_type_overflows] shows a reply written behind its buffer.
    - Debugger: the logical memory (C15), transparency of breakpoints (C16), and
      [failed_relock_leaves_trap], the case that leaves an untracked trap; function
      starts name the same functions ([function_starts_preserved]), and rewriting a
      copy is memory safe ([normalize_macho_safe]).
    - Callbacks: no submitter is left behind (C17), order and at-most-once (C18).
    - Mach-O and signatures: the image parser returns only well-formed images (C19);
      the signature parser accepts exactly the well-formed inputs (C20,
      [directory_parser_exact]); rewriting a directory (C21) and re-signing an
      encrypted slice (C22); the injected file is read back as planned (C23);
      [copy_then_verify] and [create_signing_metadata_ok].
    - Paths: normalisation equals its reference (C24) and no guest path leaves its
      mount ([guest_to_host_contained]); [root_mount_doubles_slash] shows where the
      root mount prints a slash twice.

    ** Conventions, bounds and fuel

    Integers are [Z]; [u32] and [u64] mark where the code wraps.  Bytes are [Z].
    A pointer is its address, an offset into its allocation or the identity of its
    allocation, 0 is null.  Errors are results: [option], [outcome], a sum, or the
    pair of a return value and the state.  An assertion that fails in the code is
    [None] of the mapping operations; the theorems show it does not happen.  Code
    under one mutex is one step; concurrency is the order of steps, quantified over
    in [run].

    Fuel bounds loops that are not structural, each with a proof that it is enough:
    the chunk loop (one per page of the range, [chunks_total]), the search of a free
    range (one per mapped page, [search_fuel_enough]), the wake loops of Psynch.v
    and CoopThreads.v (one per waiter, [wake_all_spec] and [coop_wake_loop_all]),
    the debugger's host write (one per byte, [write_host_spec]), the scan of a
    scatter vector ([scatter_fuel_enough]), the options of LC_LINKER_OPTION (at most
    one per byte, [linker_options_bounded]), the chunks of a copy
    ([chunk_fuel_enough]), ULEB128 (ten bytes, [uleb_roundtrip]), the stream of
    function starts (one per byte, [normalize_fuel]), the path loop (one per
    byte, [normalize_loop_ok]), the components of a link target (one per byte,
    [symlink_target_exact]), the chunks of a copied string (one per byte,
    [copy_cstring_exact]), the thread states of a command (one per byte,
    [thread_states_safe]: running out would be [Fault]) and the rounds of the pump
    (six when nothing interferes, [pump_terminates]).  The attempts of pread and
    pwrite have a bound as a parameter: [IoPending] is a call that has not returned,
    and [read_at_total], [read_at_complete] and [write_at_complete] say when it has.

    ** Not modelled

    The recompiler and its callbacks (dynarmic_callbacks.cpp but for [CallSVC]); of
    the dispatcher the numbers listed in [elsewhere], the Mach traps' dispatch and
    the private calls above 1000; fcntl, ioctl, sysctl and kevent calls;
    allocation failures inside system-call handlers; the pauses after an
    interruptible call; native JIT workers and their lifecycle, thread creation,
    thread policies and the signal calls, the debugger's writes into the context an upcall interrupted,
    of mach_msg the receive half and the requests that MachMessages.v does not name,
    the rest of the debugger server, the encrypted remap and the launch sequence of
    LiveExec32Shared.cpp, the
    search for the shim marker (LegacyBundleLayout.c), crash reports and diagnostics
    logging; of the tweak the staging directory, the external signer, file flags and
    the final rename; and the framework shims written in Objective-C.  The calls
    that only invalidate translations are recorded in [jitInvalidations] of [vm]. *)

From stdpp Require Import base gmap list fin_maps list_numbers.
From Stdlib Require Import ZArith Lia.

Open Scope Z_scope.

(** ** Machine integers

    Every integer of the code is a [Z]; the width is written out where the C++
    type wraps around. *)

Definition U32_MOD : Z := 2 ^ 32.
Definition U64_MOD : Z := 2 ^ 64.
Definition u32 (z : Z) : Z := z mod U32_MOD.
Definition u64 (z : Z) : Z := z mod U64_MOD.
Definition UINT32_MAX : Z := U32_MOD - 1.
Definition UINT64_MAX : Z := U64_MOD - 1.
Definition INT64_MAX : Z := 2 ^ 63 - 1.

(** Two's-complement reading of a 64-bit pattern. *)
Definition i64 (z : Z) : Z :=
  let m := z mod U64_MOD in if m <=? INT64_MAX then m else m - U64_MOD.

(** [~x] on a [uint64_t] / [uint32_t]. *)
Definition u64_not (x : Z) : Z := UINT64_MAX - x.
Definition u32_not (x : Z) : Z := UINT32_MAX - x.

(** [(x & m) != 0]. *)
Definition has_flag (x m : Z) : bool := negb (Z.land x m =? 0).

(** [(x & m) == m]. *)
Definition has_all (x m : Z) : bool := Z.land x m =? m.

(** ** Darwin constants the sources use *)

Definition EPERM : Z := 1.
Definition ENOENT : Z := 2.
Definition ESRCH : Z := 3.
Definition EINTR : Z := 4.
Definition EIO : Z := 5.
Definition ENOMEM : Z := 12.
Definition EACCES : Z := 13.
Definition EFAULT : Z := 14.
Definition EEXIST : Z := 17.
Definition EINVAL : Z := 22.
Definition ENOSPC : Z := 28.
Definition ETIMEDOUT : Z := 60.
Definition EOVERFLOW : Z := 84.
Definition ECANCELED : Z := 89.

Definition PROT_READ : Z := 1.
Definition PROT_WRITE : Z := 2.
Definition PROT_EXEC : Z := 4.

Definition KERN_SUCCESS : Z := 0.
Definition KERN_INVALID_ADDRESS : Z := 1.
Definition KERN_PROTECTION_FAILURE : Z := 2.
Definition KERN_NO_SPACE : Z := 3.
Definition KERN_INVALID_ARGUMENT : Z := 4.
Definition KERN_FAILURE : Z := 5.
Definition KERN_RESOURCE_SHORTAGE : Z := 6.
Definition KERN_NOT_SUPPORTED : Z := 46.

(** ** Automation *)

Create HintDb lc32.

(** Turn the boolean tests of the code into propositions. *)
Ltac zb :=
  repeat match goal with
  | H : (_ =? _) = true |- _ => apply Z.eqb_eq in H
  | H : (_ =? _) = false |- _ => apply Z.eqb_neq in H
  | H : (_ <? _) = true |- _ => apply Z.ltb_lt in H
  | H : (_ <? _) = false |- _ => apply Z.ltb_ge in H
  | H : (_ <=? _) = true |- _ => apply Z.leb_le in H
  | H : (_ <=? _) = false |- _ => apply Z.leb_gt in H
  | H : (_ && _)%bool = true |- _ => apply andb_true_iff in H as [? ?]
  | H : (_ || _)%bool = false |- _ => apply orb_false_iff in H as [? ?]
  | H : negb _ = true |- _ => apply negb_true_iff in H
  | H : negb _ = false |- _ => apply negb_false_iff in H
  end.

(** Case on the guard of the first [if] or [match] of the goal. *)
Ltac case_if :=
  match goal with
  | |- context [if ?b then _ else _] => destruct b eqn:?
  end.

(** ** 32/64-bit arithmetic lemmas *)

Lemma u64_small z : 0 <= z < U64_MOD -> u64 z = z.
Proof. intros H. apply Z.mod_small, H. Qed.

Lemma u32_small z : 0 <= z < U32_MOD -> u32 z = z.
Proof. intros H. apply Z.mod_small, H. Qed.

Lemma u64_range z : 0 <= u64 z < U64_MOD.
Proof. apply Z.mod_pos_bound. reflexivity. Qed.

Lemma u32_range z : 0 <= u32 z < U32_MOD.
Proof. apply Z.mod_pos_bound. reflexivity. Qed.

#[export] Hint Resolve u64_small u32_small u64_range u32_range : lc32.

Lemma land_u64_not_ones (a n : Z) :
  0 <= n <= 64 -> 0 <= a < U64_MOD ->
  Z.land a (u64_not (Z.ones n)) = 2 ^ n * (a / 2 ^ n).
Proof.
  intros Hn Ha.
  assert (u64_not (Z.ones n) = Z.ldiff (Z.ones 64) (Z.ones n)) as ->.
  { assert (0 < 2 ^ n) by (apply Z.pow_pos_nonneg; lia).
    rewrite Z.ldiff_ones_r by lia. rewrite Z.shiftl_mul_pow2 by lia.
    rewrite Z.shiftr_div_pow2 by lia. rewrite !Z.ones_equiv.
    unfold u64_not, UINT64_MAX, U64_MOD.
    replace (2 ^ 64) with (2 ^ n * 2 ^ (64 - n)) by (rewrite <- Z.pow_add_r by lia; f_equal; lia).
    assert (0 < 2 ^ (64 - n)) by (apply Z.pow_pos_nonneg; lia).
    replace (Z.pred (2 ^ n * 2 ^ (64 - n)))
      with ((2 ^ n - 1) + (2 ^ (64 - n) - 1) * 2 ^ n) by (unfold Z.pred; ring).
    rewrite Z.div_add by lia. rewrite Z.div_small by lia. unfold Z.pred. ring. }
  assert (Z.land a (Z.ldiff (Z.ones 64) (Z.ones n)) = Z.ldiff (Z.land a (Z.ones 64)) (Z.ones n)) as ->.
  { apply Z.bits_inj'. intros i Hi.
    rewrite !Z.land_spec, !Z.ldiff_spec, !Z.land_spec. apply andb_assoc. }
  rewrite Z.land_ones, Z.ldiff_ones_r by lia.
  rewrite (Z.mod_small a) by exact Ha.
  rewrite Z.shiftl_mul_pow2, Z.shiftr_div_pow2 by lia. ring.
Qed.

(** ** Guest pages (dynarmic.h) *)

Definition DYN_PAGE_BITS : Z := 12.
Definition DYN_PAGE_SIZE : Z := 4096.
Definition DYN_PAGE_MASK : Z := 4095.

(** [address & ~DYN_PAGE_MASK] on a [u64]. *)
Definition page_base (address : Z) : Z := Z.land address (u64_not DYN_PAGE_MASK).

(** [address & DYN_PAGE_MASK]. *)
Definition page_offset (address : Z) : Z := Z.land address DYN_PAGE_MASK.

Lemma page_offset_mod a : page_offset a = a mod DYN_PAGE_SIZE.
Proof. exact (Z.land_ones a 12 ltac:(lia)). Qed.

Lemma page_base_div a : 0 <= a < U64_MOD -> page_base a = DYN_PAGE_SIZE * (a / DYN_PAGE_SIZE).
Proof. intros Ha. exact (land_u64_not_ones a 12 ltac:(lia) Ha). Qed.

Lemma page_offset_range a : 0 <= page_offset a < DYN_PAGE_SIZE.
Proof. rewrite page_offset_mod. apply Z.mod_pos_bound. reflexivity. Qed.

Lemma page_split a : 0 <= a < U64_MOD -> a = page_base a + page_offset a.
Proof.
  intros Ha. rewrite page_base_div, page_offset_mod by done. apply Z.div_mod. done.
Qed.

Lemma page_base_aligned a : 0 <= a < U64_MOD -> page_base a mod DYN_PAGE_SIZE = 0.
Proof. intros Ha. rewrite page_base_div by done. rewrite Z.mul_comm. apply Z.mod_mul. done. Qed.

Lemma page_base_le a : 0 <= a < U64_MOD -> 0 <= page_base a <= a.
Proof.
  intros Ha. pose proof (page_split a Ha). pose proof (page_offset_range a).
  rewrite page_base_div in * by done.
  assert (0 <= a / DYN_PAGE_SIZE) by (apply Z.div_pos; unfold DYN_PAGE_SIZE; lia).
  unfold DYN_PAGE_SIZE in *. lia.
Qed.

(** Addresses of one page share its base. *)
Lemma page_base_add a i :
  0 <= a < U64_MOD -> 0 <= i < DYN_PAGE_SIZE - page_offset a ->
  page_base (a + i) = page_base a /\ page_offset (a + i) = page_offset a + i.
Proof.
  intros Ha Hi. pose proof (page_offset_range a) as Ho. pose proof (page_split a Ha) as Hs.
  rewrite page_base_div in Hs by done.
  assert (a + i = DYN_PAGE_SIZE * (a / DYN_PAGE_SIZE) + (page_offset a + i)) as E by lia.
  assert ((a + i) / DYN_PAGE_SIZE = a / DYN_PAGE_SIZE) as Hd.
  { rewrite E, Z.mul_comm, Z.div_add_l by done. rewrite (Z.div_small (_ + i)) by lia. lia. }
  assert ((a + i) mod DYN_PAGE_SIZE = page_offset a + i) as Hm.
  { rewrite E, Z.mul_comm, Z.add_comm, Z.mod_add by done. apply Z.mod_small. lia. }
  assert (0 <= a + i < U64_MOD).
  { split; [unfold DYN_PAGE_SIZE in *; lia|].
    assert (a / DYN_PAGE_SIZE <= (U64_MOD - 1) / DYN_PAGE_SIZE).
    { apply Z.div_le_mono; unfold DYN_PAGE_SIZE; lia. }
    change ((U64_MOD - 1) / DYN_PAGE_SIZE) with (2 ^ 52 - 1) in *.
    change U64_MOD with (DYN_PAGE_SIZE * 2 ^ 52). unfold DYN_PAGE_SIZE in *. lia. }
  rewrite !page_base_div, !page_offset_mod in * by lia. rewrite Hd. auto.
Qed.

Lemma page_base_aligned_id a :
  0 <= a < U64_MOD -> a mod DYN_PAGE_SIZE = 0 -> page_base a = a.
Proof.
  intros Ha Hm. pose proof (page_split a Ha) as H. rewrite page_offset_mod, Hm in H. lia.
Qed.

(** The addresses a [for(v = a; v < e; v += DYN_PAGE_SIZE)] loop visits. *)
Definition page_addrs (a e : Z) : list Z :=
  (fun i => a + i * DYN_PAGE_SIZE) <$> seqZ 0 ((e - a + DYN_PAGE_MASK) / DYN_PAGE_SIZE).

Lemma elem_of_page_addrs a e x :
  x ∈ page_addrs a e <-> a <= x < e /\ (x - a) mod DYN_PAGE_SIZE = 0.
Proof.
  unfold page_addrs. rewrite list_elem_of_fmap. setoid_rewrite elem_of_seqZ.
  unfold DYN_PAGE_SIZE, DYN_PAGE_MASK. split.
  - intros (i & -> & Hi). split.
    + pose proof (Z.mul_div_le (e - a + 4095) 4096 ltac:(lia)). lia.
    + replace (a + i * 4096 - a) with (i * 4096) by lia. by apply Z.mod_mul.
  - intros [Hx Hm]. exists ((x - a) / 4096).
    pose proof (Z.div_mod (x - a) 4096 ltac:(lia)).
    split; [lia|]. split; [apply Z.div_pos; lia|].
    rewrite Z.add_0_l. apply Z.div_lt_upper_bound; [lia|].
    pose proof (Z.mul_succ_div_gt (e - a + 4095) 4096 ltac:(lia)). lia.
Qed.

Lemma NoDup_page_addrs a e : NoDup (page_addrs a e).
Proof.
  unfold page_addrs. apply NoDup_fmap_2; [|apply NoDup_seqZ].
  intros i j. unfold DYN_PAGE_SIZE. lia.
Qed.

(** ** Page-sized chunks

    [while(size != 0) { ...; chunk = min(size, DYN_PAGE_SIZE - pageOffset);
    address += chunk; size -= chunk; }]: the (address, chunk) pairs the loop
    visits.  The fuel is one more than the number of pages the range can touch
    ([chunks_total] shows it never runs out). *)
Fixpoint chunks_fuel (fuel : nat) (address size : Z) : list (Z * Z) :=
  match fuel with
  | O => []
  | S f =>
      if size =? 0 then []
      else
        let chunk := Z.min size (DYN_PAGE_SIZE - page_offset address) in
        (address, chunk) :: chunks_fuel f (address + chunk) (size - chunk)
  end.

Definition chunks (address size : Z) : list (Z * Z) :=
  chunks_fuel (Z.to_nat (size / DYN_PAGE_SIZE + 2)) address size.

(** Guest addresses of one chunk, byte by byte. *)
Definition chunk_bytes (c : Z * Z) : list Z := seqZ (fst c) (snd c).

Lemma chunks_fuel_bytes fuel address size :
  0 <= size ->
  size = 0 \/ size + page_offset address <= DYN_PAGE_SIZE * Z.of_nat fuel ->
  concat (chunk_bytes <$> chunks_fuel fuel address size) = seqZ address size.
Proof.
  revert address size. induction fuel as [|f IH]; intros address size Hs Hf; cbn -[Z.of_nat].
  - pose proof (page_offset_range address). rewrite seqZ_nil by lia. done.
  - destruct (size =? 0) eqn:E; zb; [subst; done|]. destruct Hf as [?|Hf]; [done|].
    pose proof (page_offset_range address) as Ho.
    set (c := Z.min size (DYN_PAGE_SIZE - page_offset address)) in *.
    cbn. rewrite IH; unfold chunk_bytes; cbn.
    + rewrite <- seqZ_app by lia. f_equal. lia.
    + lia.
    + destruct (Z.eq_dec c size) as [->|Hne].
      * left. lia.
      * right. assert (c = DYN_PAGE_SIZE - page_offset address) as Hc by lia.
        assert (page_offset (address + c) = 0) as ->; [|lia].
        rewrite page_offset_mod, Hc, page_offset_mod.
        replace (address + (DYN_PAGE_SIZE - address mod DYN_PAGE_SIZE))
          with ((address / DYN_PAGE_SIZE + 1) * DYN_PAGE_SIZE)
          by (pose proof (Z.div_mod address DYN_PAGE_SIZE ltac:(done)); lia).
        apply Z.mod_mul. done.
Qed.

Lemma chunks_total address size :
  0 <= size -> concat (chunk_bytes <$> chunks address size) = seqZ address size.
Proof.
  intros Hs. apply chunks_fuel_bytes; [done|]. right.
  pose proof (page_offset_range address).
  assert (0 <= size / DYN_PAGE_SIZE) by (apply Z.div_pos; unfold DYN_PAGE_SIZE; lia).
  rewrite Z2Nat.id by lia.
  pose proof (Z.mul_succ_div_gt size DYN_PAGE_SIZE ltac:(done)).
  unfold DYN_PAGE_SIZE in *. lia.
Qed.

(** Every chunk is non-empty, stays inside one page and inside the range. *)
Lemma chunks_fuel_inside fuel address size a c :
  0 <= size -> (a, c) ∈ chunks_fuel fuel address size ->
  address <= a /\ 0 < c <= DYN_PAGE_SIZE - page_offset a /\ a + c <= address + size.
Proof.
  revert address size. induction fuel as [|f IH]; intros address size Hs; cbn.
  - by intros ?%elem_of_nil.
  - destruct (size =? 0) eqn:E; zb; [by intros ?%elem_of_nil|].
    pose proof (page_offset_range address).
    intros [[= -> ->]|Hin]%elem_of_cons; [lia|].
    apply IH in Hin; lia.
Qed.

Lemma chunks_inside address size a c :
  0 <= size -> (a, c) ∈ chunks address size ->
  address <= a /\ 0 < c <= DYN_PAGE_SIZE - page_offset a /\ a + c <= address + size.
Proof. apply chunks_fuel_inside. Qed.
