(* ===== verification/VmEpoch.v ===== *)
(** Epoch-based reclamation of retired guest memory backings
    (src/HostFrameworks/LC32/dynarmic.cpp, [guestVmEpochMutex] and below;
    structures in dynarmic_internal.h).

    A running JIT may hold a host pointer it loaded from the fast-path page
    table.  A backing whose last guest page went away is therefore only
    [retired]; it is unmapped once every participant that was running when it
    was retired has left its guarded section.  The file models the registry,
    the five operations that take [guestVmEpochMutex], and proves that a
    backing visible to a running participant is never unmapped under it. *)

From S2P Require Import Prelude.
From stdpp Require Import base gmap list fin_maps list_numbers.
From Stdlib Require Import ZArith Lia.
Open Scope Z_scope.

(** What the memory map expects of the retirement queue: retiring a backing
    moves exactly that backing out of circulation, either pending or
    unmapped.  [RetireMemoryBacking] below is the implementation. *)
Class Retirement (E : Type) := {
  retire : Z -> E -> E;
  (** backings handed to the queue: still pending, or already unmapped *)
  given_up : E -> gset Z;
  retire_given_up : forall b e, b <> 0 -> given_up (retire b e) = {[b]} ∪ given_up e;
  retire_null : forall e, retire 0 e = e;
}.

Module VmEpoch.

(** [struct GuestVmEpochParticipant]. *)
Record GuestVmEpochParticipant := {
  epoch : Z;
  activeDepth : Z;
  registered : bool;
}.

(** [struct RetiredMemoryBacking]: the backing pointer and its epoch. *)
Record RetiredMemoryBacking := {
  backing : Z;
  retirementEpoch : Z;
}.

(** The globals behind [guestVmEpochMutex].  [participants] is the storage of
    the participant structures by pointer (0 is the null pointer); [released]
    logs the backings passed to munmap and free, newest first. *)
Record state := {
  guestVmEpoch : Z;
  participants : gmap Z GuestVmEpochParticipant;
  guestVmEpochParticipants : list Z;
  retiredMemoryBackings : list RetiredMemoryBacking;
  released : list Z;
}.

Definition with_epoch n s := {| guestVmEpoch := n; participants := participants s;
  guestVmEpochParticipants := guestVmEpochParticipants s;
  retiredMemoryBackings := retiredMemoryBackings s; released := released s |}.
Definition with_participants m s := {| guestVmEpoch := guestVmEpoch s; participants := m;
  guestVmEpochParticipants := guestVmEpochParticipants s;
  retiredMemoryBackings := retiredMemoryBackings s; released := released s |}.
Definition with_registry l s := {| guestVmEpoch := guestVmEpoch s; participants := participants s;
  guestVmEpochParticipants := l;
  retiredMemoryBackings := retiredMemoryBackings s; released := released s |}.
Definition with_retired l s := {| guestVmEpoch := guestVmEpoch s; participants := participants s;
  guestVmEpochParticipants := guestVmEpochParticipants s;
  retiredMemoryBackings := l; released := released s |}.
Definition with_released l s := {| guestVmEpoch := guestVmEpoch s; participants := participants s;
  guestVmEpochParticipants := guestVmEpochParticipants s;
  retiredMemoryBackings := retiredMemoryBackings s; released := l |}.

Definition initial : state := {| guestVmEpoch := 1; participants := ∅;
  guestVmEpochParticipants := []; retiredMemoryBackings := []; released := [] |}.

(** The [safe] scan of one retired backing: no registered participant is
    active since before the retirement. *)
Definition blocks (s : state) (r : RetiredMemoryBacking) (p : Z) : bool :=
  negb (p =? 0) &&
  match participants s !! p with
  | Some q => negb (activeDepth q =? 0) && (epoch q <? retirementEpoch r)
  | None => false
  end.

Definition safe (s : state) (r : RetiredMemoryBacking) : bool :=
  forallb (fun p => negb (blocks s r p)) (guestVmEpochParticipants s).

(** The iterator loop of [ReclaimRetiredMemoryBackingsLocked]: unsafe entries
    are skipped over, safe ones are unmapped, freed and erased.  A failing
    munmap is only logged; the structure is freed either way. *)
Fixpoint ReclaimLoop (s : state) (l : list RetiredMemoryBacking) (released : list Z)
    : list RetiredMemoryBacking * list Z :=
  match l with
  | [] => ([], released)
  | r :: rest =>
      if safe s r then ReclaimLoop s rest (backing r :: released)
      else let '(kept, out) := ReclaimLoop s rest released in (r :: kept, out)
  end.

Definition ReclaimRetiredMemoryBackingsLocked (s : state) : state :=
  let '(kept, out) := ReclaimLoop s (retiredMemoryBackings s) (released s) in
  with_released out (with_retired kept s).

(** [RegisterGuestVmEpochParticipant]. *)
Definition RegisterGuestVmEpochParticipant (p : Z) (s : state) : state :=
  if p =? 0 then s else
  match participants s !! p with
  | Some q =>
      if registered q then s else
      with_registry (guestVmEpochParticipants s ++ [p])
        (with_participants (<[p := {| epoch := guestVmEpoch s; activeDepth := 0;
                                      registered := true |}]> (participants s)) s)
  | None => s
  end.

(** [UnregisterGuestVmEpochParticipant]; [None] is the failed assertion. *)
Definition UnregisterGuestVmEpochParticipant (p : Z) (s : state) : option state :=
  if p =? 0 then Some s else
  match participants s !! p with
  | Some q =>
      if negb (registered q) then Some s else
      if negb (activeDepth q =? 0) then None else
      let s1 := with_registry (filter (fun x => x <> p) (guestVmEpochParticipants s)) s in
      let s2 := with_participants (<[p := {| epoch := epoch q; activeDepth := activeDepth q;
                                             registered := false |}]> (participants s1)) s1 in
      Some (ReclaimRetiredMemoryBackingsLocked s2)
  | None => Some s
  end.

(** [RetireMemoryBacking]: [++guestVmEpoch] stamps the entry. *)
Definition RetireMemoryBacking (b : Z) (s : state) : state :=
  if b =? 0 then s else
  let e := u64 (guestVmEpoch s + 1) in
  ReclaimRetiredMemoryBackingsLocked
    (with_retired (retiredMemoryBackings s ++ [{| backing := b; retirementEpoch := e |}])
       (with_epoch e s)).

(** [GuestVmEpochGuard::GuestVmEpochGuard]; [None] is the failed assertion. *)
Definition GuardEnter (p : Z) (s : state) : option state :=
  if p =? 0 then Some s else
  match participants s !! p with
  | Some q =>
      if negb (registered q) then None else
      Some (with_participants (<[p := {|
        epoch := if activeDepth q =? 0 then guestVmEpoch s else epoch q;
        activeDepth := u64 (activeDepth q + 1);
        registered := true |}]> (participants s)) s)
  | None => Some s
  end.

(** [GuestVmEpochGuard::~GuestVmEpochGuard]. *)
Definition GuardExit (p : Z) (s : state) : option state :=
  if p =? 0 then Some s else
  match participants s !! p with
  | Some q =>
      if activeDepth q =? 0 then None else
      let s1 := with_participants (<[p := {| epoch := epoch q;
        activeDepth := u64 (activeDepth q - 1); registered := registered q |}]>
        (participants s)) s in
      Some (if u64 (activeDepth q - 1) =? 0 then ReclaimRetiredMemoryBackingsLocked s1 else s1)
  | None => Some s
  end.

(** The operations in the order their critical sections run.  [New] is the
    construction of a [GuestVmEpochParticipant] (a static object or a member
    of a [NativeGuestJit]). *)
Inductive op :=
| New (p : Z)
| Register (p : Z)
| Unregister (p : Z)
| Retire (b : Z)
| Enter (p : Z)
| Exit (p : Z).

Definition step (o : op) (s : state) : option state :=
  match o with
  | New p => if decide (p <> 0 /\ participants s !! p = None) then
               Some (with_participants (<[p := {| epoch := 0; activeDepth := 0;
                                                  registered := false |}]> (participants s)) s)
             else Some s
  | Register p => Some (RegisterGuestVmEpochParticipant p s)
  | Unregister p => UnregisterGuestVmEpochParticipant p s
  | Retire b => Some (RetireMemoryBacking b s)
  | Enter p => GuardEnter p s
  | Exit p => GuardExit p s
  end.

(** Backings given up so far: pending or unmapped. *)
Definition pending (s : state) : gset Z :=
  list_to_set (backing <$> retiredMemoryBackings s).
Definition gone (s : state) : gset Z := list_to_set (released s).
Definition limbo (s : state) : gset Z := pending s ∪ gone s.

(** *** Reclaim *)

Lemma ReclaimLoop_spec s l out :
  ReclaimLoop s l out =
    (filter (fun r => safe s r = false) l,
     reverse (backing <$> filter (fun r => safe s r = true) l) ++ out).
Proof.
  revert out. induction l as [|r l IH]; intros out; [done|]. cbn [ReclaimLoop].
  rewrite !filter_cons. destruct (safe s r) eqn:E.
  - rewrite IH. rewrite decide_False, decide_True by congruence.
    by rewrite fmap_cons, reverse_cons, <- app_assoc.
  - rewrite IH. by rewrite decide_True, decide_False by congruence.
Qed.

Lemma reclaim_epoch s :
  guestVmEpoch (ReclaimRetiredMemoryBackingsLocked s) = guestVmEpoch s.
Proof. unfold ReclaimRetiredMemoryBackingsLocked. by destruct (ReclaimLoop _ _ _). Qed.
Lemma reclaim_participants s :
  participants (ReclaimRetiredMemoryBackingsLocked s) = participants s.
Proof. unfold ReclaimRetiredMemoryBackingsLocked. by destruct (ReclaimLoop _ _ _). Qed.
Lemma reclaim_registry s :
  guestVmEpochParticipants (ReclaimRetiredMemoryBackingsLocked s) = guestVmEpochParticipants s.
Proof. unfold ReclaimRetiredMemoryBackingsLocked. by destruct (ReclaimLoop _ _ _). Qed.
Lemma reclaim_retired s :
  retiredMemoryBackings (ReclaimRetiredMemoryBackingsLocked s) =
    filter (fun r => safe s r = false) (retiredMemoryBackings s).
Proof. unfold ReclaimRetiredMemoryBackingsLocked. by rewrite ReclaimLoop_spec. Qed.
Lemma reclaim_released s b :
  b ∈ released (ReclaimRetiredMemoryBackingsLocked s) <->
    b ∈ released s \/ exists r, r ∈ retiredMemoryBackings s /\ safe s r = true /\ backing r = b.
Proof.
  unfold ReclaimRetiredMemoryBackingsLocked. rewrite ReclaimLoop_spec. cbn.
  rewrite elem_of_app, elem_of_reverse, list_elem_of_fmap.
  setoid_rewrite list_elem_of_filter. naive_solver.
Qed.

Lemma reclaim_limbo s : limbo (ReclaimRetiredMemoryBackingsLocked s) = limbo s.
Proof.
  apply set_eq. intros b. unfold limbo, pending, gone.
  rewrite !elem_of_union, !elem_of_list_to_set, reclaim_released, reclaim_retired.
  rewrite !list_elem_of_fmap. setoid_rewrite list_elem_of_filter.
  split; [naive_solver|].
  intros [(r & -> & Hr)|?]; [|by eauto].
  destruct (safe s r) eqn:E; naive_solver.
Qed.

Create Rewrite HintDb reclaim.
#[export] Hint Rewrite reclaim_epoch reclaim_participants reclaim_registry : reclaim.

Lemma retire_limbo b s : b <> 0 -> limbo (RetireMemoryBacking b s) = {[b]} ∪ limbo s.
Proof.
  intros Hb. unfold RetireMemoryBacking. destruct (b =? 0) eqn:E; zb; [done|].
  rewrite reclaim_limbo. unfold limbo, pending, gone. cbn.
  rewrite fmap_app. cbn. rewrite list_to_set_app_L. cbn. set_solver.
Qed.

#[global] Instance epoch_retirement : Retirement state := {|
  retire := RetireMemoryBacking;
  given_up := limbo;
  retire_given_up := retire_limbo;
  retire_null := fun e => eq_refl;
|}.

(** *** Safety of reclamation

    The ghost state pairs the registry with [held]: for every participant in a
    guarded section, the backings that had not been given up when its
    outermost guard was entered.  These are the ones its JIT may have loaded a
    pointer to before they left the page table. *)

Definition active (s : state) (p : Z) : Prop :=
  exists q, participants s !! p = Some q /\ activeDepth q <> 0.

(** The ghost map after an operation: an outermost [Enter] records what is in
    circulation among [universe], the last [Exit] forgets it. *)
Definition held_step (universe : gset Z) (o : op) (s : state) (h : gmap Z (gset Z))
    : gmap Z (gset Z) :=
  match o with
  | Enter p =>
      match participants s !! p with
      | Some q => if activeDepth q =? 0 then <[p := universe ∖ limbo s]> h else h
      | None => h
      end
  | Exit p =>
      match participants s !! p with
      | Some q => if activeDepth q =? 1 then delete p h else h
      | None => h
      end
  | _ => h
  end.

Fixpoint run (universe : gset Z) (ops : list op) (s : state) (h : gmap Z (gset Z))
    : option (state * gmap Z (gset Z)) :=
  match ops with
  | [] => Some (s, h)
  | o :: rest =>
      match step o s with
      | Some s' => run universe rest s' (held_step universe o s h)
      | None => None
      end
  end.

(** Registry invariant, with the bound on the counters that [n] operations
    from the start allow. *)
Record inv (n : Z) (s : state) (h : gmap Z (gset Z)) : Prop := {
  inv_epoch : 1 <= guestVmEpoch s <= n + 1;
  inv_depth : forall p q, participants s !! p = Some q -> 0 <= activeDepth q <= n;
  inv_pepoch : forall p q, participants s !! p = Some q -> activeDepth q <> 0 ->
    epoch q <= guestVmEpoch s;
  inv_registered : forall p q, participants s !! p = Some q -> activeDepth q <> 0 ->
    registered q = true;
  inv_listed : forall p q, participants s !! p = Some q -> registered q = true ->
    p ∈ guestVmEpochParticipants s;
  inv_null : participants s !! 0 = None;
  inv_retired : forall r, r ∈ retiredMemoryBackings s -> retirementEpoch r <= guestVmEpoch s;
  inv_held : forall p bs, h !! p = Some bs -> active s p;
  inv_held_pending : forall p q bs r, h !! p = Some bs -> participants s !! p = Some q ->
    r ∈ retiredMemoryBackings s -> backing r ∈ bs -> epoch q < retirementEpoch r;
  inv_held_gone : forall p bs b, h !! p = Some bs -> b ∈ bs -> b ∉ released s;
}.

Lemma initial_inv : inv 0 initial ∅.
Proof.
  split; cbn; intros; try lia;
    repeat match goal with
    | H : ∅ !! _ = Some _ |- _ => by rewrite lookup_empty in H
    | H : _ ∈ [] |- _ => by apply elem_of_nil in H
    end. done.
Qed.

Lemma inv_mono n m s h : n <= m -> inv n s h -> inv m s h.
Proof. intros Hm []. split; eauto; try lia. intros p q Hp. specialize (inv_depth0 p q Hp). lia. Qed.

(** Reclaiming keeps the invariant: a held backing that is pending is blocked
    by the participant that holds it. *)
Lemma reclaim_inv n s h : inv n s h -> inv n (ReclaimRetiredMemoryBackingsLocked s) h.
Proof.
  intros I. destruct I. split; autorewrite with reclaim; eauto.
  - intros r. rewrite reclaim_retired, list_elem_of_filter. naive_solver.
  - intros p bs Hp. destruct (inv_held0 p bs Hp) as (q & Hq & ?).
    exists q. by autorewrite with reclaim.
  - intros p q bs r. rewrite reclaim_retired, list_elem_of_filter. naive_solver.
  - intros p bs b Hp Hb. rewrite reclaim_released. intros [?|(r & Hr & Hsafe & <-)].
    + by eapply inv_held_gone0.
    + destruct (inv_held0 p bs Hp) as (q & Hq & Hact).
      assert (p <> 0) as Hp0 by (intros ->; congruence).
      pose proof (inv_listed0 p q Hq (inv_registered0 p q Hq Hact)) as Hin.
      unfold safe in Hsafe. rewrite forallb_forall in Hsafe.
      specialize (Hsafe p (proj1 (list_elem_of_In _ _) Hin)). zb.
      unfold blocks in Hsafe. rewrite Hq in Hsafe.
      specialize (inv_held_pending0 p q bs r Hp Hq Hr Hb).
      destruct (p =? 0) eqn:?, (activeDepth q =? 0) eqn:?, (epoch q <? retirementEpoch r) eqn:?;
        zb; try discriminate; lia.
Qed.

(** *** Every operation keeps the invariant *)

Section steps.
Context (n : Z) (Hn : 0 <= n) (s : state) (h : gmap Z (gset Z)) (I : inv n s h).

(** Replacing a participant that is not active, by one that is not active. *)
Lemma idle_update_inv p q0 q' :
  p <> 0 -> participants s !! p = q0 -> (forall q, q0 = Some q -> activeDepth q = 0) ->
  activeDepth q' = 0 -> (registered q' = true -> p ∈ guestVmEpochParticipants s) ->
  inv n (with_participants (<[p := q']> (participants s)) s) h.
Proof.
  intros Hp0 Hp Hidle Hq' Hreg. destruct I.
  assert (h !! p = None) as Hh.
  { destruct (h !! p) eqn:E; [|done]. destruct (inv_held0 _ _ E) as (q & Hq & ?).
    rewrite Hp in Hq. naive_solver. }
  split; cbn; try done.
  - intros p' q. rewrite lookup_insert. case_decide; intros; simplify_eq; [lia|eauto].
  - intros p' q. rewrite lookup_insert. case_decide; intros; simplify_eq; eauto.
  - intros p' q. rewrite lookup_insert. case_decide; intros; simplify_eq; eauto.
  - intros p' q. rewrite lookup_insert. case_decide; intros; simplify_eq; eauto.
  - by rewrite lookup_insert_ne.
  - intros p' bs Hp'. destruct (inv_held0 _ _ Hp') as (q & Hq & ?).
    exists q. cbn. rewrite lookup_insert_ne by congruence. done.
  - intros p' q bs r Hp'. rewrite lookup_insert_ne by congruence. eauto.
Qed.

Lemma registry_mono_inv l :
  (forall p q, participants s !! p = Some q -> registered q = true ->
     p ∈ guestVmEpochParticipants s -> p ∈ l) ->
  inv n (with_registry l s) h.
Proof. intros Hl. destruct I. split; cbn; eauto. Qed.

(** Deepening or shrinking a section that stays active. *)
Lemma depth_update_inv m p q d :
  n <= m -> participants s !! p = Some q -> activeDepth q <> 0 -> 0 <= d <= m -> d <> 0 ->
  inv m (with_participants (<[p := {| epoch := epoch q; activeDepth := d;
                                      registered := registered q |}]> (participants s)) s) h.
Proof.
  intros Hm Hp Ha Hd Hd0. destruct (inv_mono n m s h Hm I).
  assert (p <> 0) by congruence.
  split; cbn; try done.
  - intros p' q'. rewrite lookup_insert. case_decide; intros; simplify_eq; cbn; eauto.
  - intros p' q'. rewrite lookup_insert. case_decide; intros; simplify_eq; cbn; eauto.
  - intros p' q'. rewrite lookup_insert. case_decide; intros; simplify_eq; cbn; eauto.
  - intros p' q'. rewrite lookup_insert. case_decide; intros; simplify_eq; cbn; eauto.
  - by rewrite lookup_insert_ne.
  - intros p' bs Hp'. destruct (inv_held0 _ _ Hp') as (q' & Hq & ?). unfold active. cbn.
    rewrite lookup_insert. case_decide; eauto.
  - intros p' q' bs r Hp'. rewrite lookup_insert. case_decide; intros; simplify_eq; cbn; eauto.
Qed.

End steps.

Lemma New_inv n s h p s' : 0 <= n -> inv n s h -> step (New p) s = Some s' -> inv n s' h.
Proof.
  intros Hn I. cbn. case_decide as Hp; intros [= <-]; [|done]. destruct Hp as [H0 Hp].
  by refine (idle_update_inv _ Hn _ _ I p None _ H0 Hp _ _ _).
Qed.

Lemma Register_inv n s h p : 0 <= n -> inv n s h -> inv n (RegisterGuestVmEpochParticipant p s) h.
Proof.
  intros Hn I. unfold RegisterGuestVmEpochParticipant.
  destruct (p =? 0) eqn:E0; [done|]. destruct (participants s !! p) as [q|] eqn:Hp; [|done].
  destruct (registered q) eqn:Hr; [done|]. zb.
  assert (inv n (with_registry (guestVmEpochParticipants s ++ [p]) s) h) as I1.
  { eapply registry_mono_inv; [done|]. set_solver. }
  refine (idle_update_inv _ Hn _ _ I1 p (Some q) _ E0 Hp _ _ _); cbn; [|done|set_solver].
  intros ? [= <-]. destruct I. destruct (decide (activeDepth q = 0)) as [|Hne]; [done|].
  specialize (inv_registered0 p q Hp Hne). congruence.
Qed.

Lemma Unregister_inv n s h p s' :
  0 <= n -> inv n s h -> UnregisterGuestVmEpochParticipant p s = Some s' -> inv n s' h.
Proof.
  intros Hn I. unfold UnregisterGuestVmEpochParticipant.
  destruct (p =? 0) eqn:E0; [by intros [= <-]|].
  destruct (participants s !! p) as [q|] eqn:Hp; [|by intros [= <-]].
  destruct (registered q) eqn:Hr; cbn [negb]; [|by intros [= <-]].
  destruct (activeDepth q =? 0) eqn:Hd; cbn [negb]; [|done]. zb.
  intros [= <-]. apply reclaim_inv.
  set (q' := {| epoch := epoch q; activeDepth := activeDepth q; registered := false |}).
  assert (inv n (with_participants (<[p := q']> (participants s)) s) h) as I1.
  { refine (idle_update_inv _ Hn _ _ I p (Some q) q' E0 Hp _ Hd _); [by intros ? [= <-]|done]. }
  refine (registry_mono_inv n _ h I1 _ _). cbn.
  intros p' q''. rewrite lookup_insert. case_decide; intros; simplify_eq/=.
  apply list_elem_of_filter. done.
Qed.

Lemma Retire_inv n s h b :
  0 <= n < UINT64_MAX - 1 -> inv n s h -> inv (n + 1) (RetireMemoryBacking b s) h.
Proof.
  intros Hn I. assert (inv (n + 1) s h) as I' by (eapply inv_mono; [|done]; lia).
  unfold RetireMemoryBacking. destruct (b =? 0); [done|]. apply reclaim_inv.
  pose proof (inv_epoch _ _ _ I) as He. destruct I'. clear I. unfold UINT64_MAX in *.
  assert (u64 (guestVmEpoch s + 1) = guestVmEpoch s + 1) as -> by (apply u64_small; lia).
  split; cbn; eauto; try lia.
  - intros p q Hp Ha. specialize (inv_pepoch0 p q Hp Ha). lia.
  - intros r [Hr|Hr%list_elem_of_singleton]%elem_of_app; [|subst; cbn; lia].
    specialize (inv_retired0 r Hr). lia.
  - intros p q bs r Hh Hp [Hr|Hr%list_elem_of_singleton]%elem_of_app Hb; [by eauto|].
    subst r. cbn in *. destruct (inv_held0 _ _ Hh) as (q' & Hq' & Ha).
    rewrite Hp in Hq'. simplify_eq. specialize (inv_pepoch0 p q' Hp Ha). lia.
Qed.

(** An outermost entry starts holding what is in circulation. *)
Lemma outer_enter_inv universe n s h p q :
  0 <= n -> inv n s h -> participants s !! p = Some q -> activeDepth q = 0 ->
  registered q = true ->
  inv (n + 1) (with_participants (<[p := {| epoch := guestVmEpoch s; activeDepth := 1;
                                           registered := true |}]> (participants s)) s)
    (<[p := universe ∖ limbo s]> h).
Proof.
  intros Hn I Hp Hd Hr. destruct (inv_mono n (n + 1) s h ltac:(lia) I).
  assert (p <> 0) by congruence.
  split; cbn; try done.
  - intros p' q'. rewrite lookup_insert. case_decide; intros; simplify_eq; cbn; eauto. lia.
  - intros p' q'. rewrite lookup_insert. case_decide; intros; simplify_eq; cbn; eauto. lia.
  - intros p' q'. rewrite lookup_insert. case_decide; intros; simplify_eq; cbn; eauto.
  - intros p' q'. rewrite lookup_insert. case_decide; intros; simplify_eq; cbn; eauto.
  - by rewrite lookup_insert_ne.
  - intros p' bs. unfold active. cbn. rewrite !lookup_insert. case_decide; [|naive_solver].
    intros _. eexists. split; [done|]. cbn. lia.
  - intros p' q' bs r. rewrite !lookup_insert. case_decide; [|eauto].
    intros [= <-] [= <-] Hin [_ Hb]%elem_of_difference. destruct Hb.
    unfold limbo, pending. apply elem_of_union_l, elem_of_list_to_set, list_elem_of_fmap. eauto.
  - intros p' bs b. rewrite lookup_insert. case_decide; [|eauto].
    intros [= <-] [_ Hb]%elem_of_difference ?. apply Hb.
    unfold limbo, gone. by apply elem_of_union_r, elem_of_list_to_set.
Qed.

Lemma Enter_inv universe n s h p s' :
  0 <= n < UINT64_MAX - 1 -> inv n s h -> GuardEnter p s = Some s' ->
  inv (n + 1) s' (held_step universe (Enter p) s h).
Proof.
  intros Hn I. assert (inv (n + 1) s h) as I' by (eapply inv_mono; [|done]; lia).
  unfold GuardEnter, held_step. destruct (p =? 0) eqn:E0; zb.
  { intros [= <-]. subst p. rewrite (inv_null _ _ _ I). done. }
  destruct (participants s !! p) as [q|] eqn:Hp; [|by intros [= <-]].
  destruct (registered q) eqn:Hr; cbn [negb]; [|done]. intros [= <-].
  pose proof (inv_depth _ _ _ I p q Hp) as Hd. unfold UINT64_MAX in *.
  rewrite u64_small by lia. destruct (activeDepth q =? 0) eqn:E; zb.
  - rewrite E. by eapply outer_enter_inv; eauto; lia.
  - rewrite <- Hr. eapply depth_update_inv; eauto; lia.
Qed.

Lemma Exit_inv universe n s h p s' :
  0 <= n < UINT64_MAX - 1 -> inv n s h -> GuardExit p s = Some s' ->
  inv n s' (held_step universe (Exit p) s h).
Proof.
  intros Hn I. unfold GuardExit, held_step. destruct (p =? 0) eqn:E0; zb.
  { intros [= <-]. subst p. rewrite (inv_null _ _ _ I). done. }
  destruct (participants s !! p) as [q|] eqn:Hp; [|by intros [= <-]].
  pose proof (inv_depth _ _ _ I p q Hp) as Hd. unfold UINT64_MAX in *.
  destruct (activeDepth q =? 0) eqn:E; [done|]. zb. intros [= <-].
  rewrite u64_small by lia. destruct (activeDepth q =? 1) eqn:E1; zb.
  - rewrite E1. cbn [Z.sub Z.add Z.opp Z.pos_sub Z.eqb]. apply reclaim_inv.
    destruct I. split; cbn; try done.
    + intros p' q'. rewrite lookup_insert. case_decide; intros; simplify_eq; cbn; eauto. lia.
    + intros p' q'. rewrite lookup_insert. case_decide; intros; simplify_eq; cbn; eauto.
    + intros p' q'. rewrite lookup_insert. case_decide; intros; simplify_eq; cbn; eauto.
    + intros p' q'. rewrite lookup_insert. case_decide; intros; simplify_eq; cbn; eauto.
    + by rewrite lookup_insert_ne.
    + intros p' bs [Hne Hp']%lookup_delete_Some. destruct (inv_held0 _ _ Hp') as (q' & ? & ?).
      exists q'. cbn. by rewrite lookup_insert_ne.
    + intros p' q' bs r [Hne Hp']%lookup_delete_Some. rewrite lookup_insert_ne by done. eauto.
    + intros p' bs b [Hne Hp']%lookup_delete_Some. eauto.
  - destruct (activeDepth q - 1 =? 0) eqn:E2; zb; [lia|].
    eapply depth_update_inv; eauto; lia.
Qed.

Lemma step_inv universe n o s h s' :
  0 <= n < UINT64_MAX - 1 -> inv n s h -> step o s = Some s' ->
  inv (n + 1) s' (held_step universe o s h).
Proof.
  intros Hn I Hs.
  destruct o as [p|p|p|b|p|p]; [eapply inv_mono, New_inv; eauto; lia| | | | |].
  - injection Hs as <-. eapply inv_mono, Register_inv; eauto; lia.
  - eapply inv_mono, Unregister_inv; eauto; lia.
  - injection Hs as <-. by apply Retire_inv.
  - by eapply Enter_inv.
  - eapply inv_mono; [|by eapply Exit_inv]. lia.
Qed.

Lemma run_inv universe ops : forall n s h s' h',
  0 <= n -> n + Z.of_nat (length ops) < UINT64_MAX - 1 -> inv n s h ->
  run universe ops s h = Some (s', h') -> inv (n + Z.of_nat (length ops)) s' h'.
Proof.
  induction ops as [|o ops IH]; intros n s h s' h' Hn Hlen I; cbn [run].
  - intros [= <- <-]. cbn. by rewrite Z.add_0_r.
  - destruct (step o s) as [s1|] eqn:Hs; [|done]. intros Hrun. cbn [length] in *.
    rewrite Nat2Z.inj_succ in *.
    replace (n + Z.succ (Z.of_nat (length ops))) with (n + 1 + Z.of_nat (length ops)) by lia.
    eapply IH; [| |eapply step_inv|exact Hrun]; eauto; lia.
Qed.

(** Whatever interleaving of critical sections runs, a backing that was in
    circulation when a still-active participant entered has not been
    unmapped. *)
(** C1: epoch reclamation is safe.  From the initial registry, after any
    interleaving of fewer than 2^64 - 2 critical sections, a backing that was
    not yet retired when a participant's outermost guard was entered is still
    mapped as long as that guard has not been left. *)
Theorem reclamation_safe (universe : gset Z) (ops : list op) s h p bs b :
  Z.of_nat (length ops) < UINT64_MAX - 1 ->
  run universe ops initial ∅ = Some (s, h) ->
  h !! p = Some bs -> b ∈ bs -> active s p /\ b ∉ released s.
Proof.
  intros Hlen Hrun Hp Hb.
  pose proof (run_inv universe ops 0 initial ∅ s h ltac:(lia) Hlen initial_inv Hrun) as I.
  split; [by eapply inv_held|by eapply inv_held_gone].
Qed.

Definition demo_ops : list op :=
  [New 1; New 2; Register 1; Register 2; Enter 1; Retire 70; Enter 2; Exit 2].

Lemma reclamation_safe_witness :
  exists s h, run {[70; 80]} demo_ops initial ∅ = Some (s, h) /\
    retiredMemoryBackings s = [{| backing := 70; retirementEpoch := 2 |}] /\
    (active s 1 /\ 70 ∉ released s).
Proof.
  eexists _, _. split; [vm_compute; reflexivity|]. split; [reflexivity|].
  eapply (reclamation_safe {[70; 80]} demo_ops _ _ 1 {[70; 80]}); [done| | |].
  - vm_compute. reflexivity.
  - reflexivity.
  - set_solver.
Defined.

(** C4: no backing leaks.  Once no registered participant is inside a guarded
    section, leaving a guard or retiring a backing unmaps every retired
    backing: the retired list is empty and everything given up is released. *)
Theorem reclamation_complete (s : state) :
  (forall p q, p ∈ guestVmEpochParticipants s -> participants s !! p = Some q ->
     activeDepth q = 0) ->
  retiredMemoryBackings (ReclaimRetiredMemoryBackingsLocked s) = [] /\
  gone (ReclaimRetiredMemoryBackingsLocked s) = limbo s.
Proof.
  intros Hidle.
  assert (retiredMemoryBackings (ReclaimRetiredMemoryBackingsLocked s) = []) as Hnil.
  { rewrite reclaim_retired.
    apply elem_of_nil_inv. intros r [Hr _]%list_elem_of_filter.
    assert (safe s r = true) as Hs; [|congruence].
    unfold safe. apply forallb_forall. intros p Hp%list_elem_of_In.
    unfold blocks. destruct (p =? 0); [done|]. cbn.
    destruct (participants s !! p) as [q|] eqn:E; [|done].
    by rewrite (Hidle p q Hp E). }
  split; [done|]. rewrite <- reclaim_limbo. unfold limbo, pending. rewrite Hnil. set_solver.
Qed.

Lemma reclamation_complete_witness :
  exists s h, run {[70]} (demo_ops ++ [Retire 80; Exit 1]) initial ∅ = Some (s, h) /\
    retiredMemoryBackings s = [] /\
    retiredMemoryBackings (ReclaimRetiredMemoryBackingsLocked s) = [].
Proof.
  eexists _, _. split; [vm_compute; reflexivity|]. split; [reflexivity|].
  apply reclamation_complete. cbn.
  intros p q Hp. repeat (apply elem_of_cons in Hp as [->|Hp]; [by intros [= <-]|]).
  by apply elem_of_nil in Hp.
Defined.

End VmEpoch.
