(* ===== verification/GuestMemory.v ===== *)
(** Guest address space: the page map, the fast-path page table, the per-thread
    lookup cache and the permission-checked byte accesses
    (src/HostFrameworks/LC32/dynarmic_memory.cpp, [get_memory_page] to
    [write_guest_memory_with_permissions]; structures in dynarmic.h).

    The state is shared with GuestMapping.v, which models the operations that
    change the map.  Host memory is a finite map from host addresses to bytes,
    so two guest pages that name the same host page alias, as they do after
    [vm_remap]. *)

From S2P Require Import Prelude.
From S2P Require Import VmEpoch.
From stdpp Require Import base gmap list fin_maps list_numbers.
From Stdlib Require Import ZArith Lia.
Open Scope Z_scope.

(** [struct memory_page].  [page_ptr] is the address calloc returned for the
    structure (the value the khash stores); [backing] 0 is the null pointer. *)
Record memory_page := {
  page_ptr : Z;
  addr : Z;
  perms : Z;
  enforceDataPermissions : bool;
  backing : Z;
}.

(** [struct memory_backing]. *)
Record memory_backing := {
  backing_addr : Z;
  backing_size : Z;
  references : Z;
  hostProtection : Z;
}.

(** [struct GuestMemoryLookupCache]. *)
Record GuestMemoryLookupCache := {
  cache_memory : Z;
  cache_generation : Z;
  cache_guestPageAddress : Z;
  cache_hostPageAddress : Z;
  cache_permissions : Z;
}.

Definition empty_cache : GuestMemoryLookupCache := {|
  cache_memory := 0; cache_generation := 0; cache_guestPageAddress := UINT64_MAX;
  cache_hostPageAddress := 0; cache_permissions := 0 |}.

#[global] Instance memory_page_eq : EqDecision memory_page.
Proof. solve_decision. Defined.
#[global] Instance memory_backing_eq : EqDecision memory_backing.
Proof. solve_decision. Defined.

(** The part of [sharedHandle] behind [guestVmMutex], the backing structures,
    the lookup generation, the thread-local caches by thread, host memory, and
    the ranges passed to [InvalidateAllGuestJits], newest first.
    [memory_handle] is the khash pointer (0 when there is none); a missing
    entry of [page_table] is a null slot. *)
Record vm := {
  memory_handle : Z;
  memory : gmap Z memory_page;
  page_table_present : bool;
  num_page_table_entries : Z;
  page_table : gmap Z Z;
  backings : gmap Z memory_backing;
  guestMemoryLookupGeneration : Z;
  caches : gmap Z GuestMemoryLookupCache;
  epochs : VmEpoch.state;
  host : gmap Z Z;
  jitInvalidations : list (Z * Z);
}.

Definition with_memory m s := {| memory_handle := memory_handle s; memory := m;
  page_table_present := page_table_present s;
  num_page_table_entries := num_page_table_entries s; page_table := page_table s;
  backings := backings s; guestMemoryLookupGeneration := guestMemoryLookupGeneration s;
  caches := caches s; epochs := epochs s; host := host s;
  jitInvalidations := jitInvalidations s |}.
Definition with_page_table t s := {| memory_handle := memory_handle s; memory := memory s;
  page_table_present := page_table_present s;
  num_page_table_entries := num_page_table_entries s; page_table := t;
  backings := backings s; guestMemoryLookupGeneration := guestMemoryLookupGeneration s;
  caches := caches s; epochs := epochs s; host := host s;
  jitInvalidations := jitInvalidations s |}.
Definition with_backings b s := {| memory_handle := memory_handle s; memory := memory s;
  page_table_present := page_table_present s;
  num_page_table_entries := num_page_table_entries s; page_table := page_table s;
  backings := b; guestMemoryLookupGeneration := guestMemoryLookupGeneration s;
  caches := caches s; epochs := epochs s; host := host s;
  jitInvalidations := jitInvalidations s |}.
Definition with_generation g s := {| memory_handle := memory_handle s; memory := memory s;
  page_table_present := page_table_present s;
  num_page_table_entries := num_page_table_entries s; page_table := page_table s;
  backings := backings s; guestMemoryLookupGeneration := g;
  caches := caches s; epochs := epochs s; host := host s;
  jitInvalidations := jitInvalidations s |}.
Definition with_caches c s := {| memory_handle := memory_handle s; memory := memory s;
  page_table_present := page_table_present s;
  num_page_table_entries := num_page_table_entries s; page_table := page_table s;
  backings := backings s; guestMemoryLookupGeneration := guestMemoryLookupGeneration s;
  caches := c; epochs := epochs s; host := host s;
  jitInvalidations := jitInvalidations s |}.
Definition with_epochs e s := {| memory_handle := memory_handle s; memory := memory s;
  page_table_present := page_table_present s;
  num_page_table_entries := num_page_table_entries s; page_table := page_table s;
  backings := backings s; guestMemoryLookupGeneration := guestMemoryLookupGeneration s;
  caches := caches s; epochs := e; host := host s;
  jitInvalidations := jitInvalidations s |}.
Definition with_host h s := {| memory_handle := memory_handle s; memory := memory s;
  page_table_present := page_table_present s;
  num_page_table_entries := num_page_table_entries s; page_table := page_table s;
  backings := backings s; guestMemoryLookupGeneration := guestMemoryLookupGeneration s;
  caches := caches s; epochs := epochs s; host := h;
  jitInvalidations := jitInvalidations s |}.

(** [InvalidateAllGuestJits(address, size)]: every JIT drops its translations
    of the range. *)
Definition InvalidateAllGuestJits (address size : Z) (s : vm) : vm :=
  {| memory_handle := memory_handle s; memory := memory s;
  page_table_present := page_table_present s;
  num_page_table_entries := num_page_table_entries s; page_table := page_table s;
  backings := backings s; guestMemoryLookupGeneration := guestMemoryLookupGeneration s;
  caches := caches s; epochs := epochs s; host := host s;
  jitInvalidations := (address, size) :: jitInvalidations s |}.

(** ** Host bytes *)

Definition host_byte (h : gmap Z Z) (a : Z) : Z := default 0 (h !! a).

Definition host_bytes (h : gmap Z Z) (l : list Z) : list Z := host_byte h <$> l.

(** [memcpy] out of and into host memory. *)
Definition host_read (h : gmap Z Z) (a n : Z) : list Z := host_bytes h (seqZ a n).

Fixpoint host_write (h : gmap Z Z) (a : Z) (bs : list Z) : gmap Z Z :=
  match bs with
  | [] => h
  | b :: rest => host_write (<[a := b]> h) (a + 1) rest
  end.

(** ** Page lookup *)

(** Slot [idx] of the fast-path table, 0 when null or out of range. *)
Definition page_table_slot (s : vm) (idx : Z) : Z :=
  if page_table_present s && (idx <? num_page_table_entries s)
  then default 0 (page_table s !! idx) else 0.

(** [__atomic_store_n(&page_table[idx], p)] under the same range check. *)
Definition page_table_store (idx p : Z) (s : vm) : vm :=
  if page_table_present s && (idx <? num_page_table_entries s)
  then with_page_table (if p =? 0 then delete idx (page_table s) else <[idx := p]> (page_table s)) s
  else s.

Definition page_index (vaddr : Z) : Z := Z.shiftr vaddr DYN_PAGE_BITS.

(** [get_memory_page]: the table first, then the map; 0 is NULL. *)
Definition get_memory_page (s : vm) (vaddr : Z) : Z :=
  let fastPage := page_table_slot s (page_index vaddr) in
  if negb (fastPage =? 0) then fastPage
  else match memory s !! page_base vaddr with
       | None => 0
       | Some page => addr page
       end.

(** [get_memory]. *)
Definition get_memory (s : vm) (vaddr : Z) : Z :=
  let page := get_memory_page s vaddr in
  if page =? 0 then 0 else page + page_offset vaddr.

(** [HostProtectionForGuestPermissions]. *)
Definition HostProtectionForGuestPermissions (permissions : Z) : Z :=
  let hostProtection := Z.land permissions (Z.lor PROT_READ PROT_WRITE) in
  if has_flag permissions PROT_EXEC then Z.lor hostProtection PROT_READ else hostProtection.

(** [GuestPageTablePointer] in a build without
    [LC32_GUEST_MEMORY_WATCH_ADDRESS]: 0 for pages whose accesses must go
    through the checking callbacks. *)
Definition GuestPageTablePointer (page : option memory_page) : Z :=
  match page with
  | None => 0
  | Some page =>
      if addr page =? 0 then 0 else
      if enforceDataPermissions page &&
         negb (Z.land (perms page) (Z.lor PROT_READ PROT_WRITE) =? Z.lor PROT_READ PROT_WRITE)
      then 0 else addr page
  end.

(** [InvalidateGuestMemoryLookupCaches]. *)
Definition InvalidateGuestMemoryLookupCaches (s : vm) : vm :=
  with_generation (u64 (guestMemoryLookupGeneration s + 1)) s.

(** The cache of thread [tid]; a thread's first use finds the initializer. *)
Definition cache_of (s : vm) (tid : Z) : GuestMemoryLookupCache :=
  default empty_cache (caches s !! tid).

(** [get_memory_page_with_permissions] called on thread [tid]: the host page
    (0 for null) and the state with that thread's cache updated. *)
Definition get_memory_page_with_permissions (tid : Z) (s : vm) (vaddr requiredPermissions : Z)
    : Z * vm :=
  if memory_handle s =? 0 then (0, s) else
  let base := page_base vaddr in
  let generation := guestMemoryLookupGeneration s in
  let cache := cache_of s tid in
  if (cache_memory cache =? memory_handle s) && (cache_generation cache =? generation) &&
     (cache_guestPageAddress cache =? base) && negb (cache_hostPageAddress cache =? 0)
  then (if has_all (cache_permissions cache) requiredPermissions
        then cache_hostPageAddress cache else 0, s)
  else match memory s !! base with
       | None => (0, s)
       | Some page =>
           if addr page =? 0 then (0, s) else
           let cache' := {| cache_memory := memory_handle s; cache_generation := generation;
                            cache_guestPageAddress := base; cache_hostPageAddress := addr page;
                            cache_permissions := perms page |} in
           (if has_all (cache_permissions cache') requiredPermissions
            then cache_hostPageAddress cache' else 0,
            with_caches (<[tid := cache']> (caches s)) s)
       end.

(** [GuestAddressRangeIsValid32]. *)
Definition GuestAddressRangeIsValid32 (address size : Z) : bool :=
  (address <? 2 ^ 32) && (size <=? 2 ^ 32 - address).

(** [GuestProtectionIsValid]: [(protection & ~supported) == 0] on an [int]. *)
Definition GuestProtectionIsValid (protection : Z) : bool :=
  Z.land protection (Z.lnot (Z.lor (Z.lor PROT_READ PROT_WRITE) PROT_EXEC)) =? 0.

(** ** Range walks *)

(** [enum class GuestVmRangeStatus]. *)
Inductive GuestVmRangeStatus := Valid | InvalidAddress | ProtectionFailure.

#[global] Instance GuestVmRangeStatus_eq : EqDecision GuestVmRangeStatus.
Proof. solve_decision. Defined.

Fixpoint ValidateGuestVmRangeLoop (s : vm) (requiredPermissions : Z) (cs : list (Z * Z))
    : GuestVmRangeStatus :=
  match cs with
  | [] => Valid
  | (address, _) :: rest =>
      match memory s !! page_base address with
      | None => InvalidAddress
      | Some page =>
          if addr page =? 0 then InvalidAddress else
          if negb (has_all (perms page) requiredPermissions) then ProtectionFailure
          else ValidateGuestVmRangeLoop s requiredPermissions rest
      end
  end.

(** [ValidateGuestVmRangeLocked]. *)
Definition ValidateGuestVmRangeLocked (s : vm) (address size requiredPermissions : Z)
    : GuestVmRangeStatus :=
  if negb (GuestAddressRangeIsValid32 address size) then InvalidAddress else
  if memory_handle s =? 0 then InvalidAddress else
  ValidateGuestVmRangeLoop s requiredPermissions (chunks address size).

(** [GuestVmRangeStatusToKernReturn]. *)
Definition GuestVmRangeStatusToKernReturn (status : GuestVmRangeStatus) : Z :=
  match status with
  | Valid => KERN_SUCCESS
  | InvalidAddress => KERN_INVALID_ADDRESS
  | ProtectionFailure => KERN_PROTECTION_FAILURE
  end.

(** The validation loop shared by the three range functions below. *)
Fixpoint range_check (tid : Z) (s : vm) (requiredPermissions : Z) (cs : list (Z * Z))
    : bool * vm :=
  match cs with
  | [] => (true, s)
  | (address, _) :: rest =>
      let '(page, s1) := get_memory_page_with_permissions tid s address requiredPermissions in
      if page =? 0 then (false, s1) else range_check tid s1 requiredPermissions rest
  end.

(** [guest_memory_range_has_permissions]. *)
Definition guest_memory_range_has_permissions (tid : Z) (s : vm)
    (address size requiredPermissions : Z) : bool * vm :=
  if negb (GuestAddressRangeIsValid32 address size) then (false, s)
  else range_check tid s requiredPermissions (chunks address size).

Fixpoint read_loop (tid : Z) (s : vm) (requiredPermissions : Z) (cs : list (Z * Z))
    : option (list Z) * vm :=
  match cs with
  | [] => (Some [], s)
  | (address, chunk) :: rest =>
      let '(page, s1) := get_memory_page_with_permissions tid s address requiredPermissions in
      if page =? 0 then (None, s1) else
      let bytes := host_read (host s1) (page + page_offset address) chunk in
      let '(r, s2) := read_loop tid s1 requiredPermissions rest in
      (match r with Some more => Some (bytes ++ more) | None => None end, s2)
  end.

(** [read_guest_memory_with_permissions]: [None] is false, [Some bytes] is true
    with the destination filled. *)
Definition read_guest_memory_with_permissions (tid : Z) (s : vm)
    (address size requiredPermissions : Z) : option (list Z) * vm :=
  if negb (GuestAddressRangeIsValid32 address size) then (None, s) else
  let '(ok, s1) := range_check tid s requiredPermissions (chunks address size) in
  if negb ok then (None, s1)
  else read_loop tid s1 requiredPermissions (chunks address size).

Fixpoint write_loop (tid : Z) (s : vm) (requiredPermissions : Z) (cs : list (Z * Z))
    (input : list Z) : bool * vm :=
  match cs with
  | [] => (true, s)
  | (address, chunk) :: rest =>
      let '(page, s1) := get_memory_page_with_permissions tid s address requiredPermissions in
      if page =? 0 then (false, s1) else
      let s2 := with_host (host_write (host s1) (page + page_offset address)
                             (take (Z.to_nat chunk) input)) s1 in
      write_loop tid s2 requiredPermissions rest (drop (Z.to_nat chunk) input)
  end.

(** [write_guest_memory_with_permissions]; the size is the source's length. *)
Definition write_guest_memory_with_permissions (tid : Z) (s : vm)
    (address : Z) (source : list Z) (requiredPermissions : Z) : bool * vm :=
  let size := Z.of_nat (length source) in
  if negb (GuestAddressRangeIsValid32 address size) then (false, s) else
  let '(ok, s1) := range_check tid s requiredPermissions (chunks address size) in
  if negb ok then (false, s1)
  else write_loop tid s1 requiredPermissions (chunks address size) source.

(** [CopyGuestVmMemory]; [resize_ok] is whether the snapshot vector could be
    allocated. *)
Definition CopyGuestVmMemory (resize_ok : bool) (tid : Z) (s : vm)
    (source destination size : Z) : Z * vm :=
  if size =? 0 then (KERN_SUCCESS, s) else
  let sourceStatus := ValidateGuestVmRangeLocked s source size PROT_READ in
  if negb (bool_decide (sourceStatus = Valid))
  then (GuestVmRangeStatusToKernReturn sourceStatus, s) else
  let destinationStatus := ValidateGuestVmRangeLocked s destination size PROT_WRITE in
  if negb (bool_decide (destinationStatus = Valid))
  then (GuestVmRangeStatusToKernReturn destinationStatus, s) else
  if negb resize_ok then (KERN_RESOURCE_SHORTAGE, s) else
  match read_guest_memory_with_permissions tid s source size PROT_READ with
  | (None, s1) => (KERN_FAILURE, s1)
  | (Some snapshot, s1) =>
      match write_guest_memory_with_permissions tid s1 destination snapshot PROT_WRITE with
      | (false, s2) => (KERN_FAILURE, s2)
      | (true, s2) => (KERN_SUCCESS, s2)
      end
  end.

(** ** Reference semantics

    The flat view the access functions implement: one guest byte is one host
    byte, found through the map alone (no cache, no chunks). *)

Definition page_lookup (s : vm) (req a : Z) : option Z :=
  if memory_handle s =? 0 then None else
  match memory s !! page_base a with
  | None => None
  | Some p => if addr p =? 0 then None else if has_all (perms p) req then Some (addr p) else None
  end.

(** Host address of guest byte [a] under permissions [req]. *)
Definition translate (s : vm) (req a : Z) : option Z :=
  (fun h => h + page_offset a) <$> page_lookup s req a.

Definition guest_byte (s : vm) (req a : Z) : option Z :=
  host_byte (host s) <$> translate s req a.

(** The stores a byte-by-byte writer would do. *)
Definition store_bytes (h : gmap Z Z) (kvs : list (Z * Z)) : gmap Z Z :=
  foldl (fun m kv => <[kv.1 := kv.2]> m) h kvs.

(** *** The lookup cache never lies *)

Record cache_ok (s : vm) : Prop := {
  cache_current : forall tid c, caches s !! tid = Some c ->
    cache_generation c <= guestMemoryLookupGeneration s;
  cache_sound : forall tid c, caches s !! tid = Some c ->
    cache_memory c = memory_handle s -> memory_handle s <> 0 ->
    cache_generation c = guestMemoryLookupGeneration s ->
    cache_hostPageAddress c <> 0 ->
    exists p, memory s !! cache_guestPageAddress c = Some p /\
      addr p = cache_hostPageAddress c /\ perms p = cache_permissions c;
  generation_pos : 0 < guestMemoryLookupGeneration s;
}.

Lemma with_caches_id s : with_caches (caches s) s = s.
Proof. by destruct s. Qed.

Lemma with_caches_twice c c' s : with_caches c (with_caches c' s) = with_caches c s.
Proof. done. Qed.

Lemma page_lookup_caches c s req a : page_lookup (with_caches c s) req a = page_lookup s req a.
Proof. done. Qed.

Lemma page_lookup_nonzero s req a h : page_lookup s req a = Some h -> h <> 0.
Proof.
  unfold page_lookup. repeat case_match; intros; simplify_eq; zb; done.
Qed.

Lemma default_lookup_zero s req a :
  (default 0 (page_lookup s req a) =? 0) = negb (bool_decide (is_Some (page_lookup s req a))).
Proof.
  destruct (page_lookup s req a) as [h|] eqn:E; cbn.
  - apply page_lookup_nonzero in E. by apply Z.eqb_neq.
  - done.
Qed.

(** With or without a cache hit, the answer is the map's. *)
Lemma get_page_spec tid s v req :
  cache_ok s -> exists c,
    get_memory_page_with_permissions tid s v req =
      (default 0 (page_lookup s req v), with_caches c s) /\ cache_ok (with_caches c s).
Proof.
  intros Hok. unfold get_memory_page_with_permissions, page_lookup.
  destruct (memory_handle s =? 0) eqn:Eh; zb; [exists (caches s); by rewrite with_caches_id|].
  destruct ((cache_memory (cache_of s tid) =? memory_handle s) &&
            (cache_generation (cache_of s tid) =? guestMemoryLookupGeneration s) &&
            (cache_guestPageAddress (cache_of s tid) =? page_base v) &&
            negb (cache_hostPageAddress (cache_of s tid) =? 0))%bool eqn:Ehit.
  - exists (caches s). rewrite with_caches_id. split; [|done]. f_equal.
    zb. unfold cache_of in *. destruct (caches s !! tid) as [c|] eqn:Ec; cbn in *; [|lia].
    destruct (cache_sound s Hok tid c Ec) as (p & Hp & Ha & Hperm); try done.
    rewrite <- H1, Hp, Ha, Hperm.
    destruct (cache_hostPageAddress c =? 0) eqn:?; zb; [done|].
    by destruct (has_all _ _).
  - destruct (memory s !! page_base v) as [p|] eqn:Hp;
      [|exists (caches s); by rewrite with_caches_id].
    destruct (addr p =? 0) eqn:Ea; [exists (caches s); by rewrite with_caches_id|].
    eexists. split; [cbn; f_equal; by destruct (has_all _ _)|].
    destruct Hok. split; cbn; [| |done].
    + intros t c. rewrite lookup_insert. case_decide; intros; simplify_eq; cbn; eauto. lia.
    + intros t c. rewrite lookup_insert. case_decide; intros; simplify_eq; cbn in *; eauto.
Qed.

(** Use [get_page_spec] on the first lookup of the goal. *)
Ltac lookup_step Hok :=
  match goal with
  | |- context [get_memory_page_with_permissions ?t ?s ?v ?r] =>
      let c := fresh "c" in let E := fresh "E" in let Hok' := fresh "Hok" in
      destruct (get_page_spec t s v r Hok) as (c & E & Hok'); rewrite E; clear E
  end.

Lemma range_check_spec tid req cs : forall s, cache_ok s -> exists c,
  range_check tid s req cs =
    (forallb (fun ac => bool_decide (is_Some (page_lookup s req (fst ac)))) cs, with_caches c s)
  /\ cache_ok (with_caches c s).
Proof.
  induction cs as [|[a n] cs IH]; intros s Hok; cbn.
  - exists (caches s). by rewrite with_caches_id.
  - lookup_step Hok. rewrite default_lookup_zero. case_bool_decide; cbn; [|by eauto].
    destruct (IH _ Hok0) as (c' & -> & ?). exists c'. done.
Qed.

(** ** Reads are bytewise *)

Lemma page_lookup_chunk s req a c i :
  0 <= a < U64_MOD -> c <= DYN_PAGE_SIZE - page_offset a -> 0 <= i < c ->
  page_lookup s req (a + i) = page_lookup s req a /\ page_offset (a + i) = page_offset a + i.
Proof.
  intros Ha Hc Hi. destruct (page_base_add a i Ha ltac:(lia)) as [Hb Ho].
  unfold page_lookup. by rewrite Hb, Ho.
Qed.

Lemma seqZ_offset a n : seqZ a n = (fun i => a + i) <$> seqZ 0 n.
Proof. rewrite fmap_add_seqZ. f_equal. lia. Qed.

Lemma mapM_pointwise {A B} (f : A -> option B) (g : A -> B) l :
  (forall x, x ∈ l -> f x = Some (g x)) -> mapM f l = Some (g <$> l).
Proof.
  induction l as [|x l IH]; intros H; [done|]. cbn.
  rewrite H by set_solver. cbn. rewrite IH by set_solver. done.
Qed.

Lemma mapM_app_opt {A B} (f : A -> option B) l1 l2 :
  mapM f (l1 ++ l2) = x ← mapM f l1; y ← mapM f l2; Some (x ++ y).
Proof.
  induction l1 as [|x l1 IH]; cbn.
  - by destruct (mapM f l2).
  - destruct (f x); cbn; [|done]. rewrite IH.
    destruct (mapM f l1); cbn; [|done]. by destruct (mapM f l2).
Qed.

Lemma mapM_None_elem {A B} (f : A -> option B) l x : x ∈ l -> f x = None -> mapM f l = None.
Proof.
  intros Hx Hf. apply eq_None_not_Some. intros Hs%mapM_is_Some_1.
  rewrite Forall_forall in Hs. destruct (Hs x Hx). congruence.
Qed.

(** One chunk, translated byte by byte. *)
Lemma chunk_translate s req a c :
  0 <= a < U64_MOD -> 0 < c <= DYN_PAGE_SIZE - page_offset a ->
  mapM (translate s req) (seqZ a c) =
    (fun h => seqZ (h + page_offset a) c) <$> page_lookup s req a.
Proof.
  intros Ha Hc. destruct (page_lookup s req a) as [h|] eqn:E; cbn.
  - rewrite (seqZ_offset (h + page_offset a)), (seqZ_offset a).
    rewrite (mapM_pointwise _ (fun x => x - a + (h + page_offset a))).
    { f_equal. rewrite <- list_fmap_compose. apply list_fmap_ext. intros i x _. cbn. lia. }
    intros x (i & -> & Hi%elem_of_seqZ)%list_elem_of_fmap.
    destruct (page_lookup_chunk s req a c i Ha ltac:(lia) ltac:(lia)) as [Hl Ho].
    unfold translate. rewrite Hl, E, Ho. cbn. f_equal. lia.
  - eapply (mapM_None_elem _ _ a); [apply elem_of_seqZ; lia|].
    unfold translate. by rewrite E.
Qed.

Definition translate_chunks (s : vm) (req : Z) (cs : list (Z * Z)) : option (list Z) :=
  mapM (translate s req) (concat (chunk_bytes <$> cs)).

Definition chunks_fit (cs : list (Z * Z)) : Prop :=
  forall a c, (a, c) ∈ cs -> 0 <= a < U64_MOD /\ 0 < c <= DYN_PAGE_SIZE - page_offset a.

Lemma chunks_fit_cons a c cs : chunks_fit ((a, c) :: cs) ->
  (0 <= a < U64_MOD /\ 0 < c <= DYN_PAGE_SIZE - page_offset a) /\ chunks_fit cs.
Proof. unfold chunks_fit. split; [apply H|]; set_solver. Qed.

Lemma chunks_fit_range address size :
  0 <= address -> 0 <= size -> GuestAddressRangeIsValid32 address size = true ->
  chunks_fit (chunks address size).
Proof.
  intros Ha Hs Hv a c Hin. unfold GuestAddressRangeIsValid32 in Hv. zb.
  destruct (chunks_inside _ _ _ _ Hs Hin) as (? & ? & ?). unfold U64_MOD. split; [|done].
  assert (2 ^ 32 < 2 ^ 64) by done. lia.
Qed.

Lemma translate_chunks_cons s req a c cs :
  chunks_fit ((a, c) :: cs) ->
  translate_chunks s req ((a, c) :: cs) =
    h ← page_lookup s req a; r ← translate_chunks s req cs;
    Some (seqZ (h + page_offset a) c ++ r).
Proof.
  intros [Hf Hfs]%chunks_fit_cons. unfold translate_chunks. rewrite fmap_cons. cbn [concat].
  rewrite mapM_app_opt. change (chunk_bytes (a, c)) with (seqZ a c).
  rewrite chunk_translate by lia. by destruct (page_lookup s req a).
Qed.

Lemma range_check_translate s req cs :
  chunks_fit cs ->
  forallb (fun ac => bool_decide (is_Some (page_lookup s req (fst ac)))) cs =
  bool_decide (is_Some (translate_chunks s req cs)).
Proof.
  induction cs as [|[a c] cs IH]; intros Hf; [done|].
  rewrite translate_chunks_cons by done. apply chunks_fit_cons in Hf as [_ Hf].
  cbn [forallb fst]. rewrite IH by done.
  destruct (page_lookup s req a); cbn; [|done].
  by destruct (translate_chunks s req cs).
Qed.

Lemma read_loop_spec tid req cs : forall s, cache_ok s -> chunks_fit cs -> exists c,
  read_loop tid s req cs =
    (host_bytes (host s) <$> translate_chunks s req cs, with_caches c s)
  /\ cache_ok (with_caches c s).
Proof.
  induction cs as [|[a n] cs IH]; intros s Hok Hf; cbn [read_loop].
  - exists (caches s). by rewrite with_caches_id.
  - rewrite translate_chunks_cons by done. apply chunks_fit_cons in Hf as [Hf1 Hf].
    lookup_step Hok. rewrite default_lookup_zero.
    destruct (page_lookup s req a) as [h|] eqn:El; cbn; [|by eauto].
    destruct (IH _ Hok0 Hf) as (c' & -> & ?). exists c'. split; [|done].
    rewrite with_caches_twice. change (translate_chunks (with_caches c s) req cs)
      with (translate_chunks s req cs).
    destruct (translate_chunks s req cs); cbn; [|done].
    unfold host_read, host_bytes. by rewrite fmap_app.
Qed.

Lemma translate_total s req address size :
  0 <= size -> mapM (translate s req) (seqZ address size) =
    translate_chunks s req (chunks address size).
Proof. intros. unfold translate_chunks. by rewrite chunks_total. Qed.

Lemma guest_bytes_translate s req l :
  mapM (guest_byte s req) l = host_bytes (host s) <$> mapM (translate s req) l.
Proof.
  induction l as [|x l IH]; [done|]. cbn. rewrite IH.
  unfold guest_byte. destruct (translate s req x); cbn; [|done].
  by destruct (mapM (translate s req) l).
Qed.

Lemma read_spec tid s address size req :
  cache_ok s -> 0 <= address -> 0 <= size ->
  exists c, read_guest_memory_with_permissions tid s address size req =
    (if GuestAddressRangeIsValid32 address size
     then mapM (guest_byte s req) (seqZ address size) else None, with_caches c s)
    /\ cache_ok (with_caches c s).
Proof.
  intros Hok Ha Hs. unfold read_guest_memory_with_permissions.
  destruct (GuestAddressRangeIsValid32 address size) eqn:Hv; cbn [negb];
    [|exists (caches s); by rewrite with_caches_id].
  pose proof (chunks_fit_range _ _ Ha Hs Hv) as Hf.
  rewrite guest_bytes_translate, translate_total by done.
  destruct (range_check_spec tid req (chunks address size) s Hok) as (c & -> & Hok').
  rewrite range_check_translate by done. case_bool_decide as Hsome; cbn [negb].
  - destruct (read_loop_spec tid req (chunks address size) _ Hok' Hf) as (c' & -> & ?).
    exists c'. done.
  - exists c. split; [|done]. f_equal.
    destruct (translate_chunks s req _); [|done]. destruct Hsome. eauto.
Qed.

(** ** Writes are bytewise and atomic *)

Lemma store_bytes_app h l1 l2 : store_bytes h (l1 ++ l2) = store_bytes (store_bytes h l1) l2.
Proof. apply foldl_app. Qed.

Lemma host_write_store h a bs :
  host_write h a bs = store_bytes h (zip (seqZ a (Z.of_nat (length bs))) bs).
Proof.
  revert h a. induction bs as [|b bs IH]; intros h a; [done|]. cbn [host_write length].
  rewrite Nat2Z.inj_succ, seqZ_cons by lia. cbn. rewrite IH. unfold store_bytes.
  repeat f_equal; lia.
Qed.

Lemma cache_ok_host h s : cache_ok (with_host h s) <-> cache_ok s.
Proof. split; intros []; split; done. Qed.

Lemma write_loop_spec tid req cs : forall s input hs,
  cache_ok s -> chunks_fit cs -> translate_chunks s req cs = Some hs ->
  length input = length hs -> exists c,
  write_loop tid s req cs input =
    (true, with_host (store_bytes (host s) (zip hs input)) (with_caches c s))
  /\ cache_ok (with_caches c s).
Proof.
  induction cs as [|[a n] cs IH]; intros s input hs Hok Hf Ht Hlen; cbn [write_loop].
  - injection Ht as <-. exists (caches s). cbn. rewrite with_caches_id. by destruct s.
  - rewrite translate_chunks_cons in Ht by done. apply chunks_fit_cons in Hf as [Hf1 Hf].
    lookup_step Hok. rewrite default_lookup_zero.
    destruct (page_lookup s req a) as [h|] eqn:El; cbn in Ht; [|done].
    destruct (translate_chunks s req cs) as [hs'|] eqn:Et; cbn in Ht; [|done].
    injection Ht as <-. rewrite length_app, length_seqZ in Hlen.
    rewrite bool_decide_eq_true_2 by eauto. cbn [negb default].
    set (hp := host_write _ _ _).
    destruct (IH (with_host hp (with_caches c s)) (drop (Z.to_nat n) input) hs') as (c' & -> & Hok');
      [by apply cache_ok_host|done|done|rewrite length_drop; lia|].
    exists c'. split; [|exact (proj1 (cache_ok_host hp (with_caches c' s)) Hok')].
    cbn. f_equal. unfold hp. rewrite host_write_store, length_take, Nat.min_l by lia.
    rewrite Z2Nat.id by lia. cbn. rewrite <- store_bytes_app.
    rewrite <- zip_with_app by (rewrite length_seqZ, length_take; lia).
    by rewrite take_drop.
Qed.

(** Complete behaviour of a permission-checked write: nothing but the calling
    thread's cache changes unless every byte translates, and then exactly the
    translated bytes are stored. *)
Lemma write_spec tid s address source req :
  cache_ok s -> 0 <= address ->
  exists c, cache_ok (with_caches c s) /\
    write_guest_memory_with_permissions tid s address source req =
      match (if GuestAddressRangeIsValid32 address (Z.of_nat (length source))
             then mapM (translate s req) (seqZ address (Z.of_nat (length source))) else None) with
      | Some hs => (true, with_host (store_bytes (host s) (zip hs source)) (with_caches c s))
      | None => (false, with_caches c s)
      end.
Proof.
  intros Hok Ha. unfold write_guest_memory_with_permissions.
  set (size := Z.of_nat (length source)). assert (0 <= size) as Hs by lia.
  destruct (GuestAddressRangeIsValid32 address size) eqn:Hv; cbn [negb];
    [|exists (caches s); by rewrite with_caches_id].
  pose proof (chunks_fit_range _ _ Ha Hs Hv) as Hf. rewrite translate_total by done.
  destruct (range_check_spec tid req (chunks address size) s Hok) as (c & -> & Hok').
  rewrite range_check_translate by done.
  destruct (translate_chunks s req (chunks address size)) as [hs|] eqn:Et; [|by eauto].
  rewrite bool_decide_eq_true_2 by eauto. cbn [negb].
  destruct (write_loop_spec tid req (chunks address size) (with_caches c s) source hs)
    as (c' & -> & ?); [done|done|done| |by exists c'].
  unfold translate_chunks in Et. rewrite chunks_total in Et by done.
  apply length_mapM in Et. rewrite length_seqZ in Et. lia.
Qed.

(** Reading the stores back. *)
Lemma store_bytes_frame h kvs k :
  k ∉ kvs.*1 -> host_byte (store_bytes h kvs) k = host_byte h k.
Proof.
  revert h. induction kvs as [|[k' v] kvs IH]; intros h Hk; [done|]. cbn in *.
  apply not_elem_of_cons in Hk as [Hne Hk]. unfold store_bytes in IH. rewrite IH by done.
  unfold host_byte. by rewrite lookup_insert_ne.
Qed.

Lemma store_bytes_read h ks vs :
  NoDup ks -> length ks = length vs -> host_bytes (store_bytes h (zip ks vs)) ks = vs.
Proof.
  revert h vs. induction ks as [|k ks IH]; intros h [|v vs] Hnd Hlen; try done.
  apply NoDup_cons in Hnd as [Hk Hnd]. injection Hlen as Hlen. cbn. f_equal.
  - change (host_byte (store_bytes (<[k := v]> h) (zip ks vs)) k = v).
    rewrite store_bytes_frame by (by rewrite fst_zip by lia).
    unfold host_byte. by rewrite lookup_insert_eq.
  - apply (IH (<[k := v]> h)); [done|done].
Qed.

(** ** Properties *)

(** The thread-local lookup cache is transparent.  Whatever lookups the
    threads did before, [get_memory_page_with_permissions] answers from the
    current page map: the page's host address when the page is mapped, bound
    and has the permissions, null otherwise; it changes nothing but caches. *)
Theorem lookup_cache_transparent tid s v req :
  cache_ok s ->
  fst (get_memory_page_with_permissions tid s v req) = default 0 (page_lookup s req v) /\
  with_caches (caches s) (snd (get_memory_page_with_permissions tid s v req)) = s /\
  cache_ok (snd (get_memory_page_with_permissions tid s v req)).
Proof.
  intros Hok. destruct (get_page_spec tid s v req Hok) as (c & -> & Hok'). cbn [fst snd].
  rewrite with_caches_twice, with_caches_id. auto.
Qed.

(** C5: a permission-checked read returns exactly the bytes a byte-at-a-time
    reader would find through the page map, and fails if any byte of the range
    is outside the 32-bit space, unmapped or lacks the permission. *)
Theorem read_refines_bytes tid s address size req :
  cache_ok s -> 0 <= address -> 0 <= size ->
  fst (read_guest_memory_with_permissions tid s address size req) =
    if GuestAddressRangeIsValid32 address size
    then mapM (guest_byte s req) (seqZ address size) else None.
Proof.
  intros Hok Ha Hs. by destruct (read_spec tid s address size req Hok Ha Hs) as (c & -> & _).
Qed.

(** A permission-checked write is all-or-nothing: if any byte of the range
    cannot be written, host memory, the map and the page table are exactly as
    before (an unaligned store that straddles a protected page leaves no partial
    effect). *)
Theorem write_atomic tid s address source req :
  cache_ok s -> 0 <= address ->
  fst (write_guest_memory_with_permissions tid s address source req) = false ->
  with_caches (caches s) (snd (write_guest_memory_with_permissions tid s address source req)) = s.
Proof.
  intros Hok Ha. destruct (write_spec tid s address source req Hok Ha) as (c & _ & ->).
  case_match; [done|]. intros _. cbn [snd]. by rewrite with_caches_twice, with_caches_id.
Qed.

(** C6: write then read.  After a successful write of [source], reading the
    same range returns [source], provided no two bytes of the range alias the
    same host byte; every guest byte that does not alias the range is
    unchanged, also on other threads' caches. *)
Theorem write_read_roundtrip tid tid' s address source wreq rreq s' hs :
  cache_ok s -> 0 <= address ->
  write_guest_memory_with_permissions tid s address source wreq = (true, s') ->
  mapM (translate s wreq) (seqZ address (Z.of_nat (length source))) = Some hs -> NoDup hs ->
  mapM (translate s rreq) (seqZ address (Z.of_nat (length source))) = Some hs ->
  fst (read_guest_memory_with_permissions tid' s' address (Z.of_nat (length source)) rreq)
    = Some source /\
  (forall req a h, translate s req a = Some h -> h ∉ hs -> guest_byte s' req a = guest_byte s req a).
Proof.
  intros Hok Ha Hw Ht Hnd Hr.
  destruct (write_spec tid s address source wreq Hok Ha) as (c & Hok' & E).
  rewrite Hw in E. destruct (GuestAddressRangeIsValid32 address _) eqn:Hv; [|done].
  rewrite Ht in E. injection E as ->.
  assert (length hs = length source) as Hlen.
  { apply length_mapM in Ht. rewrite length_seqZ in Ht. lia. }
  split.
  - destruct (read_spec tid' (with_host (store_bytes (host s) (zip hs source)) (with_caches c s))
      address (Z.of_nat (length source)) rreq) as (c' & -> & _); [by apply cache_ok_host|lia|lia|].
    rewrite Hv. cbn [fst]. rewrite guest_bytes_translate.
    change (translate (with_host _ _) rreq) with (translate s rreq). rewrite Hr. cbn. f_equal.
    by apply store_bytes_read.
  - intros req a h Hh Hni. unfold guest_byte.
    change (translate (with_host _ _) req a) with (translate s req a). rewrite Hh. cbn. f_equal.
    apply store_bytes_frame. by rewrite fst_zip by lia.
Qed.

Lemma page_lookup_live s req a : memory_handle s <> 0 ->
  page_lookup s req a =
    match memory s !! page_base a with
    | None => None
    | Some p => if addr p =? 0 then None else if has_all (perms p) req then Some (addr p) else None
    end.
Proof. intros H. unfold page_lookup. by destruct (memory_handle s =? 0) eqn:?; zb. Qed.

Lemma ValidateLoop_valid s req cs :
  memory_handle s <> 0 ->
  bool_decide (ValidateGuestVmRangeLoop s req cs = Valid) =
  forallb (fun ac => bool_decide (is_Some (page_lookup s req (fst ac)))) cs.
Proof.
  intros Hh. induction cs as [|[a c] cs IH]; [done|]. cbn [ValidateGuestVmRangeLoop forallb fst].
  rewrite page_lookup_live by done.
  destruct (memory s !! page_base a) as [p|]; [|done].
  destruct (addr p =? 0); [done|]. destruct (has_all (perms p) req); cbn; [|done].
  rewrite IH. done.
Qed.

(** The status walk accepts exactly the ranges whose bytes all translate. *)
Lemma Validate_spec s address size req :
  0 <= address -> 0 <= size ->
  bool_decide (ValidateGuestVmRangeLocked s address size req = Valid) =
  GuestAddressRangeIsValid32 address size && negb (memory_handle s =? 0) &&
  bool_decide (is_Some (mapM (translate s req) (seqZ address size))).
Proof.
  intros Ha Hs. unfold ValidateGuestVmRangeLocked.
  destruct (GuestAddressRangeIsValid32 address size) eqn:Hv; cbn; [|done].
  destruct (memory_handle s =? 0) eqn:Hh; cbn; [done|]. zb.
  rewrite ValidateLoop_valid, range_check_translate, translate_total;
    [done|done|by apply chunks_fit_range|done].
Qed.

Lemma translate_guest_bytes s req l hs :
  mapM (translate s req) l = Some hs -> mapM (guest_byte s req) l = Some (host_bytes (host s) hs).
Proof. intros H. by rewrite guest_bytes_translate, H. Qed.

(** [vm_copy] is a snapshot copy.  The defensive KERN_FAILURE branch is
    unreachable; on success the destination bytes are exactly the bytes the
    source had before the call, whatever the overlap or aliasing of the two
    ranges; on every error host memory is unchanged. *)
Theorem vm_copy_snapshot resize_ok tid s source destination size :
  cache_ok s -> 0 <= source -> 0 <= destination -> 0 < size ->
  let '(r, s') := CopyGuestVmMemory resize_ok tid s source destination size in
  r <> KERN_FAILURE /\
  (r = KERN_SUCCESS -> exists bytes hs,
     mapM (guest_byte s PROT_READ) (seqZ source size) = Some bytes /\
     mapM (translate s PROT_WRITE) (seqZ destination size) = Some hs /\
     host s' = store_bytes (host s) (zip hs bytes)) /\
  (r <> KERN_SUCCESS -> host s' = host s).
Proof.
  intros Hok Hsrc Hdst Hsz. unfold CopyGuestVmMemory.
  destruct (size =? 0) eqn:?; zb; [lia|].
  pose proof (Validate_spec s source size PROT_READ Hsrc ltac:(lia)) as V1.
  pose proof (Validate_spec s destination size PROT_WRITE Hdst ltac:(lia)) as V2.
  destruct (bool_decide (_ = Valid)) eqn:E1 in V1 |- *; cbn [negb];
    [|by destruct (ValidateGuestVmRangeLocked s source size PROT_READ)].
  destruct (bool_decide (_ = Valid)) eqn:E2 in V2 |- *; cbn [negb];
    [|by destruct (ValidateGuestVmRangeLocked s destination size PROT_WRITE)].
  symmetry in V1, V2.
  apply andb_true_iff in V1 as [[Hv1 _]%andb_true_iff [hs1 Ht1]%bool_decide_eq_true_1].
  apply andb_true_iff in V2 as [[Hv2 _]%andb_true_iff [hs2 Ht2]%bool_decide_eq_true_1].
  destruct resize_ok; cbn [negb]; [|done].
  destruct (read_spec tid s source size PROT_READ Hok Hsrc ltac:(lia)) as (c & -> & Hok').
  rewrite Hv1, (translate_guest_bytes _ _ _ _ Ht1).
  destruct (write_spec tid (with_caches c s) destination (host_bytes (host s) hs1) PROT_WRITE Hok' Hdst)
    as (c' & _ & ->).
  assert (Z.of_nat (length (host_bytes (host s) hs1)) = size) as ->.
  { unfold host_bytes. rewrite length_fmap. apply length_mapM in Ht1.
    rewrite length_seqZ in Ht1. lia. }
  rewrite Hv2. change (translate (with_caches c s) PROT_WRITE) with (translate s PROT_WRITE).
  rewrite Ht2. split; [done|]. split; [|done]. intros _. eauto.
Qed.
