(* ===== verification/GuestRawMemory.v ===== *)
(** Unchecked guest accesses: [Dynarmic_mem_1read], [Dynarmic_mem_1write] and the
    debugger's range predicates
    (src/HostFrameworks/LC32/dynarmic_core.cpp).  These go through [get_memory_page], so through the
    fast-path page table first, and check no guest permission. *)

From S2P Require Import Prelude.
From S2P Require Import VmEpoch.
From S2P Require Import GuestMemory.
From stdpp Require Import base gmap list fin_maps list_numbers.
From Stdlib Require Import ZArith Lia.
Open Scope Z_scope.

(** The part of page [vaddr] that lies in the access: its first guest address
    and its length ([start], [end] and [len] of the loops). *)
Definition raw_chunk (address vaddr_end vaddr : Z) : Z * Z :=
  let start := if vaddr <? address then address - vaddr else 0 in
  let stop := if vaddr + DYN_PAGE_SIZE <=? vaddr_end then DYN_PAGE_SIZE else vaddr_end - vaddr in
  (vaddr + start, stop - start).

Fixpoint mem_write_loop (s : vm) (address vaddr_end : Z) (vaddrs src : list Z) : Z * vm :=
  match vaddrs with
  | [] => (0, s)
  | vaddr :: rest =>
      let '(first, len) := raw_chunk address vaddr_end vaddr in
      let page := get_memory_page s vaddr in
      if page =? 0 then (1, s) else
      mem_write_loop (with_host (host_write (host s) (page + (first - vaddr))
                                   (take (Z.to_nat len) src)) s)
        address vaddr_end rest (drop (Z.to_nat len) src)
  end.

(** [Dynarmic_mem_1write]; [src] is [None] for a null pointer. *)
Definition Dynarmic_mem_1write (s : vm) (address size : Z) (src : option (list Z)) : Z * vm :=
  if size =? 0 then (0, s) else
  match src with
  | None => (1, s)
  | Some src =>
      if negb (GuestAddressRangeIsValid32 address size) then (1, s) else
      let vaddr_end := u64 (address + size) in
      mem_write_loop s address vaddr_end (page_addrs (page_base address) vaddr_end) src
  end.

Fixpoint mem_read_loop (s : vm) (address vaddr_end : Z) (vaddrs : list Z) : option (list Z) :=
  match vaddrs with
  | [] => Some []
  | vaddr :: rest =>
      let '(first, len) := raw_chunk address vaddr_end vaddr in
      let page := get_memory_page s vaddr in
      if page =? 0 then None else
      match mem_read_loop s address vaddr_end rest with
      | Some more => Some (host_read (host s) (page + (first - vaddr)) len ++ more)
      | None => None
      end
  end.

(** [Dynarmic_mem_1read]: [None] is the return value 1, [Some bytes] is 0 with
    [dest] filled; [dest_ok] is whether the destination pointer is non-null. *)
Definition Dynarmic_mem_1read (s : vm) (address size : Z) (dest_ok : bool) : option (list Z) :=
  if size =? 0 then Some [] else
  if negb dest_ok || negb (GuestAddressRangeIsValid32 address size) then None else
  let vaddr_end := u64 (address + size) in
  mem_read_loop s address vaddr_end (page_addrs (page_base address) vaddr_end).

(** [DebuggerMemoryRangeIsValid]. *)
Definition DebuggerMemoryRangeIsValid (address size : Z) : bool :=
  (address <? 2 ^ 32) && (size <=? 2 ^ 32 - address).

(** [DebuggerRangesOverlap]. *)
Definition DebuggerRangesOverlap (firstAddress firstSize secondAddress secondSize : Z) : bool :=
  negb (firstSize =? 0) && negb (secondSize =? 0) &&
  (firstAddress <? u64 (secondAddress + secondSize)) &&
  (secondAddress <? u64 (firstAddress + firstSize)).

(** [DebuggerMemoryRangeIsMapped]. *)
Definition DebuggerMemoryRangeIsMapped (s : vm) (address size : Z) : bool :=
  let stop := u64 (address + size) in
  forallb (fun page => negb (get_memory_page s page =? 0)) (page_addrs (page_base address) stop).

(** ** Bytewise reference *)

Definition raw_translate (s : vm) (a : Z) : option Z :=
  let page := get_memory_page s a in
  if page =? 0 then None else Some (page + page_offset a).

Definition raw_byte (s : vm) (a : Z) : option Z := host_byte (host s) <$> raw_translate s a.

Lemma page_index_div a : page_index a = a / DYN_PAGE_SIZE.
Proof. unfold page_index. by rewrite Z.shiftr_div_pow2. Qed.

Lemma get_memory_page_same s a i :
  0 <= a < U64_MOD -> 0 <= i < DYN_PAGE_SIZE - page_offset a ->
  get_memory_page s (a + i) = get_memory_page s a.
Proof.
  intros Ha Hi. destruct (page_base_add a i Ha Hi) as [Hb Ho].
  unfold get_memory_page. rewrite Hb. rewrite !page_index_div.
  assert ((a + i) / DYN_PAGE_SIZE = a / DYN_PAGE_SIZE) as ->; [|done].
  rewrite !page_offset_mod in *. pose proof (page_offset_range a) as Hr.
  rewrite page_offset_mod in Hr.
  pose proof (Z.div_mod a DYN_PAGE_SIZE ltac:(done)). 
  symmetry. apply (Z.div_unique _ _ _ (a mod DYN_PAGE_SIZE + i)); lia.
Qed.

Lemma page_addrs_nil v e : e <= v -> page_addrs v e = [].
Proof.
  intros H. apply elem_of_nil_inv. intros x [? _]%elem_of_page_addrs. lia.
Qed.

Lemma page_addrs_cons v e : v < e -> page_addrs v e = v :: page_addrs (v + DYN_PAGE_SIZE) e.
Proof.
  intros H. unfold page_addrs.
  replace (e - v + DYN_PAGE_MASK) with ((e - (v + DYN_PAGE_SIZE) + DYN_PAGE_MASK) + 1 * DYN_PAGE_SIZE)
    by (unfold DYN_PAGE_SIZE; lia).
  rewrite Z.div_add by done. set (n := _ / DYN_PAGE_SIZE).
  assert (0 <= n).
  { unfold n. apply Z.div_pos; [unfold DYN_PAGE_SIZE, DYN_PAGE_MASK; lia|done]. }
  rewrite seqZ_cons by lia. rewrite fmap_cons. f_equal; [lia|].
  replace (Z.pred (n + 1)) with n by lia. rewrite (seqZ_offset (Z.succ 0)).
  rewrite <- list_fmap_compose. apply list_fmap_ext. intros j x _. cbn.
  unfold DYN_PAGE_SIZE. lia.
Qed.

Lemma raw_chunks_tail address e : forall n v, (e - v <= Z.of_nat n) -> address <= v ->
  concat (chunk_bytes <$> (raw_chunk address e <$> page_addrs v e)) = seqZ v (e - v).
Proof.
  induction n as [|n IH]; intros v Hn Hv.
  - rewrite page_addrs_nil, seqZ_nil by lia. done.
  - destruct (decide (v < e)); [|rewrite page_addrs_nil, seqZ_nil by lia; done].
    rewrite page_addrs_cons by done. rewrite !fmap_cons. cbn [concat].
    unfold raw_chunk at 1. destruct (v <? address) eqn:?; zb; [lia|].
    unfold chunk_bytes at 1. cbn [fst snd]. rewrite Z.add_0_r, Z.sub_0_r.
    rewrite IH by (unfold DYN_PAGE_SIZE in *; lia).
    destruct (v + DYN_PAGE_SIZE <=? e) eqn:?; zb.
    + rewrite <- seqZ_app by (unfold DYN_PAGE_SIZE in *; lia). f_equal. lia.
    + rewrite (seqZ_nil (v + DYN_PAGE_SIZE)) by lia. apply app_nil_r.
Qed.

Lemma raw_chunks_total address size :
  0 <= address -> 0 < size -> address + size < U64_MOD ->
  concat (chunk_bytes <$> (raw_chunk address (address + size) <$>
     page_addrs (page_base address) (address + size))) = seqZ address size.
Proof.
  intros Ha Hs He. pose proof (page_base_le address ltac:(lia)) as Hb.
  pose proof (page_split address ltac:(lia)) as Hsp. pose proof (page_offset_range address) as Hor.
  rewrite page_addrs_cons by lia. rewrite !fmap_cons. cbn [concat].
  rewrite (raw_chunks_tail _ _ (Z.to_nat size)) by lia.
  assert (chunk_bytes (raw_chunk address (address + size) (page_base address)) =
    seqZ address (Z.min size (DYN_PAGE_SIZE - page_offset address))) as ->.
  { unfold chunk_bytes, raw_chunk. cbn [fst snd].
    destruct (page_base address <? address) eqn:?, (page_base address + DYN_PAGE_SIZE <=? _) eqn:?;
      zb; f_equal; lia. }
  destruct (decide (size <= DYN_PAGE_SIZE - page_offset address)).
  - rewrite Z.min_l, (seqZ_nil (_ + DYN_PAGE_SIZE)) by lia. apply app_nil_r.
  - rewrite Z.min_r by lia.
    replace (page_base address + DYN_PAGE_SIZE) with (address + (DYN_PAGE_SIZE - page_offset address)) by lia.
    rewrite <- seqZ_app by lia. f_equal. lia.
Qed.

(** What a visited page contributes: a non-empty piece inside the page. *)
Definition raw_fit (address e v : Z) : Prop :=
  exists f l, raw_chunk address e v = (f, l) /\ 0 <= f < U64_MOD /\
    0 < l <= DYN_PAGE_SIZE - page_offset f /\ page_base f = v /\ f - v = page_offset f.

Lemma raw_fit_range address size v :
  0 <= address -> 0 < size -> address + size < U64_MOD ->
  v ∈ page_addrs (page_base address) (address + size) -> raw_fit address (address + size) v.
Proof.
  intros Ha Hs He [Hv Hm]%elem_of_page_addrs.
  pose proof (page_base_le address ltac:(lia)) as Hb.
  pose proof (page_split address ltac:(lia)) as Hsp. pose proof (page_offset_range address) as Hor.
  pose proof (page_base_aligned address ltac:(lia)) as Hal.
  assert (v mod DYN_PAGE_SIZE = 0) as Hvm.
  { replace v with (page_base address + (v - page_base address)) by lia.
    rewrite Z.add_mod, Hal, Hm by done. done. }
  unfold raw_fit, raw_chunk. do 2 eexists. split; [done|].
  destruct (decide (v < address)) as [Hlt|Hge].
  - (* the first page *)
    assert (v = page_base address) as ->.
    { rewrite Z.mod_small in Hm by lia. lia. }
    destruct (page_base address <? address) eqn:?; zb; [|lia].
    replace (page_base address + (address - page_base address)) with address by lia.
    destruct (page_base address + DYN_PAGE_SIZE <=? address + size) eqn:?; zb; repeat split; lia.
  - destruct (v <? address) eqn:?; zb; [lia|]. rewrite Z.add_0_r, Z.sub_0_r.
    assert (page_offset v = 0) as Ho by (by rewrite page_offset_mod).
    rewrite Ho, (page_base_aligned_id v) by lia.
    destruct (v + DYN_PAGE_SIZE <=? address + size) eqn:?; zb; repeat split; lia.
Qed.

Lemma raw_chunk_translate s f l :
  0 <= f < U64_MOD -> 0 < l <= DYN_PAGE_SIZE - page_offset f ->
  mapM (raw_translate s) (seqZ f l) =
    if get_memory_page s f =? 0 then None
    else Some (seqZ (get_memory_page s f + page_offset f) l).
Proof.
  intros Hf Hl. destruct (get_memory_page s f =? 0) eqn:E.
  - apply (mapM_None_elem _ _ f); [apply elem_of_seqZ; lia|]. unfold raw_translate. by rewrite E.
  - rewrite (seqZ_offset (_ + _)), (seqZ_offset f).
    rewrite (mapM_pointwise _ (fun x => x - f + (get_memory_page s f + page_offset f))).
    { f_equal. rewrite <- list_fmap_compose. apply list_fmap_ext. intros i x _. cbn. lia. }
    intros x (i & -> & Hi%elem_of_seqZ)%list_elem_of_fmap. unfold raw_translate.
    rewrite get_memory_page_same by lia. rewrite E.
    rewrite (proj2 (page_base_add f i Hf ltac:(lia))). f_equal. lia.
Qed.

Lemma raw_bytes_translate s l :
  mapM (raw_byte s) l = host_bytes (host s) <$> mapM (raw_translate s) l.
Proof.
  induction l as [|x l IH]; [done|]. cbn. rewrite IH.
  unfold raw_byte. destruct (raw_translate s x); cbn; [|done].
  by destruct (mapM (raw_translate s) l).
Qed.

Definition raw_bytes_of (address e : Z) (vs : list Z) : list Z :=
  concat (chunk_bytes <$> (raw_chunk address e <$> vs)).

Lemma get_memory_page_base s v f :
  0 <= f < U64_MOD -> page_base f = v -> get_memory_page s v = get_memory_page s f.
Proof.
  intros Hf <-. pose proof (page_split f Hf) as Hs. pose proof (page_offset_range f) as Ho.
  rewrite Hs at 2. symmetry. pose proof (page_base_le f Hf).
  assert (page_offset (page_base f) = 0) as H0.
  { rewrite page_offset_mod. by apply page_base_aligned. }
  apply get_memory_page_same; lia.
Qed.

(** One iteration, in terms of the bytewise translation. *)
Lemma raw_step s address e v vs :
  raw_fit address e v ->
  let '(f, l) := raw_chunk address e v in
  mapM (raw_translate s) (raw_bytes_of address e (v :: vs)) =
    if get_memory_page s v =? 0 then None else
    r ← mapM (raw_translate s) (raw_bytes_of address e vs);
    Some (seqZ (get_memory_page s v + (f - v)) l ++ r).
Proof.
  intros (f & l & E & Hf & Hl & Hb & Ho). rewrite E. unfold raw_bytes_of.
  rewrite !fmap_cons. cbn [concat]. rewrite mapM_app_opt, E.
  change (chunk_bytes (f, l)) with (seqZ f l). rewrite raw_chunk_translate by done.
  rewrite (get_memory_page_base s v f) by done. rewrite Ho.
  by destruct (get_memory_page s f =? 0).
Qed.

Lemma mem_read_loop_spec s address e vs :
  (forall v, v ∈ vs -> raw_fit address e v) ->
  mem_read_loop s address e vs = mapM (raw_byte s) (raw_bytes_of address e vs).
Proof.
  rewrite raw_bytes_translate.
  induction vs as [|v vs IH]; intros Hf; [done|]. cbn [mem_read_loop].
  pose proof (raw_step s address e v vs (Hf v ltac:(set_solver))) as Hstep.
  destruct (raw_chunk address e v) as [f l]. rewrite Hstep.
  destruct (get_memory_page s v =? 0); [done|]. rewrite IH by set_solver.
  destruct (mapM (raw_translate s) (raw_bytes_of address e vs)); cbn; [|done].
  unfold host_read, host_bytes. by rewrite fmap_app.
Qed.

Lemma mem_write_loop_spec address e vs : forall s src hs,
  (forall v, v ∈ vs -> raw_fit address e v) ->
  mapM (raw_translate s) (raw_bytes_of address e vs) = Some hs -> length src = length hs ->
  mem_write_loop s address e vs src = (0, with_host (store_bytes (host s) (zip hs src)) s).
Proof.
  induction vs as [|v vs IH]; intros s src hs Hf Ht Hlen; cbn [mem_write_loop].
  - injection Ht as <-. by destruct s.
  - pose proof (raw_step s address e v vs (Hf v ltac:(set_solver))) as Hstep.
    destruct (Hf v ltac:(set_solver)) as (f & l & E & _ & Hl & _). rewrite E in *.
    rewrite Hstep in Ht. destruct (get_memory_page s v =? 0); [done|].
    destruct (mapM (raw_translate s) (raw_bytes_of address e vs)) as [hs'|] eqn:Et; cbn in Ht; [|done].
    injection Ht as <-. rewrite length_app, length_seqZ in Hlen.
    rewrite (IH _ _ hs'); [|set_solver|done|rewrite length_drop; lia].
    apply (f_equal (fun h => (0, with_host h s))). cbn. rewrite host_write_store, length_take, Nat.min_l by lia.
    rewrite Z2Nat.id by lia. rewrite <- store_bytes_app.
    rewrite <- zip_with_app by (rewrite length_seqZ, length_take; lia). by rewrite take_drop.
Qed.

Lemma range_end_small address size :
  0 <= address -> 0 <= size -> GuestAddressRangeIsValid32 address size = true ->
  address + size < U64_MOD /\ u64 (address + size) = address + size.
Proof.
  intros Ha Hs Hv. unfold GuestAddressRangeIsValid32 in Hv. zb.
  assert (2 ^ 32 < U64_MOD) by done. split; [lia|]. apply u64_small. lia.
Qed.

(** The unchecked accessors are bytewise too.  [Dynarmic_mem_1read] returns
    the bytes of the range through the fast path or the map, and fails if one
    page is missing; after a complete range check [Dynarmic_mem_1write] stores
    exactly the source at the translated addresses. *)
Theorem raw_access_bytes s address size src :
  0 <= address -> 0 < size -> GuestAddressRangeIsValid32 address size = true ->
  Z.of_nat (length src) = size ->
  Dynarmic_mem_1read s address size true = mapM (raw_byte s) (seqZ address size) /\
  (forall hs, mapM (raw_translate s) (seqZ address size) = Some hs ->
     Dynarmic_mem_1write s address size (Some src) =
       (0, with_host (store_bytes (host s) (zip hs src)) s)).
Proof.
  intros Ha Hs Hv Hlen. destruct (range_end_small address size Ha ltac:(lia) Hv) as [He Hu].
  unfold Dynarmic_mem_1read, Dynarmic_mem_1write. destruct (size =? 0) eqn:?; zb; [lia|].
  rewrite Hv. cbn [negb orb]. rewrite Hu.
  pose proof (fun v => raw_fit_range address size v Ha Hs He) as Hfit.
  split.
  - rewrite mem_read_loop_spec by done. unfold raw_bytes_of. by rewrite raw_chunks_total.
  - intros hs Hhs. eapply mem_write_loop_spec; [done| |].
    + unfold raw_bytes_of. by rewrite raw_chunks_total.
    + apply length_mapM in Hhs. rewrite length_seqZ in Hhs. lia.
Qed.
