(* ===== verification/GuestMapping.v ===== *)
(** Operations that change the guest memory map
    (src/HostFrameworks/LC32/dynarmic_core.cpp, [ReleaseMemoryBackingReference]
    to [ReplaceGuestMemoryRangeWithPrivateCopy]): address reservation, mmap,
    munmap, mprotect, vm_remap and the private-copy replacement.

    Guest pages are 4 KiB slices of reference-counted host mappings
    ([memory_backing]).  The file models every operation with its host calls as
    parameters, in the order of the code; GuestReserve.v, MappingProps.v,
    RemapProps.v, ProtectProps.v and PrivateCopy.v prove what they promise. *)

From S2P Require Import Prelude.
From S2P Require Import VmEpoch.
From S2P Require Import GuestMemory.
From stdpp Require Import base gmap list fin_maps list_numbers.
From Stdlib Require Import ZArith Lia.
Open Scope Z_scope.

(** ** The host

    What the host answers during one operation.  Pointers are identities of
    allocations: a pointer returned by [calloc] or [mmap] names that
    allocation. *)
Record host_env := {
  vector_reserve_ok : bool;
  calloc_page : Z -> Z;                  (** page structure for an address; 0 on failure *)
  push_back_ok : Z -> bool;
  kh_put_ret : Z -> Z;                   (** khash's return code for a new key *)
  host_mmap : Z -> Z -> Z -> Z -> Z -> Z * list Z + Z;
    (** length, protection, flags, descriptor, offset: the address and the
        initial bytes (the rest is zero), or errno *)
  host_vm_allocate : Z -> Z + Z;         (** length: the address, or the kern_return_t *)
  calloc_backing : Z;                    (** 0 on failure *)
  host_mprotect : Z -> Z -> Z -> option Z; (** address, length, protection: errno on failure *)
  host_page_size : Z;                    (** PAGE_SIZE of the host *)
}.

(** What a call returns: a value, or -1 (or the all-ones address) with errno. *)
Inductive result := Ret (v : Z) | Errno (e : Z).

#[global] Instance result_eq : EqDecision result.
Proof. solve_decision. Defined.

(** A step that may run into a failed assertion ([None]). *)
Definition step := vm -> option (result * vm).

Fixpoint fold_opt {A S} (f : A -> S -> option S) (l : list A) (s : S) : option S :=
  match l with
  | [] => Some s
  | x :: rest => s' ← f x s; fold_opt f rest s'
  end.

(** ** Backings *)

Definition with_references (n : Z) (b : memory_backing) : memory_backing :=
  {| backing_addr := backing_addr b; backing_size := backing_size b;
     references := n; hostProtection := hostProtection b |}.

Definition with_hostProtection (p : Z) (b : memory_backing) : memory_backing :=
  {| backing_addr := backing_addr b; backing_size := backing_size b;
     references := references b; hostProtection := p |}.

(** [ReleaseMemoryBackingReference]: the last reference retires the backing.
    The structure stays readable until the epoch queue unmaps and frees it. *)
Definition ReleaseMemoryBackingReference (b : Z) (s : vm) : option vm :=
  if b =? 0 then Some s else
  match backings s !! b with
  | None => None
  | Some bk =>
      if references bk =? 0 then None else
      let n := u64 (references bk - 1) in
      let s1 := with_backings (<[b := with_references n bk]> (backings s)) s in
      Some (if negb (n =? 0) then s1 else with_epochs (retire b (epochs s1)) s1)
  end.

(** Overwrites the structure [page] points to (the value stored under [vaddr]). *)
Definition put_page (vaddr : Z) (page : memory_page) (s : vm) : vm :=
  with_memory (<[vaddr := page]> (memory s)) s.

(** Publishes slot [vaddr >> DYN_PAGE_BITS] for the page now stored there. *)
Definition publish_page (vaddr : Z) (s : vm) : vm :=
  page_table_store (page_index vaddr) (GuestPageTablePointer (memory s !! vaddr)) s.

(** ** munmap *)

(** [ValidateGuestMunmapRangeLocked]: [None] is 0, [Some e] is -1 with errno. *)
Definition ValidateGuestMunmapRangeLocked (s : vm) (address size : Z) : option Z :=
  if negb (page_offset address =? 0) then Some EINVAL else
  if (size =? 0) || negb (page_offset size =? 0) then Some EINVAL else
  if negb (GuestAddressRangeIsValid32 address size) then Some EINVAL else
  if forallb (fun v => bool_decide (is_Some (memory s !! v)))
       (page_addrs address (u64 (address + size)))
  then None else Some ENOMEM.

(** [ReleaseMemoryPageBacking] on the page stored under [vaddr]. *)
Definition ReleaseMemoryPageBacking (vaddr : Z) (s : vm) : option vm :=
  match memory s !! vaddr with
  | None => Some s
  | Some page =>
      ReleaseMemoryBackingReference (backing page)
        (put_page vaddr {| page_ptr := page_ptr page; addr := addr page; perms := perms page;
                           enforceDataPermissions := enforceDataPermissions page;
                           backing := 0 |} s)
  end.

(** One iteration of the removal loop: clear the table slot, release the
    backing, drop the entry. *)
Definition munmap_page (vaddr : Z) (s : vm) : option vm :=
  s1 ← ReleaseMemoryPageBacking vaddr (page_table_store (page_index vaddr) 0 s);
  Some (with_memory (delete vaddr (memory s1)) s1).

(** [Dynarmic_munmap]. *)
Definition Dynarmic_munmap (address size : Z) : step := fun s =>
  match ValidateGuestMunmapRangeLocked s address size with
  | Some e => Some (Errno e, s)
  | None =>
      s1 ← fold_opt munmap_page (page_addrs address (u64 (address + size)))
             (InvalidateGuestMemoryLookupCaches s);
      Some (Ret 0, InvalidateAllGuestJits (u32 address) size s1)
  end.

(** ** Reservation *)

(** [struct GuestPageReservation]: address and page structure. *)
Record GuestPageReservation := { reserved_address : Z; reserved_page : Z }.

Definition rollback_one (r : GuestPageReservation) (s : vm) : vm :=
  match memory s !! reserved_address r with
  | Some page =>
      if page_ptr page =? reserved_page r
      then with_memory (delete (reserved_address r) (memory s)) s else s
  | None => s
  end.

(** [RollbackGuestPageReservations]: newest first. *)
Definition RollbackGuestPageReservations (reservations : list GuestPageReservation) (s : vm) : vm :=
  foldl (fun s r => rollback_one r s) s (reverse reservations).

(** [AlignGuestAddress]: round up to a multiple of [mask + 1] inside the 32-bit
    space. *)
Definition AlignGuestAddress (address mask : Z) : option Z :=
  let adjustment := Z.land (u64 (mask + 1 - Z.land address mask)) mask in
  if (2 ^ 32 <=? address) || (2 ^ 32 - address <? adjustment) then None else
  if address + adjustment <? 2 ^ 32 then Some (address + adjustment) else None.

(** First mapped page of the candidate range. *)
Fixpoint first_mapped (m : gmap Z memory_page) (vaddrs : list Z) : option Z :=
  match vaddrs with
  | [] => None
  | v :: rest => if bool_decide (is_Some (m !! v)) then Some v else first_mapped m rest
  end.

(** The candidate search of the non-fixed case: after a collision the scan
    restarts at the next aligned address behind the colliding page.  The fuel is
    one more than the number of mapped pages: a candidate moves behind the page
    it collided with, so no page is hit twice ([search_fuel_enough]). *)
Fixpoint search_candidate (fuel : nat) (m : gmap Z memory_page) (size mask address : Z)
    : option Z :=
  match fuel with
  | O => None
  | S f =>
      match first_mapped m (page_addrs address (u64 (address + size))) with
      | None => Some address
      | Some vaddr =>
          match AlignGuestAddress (u64 (vaddr + DYN_PAGE_SIZE)) mask with
          | Some next =>
              if GuestAddressRangeIsValid32 next size
              then search_candidate f m size mask next else None
          | None => None
          end
      end
  end.

Definition search_fuel (s : vm) : nat := S (size (memory s)).

(** A page as calloc leaves it. *)
Definition fresh_page (ptr : Z) : memory_page :=
  {| page_ptr := ptr; addr := 0; perms := 0; enforceDataPermissions := false; backing := 0 |}.

(** The insertion loop: [inl] is the failure errno after the rollback, [inr] the
    reservations made. *)
Fixpoint reserve_loop (env : host_env) (fixed : bool) (vaddrs : list Z)
    (reservations : list GuestPageReservation) (s : vm)
    : option ((Z + list GuestPageReservation) * vm) :=
  match vaddrs with
  | [] => Some (inr reservations, s)
  | vaddr :: rest =>
      if bool_decide (is_Some (memory s !! vaddr)) then
        if fixed then reserve_loop env fixed rest reservations s else None
      else
        let page := calloc_page env vaddr in
        if page =? 0 then
          Some (inl ENOMEM, RollbackGuestPageReservations reservations s) else
        if negb (push_back_ok env vaddr) then
          Some (inl ENOMEM, RollbackGuestPageReservations reservations s) else
        let reservations' := reservations ++ [{| reserved_address := vaddr; reserved_page := page |}] in
        let ret := kh_put_ret env vaddr in
        if ret <? 0 then
          Some (inl ENOMEM, RollbackGuestPageReservations reservations' s) else
        if ret =? 0 then
          Some (inl EEXIST, RollbackGuestPageReservations reservations' s) else
        reserve_loop env fixed rest reservations' (put_page vaddr (fresh_page page) s)
  end.

(** [Dynarmic_mem_reserve]: [inl errno], or the address with the reservations. *)
Definition Dynarmic_mem_reserve (env : host_env) (address size : Z) (fixed : bool) (mask : Z)
    (s : vm) : option ((Z + Z * list GuestPageReservation) * vm) :=
  if (size =? 0) || negb (page_offset size =? 0) || (mask <? DYN_PAGE_MASK) ||
     (UINT32_MAX <? mask) || negb (Z.land mask (u64 (mask + 1)) =? 0)
  then Some (inl EINVAL, s) else
  if fixed && (address <? DYN_PAGE_SIZE) then Some (inl ENOMEM, s) else
  let address1 := if negb fixed && (address <? 0x10000000)
                  then u64 (address + 0x10000000) else address in
  match AlignGuestAddress address1 mask with
  | None => Some (inl (if fixed then EINVAL else ENOMEM), s)
  | Some address2 =>
      if negb (GuestAddressRangeIsValid32 address2 size)
      then Some (inl (if fixed then EINVAL else ENOMEM), s) else
      let found := if fixed then Some address2
                   else search_candidate (search_fuel s) (memory s) size mask address2 in
      match found with
      | None => Some (inl ENOMEM, s)
      | Some address3 =>
          if negb (vector_reserve_ok env) then Some (inl ENOMEM, s) else
          '(r, s') ← reserve_loop env fixed (page_addrs address3 (u64 (address3 + size))) [] s;
          Some (match r with inl e => inl e | inr rs => inr (address3, rs) end, s')
      end
  end.

(** ** mmap *)

Definition MAP_SHARED : Z := 0x1.
Definition MAP_PRIVATE : Z := 0x2.
Definition MAP_FIXED : Z := 0x10.
Definition MAP_ANONYMOUS : Z := 0x1000.

(** Arguments every mapping call checks first. *)
Definition mmap_arguments_valid (address size protection : Z) : bool :=
  (page_offset address =? 0) && negb (size =? 0) && (page_offset size =? 0) &&
  GuestProtectionIsValid protection && GuestAddressRangeIsValid32 address size.

(** Rewriting the page structure under [vaddr] in place: the new contents are
    published, then the reference to the old backing is released. *)
Definition rebind_page (update : memory_page -> memory_page) (vaddr : Z) (s : vm) : option vm :=
  match memory s !! vaddr with
  | None => None
  | Some page =>
      ReleaseMemoryBackingReference (backing page)
        (publish_page vaddr (put_page vaddr (update page) s))
  end.

(** Binding one reserved (or replaced) page to its new host page and backing. *)
Definition bound_page (hostAddress protection newBacking : Z) (page : memory_page) : memory_page :=
  {| page_ptr := page_ptr page; addr := hostAddress; perms := protection;
     enforceDataPermissions := Z.land protection PROT_READ =? 0;
     backing := newBacking |}.

Definition bind_page (hostAddress protection newBacking : Z) (vaddr : Z) (s : vm) : option vm :=
  rebind_page (bound_page hostAddress protection newBacking) vaddr s.

(** [Dynarmic_direct_mmap]: the guest range aliases the host range at
    [src + off], which it does not own (no backing). *)
Definition Dynarmic_direct_mmap (env : host_env) (address size protection flags src off : Z)
    : step := fun s =>
  if negb (mmap_arguments_valid address size protection) then Some (Errno EINVAL, s) else
  '(r, s1) ← Dynarmic_mem_reserve env address size (has_flag flags MAP_FIXED) DYN_PAGE_MASK s;
  match r with
  | inl e => Some (Errno e, s1)
  | inr (reservedAddress, _) =>
      s2 ← fold_opt (fun vaddr => bind_page (u64 (src + off + vaddr - reservedAddress)) protection 0 vaddr)
             (page_addrs reservedAddress (u64 (reservedAddress + size)))
             (InvalidateGuestMemoryLookupCaches s1);
      Some (Ret (u32 reservedAddress),
            InvalidateAllGuestJits (u32 reservedAddress) size s2)
  end.

(** The host mapping request of [Dynarmic_mmap]: flags, offset, length and
    protection after the executable-file and anonymous adjustments. *)
Definition executable_file (protection size fildes off : Z) : bool :=
  has_flag protection PROT_EXEC && negb (fildes =? -1) && (0x1000 <? size) && (off =? 0).

Definition mmap_flags (protection size flags fildes off : Z) : Z :=
  if executable_file protection size fildes off
  then Z.land (Z.lor flags MAP_PRIVATE) (Z.lnot MAP_SHARED) else flags.

Definition mmap_host_protection (protection size flags fildes off : Z) : Z :=
  let p0 := HostProtectionForGuestPermissions protection in
  let p1 := if has_flag (mmap_flags protection size flags fildes off) MAP_ANONYMOUS
            then Z.lor p0 (Z.lor PROT_READ PROT_WRITE) else p0 in
  if executable_file protection size fildes off then Z.lor p1 (Z.lor PROT_READ PROT_WRITE) else p1.

(** [off & ~(PAGE_SIZE - 1)]. *)
Definition aligned_off (env : host_env) (off : Z) : Z := Z.land off (u64_not (host_page_size env - 1)).

(** The host call: an address with initial bytes, or errno. *)
Definition mmap_host_call (env : host_env) (protection size flags fildes off : Z) (purgable : bool)
    : Z * list Z + Z :=
  let flags' := mmap_flags protection size flags fildes off in
  let mappingSize := u64 (size + (off - aligned_off env off)) in
  if purgable then
    if negb (has_flag flags' MAP_ANONYMOUS) || negb (fildes =? -1) ||
       negb (aligned_off env off =? 0)
    then inr EINVAL
    else match host_vm_allocate env mappingSize with
         | inl a => inl (a, [])
         | inr k => inr (if (k =? KERN_NO_SPACE) || (k =? KERN_RESOURCE_SHORTAGE)
                         then ENOMEM else EINVAL)
         end
  else host_mmap env mappingSize (mmap_host_protection protection size flags fildes off)
         (Z.land flags' (Z.lnot MAP_FIXED)) fildes (aligned_off env off).

(** [Dynarmic_mmap]. *)
Definition Dynarmic_mmap (env : host_env) (address size protection flags fildes off mask : Z)
    (purgable : bool) : step := fun s =>
  if negb (mmap_arguments_valid address size protection) then Some (Errno EINVAL, s) else
  '(r, s1) ← Dynarmic_mem_reserve env address size (has_flag flags MAP_FIXED) mask s;
  match r with
  | inl e => Some (Errno e, s1)
  | inr (reservedAddress, reservations) =>
      match mmap_host_call env protection size flags fildes off purgable with
      | inr e => Some (Errno e, RollbackGuestPageReservations reservations s1)
      | inl (mappingAddress, bytes) =>
          let b := calloc_backing env in
          if b =? 0 then Some (Errno ENOMEM, RollbackGuestPageReservations reservations s1) else
          let bk := {| backing_addr := mappingAddress;
                       backing_size := u64 (size + (off - aligned_off env off));
                       references := size / DYN_PAGE_SIZE;
                       hostProtection := mmap_host_protection protection size flags fildes off |} in
          let s2 := with_backings (<[b := bk]> (backings s1))
                      (with_host (host_write (host s1) mappingAddress bytes) s1) in
          let first := mappingAddress + (off - aligned_off env off) in
          s3 ← fold_opt (fun vaddr => bind_page (u64 (first + (vaddr - reservedAddress))) protection b vaddr)
                 (page_addrs reservedAddress (u64 (reservedAddress + size)))
                 (InvalidateGuestMemoryLookupCaches s2);
          Some (Ret (u32 reservedAddress),
                InvalidateAllGuestJits (u32 reservedAddress) size s3)
      end
  end.

(** ** vm_remap *)

Definition VM_FLAGS_ANYWHERE : Z := 0x1.
Definition VM_FLAGS_OVERWRITE : Z := 0x4000.
Definition VM_PROT_ALL : Z := 7.

(** The source scan: the copied page structures, or the kernel error. *)
Fixpoint remap_collect (s : vm) (vaddrs : list Z) : list memory_page + Z :=
  match vaddrs with
  | [] => inl []
  | v :: rest =>
      match memory s !! v with
      | None => inr KERN_INVALID_ADDRESS
      | Some page =>
          if addr page =? 0 then inr KERN_INVALID_ADDRESS else
          if (backing page =? 0) || has_flag (perms page) PROT_EXEC then inr KERN_NOT_SUPPORTED else
          match remap_collect s rest with
          | inl pages => inl (page :: pages)
          | inr e => inr e
          end
      end
  end.

Definition common_protection (pages : list memory_page) : Z :=
  foldl (fun p page => Z.land p (perms page)) VM_PROT_ALL pages.

(** [++page.backing->references]. *)
Definition retain_backing (page : memory_page) (s : vm) : option vm :=
  match backings s !! backing page with
  | None => None
  | Some bk => Some (with_backings
      (<[backing page := with_references (u64 (references bk + 1)) bk]> (backings s)) s)
  end.

(** Overwriting one destination page with a copied structure; the structure's
    own address (its identity) stays. *)
Definition aliased_page (src page : memory_page) : memory_page :=
  {| page_ptr := page_ptr page; addr := addr src; perms := perms src;
     enforceDataPermissions := true; backing := backing src |}.

Definition remap_page (va : Z * memory_page) (s : vm) : option vm :=
  rebind_page (aliased_page (snd va)) (fst va) s.

(** [Dynarmic_vm_remap]: the kern_return_t and, on success, the new [*address]
    and [*protection]. *)
Definition Dynarmic_vm_remap (env : host_env) (resize_ok : bool)
    (address size mask flags source : Z) (copy : bool) (s : vm)
    : option (Z * option (Z * Z) * vm) :=
  if copy || negb (page_offset source =? 0) then Some (KERN_NOT_SUPPORTED, None, s) else
  let alignment := Z.lor mask DYN_PAGE_MASK in
  let anywhere := has_flag flags VM_FLAGS_ANYWHERE in
  let overwrite := has_flag flags VM_FLAGS_OVERWRITE in
  if has_flag flags (Z.lnot (Z.lor VM_FLAGS_ANYWHERE VM_FLAGS_OVERWRITE)) ||
     (anywhere && overwrite) || negb (Z.land alignment (u64 (alignment + 1)) =? 0)
  then Some (KERN_INVALID_ARGUMENT, None, s) else
  let length := page_base (u64 (size + DYN_PAGE_MASK)) in
  let destination := if anywhere then 0 else page_base address in
  if length =? 0 then Some (KERN_INVALID_ARGUMENT, None, s) else
  if negb (GuestAddressRangeIsValid32 source length) then Some (KERN_INVALID_ADDRESS, None, s) else
  if negb (GuestAddressRangeIsValid32 destination length) ||
     (negb anywhere && ((destination <? DYN_PAGE_SIZE) || negb (Z.land destination alignment =? 0)))
  then Some (KERN_NO_SPACE, None, s) else
  if memory_handle s =? 0 then Some (KERN_INVALID_ADDRESS, None, s) else
  if negb resize_ok then Some (KERN_RESOURCE_SHORTAGE, None, s) else
  match remap_collect s (page_addrs source (source + length)) with
  | inr e => Some (e, None, s)
  | inl pages =>
      if negb anywhere && negb overwrite &&
         existsb (fun v => bool_decide (is_Some (memory s !! v)))
           (page_addrs destination (u64 (destination + length)))
      then Some (KERN_NO_SPACE, None, s) else
      '(r, s1) ← Dynarmic_mem_reserve env destination length (negb anywhere) alignment s;
      match r with
      | inl _ => Some (KERN_NO_SPACE, None, s1)
      | inr (mapped, _) =>
          s2 ← fold_opt retain_backing pages s1;
          s3 ← fold_opt remap_page
                 (zip (page_addrs mapped (u64 (mapped + length))) pages)
                 (InvalidateGuestMemoryLookupCaches s2);
          Some (KERN_SUCCESS, Some (u32 mapped, common_protection pages),
                InvalidateAllGuestJits (u32 mapped) length s3)
      end
  end.

(** ** mprotect *)

(** The distinct backings of the range in order of first use, with the host
    protection each needs ([backingUpdates]). *)
Fixpoint collect_backing_updates (s : vm) (perms : Z) (vaddrs : list Z) (updates : list (Z * Z))
    : option (list (Z * Z) + Z) :=
  match vaddrs with
  | [] => Some (inl updates)
  | v :: rest =>
      match memory s !! v with
      | None => Some (inr ENOMEM)
      | Some page =>
          if (backing page =? 0) || bool_decide (backing page ∈ updates.*1)
          then collect_backing_updates s perms rest updates
          else match backings s !! backing page with
               | None => None
               | Some bk =>
                   collect_backing_updates s perms rest
                     (updates ++ [(backing page, Z.lor (hostProtection bk)
                                     (HostProtectionForGuestPermissions perms))])
               end
      end
  end.

(** Widening the host mappings one by one; stops at the first host failure. *)
Fixpoint widen_backings (env : host_env) (updates : list (Z * Z)) (s : vm)
    : option (option Z * vm) :=
  match updates with
  | [] => Some (None, s)
  | (b, required) :: rest =>
      match backings s !! b with
      | None => None
      | Some bk =>
          if required =? hostProtection bk then widen_backings env rest s else
          match host_mprotect env (backing_addr bk) (backing_size bk) required with
          | Some e => Some (Some e, s)
          | None => widen_backings env rest
              (with_backings (<[b := with_hostProtection required bk]> (backings s)) s)
          end
      end
  end.

Definition unpublish_page (vaddr : Z) (s : vm) : vm := page_table_store (page_index vaddr) 0 s.

Definition protect_page (perms : Z) (vaddr : Z) (s : vm) : vm :=
  match memory s !! vaddr with
  | None => s
  | Some page => publish_page vaddr (put_page vaddr
      {| page_ptr := page_ptr page; addr := addr page; perms := perms;
         enforceDataPermissions := true; backing := backing page |} s)
  end.

(** [Dynarmic_mprotect]; [collect_ok] is whether the vectors could grow. *)
Definition Dynarmic_mprotect (env : host_env) (collect_ok : bool) (address size perms : Z)
    : step := fun s =>
  if negb (page_offset address =? 0) then Some (Errno EINVAL, s) else
  if (size =? 0) || negb (page_offset size =? 0) then Some (Errno EINVAL, s) else
  if negb (GuestProtectionIsValid perms) then Some (Errno EINVAL, s) else
  if UINT64_MAX - address <? size then Some (Errno EINVAL, s) else
  if negb (GuestAddressRangeIsValid32 address size) then Some (Errno EINVAL, s) else
  let vaddrs := page_addrs address (address + size) in
  collected ← collect_backing_updates s perms vaddrs [];
  match collected with
  | inr e => Some (Errno e, s)
  | inl updates =>
      if negb collect_ok then Some (Errno ENOMEM, s) else
      let s1 := foldl (fun s v => unpublish_page v s) (InvalidateGuestMemoryLookupCaches s) vaddrs in
      '(failed, s2) ← widen_backings env updates s1;
      match failed with
      | Some e => Some (Errno e, foldl (fun s v => publish_page v s) s2 vaddrs)
      | None =>
          let s3 := foldl (fun s v => protect_page perms v s) s2 vaddrs in
          Some (Ret 0, InvalidateAllGuestJits (u32 address) size s3)
      end
  end.

(** ** Private copy *)

(** The scan of [ReplaceGuestMemoryRangeWithPrivateCopy]: [None] when every page
    can be replaced. *)
Fixpoint private_copy_check (s : vm) (size : Z) (offset_addrs : list (Z * Z)) : option Z :=
  match offset_addrs with
  | [] => None
  | (offset, v) :: rest =>
      match memory s !! v with
      | None => Some EFAULT
      | Some page =>
          if addr page =? 0 then Some EFAULT else
          let replacementBytes := if size - offset <? DYN_PAGE_SIZE then size - offset else DYN_PAGE_SIZE in
          if (replacementBytes <? DYN_PAGE_SIZE) &&
             match backings s !! backing page with
             | Some bk => negb (backing page =? 0) && negb (has_flag (hostProtection bk) PROT_READ)
             | None => false
             end
          then Some EACCES else private_copy_check s size rest
      end
  end.

(** The bytes past the replacement that a partially replaced page keeps. *)
Fixpoint preserve_tails (s : vm) (size privateMapping : Z) (offset_addrs : list (Z * Z))
    (h : gmap Z Z) : gmap Z Z :=
  match offset_addrs with
  | [] => h
  | (offset, v) :: rest =>
      let replacementBytes := if size - offset <? DYN_PAGE_SIZE then size - offset else DYN_PAGE_SIZE in
      let preservedBytes := DYN_PAGE_SIZE - replacementBytes in
      let h' := match memory s !! v with
                | Some page => if preservedBytes =? 0 then h else
                    host_write h (privateMapping + offset + replacementBytes)
                      (host_read h (addr page + replacementBytes) preservedBytes)
                | None => h
                end in
      preserve_tails s size privateMapping rest h'
  end.

(** Repointing one page at the private mapping. *)
Definition repoint_page (privateMapping privateBacking : Z) (ov : Z * Z) (s : vm) : option vm :=
  let '(offset, v) := ov in
  match memory s !! v with
  | None => None
  | Some page =>
      ReleaseMemoryBackingReference (backing page) (put_page v
        {| page_ptr := page_ptr page; addr := privateMapping + offset; perms := perms page;
           enforceDataPermissions := enforceDataPermissions page; backing := privateBacking |} s)
  end.

(** The (offset, address) pairs of [mappedSize] bytes from [address]. *)
Definition offset_addrs (address mappedSize : Z) : list (Z * Z) :=
  (fun v => (v - address, v)) <$> page_addrs address (address + mappedSize).

(** [ReplaceGuestMemoryRangeWithPrivateCopy]; [vectors_ok] is whether the page
    vector could be allocated. *)
Definition ReplaceGuestMemoryRangeWithPrivateCopy (env : host_env) (vectors_ok : bool)
    (address : Z) (source : list Z) : step := fun s =>
  let size := Z.of_nat (length source) in
  if size =? 0 then Some (Ret 0, s) else
  if negb (page_offset address =? 0) || negb (GuestAddressRangeIsValid32 address size)
  then Some (Errno EINVAL, s) else
  let mappedSize := page_base (size + DYN_PAGE_MASK) in
  if negb vectors_ok then Some (Errno ENOMEM, s) else
  if memory_handle s =? 0 then Some (Errno EFAULT, s) else
  let pages := offset_addrs address mappedSize in
  match private_copy_check s size pages with
  | Some e => Some (Errno e, s)
  | None =>
      match host_mmap env mappedSize (Z.lor PROT_READ PROT_WRITE)
              (Z.lor MAP_PRIVATE MAP_ANONYMOUS) (-1) 0 with
      | inr e => Some (Errno e, s)
      | inl (privateMapping, _) =>
          let b := calloc_backing env in
          if b =? 0 then Some (Errno ENOMEM, s) else
          let h1 := preserve_tails s size privateMapping pages (host s) in
          let h2 := host_write h1 privateMapping source in
          let bk := {| backing_addr := privateMapping; backing_size := mappedSize;
                       references := Z.of_nat (length pages);
                       hostProtection := Z.lor PROT_READ PROT_WRITE |} in
          let s1 := with_backings (<[b := bk]> (backings s)) (with_host h2 s) in
          let s2 := foldl (fun s ov => unpublish_page (snd ov) s)
                      (InvalidateGuestMemoryLookupCaches s1) pages in
          s3 ← fold_opt (repoint_page privateMapping b) pages s2;
          Some (Ret 0, foldl (fun s ov => publish_page (snd ov) s) s3 pages)
      end
  end.
