(* ===== verification/GuestReserve.v ===== *)
(** Properties of [AlignGuestAddress], [Dynarmic_mem_reserve] and
    [RollbackGuestPageReservations]: the candidate search terminates, returns
    the lowest aligned free range at or above the hint, and a failed
    reservation leaves the map exactly as it was. *)

From S2P Require Import Prelude.
From S2P Require Import VmEpoch.
From S2P Require Import GuestMemory.
From S2P Require Import GuestMapping.
From stdpp Require Import base gmap list fin_maps list_numbers.
From Stdlib Require Import ZArith Lia.
Open Scope Z_scope.

(** [mask] is one less than a power of two, at least a page and at most 32
    bits: what [Dynarmic_mem_reserve] accepts. *)
Definition mask_ok (mask : Z) : Prop := exists k, 12 <= k <= 32 /\ mask = Z.ones k.

(** ** Masks *)

Lemma mask_test mask :
  DYN_PAGE_MASK <= mask <= UINT32_MAX -> Z.land mask (mask + 1) = 0 -> mask_ok mask.
Proof.
  intros Hm Hl.
  (* [mask] and [mask + 1] share no bit, so [mask + 1] is a power of two *)
  set (k := Z.log2 (mask + 1)). unfold DYN_PAGE_MASK in *.
  assert (0 <= k) by apply Z.log2_nonneg.
  pose proof (Z.log2_spec (mask + 1) ltac:(lia)) as [Hlo Hhi]. fold k in Hlo, Hhi.
  assert (mask + 1 = 2 ^ k) as Hk.
  { destruct (decide (mask + 1 = 2 ^ k)) as [|Hne]; [done|exfalso].
    assert (Z.log2 mask = k) as Hlog.
    { apply Z.log2_unique; [lia|]. rewrite Z.pow_succ_r in * by lia. lia. }
    assert (Z.testbit (Z.land mask (mask + 1)) k = true) as Hbit.
    { rewrite Z.land_spec. rewrite <- Hlog at 1. rewrite Z.bit_log2 by lia.
      unfold k. rewrite Z.bit_log2 by lia. done. }
    rewrite Hl, Z.bits_0 in Hbit. done. }
  exists k. split; [|rewrite Z.ones_equiv; lia].
  unfold UINT32_MAX, U32_MOD in *. split.
  - apply (Z.pow_le_mono_r_iff 2); lia.
  - apply (Z.pow_le_mono_r_iff 2); lia.
Qed.

Lemma mask_ok_range mask : mask_ok mask -> DYN_PAGE_MASK <= mask <= UINT32_MAX.
Proof.
  intros (k & Hk & ->). rewrite Z.ones_equiv. unfold DYN_PAGE_MASK, UINT32_MAX, U32_MOD.
  pose proof (Z.pow_le_mono_r 2 12 k ltac:(lia) ltac:(lia)).
  pose proof (Z.pow_le_mono_r 2 k 32 ltac:(lia) ltac:(lia)).
  change (2 ^ 12) with 4096 in *. lia.
Qed.

Lemma mask_ok_align mask a : mask_ok mask -> a mod (mask + 1) = 0 -> a mod DYN_PAGE_SIZE = 0.
Proof.
  intros (k & Hk & ->) Ha. rewrite Z.ones_equiv in Ha. replace (Z.pred (2 ^ k) + 1) with (2 ^ k) in Ha by lia.
  apply Z.mod_divide; [done|]. apply Z.mod_divide in Ha; [|apply Z.pow_nonzero; lia].
  etransitivity; [|exact Ha]. exists (2 ^ (k - 12)). unfold DYN_PAGE_SIZE.
  change 4096 with (2 ^ 12). rewrite <- Z.pow_add_r by lia. f_equal. lia.
Qed.

(** [AlignGuestAddress] is "the least multiple of [mask + 1] that is at least
    [address]", when it is inside the 32-bit space. *)
Lemma AlignGuestAddress_spec address mask :
  mask_ok mask -> 0 <= address ->
  match AlignGuestAddress address mask with
  | Some a => address <= a < 2 ^ 32 /\ a mod (mask + 1) = 0 /\
      (forall x, address <= x -> x mod (mask + 1) = 0 -> a <= x)
  | None => forall x, address <= x -> x mod (mask + 1) = 0 -> 2 ^ 32 <= x
  end.
Proof.
  intros (k & Hk & ->) Ha. unfold AlignGuestAddress. rewrite !Z.land_ones by lia.
  rewrite Z.ones_equiv. replace (Z.pred (2 ^ k) + 1) with (2 ^ k) by lia.
  set (m := 2 ^ k) in *.
  assert (0 < m <= 2 ^ 32) as Hm.
  { unfold m. split; [apply Z.pow_pos_nonneg; lia|apply Z.pow_le_mono_r; lia]. }
  pose proof (Z.mod_pos_bound address m ltac:(lia)) as Hr.
  pose proof (Z.div_mod address m ltac:(lia)) as Hd.
  assert (U64_MOD > 2 ^ 32) by done.
  rewrite u64_small by lia.
  set (r := address mod m) in *. set (q := address / m) in *.
  assert ((m - r) mod m = if r =? 0 then 0 else m - r) as ->.
  { destruct (r =? 0) eqn:E; zb; [rewrite E, Z.sub_0_r; apply Z.mod_same; lia|].
    apply Z.mod_small; lia. }
  set (adj := if r =? 0 then 0 else m - r).
  assert (exists t, address + adj = t * m /\ 0 <= adj < m) as (t & Ht & Hadj).
  { unfold adj. destruct (r =? 0) eqn:E; zb; [exists q; lia|exists (q + 1); lia]. }
  assert (forall x, address <= x -> x mod m = 0 -> address + adj <= x) as Hleast.
  { intros x Hx Hxm. pose proof (Z.div_mod x m ltac:(lia)) as Hxd. rewrite Hxm in Hxd.
    assert (t <= x / m); [|nia]. assert (t - 1 < x / m); [|lia]. nia. }
  destruct ((2 ^ 32 <=? address) || (2 ^ 32 - address <? adj))%bool eqn:Eb.
  - intros x Hx Hxm. specialize (Hleast x Hx Hxm). apply orb_true_iff in Eb as [|]; zb; lia.
  - zb. destruct (address + adj <? 2 ^ 32) eqn:El; zb.
    + split; [lia|]. split; [rewrite Ht; apply Z.mod_mul; lia|done].
    + intros x Hx Hxm. specialize (Hleast x Hx Hxm). lia.
Qed.

(** ** The search *)

Lemma first_mapped_spec m l :
  match first_mapped m l with
  | Some v => v ∈ l /\ is_Some (m !! v)
  | None => forall v, v ∈ l -> m !! v = None
  end.
Proof.
  induction l as [|x l IH]; cbn; [set_solver|]. case_bool_decide as Hx; [set_solver|].
  apply eq_None_not_Some in Hx. destruct (first_mapped m l); set_solver.
Qed.

(** Pages of [m] at or above [a]: the search's measure. *)
Definition keys_from (m : gmap Z memory_page) (a : Z) : gset Z :=
  filter (fun k => a <= k) (dom m).

Lemma keys_from_lt m a v next :
  is_Some (m !! v) -> a <= v -> v < next ->
  (size (keys_from m next) < size (keys_from m a))%nat.
Proof.
  intros Hv Ha Hn. apply subset_size. unfold keys_from. split.
  - intros x [? ?]%elem_of_filter. apply elem_of_filter. split; [lia|done].
  - intros Hsub. assert (v ∈ filter (fun k => a <= k) (dom m)) as Hin.
    { apply elem_of_filter. split; [done|]. by apply elem_of_dom. }
    apply Hsub, elem_of_filter in Hin. lia.
Qed.

(** A free range: no page of [[a, a + size)] is mapped. *)
Definition range_free (m : gmap Z memory_page) (a size : Z) : Prop :=
  forall v, v ∈ page_addrs a (a + size) -> m !! v = None.

(** A candidate the search may return. *)
Definition candidate (m : gmap Z memory_page) (size mask a : Z) : Prop :=
  a mod (mask + 1) = 0 /\ a + size <= 2 ^ 32 /\ range_free m a size.

Lemma collision_excludes m size mask a v x :
  mask_ok mask -> 0 <= a -> a mod (mask + 1) = 0 -> v ∈ page_addrs a (a + size) ->
  is_Some (m !! v) -> a <= x -> candidate m size mask x -> v + DYN_PAGE_SIZE <= x.
Proof.
  intros Hm Ha0 Ha Hv Hs Hx (Hxm & Hxe & Hfree).
  apply elem_of_page_addrs in Hv as [Hv Hvm].
  apply mask_ok_align in Ha; [|done]. apply mask_ok_align in Hxm; [|done].
  destruct (decide (x <= v)) as [Hle|Hgt].
  - exfalso. destruct Hs as [p Hp]. rewrite Hfree in Hp; [done|].
    apply elem_of_page_addrs. split; [lia|].
    apply Z.mod_divide; [done|]. apply Z.mod_divide in Ha, Hxm, Hvm; [|done..].
    replace (v - x) with ((v - a) + (a - x)) by lia.
    apply Z.divide_add_r; [done|]. by apply Z.divide_sub_r.
  - apply Z.mod_divide in Ha, Hxm, Hvm; [|done..].
    destruct Ha as [ka ->], Hxm as [kx ->], Hvm as [kv Hkv].
    unfold DYN_PAGE_SIZE in *. lia.
Qed.

Lemma search_spec fuel m sz mask : forall a,
  mask_ok mask -> 0 < sz -> 0 <= a -> a mod (mask + 1) = 0 -> a + sz <= 2 ^ 32 ->
  (size (keys_from m a) < fuel)%nat ->
  match search_candidate fuel m sz mask a with
  | Some r => a <= r /\ candidate m sz mask r /\
      (forall x, a <= x -> candidate m sz mask x -> r <= x)
  | None => forall x, a <= x -> ~ candidate m sz mask x
  end.
Proof.
  induction fuel as [|fuel IH]; intros a Hm Hsz Ha Hal He Hfuel; [lia|].
  cbn [search_candidate]. assert (2 ^ 33 < U64_MOD) by done.
  rewrite u64_small by lia.
  pose proof (first_mapped_spec m (page_addrs a (a + sz))) as Hfirst.
  destruct (first_mapped m (page_addrs a (a + sz))) as [v|]; [|by repeat split].
  destruct Hfirst as [Hv Hmap].
  pose proof (proj1 (elem_of_page_addrs _ _ _) Hv) as [Hvr _].
  rewrite u64_small by (unfold DYN_PAGE_SIZE; lia).
  pose proof (fun x => collision_excludes m sz mask a v x Hm Ha Hal Hv Hmap) as Hex.
  pose proof (AlignGuestAddress_spec (v + DYN_PAGE_SIZE) mask Hm) as Hnext.
  destruct (AlignGuestAddress (v + DYN_PAGE_SIZE) mask) as [next|].
  - destruct Hnext as (Hn & Hnm & Hleast); [unfold DYN_PAGE_SIZE; lia|].
    assert (forall x, a <= x -> candidate m sz mask x -> next <= x) as Hlow.
    { intros x Hx Hc. apply Hleast; [by eapply Hex|apply Hc]. }
    assert (v < next) by (unfold DYN_PAGE_SIZE in Hn; lia).
    unfold GuestAddressRangeIsValid32.
    destruct ((next <? 2 ^ 32) && (sz <=? 2 ^ 32 - next))%bool eqn:Ev.
    + zb. assert (size (keys_from m next) < size (keys_from m a))%nat
        by (eapply keys_from_lt; [exact Hmap|lia|lia]).
      specialize (IH next Hm Hsz ltac:(lia) Hnm ltac:(lia) ltac:(lia)).
      destruct (search_candidate fuel m sz mask next) as [r|].
      * destruct IH as (? & ? & Hmin). split; [lia|]. split; [done|]. eauto.
      * intros x Hx Hc. eapply IH; [|exact Hc]. eauto.
    + intros x Hx Hc. specialize (Hlow x Hx Hc). destruct Hc as (_ & Hxe & _).
      apply andb_false_iff in Ev as [|]; zb; lia.
  - intros x Hx Hc. destruct (Hc) as (Hxm & Hxe & _).
    assert (2 ^ 32 <= x); [|lia]. apply Hnext; [unfold DYN_PAGE_SIZE; lia|by eapply Hex|done].
Qed.

Lemma search_fuel_enough s a : (size (keys_from (memory s) a) < search_fuel s)%nat.
Proof.
  unfold search_fuel. apply Nat.lt_succ_r. rewrite <- size_dom.
  apply subseteq_size. unfold keys_from. intros x [_ ?]%elem_of_filter. done.
Qed.

(** ** Insertion and rollback *)

Lemma put_page_memory v p s : memory (put_page v p s) = <[v := p]> (memory s).
Proof. done. Qed.

(** Inserting the reserved pages. *)
Definition insert_reservations (rs : list GuestPageReservation) (m : gmap Z memory_page)
    : gmap Z memory_page :=
  foldl (fun m r => <[reserved_address r := fresh_page (reserved_page r)]> m) m rs.

Lemma insert_reservations_snoc rs r m :
  insert_reservations (rs ++ [r]) m =
    <[reserved_address r := fresh_page (reserved_page r)]> (insert_reservations rs m).
Proof. unfold insert_reservations. by rewrite foldl_app. Qed.

Lemma insert_reservations_lookup rs m v :
  v ∉ (reserved_address <$> rs) -> insert_reservations rs m !! v = m !! v.
Proof.
  revert m. induction rs as [|r rs IH]; intros m Hv; [done|]. cbn in *.
  apply not_elem_of_cons in Hv as [Hne Hv]. unfold insert_reservations in IH.
  rewrite IH by done. by rewrite lookup_insert_ne.
Qed.

(** Reservations are made at addresses that were free, each once. *)
Definition reservations_ok (rs : list GuestPageReservation) (m : gmap Z memory_page) : Prop :=
  NoDup (reserved_address <$> rs) /\
  forall r, r ∈ rs -> m !! reserved_address r = None.

Lemma with_memory_id s : with_memory (memory s) s = s.
Proof. by destruct s. Qed.

Lemma reservations_ok_snoc rs r m :
  reservations_ok rs m -> m !! reserved_address r = None ->
  reserved_address r ∉ (reserved_address <$> rs) -> reservations_ok (rs ++ [r]) m.
Proof.
  intros [Hn Hf] Hr Hni. split.
  - rewrite fmap_app. cbn. apply NoDup_app. split_and!; [done| |apply NoDup_singleton].
    intros x Hx ->%list_elem_of_singleton. done.
  - intros r' [?| ->%list_elem_of_singleton]%elem_of_app; [by apply Hf|done].
Qed.

Lemma rollback_one_absent r s : memory s !! reserved_address r = None -> rollback_one r s = s.
Proof. intros H. unfold rollback_one. by rewrite H. Qed.

Lemma rollback_restores rs s :
  reservations_ok rs (memory s) ->
  RollbackGuestPageReservations rs (with_memory (insert_reservations rs (memory s)) s) = s.
Proof.
  unfold RollbackGuestPageReservations.
  induction rs as [|r rs IH] using rev_ind; intros [Hnd Hfree]; [by destruct s|].
  rewrite reverse_snoc. cbn [foldl]. rewrite fmap_app in Hnd. cbn in Hnd.
  apply NoDup_app in Hnd as (Hnd & Hdis & _).
  assert (insert_reservations rs (memory s) !! reserved_address r = None) as Hnone.
  { rewrite insert_reservations_lookup; [apply Hfree; set_solver|].
    intros Hin. eapply Hdis; [done|set_solver]. }
  unfold rollback_one at 2. rewrite insert_reservations_snoc. cbn [memory with_memory].
  rewrite lookup_insert_eq. cbn [page_ptr fresh_page]. rewrite Z.eqb_refl.
  rewrite delete_insert_id by done.
  apply IH. split; [done|]. intros r' Hr'. apply Hfree. set_solver.
Qed.

(** The insertion loop from a map extended by [rs]: it ends with more
    reservations inserted, or rolls everything back. *)
Lemma reserve_loop_spec env fixed s vaddrs : forall rs,
  NoDup vaddrs -> reservations_ok rs (memory s) ->
  (forall v, v ∈ vaddrs -> v ∉ (reserved_address <$> rs)) ->
  (fixed = false -> forall v, v ∈ vaddrs -> memory s !! v = None) ->
  exists o, reserve_loop env fixed vaddrs rs
      (with_memory (insert_reservations rs (memory s)) s) = Some o /\
    match o with
    | (inl e, s') => s' = s
    | (inr rs', s') => s' = with_memory (insert_reservations rs' (memory s)) s /\
        reservations_ok rs' (memory s) /\
        (forall v, v ∈ vaddrs \/ v ∈ (reserved_address <$> rs) ->
           is_Some (memory s !! v) \/ v ∈ (reserved_address <$> rs')) /\
        (forall v, v ∈ (reserved_address <$> rs') -> v ∈ (reserved_address <$> rs) \/ v ∈ vaddrs)
    end.
Proof.
  induction vaddrs as [|v vaddrs IH]; intros rs Hnd Hrs Hdis Hfree; cbn [reserve_loop].
  { eexists. split; [done|]. cbn. set_solver. }
  apply NoDup_cons in Hnd as [Hv Hnd]. cbn [memory with_memory].
  case_bool_decide as Hmap.
  - destruct fixed.
    + destruct (IH rs Hnd Hrs ltac:(set_solver) ltac:(done)) as (o & -> & Ho).
      exists o. split; [done|]. destruct o as [[e|rs'] s']; [done|].
      destruct Ho as (? & ? & Hcov & Hsub). split_and!; [done|done| |set_solver].
      intros x [[->|?]%elem_of_cons|?]; [|by apply Hcov; auto|by apply Hcov; auto].
      left. by rewrite insert_reservations_lookup in Hmap by set_solver.
    + exfalso. rewrite insert_reservations_lookup in Hmap by set_solver.
      rewrite Hfree in Hmap by set_solver. by destruct Hmap.
  - apply eq_None_not_Some in Hmap.
    assert (memory s !! v = None) as Hsv.
    { by rewrite insert_reservations_lookup in Hmap by set_solver. }
    set (r := {| reserved_address := v; reserved_page := calloc_page env v |}).
    assert (reservations_ok (rs ++ [r]) (memory s)) as Hrs'.
    { apply reservations_ok_snoc; [done|done|set_solver]. }
    assert (RollbackGuestPageReservations (rs ++ [r])
      (with_memory (insert_reservations rs (memory s)) s) = s) as Hroll.
    { unfold RollbackGuestPageReservations. rewrite reverse_snoc. cbn [foldl].
      rewrite rollback_one_absent by done. by apply rollback_restores. }
    destruct (calloc_page env v =? 0); [eexists; split; [done|by apply rollback_restores]|].
    destruct (negb (push_back_ok env v)); [eexists; split; [done|by apply rollback_restores]|].
    destruct (kh_put_ret env v <? 0); [eexists; split; [done|exact Hroll]|].
    destruct (kh_put_ret env v =? 0); [eexists; split; [done|exact Hroll]|].
    destruct (IH (rs ++ [r]) Hnd Hrs') as (o & Ho & Hspec).
    + intros x Hx. rewrite fmap_app. cbn. set_solver.
    + intros Hfx x Hx. apply Hfree; [done|set_solver].
    + exists o. split.
      { rewrite <- Ho. f_equal. rewrite insert_reservations_snoc. done. }
      destruct o as [[e|rs'] s']; [done|]. destruct Hspec as (? & ? & Hcov & Hsub).
      rewrite fmap_app in Hcov, Hsub. cbn in Hcov, Hsub. set_solver.
Qed.

Lemma reserve_loop_no_failure env fixed vaddrs : forall rs s e s',
  (forall v, calloc_page env v <> 0 /\ push_back_ok env v = true /\ 0 < kh_put_ret env v) ->
  reserve_loop env fixed vaddrs rs s <> Some (inl e, s').
Proof.
  induction vaddrs as [|v vaddrs IH]; intros rs s e s' Hhost; cbn [reserve_loop]; [done|].
  destruct (Hhost v) as (Hc & Hp & Hk).
  repeat case_match; zb; try congruence; try lia; try done; by apply IH.
Qed.

(** ** The whole reservation *)

(** Where a non-fixed search starts. *)
Definition anywhere_hint (address : Z) : Z :=
  if address <? 0x10000000 then address + 0x10000000 else address.

(** What a successful reservation of [sz] bytes at [a] has done to [s]. *)
Record reserved (s : vm) (sz mask a : Z) (fixed : bool) (rs : list GuestPageReservation) (s' : vm)
    : Prop := {
  reserved_mask : mask_ok mask;
  reserved_size : 0 < sz /\ sz mod DYN_PAGE_SIZE = 0;
  reserved_range : DYN_PAGE_SIZE <= a /\ a + sz <= 2 ^ 32;
  reserved_aligned : a mod (mask + 1) = 0;
  reserved_state : s' = with_memory (insert_reservations rs (memory s)) s;
  reserved_ok : reservations_ok rs (memory s);
  reserved_cover : forall v, v ∈ page_addrs a (a + sz) ->
    is_Some (memory s !! v) \/ v ∈ (reserved_address <$> rs);
  reserved_inside : forall v, v ∈ (reserved_address <$> rs) -> v ∈ page_addrs a (a + sz);
  reserved_free : fixed = false -> range_free (memory s) a sz;
}.

Lemma reserve_insertions env fixed s a sz mask rs0 :
  mask_ok mask -> 0 < sz -> sz mod DYN_PAGE_SIZE = 0 -> DYN_PAGE_SIZE <= a -> a + sz <= 2 ^ 32 ->
  a mod (mask + 1) = 0 -> (fixed = false -> range_free (memory s) a sz) -> rs0 = [] ->
  exists o, reserve_loop env fixed (page_addrs a (u64 (a + sz))) rs0 s = Some o /\
    match o with
    | (inl e, s') => s' = s
    | (inr rs, s') => reserved s sz mask a fixed rs s'
    end.
Proof.
  intros Hm Hs Hsm Ha He Hal Hfree ->. assert (2 ^ 33 < U64_MOD) by done.
  unfold DYN_PAGE_SIZE in Ha. rewrite u64_small by lia.
  destruct (reserve_loop_spec env fixed s (page_addrs a (a + sz)) [])
    as (o & Ho & Hspec); [apply NoDup_page_addrs|split; [constructor|set_solver]|set_solver|done|].
  exists o. split; [rewrite <- Ho; by destruct s|].
  destruct o as [[e|rs] s']; [done|]. destruct Hspec as (? & ? & Hcov & Hsub).
  split; try done; set_solver.
Qed.

Lemma mem_reserve_spec env address sz fixed mask s :
  0 <= address -> 0 <= sz -> 0 <= mask ->
  exists o, Dynarmic_mem_reserve env address sz fixed mask s = Some o /\
    match o with
    | (inl e, s') => s' = s
    | (inr (a, rs), s') => reserved s sz mask a fixed rs s' /\ address <= a /\
        (fixed = true -> address mod (mask + 1) = 0 -> a = address)
    end.
Proof.
  intros Ha Hs Hmask. unfold Dynarmic_mem_reserve.
  destruct (_ || _ || _ || _ || _)%bool eqn:Eargs; [by eexists|]. zb.
  assert (mask_ok mask) as Hm.
  { apply mask_test; [split; done|]. rewrite <- (u64_small (mask + 1)); [done|].
    unfold UINT32_MAX, U32_MOD in *. assert (2 ^ 33 < U64_MOD) by done. lia. }
  rewrite page_offset_mod in *.
  destruct (fixed && (address <? DYN_PAGE_SIZE))%bool eqn:Enull; [by eexists|].
  set (address1 := if (negb fixed && _)%bool then _ else _).
  assert (address <= address1 /\ DYN_PAGE_SIZE <= address1) as [Hge Hpage].
  { unfold address1. assert (2 ^ 33 < U64_MOD) by done. unfold DYN_PAGE_SIZE in *.
    destruct fixed; cbn in *; zb; [lia|].
    destruct (address <? 268435456) eqn:?; zb; [rewrite u64_small by lia|]; lia. }
  pose proof (AlignGuestAddress_spec address1 mask Hm ltac:(lia)) as Hal.
  destruct (AlignGuestAddress address1 mask) as [address2|]; [|by eexists].
  destruct Hal as (Hr & Hal & Hleast).
  destruct (GuestAddressRangeIsValid32 address2 sz) eqn:Hv; cbn [negb]; [|by eexists].
  unfold GuestAddressRangeIsValid32 in Hv. zb.
  set (found := if fixed then _ else _).
  assert (match found with
    | Some a => address2 <= a /\ a + sz <= 2 ^ 32 /\ a mod (mask + 1) = 0 /\
        (fixed = false -> range_free (memory s) a sz) /\ (fixed = true -> a = address2)
    | None => True end) as Hfound.
  { unfold found. destruct fixed; [split_and!; [lia|lia|done|done|done]|].
    pose proof (search_spec (search_fuel s) (memory s) sz mask address2 Hm ltac:(lia) ltac:(lia)
      Hal ltac:(lia) (search_fuel_enough s address2)) as Hsearch.
    destruct (search_candidate _ _ _ _ _); [|done]. unfold candidate in Hsearch. naive_solver. }
  destruct found as [a|]; [|by eexists]. destruct Hfound as (Hlo & Hhi & Halign & Hfree & Hfix).
  destruct (vector_reserve_ok env); cbn [negb]; [|by eexists].
  destruct (reserve_insertions env fixed s a sz mask []) as (o & -> & Ho);
    try done; try (unfold DYN_PAGE_SIZE in *; lia).
  destruct o as [[e|rs] s']; cbn; (eexists; split; [done|]); [done|].
  split_and!; [done|lia|]. intros Hfixed Hmod. rewrite (Hfix Hfixed).
  assert (address1 = address) as E1 by (unfold address1; by rewrite Hfixed).
  assert (address2 <= address) by (apply Hleast; [lia|done]). lia.
Qed.

(** A failed reservation leaves no trace: whatever host allocation fails and
    however many pages were already inserted, [Dynarmic_mem_reserve] returns
    with the memory map exactly as it found it (and its internal assertion
    never fires). *)
Theorem reserve_failure_unchanged env address sz fixed mask s :
  0 <= address -> 0 <= sz -> 0 <= mask ->
  exists r s', Dynarmic_mem_reserve env address sz fixed mask s = Some (r, s') /\
    (forall e, r = inl e -> s' = s).
Proof.
  intros Ha Hs Hm. destruct (mem_reserve_spec env address sz fixed mask s Ha Hs Hm)
    as ([r s'] & -> & Ho).
  exists r, s'. split; [done|]. intros e ->. done.
Qed.

(** C7: first fit.  For a valid size and alignment mask and a host that does
    not run out of memory, a non-fixed reservation terminates and returns the
    lowest suitably aligned address at or above the (bumped) hint whose whole
    range is free; it reports ENOMEM only if there is no such address. *)
Theorem reserve_first_fit env address sz mask s :
  0 <= address < 2 ^ 32 -> 0 < sz -> sz mod DYN_PAGE_SIZE = 0 -> mask_ok mask ->
  vector_reserve_ok env = true ->
  (forall v, calloc_page env v <> 0 /\ push_back_ok env v = true /\ 0 < kh_put_ret env v) ->
  exists r s', Dynarmic_mem_reserve env address sz false mask s = Some (r, s') /\
    match r with
    | inl e => e = ENOMEM /\
        forall x, anywhere_hint address <= x -> ~ candidate (memory s) sz mask x
    | inr (a, _) => anywhere_hint address <= a /\ candidate (memory s) sz mask a /\
        forall x, anywhere_hint address <= x -> candidate (memory s) sz mask x -> a <= x
    end.
Proof.
  intros Ha Hs Hsm Hm Hres Hhost.
  pose proof (mask_ok_range mask Hm) as Hmr. assert (2 ^ 33 < U64_MOD) as H33 by done.
  unfold UINT32_MAX, U32_MOD, DYN_PAGE_MASK in Hmr.
  unfold Dynarmic_mem_reserve. rewrite (u64_small (mask + 1)) by lia.
  assert (Z.land mask (mask + 1) = 0) as Hl.
  { destruct Hm as (k & Hk & ->). rewrite Z.land_comm, Z.land_ones by lia. rewrite Z.ones_equiv.
    replace (Z.pred (2 ^ k) + 1) with (2 ^ k) by lia. apply Z.mod_same, Z.pow_nonzero; lia. }
  rewrite Hl, page_offset_mod, Hsm. unfold UINT32_MAX, U32_MOD, DYN_PAGE_MASK.
  destruct (sz =? 0) eqn:?; zb; [lia|]. destruct (mask <? 4095) eqn:?; zb; [lia|].
  destruct (2 ^ 32 - 1 <? mask) eqn:?; zb; [lia|]. cbn [orb negb andb Z.eqb].
  assert ((if address <? 268435456 then u64 (address + 268435456) else address)
          = anywhere_hint address) as ->.
  { unfold anywhere_hint. destruct (address <? 268435456); [apply u64_small; lia|done]. }
  set (hint := anywhere_hint address).
  assert (DYN_PAGE_SIZE <= hint) as Hh.
  { unfold hint, anywhere_hint, DYN_PAGE_SIZE. destruct (address <? 268435456) eqn:?; zb; lia. }
  pose proof (AlignGuestAddress_spec hint mask Hm ltac:(unfold DYN_PAGE_SIZE in Hh; lia)) as Hal.
  assert (forall x, candidate (memory s) sz mask x -> x < 2 ^ 32) as Hsmall.
  { intros x (_ & ? & _). lia. }
  destruct (AlignGuestAddress hint mask) as [a2|].
  2:{ do 2 eexists. split; [done|]. split; [done|]. intros x Hx Hc.
      specialize (Hal x Hx (proj1 Hc)). specialize (Hsmall x Hc). lia. }
  destruct Hal as (Hr & Hal & Hleast).
  destruct (GuestAddressRangeIsValid32 a2 sz) eqn:Hv; cbn [negb]; unfold GuestAddressRangeIsValid32 in Hv.
  2:{ do 2 eexists. split; [done|]. split; [done|]. intros x Hx Hc.
      specialize (Hleast x Hx (proj1 Hc)). destruct Hc as (_ & ? & _).
      apply andb_false_iff in Hv as [|]; zb; lia. }
  zb. pose proof (search_spec (search_fuel s) (memory s) sz mask a2 Hm ltac:(lia)
    ltac:(unfold DYN_PAGE_SIZE in Hh; lia) Hal ltac:(lia) (search_fuel_enough s a2)) as Hsearch.
  destruct (search_candidate _ _ _ _ _) as [a|].
  2:{ do 2 eexists. split; [done|]. split; [done|]. intros x Hx Hc.
      eapply Hsearch; [|exact Hc]. apply Hleast; [done|apply Hc]. }
  destruct Hsearch as (Hlo & Hc & Hmin). rewrite Hres. cbn [negb].
  destruct Hc as (Hcm & Hce & Hcf).
  destruct (reserve_insertions env false s a sz mask []) as ([r s'] & Ho & _);
    try done; try (unfold DYN_PAGE_SIZE in *; lia).
  rewrite Ho. cbn. destruct r as [e|rs]; [exfalso|].
  - eapply reserve_loop_no_failure; [exact Hhost|exact Ho].
  - do 2 eexists. split; [done|]. split; [lia|]. split; [done|].
    intros x Hx Hxc. apply Hmin; [|done]. apply Hleast; [done|apply Hxc].
Qed.
