(* ===== verification/VmInvariant.v ===== *)
(** The invariant of the guest address space and the building blocks that keep
    it: page keys, the fast-path table, exact reference counts, pages inside
    their backings, host protection wide enough for every guest page.

    Reference counts are exact up to a [debt]: while an operation is under way
    a backing may be owed [debt b] more references than pages name it (mmap
    counts all its pages up front; a replaced page owes its old backing one
    release).  Between operations the debt is zero. *)

From S2P Require Import Prelude.
From S2P Require Import VmEpoch.
From S2P Require Import GuestMemory.
From S2P Require Import GuestMapping.
From S2P Require Import GuestReserve.
From stdpp Require Import base gmap list fin_maps list_numbers.
From Stdlib Require Import ZArith Lia.
Open Scope Z_scope.

(** ** Counting the pages of a backing *)

Definition page_count (m : gmap Z memory_page) (b : Z) : Z :=
  Z.of_nat (size (filter (fun kv => backing (snd kv) = b) m)).

Definition names (p : memory_page) (b : Z) : Z := if decide (backing p = b) then 1 else 0.

Lemma page_count_insert_new m v p b :
  m !! v = None -> page_count (<[v := p]> m) b = page_count m b + names p b.
Proof.
  intros Hv. unfold page_count, names. rewrite map_filter_insert. cbn. case_decide.
  - rewrite map_size_insert_None; [lia|]. apply map_lookup_filter_None. auto.
  - rewrite delete_id by done. lia.
Qed.

Lemma page_count_delete m v p b :
  m !! v = Some p -> page_count (delete v m) b = page_count m b - names p b.
Proof.
  intros Hv. rewrite <- (insert_delete_id m v p Hv) at 2.
  rewrite page_count_insert_new by apply lookup_delete_eq. lia.
Qed.

Lemma page_count_insert m v p p' b :
  m !! v = Some p -> page_count (<[v := p']> m) b = page_count m b - names p b + names p' b.
Proof.
  intros Hv. rewrite <- insert_delete_eq.
  rewrite page_count_insert_new by apply lookup_delete_eq.
  rewrite (page_count_delete _ _ _ _ Hv). lia.
Qed.

Lemma page_count_nonneg m b : 0 <= page_count m b.
Proof. unfold page_count. lia. Qed.

(** ** The invariant *)

Definition page_key (v : Z) : Prop :=
  DYN_PAGE_SIZE <= v < 2 ^ 32 /\ v mod DYN_PAGE_SIZE = 0.

Definition debt := Z -> Z.
Definition no_debt : debt := fun _ => 0.
Definition owe (b n : Z) (d : debt) : debt := fun x => if decide (x = b) then d x + n else d x.

(** The table slot of every page agrees with the map. *)
Definition table_ok (s : vm) : Prop :=
  forall v, 0 <= v < 2 ^ 32 -> v mod DYN_PAGE_SIZE = 0 ->
    (page_table_present s && (page_index v <? num_page_table_entries s))%bool = true ->
    page_table_slot s (page_index v) = GuestPageTablePointer (memory s !! v).

Record backing_ok (d : debt) (s : vm) (b : Z) (bk : memory_backing) : Prop := {
  backing_nonnull : b <> 0;
  backing_count : references bk = page_count (memory s) b + d b;
  backing_bound : 0 <= references bk < U64_MOD;
  backing_debt : 0 <= d b;
  backing_live : references bk = 0 <-> b ∈ given_up (epochs s);
}.

(** A page lies inside its backing, whose host protection admits every access
    the guest permissions admit. *)
Definition page_ok (s : vm) (p : memory_page) : Prop :=
  backing p <> 0 -> exists bk, backings s !! backing p = Some bk /\
    backing_addr bk <= addr p /\
    addr p + DYN_PAGE_SIZE <= backing_addr bk + backing_size bk /\
    has_all (hostProtection bk) (HostProtectionForGuestPermissions (perms p)) = true.

Record vm_core (d : debt) (s : vm) : Prop := {
  vm_keys : forall v p, memory s !! v = Some p -> page_key v;
  vm_pages : forall v p, memory s !! v = Some p -> page_ok s p;
  vm_backings : forall b bk, backings s !! b = Some bk -> backing_ok d s b bk;
}.

(** The invariant between operations. *)
Record vm_ok (s : vm) : Prop := {
  vm_is_core : vm_core no_debt s;
  vm_table : table_ok s;
  vm_cache : cache_ok s;
}.

(** Caches filled before the last invalidation only. *)
Definition caches_stale (s : vm) : Prop :=
  0 < guestMemoryLookupGeneration s /\
  forall tid c, caches s !! tid = Some c -> cache_generation c < guestMemoryLookupGeneration s.

Lemma stale_cache_ok s : caches_stale s -> cache_ok s.
Proof.
  intros [Hpos H]. split; [|intros tid c Hc; specialize (H tid c Hc); lia|done].
  intros tid c Hc. specialize (H tid c Hc). lia.
Qed.

Lemma cache_ok_ext s s' :
  memory_handle s' = memory_handle s -> memory s' = memory s ->
  guestMemoryLookupGeneration s' = guestMemoryLookupGeneration s -> caches s' = caches s ->
  cache_ok s -> cache_ok s'.
Proof. intros Hh Hm Hg Hc [H1 H2 H3]. split; rewrite ?Hh, ?Hm, ?Hg, ?Hc; done. Qed.

Lemma invalidate_stale s :
  cache_ok s -> guestMemoryLookupGeneration s < UINT64_MAX ->
  caches_stale (InvalidateGuestMemoryLookupCaches s).
Proof.
  intros [Hc _ Hp] Hg. unfold UINT64_MAX in Hg. split; cbn; rewrite u64_small by lia; [lia|].
  intros tid c H. specialize (Hc tid c H). lia.
Qed.

(** ** Page-table updates *)

Lemma page_index_inj v w :
  v mod DYN_PAGE_SIZE = 0 -> w mod DYN_PAGE_SIZE = 0 -> page_index v = page_index w -> v = w.
Proof.
  unfold page_index. rewrite !Z.shiftr_div_pow2 by done. change (2 ^ DYN_PAGE_BITS) with DYN_PAGE_SIZE.
  intros Hv Hw He. pose proof (Z.div_mod v DYN_PAGE_SIZE ltac:(done)).
  pose proof (Z.div_mod w DYN_PAGE_SIZE ltac:(done)). congruence.
Qed.

Lemma store_slot s idx p i :
  page_table_slot (page_table_store idx p s) i =
    if decide (i = idx /\ (page_table_present s && (idx <? num_page_table_entries s))%bool = true)
    then p else page_table_slot s i.
Proof.
  unfold page_table_store.
  destruct (page_table_present s && (idx <? num_page_table_entries s))%bool eqn:E;
    [|case_decide as H; [by destruct H|done]].
  unfold page_table_slot. cbn. destruct (decide (i = idx)) as [->|Hne].
  - rewrite decide_True by done. rewrite E.
    destruct (p =? 0) eqn:E0; zb; [by rewrite lookup_delete_eq|by rewrite lookup_insert_eq].
  - rewrite decide_False by tauto.
    destruct (p =? 0); [by rewrite lookup_delete_ne|by rewrite lookup_insert_ne].
Qed.

(** [page_table_store] touches nothing but slots. *)
Lemma store_fields idx p s :
  exists t, page_table_store idx p s = with_page_table t s.
Proof.
  unfold page_table_store. destruct (_ && _)%bool; eauto. exists (page_table s). by destruct s.
Qed.

(** Everything of the state but pages, table, backings and retirement. *)
Definition meta (s : vm) :=
  (memory_handle s, page_table_present s, num_page_table_entries s,
   guestMemoryLookupGeneration s, caches s, host s, jitInvalidations s).

(** What a page depends on of its backing. *)
Definition shape (s : vm) : gmap Z (Z * Z * Z) :=
  (fun bk => (backing_addr bk, backing_size bk, hostProtection bk)) <$> backings s.

Lemma page_ok_shape s s' p : shape s' = shape s -> page_ok s p -> page_ok s' p.
Proof.
  intros Hs Hp Hne. destruct (Hp Hne) as (bk & Hb & ? & ? & ?).
  assert (shape s' !! backing p = Some (backing_addr bk, backing_size bk, hostProtection bk)) as Hl.
  { rewrite Hs. unfold shape. by rewrite lookup_fmap, Hb. }
  unfold shape in Hl. rewrite lookup_fmap in Hl.
  destruct (backings s' !! backing p) as [bk'|]; [|done]. injection Hl as Ea Es Ep.
  exists bk'. rewrite Ea, Es, Ep. done.
Qed.

Lemma core_ext d d' s : (forall b, b <> 0 -> d b = d' b) -> vm_core d s -> vm_core d' s.
Proof.
  intros He [Hk Hp Hb]. split; [done|done|]. intros b bk H. destruct (Hb b bk H).
  split; try done; by rewrite <- He.
Qed.

(** After changing the page under [v], publishing its slot restores [table_ok]. *)
Lemma publish_table_ok s0 s v :
  table_ok s0 -> page_table_present s = page_table_present s0 ->
  num_page_table_entries s = num_page_table_entries s0 -> page_table s = page_table s0 ->
  (forall w, w <> v -> memory s !! w = memory s0 !! w) -> v mod DYN_PAGE_SIZE = 0 ->
  table_ok (publish_page v s).
Proof.
  intros Ht H1 H2 H3 Hm Hv w Hw Hwm Hin. unfold publish_page in *.
  destruct (store_fields (page_index v) (GuestPageTablePointer (memory s !! v)) s) as [t Et].
  rewrite store_slot. rewrite Et in Hin |- *. cbn in Hin |- *. case_decide as Hd.
  - destruct Hd as [Hi _]. apply page_index_inj in Hi as ->; done.
  - assert (w <> v) as Hne by (intros ->; tauto).
    rewrite Hm by done. rewrite <- (Ht w Hw Hwm); [|by rewrite <- H1, <- H2].
    unfold page_table_slot. by rewrite H1, H2, H3.
Qed.

Lemma put_page_publish_ok s v p :
  table_ok s -> v mod DYN_PAGE_SIZE = 0 -> table_ok (publish_page v (put_page v p s)).
Proof.
  intros Ht Hv. apply (publish_table_ok s); try done. intros w Hw. cbn. by rewrite lookup_insert_ne.
Qed.

(** A store into the table keeps the core. *)
Lemma core_table d t s : vm_core d s <-> vm_core d (with_page_table t s).
Proof. split; intros [? ? Hb]; split; try done; intros b bk H; destruct (Hb b bk H); done. Qed.

Lemma core_generation d g s : vm_core d s <-> vm_core d (with_generation g s).
Proof. split; intros [? ? Hb]; split; try done; intros b bk H; destruct (Hb b bk H); done. Qed.

Lemma publish_core d v s : vm_core d s -> vm_core d (publish_page v s).
Proof.
  intros H. unfold publish_page.
  destruct (store_fields (page_index v) (GuestPageTablePointer (memory s !! v)) s) as [t ->].
  by apply core_table.
Qed.

(** ** Releasing a reference *)

Lemma release_ok d s b :
  vm_core (owe b 1 d) s -> (forall x, 0 <= d x) -> (b <> 0 -> is_Some (backings s !! b)) ->
  exists s', ReleaseMemoryBackingReference b s = Some s' /\ vm_core d s' /\
    memory s' = memory s /\ page_table s' = page_table s /\ meta s' = meta s /\ shape s' = shape s.
Proof.
  intros I Hd Hsome. unfold ReleaseMemoryBackingReference. destruct (b =? 0) eqn:E0; zb.
  { exists s. split_and!; try done. eapply core_ext; [|exact I].
    intros x Hx. unfold owe. by rewrite decide_False by lia. }
  destruct (Hsome E0) as [bk Hbk]. rewrite Hbk.
  destruct (vm_backings _ _ I b bk Hbk) as [_ Hc Hr _ Hl]. unfold owe in Hc.
  rewrite decide_True in Hc by done. pose proof (page_count_nonneg (memory s) b). specialize (Hd b) as Hdb.
  destruct (references bk =? 0) eqn:Er; zb; [lia|]. rewrite u64_small by lia.
  set (s1 := with_backings (<[b := with_references (references bk - 1) bk]> (backings s)) s).
  assert (shape s1 = shape s) as Hshape.
  { unfold shape, s1. cbn. rewrite fmap_insert. apply insert_id. by rewrite lookup_fmap, Hbk. }
  eexists. split; [done|].
  assert (forall e, (forall x, x ∈ given_up e <-> x ∈ given_up (epochs s) \/
                      (x = b /\ references bk = 1)) -> vm_core d (with_epochs e s1)) as Hcore.
  { intros e He. destruct I as [Hk Hp Hb]. split; [done| |].
    - intros v p Hv. eapply page_ok_shape; [|by eapply Hp]. exact Hshape.
    - intros x bx. cbn. rewrite lookup_insert. case_decide as Hx.
      + subst x. intros [= <-]. split; cbn; try done; try lia. rewrite He. naive_solver lia.
      + intros Hxl. destruct (Hb x bx Hxl) as [H1 H2 H3 H4 H5]. unfold owe in H2, H4.
        rewrite decide_False in H2, H4 by done. split; cbn; try done. rewrite He. naive_solver. }
  destruct (references bk - 1 =? 0) eqn:En; zb; cbn [negb].
  - split_and!; try done. apply Hcore. intros x. rewrite (retire_given_up b) by done.
    cbn. set_solver by lia.
  - split_and!; try done. replace s1 with (with_epochs (epochs s) s1) by (by destruct s).
    apply Hcore. naive_solver lia.
Qed.

(** Overwriting the page under [v]: the new page takes a reference it was owed,
    the old page's backing is owed a release. *)
Lemma put_page_core d s v p p' :
  vm_core (owe (backing p') 1 d) s -> (forall x, 0 <= d x) -> memory s !! v = Some p ->
  page_ok s p' -> vm_core (owe (backing p) 1 d) (put_page v p' s).
Proof.
  intros [Hk Hpg Hb] Hd Hv Hp'. split.
  - intros w q. cbn. rewrite lookup_insert. case_decide; [intros; subst; by eapply Hk|apply Hk].
  - intros w q. cbn. rewrite lookup_insert. case_decide; [by intros [= <-]|apply Hpg].
  - intros b bk Hbk. destruct (Hb b bk Hbk) as [H1 H2 H3 H4 H5]. split; try done.
    + cbn. rewrite (page_count_insert _ _ p) by done. unfold owe, names in *.
      repeat case_decide; subst; lia.
    + unfold owe. specialize (Hd b). case_decide; lia.
Qed.

(** Replacing the page under [v], publishing it and releasing the old
    backing: the new page's backing is owed one reference less. *)
Lemma replace_page_ok d s v p p' :
  vm_core (owe (backing p') 1 d) s -> table_ok s -> (forall x, 0 <= d x) ->
  memory s !! v = Some p -> page_ok s p' ->
  exists s', ReleaseMemoryBackingReference (backing p) (publish_page v (put_page v p' s)) = Some s' /\
    vm_core d s' /\ table_ok s' /\ memory s' = <[v := p']> (memory s) /\
    meta s' = meta s /\ shape s' = shape s.
Proof.
  intros I Ht Hd Hv Hp'.
  pose proof (vm_keys _ _ I v p Hv) as [_ Hmod].
  set (s1 := publish_page v (put_page v p' s)).
  destruct (store_fields (page_index v) (GuestPageTablePointer (memory (put_page v p' s) !! v))
    (put_page v p' s)) as [t Et]. fold (publish_page v (put_page v p' s)) in Et. fold s1 in Et.
  assert (vm_core (owe (backing p) 1 d) s1) as I1.
  { rewrite Et. apply core_table. by apply put_page_core. }
  destruct (release_ok d s1 (backing p) I1 Hd) as (s' & Hr & I' & Hm & Htab & Hmeta & Hsh).
  { intros Hne. destruct (vm_pages _ _ I v p Hv Hne) as (bk & Hbk & _). exists bk. by rewrite Et. }
  exists s'. split; [done|]. split; [done|]. split.
  { intros w Hw Hwm Hin. rewrite Hm. unfold page_table_slot. injection Hmeta as ? Hpt Hn _ _ _ _.
    rewrite Htab, Hpt, Hn in *. by apply (put_page_publish_ok s v p'). }
  split_and!; [by rewrite Hm, Et|by rewrite Hmeta, Et|by rewrite Hsh, Et].
Qed.

(** One iteration of the munmap loop. *)
Lemma munmap_page_ok d s v p :
  vm_core d s -> table_ok s -> (forall x, 0 <= d x) -> memory s !! v = Some p ->
  exists s', munmap_page v s = Some s' /\ vm_core d s' /\ table_ok s' /\
    memory s' = delete v (memory s) /\ meta s' = meta s /\ shape s' = shape s.
Proof.
  intros I Ht Hd Hv. pose proof (vm_keys _ _ I v p Hv) as [Hvr Hmod].
  unfold munmap_page, ReleaseMemoryPageBacking.
  destruct (store_fields (page_index v) 0 s) as [t Et]. rewrite Et. cbn [memory with_page_table].
  rewrite Hv. set (p0 := {| page_ptr := page_ptr p |}). set (s1 := put_page v p0 (with_page_table t s)).
  assert (vm_core (owe (backing p) 1 d) s1) as I1.
  { apply put_page_core; try done; [|intros Hne; by destruct Hne].
    apply (core_ext d); [|by apply core_table]. intros b Hb. unfold owe. by rewrite decide_False. }
  destruct (release_ok d s1 (backing p) I1 Hd) as (s' & -> & I' & Hm & Htab & Hmeta & Hsh).
  { intros Hne. destruct (vm_pages _ _ I v p Hv Hne) as (bk & Hbk & _). by exists bk. }
  cbn. eexists. split; [done|]. split; [|split].
  - destruct I' as [Hk Hpg Hb]. rewrite Hm in *. cbn in Hk, Hpg. split; cbn; rewrite ?Hm.
    + intros w q [Hne Hw]%lookup_delete_Some. by apply (Hk w q).
    + intros w q [Hne Hw]%lookup_delete_Some. by apply (Hpg w q).
    + intros b bk Hbk. destruct (Hb b bk Hbk) as [H1 H2 H3 H4 H5]. split; try done. cbn in H2 |- *.
      rewrite ?Hm in *. cbn in H2 |- *.
      rewrite (page_count_delete _ v p0) by apply lookup_insert_eq.
      unfold names. change (backing p0) with 0. rewrite decide_False by done. lia.
  - intros w Hw Hwm Hin. cbn in Hin |- *. rewrite Hm. cbn.
    injection Hmeta as _ Hpt Hn _ _ _ _. cbn in Hpt, Hn. rewrite Hpt, Hn in Hin.
    unfold page_table_slot. cbn. rewrite Hpt, Hn, Htab. cbn.
    pose proof (store_slot s (page_index v) 0 (page_index w)) as Hslot. rewrite Et in Hslot.
    unfold page_table_slot in Hslot at 1. cbn in Hslot. rewrite Hslot.
    destruct (decide (w = v)) as [->|Hne].
    + rewrite lookup_delete_eq, decide_True by done. done.
    + rewrite decide_False by (intros [?%page_index_inj _]; done).
      rewrite lookup_delete_ne, lookup_insert_ne by done. by apply Ht.
  - split_and!; [|done|done]. cbn. rewrite Hm. cbn. by rewrite delete_insert_eq.
Qed.
