(* ===== verification/MappingProps.v ===== *)
(** What munmap and mmap promise: they keep the address-space invariant, failed
    calls leave the map alone and successful ones change exactly the pages of
    their range.  The loops and the binding lemmas are shared with RemapProps.v
    (direct mmap, vm_remap), ProtectProps.v and PrivateCopy.v. *)

From S2P Require Import Prelude.
From S2P Require Import VmEpoch.
From S2P Require Import GuestMemory.
From S2P Require Import GuestMapping.
From S2P Require Import GuestReserve.
From S2P Require Import VmInvariant.
From stdpp Require Import base gmap list fin_maps list_numbers.
From Stdlib Require Import ZArith Lia.
Open Scope Z_scope.

(** ** Loops *)

Lemma fold_opt_ok {A S} (f : A -> S -> option S) (I : list A -> S -> Prop) l : forall s,
  I l s ->
  (forall x rest s, I (x :: rest) s -> exists s', f x s = Some s' /\ I rest s') ->
  exists s', fold_opt f l s = Some s' /\ I [] s'.
Proof.
  induction l as [|x l IH]; intros s Hs Hstep; cbn; [eauto|].
  destruct (Hstep x l s Hs) as (s1 & -> & H1). cbn. by apply IH.
Qed.

(** References a list of future pages will take. *)
Definition owed {A} (target : A -> Z) (l : list A) : debt :=
  fun b => Z.of_nat (length (filter (fun a => target a = b) l)).

Lemma owed_cons {A} (target : A -> Z) a l b : owed target (a :: l) b = owe (target a) 1 (owed target l) b.
Proof.
  unfold owed, owe. rewrite filter_cons. repeat case_decide; cbn; subst; try done; try lia.
Qed.

Lemma owed_nonneg {A} (target : A -> Z) l b : 0 <= owed target l b.
Proof. unfold owed. lia. Qed.

(** The map after rewriting the pages of [l] in order. *)
Definition rebound {A} (va : A -> Z) (update : A -> memory_page -> memory_page) (l : list A)
    (m : gmap Z memory_page) : gmap Z memory_page :=
  foldl (fun m a => alter (update a) (va a) m) m l.

Lemma rebound_lookup_ne {A} va (update : A -> memory_page -> memory_page) l m w : (forall a, a ∈ l -> va a <> w) -> rebound va update l m !! w = m !! w.
Proof.
  revert m. induction l as [|a l IH]; intros m H; [done|]. cbn.
  change (rebound va update l (alter (update a) (va a) m) !! w = m !! w).
  rewrite IH by set_solver. apply lookup_alter_ne. set_solver.
Qed.

Lemma rebound_lookup {A} va (update : A -> memory_page -> memory_page) l m a :
  NoDup (va <$> l) -> a ∈ l -> rebound va update l m !! va a = update a <$> m !! va a.
Proof.
  revert m. induction l as [|x l IH]; intros m Hnd Ha; [set_solver|].
  cbn in Hnd. apply NoDup_cons in Hnd as [Hx Hnd].
  change (rebound va update l (alter (update x) (va x) m) !! va a = update a <$> m !! va a).
  apply elem_of_cons in Ha as [->|Ha].
  - rewrite rebound_lookup_ne by set_solver. by rewrite lookup_alter_eq.
  - rewrite IH by done. rewrite lookup_alter_ne; [done|]. set_solver.
Qed.
(** The rebinding loop of mmap, direct mmap and vm_remap. *)
Section rebind.
Context {A : Type} (va : A -> Z) (update : A -> memory_page -> memory_page) (target : A -> Z).
Context (update_backing : forall a p, backing (update a p) = target a).

Lemma rebind_loop_ok l : forall s,
  vm_core (owed target l) s -> table_ok s ->
  (forall a, a ∈ l -> is_Some (memory s !! va a)) ->
  (forall a p, a ∈ l -> page_ok s (update a p)) ->
  exists s', fold_opt (fun a => rebind_page (update a) (va a)) l s = Some s' /\
    vm_core no_debt s' /\ table_ok s' /\ memory s' = rebound va update l (memory s) /\
    meta s' = meta s /\ shape s' = shape s.
Proof.
  induction l as [|a l IH]; intros s I Ht Hmap Hpg; cbn [fold_opt].
  - exists s. split_and!; try done.
  - destruct (Hmap a ltac:(set_solver)) as [p Hp].
    destruct (replace_page_ok (owed target l) s (va a) p (update a p))
      as (s1 & Hr & I1 & Ht1 & Hm1 & Hmeta1 & Hsh1); try done.
    { rewrite update_backing. eapply core_ext; [|exact I]. intros b _. apply owed_cons. }
    { intros x. apply owed_nonneg. }
    { apply Hpg. set_solver. }
    assert (rebind_page (update a) (va a) s = Some s1) as -> by (unfold rebind_page; by rewrite Hp).
    cbn.
    assert (memory s1 = alter (update a) (va a) (memory s)) as Hm1'.
    { rewrite Hm1. apply map_eq. intros w. rewrite lookup_insert, lookup_alter.
      case_decide; [subst; by rewrite Hp|done]. }
    destruct (IH s1) as (s' & -> & I' & Ht' & Hm' & Hmeta' & Hsh'); try done.
    + intros a' Ha'. rewrite Hm1, lookup_insert. case_decide; [by eexists|]. apply Hmap. set_solver.
    + intros a' q Ha'. eapply page_ok_shape; [exact Hsh1|]. apply Hpg. set_solver.
    + exists s'. split_and!; try done.
      * rewrite Hm', Hm1'. done.
      * by rewrite Hmeta'.
      * by rewrite Hsh'.
Qed.

End rebind.

(** ** munmap *)

Lemma core_invalidate d s : vm_core d s -> vm_core d (InvalidateGuestMemoryLookupCaches s).
Proof. apply core_generation. Qed.

Lemma core_jits d a n s : vm_core d s -> vm_core d (InvalidateAllGuestJits a n s).
Proof. intros [? ? Hb]; split; try done; intros b bk H; destruct (Hb b bk H); done. Qed.

Lemma meta_stale s s' : meta s' = meta s -> caches_stale s -> caches_stale s'.
Proof. intros [= _ _ _ Hg Hc _ _] [Hp H]. split; rewrite ?Hg, ?Hc; done. Qed.

(** Closing an operation: the core holds without debt, the table agrees and the
    caches were invalidated. *)
Lemma vm_ok_intro s s' a n :
  vm_core no_debt s' -> table_ok s' -> meta s' = meta s -> caches_stale s ->
  vm_ok (InvalidateAllGuestJits a n s').
Proof.
  intros I Ht Hm Hst. pose proof (stale_cache_ok s' (meta_stale s s' Hm Hst)) as Hc.
  split; [by apply core_jits|done|]. destruct Hc. by split.
Qed.

Lemma munmap_loop_ok l : forall s,
  NoDup l -> vm_core no_debt s -> table_ok s -> (forall v, v ∈ l -> is_Some (memory s !! v)) ->
  exists s', fold_opt munmap_page l s = Some s' /\ vm_core no_debt s' /\ table_ok s' /\
    memory s' = foldl (fun m v => delete v m) (memory s) l /\ meta s' = meta s /\ shape s' = shape s.
Proof.
  induction l as [|v l IH]; intros s Hnd I Ht Hmap; cbn [fold_opt]; [by exists s|].
  apply NoDup_cons in Hnd as [Hv Hnd]. destruct (Hmap v ltac:(set_solver)) as [p Hp].
  destruct (munmap_page_ok no_debt s v p) as (s1 & -> & I1 & Ht1 & Hm1 & Hmeta1 & Hsh1); try done.
  cbn. destruct (IH s1) as (s' & -> & I' & Ht' & Hm' & Hmeta' & Hsh'); try done.
  { intros w Hw. rewrite Hm1, lookup_delete_ne by set_solver. apply Hmap. set_solver. }
  exists s'. split_and!; try done; [|by rewrite Hmeta'|by rewrite Hsh'].
  by rewrite Hm', Hm1.
Qed.

Lemma foldl_delete_lookup (l : list Z) (m : gmap Z memory_page) w :
  foldl (fun m v => delete v m) m l !! w = if decide (w ∈ l) then None else m !! w.
Proof.
  revert m. induction l as [|v l IH]; intros m; cbn; [done|]. rewrite IH, lookup_delete.
  repeat case_decide; set_solver.
Qed.

Lemma ValidateMunmap_spec s address sz :
  0 <= address -> 0 <= sz < U64_MOD ->
  ValidateGuestMunmapRangeLocked s address sz = None ->
  0 < sz /\ u64 (address + sz) = address + sz /\ address + sz <= 2 ^ 32 /\
  address mod DYN_PAGE_SIZE = 0 /\
  forall v, v ∈ page_addrs address (address + sz) -> is_Some (memory s !! v).
Proof.
  intros Ha Hs. unfold ValidateGuestMunmapRangeLocked, GuestAddressRangeIsValid32.
  rewrite !page_offset_mod.
  destruct (negb (address mod DYN_PAGE_SIZE =? 0)) eqn:E1; [done|].
  destruct ((sz =? 0) || _)%bool eqn:E2; [done|].
  destruct (negb (_ && _)) eqn:E3; [done|]. zb.
  assert (2 ^ 33 < U64_MOD) by done.
  rewrite u64_small by lia.
  destruct (forallb _ _) eqn:Ef; [|done]. intros _. split_and!; try done; try lia.
  intros v Hv. rewrite forallb_forall in Ef. apply list_elem_of_In, Ef in Hv.
  by apply bool_decide_eq_true_1 in Hv.
Qed.

(** Munmap is all-or-nothing and keeps the address space consistent.  It
    never trips the reference-count assertion; on an error nothing changes; on
    success exactly the pages of the range are gone, every reference count,
    table slot and cache is consistent again, and every backing that lost its
    last page was handed to epoch retirement. *)
Lemma munmap_correct address sz s :
  vm_ok s -> guestMemoryLookupGeneration s < UINT64_MAX ->
  0 <= address -> 0 <= sz < U64_MOD ->
  exists r s', Dynarmic_munmap address sz s = Some (r, s') /\ vm_ok s' /\
    match r with
    | Errno e => s' = s /\ (e = EINVAL \/ e = ENOMEM)
    | Ret v => v = 0 /\
        (forall w, memory s' !! w =
           if decide (w ∈ page_addrs address (address + sz)) then None else memory s !! w) /\
        (forall w, w ∈ page_addrs address (address + sz) -> is_Some (memory s !! w))
    end.
Proof.
  intros [I Ht Hc] Hg Ha Hs. unfold Dynarmic_munmap.
  destruct (ValidateGuestMunmapRangeLocked s address sz) as [e|] eqn:Ev.
  - do 2 eexists. split; [done|]. split; [done|]. split; [done|].
    unfold ValidateGuestMunmapRangeLocked in Ev. repeat case_match; simplify_eq; auto.
  - apply ValidateMunmap_spec in Ev as (Hpos & Hu & He & Hal & Hmap); [|done|done]. rewrite Hu.
    pose proof (invalidate_stale s Hc Hg) as Hst.
    destruct (munmap_loop_ok (page_addrs address (address + sz)) (InvalidateGuestMemoryLookupCaches s))
      as (s' & -> & I' & Ht' & Hm' & Hmeta' & _);
      [apply NoDup_page_addrs|by apply core_invalidate|done|done|].
    cbn. do 2 eexists. split; [done|]. split; [by eapply vm_ok_intro|]. split; [done|].
    split; [|done]. intros w. cbn. by rewrite Hm', foldl_delete_lookup.
Qed.

(** ** Reservations keep the invariant *)

Lemma page_count_reservations rs m b :
  b <> 0 -> reservations_ok rs m -> page_count (insert_reservations rs m) b = page_count m b.
Proof.
  intros Hb. induction rs as [|r rs IH] using rev_ind; intros [Hnd Hf]; [done|].
  rewrite fmap_app in Hnd. cbn in Hnd. apply NoDup_app in Hnd as (Hnd & Hdis & _).
  rewrite insert_reservations_snoc, page_count_insert_new.
  - rewrite IH by (split; [done|set_solver]). unfold names. rewrite decide_False by done. lia.
  - rewrite insert_reservations_lookup; [apply Hf; set_solver|].
    intros Hin. eapply Hdis; [done|set_solver].
Qed.

Lemma insert_reservations_elem rs m v p :
  insert_reservations rs m !! v = Some p ->
  m !! v = Some p \/ (v ∈ (reserved_address <$> rs) /\ exists ptr, p = fresh_page ptr).
Proof.
  induction rs as [|r rs IH] using rev_ind; [by left|].
  rewrite insert_reservations_snoc, lookup_insert. case_decide as Hv.
  - intros [= <-]. right. rewrite fmap_app. cbn. split; [set_solver|eauto].
  - intros H. destruct (IH H) as [?|[? ?]]; [by left|right]. rewrite fmap_app. set_solver.
Qed.

Lemma page_addrs_key a sz v mask :
  mask_ok mask -> a mod (mask + 1) = 0 -> DYN_PAGE_SIZE <= a -> a + sz <= 2 ^ 32 ->
  v ∈ page_addrs a (a + sz) -> page_key v.
Proof.
  intros Hm Ha Hlo Hhi [Hv Hvm]%elem_of_page_addrs. split; [lia|].
  apply mask_ok_align in Ha; [|done].
  replace v with (a + (v - a)) by lia. rewrite Z.add_mod, Ha, Hvm by done. done.
Qed.

Lemma reserved_inv s sz mask a fixed rs s' :
  vm_ok s -> reserved s sz mask a fixed rs s' -> vm_ok s'.
Proof.
  intros [I Ht Hc] [Hm Hsz Hr Hal -> Hok Hcov Hin Hfree]. destruct Hok as [Hnd Hf].
  assert (forall v, v ∈ (reserved_address <$> rs) -> page_key v /\ memory s !! v = None) as Hkey.
  { intros v Hv. split; [apply (page_addrs_key a sz v mask); try done; [lia..|by apply Hin]|].
    apply list_elem_of_fmap in Hv as (r & -> & Hr'). by apply Hf. }
  split.
  - destruct I as [Hk Hp Hb]. split; cbn.
    + intros v p Hv. apply insert_reservations_elem in Hv as [?|[? _]]; [eauto|by apply Hkey].
    + intros v p Hv. apply insert_reservations_elem in Hv as [?|[? [ptr ->]]]; [by eapply Hp|].
      intros Hne. by destruct Hne.
    + intros b bk Hbk. destruct (Hb b bk Hbk). split; try done. cbn.
      by rewrite page_count_reservations.
  - intros v Hv Hvm Hslot. specialize (Ht v Hv Hvm Hslot).
    change (page_table_slot (with_memory _ s) (page_index v)) with (page_table_slot s (page_index v)).
    rewrite Ht. cbn. destruct (insert_reservations rs (memory s) !! v) as [p|] eqn:E.
    + apply insert_reservations_elem in E as [->|[Hin' [ptr ->]]]; [done|].
      destruct (Hkey v Hin') as [_ ->]. done.
    + destruct (decide (v ∈ (reserved_address <$> rs))) as [Hv'|Hv'].
      * by destruct (Hkey v Hv') as [_ ->].
      * rewrite insert_reservations_lookup in E by done. by rewrite E.
  - destruct Hc as [Hc1 Hc2 Hc3]. split; [done| |done].
    intros tid c Hc' H1 H2 H3 H4. destruct (Hc2 tid c Hc' H1 H2 H3 H4) as (p & Hp & ?).
    exists p. split; [|done]. cbn. rewrite insert_reservations_lookup; [done|].
    intros Hin'. destruct (Hkey _ Hin'). congruence.
Qed.

Lemma reserved_mapped s sz mask a fixed rs s' v :
  reserved s sz mask a fixed rs s' -> v ∈ page_addrs a (a + sz) -> is_Some (memory s' !! v).
Proof.
  intros [_ _ _ _ -> [Hnd Hf] Hcov _ _] Hv. cbn.
  destruct (decide (v ∈ (reserved_address <$> rs))) as [Hin|Hin].
  - clear -Hin. induction rs as [|r rs IH] using rev_ind; [set_solver|].
    rewrite insert_reservations_snoc, lookup_insert. case_decide; [by eexists|].
    apply IH. rewrite fmap_app in Hin. set_solver.
  - rewrite insert_reservations_lookup by done. by destruct (Hcov v Hv).
Qed.

(** ** mmap *)

Lemma page_count_none m b : (forall v p, m !! v = Some p -> backing p <> b) -> page_count m b = 0.
Proof.
  intros H. unfold page_count. rewrite map_empty_filter_2; [done|].
  apply map_Forall_lookup. intros v p Hv Hb. by eapply H.
Qed.

(** Installing a fresh backing that [n] pages are about to name. *)
Lemma new_backing_core s b bk n h :
  vm_core no_debt s -> backings s !! b = None -> b ∉ given_up (epochs s) -> b <> 0 ->
  references bk = n -> 0 < n < U64_MOD ->
  vm_core (owe b n no_debt) (with_backings (<[b := bk]> (backings s)) (with_host h s)).
Proof.
  intros [Hk Hp Hb] Hnew Hgu H0 Href Hn. split; [done| |].
  - intros v p Hv Hne. destruct (Hp v p Hv Hne) as (bk' & Hbk & ?).
    exists bk'. split; [|done]. cbn. rewrite lookup_insert_ne; [done|]. congruence.
  - intros x bx. cbn. rewrite lookup_insert. case_decide as Hx.
    + intros [= <-]. subst x. split; try done; unfold owe, no_debt; try rewrite decide_True by done; try lia.
      * cbn. rewrite page_count_none; [lia|]. intros v p Hv Heq.
        destruct (Hp v p Hv) as (bk' & Hbk & _); congruence.
      * cbn. split; [lia|done].
    + intros Hxl. destruct (Hb x bx Hxl). unfold owe.
      split; try done; cbn; rewrite decide_False by done; done.
Qed.

Lemma has_all_lor x y : has_all (Z.lor x y) x = true.
Proof.
  unfold has_all. apply Z.eqb_eq, Z.bits_inj'. intros i Hi.
  rewrite Z.land_spec, Z.lor_spec. by destruct (Z.testbit x i), (Z.testbit y i).
Qed.

Lemma has_all_refl x : has_all x x = true.
Proof. unfold has_all. by rewrite Z.land_diag, Z.eqb_refl. Qed.

Lemma has_all_lor_mono x y z : has_all x z = true -> has_all (Z.lor x y) z = true.
Proof.
  unfold has_all. intros H. zb. apply Z.eqb_eq, Z.bits_inj'. intros i Hi.
  apply (f_equal (fun t => Z.testbit t i)) in H. rewrite Z.land_spec in *. rewrite Z.lor_spec.
  by destruct (Z.testbit x i), (Z.testbit y i), (Z.testbit z i).
Qed.

Lemma mmap_protection_covers protection sz flags fildes off :
  has_all (mmap_host_protection protection sz flags fildes off)
    (HostProtectionForGuestPermissions protection) = true.
Proof.
  unfold mmap_host_protection. repeat case_match;
    repeat apply has_all_lor_mono; apply has_all_refl.
Qed.

Lemma page_addrs_length a sz :
  0 < sz -> sz mod DYN_PAGE_SIZE = 0 ->
  Z.of_nat (length (page_addrs a (a + sz))) = sz / DYN_PAGE_SIZE.
Proof.
  intros Hs Hm. unfold page_addrs. rewrite length_fmap, length_seqZ.
  replace (a + sz - a + DYN_PAGE_MASK) with (DYN_PAGE_MASK + sz) by lia.
  apply Z.mod_divide in Hm as [k ->]; [|done]. rewrite Z.div_add, Z.div_mul by done.
  unfold DYN_PAGE_SIZE, DYN_PAGE_MASK in *. change (4095 / 4096) with 0. lia.
Qed.

Lemma owed_const {A} (l : list A) b x :
  owed (fun _ : A => b) l x = owe b (Z.of_nat (length l)) no_debt x.
Proof.
  induction l as [|a l IH].
  - unfold owed, owe, no_debt. cbn. by case_decide.
  - rewrite owed_cons. unfold owe at 1. rewrite IH. unfold owe, no_debt. cbn [length].
    case_decide; lia.
Qed.

(** The host's side of an mmap of [sz] bytes: fresh identities, an address range
    inside the 64-bit host space. *)
Record mmap_host_ok (env : host_env) (s : vm) (protection sz flags fildes off : Z) (purgable : bool)
    : Prop := {
  host_fresh : calloc_backing env = 0 \/
    (backings s !! calloc_backing env = None /\ calloc_backing env ∉ given_up (epochs s));
  host_off : 0 <= off < 2 ^ 63;
  host_page : 0 < host_page_size env <= 2 ^ 32;
  host_range : forall a bytes,
    mmap_host_call env protection sz flags fildes off purgable = inl (a, bytes) ->
    0 <= a /\ a + (sz + (off - aligned_off env off)) < U64_MOD;
}.

Lemma aligned_off_range env off :
  0 < host_page_size env <= 2 ^ 32 -> 0 <= off < 2 ^ 63 -> 0 <= aligned_off env off <= off.
Proof.
  intros Hp Ho. unfold aligned_off. assert (2 ^ 33 < U64_MOD) by done.
  assert (0 <= u64_not (host_page_size env - 1)) by (unfold u64_not, UINT64_MAX; lia).
  split; [apply Z.land_nonneg; lia|].
  rewrite <- (Z2N.id off), <- (Z2N.id (u64_not _)) by lia. rewrite <- N2Z.inj_land.
  apply N2Z.inj_le, N.land_le_l.
Qed.

(** The commit of mmap after a successful reservation at [a]: the pages of the
    range move onto the new backing. *)
Lemma mmap_commit s s1 a sz mask fixed rs d b bk protection h :
  vm_ok s -> guestMemoryLookupGeneration s < UINT64_MAX -> reserved s sz mask a fixed rs s1 ->
  b <> 0 -> backings s !! b = None -> b ∉ given_up (epochs s) ->
  0 <= backing_addr bk -> 0 <= d -> backing_size bk = sz + d -> backing_addr bk + backing_size bk < U64_MOD ->
  references bk = sz / DYN_PAGE_SIZE ->
  has_all (hostProtection bk) (HostProtectionForGuestPermissions protection) = true ->
  let first := backing_addr bk + d in
  let s2 := with_backings (<[b := bk]> (backings s1)) (with_host h s1) in
  exists s3, fold_opt (fun vaddr => bind_page (u64 (first + (vaddr - a))) protection b vaddr)
      (page_addrs a (a + sz)) (InvalidateGuestMemoryLookupCaches s2) = Some s3 /\
    (forall x n, vm_ok (InvalidateAllGuestJits x n s3)) /\
    guestMemoryLookupGeneration s3 = guestMemoryLookupGeneration s + 1 /\
    (forall w, w ∈ page_addrs a (a + sz) -> exists p, memory s3 !! w = Some p /\
       addr p = first + (w - a) /\ perms p = protection /\ backing p = b) /\
    (forall w, w ∉ page_addrs a (a + sz) -> memory s3 !! w = memory s !! w).
Proof.
  intros Hok Hg Hr Hb0 Hnew Hgu Hma Hd Hsize Hend Href Hprot first s2.
  pose proof (reserved_inv _ _ _ _ _ _ _ Hok Hr) as Hok1.
  destruct (reserved_size _ _ _ _ _ _ _ Hr) as [Hpos Hmod].
  assert (backings s1 = backings s /\ epochs s1 = epochs s /\ guestMemoryLookupGeneration s1 =
    guestMemoryLookupGeneration s) as (Hb1 & He1 & Hg1) by (by rewrite (reserved_state _ _ _ _ _ _ _ Hr)).
  assert (0 < sz / DYN_PAGE_SIZE < U64_MOD) as Hn.
  { apply Z.mod_divide in Hmod as [k ->]; [|done]. rewrite Z.div_mul by done. unfold DYN_PAGE_SIZE in *. lia. }
  destruct (rebind_loop_ok (fun v => v) (fun v => bound_page (u64 (first + (v - a))) protection b)
    (fun _ => b) (fun _ _ => eq_refl) (page_addrs a (a + sz)) (InvalidateGuestMemoryLookupCaches s2))
    as (s3 & Hfold & I3 & Ht3 & Hm3 & Hmeta3 & Hsh3).
  - apply core_invalidate. eapply core_ext; [intros x _; symmetry; apply owed_const|].
    rewrite (page_addrs_length a sz Hpos Hmod).
    apply new_backing_core; try done; [apply Hok1|by rewrite Hb1|by rewrite He1].
  - apply Hok1.
  - intros v Hv. exact (reserved_mapped _ _ _ _ _ _ _ v Hr Hv).
  - intros v p Hv _. exists bk. cbn. rewrite lookup_insert_eq. split; [done|].
    apply elem_of_page_addrs in Hv as [Hv Hvm]. cbn.
    assert (v - a + DYN_PAGE_SIZE <= sz) as Hfit.
    { apply Z.mod_divide in Hvm as [k Hk]; [|done]. apply Z.mod_divide in Hmod as [j Hj]; [|done].
      unfold DYN_PAGE_SIZE in *. lia. }
    unfold first. rewrite u64_small by (unfold DYN_PAGE_SIZE in *; lia). split_and!; [lia|lia|done].
  - exists s3. split; [exact Hfold|]. split.
    { intros x n. eapply vm_ok_intro; try done.
      apply invalidate_stale; [by apply (cache_ok_ext s1); [..|apply Hok1]|by rewrite <- Hg1 in Hg]. }
    split.
    { injection Hmeta3 as _ _ _ -> _ _ _. cbn. rewrite Hg1. apply u64_small.
      pose proof (generation_pos _ (vm_cache _ Hok)). unfold UINT64_MAX in Hg. lia. }
    rewrite Hm3. split; intros w Hw.
    + rewrite (rebound_lookup (fun v => v) _ (page_addrs a (a + sz)) _ w);
        [|rewrite list_fmap_id; apply NoDup_page_addrs|done].
      destruct (reserved_mapped _ _ _ _ _ _ _ w Hr Hw) as [p Hp]. cbn. rewrite Hp. cbn.
      eexists. split; [done|]. cbn. apply elem_of_page_addrs in Hw.
      unfold first. by rewrite u64_small by lia.
    + rewrite rebound_lookup_ne by set_solver. cbn. rewrite (reserved_state _ _ _ _ _ _ _ Hr). cbn.
      apply insert_reservations_lookup. intros Hin. apply Hw. by apply Hr.
Qed.

(** The backing and the host address of a mapping: where the host call put it. *)
Definition fresh_mapping (env : host_env) (protection sz flags fildes off : Z) (purgable : bool) (first b : Z)
    : Prop :=
  b <> 0 /\ exists ma bytes, mmap_host_call env protection sz flags fildes off purgable = inl (ma, bytes) /\
    first = ma + (off - aligned_off env off).

Lemma mmap_spec env address sz protection flags fildes off mask purgable s :
  vm_ok s -> guestMemoryLookupGeneration s < UINT64_MAX ->
  0 <= address -> 0 <= sz -> 0 <= mask ->
  mmap_host_ok env s protection sz flags fildes off purgable ->
  exists r s', Dynarmic_mmap env address sz protection flags fildes off mask purgable s = Some (r, s') /\
    vm_ok s' /\
    match r with
    | Errno e => s' = s
    | Ret a => guestMemoryLookupGeneration s' = guestMemoryLookupGeneration s + 1 /\
        0 < sz /\ sz mod DYN_PAGE_SIZE = 0 /\
        exists first b, fresh_mapping env protection sz flags fildes off purgable first b /\ DYN_PAGE_SIZE <= a /\ a + sz <= 2 ^ 32 /\ a mod (mask + 1) = 0 /\
        (has_flag flags MAP_FIXED = false -> range_free (memory s) a sz) /\
        (has_flag flags MAP_FIXED = true -> address mod (mask + 1) = 0 -> a = address) /\
        (forall w, w ∈ page_addrs a (a + sz) -> exists p, memory s' !! w = Some p /\
           addr p = first + (w - a) /\ perms p = protection /\ backing p = b) /\
        (forall w, w ∉ page_addrs a (a + sz) -> memory s' !! w = memory s !! w)
    end.
Proof.
  intros Hok Hg Ha Hs Hmask [Hfresh Hoff Hpage Hrange]. unfold Dynarmic_mmap.
  destruct (mmap_arguments_valid address sz protection); cbn [negb]; [|do 2 eexists; by split_and!].
  destruct (mem_reserve_spec env address sz (has_flag flags MAP_FIXED) mask s Ha Hs Hmask)
    as ([[e|[a rs]] s1] & -> & Hr); cbn.
  { subst s1. do 2 eexists. by split_and!. }
  destruct Hr as (Hr & _ & Hfix). assert (RollbackGuestPageReservations rs s1 = s) as Hroll.
  { rewrite (reserved_state _ _ _ _ _ _ _ Hr). apply rollback_restores, Hr. }
  destruct (mmap_host_call env protection sz flags fildes off purgable) as [[ma bytes]|e] eqn:Ecall.
  2:{ rewrite Hroll. do 2 eexists. by split_and!. }
  destruct (calloc_backing env =? 0) eqn:E0; zb.
  { rewrite Hroll. do 2 eexists. by split_and!. }
  destruct Hfresh as [?|[Hnew Hgu]]; [lia|]. destruct (Hrange ma bytes eq_refl) as [Hma Hend].
  destruct (reserved_range _ _ _ _ _ _ _ Hr) as [Hlo Hhi]. destruct (reserved_size _ _ _ _ _ _ _ Hr) as [Hpos _].
  pose proof (aligned_off_range env off Hpage Hoff) as Hal.
  assert (2 ^ 33 < U64_MOD) as H33 by done. unfold DYN_PAGE_SIZE in Hlo.
  rewrite (u64_small (a + sz)), (u64_small (sz + _)), u32_small by (unfold U32_MOD; lia).
  set (bk := {| backing_addr := ma |}).
  destruct (mmap_commit s s1 a sz mask _ rs (off - aligned_off env off) (calloc_backing env) bk protection
    (host_write (host s1) ma bytes) Hok Hg Hr) as (s3 & Hfold & Hok3 & Hgen & Hin & Hout);
    try done; cbn; try lia; [apply mmap_protection_covers|].
  cbn [backing_addr bk] in Hfold, Hin. rewrite Hfold. cbn. do 2 eexists. split; [done|]. split; [apply Hok3|].
  split; [done|]. split; [done|]. split; [apply Hr|].
  exists (ma + (off - aligned_off env off)), (calloc_backing env). split_and!; try done; [|apply Hr..].
  split; [done|by exists ma, bytes].
Qed.

(** C8: mmap never leaks and never half-maps.  For any host behaviour, a failed
    mmap leaves the whole address space exactly as it was (reservations are
    rolled back); a successful one maps exactly its range, page by page onto
    consecutive slices of one fresh host mapping, at an aligned address off the
    null page, over no existing page unless MAP_FIXED was given (and then at the
    given address, if it is aligned); reference counts, table, caches and host
    protections stay consistent. *)
Theorem mmap_correct env address sz protection flags fildes off mask purgable s :
  vm_ok s -> guestMemoryLookupGeneration s < UINT64_MAX ->
  0 <= address -> 0 <= sz -> 0 <= mask ->
  mmap_host_ok env s protection sz flags fildes off purgable ->
  exists r s', Dynarmic_mmap env address sz protection flags fildes off mask purgable s = Some (r, s') /\
    vm_ok s' /\
    match r with
    | Errno e => s' = s
    | Ret a => exists first b, b <> 0 /\ DYN_PAGE_SIZE <= a /\ a + sz <= 2 ^ 32 /\ a mod (mask + 1) = 0 /\
        (has_flag flags MAP_FIXED = false -> range_free (memory s) a sz) /\
        (has_flag flags MAP_FIXED = true -> address mod (mask + 1) = 0 -> a = address) /\
        (forall w, w ∈ page_addrs a (a + sz) -> exists p, memory s' !! w = Some p /\
           addr p = first + (w - a) /\ perms p = protection /\ backing p = b) /\
        (forall w, w ∉ page_addrs a (a + sz) -> memory s' !! w = memory s !! w)
    end.
Proof.
  intros H1 H2 H3 H4 H5 H6.
  destruct (mmap_spec env address sz protection flags fildes off mask purgable s H1 H2 H3 H4 H5 H6)
    as (r & s' & -> & Hok & Hr).
  exists r, s'. split_and!; [done|done|]. destruct r as [a|e]; [|done].
  destruct Hr as (_ & _ & _ & first & b & [Hb _] & Hr). by exists first, b.
Qed.
