(* ===== verification/RemapProps.v ===== *)
(** [Dynarmic_direct_mmap] and [Dynarmic_vm_remap]: ranges that do not own their
    host pages, and shared aliases of existing ranges. *)

From S2P Require Import Prelude.
From S2P Require Import VmEpoch.
From S2P Require Import GuestMemory.
From S2P Require Import GuestMapping.
From S2P Require Import GuestReserve.
From S2P Require Import VmInvariant.
From S2P Require Import MappingProps.
From stdpp Require Import base gmap list fin_maps list_numbers.
From Stdlib Require Import ZArith Lia.
Open Scope Z_scope.

(** ** Direct mappings *)

(** A direct mapping aliases the host range [src + off] without owning it:
    on success the pages of the range point at consecutive host pages and name
    no backing, older backings of replaced pages were released, and the address
    space stays consistent; on failure nothing changed. *)
Theorem direct_mmap_correct env address sz protection flags src off s :
  vm_ok s -> guestMemoryLookupGeneration s < UINT64_MAX ->
  0 <= address -> 0 <= sz ->
  exists r s', Dynarmic_direct_mmap env address sz protection flags src off s = Some (r, s') /\
    vm_ok s' /\
    match r with
    | Errno e => s' = s
    | Ret a => a + sz <= 2 ^ 32 /\ guestMemoryLookupGeneration s' = guestMemoryLookupGeneration s + 1 /\
        (has_flag flags MAP_FIXED = true -> address mod DYN_PAGE_SIZE = 0 -> a = address) /\
        (forall w, w ∈ page_addrs a (a + sz) -> exists p, memory s' !! w = Some p /\
           addr p = u64 (src + off + w - a) /\ perms p = protection /\ backing p = 0) /\
        (forall w, w ∉ page_addrs a (a + sz) -> memory s' !! w = memory s !! w)
    end.
Proof.
  intros Hok Hg Ha Hs. unfold Dynarmic_direct_mmap.
  destruct (mmap_arguments_valid address sz protection); cbn [negb]; [|do 2 eexists; by split_and!].
  destruct (mem_reserve_spec env address sz (has_flag flags MAP_FIXED) DYN_PAGE_MASK s Ha Hs ltac:(done))
    as ([[e|[a rs]] s1] & -> & Hr); cbn.
  { subst s1. do 2 eexists. by split_and!. }
  destruct Hr as (Hr & _ & Hfix). pose proof (reserved_inv _ _ _ _ _ _ _ Hok Hr) as Hok1.
  destruct (reserved_size _ _ _ _ _ _ _ Hr) as [Hpos _].
  destruct (reserved_range _ _ _ _ _ _ _ Hr) as [Hlo Hhi].
  assert (2 ^ 33 < U64_MOD) by done. unfold DYN_PAGE_SIZE in Hlo.
  rewrite (u64_small (a + sz)), u32_small by (unfold U32_MOD; lia).
  assert (guestMemoryLookupGeneration s1 = guestMemoryLookupGeneration s) as Hg1.
  { by rewrite (reserved_state _ _ _ _ _ _ _ Hr). }
  destruct (rebind_loop_ok (fun v => v) (fun v => bound_page (u64 (src + off + v - a)) protection 0)
    (fun _ => 0) (fun _ _ => eq_refl) (page_addrs a (a + sz)) (InvalidateGuestMemoryLookupCaches s1))
    as (s3 & Hfold & I3 & Ht3 & Hm3 & Hmeta3 & _).
  - apply core_invalidate. eapply core_ext; [|apply Hok1].
    intros x Hx. rewrite owed_const. unfold owe. by rewrite decide_False.
  - apply Hok1.
  - intros v Hv. exact (reserved_mapped _ _ _ _ _ _ _ v Hr Hv).
  - intros v p Hv Hne. by destruct Hne.
  - change (fold_opt (fun vaddr => bind_page (u64 (src + off + vaddr - a)) protection 0 vaddr)
      (page_addrs a (a + sz)) (InvalidateGuestMemoryLookupCaches s1) = Some s3) in Hfold.
    rewrite Hfold. cbn. do 2 eexists. split; [done|].
    split; [eapply vm_ok_intro; try done; apply invalidate_stale; [apply Hok1|by rewrite Hg1]|].
    split; [done|]. split.
    { injection Hmeta3 as _ _ _ Hgen _ _ _. cbn in *. rewrite Hgen, Hg1. apply u64_small.
      pose proof (generation_pos _ (vm_cache _ Hok)). unfold UINT64_MAX in Hg. lia. }
    split; [exact Hfix|]. split.
    + intros w Hw. cbn. rewrite Hm3.
      rewrite (rebound_lookup (fun v => v) _ (page_addrs a (a + sz)) _ w);
        [|rewrite list_fmap_id; apply NoDup_page_addrs|done].
      destruct (reserved_mapped _ _ _ _ _ _ _ w Hr Hw) as [p Hp]. cbn. rewrite Hp. by eexists.
    + intros w Hw. cbn. rewrite Hm3, rebound_lookup_ne by set_solver. cbn.
      rewrite (reserved_state _ _ _ _ _ _ _ Hr). cbn. apply insert_reservations_lookup.
      intros Hin. apply Hw. by apply Hr.
Qed.

(** ** Retaining source backings *)

Lemma page_count_bound d s b : vm_core d s -> page_count (memory s) b <= 2 ^ 20.
Proof.
  intros I. unfold page_count.
  assert (size (filter (fun kv => backing (snd kv) = b) (memory s)) <= length (page_addrs 0 (0 + 2 ^ 32)))%nat
    as Hle.
  { (* the keys are distinct page addresses of the 32-bit space *)
    rewrite <- size_dom. etransitivity; [apply (subseteq_size _ (list_to_set (page_addrs 0 (0 + 2 ^ 32))))|].
    - intros v [p [Hp _]%map_lookup_filter_Some]%elem_of_dom.
      destruct (vm_keys _ _ I v p Hp) as [Hv Hm]. apply elem_of_list_to_set, elem_of_page_addrs.
      unfold DYN_PAGE_SIZE in *. split; [lia|]. by rewrite Z.sub_0_r.
    - rewrite size_list_to_set by apply NoDup_page_addrs. done. }
  apply Nat2Z.inj_le in Hle. rewrite (page_addrs_length 0 (2 ^ 32)) in Hle by done.
  change (2 ^ 32 / DYN_PAGE_SIZE) with (2 ^ 20) in Hle. done.
Qed.

Lemma retain_ok d s p v :
  vm_core d s -> memory s !! v = Some p -> backing p <> 0 -> d (backing p) <= 2 ^ 20 ->
  exists s', retain_backing p s = Some s' /\ vm_core (owe (backing p) 1 d) s' /\
    memory s' = memory s /\ page_table s' = page_table s /\ meta s' = meta s /\
    shape s' = shape s /\ epochs s' = epochs s.
Proof.
  intros I Hp Hne Hd. destruct (vm_pages _ _ I v p Hp Hne) as (bk & Hbk & _).
  destruct (vm_backings _ _ I _ _ Hbk) as [H1 H2 H3 H4 H5].
  pose proof (page_count_bound d s (backing p) I) as Hc.
  assert (0 < page_count (memory s) (backing p)) as Hpos.
  { rewrite <- (insert_id (memory s) v p Hp). rewrite (page_count_insert _ _ p) by done.
    rewrite <- (insert_delete_id (memory s) v p Hp).
    rewrite page_count_insert_new by apply lookup_delete_eq.
    pose proof (page_count_nonneg (delete v (memory s)) (backing p)).
    unfold names. rewrite decide_True by done. lia. }
  assert (2 ^ 22 < U64_MOD) by done.
  unfold retain_backing. rewrite Hbk, u64_small by lia. eexists. split; [done|].
  assert (shape (with_backings (<[backing p := with_references (references bk + 1) bk]> (backings s)) s)
    = shape s) as Hshape.
  { unfold shape. cbn. rewrite fmap_insert. apply insert_id. by rewrite lookup_fmap, Hbk. }
  split_and!; try done. destruct I as [Hk Hpg Hb]. split; [done| |].
  - intros w q Hw. eapply page_ok_shape; [exact Hshape|]. by eapply Hpg.
  - intros x bx. cbn. rewrite lookup_insert. case_decide as Hx.
    + intros [= <-]. subst x. split; cbn; try done; unfold owe; try rewrite decide_True by done; try lia.
      split; [lia|]. intros Hin. apply H5 in Hin. lia.
    + intros Hxl. destruct (Hb x bx Hxl). split; cbn; try done; unfold owe; by rewrite decide_False.
Qed.

Lemma retain_loop_ok l : forall d s,
  vm_core d s -> (forall p, p ∈ l -> backing p <> 0 /\ exists v, memory s !! v = Some p) ->
  (forall b, d b + Z.of_nat (length l) <= 2 ^ 20) ->
  exists s', fold_opt retain_backing l s = Some s' /\
    vm_core (fun b => d b + owed backing l b) s' /\
    memory s' = memory s /\ page_table s' = page_table s /\ meta s' = meta s /\
    shape s' = shape s /\ epochs s' = epochs s.
Proof.
  induction l as [|p l IH]; intros d s I Hl Hd; cbn [fold_opt].
  { exists s. split_and!; try done. eapply core_ext; [|exact I]. intros b _. unfold owed. cbn. lia. }
  destruct (Hl p ltac:(set_solver)) as (Hne & v & Hv).
  cbn [length] in Hd. pose proof (Hd (backing p)) as Hdp.
  destruct (retain_ok d s p v I Hv Hne ltac:(lia)) as (s1 & -> & I1 & Hm1 & Ht1 & He1 & Hs1 & Hep1). cbn.
  destruct (IH (owe (backing p) 1 d) s1 I1) as (s' & -> & I' & Hm' & Ht' & He' & Hs' & Hep').
  - intros q Hq. rewrite Hm1. apply Hl. set_solver.
  - intros b. specialize (Hd b). unfold owe. case_decide; lia.
  - exists s'. split_and!; try done; try congruence.
    eapply core_ext; [|exact I']. intros b _. cbn. rewrite owed_cons.
    unfold owe. case_decide; lia.
Qed.

Lemma remap_collect_spec s vs pages :
  remap_collect s vs = inl pages ->
  Forall2 (fun v p => memory s !! v = Some p /\ backing p <> 0) vs pages.
Proof.
  revert pages. induction vs as [|v vs IH]; intros pages; cbn; [intros [= <-]; constructor|].
  destruct (memory s !! v) as [p|] eqn:E; [|done]. destruct (addr p =? 0); [done|].
  destruct ((backing p =? 0) || _)%bool eqn:E2; [done|]. zb.
  destruct (remap_collect s vs) as [ps|]; [|done]. intros [= <-]. constructor; [done|by apply IH].
Qed.

Lemma table_ok_ext s s' :
  memory s' = memory s -> page_table s' = page_table s -> meta s' = meta s ->
  table_ok s -> table_ok s'.
Proof.
  intros Hm Ht [= _ H2 H3 _ _ _ _] H v. specialize (H v).
  unfold page_table_slot in *. by rewrite Hm, Ht, H2, H3.
Qed.

(** ** Aliasing *)

(** The pages of [l] as a list indexed like [page_addrs]. *)
Lemma page_addrs_lookup a e i :
  0 <= i -> a + i * DYN_PAGE_SIZE < e -> page_addrs a e !! Z.to_nat i = Some (a + i * DYN_PAGE_SIZE).
Proof.
  intros Hi He. unfold page_addrs. rewrite list_lookup_fmap.
  assert (seqZ 0 ((e - a + DYN_PAGE_MASK) / DYN_PAGE_SIZE) !! Z.to_nat i = Some i) as ->; [|done].
  apply lookup_seqZ. rewrite Z2Nat.id by done. split; [lia|].
  enough (i + 1 <= (e - a + DYN_PAGE_MASK) / DYN_PAGE_SIZE) by lia.
  apply Z.div_le_lower_bound; [done|]. unfold DYN_PAGE_SIZE, DYN_PAGE_MASK in *. lia.
Qed.

Lemma owed_zip (l : list Z) (pages : list memory_page) b :
  length l = length pages -> owed (fun va => backing (snd va)) (zip l pages) b = owed backing pages b.
Proof.
  revert pages. induction l as [|v l IH]; intros [|p pages]; cbn [zip zip_with length]; try done.
  intros H. rewrite !owed_cons. unfold owe. rewrite IH by lia. done.
Qed.

Section alias.
Context (s : vm) (Hok : vm_ok s) (Hg : guestMemoryLookupGeneration s < UINT64_MAX).
Context (source len : Z) (pages : list memory_page).
Context (Hcollect : remap_collect s (page_addrs source (source + len)) = inl pages).
Context (Hlen : 0 < len <= 2 ^ 32).

Lemma pages_length : length pages = length (page_addrs source (source + len)).
Proof. symmetry. eapply Forall2_length, remap_collect_spec, Hcollect. Qed.

(** The commit of vm_remap after a successful reservation at [a]. *)
Lemma remap_commit fixed mask a rs s1 :
  reserved s len mask a fixed rs s1 ->
  exists s2 s3, fold_opt retain_backing pages s1 = Some s2 /\
    fold_opt remap_page (zip (page_addrs a (a + len)) pages)
      (InvalidateGuestMemoryLookupCaches s2) = Some s3 /\
    (forall x n, vm_ok (InvalidateAllGuestJits x n s3)) /\
    memory s3 = rebound fst (fun va => aliased_page (snd va))
      (zip (page_addrs a (a + len)) pages) (memory s1).
Proof.
  intros Hr. pose proof (reserved_inv _ _ _ _ _ _ _ Hok Hr) as Hok1.
  pose proof (remap_collect_spec _ _ _ Hcollect) as Hpages.
  destruct (reserved_size _ _ _ _ _ _ _ Hr) as [_ Hmod].
  assert (Z.of_nat (length pages) = len / DYN_PAGE_SIZE) as Hn.
  { rewrite pages_length. apply page_addrs_length; [lia|done]. }
  assert (len / DYN_PAGE_SIZE <= 2 ^ 20) as Hn20.
  { change (2 ^ 20) with (2 ^ 32 / DYN_PAGE_SIZE). apply Z.div_le_mono; [done|lia]. }
  assert (length (page_addrs a (a + len)) = length pages) as Hleneq.
  { apply Nat2Z.inj. rewrite Hn. apply page_addrs_length; [lia|done]. }
  assert (memory s1 = insert_reservations rs (memory s)) as Hm1.
  { by rewrite (reserved_state _ _ _ _ _ _ _ Hr). }
  destruct (retain_loop_ok pages no_debt s1) as (s2 & H2 & I2 & Hm2 & Ht2 & He2 & Hs2 & _);
    [apply Hok1| |unfold no_debt; lia|].
  { intros p Hp. apply list_elem_of_lookup in Hp as [i Hi].
    eapply Forall2_lookup_r in Hpages as (v & Hv & Hmem & Hb); [|exact Hi]. split; [done|].
    exists v. rewrite Hm1. rewrite insert_reservations_lookup; [done|].
    intros Hin. apply list_elem_of_fmap in Hin as (r & -> & Hin).
    destruct (reserved_ok _ _ _ _ _ _ _ Hr) as [_ Hf]. specialize (Hf r Hin). congruence. }
  destruct (rebind_loop_ok fst (fun va => aliased_page (snd va)) (fun va => backing (snd va))
    (fun _ _ => eq_refl) (zip (page_addrs a (a + len)) pages) (InvalidateGuestMemoryLookupCaches s2))
    as (s3 & Hfold & I3 & Ht3 & Hm3 & Hmeta3 & _).
  - apply core_invalidate. eapply core_ext; [|exact I2]. intros b _. unfold no_debt.
    by rewrite owed_zip.
  - exact (table_ok_ext s1 s2 Hm2 Ht2 He2 (vm_table _ Hok1)).
  - intros [v p] Hin. cbn. rewrite Hm2. apply elem_of_zip_l in Hin.
    exact (reserved_mapped _ _ _ _ _ _ _ v Hr Hin).
  - intros [v p] q Hin. apply elem_of_zip_r in Hin. cbn.
    apply list_elem_of_lookup in Hin as [i Hi].
    eapply Forall2_lookup_r in Hpages as (w & _ & Hmem & Hb); [|exact Hi].
    intros Hne. cbn in Hne.
    assert (page_ok s p) as Hp by (eapply (vm_pages _ _ (vm_is_core _ Hok)); exact Hmem).
    assert (shape (InvalidateGuestMemoryLookupCaches s2) = shape s) as Hsh.
    { change (shape s2 = shape s). rewrite Hs2. by rewrite (reserved_state _ _ _ _ _ _ _ Hr). }
    exact (page_ok_shape _ _ p Hsh Hp Hne).
  - exists s2, s3. split; [done|]. split; [done|]. split; [|by rewrite Hm3; cbn; rewrite Hm2].
    intros x n. eapply vm_ok_intro; try done. apply invalidate_stale.
    + injection He2 as ? ? ? ? ? ? ?. apply (cache_ok_ext s1); try done. apply Hok1.
    + injection He2 as _ _ _ -> _ _ _. by rewrite (reserved_state _ _ _ _ _ _ _ Hr).
Qed.

(** The destination page [i] is an alias of the source page [i]. *)
Lemma remap_alias_at fixed mask a rs s1 i :
  reserved s len mask a fixed rs s1 -> 0 <= i -> i * DYN_PAGE_SIZE < len ->
  exists ps pd, memory s !! (source + i * DYN_PAGE_SIZE) = Some ps /\
    rebound fst (fun va => aliased_page (snd va)) (zip (page_addrs a (a + len)) pages) (memory s1)
      !! (a + i * DYN_PAGE_SIZE) = Some pd /\
    addr pd = addr ps /\ perms pd = perms ps /\ backing pd = backing ps /\ enforceDataPermissions pd = true.
Proof using Hcollect Hlen.
  intros Hr Hi Hil. pose proof (remap_collect_spec _ _ _ Hcollect) as Hpages.
  destruct (Forall2_lookup_l _ _ _ _ _ Hpages
    (page_addrs_lookup source (source + len) i Hi ltac:(lia))) as (ps & Hps & Hmem & _).
  assert ((a + i * DYN_PAGE_SIZE, ps) ∈ zip (page_addrs a (a + len)) pages) as Hin.
  { apply list_elem_of_lookup. exists (Z.to_nat i). apply lookup_zip_with_Some.
    exists (a + i * DYN_PAGE_SIZE), ps. split; [done|]. split; [|done]. apply page_addrs_lookup; lia. }
  assert (a + i * DYN_PAGE_SIZE ∈ page_addrs a (a + len)) as Hina by by apply elem_of_zip_l in Hin.
  destruct (reserved_mapped _ _ _ _ _ _ _ _ Hr Hina) as [pd Hpd].
  exists ps, (aliased_page ps pd). split; [done|]. split; [|done].
  pose proof (rebound_lookup fst (fun va => aliased_page (snd va)) (zip (page_addrs a (a + len)) pages)
    (memory s1) (a + i * DYN_PAGE_SIZE, ps)) as Hlk. cbn [fst snd] in Hlk.
  rewrite Hlk, Hpd; [done| |done]. rewrite fst_zip; [apply NoDup_page_addrs|].
  apply Nat2Z.inj_le. rewrite pages_length. rewrite !page_addrs_length; [done|lia|apply Hr|lia|apply Hr].
Qed.
End alias.

(** An error path: the state is returned as it was. *)
Ltac remap_error := do 3 eexists; split; [done|]; split; [done|]; split; [done|]; done.

(** C9: vm_remap shares, it does not copy.  Every error leaves the address space
    exactly as it was.  On success each destination page is an alias of the
    source page at the same offset, as it was before the call (same host page,
    permissions and backing, strictly enforced), even when the destination
    overwrites the source; the backings are retained before any is released, so
    reference counts stay exact and no live backing is retired. *)
Theorem vm_remap_aliases env resize_ok address sz mask flags source copy s :
  vm_ok s -> guestMemoryLookupGeneration s < UINT64_MAX ->
  0 <= address < 2 ^ 32 -> 0 <= sz < 2 ^ 32 -> 0 <= mask < 2 ^ 32 -> 0 <= source < 2 ^ 32 ->
  exists k out s',
    Dynarmic_vm_remap env resize_ok address sz mask flags source copy s = Some (k, out, s') /\
    vm_ok s' /\
    (k <> KERN_SUCCESS -> out = None /\ s' = s) /\
    (k = KERN_SUCCESS -> exists a prot, out = Some (a, prot) /\
       forall i, 0 <= i -> i * DYN_PAGE_SIZE < sz ->
         exists ps pd, memory s !! (source + i * DYN_PAGE_SIZE) = Some ps /\
           memory s' !! (a + i * DYN_PAGE_SIZE) = Some pd /\
           addr pd = addr ps /\ perms pd = perms ps /\ backing pd = backing ps /\
           enforceDataPermissions pd = true).
Proof.
  intros Hok Hg Ha Hs Hma Hsrc. unfold Dynarmic_vm_remap.
  set (len := page_base (u64 (sz + DYN_PAGE_MASK))).
  set (destination := if has_flag flags VM_FLAGS_ANYWHERE then 0 else page_base address).
  set (alignment := Z.lor mask DYN_PAGE_MASK).
  destruct (copy || _)%bool; [remap_error|]. destruct (_ || _ || _)%bool; [remap_error|].
  destruct (len =? 0) eqn:E0; [remap_error|]. zb.
  destruct (GuestAddressRangeIsValid32 source len) eqn:Ev; cbn [negb]; [|remap_error].
  destruct (negb (GuestAddressRangeIsValid32 destination len) || _)%bool; [remap_error|].
  destruct (memory_handle s =? 0); [remap_error|]. destruct (negb resize_ok); [remap_error|].
  destruct (remap_collect s (page_addrs source (source + len))) as [pages|e] eqn:Ec.
  2:{ do 3 eexists. split; [done|]. split; [done|]. split; [done|]. intros ->. exfalso.
      clear -Ec. revert Ec. generalize (page_addrs source (source + len)) as vs.
      induction vs as [|v vs IH]; cbn; [done|]. repeat case_match; try done; intros [= ?]; eauto. }
  destruct (_ && _ && _)%bool; [remap_error|].
  assert (0 <= destination) as Hd.
  { unfold destination. destruct (has_flag _ _); [lia|]. assert (2 ^ 32 < U64_MOD) by done.
    apply page_base_le. lia. }
  assert (2 ^ 33 < U64_MOD) as H33 by done.
  assert (0 <= sz + DYN_PAGE_MASK < U64_MOD) as Hb by (unfold DYN_PAGE_MASK; lia).
  assert (0 <= len) as Hlen0 by (apply page_base_le, u64_range).
  destruct (mem_reserve_spec env destination len (negb (has_flag flags VM_FLAGS_ANYWHERE)) alignment s Hd
    Hlen0 ltac:(apply Z.lor_nonneg; unfold DYN_PAGE_MASK; lia)) as ([[e|[a rs]] s1] & -> & Hr); cbn.
  { subst s1. remap_error. }
  destruct Hr as [Hr _]. unfold GuestAddressRangeIsValid32 in Ev. zb.
  destruct (reserved_range _ _ _ _ _ _ _ Hr) as [Hlo Hhi]. unfold DYN_PAGE_SIZE in Hlo.
  rewrite (u64_small (a + len)), u32_small by (unfold U32_MOD; lia).
  destruct (remap_commit s Hok Hg source len pages Ec ltac:(lia) _ _ a rs s1 Hr)
    as (s2 & s3 & -> & Hfold & Hok3 & Hm3). cbn. rewrite Hfold. cbn.
  do 3 eexists. split; [done|]. split; [apply Hok3|]. split; [done|]. intros _.
  do 2 eexists. split; [done|]. intros i Hi Hisz.
  assert (i * DYN_PAGE_SIZE < len) as Hil.
  { unfold len. rewrite u64_small by done. rewrite page_base_div by done.
    pose proof (Z.mul_succ_div_gt (sz + DYN_PAGE_MASK) DYN_PAGE_SIZE ltac:(done)).
    unfold DYN_PAGE_SIZE, DYN_PAGE_MASK in *. lia. }
  cbn [memory InvalidateAllGuestJits]. rewrite Hm3.
  exact (remap_alias_at s source len pages Ec ltac:(lia) _ _ a rs s1 i Hr Hi Hil).
Qed.
