(* ===== verification/ProtectProps.v ===== *)
(** [Dynarmic_mprotect], and the lemmas it shares with PrivateCopy.v about
    operations that take the pages of a range off the fast-path table, change
    them, and publish them again. *)

From S2P Require Import Prelude.
From S2P Require Import VmEpoch.
From S2P Require Import GuestMemory.
From S2P Require Import GuestMapping.
From S2P Require Import GuestReserve.
From S2P Require Import VmInvariant.
From S2P Require Import MappingProps.
From stdpp Require Import base gmap list fin_maps list_numbers.
From Stdlib Require Import ZArith Lia.
Open Scope Z_scope.

(** ** A table that lags behind on the pages of a list *)

Definition table_ok_but (l : list Z) (s : vm) : Prop :=
  forall v, 0 <= v < 2 ^ 32 -> v mod DYN_PAGE_SIZE = 0 -> v ∉ l ->
    (page_table_present s && (page_index v <? num_page_table_entries s))%bool = true ->
    page_table_slot s (page_index v) = GuestPageTablePointer (memory s !! v).

Lemma table_ok_but_nil s : table_ok_but [] s -> table_ok s.
Proof. intros H v Hv Hm. apply H; [done|done|set_solver]. Qed.

Lemma table_ok_but_weaken l s : table_ok s -> table_ok_but l s.
Proof. intros H v Hv Hm _. by apply H. Qed.

(** Storing into the slot of a lagging page keeps the others. *)
Lemma store_but l s v p :
  v ∈ l -> v mod DYN_PAGE_SIZE = 0 -> table_ok_but l s -> table_ok_but l (page_table_store (page_index v) p s).
Proof.
  intros Hv Hvm H w Hw Hwm Hwl Hin. rewrite store_slot.
  destruct (store_fields (page_index v) p s) as [t Et]. rewrite Et in Hin |- *. cbn in Hin |- *.
  case_decide as Hd; [|by apply H].
  destruct Hd as [Hi _]. apply page_index_inj in Hi as ->; done.
Qed.

(** Publishing a page, possibly after changing it, takes it off the list. *)
Lemma publish_but l s0 s v :
  table_ok_but (v :: l) s0 -> page_table_present s = page_table_present s0 ->
  num_page_table_entries s = num_page_table_entries s0 -> page_table s = page_table s0 ->
  (forall w, w <> v -> memory s !! w = memory s0 !! w) -> v mod DYN_PAGE_SIZE = 0 ->
  table_ok_but l (publish_page v s).
Proof.
  intros Ht H1 H2 H3 Hm Hv w Hw Hwm Hwl Hin. unfold publish_page in *.
  destruct (store_fields (page_index v) (GuestPageTablePointer (memory s !! v)) s) as [t Et].
  rewrite store_slot. rewrite Et in Hin |- *. cbn in Hin |- *. case_decide as Hd.
  - destruct Hd as [Hi _]. apply page_index_inj in Hi as ->; done.
  - assert (w <> v) as Hne by (intros ->; tauto).
    rewrite Hm by done. rewrite <- (Ht w Hw Hwm); [|set_solver|by rewrite <- H1, <- H2].
    unfold page_table_slot. by rewrite H1, H2, H3.
Qed.

Lemma unpublish_loop l0 l : forall s,
  (forall v, v ∈ l -> v ∈ l0 /\ v mod DYN_PAGE_SIZE = 0) -> table_ok_but l0 s ->
  let s' := foldl (fun s v => unpublish_page v s) s l in
  table_ok_but l0 s' /\ exists t, s' = with_page_table t s.
Proof.
  induction l as [|v l IH]; intros s Hl Ht; cbn.
  - split; [done|]. exists (page_table s). by destruct s.
  - destruct (Hl v ltac:(by left)) as [Hv Hvm].
    destruct (IH (unpublish_page v s)) as [Ht' [t Et]]; [intros w Hw; apply Hl; by right|exact (store_but l0 s v 0 Hv Hvm Ht)|].
    split; [done|]. rewrite Et. unfold unpublish_page.
    destruct (store_fields (page_index v) 0 s) as [t' ->]. by exists t.
Qed.

Lemma publish_loop l : forall s,
  (forall v, v ∈ l -> v mod DYN_PAGE_SIZE = 0) -> table_ok_but l s ->
  let s' := foldl (fun s v => publish_page v s) s l in
  table_ok s' /\ exists t, s' = with_page_table t s.
Proof.
  induction l as [|v l IH]; intros s Hl Ht; cbn.
  - split; [by apply table_ok_but_nil|]. exists (page_table s). by destruct s.
  - destruct (IH (publish_page v s)) as [Ht' [t Et]];
      [intros w Hw; apply Hl; by right|apply (publish_but l s); try done; apply Hl; by left|].
    split; [done|]. rewrite Et. unfold publish_page.
    destruct (store_fields (page_index v) (GuestPageTablePointer (memory s !! v)) s) as [t' ->]. by exists t.
Qed.

(** ** Widening host protections *)

(** Same backings, with possibly more host protection. *)
Definition widened (old new : gmap Z memory_backing) : Prop :=
  forall b, match old !! b, new !! b with
  | Some k, Some k' => backing_addr k' = backing_addr k /\ backing_size k' = backing_size k /\
      references k' = references k /\ has_all (hostProtection k') (hostProtection k) = true
  | None, None => True
  | _, _ => False
  end.

Lemma widened_refl m : widened m m.
Proof. intros b. destruct (m !! b); [|done]. split_and!; try done. apply has_all_refl. Qed.

Lemma has_all_trans x y z : has_all x y = true -> has_all y z = true -> has_all x z = true.
Proof.
  unfold has_all. intros H1 H2. zb. apply Z.eqb_eq, Z.bits_inj'. intros i Hi.
  apply (f_equal (fun t => Z.testbit t i)) in H1, H2. rewrite Z.land_spec in *.
  by destruct (Z.testbit x i), (Z.testbit y i), (Z.testbit z i).
Qed.

Lemma widened_trans m1 m2 m3 : widened m1 m2 -> widened m2 m3 -> widened m1 m3.
Proof.
  intros H1 H2 b. specialize (H1 b). specialize (H2 b).
  destruct (m1 !! b), (m2 !! b), (m3 !! b); try done.
  destruct H2 as (-> & -> & -> & ?), H1 as (-> & -> & -> & ?). split_and!; try done.
  by eapply has_all_trans.
Qed.

Lemma widened_core d s bs : vm_core d s -> widened (backings s) bs -> vm_core d (with_backings bs s).
Proof.
  intros [Hk Hp Hb] Hw. split; [done| |].
  - intros v p Hv Hne. destruct (Hp v p Hv Hne) as (bk & Hbk & H1 & H2 & H3).
    specialize (Hw (backing p)). rewrite Hbk in Hw. cbn.
    destruct (bs !! backing p) as [bk'|]; [|done]. destruct Hw as (E1 & E2 & _ & E4).
    exists bk'. rewrite E1, E2. split_and!; try done. by eapply has_all_trans.
  - intros b bk Hbk. cbn in Hbk. specialize (Hw b). rewrite Hbk in Hw.
    destruct (backings s !! b) as [bk0|] eqn:E; [|done]. destruct Hw as (_ & _ & E3 & _).
    destruct (Hb b bk0 E). split; try done; by rewrite E3.
Qed.

(** ** mprotect: collecting *)

(** An update asks for the old host protection plus what the guest needs. *)
Definition update_ok (s : vm) (perms : Z) (u : Z * Z) : Prop :=
  exists bk, backings s !! fst u = Some bk /\
    snd u = Z.lor (hostProtection bk) (HostProtectionForGuestPermissions perms).

Lemma collect_spec s perms vs : forall ups,
  vm_core no_debt s -> Forall (update_ok s perms) ups -> NoDup ups.*1 ->
  (exists e, collect_backing_updates s perms vs ups = Some (inr e)) \/
  exists ups', collect_backing_updates s perms vs ups = Some (inl ups') /\
    Forall (update_ok s perms) ups' /\ NoDup ups'.*1 /\ ups.*1 ⊆ ups'.*1 /\
    forall v, v ∈ vs -> exists p, memory s !! v = Some p /\ (backing p <> 0 -> backing p ∈ ups'.*1).
Proof.
  induction vs as [|v vs IH]; intros ups I Hu Hnd; cbn.
  { right. exists ups. split_and!; try done. set_solver. }
  destruct (memory s !! v) as [p|] eqn:Ep; [|left; by eexists].
  destruct ((backing p =? 0) || bool_decide (backing p ∈ ups.*1))%bool eqn:E.
  - destruct (IH ups I Hu Hnd) as [?|(ups' & -> & H1 & H2 & H3 & H4)]; [by left|right].
    exists ups'. split_and!; try done. intros w [->|Hw]%elem_of_cons; [|by apply H4].
    exists p. split; [done|]. intros Hne. apply orb_true_iff in E as [E|E]; zb; [done|].
    apply bool_decide_eq_true in E. by apply H3.
  - apply orb_false_iff in E as [E1 E2]. zb. apply bool_decide_eq_false in E2.
    destruct (vm_pages _ _ I v p Ep E1) as (bk & Hbk & _). rewrite Hbk.
    destruct (IH (ups ++ [(backing p, Z.lor (hostProtection bk) (HostProtectionForGuestPermissions perms))]) I)
      as [?|(ups' & -> & H1 & H2 & H3 & H4)].
    + apply Forall_app_2; [done|]. constructor; [|done]. by exists bk.
    + rewrite fmap_app. apply NoDup_app. split_and!; [done|cbn; set_solver|cbn; apply NoDup_singleton].
    + by left.
    + right. exists ups'. rewrite fmap_app in H3. cbn in H3. split_and!; try done; [set_solver|].
      intros w [->|Hw]%elem_of_cons; [|by apply H4]. exists p. split; [done|]. set_solver.
Qed.

Lemma widen_spec env perms ups : forall s,
  Forall (update_ok s perms) ups -> NoDup ups.*1 ->
  exists f bs, widen_backings env ups s = Some (f, with_backings bs s) /\ widened (backings s) bs /\
    (f = None -> forall b, b ∈ ups.*1 -> exists bk, bs !! b = Some bk /\
       has_all (hostProtection bk) (HostProtectionForGuestPermissions perms) = true) /\
    (forall b, b ∉ ups.*1 -> bs !! b = backings s !! b).
Proof.
  assert (forall s, with_backings (backings s) s = s) as Hid by (by intros []).
  induction ups as [|[b req] ups IH]; intros s Hu Hnd; cbn.
  { exists None, (backings s). rewrite Hid. split_and!; try done; [apply widened_refl|set_solver]. }
  apply Forall_cons in Hu as [(bk & Hbk & Hreq) Hu]. cbn in *. rewrite Hbk.
  apply NoDup_cons in Hnd as [Hb Hnd].
  assert (has_all req (HostProtectionForGuestPermissions perms) = true) as Hall.
  { rewrite Hreq, Z.lor_comm. apply has_all_lor. }
  destruct (req =? hostProtection bk) eqn:E; zb.
  - destruct (IH s Hu Hnd) as (f & bs & -> & Hw & Hf & Hout). exists f, bs. split_and!; try done; [|set_solver].
    intros ->. intros x [->|Hx]%elem_of_cons; [|by apply Hf].
    exists bk. split; [rewrite Hout by done; done|]. by rewrite <- E.
  - destruct (host_mprotect env _ _ _) as [e|].
    + exists (Some e), (backings s). rewrite Hid. split_and!; try done. apply widened_refl.
    + set (bk' := with_hostProtection req bk).
      assert (widened (backings s) (<[b := bk']> (backings s))) as Hw1.
      { intros x. rewrite lookup_insert. case_decide as Hx.
        - subst x. rewrite Hbk. split_and!; try done. cbn. rewrite Hreq. apply has_all_lor.
        - specialize (widened_refl (backings s) x). done. }
      destruct (IH (with_backings (<[b := bk']> (backings s)) s)) as (f & bs & -> & Hw & Hf & Hout); [|done|].
      { apply Forall_forall. intros u Hin. rewrite Forall_forall in Hu. destruct (Hu u Hin) as (k & Hk & Hk').
        exists k. split; [|done]. cbn. rewrite lookup_insert_ne; [done|]. intros ->. apply Hb.
        apply list_elem_of_fmap. by exists u. }
      exists f, bs. split_and!; [done|by eapply widened_trans| |].
      * intros ->. intros x [->|Hx]%elem_of_cons; [|by apply Hf].
        exists bk'. split; [|done]. rewrite Hout by done. cbn. by rewrite lookup_insert_eq.
      * intros x Hx. rewrite Hout by set_solver. cbn. rewrite lookup_insert_ne; [done|set_solver].
Qed.

(** ** mprotect: committing *)

Definition protected_page (perms : Z) (page : memory_page) : memory_page :=
  {| page_ptr := page_ptr page; addr := addr page; perms := perms;
     enforceDataPermissions := true; backing := backing page |}.

(** Changing a page without changing its backing keeps the core. *)
Lemma update_page_core d s v p p' :
  vm_core d s -> memory s !! v = Some p -> backing p' = backing p -> page_ok s p' ->
  vm_core d (put_page v p' s).
Proof.
  intros [Hk Hp Hb] Hv Hbk Hok. split.
  - intros w q. cbn. rewrite lookup_insert. case_decide; [intros; subst; by eapply Hk|apply Hk].
  - intros w q. cbn. rewrite lookup_insert. case_decide; [by intros [= <-]|apply Hp].
  - intros b bk H. destruct (Hb b bk H). split; try done. cbn.
    rewrite (page_count_insert _ _ p) by done. unfold names. rewrite Hbk. lia.
Qed.

Lemma protect_loop perms l : forall s,
  NoDup l -> vm_core no_debt s -> table_ok_but l s ->
  (forall v, v ∈ l -> exists p, memory s !! v = Some p /\ page_ok s (protected_page perms p)) ->
  let s' := foldl (fun s v => protect_page perms v s) s l in
  vm_core no_debt s' /\ table_ok s' /\ meta s' = meta s /\ backings s' = backings s /\
  memory s' = rebound (fun v => v) (fun _ => protected_page perms) l (memory s).
Proof.
  induction l as [|v l IH]; intros s Hnd I Ht Hl; cbn [foldl].
  { cbn. split_and!; try done. by apply table_ok_but_nil. }
  apply NoDup_cons in Hnd as [Hv Hnd]. destruct (Hl v ltac:(by left)) as (p & Hp & Hpk).
  destruct (vm_keys _ _ I v p Hp) as [_ Hmod].
  assert (exists t, protect_page perms v s = with_page_table t (put_page v (protected_page perms p) s)) as [t Et].
  { unfold protect_page. rewrite Hp. apply store_fields. }
  destruct (IH (protect_page perms v s)) as (I' & Ht' & Hm' & Hb' & Hmem').
  - done.
  - rewrite Et. apply core_table. by apply (update_page_core _ s v p).
  - unfold protect_page. rewrite Hp. apply (publish_but l s); try done.
    intros w Hw. cbn. by rewrite lookup_insert_ne.
  - intros w Hw. destruct (Hl w ltac:(by right)) as (q & Hq & Hqk). exists q. rewrite Et. cbn.
    rewrite lookup_insert_ne by (intros ->; done). done.
  - split_and!; [done|done|by rewrite Hm', Et|by rewrite Hb', Et|].
    rewrite Hmem', Et. cbn. unfold rebound. cbn. f_equal. apply map_eq. intros w.
    rewrite lookup_insert, lookup_alter. case_decide; [subst; by rewrite Hp|done].
Qed.

Lemma vm_ok_close s s' :
  vm_core no_debt s' -> table_ok s' -> meta s' = meta s -> caches_stale s -> vm_ok s'.
Proof.
  intros I Ht Hm Hst. split; [done|done|]. exact (stale_cache_ok s' (meta_stale s s' Hm Hst)).
Qed.

(** An early failure: the state is returned as it was. *)
Ltac mprotect_error :=
  do 2 eexists; split; [done|]; split; [done|]; split; [done|]; split; [apply widened_refl|]; split; [lia|done].

(** Two consistent states with the same map have the same slots. *)
Lemma slots_determined s s' v :
  vm_ok s -> vm_ok s' -> memory s' = memory s -> page_table_present s' = page_table_present s ->
  num_page_table_entries s' = num_page_table_entries s -> 0 <= v < 2 ^ 32 -> v mod DYN_PAGE_SIZE = 0 ->
  page_table_slot s' (page_index v) = page_table_slot s (page_index v).
Proof.
  intros H H' Hm Hp Hn Hv Hvm.
  destruct (page_table_present s && (page_index v <? num_page_table_entries s))%bool eqn:E.
  - rewrite (vm_table _ H v Hv Hvm E). rewrite (vm_table _ H' v Hv Hvm); by rewrite ?Hm, ?Hp, ?Hn.
  - unfold page_table_slot. rewrite Hp, Hn, E. done.
Qed.

(** Mprotect is all or nothing for the guest.  For any host behaviour a
    failed call leaves every page, its permissions, the bytes and the fast-path
    table as they were, although host mappings may already have been widened;
    a successful one gives exactly the pages of the range the new permissions
    and takes them off the unchecked fast path.  Host protection only grows, so
    pages that alias the same host mapping keep their access, and the invariant
    of the address space is kept on every path. *)
Lemma mprotect_all_or_nothing env collect_ok address sz prot s :
  vm_ok s -> guestMemoryLookupGeneration s < UINT64_MAX -> 0 <= address -> 0 <= sz ->
  exists r s', Dynarmic_mprotect env collect_ok address sz prot s = Some (r, s') /\ vm_ok s' /\
    host s' = host s /\ widened (backings s) (backings s') /\
    guestMemoryLookupGeneration s' <= guestMemoryLookupGeneration s + 1 /\
    match r with
    | Errno e => memory s' = memory s /\
        forall v, 0 <= v < 2 ^ 32 -> v mod DYN_PAGE_SIZE = 0 ->
          page_table_slot s' (page_index v) = page_table_slot s (page_index v)
    | Ret v => v = 0 /\
        (forall w, w ∈ page_addrs address (address + sz) -> is_Some (memory s !! w)) /\
        forall w, memory s' !! w =
          if decide (w ∈ page_addrs address (address + sz))
          then protected_page prot <$> memory s !! w else memory s !! w
    end.
Proof.
  intros Hok Hg Ha Hs. unfold Dynarmic_mprotect.
  destruct (page_offset address =? 0) eqn:Eoff; cbn [negb]; [|mprotect_error].
  destruct (_ || _)%bool; [mprotect_error|]. destruct (negb _); [mprotect_error|].
  destruct (_ <? _); [mprotect_error|].
  destruct (GuestAddressRangeIsValid32 address sz) eqn:Ev; cbn [negb]; [|mprotect_error].
  set (vs := page_addrs address (address + sz)).
  destruct (collect_spec s prot vs [] (vm_is_core _ Hok) ltac:(done) ltac:(constructor))
    as [[e ->]|(ups & -> & Hu & Hnd & _ & Hmap)]; cbn; [mprotect_error|].
  destruct collect_ok; cbn [negb]; [|mprotect_error].
  assert (forall v, v ∈ vs -> v mod DYN_PAGE_SIZE = 0) as Hal.
  { intros v Hv. destruct (Hmap v Hv) as (p & Hp & _). by apply (vm_keys _ _ (vm_is_core _ Hok) v p). }
  destruct (unpublish_loop vs vs (InvalidateGuestMemoryLookupCaches s)) as [Ht1 [t1 Et1]];
    [auto|apply table_ok_but_weaken, Hok|].
  set (s1 := foldl _ _ vs) in *.
  destruct (widen_spec env prot ups s1) as (f & bs & -> & Hw & Hf & _); [by rewrite Et1|done|]. cbn.
  pose proof (invalidate_stale s (vm_cache _ Hok) Hg) as Hst.
  assert (u64 (guestMemoryLookupGeneration s + 1) <= guestMemoryLookupGeneration s + 1) as Hgen.
  { pose proof (generation_pos _ (vm_cache _ Hok)). apply Z.mod_le; [lia|done]. }
  assert (vm_core no_debt (with_backings bs s1)) as I2.
  { apply widened_core; [|done]. rewrite Et1. apply (proj1 (core_table _ t1 _)), core_invalidate, Hok. }
  assert (widened (backings s) bs) as Hws by (by rewrite Et1 in Hw).
  destruct f as [e|].
  - destruct (publish_loop vs (with_backings bs s1) Hal Ht1) as [Ht3 [t3 Et3]].
    set (s3 := foldl _ (with_backings bs s1) vs) in *. do 2 eexists. split; [done|].
    assert (vm_ok s3) as Hok3.
    { apply (vm_ok_close (InvalidateGuestMemoryLookupCaches s)); try done.
      - rewrite Et3. by apply (proj1 (core_table _ t3 _)).
      - by rewrite Et3, Et1. }
    split_and!; [done|by rewrite Et3, Et1|by rewrite Et3|by rewrite Et3, Et1; cbn; lia|by rewrite Et3, Et1|].
    intros v Hv Hvm. apply slots_determined; try done; by rewrite Et3, Et1.
  - destruct (protect_loop prot vs (with_backings bs s1)) as (I3 & Ht3 & Hm3 & Hb3 & Hmem3);
      [apply NoDup_page_addrs|done|done| |].
    { intros v Hv. destruct (Hmap v Hv) as (p & Hp & Hpb). exists p. split; [by rewrite Et1|].
      intros Hne. destruct (Hf eq_refl _ (Hpb Hne)) as (bk & Hbk & Hall). exists bk.
      destruct (vm_pages _ _ (vm_is_core _ Hok) v p Hp Hne) as (bk0 & Hbk0 & H1 & H2 & _).
      specialize (Hws (backing p)). rewrite Hbk0, Hbk in Hws. destruct Hws as (E1 & E2 & _).
      cbn. rewrite E1, E2. done. }
    set (s3 := foldl _ (with_backings bs s1) vs) in *. do 2 eexists. split; [done|]. split_and!; try done.
    + apply (vm_ok_intro (InvalidateGuestMemoryLookupCaches s)); [done|done|by rewrite Hm3, Et1|done].
    + cbn. injection Hm3 as _ _ _ _ _ -> _. by rewrite Et1.
    + cbn. by rewrite Hb3.
    + cbn. injection Hm3 as _ _ _ -> _ _ _. rewrite Et1. cbn. lia.
    + intros w Hw'. destruct (Hmap w Hw') as (p & Hp & _). by eexists.
    + intros w. cbn. rewrite Hmem3. case_decide as Hin.
      * rewrite (rebound_lookup (fun v => v) _ vs _ w);
          [by rewrite Et1|rewrite list_fmap_id; apply NoDup_page_addrs|done].
      * rewrite rebound_lookup_ne; [by rewrite Et1|]. intros a Hin' ->. done.
Qed.
