(* ===== verification/PrivateCopy.v ===== *)
(** [ReplaceGuestMemoryRangeWithPrivateCopy]: moving a range onto a fresh private
    host mapping with new contents, without disturbing pages that alias the old
    one. *)

From S2P Require Import Prelude.
From S2P Require Import VmEpoch.
From S2P Require Import GuestMemory.
From S2P Require Import GuestMapping.
From S2P Require Import GuestReserve.
From S2P Require Import VmInvariant.
From S2P Require Import MappingProps.
From S2P Require Import ProtectProps.
From stdpp Require Import base gmap list fin_maps list_numbers.
From Stdlib Require Import ZArith Lia.
Open Scope Z_scope.

(** ** Host bytes *)

Lemma host_write_frame h a bs k :
  ~ a <= k < a + Z.of_nat (length bs) -> host_byte (host_write h a bs) k = host_byte h k.
Proof.
  intros Hk. rewrite host_write_store, store_bytes_frame; [done|].
  rewrite fst_zip by (rewrite length_seqZ; lia). rewrite elem_of_seqZ. lia.
Qed.

Lemma host_write_byte h a bs (i : nat) x :
  bs !! i = Some x -> host_byte (host_write h a bs) (a + Z.of_nat i) = x.
Proof.
  intros Hi. pose proof (lookup_lt_Some _ _ _ Hi) as Hlt.
  assert (host_bytes (host_write h a bs) (seqZ a (Z.of_nat (length bs))) = bs) as Hr.
  { rewrite host_write_store. apply store_bytes_read; [apply NoDup_seqZ|]. rewrite length_seqZ. lia. }
  rewrite <- Hr in Hi. unfold host_bytes in Hi. rewrite list_lookup_fmap in Hi.
  rewrite (proj2 (lookup_seqZ a (Z.of_nat (length bs)) i (a + Z.of_nat i))) in Hi by lia.
  by injection Hi.
Qed.

Lemma host_read_lookup h a n (i : nat) :
  Z.of_nat i < n -> host_read h a n !! i = Some (host_byte h (a + Z.of_nat i)).
Proof.
  intros Hi. unfold host_read, host_bytes. rewrite list_lookup_fmap.
  by rewrite (proj2 (lookup_seqZ a n i (a + Z.of_nat i))) by lia.
Qed.

Lemma host_read_length h a n : 0 <= n -> Z.of_nat (length (host_read h a n)) = n.
Proof. intros Hn. unfold host_read, host_bytes. rewrite length_fmap, length_seqZ. lia. Qed.

(** ** The preserved tails *)

Section tails.
Context (s : vm) (size pm mapped : Z).
(** The private mapping is disjoint from the host page of every guest page. *)
Context (fresh : forall v p k, memory s !! v = Some p ->
  addr p <= k < addr p + DYN_PAGE_SIZE -> ~ pm <= k < pm + mapped).

Definition replacement (o : Z) : Z := if size - o <? DYN_PAGE_SIZE then size - o else DYN_PAGE_SIZE.

Definition block_ok (ov : Z * Z) : Prop :=
  0 <= fst ov < size /\ fst ov + DYN_PAGE_SIZE <= mapped /\ fst ov mod DYN_PAGE_SIZE = 0 /\
  is_Some (memory s !! snd ov).

Definition in_block (o k : Z) : Prop := pm + o <= k < pm + o + DYN_PAGE_SIZE.

(** The write of one iteration. *)
Lemma tail_step o v rest h :
  block_ok (o, v) -> exists h', preserve_tails s size pm ((o, v) :: rest) h = preserve_tails s size pm rest h' /\
    (forall k, ~ in_block o k -> host_byte h' k = host_byte h k) /\
    (forall p j, memory s !! v = Some p -> replacement o <= j < DYN_PAGE_SIZE ->
       host_byte h' (pm + o + j) = host_byte h (addr p + j)).
Proof.
  intros (Ho & Hm & _ & [p Hp]). cbn [fst snd] in *. cbn [preserve_tails]. rewrite Hp. fold (replacement o).
  assert (0 < replacement o <= DYN_PAGE_SIZE) as Hr.
  { unfold replacement. destruct (size - o <? DYN_PAGE_SIZE) eqn:E; zb; unfold DYN_PAGE_SIZE in *; lia. }
  eexists. split; [done|]. destruct (DYN_PAGE_SIZE - replacement o =? 0) eqn:E0; zb.
  { split; [done|]. intros q j _ Hj. lia. }
  split.
  - intros k Hk. apply host_write_frame. rewrite host_read_length by lia. unfold in_block in Hk. lia.
  - intros q j [= <-] Hj. replace (pm + o + j) with (pm + o + replacement o + Z.of_nat (Z.to_nat (j - replacement o))) by lia.
    apply host_write_byte. rewrite host_read_lookup by lia. do 2 f_equal. lia.
Qed.

Lemma tails_frame l : forall h k,
  Forall block_ok l -> (forall o v, (o, v) ∈ l -> ~ in_block o k) ->
  host_byte (preserve_tails s size pm l h) k = host_byte h k.
Proof.
  induction l as [|[o v] l IH]; intros h k Hl Hk; [done|]. apply Forall_cons in Hl as [Hb Hl].
  destruct (tail_step o v l h Hb) as (h' & -> & Hf & _).
  rewrite IH; [apply Hf, (Hk o v); by left|done|]. intros o' v' Hin. apply (Hk o' v'). by right.
Qed.

Lemma blocks_disjoint o o' k :
  o mod DYN_PAGE_SIZE = 0 -> o' mod DYN_PAGE_SIZE = 0 -> in_block o k -> in_block o' k -> o = o'.
Proof.
  intros H1 H2. apply Z.mod_divide in H1 as [a ->]; [|done]. apply Z.mod_divide in H2 as [b ->]; [|done].
  unfold in_block, DYN_PAGE_SIZE. lia.
Qed.

Lemma tails_preserved l : forall h o v p j,
  Forall block_ok l -> NoDup l.*1 -> (o, v) ∈ l -> memory s !! v = Some p ->
  replacement o <= j < DYN_PAGE_SIZE ->
  host_byte (preserve_tails s size pm l h) (pm + o + j) = host_byte h (addr p + j).
Proof.
  induction l as [|[o0 v0] l IH]; intros h o v p j Hl Hnd Hin Hp Hj; [set_solver|].
  apply Forall_cons in Hl as [Hb Hl]. cbn in Hnd. apply NoDup_cons in Hnd as [Ho0 Hnd].
  destruct (tail_step o0 v0 l h Hb) as (h' & -> & Hf & Ht).
  assert (block_ok (o, v)) as Hbo.
  { apply elem_of_cons in Hin as [[= -> ->]|Hin]; [done|]. by eapply Forall_forall in Hl. }
  assert (0 <= j) as Hj0.
  { destruct Hbo as [Ho _]. unfold replacement in Hj. cbn in Ho. destruct (_ <? _); unfold DYN_PAGE_SIZE in *; lia. }
  apply elem_of_cons in Hin as [[= -> ->]|Hin].
  - rewrite tails_frame; [by apply Ht|done|]. intros o' v' Hin' Hk'.
    assert (o0 = o') as <-; [|by apply Ho0, list_elem_of_fmap; exists (o0, v')].
    assert (block_ok (o', v')) as Hb' by (by eapply Forall_forall in Hl).
    apply (blocks_disjoint o0 o' (pm + o0 + j)); [apply Hb|apply Hb'|unfold in_block; lia|done].
  - rewrite (IH h' o v p j Hl Hnd Hin Hp Hj). apply Hf. intros Hk. destruct Hb as (Ho & Hm & _). cbn in Ho, Hm.
    apply (fresh v p (addr p + j) Hp); [lia|]. unfold in_block in Hk. lia.
Qed.
End tails.

(** ** Repointing *)

Definition repointed (pm b : Z) (ov : Z * Z) (page : memory_page) : memory_page :=
  {| page_ptr := page_ptr page; addr := pm + fst ov; perms := perms page;
     enforceDataPermissions := enforceDataPermissions page; backing := b |}.

Lemma repoint_loop pm b vs l : forall s,
  vm_core (owed (fun _ => b) l) s -> table_ok_but vs s ->
  (forall ov, ov ∈ l -> snd ov ∈ vs /\ is_Some (memory s !! snd ov)) ->
  (forall ov v p, ov ∈ l -> memory s !! v = Some p -> page_ok s (repointed pm b ov p)) ->
  NoDup l.*2 ->
  exists s', fold_opt (repoint_page pm b) l s = Some s' /\
    vm_core no_debt s' /\ table_ok_but vs s' /\ memory s' = rebound snd (repointed pm b) l (memory s) /\
    meta s' = meta s.
Proof.
  induction l as [|[o v] l IH]; intros s I Ht Hl Hpg Hnd; cbn [fold_opt]; [by exists s|].
  cbn in Hnd. apply NoDup_cons in Hnd as [Hnin Hnd].
  destruct (Hl (o, v) ltac:(by left)) as [Hv [p Hp]]. cbn [snd] in *. cbn [repoint_page]. rewrite Hp.
  set (p' := {| page_ptr := page_ptr p |}).
  destruct (release_ok (owed (fun _ => b) l) (put_page v p' s) (backing p))
    as (s1 & -> & I1 & Hm1 & Ht1 & Hmeta1 & Hsh1).
  { apply put_page_core; [|intros; apply owed_nonneg|done|by apply (Hpg (o, v) v p ltac:(by left))].
    eapply core_ext; [|exact I]. intros x _. apply (owed_cons (fun _ => b)). }
  { intros; apply owed_nonneg. }
  { intros Hne. destruct (vm_pages _ _ I v p Hp Hne) as (bk & Hbk & _). by exists bk. }
  cbn in Hm1. cbn [mbind option_bind]. destruct (IH s1) as (s' & -> & I' & Ht' & Hm' & Hmeta'); try done.
  - intros w Hw Hwm Hwl Hin. rewrite Hm1, lookup_insert_ne by (intros ->; done).
    injection Hmeta1 as _ Hpt Hn _ _ _ _. cbn in Hpt, Hn, Ht1. unfold page_table_slot. rewrite Ht1, Hpt, Hn in *.
    by apply Ht.
  - intros ov Hin. destruct (Hl ov ltac:(by right)) as [Hvs [q Hq]]. split; [done|].
    rewrite Hm1, lookup_insert. case_decide; by eexists.
  - intros ov w q Hin. rewrite Hm1, lookup_insert. case_decide; [intros [= <-]|intros Hq].
    + apply (page_ok_shape s); [done|]. exact (Hpg ov v p ltac:(by right) Hp).
    + apply (page_ok_shape s); [done|]. exact (Hpg ov w q ltac:(by right) Hq).
  - exists s'. split_and!; try done; [|by rewrite Hmeta'].
    rewrite Hm', Hm1. unfold rebound. cbn. f_equal. apply map_eq. intros w.
    rewrite lookup_insert, lookup_alter. case_decide; [subst; by rewrite Hp|done].
Qed.

(** The host's side: a fresh backing structure and a mapping away from every
    host page the guest can reach. *)
Record private_copy_host_ok (env : host_env) (s : vm) : Prop := {
  copy_fresh : calloc_backing env = 0 \/
    (backings s !! calloc_backing env = None /\ calloc_backing env ∉ given_up (epochs s));
  copy_range : forall n pm bytes,
    host_mmap env n (Z.lor PROT_READ PROT_WRITE) (Z.lor MAP_PRIVATE MAP_ANONYMOUS) (-1) 0 = inl (pm, bytes) ->
    forall v p k, memory s !! v = Some p -> addr p <= k < addr p + DYN_PAGE_SIZE -> ~ pm <= k < pm + n;
}.

Lemma private_copy_check_spec s size l :
  private_copy_check s size l = None -> forall ov, ov ∈ l -> is_Some (memory s !! snd ov).
Proof.
  induction l as [|[o v] l IH]; intros H ov Hin; [set_solver|]. cbn in H.
  destruct (memory s !! v) as [p|] eqn:E; [|done].
  apply elem_of_cons in Hin as [->|Hin]; [by eexists|]. apply IH; [|done]. by repeat case_match.
Qed.

Lemma host_protection_rw perms :
  has_all (Z.lor PROT_READ PROT_WRITE) (HostProtectionForGuestPermissions perms) = true.
Proof.
  unfold has_all, HostProtectionForGuestPermissions. apply Z.eqb_eq, Z.bits_inj'. intros i Hi.
  destruct (has_flag perms PROT_EXEC);
    rewrite ?Z.land_spec, ?Z.lor_spec, ?Z.land_spec, ?Z.lor_spec;
    by destruct (Z.testbit perms i), (Z.testbit PROT_READ i), (Z.testbit PROT_WRITE i).
Qed.

Lemma offset_addrs_elem address mapped o v :
  (o, v) ∈ offset_addrs address mapped <-> v = address + o /\ 0 <= o < mapped /\ o mod DYN_PAGE_SIZE = 0.
Proof.
  unfold offset_addrs. rewrite list_elem_of_fmap. split.
  - intros (w & [= -> ->] & [Hw Hm]%elem_of_page_addrs). split_and!; try done; lia.
  - intros (-> & Ho & Hm). exists (address + o). rewrite elem_of_page_addrs.
    replace (address + o - address) with o by lia. split_and!; try done; lia.
Qed.

Lemma offset_addrs_snd address mapped : (offset_addrs address mapped).*2 = page_addrs address (address + mapped).
Proof. unfold offset_addrs. rewrite <- list_fmap_compose. apply list_fmap_id. Qed.

Lemma offset_addrs_NoDup address mapped : NoDup (offset_addrs address mapped).*1.
Proof.
  unfold offset_addrs. rewrite <- list_fmap_compose. apply NoDup_fmap_2; [|apply NoDup_page_addrs].
  intros x y. cbn. lia.
Qed.

(** The loops of the commit, on lists of pairs. *)
Lemma unpublish_pairs l s :
  foldl (fun s (ov : Z * Z) => unpublish_page (snd ov) s) s l = foldl (fun s v => unpublish_page v s) s l.*2.
Proof. revert s. induction l; intros s; cbn; auto. Qed.

Lemma publish_pairs l s :
  foldl (fun s (ov : Z * Z) => publish_page (snd ov) s) s l = foldl (fun s v => publish_page v s) s l.*2.
Proof. revert s. induction l; intros s; cbn; auto. Qed.

Lemma page_fits o mapped :
  0 <= o < mapped -> o mod DYN_PAGE_SIZE = 0 -> mapped mod DYN_PAGE_SIZE = 0 -> o + DYN_PAGE_SIZE <= mapped.
Proof.
  intros Ho Hom Hmod. apply Z.mod_divide in Hom as [k ->]; [|done]. apply Z.mod_divide in Hmod as [j ->]; [|done].
  unfold DYN_PAGE_SIZE in *. lia.
Qed.

(** The rounded size covers the source, by less than one page. *)
Lemma mapped_size address size :
  0 <= address -> GuestAddressRangeIsValid32 address size = true -> 0 < size ->
  let mapped := page_base (size + DYN_PAGE_MASK) in
  0 < size <= mapped /\ mapped < U64_MOD /\
  (forall o, 0 <= o < mapped -> o mod DYN_PAGE_SIZE = 0 -> o < size) /\ mapped mod DYN_PAGE_SIZE = 0.
Proof.
  intros Ha Hv Hs mapped. unfold GuestAddressRangeIsValid32 in Hv. zb.
  assert (2 ^ 33 < U64_MOD) as H33 by done.
  assert (0 <= size + DYN_PAGE_MASK < U64_MOD) as Hr by (unfold DYN_PAGE_MASK; lia).
  pose proof (page_split _ Hr) as Hsp. pose proof (page_offset_range (size + DYN_PAGE_MASK)) as Hpo.
  pose proof (page_base_le _ Hr) as Hle. fold mapped in Hsp, Hle.
  assert (mapped mod DYN_PAGE_SIZE = 0) as Hmod.
  { unfold mapped. rewrite page_base_div by done. rewrite Z.mul_comm. by apply Z.mod_mul. }
  split; [unfold DYN_PAGE_SIZE, DYN_PAGE_MASK in *; lia|]. split; [lia|]. split; [|done].
  intros o Ho Hom. pose proof (page_fits o mapped Ho Hom Hmod). unfold DYN_PAGE_SIZE, DYN_PAGE_MASK in *. lia.
Qed.

(** The commit: whatever bytes the private mapping holds, the pages of the range
    move onto it. *)
Lemma private_copy_commit s address mapped pm b h :
  vm_ok s -> guestMemoryLookupGeneration s < UINT64_MAX -> b <> 0 ->
  backings s !! b = None -> b ∉ given_up (epochs s) ->
  0 < mapped < U64_MOD -> mapped mod DYN_PAGE_SIZE = 0 ->
  let pages := offset_addrs address mapped in
  (forall ov, ov ∈ pages -> is_Some (memory s !! snd ov)) ->
  let bk := {| backing_addr := pm; backing_size := mapped; references := Z.of_nat (length pages);
               hostProtection := Z.lor PROT_READ PROT_WRITE |} in
  let s1 := with_backings (<[b := bk]> (backings s)) (with_host h s) in
  exists s3, fold_opt (repoint_page pm b) pages
      (foldl (fun s ov => unpublish_page (snd ov) s) (InvalidateGuestMemoryLookupCaches s1) pages) = Some s3 /\
    let s4 := foldl (fun s ov => publish_page (snd ov) s) s3 pages in
    vm_ok s4 /\ memory s4 = rebound snd (repointed pm b) pages (memory s) /\ host s4 = h.
Proof.
  intros Hok Hg Hb0 Hb Hgu Hm Hmod pages Hmap bk s1.
  assert (Z.of_nat (length pages) = mapped / DYN_PAGE_SIZE) as Hlen.
  { unfold pages, offset_addrs. rewrite length_fmap. apply page_addrs_length; [lia|done]. }
  assert (0 < Z.of_nat (length pages) < U64_MOD) as Hn.
  { rewrite Hlen. apply Z.mod_divide in Hmod as [k ->]; [|done]. rewrite Z.div_mul by done.
    unfold DYN_PAGE_SIZE in *. lia. }
  rewrite unpublish_pairs.
  assert (forall v, v ∈ pages.*2 -> v mod DYN_PAGE_SIZE = 0) as Hal.
  { intros v Hv. apply list_elem_of_fmap in Hv as (ov & -> & Hin). destruct (Hmap ov Hin) as [p Hp].
    by apply (vm_keys _ _ (vm_is_core _ Hok) _ p). }
  destruct (unpublish_loop pages.*2 pages.*2 (InvalidateGuestMemoryLookupCaches s1)) as [Ht2 [t2 Et2]];
    [auto|apply table_ok_but_weaken, Hok|].
  set (s2 := foldl _ _ pages.*2) in *.
  destruct (repoint_loop pm b pages.*2 pages s2) as (s3 & Hf & I3 & Ht3 & Hm3 & Hmeta3).
  - eapply core_ext; [intros x _; symmetry; apply owed_const|]. rewrite Et2.
    apply (proj1 (core_table _ t2 _)), core_invalidate, new_backing_core; try done. apply Hok.
  - done.
  - intros ov Hin. split; [by apply list_elem_of_fmap; exists ov|]. rewrite Et2. by apply Hmap.
  - intros [o v] w p Hin _ _. exists bk. rewrite Et2. cbn. rewrite lookup_insert_eq.
    apply offset_addrs_elem in Hin as (_ & Ho & Hom). split_and!; [done|cbn; lia| |apply host_protection_rw].
    cbn. apply Z.mod_divide in Hom as [k ->]; [|done]. apply Z.mod_divide in Hmod as [j ->]; [|done].
    unfold DYN_PAGE_SIZE in *. lia.
  - unfold pages. rewrite offset_addrs_snd. apply NoDup_page_addrs.
  - exists s3. split; [done|]. rewrite publish_pairs.
    destruct (publish_loop pages.*2 s3 Hal Ht3) as [Ht4 [t4 Et4]]. set (s4 := foldl _ s3 pages.*2) in *.
    cbv zeta. split_and!.
    + apply (vm_ok_close (InvalidateGuestMemoryLookupCaches s1)); try done.
      * rewrite Et4. by apply (proj1 (core_table _ t4 _)).
      * rewrite Et4. change (meta s3 = meta (InvalidateGuestMemoryLookupCaches s1)). by rewrite Hmeta3, Et2.
      * apply invalidate_stale; [|done]. apply (cache_ok_ext s); try done. apply Hok.
    + rewrite Et4. cbn. rewrite Hm3, Et2. done.
    + rewrite Et4. cbn. injection Hmeta3 as _ _ _ _ _ -> _. by rewrite Et2.
Qed.

(** The private copy replaces contents, not identity.  A failed call
    changes nothing.  A successful one keeps every page of the range mapped with
    its permissions, moves it onto the private mapping, and gives it the source
    bytes, keeping the old bytes behind the end of the source in the last page;
    no host byte outside the private mapping is written, so pages that alias
    the old host memory keep their contents, and the invariant is kept. *)
Theorem private_copy_replaces env vectors_ok address source s :
  vm_ok s -> guestMemoryLookupGeneration s < UINT64_MAX -> 0 <= address < 2 ^ 32 ->
  private_copy_host_ok env s ->
  exists r s', ReplaceGuestMemoryRangeWithPrivateCopy env vectors_ok address source s = Some (r, s') /\
    vm_ok s' /\
    match r with
    | Errno e => s' = s
    | Ret v => v = 0 /\ exists pm mapped, 
        (forall w, (w < address \/ address + mapped <= w) -> memory s' !! w = memory s !! w) /\
        (forall k, ~ pm <= k < pm + mapped -> host_byte (host s') k = host_byte (host s) k) /\
        forall o j, 0 <= o < Z.of_nat (length source) -> o mod DYN_PAGE_SIZE = 0 -> 0 <= j < DYN_PAGE_SIZE ->
          exists p p', memory s !! (address + o) = Some p /\ memory s' !! (address + o) = Some p' /\
            perms p' = perms p /\ enforceDataPermissions p' = enforceDataPermissions p /\
            host_byte (host s') (addr p' + j) =
              match source !! Z.to_nat (o + j) with
              | Some x => x
              | None => host_byte (host s) (addr p + j)
              end
    end.
Proof.
  intros Hok Hg Ha [Hfresh Hrange]. unfold ReplaceGuestMemoryRangeWithPrivateCopy.
  set (size := Z.of_nat (length source)).
  destruct (size =? 0) eqn:E0; zb.
  { do 2 eexists. split; [done|]. split; [done|]. split; [done|]. exists 0, 0.
    split_and!; try done. intros; lia. }
  destruct (page_offset address =? 0) eqn:Eoff; cbn [negb orb]; [|do 2 eexists; by split_and!].
  destruct (GuestAddressRangeIsValid32 address size) eqn:Ev; cbn [negb]; [|do 2 eexists; by split_and!].
  destruct vectors_ok; cbn [negb]; [|do 2 eexists; by split_and!].
  destruct (memory_handle s =? 0); [do 2 eexists; by split_and!|].
  set (mapped := page_base (size + DYN_PAGE_MASK)). set (pages := offset_addrs address mapped).
  destruct (private_copy_check s size pages) eqn:Echk; [do 2 eexists; by split_and!|].
  destruct (host_mmap _ _ _ _ _ _) as [[pm bytes]|e] eqn:Emm; [|do 2 eexists; by split_and!].
  destruct (calloc_backing env =? 0) eqn:Eb; zb; [do 2 eexists; by split_and!|].
  destruct Hfresh as [?|[Hb Hgu]]; [lia|]. specialize (Hrange mapped pm bytes Emm).
  destruct (mapped_size address size ltac:(lia) Ev ltac:(lia)) as (Hm1 & Hm0 & Hm2 & Hmod).
  fold mapped in Hm1, Hm0, Hm2, Hmod.
  pose proof (private_copy_check_spec s size pages Echk) as Hmap.
  set (h := host_write _ pm source).
  destruct (private_copy_commit s address mapped pm (calloc_backing env) h Hok Hg Eb Hb Hgu ltac:(lia) Hmod Hmap)
    as (s3 & Hfold & Hok4 & Hm4 & Hh4).
  fold pages in Hfold, Hok4, Hm4, Hh4. cbv zeta in *. rewrite Hfold. cbn [mbind option_bind].
  do 2 eexists. split; [done|]. split; [done|]. split; [done|]. exists pm, mapped. rewrite Hm4, Hh4.
  assert (Forall (block_ok s size mapped) pages) as Hblocks.
  { apply Forall_forall. intros [o v] Hin. split; [|split; [|split]]; [| | |by apply Hmap];
      apply offset_addrs_elem in Hin as (-> & Ho & Hom); cbn; [|apply (page_fits o mapped); done..|done].
    split; [lia|]. by apply (Hm2 o). }
  split; [|split].
  - intros w Hw. apply rebound_lookup_ne. intros [o v] Hin. apply offset_addrs_elem in Hin. cbn. lia.
  - intros k Hk. unfold h. rewrite host_write_frame by (fold size; lia).
    apply (tails_frame s size pm mapped); [done|]. intros o v Hin. apply offset_addrs_elem in Hin as (_ & Ho & Hom).
    pose proof (page_fits o mapped Ho Hom Hmod). unfold in_block. lia.
  - intros o j Ho Hom Hj.
    assert (o < mapped) as Hlt by lia.
    assert ((o, address + o) ∈ pages) as Hin by (apply offset_addrs_elem; split_and!; try done; lia).
    destruct (Hmap _ Hin) as [p Hp]. cbn in Hp. exists p, (repointed pm (calloc_backing env) (o, address + o) p).
    split; [done|]. split.
    { pose proof (rebound_lookup snd (repointed pm (calloc_backing env)) pages (memory s) (o, address + o)) as Hlk.
      cbn [snd] in Hlk. rewrite Hlk, Hp; [done| |done]. unfold pages. rewrite offset_addrs_snd. apply NoDup_page_addrs. }
    split_and!; try done. cbn. unfold h. destruct (source !! Z.to_nat (o + j)) as [x|] eqn:Ex.
    + replace (pm + o + j) with (pm + Z.of_nat (Z.to_nat (o + j))) by lia. by apply host_write_byte.
    + apply lookup_ge_None in Ex. rewrite host_write_frame by (fold size; lia).
      apply (tails_preserved s size pm mapped Hrange pages _ o (address + o) p j);
        try done; [apply offset_addrs_NoDup|]. unfold replacement. destruct (_ <? _) eqn:E; zb; lia.
Qed.
