(* ===== verification/MemoryWitness.v ===== *)
(** A concrete address space on which the theorems about guest memory apply: two
    guest pages on one host mapping, the second one read-only, and a host that
    grants every request. *)

From S2P Require Import Prelude.
From S2P Require Import VmEpoch.
From S2P Require Import GuestMemory.
From S2P Require Import GuestRawMemory.
From S2P Require Import GuestMapping.
From S2P Require Import GuestReserve.
From S2P Require Import VmInvariant.
From S2P Require Import MappingProps.
From S2P Require Import RemapProps.
From S2P Require Import ProtectProps.
From S2P Require Import PrivateCopy.
From stdpp Require Import base gmap list fin_maps list_numbers.
From Stdlib Require Import ZArith Lia.
Open Scope Z_scope.

Definition demo_page1 : memory_page := {| page_ptr := 11; addr := 0x5000; perms := 3;
  enforceDataPermissions := false; backing := 21 |}.
Definition demo_page2 : memory_page := {| page_ptr := 12; addr := 0x6000; perms := 1;
  enforceDataPermissions := true; backing := 21 |}.
Definition demo_backing : memory_backing := {| backing_addr := 0x5000; backing_size := 0x2000;
  references := 2; hostProtection := 3 |}.

(** Two pages at 0x20000000 and 0x20001000; only the first is on the fast path. *)
Definition demo : vm := {|
  memory_handle := 1;
  memory := <[0x20000000 := demo_page1]> (<[0x20001000 := demo_page2]> ∅);
  page_table_present := true; num_page_table_entries := 2 ^ 20;
  page_table := {[0x20000 := 0x5000]};
  backings := {[21 := demo_backing]};
  guestMemoryLookupGeneration := 1; caches := ∅; epochs := VmEpoch.initial;
  host := {[0x5000 := 65; 0x5001 := 66; 0x6000 := 67]}; jitInvalidations := [] |}.

Definition demo_env : host_env := {|
  vector_reserve_ok := true; calloc_page := fun v => Z.abs v + 1; push_back_ok := fun _ => true;
  kh_put_ret := fun _ => 1; host_mmap := fun _ _ _ _ _ => inl (0x100000, []);
  host_vm_allocate := fun _ => inl 0x100000; calloc_backing := 31;
  host_mprotect := fun _ _ _ => None; host_page_size := 0x4000 |}.

Lemma demo_lookup v p :
  memory demo !! v = Some p ->
  (v = 0x20000000 /\ p = demo_page1) \/ (v = 0x20001000 /\ p = demo_page2).
Proof.
  cbn. rewrite !lookup_insert. repeat case_decide; subst; intros [= <-]; auto.
Qed.

Lemma demo_cache_ok : cache_ok demo.
Proof. by split. Qed.

Lemma demo_ok : vm_ok demo.
Proof.
  split; [split| |exact demo_cache_ok].
  - intros v p [[-> ->]|[-> ->]]%demo_lookup; done.
  - intros v p [[-> ->]|[-> ->]]%demo_lookup _; exists demo_backing; done.
  - intros b bk. cbn. rewrite lookup_singleton. case_decide; [|done].
    intros [= <-]. subst b. split; done.
  - intros v Hv Hm Hin. unfold page_table_slot. rewrite Hin.
    destruct (decide (v = 0x20000000)) as [->|H1]; [done|].
    destruct (decide (v = 0x20001000)) as [->|H2]; [done|].
    cbn. rewrite !lookup_insert_ne, lookup_empty, lookup_singleton_ne; try done.
    intros E. apply H1. by apply page_index_inj; [done|done|rewrite <- E].
Qed.

(** ** Permission-checked and raw access *)

Lemma lookup_cache_transparent_witness :
  fst (get_memory_page_with_permissions 7 demo 0x20000010 PROT_READ) = 0x5000 /\
  with_caches ∅ (snd (get_memory_page_with_permissions 7 demo 0x20000010 PROT_READ)) = demo.
Proof.
  destruct (lookup_cache_transparent 7 demo 0x20000010 PROT_READ demo_cache_ok) as (-> & H & _).
  split; [reflexivity|exact H].
Defined.

Lemma read_refines_bytes_witness :
  fst (read_guest_memory_with_permissions 7 demo 0x20000fff 2 PROT_READ) = Some [0; 67].
Proof.
  rewrite (read_refines_bytes 7 demo 0x20000fff 2 PROT_READ demo_cache_ok ltac:(lia) ltac:(lia)).
  vm_compute. reflexivity.
Defined.

(** A store across the boundary into the read-only page fails as a whole. *)
Lemma write_atomic_witness :
  fst (write_guest_memory_with_permissions 7 demo 0x20000fff [1; 2] PROT_WRITE) = false /\
  with_caches ∅ (snd (write_guest_memory_with_permissions 7 demo 0x20000fff [1; 2] PROT_WRITE)) = demo.
Proof.
  split; [vm_compute; reflexivity|].
  apply (write_atomic 7 demo 0x20000fff [1; 2] PROT_WRITE demo_cache_ok); [lia|vm_compute; reflexivity].
Defined.

Lemma write_read_roundtrip_witness :
  exists s', write_guest_memory_with_permissions 7 demo 0x20000000 [1; 2] PROT_WRITE = (true, s') /\
    fst (read_guest_memory_with_permissions 8 s' 0x20000000 2 PROT_READ) = Some [1; 2].
Proof.
  eexists. split; [vm_compute; reflexivity|].
  eapply (write_read_roundtrip 7 8 demo 0x20000000 [1; 2] PROT_WRITE PROT_READ _ [0x5000; 0x5001]).
  - exact demo_cache_ok.
  - lia.
  - vm_compute. reflexivity.
  - vm_compute. reflexivity.
  - apply NoDup_cons. split; [set_solver|apply NoDup_singleton].
  - vm_compute. reflexivity.
Defined.

Lemma vm_copy_snapshot_witness :
  fst (CopyGuestVmMemory true 7 demo 0x20000000 0x20000001 2) = KERN_SUCCESS /\
  (let '(r, s') := CopyGuestVmMemory true 7 demo 0x20000000 0x20000001 2 in r <> KERN_FAILURE).
Proof.
  split; [vm_compute; reflexivity|].
  pose proof (vm_copy_snapshot true 7 demo 0x20000000 0x20000001 2 demo_cache_ok
    ltac:(lia) ltac:(lia) ltac:(lia)) as H.
  destruct (CopyGuestVmMemory true 7 demo 0x20000000 0x20000001 2) as [r s']. apply H.
Defined.

Lemma raw_access_bytes_witness : Dynarmic_mem_1read demo 0x20000fff 2 true = Some [0; 67].
Proof.
  destruct (raw_access_bytes demo 0x20000fff 2 [1; 2]) as [-> _]; [lia|lia|reflexivity|reflexivity|vm_compute; reflexivity].
Defined.

(** ** Mapping *)

Lemma reserve_failure_unchanged_witness :
  Dynarmic_mem_reserve {| vector_reserve_ok := true; calloc_page := fun v => if v =? 0x30001000 then 0 else v;
      push_back_ok := fun _ => true; kh_put_ret := fun _ => 1; host_mmap := fun _ _ _ _ _ => inr ENOMEM;
      host_vm_allocate := fun _ => inr 3; calloc_backing := 0; host_mprotect := fun _ _ _ => None;
      host_page_size := 0x4000 |} 0x30000000 0x2000 true DYN_PAGE_MASK demo = Some (inl ENOMEM, demo).
Proof.
  set (env := {| vector_reserve_ok := true |}).
  destruct (reserve_failure_unchanged env 0x30000000 0x2000 true DYN_PAGE_MASK demo)
    as (r & s' & E & H); [lia|lia|done|].
  assert (fst <$> Dynarmic_mem_reserve env 0x30000000 0x2000 true DYN_PAGE_MASK demo = Some (inl ENOMEM)) as Hr
    by (vm_compute; reflexivity).
  rewrite E in Hr |- *. cbn in Hr. injection Hr as ->. by rewrite (H ENOMEM).
Defined.

Lemma page_mask_ok : mask_ok DYN_PAGE_MASK.
Proof. exists 12. done. Qed.

Lemma reserve_first_fit_witness :
  exists s' rs, Dynarmic_mem_reserve demo_env 0x20000000 0x1000 false DYN_PAGE_MASK demo
    = Some (inr (0x20002000, rs), s') /\ candidate (memory demo) 0x1000 DYN_PAGE_MASK 0x20002000.
Proof.
  destruct (reserve_first_fit demo_env 0x20000000 0x1000 DYN_PAGE_MASK demo)
    as (r & s' & E & H);
    [lia|lia|reflexivity|exact page_mask_ok|reflexivity|intros v; cbn; split; [lia|split; [done|lia]]|].
  assert (fst <$> Dynarmic_mem_reserve demo_env 0x20000000 0x1000 false DYN_PAGE_MASK demo =
    Some (inr (0x20002000, [{| reserved_address := 0x20002000; reserved_page := 0x20002001 |}]))) as Hr
    by (vm_compute; reflexivity).
  rewrite E in Hr |- *. cbn in Hr. injection Hr as ->. eexists _, _. split; [done|]. apply H.
Defined.

Lemma munmap_correct_witness :
  fst <$> Dynarmic_munmap 0x20000000 0x1000 demo = Some (Ret 0) /\
  exists r s', Dynarmic_munmap 0x20000000 0x1000 demo = Some (r, s') /\ vm_ok s'.
Proof.
  split; [vm_compute; reflexivity|].
  destruct (munmap_correct 0x20000000 0x1000 demo demo_ok) as (r & s' & E & H & _); [reflexivity|lia|by split|]. eauto.
Defined.

Lemma demo_host_ok : mmap_host_ok demo_env demo 3 0x2000 (Z.lor MAP_PRIVATE MAP_ANONYMOUS) (-1) 0 false.
Proof.
  split; [right; split; [done|set_solver]|done|done|]. intros a bytes. cbn. intros [= <- <-]. done.
Qed.

Lemma mmap_correct_witness :
  fst <$> Dynarmic_mmap demo_env 0 0x2000 3 (Z.lor MAP_PRIVATE MAP_ANONYMOUS) (-1) 0 DYN_PAGE_MASK false demo
    = Some (Ret 0x10000000) /\
  exists r s', Dynarmic_mmap demo_env 0 0x2000 3 (Z.lor MAP_PRIVATE MAP_ANONYMOUS) (-1) 0 DYN_PAGE_MASK false demo
    = Some (r, s') /\ vm_ok s'.
Proof.
  split; [vm_compute; reflexivity|].
  destruct (mmap_correct demo_env 0 0x2000 3 (Z.lor MAP_PRIVATE MAP_ANONYMOUS) (-1) 0 DYN_PAGE_MASK false demo demo_ok)
    as (r & s' & E & H & _); [reflexivity|lia|lia|done|exact demo_host_ok|]. eauto.
Defined.

Lemma direct_mmap_correct_witness :
  fst <$> Dynarmic_direct_mmap demo_env 0x40000000 0x1000 1 MAP_FIXED 0x700000 0x10 demo = Some (Ret 0x40000000) /\
  exists r s', Dynarmic_direct_mmap demo_env 0x40000000 0x1000 1 MAP_FIXED 0x700000 0x10 demo = Some (r, s') /\ vm_ok s'.
Proof.
  split; [vm_compute; reflexivity|].
  destruct (direct_mmap_correct demo_env 0x40000000 0x1000 1 MAP_FIXED 0x700000 0x10 demo demo_ok)
    as (r & s' & E & H & _); [reflexivity|lia..|]. eauto.
Defined.

Lemma vm_remap_aliases_witness :
  (fst <$> Dynarmic_vm_remap demo_env true 0x20001000 0x1000 0 VM_FLAGS_OVERWRITE 0x20000000 false demo)
    = Some (KERN_SUCCESS, Some (0x20001000, 3)) /\
  exists k out s', Dynarmic_vm_remap demo_env true 0x20001000 0x1000 0 VM_FLAGS_OVERWRITE 0x20000000 false demo
    = Some (k, out, s') /\ vm_ok s'.
Proof.
  split; [vm_compute; reflexivity|].
  destruct (vm_remap_aliases demo_env true 0x20001000 0x1000 0 VM_FLAGS_OVERWRITE 0x20000000 false demo demo_ok)
    as (k & out & s' & E & H & _); [reflexivity|lia..|]. eauto.
Defined.

Lemma mprotect_all_or_nothing_witness :
  fst <$> Dynarmic_mprotect demo_env true 0x20000000 0x2000 1 demo = Some (Ret 0) /\
  exists r s', Dynarmic_mprotect demo_env true 0x20000000 0x2000 1 demo = Some (r, s') /\ vm_ok s'.
Proof.
  split; [vm_compute; reflexivity|].
  destruct (mprotect_all_or_nothing demo_env true 0x20000000 0x2000 1 demo demo_ok)
    as (r & s' & E & H & _); [reflexivity|lia..|]. eauto.
Defined.

Lemma demo_copy_ok : private_copy_host_ok demo_env demo.
Proof.
  split; [right; split; [done|set_solver]|]. intros n pm bytes [= <- <-] v p k Hp Hk.
  apply demo_lookup in Hp as [[-> ->]|[-> ->]]; unfold DYN_PAGE_SIZE in Hk; cbn in Hk; lia.
Qed.

Lemma private_copy_replaces_witness :
  fst <$> ReplaceGuestMemoryRangeWithPrivateCopy demo_env true 0x20000000 [1; 2; 3] demo = Some (Ret 0) /\
  exists r s', ReplaceGuestMemoryRangeWithPrivateCopy demo_env true 0x20000000 [1; 2; 3] demo = Some (r, s') /\
    vm_ok s'.
Proof.
  split; [vm_compute; reflexivity|].
  destruct (private_copy_replaces demo_env true 0x20000000 [1; 2; 3] demo demo_ok)
    as (r & s' & E & H & _); [reflexivity|lia|exact demo_copy_ok|]. eauto.
Defined.
