(* ===== verification/TimerQueue.v ===== *)
(** The native timer queue (src/HostFrameworks/LC32/guest_timer_queue.cpp) and
    its workqueue front end (guest_timers.cpp).

    Guest EVFILT_TIMER registrations are kept as native kqueue timers with
    private identifiers.  A waiter thread collects expirations into the
    registration they belong to; the workqueue takes them from there.  Rearming
    keeps the identifier and changes the generation token, so an expiration
    that was already on its way when the guest rearmed is recognised as stale.

    The kernel is a parameter: what kevent64 answers to a change, and what it
    returns to the waiter, are arguments of the operations.  So is the iteration
    order of [std::unordered_map] ([IterationOrder]). *)

From S2P Require Import Prelude.
From stdpp Require Import base gmap list fin_maps list_numbers.
From Stdlib Require Import ZArith Lia.
Open Scope Z_scope.

Module TimerQueue.

Definition EV_ADD : Z := 0x1.
Definition EV_DELETE : Z := 0x2.
Definition EV_ENABLE : Z := 0x4.
Definition EV_DISABLE : Z := 0x8.
Definition EV_ONESHOT : Z := 0x10.
Definition EV_RECEIPT : Z := 0x40.
Definition EV_UDATA_SPECIFIC : Z := 0x100.
Definition EV_ERROR : Z := 0x4000.
Definition EVFILT_TIMER : Z := -7.
Definition NOTE_ABSOLUTE : Z := 0x8.
Definition PTHREAD_PRIORITY_EVENT_MANAGER_FLAG : Z := 0x02000000.

(** Narrowing to [int]. *)
Definition i32 (z : Z) : Z := (z + 2 ^ 31) mod 2 ^ 32 - 2 ^ 31.

(** [struct guest_kevent_qos_s] (mach_private.h). *)
Record guest_kevent_qos_s := {
  g_ident : Z; g_filter : Z; g_flags : Z; g_qos : Z; g_udata : Z;
  g_fflags : Z; g_xflags : Z; g_data : Z; g_ext : list Z;
}.

(** The host's [struct kevent64_s]. *)
Record kevent64_s := {
  ident : Z; filter_ : Z; flags : Z; fflags : Z; data : Z; udata : Z; ext0 : Z; ext1 : Z;
}.

Definition kevent_zero : kevent64_s := {| ident := 0; filter_ := 0; flags := 0; fflags := 0;
  data := 0; udata := 0; ext0 := 0; ext1 := 0 |}.

(** [Impl::Timer]. *)
Record Timer := {
  guest : guest_kevent_qos_s;
  generation : Z;
  readyEvent : kevent64_s;
  pending : bool;
  enabled : bool;
  oneShot : bool;
}.

Definition guest_zero : guest_kevent_qos_s := {| g_ident := 0; g_filter := 0; g_flags := 0;
  g_qos := 0; g_udata := 0; g_fflags := 0; g_xflags := 0; g_data := 0; g_ext := [0; 0; 0; 0] |}.

Definition new_timer : Timer := {| guest := guest_zero; generation := 0; readyEvent := kevent_zero;
  pending := false; enabled := true; oneShot := false |}.

(** [Impl]: the part behind [mutex]. *)
Record queue := {
  error : Z;
  stopping : bool;
  started : bool;
  nextIdent : Z;
  timers : gmap Z Timer;
}.

Definition with_timers m q := {| error := error q; stopping := stopping q; started := started q;
  nextIdent := nextIdent q; timers := m |}.
Definition with_nextIdent n q := {| error := error q; stopping := stopping q; started := started q;
  nextIdent := n; timers := timers q |}.
Definition with_error e q := {| error := e; stopping := stopping q; started := started q;
  nextIdent := nextIdent q; timers := timers q |}.
Definition with_started b q := {| error := error q; stopping := stopping q; started := b;
  nextIdent := nextIdent q; timers := timers q |}.

(** The order in which [std::unordered_map] iterates: some enumeration of the
    entries. *)
Class IterationOrder := {
  iter : gmap Z Timer -> list (Z * Timer);
  iter_perm : forall m, iter m ≡ₚ map_to_list m;
}.

(** What the kernel answers to one change. *)
Inductive kevent_result := KFailed (errno : Z) | KReturned (count : Z) (receipt : kevent64_s).

(** The host during [Apply]: whether the map could grow, and the kernel. *)
Record apply_host := { emplace_ok : bool; kevent64 : kevent64_s -> kevent_result }.

(** ** The waiter *)

(** Accumulation of expirations not yet delivered. *)
Definition accumulate (previous new : Z) : Z :=
  if (0 <? previous) && (0 <? new) && (INT64_MAX - new <? previous) then INT64_MAX
  else previous + new.

Definition with_data (d : Z) (e : kevent64_s) : kevent64_s :=
  {| ident := ident e; filter_ := filter_ e; flags := flags e; fflags := fflags e;
     data := d; udata := udata e; ext0 := ext0 e; ext1 := ext1 e |}.

Definition receive (event : kevent64_s) (t : Timer) : Timer :=
  {| guest := guest t; generation := generation t;
     readyEvent := if pending t && negb (has_flag (flags event) EV_ERROR)
                   then with_data (accumulate (data (readyEvent t)) (data event)) event
                   else event;
     pending := true; enabled := enabled t; oneShot := oneShot t |}.

(** One iteration of the collection loop: timers and [notify]. *)
Definition collect_event (st : gmap Z Timer * bool) (event : kevent64_s) : gmap Z Timer * bool :=
  let '(m, notify) := st in
  if negb (filter_ event =? EVFILT_TIMER) then st else
  match m !! ident event with
  | None => st
  | Some t =>
      if negb (udata event =? generation t) then st
      else (<[ident event := receive event t]> m, notify || enabled t)
  end.

Definition deliverable (t : Timer) : bool := pending t && enabled t.

(** What [kevent64] returned to the waiter. *)
Inductive wait_result := WaitFailed (errno : Z) | WaitEvents (events : list kevent64_s).

(** What the waiter does next. *)
Inductive waiter := Continue (notify : bool) | Exit.

(** One round of [Impl::Run]. *)
Definition Run `{IterationOrder} (w : wait_result) (q : queue) : waiter * queue :=
  if match w with WaitFailed e => e =? EINTR | _ => false end then (Continue false, q) else
  if stopping q then (Exit, q) else
  match w with
  | WaitFailed e => (Exit, with_error e q)
  | WaitEvents events =>
      let '(m, notify) := foldl collect_event (timers q, false) events in
      (Continue (if negb notify then existsb (fun e => deliverable (snd e)) (iter m) else notify),
       with_timers m q)
  end.

(** ** Changes *)

Definition same_key (old change : guest_kevent_qos_s) : bool :=
  (g_ident old =? g_ident change) &&
  (negb (has_flag (Z.lor (g_flags old) (g_flags change)) EV_UDATA_SPECIFIC) ||
   (g_udata old =? g_udata change)).

Definition find_timer `{IterationOrder} (m : gmap Z Timer) (change : guest_kevent_qos_s)
    : option (Z * Timer) :=
  List.find (fun e => same_key (guest (snd e)) change) (iter m).

(** The native registration sent for a change. *)
Definition native_event (key gen : Z) (change : guest_kevent_qos_s) : kevent64_s :=
  {| ident := key; filter_ := EVFILT_TIMER;
     flags := Z.lor (Z.land (g_flags change) (Z.lnot EV_UDATA_SPECIFIC)) EV_RECEIPT;
     fflags := g_fflags change; data := g_data change; udata := gen;
     ext0 := nth 0 (g_ext change) 0; ext1 := nth 1 (g_ext change) 0 |}.

Definition receipt_error (r : kevent_result) : Z :=
  match r with
  | KFailed e => e
  | KReturned count receipt =>
      if negb (count =? 1) || negb (has_flag (flags receipt) EV_ERROR) then EIO
      else i32 (data receipt)
  end.

(** The timer after an accepted change. *)
Definition changed_timer (change : guest_kevent_qos_s) (gen : Z) (t : Timer) : Timer :=
  if has_flag (g_flags change) EV_ADD then
    {| guest := change; generation := gen; readyEvent := readyEvent t; pending := false;
       enabled := negb (has_flag (g_flags change) EV_DISABLE);
       oneShot := has_flag (g_flags change) EV_ONESHOT || has_flag (g_fflags change) NOTE_ABSOLUTE |}
  else
    {| guest := guest t; generation := gen; readyEvent := readyEvent t; pending := pending t;
       enabled := if has_flag (g_flags change) EV_DISABLE then false
                  else if has_flag (g_flags change) EV_ENABLE then true else enabled t;
       oneShot := oneShot t |}.

(** The part of [Apply] behind the lookup: [key] names the entry [t], which
    [inserted] says is new.  The third result is the wakeup poke. *)
Definition apply_found (h : apply_host) (change : guest_kevent_qos_s) (key : Z) (t : Timer)
    (inserted : bool) (q : queue) : Z * queue * bool :=
  let erased := with_timers (delete key (timers q)) q in
  let dropped := if inserted then erased else q in
  if has_flag (g_flags change) EV_ADD && (generation t =? UINT64_MAX)
  then (EOVERFLOW, dropped, false) else
  let gen := generation t + (if has_flag (g_flags change) EV_ADD then 1 else 0) in
  let e0 := receipt_error (kevent64 h (native_event key gen change)) in
  let e := if (e0 =? ENOENT) && negb inserted && oneShot t && negb (has_flag (g_flags change) EV_ADD)
           then 0 else e0 in
  if negb (e =? 0) then (e, dropped, false) else
  if has_flag (g_flags change) EV_DELETE then (0, erased, false) else
  let t' := changed_timer change gen t in
  (0, with_timers (<[key := t']> (timers q)) q, deliverable t').

(** [LC32GuestTimerQueue::Apply]. *)
Definition Apply `{IterationOrder} (h : apply_host) (change : guest_kevent_qos_s) (q : queue)
    : Z * queue * bool :=
  if negb (g_filter change =? EVFILT_TIMER) then (EINVAL, q, false) else
  if stopping q then (ECANCELED, q, false) else
  if negb (error q =? 0) then (error q, q, false) else
  match find_timer (timers q) change with
  | Some (key, t) => apply_found h change key t false q
  | None =>
      if negb (has_flag (g_flags change) EV_ADD) || has_flag (g_flags change) EV_DELETE
      then (ENOENT, q, false) else
      if 4096 <=? Z.of_nat (size (timers q)) then (ENOSPC, q, false) else
      if nextIdent q =? 0 then (EOVERFLOW, q, false) else
      let key := nextIdent q in
      let q1 := with_nextIdent (u64 (nextIdent q + 1)) q in
      if negb (emplace_ok h) then (ENOMEM, q1, false) else
      apply_found h change key new_timer true (with_timers (<[key := new_timer]> (timers q1)) q1)
  end.

(** ** Delivery *)

Definition eligible (excluded required : Z) (t : Timer) : bool :=
  pending t && enabled t && negb (has_flag (u32 (g_qos (guest t))) excluded) &&
  (Z.land (u32 (g_qos (guest t))) required =? required).

(** The event handed to the guest. *)
Definition delivered_event (t : Timer) : guest_kevent_qos_s :=
  {| g_ident := g_ident (guest t); g_filter := g_filter (guest t);
     g_flags := Z.lor (Z.land (flags (readyEvent t)) (Z.lnot EV_RECEIPT))
                      (Z.land (g_flags (guest t)) EV_UDATA_SPECIFIC);
     g_qos := g_qos (guest t); g_udata := g_udata (guest t);
     g_fflags := fflags (readyEvent t); g_xflags := g_xflags (guest t);
     g_data := data (readyEvent t);
     g_ext := ext0 (readyEvent t) :: ext1 (readyEvent t) :: drop 2 (g_ext (guest t)) |}.

Definition with_pending (b : bool) (t : Timer) : Timer :=
  {| guest := guest t; generation := generation t; readyEvent := readyEvent t; pending := b;
     enabled := enabled t; oneShot := oneShot t |}.

(** [LC32GuestTimerQueue::Take]. *)
Definition Take `{IterationOrder} (excluded required : Z) (q : queue)
    : option guest_kevent_qos_s * queue :=
  if stopping q then (None, q) else
  match List.find (fun e => eligible excluded required (snd e)) (iter (timers q)) with
  | None => (None, q)
  | Some (key, t) =>
      (Some (delivered_event t),
       with_timers (if oneShot t then delete key (timers q)
                    else <[key := with_pending false t]> (timers q)) q)
  end.

(** ** Life cycle *)

(** [LC32GuestTimerQueue::RequestStop]; the second result is the wakeup poke. *)
Definition RequestStop (q : queue) : queue * bool :=
  if stopping q then (q, false)
  else ({| error := error q; stopping := true; started := started q; nextIdent := nextIdent q;
           timers := ∅ |}, true).

(** [LC32GuestTimerQueue::Stop]; [None] is [std::terminate] after a failed join. *)
Definition Stop (join_ok : bool) (q : queue) : option queue :=
  let q1 := fst (RequestStop q) in
  if started q1 then if join_ok then Some (with_started false q1) else None else Some q1.

(** The host during [Create]: allocations, [kqueue()], the wakeup registration
    and [pthread_create] (errno, 0 on success). *)
Record create_host := { new_impl_ok : bool; kqueue_errno : Z; wake_errno : Z;
  new_queue_ok : bool; pthread_create_error : Z }.

(** [LC32GuestTimerQueue::Create]: the queue, or the error. *)
Definition Create (h : create_host) : queue + Z :=
  if negb (new_impl_ok h) then inr ENOMEM else
  if negb (kqueue_errno h =? 0) then inr (kqueue_errno h) else
  if negb (wake_errno h =? 0) then inr (wake_errno h) else
  if negb (new_queue_ok h) then inr ENOMEM else
  if negb (pthread_create_error h =? 0) then inr (pthread_create_error h) else
  inl {| error := 0; stopping := false; started := true; nextIdent := 1; timers := ∅ |}.

(** ** The workqueue front end (guest_timers.cpp) *)

(** [timerQueue]; [Stopping()] is an argument. *)
Definition front := option queue.

(** [ApplyGuestWorkqueueTimerChange]. *)
Definition ApplyGuestWorkqueueTimerChange `{IterationOrder} (stop : bool) (c : create_host)
    (h : apply_host) (change : guest_kevent_qos_s) (f : front) : Z * front :=
  if stop then (ECANCELED, f) else
  let apply q :=
    let '(e, q', _) := Apply h change q in
    (if (e =? ENOENT) && has_flag (g_flags change) EV_DELETE then 0 else e, Some q') in
  match f with
  | Some q => apply q
  | None =>
      if negb (has_flag (g_flags change) EV_ADD) || has_flag (g_flags change) EV_DELETE
      then (0, None)
      else match Create c with
           | inr e => (e, None)
           | inl q => apply q
           end
  end.

(** [NextGuestWorkqueueTimerEvent]: the event and [eventManager]. *)
Definition NextGuestWorkqueueTimerEvent `{IterationOrder} (stop allowEventManager allowOrdinary : bool)
    (f : front) : option (guest_kevent_qos_s * bool) * front :=
  if negb allowEventManager && negb allowOrdinary then (None, f) else
  match f with
  | None => (None, f)
  | Some q =>
      if stop then (None, f) else
      let '(e, q') := Take (if allowEventManager then 0 else PTHREAD_PRIORITY_EVENT_MANAGER_FLAG)
                           (if allowOrdinary then 0 else PTHREAD_PRIORITY_EVENT_MANAGER_FLAG) q in
      ((fun ev => (ev, has_flag (u32 (g_qos ev)) PTHREAD_PRIORITY_EVENT_MANAGER_FLAG)) <$> e, Some q')
  end.

(** [RequestGuestWorkqueueTimersStop] and [StopGuestWorkqueueTimers]. *)
Definition RequestGuestWorkqueueTimersStop (f : front) : front := (fun q => fst (RequestStop q)) <$> f.

Definition StopGuestWorkqueueTimers (join_ok : bool) (f : front) : option front :=
  match f with
  | None => Some None
  | Some q => match Stop join_ok q with Some _ => Some None | None => None end
  end.

(** ** Runs *)

(** The operations other threads and the waiter may interleave in any order. *)
Inductive op :=
  | DoApply (h : apply_host) (change : guest_kevent_qos_s)
  | DoTake (excluded required : Z)
  | DoRun (w : wait_result)
  | DoStop.

Definition step_op `{IterationOrder} (q : queue) (o : op) : queue :=
  match o with
  | DoApply h change => snd (fst (Apply h change q))
  | DoTake excluded required => snd (Take excluded required q)
  | DoRun w => snd (Run w q)
  | DoStop => fst (RequestStop q)
  end.

Definition run `{IterationOrder} (ops : list op) (q : queue) : queue := foldl step_op q ops.

(** ** The invariant *)

(** Private identifiers below the next one; the counter wraps to zero once. *)
Definition ident_used (q : queue) (k : Z) : Prop :=
  0 < k < U64_MOD /\ (nextIdent q = 0 \/ k < nextIdent q).

(** A stored registration: a positive generation, and a pending expiration
    that carries this very token. *)
Record timer_ok (k : Z) (t : Timer) : Prop := {
  timer_generation : 0 < generation t <= UINT64_MAX;
  timer_pending : pending t = true -> ident (readyEvent t) = k /\ udata (readyEvent t) = generation t;
  timer_filter : g_filter (guest t) = EVFILT_TIMER;
}.

Record queue_ok (q : queue) : Prop := {
  queue_size : Z.of_nat (size (timers q)) <= 4096;
  queue_next : 0 <= nextIdent q < U64_MOD;
  queue_idents : forall k t, timers q !! k = Some t -> ident_used q k;
  queue_timers : forall k t, timers q !! k = Some t -> timer_ok k t;
  queue_stopped : stopping q = true -> timers q = ∅;
}.

Section props.
Context `{IterationOrder}.

Lemma iter_elem m k t : (k, t) ∈ iter m <-> m !! k = Some t.
Proof. rewrite iter_perm. apply elem_of_map_to_list. Qed.

Lemma find_timer_Some m change k t :
  find_timer m change = Some (k, t) -> m !! k = Some t /\ same_key (guest t) change = true.
Proof.
  unfold find_timer. intros Hf%List.find_some. destruct Hf as [Hin Hk]. split; [|done].
  apply iter_elem. by apply list_elem_of_In.
Qed.

Lemma find_timer_None m change k t :
  find_timer m change = None -> m !! k = Some t -> same_key (guest t) change = false.
Proof.
  unfold find_timer. intros Hf Hk. apply (List.find_none _ _ Hf (k, t)).
  apply list_elem_of_In. by apply iter_elem.
Qed.

(** Storing under a used identifier. *)
Lemma queue_ok_insert q k t t0 :
  queue_ok q -> stopping q = false -> timers q !! k = Some t0 -> timer_ok k t ->
  queue_ok (with_timers (<[k := t]> (timers q)) q).
Proof.
  intros [H1 H2 H3 H4 H5] Hs Hk Ht. split; cbn; [| done | | |congruence].
  - rewrite map_size_insert_Some; [done|by eexists].
  - intros k' t'. rewrite lookup_insert. case_decide; [intros; subst; by eapply H3|apply H3].
  - intros k' t'. rewrite lookup_insert. case_decide; [by intros [= <-]; subst|apply H4].
Qed.

Lemma queue_ok_delete q k : queue_ok q -> queue_ok (with_timers (delete k (timers q)) q).
Proof.
  intros [H1 H2 H3 H4 H5]. split; cbn; [| done | | |].
  - destruct (timers q !! k) as [t|] eqn:E; [|by rewrite delete_id].
    rewrite map_size_delete_Some by (by eexists). lia.
  - intros k' t' [_ Hk]%lookup_delete_Some. by eapply H3.
  - intros k' t' [_ Hk]%lookup_delete_Some. by apply H4.
  - intros Hs. by rewrite (H5 Hs), delete_empty.
Qed.

(** ** Collection *)

Definition token_matches (m : gmap Z Timer) (e : kevent64_s) : Prop :=
  filter_ e = EVFILT_TIMER /\ exists t, m !! ident e = Some t /\ udata e = generation t.

Lemma collect_event_miss m n e : ~ token_matches m e -> collect_event (m, n) e = (m, n).
Proof.
  intros Hm. unfold collect_event. destruct (filter_ e =? EVFILT_TIMER) eqn:E; [|done]. zb. cbn [negb].
  destruct (m !! ident e) as [t|] eqn:El; [|done].
  destruct (udata e =? generation t) eqn:Eu; [|done]. zb. destruct Hm. split; [done|]. by exists t.
Qed.

Lemma collect_event_hit m n e t :
  filter_ e = EVFILT_TIMER -> m !! ident e = Some t -> udata e = generation t ->
  collect_event (m, n) e = (<[ident e := receive e t]> m, n || enabled t).
Proof.
  intros Hf Hl Hu. unfold collect_event. rewrite Hf, Z.eqb_refl, Hl, Hu, Z.eqb_refl. done.
Qed.

Lemma token_matches_dec m e : token_matches m e \/ ~ token_matches m e.
Proof.
  unfold token_matches. destruct (decide (filter_ e = EVFILT_TIMER)) as [Hf|]; [|tauto].
  destruct (m !! ident e) as [t|] eqn:El; [|right; intros (_ & t & ? & _); congruence].
  destruct (decide (udata e = generation t)); [left; eauto|right; intros (_ & t' & [= <-] & ?); done].
Qed.

Lemma collect_ok q e n :
  queue_ok q -> stopping q = false -> queue_ok (with_timers (fst (collect_event (timers q, n) e)) q).
Proof.
  intros Hq Hs. destruct (token_matches_dec (timers q) e) as [(Hf & t & Hl & Hu)|Hm].
  - rewrite (collect_event_hit _ n e t) by done. cbn. apply (queue_ok_insert q _ _ t); try done.
    destruct (queue_timers _ Hq _ _ Hl). split; try done. cbn. intros _.
    destruct (pending t && _)%bool; cbn; done.
  - rewrite collect_event_miss by done. cbn. by destruct q.
Qed.

Lemma collect_loop_ok es : forall q n,
  queue_ok q -> stopping q = false ->
  queue_ok (with_timers (fst (foldl collect_event (timers q, n) es)) q).
Proof.
  induction es as [|e es IH]; intros q n Hq Hs; cbn [foldl]; [by destruct q|].
  pose proof (collect_ok q e n Hq Hs) as Hq1.
  destruct (collect_event (timers q, n) e) as [m n']. cbn in Hq1.
  exact (IH (with_timers m q) n' Hq1 Hs).
Qed.

(** ** Changes *)

(** The generation a change asks for. *)
Definition next_generation (change : guest_kevent_qos_s) (t : Timer) : Z :=
  generation t + (if has_flag (g_flags change) EV_ADD then 1 else 0).

(** The three ways [apply_found] ends: refused, deleted, stored. *)
Inductive applied (change : guest_kevent_qos_s) (key : Z) (t : Timer) (inserted : bool) (q : queue)
    : Z * queue * bool -> Prop :=
  | Refused e : e <> 0 -> applied change key t inserted q
      (e, if inserted then with_timers (delete key (timers q)) q else q, false)
  | Deleted : has_flag (g_flags change) EV_DELETE = true -> applied change key t inserted q
      (0, with_timers (delete key (timers q)) q, false)
  | Stored : has_flag (g_flags change) EV_DELETE = false ->
      (has_flag (g_flags change) EV_ADD = true -> generation t <> UINT64_MAX) ->
      applied change key t inserted q
      (0, with_timers (<[key := changed_timer change (next_generation change t) t]> (timers q)) q,
       deliverable (changed_timer change (next_generation change t) t)).

Lemma apply_found_spec h change key t inserted q :
  applied change key t inserted q (apply_found h change key t inserted q).
Proof.
  unfold apply_found.
  destruct (has_flag (g_flags change) EV_ADD && (generation t =? UINT64_MAX))%bool eqn:Eg;
    [by apply Refused|].
  fold (next_generation change t).
  match goal with |- context [negb (?x =? 0)] => destruct (x =? 0) eqn:Ee end; cbn [negb]; zb; [|by apply Refused].
  destruct (has_flag (g_flags change) EV_DELETE) eqn:Ed; [by apply Deleted|].
  apply Stored; [done|]. intros Ha. rewrite Ha in Eg. cbn in Eg. by zb.
Qed.

(** Everything [Apply] can do, with the entry it found or made. *)
Inductive apply_outcome (change : guest_kevent_qos_s) (q : queue) : Z * queue * bool -> Prop :=
  | Rejected e : e <> 0 -> apply_outcome change q (e, q, false)
  | NoMemory : nextIdent q <> 0 ->
      apply_outcome change q (ENOMEM, with_nextIdent (u64 (nextIdent q + 1)) q, false)
  | OnExisting key t r : stopping q = false -> g_filter change = EVFILT_TIMER ->
      find_timer (timers q) change = Some (key, t) -> timers q !! key = Some t ->
      applied change key t false q r -> apply_outcome change q r
  | OnNew r : stopping q = false -> g_filter change = EVFILT_TIMER ->
      nextIdent q <> 0 -> has_flag (g_flags change) EV_ADD = true ->
      find_timer (timers q) change = None -> Z.of_nat (size (timers q)) < 4096 ->
      applied change (nextIdent q) new_timer true
        (with_timers (<[nextIdent q := new_timer]> (timers q)) (with_nextIdent (u64 (nextIdent q + 1)) q)) r ->
      apply_outcome change q r.

Lemma Apply_spec h change q : apply_outcome change q (Apply h change q).
Proof.
  unfold Apply.
  destruct (g_filter change =? EVFILT_TIMER) eqn:Ef; cbn [negb]; zb; [|by apply Rejected].
  destruct (stopping q) eqn:Es; [by apply Rejected|].
  destruct (error q =? 0) eqn:Ee; cbn [negb]; zb; [|by apply Rejected].
  destruct (find_timer (timers q) change) as [[key t]|] eqn:Efi.
  - apply (OnExisting change q key t); try done; [by eapply find_timer_Some|apply apply_found_spec].
  - destruct (has_flag (g_flags change) EV_ADD) eqn:Ea; cbn [negb orb]; [|by apply Rejected].
    destruct (has_flag (g_flags change) EV_DELETE); [by apply Rejected|].
    destruct (4096 <=? _) eqn:Esz; zb; [by apply Rejected|].
    destruct (nextIdent q =? 0) eqn:En; zb; [by apply Rejected|].
    destruct (emplace_ok h); cbn [negb]; [|by apply NoMemory].
    apply OnNew; try done. apply apply_found_spec.
Qed.

Lemma changed_timer_ok change k t :
  g_filter change = EVFILT_TIMER ->
  (has_flag (g_flags change) EV_ADD = true -> 0 <= generation t /\ generation t <> UINT64_MAX /\ generation t <= UINT64_MAX) ->
  (has_flag (g_flags change) EV_ADD = false -> timer_ok k t) ->
  timer_ok k (changed_timer change (next_generation change t) t).
Proof.
  intros Hf Ha Hn. unfold changed_timer, next_generation. destruct (has_flag (g_flags change) EV_ADD).
  - destruct (Ha eq_refl) as (? & ? & ?). split; cbn; [lia|done|done].
  - destruct (Hn eq_refl). split; cbn; rewrite ?Z.add_0_r; done.
Qed.

(** A fresh identifier: above every used one, and used from now on. *)
Lemma next_ident_fresh q : queue_ok q -> nextIdent q <> 0 -> timers q !! nextIdent q = None.
Proof.
  intros Hq Hn. destruct (timers q !! nextIdent q) as [t|] eqn:E; [|done].
  destruct (queue_idents _ Hq _ _ E) as [_ [?|?]]; lia.
Qed.

Lemma ident_used_next q k :
  0 <= nextIdent q < U64_MOD -> nextIdent q <> 0 -> (ident_used q k \/ k = nextIdent q) ->
  ident_used (with_nextIdent (u64 (nextIdent q + 1)) q) k.
Proof.
  intros Hn H0 Hk. unfold ident_used in *. cbn.
  destruct (decide (nextIdent q + 1 = U64_MOD)) as [->|Hne].
  - change (u64 U64_MOD) with 0. destruct Hk as [[? _]| ->]; split; auto; lia.
  - rewrite u64_small by lia. destruct Hk as [[? [E|?]]| ->]; split; auto; lia.
Qed.

Lemma queue_ok_next q : queue_ok q -> nextIdent q <> 0 -> queue_ok (with_nextIdent (u64 (nextIdent q + 1)) q).
Proof.
  intros [H1 H2 H3 H4 H5] Hn. split; cbn; try done; [apply u64_range|].
  intros k t Hk. apply ident_used_next; [done|done|]. left. by eapply H3.
Qed.

Lemma queue_ok_new q t :
  queue_ok q -> stopping q = false -> nextIdent q <> 0 -> Z.of_nat (size (timers q)) < 4096 ->
  timer_ok (nextIdent q) t ->
  queue_ok (with_timers (<[nextIdent q := t]> (timers q)) (with_nextIdent (u64 (nextIdent q + 1)) q)).
Proof.
  intros Hq Hs Hn Hsz Ht. pose proof (next_ident_fresh q Hq Hn) as Hnew.
  destruct (queue_ok_next q Hq Hn) as [H1 H2 H3 H4 H5]. split; cbn in *; [| done | | |congruence].
  - rewrite map_size_insert_None by done. lia.
  - intros k t'. rewrite lookup_insert. case_decide; [|apply H3].
    intros _. subst k. apply ident_used_next; [apply Hq|done|]. by right.
  - intros k t'. rewrite lookup_insert. case_decide; [by intros [= <-]; subst|apply H4].
Qed.

Lemma Apply_ok h change q : queue_ok q -> queue_ok (snd (fst (Apply h change q))).
Proof.
  intros Hq. destruct (Apply_spec h change q) as [e He|Hn|key t r Hs Hf Hfi Hk Ha|r Hs Hf Hn Hadd Hfi Hsz Ha]; cbn.
  - done.
  - by apply queue_ok_next.
  - destruct Ha as [e He|Hd|Hd Hg]; cbn; [done|by apply queue_ok_delete|].
    apply (queue_ok_insert q key _ t); try done. pose proof (queue_timers _ Hq _ _ Hk) as Ht.
    apply changed_timer_ok; [done| |done]. intros Hadd. destruct (timer_generation _ _ Ht). 
    split_and!; [lia|by apply Hg|lia].
  - pose proof (next_ident_fresh q Hq Hn) as Hnew.
    destruct Ha as [e He|Hd|Hd Hg]; cbn; rewrite ?insert_insert_eq, ?delete_insert_id by done.
    + exact (queue_ok_next q Hq Hn).
    + exact (queue_ok_next q Hq Hn).
    + apply (queue_ok_new q); try done. apply changed_timer_ok; [done| |congruence]. intros _. done.
Qed.

(** ** Delivery and life cycle *)

Lemma Take_spec excluded required q :
  (fst (Take excluded required q) = None /\ snd (Take excluded required q) = q /\
   (stopping q = false -> forall k t, timers q !! k = Some t -> eligible excluded required t = false)) \/
  (exists k t, stopping q = false /\ timers q !! k = Some t /\ eligible excluded required t = true /\
     Take excluded required q = (Some (delivered_event t),
       with_timers (if oneShot t then delete k (timers q) else <[k := with_pending false t]> (timers q)) q)).
Proof.
  unfold Take. destruct (stopping q) eqn:Es; [by left|].
  destruct (List.find _ (iter (timers q))) as [[k t]|] eqn:Ef.
  - right. exists k, t. apply List.find_some in Ef as [Hin He]. apply list_elem_of_In, iter_elem in Hin. done.
  - left. split_and!; try done. intros _ k t Hk. apply (List.find_none _ _ Ef (k, t)).
    by apply list_elem_of_In, iter_elem.
Qed.

Lemma Take_ok excluded required q : queue_ok q -> queue_ok (snd (Take excluded required q)).
Proof.
  intros Hq. destruct (Take_spec excluded required q) as [(_ & -> & _)|(k & t & Hs & Hk & _ & ->)]; [done|].
  cbn. destruct (oneShot t); [by apply queue_ok_delete|]. apply (queue_ok_insert q k _ t); try done.
  by destruct (queue_timers _ Hq _ _ Hk).
Qed.

Lemma Run_ok w q : queue_ok q -> queue_ok (snd (Run w q)).
Proof.
  intros Hq. unfold Run. destruct (match w with WaitFailed e => e =? EINTR | _ => false end); [done|].
  destruct (stopping q) eqn:Es; [done|]. destruct w as [e|es].
  - by destruct Hq.
  - pose proof (collect_loop_ok es q false Hq Es) as Hc.
    by destruct (foldl collect_event (timers q, false) es) as [m n].
Qed.

Lemma RequestStop_ok q : queue_ok q -> queue_ok (fst (RequestStop q)).
Proof.
  intros Hq. unfold RequestStop. destruct (stopping q) eqn:E; [done|].
  split; cbn; try done; [apply Hq|intros k t; by rewrite lookup_empty..].
Qed.

Lemma step_op_ok q o : queue_ok q -> queue_ok (step_op q o).
Proof.
  destruct o; cbn; [apply Apply_ok|apply Take_ok|apply Run_ok|apply RequestStop_ok].
Qed.

Lemma timer_run_ok ops : forall q, queue_ok q -> queue_ok (run ops q).
Proof. induction ops as [|o ops IH]; intros q Hq; [done|]. apply IH. by apply step_op_ok. Qed.

Lemma Create_ok h q : Create h = inl q -> queue_ok q /\ stopping q = false /\ error q = 0.
Proof.
  unfold Create. repeat case_match; try done. intros [= <-]. split; [|done].
  split; cbn; try done; intros k t; by rewrite lookup_empty.
Qed.

(** ** Retired tokens *)

(** No registration with identifier [k] has a generation of at most [g], now or
    later: the identifier is used, and a live entry is already past [g]. *)
Definition retired (k g : Z) (q : queue) : Prop :=
  ident_used q k /\ forall t, timers q !! k = Some t -> g < generation t.

Lemma retired_delete k g q k' : retired k g q -> retired k g (with_timers (delete k' (timers q)) q).
Proof. intros [Hu Hg]. split; [done|]. cbn. intros t [_ Hk]%lookup_delete_Some. by apply Hg. Qed.

Lemma retired_insert k g q k' t t' :
  retired k g q -> timers q !! k' = Some t -> generation t <= generation t' ->
  retired k g (with_timers (<[k' := t']> (timers q)) q).
Proof.
  intros [Hu Hg] Hk Hle. split; [done|]. cbn. intros t0. rewrite lookup_insert. case_decide; [|apply Hg].
  intros [= <-]. subst k'. specialize (Hg t Hk). lia.
Qed.

Lemma retired_next k g q :
  queue_ok q -> nextIdent q <> 0 -> retired k g q -> retired k g (with_nextIdent (u64 (nextIdent q + 1)) q).
Proof. intros Hq Hn [Hu Hg]. split; [|done]. apply ident_used_next; [apply Hq|done|by left]. Qed.

Lemma changed_generation change t :
  generation (changed_timer change (next_generation change t) t) = next_generation change t.
Proof. unfold changed_timer. by destruct (has_flag _ _). Qed.

Lemma next_generation_ge change t : generation t <= next_generation change t.
Proof. unfold next_generation. destruct (has_flag _ _); lia. Qed.

Lemma retired_Apply h change k g q :
  queue_ok q -> retired k g q -> retired k g (snd (fst (Apply h change q))).
Proof.
  intros Hq Hr. destruct (Apply_spec h change q) as [e He|Hn|key t r Hs Hf Hfi Hk Ha|r Hs Hf Hn Hadd Hfi Hsz Ha]; cbn.
  - done.
  - by apply retired_next.
  - destruct Ha as [e He|Hd|Hd Hg]; cbn; [done|by apply retired_delete|].
    apply (retired_insert _ _ _ _ t); try done. rewrite changed_generation. apply next_generation_ge.
  - pose proof (next_ident_fresh q Hq Hn) as Hnew.
    destruct (retired_next k g q Hq Hn Hr) as [Hu Hg'].
    destruct Ha as [e He|Hd|Hd Hg]; cbn; rewrite ?insert_insert_eq, ?delete_insert_id by done.
    + by split.
    + by split.
    + split; [done|]. cbn. intros t. rewrite lookup_insert. case_decide as E; [|apply Hg'].
      subst k. destruct Hr as [[_ [?|?]] _]; lia.
Qed.

Lemma retired_collect es : forall k g m n,
  (forall t, m !! k = Some t -> g < generation t) ->
  forall t, fst (foldl collect_event (m, n) es) !! k = Some t -> g < generation t.
Proof.
  induction es as [|e es IH]; intros k g m n Hm; cbn [foldl]; [done|].
  destruct (token_matches_dec m e) as [(Hf & t & Hl & Hu)|Hmiss].
  - rewrite (collect_event_hit m n e t) by done. apply IH. intros t'. rewrite lookup_insert.
    case_decide; [|apply Hm]. intros [= <-]. subst k. by apply (Hm t).
  - rewrite collect_event_miss by done. by apply IH.
Qed.

Lemma retired_step k g q o : queue_ok q -> retired k g q -> retired k g (step_op q o).
Proof.
  intros Hq Hr. destruct o as [h change|excluded required|w|]; cbn.
  - by apply retired_Apply.
  - destruct (Take_spec excluded required q) as [(_ & -> & _)|(k' & t & Hs & Hk & _ & ->)]; [done|]. cbn.
    destruct (oneShot t); [by apply retired_delete|by apply (retired_insert _ _ _ _ t)].
  - unfold Run. destruct (match w with WaitFailed e => e =? EINTR | _ => false end); [done|].
    destruct (stopping q); [done|]. destruct w as [e|es]; [done|].
    destruct Hr as [Hu Hg]. pose proof (retired_collect es k g (timers q) false Hg) as Hc.
    by destruct (foldl collect_event (timers q, false) es).
  - unfold RequestStop. destruct (stopping q); [done|]. destruct Hr. by split.
Qed.

Lemma retired_run ops : forall k g q, queue_ok q -> retired k g q -> retired k g (run ops q).
Proof.
  induction ops as [|o ops IH]; intros k g q Hq Hr; [done|].
  apply IH; [by apply step_op_ok|by apply retired_step].
Qed.

(** ** Accumulation *)

(** The expirations of registration [k] with token [g] in a batch. *)
Definition expirations (k g : Z) (es : list kevent64_s) : list kevent64_s :=
  filter (fun e => filter_ e = EVFILT_TIMER /\ ident e = k /\ udata e = g) es.

Definition total (es : list kevent64_s) : Z := foldr (fun e n => data e + n) 0 es.

(** Expirations collected and not yet delivered. *)
Definition backlog (t : Timer) : Z := if pending t then data (readyEvent t) else 0.

Lemma accumulate_min a b : 0 <= a <= INT64_MAX -> 0 < b <= INT64_MAX -> accumulate a b = Z.min INT64_MAX (a + b).
Proof. intros Ha Hb. unfold accumulate. repeat case_match; zb; lia. Qed.

Lemma receive_backlog e t :
  has_flag (flags e) EV_ERROR = false -> 0 <= backlog t <= INT64_MAX -> 0 < data e <= INT64_MAX ->
  backlog (receive e t) = Z.min INT64_MAX (backlog t + data e).
Proof.
  intros He Hb Hd. unfold backlog, receive in *. cbn. rewrite He. destruct (pending t); cbn.
  - by apply accumulate_min.
  - lia.
Qed.

Lemma total_nonneg es : Forall (fun e => 0 < data e) es -> 0 <= total es.
Proof. induction 1; cbn; [done|]. unfold total in *. lia. Qed.

Lemma collect_accumulates es : forall k g m n t,
  m !! k = Some t -> generation t = g -> 0 <= backlog t <= INT64_MAX ->
  Forall (fun e => has_flag (flags e) EV_ERROR = false /\ 0 < data e <= INT64_MAX) (expirations k g es) ->
  exists t', fst (foldl collect_event (m, n) es) !! k = Some t' /\ generation t' = g /\
    guest t' = guest t /\ enabled t' = enabled t /\ oneShot t' = oneShot t /\
    (pending t' = true <-> pending t = true \/ expirations k g es <> []) /\
    backlog t' = Z.min INT64_MAX (backlog t + total (expirations k g es)).
Proof.
  induction es as [|e es IH]; intros k g m n t Hk Hg Hb Hes; cbn [foldl].
  { exists t. split_and!; try done; [|cbn; lia]. cbn. split; [auto|]. intros [?|?]; done. }
  unfold expirations in *. rewrite filter_cons in Hes |- *. case_decide as Hd.
  - destruct Hd as (Hf & Hi & Hu). apply Forall_cons in Hes as [[He Hde] Hes].
    rewrite (collect_event_hit m n e t); [|done|by rewrite Hi|by rewrite Hu, Hg]. rewrite Hi.
    pose proof (receive_backlog e t He Hb Hde) as Hrb.
    destruct (IH k g (<[k := receive e t]> m) (n || enabled t)%bool (receive e t)) as (t' & H1 & H2 & H3 & H4 & H5 & H6 & H7);
      [by rewrite lookup_insert_eq|done|lia|done|].
    exists t'. split_and!; try done.
    + split; [by right|]. intros _. apply H6. by left.
    + rewrite H7, Hrb. cbn. pose proof (total_nonneg _ (Forall_impl _ _ _ Hes (fun e He => proj1 (proj2 He)))).
      unfold total in *. lia.
  - destruct (token_matches_dec m e) as [(Hf & t0 & Hl & Hu)|Hm].
    + rewrite (collect_event_hit m n e t0) by done.
      apply IH; try done. rewrite lookup_insert_ne; [done|]. intros <-. rewrite Hk in Hl. injection Hl as <-.
      apply Hd. by rewrite Hg in Hu.
    + rewrite collect_event_miss by done. by apply IH.
Qed.

(** ** Notification *)

Lemma collect_notify es : forall m n,
  (n = true -> exists k t, m !! k = Some t /\ deliverable t = true) ->
  snd (foldl collect_event (m, n) es) = true ->
  exists k t, fst (foldl collect_event (m, n) es) !! k = Some t /\ deliverable t = true.
Proof.
  induction es as [|e es IH]; intros m n Hn; cbn [foldl]; [done|].
  destruct (token_matches_dec m e) as [(Hf & t & Hl & Hu)|Hm].
  - rewrite (collect_event_hit m n e t) by done. apply IH. intros Hor.
    destruct (enabled t) eqn:Een.
    + exists (ident e), (receive e t). rewrite lookup_insert_eq. split; [done|].
      unfold deliverable. cbn. done.
    + rewrite orb_false_r in Hor. destruct (Hn Hor) as (k & t' & Hk & Hd).
      exists k, t'. split; [|done]. rewrite lookup_insert_ne; [done|]. intros <-.
      rewrite Hl in Hk. injection Hk as <-. unfold deliverable in Hd. rewrite Een, andb_false_r in Hd. done.
  - rewrite collect_event_miss by done. by apply IH.
Qed.

(** ** Properties *)

(** Every reachable timer queue is well formed.  Whatever the guest
    requests, the kernel answers and the map's iteration order, interleaved in
    any order: at most 4096 registrations, private identifiers that were issued
    by the counter and never reused, positive generations, no registration
    once stopping, and a pending expiration always carries the token of the
    registration it is stored in. *)
Theorem timer_queue_invariant c q ops : Create c = inl q -> queue_ok (run ops q).
Proof. intros Hc. apply timer_run_ok. by apply (Create_ok c). Qed.

(** Rearming or deleting a timer retires its token for good.  After the
    change was accepted, and after any further operations, an expiration of the
    old registration that was already on its way (same private identifier, an
    old generation) is dropped: it changes no timer and notifies nobody, so it
    can never be delivered as an expiration of the new registration. *)
Theorem stale_expirations_ignored h change q k t q2 wake ops e n :
  queue_ok q -> find_timer (timers q) change = Some (k, t) ->
  (has_flag (g_flags change) EV_ADD || has_flag (g_flags change) EV_DELETE)%bool = true ->
  Apply h change q = (0, q2, wake) ->
  ident e = k -> udata e <= generation t ->
  collect_event (timers (run ops q2), n) e = (timers (run ops q2), n).
Proof.
  intros Hq Hfi Hfl Ha Hi Hu. pose proof (find_timer_Some _ _ _ _ Hfi) as [Hk _].
  assert (queue_ok q2) as Hq2 by (pose proof (Apply_ok h change q Hq) as H0; by rewrite Ha in H0).
  assert (retired k (generation t) q2) as Hr.
  { pose proof (queue_idents _ Hq _ _ Hk) as Hused.
    destruct (Apply_spec h change q) as [e0 He|Hn|key t0 r Hs Hf Hfi' Hk' Ha'|r Hs Hf Hn Hadd Hfi' Hsz Ha'].
    - by injection Ha as ->.
    - done.
    - rewrite Hfi in Hfi'. injection Hfi' as <- <-. destruct Ha' as [e0 He|Hd|Hd Hg].
      + by injection Ha as ->.
      + injection Ha as <- _. split; [done|]. cbn. intros t'. by rewrite lookup_delete_eq.
      + injection Ha as <- _. split; [done|]. cbn. intros t'. rewrite lookup_insert_eq. intros [= <-].
        rewrite Hd, orb_false_r in Hfl. rewrite changed_generation. unfold next_generation. rewrite Hfl. lia.
    - congruence. }
  destruct (retired_run ops k (generation t) q2 Hq2 Hr) as [_ Hg].
  apply collect_event_miss. intros (_ & t' & Hl & Hut). subst k. specialize (Hg t' Hl). lia.
Qed.

(** Expirations are not lost.  A round of the waiter adds to the backlog of
    a registration exactly the expirations the kernel reported under its
    token (saturating at INT64_MAX), whatever other events the batch contains
    and in whatever order, and leaves the registration as it was. *)
Theorem expirations_accumulate q es k t :
  queue_ok q -> stopping q = false -> timers q !! k = Some t -> 0 <= backlog t <= INT64_MAX ->
  Forall (fun e => has_flag (flags e) EV_ERROR = false /\ 0 < data e <= INT64_MAX)
    (expirations k (generation t) es) ->
  exists t', timers (snd (Run (WaitEvents es) q)) !! k = Some t' /\
    backlog t' = Z.min INT64_MAX (backlog t + total (expirations k (generation t) es)) /\
    (pending t' = true <-> pending t = true \/ expirations k (generation t) es <> []) /\
    guest t' = guest t /\ generation t' = generation t /\ enabled t' = enabled t /\ oneShot t' = oneShot t.
Proof.
  intros Hq Hs Hk Hb Hes. unfold Run. rewrite Hs.
  destruct (collect_accumulates es k (generation t) (timers q) false t Hk eq_refl Hb Hes)
    as (t' & H1 & H2 & H3 & H4 & H5 & H6 & H7).
  destruct (foldl collect_event (timers q, false) es) as [m n]. cbn in H1 |- *. exists t'. done.
Qed.

(** No lost wakeups.  After a round the waiter calls the readiness callback
    exactly when some registration has a deliverable expiration, including one
    that was collected earlier while the timer was disabled; and a change that
    makes a held expiration deliverable pokes the waiter. *)
Theorem readiness_notified q :
  (forall es n q', Run (WaitEvents es) q = (Continue n, q') ->
     n = true <-> exists k t, timers q' !! k = Some t /\ deliverable t = true) /\
  (forall h change e q' wake k t, queue_ok q -> Apply h change q = (e, q', wake) ->
     timers q' !! k = Some t -> deliverable t = true ->
     wake = true \/ timers q !! k = Some t).
Proof.
  split.
  - intros es n q'. unfold Run. destruct (stopping q); [done|].
    pose proof (collect_notify es (timers q) false ltac:(done)) as Hc.
    destruct (foldl collect_event (timers q, false) es) as [m nt]. cbn in Hc. intros [= <- <-]. cbn.
    destruct nt; cbn; [split; [by intros _; apply Hc|done]|]. rewrite existsb_exists. split.
    + intros ([k t] & Hin & Hd). exists k, t. split; [|done]. by apply iter_elem, list_elem_of_In.
    + intros (k & t & Hk & Hd). exists (k, t). split; [|done]. by apply list_elem_of_In, iter_elem.
  - intros h change e q' wake k t Hq Ha.
    destruct (Apply_spec h change q) as [e0 He|Hn|key t0 r Hs Hf Hfi Hk' Ha'|r Hs Hf Hn Hadd Hfi Hsz Ha'].
    + injection Ha as _ <- _. auto.
    + injection Ha as _ <- _. auto.
    + destruct Ha' as [e0 He|Hd|Hd Hg]; injection Ha as _ <- <-; [auto|cbn; rewrite lookup_delete_Some; naive_solver|].
      cbn. rewrite lookup_insert. case_decide; [intros [= <-] Hdv; by left|auto].
    + pose proof (next_ident_fresh q Hq Hn) as Hnew.
      destruct Ha' as [e0 He|Hd|Hd Hg]; injection Ha as _ <- <-; cbn;
        rewrite ?insert_insert_eq, ?delete_insert_id by done; [auto..|].
      rewrite lookup_insert. case_decide; [intros [= <-] Hdv; by left|auto].
Qed.

(** [Take] delivers each expiration once.  It reports none only if no
    registration is deliverable at that quality of service; otherwise it returns
    one registration's backlog under the guest's own identifier and user data,
    clears that backlog, removes the registration if it was one-shot, and
    touches no other registration. *)
Theorem take_delivers_once excluded required q :
  stopping q = false ->
  match Take excluded required q with
  | (None, q') => q' = q /\
      forall k t, timers q !! k = Some t -> eligible excluded required t = false
  | (Some ev, q') => exists k t, timers q !! k = Some t /\ eligible excluded required t = true /\
      g_ident ev = g_ident (guest t) /\ g_udata ev = g_udata (guest t) /\ g_data ev = backlog t /\
      timers q' !! k = (if oneShot t then None else Some (with_pending false t)) /\
      (forall t', timers q' !! k = Some t' -> backlog t' = 0) /\
      (forall k', k' <> k -> timers q' !! k' = timers q !! k')
  end.
Proof.
  intros Hs. destruct (Take_spec excluded required q) as [(H1 & H2 & H3)|(k & t & _ & Hk & He & ->)].
  - destruct (Take excluded required q) as [[ev|] q']; [done|]. cbn in H2. subst q'. split; [done|exact (H3 Hs)].
  - exists k, t. split_and!; try done; cbn.
    + unfold eligible in He. unfold backlog. destruct (pending t); done.
    + destruct (oneShot t); [by rewrite lookup_delete_eq|by rewrite lookup_insert_eq].
    + intros t'. destruct (oneShot t); [by rewrite lookup_delete_eq|]. rewrite lookup_insert_eq. by intros [= <-].
    + intros k' Hne. destruct (oneShot t); [by rewrite lookup_delete_ne|by rewrite lookup_insert_ne].
Qed.

(** Stopping is final.  After [RequestStop], whatever operations follow, no
    timer is stored, nothing is delivered, every change is refused, and the
    waiter leaves at its next wakeup. *)
Theorem stop_is_final q ops :
  let q' := run ops (fst (RequestStop q)) in
  queue_ok q ->
  stopping q' = true /\ timers q' = ∅ /\
  (forall excluded required, fst (Take excluded required q') = None) /\
  (forall h change, fst (fst (Apply h change q')) = ECANCELED \/ g_filter change <> EVFILT_TIMER) /\
  (forall es, fst (Run (WaitEvents es) q') = Exit).
Proof.
  intros q' Hq. assert (stopping q' = true /\ timers q' = ∅) as [Hs Ht].
  { assert (stopping (fst (RequestStop q)) = true) as Hs0 by (unfold RequestStop; by destruct (stopping q) eqn:E).
    assert (stopping q' = true) as Hs; [|split; [done|by apply (timer_run_ok ops _ (RequestStop_ok q Hq))]].
    unfold q'. clear Hq q'. revert Hs0. generalize (fst (RequestStop q)). clear q.
    induction ops as [|o ops IH]; intros q Hs; [done|]. apply IH. clear IH.
    destruct o as [h change|excluded required|w|]; cbn.
    - unfold Apply. destruct (negb _); [done|]. by rewrite Hs.
    - unfold Take. by rewrite Hs.
    - unfold Run. destruct (match w with WaitFailed e => e =? EINTR | _ => false end); [done|]. by rewrite Hs.
    - unfold RequestStop. by rewrite Hs. }
  split_and!; try done.
  - intros. unfold Take. by rewrite Hs.
  - intros h change. unfold Apply. destruct (g_filter change =? EVFILT_TIMER) eqn:E; zb; [|by right].
    left. cbn. by rewrite Hs.
  - intros es. unfold Run. by rewrite Hs.
Qed.

End props.

(** ** Examples *)

(** Iteration in key order. *)
Definition key_order : IterationOrder := {| iter := map_to_list; iter_perm := fun m => reflexivity _ |}.

Definition accepting : apply_host := {| emplace_ok := true; kevent64 := fun _ =>
  KReturned 1 {| ident := 0; filter_ := 0; flags := EV_ERROR; fflags := 0; data := 0; udata := 0;
                 ext0 := 0; ext1 := 0 |} |}.
Definition good_create : create_host := {| new_impl_ok := true; kqueue_errno := 0; wake_errno := 0;
  new_queue_ok := true; pthread_create_error := 0 |}.
Definition demo_change (fl : Z) : guest_kevent_qos_s := {| g_ident := 77; g_filter := EVFILT_TIMER;
  g_flags := fl; g_qos := 0; g_udata := 500; g_fflags := 0; g_xflags := 0; g_data := 10; g_ext := [0; 0; 0; 0] |}.
Definition expiry (gen n : Z) : kevent64_s := {| ident := 1; filter_ := EVFILT_TIMER; flags := 0;
  fflags := 0; data := n; udata := gen; ext0 := 0; ext1 := 0 |}.
Definition fresh_queue : queue := {| error := 0; stopping := false; started := true; nextIdent := 1; timers := ∅ |}.
Definition armed_queue : queue :=
  snd (fst (@Apply key_order accepting (demo_change EV_ADD) fresh_queue)).
Definition armed_timer : Timer := {| guest := demo_change EV_ADD; generation := 1; readyEvent := kevent_zero;
  pending := false; enabled := true; oneShot := false |}.

Lemma timer_queue_invariant_witness :
  queue_ok (@run key_order [DoApply accepting (demo_change EV_ADD)] fresh_queue).
Proof. apply (@timer_queue_invariant key_order good_create fresh_queue). reflexivity. Defined.

Lemma armed_ok : queue_ok armed_queue.
Proof. apply (@Apply_ok key_order). apply (Create_ok good_create). reflexivity. Qed.

(** Rearming: the token 1 is dropped, the token 2 is collected. *)
Lemma stale_expirations_ignored_witness :
  exists q2, @Apply key_order accepting (demo_change EV_ADD) armed_queue = (0, q2, false) /\
    collect_event (timers q2, false) (expiry 1 3) = (timers q2, false) /\
    snd (collect_event (timers q2, false) (expiry 2 3)) = true.
Proof.
  eexists. split; [vm_compute; reflexivity|]. split; [|vm_compute; reflexivity].
  apply (@stale_expirations_ignored key_order accepting (demo_change EV_ADD) armed_queue 1 armed_timer _ false []
    (expiry 1 3) false).
  - exact armed_ok.
  - vm_compute. reflexivity.
  - reflexivity.
  - vm_compute. reflexivity.
  - reflexivity.
  - cbn. lia.
Defined.

Lemma expirations_accumulate_witness :
  exists t', timers (snd (@Run key_order (WaitEvents [expiry 1 3; expiry 9 50; expiry 1 4]) armed_queue)) !! 1 = Some t' /\
    backlog t' = 7.
Proof.
  destruct (@expirations_accumulate key_order armed_queue [expiry 1 3; expiry 9 50; expiry 1 4] 1 armed_timer)
    as (t' & H1 & H2 & _).
  - exact armed_ok.
  - reflexivity.
  - reflexivity.
  - split; vm_compute; discriminate.
  - change (expirations 1 (generation armed_timer) [expiry 1 3; expiry 9 50; expiry 1 4])
      with [expiry 1 3; expiry 1 4].
    repeat (apply Forall_cons; split; [split; [reflexivity|cbn; unfold INT64_MAX; lia]|]). by apply Forall_nil.
  - exists t'. split; [exact H1|rewrite H2; reflexivity].
Defined.

Lemma take_delivers_once_witness :
  exists ev, fst (@Take key_order 0 0 (snd (@Run key_order (WaitEvents [expiry 1 3]) armed_queue))) = Some ev /\
    g_ident ev = 77 /\ g_data ev = 3 /\
    exists k t, timers (snd (@Run key_order (WaitEvents [expiry 1 3]) armed_queue)) !! k = Some t.
Proof.
  eexists. split; [vm_compute; reflexivity|]. split; [reflexivity|]. split; [reflexivity|].
  set (q := snd (@Run key_order (WaitEvents [expiry 1 3]) armed_queue)).
  pose proof (@take_delivers_once key_order 0 0 q eq_refl) as H.
  assert (fst (@Take key_order 0 0 q) <> None) as Hn by (vm_compute; done).
  destruct (@Take key_order 0 0 q) as [[ev|] q']; [|done]. destruct H as (k & t & Hk & _). eauto.
Defined.

Lemma stop_is_final_witness :
  timers (@run key_order [DoApply accepting (demo_change EV_ADD)] (fst (RequestStop armed_queue))) = ∅.
Proof. apply (@stop_is_final key_order armed_queue). exact armed_ok. Defined.

Lemma readiness_notified_witness :
  fst (@Run key_order (WaitEvents [expiry 1 3]) armed_queue) = Continue true /\
  (forall n q', @Run key_order (WaitEvents [expiry 1 3]) armed_queue = (Continue n, q') ->
     n = true <-> exists k t, timers q' !! k = Some t /\ deliverable t = true).
Proof.
  split; [vm_compute; reflexivity|]. intros n q'. apply (@readiness_notified key_order armed_queue).
Defined.

End TimerQueue.
