(* ===== verification/Psynch.v ===== *)
(** Native guest thread synchronisation
    (src/HostFrameworks/LC32/dynarmic_psynch.cpp; preposts in
    dynarmic_thread_state.cpp; structures and sequence arithmetic in
    dynarmic_internal.h): the psynch mutex, condition variable and rwlock
    system calls and the ulock calls of guest threads that run on their own
    host threads.

    Every operation runs under [nativeGuestWaitMutex]; a blocking wait is the
    operation that enqueues the waiter and, later, the operation that ends the
    wait.  Between the two the waiter is a member of [nativeGuestWaiters], where
    other operations find and signal it.  Threads, timers, the debugger and
    process exit decide which waits end when: they are the free choice of
    operations in a run. *)

From S2P Require Import Prelude.
From S2P Require Import GuestMemory.
From stdpp Require Import base gmap list fin_maps list_numbers.
From Stdlib Require Import ZArith Lia.
Open Scope Z_scope.

Module Psynch.

(** ** Sequences *)

Definition GuestPsynchCountIncrement : Z := 0x100.
Definition GuestPsynchCountMask : Z := 0xffffff00.
Definition GuestPsynchBitMask : Z := 0xff.
Definition GuestPsynchRwKernelBit : Z := 0x01.
Definition GuestPsynchRwExclusiveBit : Z := 0x02.
Definition GuestPsynchRwWriterBit : Z := 0x04.
Definition GuestPsynchRwSequenceSavedWriterBit : Z := 0x04.
Definition GuestPsynchRwOverlapBit : Z := 0x40.
Definition GuestPthreadPolicyFlagsMask : Z := 0x1c0.
Definition GuestPthreadMutexPolicyFirstFit : Z := 0x080.

(** The count part of a sequence word. *)
Definition count_part (x : Z) : Z := Z.land x GuestPsynchCountMask.

Definition GuestPsynchMutexIsFirstFit (flags : Z) : bool :=
  Z.land flags GuestPthreadPolicyFlagsMask =? GuestPthreadMutexPolicyFirstFit.

Definition GuestPsynchSequenceLower (lhs rhs : Z) : bool :=
  let l := count_part lhs in
  let r := count_part rhs in
  if l <? r then r - l <? GuestPsynchCountMask / 2
  else GuestPsynchCountMask / 2 <? l - r.

Definition GuestPsynchSequenceLowerOrEqual (lhs rhs : Z) : bool :=
  (count_part lhs =? count_part rhs) || GuestPsynchSequenceLower lhs rhs.

Definition GuestPsynchSequenceDistance (newer older : Z) : Z :=
  count_part (u32 (count_part newer - count_part older)) / GuestPsynchCountIncrement.

(** ** Data *)

Inductive GuestThreadWaitKind := KindNone | Mutex | Condition | Rwlock | Ulock.
Inductive GuestRwlockWaitType := TypeNone | Read | Write.

#[global] Instance wait_kind_eq : EqDecision GuestThreadWaitKind.
Proof. solve_decision. Defined.
#[global] Instance rw_type_eq : EqDecision GuestRwlockWaitType.
Proof. solve_decision. Defined.

(** [struct NativeGuestWaiter]; [waiter_id] is the shared pointer, [sequence]
    the arrival number. *)
Record NativeGuestWaiter := {
  waiter_id : Z;
  kind : GuestThreadWaitKind;
  address : Z;
  ulockOpcode : Z;
  rwlockWaitType : GuestRwlockWaitType;
  rwlockSequence : Z;
  mutexSequence : Z;
  conditionSequence : Z;
  threadPort : Z;
  wakeResult : Z;
  sequence : Z;
  signaled : bool;
}.

#[global] Instance waiter_eq : EqDecision NativeGuestWaiter.
Proof. solve_decision. Defined.

Record GuestMutexPrepost := { mp_address : Z; mp_sequence : Z; mp_count : Z }.
Record GuestConditionPrepost := { cp_address : Z; cp_throughSequence : Z; cp_count : Z }.
Record NativeGuestRwlockUnlock := { ru_address : Z; ru_lgen : Z; ru_rwSequence : Z; ru_expectedWaiters : Z }.
Record NativeGuestRwlockOverlap := { ro_address : Z; ro_lastSequence : Z; ro_nextSequence : Z }.

(** The globals behind [nativeGuestWaitMutex] and [guestPsynchPrepostMutex]. *)
Record psynch := {
  nativeGuestWaiters : list NativeGuestWaiter;
  guestMutexPreposts : list GuestMutexPrepost;
  guestConditionPreposts : list GuestConditionPrepost;
  nativeGuestRwlockUnlocks : list NativeGuestRwlockUnlock;
  nativeGuestRwlockOverlaps : list NativeGuestRwlockOverlap;
  guestNextWaitSequence : Z;
}.

Definition initial : psynch := {| nativeGuestWaiters := []; guestMutexPreposts := [];
  guestConditionPreposts := []; nativeGuestRwlockUnlocks := []; nativeGuestRwlockOverlaps := [];
  guestNextWaitSequence := 1 |}.

Definition with_waiters l s := {| nativeGuestWaiters := l;
  guestMutexPreposts := guestMutexPreposts s; guestConditionPreposts := guestConditionPreposts s;
  nativeGuestRwlockUnlocks := nativeGuestRwlockUnlocks s;
  nativeGuestRwlockOverlaps := nativeGuestRwlockOverlaps s; guestNextWaitSequence := guestNextWaitSequence s |}.
Definition with_mutexPreposts l s := {| nativeGuestWaiters := nativeGuestWaiters s;
  guestMutexPreposts := l; guestConditionPreposts := guestConditionPreposts s;
  nativeGuestRwlockUnlocks := nativeGuestRwlockUnlocks s;
  nativeGuestRwlockOverlaps := nativeGuestRwlockOverlaps s; guestNextWaitSequence := guestNextWaitSequence s |}.
Definition with_conditionPreposts l s := {| nativeGuestWaiters := nativeGuestWaiters s;
  guestMutexPreposts := guestMutexPreposts s; guestConditionPreposts := l;
  nativeGuestRwlockUnlocks := nativeGuestRwlockUnlocks s;
  nativeGuestRwlockOverlaps := nativeGuestRwlockOverlaps s; guestNextWaitSequence := guestNextWaitSequence s |}.
Definition with_unlocks l s := {| nativeGuestWaiters := nativeGuestWaiters s;
  guestMutexPreposts := guestMutexPreposts s; guestConditionPreposts := guestConditionPreposts s;
  nativeGuestRwlockUnlocks := l;
  nativeGuestRwlockOverlaps := nativeGuestRwlockOverlaps s; guestNextWaitSequence := guestNextWaitSequence s |}.
Definition with_overlaps l s := {| nativeGuestWaiters := nativeGuestWaiters s;
  guestMutexPreposts := guestMutexPreposts s; guestConditionPreposts := guestConditionPreposts s;
  nativeGuestRwlockUnlocks := nativeGuestRwlockUnlocks s;
  nativeGuestRwlockOverlaps := l; guestNextWaitSequence := guestNextWaitSequence s |}.
Definition with_nextSequence n s := {| nativeGuestWaiters := nativeGuestWaiters s;
  guestMutexPreposts := guestMutexPreposts s; guestConditionPreposts := guestConditionPreposts s;
  nativeGuestRwlockUnlocks := nativeGuestRwlockUnlocks s;
  nativeGuestRwlockOverlaps := nativeGuestRwlockOverlaps s; guestNextWaitSequence := n |}.

(** What a system call returns: register 0 and the carry flag. *)
Record sysret := { value : Z; carry : bool }.
Definition return_with_carry_direct (v : Z) (c : bool) : sysret := {| value := v; carry := c |}.

Definition MACH_PORT_NULL : Z := 0.
Definition MACH_PORT_DEAD : Z := 0xffffffff.
Definition MACH_PORT_VALID (p : Z) : bool := negb (p =? MACH_PORT_NULL) && negb (p =? MACH_PORT_DEAD).

(** ** Waking *)

Definition with_signal (result : option Z) (w : NativeGuestWaiter) : NativeGuestWaiter :=
  {| waiter_id := waiter_id w; kind := kind w; address := address w; ulockOpcode := ulockOpcode w;
     rwlockWaitType := rwlockWaitType w; rwlockSequence := rwlockSequence w;
     mutexSequence := mutexSequence w; conditionSequence := conditionSequence w;
     threadPort := threadPort w; wakeResult := default (wakeResult w) result;
     sequence := sequence w; signaled := true |}.

(** Signalling the selected waiter (its condition variable is notified). *)
Definition signal (result : option Z) (id : Z) (l : list NativeGuestWaiter) : list NativeGuestWaiter :=
  (fun w => if waiter_id w =? id then with_signal result w else w) <$> l.

(** The scan for the oldest waiter that satisfies [p]. *)
Definition select_oldest (p : NativeGuestWaiter -> bool) (l : list NativeGuestWaiter)
    : option NativeGuestWaiter :=
  foldl (fun selected w =>
    if p w then match selected with
                | None => Some w
                | Some s => if sequence w <? sequence s then Some w else Some s
                end
    else selected) None l.

(** The selection loop; the fuel is the number of waiters, since each turn
    signals one of them. *)
Fixpoint wake_loop (fuel : nat) (p : NativeGuestWaiter -> bool) (result : option Z) (one : bool)
    (l : list NativeGuestWaiter) (count : Z) : list NativeGuestWaiter * Z :=
  match fuel with
  | O => (l, count)
  | S f =>
      match select_oldest (fun w => negb (signaled w) && p w) l with
      | None => (l, count)
      | Some w =>
          let l' := signal result (waiter_id w) l in
          if one then (l', count + 1) else wake_loop f p result one l' (count + 1)
      end
  end.

Definition wake (p : NativeGuestWaiter -> bool) (result : option Z) (one : bool) (s : psynch) : psynch * Z :=
  let '(l, n) := wake_loop (S (length (nativeGuestWaiters s))) p result one (nativeGuestWaiters s) 0 in
  (with_waiters l s, n).

(** [WakeNativeGuestThreadsLocked]. *)
Definition WakeNativeGuestThreadsLocked (k : GuestThreadWaitKind) (addr : Z) (wakeAll : bool)
    (target : Z) : psynch -> psynch * Z :=
  wake (fun w => bool_decide (kind w = k) && (address w =? addr) &&
                 negb (MACH_PORT_VALID target && negb (threadPort w =? target)))
    None (negb wakeAll || MACH_PORT_VALID target).

(** [WakeNativeGuestMutexThreadLocked]. *)
Definition mutex_candidate (addr targetSequence : Z) (firstFit : bool) (w : NativeGuestWaiter) : bool :=
  bool_decide (kind w = Mutex) && (address w =? addr) &&
  negb (negb firstFit && negb (mutexSequence w =? targetSequence)).

Definition WakeNativeGuestMutexThreadLocked (addr targetSequence : Z) (firstFit : bool)
    : psynch -> psynch * Z :=
  wake (mutex_candidate addr targetSequence firstFit) None true.

(** [WakeNativeGuestConditionThreadsLocked]. *)
Definition condition_candidate (addr throughSequence target : Z) (w : NativeGuestWaiter) : bool :=
  bool_decide (kind w = Condition) && (address w =? addr) &&
  GuestPsynchSequenceLowerOrEqual (conditionSequence w) throughSequence &&
  negb (MACH_PORT_VALID target && negb (threadPort w =? target)).

Definition WakeNativeGuestConditionThreadsLocked (addr throughSequence : Z) (wakeAll : bool)
    (target : Z) : psynch -> psynch * Z :=
  wake (condition_candidate addr throughSequence target) (Some 0) (negb wakeAll || MACH_PORT_VALID target).

(** ** Preposts (dynarmic_thread_state.cpp) *)

Fixpoint record_mutex (addr seq : Z) (l : list GuestMutexPrepost) : list GuestMutexPrepost :=
  match l with
  | [] => [{| mp_address := addr; mp_sequence := seq; mp_count := 1 |}]
  | p :: rest =>
      if (mp_address p =? addr) && (mp_sequence p =? seq)
      then {| mp_address := mp_address p; mp_sequence := mp_sequence p; mp_count := u64 (mp_count p + 1) |} :: rest
      else p :: record_mutex addr seq rest
  end.

Definition RecordGuestMutexPrepost (addr seq : Z) (s : psynch) : psynch :=
  with_mutexPreposts (record_mutex addr (count_part seq) (guestMutexPreposts s)) s.

(** [None] when no prepost matches. *)
Fixpoint consume_mutex (addr seq : Z) (firstFit : bool) (l : list GuestMutexPrepost)
    : option (list GuestMutexPrepost) :=
  match l with
  | [] => None
  | p :: rest =>
      if negb (mp_address p =? addr) || (negb firstFit && negb (mp_sequence p =? seq))
      then (fun r => p :: r) <$> consume_mutex addr seq firstFit rest
      else let n := u64 (mp_count p - 1) in
           Some (if n =? 0 then rest
                 else {| mp_address := mp_address p; mp_sequence := mp_sequence p; mp_count := n |} :: rest)
  end.

Definition ConsumeGuestMutexPrepost (addr seq : Z) (firstFit : bool) (s : psynch) : bool * psynch :=
  match consume_mutex addr (count_part seq) firstFit (guestMutexPreposts s) with
  | Some l => (true, with_mutexPreposts l s)
  | None => (false, s)
  end.

Fixpoint record_condition (addr through : Z) (l : list GuestConditionPrepost) : list GuestConditionPrepost :=
  match l with
  | [] => [{| cp_address := addr; cp_throughSequence := through; cp_count := 1 |}]
  | p :: rest =>
      if (cp_address p =? addr) && (cp_throughSequence p =? through)
      then {| cp_address := cp_address p; cp_throughSequence := cp_throughSequence p;
              cp_count := u64 (cp_count p + 1) |} :: rest
      else p :: record_condition addr through rest
  end.

Definition RecordGuestConditionSignalPrepost (addr through : Z) (s : psynch) : psynch :=
  with_conditionPreposts (record_condition addr (count_part through) (guestConditionPreposts s)) s.

Definition subsumed (addr through : Z) (p : GuestConditionPrepost) : bool :=
  (cp_address p =? addr) && GuestPsynchSequenceLowerOrEqual (cp_throughSequence p) through.

Definition RecordGuestConditionBroadcastPrepost (addr through count : Z) (s : psynch) : psynch :=
  let through := count_part through in
  let kept := List.filter (fun p => negb (subsumed addr through p)) (guestConditionPreposts s) in
  with_conditionPreposts
    (if count =? 0 then kept
     else kept ++ [{| cp_address := addr; cp_throughSequence := through; cp_count := count |}]) s.

(** The prepost with the lowest sequence that covers the waiter, by index. *)
Definition covers (addr seq : Z) (p : GuestConditionPrepost) : bool :=
  (cp_address p =? addr) && GuestPsynchSequenceLowerOrEqual seq (cp_throughSequence p).

Definition select_condition (addr seq : Z) (l : list GuestConditionPrepost)
    : option (nat * GuestConditionPrepost) :=
  foldl (fun selected ip =>
    if covers addr seq (snd ip) then
      match selected with
      | None => Some ip
      | Some s => if GuestPsynchSequenceLower (cp_throughSequence (snd ip)) (cp_throughSequence (snd s))
                  then Some ip else Some s
      end
    else selected) None (imap pair l).

Definition ConsumeGuestConditionPrepost (addr seq : Z) (s : psynch) : bool * psynch :=
  match select_condition addr (count_part seq) (guestConditionPreposts s) with
  | None => (false, s)
  | Some (i, p) =>
      let n := u64 (cp_count p - 1) in
      (true, with_conditionPreposts
         (if n =? 0 then delete i (guestConditionPreposts s)
          else <[i := {| cp_address := cp_address p; cp_throughSequence := cp_throughSequence p;
                         cp_count := n |}]> (guestConditionPreposts s)) s)
  end.

(** ** Reader-writer locks *)

(** [TryHandleNativeGuestRwlockOverlapLocked]: a reader that arrives while the
    lock is held by readers only joins them.  [None] is [false]; otherwise the
    update word. *)
Fixpoint overlap_loop (addr lgen rwSequence : Z) (l : list NativeGuestRwlockOverlap)
    : option (Z * list NativeGuestRwlockOverlap) :=
  match l with
  | [] => None
  | o :: rest =>
      if ro_address o =? addr then
        if has_flag rwSequence GuestPsynchRwSequenceSavedWriterBit || has_flag lgen GuestPsynchRwWriterBit ||
           (negb (GuestPsynchSequenceLowerOrEqual rwSequence (ro_nextSequence o)) &&
            negb (GuestPsynchSequenceLowerOrEqual rwSequence (ro_lastSequence o)))
        then None
        else
          let next := u32 (ro_nextSequence o + GuestPsynchCountIncrement) in
          Some (Z.lor (Z.lor GuestPsynchCountIncrement (Z.land next GuestPsynchBitMask)) GuestPsynchRwOverlapBit,
                {| ro_address := ro_address o; ro_lastSequence := ro_lastSequence o; ro_nextSequence := next |} :: rest)
      else '(u, rest') ← overlap_loop addr lgen rwSequence rest; Some (u, o :: rest')
  end.

Definition TryHandleNativeGuestRwlockOverlapLocked (addr lgen rwSequence : Z) (s : psynch)
    : option (Z * psynch) :=
  '(u, l) ← overlap_loop addr lgen rwSequence (nativeGuestRwlockOverlaps s);
  Some (u, with_overlaps l s).

(** A waiter of the lock at [addr] that nobody has granted yet. *)
Definition rw_waiting (addr : Z) (w : NativeGuestWaiter) : bool :=
  negb (signaled w) && bool_decide (kind w = Rwlock) && (address w =? addr) &&
  negb (bool_decide (rwlockWaitType w = TypeNone)).

(** What the grant policy needs of a candidate, here and for cooperative
    threads: its identity, whether it wants to write, and its sequence. *)
Record rw_candidate := { rc_id : Z; rc_type : GuestRwlockWaitType; rc_sequence : Z }.

Definition is_writer (c : rw_candidate) : bool := bool_decide (rc_type c = Write).
Definition is_reader (c : rw_candidate) : bool := bool_decide (rc_type c = Read).

(** The scan for the lowest candidate and the lowest writer. *)
Definition lowest_of (first : rw_candidate) (l : list rw_candidate) : rw_candidate :=
  foldl (fun lowest c =>
    if GuestPsynchSequenceLower (rc_sequence c) (rc_sequence lowest) then c else lowest) first l.

Definition lowest_writer (l : list rw_candidate) : option rw_candidate :=
  foldl (fun lowest c =>
    if is_writer c && match lowest with
                      | None => true
                      | Some x => GuestPsynchSequenceLower (rc_sequence c) (rc_sequence x)
                      end
    then Some c else lowest) None l.

(** The candidates granted together: the lowest writer alone, or the readers in
    front of it. *)
Definition granted_set (l : list rw_candidate) : list rw_candidate :=
  match l with
  | [] => []
  | first :: _ =>
      let lowest := lowest_of first l in
      if is_writer lowest then [lowest] else
      List.filter (fun c => is_reader c &&
        match lowest_writer l with
        | None => true
        | Some x => GuestPsynchSequenceLower (rc_sequence c) (rc_sequence x)
        end) l
  end.

Definition in_granted (granted : list rw_candidate) (c : rw_candidate) : bool :=
  existsb (fun g => rc_id g =? rc_id c) granted.

Definition writer_grant (granted : list rw_candidate) : bool :=
  match granted with [c] => is_writer c | _ => false end.

Definition writer_remains (granted l : list rw_candidate) : bool :=
  existsb (fun c => is_writer c && negb (in_granted granted c)) l.

(** The update word of a grant. *)
Definition grant_update (granted l : list rw_candidate) : Z :=
  let u := if writer_grant granted
           then Z.lor (Z.lor GuestPsynchCountIncrement GuestPsynchRwKernelBit) GuestPsynchRwExclusiveBit
           else u32 (Z.of_nat (length granted) * GuestPsynchCountIncrement) in
  if writer_remains granted l
  then Z.lor u (Z.lor GuestPsynchRwKernelBit GuestPsynchRwWriterBit) else u.

Definition candidate_of (w : NativeGuestWaiter) : rw_candidate :=
  {| rc_id := waiter_id w; rc_type := rwlockWaitType w; rc_sequence := rwlockSequence w |}.

Definition rw_candidates (addr : Z) (s : psynch) : list rw_candidate :=
  candidate_of <$> List.filter (rw_waiting addr) (nativeGuestWaiters s).

Definition signal_granted (update : Z) (granted : list rw_candidate) (l : list NativeGuestWaiter)
    : list NativeGuestWaiter :=
  foldl (fun l c => signal (Some update) (rc_id c) l) l granted.

Fixpoint erase_unlock (addr : Z) (l : list NativeGuestRwlockUnlock) : list NativeGuestRwlockUnlock :=
  match l with
  | [] => []
  | u :: rest => if ru_address u =? addr then rest else u :: erase_unlock addr rest
  end.

(** [TryGrantNativeGuestRwlockLocked]: [None] is [false]; otherwise the update
    word and the new state. *)
Definition TryGrantNativeGuestRwlockLocked (addr : Z) (s : psynch) : option (Z * psynch) :=
  match List.find (fun u => ru_address u =? addr) (nativeGuestRwlockUnlocks s) with
  | None => None
  | Some unlock =>
      let waiting := rw_candidates addr s in
      let eligible := List.filter (fun c => GuestPsynchSequenceLowerOrEqual (rc_sequence c) (ru_lgen unlock)) waiting in
      if Z.of_nat (length eligible) <? ru_expectedWaiters unlock then None else
      if bool_decide (waiting = []) then None else
      let kept := List.filter (fun o => negb (ro_address o =? addr)) (nativeGuestRwlockOverlaps s) in
      let granted := granted_set waiting in
      let update := grant_update granted waiting in
      let overlaps :=
        if negb (writer_grant granted) && negb (writer_remains granted waiting)
        then kept ++ [{| ro_address := addr; ro_lastSequence := ru_rwSequence unlock;
                         ro_nextSequence := u32 (count_part (ru_rwSequence unlock) + update) |}]
        else kept in
      Some (update,
        with_unlocks (erase_unlock addr (nativeGuestRwlockUnlocks s))
          (with_overlaps overlaps
             (with_waiters (signal_granted update granted (nativeGuestWaiters s)) s)))
  end.

Fixpoint put_unlock (u : NativeGuestRwlockUnlock) (l : list NativeGuestRwlockUnlock)
    : list NativeGuestRwlockUnlock :=
  match l with
  | [] => [u]
  | x :: rest => if ru_address x =? ru_address u then u :: rest else x :: put_unlock u rest
  end.

(** [PostNativeGuestRwlockUnlockLocked]. *)
Definition PostNativeGuestRwlockUnlockLocked (addr lgen ugen rwSequence : Z) (s : psynch) : Z * psynch :=
  let expected := GuestPsynchSequenceDistance lgen ugen in
  if expected =? 0 then (0, s) else
  let s1 := with_unlocks (put_unlock {| ru_address := addr; ru_lgen := lgen; ru_rwSequence := rwSequence;
                                        ru_expectedWaiters := expected |} (nativeGuestRwlockUnlocks s)) s in
  match TryGrantNativeGuestRwlockLocked addr s1 with
  | Some (update, s2) => (update, s2)
  | None => (lgen, s1)
  end.

(** ** Waiting *)

(** The waiter [WaitNativeGuestThread] builds, before it has an arrival
    number. *)
Definition new_waiter (self port : Z) (k : GuestThreadWaitKind) (addr result mutexSeq : Z)
    (rwType : GuestRwlockWaitType) (rwSeq condSeq : Z) : NativeGuestWaiter :=
  {| waiter_id := self; kind := k; address := addr; ulockOpcode := 0; rwlockWaitType := rwType;
     rwlockSequence := rwSeq; mutexSequence := mutexSeq; conditionSequence := condSeq;
     threadPort := port; wakeResult := result; sequence := 0; signaled := false |}.

Definition with_sequence (n : Z) (w : NativeGuestWaiter) : NativeGuestWaiter :=
  {| waiter_id := waiter_id w; kind := kind w; address := address w; ulockOpcode := ulockOpcode w;
     rwlockWaitType := rwlockWaitType w; rwlockSequence := rwlockSequence w;
     mutexSequence := mutexSequence w; conditionSequence := conditionSequence w;
     threadPort := threadPort w; wakeResult := wakeResult w; sequence := n; signaled := signaled w |}.

Definition enqueue (w : NativeGuestWaiter) (s : psynch) : psynch :=
  with_waiters (nativeGuestWaiters s ++ [with_sequence (guestNextWaitSequence s) w])
    (with_nextSequence (u64 (guestNextWaitSequence s + 1)) s).

(** The first half of [WaitNativeGuestThread]: an immediate result, or [None]
    when the waiter was enqueued and the caller blocks (it may have been granted
    at once). *)
Definition WaitNativeGuestThread (w : NativeGuestWaiter) (firstFit : bool) (rwState : Z)
    (timeoutSeconds timeoutNanoseconds : Z) (s : psynch) : option sysret * psynch :=
  if bool_decide (kind w = Condition) &&
     ((timeoutSeconds <? 0) || (1000000000 <=? Z.land timeoutNanoseconds 0x3fffffff))
  then (Some (return_with_carry_direct EINVAL true), s) else
  let block s := (None, if bool_decide (kind w = Rwlock)
                        then match TryGrantNativeGuestRwlockLocked (address w) (enqueue w s) with
                             | Some (_, s') => s'
                             | None => enqueue w s
                             end
                        else enqueue w s) in
  match kind w with
  | Rwlock =>
      if bool_decide (rwlockWaitType w = Read) then
        match TryHandleNativeGuestRwlockOverlapLocked (address w) (rwlockSequence w) rwState s with
        | Some (u, s') => (Some (return_with_carry_direct u false), s')
        | None => block s
        end
      else block s
  | Condition =>
      let '(consumed, s') := ConsumeGuestConditionPrepost (address w) (conditionSequence w) s in
      if consumed then (Some (return_with_carry_direct GuestPsynchCountIncrement false), s') else block s
  | Mutex =>
      let '(consumed, s') := ConsumeGuestMutexPrepost (address w) (mutexSequence w) firstFit s in
      if consumed then (Some (return_with_carry_direct (wakeResult w) false), s') else block s
  | _ => block s
  end.

(** The second half of [WaitNativeGuestThread] and [GuestUlockWait]: why the
    blocked thread leaves its loop.  Being woken needs the signal, timing out
    needs its absence (the timed wait reports its predicate); the interrupted
    return behind a debugger pause tests neither. *)
Inductive leave := Woken | TimedOut | Interrupted.

Definition find_waiter (id : Z) (s : psynch) : option NativeGuestWaiter :=
  List.find (fun w => waiter_id w =? id) (nativeGuestWaiters s).

Definition erase_waiter (id : Z) (s : psynch) : psynch :=
  with_waiters (List.filter (fun w => negb (waiter_id w =? id)) (nativeGuestWaiters s)) s.

(** [None] when the wait cannot end this way now. *)
Definition FinishWait (id : Z) (why : leave) (condSeq condSSeq : Z) (s : psynch) : option (sysret * psynch) :=
  match find_waiter id s with
  | None => None
  | Some w =>
      if bool_decide (kind w = Ulock) then None else
      match why with
      | Woken => if signaled w
                 then Some (return_with_carry_direct (wakeResult w) false, erase_waiter id s) else None
      | TimedOut =>
          if signaled w || negb (bool_decide (kind w = Condition)) then None else
          let error := if GuestPsynchSequenceDistance condSeq condSSeq <=? 1
                       then Z.lor ETIMEDOUT 0x100 else ETIMEDOUT in
          Some (return_with_carry_direct error true, erase_waiter id s)
      | Interrupted => Some (return_with_carry_direct EINTR true, erase_waiter id s)
      end
  end.

(** ** The native system calls *)

(** [GuestPsynchMutexWait], native threads. *)
Definition mutex_wake_result (mgen : Z) : Z :=
  Z.lor (Z.lor (count_part mgen) GuestPsynchRwKernelBit) GuestPsynchRwExclusiveBit.

Definition NativeMutexWait (self port mutex mgen flags : Z) (s : psynch) : option sysret * psynch :=
  WaitNativeGuestThread
    (new_waiter self port Mutex mutex (mutex_wake_result mgen) (count_part mgen) TypeNone 0 0)
    (GuestPsynchMutexIsFirstFit flags) 0 0 0 s.

(** The sequence a drop grants. *)
Definition mutex_drop_target (mgen ugen flags : Z) : Z :=
  if GuestPsynchMutexIsFirstFit flags then count_part mgen
  else count_part (u32 (ugen + GuestPsynchCountIncrement)).

(** [GuestPsynchMutexDrop], native threads. *)
Definition NativeMutexDrop (mutex mgen ugen flags : Z) (s : psynch) : sysret * psynch :=
  let target := mutex_drop_target mgen ugen flags in
  let '(s1, woken) := WakeNativeGuestMutexThreadLocked mutex target (GuestPsynchMutexIsFirstFit flags) s in
  (return_with_carry_direct 0 false,
   if woken =? 0 then RecordGuestMutexPrepost mutex target s1 else s1).

(** [GuestPsynchConditionWait], native threads. *)
Definition NativeConditionWait (self port condition condSeq mutex mutexMgen mutexUgen flags
    timeoutSeconds timeoutNanoseconds : Z) (s : psynch) : option sysret * psynch :=
  let s1 := if negb (mutex =? 0) then snd (NativeMutexDrop mutex mutexMgen mutexUgen flags s) else s in
  WaitNativeGuestThread (new_waiter self port Condition condition 0 0 TypeNone 0 condSeq)
    false 0 timeoutSeconds timeoutNanoseconds s1.

Definition PTH_RWS_CV_PBIT : Z := 0x02.
Definition PTH_RWS_CV_CBIT : Z := 0x01.

(** The result word of a signal or broadcast. *)
Definition condition_update (outstanding woken : Z) (hasPrepost : bool) : Z :=
  let bits := Z.min (woken * GuestPsynchCountIncrement) GuestPsynchCountMask in
  if hasPrepost then Z.lor bits PTH_RWS_CV_PBIT
  else if negb (outstanding =? 0) && (outstanding <=? woken) then Z.lor bits PTH_RWS_CV_CBIT
  else bits.

(** [GuestPsynchConditionSignal], native threads. *)
Definition NativeConditionSignal (condition condSeq condSSeq target : Z) (broadcast : bool) (s : psynch)
    : sysret * psynch :=
  let through := count_part condSeq in
  let outstanding := GuestPsynchSequenceDistance condSeq condSSeq in
  let '(s1, woken) := WakeNativeGuestConditionThreadsLocked condition through broadcast target s in
  let missing := if woken <? outstanding then outstanding - woken else 0 in
  let s2 := if MACH_PORT_VALID target then s1 else
            if broadcast then RecordGuestConditionBroadcastPrepost condition through missing s1
            else if woken =? 0 then RecordGuestConditionSignalPrepost condition through s1 else s1 in
  if MACH_PORT_VALID target && (woken =? 0) then (return_with_carry_direct ESRCH true, s2) else
  let hasPrepost := negb (MACH_PORT_VALID target) &&
                    (if broadcast then woken <? outstanding else woken =? 0) in
  (return_with_carry_direct (condition_update outstanding woken hasPrepost) false, s2).

(** [GuestPsynchRwWait] and [GuestPsynchRwUnlock], native threads. *)
Definition NativeRwWait (self port rwlock lgen rwSequence : Z) (write : bool) (s : psynch)
    : option sysret * psynch :=
  WaitNativeGuestThread
    (new_waiter self port Rwlock rwlock 0 0 (if write then Write else Read) lgen 0)
    false rwSequence 0 0 s.

Definition NativeRwUnlock (rwlock lgen ugen rwSequence : Z) (s : psynch) : sysret * psynch :=
  let '(u, s') := PostNativeGuestRwlockUnlockLocked rwlock lgen ugen rwSequence s in
  (return_with_carry_direct u false, s').

(** ** ulock *)

Definition GuestUlCompareAndWait : Z := 1.
Definition GuestUlUnfairLock : Z := 2.
Definition GuestUlOpcodeMask : Z := 0x000000ff.
Definition GuestUlfWakeAll : Z := 0x00000100.
Definition GuestUlfWakeThread : Z := 0x00000200.
Definition GuestUlfWaitWorkqDataContention : Z := 0x00010000.
Definition GuestUlfNoErrno : Z := 0x01000000.
Definition GuestUlfWaitMask : Z := Z.lor GuestUlfWaitWorkqDataContention GuestUlfNoErrno.
Definition GuestUlfWakeMask : Z := Z.lor (Z.lor GuestUlfWakeAll GuestUlfWakeThread) GuestUlfNoErrno.
Definition EDOM : Z := 33.
Definition EALREADY : Z := 37.
Definition INT32_MAX : Z := 2 ^ 31 - 1.

Definition ulock_opcode (operation : Z) : Z := Z.land operation GuestUlOpcodeMask.
Definition ulock_flags (operation : Z) : Z := Z.land operation (u32_not GuestUlOpcodeMask).

Definition GuestUlockReturn (error flags successValue : Z) : sysret :=
  if error =? 0 then return_with_carry_direct (Z.min successValue INT32_MAX) false else
  if has_flag flags GuestUlfNoErrno then return_with_carry_direct (- error) false else
  return_with_carry_direct error true.

(** [ReadGuestUlockWord]: the little-endian word, or the error. *)
Definition ReadGuestUlockWord (v : vm) (addr : Z) : Z + Z :=
  if (addr =? 0) || has_flag addr 3 then inr EINVAL else
  let hostWord := get_memory v addr in
  if hostWord =? 0 then inr EFAULT else
  inl (foldr (fun b acc => b + 256 * acc) 0 (host_read (host v) hostWord 4)).

Definition GuestUlockOpcodeValid (opcode : Z) : bool :=
  (opcode =? GuestUlCompareAndWait) || (opcode =? GuestUlUnfairLock).

Definition ulock_at (addr : Z) (w : NativeGuestWaiter) : bool :=
  bool_decide (kind w = Ulock) && (address w =? addr).

Definition MatchingNativeUlockWaitersLocked (addr opcode : Z) (s : psynch) : Z :=
  Z.of_nat (length (List.filter (fun w => ulock_at addr w && (ulockOpcode w =? opcode)) (nativeGuestWaiters s))).

Definition NativeUlockAddressHasOtherOpcodeLocked (addr opcode : Z) (s : psynch) : bool :=
  existsb (fun w => ulock_at addr w && negb (ulockOpcode w =? opcode)) (nativeGuestWaiters s).

(** [GuestUlockWait], native threads, up to blocking: an immediate result, or
    [None] with the waiter enqueued. *)
Definition NativeUlockWait (self port operation addr val : Z) (v : vm) (s : psynch)
    : option sysret * psynch :=
  let opcode := ulock_opcode operation in
  let flags := ulock_flags operation in
  if negb (GuestUlockOpcodeValid opcode) || has_flag flags (u32_not GuestUlfWaitMask)
  then (Some (GuestUlockReturn EINVAL flags 0), s) else
  if NativeUlockAddressHasOtherOpcodeLocked addr opcode s
  then (Some (GuestUlockReturn EDOM flags 0), s) else
  match ReadGuestUlockWord v addr with
  | inr e => (Some (GuestUlockReturn e flags 0), s)
  | inl current =>
      if negb (current =? val)
      then (Some (GuestUlockReturn 0 flags (MatchingNativeUlockWaitersLocked addr opcode s)), s)
      else (None, enqueue {| waiter_id := self; kind := Ulock; address := addr; ulockOpcode := opcode;
              rwlockWaitType := TypeNone; rwlockSequence := 0; mutexSequence := 0; conditionSequence := 0;
              threadPort := port; wakeResult := 0; sequence := 0; signaled := false |} s)
  end.

(** The end of a blocked [GuestUlockWait]; [timed] is whether it has a timeout. *)
Definition FinishUlockWait (id : Z) (why : leave) (flags : Z) (timed : bool) (s : psynch)
    : option (sysret * psynch) :=
  match find_waiter id s with
  | None => None
  | Some w =>
      if negb (bool_decide (kind w = Ulock)) then None else
      let s' := erase_waiter id s in
      match why with
      | Woken => if signaled w
          then Some (GuestUlockReturn 0 flags (MatchingNativeUlockWaitersLocked (address w) (ulockOpcode w) s'), s')
          else None
      | TimedOut => if signaled w || negb timed then None else Some (GuestUlockReturn ETIMEDOUT flags 0, s')
      | Interrupted => Some (GuestUlockReturn EINTR flags 0, s')
      end
  end.

(** [GuestUlockWake], native threads; [targetExists] is
    [GuestUlockTargetThreadExists]. *)
Definition ulock_candidate (addr opcode target : Z) (targetWake : bool) (w : NativeGuestWaiter) : bool :=
  ulock_at addr w && (ulockOpcode w =? opcode) && negb (targetWake && negb (threadPort w =? target)).

Definition ulock_wake_invalid (operation addr : Z) : bool :=
  let flags := ulock_flags operation in
  negb (GuestUlockOpcodeValid (ulock_opcode operation)) || has_flag flags (u32_not GuestUlfWakeMask) ||
  has_all flags (Z.lor GuestUlfWakeAll GuestUlfWakeThread) || (addr =? 0).

Definition NativeUlockWake (operation addr wakeValue : Z) (targetExists : Z -> bool) (s : psynch)
    : sysret * psynch :=
  let opcode := ulock_opcode operation in
  let flags := ulock_flags operation in
  if ulock_wake_invalid operation addr then (GuestUlockReturn EINVAL flags 0, s) else
  let targetWake := has_flag flags GuestUlfWakeThread in
  let target := u32 wakeValue in
  if targetWake && negb (targetExists target) then (GuestUlockReturn ESRCH flags 0, s) else
  if MatchingNativeUlockWaitersLocked addr opcode s =? 0
  then (GuestUlockReturn (if NativeUlockAddressHasOtherOpcodeLocked addr opcode s then EDOM else ENOENT) flags 0, s)
  else
    let '(s1, woken) := wake (ulock_candidate addr opcode target targetWake) None
                          (negb (has_flag flags GuestUlfWakeAll) || targetWake) s in
    if targetWake && (woken =? 0) then (GuestUlockReturn EALREADY flags 0, s1)
    else (GuestUlockReturn 0 flags 0, s1).

End Psynch.
