(* ===== verification/PsynchWake.v ===== *)
(** The arithmetic of psynch sequence words, and the wake loops: which waiters are
    signalled, in which order, and that the loops end. *)

From stdpp Require Import base gmap list fin_maps list_numbers.
From Stdlib Require Import ZArith Lia.
From S2P Require Import Prelude Psynch.

Open Scope Z_scope.

Import Psynch.

(** ** The 24-bit generation arithmetic: order, distance and wrap-around *)

Definition GENERATIONS : Z := 2 ^ 24.

(** The generation number of a word. *)
Definition gen (x : Z) : Z := (x / 256) mod GENERATIONS.

Lemma gen_range x : 0 <= gen x < GENERATIONS.
Proof. apply Z.mod_pos_bound. done. Qed.

Lemma count_part_gen x : count_part x = 256 * gen x.
Proof.
  unfold count_part, gen. change GuestPsynchCountMask with (Z.shiftl (Z.ones 24) 8).
  transitivity (Z.shiftl (Z.land (Z.shiftr x 8) (Z.ones 24)) 8).
  - apply Z.bits_inj'. intros i Hi. rewrite Z.land_spec, !Z.shiftl_spec by done.
    destruct (Z_le_gt_dec 8 i) as [Hle|Hlt].
    + rewrite Z.land_spec, Z.shiftr_spec by lia. by replace (i - 8 + 8) with i by lia.
    + rewrite !(Z.testbit_neg_r _ (i - 8)) by lia. apply andb_false_r.
  - rewrite Z.land_ones, Z.shiftr_div_pow2, Z.shiftl_mul_pow2 by done.
    change (2 ^ 8) with 256. change (2 ^ 24) with GENERATIONS. lia.
Qed.

Lemma count_part_idem x : count_part (count_part x) = count_part x.
Proof. unfold count_part. by rewrite <- Z.land_assoc, Z.land_diag. Qed.

(** [Lower] in terms of generations. *)
Lemma lower_gen x y :
  GuestPsynchSequenceLower x y =
    if gen x <? gen y then gen y - gen x <? 2 ^ 23 else 2 ^ 23 <=? gen x - gen y.
Proof.
  unfold GuestPsynchSequenceLower. rewrite !count_part_gen.
  change (GuestPsynchCountMask / 2) with 0x7fffff80.
  apply eq_bool_prop_intro. repeat case_match; zb; rewrite ?Is_true_true;
    rewrite ?Z.ltb_lt, ?Z.leb_le; lia.
Qed.

Lemma lower_or_equal_mask x y :
  GuestPsynchSequenceLowerOrEqual (count_part x) y = GuestPsynchSequenceLowerOrEqual x y /\
  GuestPsynchSequenceLowerOrEqual x (count_part y) = GuestPsynchSequenceLowerOrEqual x y.
Proof.
  unfold GuestPsynchSequenceLowerOrEqual, GuestPsynchSequenceLower. by rewrite !count_part_idem.
Qed.

(** The word [i] generations after [x], wrapping around. *)
Definition advance (x i : Z) : Z := u32 (x + i * GuestPsynchCountIncrement).

Lemma gen_advance x i : gen (advance x i) = (gen x + i) mod GENERATIONS.
Proof.
  unfold gen, advance, u32, U32_MOD, GuestPsynchCountIncrement, GENERATIONS.
  rewrite Z.add_mod_idemp_l by done. rewrite <- Z.div_add by done.
  generalize (x + i * 256) as z. intros z.
  change (2 ^ 32) with (256 * 2 ^ 24). rewrite Z.rem_mul_r by done.
  rewrite Z.add_comm, Z.mul_comm, Z.div_add_l by done.
  rewrite (Z.div_small (z mod 256)) by (by apply Z.mod_pos_bound).
  rewrite Z.add_0_r. apply Z.mod_mod. done.
Qed.

Lemma distance_gen x y :
  GuestPsynchSequenceDistance x y = (gen x - gen y) mod GENERATIONS.
Proof.
  unfold GuestPsynchSequenceDistance. rewrite count_part_gen.
  change GuestPsynchCountIncrement with 256. rewrite Z.mul_comm, Z.div_mul by done.
  rewrite !count_part_gen. replace (256 * gen x - 256 * gen y) with (0 + (gen x - gen y) * GuestPsynchCountIncrement)
    by (change GuestPsynchCountIncrement with 256; lia).
  fold (advance 0 (gen x - gen y)). rewrite gen_advance. done.
Qed.

(** The psynch order is sound across wrap-around.  Two words compare by
    generation only and exactly one of equal, lower and higher holds; within
    any window of 2^23 consecutive generations, wherever it starts and even if
    it wraps, [Lower] is the order of arrival and the distance counts the
    generations in between. *)
Theorem sequence_order :
  (forall x y, (count_part x = count_part y /\ GuestPsynchSequenceLower x y = false /\
                GuestPsynchSequenceLower y x = false) \/
     (count_part x <> count_part y /\
      GuestPsynchSequenceLower x y = negb (GuestPsynchSequenceLower y x))) /\
  (forall x i j, 0 <= i < 2 ^ 23 -> 0 <= j < 2 ^ 23 ->
     GuestPsynchSequenceLower (advance x i) (advance x j) = (i <? j) /\
     GuestPsynchSequenceLowerOrEqual (advance x i) (advance x j) = (i <=? j) /\
     (i <= j -> GuestPsynchSequenceDistance (advance x j) (advance x i) = j - i)).
Proof.
  split.
  - intros x y. rewrite !count_part_gen, !lower_gen.
    destruct (decide (gen x = gen y)) as [->|Hne].
    + left. rewrite Z.ltb_irrefl, Z.sub_diag. done.
    + right. split; [lia|]. apply eq_bool_prop_intro. rewrite negb_True, !Is_true_true.
      repeat case_match; zb; rewrite ?Z.ltb_lt, ?Z.leb_le; lia.
  - intros x i j Hi Hj. pose proof (gen_range x) as Hx.
    assert (forall k, 0 <= k < 2 ^ 23 -> gen (advance x k) = gen x + k \/
              gen (advance x k) = gen x + k - GENERATIONS /\ GENERATIONS <= gen x + k) as Hk.
    { intros k Hk. rewrite gen_advance. unfold GENERATIONS in *.
      destruct (Z.ltb_spec (gen x + k) (2 ^ 24)) as [Hlt|Hge]; [left; apply Z.mod_small; lia|right].
      split; [|done]. rewrite <- (Z.mod_small (gen x + k - 2 ^ 24) (2 ^ 24)) by lia.
      rewrite <- (Z_mod_plus_full (gen x + k - 2 ^ 24) 1 (2 ^ 24)). f_equal. lia. }
    pose proof (gen_range (advance x i)) as Hgi. pose proof (gen_range (advance x j)) as Hgj.
    assert (GuestPsynchSequenceLower (advance x i) (advance x j) = (i <? j)) as Hl.
    { rewrite lower_gen. unfold GENERATIONS in *.
      destruct (Hk i Hi) as [Ei|[Ei ?]], (Hk j Hj) as [Ej|[Ej ?]]; rewrite Ei, Ej in *;
        apply eq_bool_prop_intro; rewrite !Is_true_true;
        repeat case_match; zb; rewrite ?Z.ltb_lt, ?Z.leb_le; lia. }
    split_and!; [done| |].
    + unfold GuestPsynchSequenceLowerOrEqual. rewrite Hl, !count_part_gen. unfold GENERATIONS in *.
      destruct (Hk i Hi) as [Ei|[Ei ?]], (Hk j Hj) as [Ej|[Ej ?]]; rewrite Ei, Ej in *;
        apply eq_bool_prop_intro; rewrite !Is_true_true, orb_true_iff, Z.eqb_eq, Z.ltb_lt, Z.leb_le; lia.
    + intros Hij. rewrite distance_gen. rewrite !gen_advance.
      rewrite <- Zminus_mod. replace (gen x + j - (gen x + i)) with (j - i) by lia.
      apply Z.mod_small. unfold GENERATIONS. lia.
Qed.

(** ** Ranks inside a window *)

(** Generations since [base]. *)
Definition rank (base x : Z) : Z := (gen x - gen base) mod GENERATIONS.

(** [x] is at most half the generation space behind [base]. *)
Definition in_window (base x : Z) : Prop := rank base x < 2 ^ 23.

Lemma lower_rank base x y :
  in_window base x -> in_window base y ->
  GuestPsynchSequenceLower x y = (rank base x <? rank base y).
Proof.
  unfold in_window, rank. rewrite lower_gen.
  pose proof (gen_range x) as Hx. pose proof (gen_range y) as Hy. pose proof (gen_range base) as Hb.
  assert (forall g, 0 <= g < GENERATIONS -> (g - gen base) mod GENERATIONS = g - gen base /\ gen base <= g \/
    (g - gen base) mod GENERATIONS = g - gen base + GENERATIONS /\ g < gen base) as Hm.
  { intros g Hg. unfold GENERATIONS in *. destruct (Z.leb_spec (gen base) g); [left|right]; (split; [|done]).
    - apply Z.mod_small. lia.
    - rewrite <- (Z.mod_small (g - gen base + 2 ^ 24) (2 ^ 24)) by lia.
      rewrite <- (Z_mod_plus_full (g - gen base) 1 (2 ^ 24)). f_equal. }
  destruct (Hm _ Hx) as [[-> ?]|[-> ?]], (Hm _ Hy) as [[-> ?]|[-> ?]]; unfold GENERATIONS in *; intros H1 H2;
    apply eq_bool_prop_intro; rewrite !Is_true_true; repeat case_match; zb; rewrite ?Z.ltb_lt, ?Z.leb_le; lia.
Qed.



Import Psynch.

Definition ids (l : list NativeGuestWaiter) : list Z := waiter_id <$> l.

(** ** Selection *)

Lemma select_oldest_spec p l :
  match select_oldest p l with
  | None => forall w, w ∈ l -> p w = false
  | Some w => w ∈ l /\ p w = true /\ forall w', w' ∈ l -> p w' = true -> sequence w <= sequence w'
  end.
Proof.
  induction l as [|w l IH] using rev_ind; [intros w Hw; by apply elem_of_nil in Hw|].
  unfold select_oldest in *. rewrite foldl_app. cbn. destruct (foldl _ None l) as [s|].
  - destruct IH as (Hin & Hp & Hmin). destruct (p w) eqn:E.
    + destruct (sequence w <? sequence s) eqn:El; zb; (split; [set_solver|split; [done|]]);
        intros w' [Hw'|Hw']%elem_of_app Hpw'; try (specialize (Hmin w' Hw' Hpw'); lia);
        apply list_elem_of_singleton in Hw' as ->; lia.
    + split; [set_solver|]. split; [done|]. intros w' [Hw'|Hw']%elem_of_app Hpw'; [by apply Hmin|].
      apply list_elem_of_singleton in Hw' as ->. congruence.
  - destruct (p w) eqn:E.
    + split; [set_solver|]. split; [done|]. intros w' [Hw'|Hw']%elem_of_app Hpw'.
      * rewrite IH in Hpw'; done.
      * apply list_elem_of_singleton in Hw' as ->. lia.
    + intros w' [Hw'|Hw']%elem_of_app; [by apply IH|]. by apply list_elem_of_singleton in Hw' as ->.
Qed.

(** ** Signalling *)

Lemma signal_ids r id l : ids (signal r id l) = ids l.
Proof.
  unfold ids, signal. rewrite <- list_fmap_compose. apply list_fmap_ext. intros i w _. cbn.
  by destruct (waiter_id w =? id).
Qed.

Lemma signal_cons r id w l :
  signal r id (w :: l) = (if waiter_id w =? id then with_signal r w else w) :: signal r id l.
Proof. done. Qed.

Lemma signal_elem r id l w :
  w ∈ signal r id l <-> exists w0, w0 ∈ l /\ w = (if waiter_id w0 =? id then with_signal r w0 else w0).
Proof. unfold signal. rewrite list_elem_of_fmap. naive_solver. Qed.

Lemma ids_inj l w w' : NoDup (ids l) -> w ∈ l -> w' ∈ l -> waiter_id w = waiter_id w' -> w = w'.
Proof.
  intros Hnd Hw Hw' He. apply list_elem_of_lookup in Hw as [i Hi]. apply list_elem_of_lookup in Hw' as [j Hj].
  assert (i = j) as ->; [|congruence]. eapply (NoDup_lookup (ids l)); [done| |];
    unfold ids; rewrite list_lookup_fmap; [rewrite Hi|rewrite Hj]; cbn; [done|by rewrite He].
Qed.

(** Waiters still to be woken by a loop. *)
Definition target (p : NativeGuestWaiter -> bool) (w : NativeGuestWaiter) : bool := negb (signaled w) && p w.

Definition targets (p : NativeGuestWaiter -> bool) (l : list NativeGuestWaiter) : Z :=
  Z.of_nat (length (List.filter (target p) l)).

(** The list after all targets were woken. *)
Definition wake_all (p : NativeGuestWaiter -> bool) (r : option Z) (l : list NativeGuestWaiter)
    : list NativeGuestWaiter :=
  (fun w => if target p w then with_signal r w else w) <$> l.

Lemma targets_cons p w l : targets p (w :: l) = (if target p w then 1 else 0) + targets p l.
Proof. unfold targets. cbn. destruct (target p w); cbn; lia. Qed.

Lemma targets_nonneg p l : 0 <= targets p l.
Proof. unfold targets. lia. Qed.

Lemma targets_le p l : targets p l <= Z.of_nat (length l).
Proof. induction l as [|w l IH]; [done|]. rewrite targets_cons. cbn. destruct (target p w); lia. Qed.

Lemma target_with_signal p r w : target p (with_signal r w) = false.
Proof. done. Qed.

Lemma signal_notin r id l : id ∉ ids l -> signal r id l = l.
Proof.
  induction l as [|w l IH]; intros Hni; [done|]. apply not_elem_of_cons in Hni as [Hne Hni].
  rewrite signal_cons, (IH Hni). destruct (waiter_id w =? id) eqn:E; [|done]. zb. congruence.
Qed.

(** Signalling one target of a list with distinct identities. *)
Lemma signal_target p r l w :
  NoDup (ids l) -> w ∈ l -> target p w = true ->
  targets p (signal r (waiter_id w) l) = targets p l - 1 /\
  wake_all p r (signal r (waiter_id w) l) = wake_all p r l.
Proof.
  induction l as [|x l IH]; intros Hnd Hw Ht; [by apply elem_of_nil in Hw|].
  cbn in Hnd. apply NoDup_cons in Hnd as [Hx Hnd].
  apply elem_of_cons in Hw as [->|Hw].
  - rewrite signal_cons, Z.eqb_refl, signal_notin by done. rewrite !targets_cons, target_with_signal, Ht. split; [lia|].
    cbn. by rewrite Ht.
  - destruct (IH Hnd Hw Ht) as [H1 H2].
    assert ((waiter_id x =? waiter_id w) = false) as Hne.
    { apply Z.eqb_neq. intros He. apply Hx. rewrite He. unfold ids. apply list_elem_of_fmap. eauto. }
    rewrite signal_cons, Hne, !targets_cons, H1. split; [lia|]. cbn. f_equal. exact H2.
Qed.

Lemma wake_all_none p r l : targets p l = 0 -> wake_all p r l = l.
Proof.
  induction l as [|w l IH]; [done|]. rewrite targets_cons. pose proof (targets_nonneg p l). intros Hz.
  destruct (target p w) eqn:E; [lia|]. cbn. rewrite E. f_equal. apply IH. lia.
Qed.

Lemma targets_zero p l : targets p l = 0 <-> forall w, w ∈ l -> target p w = false.
Proof.
  induction l as [|x l IH]; [split; [intros _ w Hw; by apply elem_of_nil in Hw|done]|].
  rewrite targets_cons. pose proof (targets_nonneg p l). split.
  - intros Hz. destruct (target p x) eqn:E; [lia|].
    intros w [->|Hw]%elem_of_cons; [done|]. apply IH; [lia|done].
  - intros Hw. rewrite (Hw x) by (by left). apply IH. intros w Hin. apply Hw. by right.
Qed.

(** ** The loop *)

Lemma wake_loop_all p r fuel : forall l n,
  NoDup (ids l) -> targets p l < Z.of_nat fuel ->
  wake_loop fuel p r false l n = (wake_all p r l, n + targets p l).
Proof.
  induction fuel as [|f IH]; intros l n Hnd Hf; [pose proof (targets_nonneg p l); lia|]. cbn [wake_loop].
  pose proof (select_oldest_spec (target p) l) as Hsel.
  change (fun w => negb (signaled w) && p w) with (target p).
  destruct (select_oldest (target p) l) as [w|].
  - destruct Hsel as (Hin & Ht & _). destruct (signal_target p r l w Hnd Hin Ht) as [H1 H2].
    rewrite IH; [|by rewrite signal_ids|lia]. rewrite H1, H2. f_equal. lia.
  - apply targets_zero in Hsel. rewrite Hsel, wake_all_none by done. f_equal. lia.
Qed.

(** Waking everybody that satisfies [p]. *)
Lemma wake_all_spec p r s :
  NoDup (ids (nativeGuestWaiters s)) ->
  wake p r false s = (with_waiters (wake_all p r (nativeGuestWaiters s)) s, targets p (nativeGuestWaiters s)).
Proof.
  intros Hnd. unfold wake. rewrite wake_loop_all; [done|done|].
  pose proof (targets_le p (nativeGuestWaiters s)). lia.
Qed.

(** Waking one: the oldest that satisfies [p]. *)
Lemma wake_one_spec p r s :
  (wake p r true s = (s, 0) /\ forall w, w ∈ nativeGuestWaiters s -> target p w = false) \/
  (exists w, w ∈ nativeGuestWaiters s /\ target p w = true /\
     (forall w', w' ∈ nativeGuestWaiters s -> target p w' = true -> sequence w <= sequence w') /\
     wake p r true s = (with_waiters (signal r (waiter_id w) (nativeGuestWaiters s)) s, 1)).
Proof.
  unfold wake. cbn [wake_loop]. change (fun w => negb (signaled w) && p w) with (target p).
  pose proof (select_oldest_spec (target p) (nativeGuestWaiters s)) as Hsel.
  destruct (select_oldest (target p) (nativeGuestWaiters s)) as [w|].
  - right. exists w. destruct Hsel as (? & ? & ?). done.
  - left. split; [by destruct s|done].
Qed.
