(* ===== verification/PsynchRun.v ===== *)
(** Runs of the native synchronisation calls, and what they promise: no
    handoff to a mutex waiter and no condition signal is lost between a thread
    that is still on its way into the wait and the thread that wakes it. *)

From S2P Require Import Prelude.
From S2P Require Import GuestMemory.
From S2P Require Import Psynch.
From S2P Require Import PsynchWake.
From S2P Require Import PsynchWake.
From stdpp Require Import base gmap list fin_maps list_numbers.
From Stdlib Require Import ZArith Lia.
Open Scope Z_scope.

Import Psynch.

(** ** Operations *)

Inductive op :=
  | OMutexWait (self port mutex mgen flags : Z)
  | OMutexDrop (mutex mgen ugen flags : Z)
  | OConditionWait (self port condition condSeq mutex mgen ugen flags ts tns : Z)
  | OConditionSignal (condition condSeq condSSeq target : Z) (broadcast : bool)
  | ORwWait (self port rwlock lgen rwSequence : Z) (write : bool)
  | ORwUnlock (rwlock lgen ugen rwSequence : Z)
  | OUlockWait (self port operation addr val : Z) (v : vm)
  | OUlockWake (operation addr wakeValue : Z) (targetExists : Z -> bool)
  | OFinish (id : Z) (why : leave) (condSeq condSSeq : Z)
  | OFinishUlock (id : Z) (why : leave) (flags : Z) (timed : bool).

(** The result, [None] while the caller is blocked. *)
Definition outcome : Type := option sysret * psynch.

(** A thread waits on a waiter of its own: its identity is not in use. *)
Definition identity_unused (self : Z) (s : psynch) : bool := negb (bool_decide (self ∈ ids (nativeGuestWaiters s))).

Definition exec (o : op) (s : psynch) : option outcome :=
  let call (r : sysret * psynch) := Some (Some (fst r), snd r) in
  let wait self (r : outcome) := if identity_unused self s then Some r else None in
  match o with
  | OMutexWait self port mutex mgen flags => wait self (NativeMutexWait self port mutex mgen flags s)
  | OMutexDrop mutex mgen ugen flags => call (NativeMutexDrop mutex mgen ugen flags s)
  | OConditionWait self port condition condSeq mutex mgen ugen flags ts tns =>
      wait self (NativeConditionWait self port condition condSeq mutex mgen ugen flags ts tns s)
  | OConditionSignal condition condSeq condSSeq target broadcast =>
      call (NativeConditionSignal condition condSeq condSSeq target broadcast s)
  | ORwWait self port rwlock lgen rwSequence write =>
      wait self (NativeRwWait self port rwlock lgen rwSequence write s)
  | ORwUnlock rwlock lgen ugen rwSequence => call (NativeRwUnlock rwlock lgen ugen rwSequence s)
  | OUlockWait self port operation addr val v =>
      wait self (NativeUlockWait self port operation addr val v s)
  | OUlockWake operation addr wakeValue targetExists =>
      call (NativeUlockWake operation addr wakeValue targetExists s)
  | OFinish id why condSeq condSSeq =>
      r ← FinishWait id why condSeq condSSeq s; call r
  | OFinishUlock id why flags timed => r ← FinishUlockWait id why flags timed s; call r
  end.

Definition step_op (o : op) (s : psynch) : option psynch := snd <$> exec o s.

Fixpoint run (ops : list op) (s : psynch) : option psynch :=
  match ops with
  | [] => Some s
  | o :: rest => s' ← step_op o s; run rest s'
  end.

(** ** Keys and live waiters *)

Definition mutex_keys (s : psynch) : list (Z * Z) :=
  (fun p => (mp_address p, mp_sequence p)) <$> guestMutexPreposts s.
Definition condition_keys (s : psynch) : list (Z * Z) :=
  (fun p => (cp_address p, cp_throughSequence p)) <$> guestConditionPreposts s.

(** Blocked and not yet signalled. *)
Definition live (s : psynch) (w : NativeGuestWaiter) : Prop :=
  w ∈ nativeGuestWaiters s /\ signaled w = false.

Lemma record_mutex_keys a q l x :
  x ∈ (fun p => (mp_address p, mp_sequence p)) <$> record_mutex a q l ->
  x = (a, q) \/ x ∈ (fun p => (mp_address p, mp_sequence p)) <$> l.
Proof.
  induction l as [|p l IH]; cbn [record_mutex].
  - cbn. intros Hx%list_elem_of_singleton. by left.
  - destruct ((mp_address p =? a) && (mp_sequence p =? q))%bool eqn:E; cbn; rewrite !elem_of_cons; naive_solver.
Qed.

Lemma consume_mutex_keys a q ff l l' x :
  consume_mutex a q ff l = Some l' ->
  x ∈ (fun p => (mp_address p, mp_sequence p)) <$> l' -> x ∈ (fun p => (mp_address p, mp_sequence p)) <$> l.
Proof.
  revert l'. induction l as [|p l IH]; intros l'; cbn [consume_mutex]; [done|].
  destruct (_ || _)%bool.
  - destruct (consume_mutex a q ff l) as [l0|]; [|done]. intros [= <-]. cbn. rewrite !elem_of_cons. naive_solver.
  - destruct (u64 (mp_count p - 1) =? 0); intros [= <-]; cbn; rewrite ?elem_of_cons; naive_solver.
Qed.

Lemma consume_mutex_none a q ff l b r :
  consume_mutex a q ff l = None ->
  (b, r) ∈ (fun p => (mp_address p, mp_sequence p)) <$> l -> b = a -> ff = false /\ r <> q.
Proof.
  induction l as [|p l IH]; cbn [consume_mutex]; [intros _ Hx; by apply elem_of_nil in Hx|].
  destruct (_ || _)%bool eqn:E; [|done].
  destruct (consume_mutex a q ff l) as [l0|]; [done|]. intros _ Hx ->. cbn in Hx.
  apply elem_of_cons in Hx as [[= -> ->]|Hx]; [|by apply IH].
  rewrite Z.eqb_refl in E. cbn in E. destruct ff; [done|]. cbn in E. by zb.
Qed.

Lemma record_condition_keys a q l x :
  x ∈ (fun p => (cp_address p, cp_throughSequence p)) <$> record_condition a q l ->
  x = (a, q) \/ x ∈ (fun p => (cp_address p, cp_throughSequence p)) <$> l.
Proof.
  induction l as [|p l IH]; cbn [record_condition].
  - cbn. intros Hx%list_elem_of_singleton. by left.
  - destruct ((cp_address p =? a) && (cp_throughSequence p =? q))%bool eqn:E; cbn; rewrite !elem_of_cons; naive_solver.
Qed.

Lemma broadcast_keys a q n s x :
  x ∈ condition_keys (RecordGuestConditionBroadcastPrepost a q n s) ->
  x = (a, count_part q) \/ x ∈ condition_keys s.
Proof.
  unfold condition_keys, RecordGuestConditionBroadcastPrepost. cbn.
  destruct (n =? 0); rewrite ?fmap_app, ?elem_of_app, !list_elem_of_fmap.
  - intros (p & -> & Hp). right. apply list_elem_of_In, List.filter_In in Hp as [Hp _].
    apply list_elem_of_In in Hp. eauto.
  - intros [(p & -> & Hp)|Hx].
    + right. apply list_elem_of_In, List.filter_In in Hp as [Hp _]. apply list_elem_of_In in Hp. eauto.
    + left. destruct Hx as (p & -> & ->%list_elem_of_singleton). done.
Qed.

(** The scan for a covering condition prepost. *)
Lemma select_condition_spec a q l :
  match select_condition a q l with
  | None => forall p, p ∈ l -> covers a q p = false
  | Some (i, p) => l !! i = Some p /\ covers a q p = true
  end.
Proof.
  unfold select_condition.
  set (f := fun selected (ip : nat * GuestConditionPrepost) => _).
  assert (forall (ips : list (nat * GuestConditionPrepost)),
    match foldl f None ips with
    | None => forall ip, ip ∈ ips -> covers a q (snd ip) = false
    | Some ip => ip ∈ ips /\ covers a q (snd ip) = true
    end) as Hf.
  { induction ips as [|ip ips IH] using rev_ind; [intros ip Hip; by apply elem_of_nil in Hip|].
    rewrite foldl_app. cbn [foldl]. destruct (foldl f None ips) as [s|] eqn:Es; unfold f at 1;
      destruct (covers a q (snd ip)) eqn:Ec.
    - destruct IH as [Hin Hc]. destruct (GuestPsynchSequenceLower _ _); (split; [set_solver|done]).
    - destruct IH as [Hin Hc]. split; [set_solver|done].
    - split; [set_solver|done].
    - intros jp [Hj|Hj]%elem_of_app; [by apply IH|]. by apply list_elem_of_singleton in Hj as ->. }
  specialize (Hf (imap pair l)). destruct (foldl f None (imap pair l)) as [[i p]|].
  - destruct Hf as [Hin Hc]. split; [|done]. apply elem_of_lookup_imap in Hin as (j & x & [= <- <-] & Hl). done.
  - intros p Hp. apply list_elem_of_lookup in Hp as [i Hi].
    apply (Hf (i, p)). apply elem_of_lookup_imap. eauto.
Qed.

Lemma consume_condition_keys a q s s' x :
  ConsumeGuestConditionPrepost a q s = (true, s') -> x ∈ condition_keys s' -> x ∈ condition_keys s.
Proof.
  unfold ConsumeGuestConditionPrepost, condition_keys.
  pose proof (select_condition_spec a (count_part q) (guestConditionPreposts s)) as Hs.
  destruct (select_condition _ _ _) as [[i p]|]; [|done]. destruct Hs as [Hl _].
  intros [= <-]. cbn. rewrite !list_elem_of_fmap. intros (p' & -> & Hp').
  destruct (u64 (cp_count p - 1) =? 0).
  - exists p'. split; [done|]. apply list_elem_of_lookup in Hp' as [j Hj]. apply list_elem_of_lookup.
    destruct (decide (j < i)%nat); [exists j; by rewrite list_lookup_delete_lt in Hj|].
    exists (S j). by rewrite list_lookup_delete_ge in Hj by lia.
  - apply list_elem_of_lookup in Hp' as [j Hj]. destruct (decide (i = j)) as [<-|Hne].
    + rewrite list_lookup_insert_eq in Hj by (by eapply lookup_lt_Some). injection Hj as <-.
      exists p. split; [done|]. apply list_elem_of_lookup. eauto.
    + rewrite list_lookup_insert_ne in Hj by done. exists p'. split; [done|]. apply list_elem_of_lookup. eauto.
Qed.

Lemma consume_condition_none a q s s' b r :
  ConsumeGuestConditionPrepost a q s = (false, s') ->
  (b, r) ∈ condition_keys s -> b = a -> GuestPsynchSequenceLowerOrEqual q r = false.
Proof.
  unfold ConsumeGuestConditionPrepost, condition_keys.
  pose proof (select_condition_spec a (count_part q) (guestConditionPreposts s)) as Hs.
  destruct (select_condition _ _ _) as [[i p]|]; [done|]. intros _.
  rewrite list_elem_of_fmap. intros (p & [= -> ->] & Hp) Ha. specialize (Hs p Hp). unfold covers in Hs.
  rewrite Ha, Z.eqb_refl in Hs. cbn in Hs. by rewrite (proj1 (lower_or_equal_mask q _)) in Hs.
Qed.

(** ** The invariant *)

(** [policy] is the queueing policy of each mutex (first fit or not): a mutex
    has one for its lifetime. *)
Record sync_ok (policy : Z -> bool) (s : psynch) : Prop := {
  sync_ids : NoDup (ids (nativeGuestWaiters s));
  sync_mutex : forall w a q, live s w -> kind w = Mutex -> (a, q) ∈ mutex_keys s -> a = address w ->
    policy a = false /\ q <> mutexSequence w;
  sync_condition : forall w a q, live s w -> kind w = Condition -> (a, q) ∈ condition_keys s ->
    a = address w -> GuestPsynchSequenceLowerOrEqual (conditionSequence w) q = false;
}.

Section invariant.
Context (policy : Z -> bool).

(** Fewer live waiters and fewer preposts. *)
Record narrower (s s' : psynch) : Prop := {
  narrow_ids : NoDup (ids (nativeGuestWaiters s'));
  narrow_live : forall w, live s' w -> live s w;
  narrow_mutex : forall x, x ∈ mutex_keys s' -> x ∈ mutex_keys s;
  narrow_condition : forall x, x ∈ condition_keys s' -> x ∈ condition_keys s;
}.

Lemma sync_narrow s s' : sync_ok policy s -> narrower s s' -> sync_ok policy s'.
Proof.
  intros [H1 H2 H3] [N1 N2 N3 N4]. split; [done|eauto|eauto].
Qed.

Lemma signal_live r id s w :
  live (with_waiters (signal r id (nativeGuestWaiters s)) s) w -> live s w.
Proof.
  intros [Hin Hs]. cbn in Hin. apply signal_elem in Hin as (w0 & Hin & ->).
  destruct (waiter_id w0 =? id); [done|]. by split.
Qed.

Lemma narrow_signal r id s :
  NoDup (ids (nativeGuestWaiters s)) -> narrower s (with_waiters (signal r id (nativeGuestWaiters s)) s).
Proof. intros Hnd. split; [cbn; by rewrite signal_ids|apply signal_live|done|done]. Qed.

Lemma wake_all_live p r s w :
  live (with_waiters (wake_all p r (nativeGuestWaiters s)) s) w -> live s w /\ p w = false.
Proof.
  intros [Hin Hs]. cbn in Hin. unfold wake_all in Hin. apply list_elem_of_fmap in Hin as (w0 & -> & Hin).
  destruct (target p w0) eqn:E; [done|]. split; [by split|]. unfold target in E. by rewrite Hs in E.
Qed.

Lemma wake_all_ids p r l : ids (wake_all p r l) = ids l.
Proof.
  unfold ids, wake_all. rewrite <- list_fmap_compose. apply list_fmap_ext. intros i w _. cbn.
  by destruct (target p w).
Qed.

(** Any wake narrows; one that reports nobody leaves no live candidate, and so
    does a wake of all. *)
Lemma wake_narrow p r one s s' n :
  NoDup (ids (nativeGuestWaiters s)) -> wake p r one s = (s', n) ->
  narrower s s' /\ mutex_keys s' = mutex_keys s /\ condition_keys s' = condition_keys s /\
  ((n = 0 \/ one = false) -> forall w, live s' w -> p w = false) /\
  (n = 0 -> s' = s).
Proof.
  intros Hnd Hw. destruct one.
  - destruct (wake_one_spec p r s) as [[He Hno]|(w & Hin & Ht & _ & He)]; rewrite He in Hw; injection Hw as <- <-.
    + split_and!; try done. intros _ w [Hin Hs]. specialize (Hno w Hin). unfold target in Hno. by rewrite Hs in Hno.
    + split_and!; try done; [by apply narrow_signal|]. by intros [?|?].
  - rewrite wake_all_spec in Hw by done. injection Hw as <- <-. split_and!; try done.
    + split; [cbn; by rewrite wake_all_ids|intros w Hl; by apply (wake_all_live p r)|done|done].
    + intros _ w Hl. by apply (wake_all_live p r s).
    + intros Hz. rewrite wake_all_none by done. by destruct s.
Qed.

Lemma enqueue_ok w s :
  sync_ok policy s -> identity_unused (waiter_id w) s = true ->
  (kind w = Mutex -> forall a q, (a, q) ∈ mutex_keys s -> a = address w -> policy a = false /\ q <> mutexSequence w) ->
  (kind w = Condition -> forall a q, (a, q) ∈ condition_keys s -> a = address w ->
     GuestPsynchSequenceLowerOrEqual (conditionSequence w) q = false) ->
  sync_ok policy (enqueue w s).
Proof.
  intros [H1 H2 H3] Hf Hm Hc. unfold identity_unused in Hf. apply negb_true_iff, bool_decide_eq_false in Hf.
  assert (forall x, live (enqueue w s) x -> live s x \/ x = with_sequence (guestNextWaitSequence s) w) as Hlive.
  { intros x [Hin Hs]. cbn in Hin. apply elem_of_app in Hin as [Hin|Hin]; [left; by split|right].
    by apply list_elem_of_singleton in Hin. }
  split.
  - unfold enqueue. cbn. unfold ids. rewrite fmap_app. apply NoDup_app. split_and!; [done| |apply NoDup_singleton].
    intros x Hx Hx'. cbn in Hx'. apply list_elem_of_singleton in Hx' as ->. done.
  - intros x a q [Hl| ->]%Hlive; [by apply H2|]. exact (fun Hk => Hm Hk a q).
  - intros x a q [Hl| ->]%Hlive; [by apply H3|]. exact (fun Hk => Hc Hk a q).
Qed.

Lemma signal_granted_narrow u g : forall s,
  NoDup (ids (nativeGuestWaiters s)) ->
  narrower s (with_waiters (signal_granted u g (nativeGuestWaiters s)) s).
Proof.
  induction g as [|c g IH]; intros s Hnd; cbn.
  - split; [done| |done|done]. intros w Hw. by destruct s.
  - pose proof (narrow_signal (Some u) (rc_id c) s Hnd) as N1.
    destruct (IH (with_waiters (signal (Some u) (rc_id c) (nativeGuestWaiters s)) s) (narrow_ids _ _ N1)) as [A B C D].
    split; [done| |done|done]. intros w Hw. apply N1. by apply B.
Qed.

Lemma grant_ok addr s u s' :
  sync_ok policy s -> TryGrantNativeGuestRwlockLocked addr s = Some (u, s') -> sync_ok policy s'.
Proof.
  intros Hok. unfold TryGrantNativeGuestRwlockLocked. repeat case_match; try done.
  all: intros [= <- <-]; eapply sync_narrow; [exact Hok|];
    destruct (signal_granted_narrow (grant_update (granted_set (rw_candidates addr s)) (rw_candidates addr s))
      (granted_set (rw_candidates addr s)) s (sync_ids _ _ Hok)) as [A B C D]; by split.
Qed.

Lemma with_unlocks_ok l s : sync_ok policy s -> sync_ok policy (with_unlocks l s).
Proof. intros [? ? ?]. by split. Qed.

Lemma with_overlaps_ok l s : sync_ok policy s -> sync_ok policy (with_overlaps l s).
Proof. intros [? ? ?]. by split. Qed.

(** ** Every operation keeps it *)

Lemma wait_ok w ff rwState ts tns s :
  sync_ok policy s -> identity_unused (waiter_id w) s = true ->
  (kind w = Mutex -> ff = policy (address w) /\ count_part (mutexSequence w) = mutexSequence w) ->
  sync_ok policy (snd (WaitNativeGuestThread w ff rwState ts tns s)).
Proof.
  intros Hok Hf Hm. unfold WaitNativeGuestThread. destruct (_ && _)%bool; [done|].
  destruct (kind w) eqn:Ek.
  - cbn. apply enqueue_ok; try done; congruence.
  - destruct (Hm eq_refl) as [-> Hmask]. unfold ConsumeGuestMutexPrepost. rewrite Hmask.
    destruct (consume_mutex _ _ _ _) as [l|] eqn:Ec; cbn.
    + eapply sync_narrow; [exact Hok|]. split; try done; [apply Hok|].
      intros x Hx. by eapply consume_mutex_keys.
    + apply enqueue_ok; try done; [|congruence]. intros _ a q Hin ->. by eapply consume_mutex_none.
  - destruct (ConsumeGuestConditionPrepost (address w) (conditionSequence w) s) as [[|] s'] eqn:Ec; cbn.
    + eapply sync_narrow; [exact Hok|]. unfold ConsumeGuestConditionPrepost in Ec.
      pose proof (fun x => consume_condition_keys (address w) (conditionSequence w) s s' x Ec) as Hk.
      destruct (select_condition _ _ _) as [[i p]|]; [|done]. injection Ec as <-.
      split; try done. apply Hok.
    + apply enqueue_ok; try done; [congruence|]. intros _ a q Hin ->. by eapply consume_condition_none.
  - assert (sync_ok policy (enqueue w s)) as He by (apply enqueue_ok; try done; congruence).
    assert (forall b, sync_ok policy (snd (None : option sysret, if bool_decide (Rwlock = Rwlock)
      then match TryGrantNativeGuestRwlockLocked (address w) (enqueue w s) with
           | Some (_, s') => s' | None => enqueue w s end else b))) as Hblock.
    { intros b. cbn. destruct (TryGrantNativeGuestRwlockLocked (address w) (enqueue w s)) as [[u s']|] eqn:Eg; [|done].
      by eapply grant_ok. }
    destruct (bool_decide (rwlockWaitType w = Read)); [|apply (Hblock s)].
    unfold TryHandleNativeGuestRwlockOverlapLocked.
    destruct (overlap_loop _ _ _ _) as [[u l]|]; cbn; [by apply with_overlaps_ok|apply (Hblock s)].
  - cbn. apply enqueue_ok; try done; congruence.
Qed.

Lemma mutex_drop_masked mgen ugen flags :
  count_part (mutex_drop_target mgen ugen flags) = mutex_drop_target mgen ugen flags.
Proof. unfold mutex_drop_target. destruct (GuestPsynchMutexIsFirstFit flags); apply count_part_idem. Qed.

Lemma drop_ok mutex mgen ugen flags s :
  sync_ok policy s -> GuestPsynchMutexIsFirstFit flags = policy mutex ->
  sync_ok policy (snd (NativeMutexDrop mutex mgen ugen flags s)).
Proof.
  intros Hok Hp. unfold NativeMutexDrop, WakeNativeGuestMutexThreadLocked.
  set (tgt := mutex_drop_target mgen ugen flags).
  destruct (wake _ None true s) as [s1 n] eqn:Ew.
  destruct (wake_narrow _ _ _ _ _ _ (sync_ids _ _ Hok) Ew) as (N & _ & _ & Hno & _).
  pose proof (sync_narrow _ _ Hok N) as Hok1. cbn. destruct (n =? 0) eqn:En; [|done]. zb.
  destruct Hok1 as [H1 H2 H3]. split; [done| |done].
  intros w a q Hl Hk Hin ->. apply record_mutex_keys in Hin as [[= Ha ->]|Hin]; [|by eapply H2].
  specialize (Hno (or_introl En) w Hl). unfold mutex_candidate in Hno.
  rewrite bool_decide_true, Ha, Z.eqb_refl in Hno by done. cbn in Hno.
  rewrite Hp in Hno. rewrite Ha. destruct (policy mutex); [done|].
  split; [done|]. cbn in Hno. unfold tgt. rewrite mutex_drop_masked. fold tgt. destruct (mutexSequence w =? tgt) eqn:E; [done|]. zb. congruence.
Qed.

Lemma condition_signal_ok condition condSeq condSSeq tgt broadcast s :
  sync_ok policy s -> sync_ok policy (snd (NativeConditionSignal condition condSeq condSSeq tgt broadcast s)).
Proof.
  intros Hok. unfold NativeConditionSignal, WakeNativeGuestConditionThreadsLocked.
  destruct (wake _ (Some 0) _ s) as [s1 n] eqn:Ew.
  destruct (wake_narrow _ _ _ _ _ _ (sync_ids _ _ Hok) Ew) as (N & _ & _ & Hno & _).
  pose proof (sync_narrow _ _ Hok N) as Hok1.
  set (s2 := if MACH_PORT_VALID tgt then s1 else _).
  assert (sync_ok policy s2) as Hok2; [|by destruct (_ && _)%bool].
  unfold s2. destruct (MACH_PORT_VALID tgt) eqn:Et; [done|].
  assert ((n = 0 \/ negb broadcast = false) -> forall w, live s1 w -> kind w = Condition -> condition = address w ->
    GuestPsynchSequenceLowerOrEqual (conditionSequence w) (count_part condSeq) = false) as Hcov.
  { intros Hn w Hl Hk Ha. assert (n = 0 \/ (negb broadcast || false)%bool = false) as Hn'
      by (destruct Hn as [?|?]; [by left|right; by rewrite orb_false_r]).
    specialize (Hno Hn' w Hl). unfold condition_candidate in Hno.
    rewrite bool_decide_true, <- Ha, Z.eqb_refl, Et in Hno by done. cbn in Hno. by rewrite andb_true_r in Hno. }
  destruct Hok1 as [H1 H2 H3]. destruct broadcast.
  - split; [done|done|]. intros w a q Hl Hk Hin ->. apply broadcast_keys in Hin as [[= Ha ->]|Hin]; [|by eapply H3].
    rewrite count_part_idem. by apply Hcov; [right| | |].
  - destruct (n =? 0) eqn:En; [|done]. zb. split; [done|done|].
    intros w a q Hl Hk Hin ->. apply record_condition_keys in Hin as [[= Ha ->]|Hin]; [|by eapply H3].
    rewrite count_part_idem. by apply Hcov; [left| | |].
Qed.

Lemma erase_narrow id s : NoDup (ids (nativeGuestWaiters s)) -> narrower s (erase_waiter id s).
Proof.
  intros Hnd. split; [|intros w [Hin Hs]; split; [|done]; cbn in Hin;
    by apply list_elem_of_In, List.filter_In in Hin as [?%list_elem_of_In _]|done|done].
  cbn. revert Hnd. generalize (nativeGuestWaiters s) as l. induction l as [|w l IH]; intros Hnd; [done|].
  cbn in Hnd |- *. apply NoDup_cons in Hnd as [Hw Hnd]. destruct (negb _); [|by apply IH].
  cbn. apply NoDup_cons. split; [|by apply IH]. intros Hin. apply Hw. unfold ids in *.
  apply list_elem_of_fmap in Hin as (x & -> & Hx%list_elem_of_In%List.filter_In). destruct Hx as [Hx _].
  apply list_elem_of_fmap. exists x. split; [done|]. by apply list_elem_of_In.
Qed.

(** Each mutex is used with its own policy. *)
Definition op_policy (o : op) : Prop :=
  match o with
  | OMutexWait _ _ mutex _ flags | OMutexDrop mutex _ _ flags => GuestPsynchMutexIsFirstFit flags = policy mutex
  | OConditionWait _ _ _ _ mutex _ _ flags _ _ => mutex <> 0 -> GuestPsynchMutexIsFirstFit flags = policy mutex
  | _ => True
  end.

Lemma step_ok o s s' : sync_ok policy s -> op_policy o -> step_op o s = Some s' -> sync_ok policy s'.
Proof.
  intros Hok Hp. unfold step_op, exec. destruct o; cbn [op_policy] in Hp.
  - destruct (identity_unused self s) eqn:Ef; [|done]. cbn. intros [= <-]. apply wait_ok; [done|done|].
    intros _. cbn. split; [done|apply count_part_idem].
  - cbn. intros [= <-]. by apply drop_ok.
  - destruct (identity_unused self s) eqn:Ef; [|done]. cbn. intros [= <-]. unfold NativeConditionWait.
    assert (forall s1, sync_ok policy s1 -> identity_unused self s1 = true -> sync_ok policy (snd (WaitNativeGuestThread
      (new_waiter self port Condition condition 0 0 TypeNone 0 condSeq) false 0 ts tns s1))) as Hw
      by (intros s1 H1 H2; by apply wait_ok).
    destruct (mutex =? 0) eqn:Em; cbn [negb]; [by apply Hw|]. zb. apply Hw; [apply drop_ok; auto|].
    rewrite <- Ef. unfold identity_unused, NativeMutexDrop, WakeNativeGuestMutexThreadLocked.
    destruct (wake _ None true s) as [s1 n] eqn:Ew. cbn [snd].
    assert (ids (nativeGuestWaiters s1) = ids (nativeGuestWaiters s)) as He.
    { destruct (wake_one_spec (mutex_candidate mutex (mutex_drop_target mgen ugen flags) (GuestPsynchMutexIsFirstFit flags))
        None s) as [[He _]|(w & _ & _ & _ & He)]; rewrite He in Ew; injection Ew as <- <-; [done|].
      cbn. apply signal_ids. }
    destruct (n =? 0); [unfold RecordGuestMutexPrepost|]; cbn [nativeGuestWaiters with_mutexPreposts]; by rewrite He.
  - cbn. intros [= <-]. by apply condition_signal_ok.
  - destruct (identity_unused self s) eqn:Ef; [|done]. cbn. intros [= <-]. by apply wait_ok.
  - cbn. unfold NativeRwUnlock, PostNativeGuestRwlockUnlockLocked.
    destruct (_ =? 0); cbn; [by intros [= <-]|].
    match goal with |- context [TryGrantNativeGuestRwlockLocked ?a ?x] => set (s1 := x) end.
    assert (sync_ok policy s1) as Hok1 by (by apply with_unlocks_ok).
    destruct (TryGrantNativeGuestRwlockLocked _ s1) as [[u s2]|] eqn:Eg; cbn; intros [= <-]; [by eapply grant_ok|done].
  - destruct (identity_unused self s) eqn:Ef; [|done]. cbn. intros [= <-]. unfold NativeUlockWait.
    repeat case_match; try done. cbn. by apply enqueue_ok.
  - cbn. unfold NativeUlockWake. destruct (ulock_wake_invalid _ _); cbn; [by intros [= <-]|].
    destruct (_ && _)%bool; cbn; [by intros [= <-]|]. destruct (_ =? 0); cbn; [by intros [= <-]|].
    destruct (wake _ None _ s) as [s1 n] eqn:Ew.
    destruct (wake_narrow _ _ _ _ _ _ (sync_ids _ _ Hok) Ew) as (N & _).
    destruct (_ && _)%bool; cbn; intros [= <-]; by eapply sync_narrow.
  - unfold FinishWait. destruct (find_waiter id s); [|done]. pose proof (erase_narrow id s (sync_ids _ _ Hok)) as N.
    repeat case_match; try done; cbn; intros [= <-]; by eapply sync_narrow.
  - unfold FinishUlockWait. destruct (find_waiter id s); [|done]. pose proof (erase_narrow id s (sync_ids _ _ Hok)) as N.
    repeat case_match; try done; cbn; intros [= <-]; by eapply sync_narrow.
Qed.

Lemma run_ok ops : forall s s', sync_ok policy s -> Forall op_policy ops -> run ops s = Some s' -> sync_ok policy s'.
Proof.
  induction ops as [|o ops IH]; intros s s' Hok Hp Hr; [by injection Hr as <-|].
  cbn in Hr. apply Forall_cons in Hp as [Ho Hp]. destruct (step_op o s) as [s1|] eqn:Es; [|done].
  cbn in Hr. eapply (IH s1); [by eapply step_ok|done|done].
Qed.

Lemma initial_ok : sync_ok policy initial.
Proof. split; [constructor|intros w a q [Hin _]; by apply elem_of_nil in Hin..]. Qed.
End invariant.

(** ** Identities stay distinct *)

Lemma enqueue_ids w s :
  NoDup (ids (nativeGuestWaiters s)) -> identity_unused (waiter_id w) s = true ->
  NoDup (ids (nativeGuestWaiters (enqueue w s))).
Proof.
  intros Hnd Hf. unfold identity_unused in Hf. apply negb_true_iff, bool_decide_eq_false in Hf.
  unfold enqueue. cbn [nativeGuestWaiters with_waiters]. unfold ids. rewrite fmap_app. apply NoDup_app.
  split_and!; [done| |apply NoDup_singleton].
  intros x Hx Hx'. cbn in Hx'. apply list_elem_of_singleton in Hx' as ->. done.
Qed.

Lemma grant_ids addr s u s' :
  NoDup (ids (nativeGuestWaiters s)) -> TryGrantNativeGuestRwlockLocked addr s = Some (u, s') ->
  NoDup (ids (nativeGuestWaiters s')).
Proof.
  intros Hnd. unfold TryGrantNativeGuestRwlockLocked. repeat case_match; try done.
  all: intros [= <- <-]; exact (narrow_ids _ _ (signal_granted_narrow _ _ s Hnd)).
Qed.

Lemma wait_ids w ff rwState ts tns s :
  NoDup (ids (nativeGuestWaiters s)) -> identity_unused (waiter_id w) s = true ->
  NoDup (ids (nativeGuestWaiters (snd (WaitNativeGuestThread w ff rwState ts tns s)))).
Proof.
  intros Hnd Hf. pose proof (enqueue_ids w s Hnd Hf) as He. unfold WaitNativeGuestThread.
  destruct (_ && _)%bool; [done|].
  assert (forall b : psynch, NoDup (ids (nativeGuestWaiters
    match TryGrantNativeGuestRwlockLocked (address w) (enqueue w s) with Some (_, s') => s' | None => enqueue w s end)))
    as Hg.
  { intros _. destruct (TryGrantNativeGuestRwlockLocked _ _) as [[u s']|] eqn:Eg; [by eapply grant_ids|done]. }
  destruct (kind w); [done| | | |done].
  - unfold ConsumeGuestMutexPrepost. by destruct (consume_mutex _ _ _ _).
  - unfold ConsumeGuestConditionPrepost. by destruct (select_condition _ _ _) as [[i p]|].
  - destruct (bool_decide (rwlockWaitType w = Read)); [|exact (Hg s)].
    unfold TryHandleNativeGuestRwlockOverlapLocked. destruct (overlap_loop _ _ _ _) as [[u l]|]; [done|exact (Hg s)].
Qed.

Lemma drop_ids mutex mgen ugen flags s :
  ids (nativeGuestWaiters (snd (NativeMutexDrop mutex mgen ugen flags s))) = ids (nativeGuestWaiters s).
Proof.
  unfold NativeMutexDrop, WakeNativeGuestMutexThreadLocked. set (p := mutex_candidate _ _ _).
  destruct (wake_one_spec p None s) as [[-> _]|(w & Hin & Ht & _ & ->)]; cbn [snd Z.eqb]; [done|].
  apply signal_ids.
Qed.

Lemma exec_ids o s r s' :
  NoDup (ids (nativeGuestWaiters s)) -> exec o s = Some (r, s') -> NoDup (ids (nativeGuestWaiters s')).
Proof.
  intros Hnd. unfold exec. destruct o.
  - destruct (identity_unused self s) eqn:Ef; [|done]. intros [= He].
    pose proof (wait_ids (new_waiter self port Mutex mutex (mutex_wake_result mgen) (count_part mgen) TypeNone 0 0)
      (GuestPsynchMutexIsFirstFit flags) 0 0 0 s Hnd Ef) as Hw. unfold NativeMutexWait in He. by rewrite He in Hw.
  - intros [= <- <-]. by rewrite drop_ids.
  - destruct (identity_unused self s) eqn:Ef; [|done]. unfold NativeConditionWait. intros [= He].
    set (s1 := if negb (mutex =? 0) then snd (NativeMutexDrop mutex mgen ugen flags s) else s) in He.
    assert (ids (nativeGuestWaiters s1) = ids (nativeGuestWaiters s)) as Hi
      by (unfold s1; destruct (negb _); [apply drop_ids|done]).
    pose proof (wait_ids (new_waiter self port Condition condition 0 0 TypeNone 0 condSeq) false 0 ts tns s1) as Hw.
    rewrite He in Hw. apply Hw; [by rewrite Hi|]. unfold identity_unused. by rewrite Hi.
  - intros [= <- <-]. unfold NativeConditionSignal, WakeNativeGuestConditionThreadsLocked.
    destruct (wake _ (Some 0) _ s) as [s1 n] eqn:Ew. destruct (wake_narrow _ _ _ _ _ _ Hnd Ew) as [[Hn _ _ _] _].
    destruct (MACH_PORT_VALID target), broadcast; cbn [andb]; repeat case_match; done.
  - destruct (identity_unused self s) eqn:Ef; [|done]. intros [= He].
    pose proof (wait_ids (new_waiter self port Rwlock rwlock 0 0 (if write then Write else Read) lgen 0)
      false rwSequence 0 0 s Hnd Ef) as Hw. unfold NativeRwWait in He. by rewrite He in Hw.
  - intros [= <- <-]. unfold NativeRwUnlock, PostNativeGuestRwlockUnlockLocked. destruct (_ =? 0); [done|].
    match goal with |- context [TryGrantNativeGuestRwlockLocked ?x ?y] => set (s1 := y) end.
    destruct (TryGrantNativeGuestRwlockLocked _ s1) as [[u s2]|] eqn:Eg; [|done]. by eapply (grant_ids _ s1).
  - destruct (identity_unused self s) eqn:Ef; [|done]. unfold NativeUlockWait. intros [= He].
    repeat case_match; injection He as <- <-; try done. by apply enqueue_ids.
  - intros [= <- <-]. unfold NativeUlockWake. destruct (ulock_wake_invalid _ _); [done|].
    destruct (_ && _)%bool; [done|]. destruct (_ =? 0); [done|]. destruct (wake _ None _ s) as [s1 n] eqn:Ew.
    destruct (wake_narrow _ _ _ _ _ _ Hnd Ew) as [[Hn _ _ _] _]. by destruct (_ && _)%bool.
  - destruct (FinishWait id why condSeq condSSeq s) as [[r0 s0]|] eqn:E; [|done]. intros [= <- <-].
    pose proof (narrow_ids _ _ (erase_narrow id s Hnd)) as He. unfold FinishWait in E.
    destruct (find_waiter id s); [|done]. repeat case_match; try done; injection E as _ <-; done.
  - destruct (FinishUlockWait id why flags timed s) as [[r0 s0]|] eqn:E; [|done]. intros [= <- <-].
    pose proof (narrow_ids _ _ (erase_narrow id s Hnd)) as He. unfold FinishUlockWait in E.
    destruct (find_waiter id s); [|done]. repeat case_match; try done; injection E as _ <-; done.
Qed.

(** ** No lost wakeups *)

Lemma consume_mutex_blocked a q ff l :
  (forall b r, (b, r) ∈ (fun p => (mp_address p, mp_sequence p)) <$> l -> b = a -> ff = false /\ r <> q) ->
  consume_mutex a q ff l = None.
Proof.
  induction l as [|p l IH]; intros Hl; [done|]. cbn [consume_mutex].
  destruct (_ || _)%bool eqn:E.
  - rewrite IH; [done|]. intros b r Hin. apply Hl. cbn. by right.
  - apply orb_false_iff in E as [E1 E2]. apply negb_false_iff in E1. zb.
    destruct (Hl (mp_address p) (mp_sequence p) ltac:(cbn; by left) E1) as [-> Hne]. cbn in E2.
    destruct (mp_sequence p =? q) eqn:E3; zb; done.
Qed.

(** C10: no mutex handoff is lost.  After any interleaving of the calls of any
    number of threads, each mutex used with one queueing policy, no thread is
    blocked on a mutex while a drop that it could consume is outstanding: a drop
    that came too early is consumed by the wait, a drop that came later has
    signalled a waiter. *)
Theorem no_lost_mutex_handoff policy ops s w :
  run ops initial = Some s -> Forall (op_policy policy) ops ->
  live s w -> kind w = Mutex -> count_part (mutexSequence w) = mutexSequence w ->
  ConsumeGuestMutexPrepost (address w) (mutexSequence w) (policy (address w)) s = (false, s).
Proof.
  intros Hr Hp Hl Hk Hm. pose proof (run_ok policy ops _ _ (initial_ok policy) Hp Hr) as [_ H2 _].
  unfold ConsumeGuestMutexPrepost. rewrite Hm, consume_mutex_blocked; [done|].
  intros b r Hin ->. by apply (H2 w _ _ Hl Hk Hin).
Qed.

(** No condition signal is lost.  After any interleaving, no thread is
    blocked on a condition variable while an outstanding signal or broadcast
    covers its sequence: the generations a broadcast reserved for threads still
    on their way in are consumed when they arrive. *)
Theorem no_lost_condition_signal policy ops s w :
  run ops initial = Some s -> Forall (op_policy policy) ops ->
  live s w -> kind w = Condition ->
  ConsumeGuestConditionPrepost (address w) (conditionSequence w) s = (false, s).
Proof.
  intros Hr Hp Hl Hk. pose proof (run_ok policy ops _ _ (initial_ok policy) Hp Hr) as [_ _ H3].
  unfold ConsumeGuestConditionPrepost.
  pose proof (select_condition_spec (address w) (count_part (conditionSequence w)) (guestConditionPreposts s)) as Hs.
  destruct (select_condition _ _ _) as [[i p]|]; [|done]. exfalso. destruct Hs as [Hi Hc].
  unfold covers in Hc. apply andb_true_iff in Hc as [Ha Hle]. zb.
  rewrite (proj1 (lower_or_equal_mask _ _)) in Hle.
  rewrite (H3 w (cp_address p) (cp_throughSequence p)) in Hle; try done.
  unfold condition_keys. apply list_elem_of_fmap. exists p. split; [done|]. apply list_elem_of_lookup. eauto.
Qed.
