(* ===== verification/MutexHandoff.v ===== *)
(** Conservation of mutex handoffs: every drop is consumed by exactly one
    acquisition, is outstanding, or was thrown away by an interrupted wait. *)

From S2P Require Import Prelude.
From S2P Require Import GuestMemory.
From S2P Require Import Psynch.
From S2P Require Import PsynchWake.
From S2P Require Import PsynchWake.
From S2P Require Import PsynchRun.
From stdpp Require Import base gmap list fin_maps list_numbers.
From Stdlib Require Import ZArith Lia.
Open Scope Z_scope.

Import Psynch.

Section handoff.
Context (a : Z).

(** Waiters of the mutex at [a] that hold a grant they have not returned with. *)
Definition is_granted (w : NativeGuestWaiter) : bool :=
  bool_decide (kind w = Mutex) && (address w =? a) && signaled w.

Definition b2z (b : bool) : Z := if b then 1 else 0.

Definition granted_count (l : list NativeGuestWaiter) : Z := foldr (fun w n => b2z (is_granted w) + n) 0 l.

Definition prepost_count (l : list GuestMutexPrepost) : Z :=
  foldr (fun p n => (if mp_address p =? a then mp_count p else 0) + n) 0 l.

(** Grants of the mutex at [a] that exist: recorded for a thread on its way in,
    or given to a waiter that has not returned yet. *)
Definition permits (s : psynch) : Z :=
  prepost_count (guestMutexPreposts s) + granted_count (nativeGuestWaiters s).

Definition counts_ok (s : psynch) : Prop :=
  Forall (fun p => mp_address p = a -> 0 < mp_count p < U64_MOD) (guestMutexPreposts s).

Lemma granted_cons w l : granted_count (w :: l) = b2z (is_granted w) + granted_count l.
Proof. done. Qed.

Lemma prepost_cons p l : prepost_count (p :: l) = (if mp_address p =? a then mp_count p else 0) + prepost_count l.
Proof. done. Qed.

Lemma b2z_range b : 0 <= b2z b <= 1.
Proof. destruct b; cbn; lia. Qed.

Lemma granted_count_nonneg l : 0 <= granted_count l.
Proof. induction l as [|w l IH]; [done|]. rewrite granted_cons. pose proof (b2z_range (is_granted w)). lia. Qed.

Lemma granted_count_app l1 l2 : granted_count (l1 ++ l2) = granted_count l1 + granted_count l2.
Proof. induction l1 as [|w l IH]; [done|]. cbn [app]. rewrite !granted_cons, IH. lia. Qed.

(** A waiter of the mutex at [a]. *)
Definition waits_here (w : NativeGuestWaiter) : bool := bool_decide (kind w = Mutex) && (address w =? a).

Lemma granted_signal r l w :
  NoDup (ids l) -> w ∈ l ->
  granted_count (signal r (waiter_id w) l) = granted_count l + b2z (waits_here w && negb (signaled w)).
Proof.
  induction l as [|x l IH]; intros Hnd Hw; [by apply elem_of_nil in Hw|].
  apply NoDup_cons in Hnd as [Hx Hnd]. rewrite signal_cons. apply elem_of_cons in Hw as [->|Hw].
  - rewrite Z.eqb_refl, signal_notin by done. rewrite !granted_cons. unfold is_granted, waits_here. cbn.
    destruct (bool_decide _), (address x =? a), (signaled x); cbn; lia.
  - assert ((waiter_id x =? waiter_id w) = false) as ->.
    { apply Z.eqb_neq. intros He. apply Hx. rewrite He. unfold ids. apply list_elem_of_fmap. eauto. }
    rewrite !granted_cons, IH by done. lia.
Qed.

Lemma granted_wake_other p r l :
  (forall w, p w = true -> kind w <> Mutex) -> granted_count (wake_all p r l) = granted_count l.
Proof.
  intros Hp. induction l as [|w l IH]; [done|].
  change (wake_all p r (w :: l)) with ((if target p w then with_signal r w else w) :: wake_all p r l).
  rewrite !granted_cons, IH. f_equal. unfold target. destruct (negb (signaled w) && p w)%bool eqn:E; [|done].
  apply andb_true_iff in E as [_ Hpw]. unfold is_granted. cbn.
  rewrite !bool_decide_false by (by apply Hp). done.
Qed.

(** A wake of waiters of another kind moves no mutex grant. *)
Lemma granted_wake p r one s s' n :
  NoDup (ids (nativeGuestWaiters s)) -> (forall w, p w = true -> kind w <> Mutex) -> wake p r one s = (s', n) ->
  granted_count (nativeGuestWaiters s') = granted_count (nativeGuestWaiters s) /\
  guestMutexPreposts s' = guestMutexPreposts s.
Proof.
  intros Hnd Hp Hw. destruct one.
  - destruct (wake_one_spec p r s) as [[He _]|(w & Hin & Ht & _ & He)]; rewrite He in Hw; injection Hw as <- <-; [done|].
    split; [|done]. cbn. rewrite granted_signal by done. unfold target in Ht. apply andb_true_iff in Ht as [_ Ht].
    unfold waits_here. rewrite bool_decide_false by (by apply Hp). cbn. lia.
  - rewrite wake_all_spec in Hw by done. injection Hw as <- <-. split; [|done]. cbn. by apply granted_wake_other.
Qed.

Lemma granted_erase s w :
  NoDup (ids (nativeGuestWaiters s)) -> w ∈ nativeGuestWaiters s ->
  granted_count (nativeGuestWaiters (erase_waiter (waiter_id w) s)) =
    granted_count (nativeGuestWaiters s) - b2z (is_granted w).
Proof.
  unfold erase_waiter. cbn [nativeGuestWaiters with_waiters].
  generalize (nativeGuestWaiters s) as l. induction l as [|x l IH]; intros Hnd Hw; [by apply elem_of_nil in Hw|].
  apply NoDup_cons in Hnd as [Hx Hnd]. cbn [List.filter]. apply elem_of_cons in Hw as [->|Hw].
  - rewrite Z.eqb_refl. cbn [negb]. rewrite granted_cons.
    enough (List.filter (fun w => negb (waiter_id w =? waiter_id x)) l = l) as -> by lia.
    clear IH Hnd. induction l as [|y l IH]; [done|]. cbn. apply not_elem_of_cons in Hx as [Hne Hx].
    destruct (waiter_id y =? waiter_id x) eqn:E; zb; [congruence|]. cbn. by rewrite IH.
  - assert ((waiter_id x =? waiter_id w) = false) as ->.
    { apply Z.eqb_neq. intros He. apply Hx. rewrite He. unfold ids. apply list_elem_of_fmap. eauto. }
    cbn [negb]. rewrite !granted_cons. specialize (IH Hnd Hw). lia.
Qed.

(** ** Rwlock grants *)

Lemma lowest_of_elem f l : lowest_of f l = f \/ lowest_of f l ∈ l.
Proof.
  induction l as [|c l IH] using rev_ind; [by left|]. unfold lowest_of in *. rewrite foldl_app. cbn.
  destruct (GuestPsynchSequenceLower _ _); [right; set_solver|]. destruct IH as [->|?]; [by left|right; set_solver].
Qed.

Lemma granted_subset l c : c ∈ granted_set l -> c ∈ l.
Proof.
  destruct l as [|f l]; [done|]. unfold granted_set. destruct (is_writer _).
  - intros ->%list_elem_of_singleton. destruct (lowest_of_elem f (f :: l)) as [->|?]; [by left|done].
  - intros Hin%list_elem_of_In%List.filter_In. apply list_elem_of_In. apply Hin.
Qed.

Lemma granted_signal_rw u g : forall l,
  NoDup (ids l) -> (forall c, c ∈ g -> exists w, w ∈ l /\ waiter_id w = rc_id c /\ kind w = Rwlock) ->
  granted_count (signal_granted u g l) = granted_count l.
Proof.
  induction g as [|c g IH]; intros l Hnd Hg; [done|]. cbn. fold (signal_granted u g (signal (Some u) (rc_id c) l)).
  destruct (Hg c ltac:(by left)) as (w & Hw & Hid & Hk). rewrite IH.
  - rewrite <- Hid, granted_signal by done. unfold waits_here. rewrite bool_decide_false by congruence. cbn. lia.
  - by rewrite signal_ids.
  - intros c' Hc'. destruct (Hg c' ltac:(by right)) as (w' & Hw' & Hid' & Hk').
    exists (if waiter_id w' =? rc_id c then with_signal (Some u) w' else w').
    split; [apply signal_elem; eauto|]. by destruct (waiter_id w' =? rc_id c).
Qed.

Lemma grant_permits addr s u s' :
  NoDup (ids (nativeGuestWaiters s)) -> TryGrantNativeGuestRwlockLocked addr s = Some (u, s') ->
  permits s' = permits s /\ guestMutexPreposts s' = guestMutexPreposts s.
Proof.
  intros Hnd. unfold TryGrantNativeGuestRwlockLocked. repeat case_match; try done.
  all: intros [= <- <-]; split; [|done]; unfold permits; cbn; f_equal; apply granted_signal_rw; [done|];
    intros c Hc%granted_subset; unfold rw_candidates in Hc; apply list_elem_of_fmap in Hc as (w & -> & Hw);
    apply list_elem_of_In, List.filter_In in Hw as [Hw Hr]; apply list_elem_of_In in Hw;
    exists w; split; [done|]; split; [done|]; unfold rw_waiting in Hr;
    rewrite !andb_true_iff in Hr; destruct Hr as [[[_ Hk] _] _]; by apply bool_decide_eq_true in Hk.
Qed.

(** ** Preposts *)

Lemma prepost_count_nonneg l :
  Forall (fun p => mp_address p = a -> 0 < mp_count p < U64_MOD) l -> 0 <= prepost_count l.
Proof.
  induction 1 as [|p l Hp _ IH]; [done|]. rewrite prepost_cons.
  destruct (mp_address p =? a) eqn:E; zb; [specialize (Hp E)|]; lia.
Qed.

Lemma record_count m q l :
  Forall (fun p => mp_address p = a -> 0 < mp_count p < U64_MOD) l -> prepost_count l + 1 < U64_MOD ->
  prepost_count (record_mutex m q l) = prepost_count l + b2z (m =? a) /\
  Forall (fun p => mp_address p = a -> 0 < mp_count p < U64_MOD) (record_mutex m q l).
Proof.
  induction l as [|p l IH]; intros Hl Hb; cbn [record_mutex].
  - cbn. unfold b2z. split; [destruct (m =? a); lia|]. repeat constructor; done.
  - apply Forall_cons in Hl as [Hp Hl]. pose proof (prepost_count_nonneg l Hl) as Hnn.
    rewrite prepost_cons in *.
    destruct ((mp_address p =? m) && (mp_sequence p =? q))%bool eqn:E.
    + apply andb_true_iff in E as [E _]. zb. subst m. rewrite prepost_cons. cbn [mp_address mp_count]. unfold b2z.
      destruct (mp_address p =? a) eqn:Ea; zb.
      * specialize (Hp Ea). rewrite u64_small by lia. split; [lia|]. constructor; [|done]. cbn. intros _. lia.
      * split; [lia|]. constructor; [|done]. cbn. congruence.
    + destruct IH as [H1 H2]; [done|destruct (mp_address p =? a) eqn:Ea; zb; [specialize (Hp Ea)|]; lia|].
      rewrite prepost_cons, H1. split; [lia|]. by constructor.
Qed.

Lemma consume_count m q ff l l' :
  Forall (fun p => mp_address p = a -> 0 < mp_count p < U64_MOD) l -> consume_mutex m q ff l = Some l' ->
  prepost_count l' = prepost_count l - b2z (m =? a) /\
  Forall (fun p => mp_address p = a -> 0 < mp_count p < U64_MOD) l'.
Proof.
  revert l'. induction l as [|p l IH]; intros l' Hl; cbn [consume_mutex]; [done|].
  apply Forall_cons in Hl as [Hp Hl]. destruct (_ || _)%bool eqn:E.
  - destruct (consume_mutex m q ff l) as [l0|] eqn:Ec; [|done]. intros [= <-].
    destruct (IH l0 Hl eq_refl) as [H1 H2]. rewrite !prepost_cons, H1.
    split; [lia|by constructor].
  - apply orb_false_iff in E as [E _]. apply negb_false_iff in E. zb. subst m. unfold b2z.
    destruct (mp_address p =? a) eqn:Ea; zb.
    + specialize (Hp Ea). rewrite u64_small by lia.
      destruct (mp_count p - 1 =? 0) eqn:En; zb; intros [= <-]; rewrite !prepost_cons; cbn [mp_address mp_count];
        rewrite Ea, ?Z.eqb_refl.
      * split; [lia|done].
      * split; [lia|]. constructor; [cbn; lia|done].
    + destruct (u64 (mp_count p - 1) =? 0); intros [= <-]; rewrite !prepost_cons; cbn [mp_address mp_count];
        rewrite ?(proj2 (Z.eqb_neq _ _) Ea); (split; [lia|]); [done|]. by constructor.
Qed.

(** ** Accounting of one operation *)

(** Drops of the mutex at [a] an operation performs. *)
Definition drops (o : op) : Z :=
  match o with
  | OMutexDrop mutex _ _ _ => b2z (mutex =? a)
  | OConditionWait _ _ _ _ mutex _ _ _ _ _ => b2z (negb (mutex =? 0) && (mutex =? a))
  | _ => 0
  end.

(** Waits on the mutex at [a] that the operation lets return with the grant. *)
Definition grants (o : op) (s : psynch) (r : option sysret) : Z :=
  match o with
  | OMutexWait _ _ mutex _ _ => b2z ((mutex =? a) && bool_decide (is_Some r))
  | OFinish id Woken _ _ => match find_waiter id s with Some w => b2z (is_granted w) | None => 0 end
  | _ => 0
  end.

(** Grants thrown away: the interrupted return of a waiter that was already
    signalled. *)
Definition losses (o : op) (s : psynch) : Z :=
  match o with
  | OFinish id Interrupted _ _ => match find_waiter id s with Some w => b2z (is_granted w) | None => 0 end
  | _ => 0
  end.

(** The state part of the accounting. *)
Definition ready (s : psynch) : Prop :=
  NoDup (ids (nativeGuestWaiters s)) /\ counts_ok s /\ permits s + 1 < U64_MOD.

Lemma enqueue_permits w s : signaled w = false -> permits (enqueue w s) = permits s.
Proof.
  intros Hs. unfold permits, enqueue. cbn [nativeGuestWaiters guestMutexPreposts with_waiters with_nextSequence].
  rewrite granted_count_app, granted_cons. unfold is_granted. cbn. rewrite Hs, andb_false_r. cbn. lia.
Qed.

Lemma drop_permits mutex mgen ugen flags s :
  ready s ->
  permits (snd (NativeMutexDrop mutex mgen ugen flags s)) = permits s + b2z (mutex =? a) /\
  counts_ok (snd (NativeMutexDrop mutex mgen ugen flags s)).
Proof.
  intros (Hnd & Hc & Hb). unfold NativeMutexDrop, WakeNativeGuestMutexThreadLocked.
  set (p := mutex_candidate _ _ _). pose proof (granted_count_nonneg (nativeGuestWaiters s)) as Hg.
  destruct (wake_one_spec p None s) as [[-> _]|(w & Hin & Ht & _ & ->)]; cbn [snd Z.eqb].
  - unfold permits in *. cbn [guestMutexPreposts nativeGuestWaiters RecordGuestMutexPrepost with_mutexPreposts].
    destruct (record_count mutex (count_part (mutex_drop_target mgen ugen flags)) (guestMutexPreposts s)) as [H1 H2];
      [done|lia|]. rewrite H1. split; [lia|done].
  - split; [|done]. unfold permits. cbn [guestMutexPreposts nativeGuestWaiters with_waiters].
    rewrite granted_signal by done. unfold target in Ht. apply andb_true_iff in Ht as [Hs Hp].
    unfold p, mutex_candidate in Hp. rewrite !andb_true_iff in Hp. destruct Hp as [[Hk Ha] _]. zb.
    unfold waits_here. rewrite Hk, Ha, Hs. cbn. rewrite andb_true_r. lia.
Qed.

(** A wait on something else moves no mutex grant. *)
Lemma wait_other_permits w ff rwState ts tns s :
  NoDup (ids (nativeGuestWaiters s)) -> identity_unused (waiter_id w) s = true -> kind w <> Mutex -> signaled w = false ->
  let s' := snd (WaitNativeGuestThread w ff rwState ts tns s) in
  permits s' = permits s /\ guestMutexPreposts s' = guestMutexPreposts s.
Proof.
  intros Hnd Hf Hk Hs. cbv zeta. unfold WaitNativeGuestThread. destruct (_ && _)%bool; [done|].
  assert (permits (enqueue w s) = permits s /\ guestMutexPreposts (enqueue w s) = guestMutexPreposts s) as He
    by (split; [by apply enqueue_permits|done]).
  pose proof (enqueue_ids w s Hnd Hf) as Hnd'.
  assert (forall b : psynch, let s' := match TryGrantNativeGuestRwlockLocked (address w) (enqueue w s) with
    | Some (_, s') => s' | None => enqueue w s end in
    permits s' = permits s /\ guestMutexPreposts s' = guestMutexPreposts s) as Hgrant.
  { intros _. destruct (TryGrantNativeGuestRwlockLocked _ _) as [[u s']|] eqn:Eg; [|done].
    destruct (grant_permits _ _ _ _ Hnd' Eg) as [E1 E2]. cbv zeta. by rewrite E1, E2. }
  destruct (kind w); [done|done| | |done].
  - unfold ConsumeGuestConditionPrepost. destruct (select_condition _ _ _) as [[i p]|]; done.
  - destruct (bool_decide (rwlockWaitType w = Read)); [|apply (Hgrant s)].
    unfold TryHandleNativeGuestRwlockOverlapLocked. destruct (overlap_loop _ _ _ _) as [[u l]|]; [done|apply (Hgrant s)].
Qed.

Lemma find_waiter_elem id s w : find_waiter id s = Some w -> w ∈ nativeGuestWaiters s /\ waiter_id w = id.
Proof. unfold find_waiter. intros [Hin He]%List.find_some. zb. split; [by apply list_elem_of_In|done]. Qed.

(** The accounting law of one operation. *)
Definition law (o : op) (s : psynch) (r : option sysret) (s' : psynch) : Prop :=
  permits s' + grants o s r + losses o s = permits s + drops o /\ counts_ok s'.

Lemma mutex_wait_law self port mutex mgen flags s :
  ready s -> identity_unused self s = true ->
  law (OMutexWait self port mutex mgen flags) s (fst (NativeMutexWait self port mutex mgen flags s))
    (snd (NativeMutexWait self port mutex mgen flags s)).
Proof.
  intros (Hnd & Hc & Hb) Hf. unfold law, NativeMutexWait, WaitNativeGuestThread, ConsumeGuestMutexPrepost, new_waiter.
  cbn [kind address mutexSequence wakeResult bool_decide decide_rel wait_kind_eq andb drops losses grants].
  rewrite bool_decide_false by done. cbn [andb].
  destruct (consume_mutex _ _ _ _) as [l|] eqn:Ec; cbn [fst snd].
  - destruct (consume_count _ _ _ _ _ Hc Ec) as [H1 H2]. rewrite bool_decide_true by (by eexists).
    unfold permits. cbn [guestMutexPreposts nativeGuestWaiters with_mutexPreposts]. rewrite H1, andb_true_r.
    split; [lia|done].
  - rewrite (bool_decide_false (is_Some None)) by (by intros [? ?]). rewrite andb_false_r.
    rewrite (bool_decide_false (Mutex = Rwlock)) by done. rewrite enqueue_permits by done. cbn. split; [lia|done].
Qed.

Lemma finish_law id why condSeq condSSeq s r s' :
  ready s -> FinishWait id why condSeq condSSeq s = Some (r, s') ->
  law (OFinish id why condSeq condSSeq) s (Some r) s'.
Proof.
  intros (Hnd & Hc & Hb). unfold FinishWait, law, grants, losses, drops.
  destruct (find_waiter id s) as [w|] eqn:Ef; [|done].
  apply find_waiter_elem in Ef as [Hin <-]. pose proof (granted_erase s w Hnd Hin) as He.
  assert (permits (erase_waiter (waiter_id w) s) = permits s - b2z (is_granted w)) as Hp.
  { unfold permits. rewrite He. cbn [guestMutexPreposts erase_waiter with_waiters]. lia. }
  destruct (bool_decide (kind w = Ulock)); [done|]. destruct why.
  - destruct (signaled w); [|done]. intros [= <- <-]. rewrite Hp. split; [lia|done].
  - destruct (signaled w || negb (bool_decide (kind w = Condition)))%bool eqn:E; [done|]. intros [= <- <-].
    apply orb_false_iff in E as [E1 E2]. rewrite Hp. unfold is_granted. rewrite E1, andb_false_r. cbn. split; [lia|done].
  - intros [= <- <-]. rewrite Hp. split; [lia|done].
Qed.

Lemma ulock_finish_law id why flags timed s r s' :
  ready s -> FinishUlockWait id why flags timed s = Some (r, s') ->
  law (OFinishUlock id why flags timed) s (Some r) s'.
Proof.
  intros (Hnd & Hc & Hb). unfold FinishUlockWait, law, grants, losses, drops.
  destruct (find_waiter id s) as [w|] eqn:Ef; [|done].
  apply find_waiter_elem in Ef as [Hin <-]. pose proof (granted_erase s w Hnd Hin) as He.
  destruct (bool_decide (kind w = Ulock)) eqn:Ek; cbn [negb]; [|done]. apply bool_decide_eq_true in Ek.
  assert (permits (erase_waiter (waiter_id w) s) = permits s) as Hp.
  { unfold permits. rewrite He. unfold is_granted. rewrite bool_decide_false by congruence.
    cbn [guestMutexPreposts erase_waiter with_waiters andb b2z]. lia. }
  destruct why; repeat case_match; try done; intros [= <- <-]; (split; [lia|done]).
Qed.

Lemma wake_law p r one s s' n :
  ready s -> (forall w, p w = true -> kind w <> Mutex) -> wake p r one s = (s', n) ->
  permits s' = permits s /\ guestMutexPreposts s' = guestMutexPreposts s.
Proof.
  intros (Hnd & _) Hp Hw. destruct (granted_wake _ _ _ _ _ _ Hnd Hp Hw) as [H1 H2].
  unfold permits. by rewrite H1, H2.
Qed.

Lemma condition_candidate_kind addr through tgt w :
  condition_candidate addr through tgt w = true -> kind w <> Mutex.
Proof. unfold condition_candidate. destruct (kind w); done. Qed.

Lemma ulock_candidate_kind addr opcode tgt b w :
  ulock_candidate addr opcode tgt b w = true -> kind w <> Mutex.
Proof. unfold ulock_candidate, ulock_at. destruct (kind w); done. Qed.

Lemma condition_signal_law condition condSeq condSSeq tgt broadcast s :
  ready s ->
  let s' := snd (NativeConditionSignal condition condSeq condSSeq tgt broadcast s) in
  permits s' = permits s /\ guestMutexPreposts s' = guestMutexPreposts s.
Proof.
  intros Hr. cbv zeta. unfold NativeConditionSignal, WakeNativeGuestConditionThreadsLocked.
  destruct (wake _ (Some 0) _ s) as [s1 n] eqn:Ew.
  destruct (wake_law _ _ _ _ _ _ Hr (condition_candidate_kind _ _ _) Ew) as [H1 H2].
  destruct (MACH_PORT_VALID tgt), broadcast; cbn [andb]; repeat case_match; try done; cbn [snd]; done.
Qed.

Lemma ulock_wake_law operation addr wakeValue targetExists s :
  ready s ->
  let s' := snd (NativeUlockWake operation addr wakeValue targetExists s) in
  permits s' = permits s /\ guestMutexPreposts s' = guestMutexPreposts s.
Proof.
  intros Hr. cbv zeta. unfold NativeUlockWake. destruct (ulock_wake_invalid _ _); [done|].
  destruct (_ && _)%bool; [done|]. destruct (_ =? 0); [done|].
  destruct (wake _ None _ s) as [s1 n] eqn:Ew.
  destruct (wake_law _ _ _ _ _ _ Hr (ulock_candidate_kind _ _ _ _) Ew) as [H1 H2].
  by destruct (_ && _)%bool.
Qed.

Lemma rw_unlock_law rwlock lgen ugen rwSequence s :
  ready s ->
  let s' := snd (NativeRwUnlock rwlock lgen ugen rwSequence s) in
  permits s' = permits s /\ guestMutexPreposts s' = guestMutexPreposts s.
Proof.
  intros (Hnd & _). cbv zeta. unfold NativeRwUnlock, PostNativeGuestRwlockUnlockLocked. destruct (_ =? 0); [done|].
  match goal with |- context [TryGrantNativeGuestRwlockLocked ?x ?y] => set (s1 := y) end.
  destruct (TryGrantNativeGuestRwlockLocked _ s1) as [[u s2]|] eqn:Eg; [|done]. cbn [snd].
  by destruct (grant_permits _ s1 _ _ Hnd Eg) as [-> ->].
Qed.

(** An operation that moves no grant of this mutex. *)
Lemma law_quiet o s r s' :
  ready s -> grants o s r = 0 -> losses o s = 0 -> drops o = 0 ->
  permits s' = permits s /\ guestMutexPreposts s' = guestMutexPreposts s -> law o s r s'.
Proof.
  intros (_ & Hc & _) Hg Hl Hd [Hp Hm]. unfold law, counts_ok. rewrite Hg, Hl, Hd, Hp, Hm. split; [lia|done].
Qed.

Lemma exec_law o s r s' : ready s -> exec o s = Some (r, s') -> law o s r s'.
Proof.
  intros Hr. pose proof Hr as (Hnd & Hc & Hb). unfold exec. destruct o.
  - destruct (identity_unused self s) eqn:Ef; [|done]. intros He.
    pose proof (mutex_wait_law self port mutex mgen flags s Hr Ef) as Hlaw.
    destruct (NativeMutexWait self port mutex mgen flags s). by injection He as <- <-.
  - intros [= <- <-]. destruct (drop_permits mutex mgen ugen flags s Hr) as [H1 H2].
    split; [|done]. rewrite H1. cbn. lia.
  - destruct (identity_unused self s) eqn:Ef; [|done]. unfold NativeConditionWait. intros He.
    set (s1 := if negb (mutex =? 0) then snd (NativeMutexDrop mutex mgen ugen flags s) else s) in He.
    assert (permits s1 = permits s + b2z (negb (mutex =? 0) && (mutex =? a)) /\ counts_ok s1 /\
      ids (nativeGuestWaiters s1) = ids (nativeGuestWaiters s)) as (H1 & H2 & H3).
    { unfold s1. destruct (mutex =? 0); cbn [negb andb].
      - cbn [b2z]. split; [lia|done].
      - destruct (drop_permits mutex mgen ugen flags s Hr). split_and!; try done. apply drop_ids. }
    pose proof (wait_other_permits (new_waiter self port Condition condition 0 0 TypeNone 0 condSeq) false 0 ts tns s1)
      as Hw. destruct (WaitNativeGuestThread _ _ _ _ _ s1) as [r0 s2]. injection He as <- <-.
    destruct Hw as [H4 H5]; [by rewrite H3|unfold identity_unused; by rewrite H3|done|done|]. cbn [snd] in H4, H5.
    split; [|unfold counts_ok; by rewrite H5]. rewrite H4, H1. cbn [grants losses drops]. lia.
  - intros [= <- <-]. apply law_quiet; try done. by apply condition_signal_law.
  - destruct (identity_unused self s) eqn:Ef; [|done]. intros He.
    pose proof (wait_other_permits (new_waiter self port Rwlock rwlock 0 0 (if write then Write else Read) lgen 0)
      false rwSequence 0 0 s Hnd Ef ltac:(done) eq_refl) as Hw. unfold NativeRwWait in He.
    destruct (WaitNativeGuestThread _ _ _ _ _ s). injection He as <- <-. by apply law_quiet.
  - intros [= <- <-]. apply law_quiet; try done. by apply rw_unlock_law.
  - destruct (identity_unused self s) eqn:Ef; [|done]. unfold NativeUlockWait. intros He.
    apply law_quiet; try done. repeat case_match; injection He as <- <-; try done.
    split; [by apply enqueue_permits|done].
  - intros [= <- <-]. apply law_quiet; try done. by apply ulock_wake_law.
  - destruct (FinishWait id why condSeq condSSeq s) as [[r0 s0]|] eqn:E; [|done]. intros [= <- <-]. by apply finish_law.
  - destruct (FinishUlockWait id why flags timed s) as [[r0 s0]|] eqn:E; [|done]. intros [= <- <-]. by apply ulock_finish_law.
Qed.

(** ** Accounting of a run *)

(** The final state with the drops, grants and losses of the mutex at [a]. *)
Fixpoint account (ops : list op) (s : psynch) : option (psynch * (Z * Z * Z)) :=
  match ops with
  | [] => Some (s, (0, 0, 0))
  | o :: rest =>
      '(r, s1) ← exec o s;
      '(s', (d, g, l)) ← account rest s1;
      Some (s', (d + drops o, g + grants o s r, l + losses o s))
  end.

Lemma step_bounds o s r : 0 <= drops o <= 1 /\ 0 <= grants o s r /\ 0 <= losses o s.
Proof.
  assert (forall b, 0 <= b2z b <= 1) as Hb by apply b2z_range.
  split_and!; destruct o; cbn [drops grants losses]; try lia; repeat case_match; try lia; apply Hb.
Qed.

Lemma account_law ops : forall s s' d g l,
  NoDup (ids (nativeGuestWaiters s)) -> counts_ok s -> 0 <= permits s ->
  permits s + Z.of_nat (length ops) < U64_MOD -> account ops s = Some (s', (d, g, l)) ->
  permits s' + g + l = permits s + d.
Proof.
  induction ops as [|o ops IH]; intros s s' d g l Hok Hc H0 Hb; cbn [account].
  - intros [= <- <- <- <-]. lia.
  - cbn [length] in Hb.
    destruct (exec o s) as [[r s1]|] eqn:Ex; [|done]. cbn [mbind option_bind].
    destruct (account ops s1) as [[s2 [[d2 g2] l2]]|] eqn:Ea; [|done]. intros [= <- <- <- <-].
    destruct (exec_law o s r s1) as [H1 H2]; [split_and!; [done|done|lia]|done|].
    pose proof (exec_ids o s r s1 Hok Ex) as Hok1.
    pose proof (step_bounds o s r) as (Hd & Hg & Hl).
    assert (0 <= permits s1) as H01.
    { unfold permits. pose proof (prepost_count_nonneg _ H2). pose proof (granted_count_nonneg (nativeGuestWaiters s1)). lia. }
    specialize (IH s1 s2 d2 g2 l2 Hok1 H2 H01 ltac:(lia) Ea). lia.
Qed.

(** C11: mutex handoffs are conserved.  In any interleaving (of fewer than 2^64
    calls), the drops of a mutex are exactly the waits that returned with the
    mutex, the grants still outstanding, and the grants thrown away; a grant is
    thrown away only when the wait of an already signalled thread is
    interrupted.  So no drop admits two threads, and none disappears silently
    in any other way. *)
Theorem mutex_handoff_conserved ops s d g l :
  account ops initial = Some (s, (d, g, l)) ->
  Z.of_nat (length ops) < U64_MOD ->
  d = g + l + permits s.
Proof.
  intros Ha Hn. pose proof (account_law ops initial s d g l ltac:(constructor)) as H.
  specialize (H (List.Forall_nil _) ltac:(done) Hn Ha). change (permits initial) with 0 in H. lia.
Qed.

End handoff.
