(* ===== verification/RwlockProps.v ===== *)
(** The reader-writer lock: who is granted together, in which order, and that
    no unlock stays pending once its waiters are there. *)

From S2P Require Import Prelude.
From S2P Require Import GuestMemory.
From S2P Require Import Psynch.
From S2P Require Import PsynchWake.
From S2P Require Import PsynchWake.
From S2P Require Import PsynchRun.
From S2P Require Import MutexHandoff.
From stdpp Require Import base gmap list fin_maps list_numbers.
From Stdlib Require Import ZArith Lia.
Open Scope Z_scope.

Import Psynch.

(** ** The policy *)

#[global] Instance rw_candidate_eq : EqDecision rw_candidate.
Proof. solve_decision. Defined.

Lemma list_cases {A} (l : list A) : l = [] \/ exists f l0, l = f :: l0.
Proof. destruct l; eauto. Qed.

Definition granted_from (f : rw_candidate) (l : list rw_candidate) : list rw_candidate :=
  let lowest := lowest_of f l in
  if is_writer lowest then [lowest] else
  List.filter (fun c => is_reader c &&
    match lowest_writer l with
    | None => true
    | Some x => GuestPsynchSequenceLower (rc_sequence c) (rc_sequence x)
    end) l.

Lemma granted_set_from f l l0 : l = f :: l0 -> granted_set l = granted_from f l.
Proof. by intros ->. Qed.

Section policy.
Context (base : Z) (l : list rw_candidate).
Context (window : forall c, c ∈ l -> in_window base (rc_sequence c)).
(** Arrivals have distinct sequences. *)
Context (distinct : forall c c', c ∈ l -> c' ∈ l -> rank base (rc_sequence c) = rank base (rc_sequence c') -> c = c').

Lemma lowest_of_spec f l' :
  f ∈ l -> (forall c, c ∈ l' -> c ∈ l) ->
  lowest_of f l' ∈ l /\ rank base (rc_sequence (lowest_of f l')) <= rank base (rc_sequence f) /\
  forall c, c ∈ l' -> rank base (rc_sequence (lowest_of f l')) <= rank base (rc_sequence c).
Proof.
  intros Hf. induction l' as [|c l' IH] using rev_ind; intros Hsub.
  - split_and!; [done|cbn; lia|]. intros c Hc. by apply elem_of_nil in Hc.
  - destruct IH as (H1 & H2 & H3); [set_solver|]. unfold lowest_of in *. rewrite foldl_app. cbn [foldl].
    set (m := foldl _ f l') in *.
    rewrite (lower_rank base) by (apply window; first [done|apply Hsub; set_solver]).
    destruct (_ <? _) eqn:E; zb; (split_and!; [set_solver|lia|]);
      intros c' [Hc'|Hc'%list_elem_of_singleton]%elem_of_app; subst; try specialize (H3 c' Hc'); lia.
Qed.

Lemma lowest_writer_spec l' :
  (forall c, c ∈ l' -> c ∈ l) ->
  match lowest_writer l' with
  | None => forall c, c ∈ l' -> is_writer c = false
  | Some x => x ∈ l' /\ is_writer x = true /\
      forall c, c ∈ l' -> is_writer c = true -> rank base (rc_sequence x) <= rank base (rc_sequence c)
  end.
Proof.
  induction l' as [|c l' IH] using rev_ind; intros Hsub; [intros c Hc; by apply elem_of_nil in Hc|].
  specialize (IH ltac:(set_solver)). unfold lowest_writer in *. rewrite foldl_app. cbn [foldl].
  destruct (foldl _ None l') as [x|]; destruct (is_writer c) eqn:Ec; cbn [andb].
  - destruct IH as (H1 & H2 & H3). rewrite (lower_rank base) by (apply window, Hsub; set_solver).
    destruct (_ <? _) eqn:E; zb; (split_and!; [set_solver|done|]);
      intros c' [Hc'|Hc'%list_elem_of_singleton]%elem_of_app Hw; subst; try specialize (H3 c' Hc' Hw); lia.
  - destruct IH as (H1 & H2 & H3). split_and!; [set_solver|done|].
    intros c' [Hc'|Hc'%list_elem_of_singleton]%elem_of_app Hw; [by apply H3|]. congruence.
  - split_and!; [set_solver|done|]. intros c' [Hc'|Hc'%list_elem_of_singleton]%elem_of_app Hw.
    + rewrite IH in Hw; done.
    + subst. lia.
  - intros c' [Hc'|Hc'%list_elem_of_singleton]%elem_of_app; [by apply IH|]. by subst.
Qed.

(** Who is granted: a writer in front of everybody, or a reader in front of
    every writer. *)
Definition in_front (c : rw_candidate) : Prop :=
  (is_writer c = true /\ forall c', c' ∈ l -> c' <> c -> rank base (rc_sequence c) < rank base (rc_sequence c')) \/
  (is_reader c = true /\
   forall c', c' ∈ l -> is_writer c' = true -> rank base (rc_sequence c) < rank base (rc_sequence c')).

Lemma granted_in_front c :
  (forall c', c' ∈ l -> is_writer c' = true \/ is_reader c' = true) ->
  c ∈ granted_set l <-> c ∈ l /\ in_front c.
Proof.
  intros Htypes. destruct (list_cases l) as [El|(f & l0 & El)].
  { rewrite El. cbn. split; [intros Hc; by apply elem_of_nil in Hc|intros [Hc _]; by apply elem_of_nil in Hc]. }
  rewrite (granted_set_from f l l0 El). unfold granted_from. cbv zeta.
  destruct (lowest_of_spec f l) as (H1 & H2 & H3); [rewrite El; by left|done|].
  set (m := lowest_of f l) in *.
  destruct (is_writer m) eqn:Em.
  - rewrite list_elem_of_singleton. split.
    + intros ->. split; [done|]. left. split; [done|]. intros c' Hc' Hne.
      specialize (H3 c' Hc'). destruct (decide (rank base (rc_sequence m) = rank base (rc_sequence c'))) as [E|]; [|lia].
      by apply distinct in E.
    + intros [Hc Hfr]. destruct (decide (c = m)) as [|Hne]; [done|exfalso].
      destruct Hfr as [[_ Hfr]|[_ Hfr]]; [specialize (Hfr m H1 (not_eq_sym Hne))|specialize (Hfr m H1 Em)];
        specialize (H3 c Hc); lia.
  - pose proof (lowest_writer_spec l ltac:(done)) as Hlw. rewrite list_elem_of_In, List.filter_In, <- list_elem_of_In.
    split.
    + intros [Hc Hb]. split; [done|]. apply andb_true_iff in Hb as [Hr Hb]. right. split; [done|].
      intros c' Hc' Hw. destruct (lowest_writer l) as [x|]; [|rewrite Hlw in Hw; done].
      destruct Hlw as (Hx & Hwx & Hmin). rewrite (lower_rank base) in Hb by (apply window; done). zb.
      specialize (Hmin c' Hc' Hw). lia.
    + intros [Hc [[Hw Hfr]|[Hr Hfr]]].
      * exfalso. destruct (decide (c = m)) as [->|Hne]; [congruence|].
        specialize (Hfr m H1 (not_eq_sym Hne)). specialize (H3 c Hc). lia.
      * split; [done|]. rewrite Hr. cbn. destruct (lowest_writer l) as [x|]; [|done].
        destruct Hlw as (Hx & Hwx & _). rewrite (lower_rank base) by (apply window; done).
        apply Z.ltb_lt. by apply Hfr.
Qed.

Lemma granted_nonempty :
  (forall c', c' ∈ l -> is_writer c' = true \/ is_reader c' = true) -> l <> [] -> granted_set l <> [].
Proof.
  intros Htypes Hne. destruct (list_cases l) as [El|(f & l0 & El)]; [done|].
  destruct (lowest_of_spec f l) as (H1 & H2 & H3); [rewrite El; by left|done|].
  assert (lowest_of f l ∈ granted_set l) as Hin; [|intros E; rewrite E in Hin; by apply elem_of_nil in Hin].
  apply granted_in_front; [done|]. split; [done|].
  destruct (Htypes _ H1) as [Hw|Hr]; [left|right]; (split; [done|]).
  - intros c' Hc' Hn. specialize (H3 c' Hc').
    destruct (decide (rank base (rc_sequence (lowest_of f l)) = rank base (rc_sequence c'))) as [E|]; [|lia].
    by apply distinct in E.
  - intros c' Hc' Hw. specialize (H3 c' Hc').
    destruct (decide (rank base (rc_sequence (lowest_of f l)) = rank base (rc_sequence c'))) as [E|]; [|lia].
    apply distinct in E; [|done|done]. rewrite E in Hr. unfold is_reader, is_writer in *.
    destruct (rc_type c'); done.
Qed.
End policy.

(** ** A grant *)

Lemma signal_granted_map u g l :
  signal_granted u g l =
    (fun w => if existsb (fun c => rc_id c =? waiter_id w) g then with_signal (Some u) w else w) <$> l.
Proof.
  revert l. induction g as [|c g IH]; intros l; cbn.
  - symmetry. apply list_fmap_id.
  - change (foldl _ (signal (Some u) (rc_id c) l) g) with (signal_granted u g (signal (Some u) (rc_id c) l)).
    rewrite IH. unfold signal. rewrite <- list_fmap_compose. apply list_fmap_ext. intros i w _. cbn.
    rewrite (Z.eqb_sym (rc_id c)). destruct (waiter_id w =? rc_id c); cbn; [|done].
    by destruct (existsb _ g).
Qed.

Lemma candidates_elem addr s c :
  c ∈ rw_candidates addr s <-> exists w, w ∈ nativeGuestWaiters s /\ rw_waiting addr w = true /\ c = candidate_of w.
Proof.
  unfold rw_candidates. rewrite list_elem_of_fmap. split.
  - intros (w & -> & Hw%list_elem_of_In%List.filter_In). destruct Hw as [Hw%list_elem_of_In Hr]. eauto.
  - intros (w & Hw & Hr & ->). exists w. split; [done|]. apply list_elem_of_In, List.filter_In.
    split; [by apply list_elem_of_In|done].
Qed.

Lemma rw_waiting_type addr w :
  rw_waiting addr w = true -> is_writer (candidate_of w) = true \/ is_reader (candidate_of w) = true.
Proof.
  unfold rw_waiting, is_writer, is_reader. rewrite !andb_true_iff. intros [_ Ht]. cbn.
  destruct (rwlockWaitType w); [done|by right|by left].
Qed.

(** The identity of a granted waiter. *)
Lemma granted_waiter addr s w :
  NoDup (ids (nativeGuestWaiters s)) -> w ∈ nativeGuestWaiters s ->
  existsb (fun c => rc_id c =? waiter_id w) (granted_set (rw_candidates addr s)) = true <->
  rw_waiting addr w = true /\ candidate_of w ∈ granted_set (rw_candidates addr s).
Proof.
  intros Hnd Hw. rewrite existsb_exists. split.
  - intros (c & Hc%list_elem_of_In & He). zb.
    pose proof (granted_subset _ _ Hc) as Hcl. apply candidates_elem in Hcl as (w' & Hw' & Hr & ->).
    cbn in He. assert (w' = w) as -> by (by eapply ids_inj). done.
  - intros [Hr Hc]. exists (candidate_of w). split; [by apply list_elem_of_In|]. cbn. apply Z.eqb_refl.
Qed.

(** ** What a grant reports *)

(** The word tells [n] granted threads, whether a writer was granted, and whether
    one is left; the kernel bit is set in either case, and no other bit. *)
Definition reported (n : nat) (exclusive left : bool) (u : Z) : Prop :=
  count_part u = u32 (Z.of_nat n * GuestPsynchCountIncrement) /\
  has_flag u GuestPsynchRwExclusiveBit = exclusive /\
  has_flag u GuestPsynchRwWriterBit = left /\
  has_flag u GuestPsynchRwKernelBit = exclusive || left /\
  Z.land u 0xf8 = 0.

(** A count and the low byte. *)
Lemma word_parts k b :
  0 <= b < 256 -> count_part (Z.lor (256 * k) b) = 256 * (k mod GENERATIONS) /\
  forall m, 0 <= m < 256 -> Z.land (Z.lor (256 * k) b) m = Z.land b m.
Proof.
  intros Hb. replace (256 * k) with (Z.shiftl k 8) by (rewrite Z.shiftl_mul_pow2 by done; lia).
  assert (Hlow : forall x i, 0 <= x < 256 -> 8 <= i -> Z.testbit x i = false).
  { intros x i Hx Hi. rewrite <- (Z.mod_small x (2 ^ 8)) by lia. by apply Z.mod_pow2_bits_high. }
  split; [|intros m Hm].
  - rewrite count_part_gen. unfold gen. do 2 f_equal. change 256 with (2 ^ 8). rewrite <- Z.shiftr_div_pow2 by done.
    rewrite Z.shiftr_lor, Z.shiftr_shiftl_l by done. change (Z.shiftl k (8 - 8)) with (Z.shiftl k 0).
    rewrite Z.shiftl_0_r, (Z.shiftr_div_pow2 b), Z.div_small by lia. apply Z.lor_0_r.
  - apply Z.bits_inj'. intros i Hi. rewrite !Z.land_spec, Z.lor_spec.
    destruct (Z_lt_le_dec i 8); [by rewrite Z.shiftl_spec_low|].
    by rewrite (Hlow m i) by done; rewrite !andb_false_r.
Qed.

Lemma u32_count n : u32 (n * GuestPsynchCountIncrement) = 256 * (n mod GENERATIONS).
Proof.
  unfold u32, U32_MOD, GuestPsynchCountIncrement, GENERATIONS. rewrite (Z.mul_comm n).
  change (2 ^ 32) with (256 * 2 ^ 24). by rewrite Z.mul_mod_distr_l.
Qed.

Lemma grant_update_reports granted l :
  reported (length granted) (writer_grant granted) (writer_remains granted l) (grant_update granted l).
Proof.
  unfold grant_update. destruct (writer_grant granted) eqn:E.
  - destruct granted as [|c [|]]; try done. destruct (writer_remains _ l); unfold reported; by vm_compute.
  - rewrite u32_count. set (k := Z.of_nat (length granted) mod GENERATIONS).
    assert (Hk : k mod GENERATIONS = k) by (by apply Z.mod_mod).
    unfold reported. rewrite u32_count. fold k.
    destruct (writer_remains granted l).
    + destruct (word_parts k 5 ltac:(lia)) as [Hc Hm]. change (Z.lor GuestPsynchRwKernelBit GuestPsynchRwWriterBit) with 5.
      unfold has_flag. rewrite Hc, Hk, !Hm by (vm_compute; done). done.
    + destruct (word_parts k 0 ltac:(lia)) as [Hc Hm]. rewrite Z.lor_0_r in Hc, Hm.
      unfold has_flag. rewrite Hc, Hk, !Hm by (vm_compute; done). done.
Qed.

(** The candidates left after the signals. *)
Lemma candidates_left addr u g s s' :
  nativeGuestWaiters s' = signal_granted u g (nativeGuestWaiters s) ->
  rw_candidates addr s' = List.filter (fun c => negb (in_granted g c)) (rw_candidates addr s).
Proof.
  intros E. unfold rw_candidates. rewrite E, signal_granted_map. clear E. induction (nativeGuestWaiters s) as [|w l IH]; [done|].
  rewrite fmap_cons. cbn [List.filter]. destruct (existsb _ g) eqn:E.
  - change (rw_waiting addr (with_signal (Some u) w)) with false. cbv iota. rewrite IH.
    destruct (rw_waiting addr w); [|done]. rewrite fmap_cons. cbn [List.filter].
    change (in_granted g (candidate_of w)) with (existsb (fun c => rc_id c =? waiter_id w) g). by rewrite E.
  - destruct (rw_waiting addr w); [|exact IH]. rewrite !fmap_cons, IH. cbn [List.filter].
    change (in_granted g (candidate_of w)) with (existsb (fun c => rc_id c =? waiter_id w) g). by rewrite E.
Qed.

Lemma filter_sublist_bool {A} (f : A -> bool) l : List.filter f l `sublist_of` l.
Proof. induction l as [|x l IH]; [done|]. cbn. destruct (f x); by constructor. Qed.

Lemma candidates_NoDup addr s : NoDup (ids (nativeGuestWaiters s)) -> NoDup (rc_id <$> rw_candidates addr s).
Proof.
  unfold rw_candidates, ids. rewrite <- list_fmap_compose.
  change (rc_id ∘ candidate_of) with waiter_id. intros H. eapply sublist_NoDup; [exact H|].
  apply fmap_sublist, filter_sublist_bool.
Qed.

Lemma rc_inj l (c c' : rw_candidate) : NoDup (rc_id <$> l) -> c ∈ l -> c' ∈ l -> rc_id c = rc_id c' -> c = c'.
Proof.
  intros Hnd (i & Hi)%list_elem_of_lookup (j & Hj)%list_elem_of_lookup He.
  assert (i = j) as -> by (eapply NoDup_lookup; [exact Hnd|rewrite list_lookup_fmap, Hi; done|
    rewrite list_lookup_fmap, Hj; cbn; by rewrite He]). congruence.
Qed.

Lemma granted_NoDup l : NoDup l -> NoDup (granted_set l).
Proof.
  intros Hnd. destruct (list_cases l) as [->|(f & l0 & El)]; [constructor|].
  rewrite (granted_set_from f l l0 El). unfold granted_from. cbv zeta.
  destruct (is_writer _); [apply NoDup_singleton|].
  eapply sublist_NoDup; [exact Hnd|apply filter_sublist_bool].
Qed.

(** Granted and left make up the candidates. *)
Lemma granted_count l :
  NoDup (rc_id <$> l) ->
  length l = (length (List.filter (fun c => negb (in_granted (granted_set l) c)) l) + length (granted_set l))%nat.
Proof.
  intros Hnd. assert (Hl : NoDup l) by (by eapply NoDup_fmap_1).
  assert (Hin : forall c, c ∈ l -> in_granted (granted_set l) c = true <-> c ∈ granted_set l).
  { intros c Hc. unfold in_granted. rewrite existsb_exists. split.
    - intros (g & Hg%list_elem_of_In & He). zb. replace c with g; [done|].
      eapply rc_inj; [exact Hnd|by apply granted_subset|done..].
    - intros Hg. exists c. split; [by apply list_elem_of_In|apply Z.eqb_refl]. }
  transitivity (length (List.filter (fun c => negb (in_granted (granted_set l) c)) l) +
                length (List.filter (in_granted (granted_set l)) l))%nat.
  { clear. generalize (granted_set l). intros g. induction l as [|c l IH]; [done|]. cbn. destruct (in_granted g c); cbn; lia. }
  f_equal. apply Permutation_length, NoDup_Permutation; [by apply NoDup_ListNoDup, List.NoDup_filter, NoDup_ListNoDup|
    by apply granted_NoDup|].
  intros c. rewrite list_elem_of_In, List.filter_In, <- list_elem_of_In. split.
  - intros [Hc Hg]. by apply Hin.
  - intros Hg. pose proof (granted_subset _ _ Hg). split; [done|by apply Hin].
Qed.

Lemma writer_grant_elem l : writer_grant (granted_set l) = true <-> exists c, c ∈ granted_set l /\ is_writer c = true.
Proof.
  split.
  - destruct (granted_set l) as [|c [|]]; try done. intros Hw. exists c. split; [by left|done].
  - intros (c & Hc & Hw). destruct (list_cases l) as [->|(f & l0 & El)]; [by apply elem_of_nil in Hc|].
    rewrite (granted_set_from f l l0 El) in *. unfold granted_from in *. cbv zeta in *.
    destruct (is_writer (lowest_of f l)) eqn:E; [done|].
    apply list_elem_of_In, List.filter_In in Hc as [_ Hr]. unfold is_writer, is_reader in *.
    destruct (rc_type c); done.
Qed.

Lemma writer_remains_elem g l :
  writer_remains g l = true <-> exists c, c ∈ List.filter (fun c => negb (in_granted g c)) l /\ is_writer c = true.
Proof.
  unfold writer_remains. rewrite existsb_exists. setoid_rewrite list_elem_of_In. setoid_rewrite List.filter_In.
  setoid_rewrite andb_true_iff. naive_solver.
Qed.

(** C12: a reader-writer grant is exclusive, ordered and complete, and its update
    word reports it.  When an unlock is paid out, the signalled waiters are exactly
    the writer that arrived before everybody else, or all readers that arrived
    before every waiting writer: never a writer together with anybody, never a
    reader past a waiting writer, and at least one of them.  All of them receive the
    same update word; everybody else stays as it was.  The word counts the threads
    that were granted (modulo the 24 bits of a count), has the exclusive bit exactly
    if a writer was granted, the writer bit exactly if a writer is left waiting, the
    kernel bit exactly if one of them holds, and no other bit.  Waiters have
    distinct identities; arrival order is taken inside a window of half the
    generation space, in which the waiters of the lock have distinct sequences. *)
Theorem rwlock_grant_correct base addr s u s' :
  NoDup (ids (nativeGuestWaiters s)) ->
  (forall c, c ∈ rw_candidates addr s -> in_window base (rc_sequence c)) ->
  (forall c c', c ∈ rw_candidates addr s -> c' ∈ rw_candidates addr s ->
     rank base (rc_sequence c) = rank base (rc_sequence c') -> c = c') ->
  TryGrantNativeGuestRwlockLocked addr s = Some (u, s') ->
  (exists w, w ∈ nativeGuestWaiters s /\ rw_waiting addr w = true /\
     in_front base (rw_candidates addr s) (candidate_of w)) /\
  length (nativeGuestWaiters s') = length (nativeGuestWaiters s) /\
  (forall i w, nativeGuestWaiters s !! i = Some w ->
     (rw_waiting addr w = true -> in_front base (rw_candidates addr s) (candidate_of w) ->
        nativeGuestWaiters s' !! i = Some (with_signal (Some u) w)) /\
     (~ (rw_waiting addr w = true /\ in_front base (rw_candidates addr s) (candidate_of w)) ->
        nativeGuestWaiters s' !! i = Some w)) /\
  exists n exclusive left,
    reported n exclusive left u /\
    length (rw_candidates addr s) = (length (rw_candidates addr s') + n)%nat /\
    (exclusive = true <-> exists c, c ∈ rw_candidates addr s /\ is_writer c = true /\
       in_front base (rw_candidates addr s) c) /\
    (left = true <-> exists c, c ∈ rw_candidates addr s' /\ is_writer c = true).
Proof.
  intros Hnd Hwin Hdis. unfold TryGrantNativeGuestRwlockLocked.
  destruct (List.find _ _) as [unlock|]; [|done]. cbv zeta. destruct (_ <? _); [done|].
  destruct (bool_decide (rw_candidates addr s = [])) eqn:Ene; [done|]. apply bool_decide_eq_false in Ene.
  intros [= <- <-]. cbn [nativeGuestWaiters with_unlocks with_overlaps with_waiters].
  set (l := rw_candidates addr s) in *. set (upd := grant_update _ _).
  assert (forall c, c ∈ l -> is_writer c = true \/ is_reader c = true) as Htypes.
  { intros c (w & _ & Hr & ->)%candidates_elem. by eapply rw_waiting_type. }
  pose proof (granted_in_front base l Hwin Hdis) as Hgf. split_and!.
  - pose proof (granted_nonempty base l Hwin Hdis Htypes Ene) as Hg.
    destruct (list_cases (granted_set l)) as [?|(c & g & Eg)]; [done|].
    assert (c ∈ granted_set l) as Hc by (rewrite Eg; by left).
    apply Hgf in Hc as [Hc Hfr]; [|done]. apply candidates_elem in Hc as (w & Hw & Hr & ->). eauto.
  - rewrite signal_granted_map. apply length_fmap.
  - intros i w Hi. rewrite signal_granted_map, list_lookup_fmap, Hi. cbn.
    assert (w ∈ nativeGuestWaiters s) as Hw by (apply list_elem_of_lookup; eauto).
    pose proof (granted_waiter addr s w Hnd Hw) as Hgw. fold l in Hgw.
    assert (rw_waiting addr w = true -> candidate_of w ∈ l) as Hin by (intros; apply candidates_elem; eauto).
    destruct (existsb _ (granted_set l)) eqn:E.
    + destruct Hgw as [Hgw _]. destruct (Hgw eq_refl) as [Hr Hc]. apply Hgf in Hc as [_ Hfr]; [|done]. tauto.
    + split; [|done]. intros Hr Hfr. exfalso. enough (false = true) by done. apply Hgw. split; [done|].
      apply Hgf; [done|]. split; [by apply Hin|done].
  - exists (length (granted_set l)), (writer_grant (granted_set l)), (writer_remains (granted_set l) l).
    split_and!.
    + apply grant_update_reports.
    + rewrite (candidates_left addr upd (granted_set l) s) by done. apply granted_count. by apply candidates_NoDup.
    + rewrite writer_grant_elem. split.
      * intros (c & Hc & Hw). exists c. apply Hgf in Hc as [Hc Hfr]; [done|done].
      * intros (c & Hc & Hw & Hfr). exists c. split; [by apply Hgf|done].
    + rewrite (candidates_left addr upd (granted_set l) s) by done. apply writer_remains_elem.
Qed.

(** ** No unlock stays pending *)

(** Whether an unlock of [addr] can be paid out now. *)
Definition payable (addr : Z) (unlocks : list NativeGuestRwlockUnlock) (l : list rw_candidate) : bool :=
  match List.find (fun u => ru_address u =? addr) unlocks with
  | None => false
  | Some u =>
      (ru_expectedWaiters u <=? Z.of_nat (length (List.filter (fun c =>
         GuestPsynchSequenceLowerOrEqual (rc_sequence c) (ru_lgen u)) l))) && negb (bool_decide (l = []))
  end.

Lemma TryGrant_payable addr s :
  TryGrantNativeGuestRwlockLocked addr s = None <->
  payable addr (nativeGuestRwlockUnlocks s) (rw_candidates addr s) = false.
Proof.
  unfold TryGrantNativeGuestRwlockLocked, payable. destruct (List.find _ _) as [u|]; [|done]. cbv zeta.
  rewrite Z.leb_antisym. destruct (_ <? ru_expectedWaiters u); [done|].
  by destruct (bool_decide (rw_candidates addr s = [])).
Qed.

(** Nothing can be paid out; at most one unlock per lock is recorded. *)
Record settled (s : psynch) : Prop := {
  settled_ids : NoDup (ids (nativeGuestWaiters s));
  settled_unlocks : NoDup (ru_address <$> nativeGuestRwlockUnlocks s);
  settled_paid : forall addr, payable addr (nativeGuestRwlockUnlocks s) (rw_candidates addr s) = false;
}.

(** Operations that leave the locks alone. *)
Lemma settled_same s s' :
  settled s -> NoDup (ids (nativeGuestWaiters s')) ->
  nativeGuestRwlockUnlocks s' = nativeGuestRwlockUnlocks s ->
  (forall addr, rw_candidates addr s' = rw_candidates addr s) -> settled s'.
Proof. intros [H1 H2 H3] Hnd Hu Hc. split; [done|by rewrite Hu|]. intros addr. by rewrite Hu, Hc. Qed.

(** Rewriting waiters without touching the lock's candidates. *)
Lemma candidates_fmap addr (f : NativeGuestWaiter -> NativeGuestWaiter) l :
  (forall w, w ∈ l -> rw_waiting addr (f w) = rw_waiting addr w /\
     (rw_waiting addr w = true -> candidate_of (f w) = candidate_of w)) ->
  candidate_of <$> List.filter (rw_waiting addr) (f <$> l) = candidate_of <$> List.filter (rw_waiting addr) l.
Proof.
  induction l as [|w l IH]; intros Hf; [done|]. destruct (Hf w ltac:(by left)) as [H1 H2].
  specialize (IH (fun x Hx => Hf x (proj2 (elem_of_cons _ _ _) (or_intror Hx)))). cbn.
  rewrite H1. destruct (rw_waiting addr w); cbn; [|exact IH]. by rewrite H2, IH.
Qed.

Lemma rw_waiting_kind addr w : kind w <> Rwlock -> rw_waiting addr w = false.
Proof. intros Hk. unfold rw_waiting. rewrite bool_decide_false by done. by rewrite andb_false_r. Qed.

Lemma signal_candidates addr r w s :
  NoDup (ids (nativeGuestWaiters s)) -> w ∈ nativeGuestWaiters s -> kind w <> Rwlock ->
  rw_candidates addr (with_waiters (signal r (waiter_id w) (nativeGuestWaiters s)) s) = rw_candidates addr s.
Proof.
  intros Hnd Hw Hk. unfold rw_candidates, signal. cbn [nativeGuestWaiters with_waiters]. apply candidates_fmap.
  intros x Hx. destruct (waiter_id x =? waiter_id w) eqn:E; [|done]. zb.
  assert (x = w) as -> by (by eapply ids_inj). rewrite !rw_waiting_kind by done. done.
Qed.

Lemma wake_candidates p r one s s' n :
  NoDup (ids (nativeGuestWaiters s)) -> (forall w, p w = true -> kind w <> Rwlock) -> wake p r one s = (s', n) ->
  NoDup (ids (nativeGuestWaiters s')) /\ nativeGuestRwlockUnlocks s' = nativeGuestRwlockUnlocks s /\
  forall addr, rw_candidates addr s' = rw_candidates addr s.
Proof.
  intros Hnd Hp Hw. split; [by destruct (wake_narrow _ _ _ _ _ _ Hnd Hw) as [[? _ _ _] _]|]. destruct one.
  - destruct (wake_one_spec p r s) as [[He _]|(w & Hin & Ht & _ & He)]; rewrite He in Hw; injection Hw as <- <-; [done|].
    split; [done|]. intros addr. apply signal_candidates; try done. apply Hp. unfold target in Ht.
    by apply andb_true_iff in Ht as [_ ?].
  - rewrite wake_all_spec in Hw by done. injection Hw as <- <-. split; [done|]. intros addr.
    unfold rw_candidates, wake_all. cbn [nativeGuestWaiters with_waiters]. apply candidates_fmap. intros w _.
    destruct (target p w) eqn:E; [|done]. unfold target in E. apply andb_true_iff in E as [_ E].
    rewrite !rw_waiting_kind by exact (Hp w E). done.
Qed.

Lemma enqueue_candidates addr w s :
  rw_waiting addr w = false -> rw_candidates addr (enqueue w s) = rw_candidates addr s.
Proof.
  intros Hw. unfold rw_candidates, enqueue. cbn [nativeGuestWaiters with_waiters].
  rewrite List.filter_app, fmap_app. cbn [List.filter].
  change (rw_waiting addr (with_sequence (guestNextWaitSequence s) w)) with (rw_waiting addr w). rewrite Hw.
  by rewrite app_nil_r.
Qed.

(** Fewer candidates cannot make an unlock payable. *)
Lemma erase_payable id addr s :
  payable addr (nativeGuestRwlockUnlocks s) (rw_candidates addr s) = false ->
  payable addr (nativeGuestRwlockUnlocks s) (rw_candidates addr (erase_waiter id s)) = false.
Proof.
  unfold payable. destruct (List.find _ _) as [u|]; [|done].
  assert (forall f : rw_candidate -> bool,
    (length (List.filter f (rw_candidates addr (erase_waiter id s))) <= length (List.filter f (rw_candidates addr s)))%nat) as Hf.
  { intros f. unfold rw_candidates, erase_waiter. cbn [nativeGuestWaiters with_waiters].
    induction (nativeGuestWaiters s) as [|w l IH]; [done|]. cbn [List.filter].
    destruct (negb (waiter_id w =? id)); cbn [List.filter]; destruct (rw_waiting addr w);
      rewrite ?fmap_cons; cbn [List.filter]; try exact IH;
      destruct (f (candidate_of w)); cbn [length]; lia. }
  pose proof (Hf (fun c => GuestPsynchSequenceLowerOrEqual (rc_sequence c) (ru_lgen u))) as H1.
  pose proof (Hf (fun _ => true)) as H2. intros Hp. apply andb_false_iff in Hp as [Hp|Hp]; apply andb_false_iff.
  - left. zb. apply Z.leb_gt. lia.
  - right. apply negb_false_iff, bool_decide_eq_true in Hp. rewrite Hp in H2. cbn [List.filter length] in H2.
    apply negb_false_iff, bool_decide_eq_true.
    destruct (rw_candidates addr (erase_waiter id s)); [done|]. cbn [List.filter length] in H2. lia.
Qed.

Lemma find_erase_unlock addr a0 l :
  NoDup (ru_address <$> l) ->
  List.find (fun u => ru_address u =? addr) (erase_unlock a0 l) =
    if decide (addr = a0) then None else List.find (fun u => ru_address u =? addr) l.
Proof.
  induction l as [|u l IH]; intros Hnd; cbn; [by case_decide|].
  cbn in Hnd. apply NoDup_cons in Hnd as [Hu Hnd].
  assert (ru_address u = addr -> List.find (fun x => ru_address x =? addr) l = None) as Hnone.
  { intros He. destruct (List.find _ l) as [x|] eqn:Ex; [|done]. apply List.find_some in Ex as [Hx Hxa]. zb.
    destruct Hu. apply list_elem_of_fmap. exists x. split; [congruence|by apply list_elem_of_In]. }
  destruct (ru_address u =? a0) eqn:E; zb.
  - case_decide; [subst; by apply Hnone|]. destruct (ru_address u =? addr) eqn:E2; zb; [congruence|done].
  - cbn. destruct (ru_address u =? addr) eqn:E2; zb; [by rewrite decide_False by congruence|]. by apply IH.
Qed.

Lemma erase_unlock_NoDup a0 l : NoDup (ru_address <$> l) -> NoDup (ru_address <$> erase_unlock a0 l).
Proof.
  induction l as [|u l IH]; intros Hnd; [done|]. cbn in Hnd |- *. apply NoDup_cons in Hnd as [Hu Hnd].
  destruct (ru_address u =? a0); [done|]. cbn. apply NoDup_cons. split; [|by apply IH]. intros Hin. apply Hu.
  clear -Hin. induction l as [|x l IH]; [done|]. cbn in Hin |- *.
  destruct (ru_address x =? a0); [by right|]. cbn in Hin. apply elem_of_cons in Hin as [->|Hin]; [by left|right; auto].
Qed.

Lemma put_unlock_elem u l x : x ∈ ru_address <$> put_unlock u l -> x = ru_address u \/ x ∈ ru_address <$> l.
Proof.
  induction l as [|y l IH]; cbn; [intros Hx%list_elem_of_singleton; by left|].
  destruct (ru_address y =? ru_address u); cbn; rewrite !elem_of_cons; naive_solver.
Qed.

Lemma put_unlock_spec u l :
  NoDup (ru_address <$> l) ->
  NoDup (ru_address <$> put_unlock u l) /\
  forall addr, addr <> ru_address u ->
    List.find (fun x => ru_address x =? addr) (put_unlock u l) = List.find (fun x => ru_address x =? addr) l.
Proof.
  induction l as [|x l IH]; intros Hnd; cbn [put_unlock].
  - split; [apply NoDup_singleton|]. intros addr Hne. cbn. destruct (ru_address u =? addr) eqn:E; zb; done.
  - cbn in Hnd. apply NoDup_cons in Hnd as [Hx Hnd]. destruct (IH Hnd) as [H1 H2].
    destruct (ru_address x =? ru_address u) eqn:E; zb; (split; [|intros addr Hne; cbn]).
    + cbn. apply NoDup_cons. by rewrite <- E.
    + destruct (ru_address u =? addr) eqn:E1; zb; [done|]. destruct (ru_address x =? addr) eqn:E2; zb; congruence.
    + cbn. apply NoDup_cons. split; [|done]. intros [?|?]%put_unlock_elem; done.
    + destruct (ru_address x =? addr); [done|]. by apply H2.
Qed.

(** After a payout nothing is payable if nothing was at the other locks. *)
Lemma grant_settles a0 s u s' :
  NoDup (ids (nativeGuestWaiters s)) -> NoDup (ru_address <$> nativeGuestRwlockUnlocks s) ->
  (forall addr, addr <> a0 -> payable addr (nativeGuestRwlockUnlocks s) (rw_candidates addr s) = false) ->
  TryGrantNativeGuestRwlockLocked a0 s = Some (u, s') -> settled s'.
Proof.
  intros Hnd Hun Hp Ht. pose proof (grant_ids _ _ _ _ Hnd Ht) as Hids. revert Hids Ht. unfold TryGrantNativeGuestRwlockLocked.
  destruct (List.find _ _) as [unlock|]; [|done]. cbv zeta. destruct (_ <? _); [done|].
  destruct (bool_decide (rw_candidates a0 s = [])); [done|]. intros Hids [= <- <-].
  split; [done|by apply erase_unlock_NoDup|]. intros addr.
  cbn [nativeGuestRwlockUnlocks with_unlocks]. unfold payable. rewrite find_erase_unlock by done.
  case_decide as Hne; [done|]. specialize (Hp addr Hne). unfold payable in Hp.
  match goal with |- context [rw_candidates addr ?x] => assert (rw_candidates addr x = rw_candidates addr s) as -> end; [|done].
  unfold rw_candidates at 1. cbn [nativeGuestWaiters with_unlocks with_overlaps with_waiters].
  rewrite signal_granted_map. apply candidates_fmap. intros w Hw.
  destruct (existsb _ _) eqn:E; [|done]. apply (granted_waiter a0 s w Hnd Hw) in E as [Hr _].
  assert (address w = a0) as Ha.
  { unfold rw_waiting in Hr. rewrite !andb_true_iff in Hr. destruct Hr as [[_ Ha] _]. by zb. }
  assert (forall x, address x = a0 -> rw_waiting addr x = false) as Hno.
  { intros x Hx. unfold rw_waiting. destruct (address x =? addr) eqn:E; zb; [congruence|]. by rewrite andb_false_r. }
  rewrite !Hno by done. done.
Qed.

(** ** Every operation settles *)

Lemma mutex_candidate_kind addr tgt ff w : mutex_candidate addr tgt ff w = true -> kind w <> Rwlock.
Proof. unfold mutex_candidate. destruct (kind w); done. Qed.

Lemma condition_candidate_not_rw addr through tgt w :
  condition_candidate addr through tgt w = true -> kind w <> Rwlock.
Proof. unfold condition_candidate. destruct (kind w); done. Qed.

Lemma ulock_candidate_not_rw addr opcode tgt b w : ulock_candidate addr opcode tgt b w = true -> kind w <> Rwlock.
Proof. unfold ulock_candidate, ulock_at. destruct (kind w); done. Qed.

Lemma other_wait_settled w ff rwState ts tns s :
  settled s -> identity_unused (waiter_id w) s = true -> kind w <> Rwlock ->
  settled (snd (WaitNativeGuestThread w ff rwState ts tns s)).
Proof.
  intros Hs Hf Hk. pose proof (wait_ids w ff rwState ts tns s (settled_ids _ Hs) Hf) as Hnd.
  assert (settled (enqueue w s)) as He.
  { eapply (settled_same s); [done|by apply enqueue_ids; [apply Hs|]|done|].
    intros addr. apply enqueue_candidates. by apply rw_waiting_kind. }
  revert Hnd. unfold WaitNativeGuestThread. destruct (_ && _)%bool; [done|].
  destruct (kind w); [done| | |done|done].
  - unfold ConsumeGuestMutexPrepost. destruct (consume_mutex _ _ _ _); [|done].
    intros Hnd. by eapply (settled_same s).
  - unfold ConsumeGuestConditionPrepost. destruct (select_condition _ _ _) as [[i p]|]; [|done].
    intros Hnd. by eapply (settled_same s).
Qed.

Lemma enqueue_other addr w s :
  address w <> addr -> rw_candidates addr (enqueue w s) = rw_candidates addr s.
Proof.
  intros Hne. apply enqueue_candidates. unfold rw_waiting. destruct (address w =? addr) eqn:E; zb; [done|].
  by rewrite andb_false_r.
Qed.

Lemma rw_wait_settled w rwState s :
  settled s -> identity_unused (waiter_id w) s = true -> kind w = Rwlock ->
  settled (snd (WaitNativeGuestThread w false rwState 0 0 s)).
Proof.
  intros Hs Hf Hk. pose proof (enqueue_ids w s (settled_ids _ Hs) Hf) as Hnd.
  unfold WaitNativeGuestThread. rewrite Hk. rewrite (bool_decide_false (Rwlock = Condition)) by done. cbn [andb].
  rewrite (bool_decide_true (Rwlock = Rwlock)) by done.
  assert (forall b : psynch, settled (match TryGrantNativeGuestRwlockLocked (address w) (enqueue w s) with
    | Some (_, s') => s' | None => enqueue w s end)) as Hblock.
  { intros _. destruct (TryGrantNativeGuestRwlockLocked (address w) (enqueue w s)) as [[u s']|] eqn:Eg.
    - eapply grant_settles; [exact Hnd|apply Hs| |exact Eg]. intros addr Hne.
      rewrite enqueue_other by congruence. apply Hs.
    - split; [done|apply Hs|]. intros addr. destruct (decide (address w = addr)) as [<-|Hne].
      + by apply TryGrant_payable.
      + rewrite enqueue_other by done. apply Hs. }
  destruct (bool_decide (rwlockWaitType w = Read)); [|exact (Hblock s)].
  unfold TryHandleNativeGuestRwlockOverlapLocked. destruct (overlap_loop _ _ _ _) as [[u l]|]; [|exact (Hblock s)].
  cbn. eapply (settled_same s); try done. apply Hs.
Qed.

Lemma drop_settled mutex mgen ugen flags s :
  settled s -> settled (snd (NativeMutexDrop mutex mgen ugen flags s)).
Proof.
  intros Hs. unfold NativeMutexDrop, WakeNativeGuestMutexThreadLocked. destruct (wake _ None true s) as [s1 n] eqn:Ew.
  destruct (wake_candidates _ _ _ _ _ _ (settled_ids _ Hs) (mutex_candidate_kind _ _ _) Ew) as (H1 & H2 & H3).
  cbn [snd]. destruct (n =? 0); by eapply (settled_same s).
Qed.

Lemma rw_unlock_settled rwlock lgen ugen rwSequence s :
  settled s -> settled (snd (NativeRwUnlock rwlock lgen ugen rwSequence s)).
Proof.
  intros Hs. unfold NativeRwUnlock, PostNativeGuestRwlockUnlockLocked. destruct (_ =? 0); [done|].
  set (u0 := {| ru_address := rwlock |}). destruct (put_unlock_spec u0 _ (settled_unlocks _ Hs)) as [H1 H2].
  set (s1 := with_unlocks _ s).
  assert (forall addr, addr <> rwlock -> payable addr (nativeGuestRwlockUnlocks s1) (rw_candidates addr s1) = false) as Hother.
  { intros addr Hne. pose proof (settled_paid _ Hs addr) as Hp. unfold payable in *.
    change (nativeGuestRwlockUnlocks s1) with (put_unlock u0 (nativeGuestRwlockUnlocks s)).
    rewrite H2 by done. exact Hp. }
  destruct (TryGrantNativeGuestRwlockLocked rwlock s1) as [[u s2]|] eqn:Eg; cbn [snd fst].
  - exact (grant_settles rwlock s1 u s2 (settled_ids _ Hs) H1 Hother Eg).
  - split; [apply Hs|done|]. intros addr. destruct (decide (addr = rwlock)) as [->|Hne]; [|by apply Hother].
    by apply TryGrant_payable.
Qed.

Lemma erase_settled id s : settled s -> settled (erase_waiter id s).
Proof.
  intros [H1 H2 H3]. split; [by apply erase_narrow|done|]. intros addr. exact (erase_payable id addr s (H3 addr)).
Qed.

Lemma exec_settled o s r s' : settled s -> exec o s = Some (r, s') -> settled s'.
Proof.
  intros Hs. unfold exec. destruct o.
  - destruct (identity_unused self s) eqn:Ef; [|done]. intros [= He].
    pose proof (other_wait_settled (new_waiter self port Mutex mutex (mutex_wake_result mgen) (count_part mgen) TypeNone 0 0)
      (GuestPsynchMutexIsFirstFit flags) 0 0 0 s Hs Ef ltac:(done)) as Hw. unfold NativeMutexWait in He. by rewrite He in Hw.
  - intros [= <- <-]. by apply drop_settled.
  - destruct (identity_unused self s) eqn:Ef; [|done]. unfold NativeConditionWait. intros [= He].
    set (s1 := if negb (mutex =? 0) then snd (NativeMutexDrop mutex mgen ugen flags s) else s) in He.
    assert (settled s1 /\ identity_unused self s1 = true) as [Hs1 Hf1].
    { unfold s1. destruct (negb _); [|done]. split; [by apply drop_settled|]. unfold identity_unused. by rewrite drop_ids. }
    pose proof (other_wait_settled (new_waiter self port Condition condition 0 0 TypeNone 0 condSeq) false 0 ts tns s1
      Hs1 Hf1 ltac:(done)) as Hw. by rewrite He in Hw.
  - intros [= <- <-]. unfold NativeConditionSignal, WakeNativeGuestConditionThreadsLocked.
    destruct (wake _ (Some 0) _ s) as [s1 n] eqn:Ew.
    destruct (wake_candidates _ _ _ _ _ _ (settled_ids _ Hs) (condition_candidate_not_rw _ _ _) Ew) as (H1 & H2 & H3).
    destruct (MACH_PORT_VALID target), broadcast; cbn [andb]; repeat case_match; by eapply (settled_same s).
  - destruct (identity_unused self s) eqn:Ef; [|done]. intros [= He].
    pose proof (rw_wait_settled (new_waiter self port Rwlock rwlock 0 0 (if write then Write else Read) lgen 0)
      rwSequence s Hs Ef eq_refl) as Hw. unfold NativeRwWait in He. by rewrite He in Hw.
  - intros [= <- <-]. by apply rw_unlock_settled.
  - destruct (identity_unused self s) eqn:Ef; [|done]. unfold NativeUlockWait. intros [= He].
    repeat case_match; injection He as <- <-; try done.
    eapply (settled_same s); [done|by apply enqueue_ids; [apply Hs|]|done|]. intros addr'. by apply enqueue_candidates.
  - intros [= <- <-]. unfold NativeUlockWake. destruct (ulock_wake_invalid _ _); [done|].
    destruct (_ && _)%bool; [done|]. destruct (_ =? 0); [done|]. destruct (wake _ None _ s) as [s1 n] eqn:Ew.
    destruct (wake_candidates _ _ _ _ _ _ (settled_ids _ Hs) (ulock_candidate_not_rw _ _ _ _) Ew) as (H1 & H2 & H3).
    destruct (_ && _)%bool; by eapply (settled_same s).
  - destruct (FinishWait id why condSeq condSSeq s) as [[r0 s0]|] eqn:E; [|done]. intros [= <- <-].
    pose proof (erase_settled id s Hs) as He. unfold FinishWait in E.
    destruct (find_waiter id s); [|done]. repeat case_match; try done; injection E as _ <-; done.
  - destruct (FinishUlockWait id why flags timed s) as [[r0 s0]|] eqn:E; [|done]. intros [= <- <-].
    pose proof (erase_settled id s Hs) as He. unfold FinishUlockWait in E.
    destruct (find_waiter id s); [|done]. repeat case_match; try done; injection E as _ <-; done.
Qed.

Lemma run_settled ops : forall s s', settled s -> run ops s = Some s' -> settled s'.
Proof.
  induction ops as [|o ops IH]; intros s s' Hs Hr; [by injection Hr as <-|]. cbn in Hr. unfold step_op in Hr.
  destruct (exec o s) as [[r s1]|] eqn:Ex; [|done]. cbn in Hr. eapply IH; [by eapply exec_settled|done].
Qed.

(** No reader-writer unlock stays pending.  After any interleaving of the
    calls of any number of threads, there is no lock whose recorded unlock has
    all the waiters it was posted for: whichever of the unlock and the last
    waiter came second paid it out. *)
Theorem no_pending_rwlock_grant ops s addr :
  run ops initial = Some s -> TryGrantNativeGuestRwlockLocked addr s = None.
Proof.
  intros Hr. apply TryGrant_payable. apply (run_settled ops initial); [|done].
  split; [constructor|constructor|done].
Qed.
