(* ===== verification/PsynchWitness.v ===== *)
(** Concrete runs of the native synchronisation calls: inputs on which the
    theorems apply, and the run in which an interrupted wait loses a handoff. *)

From S2P Require Import Prelude.
From S2P Require Import GuestMemory.
From S2P Require Import Psynch.
From S2P Require Import PsynchWake.
From S2P Require Import PsynchWake.
From S2P Require Import PsynchRun.
From S2P Require Import MutexHandoff.
From S2P Require Import RwlockProps.
From stdpp Require Import base gmap list fin_maps list_numbers.
From Stdlib Require Import ZArith Lia.
Open Scope Z_scope.

Import Psynch.

(** Wrapping around from the last generation. *)
Lemma sequence_order_witness :
  GuestPsynchSequenceLower (advance 0xffffff00 0) (advance 0xffffff00 1) = true /\ advance 0xffffff00 1 = 0.
Proof.
  split; [|reflexivity].
  exact (proj1 (proj2 sequence_order 0xffffff00 0 1 ltac:(lia) ltac:(lia))).
Defined.

(** A fair-share wait that blocks, and a condition wait that blocks. *)
Definition mutex_waiter : NativeGuestWaiter :=
  with_sequence 1 (new_waiter 1 9 Mutex 0x1000 (mutex_wake_result 0x200) 0x200 TypeNone 0 0).
Definition condition_waiter : NativeGuestWaiter :=
  with_sequence 1 (new_waiter 1 9 Condition 0x2000 0 0 TypeNone 0 0x300).

Lemma no_lost_mutex_handoff_witness :
  exists s, run [OMutexWait 1 9 0x1000 0x200 0; OMutexDrop 0x1000 0x300 0x200 0] initial = Some s /\
    ConsumeGuestMutexPrepost 0x1000 0x200 false s = (false, s).
Proof.
  eexists. split; [vm_compute; reflexivity|].
  apply (no_lost_mutex_handoff (fun _ => false)
    [OMutexWait 1 9 0x1000 0x200 0; OMutexDrop 0x1000 0x300 0x200 0] _ mutex_waiter).
  - vm_compute. reflexivity.
  - repeat (apply Forall_cons; split; [reflexivity|]). by apply Forall_nil.
  - split; [left|reflexivity].
  - reflexivity.
  - reflexivity.
Defined.

Lemma no_lost_condition_signal_witness :
  exists s, run [OConditionWait 1 9 0x2000 0x300 0 0 0 0 0 0] initial = Some s /\
    ConsumeGuestConditionPrepost 0x2000 0x300 s = (false, s).
Proof.
  eexists. split; [vm_compute; reflexivity|].
  apply (no_lost_condition_signal (fun _ => false) [OConditionWait 1 9 0x2000 0x300 0 0 0 0 0 0] _ condition_waiter).
  - vm_compute. reflexivity.
  - repeat (apply Forall_cons; split; [done|]). by apply Forall_nil.
  - split; [left|reflexivity].
  - reflexivity.
Defined.

(** A wait, the drop that grants it, and its return. *)
Lemma mutex_handoff_conserved_witness :
  exists s, account 0x1000 [OMutexWait 1 9 0x1000 0x200 0; OMutexDrop 0x1000 0x200 0x100 0; OFinish 1 Woken 0 0]
      initial = Some (s, (1, 1, 0)) /\
    1 = 1 + 0 + permits 0x1000 s.
Proof.
  eexists. split; [vm_compute; reflexivity|].
  eapply (mutex_handoff_conserved 0x1000
    [OMutexWait 1 9 0x1000 0x200 0; OMutexDrop 0x1000 0x200 0x100 0; OFinish 1 Woken 0 0]).
  - vm_compute. reflexivity.
  - reflexivity.
Defined.

(** A reader in front of a writer, and the unlock they wait for. *)
Definition reader : NativeGuestWaiter := with_sequence 1 (new_waiter 1 9 Rwlock 0x3000 0 0 Read 0x200 0).
Definition writer : NativeGuestWaiter := with_sequence 2 (new_waiter 2 8 Rwlock 0x3000 0 0 Write 0x300 0).
Definition rw_state : psynch := with_unlocks [{| ru_address := 0x3000; ru_lgen := 0x300; ru_rwSequence := 0;
  ru_expectedWaiters := 2 |}] (with_waiters [reader; writer] initial).

Lemma rwlock_grant_correct_witness :
  exists u s', TryGrantNativeGuestRwlockLocked 0x3000 rw_state = Some (u, s') /\
    nativeGuestWaiters s' = [with_signal (Some u) reader; writer] /\
    length (nativeGuestWaiters s') = length (nativeGuestWaiters rw_state) /\
    exists n exclusive, reported n exclusive true u.
Proof.
  eexists _, _. split; [vm_compute; reflexivity|]. split; [reflexivity|].
  edestruct (rwlock_grant_correct 0x100 0x3000 rw_state) as (_ & Hlen & _ & n & e & l & Hr & _ & _ & Hl).
  - apply NoDup_cons. split; [|apply NoDup_singleton]. intros H%list_elem_of_singleton. discriminate.
  - intros c [->|[->|H]%elem_of_cons]%elem_of_cons; [reflexivity|reflexivity|by apply elem_of_nil in H].
  - intros c c' [->|[->|H]%elem_of_cons]%elem_of_cons; [| |by apply elem_of_nil in H];
      (intros [->|[->|H]%elem_of_cons]%elem_of_cons; [| |by apply elem_of_nil in H]); vm_compute; congruence.
  - vm_compute. reflexivity.
  - split; [exact Hlen|]. exists n, e. replace true with l; [exact Hr|].
    apply Hl. exists (candidate_of writer). split; [by left|reflexivity].
Defined.

Lemma no_pending_rwlock_grant_witness :
  exists s, run [ORwUnlock 0x3000 0x300 0x200 0; ORwWait 1 9 0x3000 0x300 0 true] initial = Some s /\
    TryGrantNativeGuestRwlockLocked 0x3000 s = None.
Proof.
  eexists. split; [vm_compute; reflexivity|].
  apply (no_pending_rwlock_grant [ORwUnlock 0x3000 0x300 0x200 0; ORwWait 1 9 0x3000 0x300 0 true]).
  vm_compute. reflexivity.
Defined.

(** The interrupted return of a wait does not test the signal.  A thread
    waits on a mutex, the owner drops it and grants it to the waiter, and the
    waiter leaves through the interrupted path (the debugger paused it while it
    was blocked): the grant is gone.  When the thread retries the wait it blocks
    although the mutex was handed to it and nothing is outstanding. *)
Theorem interrupted_wait_loses_handoff :
  exists s w, account 0x1000 [OMutexWait 1 9 0x1000 0x200 0; OMutexDrop 0x1000 0x200 0x100 0;
      OFinish 1 Interrupted 0 0; OMutexWait 1 9 0x1000 0x200 0] initial = Some (s, (1, 0, 1)) /\
    permits 0x1000 s = 0 /\ live s w /\ kind w = Mutex /\ address w = 0x1000.
Proof.
  eexists _, (with_sequence 2 (new_waiter 1 9 Mutex 0x1000 (mutex_wake_result 0x200) 0x200 TypeNone 0 0)).
  split; [vm_compute; reflexivity|]. split; [reflexivity|].
  split; [split; [left|reflexivity]|]. split; reflexivity.
Qed.
