(* ===== verification/CoopThreads.v ===== *)
(** The cooperative guest thread registry
    (src/HostFrameworks/LC32/dynarmic_thread_state.cpp and
    dynarmic_native_jit.cpp): several guest threads on one JIT, switched at safe
    points.  Lookup, the round-robin choice of the next thread, parking, the
    wake functions the synchronisation calls use for cooperative threads, and
    the context switch.

    Threads are the elements of [guestThreads]; a pointer to one is its index. *)

From S2P Require Import Prelude.
From S2P Require Import Psynch.
From stdpp Require Import base gmap list fin_maps list_numbers.
From Stdlib Require Import ZArith Lia.
Open Scope Z_scope.

Module CoopThreads.
Import Psynch.

(** ** Data *)

(** [context32] as far as the registry looks into it: register 0, the status
    register, and everything else as one value. *)
Record context32 := { r0 : Z; cpsr : Z; others : Z }.

(** [struct GuestThreadContext], the fields the cooperative scheduler uses. *)
Record GuestThreadContext := {
  debuggerId : Z;
  threadPort : Z;
  retirementFreeAddress : Z;
  retirementFreeSize : Z;
  saved : context32;
  waitKind : GuestThreadWaitKind;
  waitAddress : Z;
  wakeResult : Z;
  waitSequence : Z;
  mutexSequence : Z;
  conditionSequence : Z;
  rwlockWaitType : GuestRwlockWaitType;
  rwlockSequence : Z;
  savedValid : bool;
  alive : bool;
  runnable : bool;
}.

(** The globals behind [guestThreadMutex], the arrival counter, and the context
    the JIT is running ([jit_context]). *)
Record registry := {
  guestThreads : list GuestThreadContext;
  guestCurrentThreadId : Z;
  guestThreadRotationRequested : bool;
  guestThreadCurrentRetiring : bool;
  guestNextWaitSequence : Z;
  jit_context : context32;
}.

Definition with_threads l r := {| guestThreads := l; guestCurrentThreadId := guestCurrentThreadId r;
  guestThreadRotationRequested := guestThreadRotationRequested r;
  guestThreadCurrentRetiring := guestThreadCurrentRetiring r;
  guestNextWaitSequence := guestNextWaitSequence r; jit_context := jit_context r |}.
Definition with_rotation b r := {| guestThreads := guestThreads r; guestCurrentThreadId := guestCurrentThreadId r;
  guestThreadRotationRequested := b; guestThreadCurrentRetiring := guestThreadCurrentRetiring r;
  guestNextWaitSequence := guestNextWaitSequence r; jit_context := jit_context r |}.
Definition with_next_sequence n r := {| guestThreads := guestThreads r;
  guestCurrentThreadId := guestCurrentThreadId r;
  guestThreadRotationRequested := guestThreadRotationRequested r;
  guestThreadCurrentRetiring := guestThreadCurrentRetiring r;
  guestNextWaitSequence := n; jit_context := jit_context r |}.

(** ** Lookup and choice *)

(** Index of the first element that satisfies [p]. *)
Fixpoint position {A} (p : A -> bool) (l : list A) : option nat :=
  match l with
  | [] => None
  | x :: rest => if p x then Some 0%nat else S <$> position p rest
  end.

(** [FindGuestThread]. *)
Definition FindGuestThread (id : Z) (requireAlive : bool) (r : registry) : option nat :=
  position (fun t => (debuggerId t =? id) && (negb requireAlive || alive t)) (guestThreads r).

(** A thread [NextGuestThread] may choose. *)
Definition eligible (current : Z) (t : GuestThreadContext) : bool :=
  alive t && runnable t && negb (debuggerId t =? current).

(** [NextGuestThread]: the first eligible thread behind the current one,
    cyclically. *)
Definition NextGuestThread (r : registry) : option nat :=
  let l := guestThreads r in
  let n := length l in
  i ← position (fun t => debuggerId t =? guestCurrentThreadId r) l;
  off ← List.find (fun off => match l !! ((i + off) mod n)%nat with
                              | Some t => eligible (guestCurrentThreadId r) t
                              | None => false
                              end) (seq 1 n);
  Some ((i + off) mod n)%nat.

(** ** Parking *)

Definition parked (k : GuestThreadWaitKind) (addr result seq : Z) (rwType : GuestRwlockWaitType)
    (rwSeq condSeq mutexSeq : Z) (t : GuestThreadContext) : GuestThreadContext :=
  {| debuggerId := debuggerId t; threadPort := threadPort t;
     retirementFreeAddress := retirementFreeAddress t; retirementFreeSize := retirementFreeSize t;
     saved := saved t; waitKind := k; waitAddress := addr; wakeResult := result; waitSequence := seq;
     mutexSequence := mutexSeq; conditionSequence := condSeq; rwlockWaitType := rwType;
     rwlockSequence := rwSeq; savedValid := savedValid t; alive := alive t; runnable := false |}.

(** The wait fields cleared and the thread runnable again. *)
Definition unparked (t : GuestThreadContext) : GuestThreadContext :=
  {| debuggerId := debuggerId t; threadPort := threadPort t;
     retirementFreeAddress := retirementFreeAddress t; retirementFreeSize := retirementFreeSize t;
     saved := saved t; waitKind := KindNone; waitAddress := 0; wakeResult := 0; waitSequence := 0;
     mutexSequence := 0; conditionSequence := 0; rwlockWaitType := TypeNone; rwlockSequence := 0;
     savedValid := savedValid t; alive := alive t; runnable := true |}.

(** [ParkCurrentGuestThread]; [workqueueActive] is
    [GuestWorkqueueActiveForCurrentThread]. *)
Definition ParkCurrentGuestThread (workqueueActive : bool) (k : GuestThreadWaitKind) (addr result : Z)
    (rwType : GuestRwlockWaitType) (rwSeq condSeq mutexSeq : Z) (r : registry) : bool * registry :=
  if workqueueActive then (false, r) else
  match FindGuestThread (guestCurrentThreadId r) true r with
  | None => (false, r)
  | Some i =>
      match guestThreads r !! i with
      | None => (false, r)
      | Some t =>
          if negb (runnable t) then (false, r) else
          let r1 := with_next_sequence (u64 (guestNextWaitSequence r + 1))
            (with_threads (<[i := parked k addr result (guestNextWaitSequence r) rwType rwSeq condSeq mutexSeq t]>
               (guestThreads r)) r) in
          match NextGuestThread r1 with
          | None => (false, with_threads (<[i := unparked t]> (guestThreads r1)) r1)
          | Some _ => (true, with_rotation true r1)
          end
      end
  end.

(** ** Waking *)

Definition CARRY_BIT : Z := 29.

(** Delivering the result of the system call into the saved context. *)
Definition with_result (v : Z) (c : context32) : context32 :=
  {| r0 := v; cpsr := Z.land (cpsr c) (u32_not (Z.shiftl 1 CARRY_BIT)); others := others c |}.

Definition woken (v : Z) (t : GuestThreadContext) : GuestThreadContext :=
  let u := unparked t in
  {| debuggerId := debuggerId u; threadPort := threadPort u;
     retirementFreeAddress := retirementFreeAddress u; retirementFreeSize := retirementFreeSize u;
     saved := if savedValid t then with_result v (saved t) else saved t;
     waitKind := KindNone; waitAddress := 0; wakeResult := 0; waitSequence := 0; mutexSequence := 0;
     conditionSequence := 0; rwlockWaitType := TypeNone; rwlockSequence := 0;
     savedValid := savedValid u; alive := alive u; runnable := true |}.

(** A condition waiter keeps its (unused) rwlock fields and returns zero. *)
Definition woken_condition (t : GuestThreadContext) : GuestThreadContext :=
  {| debuggerId := debuggerId t; threadPort := threadPort t;
     retirementFreeAddress := retirementFreeAddress t; retirementFreeSize := retirementFreeSize t;
     saved := if savedValid t then with_result 0 (saved t) else saved t;
     waitKind := KindNone; waitAddress := 0; wakeResult := 0; waitSequence := 0; mutexSequence := 0;
     conditionSequence := 0; rwlockWaitType := rwlockWaitType t; rwlockSequence := rwlockSequence t;
     savedValid := savedValid t; alive := alive t; runnable := true |}.

(** The scan for the longest waiting thread that satisfies [p]. *)
Definition select_oldest (p : GuestThreadContext -> bool) (l : list GuestThreadContext)
    : option (nat * GuestThreadContext) :=
  foldl (fun selected it =>
    if p (snd it) then match selected with
                       | None => Some it
                       | Some s => if waitSequence (snd it) <? waitSequence (snd s) then Some it else Some s
                       end
    else selected) None (imap pair l).

(** The selection loop; each turn makes one thread runnable, so the number of
    threads is enough fuel. *)
Fixpoint wake_loop (fuel : nat) (p : GuestThreadContext -> bool)
    (f : GuestThreadContext -> GuestThreadContext) (one : bool) (l : list GuestThreadContext) (count : Z)
    : list GuestThreadContext * Z :=
  match fuel with
  | O => (l, count)
  | S fuel' =>
      match select_oldest p l with
      | None => (l, count)
      | Some (i, t) =>
          let l' := <[i := f t]> l in
          if one then (l', count + 1) else wake_loop fuel' p f one l' (count + 1)
      end
  end.

Definition wake (p : GuestThreadContext -> bool) (f : GuestThreadContext -> GuestThreadContext) (one : bool)
    (r : registry) : Z * registry :=
  let '(l, n) := wake_loop (S (length (guestThreads r))) p f one (guestThreads r) 0 in
  (n, with_threads l r).

Definition waits (k : GuestThreadWaitKind) (addr : Z) (t : GuestThreadContext) : bool :=
  alive t && negb (runnable t) && bool_decide (waitKind t = k) && (waitAddress t =? addr).

Definition is_target (target : Z) (t : GuestThreadContext) : bool :=
  negb (MACH_PORT_VALID target && negb (threadPort t =? target)).

(** [WakeGuestThreads], [WakeGuestMutexThread], [WakeGuestConditionThreads]. *)
Definition WakeGuestThreads (k : GuestThreadWaitKind) (addr : Z) (wakeAll : bool) (target : Z)
    : registry -> Z * registry :=
  wake (fun t => waits k addr t && is_target target t) (fun t => woken (wakeResult t) t)
    (negb wakeAll || MACH_PORT_VALID target).

Definition WakeGuestMutexThread (addr targetSequence : Z) (firstFit : bool) : registry -> Z * registry :=
  wake (fun t => waits Mutex addr t && negb (negb firstFit && negb (mutexSequence t =? targetSequence)))
    (fun t => woken (wakeResult t) t) true.

Definition WakeGuestConditionThreads (addr throughSequence : Z) (wakeAll : bool) (target : Z)
    : registry -> Z * registry :=
  wake (fun t => waits Condition addr t &&
                 GuestPsynchSequenceLowerOrEqual (conditionSequence t) throughSequence && is_target target t)
    woken_condition (negb wakeAll || MACH_PORT_VALID target).

(** [GrantCooperativeGuestRwlockThreads]: the update word and the number woken.
    A candidate's identity is its index. *)
Definition coop_candidates (addr : Z) (l : list GuestThreadContext) : list rw_candidate :=
  (fun it => {| rc_id := Z.of_nat (fst it); rc_type := rwlockWaitType (snd it);
                rc_sequence := rwlockSequence (snd it) |}) <$>
  List.filter (fun it => waits Rwlock addr (snd it) && negb (bool_decide (rwlockWaitType (snd it) = TypeNone)))
    (imap pair l).

Definition GrantCooperativeGuestRwlockThreads (addr : Z) (r : registry) : Z * Z * registry :=
  let candidates := coop_candidates addr (guestThreads r) in
  if bool_decide (candidates = []) then (0, 0, r) else
  let granted := granted_set candidates in
  let update := grant_update granted candidates in
  (update, Z.of_nat (length granted),
   with_threads (foldl (fun l c => alter (woken update) (Z.to_nat (rc_id c)) l) (guestThreads r) granted) r).

(** ** Switching *)

(** [GuestThreadRequestRotation]; [blocked] is the early return (native thread,
    single stepping, workqueue activity). *)
Definition LiveGuestThreadCount (r : registry) : Z :=
  Z.of_nat (length (List.filter alive (guestThreads r))).

Definition GuestThreadRequestRotation (blocked : bool) (r : registry) : registry :=
  if blocked || guestThreadCurrentRetiring r || (LiveGuestThreadCount r <=? 1) then r
  else with_rotation (bool_decide (is_Some (NextGuestThread r))) r.

(** [GuestThreadYieldBeforeBlocking]. *)
Definition GuestThreadYieldBeforeBlocking (workqueueActive singleStepping : bool) (r : registry)
    : bool * registry :=
  if workqueueActive || negb (bool_decide (is_Some (NextGuestThread r))) then (false, r)
  else (true, if singleStepping then r else with_rotation true r).

Definition with_saved (c : context32) (t : GuestThreadContext) : GuestThreadContext :=
  {| debuggerId := debuggerId t; threadPort := threadPort t;
     retirementFreeAddress := retirementFreeAddress t; retirementFreeSize := retirementFreeSize t;
     saved := c; waitKind := waitKind t; waitAddress := waitAddress t; wakeResult := wakeResult t;
     waitSequence := waitSequence t; mutexSequence := mutexSequence t;
     conditionSequence := conditionSequence t; rwlockWaitType := rwlockWaitType t;
     rwlockSequence := rwlockSequence t; savedValid := true; alive := alive t; runnable := runnable t |}.

Definition without_retirement (t : GuestThreadContext) : GuestThreadContext :=
  {| debuggerId := debuggerId t; threadPort := threadPort t;
     retirementFreeAddress := 0; retirementFreeSize := 0;
     saved := saved t; waitKind := waitKind t; waitAddress := waitAddress t; wakeResult := wakeResult t;
     waitSequence := waitSequence t; mutexSequence := mutexSequence t;
     conditionSequence := conditionSequence t; rwlockWaitType := rwlockWaitType t;
     rwlockSequence := rwlockSequence t; savedValid := savedValid t; alive := alive t; runnable := runnable t |}.

(** [HandleGuestThreadTransition]: whether a switch happened and, for a thread
    that retired, the stack range to unmap.  [unable] is a missing JIT or an
    active workqueue. *)
Definition HandleGuestThreadTransition (unable : bool) (r : registry) : bool * option (Z * Z) * registry :=
  if negb (guestThreadRotationRequested r) || unable then (false, None, r) else
  let failed := (false, None,
    {| guestThreads := guestThreads r; guestCurrentThreadId := guestCurrentThreadId r;
       guestThreadRotationRequested := false; guestThreadCurrentRetiring := false;
       guestNextWaitSequence := guestNextWaitSequence r; jit_context := jit_context r |}) in
  match FindGuestThread (guestCurrentThreadId r) false r, NextGuestThread r with
  | Some i, Some j =>
      match guestThreads r !! i, guestThreads r !! j with
      | Some current, Some next =>
          if negb (savedValid next) then failed else
          let retiring := guestThreadCurrentRetiring r in
          let free := if retiring && negb (retirementFreeAddress current =? 0) &&
                         negb (retirementFreeSize current =? 0)
                      then Some (retirementFreeAddress current, retirementFreeSize current) else None in
          (true, free,
           {| guestThreads := <[i := if retiring then without_retirement current
                                     else with_saved (jit_context r) current]> (guestThreads r);
              guestCurrentThreadId := debuggerId next; guestThreadRotationRequested := false;
              guestThreadCurrentRetiring := false; guestNextWaitSequence := guestNextWaitSequence r;
              jit_context := saved next |})
      | _, _ => failed
      end
  | _, _ => failed
  end.

(** [SelectCooperativeDebuggerThread] (dynarmic_core.cpp): the debugger makes a
    thread the running one.  [nativeThreads] is [NativeGuestThreadsEnabled],
    [upcall] whether a workqueue upcall runs with its waiting context saved,
    [unable] a missing JIT. *)
Definition SelectCooperativeDebuggerThread (nativeThreads upcall unable : bool) (id : Z) (r : registry)
    : bool * registry :=
  if nativeThreads then (true, r) else
  if upcall then (id =? 2, r) else
  if id =? 2 then (false, r) else
  if id =? guestCurrentThreadId r then (true, r) else
  match FindGuestThread (guestCurrentThreadId r) true r, FindGuestThread id true r with
  | Some i, Some j =>
      match guestThreads r !! i, guestThreads r !! j with
      | Some current, Some selected =>
          if negb (runnable selected) || negb (savedValid selected) || unable then (false, r) else
          (true, {| guestThreads := <[i := with_saved (jit_context r) current]> (guestThreads r);
                    guestCurrentThreadId := id; guestThreadRotationRequested := false;
                    guestThreadCurrentRetiring := false; guestNextWaitSequence := guestNextWaitSequence r;
                    jit_context := saved selected |})
      | _, _ => (false, r)
      end
  | _, _ => (false, r)
  end.

End CoopThreads.
