(* ===== verification/CoopProps.v ===== *)
(** What the cooperative scheduler promises: round-robin choice, a park that
    never strands the process, exact wakeups, context switches that keep every
    thread's context, and that every runnable thread gets its turn. *)

From S2P Require Import Prelude.
From S2P Require Import Psynch.
From S2P Require Import CoopThreads.
From stdpp Require Import base gmap list fin_maps list_numbers.
From Stdlib Require Import ZArith Lia.
Open Scope Z_scope.

Import Psynch CoopThreads.CoopThreads.

(** ** Search lemmas *)

Lemma position_Some {A} (p : A -> bool) l i :
  position p l = Some i -> exists x, l !! i = Some x /\ p x = true /\
    forall j y, (j < i)%nat -> l !! j = Some y -> p y = false.
Proof.
  revert i. induction l as [|x l IH]; intros i; cbn; [done|]. destruct (p x) eqn:E.
  - intros [= <-]. exists x. split_and!; try done. lia.
  - destruct (position p l) as [k|]; [|done]. intros [= <-]. destruct (IH k eq_refl) as (y & Hy & Hp & Hf).
    exists y. split_and!; try done. intros [|j] z Hj Hz; cbn in Hz; [congruence|]. apply (Hf j z); [lia|done].
Qed.

Lemma position_None {A} (p : A -> bool) l x : position p l = None -> x ∈ l -> p x = false.
Proof.
  induction l as [|y l IH]; cbn; [intros _ Hx; by apply elem_of_nil in Hx|].
  destruct (p y) eqn:E; [done|]. destruct (position p l); [done|]. intros _ [->|Hx]%elem_of_cons; [done|by apply IH].
Qed.

Lemma find_seq p a n :
  match List.find p (seq a n) with
  | Some k => (a <= k < a + n)%nat /\ p k = true /\ forall x, (a <= x < k)%nat -> p x = false
  | None => forall x, (a <= x < a + n)%nat -> p x = false
  end.
Proof.
  revert a. induction n as [|n IH]; intros a; cbn; [intros x Hx; lia|]. destruct (p a) eqn:E.
  - split_and!; [lia|lia|done|]. intros x Hx. lia.
  - specialize (IH (S a)). destruct (List.find p (seq (S a) n)) as [k|].
    + destruct IH as (H1 & H2 & H3). split_and!; [lia|lia|done|]. intros x Hx.
      destruct (decide (x = a)) as [->|]; [done|]. apply H3. lia.
    + intros x Hx. destruct (decide (x = a)) as [->|]; [done|]. apply IH. lia.
Qed.

(** ** The registry *)

Definition ids (r : registry) : list Z := debuggerId <$> guestThreads r.

(** The thread at an index, and the index of the current thread. *)
Definition current_index (r : registry) : option nat :=
  position (fun t => debuggerId t =? guestCurrentThreadId r) (guestThreads r).

Definition runnable_at (r : registry) (j : nat) : Prop :=
  exists t, guestThreads r !! j = Some t /\ alive t = true /\ runnable t = true.

Lemma ids_unique r i j t t' :
  NoDup (ids r) -> guestThreads r !! i = Some t -> guestThreads r !! j = Some t' ->
  debuggerId t = debuggerId t' -> i = j.
Proof.
  intros Hnd Hi Hj He. eapply (NoDup_lookup (ids r)); [done| |];
    unfold ids; rewrite list_lookup_fmap; [rewrite Hi|rewrite Hj]; cbn; [done|by rewrite He].
Qed.

Lemma current_index_Some r i :
  current_index r = Some i -> exists t, guestThreads r !! i = Some t /\ debuggerId t = guestCurrentThreadId r.
Proof. intros (t & Ht & He & _)%position_Some. zb. eauto. Qed.

(** The eligible threads are the other runnable ones. *)
Lemma eligible_at r i j t :
  NoDup (ids r) -> current_index r = Some i -> guestThreads r !! j = Some t ->
  eligible (guestCurrentThreadId r) t = true <-> alive t = true /\ runnable t = true /\ j <> i.
Proof.
  intros Hnd (c & Hc & He)%current_index_Some Hj. unfold eligible. rewrite !andb_true_iff, negb_true_iff, Z.eqb_neq.
  split.
  - intros [[? ?] Hne]. split_and!; try done. intros ->. congruence.
  - intros (? & ? & Hne). split_and!; try done. intros Heq. apply Hne.
    apply (ids_unique r j i t c Hnd Hj Hc). congruence.
Qed.

(** The choice of the next thread, as the code computes it. *)
Lemma NextGuestThread_spec r i :
  current_index r = Some i ->
  let n := length (guestThreads r) in
  match NextGuestThread r with
  | Some j => exists off t, (1 <= off <= n)%nat /\ j = ((i + off) mod n)%nat /\
      guestThreads r !! j = Some t /\ eligible (guestCurrentThreadId r) t = true /\
      forall k t', (1 <= k < off)%nat -> guestThreads r !! ((i + k) mod n)%nat = Some t' ->
        eligible (guestCurrentThreadId r) t' = false
  | None => forall k t', (1 <= k <= n)%nat -> guestThreads r !! ((i + k) mod n)%nat = Some t' ->
        eligible (guestCurrentThreadId r) t' = false
  end.
Proof.
  intros Hi n. unfold NextGuestThread. unfold current_index in Hi. rewrite Hi. cbn [mbind option_bind]. fold n.
  match goal with |- context [List.find ?f _] => set (p := f) end. pose proof (find_seq p 1 n) as Hf. destruct (List.find p (seq 1 n)) as [off|].
  - cbn. destruct Hf as (H1 & H2 & H3). unfold p in H2.
    destruct (guestThreads r !! ((i + off) mod n)%nat) as [t|] eqn:Et; [|done].
    exists off, t. split_and!; try done; [lia|lia|]. intros k t' Hk Ht'. specialize (H3 k Hk). unfold p in H3.
    by rewrite Ht' in H3.
  - cbn. intros k t' Hk Ht'. specialize (Hf k ltac:(lia)). unfold p in Hf. by rewrite Ht' in Hf.
Qed.

(** Cyclic distance from [i] to [j]. *)
Definition cyclic (n i j : nat) : nat := if decide (i <= j)%nat then j - i else n + j - i.

Lemma cyclic_step n i j k :
  (i < n)%nat -> (j < n)%nat -> (1 <= k <= n)%nat ->
  ((i + k) mod n = j)%nat <-> (k = cyclic n i j \/ (k = n /\ i = j))%nat.
Proof.
  intros Hi Hj Hk. unfold cyclic.
  assert (((i + k) mod n = if decide (i + k < n) then i + k else i + k - n)%nat) as ->.
  { case_decide; [by apply Nat.mod_small|]. replace (i + k)%nat with (i + k - n + 1 * n)%nat at 1 by lia.
    rewrite Nat.Div0.mod_add. apply Nat.mod_small. lia. }
  repeat case_decide; lia.
Qed.

(** ** Round robin *)

Lemma next_round_robin r i :
  NoDup (ids r) -> current_index r = Some i ->
  let n := length (guestThreads r) in
  match NextGuestThread r with
  | None => forall j, j <> i -> ~ runnable_at r j
  | Some j => j <> i /\ runnable_at r j /\
      forall k, k <> i -> runnable_at r k -> (cyclic n i j <= cyclic n i k)%nat
  end.
Proof.
  intros Hnd Hi n. pose proof (NextGuestThread_spec r i Hi) as Hs. fold n in Hs.
  destruct (current_index_Some r i Hi) as (c & Hc & _). pose proof (lookup_lt_Some _ _ _ Hc) as Hin. fold n in Hin.
  assert (forall k, k <> i -> runnable_at r k -> (k < n)%nat /\ (1 <= cyclic n i k < n)%nat /\
    ((i + cyclic n i k) mod n = k)%nat) as Hcyc.
  { intros k Hki (t & Ht & _). pose proof (lookup_lt_Some _ _ _ Ht) as Hk. fold n in Hk.
    assert (1 <= cyclic n i k < n)%nat by (unfold cyclic; case_decide; lia).
    split_and!; try lia. apply cyclic_step; try lia. }
  destruct (NextGuestThread r) as [j|].
  - destruct Hs as (off & t & Hoff & Hj & Ht & He & Hfirst). pose proof (lookup_lt_Some _ _ _ Ht) as Hjn. fold n in Hjn.
    apply (eligible_at r i j t Hnd Hi Ht) in He as (Ha & Hr & Hji). split; [done|]. split; [by exists t|].
    symmetry in Hj. apply cyclic_step in Hj as [->|[-> ?]]; [|done..].
    intros k Hki Hrk. destruct (Hcyc k Hki Hrk) as (Hk & H1 & Hm).
    destruct (decide (cyclic n i k < cyclic n i j)%nat); [exfalso|lia].
    destruct Hrk as (t' & Ht' & Ha' & Hr').
    assert (eligible (guestCurrentThreadId r) t' = true) as He' by (by apply (eligible_at r i k t' Hnd Hi Ht')).
    rewrite (Hfirst (cyclic n i k) t') in He'; [done|lia|by rewrite Hm].
  - intros j Hji Hrj. destruct (Hcyc j Hji Hrj) as (Hk & H1 & Hm). destruct Hrj as (t & Ht & Ha & Hr).
    assert (eligible (guestCurrentThreadId r) t = true) as He by (by apply (eligible_at r i j t Hnd Hi Ht)).
    rewrite (Hs (cyclic n i j) t) in He; [done|lia|by rewrite Hm].
Qed.

(** [NextGuestThread] is round robin.  It finds a thread exactly when some
    other thread is alive and runnable, and then the one that comes first
    behind the current thread in the cyclic order of the registry. *)
Theorem next_thread_round_robin r i :
  NoDup (ids r) -> current_index r = Some i ->
  let n := length (guestThreads r) in
  match NextGuestThread r with
  | None => forall j, j <> i -> ~ runnable_at r j
  | Some j => j <> i /\ runnable_at r j /\
      forall k, k <> i -> runnable_at r k -> (cyclic n i j <= cyclic n i k)%nat
  end.
Proof. apply next_round_robin. Qed.

(** ** Switching *)

(** A request followed by the transition. *)
Definition switch (r : registry) : registry := snd (HandleGuestThreadTransition false (with_rotation true r)).

(** The context of each thread: in the JIT for the current one, saved for the
    others. *)
Definition context_of (r : registry) (k : nat) : option context32 :=
  if decide (current_index r = Some k) then Some (jit_context r) else saved <$> guestThreads r !! k.

(** A thread without its saved context. *)
Definition scheduling (t : GuestThreadContext) :=
  (debuggerId t, threadPort t, alive t, runnable t, (waitKind t, waitAddress t, wakeResult t, waitSequence t,
   mutexSequence t, conditionSequence t, rwlockWaitType t, rwlockSequence t)).

Lemma position_ext {A} (p q : A -> bool) l : (forall x, p x = q x) -> position p l = position q l.
Proof. intros H. induction l as [|x l IH]; [done|]. cbn. by rewrite H, IH. Qed.

Lemma find_current r : FindGuestThread (guestCurrentThreadId r) false r = current_index r.
Proof. apply position_ext. intros t. cbn. by rewrite andb_true_r. Qed.

Lemma position_unique r j t :
  NoDup (ids r) -> guestThreads r !! j = Some t ->
  position (fun t' => debuggerId t' =? debuggerId t) (guestThreads r) = Some j.
Proof.
  intros Hnd Hj. destruct (position _ _) as [i|] eqn:E.
  - apply position_Some in E as (t' & Hi & He & _). zb. f_equal. by apply (ids_unique r i j t' t).
  - apply (position_None _ _ t) in E; [cbn in E; by rewrite Z.eqb_refl in E|]. apply list_elem_of_lookup. eauto.
Qed.

(** What a transition does when it happens. *)
Lemma transition_spec unable r free r' :
  NoDup (ids r) -> guestThreadCurrentRetiring r = false ->
  HandleGuestThreadTransition unable r = (true, free, r') ->
  exists i j c t, current_index r = Some i /\ NextGuestThread r = Some j /\ j <> i /\ free = None /\
    guestThreads r !! i = Some c /\ guestThreads r !! j = Some t /\ savedValid t = true /\
    guestThreads r' = <[i := with_saved (jit_context r) c]> (guestThreads r) /\
    jit_context r' = saved t /\ guestCurrentThreadId r' = debuggerId t /\ guestThreadCurrentRetiring r' = false.
Proof.
  intros Hnd Hret. unfold HandleGuestThreadTransition. destruct (_ || _)%bool; [done|].
  rewrite find_current. destruct (current_index r) as [i|] eqn:Ei; [|done].
  pose proof (next_round_robin r i Hnd Ei) as Hn. destruct (NextGuestThread r) as [j|]; [|done].
  destruct (guestThreads r !! i) as [c|] eqn:Ec; [|done]. destruct (guestThreads r !! j) as [t|] eqn:Et; [|done].
  destruct (savedValid t) eqn:Es; cbn [negb]; [|done]. rewrite Hret. cbn [andb]. intros [= <- <-].
  exists i, j, c, t. destruct Hn as [Hji _]. by split_and!.
Qed.

Lemma switched_ids i c t r r' :
  guestThreads r !! i = Some c -> guestThreads r' = <[i := t]> (guestThreads r) ->
  scheduling t = scheduling c -> ids r' = ids r /\
  forall k x', guestThreads r' !! k = Some x' -> exists x, guestThreads r !! k = Some x /\ scheduling x' = scheduling x.
Proof.
  intros Hi Hr Hs. pose proof (lookup_lt_Some _ _ _ Hi) as Hlt. split.
  - unfold ids. rewrite Hr, list_fmap_insert. apply list_insert_id.
    rewrite list_lookup_fmap, Hi. cbn. f_equal. by injection Hs.
  - intros k x'. rewrite Hr. destruct (decide (k = i)) as [->|Hne].
    + rewrite list_lookup_insert_eq by done. intros [= <-]. eauto.
    + rewrite list_lookup_insert_ne by done. eauto.
Qed.

(** A context switch changes nothing but who runs.  When a transition
    happens, the chosen thread is the round-robin successor, every thread keeps
    its context (the one that leaves the JIT is saved, the one that enters is
    restored) and its scheduling state, and the request is consumed. *)
Theorem context_switch_transparent unable r free r' :
  NoDup (ids r) -> guestThreadCurrentRetiring r = false ->
  HandleGuestThreadTransition unable r = (true, free, r') ->
  current_index r' = NextGuestThread r /\ current_index r' <> current_index r /\
  guestThreadRotationRequested r' = false /\ free = None /\
  (forall k, context_of r' k = context_of r k) /\
  (forall k, scheduling <$> guestThreads r' !! k = scheduling <$> guestThreads r !! k).
Proof.
  intros Hnd Hret Ht. destruct (transition_spec unable r free r' Hnd Hret Ht)
    as (i & j & c & t & Hi & Hj & Hji & -> & Hc & Htj & Hs & Hth & Hjit & Hcur & _).
  destruct (switched_ids i c (with_saved (jit_context r) c) r r' Hc Hth eq_refl) as [Hids _].
  pose proof (lookup_lt_Some _ _ _ Hc) as Hlt.
  assert (current_index r' = Some j) as Hcj.
  { unfold current_index. rewrite Hcur. apply position_unique; [by rewrite Hids|].
    by rewrite Hth, list_lookup_insert_ne. }
  split_and!; [congruence|congruence| |done| |].
  - unfold HandleGuestThreadTransition in Ht. repeat case_match; simplify_eq; done.
  - intros k. unfold context_of. rewrite Hcj, Hi, Hth, Hjit.
    destruct (decide (Some j = Some k)) as [[= <-]|H1].
    + rewrite decide_False by congruence. by rewrite Htj.
    + destruct (decide (Some i = Some k)) as [[= <-]|H2]; [by rewrite list_lookup_insert_eq|].
      by rewrite list_lookup_insert_ne by congruence.
  - intros k. rewrite Hth. destruct (decide (k = i)) as [->|Hne].
    + rewrite list_lookup_insert_eq by done. by rewrite Hc.
    + by rewrite list_lookup_insert_ne.
Qed.

(** ** Fairness *)

(** A registry the scheduler can run: distinct identities, a registered current
    thread, and every other runnable thread has a context to load. *)
Record sched_ok (r : registry) : Prop := {
  sched_ids : NoDup (ids r);
  sched_current : is_Some (current_index r);
  sched_saved : forall j t, current_index r <> Some j -> guestThreads r !! j = Some t ->
    alive t = true -> runnable t = true -> savedValid t = true;
  sched_retiring : guestThreadCurrentRetiring r = false;
}.

(** One switch moves to the round-robin successor and keeps the registry
    runnable. *)
Lemma switch_step r i j :
  sched_ok r -> current_index r = Some i -> NextGuestThread r = Some j ->
  sched_ok (switch r) /\ current_index (switch r) = Some j /\
  length (guestThreads (switch r)) = length (guestThreads r) /\
  forall k, runnable_at (switch r) k <-> runnable_at r k.
Proof.
  intros Hok Hi Hj. pose proof (next_round_robin r i (sched_ids _ Hok) Hi) as Hn. rewrite Hj in Hn.
  destruct Hn as (Hji & (t & Ht & Ha & Hr) & _).
  assert (savedValid t = true) as Hs by (apply (sched_saved _ Hok j t); congruence).
  destruct (current_index_Some r i Hi) as (c & Hc & _). pose proof (lookup_lt_Some _ _ _ Hc) as Hlt.
  assert (switch r = {| guestThreads := <[i := with_saved (jit_context r) c]> (guestThreads r);
    guestCurrentThreadId := debuggerId t; guestThreadRotationRequested := false; guestThreadCurrentRetiring := false;
    guestNextWaitSequence := guestNextWaitSequence r; jit_context := saved t |}) as Hsw.
  { unfold switch, HandleGuestThreadTransition. cbn [guestThreadRotationRequested with_rotation negb orb].
    change (FindGuestThread (guestCurrentThreadId (with_rotation true r)) false (with_rotation true r))
      with (FindGuestThread (guestCurrentThreadId r) false r). rewrite find_current, Hi.
    change (NextGuestThread (with_rotation true r)) with (NextGuestThread r). rewrite Hj.
    cbn [guestThreads with_rotation]. rewrite Hc, Ht, Hs. cbn [negb guestThreadCurrentRetiring with_rotation].
    by rewrite (sched_retiring _ Hok). }
  assert (guestThreads (switch r) = <[i := with_saved (jit_context r) c]> (guestThreads r)) as Hth by (by rewrite Hsw).
  destruct (switched_ids i c _ r (switch r) Hc Hth eq_refl) as [Hids Hsched].
  assert (current_index (switch r) = Some j) as Hcj.
  { assert (guestCurrentThreadId (switch r) = debuggerId t) as Hcur by (by rewrite Hsw).
    unfold current_index. rewrite Hcur. apply position_unique; [rewrite Hids; apply Hok|].
    by rewrite Hth, list_lookup_insert_ne. }
  split_and!; [|done|by rewrite Hth, length_insert|].
  - split; [by rewrite Hids; apply Hok|by eexists| |by rewrite Hsw].
    intros k x Hk. rewrite Hth. destruct (decide (k = i)) as [->|Hne].
    + rewrite list_lookup_insert_eq by done. by intros [= <-].
    + rewrite list_lookup_insert_ne by done. apply Hok. congruence.
  - intros k. unfold runnable_at. rewrite Hth. destruct (decide (k = i)) as [->|Hne].
    + rewrite list_lookup_insert_eq by done. rewrite Hc. naive_solver.
    + by rewrite list_lookup_insert_ne.
Qed.

Lemma fair_within d : forall r i j,
  sched_ok r -> current_index r = Some i -> runnable_at r j ->
  (cyclic (length (guestThreads r)) i j <= d)%nat ->
  exists k, (k <= d)%nat /\ current_index (Nat.iter k switch r) = Some j.
Proof.
  induction d as [|d IH]; intros r i j Hok Hi Hj Hd.
  all: destruct (current_index_Some r i Hi) as (c & Hc & _); pose proof (lookup_lt_Some _ _ _ Hc) as Hin.
  all: assert (j < length (guestThreads r))%nat as Hjn by (destruct Hj as (? & ? & _); by eapply lookup_lt_Some).
  all: destruct (decide (j = i)) as [->|Hne]; [by exists 0%nat; split; [lia|]|].
  - exfalso. unfold cyclic in Hd. case_decide; lia.
  - pose proof (next_round_robin r i (sched_ids _ Hok) Hi) as Hn.
    destruct (NextGuestThread r) as [m|] eqn:Em; [|by destruct (Hn j Hne)].
    destruct Hn as (Hmi & Hm & Hmin). specialize (Hmin j Hne Hj).
    assert (m < length (guestThreads r))%nat as Hmn by (destruct Hm as (? & ? & _); by eapply lookup_lt_Some).
    destruct (switch_step r i m Hok Hi Em) as (Hok' & Hi' & Hlen & Hrun).
    destruct (IH (switch r) m j Hok' Hi' (proj2 (Hrun j) Hj)) as (k & Hk & Hck).
    { rewrite Hlen. unfold cyclic in *. repeat case_decide; lia. }
    exists (S k). split; [lia|]. rewrite Nat.iter_succ_r. exact Hck.
Qed.

(** Every runnable thread gets its turn.  Under repeated rotation a thread
    that stays runnable is running after at most as many switches as there are
    threads. *)
Theorem scheduler_fair r j :
  sched_ok r -> runnable_at r j ->
  exists k, (k <= length (guestThreads r))%nat /\ current_index (Nat.iter k switch r) = Some j.
Proof.
  intros Hok Hj. destruct (sched_current _ Hok) as [i Hi].
  destruct (current_index_Some r i Hi) as (c & Hc & _). pose proof (lookup_lt_Some _ _ _ Hc) as Hin.
  assert (j < length (guestThreads r))%nat as Hjn by (destruct Hj as (? & ? & _); by eapply lookup_lt_Some).
  apply (fair_within _ r i j Hok Hi Hj). unfold cyclic. case_decide; lia.
Qed.

(** ** Parking *)

(** A runnable thread waits for nothing. *)
Definition wait_fields_clear (r : registry) : Prop :=
  forall i t, guestThreads r !! i = Some t -> alive t = true -> runnable t = true -> unparked t = t.

(** Parking never strands the process.  A refused park leaves every thread
    as it was; an accepted one parks exactly the current thread with the wait it
    asked for, and only when another thread is runnable and a switch to it has
    been requested. *)
Theorem park_never_strands workqueueActive k addr result rwType rwSeq condSeq mutexSeq r :
  NoDup (ids r) -> wait_fields_clear r ->
  match ParkCurrentGuestThread workqueueActive k addr result rwType rwSeq condSeq mutexSeq r with
  | (false, r') => guestThreads r' = guestThreads r /\ guestCurrentThreadId r' = guestCurrentThreadId r /\
      guestThreadRotationRequested r' = guestThreadRotationRequested r
  | (true, r') => exists i t, current_index r = Some i /\ guestThreads r !! i = Some t /\
      guestThreads r' = <[i := parked k addr result (guestNextWaitSequence r) rwType rwSeq condSeq mutexSeq t]>
        (guestThreads r) /\
      guestThreadRotationRequested r' = true /\ exists j, j <> i /\ runnable_at r' j
  end.
Proof.
  intros Hnd Hclear. unfold ParkCurrentGuestThread. destruct workqueueActive; [done|].
  destruct (FindGuestThread _ true r) as [i|] eqn:Ef; [|done].
  destruct (guestThreads r !! i) as [t|] eqn:Et; [|done]. destruct (runnable t) eqn:Er; cbn [negb]; [|done].
  apply position_Some in Ef as (t' & Ht' & Hid & _). rewrite Et in Ht'. injection Ht' as <-. zb.
  pose proof (lookup_lt_Some _ _ _ Et) as Hlt.
  set (p := parked _ _ _ _ _ _ _ _ t). set (r1 := with_next_sequence _ _).
  assert (ids r1 = ids r) as Hids.
  { unfold ids, r1. cbn. rewrite list_fmap_insert. apply list_insert_id. by rewrite list_lookup_fmap, Et. }
  assert (current_index r1 = Some i) as Hi1.
  { unfold current_index. change (guestCurrentThreadId r1) with (guestCurrentThreadId r).
    assert (guestThreads r1 !! i = Some p) as Hp by (cbn; by rewrite list_lookup_insert_eq).
    rewrite <- (position_unique r1 i p); [|by rewrite Hids|done]. apply position_ext. intros x. cbn. congruence. }
  pose proof (next_round_robin r1 i ltac:(by rewrite Hids) Hi1) as Hn.
  destruct (NextGuestThread r1) as [j|].
  - exists i, t. split.
    + unfold current_index. rewrite <- (position_unique r i t Hnd Et). apply position_ext. intros x. congruence.
    + split_and!; try done. destruct Hn as (Hne & Hr & _). by exists j.
  - cbn. rewrite list_insert_insert_eq, (Hclear i t) by done. by rewrite list_insert_id.
Qed.

(** ** Waking *)

Lemma coop_select_oldest_spec p l :
  match select_oldest p l with
  | None => forall t, t ∈ l -> p t = false
  | Some (i, t) => l !! i = Some t /\ p t = true /\
      forall t', t' ∈ l -> p t' = true -> waitSequence t <= waitSequence t'
  end.
Proof.
  unfold select_oldest.
  assert (forall ips : list (nat * GuestThreadContext),
    match foldl (fun selected it => if p (snd it) then match selected with None => Some it
        | Some s => if waitSequence (snd it) <? waitSequence (snd s) then Some it else Some s end else selected) None ips with
    | None => forall ip, ip ∈ ips -> p (snd ip) = false
    | Some ip => ip ∈ ips /\ p (snd ip) = true /\
        forall jp, jp ∈ ips -> p (snd jp) = true -> waitSequence (snd ip) <= waitSequence (snd jp)
    end) as Hf.
  { induction ips as [|ip ips IH] using rev_ind; [intros ip Hip; by apply elem_of_nil in Hip|].
    rewrite foldl_app. cbn [foldl]. destruct (foldl _ None ips) as [s|]; destruct (p (snd ip)) eqn:Ep.
    - destruct IH as (H1 & H2 & H3). destruct (_ <? _) eqn:E; zb; (split; [set_solver|split; [done|]]);
        intros jp [Hj|Hj%list_elem_of_singleton]%elem_of_app Hp; subst; try specialize (H3 jp Hj Hp); lia.
    - destruct IH as (H1 & H2 & H3). split; [set_solver|]. split; [done|].
      intros jp [Hj|Hj%list_elem_of_singleton]%elem_of_app Hp; [by apply H3|congruence].
    - split; [set_solver|]. split; [done|]. intros jp [Hj|Hj%list_elem_of_singleton]%elem_of_app Hp.
      + rewrite IH in Hp; done.
      + subst. lia.
    - intros jp [Hj|Hj%list_elem_of_singleton]%elem_of_app; [by apply IH|by subst]. }
  specialize (Hf (imap pair l)). destruct (foldl _ None (imap pair l)) as [[i t]|].
  - destruct Hf as (Hin & Hp & Hmin). apply elem_of_lookup_imap in Hin as (j & x & [= <- <-] & Hl).
    split_and!; try done. intros t' Ht' Hp'. apply list_elem_of_lookup in Ht' as [j Hj].
    apply (Hmin (j, t')); [|done]. apply elem_of_lookup_imap. eauto.
  - intros t Ht. apply list_elem_of_lookup in Ht as [j Hj]. apply (Hf (j, t)). apply elem_of_lookup_imap. eauto.
Qed.

Section waking.
Context (p : GuestThreadContext -> bool) (f : GuestThreadContext -> GuestThreadContext).
Context (stops : forall t, p (f t) = false).

Definition woken_all (l : list GuestThreadContext) : list GuestThreadContext :=
  (fun t => if p t then f t else t) <$> l.
Definition candidates (l : list GuestThreadContext) : nat := length (List.filter p l).

Lemma wake_one_candidate l : forall i t, l !! i = Some t -> p t = true ->
  woken_all (<[i := f t]> l) = woken_all l /\ S (candidates (<[i := f t]> l)) = candidates l.
Proof.
  induction l as [|x l IH]; intros i t Hi Hp; [done|]. destruct i as [|i]; cbn in Hi.
  - injection Hi as ->. unfold woken_all, candidates. cbn. rewrite stops, Hp. done.
  - destruct (IH i t Hi Hp) as [H1 H2]. unfold woken_all, candidates in *. cbn. split; [by f_equal|].
    destruct (p x); cbn; by rewrite <- H2.
Qed.

Lemma no_candidates l : (forall t, t ∈ l -> p t = false) -> woken_all l = l /\ candidates l = 0%nat.
Proof.
  intros Hl. induction l as [|t l IH]; [done|]. destruct IH as [H1 H2]; [intros; apply Hl; by right|].
  unfold woken_all, candidates in *. cbn. rewrite (Hl t) by (by left). by rewrite H1, H2.
Qed.

Lemma coop_wake_loop_all fuel : forall l n, (candidates l < fuel)%nat ->
  wake_loop fuel p f false l n = (woken_all l, n + Z.of_nat (candidates l)).
Proof.
  induction fuel as [|fuel IH]; intros l n Hf; [lia|]. cbn [wake_loop].
  pose proof (coop_select_oldest_spec p l) as Hs. destruct (select_oldest p l) as [[i t]|].
  - destruct Hs as (Hi & Hp & _). destruct (wake_one_candidate l i t Hi Hp) as [H1 H2].
    rewrite IH by lia. rewrite H1. f_equal. lia.
  - destruct (no_candidates l Hs) as [-> ->]. f_equal. lia.
Qed.

Lemma candidates_le l : (candidates l <= length l)%nat.
Proof. apply List.filter_length_le. Qed.

Lemma wake_spec one r :
  wake p f one r =
    if one then match select_oldest p (guestThreads r) with
                | None => (0, r)
                | Some (i, t) => (1, with_threads (<[i := f t]> (guestThreads r)) r)
                end
    else (Z.of_nat (candidates (guestThreads r)), with_threads (woken_all (guestThreads r)) r).
Proof.
  unfold wake. destruct one.
  - cbn [wake_loop]. destruct (select_oldest p (guestThreads r)) as [[i t]|]; [done|]. by destruct r.
  - rewrite coop_wake_loop_all; [done|]. pose proof (candidates_le (guestThreads r)). lia.
Qed.
End waking.

Lemma with_result_carry v c : Z.testbit (cpsr (with_result v c)) CARRY_BIT = false.
Proof.
  change (Z.testbit (Z.land (cpsr c) 0xdfffffff) 29 = false). rewrite Z.land_spec.
  change (Z.testbit 0xdfffffff 29) with false. apply andb_false_r.
Qed.

(** Cooperative wakeups are exact.  Waking all releases exactly the threads
    that wait for this object and counts them; waking one releases the thread
    that has waited longest, or nobody if nobody waits.  A released thread is
    runnable, waits for nothing, and finds the result of its system call in
    register 0 with the carry flag clear; nobody else is touched. *)
Theorem cooperative_wake_exact k addr r :
  let cand := waits k addr in
  WakeGuestThreads k addr true MACH_PORT_NULL r =
    (Z.of_nat (length (List.filter cand (guestThreads r))),
     with_threads ((fun t => if cand t then woken (wakeResult t) t else t) <$> guestThreads r) r) /\
  (match WakeGuestThreads k addr false MACH_PORT_NULL r with
   | (n, r') => (n = 0 /\ r' = r /\ forall t, t ∈ guestThreads r -> cand t = false) \/
       (n = 1 /\ exists i t, guestThreads r !! i = Some t /\ cand t = true /\
          (forall t', t' ∈ guestThreads r -> cand t' = true -> waitSequence t <= waitSequence t') /\
          r' = with_threads (<[i := woken (wakeResult t) t]> (guestThreads r)) r)
   end) /\
  (forall t, runnable (woken (wakeResult t) t) = true /\ cand (woken (wakeResult t) t) = false /\
     (savedValid t = true -> r0 (saved (woken (wakeResult t) t)) = wakeResult t /\
        Z.testbit (cpsr (saved (woken (wakeResult t) t))) CARRY_BIT = false)).
Proof.
  intros cand.
  assert (forall t, (waits k addr t && is_target MACH_PORT_NULL t)%bool = cand t) as Heq
    by (intros t; unfold is_target; by rewrite andb_true_r).
  assert (forall t, (waits k addr (woken (wakeResult t) t) && is_target MACH_PORT_NULL (woken (wakeResult t) t))%bool = false)
    as Hstop by (intros t; unfold waits; cbn; by rewrite andb_false_r).
  split; [|split].
  - unfold WakeGuestThreads. rewrite wake_spec by done. cbn [negb orb MACH_PORT_VALID].
    unfold candidates, woken_all. f_equal.
    + f_equal. f_equal. apply List.filter_ext. exact Heq.
    + f_equal. apply list_fmap_ext. intros i t _. by rewrite Heq.
  - unfold WakeGuestThreads. rewrite wake_spec by done. cbn [negb orb].
    pose proof (coop_select_oldest_spec (fun t => waits k addr t && is_target MACH_PORT_NULL t) (guestThreads r)) as Hs.
    destruct (select_oldest _ _) as [[i t]|].
    + right. destruct Hs as (Hi & Hp & Hmin). split; [done|]. exists i, t. rewrite Heq in Hp. split_and!; try done.
      intros t' Ht' Hp'. apply Hmin; [done|]. by rewrite Heq.
    + left. split_and!; try done. intros t Ht. rewrite <- Heq. by apply Hs.
  - intros t. split_and!; [done|unfold cand, waits; cbn; by rewrite andb_false_r|].
    intros Hsv. cbn. rewrite Hsv. split; [done|]. apply with_result_carry.
Qed.

(** ** Example: two runnable threads and one parked on a mutex *)

Definition demo_thread (id : Z) (run : bool) : GuestThreadContext := {|
  debuggerId := id; threadPort := 100 + id; retirementFreeAddress := 0; retirementFreeSize := 0;
  saved := {| r0 := 0; cpsr := Z.shiftl 1 29; others := id |};
  waitKind := if run then KindNone else Mutex; waitAddress := if run then 0 else 0x1000;
  wakeResult := if run then 0 else 7; waitSequence := if run then 0 else 1; mutexSequence := 0;
  conditionSequence := 0; rwlockWaitType := TypeNone; rwlockSequence := 0;
  savedValid := true; alive := true; runnable := run |}.
Definition demo_registry : registry := {|
  guestThreads := [demo_thread 1 true; demo_thread 3 false; demo_thread 4 true];
  guestCurrentThreadId := 1; guestThreadRotationRequested := true; guestThreadCurrentRetiring := false;
  guestNextWaitSequence := 2; jit_context := {| r0 := 9; cpsr := 0; others := 99 |} |}.

Lemma demo_ids : NoDup (ids demo_registry).
Proof. repeat (apply NoDup_cons; split; [set_solver by lia|]). apply NoDup_nil_2. Qed.

Lemma next_thread_round_robin_witness :
  NextGuestThread demo_registry = Some 2%nat /\
  forall k, k <> 0%nat -> runnable_at demo_registry k -> (2 <= cyclic 3 0 k)%nat.
Proof.
  split; [reflexivity|].
  exact (proj2 (proj2 (next_thread_round_robin demo_registry 0 demo_ids eq_refl))).
Defined.

Lemma context_switch_transparent_witness :
  exists r', HandleGuestThreadTransition false demo_registry = (true, None, r') /\
    current_index r' = Some 2%nat /\ context_of r' 0 = Some {| r0 := 9; cpsr := 0; others := 99 |}.
Proof.
  eexists. split; [reflexivity|].
  destruct (context_switch_transparent false demo_registry None _ demo_ids eq_refl eq_refl) as (H1 & _ & _ & _ & H2 & _).
  split; [exact H1|]. rewrite H2. reflexivity.
Defined.

Lemma scheduler_fair_witness :
  exists k, (k <= 3)%nat /\ current_index (Nat.iter k switch demo_registry) = Some 2%nat.
Proof.
  apply (scheduler_fair demo_registry 2).
  - split; [exact demo_ids|by eexists| |reflexivity].
    intros [|[|[|j]]] t Hj; cbn; try (by intros [= <-]); done.
  - eexists. split; [reflexivity|]. split; reflexivity.
Defined.

Lemma park_never_strands_witness :
  fst (ParkCurrentGuestThread false Mutex 0x2000 5 TypeNone 0 0 0 demo_registry) = true /\
  guestThreadRotationRequested (snd (ParkCurrentGuestThread false Mutex 0x2000 5 TypeNone 0 0 0 demo_registry)) = true.
Proof.
  split; [reflexivity|].
  pose proof (park_never_strands false Mutex 0x2000 5 TypeNone 0 0 0 demo_registry demo_ids) as H.
  assert (wait_fields_clear demo_registry) as Hc
    by (intros [|[|[|j]]] t; cbn; try (by intros [= <-]); done).
  specialize (H Hc). destruct (ParkCurrentGuestThread _ _ _ _ _ _ _ _ _) as [[|] r'] eqn:E; [|discriminate].
  destruct H as (i & t & _ & _ & _ & H & _). exact H.
Defined.
