(* ===== verification/PsynchCalls.v ===== *)
(** The synchronisation system calls as a whole
    (src/HostFrameworks/LC32/dynarmic_psynch.cpp): each dispatches on whether
    the calling guest thread is native or cooperative and uses the native
    waiters (Psynch.v) or the cooperative registry (CoopThreads.v). *)

From S2P Require Import Prelude.
From S2P Require Import GuestMemory.
From S2P Require Import Psynch.
From S2P Require Import PsynchWake.
From S2P Require Import PsynchRun.
From S2P Require Import CoopThreads.
From S2P Require Import CoopProps.
From stdpp Require Import base gmap list fin_maps list_numbers.
From Stdlib Require Import ZArith Lia.
Open Scope Z_scope.

Import Psynch CoopThreads.CoopThreads.

(** Both sides; [guestNextWaitSequence] is one counter, kept equal in both. *)
Record world := { native_side : psynch; coop_side : registry }.

Definition with_native (s : psynch) (w : world) : world :=
  {| native_side := s;
     coop_side := with_next_sequence (Psynch.guestNextWaitSequence s) (coop_side w) |}.
Definition with_coop (r : registry) (w : world) : world :=
  {| native_side := with_nextSequence (guestNextWaitSequence r) (native_side w); coop_side := r |}.

(** Who calls: [NativeGuestThreadIsCurrent], the identity and port of its native
    waiter, and [GuestWorkqueueActiveForCurrentThread]. *)
Record caller := { is_native : bool; self : Z; port : Z; workqueue_active : bool }.

(** Parking as the cooperative calls use it. *)
Definition park (c : caller) (k : GuestThreadWaitKind) (addr result : Z) (rwType : GuestRwlockWaitType)
    (rwSeq condSeq mutexSeq : Z) (w : world) : option sysret * world :=
  let '(ok, r) := ParkCurrentGuestThread (workqueue_active c) k addr result rwType rwSeq condSeq mutexSeq
                    (coop_side w) in
  (Some (if ok then return_with_carry_direct 0 false else return_with_carry_direct EINTR true), with_coop r w).

Definition lift (w : world) (r : option sysret * psynch) : option sysret * world :=
  (fst r, with_native (snd r) w).
Definition lift_call (w : world) (r : sysret * psynch) : option sysret * world :=
  (Some (fst r), with_native (snd r) w).

(** [GuestPsynchMutexWait]. *)
Definition GuestPsynchMutexWait (c : caller) (mutex mgen ugen flags : Z) (w : world) : option sysret * world :=
  if is_native c then lift w (NativeMutexWait (self c) (port c) mutex mgen flags (native_side w)) else
  let '(consumed, s) := ConsumeGuestMutexPrepost mutex (count_part mgen) (GuestPsynchMutexIsFirstFit flags)
                          (native_side w) in
  if consumed then (Some (return_with_carry_direct (mutex_wake_result mgen) false), with_native s w)
  else park c Mutex mutex (mutex_wake_result mgen) TypeNone 0 0 (count_part mgen) w.

(** [GuestPsynchMutexDrop]. *)
Definition GuestPsynchMutexDrop (c : caller) (mutex mgen ugen flags : Z) (w : world) : option sysret * world :=
  if is_native c then lift_call w (NativeMutexDrop mutex mgen ugen flags (native_side w)) else
  let target := mutex_drop_target mgen ugen flags in
  let '(n, r) := WakeGuestMutexThread mutex target (GuestPsynchMutexIsFirstFit flags) (coop_side w) in
  let w1 := with_coop r w in
  (Some (return_with_carry_direct 0 false),
   if n =? 0 then with_native (RecordGuestMutexPrepost mutex target (native_side w1)) w1 else w1).

Definition timeout_error (condSeq condSSeq : Z) : Z :=
  if GuestPsynchSequenceDistance condSeq condSSeq <=? 1 then Z.lor ETIMEDOUT 0x100 else ETIMEDOUT.

(** [GuestPsynchConditionWait]. *)
Definition GuestPsynchConditionWait (c : caller) (condition condSeq condSSeq mutex mutexMgen mutexUgen flags
    timeoutSeconds timeoutNanoseconds : Z) (w : world) : option sysret * world :=
  let w1 := if negb (mutex =? 0) then snd (GuestPsynchMutexDrop c mutex mutexMgen mutexUgen flags w) else w in
  if is_native c then
    lift w1 (WaitNativeGuestThread (new_waiter (self c) (port c) Condition condition 0 0 TypeNone 0 condSeq)
               false 0 timeoutSeconds timeoutNanoseconds (native_side w1)) else
  let '(consumed, s) := ConsumeGuestConditionPrepost condition condSeq (native_side w1) in
  if consumed then (Some (return_with_carry_direct GuestPsynchCountIncrement false), with_native s w1) else
  if negb (timeoutSeconds =? 0) || has_flag timeoutNanoseconds 0x3fffffff
  then (Some (return_with_carry_direct (timeout_error condSeq condSSeq) true), w1)
  else park c Condition condition 0 TypeNone 0 condSeq 0 w1.

(** [GuestPsynchConditionSignal]. *)
Definition GuestPsynchConditionSignal (c : caller) (condition condSeq condSSeq target : Z) (broadcast : bool)
    (w : world) : option sysret * world :=
  if is_native c
  then lift_call w (NativeConditionSignal condition condSeq condSSeq target broadcast (native_side w)) else
  let through := count_part condSeq in
  let outstanding := GuestPsynchSequenceDistance condSeq condSSeq in
  let '(n, r) := WakeGuestConditionThreads condition through broadcast target (coop_side w) in
  let w1 := with_coop r w in
  if MACH_PORT_VALID target && (n =? 0) then (Some (return_with_carry_direct ESRCH true), w1) else
  let missing := if n <? outstanding then outstanding - n else 0 in
  let '(hasPrepost, w2) :=
    if MACH_PORT_VALID target then (false, w1) else
    if broadcast then
      (negb (missing =? 0),
       with_native (RecordGuestConditionBroadcastPrepost condition through missing (native_side w1)) w1)
    else if n =? 0 then
      (true, with_native (RecordGuestConditionSignalPrepost condition through (native_side w1)) w1)
    else (false, w1) in
  (Some (return_with_carry_direct (condition_update outstanding n hasPrepost) false), w2).

(** [GuestPsynchRwWait] and [GuestPsynchRwUnlock]. *)
Definition GuestPsynchRwWait (c : caller) (rwlock lgen rwSequence : Z) (write : bool) (w : world)
    : option sysret * world :=
  if is_native c then lift w (NativeRwWait (self c) (port c) rwlock lgen rwSequence write (native_side w))
  else park c Rwlock rwlock 0 (if write then Write else Read) lgen 0 0 w.

Definition GuestPsynchRwUnlock (c : caller) (rwlock lgen ugen rwSequence : Z) (w : world)
    : option sysret * world :=
  if is_native c then lift_call w (NativeRwUnlock rwlock lgen ugen rwSequence (native_side w)) else
  let '(update, n, r) := GrantCooperativeGuestRwlockThreads rwlock (coop_side w) in
  (Some (return_with_carry_direct (if n =? 0 then lgen else update) false), with_coop r w).

(** [GuestUlockTargetThreadExists]; [workqueuePort] is [guestWorkqueueThreadPort]. *)
Definition GuestUlockTargetThreadExists (workqueuePort : Z) (r : registry) (target : Z) : bool :=
  MACH_PORT_VALID target &&
  ((target =? workqueuePort) ||
   existsb (fun t => alive t && (threadPort t =? target)) (guestThreads r)).

(** [GuestUlockWait] and [GuestUlockWake]. *)
Definition GuestUlockWait (c : caller) (operation addr val timeout : Z) (v : vm) (w : world)
    : option sysret * world :=
  if is_native c then lift w (NativeUlockWait (self c) (port c) operation addr val v (native_side w)) else
  let opcode := ulock_opcode operation in
  let flags := ulock_flags operation in
  if negb (GuestUlockOpcodeValid opcode) || has_flag flags (u32_not GuestUlfWaitMask)
  then (Some (GuestUlockReturn EINVAL flags 0), w) else
  match ReadGuestUlockWord v addr with
  | inr e => (Some (GuestUlockReturn e flags 0), w)
  | inl current =>
      if negb (current =? val) then (Some (GuestUlockReturn 0 flags 0), w) else
      if negb (timeout =? 0) then (Some (GuestUlockReturn ETIMEDOUT flags 0), w) else
      let '(ok, r) := ParkCurrentGuestThread (workqueue_active c) Ulock addr 0 TypeNone 0 0 0 (coop_side w) in
      (Some (GuestUlockReturn (if ok then 0 else EINTR) flags 0), with_coop r w)
  end.

Definition GuestUlockWake (c : caller) (operation addr wakeValue workqueuePort : Z) (w : world)
    : option sysret * world :=
  let flags := ulock_flags operation in
  let targetExists := GuestUlockTargetThreadExists workqueuePort (coop_side w) in
  if is_native c
  then lift_call w (NativeUlockWake operation addr wakeValue targetExists (native_side w)) else
  if ulock_wake_invalid operation addr then (Some (GuestUlockReturn EINVAL flags 0), w) else
  let targetWake := has_flag flags GuestUlfWakeThread in
  let target := u32 wakeValue in
  if targetWake && negb (targetExists target) then (Some (GuestUlockReturn ESRCH flags 0), w) else
  let '(n, r) := WakeGuestThreads Ulock addr (has_flag flags GuestUlfWakeAll)
                   (if targetWake then target else MACH_PORT_NULL) (coop_side w) in
  (Some (GuestUlockReturn (if n =? 0 then if targetWake then EALREADY else ENOENT else 0) flags 0), with_coop r w).

(** ** The cooperative handoff *)

Lemma record_then_consume addr seq l :
  consume_mutex addr seq false (record_mutex addr seq l) <> None.
Proof.
  induction l as [|p l IH]; cbn [record_mutex].
  - cbn. by rewrite !Z.eqb_refl.
  - destruct ((mp_address p =? addr) && (mp_sequence p =? seq))%bool eqn:E; cbn [consume_mutex mp_address mp_sequence].
    + apply andb_true_iff in E as [-> ->]. cbn. done.
    + destruct (_ || _)%bool; [|done]. by destruct (consume_mutex addr seq false (record_mutex addr seq l)).
Qed.

(** A cooperative fair-share drop reaches its successor.  Either the thread
    that waits for exactly the dropped generation becomes runnable with its
    wake result in register 0, or no such thread is parked and the grant is
    recorded, so that the wait with that generation returns at once instead of
    parking. *)
Theorem cooperative_handoff c mutex mgen ugen flags w :
  is_native c = false -> GuestPsynchMutexIsFirstFit flags = false ->
  let target := mutex_drop_target mgen ugen flags in
  let w' := snd (GuestPsynchMutexDrop c mutex mgen ugen flags w) in
  (exists i t, guestThreads (coop_side w) !! i = Some t /\ waits Mutex mutex t = true /\
     CoopThreads.mutexSequence t = target /\
     guestThreads (coop_side w') !! i = Some (woken (CoopThreads.wakeResult t) t)) \/
  ((forall t, t ∈ guestThreads (coop_side w) -> waits Mutex mutex t = true -> CoopThreads.mutexSequence t <> target) /\
   fst (GuestPsynchMutexWait c mutex target ugen flags w') =
     Some (return_with_carry_direct (mutex_wake_result target) false)).
Proof.
  intros Hc Hff target w'. unfold w', GuestPsynchMutexDrop. rewrite Hc. fold target. rewrite Hff.
  unfold WakeGuestMutexThread. rewrite wake_spec by (intros t; unfold waits; cbn; by rewrite andb_false_r).
  pose proof (CoopProps.coop_select_oldest_spec
    (fun t => waits Mutex mutex t && negb (negb false && negb (CoopThreads.mutexSequence t =? target)))
    (guestThreads (coop_side w))) as Hs.
  destruct (CoopThreads.select_oldest _ _) as [[i t]|].
  - left. destruct Hs as (Hi & Hp & _). apply andb_true_iff in Hp as [Hw Hq]. cbn in Hq.
    apply negb_true_iff, negb_false_iff in Hq. zb. exists i, t. split_and!; try done. cbn.
    apply list_lookup_insert_eq. by eapply lookup_lt_Some.
  - right. split.
    + intros t Ht Hw Heq. specialize (Hs t Ht). cbn in Hs. by rewrite Hw, Heq, Z.eqb_refl in Hs.
    + cbn [snd fst Z.eqb]. unfold GuestPsynchMutexWait. rewrite Hc, Hff. unfold ConsumeGuestMutexPrepost.
      cbn [native_side with_native RecordGuestMutexPrepost guestMutexPreposts with_mutexPreposts].
      rewrite count_part_idem.
      match goal with |- context [consume_mutex ?a ?b ?f (record_mutex ?a ?b ?l)] =>
        pose proof (record_then_consume a b l) as Hr; by destruct (consume_mutex a b f (record_mutex a b l)) end.
Qed.

(** The parked thread of the example registry waits for generation 0. *)
Lemma cooperative_handoff_witness :
  let c := {| is_native := false; self := 0; port := 0; workqueue_active := false |} in
  let w := {| native_side := initial; coop_side := demo_registry |} in
  mutex_drop_target 0 0xffffff00 0 = 0 /\
  exists i t, guestThreads (coop_side w) !! i = Some t /\
    guestThreads (coop_side (snd (GuestPsynchMutexDrop c 0x1000 0 0xffffff00 0 w))) !! i =
      Some (woken (CoopThreads.wakeResult t) t).
Proof.
  intros c w. split; [reflexivity|].
  destruct (cooperative_handoff c 0x1000 0 0xffffff00 0 w eq_refl eq_refl) as [(i & t & H1 & _ & _ & H2)|[H _]].
  - exists i, t. split; [exact H1|exact H2].
  - exfalso. apply (H (demo_thread 3 false)); [right; left|reflexivity|reflexivity].
Defined.
