(* ===== verification/Debugger.v ===== *)
(** Debugger access to guest memory: software breakpoints and one-shot
    tracepoints (src/HostFrameworks/LC32/dynarmic_core.cpp,
    [DebuggerWriteHostMemory] to [Dynarmic_debugger_remove_all_breakpoints]).

    A breakpoint is a trap instruction planted in the bytes the guest executes;
    the registry keeps the bytes it replaced.  What the debugger reads and
    writes is the logical memory beneath the traps.  DebuggerProps.v proves that
    the operations implement that view. *)

From S2P Require Import Prelude.
From S2P Require Import VmEpoch.
From S2P Require Import GuestMemory.
From S2P Require Import GuestRawMemory.
From stdpp Require Import base gmap list fin_maps list_numbers.
From Stdlib Require Import ZArith Lia.
Open Scope Z_scope.

(** ** The host's view of a mapping

    What [vm_region_64] answers for an address ([None]: not KERN_SUCCESS), the
    host page size, and whether [vm_protect] accepts a range and protection. *)
Record host_region := {
  regionAddress : Z;
  regionSize : Z;
  protection : Z;
  max_protection : Z;
}.

Record debug_host := {
  vm_region : Z -> option host_region;
  vm_page_size : Z;
  vm_protect : Z -> Z -> Z -> bool;
}.

Definition VM_PROT_WRITE : Z := 2.

(** One turn of [DebuggerWriteHostMemory]: how much of [size] bytes at [dest]
    the region takes, [None] when the loop gives up before copying. *)
Definition region_chunk (r : host_region) (dest size : Z) : option Z :=
  if (dest <? regionAddress r) || (regionSize r <=? dest - regionAddress r) then None else
  let available := regionSize r - (dest - regionAddress r) in
  Some (if size <? available then size else available).

(** The host pages whose protection is changed for a chunk. *)
Definition protect_range (H : debug_host) (dest chunk : Z) : Z * Z :=
  let page := vm_page_size H in
  let protectStart := dest - dest mod page in
  let protectEnd := (dest + chunk + page - 1) / page * page in
  (protectStart, protectEnd - protectStart).

(** Adding write permission: [None] on failure, otherwise the range whose
    protection was changed, if any. *)
Definition make_writable (H : debug_host) (r : host_region) (dest chunk : Z) : option (option (Z * Z)) :=
  if has_flag (protection r) VM_PROT_WRITE then Some None else
  if negb (has_flag (max_protection r) VM_PROT_WRITE) || (vm_page_size H =? 0) ||
     (u64 (UINT64_MAX - chunk - (vm_page_size H - 1)) <? dest) then None else
  let '(start, size) := protect_range H dest chunk in
  if vm_protect H start size (Z.lor (protection r) VM_PROT_WRITE) then Some (Some (start, size)) else None.

(** Restoring it. *)
Definition restore_protection (H : debug_host) (r : host_region) (changed : option (Z * Z)) : bool :=
  match changed with
  | None => true
  | Some (start, size) => vm_protect H start size (protection r)
  end.

(** The loop: every turn copies at least one byte, so the number of bytes is
    enough fuel. *)
Fixpoint write_host_loop (fuel : nat) (H : debug_host) (dest : Z) (src : list Z) (h : gmap Z Z)
    : Z * gmap Z Z :=
  match src, fuel with
  | [], _ => (0, h)
  | _, O => (1, h)
  | _, S fuel' =>
      match vm_region H dest with
      | None => (1, h)
      | Some r =>
          match region_chunk r dest (Z.of_nat (length src)) with
          | None => (1, h)
          | Some chunk =>
              match make_writable H r dest chunk with
              | None => (1, h)
              | Some changed =>
                  let h' := host_write h dest (take (Z.to_nat chunk) src) in
                  if restore_protection H r changed
                  then write_host_loop fuel' H (dest + chunk) (drop (Z.to_nat chunk) src) h'
                  else (1, h')
              end
          end
      end
  end.

Definition DebuggerWriteHostMemory (H : debug_host) (dest : Z) (src : list Z) (h : gmap Z Z)
    : Z * gmap Z Z :=
  write_host_loop (length src) H dest src h.

(** ** Physical guest writes *)

(** The part of [page] inside the access: its offset in the page and length. *)
Definition physical_chunk (address stop page : Z) : Z * Z :=
  let start := if page <? address then address - page else 0 in
  let pageEnd := if page + DYN_PAGE_SIZE <? stop then page + DYN_PAGE_SIZE else stop in
  (start, pageEnd - page - start).

Fixpoint write_physical_loop (H : debug_host) (s : vm) (address stop : Z) (pages source : list Z) : Z * vm :=
  match pages with
  | [] => (0, s)
  | page :: rest =>
      let '(start, len) := physical_chunk address stop page in
      let hostPage := get_memory_page s page in
      if hostPage =? 0 then (1, s) else
      let '(r, h) := DebuggerWriteHostMemory H (hostPage + start) (take (Z.to_nat len) source) (host s) in
      if negb (r =? 0) then (1, with_host h s) else
      write_physical_loop H (with_host h s) address stop rest (drop (Z.to_nat len) source)
  end.

(** [DebuggerWritePhysicalMemory]; the size is the source's length. *)
Definition DebuggerWritePhysicalMemory (H : debug_host) (s : vm) (address : Z) (source : list Z) : Z * vm :=
  let stop := u64 (address + Z.of_nat (length source)) in
  write_physical_loop H s address stop (page_addrs (page_base address) stop) source.

(** ** Registries *)

(** [struct DebuggerSoftwareBreakpoint]; the arrays have four bytes. *)
Record DebuggerSoftwareBreakpoint := {
  bp_address : Z;
  bp_kind : Z;
  original : list Z;
  trap : list Z;
}.

(** [struct GuestSoftwareTracepoint]. *)
Record GuestSoftwareTracepoint := {
  tp_address : Z;
  tp_kind : Z;
  tp_original : list Z;
  fired : bool;
}.

Record debugger := {
  dvm : vm;
  debuggerSoftwareBreakpoints : list DebuggerSoftwareBreakpoint;
  guestSoftwareTracepoints : list GuestSoftwareTracepoint;
}.

Definition with_dvm s d := {| dvm := s; debuggerSoftwareBreakpoints := debuggerSoftwareBreakpoints d;
  guestSoftwareTracepoints := guestSoftwareTracepoints d |}.
Definition with_breakpoints l d := {| dvm := dvm d; debuggerSoftwareBreakpoints := l;
  guestSoftwareTracepoints := guestSoftwareTracepoints d |}.
Definition with_tracepoints l d := {| dvm := dvm d;
  debuggerSoftwareBreakpoints := debuggerSoftwareBreakpoints d; guestSoftwareTracepoints := l |}.

(** The bytes in a zero-initialised [std::array<uint8_t, 4>]. *)
Definition array4 (bytes : list Z) : list Z := bytes ++ replicate (4 - length bytes) 0.

(** The little-endian bytes of an instruction, [kind] of them. *)
Definition instruction_bytes (kind instruction : Z) : list Z :=
  take (Z.to_nat kind)
    [Z.land instruction 0xff; Z.land (Z.shiftr instruction 8) 0xff;
     Z.land (Z.shiftr instruction 16) 0xff; Z.land (Z.shiftr instruction 24) 0xff].

Definition trap_instruction (thumb : bool) : Z := if thumb then 0xBE00 else 0xE1200070.

(** [memcpy(dst + doff, src + soff, n)] on arrays. *)
Definition memcpy (dst : list Z) (doff : Z) (src : list Z) (soff n : Z) : list Z :=
  take (Z.to_nat doff) dst ++ take (Z.to_nat n) (drop (Z.to_nat soff) src) ++ drop (Z.to_nat (doff + n)) dst.

(** [overlapStart] and [overlapEnd] of an access and a breakpoint. *)
Definition overlap (address size : Z) (b : DebuggerSoftwareBreakpoint) : option (Z * Z) :=
  if negb (DebuggerRangesOverlap address size (bp_address b) (bp_kind b)) then None else
  let overlapStart := if bp_address b <? address then address else bp_address b in
  let requestEnd := u64 (address + size) in
  let breakpointEnd := u64 (bp_address b + bp_kind b) in
  Some (overlapStart, if requestEnd <? breakpointEnd then requestEnd else breakpointEnd).

(** ** Logical reads and writes *)

(** Copying the breakpoint's [bytes] over the part of [data] (the access at
    [address]) they cover. *)
Definition overlay (address : Z) (bytes : DebuggerSoftwareBreakpoint -> list Z) (data : list Z)
    (b : DebuggerSoftwareBreakpoint) : list Z :=
  match overlap address (Z.of_nat (length data)) b with
  | None => data
  | Some (first, last) => memcpy data (first - address) (bytes b) (first - bp_address b) (last - first)
  end.

(** [Dynarmic_debugger_mem_read]: [None] is 1. *)
Definition Dynarmic_debugger_mem_read (d : debugger) (address size : Z) (dest_ok : bool) : option (list Z) :=
  if negb (DebuggerMemoryRangeIsValid address size) || (negb (size =? 0) && negb dest_ok) then None else
  match Dynarmic_mem_1read (dvm d) address size dest_ok with
  | None => None
  | Some bytes => Some (foldl (overlay address original) bytes (debuggerSoftwareBreakpoints d))
  end.

(** The bytes beneath a breakpoint after a debugger write. *)
Definition rewrite_original (address : Z) (src : list Z) (b : DebuggerSoftwareBreakpoint)
    : DebuggerSoftwareBreakpoint :=
  match overlap address (Z.of_nat (length src)) b with
  | None => b
  | Some (first, last) =>
      {| bp_address := bp_address b; bp_kind := bp_kind b;
         original := memcpy (original b) (first - bp_address b) src (first - address) (last - first);
         trap := trap b |}
  end.

(** [Dynarmic_debugger_mem_write]; [src] is [None] for a null pointer. *)
Definition Dynarmic_debugger_mem_write (H : debug_host) (d : debugger) (address size : Z)
    (src : option (list Z)) : Z * debugger :=
  if negb (DebuggerMemoryRangeIsValid address size) || (negb (size =? 0) && bool_decide (src = None)) ||
     negb (DebuggerMemoryRangeIsMapped (dvm d) address size) then (1, d) else
  if size =? 0 then (0, d) else
  let src := take (Z.to_nat size) (default [] src) in
  let physical := foldl (overlay address trap) src (debuggerSoftwareBreakpoints d) in
  let '(r, s) := DebuggerWritePhysicalMemory H (dvm d) address physical in
  if negb (r =? 0) then (1, with_dvm s d) else
  (0, with_breakpoints (rewrite_original address src <$> debuggerSoftwareBreakpoints d)
        (with_dvm (InvalidateAllGuestJits (u32 address) size s) d)).

(** ** Breakpoints *)

Definition NormalizeDebuggerBreakpointAddress (address kind : Z) : Z :=
  if UINT32_MAX <? address then UINT32_MAX else
  if kind =? 2 then Z.land address (u32_not 1) else address.

Definition Dynarmic_debugger_has_breakpoint (d : debugger) (address : Z) : bool :=
  existsb (fun b => bp_address b =? Z.land address (u32_not 1)) (debuggerSoftwareBreakpoints d).

(** The scan over the breakpoints: [Some] is an early return. *)
Fixpoint breakpoint_scan (guestAddress kind : Z) (l : list DebuggerSoftwareBreakpoint) : option bool :=
  match l with
  | [] => None
  | b :: rest =>
      if (bp_address b =? guestAddress) && (bp_kind b =? kind) then Some true else
      if DebuggerRangesOverlap guestAddress kind (bp_address b) (bp_kind b) then Some false else
      breakpoint_scan guestAddress kind rest
  end.

Definition Dynarmic_debugger_set_breakpoint (H : debug_host) (d : debugger) (address kind : Z)
    : bool * debugger :=
  if negb (kind =? 2) && negb (kind =? 4) then (false, d) else
  let guestAddress := NormalizeDebuggerBreakpointAddress address kind in
  if (guestAddress =? UINT32_MAX) || ((kind =? 4) && has_flag guestAddress 3) then (false, d) else
  if existsb (fun t => DebuggerRangesOverlap guestAddress kind (tp_address t) (tp_kind t))
       (guestSoftwareTracepoints d) then (false, d) else
  match breakpoint_scan guestAddress kind (debuggerSoftwareBreakpoints d) with
  | Some result => (result, d)
  | None =>
      match Dynarmic_mem_1read (dvm d) guestAddress kind true with
      | None => (false, d)
      | Some bytes =>
          let instruction := instruction_bytes kind (trap_instruction (kind =? 2)) in
          let b := {| bp_address := guestAddress; bp_kind := kind; original := array4 bytes;
                      trap := array4 instruction |} in
          let '(r, s) := DebuggerWritePhysicalMemory H (dvm d) guestAddress instruction in
          if negb (r =? 0) then (false, with_dvm s d) else
          (true, with_breakpoints (debuggerSoftwareBreakpoints d ++ [b])
                   (with_dvm (InvalidateAllGuestJits guestAddress kind s) d))
      end
  end.

(** Restoring the bytes one breakpoint replaced. *)
Definition restore_breakpoint (H : debug_host) (s : vm) (b : DebuggerSoftwareBreakpoint) : Z * vm :=
  DebuggerWritePhysicalMemory H s (bp_address b) (take (Z.to_nat (bp_kind b)) (original b)).

Definition Dynarmic_debugger_delete_breakpoint (H : debug_host) (d : debugger) (address kind : Z)
    : bool * debugger :=
  if UINT32_MAX <? address then (false, d) else
  let guestAddress := Z.land address (u32_not 1) in
  match list_find (fun b => bp_address b = guestAddress) (debuggerSoftwareBreakpoints d) with
  | None => (true, d)
  | Some (i, b) =>
      let '(r, s) := restore_breakpoint H (dvm d) b in
      if negb (r =? 0) then (false, with_dvm s d) else
      (true, with_breakpoints (delete i (debuggerSoftwareBreakpoints d))
               (with_dvm (InvalidateAllGuestJits guestAddress (bp_kind b) s) d))
  end.

(** The restoring loop: the records that could not be restored. *)
Fixpoint remove_loop (H : debug_host) (s : vm) (l : list DebuggerSoftwareBreakpoint)
    : list DebuggerSoftwareBreakpoint * vm :=
  match l with
  | [] => ([], s)
  | b :: rest =>
      let '(r, s1) := restore_breakpoint H s b in
      if negb (r =? 0) then let '(kept, s2) := remove_loop H s1 rest in (b :: kept, s2)
      else remove_loop H (InvalidateAllGuestJits (bp_address b) (bp_kind b) s1) rest
  end.

(** [restoredAll] is false exactly when a record was kept. *)
Definition Dynarmic_debugger_remove_all_breakpoints (H : debug_host) (d : debugger) : bool * debugger :=
  let '(kept, s) := remove_loop H (dvm d) (debuggerSoftwareBreakpoints d) in
  (bool_decide (kept = []), with_breakpoints kept (with_dvm s d)).

(** ** Tracepoints *)

Definition Dynarmic_guest_tracepoint_set (H : debug_host) (d : debugger) (address : Z) : bool * debugger :=
  if UINT32_MAX <? address then (false, d) else
  let thumb := has_flag address 1 in
  let guestAddress := Z.land address (u32_not 1) in
  let kind := if thumb then 2 else 4 in
  match List.find (fun t => tp_address t =? guestAddress) (guestSoftwareTracepoints d) with
  | Some t => (tp_kind t =? kind, d)
  | None =>
      if existsb (fun b => DebuggerRangesOverlap guestAddress kind (bp_address b) (bp_kind b))
           (debuggerSoftwareBreakpoints d) then (false, d) else
      match Dynarmic_mem_1read (dvm d) guestAddress kind true with
      | None => (false, d)
      | Some bytes =>
          let t := {| tp_address := guestAddress; tp_kind := kind; tp_original := array4 bytes;
                      fired := false |} in
          let '(r, s) := DebuggerWritePhysicalMemory H (dvm d) guestAddress
                           (instruction_bytes kind (trap_instruction thumb)) in
          if negb (r =? 0) then (false, with_dvm s d) else
          (true, with_tracepoints (guestSoftwareTracepoints d ++ [t])
                   (with_dvm (InvalidateAllGuestJits guestAddress kind s) d))
      end
  end.

(** [ConsumeGuestSoftwareTracepoint]: the new program counter when the trap was
    a tracepoint's.  The register dump it logs changes no state. *)
Definition ConsumeGuestSoftwareTracepoint (H : debug_host) (d : debugger) (pc : Z) : option Z * debugger :=
  let guestAddress := Z.land pc (u32_not 1) in
  match list_find (fun t => tp_address t = guestAddress) (guestSoftwareTracepoints d) with
  | None => (None, d)
  | Some (i, t) =>
      let finish s := (Some guestAddress,
        with_tracepoints (<[i := {| tp_address := tp_address t; tp_kind := tp_kind t;
                                    tp_original := tp_original t; fired := true |}]> (guestSoftwareTracepoints d))
          (with_dvm (InvalidateAllGuestJits guestAddress (tp_kind t) s) d)) in
      if fired t then finish (dvm d) else
      let '(r, s) := DebuggerWritePhysicalMemory H (dvm d) guestAddress
                       (take (Z.to_nat (tp_kind t)) (tp_original t)) in
      if negb (r =? 0) then (None, with_dvm s d) else finish s
  end.
