(* ===== verification/DebuggerProps.v ===== *)
(** What the debugger's memory operations promise: the debugger sees and edits
    the logical memory beneath the planted traps; concrete sessions. *)

From stdpp Require Import base gmap list fin_maps list_numbers.
From Stdlib Require Import ZArith Lia.
From S2P Require Import Prelude VmEpoch GuestMemory GuestRawMemory MemoryWitness Debugger.

Open Scope Z_scope.

(** ** Writes *)

Lemma host_write_app h a l1 l2 :
  host_write (host_write h a l1) (a + Z.of_nat (length l1)) l2 = host_write h a (l1 ++ l2).
Proof.
  revert h a. induction l1 as [|x l1 IH]; intros h a.
  - cbn [length app]. f_equal. lia.
  - cbn [host_write app length]. rewrite <- IH. f_equal. lia.
Qed.

Lemma take_seqZ a l (m : nat) : Z.of_nat m <= l -> take m (seqZ a l) = seqZ a (Z.of_nat m).
Proof.
  intros H. replace l with (Z.of_nat m + (l - Z.of_nat m)) by lia. rewrite seqZ_app by lia.
  apply take_app_length'. rewrite length_seqZ. lia.
Qed.

Lemma region_chunk_range r dest n c :
  0 < n -> region_chunk r dest n = Some c -> 0 < c <= n.
Proof.
  intros Hn. unfold region_chunk. destruct (_ || _)%bool eqn:?; [done|]. zb.
  intros [= <-]. case_if; zb; lia.
Qed.

(** A prefix of the source is written; all of it on success. *)
Lemma write_host_spec H : forall fuel dest src h, (length src <= fuel)%nat ->
  exists n, (n <= length src)%nat /\
    snd (write_host_loop fuel H dest src h) = host_write h dest (take n src) /\
    (fst (write_host_loop fuel H dest src h) = 0 /\ n = length src \/
     fst (write_host_loop fuel H dest src h) = 1).
Proof.
  induction fuel as [|fuel IH]; intros dest src h Hf.
  { destruct src; [|cbn in Hf; lia]. exists 0%nat. auto. }
  destruct src as [|x src']; [exists 0%nat; auto|]. remember (x :: src') as src eqn:Es.
  assert (0 < Z.of_nat (length src)) as Hpos by (subst; cbn [length]; lia).
  assert (write_host_loop (S fuel) H dest src h =
    match vm_region H dest with
    | None => (1, h)
    | Some r => match region_chunk r dest (Z.of_nat (length src)) with
      | None => (1, h)
      | Some chunk => match make_writable H r dest chunk with
        | None => (1, h)
        | Some changed =>
            let h' := host_write h dest (take (Z.to_nat chunk) src) in
            if restore_protection H r changed
            then write_host_loop fuel H (dest + chunk) (drop (Z.to_nat chunk) src) h' else (1, h')
        end end end) as -> by (by subst).
  assert (forall g : Z * gmap Z Z, g = (1, h) -> exists n, (n <= length src)%nat /\
    snd g = host_write h dest (take n src) /\ (fst g = 0 /\ n = length src \/ fst g = 1)) as Hnone.
  { intros g ->. exists 0%nat. rewrite take_0. cbn. split; [lia|auto]. }
  destruct (vm_region H dest) as [r|]; [|by apply Hnone].
  destruct (region_chunk r dest _) as [c|] eqn:Ec; [|by apply Hnone].
  apply region_chunk_range in Ec as Hc; [|done].
  destruct (make_writable H r dest c) as [changed|]; [|by apply Hnone]. cbv zeta.
  destruct (restore_protection H r changed).
  - destruct (IH (dest + c) (drop (Z.to_nat c) src) (host_write h dest (take (Z.to_nat c) src)))
      as (n & Hn & Hs & Hr); [rewrite length_drop; lia|]. rewrite length_drop in Hn, Hr.
    exists (Z.to_nat c + n)%nat. split; [lia|]. rewrite Hs. split.
    + replace (dest + c) with (dest + Z.of_nat (length (take (Z.to_nat c) src)))
        by (rewrite length_take; lia).
      rewrite host_write_app. by rewrite take_take_drop.
    + destruct Hr as [[? ?]|?]; [left; split; [done|lia]|by right].
  - exists (Z.to_nat c). cbn. split; [lia|auto].
Qed.

Lemma physical_chunk_raw address e v f l :
  raw_chunk address e v = (f, l) -> physical_chunk address e v = (f - v, l).
Proof.
  unfold raw_chunk, physical_chunk. intros [= <- <-].
  f_equal; [lia|]. destruct (v + DYN_PAGE_SIZE <=? e) eqn:?, (v + DYN_PAGE_SIZE <? e) eqn:?; zb; lia.
Qed.

(** ... through the guest mapping, when the whole range translates. *)
Lemma write_physical_loop_spec H address e vs : forall s src hs,
  (forall v, v ∈ vs -> raw_fit address e v) ->
  mapM (raw_translate s) (raw_bytes_of address e vs) = Some hs -> length src = length hs ->
  exists n, (n <= length src)%nat /\
    snd (write_physical_loop H s address e vs src) =
      with_host (store_bytes (host s) (take n (zip hs src))) s /\
    (fst (write_physical_loop H s address e vs src) = 0 /\ n = length src \/
     fst (write_physical_loop H s address e vs src) = 1).
Proof.
  induction vs as [|v vs IH]; intros s src hs Hf Ht Hlen; cbn [write_physical_loop].
  - injection Ht as <-. exists 0%nat. destruct src; [|done]. cbn. split; [lia|]. by destruct s; auto.
  - pose proof (raw_step s address e v vs (Hf v ltac:(set_solver))) as Hstep.
    destruct (Hf v ltac:(set_solver)) as (f & l & E & _ & Hl & _).
    rewrite E in Hstep. rewrite (physical_chunk_raw _ _ _ _ _ E). rewrite Hstep in Ht.
    destruct (get_memory_page s v =? 0); [done|].
    destruct (mapM (raw_translate s) (raw_bytes_of address e vs)) as [hs'|] eqn:Et; cbn in Ht; [|done].
    injection Ht as <-. rewrite length_app, length_seqZ in Hlen.
    unfold DebuggerWriteHostMemory.
    destruct (write_host_spec H (length (take (Z.to_nat l) src)) (get_memory_page s v + (f - v))
      (take (Z.to_nat l) src) (host s) ltac:(lia)) as (n & Hn & Hs & Hr).
    destruct (write_host_loop _ _ _ _ _) as [r h]. cbn [fst snd] in *. rewrite length_take in Hn, Hr.
    rewrite take_take in Hs. rewrite Nat.min_l in Hs by lia.
    rewrite host_write_store, length_take, Nat.min_l in Hs by lia.
    assert (forall m : nat, (m <= Z.to_nat l)%nat ->
      take m (zip (seqZ (get_memory_page s v + (f - v)) l ++ hs') src) =
      zip (seqZ (get_memory_page s v + (f - v)) (Z.of_nat m)) (take m src)) as Hpre.
    { intros m Hm. rewrite zip_with_take, take_app_le by (rewrite length_seqZ; lia).
      by rewrite take_seqZ by lia. }
    destruct Hr as [[-> Hr]| ->].
    + cbn [negb Z.eqb].
      destruct (IH (with_host h s) (drop (Z.to_nat l) src) hs') as (m & Hm & Hms & Hmr);
        [set_solver|done|rewrite length_drop; lia|]. rewrite length_drop in Hm, Hmr.
      exists (Z.to_nat l + m)%nat. split; [lia|]. rewrite Hms. split.
      * apply (f_equal (fun x => with_host x s)). cbn [host with_host]. rewrite Hs.
        rewrite <- store_bytes_app. f_equal.
        rewrite <- Hpre by lia. rewrite Hr, Nat.min_l by lia. rewrite <- take_take_drop.
        do 2 f_equal. rewrite zip_with_drop, drop_app_ge by (rewrite length_seqZ; lia).
        rewrite length_seqZ, Nat.sub_diag. by rewrite drop_0.
      * destruct Hmr as [[? ?]|?]; [left; split; [done|lia]|by right].
    + cbn [negb Z.eqb]. exists n. split; [lia|]. cbn [fst snd]. split; [|by right].
      f_equal. rewrite Hpre by lia. exact Hs.
Qed.

Lemma physical_write_spec H s address src hs :
  0 <= address -> src <> [] -> address + Z.of_nat (length src) <= 2 ^ 32 ->
  mapM (raw_translate s) (seqZ address (Z.of_nat (length src))) = Some hs ->
  exists n, (n <= length src)%nat /\
    snd (DebuggerWritePhysicalMemory H s address src) =
      with_host (store_bytes (host s) (take n (zip hs src))) s /\
    (fst (DebuggerWritePhysicalMemory H s address src) = 0 /\ n = length src \/
     fst (DebuggerWritePhysicalMemory H s address src) = 1).
Proof.
  intros Ha Hne Hb Ht. assert (0 < Z.of_nat (length src)) by (destruct src; [done|cbn [length]; lia]).
  assert (2 ^ 32 < U64_MOD) by reflexivity.
  unfold DebuggerWritePhysicalMemory. rewrite u64_small by lia.
  apply write_physical_loop_spec.
  - intros v. apply raw_fit_range; lia.
  - unfold raw_bytes_of. by rewrite raw_chunks_total by lia.
  - apply length_mapM in Ht. rewrite length_seqZ in Ht. lia.
Qed.

(** ** The logical memory *)

Definition guest_address (a : Z) : Prop := 0 <= a < 2 ^ 32.

(** No two guest bytes share a host byte. *)
Definition no_alias (s : vm) : Prop := forall a a' h, guest_address a -> guest_address a' ->
  raw_translate s a = Some h -> raw_translate s a' = Some h -> a = a'.

(** A breakpoint covers a guest byte. *)
Definition covers (a : Z) (b : DebuggerSoftwareBreakpoint) : bool :=
  (bp_address b <=? a) && (a <? bp_address b + bp_kind b).

Definition byte_of (bytes : list Z) (b : DebuggerSoftwareBreakpoint) (a : Z) : option Z :=
  bytes !! Z.to_nat (a - bp_address b).

(** What the debugger is shown: the bytes beneath the traps. *)
Definition logical (s : vm) (l : list DebuggerSoftwareBreakpoint) (a : Z) : option Z :=
  match List.find (covers a) l with
  | Some b => byte_of (original b) b a
  | None => raw_byte s a
  end.

Definition bp_ok (b : DebuggerSoftwareBreakpoint) : Prop :=
  (bp_kind b = 2 \/ bp_kind b = 4) /\ 0 <= bp_address b /\ bp_address b + bp_kind b <= 2 ^ 32 /\
  length (original b) = 4%nat /\ length (trap b) = 4%nat.

(** Every record is well formed, no two cover the same byte, every trap is
    planted, and no guest byte has an alias through which it could be changed. *)
Record dbg_ok (s : vm) (l : list DebuggerSoftwareBreakpoint) : Prop := {
  dbg_bp : forall b, b ∈ l -> bp_ok b;
  dbg_disjoint : forall i j b b' a, l !! i = Some b -> l !! j = Some b' ->
    covers a b = true -> covers a b' = true -> i = j;
  dbg_planted : forall b a, b ∈ l -> covers a b = true -> raw_byte s a = byte_of (trap b) b a;
  dbg_alias : no_alias s;
}.

Lemma logical_covered s l b a :
  (forall i j b b' a, l !! i = Some b -> l !! j = Some b' ->
    covers a b = true -> covers a b' = true -> i = j) ->
  b ∈ l -> covers a b = true -> logical s l a = byte_of (original b) b a.
Proof.
  intros Hd [i Hi]%list_elem_of_lookup Hc. unfold logical.
  destruct (List.find (covers a) l) as [b'|] eqn:E.
  - apply find_some in E as [[j Hj]%list_elem_of_In%list_elem_of_lookup Hc'].
    assert (i = j) as -> by eauto. congruence.
  - apply find_none with (x := b) in E; [congruence|].
    by apply list_elem_of_In, list_elem_of_lookup; eauto.
Qed.

Lemma logical_uncovered s l a :
  (forall b, b ∈ l -> covers a b = false) -> logical s l a = raw_byte s a.
Proof.
  intros Hu. unfold logical. destruct (List.find (covers a) l) as [b|] eqn:E; [|done].
  apply find_some in E as [Hb%list_elem_of_In Hc]. rewrite Hu in Hc; done.
Qed.

Lemma covered_dec (l : list DebuggerSoftwareBreakpoint) a :
  (exists b, b ∈ l /\ covers a b = true) \/ (forall b, b ∈ l -> covers a b = false).
Proof.
  destruct (List.find (covers a) l) as [b|] eqn:E.
  - left. apply find_some in E as [Hb%list_elem_of_In Hc]. eauto.
  - right. intros b Hb. apply (find_none _ _ E). by apply list_elem_of_In.
Qed.

(** ** The physical bytes after a write *)

Lemma mapM_seqZ_lookup {A} (f : Z -> option A) a n l x :
  mapM f (seqZ a n) = Some l -> a <= x < a + n -> f x = l !! Z.to_nat (x - a).
Proof.
  intros Hl%mapM_Some Hx.
  destruct (Forall2_lookup_l _ _ _ (Z.to_nat (x - a)) x Hl) as (y & Hy & Hf).
  - apply lookup_seqZ. lia.
  - by rewrite Hy, Hf.
Qed.

Lemma translate_NoDup s a n hs :
  no_alias s -> 0 <= a -> a + n <= 2 ^ 32 -> mapM (raw_translate s) (seqZ a n) = Some hs -> NoDup hs.
Proof.
  intros Hal Ha Hn Hm. apply NoDup_alt. intros i j h Hi Hj.
  pose proof (length_mapM _ _ _ Hm) as Hlen. rewrite length_seqZ in Hlen.
  apply lookup_lt_Some in Hi as Hil. apply lookup_lt_Some in Hj as Hjl.
  assert (forall k : nat, (k < length hs)%nat -> raw_translate s (a + Z.of_nat k) = hs !! k) as Hk.
  { intros k Hk. rewrite (mapM_seqZ_lookup _ _ _ _ _ Hm) by lia. f_equal. lia. }
  assert (a + Z.of_nat i = a + Z.of_nat j) as E; [|lia].
  apply (Hal _ _ h); unfold guest_address; try lia; rewrite Hk by lia; done.
Qed.

Lemma raw_byte_store s address src hs a :
  no_alias s -> 0 <= address -> address + Z.of_nat (length src) <= 2 ^ 32 ->
  mapM (raw_translate s) (seqZ address (Z.of_nat (length src))) = Some hs -> guest_address a ->
  raw_byte (with_host (store_bytes (host s) (zip hs src)) s) a =
    if decide (address <= a < address + Z.of_nat (length src))
    then src !! Z.to_nat (a - address) else raw_byte s a.
Proof.
  intros Hal Ha Hb Hm Hg. pose proof (length_mapM _ _ _ Hm) as Hlen. rewrite length_seqZ in Hlen.
  pose proof (translate_NoDup _ _ _ _ Hal Ha Hb Hm) as Hnd.
  unfold raw_byte. change (raw_translate (with_host _ s) a) with (raw_translate s a). cbn [host with_host].
  case_decide as Hin.
  - rewrite (mapM_seqZ_lookup _ _ _ _ _ Hm) by lia.
    pose proof (store_bytes_read (host s) hs src Hnd ltac:(lia)) as Hr.
    rewrite <- list_lookup_fmap. change (host_byte _ <$> hs) with (host_bytes (store_bytes (host s) (zip hs src)) hs).
    by rewrite Hr.
  - destruct (raw_translate s a) as [h|] eqn:E; [|done]. cbn. f_equal.
    apply store_bytes_frame. rewrite fst_zip by lia. intros [i Hi]%list_elem_of_lookup.
    apply lookup_lt_Some in Hi as Hil. apply Hin.
    assert (a = address + Z.of_nat i) as ->; [|lia].
    apply (Hal _ _ h); [done|unfold guest_address; lia|done|].
    rewrite (mapM_seqZ_lookup _ _ _ _ _ Hm) by lia. rewrite <- Hi. f_equal. lia.
Qed.

(** A successful physical write stores exactly the source. *)
Lemma physical_write_bytes H s address src s' :
  no_alias s -> 0 <= address -> src <> [] -> address + Z.of_nat (length src) <= 2 ^ 32 ->
  (forall a, address <= a < address + Z.of_nat (length src) -> is_Some (raw_byte s a)) ->
  DebuggerWritePhysicalMemory H s address src = (0, s') ->
  no_alias s' /\
  forall a, guest_address a -> raw_byte s' a =
    if decide (address <= a < address + Z.of_nat (length src))
    then src !! Z.to_nat (a - address) else raw_byte s a.
Proof.
  intros Hal Ha Hne Hb Hmap Hw.
  assert (is_Some (mapM (raw_translate s) (seqZ address (Z.of_nat (length src))))) as [hs Hhs].
  { apply mapM_is_Some, Forall_forall. intros x Hx%elem_of_seqZ.
    destruct (Hmap x ltac:(lia)) as [y Hy]. cbn. unfold raw_byte in Hy.
    destruct (raw_translate s x); [by eexists|done]. }
  destruct (physical_write_spec H s address src hs Ha Hne Hb Hhs) as (n & Hn & Hs & Hr).
  rewrite Hw in Hs, Hr. cbn [fst snd] in *. destruct Hr as [[_ ->]|?]; [|done].
  pose proof (length_mapM _ _ _ Hhs) as Hlen. rewrite length_seqZ in Hlen.
  rewrite take_ge in Hs by (rewrite length_zip_with; lia). subst s'.
  split; [exact Hal|]. intros a Hg. by apply raw_byte_store.
Qed.

(** ** Overlays *)

Lemma memcpy_length dst doff src soff n :
  0 <= doff -> 0 <= soff -> 0 <= n -> doff + n <= Z.of_nat (length dst) ->
  soff + n <= Z.of_nat (length src) -> length (memcpy dst doff src soff n) = length dst.
Proof.
  intros. unfold memcpy. rewrite !length_app, !length_take, !length_drop. lia.
Qed.

Lemma memcpy_lookup dst doff src soff n (i : nat) :
  0 <= doff -> 0 <= soff -> 0 <= n -> doff + n <= Z.of_nat (length dst) ->
  soff + n <= Z.of_nat (length src) ->
  memcpy dst doff src soff n !! i =
    if decide (doff <= Z.of_nat i < doff + n) then src !! Z.to_nat (Z.of_nat i - doff + soff) else dst !! i.
Proof.
  intros. unfold memcpy. case_decide.
  - rewrite lookup_app_r by (rewrite length_take; lia). rewrite length_take, Nat.min_l by lia.
    rewrite lookup_app_l by (rewrite length_take, length_drop; lia).
    rewrite lookup_take_lt by lia. rewrite lookup_drop. f_equal. lia.
  - destruct (decide (Z.of_nat i < doff)).
    + rewrite lookup_app_l by (rewrite length_take; lia). by rewrite lookup_take_lt by lia.
    + rewrite lookup_app_r by (rewrite length_take; lia). rewrite length_take, Nat.min_l by lia.
      rewrite lookup_app_r by (rewrite length_take, length_drop; lia).
      rewrite length_take, length_drop, lookup_drop. f_equal. lia.
Qed.

(** The overlap of an access and a breakpoint is the set of bytes both cover. *)
Lemma overlap_spec address size b :
  bp_ok b -> 0 <= address -> 0 < size -> address + size <= 2 ^ 32 ->
  match overlap address size b with
  | None => forall a, address <= a < address + size -> covers a b = false
  | Some (f, l) => address <= f /\ bp_address b <= f /\ f < l /\ l <= address + size /\
      l <= bp_address b + bp_kind b /\
      (forall a, address <= a < address + size -> covers a b = true <-> f <= a < l)
  end.
Proof.
  intros (Hk & Hba & Hbe & _) Ha Hs He. assert (2 ^ 32 < U64_MOD) by reflexivity.
  unfold overlap, DebuggerRangesOverlap, covers. rewrite !u64_small by lia.
  destruct (negb _) eqn:E.
  - intros a Ha'. apply negb_true_iff, andb_false_iff in E.
    destruct E as [E|E]; [apply andb_false_iff in E as [E|E]|]; [apply andb_false_iff in E as [E|E]| |]; zb;
      try (destruct Hk; lia); apply andb_false_iff; rewrite ?Z.leb_gt, ?Z.ltb_ge; lia.
  - zb. repeat case_if; zb; do 5 (split; [lia|]); intros a Ha';
      rewrite andb_true_iff, Z.leb_le, Z.ltb_lt; lia.
Qed.

Lemma overlay_spec address bytes data b :
  bp_ok b -> (length (bytes b) = 4)%nat -> data <> [] -> 0 <= address ->
  address + Z.of_nat (length data) <= 2 ^ 32 ->
  length (overlay address bytes data b) = length data /\
  forall i : nat, (i < length data)%nat -> overlay address bytes data b !! i =
    if covers (address + Z.of_nat i) b then byte_of (bytes b) b (address + Z.of_nat i) else data !! i.
Proof.
  intros Hb Hlen Hne Ha He. assert (0 < Z.of_nat (length data)) by (destruct data; [done|cbn [length]; lia]).
  pose proof (overlap_spec address (Z.of_nat (length data)) b Hb Ha ltac:(lia) He) as Ho.
  unfold overlay. destruct (overlap _ _ b) as [[f l]|].
  - destruct Ho as (? & ? & ? & ? & ? & Hc). destruct Hb as (Hk & ? & ?).
    assert (l - bp_address b <= 4) by (destruct Hk; lia).
    split; [apply memcpy_length; lia|]. intros i Hi. rewrite memcpy_lookup by lia.
    specialize (Hc (address + Z.of_nat i) ltac:(lia)). unfold byte_of.
    case_decide.
    + rewrite (proj2 Hc) by lia. f_equal. lia.
    + destruct (covers _ b); [|done]. pose proof (proj1 Hc eq_refl). lia.
  - split; [done|]. intros i Hi. by rewrite Ho by lia.
Qed.

Lemma overlays_spec address bytes l : forall data,
  (forall b, b ∈ l -> bp_ok b /\ (length (bytes b) = 4)%nat) ->
  (forall i j b b' a, l !! i = Some b -> l !! j = Some b' ->
    covers a b = true -> covers a b' = true -> i = j) ->
  data <> [] -> 0 <= address -> address + Z.of_nat (length data) <= 2 ^ 32 ->
  length (foldl (overlay address bytes) data l) = length data /\
  forall i : nat, (i < length data)%nat -> foldl (overlay address bytes) data l !! i =
    match List.find (covers (address + Z.of_nat i)) l with
    | Some b => byte_of (bytes b) b (address + Z.of_nat i)
    | None => data !! i
    end.
Proof.
  induction l as [|b l IH]; intros data Hb Hd Hne Ha He; [done|]. cbn [foldl].
  destruct (Hb b ltac:(by apply elem_of_cons; left)) as [Hbo Hbl].
  destruct (overlay_spec address bytes data b Hbo Hbl Hne Ha He) as [Hlen Hat].
  destruct (IH (overlay address bytes data b)) as [Hlen' Hat'].
  - intros b0 Hb0. apply Hb. by apply elem_of_cons; right.
  - intros i j ? ? ? Hi Hj ? ?. by assert (S i = S j) by (eapply Hd; [exact Hi|exact Hj|done|done]); simplify_eq.
  - intros E. rewrite E in Hlen. by destruct data.
  - done.
  - lia.
  - rewrite Hlen in *. split; [done|]. intros i Hi. rewrite Hat', Hat by lia. cbn [List.find].
    destruct (covers (address + Z.of_nat i) b) eqn:Hc; [|done].
    destruct (List.find _ l) as [b'|] eqn:E; [|done].
    apply find_some in E as [[j Hj]%list_elem_of_In%list_elem_of_lookup Hc'].
    by assert (0%nat = S j) by (eapply Hd; [reflexivity|exact Hj|done|done]).
Qed.

(** ** Logical reads and writes *)

Lemma raw_read_bytes s address size :
  0 <= address -> 0 < size -> address + size <= 2 ^ 32 ->
  Dynarmic_mem_1read s address size true = mapM (raw_byte s) (seqZ address size).
Proof.
  intros Ha Hs He. unfold Dynarmic_mem_1read, GuestAddressRangeIsValid32.
  destruct (size =? 0) eqn:?; zb; [lia|].
  destruct (address <? 2 ^ 32) eqn:?, (size <=? 2 ^ 32 - address) eqn:?; zb; try lia.
  assert (2 ^ 32 < U64_MOD) by reflexivity. cbn [negb orb andb]. rewrite u64_small by lia.
  rewrite mem_read_loop_spec by (intros v; apply raw_fit_range; lia).
  unfold raw_bytes_of. by rewrite raw_chunks_total by lia.
Qed.

Lemma mapM_seqZ_Some {A} (f : Z -> option A) a n l :
  Z.of_nat (length l) = n ->
  (forall i : nat, (i < length l)%nat -> f (a + Z.of_nat i) = l !! i) -> mapM f (seqZ a n) = Some l.
Proof.
  intros Hlen Hf. apply mapM_Some, Forall2_same_length_lookup. rewrite length_seqZ.
  split; [lia|]. intros i x y Hx Hy. apply lookup_seqZ in Hx as [-> _].
  rewrite Hf by (by eapply lookup_lt_Some). done.
Qed.

Lemma covered_mapped s l b a :
  dbg_ok s l -> b ∈ l -> covers a b = true -> is_Some (raw_byte s a) /\ is_Some (byte_of (original b) b a).
Proof.
  intros Hok Hb Hc. rewrite (dbg_planted _ _ Hok b a Hb Hc). destruct (dbg_bp _ _ Hok b Hb) as (Hk & Ha & He & Ho & Ht).
  unfold covers in Hc. zb. unfold byte_of. split; apply lookup_lt_is_Some; destruct Hk; lia.
Qed.

Lemma debugger_read_logical d address size :
  dbg_ok (dvm d) (debuggerSoftwareBreakpoints d) -> 0 <= address -> 0 < size -> address + size <= 2 ^ 32 ->
  Dynarmic_debugger_mem_read d address size true =
    mapM (logical (dvm d) (debuggerSoftwareBreakpoints d)) (seqZ address size).
Proof.
  intros Hok Ha Hs He. unfold Dynarmic_debugger_mem_read, DebuggerMemoryRangeIsValid.
  destruct (address <? 2 ^ 32) eqn:?, (size <=? 2 ^ 32 - address) eqn:?; zb; try lia.
  cbn [negb orb andb]. rewrite andb_false_r. rewrite raw_read_bytes by done.
  set (l := debuggerSoftwareBreakpoints d) in *. set (s := dvm d) in *.
  destruct (mapM (raw_byte s) (seqZ address size)) as [bytes|] eqn:E.
  - symmetry. pose proof (length_mapM _ _ _ E) as Hlen. rewrite length_seqZ in Hlen.
    destruct (overlays_spec address original l bytes) as [Hl Hat].
    + intros b Hb. pose proof (dbg_bp _ _ Hok b Hb) as Hbo. split; [done|]. apply Hbo.
    + apply Hok.
    + intros ->. cbn in Hlen. lia.
    + done.
    + lia.
    + apply mapM_seqZ_Some; [lia|]. rewrite Hl. intros i Hi. rewrite Hat by done. unfold logical.
      destruct (List.find _ l); [done|]. rewrite (mapM_seqZ_lookup _ _ _ _ _ E) by lia. f_equal. lia.
  - symmetry. apply mapM_None, Exists_exists in E as (a & Hin & Hn).
    apply (mapM_None_elem _ _ a Hin). rewrite logical_uncovered; [done|]. intros b Hb.
    destruct (covers a b) eqn:Hc; [|done]. destruct (covered_mapped s l b a Hok Hb Hc) as [[? ?] _]. congruence.
Qed.

Lemma range_is_mapped s address size a :
  0 <= address -> address + size <= 2 ^ 32 -> DebuggerMemoryRangeIsMapped s address size = true ->
  address <= a < address + size -> is_Some (raw_byte s a).
Proof.
  intros Ha He Hm Hin. assert (2 ^ 32 < U64_MOD) by reflexivity. unfold DebuggerMemoryRangeIsMapped in Hm.
  rewrite u64_small in Hm by lia. rewrite forallb_forall in Hm.
  specialize (Hm (page_base a)). rewrite (get_memory_page_base s (page_base a) a) in Hm by (reflexivity || lia).
  unfold raw_byte, raw_translate. destruct (get_memory_page s a =? 0) eqn:E; [|by eexists].
  exfalso. cut (negb true = true); [done|]. apply Hm, list_elem_of_In, elem_of_page_addrs.
  pose proof (page_base_le a ltac:(lia)). pose proof (page_base_div a ltac:(lia)) as Hd.
  pose proof (page_base_div address ltac:(lia)) as Hd'.
  assert (address / DYN_PAGE_SIZE <= a / DYN_PAGE_SIZE) by (apply Z.div_le_mono; unfold DYN_PAGE_SIZE; lia).
  split; [unfold DYN_PAGE_SIZE in *; lia|].
  rewrite Hd, Hd', <- Z.mul_sub_distr_l, Z.mul_comm. apply Z.mod_mul. done.
Qed.

Lemma rewrite_covers address src b a : covers a (rewrite_original address src b) = covers a b.
Proof. unfold rewrite_original. by destruct (overlap _ _ b) as [[? ?]|]. Qed.

Lemma find_rewrite address src a (l : list DebuggerSoftwareBreakpoint) :
  List.find (covers a) (rewrite_original address src <$> l) =
    rewrite_original address src <$> List.find (covers a) l.
Proof.
  induction l as [|b l IH]; [done|]. rewrite fmap_cons. cbn [List.find]. rewrite rewrite_covers.
  by destruct (covers a b).
Qed.

(** The bytes beneath a breakpoint follow the write. *)
Lemma rewrite_original_spec address src b :
  bp_ok b -> src <> [] -> 0 <= address -> address + Z.of_nat (length src) <= 2 ^ 32 ->
  let b' := rewrite_original address src b in
  bp_ok b' /\ bp_address b' = bp_address b /\ bp_kind b' = bp_kind b /\ trap b' = trap b /\
  forall a, covers a b = true -> byte_of (original b') b' a =
    if decide (address <= a < address + Z.of_nat (length src))
    then src !! Z.to_nat (a - address) else byte_of (original b) b a.
Proof.
  intros Hb Hne Ha He. assert (0 < Z.of_nat (length src)) by (destruct src; [done|cbn [length]; lia]).
  pose proof (overlap_spec address (Z.of_nat (length src)) b Hb Ha ltac:(lia) He) as Ho.
  cbv zeta. unfold rewrite_original. destruct (overlap _ _ b) as [[f l]|].
  - destruct Ho as (? & ? & ? & ? & ? & Hc). destruct Hb as (Hk & ? & ? & Hlo & Hlt).
    assert (l - bp_address b <= 4) by (destruct Hk; lia). unfold bp_ok, byte_of. cbn.
    rewrite memcpy_length by lia. split; [done|]. do 3 (split; [done|]). intros a Hca.
    pose proof Hca as Hca'. unfold covers in Hca'. zb. rewrite memcpy_lookup by lia.
    destruct (decide (f - bp_address b <= _ < _)) as [Hd|Hd]; case_decide as Hin; try lia.
    + f_equal. lia.
    + specialize (Hc a Hin). apply Hc in Hca. lia.
    + done.
  - do 4 (split; [done|]). intros a Hca. case_decide as Hin; [|done]. by rewrite Ho in Hca.
Qed.

(** The physical bytes of a write carry the trap wherever one is planted. *)
Lemma overlay_keeps_traps s l address src b a :
  dbg_ok s l -> src <> [] -> 0 <= address -> address + Z.of_nat (length src) <= 2 ^ 32 ->
  b ∈ l -> covers a b = true -> address <= a < address + Z.of_nat (length src) ->
  foldl (overlay address trap) src l !! Z.to_nat (a - address) = byte_of (trap b) b a.
Proof.
  intros Hok Hne Ha He Hb Hc Hin.
  destruct (overlays_spec address trap l src) as [_ Hat]; [|apply Hok|done|done|lia|].
  { intros b' Hb'. pose proof (dbg_bp _ _ Hok b' Hb') as Hbo. split; [done|]. apply Hbo. }
  rewrite Hat by lia. replace (address + Z.of_nat (Z.to_nat (a - address))) with a by lia.
  destruct (List.find (covers a) l) as [b1|] eqn:E.
  - apply find_some in E as [[j Hj]%list_elem_of_In%list_elem_of_lookup Hc'].
    apply list_elem_of_lookup in Hb as [i Hi].
    assert (i = j) as -> by (eapply (dbg_disjoint _ _ Hok); eauto). by simplify_eq.
  - apply find_none with (x := b) in E; [congruence|by apply list_elem_of_In].
Qed.

Lemma debugger_write_logical H d address src d' :
  dbg_ok (dvm d) (debuggerSoftwareBreakpoints d) -> 0 <= address -> src <> [] ->
  address + Z.of_nat (length src) <= 2 ^ 32 ->
  Dynarmic_debugger_mem_write H d address (Z.of_nat (length src)) (Some src) = (0, d') ->
  dbg_ok (dvm d') (debuggerSoftwareBreakpoints d') /\
  (forall a, guest_address a -> logical (dvm d') (debuggerSoftwareBreakpoints d') a =
    if decide (address <= a < address + Z.of_nat (length src))
    then src !! Z.to_nat (a - address) else logical (dvm d) (debuggerSoftwareBreakpoints d) a) /\
  bp_address <$> debuggerSoftwareBreakpoints d' = bp_address <$> debuggerSoftwareBreakpoints d.
Proof.
  intros Hok Ha Hne He. unfold Dynarmic_debugger_mem_write.
  set (l := debuggerSoftwareBreakpoints d) in *. set (s := dvm d) in *.
  destruct (negb _ || _ || _)%bool eqn:Hg; [done|].
  apply orb_false_iff in Hg as [_ Hmap]. apply negb_false_iff in Hmap.
  assert (0 < Z.of_nat (length src)) as Hpos by (destruct src; [done|cbn [length]; lia]).
  destruct (_ =? 0) eqn:?; zb; [lia|]. change (default [] (Some src)) with src.
  rewrite Nat2Z.id, firstn_all.
  destruct (overlays_spec address trap l src) as [Hl Hat]; [|apply Hok|done|done|lia|].
  { intros b Hb. pose proof (dbg_bp _ _ Hok b Hb) as Hbo. split; [done|]. apply Hbo. }
  set (physical := foldl (overlay address trap) src l) in *.
  destruct (DebuggerWritePhysicalMemory H s address physical) as [r s'] eqn:Hw.
  destruct (negb (r =? 0)) eqn:Hr; [done|]. zb. subst r. intros [= <-].
  destruct (physical_write_bytes H s address physical s') as [Hal Hbytes];
    [apply Hok|done| |lia| |done|].
  { intros E. rewrite E in Hl. cbn in Hl. lia. }
  { rewrite Hl. intros a Hin. eapply range_is_mapped; eauto. }
  rewrite Hl in Hbytes.
  change (dvm (with_breakpoints _ _)) with (InvalidateAllGuestJits (u32 address) (Z.of_nat (length src)) s').
  cbn [debuggerSoftwareBreakpoints with_breakpoints].
  assert (forall a, raw_byte (InvalidateAllGuestJits (u32 address) (Z.of_nat (length src)) s') a = raw_byte s' a)
    as Hj by reflexivity.
  assert (forall b, b ∈ l -> bp_ok b) as Hbo by apply Hok.
  assert (forall b a, b ∈ l -> covers a b = true -> guest_address a) as Hga.
  { intros b a Hb Hc. destruct (Hbo b Hb) as (Hk & ? & ? & _). unfold covers in Hc. zb. unfold guest_address. lia. }
  split; [split|split].
  - intros b (b0 & -> & Hb0)%list_elem_of_fmap. by apply rewrite_original_spec; auto.
  - intros i j b b' a Hi Hj'. apply list_lookup_fmap_Some in Hi as (b0 & -> & Hi), Hj' as (b0' & -> & Hj').
    rewrite !rewrite_covers. by apply (dbg_disjoint _ _ Hok).
  - intros b a (b0 & -> & Hb0)%list_elem_of_fmap. rewrite rewrite_covers. intros Hc.
    destruct (rewrite_original_spec address src b0 (Hbo b0 Hb0) Hne Ha He) as (_ & Ead & _ & Etr & _).
    unfold byte_of. rewrite Ead, Etr, Hj. rewrite Hbytes by eauto. case_decide as Hin.
    + exact (overlay_keeps_traps s l address src b0 a Hok Hne Ha He Hb0 Hc Hin).
    + by apply (dbg_planted _ _ Hok).
  - exact Hal.
  - intros a Hg. unfold logical. rewrite find_rewrite.
    destruct (List.find (covers a) l) as [b|] eqn:E; cbn.
    + apply find_some in E as [Hb%list_elem_of_In Hc].
      by apply rewrite_original_spec; auto.
    + rewrite Hj, Hbytes by done. case_decide; [|done]. rewrite Hat by lia.
      replace (address + Z.of_nat (Z.to_nat (a - address))) with a by lia. by rewrite E.
  - rewrite <- list_fmap_compose. apply list_fmap_ext. intros i b Hi. cbn.
    apply list_elem_of_lookup_2 in Hi. by apply rewrite_original_spec; auto.
Qed.

(** ** Planting and removing *)

Lemma dbg_ok_jits s l address size : dbg_ok s l -> dbg_ok (InvalidateAllGuestJits address size s) l.
Proof. intros []; by split. Qed.

Lemma covers_guest b a : bp_ok b -> covers a b = true -> guest_address a.
Proof. intros (Hk & ? & ? & _) Hc. unfold covers in Hc. zb. unfold guest_address. lia. Qed.

(** Registries that cover the same bytes with the same contents show the same
    logical memory. *)
Lemma logical_covered_ok s l b a :
  dbg_ok s l -> b ∈ l -> covers a b = true -> logical s l a = byte_of (original b) b a.
Proof. intros Hok. apply logical_covered, Hok. Qed.

(** Taking one record out of the registry. *)
Lemma others_uncovered s l1 b l2 b' a :
  dbg_ok s (l1 ++ b :: l2) -> b' ∈ l1 ++ l2 -> covers a b' = true -> covers a b = false.
Proof.
  intros Hok Hb' Hc. destruct (covers a b) eqn:Hcb; [|done]. exfalso.
  assert ((l1 ++ b :: l2) !! length l1 = Some b) as Hi by (by apply list_lookup_middle).
  apply elem_of_app in Hb' as [[j Hj]%list_elem_of_lookup|[j Hj]%list_elem_of_lookup].
  - assert ((l1 ++ b :: l2) !! j = Some b') as Hj' by (by apply lookup_app_l_Some).
    pose proof (dbg_disjoint _ _ Hok _ _ _ _ _ Hj' Hi Hc Hcb) as ->. apply lookup_lt_Some in Hj. lia.
  - assert ((l1 ++ b :: l2) !! (length l1 + S j)%nat = Some b') as Hj'
      by (rewrite lookup_app_r by lia; replace (length l1 + S j - length l1)%nat with (S j) by lia; done).
    pose proof (dbg_disjoint _ _ Hok _ _ _ _ _ Hj' Hi Hc Hcb). lia.
Qed.

Lemma disjoint_remove s l1 b l2 i j b1 b2 a :
  dbg_ok s (l1 ++ b :: l2) -> (l1 ++ l2) !! i = Some b1 -> (l1 ++ l2) !! j = Some b2 ->
  covers a b1 = true -> covers a b2 = true -> i = j.
Proof.
  intros Hok Hi Hj H1 H2.
  assert (forall k x, (l1 ++ l2) !! k = Some x ->
    (l1 ++ b :: l2) !! (if decide (k < length l1)%nat then k else S k) = Some x) as Hmap.
  { intros k x Hx. case_decide.
    - rewrite lookup_app_l in Hx by done. by apply lookup_app_l_Some.
    - rewrite lookup_app_r in Hx by lia. rewrite lookup_app_r by lia.
      by replace (S k - length l1)%nat with (S (k - length l1)) by lia. }
  pose proof (dbg_disjoint _ _ Hok _ _ _ _ _ (Hmap _ _ Hi) (Hmap _ _ Hj) H1 H2).
  repeat case_decide; lia.
Qed.

Lemma restore_spec H s s' l1 b l2 :
  dbg_ok s (l1 ++ b :: l2) -> restore_breakpoint H s b = (0, s') ->
  dbg_ok s' (l1 ++ l2) /\
  forall a, guest_address a -> logical s' (l1 ++ l2) a = logical s (l1 ++ b :: l2) a.
Proof.
  intros Hok Hr. assert (b ∈ l1 ++ b :: l2) as Hb by set_solver.
  pose proof (dbg_bp _ _ Hok b Hb) as (Hk & Hba & Hbe & Hlo & Hlt).
  unfold restore_breakpoint in Hr.
  assert (Z.of_nat (length (take (Z.to_nat (bp_kind b)) (original b))) = bp_kind b) as Hlen
    by (rewrite length_take; destruct Hk; lia).
  assert (forall a, bp_address b <= a < bp_address b + bp_kind b -> covers a b = true) as Hcov
    by (intros a ?; unfold covers; apply andb_true_iff; rewrite Z.leb_le, Z.ltb_lt; lia).
  destruct (physical_write_bytes H s (bp_address b) (take (Z.to_nat (bp_kind b)) (original b)) s')
    as [Hal Hbytes]; [apply Hok|done| |lia| |done|].
  { intros E. rewrite E in Hlen. cbn in Hlen. lia. }
  { rewrite Hlen. intros a Ha. eapply covered_mapped; eauto. }
  rewrite Hlen in Hbytes.
  assert (forall b' a, b' ∈ l1 ++ l2 -> covers a b' = true -> raw_byte s' a = raw_byte s a) as Hsame.
  { intros b' a Hb' Hc. rewrite Hbytes by (eapply covers_guest; [|exact Hc]; apply (dbg_bp _ _ Hok); set_solver).
    case_decide as Hin; [|done]. pose proof (others_uncovered _ _ _ _ _ _ Hok Hb' Hc) as Hother'. by rewrite (Hcov a Hin) in Hother'. }
  assert (dbg_ok s' (l1 ++ l2)) as Hok'.
  { split; [| |intros b' a Hb' Hc|exact Hal].
    - intros b' Hb'. apply (dbg_bp _ _ Hok). set_solver.
    - intros i j b1 b2 a. by apply disjoint_remove with (s := s) (b := b).
    - rewrite (Hsame b' a Hb' Hc). apply (dbg_planted _ _ Hok); [set_solver|done]. }
  split; [done|]. intros a Hg. destruct (covered_dec (l1 ++ l2) a) as [(b' & Hb' & Hc)|Hnone].
  - rewrite (logical_covered_ok _ _ b' a Hok' Hb' Hc).
    symmetry. apply logical_covered_ok; [done|set_solver|done].
  - rewrite (logical_uncovered s') by done. rewrite Hbytes by done. case_decide as Hin.
    + rewrite (logical_covered_ok _ _ b a Hok Hb) by auto.
      rewrite lookup_take_lt by lia. done.
    + symmetry. apply logical_uncovered. intros b' [Hb'|[->|Hb']%elem_of_cons]%elem_of_app.
      * apply Hnone. set_solver.
      * unfold covers. apply andb_false_iff. rewrite Z.leb_gt, Z.ltb_ge. lia.
      * apply Hnone. set_solver.
Qed.

Lemma land_not_one x : 0 <= x < 2 ^ 32 -> Z.land x (u32_not 1) = 2 * (x / 2).
Proof.
  intros Hx. change (u32_not 1) with (Z.ldiff (Z.ones 32) (Z.ones 1)).
  assert (Z.land x (Z.ldiff (Z.ones 32) (Z.ones 1)) = Z.ldiff (Z.land x (Z.ones 32)) (Z.ones 1)) as ->.
  { apply Z.bits_inj'. intros i Hi.
    rewrite !Z.land_spec, !Z.ldiff_spec, !Z.land_spec. apply andb_assoc. }
  rewrite Z.land_ones, Z.ldiff_ones_r, Z.mod_small by lia.
  rewrite Z.shiftl_mul_pow2, Z.shiftr_div_pow2 by lia. change (2 ^ 1) with 2. lia.
Qed.

(** The accepted breakpoint addresses lie inside the guest's address space. *)
Lemma normalized_range address kind :
  0 <= address -> kind = 2 \/ kind = 4 ->
  let ga := NormalizeDebuggerBreakpointAddress address kind in
  ga <> UINT32_MAX -> (kind = 4 -> has_flag ga 3 = false) -> 0 <= ga /\ ga + kind <= 2 ^ 32.
Proof.
  intros Ha Hk. cbv zeta. unfold NormalizeDebuggerBreakpointAddress, UINT32_MAX, U32_MOD.
  destruct (2 ^ 32 - 1 <? address) eqn:?; zb; [done|]. destruct (kind =? 2) eqn:?; zb.
  - intros _ _. rewrite land_not_one by lia. pose proof (Z.div_mod address 2 ltac:(lia)).
    pose proof (Z.mod_pos_bound address 2 ltac:(lia)). assert (2 ^ 32 = 2 * 2 ^ 31) by reflexivity. lia.
  - intros _ Hf. assert (kind = 4) as E by (destruct Hk; done). specialize (Hf E).
    unfold has_flag in Hf. zb. change 3 with (Z.ones 2) in Hf. rewrite Z.land_ones in Hf by lia.
    change (2 ^ 2) with 4 in Hf. pose proof (Z.div_mod address 4 ltac:(lia)).
    assert (2 ^ 32 = 4 * 2 ^ 30) by reflexivity. lia.
Qed.

Lemma scan_none ga kind l b a :
  0 <= ga -> 0 < kind -> ga + kind <= 2 ^ 32 -> bp_ok b ->
  breakpoint_scan ga kind l = None -> b ∈ l -> ga <= a < ga + kind -> covers a b = false.
Proof.
  intros Hg Hk He (Hbk & ? & ? & _) Hs Hb Ha. assert (2 ^ 32 < U64_MOD) by reflexivity.
  induction l as [|b' l IH]; [by apply not_elem_of_nil in Hb|]. cbn in Hs.
  destruct (_ && _)%bool; [done|]. destruct (DebuggerRangesOverlap _ _ _ _) eqn:E; [done|].
  apply elem_of_cons in Hb as [<-|Hb]; [|auto]. clear IH.
  unfold DebuggerRangesOverlap in E. rewrite !u64_small in E by lia. unfold covers.
  apply andb_false_iff in E as [E|E]; [apply andb_false_iff in E as [E|E]|];
    [apply andb_false_iff in E as [E|E]| |]; zb; try (destruct Hbk; lia);
    apply andb_false_iff; rewrite Z.leb_gt, Z.ltb_ge; lia.
Qed.

(** A planted record: the bytes it replaced and the trap now in their place. *)
Lemma plant_spec s s' l b :
  dbg_ok s l -> bp_ok b -> (forall b' a, b' ∈ l -> covers a b = true -> covers a b' = false) ->
  no_alias s' ->
  (forall a, guest_address a -> raw_byte s' a = if covers a b then byte_of (trap b) b a else raw_byte s a) ->
  (forall a, covers a b = true -> raw_byte s a = byte_of (original b) b a) ->
  dbg_ok s' (l ++ [b]) /\ forall a, guest_address a -> logical s' (l ++ [b]) a = logical s l a.
Proof.
  intros Hok Hb Hdis Hal Hbytes Horig.
  assert (forall b', b' ∈ l ++ [b] -> bp_ok b') as Hbp.
  { intros b' [Hb'| ->%list_elem_of_singleton]%elem_of_app; [by apply (dbg_bp _ _ Hok)|done]. }
  assert (dbg_ok s' (l ++ [b])) as Hok'.
  { split; [done| |intros b' a Hin Hc|done].
    - intros i j b1 b2 a Hi Hj H1 H2.
      apply lookup_snoc_Some in Hi as [[Hil Hi]|[-> <-]], Hj as [[Hjl Hj]|[-> <-]].
      + by eapply (dbg_disjoint _ _ Hok).
      + apply list_elem_of_lookup_2 in Hi. by rewrite (Hdis b1 a Hi H2) in H1.
      + apply list_elem_of_lookup_2 in Hj. by rewrite (Hdis b2 a Hj H1) in H2.
      + done.
    - rewrite Hbytes by (eapply covers_guest; [by apply Hbp|done]).
      apply elem_of_app in Hin as [Hin| ->%list_elem_of_singleton]; [|by rewrite Hc].
      destruct (covers a b) eqn:E; [by rewrite (Hdis b' a Hin E) in Hc|]. by apply (dbg_planted _ _ Hok). }
  split; [done|]. intros a Hg. destruct (covered_dec l a) as [(b' & Hb' & Hc)|Hnone].
  - rewrite (logical_covered_ok _ _ b' a Hok Hb' Hc). apply logical_covered_ok; [done|set_solver|done].
  - rewrite (logical_uncovered s l a Hnone). destruct (covers a b) eqn:E.
    + rewrite Horig by done. apply logical_covered_ok; [done|set_solver|done].
    + rewrite logical_uncovered; [by rewrite Hbytes, E|].
      intros b' [?| ->%list_elem_of_singleton]%elem_of_app; auto.
Qed.

Lemma array4_prefix bytes a b :
  (length bytes <= 4)%nat -> Z.of_nat (length bytes) = bp_kind b -> covers a b = true ->
  byte_of (array4 bytes) b a = bytes !! Z.to_nat (a - bp_address b).
Proof.
  intros Hl Hk Hc. unfold byte_of, array4. unfold covers in Hc. zb. apply lookup_app_l. lia.
Qed.

Lemma instruction_length kind i : kind = 2 \/ kind = 4 -> Z.of_nat (length (instruction_bytes kind i)) = kind.
Proof. by intros [-> | ->]. Qed.

Lemma set_breakpoint_spec H d address kind d' :
  dbg_ok (dvm d) (debuggerSoftwareBreakpoints d) -> 0 <= address ->
  Dynarmic_debugger_set_breakpoint H d address kind = (true, d') ->
  dbg_ok (dvm d') (debuggerSoftwareBreakpoints d') /\
  (forall a, guest_address a -> logical (dvm d') (debuggerSoftwareBreakpoints d') a =
     logical (dvm d) (debuggerSoftwareBreakpoints d) a) /\
  exists b, b ∈ debuggerSoftwareBreakpoints d' /\
    bp_address b = NormalizeDebuggerBreakpointAddress address kind /\ bp_kind b = kind.
Proof.
  intros Hok Ha. unfold Dynarmic_debugger_set_breakpoint.
  destruct (negb _ && _)%bool eqn:Hk; [done|].
  assert (kind = 2 \/ kind = 4) as Hkind by (apply andb_false_iff in Hk as [?|?]; zb; auto).
  set (ga := NormalizeDebuggerBreakpointAddress address kind).
  destruct (_ || _)%bool eqn:Hg; [done|]. apply orb_false_iff in Hg as [Hmax Halign]. zb.
  destruct (normalized_range address kind Ha Hkind Hmax) as [Hg0 Hge].
  { intros ->. by apply andb_false_iff in Halign as [?|?]. }
  fold ga in Hg0, Hge. destruct (existsb _ _); [done|].
  destruct (breakpoint_scan _ _ _) as [r|] eqn:Hscan.
  { intros [= -> <-]. split; [done|]. split; [done|]. clear -Hscan.
    induction (debuggerSoftwareBreakpoints d) as [|b l IH]; [done|]. cbn in Hscan.
    destruct (_ && _)%bool eqn:E; [zb; exists b; split; [set_solver|done]|].
    destruct (DebuggerRangesOverlap _ _ _ _); [done|]. destruct (IH Hscan) as (b' & ? & ?).
    exists b'. split; [set_solver|done]. }
  rewrite raw_read_bytes by (destruct Hkind; lia).
  destruct (mapM (raw_byte (dvm d)) (seqZ ga kind)) as [bytes|] eqn:Hread; [|done].
  pose proof (length_mapM _ _ _ Hread) as Hlen. rewrite length_seqZ in Hlen.
  set (ins := instruction_bytes kind _). pose proof (instruction_length kind (trap_instruction (kind =? 2)) Hkind) as Hins.
  fold ins in Hins. destruct (DebuggerWritePhysicalMemory _ _ _ _) as [r s'] eqn:Hw.
  destruct (negb (r =? 0)) eqn:Hr; [done|]. zb. subst r. intros [= <-].
  cbn [dvm debuggerSoftwareBreakpoints with_breakpoints with_dvm].
  set (b := {| bp_address := ga; bp_kind := kind; original := array4 bytes; trap := array4 ins |}).
  assert (forall a, covers a b = true <-> ga <= a < ga + kind) as Hcov
    by (intros a; unfold covers; cbn; rewrite andb_true_iff, Z.leb_le, Z.ltb_lt; lia).
  destruct (physical_write_bytes H (dvm d) ga ins s') as [Hal Hbytes];
    [apply Hok|done|intros E; rewrite E in Hins; cbn in Hins; lia|lia| |done|].
  { rewrite Hins. intros a Hin. rewrite (mapM_seqZ_lookup _ _ _ _ _ Hread) by lia.
    apply lookup_lt_is_Some. lia. }
  rewrite Hins in Hbytes.
  assert (bp_ok b) as Hb.
  { unfold bp_ok, b. cbn. unfold array4. rewrite !length_app, !length_replicate.
    split; [done|]. destruct Hkind; lia. }
  destruct (plant_spec (dvm d) s' (debuggerSoftwareBreakpoints d) b Hok Hb) as [Hok' Hlog].
  - intros b' a Hb' Hc%Hcov. eapply scan_none; [| | | |exact Hscan|done|exact Hc]; [done|lia|done|].
    by apply (dbg_bp _ _ Hok).
  - exact Hal.
  - intros a Hga. rewrite Hbytes by done. case_decide as Hin.
    + rewrite (proj2 (Hcov a) Hin). symmetry. apply array4_prefix; [lia|done|by apply Hcov].
    + destruct (covers a b) eqn:E; [|done]. by apply Hcov in E.
  - intros a Hc. change (original b) with (array4 bytes).
    rewrite array4_prefix by (cbn [bp_kind b]; (lia || done)).
    apply Hcov in Hc. exact (mapM_seqZ_lookup _ _ _ _ _ Hread Hc).
  - split; [by apply dbg_ok_jits|]. split; [exact Hlog|]. exists b. split; [set_solver|done].
Qed.

Lemma delete_breakpoint_spec H d address kind d' :
  dbg_ok (dvm d) (debuggerSoftwareBreakpoints d) ->
  Dynarmic_debugger_delete_breakpoint H d address kind = (true, d') ->
  dbg_ok (dvm d') (debuggerSoftwareBreakpoints d') /\
  (forall a, guest_address a -> logical (dvm d') (debuggerSoftwareBreakpoints d') a =
     logical (dvm d) (debuggerSoftwareBreakpoints d) a) /\
  Dynarmic_debugger_has_breakpoint d' address = false.
Proof.
  intros Hok. unfold Dynarmic_debugger_delete_breakpoint, Dynarmic_debugger_has_breakpoint.
  destruct (UINT32_MAX <? address); [done|]. set (ga := Z.land address (u32_not 1)).
  set (l := debuggerSoftwareBreakpoints d) in *.
  destruct (list_find _ l) as [[i b]|] eqn:Hf.
  - apply list_find_Some in Hf as (Hi & Hb & _).
    destruct (restore_breakpoint H (dvm d) b) as [r s'] eqn:Hr.
    destruct (negb (r =? 0)) eqn:E; [done|]. zb. subst r. intros [= <-].
    cbn [dvm debuggerSoftwareBreakpoints with_breakpoints with_dvm].
    pose proof (take_drop_middle l i b Hi) as El. pose proof Hok as Hok2. rewrite <- El in Hok2.
    destruct (restore_spec H _ s' _ _ _ Hok2 Hr) as [Hok' Hlog]. rewrite El in Hlog. clear Hok2.
    rewrite delete_take_drop.
    split; [by apply dbg_ok_jits|]. split; [exact Hlog|].
    apply not_true_is_false. intros (b' & Hb' & Ea)%existsb_exists. zb.
    apply list_elem_of_In in Hb'.
    assert (forall x, bp_ok x -> covers (bp_address x) x = true) as Hself.
    { intros x (Hk & _). unfold covers. apply andb_true_iff. rewrite Z.leb_le, Z.ltb_lt. destruct Hk; lia. }
    assert (b' ∈ l) as Hin.
    { rewrite <- El. set_solver. }
    pose proof (Hself b (dbg_bp _ _ Hok b (list_elem_of_lookup_2 _ _ _ Hi))) as Hcb.
    pose proof (Hself b' (dbg_bp _ _ Hok b' Hin)) as Hcb'. rewrite Ea in Hcb'. rewrite Hb in Hcb.
    apply elem_of_app in Hb' as [[j Hj]%list_elem_of_lookup|[j Hj]%list_elem_of_lookup].
    + apply lookup_take_Some in Hj as [Hj Hlt].
      pose proof (dbg_disjoint _ _ Hok _ _ _ _ _ Hi Hj Hcb Hcb'). lia.
    + rewrite lookup_drop in Hj.
      pose proof (dbg_disjoint _ _ Hok _ _ _ _ _ Hi Hj Hcb Hcb'). lia.
  - intros [= <-]. split; [done|]. split; [done|]. fold l.
    apply not_true_is_false. intros (b & Hb & Ea)%existsb_exists. zb.
    apply list_find_None in Hf. rewrite Forall_forall in Hf. by apply (Hf b); [apply list_elem_of_In|].
Qed.

Lemma remove_loop_spec H l : forall s s',
  dbg_ok s l -> remove_loop H s l = ([], s') ->
  dbg_ok s' [] /\ forall a, guest_address a -> raw_byte s' a = logical s l a.
Proof.
  induction l as [|b l IH]; intros s s' Hok Hr; cbn [remove_loop] in Hr.
  { by simplify_eq. }
  destruct (restore_breakpoint H s b) as [r s1] eqn:Hb.
  destruct (negb (r =? 0)) eqn:E; [by destruct (remove_loop H s1 l); simplify_eq|]. zb. subst r.
  destruct (restore_spec H s s1 [] b l Hok Hb) as [Hok1 Hlog].
  apply (dbg_ok_jits _ _ (bp_address b) (bp_kind b)) in Hok1.
  destruct (IH _ _ Hok1 Hr) as [Hok' Hraw]. split; [done|]. intros a Hg.
  rewrite Hraw by done. exact (Hlog a Hg).
Qed.

(** A fresh tracepoint that fires puts its bytes back and replays them. *)
Lemma tracepoint_roundtrip H d address d1 pc d2 :
  no_alias (dvm d) -> 0 <= address ->
  Dynarmic_guest_tracepoint_set H d address = (true, d1) ->
  guestSoftwareTracepoints d1 <> guestSoftwareTracepoints d ->
  ConsumeGuestSoftwareTracepoint H d1 address = (Some pc, d2) ->
  pc = Z.land address (u32_not 1) /\ debuggerSoftwareBreakpoints d2 = debuggerSoftwareBreakpoints d /\
  forall a, guest_address a -> raw_byte (dvm d2) a = raw_byte (dvm d) a.
Proof.
  intros Hal Ha. unfold Dynarmic_guest_tracepoint_set. destruct (UINT32_MAX <? address) eqn:Hmax; [done|]. zb.
  set (ga := Z.land address (u32_not 1)). set (kind := if has_flag address 1 then 2 else 4).
  assert (kind = 2 \/ kind = 4) as Hk by (unfold kind; case_if; auto).
  assert (0 <= ga) as Hg0 by (unfold ga; apply Z.land_nonneg; by left).
  destruct (List.find _ _) as [t|] eqn:Hf; [by intros [= _ <-] ?|].
  destruct (existsb _ _); [done|]. destruct (Dynarmic_mem_1read _ _ _ _) as [bytes|] eqn:Hread; [|done].
  assert (ga + kind <= 2 ^ 32) as He.
  { unfold Dynarmic_mem_1read in Hread. destruct (kind =? 0) eqn:?; zb; [lia|]. cbn [negb orb] in Hread.
    unfold GuestAddressRangeIsValid32 in Hread.
    destruct (ga <? 2 ^ 32) eqn:?, (kind <=? 2 ^ 32 - ga) eqn:?; zb; try done. lia. }
  rewrite raw_read_bytes in Hread by lia.
  pose proof (length_mapM _ _ _ Hread) as Hlen. rewrite length_seqZ in Hlen.
  set (ins := instruction_bytes kind _). pose proof (instruction_length kind (trap_instruction (has_flag address 1)) Hk) as Hins.
  fold ins in Hins. destruct (DebuggerWritePhysicalMemory H (dvm d) ga ins) as [r s'] eqn:Hw.
  destruct (negb (r =? 0)) eqn:Hr; [done|]. zb. subst r. intros [= <-] _.
  destruct (physical_write_bytes H (dvm d) ga ins s') as [Hal' Hbytes];
    [done|done|intros E; rewrite E in Hins; cbn in Hins; lia|lia| |done|].
  { rewrite Hins. intros a Hin. rewrite (mapM_seqZ_lookup _ _ _ _ _ Hread) by lia. apply lookup_lt_is_Some. lia. }
  unfold ConsumeGuestSoftwareTracepoint. fold ga.
  cbn [guestSoftwareTracepoints dvm with_tracepoints with_dvm].
  set (t := {| tp_address := ga; tp_kind := kind; tp_original := array4 bytes; fired := false |}).
  assert (list_find (fun t => tp_address t = ga) (guestSoftwareTracepoints d ++ [t]) =
    Some (length (guestSoftwareTracepoints d), t)) as ->.
  { apply list_find_Some. split; [by rewrite lookup_app_r, Nat.sub_diag by lia|]. split; [done|].
    intros j y Hj Hlt. rewrite lookup_app_l in Hj by done. apply list_elem_of_lookup_2, list_elem_of_In in Hj.
    pose proof (find_none _ _ Hf y Hj) as E. cbn in E. zb. done. }
  cbn [fired tp_kind tp_original t]. assert (take (Z.to_nat kind) (array4 bytes) = bytes) as ->.
  { unfold array4. rewrite take_app_le by lia. apply take_ge. lia. }
  set (s1 := InvalidateAllGuestJits ga kind s').
  destruct (DebuggerWritePhysicalMemory H s1 ga bytes) as [r s2] eqn:Hw2.
  destruct (negb (r =? 0)) eqn:Hr; [done|]. zb. subst r. intros [= <- <-]. split; [done|]. split; [done|].
  destruct (physical_write_bytes H s1 ga bytes s2) as [_ Hback];
    [exact Hal'|done|intros ->; cbn in Hlen; lia|lia| |done|].
  { intros a Hin. change (raw_byte s1 a) with (raw_byte s' a). rewrite Hbytes by (unfold guest_address; lia).
    case_decide; [apply lookup_lt_is_Some; lia|lia]. }
  intros a Hga. cbn [dvm with_tracepoints with_dvm]. change (raw_byte (InvalidateAllGuestJits ga kind s2) a) with (raw_byte s2 a).
  rewrite Hback by done. case_decide as Hin.
  - symmetry. apply (mapM_seqZ_lookup _ _ _ _ _ Hread). lia.
  - change (raw_byte s1 a) with (raw_byte s' a). rewrite Hbytes by done. case_decide; [lia|done].
Qed.

(** ** Properties *)

(** C15: the debugger works on the logical memory.  A read returns, byte by
    byte, what lies beneath the planted traps (and fails where a byte is not
    mapped); a successful write changes exactly the logical bytes of its range,
    also beneath breakpoints, and leaves every trap planted and every breakpoint
    where it was. *)
Theorem debugger_logical_memory H d address src :
  dbg_ok (dvm d) (debuggerSoftwareBreakpoints d) -> 0 <= address -> src <> [] ->
  address + Z.of_nat (length src) <= 2 ^ 32 ->
  Dynarmic_debugger_mem_read d address (Z.of_nat (length src)) true =
    mapM (logical (dvm d) (debuggerSoftwareBreakpoints d)) (seqZ address (Z.of_nat (length src))) /\
  forall d', Dynarmic_debugger_mem_write H d address (Z.of_nat (length src)) (Some src) = (0, d') ->
    dbg_ok (dvm d') (debuggerSoftwareBreakpoints d') /\
    (forall a, guest_address a -> logical (dvm d') (debuggerSoftwareBreakpoints d') a =
       if decide (address <= a < address + Z.of_nat (length src))
       then src !! Z.to_nat (a - address) else logical (dvm d) (debuggerSoftwareBreakpoints d) a) /\
    bp_address <$> debuggerSoftwareBreakpoints d' = bp_address <$> debuggerSoftwareBreakpoints d.
Proof.
  intros Hok Ha Hne He. assert (0 < Z.of_nat (length src)) by (destruct src; [done|cbn [length]; lia]).
  split; [by apply debugger_read_logical|]. intros d'. by apply debugger_write_logical.
Qed.

(** C16: breakpoints are transparent.  Setting or deleting one changes no byte
    the debugger sees; a set breakpoint is planted, a deleted one is gone; when
    removing all of them reports success, the guest's physical memory is the
    logical memory again and no record is left; and a new tracepoint that fires
    puts back the bytes it replaced and resumes at its own address. *)
Theorem breakpoints_transparent H d :
  dbg_ok (dvm d) (debuggerSoftwareBreakpoints d) ->
  (forall address kind d', 0 <= address ->
     Dynarmic_debugger_set_breakpoint H d address kind = (true, d') ->
     dbg_ok (dvm d') (debuggerSoftwareBreakpoints d') /\
     (forall a, guest_address a -> logical (dvm d') (debuggerSoftwareBreakpoints d') a =
        logical (dvm d) (debuggerSoftwareBreakpoints d) a) /\
     exists b, b ∈ debuggerSoftwareBreakpoints d' /\
       bp_address b = NormalizeDebuggerBreakpointAddress address kind /\ bp_kind b = kind) /\
  (forall address kind d', Dynarmic_debugger_delete_breakpoint H d address kind = (true, d') ->
     dbg_ok (dvm d') (debuggerSoftwareBreakpoints d') /\
     (forall a, guest_address a -> logical (dvm d') (debuggerSoftwareBreakpoints d') a =
        logical (dvm d) (debuggerSoftwareBreakpoints d) a) /\
     Dynarmic_debugger_has_breakpoint d' address = false) /\
  (forall d', Dynarmic_debugger_remove_all_breakpoints H d = (true, d') ->
     debuggerSoftwareBreakpoints d' = [] /\
     forall a, guest_address a -> raw_byte (dvm d') a = logical (dvm d) (debuggerSoftwareBreakpoints d) a) /\
  (forall address d1 pc d2, 0 <= address -> Dynarmic_guest_tracepoint_set H d address = (true, d1) ->
     guestSoftwareTracepoints d1 <> guestSoftwareTracepoints d ->
     ConsumeGuestSoftwareTracepoint H d1 address = (Some pc, d2) ->
     pc = Z.land address (u32_not 1) /\ debuggerSoftwareBreakpoints d2 = debuggerSoftwareBreakpoints d /\
     forall a, guest_address a -> raw_byte (dvm d2) a = raw_byte (dvm d) a).
Proof.
  intros Hok. split; [|split; [|split]].
  - intros address kind d' Ha. by apply set_breakpoint_spec.
  - intros address kind d'. by apply delete_breakpoint_spec.
  - intros d'. unfold Dynarmic_debugger_remove_all_breakpoints.
    destruct (remove_loop _ _ _) as [kept s'] eqn:E. intros [= Hk <-]. apply bool_decide_eq_true in Hk as ->.
    split; [done|]. by eapply remove_loop_spec.
  - intros address d1 pc d2. apply tracepoint_roundtrip, Hok.
Qed.



(** One read-only host region that may be made writable; [relocks] is whether
    the host accepts its old protection again. *)
Definition demo_debug_host (relocks : bool) : debug_host := {|
  vm_region := fun _ => Some {| regionAddress := 0; regionSize := 2 ^ 40; protection := 1;
                                max_protection := 7 |};
  vm_page_size := 0x4000;
  vm_protect := fun _ _ p => has_flag p VM_PROT_WRITE || relocks |}.

Definition demo_debugger : debugger := {| dvm := demo; debuggerSoftwareBreakpoints := [];
  guestSoftwareTracepoints := [] |}.

(** A Thumb breakpoint on the first instruction. *)
Definition demo_stopped : debugger :=
  snd (Dynarmic_debugger_set_breakpoint (demo_debug_host true) demo_debugger 0x20000000 2).

Lemma demo_translate a h :
  guest_address a -> raw_translate demo a = Some h ->
  (page_base a = 0x20000000 /\ h = 0x5000 + page_offset a) \/
  (page_base a = 0x20001000 /\ h = 0x6000 + page_offset a).
Proof.
  intros [Ha Hb]. assert (2 ^ 32 < U64_MOD) by reflexivity.
  pose proof (page_base_div a ltac:(lia)) as Hd. unfold raw_translate, get_memory_page.
  rewrite page_index_div. destruct (decide (a / DYN_PAGE_SIZE = 0x20000)) as [E|E].
  - rewrite E in *. cbn. intros [= <-]. left. split; [rewrite Hd; reflexivity|done].
  - assert (page_table_slot demo (a / DYN_PAGE_SIZE) = 0) as ->.
    { unfold page_table_slot. cbn [page_table demo]. rewrite lookup_singleton_ne by congruence. by case_match. }
    cbn [Z.eqb negb].
    destruct (memory demo !! page_base a) as [p|] eqn:Ep; [|done].
    apply demo_lookup in Ep as [[Ep ->]|[Ep ->]]; cbn; intros [= <-]; auto.
Qed.

Lemma demo_no_alias : no_alias demo.
Proof.
  intros a a' h Ha Ha' Ht Ht'. pose proof (page_offset_range a). pose proof (page_offset_range a').
  unfold DYN_PAGE_SIZE in *. assert (2 ^ 32 < U64_MOD) by reflexivity. pose proof Ha as [? ?]. pose proof Ha' as [? ?].
  rewrite (page_split a), (page_split a') by lia.
  destruct (demo_translate a h Ha Ht) as [[-> E]|[-> E]], (demo_translate a' h Ha' Ht') as [[-> E']|[-> E']]; lia.
Qed.

Lemma demo_debugger_ok : dbg_ok (dvm demo_debugger) (debuggerSoftwareBreakpoints demo_debugger).
Proof. split; [| | |exact demo_no_alias]; intros; set_solver. Qed.

Lemma demo_stopped_ok : dbg_ok (dvm demo_stopped) (debuggerSoftwareBreakpoints demo_stopped).
Proof.
  apply (set_breakpoint_spec (demo_debug_host true) demo_debugger 0x20000000 2 demo_stopped
    demo_debugger_ok ltac:(lia)). vm_compute. reflexivity.
Qed.

Lemma debugger_logical_memory_witness :
  Dynarmic_debugger_mem_read demo_stopped 0x20000000 2 true = Some [65; 66] /\
  exists d', Dynarmic_debugger_mem_write (demo_debug_host true) demo_stopped 0x20000000 2 (Some [1; 2]) = (0, d') /\
    dbg_ok (dvm d') (debuggerSoftwareBreakpoints d') /\
    bp_address <$> debuggerSoftwareBreakpoints d' = [0x20000000].
Proof.
  destruct (debugger_logical_memory (demo_debug_host true) demo_stopped 0x20000000 [1; 2]
    demo_stopped_ok ltac:(lia) ltac:(done) ltac:(done)) as [Hread Hwrite].
  split; [vm_compute; reflexivity|]. eexists. split; [vm_compute; reflexivity|].
  destruct (Hwrite _ ltac:(vm_compute; reflexivity)) as (Hok & _ & Hbp).
  split; [exact Hok|exact Hbp].
Defined.

Lemma breakpoints_transparent_witness :
  exists d', Dynarmic_debugger_remove_all_breakpoints (demo_debug_host true) demo_stopped = (true, d') /\
    debuggerSoftwareBreakpoints d' = [] /\ raw_byte (dvm d') 0x20000000 = Some 65.
Proof.
  destruct (breakpoints_transparent (demo_debug_host true) demo_stopped demo_stopped_ok) as (_ & _ & Hremove & _).
  eexists. split; [vm_compute; reflexivity|].
  destruct (Hremove _ ltac:(vm_compute; reflexivity)) as [Hnone Hraw].
  split; [exact Hnone|]. rewrite Hraw by (split; vm_compute; congruence). vm_compute. reflexivity.
Defined.

(** A refused breakpoint can leave its trap in the guest.  When the host
    accepts the temporary write permission but not the old protection again,
    the trap has been copied before [DebuggerWriteHostMemory] reports failure;
    setting the breakpoint returns false and drops the record, and the debugger
    itself now reads the trap. *)
Theorem failed_relock_leaves_trap :
  exists d', Dynarmic_debugger_set_breakpoint (demo_debug_host false) demo_debugger 0x20000000 2 = (false, d') /\
    debuggerSoftwareBreakpoints d' = [] /\
    mapM (raw_byte (dvm demo_debugger)) (seqZ 0x20000000 2) = Some [65; 66] /\
    mapM (raw_byte (dvm d')) (seqZ 0x20000000 2) = Some (instruction_bytes 2 (trap_instruction true)) /\
    Dynarmic_debugger_mem_read d' 0x20000000 2 true = Some (instruction_bytes 2 (trap_instruction true)).
Proof. eexists. split; [vm_compute; reflexivity|]. repeat split; vm_compute; reflexivity. Qed.
