(* ===== verification/CallbackExecutor.v ===== *)
(** The guest callback executor (src/HostFrameworks/LC32/dynarmic.cpp): host
    threads that are not guest threads hand callbacks to one guest thread and
    wait until it has run them.

    A job is shared between its submitter and the executor; the model keeps the
    jobs in a store, and the queue and the active job name them by identity (the
    order of submission).  The blocking parts of the code are split where the
    mutex is released: a submission returns [None] while its caller waits, and
    the executor's wait takes a job in one step and reports the copy of its
    descriptor to the guest in another. *)

From S2P Require Import Prelude.
From S2P Require Import VmEpoch.
From S2P Require Import GuestMemory.
From S2P Require Import GuestRawMemory.
From stdpp Require Import base gmap list fin_maps list_numbers sorting.
From Stdlib Require Import ZArith Lia.
Open Scope Z_scope.

Module CallbackExecutor.

(** ** Data *)

Inductive GuestCallbackExecutorState := Unavailable | Starting | Ready | Failed | Stopping.

#[global] Instance executor_state_eq : EqDecision GuestCallbackExecutorState.
Proof. solve_decision. Defined.

Definition LC32GuestBlockCallbackKindInvoke : Z := 1.
Definition LC32GuestBlockCallbackKindRelease : Z := 2.
Definition LC32GuestBlockCallbackKindFunction : Z := 3.
Definition LC32GuestBlockCallbackKindSelector : Z := 4.
Definition LC32GuestBlockValueVoid : Z := 0.
Definition LC32_GUEST_BLOCK_CALLBACK_MAX_ARGUMENTS : Z := 5.

(** [LC32GuestBlockCallbackDescriptor]; [arguments] is the raw bytes of the
    argument array. *)
Record LC32GuestBlockCallbackDescriptor := {
  identifier : Z;
  kind : Z;
  guestBlock : Z;
  guestInvoke : Z;
  argumentCount : Z;
  resultKind : Z;
  completionToken : Z;
  result : Z;
  arguments : list Z;
}.

Definition with_identifier (n : Z) (d : LC32GuestBlockCallbackDescriptor) : LC32GuestBlockCallbackDescriptor :=
  {| identifier := n; kind := kind d; guestBlock := guestBlock d; guestInvoke := guestInvoke d;
     argumentCount := argumentCount d; resultKind := resultKind d; completionToken := completionToken d;
     result := result d; arguments := arguments d |}.

(** The little-endian bytes of an [n]-byte field. *)
Definition le_bytes (n : nat) (v : Z) : list Z :=
  (fun i => Z.land (Z.shiftr v (8 * Z.of_nat i)) 0xff) <$> seq 0 n.

Definition descriptor_bytes (d : LC32GuestBlockCallbackDescriptor) : list Z :=
  le_bytes 4 (identifier d) ++ le_bytes 4 (kind d) ++ le_bytes 4 (guestBlock d) ++
  le_bytes 4 (guestInvoke d) ++ le_bytes 4 (argumentCount d) ++ le_bytes 4 (resultKind d) ++
  le_bytes 8 (completionToken d) ++ le_bytes 8 (result d) ++ arguments d.

Record GuestCallbackJob := {
  descriptor : LC32GuestBlockCallbackDescriptor;
  delivered : bool;
  completed : bool;
  canceled : bool;
}.

(** The globals behind [guestCallbackExecutorMutex]; [jobs] is every job object
    and [next_job] the identity of the next one. *)
Record executor := {
  jobs : gmap Z GuestCallbackJob;
  next_job : Z;
  guestCallbackJobs : list Z;
  guestCallbackActiveJob : option Z;
  guestCallbackExecutorState : GuestCallbackExecutorState;
  guestCallbackExecutorThreadId : Z;
  guestCallbackNextIdentifier : Z;
}.

Definition initial : executor := {| jobs := ∅; next_job := 0; guestCallbackJobs := [];
  guestCallbackActiveJob := None; guestCallbackExecutorState := Unavailable;
  guestCallbackExecutorThreadId := 0; guestCallbackNextIdentifier := 1 |}.

Definition with_jobs m e := {| jobs := m; next_job := next_job e; guestCallbackJobs := guestCallbackJobs e;
  guestCallbackActiveJob := guestCallbackActiveJob e;
  guestCallbackExecutorState := guestCallbackExecutorState e;
  guestCallbackExecutorThreadId := guestCallbackExecutorThreadId e;
  guestCallbackNextIdentifier := guestCallbackNextIdentifier e |}.
Definition with_queue l e := {| jobs := jobs e; next_job := next_job e; guestCallbackJobs := l;
  guestCallbackActiveJob := guestCallbackActiveJob e;
  guestCallbackExecutorState := guestCallbackExecutorState e;
  guestCallbackExecutorThreadId := guestCallbackExecutorThreadId e;
  guestCallbackNextIdentifier := guestCallbackNextIdentifier e |}.
Definition with_active a e := {| jobs := jobs e; next_job := next_job e; guestCallbackJobs := guestCallbackJobs e;
  guestCallbackActiveJob := a; guestCallbackExecutorState := guestCallbackExecutorState e;
  guestCallbackExecutorThreadId := guestCallbackExecutorThreadId e;
  guestCallbackNextIdentifier := guestCallbackNextIdentifier e |}.
Definition with_state st e := {| jobs := jobs e; next_job := next_job e; guestCallbackJobs := guestCallbackJobs e;
  guestCallbackActiveJob := guestCallbackActiveJob e; guestCallbackExecutorState := st;
  guestCallbackExecutorThreadId := guestCallbackExecutorThreadId e;
  guestCallbackNextIdentifier := guestCallbackNextIdentifier e |}.
Definition with_thread t e := {| jobs := jobs e; next_job := next_job e; guestCallbackJobs := guestCallbackJobs e;
  guestCallbackActiveJob := guestCallbackActiveJob e;
  guestCallbackExecutorState := guestCallbackExecutorState e; guestCallbackExecutorThreadId := t;
  guestCallbackNextIdentifier := guestCallbackNextIdentifier e |}.

(** ** Cancelling *)

Definition cancel (j : GuestCallbackJob) : GuestCallbackJob :=
  {| descriptor := descriptor j; delivered := delivered j; completed := completed j; canceled := true |}.
Definition deliver (j : GuestCallbackJob) : GuestCallbackJob :=
  {| descriptor := descriptor j; delivered := true; completed := completed j; canceled := canceled j |}.
Definition complete (j : GuestCallbackJob) : GuestCallbackJob :=
  {| descriptor := descriptor j; delivered := delivered j; completed := true; canceled := canceled j |}.

Definition CancelQueuedGuestCallbacksLocked (e : executor) : executor :=
  with_queue [] (with_jobs (foldl (fun m id => alter cancel id m) (jobs e) (guestCallbackJobs e)) e).

(** Cancelling the active job, if any. *)
Definition cancel_active (e : executor) : executor :=
  match guestCallbackActiveJob e with
  | None => e
  | Some id => with_active None (with_jobs (alter cancel id (jobs e)) e)
  end.

Definition ResetGuestCallbackExecutor (e : executor) : executor :=
  let e1 := cancel_active (CancelQueuedGuestCallbacksLocked e) in
  {| jobs := jobs e1; next_job := next_job e1; guestCallbackJobs := guestCallbackJobs e1;
     guestCallbackActiveJob := guestCallbackActiveJob e1; guestCallbackExecutorState := Unavailable;
     guestCallbackExecutorThreadId := 0; guestCallbackNextIdentifier := 1 |}.

Definition StopGuestCallbackExecutor (e : executor) : executor :=
  if decide (guestCallbackExecutorState e = Unavailable) then e
  else CancelQueuedGuestCallbacksLocked (with_state Stopping e).

Definition GuestCallbackExecutorThreadExited (threadId : Z) (e : executor) : executor :=
  if negb (threadId =? guestCallbackExecutorThreadId e) then e else
  let expected := bool_decide (guestCallbackExecutorState e = Stopping) in
  with_state (if expected then Stopping else Failed)
    (CancelQueuedGuestCallbacksLocked (cancel_active (with_thread 0 e))).

(** ** Submitting *)

(** [SubmitGuestCallback] up to its wait; [stopping] is a requested shutdown or
    process exit.  A caller that finds the executor starting waits for that to
    change and then continues as here, or gives up after five seconds, which is
    the result in state [Starting].  [Some false] is a refusal. *)
Definition SubmitGuestCallback (stopping : bool) (input : LC32GuestBlockCallbackDescriptor) (e : executor)
    : option bool * executor :=
  if decide (guestCallbackExecutorState e = Starting) then (Some false, e) else
  if negb (bool_decide (guestCallbackExecutorState e = Ready)) || stopping then (Some false, e) else
  let id0 := guestCallbackNextIdentifier e in
  let next0 := u32 (id0 + 1) in
  let '(ident, next) := if id0 =? 0 then (next0, u32 (next0 + 1)) else (id0, next0) in
  (None,
   {| jobs := <[next_job e := {| descriptor := with_identifier ident input; delivered := false;
                                 completed := false; canceled := false |}]> (jobs e);
      next_job := next_job e + 1; guestCallbackJobs := guestCallbackJobs e ++ [next_job e];
      guestCallbackActiveJob := guestCallbackActiveJob e;
      guestCallbackExecutorState := guestCallbackExecutorState e;
      guestCallbackExecutorThreadId := guestCallbackExecutorThreadId e;
      guestCallbackNextIdentifier := next |}).

(** The end of the wait: [None] while the job is neither completed nor
    cancelled, then what the submitter is told. *)
Definition SubmitResult (j : GuestCallbackJob) : option bool :=
  if completed j || canceled j
  then Some (completed j || (delivered j && (kind (descriptor j) =? LC32GuestBlockCallbackKindRelease)))
  else None.

(** The checks of the four public entry points; [registered] is
    [Dynarmic_guest_thread_is_registered], [None] a null descriptor. *)
Definition Dynarmic_submit_guest_block_callback (registered stopping : bool)
    (d : option LC32GuestBlockCallbackDescriptor) (e : executor) : option bool * executor :=
  match d with
  | None => (Some false, e)
  | Some d =>
      if negb (kind d =? LC32GuestBlockCallbackKindInvoke) ||
         (LC32_GUEST_BLOCK_CALLBACK_MAX_ARGUMENTS <? argumentCount d) || registered
      then (Some false, e) else SubmitGuestCallback stopping d e
  end.

Definition Dynarmic_submit_guest_function_callback (registered stopping : bool)
    (d : option LC32GuestBlockCallbackDescriptor) (e : executor) : option bool * executor :=
  match d with
  | None => (Some false, e)
  | Some d =>
      if negb (kind d =? LC32GuestBlockCallbackKindFunction) ||
         negb (resultKind d =? LC32GuestBlockValueVoid) || (argumentCount d =? 0) ||
         (LC32_GUEST_BLOCK_CALLBACK_MAX_ARGUMENTS <? argumentCount d) || registered
      then (Some false, e) else SubmitGuestCallback stopping d e
  end.

Definition Dynarmic_submit_guest_selector_callback (registered stopping : bool)
    (d : option LC32GuestBlockCallbackDescriptor) (e : executor) : option bool * executor :=
  match d with
  | None => (Some false, e)
  | Some d =>
      if negb (kind d =? LC32GuestBlockCallbackKindSelector) || (guestBlock d =? 0) ||
         (guestInvoke d =? 0) || negb (resultKind d =? LC32GuestBlockValueVoid) ||
         (LC32_GUEST_BLOCK_CALLBACK_MAX_ARGUMENTS <? argumentCount d) || registered
      then (Some false, e) else SubmitGuestCallback stopping d e
  end.

Definition Dynarmic_submit_guest_block_release (registered stopping : bool) (block : Z) (e : executor)
    : option bool * executor :=
  if (block =? 0) || registered then (Some false, e) else
  SubmitGuestCallback stopping
    {| identifier := 0; kind := LC32GuestBlockCallbackKindRelease; guestBlock := block; guestInvoke := 0;
       argumentCount := 0; resultKind := 0; completionToken := 0; result := 0;
       arguments := replicate 120 0 |} e.

(** ** The executor thread *)

Inductive wait_result := WaitStop | WaitJob | WaitRetry.

(** Where [ServiceGuestCallbackExecutorWait] stands when it gives up the mutex:
    finished, still waiting, or copying the descriptor of a job it took. *)
Inductive wait_step := WaitDone (r : wait_result) | WaitBlocked | WaitTook (id : Z).

(** Its locked part; [native] is [NativeGuestThreadIsCurrent], [self] the calling
    thread, [stepped] a debugger step that interrupted the wait. *)
Definition ExecutorWaitTake (native stopping stepped : bool) (self guestDescriptor : Z) (e : executor)
    : wait_step * executor :=
  if (guestDescriptor =? 0) || negb native || (self <=? 1) then (WaitDone WaitStop, e) else
  let waiting := bool_decide (guestCallbackExecutorState e = Starting) in
  if negb waiting && (negb (bool_decide (guestCallbackExecutorState e = Ready)) ||
                      negb (guestCallbackExecutorThreadId e =? self))
  then (WaitDone WaitStop, e) else
  let e1 := if waiting then with_state Ready (with_thread self e) else e in
  if bool_decide (guestCallbackJobs e1 = []) && bool_decide (guestCallbackExecutorState e1 = Ready) && negb stopping
  then (if stepped then WaitDone WaitRetry else WaitBlocked, e1) else
  if negb (bool_decide (guestCallbackExecutorState e1 = Ready)) || stopping then (WaitDone WaitStop, e1) else
  match guestCallbackJobs e1 with
  | [] => (WaitDone WaitRetry, e1)
  | id :: rest => (WaitTook id, with_active (Some id) (with_queue rest e1))
  end.

(** The copy of the descriptor into guest memory and what follows it. *)
Definition ExecutorWaitDeliver (id guestDescriptor : Z) (s : vm) (e : executor) : wait_result * vm * executor :=
  match jobs e !! id with
  | None => (WaitRetry, s, e)
  | Some j =>
      let '(r, s') := Dynarmic_mem_1write s guestDescriptor 160 (Some (descriptor_bytes (descriptor j))) in
      if negb (r =? 0)
      then (WaitRetry, s', with_active None (with_jobs (alter cancel id (jobs e)) e))
      else (WaitJob, s', with_jobs (alter deliver id (jobs e)) e)
  end.

(** [ServiceGuestCallbackExecutorComplete]. *)
Definition ServiceGuestCallbackExecutorComplete (stopping : bool) (self ident : Z) (e : executor)
    : bool * executor :=
  if negb (guestCallbackExecutorThreadId e =? self) then (false, e) else
  match guestCallbackActiveJob e with
  | None => (false, e)
  | Some id =>
      match jobs e !! id with
      | None => (false, e)
      | Some j =>
          if negb (identifier (descriptor j) =? ident) then (false, e) else
          (bool_decide (guestCallbackExecutorState e = Ready) && negb stopping,
           with_active None (with_jobs (alter complete id (jobs e)) e))
      end
  end.

(** ** Starting *)

(** [supported] is native threads with a guest entry point in a running
    process. *)
Definition LC32GuestCallbackExecutorSupported (supported : bool) (e : executor) : bool * executor :=
  if negb supported then (false, e) else
  if negb (bool_decide (guestCallbackExecutorState e = Unavailable)) then (false, e)
  else (true, with_state Starting e).

Definition LC32GuestCallbackExecutorCreationResult (error : Z) (e : executor) : bool * executor :=
  if negb (bool_decide (guestCallbackExecutorState e = Starting)) then (false, e) else
  (error =? 0, if error =? 0 then e else with_state Failed e).

End CallbackExecutor.
