(* ===== verification/CallbackProps.v ===== *)
(** What the callback executor promises its submitters: nobody waits for a job
    that no one will finish, and jobs reach the guest in order, once. *)

From S2P Require Import Prelude.
From S2P Require Import VmEpoch.
From S2P Require Import GuestMemory.
From S2P Require Import GuestRawMemory.
From S2P Require Import CallbackExecutor.
From S2P Require Import MemoryWitness.
From stdpp Require Import base gmap list fin_maps list_numbers sorting.
From Stdlib Require Import ZArith Lia.
Open Scope Z_scope.

Import CallbackExecutor.

(** ** Executions

    Any interleaving of submissions, the executor thread's calls, thread exits,
    stopping and resetting.  [window] is the job whose descriptor the executor
    thread is copying with the mutex released; [taken] is the jobs handed out so
    far. *)
Inductive op :=
| OSubmit (stopping : bool) (input : LC32GuestBlockCallbackDescriptor)
| OTake (native stopping stepped : bool) (self guestDescriptor : Z)
| ODeliver
| OComplete (stopping : bool) (self ident : Z)
| OStop
| OExited (threadId : Z)
| OReset
| OSupported (supported : bool)
| OCreated (error : Z).

Record machine := {
  ex : executor;
  space : vm;
  window : option (Z * Z);
  taken : list Z;
}.

Definition start (s : vm) : machine := {| ex := initial; space := s; window := None; taken := [] |}.

Definition with_ex e m := {| ex := e; space := space m; window := window m; taken := taken m |}.

(** The executor thread runs one call at a time and acknowledges a job before it
    waits again (LC32GuestCallbackExecutorMain in GuestFrameworks/LC32/LC32.m);
    the runtime is reset only while no guest thread is inside a call. *)
Definition is_executor (self : Z) (m : machine) : bool := self =? guestCallbackExecutorThreadId (ex m).

Definition allowed (o : op) (m : machine) : bool :=
  match o with
  | OTake _ _ _ self _ => bool_decide (window m = None) &&
      (negb (is_executor self m) || bool_decide (guestCallbackActiveJob (ex m) = None))
  | ODeliver => bool_decide (is_Some (window m))
  | OComplete _ self _ => bool_decide (window m = None) || negb (is_executor self m)
  | OExited self => bool_decide (window m = None) || negb (is_executor self m)
  | OReset => bool_decide (window m = None)
  | _ => true
  end.

Definition exec (o : op) (m : machine) : machine :=
  match o with
  | OSubmit stopping input => with_ex (snd (SubmitGuestCallback stopping input (ex m))) m
  | OTake native stopping stepped self gd =>
      let '(r, e) := ExecutorWaitTake native stopping stepped self gd (ex m) in
      match r with
      | WaitTook id => {| ex := e; space := space m; window := Some (id, gd); taken := taken m ++ [id] |}
      | _ => with_ex e m
      end
  | ODeliver =>
      match window m with
      | None => m
      | Some (id, gd) => let '(_, s, e) := ExecutorWaitDeliver id gd (space m) (ex m) in
                         {| ex := e; space := s; window := None; taken := taken m |}
      end
  | OComplete stopping self ident => with_ex (snd (ServiceGuestCallbackExecutorComplete stopping self ident (ex m))) m
  | OStop => with_ex (StopGuestCallbackExecutor (ex m)) m
  | OExited self => with_ex (GuestCallbackExecutorThreadExited self (ex m)) m
  | OReset => with_ex (ResetGuestCallbackExecutor (ex m)) m
  | OSupported b => with_ex (snd (LC32GuestCallbackExecutorSupported b (ex m))) m
  | OCreated e => with_ex (snd (LC32GuestCallbackExecutorCreationResult e (ex m))) m
  end.

(** [None] when some step is not possible in its state. *)
Fixpoint run (ops : list op) (m : machine) : option machine :=
  match ops with
  | [] => Some m
  | o :: rest => if allowed o m then run rest (exec o m) else None
  end.

(** ** The invariant *)

Definition settled (j : GuestCallbackJob) : bool := completed j || canceled j.

Record executor_ok (e : executor) (taken : list Z) : Prop := {
  (* an unsettled job is somebody's *)
  ok_owned : forall id j, jobs e !! id = Some j -> settled j = false ->
    id ∈ guestCallbackJobs e \/ guestCallbackActiveJob e = Some id;
  ok_queued : guestCallbackJobs e <> [] -> guestCallbackExecutorState e = Ready;
  ok_active : is_Some (guestCallbackActiveJob e) -> guestCallbackExecutorThreadId e <> 0;
  ok_ready : guestCallbackExecutorState e = Ready -> guestCallbackExecutorThreadId e <> 0;
  ok_known : forall id, id ∈ taken ++ guestCallbackJobs e -> id < next_job e;
  ok_stored : forall id j, jobs e !! id = Some j -> id < next_job e;
  ok_order : StronglySorted Z.lt (taken ++ guestCallbackJobs e);
  ok_taken : forall id, guestCallbackActiveJob e = Some id -> id ∈ taken;
  ok_reached : forall id j, jobs e !! id = Some j -> completed j || delivered j = true -> id ∈ taken;
}.

Record machine_ok (m : machine) : Prop := {
  ok_executor : executor_ok (ex m) (taken m);
  ok_window : forall id gd, window m = Some (id, gd) ->
    guestCallbackActiveJob (ex m) = Some id;
}.

(** ** Preservation *)

Lemma cancel_all_lookup l (m : gmap Z GuestCallbackJob) id :
  foldl (fun m id => alter cancel id m) m l !! id =
    if decide (id ∈ l) then cancel <$> m !! id else m !! id.
Proof.
  revert m. induction l as [|x l IH]; intros m; [done|]. cbn [foldl]. rewrite IH.
  destruct (decide (id = x)) as [->|Hne].
  - rewrite lookup_alter_eq. rewrite (decide_True (P := x ∈ x :: l)) by set_solver.
    case_decide; [|done]. by destruct (m !! x).
  - rewrite lookup_alter_ne by congruence. repeat case_decide; set_solver.
Qed.

(** A step that only settles jobs, drops them from the queue and resets the
    active job keeps the invariant once nobody is left unowned. *)
Lemma executor_ok_settle e e' t :
  executor_ok e t -> next_job e' = next_job e -> guestCallbackJobs e' = [] ->
  (guestCallbackActiveJob e' = None \/ guestCallbackActiveJob e' = guestCallbackActiveJob e /\
     guestCallbackExecutorThreadId e' = guestCallbackExecutorThreadId e) ->
  guestCallbackExecutorState e' <> Ready ->
  (forall id j', jobs e' !! id = Some j' -> exists j, jobs e !! id = Some j /\
     completed j' = completed j /\ delivered j' = delivered j /\
     (settled j' = false -> settled j = false /\ (id ∉ guestCallbackJobs e) /\
        (guestCallbackActiveJob e = Some id -> guestCallbackActiveJob e' = Some id))) ->
  executor_ok e' t.
Proof.
  intros [] Hn Hq Ha Hst Hj. split; rewrite ?Hq, ?Hn, ?app_nil_r.
  - intros id j' Hj' Hs. destruct (Hj id j' Hj') as (j & Hjj & _ & _ & Hset).
    destruct (Hset Hs) as (Hs' & Hnq & Hact). right. destruct (ok_owned0 id j Hjj Hs'); [done|auto].
  - done.
  - intros [x Hx]. destruct Ha as [Ha|[Ha Ht]]; [congruence|]. rewrite Ht. apply ok_active0. rewrite <- Ha. eauto.
  - done.
  - intros id Hid. apply ok_known0. set_solver.
  - intros id j' Hj'. destruct (Hj id j' Hj') as (j & Hjj & _). eauto.
  - by apply StronglySorted_app_1_l in ok_order0.
  - intros id Hx. destruct Ha as [Ha|[Ha _]]; [congruence|]. apply ok_taken0. congruence.
  - intros id j' Hj' Hc. destruct (Hj id j' Hj') as (j & Hjj & Hcj & Hdj & _).
    apply (ok_reached0 id j Hjj). congruence.
Qed.

Lemma stop_ok e t : executor_ok e t -> executor_ok (StopGuestCallbackExecutor e) t.
Proof.
  intros Hok. unfold StopGuestCallbackExecutor. case_decide as Hst; [done|].
  apply (executor_ok_settle e); [done|done|done|right; done|done|].
  intros id j'. cbn. rewrite cancel_all_lookup. case_decide.
  - intros (j & Hj & ->)%fmap_Some. exists j. unfold settled. cbn. rewrite orb_true_r. done.
  - intros Hj. exists j'. split; [exact Hj|]. done.
Qed.

Lemma cancel_active_jobs e id j' :
  jobs (cancel_active e) !! id = Some j' -> exists j, jobs e !! id = Some j /\
    completed j' = completed j /\ delivered j' = delivered j /\
    (settled j' = false -> settled j = false /\ guestCallbackActiveJob e <> Some id).
Proof.
  unfold cancel_active. destruct (guestCallbackActiveJob e) as [a|]; cbn; [|intros H; exists j'; auto].
  destruct (decide (a = id)) as [->|Hne].
  - rewrite lookup_alter_eq. intros (j & Hj & ->)%fmap_Some. exists j. unfold settled. cbn.
    rewrite orb_true_r. done.
  - rewrite lookup_alter_ne by done. intros H. exists j'. split; [done|]. do 2 (split; [done|]).
    intros. split; [done|congruence].
Qed.

Lemma cancel_active_none e : guestCallbackActiveJob (cancel_active e) = None.
Proof. unfold cancel_active. by destruct (guestCallbackActiveJob e) eqn:E. Qed.

Lemma cancel_active_fields e : next_job (cancel_active e) = next_job e /\
  guestCallbackJobs (cancel_active e) = guestCallbackJobs e.
Proof. unfold cancel_active. by destruct (guestCallbackActiveJob e). Qed.

Lemma exited_ok tid e t : executor_ok e t -> executor_ok (GuestCallbackExecutorThreadExited tid e) t.
Proof.
  intros Hok. unfold GuestCallbackExecutorThreadExited. destruct (negb _); [done|].
  destruct (cancel_active_fields (with_thread 0 e)) as [Hn Hq].
  apply (executor_ok_settle e); [done|exact Hn|done|left; apply cancel_active_none|by case_if|].
  intros id j'. cbn. rewrite Hq, cancel_all_lookup. cbn [guestCallbackJobs with_thread].
  case_decide as Hin.
  - intros (j1 & Hj1 & ->)%fmap_Some. apply cancel_active_jobs in Hj1 as (j & Hj & Hc & Hd & _).
    exists j. unfold settled. cbn. rewrite orb_true_r. done.
  - intros (j & Hj & Hc & Hd & Hs)%cancel_active_jobs. exists j. split; [exact Hj|]. do 2 (split; [done|]).
    intros Hsj. destruct (Hs Hsj) as [? Hna]. split; [done|]. split; [done|]. intros E. by destruct Hna.
Qed.

Lemma reset_ok e t : executor_ok e t -> executor_ok (ResetGuestCallbackExecutor e) t.
Proof.
  intros Hok. unfold ResetGuestCallbackExecutor.
  destruct (cancel_active_fields (CancelQueuedGuestCallbacksLocked e)) as [Hn Hq].
  apply (executor_ok_settle e); [done|exact Hn|exact Hq|left; apply cancel_active_none|done|].
  intros id j' (j1 & Hj1 & Hc & Hd & Hs)%cancel_active_jobs. revert Hj1. cbn. rewrite cancel_all_lookup.
  case_decide as Hin.
  - intros (j & Hj & ->)%fmap_Some. exists j. split; [exact Hj|]. do 2 (split; [done|]).
    intros [Hs' _]%Hs. unfold settled in Hs'. cbn in Hs'. by rewrite orb_true_r in Hs'.
  - intros Hj. exists j1. split; [exact Hj|]. do 2 (split; [done|]).
    intros [Hs' Hna]%Hs. split; [done|]. split; [done|]. intros E. by destruct Hna.
Qed.

Lemma submit_ok stopping input e t :
  executor_ok e t -> executor_ok (snd (SubmitGuestCallback stopping input e)) t.
Proof.
  intros Hok. unfold SubmitGuestCallback. case_decide; [done|].
  destruct (_ || _)%bool eqn:Hg; [done|]. apply orb_false_iff in Hg as [Hr _].
  apply negb_false_iff, bool_decide_eq_true in Hr.
  match goal with |- context [let '(_, _) := ?p in _] => destruct p as [ident next] end. destruct Hok. split; cbn.
  - intros id j. destruct (decide (id = next_job e)) as [->|Hne]; [left; set_solver|].
    rewrite lookup_insert_ne by congruence. intros Hj Hs. destruct (ok_owned0 id j Hj Hs); [left; set_solver|auto].
  - done.
  - done.
  - done.
  - intros id. rewrite app_assoc. intros [Hid|Hid]%elem_of_app; [apply ok_known0 in Hid; lia|].
    apply list_elem_of_singleton in Hid. lia.
  - intros id j. destruct (decide (id = next_job e)) as [->|Hne]; [lia|].
    rewrite lookup_insert_ne by congruence. intros Hj%ok_stored0. lia.
  - rewrite app_assoc. apply StronglySorted_app_2; [|done|by repeat constructor].
    intros x y Hx%ok_known0 ->%list_elem_of_singleton. done.
  - done.
  - intros id j. destruct (decide (id = next_job e)) as [->|Hne]; [by rewrite lookup_insert_eq; intros [= <-]|].
    rewrite lookup_insert_ne by congruence. apply ok_reached0.
Qed.

(** Changing the state to one without a queue, or naming a new executor thread. *)
Lemma restate_ok st tid e t :
  executor_ok e t -> guestCallbackJobs e = [] -> (st = Ready \/ guestCallbackExecutorThreadId e <> 0 -> tid <> 0) ->
  executor_ok (with_state st (with_thread tid e)) t.
Proof.
  intros [] Hq Ht. split; cbn; try done.
  - intros Ha. apply Ht. right. auto.
  - intros ->. apply Ht. by left.
Qed.

Lemma take_ok native stopping stepped self gd e t :
  executor_ok e t ->
  (self = guestCallbackExecutorThreadId e -> guestCallbackActiveJob e = None) ->
  match ExecutorWaitTake native stopping stepped self gd e with
  | (WaitTook id, e') => executor_ok e' (t ++ [id]) /\ guestCallbackActiveJob e' = Some id
  | (_, e') => executor_ok e' t /\ guestCallbackActiveJob e' = guestCallbackActiveJob e
  end.
Proof.
  intros Hok Hidle. unfold ExecutorWaitTake. destruct (_ || _ || _)%bool eqn:Hg; [done|]. zb.
  destruct (decide (guestCallbackExecutorState e = Starting)) as [Hst|Hst].
  - rewrite (bool_decide_eq_true_2 _ Hst). cbn [negb andb].
    assert (guestCallbackJobs e = []) as Hq.
    { destruct (guestCallbackJobs e) eqn:E; [done|]. pose proof (ok_queued _ _ Hok ltac:(by rewrite E)). congruence. }
    cbn [guestCallbackJobs guestCallbackExecutorState with_state with_thread]. rewrite Hq. cbn.
    assert (executor_ok (with_state Ready (with_thread self e)) t) by (apply restate_ok; [done|done|lia]).
    by destruct stopping, stepped.
  - rewrite (bool_decide_eq_false_2 _ Hst). cbn [negb andb].
    destruct (_ || _)%bool eqn:Hg2; [done|]. apply orb_false_iff in Hg2 as [Hr Hs]. zb.
    apply bool_decide_eq_true in Hr. destruct (_ && _ && _)%bool; [by destruct stepped|].
    destruct (_ || _)%bool; [done|]. destruct (guestCallbackJobs e) as [|id rest] eqn:Eq; [done|].
    specialize (Hidle (eq_sym Hs)). split; [|done].
    destruct Hok. rewrite Eq in *.
    assert (t ++ id :: rest = (t ++ [id]) ++ rest) as Et by (by rewrite <- app_assoc).
    rewrite Et in ok_known0, ok_order0. split; cbn; try done.
    + intros id' j Hj Hset. destruct (ok_owned0 id' j Hj Hset) as [[->|Hin]%elem_of_cons|Ha]; [by right|by left|congruence].
    + intros _. by apply ok_ready0.
    + intros id' [= <-]. set_solver.
    + intros id' j Hj Hc. apply elem_of_app. left. eauto.
Qed.

Lemma deliver_ok id gd s e t :
  executor_ok e t -> guestCallbackActiveJob e = Some id ->
  executor_ok (snd (ExecutorWaitDeliver id gd s e)) t.
Proof.
  intros Hok Ha. unfold ExecutorWaitDeliver. destruct (jobs e !! id) as [j|] eqn:Ej; [|done].
  destruct (Dynarmic_mem_1write _ _ _ _) as [r s']. destruct Hok.
  destruct (negb (r =? 0)); split; cbn; try done.
  - intros id' j'. destruct (decide (id = id')) as [<-|Hne].
    + rewrite lookup_alter_eq, Ej. intros [= <-]. unfold settled. cbn. by rewrite orb_true_r.
    + rewrite lookup_alter_ne by done. intros Hj Hs. destruct (ok_owned0 id' j' Hj Hs); [by left|congruence].
  - intros id' j'. destruct (decide (id = id')) as [<-|Hne]; [intros _; eauto|].
    rewrite lookup_alter_ne by done. eauto.
  - intros id' j'. destruct (decide (id = id')) as [<-|Hne]; [intros; auto|].
    rewrite lookup_alter_ne by done. eauto.
  - intros id' j'. destruct (decide (id = id')) as [<-|Hne]; [intros _ _; by right|].
    rewrite lookup_alter_ne by done. eauto.
  - intros id' j'. destruct (decide (id = id')) as [<-|Hne]; [intros _; eauto|].
    rewrite lookup_alter_ne by done. eauto.
  - intros id' j'. destruct (decide (id = id')) as [<-|Hne]; [intros; auto|].
    rewrite lookup_alter_ne by done. eauto.
Qed.

Lemma complete_ok stopping self ident e t :
  executor_ok e t -> executor_ok (snd (ServiceGuestCallbackExecutorComplete stopping self ident e)) t.
Proof.
  intros Hok. unfold ServiceGuestCallbackExecutorComplete. destruct (negb _); [done|].
  destruct (guestCallbackActiveJob e) as [id|] eqn:Ha; [|done].
  destruct (jobs e !! id) as [j|] eqn:Ej; [|done]. destruct (negb _); [done|].
  destruct Hok. split; cbn; try done.
  - intros id' j'. destruct (decide (id = id')) as [<-|Hne].
    + rewrite lookup_alter_eq, Ej. intros [= <-]. done.
    + rewrite lookup_alter_ne by done. intros Hj Hs. destruct (ok_owned0 id' j' Hj Hs); [by left|congruence].
  - intros id' j'. destruct (decide (id = id')) as [<-|Hne]; [intros _; eauto|].
    rewrite lookup_alter_ne by done. eauto.
  - intros id' j'. destruct (decide (id = id')) as [<-|Hne]; [intros; auto|].
    rewrite lookup_alter_ne by done. eauto.
Qed.

Lemma exec_ok o m : machine_ok m -> allowed o m = true -> machine_ok (exec o m).
Proof.
  intros [Hok Hw] Hal. destruct o; cbn [exec allowed] in *.
  - split; cbn; [by apply submit_ok|]. intros id gd E. rewrite <- (Hw id gd E).
    unfold SubmitGuestCallback. repeat case_match; done.
  - apply andb_true_iff in Hal as [Hwin%bool_decide_eq_true Hal].
    pose proof (take_ok native stopping stepped self guestDescriptor (ex m) (taken m) Hok) as Ht.
    destruct (ExecutorWaitTake _ _ _ _ _ _) as [r e'].
    assert (self = guestCallbackExecutorThreadId (ex m) -> guestCallbackActiveJob (ex m) = None) as Hidle.
    { intros ->. unfold is_executor in Hal. rewrite Z.eqb_refl in Hal. by apply bool_decide_eq_true in Hal. }
    specialize (Ht Hidle). destruct r as [r| |id]; destruct Ht as [Ht Ha]; split; cbn; try done.
    all: intros ? ? E; rewrite ?Hwin in E; by simplify_eq.
  - destruct (window m) as [[id gd]|] eqn:E; [|done].
    pose proof (deliver_ok id gd (space m) (ex m) (taken m) Hok (Hw id gd eq_refl)).
    destruct (ExecutorWaitDeliver _ _ _ _) as [[r s] e]. split; done.
  - split; cbn; [by apply complete_ok|]. intros id gd E. rewrite E in Hal.
    rewrite bool_decide_eq_false_2 in Hal by done. cbn in Hal. unfold is_executor in Hal. zb.
    unfold ServiceGuestCallbackExecutorComplete.
    destruct (_ =? self) eqn:Es; zb; [by symmetry in Es|]. cbn. eauto.
  - split; cbn; [by apply stop_ok|]. intros id gd E. rewrite <- (Hw id gd E).
    unfold StopGuestCallbackExecutor. by case_decide.
  - split; cbn; [by apply exited_ok|]. intros id gd E. rewrite E in Hal.
    rewrite bool_decide_eq_false_2 in Hal by done. cbn in Hal. unfold is_executor in Hal.
    unfold GuestCallbackExecutorThreadExited. rewrite Hal. eauto.
  - apply bool_decide_eq_true in Hal. split; cbn; [by apply reset_ok|]. intros id gd E. congruence.
  - unfold LC32GuestCallbackExecutorSupported. destruct supported; cbn [negb snd]; [|done].
    destruct (bool_decide (_ = Unavailable)) eqn:Es; cbn [negb snd]; [|done]. apply bool_decide_eq_true in Es.
    split; cbn; [|done].
    replace (ex m) with (with_thread (guestCallbackExecutorThreadId (ex m)) (ex m)) by (by destruct (ex m)).
    apply restate_ok; [done| |intros [?|?]; done].
    destruct (guestCallbackJobs (ex m)) eqn:Eq; [done|].
    pose proof (ok_queued _ _ Hok ltac:(by rewrite Eq)). congruence.
  - unfold LC32GuestCallbackExecutorCreationResult.
    destruct (bool_decide (_ = Starting)) eqn:Es; cbn [negb snd]; [|done]. apply bool_decide_eq_true in Es.
    destruct (error =? 0); [done|]. split; cbn; [|done].
    replace (ex m) with (with_thread (guestCallbackExecutorThreadId (ex m)) (ex m)) by (by destruct (ex m)).
    apply restate_ok; [done| |intros [?|?]; done].
    destruct (guestCallbackJobs (ex m)) eqn:Eq; [done|].
    pose proof (ok_queued _ _ Hok ltac:(by rewrite Eq)). congruence.
Qed.

Lemma start_ok s : machine_ok (start s).
Proof.
  split; [|done]. split; cbn; try done.
  - intros id Hid. by apply not_elem_of_nil in Hid.
  - constructor.
Qed.

Lemma callback_run_ok ops : forall m m', machine_ok m -> run ops m = Some m' -> machine_ok m'.
Proof.
  induction ops as [|o ops IH]; intros m m' Hok; cbn [run]; [by intros [= <-]|].
  destruct (allowed o m) eqn:Ha; [|done]. apply IH. by apply exec_ok.
Qed.

Lemma submit_result_none j : SubmitResult j = None <-> settled j = false.
Proof. unfold SubmitResult, settled. by destruct (completed j || canceled j). Qed.

(** An executor without queue and active job has no waiting submitter. *)
Lemma nobody_waits e t id j :
  executor_ok e t -> guestCallbackJobs e = [] -> guestCallbackActiveJob e = None ->
  jobs e !! id = Some j -> SubmitResult j <> None.
Proof.
  intros Hok Hq Ha Hj Hn%submit_result_none. destruct (ok_owned _ _ Hok id j Hj Hn) as [Hin|Hin]; [|congruence].
  rewrite Hq in Hin. by apply not_elem_of_nil in Hin.
Qed.

(** ** Properties *)

(** C17: no submitter is left behind.  In any execution a submission that has
    not returned belongs to a job in the queue of a ready executor or to the job
    the executor thread works on, and that thread exists; and when the executor
    thread exits, or the executor is reset, every submission returns. *)
Theorem callback_submitters_served ops s m :
  run ops (start s) = Some m ->
  (forall id j, jobs (ex m) !! id = Some j -> SubmitResult j = None ->
     guestCallbackExecutorThreadId (ex m) <> 0 /\
     (id ∈ guestCallbackJobs (ex m) /\ guestCallbackExecutorState (ex m) = Ready \/
      guestCallbackActiveJob (ex m) = Some id)) /\
  (forall id j,
     jobs (GuestCallbackExecutorThreadExited (guestCallbackExecutorThreadId (ex m)) (ex m)) !! id = Some j ->
     SubmitResult j <> None) /\
  (forall id j, jobs (ResetGuestCallbackExecutor (ex m)) !! id = Some j -> SubmitResult j <> None).
Proof.
  intros Hr. destruct (callback_run_ok ops _ _ (start_ok s) Hr) as [Hok _]. split; [|split].
  - intros id j Hj Hn%submit_result_none. destruct (ok_owned _ _ Hok id j Hj Hn) as [Hin|Ha].
    + assert (guestCallbackJobs (ex m) <> []) as Hne by (intros E; rewrite E in Hin; by apply not_elem_of_nil in Hin).
      pose proof (ok_queued _ _ Hok Hne) as Hst. split; [by apply (ok_ready _ _ Hok)|by left].
    + split; [apply (ok_active _ _ Hok); eauto|by right].
  - intros id j. apply (nobody_waits _ (taken m)); [by apply exited_ok|..];
      unfold GuestCallbackExecutorThreadExited; rewrite Z.eqb_refl; cbn; [done|apply cancel_active_none].
  - intros id j. apply (nobody_waits _ (taken m)); [by apply reset_ok|..]; cbn;
      [apply cancel_active_fields|apply cancel_active_none].
Qed.

Definition demo_descriptor : LC32GuestBlockCallbackDescriptor :=
  {| identifier := 0; kind := LC32GuestBlockCallbackKindInvoke; guestBlock := 0x1000; guestInvoke := 0x2000;
     argumentCount := 0; resultKind := 0; completionToken := 0; result := 0; arguments := replicate 120 0 |}.

(** Two submissions; the first one is running. *)
Definition demo_calls : list op :=
  [OSupported true; OCreated 0; OTake true false false 3 0x20000000; OSubmit false demo_descriptor;
   OSubmit false demo_descriptor; OTake true false false 3 0x20000000; ODeliver].

Definition demo_machine (ops : list op) : machine := default (start demo) (run ops (start demo)).

Lemma demo_run ops : bool_decide (is_Some (run ops (start demo))) = true ->
  run ops (start demo) = Some (demo_machine ops).
Proof. intros [m Hm]%bool_decide_eq_true. unfold demo_machine. by rewrite Hm. Qed.

Lemma callback_submitters_served_witness :
  guestCallbackActiveJob (ex (demo_machine demo_calls)) = Some 0 /\
  forall j, jobs (GuestCallbackExecutorThreadExited
    (guestCallbackExecutorThreadId (ex (demo_machine demo_calls))) (ex (demo_machine demo_calls))) !! 1 = Some j ->
    SubmitResult j <> None.
Proof.
  destruct (callback_submitters_served demo_calls demo (demo_machine demo_calls)
    (demo_run demo_calls ltac:(vm_compute; reflexivity))) as (_ & Hexit & _).
  split; [vm_compute; reflexivity|exact (Hexit 1)].
Defined.

(** C18: callbacks run in order, at most once.  The jobs handed to the guest are
    handed out in the order of their submission, none twice; a job is never
    overtaken by a later one unless it was cancelled; and a submitter is told
    success only for a job that was handed to the guest. *)
Theorem callbacks_in_order ops s m :
  run ops (start s) = Some m ->
  StronglySorted Z.lt (taken m) /\
  (forall id id' j, id ∈ taken m -> id' < id -> jobs (ex m) !! id' = Some j ->
     id' ∈ taken m \/ canceled j = true) /\
  (forall id j, jobs (ex m) !! id = Some j -> SubmitResult j = Some true -> id ∈ taken m).
Proof.
  intros Hr. destruct (callback_run_ok ops _ _ (start_ok s) Hr) as [Hok _].
  pose proof (ok_order _ _ Hok) as Hs. split; [|split].
  - by eapply StronglySorted_app_1_l.
  - intros id id' j Hid Hlt Hj. destruct (canceled j) eqn:Hc; [by right|]. left.
    destruct (completed j) eqn:Hcm; [apply (ok_reached _ _ Hok id' j Hj); by rewrite Hcm|].
    destruct (ok_owned _ _ Hok id' j Hj) as [Hq|Ha]; [unfold settled; by rewrite Hc, Hcm| |by apply (ok_taken _ _ Hok)].
    pose proof (StronglySorted_app_1_elem_of _ _ _ _ _ Hs Hid Hq). lia.
  - intros id j Hj. unfold SubmitResult. destruct (completed j) eqn:Hcm; cbn.
    + intros _. apply (ok_reached _ _ Hok id j Hj). by rewrite Hcm.
    + destruct (canceled j); [|done]. intros [= Hd%andb_true_iff]. destruct Hd as [Hd _].
      apply (ok_reached _ _ Hok id j Hj). by rewrite Hd, orb_true_r.
Qed.

(** ... and it is acknowledged. *)
Definition demo_done : machine := demo_machine (demo_calls ++ [OComplete false 3 1]).

Lemma callbacks_in_order_witness :
  taken demo_done = [0] /\ SubmitResult <$> jobs (ex demo_done) !! 0 = Some (Some true) /\
  (forall j, jobs (ex demo_done) !! 0 = Some j -> SubmitResult j = Some true -> 0 ∈ taken demo_done).
Proof.
  destruct (callbacks_in_order (demo_calls ++ [OComplete false 3 1]) demo demo_done
    (demo_run (demo_calls ++ [OComplete false 3 1]) ltac:(vm_compute; reflexivity))) as (_ & _ & Hdone).
  split; [vm_compute; reflexivity|]. split; [vm_compute; reflexivity|exact (Hdone 0)].
Defined.
