(* ===== verification/Bytes.v ===== *)
(** Byte buffers, bounds-checked accesses and integers in memory.

    The Mach-O code works on raw buffers: it copies structures out of them with
    memcpy, reads big-endian fields, searches terminators and patches fields in
    place.  Here a buffer is a list of bytes ([Z] between 0 and 255); a pointer
    is an offset into the allocation it points into.  An access outside the
    allocation is [Fault], so that "the code never reads or writes out of
    bounds" is a theorem about the definitions and not an assumption.

    [outcome] is the result of fallible code: a value, an error of the code, or
    [Fault].  [safe m P] says that [m] does not fault and that its value, if it
    has one, satisfies [P]; the lemmas [safe_bind], [safe_check] and their
    tactic [safe_step] prove it statement by statement. *)

From S2P Require Import Prelude.
From stdpp Require Import base list list_numbers.
From Stdlib Require Import ZArith Lia.

Open Scope Z_scope.

(** ** Results *)

Inductive outcome (E A : Type) : Type :=
| Done (a : A)
| Reject (e : E)
| Fault.
Arguments Done {E A} a.
Arguments Reject {E A} e.
Arguments Fault {E A}.

#[export] Instance outcome_ret E : MRet (outcome E) := fun A a => Done a.
#[export] Instance outcome_bind E : MBind (outcome E) := fun A B k m =>
  match m with Done a => k a | Reject e => Reject e | Fault => Fault end.

#[export] Instance outcome_fmap E : FMap (outcome E) := fun A B f m =>
  match m with Done a => Done (f a) | Reject e => Reject e | Fault => Fault end.

(** [if(b) return error;] *)
Definition reject_if {E} (b : bool) (e : E) : outcome E unit :=
  if b then Reject e else Done tt.

(** A call that can only fail in the caller's way. *)
Definition or_reject {E A} (o : option A) (e : E) : outcome E A :=
  match o with Some a => Done a | None => Reject e end.

(** Replace the error of a callee by the caller's. *)
Definition map_error {E F A} (f : E -> F) (m : outcome E A) : outcome F A :=
  match m with Done a => Done a | Reject e => Reject (f e) | Fault => Fault end.

Definition safe {E A} (m : outcome E A) (P : A -> Prop) : Prop :=
  match m with Done a => P a | Reject _ => True | Fault => False end.

Lemma safe_done {E A} (a : A) (P : A -> Prop) : P a -> safe (E := E) (Done a) P.
Proof. done. Qed.

Lemma safe_bind {E A B} (m : outcome E A) (k : A -> outcome E B) (Q : B -> Prop) :
  safe m (fun a => safe (k a) Q) -> safe (m ≫= k) Q.
Proof. destruct m; done. Qed.

Lemma safe_fmap {E A B} (f : A -> B) (m : outcome E A) (Q : B -> Prop) :
  safe m (fun a => Q (f a)) -> safe (f <$> m) Q.
Proof. destruct m; done. Qed.

Lemma safe_mono {E A} (m : outcome E A) (P Q : A -> Prop) :
  safe m P -> (forall a, P a -> Q a) -> safe m Q.
Proof. destruct m; cbn; auto. Qed.

Lemma safe_check {E} (b : bool) (e : E) (P : unit -> Prop) :
  (b = false -> P tt) -> safe (reject_if b e) P.
Proof. destruct b; cbn; auto. Qed.

Lemma safe_or_reject {E A} (o : option A) (e : E) (P : A -> Prop) :
  (forall a, o = Some a -> P a) -> safe (or_reject o e) P.
Proof. destruct o; cbn; auto. Qed.

Lemma safe_map_error {E F A} (f : E -> F) (m : outcome E A) (P : A -> Prop) :
  safe m P -> safe (map_error f m) P.
Proof. destruct m; done. Qed.

Lemma safe_not_fault {E A} (m : outcome E A) P : safe m P -> m <> Fault.
Proof. by destruct m. Qed.

Lemma safe_elim {E A} (m : outcome E A) P a : safe m P -> m = Done a -> P a.
Proof. by intros H ->. Qed.

(** [m] returns a value, which satisfies [P]. *)
Definition succeeds {E A} (m : outcome E A) (P : A -> Prop) : Prop :=
  match m with Done a => P a | _ => False end.

Lemma succeeds_bind {E A B} (m : outcome E A) (k : A -> outcome E B) (Q : B -> Prop) :
  succeeds m (fun a => succeeds (k a) Q) -> succeeds (m ≫= k) Q.
Proof. destruct m; done. Qed.

Lemma succeeds_fmap {E A B} (f : A -> B) (m : outcome E A) (Q : B -> Prop) :
  succeeds m (fun a => Q (f a)) -> succeeds (f <$> m) Q.
Proof. destruct m; done. Qed.

Lemma succeeds_mono {E A} (m : outcome E A) (P Q : A -> Prop) :
  succeeds m P -> (forall a, P a -> Q a) -> succeeds m Q.
Proof. destruct m; cbn; auto. Qed.

Lemma succeeds_check {E} (b : bool) (e : E) (P : unit -> Prop) :
  b = false -> P tt -> succeeds (reject_if b e) P.
Proof. by intros ->. Qed.

Lemma succeeds_elim {E A} (m : outcome E A) (P : A -> Prop) :
  succeeds m P -> exists a, m = Done a /\ P a.
Proof. destruct m; [by eexists|done..]. Qed.

Lemma succeeds_intro {E A} (m : outcome E A) a (P : A -> Prop) :
  m = Done a -> P a -> succeeds m P.
Proof. by intros ->. Qed.

(** ** Buffers *)

Definition byte_ok (b : Z) : Prop := 0 <= b < 256.

Definition blen (buf : list Z) : Z := Z.of_nat (length buf).

(** The [n] bytes at offset [off]. *)
Definition sub (buf : list Z) (off n : Z) : list Z :=
  take (Z.to_nat n) (drop (Z.to_nat off) buf).

Definition in_buf (buf : list Z) (off n : Z) : bool :=
  (0 <=? off) && (0 <=? n) && (off + n <=? blen buf).

(** [memcpy(&result, buf + off, n)]. *)
Definition fetch {E} (buf : list Z) (off n : Z) : outcome E (list Z) :=
  if in_buf buf off n then Done (sub buf off n) else Fault.

(** The buffer with the bytes at [off] replaced by [bs]. *)
Definition splice (buf : list Z) (off : Z) (bs : list Z) : list Z :=
  take (Z.to_nat off) buf ++ bs ++ drop (Z.to_nat off + length bs) buf.

(** [memcpy(buf + off, bs, sizeof(bs))]. *)
Definition store {E} (buf : list Z) (off : Z) (bs : list Z) : outcome E (list Z) :=
  if in_buf buf off (blen bs) then Done (splice buf off bs) else Fault.

(** [calloc(1, n)]. *)
Definition zeros (n : Z) : list Z := replicate (Z.to_nat n) 0.

(** The index of the first zero byte, as [memchr(bs, '\0', sizeof(bs))]. *)
Fixpoint find_zero (bs : list Z) : option Z :=
  match bs with
  | [] => None
  | b :: r => if b =? 0 then Some 0 else Z.succ <$> find_zero r
  end.

(** The bytes before the first zero byte: the C string at the start. *)
Fixpoint c_string (bs : list Z) : list Z :=
  match bs with
  | [] => []
  | b :: r => if b =? 0 then [] else b :: c_string r
  end.

(** ** Integers in memory *)

Fixpoint le_int (bs : list Z) : Z :=
  match bs with [] => 0 | b :: r => b + 256 * le_int r end.

Fixpoint le_bytes (n : nat) (v : Z) : list Z :=
  match n with O => [] | S m => v mod 256 :: le_bytes m (v / 256) end.

Definition be_int (bs : list Z) : Z := le_int (rev bs).
Definition be_bytes (n : nat) (v : Z) : list Z := rev (le_bytes n v).

(** Fields in memory; the host is little-endian, code signatures are
    big-endian. *)
Definition u8_at {E} (buf : list Z) (off : Z) : outcome E Z := le_int <$> fetch buf off 1.
Definition u32_at {E} (buf : list Z) (off : Z) : outcome E Z := le_int <$> fetch buf off 4.
Definition u64_at {E} (buf : list Z) (off : Z) : outcome E Z := le_int <$> fetch buf off 8.
Definition be32_at {E} (buf : list Z) (off : Z) : outcome E Z := be_int <$> fetch buf off 4.
Definition be64_at {E} (buf : list Z) (off : Z) : outcome E Z := be_int <$> fetch buf off 8.

(** [OSSwapInt32] and [OSSwapInt64]. *)
Definition OSSwapInt32 (v : Z) : Z := be_int (le_bytes 4 v).
Definition OSSwapInt64 (v : Z) : Z := be_int (le_bytes 8 v).

(** ** Lemmas on buffers *)

Lemma blen_nonneg buf : 0 <= blen buf.
Proof. unfold blen. lia. Qed.

Lemma in_buf_true buf off n :
  in_buf buf off n = true <-> 0 <= off /\ 0 <= n /\ off + n <= blen buf.
Proof. unfold in_buf. rewrite !andb_true_iff, !Z.leb_le. tauto. Qed.

Lemma blen_sub buf off n :
  0 <= off -> 0 <= n -> off + n <= blen buf -> blen (sub buf off n) = n.
Proof. unfold blen, sub. intros. rewrite length_take, length_drop. lia. Qed.

Lemma blen_splice buf off bs :
  0 <= off -> off + blen bs <= blen buf -> blen (splice buf off bs) = blen buf.
Proof.
  unfold blen, splice. intros. rewrite !length_app, length_take, length_drop. lia.
Qed.

Lemma blen_zeros n : 0 <= n -> blen (zeros n) = n.
Proof. unfold blen, zeros. intros. rewrite length_replicate. lia. Qed.

Lemma blen_app l k : blen (l ++ k) = blen l + blen k.
Proof. unfold blen. rewrite length_app. lia. Qed.

Lemma sub_sub buf off n off' n' :
  0 <= off -> 0 <= off' -> 0 <= n' -> off' + n' <= n ->
  sub (sub buf off n) off' n' = sub buf (off + off') n'.
Proof.
  unfold sub. intros. rewrite skipn_firstn_comm, take_take, drop_drop.
  f_equal; [lia|]. f_equal. lia.
Qed.

Lemma sub_full buf : sub buf 0 (blen buf) = buf.
Proof. unfold sub, blen. rewrite drop_0, Nat2Z.id, firstn_all. done. Qed.

Lemma sub_app_split buf off n m :
  0 <= off -> 0 <= n -> 0 <= m -> sub buf off (n + m) = sub buf off n ++ sub buf (off + n) m.
Proof.
  unfold sub. intros.
  replace (Z.to_nat (n + m)) with (Z.to_nat n + Z.to_nat m)%nat by lia.
  rewrite <- take_take_drop, drop_drop. do 3 f_equal. lia.
Qed.

Lemma sub_splice_same buf off bs :
  0 <= off -> off + blen bs <= blen buf -> sub (splice buf off bs) off (blen bs) = bs.
Proof.
  unfold sub, splice, blen. intros.
  rewrite drop_app_length' by (rewrite length_take; lia).
  apply take_app_length'. lia.
Qed.

Lemma sub_splice_before buf off bs o n :
  0 <= o -> 0 <= n -> o + n <= off -> off + blen bs <= blen buf ->
  sub (splice buf off bs) o n = sub buf o n.
Proof.
  unfold sub, splice, blen. intros.
  rewrite drop_app_le by (rewrite length_take; lia).
  rewrite take_app_le by (rewrite length_drop, length_take; lia).
  rewrite skipn_firstn_comm, take_take. f_equal. lia.
Qed.

Lemma sub_splice_after buf off bs o n :
  0 <= off -> 0 <= n -> off + blen bs <= o -> off + blen bs <= blen buf ->
  sub (splice buf off bs) o n = sub buf o n.
Proof.
  unfold sub, splice, blen. intros.
  rewrite drop_app_ge by (rewrite length_take; lia).
  rewrite drop_app_ge by (rewrite length_take; lia).
  rewrite drop_drop, length_take. do 2 f_equal. lia.
Qed.

Lemma sub_splice_other buf off bs o n :
  0 <= o -> 0 <= n -> 0 <= off -> o + n <= off \/ off + blen bs <= o ->
  off + blen bs <= blen buf ->
  sub (splice buf off bs) o n = sub buf o n.
Proof.
  intros ??? [?|?] ?; [by apply sub_splice_before|by apply sub_splice_after].
Qed.

(** A part of what was spliced in. *)
Lemma sub_splice_inside buf off bs o n :
  0 <= off -> off <= o -> 0 <= n -> o + n <= off + blen bs -> off + blen bs <= blen buf ->
  sub (splice buf off bs) o n = sub bs (o - off) n.
Proof.
  intros. pose proof (sub_splice_same buf off bs ltac:(lia) ltac:(lia)) as E.
  rewrite <- E at 2. rewrite sub_sub by lia. f_equal. lia.
Qed.

Lemma sub_zeros n o k :
  0 <= o -> 0 <= k -> o + k <= n -> sub (zeros n) o k = zeros k.
Proof.
  unfold sub, zeros. intros. rewrite drop_replicate, take_replicate. f_equal. lia.
Qed.

Lemma Forall_sub (P : Z -> Prop) buf off n : Forall P buf -> Forall P (sub buf off n).
Proof. intros. by apply Forall_take, Forall_drop. Qed.

Lemma Forall_splice (P : Z -> Prop) buf off bs :
  Forall P buf -> Forall P bs -> Forall P (splice buf off bs).
Proof.
  intros. unfold splice. rewrite !Forall_app. auto using Forall_take, Forall_drop.
Qed.

Lemma Forall_zeros (P : Z -> Prop) n : P 0 -> Forall P (zeros n).
Proof. intros. by apply Forall_replicate. Qed.

#[export] Hint Resolve Forall_sub Forall_splice blen_nonneg : lc32.

(** ** Lemmas on integers in memory *)

Lemma length_le_bytes n v : length (le_bytes n v) = n.
Proof. revert v. induction n; intros; cbn; auto. Qed.

Lemma blen_le_bytes n v : blen (le_bytes n v) = Z.of_nat n.
Proof. unfold blen. by rewrite length_le_bytes. Qed.

Lemma blen_be_bytes n v : blen (be_bytes n v) = Z.of_nat n.
Proof. unfold blen, be_bytes. by rewrite length_rev, length_le_bytes. Qed.

Lemma le_bytes_ok n v : Forall byte_ok (le_bytes n v).
Proof.
  revert v. induction n; intros; cbn; constructor; [|done]. apply Z.mod_pos_bound. lia.
Qed.

Lemma be_bytes_ok n v : Forall byte_ok (be_bytes n v).
Proof. unfold be_bytes. apply Forall_rev, le_bytes_ok. Qed.

Lemma le_int_range bs :
  Forall byte_ok bs -> 0 <= le_int bs < 256 ^ blen bs.
Proof.
  unfold blen. induction 1 as [|b r Hb Hr IH]; cbn -[Z.pow Z.of_nat]; [lia|].
  unfold byte_ok in Hb. rewrite Nat2Z.inj_succ, Z.pow_succ_r by lia. lia.
Qed.

Lemma be_int_range bs :
  Forall byte_ok bs -> 0 <= be_int bs < 256 ^ blen bs.
Proof.
  intros H. unfold be_int. replace (blen bs) with (blen (rev bs)).
  - by apply le_int_range, Forall_rev.
  - unfold blen. by rewrite length_rev.
Qed.

Lemma le_int_le_bytes n v : 0 <= v < 256 ^ Z.of_nat n -> le_int (le_bytes n v) = v.
Proof.
  revert v. induction n as [|n IH]; intros v Hv.
  - cbn in *. lia.
  - cbn [le_bytes le_int]. rewrite Nat2Z.inj_succ, Z.pow_succ_r in Hv by lia.
    pose proof (Z.div_mod v 256 ltac:(lia)).
    rewrite IH; [lia|]. split; [apply Z.div_pos; lia|apply Z.div_lt_upper_bound; lia].
Qed.

Lemma le_bytes_le_int bs :
  Forall byte_ok bs -> le_bytes (length bs) (le_int bs) = bs.
Proof.
  induction 1 as [|b r Hb Hr IH]; cbn; [done|]. f_equal.
  - rewrite Z.mul_comm, Z.mod_add by lia. apply Z.mod_small, Hb.
  - rewrite Z.mul_comm, Z.div_add by lia. rewrite (Z.div_small b) by apply Hb. done.
Qed.

Lemma be_int_be_bytes n v : 0 <= v < 256 ^ Z.of_nat n -> be_int (be_bytes n v) = v.
Proof. intros. unfold be_int, be_bytes. rewrite rev_involutive. by apply le_int_le_bytes. Qed.

(** Swapping twice is the identity. *)
Lemma swap_involutive n v :
  0 <= v < 256 ^ Z.of_nat n ->
  be_int (le_bytes n (be_int (le_bytes n v))) = v.
Proof.
  intros. unfold be_int at 2.
  assert (length (rev (le_bytes n v)) = n) as Hl by (by rewrite length_rev, length_le_bytes).
  rewrite <- Hl at 1. rewrite le_bytes_le_int by apply Forall_rev, le_bytes_ok.
  unfold be_int. rewrite rev_involutive. by apply le_int_le_bytes.
Qed.

Lemma swap_range n v : 0 <= be_int (le_bytes n v) < 256 ^ Z.of_nat n.
Proof.
  pose proof (be_int_range (le_bytes n v) (le_bytes_ok n v)) as H.
  by rewrite blen_le_bytes in H.
Qed.

(** ** Safe accesses *)

Lemma safe_fetch {E} buf off n (P : list Z -> Prop) :
  0 <= off -> 0 <= n -> off + n <= blen buf -> P (sub buf off n) ->
  safe (E := E) (fetch buf off n) P.
Proof.
  intros. unfold fetch. assert (in_buf buf off n = true) as -> by (by apply in_buf_true). done.
Qed.

Lemma fetch_done {E} buf off n bs :
  fetch (E := E) buf off n = Done bs ->
  0 <= off /\ 0 <= n /\ off + n <= blen buf /\ bs = sub buf off n.
Proof.
  unfold fetch. destruct (in_buf buf off n) eqn:H; [|done].
  apply in_buf_true in H. intros [= <-]. tauto.
Qed.

Lemma safe_store {E} buf off bs (P : list Z -> Prop) :
  0 <= off -> off + blen bs <= blen buf -> P (splice buf off bs) ->
  safe (E := E) (store buf off bs) P.
Proof.
  intros. unfold store. assert (in_buf buf off (blen bs) = true) as ->; [|done].
  apply in_buf_true. pose proof (blen_nonneg bs). lia.
Qed.

(** A store changes its range and nothing else. *)
Lemma succeeds_store {E} R o bs (P : list Z -> Prop) :
  Forall byte_ok R -> Forall byte_ok bs -> 0 <= o -> o + blen bs <= blen R ->
  (forall R', blen R' = blen R -> Forall byte_ok R' -> sub R' o (blen bs) = bs ->
     (forall o' n, 0 <= o' -> 0 <= n -> o' + n <= o \/ o + blen bs <= o' ->
        sub R' o' n = sub R o' n) -> P R') ->
  succeeds (E := E) (store R o bs) P.
Proof.
  intros HR Hb Ho Hl HP. unfold store. pose proof (blen_nonneg bs).
  rewrite (proj2 (in_buf_true R o (blen bs))) by lia. cbn. apply HP.
  - by apply blen_splice.
  - by apply Forall_splice.
  - by apply sub_splice_same.
  - intros. by apply sub_splice_other.
Qed.

Section reads.
Context {E : Type} (buf : list Z) (Hbuf : Forall byte_ok buf).

Lemma safe_le n off (P : Z -> Prop) :
  0 <= off -> 0 <= n -> off + n <= blen buf ->
  (forall v, v = le_int (sub buf off n) -> 0 <= v < 256 ^ n -> P v) ->
  safe (E := E) (le_int <$> fetch buf off n) P.
Proof.
  intros. apply safe_fmap, safe_fetch; try done. apply H2; [done|].
  pose proof (le_int_range (sub buf off n) (Forall_sub _ _ _ _ Hbuf)) as R.
  by rewrite blen_sub in R.
Qed.

Lemma safe_be n off (P : Z -> Prop) :
  0 <= off -> 0 <= n -> off + n <= blen buf ->
  (forall v, v = be_int (sub buf off n) -> 0 <= v < 256 ^ n -> P v) ->
  safe (E := E) (be_int <$> fetch buf off n) P.
Proof.
  intros. apply safe_fmap, safe_fetch; try done. apply H2; [done|].
  pose proof (be_int_range (sub buf off n) (Forall_sub _ _ _ _ Hbuf)) as R.
  by rewrite blen_sub in R.
Qed.
End reads.

Lemma fetch_in_buf {E} buf off n :
  0 <= off -> 0 <= n -> off + n <= blen buf -> fetch (E := E) buf off n = Done (sub buf off n).
Proof. intros. unfold fetch. by rewrite (proj2 (in_buf_true buf off n)). Qed.

(** The values of fields, and their reads as these values. *)
Definition u8 (buf : list Z) (off : Z) : Z := le_int (sub buf off 1).
Definition be32 (buf : list Z) (off : Z) : Z := be_int (sub buf off 4).
Definition be64 (buf : list Z) (off : Z) : Z := be_int (sub buf off 8).

Lemma u8_at_in_buf {E} buf off :
  0 <= off -> off + 1 <= blen buf -> u8_at (E := E) buf off = Done (u8 buf off).
Proof. intros. unfold u8_at. by rewrite fetch_in_buf by lia. Qed.

Lemma be32_at_in_buf {E} buf off :
  0 <= off -> off + 4 <= blen buf -> be32_at (E := E) buf off = Done (be32 buf off).
Proof. intros. unfold be32_at. by rewrite fetch_in_buf by lia. Qed.

Lemma be64_at_in_buf {E} buf off :
  0 <= off -> off + 8 <= blen buf -> be64_at (E := E) buf off = Done (be64 buf off).
Proof. intros. unfold be64_at. by rewrite fetch_in_buf by lia. Qed.

Lemma be32_range buf off :
  Forall byte_ok buf -> 0 <= off -> off + 4 <= blen buf -> 0 <= be32 buf off < U32_MOD.
Proof.
  intros. unfold be32. pose proof (be_int_range (sub buf off 4) (Forall_sub _ _ _ _ H)) as R.
  by rewrite blen_sub in R by lia.
Qed.

Lemma be64_range buf off :
  Forall byte_ok buf -> 0 <= off -> off + 8 <= blen buf -> 0 <= be64 buf off < U64_MOD.
Proof.
  intros. unfold be64. pose proof (be_int_range (sub buf off 8) (Forall_sub _ _ _ _ H)) as R.
  by rewrite blen_sub in R by lia.
Qed.

Lemma u8_range buf off :
  Forall byte_ok buf -> 0 <= off -> off + 1 <= blen buf -> 0 <= u8 buf off < 256.
Proof.
  intros. unfold u8. pose proof (le_int_range (sub buf off 1) (Forall_sub _ _ _ _ H)) as R.
  by rewrite blen_sub in R by lia.
Qed.

(** ** Terminated strings *)

Lemma find_zero_spec bs i :
  find_zero bs = Some i ->
  0 <= i < blen bs /\ sub bs i 1 = [0] /\ c_string bs = sub bs 0 i.
Proof.
  revert i. induction bs as [|b r IH]; intros i; cbn; [done|].
  destruct (b =? 0) eqn:Hb; zb.
  - intros [= <-]. unfold blen, sub. cbn. subst. split; [lia|done].
  - intros (j & Hj & ->)%fmap_Some. apply IH in Hj as (H1 & H2 & H3).
    unfold blen in *. cbn [length]. split; [lia|]. unfold sub in *.
    replace (Z.to_nat (Z.succ j)) with (S (Z.to_nat j)) by lia. cbn.
    split; [done|]. by rewrite H3.
Qed.

Lemma find_zero_none bs : find_zero bs = None <-> Forall (fun b => b <> 0) bs.
Proof.
  induction bs as [|b r IH]; cbn; [split; [constructor|done]|].
  destruct (b =? 0) eqn:Hb; zb.
  - split; [done|]. intros [? _]%Forall_cons. done.
  - rewrite Forall_cons, <- IH. destruct (find_zero r); cbn; naive_solver.
Qed.

Lemma c_string_app s r : Forall (fun b => b <> 0) s -> c_string (s ++ 0 :: r) = s.
Proof.
  induction 1 as [|b s Hb _ IH]; cbn; [done|].
  apply Z.eqb_neq in Hb. by rewrite Hb, IH.
Qed.

Lemma find_zero_app s r :
  Forall (fun b => b <> 0) s -> find_zero (s ++ 0 :: r) = Some (blen s).
Proof.
  unfold blen. induction 1 as [|b s Hb _ IH]; cbn -[Z.of_nat]; [done|].
  apply Z.eqb_neq in Hb. rewrite Hb, IH. cbn -[Z.of_nat]. f_equal. lia.
Qed.

(** ** Stepping through code

    One statement of a [safe] goal: a check, a read, a callee's lemma. *)
Ltac safe_step :=
  lazymatch goal with
  | |- safe (_ ≫= _) _ => apply safe_bind
  | |- safe (mbind _ _) _ => apply safe_bind
  | |- safe (reject_if _ _) _ => apply safe_check; intro; zb
  | |- safe (or_reject _ _) _ => apply safe_or_reject; intros ? ?
  | |- safe (mret _) _ => apply safe_done
  | |- safe (Done _) _ => apply safe_done
  | |- safe (Reject _) _ => exact I
  | |- safe (if ?b then _ else _) _ => destruct b eqn:?; zb
  | |- safe (let _ := _ in _) _ => cbv zeta
  end.
