(* ===== verification/MachOImage.v ===== *)
(** The Mach-O parser of the installer tweak (src/Tweak/MachOImage.c).

    The parser reads a thin, FAT32 or FAT64 Mach-O file through a descriptor and
    records, for each slice, where its code signature, encryption range, build
    version and __LINKEDIT segment are.  The rest of the tweak trusts those
    records, so the parser validates every offset before it uses it.

    The file is read through [readAt]: its first argument numbers the call, so
    that two reads of the same range may answer differently (one may fail, and
    the file may change in between).  A structure is copied out of the bytes
    that were read; the command under inspection is the rest of the
    load-command buffer from its start on, so that an access behind the buffer
    is a [Fault].  A failed allocation of the command buffer is the failure of
    the read that fills it (the code reports both with one error). *)

From S2P Require Import Prelude Bytes.
From stdpp Require Import base list.
From Stdlib Require Import ZArith Lia.

Open Scope Z_scope.

(** ** Constants of <mach-o/loader.h>, <mach-o/fat.h> and <mach/machine.h> *)

Definition MH_MAGIC : Z := 0xfeedface.
Definition MH_CIGAM : Z := 0xcefaedfe.
Definition MH_MAGIC_64 : Z := 0xfeedfacf.
Definition MH_CIGAM_64 : Z := 0xcffaedfe.
Definition FAT_MAGIC : Z := 0xcafebabe.
Definition FAT_CIGAM : Z := 0xbebafeca.
Definition FAT_MAGIC_64 : Z := 0xcafebabf.
Definition FAT_CIGAM_64 : Z := 0xbfbafeca.

Definition CPU_ARCH_ABI64 : Z := 0x01000000.
Definition CPU_ARCH_ABI64_32 : Z := 0x02000000.
Definition CPU_TYPE_ARM : Z := 12.
Definition CPU_TYPE_ARM64 : Z := 0x0100000c.
Definition CPU_SUBTYPE_MASK : Z := 0xff000000.

Definition LC_REQ_DYLD : Z := 0x80000000.
Definition LC_SEGMENT : Z := 0x1.
Definition LC_SEGMENT_64 : Z := 0x19.
Definition LC_CODE_SIGNATURE : Z := 0x1d.
Definition LC_ENCRYPTION_INFO : Z := 0x21.
Definition LC_ENCRYPTION_INFO_64 : Z := 0x2c.
Definition LC_VERSION_MIN_IPHONEOS : Z := 0x25.
Definition LC_BUILD_VERSION : Z := 0x32.
Definition LC_LINKER_OPTION : Z := 0x2d.
Definition LC_RPATH : Z := Z.lor 0x1c LC_REQ_DYLD.
Definition LC_TARGET_TRIPLE : Z := 0x39.
Definition LC_FILESET_ENTRY : Z := Z.lor 0x35 LC_REQ_DYLD.

(** LC_LOAD_DYLIB, LC_ID_DYLIB, LC_LOAD_WEAK_DYLIB, LC_REEXPORT_DYLIB,
    LC_LAZY_LOAD_DYLIB, LC_LOAD_UPWARD_DYLIB. *)
Definition dylib_commands : list Z :=
  [0xc; 0xd; Z.lor 0x18 LC_REQ_DYLD; Z.lor 0x1f LC_REQ_DYLD; 0x20; Z.lor 0x23 LC_REQ_DYLD].

(** LC_LOAD_DYLINKER, LC_ID_DYLINKER, LC_DYLD_ENVIRONMENT, LC_SUB_FRAMEWORK,
    LC_SUB_UMBRELLA, LC_SUB_CLIENT, LC_SUB_LIBRARY and LC_TARGET_TRIPLE: one
    string behind a structure of twelve bytes whose offset field is at 8. *)
Definition name_commands : list Z :=
  [0xe; 0xf; 0x27; 0x12; 0x13; 0x14; 0x15; LC_TARGET_TRIPLE].

(** Commands of which only the size is checked, with the size of their
    structure: LC_SYMTAB, LC_SYMSEG, LC_DYSYMTAB, LC_ROUTINES, LC_ROUTINES_64,
    LC_TWOLEVEL_HINTS, LC_PREBIND_CKSUM, LC_UUID, LC_DYLD_INFO,
    LC_DYLD_INFO_ONLY, LC_MAIN, LC_SOURCE_VERSION, LC_NOTE, LC_THREAD,
    LC_UNIXTHREAD. *)
Definition sized_commands : list (Z * Z) :=
  [(0x2, 24); (0x3, 16); (0xb, 80); (0x11, 40); (0x1a, 72); (0x16, 16); (0x17, 12);
   (0x1b, 24); (0x22, 48); (Z.lor 0x22 LC_REQ_DYLD, 48); (Z.lor 0x28 LC_REQ_DYLD, 24);
   (0x2a, 16); (0x31, 40); (0x4, 8); (0x5, 8)].

(** LC_VERSION_MIN_MACOSX, _IPHONEOS, _TVOS, _WATCHOS. *)
Definition version_min_commands : list Z := [0x24; LC_VERSION_MIN_IPHONEOS; 0x2f; 0x30].

(** LC_SEGMENT_SPLIT_INFO, LC_FUNCTION_STARTS, LC_DATA_IN_CODE,
    LC_DYLIB_CODE_SIGN_DRS, LC_LINKER_OPTIMIZATION_HINT, LC_DYLD_EXPORTS_TRIE,
    LC_DYLD_CHAINED_FIXUPS, LC_ATOM_INFO, LC_FUNCTION_VARIANTS,
    LC_FUNCTION_VARIANT_FIXUPS. *)
Definition linkedit_commands : list Z :=
  [0x1e; 0x26; 0x29; 0x2b; 0x2e; Z.lor 0x33 LC_REQ_DYLD; Z.lor 0x34 LC_REQ_DYLD;
   0x36; 0x37; 0x38].

Definition LC32_MAX_MACH_O_SLICES : Z := 5.
Definition LC32_MACH_O_MAX_LOAD_COMMANDS : Z := 1000.
Definition LC32_MACH_O_MAX_LOAD_COMMAND_BYTES : Z := 8 * 1024 * 1024.
Definition LC32_MACH_O_MAX_LOAD_COMMAND_SIZE : Z := 64 * 1024.
Definition LC32_THIN_MACH_O_ALIGN_EXPONENT : Z := 14.

(** ** Data *)

Record LC32MachOSlice := mkSlice {
  cpuType : Z;
  cpuSubtype : Z;
  fileType : Z;
  offset : Z;
  size : Z;
  alignExponent : Z;
  is32Bit : bool;
  isByteSwapped : bool;
  encrypted : bool;
  hasCodeSignature : bool;
  hasLinkedit : bool;
  hasBuildVersion : bool;
  hasVersionMinIPhoneOS : bool;
  headerSize : Z;
  loadCommandCount : Z;
  loadCommandBytes : Z;
  codeSignatureOffset : Z;
  codeSignatureSize : Z;
  codeSignatureCommandOffset : Z;
  encryptionOffset : Z;
  encryptionSize : Z;
  encryptionIdentifier : Z;
  buildVersionCommandOffset : Z;
  buildVersionPlatform : Z;
  buildVersionMinOS : Z;
  buildVersionSDK : Z;
  versionMinIPhoneOSSDK : Z;
  linkeditCommandOffset : Z;
  linkeditVMAddress : Z;
  linkeditVMSize : Z;
  linkeditFileOffset : Z;
  linkeditFileSize : Z
}.

(** [LC32MachOSlice slice = {0}]. *)
Definition zero_slice : LC32MachOSlice :=
  mkSlice 0 0 0 0 0 0 false false false false false false false 0 0 0 0 0 0 0 0 0 0 0 0 0 0 0 0 0 0 0.

(** The fields of a descriptor. *)
Definition set_range (s : LC32MachOSlice) (off sz align : Z) : LC32MachOSlice :=
  mkSlice (cpuType s) (cpuSubtype s) (fileType s) off sz align (is32Bit s) (isByteSwapped s)
    (encrypted s) (hasCodeSignature s) (hasLinkedit s) (hasBuildVersion s)
    (hasVersionMinIPhoneOS s) (headerSize s) (loadCommandCount s) (loadCommandBytes s)
    (codeSignatureOffset s) (codeSignatureSize s) (codeSignatureCommandOffset s)
    (encryptionOffset s) (encryptionSize s) (encryptionIdentifier s) (buildVersionCommandOffset
    s) (buildVersionPlatform s) (buildVersionMinOS s) (buildVersionSDK s) (versionMinIPhoneOSSDK
    s) (linkeditCommandOffset s) (linkeditVMAddress s) (linkeditVMSize s) (linkeditFileOffset s)
    (linkeditFileSize s).

(** The architecture of a descriptor. *)
Definition set_arch (s : LC32MachOSlice) (cpu subtype : Z) : LC32MachOSlice :=
  mkSlice cpu subtype (fileType s) (offset s) (size s) (alignExponent s) (is32Bit s)
    (isByteSwapped s) (encrypted s) (hasCodeSignature s) (hasLinkedit s) (hasBuildVersion s)
    (hasVersionMinIPhoneOS s) (headerSize s) (loadCommandCount s) (loadCommandBytes s)
    (codeSignatureOffset s) (codeSignatureSize s) (codeSignatureCommandOffset s)
    (encryptionOffset s) (encryptionSize s) (encryptionIdentifier s) (buildVersionCommandOffset
    s) (buildVersionPlatform s) (buildVersionMinOS s) (buildVersionSDK s) (versionMinIPhoneOSSDK
    s) (linkeditCommandOffset s) (linkeditVMAddress s) (linkeditVMSize s) (linkeditFileOffset s)
    (linkeditFileSize s).

(** The fields of the Mach-O header. *)
Definition set_header (s : LC32MachOSlice) (cpu subtype file : Z) (narrow swap : bool)
    (header : Z) : LC32MachOSlice :=
  mkSlice cpu subtype file (offset s) (size s) (alignExponent s) narrow swap (encrypted s)
    (hasCodeSignature s) (hasLinkedit s) (hasBuildVersion s) (hasVersionMinIPhoneOS s) header
    (loadCommandCount s) (loadCommandBytes s) (codeSignatureOffset s) (codeSignatureSize s)
    (codeSignatureCommandOffset s) (encryptionOffset s) (encryptionSize s) (encryptionIdentifier
    s) (buildVersionCommandOffset s) (buildVersionPlatform s) (buildVersionMinOS s)
    (buildVersionSDK s) (versionMinIPhoneOSSDK s) (linkeditCommandOffset s) (linkeditVMAddress
    s) (linkeditVMSize s) (linkeditFileOffset s) (linkeditFileSize s).

(** The size of the load-command table. *)
Definition set_commands (s : LC32MachOSlice) (count bytes : Z) : LC32MachOSlice :=
  mkSlice (cpuType s) (cpuSubtype s) (fileType s) (offset s) (size s) (alignExponent s)
    (is32Bit s) (isByteSwapped s) (encrypted s) (hasCodeSignature s) (hasLinkedit s)
    (hasBuildVersion s) (hasVersionMinIPhoneOS s) (headerSize s) count bytes
    (codeSignatureOffset s) (codeSignatureSize s) (codeSignatureCommandOffset s)
    (encryptionOffset s) (encryptionSize s) (encryptionIdentifier s) (buildVersionCommandOffset
    s) (buildVersionPlatform s) (buildVersionMinOS s) (buildVersionSDK s) (versionMinIPhoneOSSDK
    s) (linkeditCommandOffset s) (linkeditVMAddress s) (linkeditVMSize s) (linkeditFileOffset s)
    (linkeditFileSize s).

(** What LC_BUILD_VERSION records. *)
Definition set_build_version (s : LC32MachOSlice) (off platform minos sdk : Z) : LC32MachOSlice :=
  mkSlice (cpuType s) (cpuSubtype s) (fileType s) (offset s) (size s) (alignExponent s)
    (is32Bit s) (isByteSwapped s) (encrypted s) (hasCodeSignature s) (hasLinkedit s) true
    (hasVersionMinIPhoneOS s) (headerSize s) (loadCommandCount s) (loadCommandBytes s)
    (codeSignatureOffset s) (codeSignatureSize s) (codeSignatureCommandOffset s)
    (encryptionOffset s) (encryptionSize s) (encryptionIdentifier s) off platform minos sdk
    (versionMinIPhoneOSSDK s) (linkeditCommandOffset s) (linkeditVMAddress s) (linkeditVMSize s)
    (linkeditFileOffset s) (linkeditFileSize s).

(** What LC_VERSION_MIN_IPHONEOS records. *)
Definition set_version_min (s : LC32MachOSlice) (sdk : Z) : LC32MachOSlice :=
  mkSlice (cpuType s) (cpuSubtype s) (fileType s) (offset s) (size s) (alignExponent s)
    (is32Bit s) (isByteSwapped s) (encrypted s) (hasCodeSignature s) (hasLinkedit s)
    (hasBuildVersion s) true (headerSize s) (loadCommandCount s) (loadCommandBytes s)
    (codeSignatureOffset s) (codeSignatureSize s) (codeSignatureCommandOffset s)
    (encryptionOffset s) (encryptionSize s) (encryptionIdentifier s) (buildVersionCommandOffset
    s) (buildVersionPlatform s) (buildVersionMinOS s) (buildVersionSDK s) sdk
    (linkeditCommandOffset s) (linkeditVMAddress s) (linkeditVMSize s) (linkeditFileOffset s)
    (linkeditFileSize s).

(** What the __LINKEDIT segment records. *)
Definition set_linkedit (s : LC32MachOSlice) (off vmaddr vmsize fileoff filesize : Z) : LC32MachOSlice :=
  mkSlice (cpuType s) (cpuSubtype s) (fileType s) (offset s) (size s) (alignExponent s)
    (is32Bit s) (isByteSwapped s) (encrypted s) (hasCodeSignature s) true (hasBuildVersion s)
    (hasVersionMinIPhoneOS s) (headerSize s) (loadCommandCount s) (loadCommandBytes s)
    (codeSignatureOffset s) (codeSignatureSize s) (codeSignatureCommandOffset s)
    (encryptionOffset s) (encryptionSize s) (encryptionIdentifier s) (buildVersionCommandOffset
    s) (buildVersionPlatform s) (buildVersionMinOS s) (buildVersionSDK s) (versionMinIPhoneOSSDK
    s) off vmaddr vmsize fileoff filesize.

(** What LC_ENCRYPTION_INFO records. *)
Definition set_encryption (s : LC32MachOSlice) (off sz id : Z) : LC32MachOSlice :=
  mkSlice (cpuType s) (cpuSubtype s) (fileType s) (offset s) (size s) (alignExponent s)
    (is32Bit s) (isByteSwapped s) (negb (id =? 0)) (hasCodeSignature s) (hasLinkedit s)
    (hasBuildVersion s) (hasVersionMinIPhoneOS s) (headerSize s) (loadCommandCount s)
    (loadCommandBytes s) (codeSignatureOffset s) (codeSignatureSize s)
    (codeSignatureCommandOffset s) off sz id (buildVersionCommandOffset s) (buildVersionPlatform
    s) (buildVersionMinOS s) (buildVersionSDK s) (versionMinIPhoneOSSDK s)
    (linkeditCommandOffset s) (linkeditVMAddress s) (linkeditVMSize s) (linkeditFileOffset s)
    (linkeditFileSize s).

(** What LC_CODE_SIGNATURE records. *)
Definition set_code_signature (s : LC32MachOSlice) (off sz cmdoff : Z) : LC32MachOSlice :=
  mkSlice (cpuType s) (cpuSubtype s) (fileType s) (offset s) (size s) (alignExponent s)
    (is32Bit s) (isByteSwapped s) (encrypted s) true (hasLinkedit s) (hasBuildVersion s)
    (hasVersionMinIPhoneOS s) (headerSize s) (loadCommandCount s) (loadCommandBytes s) off sz
    cmdoff (encryptionOffset s) (encryptionSize s) (encryptionIdentifier s)
    (buildVersionCommandOffset s) (buildVersionPlatform s) (buildVersionMinOS s)
    (buildVersionSDK s) (versionMinIPhoneOSSDK s) (linkeditCommandOffset s) (linkeditVMAddress
    s) (linkeditVMSize s) (linkeditFileOffset s) (linkeditFileSize s).

Record LC32MachOImage := mkImage {
  slices : list LC32MachOSlice;
  fileSize : Z;
  isFat : bool;
  isFat64 : bool;
  isFatByteSwapped : bool
}.

(** [image->count]. *)
Definition count (image : LC32MachOImage) : Z := Z.of_nat (length (slices image)).

Record LC32LinkeditDataRange := mkRange { rangeOffset : Z; rangeSize : Z }.

Record LC32LoadCommandState := mkState {
  linkeditCount : Z;
  encryptionCount : Z;
  codeSignatureCount : Z;
  buildVersionCount : Z;
  versionMinIPhoneOSCount : Z;
  linkeditDataRanges : list LC32LinkeditDataRange
}.

Definition initial_state : LC32LoadCommandState := mkState 0 0 0 0 0 [].

Definition count_linkedit (st : LC32LoadCommandState) : LC32LoadCommandState :=
  mkState (linkeditCount st + 1) (encryptionCount st) (codeSignatureCount st)
    (buildVersionCount st) (versionMinIPhoneOSCount st) (linkeditDataRanges st).
Definition count_encryption (st : LC32LoadCommandState) : LC32LoadCommandState :=
  mkState (linkeditCount st) (encryptionCount st + 1) (codeSignatureCount st)
    (buildVersionCount st) (versionMinIPhoneOSCount st) (linkeditDataRanges st).
Definition count_signature (st : LC32LoadCommandState) : LC32LoadCommandState :=
  mkState (linkeditCount st) (encryptionCount st) (codeSignatureCount st + 1)
    (buildVersionCount st) (versionMinIPhoneOSCount st) (linkeditDataRanges st).
Definition count_build_version (st : LC32LoadCommandState) : LC32LoadCommandState :=
  mkState (linkeditCount st) (encryptionCount st) (codeSignatureCount st)
    (buildVersionCount st + 1) (versionMinIPhoneOSCount st) (linkeditDataRanges st).
Definition count_version_min (st : LC32LoadCommandState) : LC32LoadCommandState :=
  mkState (linkeditCount st) (encryptionCount st) (codeSignatureCount st)
    (buildVersionCount st) (versionMinIPhoneOSCount st + 1) (linkeditDataRanges st).
Definition add_range (st : LC32LoadCommandState) (r : LC32LinkeditDataRange)
    : LC32LoadCommandState :=
  mkState (linkeditCount st) (encryptionCount st) (codeSignatureCount st)
    (buildVersionCount st) (versionMinIPhoneOSCount st) (linkeditDataRanges st ++ [r]).

(** One constructor per message of the parser. *)
Inductive MachOError : Type :=
| InvalidArguments | StatFailed | FileEmpty | MagicUnreadable
| SliceTooShort | UnsupportedMagic (magic : Z) | HeaderTruncated | HeaderUnreadable
| CpuWidthMismatch | InvalidCommandTable | CommandsUnreadable | CommandHeaderTruncated
| CommandMalformed (index : Z) | CommandSizesMismatch | LinkeditDataOutside
| SignatureOutsideLinkedit | EncryptionOverlapsSignature
| FatHeaderTruncated | FatHeaderUnreadable | FatSliceCount (n : Z) | FatTableTruncated
| FatArchUnreadable | FatReservedField (index : Z) | FatSliceRange (index : Z)
| FatSliceAlignment (index : Z) | FatDuplicate | FatOverlap | FatHeaderMismatch (index : Z).

(** ** Ranges and byte order *)

Definition LC32MachORangeFits (offset size containerSize : Z) : bool :=
  (offset <=? containerSize) && (size <=? containerSize - offset).

Definition LC32MachORangeContains (outerOffset outerSize innerOffset innerSize : Z) : bool :=
  (outerOffset <=? innerOffset) &&
  LC32MachORangeFits (innerOffset - outerOffset) innerSize outerSize.

Definition LC32MachORangesOverlap (firstOffset firstSize secondOffset secondSize : Z) : bool :=
  negb (firstSize =? 0) && negb (secondSize =? 0) &&
  (firstOffset <? u64 (secondOffset + secondSize)) &&
  (secondOffset <? u64 (firstOffset + firstSize)).

Definition LC32MachOConvertUInt32 (value : Z) (swap : bool) : Z :=
  if swap then OSSwapInt32 value else value.
Definition LC32MachOConvertUInt64 (value : Z) (swap : bool) : Z :=
  if swap then OSSwapInt64 value else value.

Definition LC32MachOBaseCPUSubtype (subtype : Z) : Z :=
  Z.land subtype (u32_not CPU_SUBTYPE_MASK).

Definition LC32MachOCPUTypeUses64BitHeader (cpuType : Z) : bool :=
  has_flag cpuType (Z.lor CPU_ARCH_ABI64 CPU_ARCH_ABI64_32).

(** A field of a structure copied with memcpy, in the byte order of the file. *)
Definition field32 {E} (bytes : list Z) (off : Z) (swap : bool) : outcome E Z :=
  (fun v => LC32MachOConvertUInt32 v swap) <$> u32_at bytes off.
Definition field64 {E} (bytes : list Z) (off : Z) (swap : bool) : outcome E Z :=
  (fun v => LC32MachOConvertUInt64 v swap) <$> u64_at bytes off.

(** ** Load commands

    [command] is the load-command buffer from the command on; the validators
    answer [Reject tt] where the code returns false. *)

Definition LC32MachOCommandHasString {E} (command : list Z)
    (commandSize stringOffset minimumOffset : Z) : outcome E bool :=
  if (stringOffset <? minimumOffset) || (commandSize <=? stringOffset) then mret false
  else
    str ← fetch command stringOffset (commandSize - stringOffset);
    mret (bool_decide (find_zero str <> None)).

Definition LC32MachOValidateStringCommand {E} (command : list Z) (commandSize : Z)
    (swap : bool) (minimumSize stringOffsetField : Z) : outcome E bool :=
  if (commandSize <? minimumSize) || (minimumSize - 4 <? stringOffsetField) then mret false
  else
    stringOffset ← field32 command stringOffsetField swap;
    LC32MachOCommandHasString command commandSize stringOffset minimumSize.

Definition LC32MachORecordLinkeditDataRange (offset size sliceSize commandsEnd : Z)
    (st : LC32LoadCommandState) : outcome unit LC32LoadCommandState :=
  if size =? 0 then
    _ ← reject_if (negb ((offset =? 0) || (offset <=? sliceSize))) tt; mret st
  else
    _ ← reject_if ((offset <? commandsEnd) || negb (LC32MachORangeFits offset size sliceSize) ||
          (LC32_MACH_O_MAX_LOAD_COMMANDS <=? Z.of_nat (length (linkeditDataRanges st)))) tt;
    mret (add_range st (mkRange offset size)).

Definition linkedit_data_command_size : Z := 16.

Definition LC32MachOValidateLinkeditDataCommand (command : list Z) (commandSize : Z)
    (swap : bool) (sliceSize commandsEnd : Z) (st : LC32LoadCommandState)
    : outcome unit LC32LoadCommandState :=
  _ ← reject_if (commandSize <? linkedit_data_command_size) tt;
  body ← fetch command 0 linkedit_data_command_size;
  dataoff ← field32 body 8 swap;
  datasize ← field32 body 12 swap;
  LC32MachORecordLinkeditDataRange dataoff datasize sliceSize commandsEnd st.

Definition build_version_command_size : Z := 24.
Definition build_tool_version_size : Z := 8.

Definition LC32MachOValidateBuildVersion (command : list Z) (commandSize : Z) (swap : bool)
    (commandOffset : Z) (slice : LC32MachOSlice) (st : LC32LoadCommandState)
    : outcome unit (LC32MachOSlice * LC32LoadCommandState) :=
  _ ← reject_if (commandSize <? build_version_command_size) tt;
  let st := count_build_version st in
  _ ← reject_if (1 <? buildVersionCount st) tt;
  body ← fetch command 0 build_version_command_size;
  toolCount ← field32 body 20 swap;
  _ ← reject_if ((commandSize - build_version_command_size) / build_tool_version_size
                   <? toolCount) tt;
  platform ← field32 body 8 swap;
  minos ← field32 body 12 swap;
  sdk ← field32 body 16 swap;
  mret (set_build_version slice commandOffset platform minos sdk, st).

Definition version_min_command_size : Z := 16.

Definition LC32MachOValidateVersionMin (commandType : Z) (command : list Z) (commandSize : Z)
    (swap : bool) (slice : LC32MachOSlice) (st : LC32LoadCommandState)
    : outcome unit (LC32MachOSlice * LC32LoadCommandState) :=
  _ ← reject_if (commandSize <? version_min_command_size) tt;
  if negb (commandType =? LC_VERSION_MIN_IPHONEOS) then mret (slice, st)
  else
    let st := count_version_min st in
    _ ← reject_if (1 <? versionMinIPhoneOSCount st) tt;
    body ← fetch command 0 version_min_command_size;
    sdk ← field32 body 12 swap;
    mret (set_version_min slice sdk, st).

(** The loop over the strings of LC_LINKER_OPTION. *)
Fixpoint linker_options (command : list Z) (commandSize offset : Z) (n : nat)
    : outcome unit unit :=
  match n with
  | O => mret tt
  | S m =>
      _ ← reject_if (commandSize <=? offset) tt;
      rest ← fetch command offset (commandSize - offset);
      terminator ← or_reject (find_zero rest) tt;
      linker_options command commandSize (u32 (offset + terminator + 1)) m
  end.

Definition linker_option_command_size : Z := 12.

(** The count may be any 32-bit number.  A round consumes a byte of the command
    at least, so that more than [commandSize] rounds answer as [commandSize]
    rounds do ([linker_options_bounded]). *)
Definition LC32MachOValidateLinkerOptions (command : list Z) (commandSize : Z) (swap : bool)
    : outcome unit unit :=
  _ ← reject_if (commandSize <? linker_option_command_size) tt;
  body ← fetch command 0 linker_option_command_size;
  optionCount ← field32 body 8 swap;
  linker_options command commandSize linker_option_command_size
    (Z.to_nat (Z.min optionCount commandSize)).

(** [SEG_LINKEDIT]: the string __LINKEDIT. *)
Definition SEG_LINKEDIT : list Z := [95; 95; 76; 73; 78; 75; 69; 68; 73; 84].

(** The part of the two segment validators behind the copied fields. *)
Definition record_segment (segname : list Z) (commandOffset vmAddress vmSize fileOffset fileSize
    sliceSize : Z) (slice : LC32MachOSlice) (st : LC32LoadCommandState)
    : outcome unit (LC32MachOSlice * LC32LoadCommandState) :=
  _ ← reject_if (negb (LC32MachORangeFits fileOffset fileSize sliceSize) ||
                 (UINT64_MAX - vmSize <? vmAddress)) tt;
  if bool_decide (c_string segname = SEG_LINKEDIT) then
    let st := count_linkedit st in
    _ ← reject_if ((1 <? linkeditCount st) || (vmSize <? fileSize)) tt;
    mret (set_linkedit slice commandOffset vmAddress vmSize fileOffset fileSize, st)
  else mret (slice, st).

Definition segment_command_size : Z := 56.
Definition section_size : Z := 68.

Definition LC32MachOValidateSegment32 (command : list Z) (commandSize : Z) (swap : bool)
    (sliceSize commandOffset : Z) (slice : LC32MachOSlice) (st : LC32LoadCommandState)
    : outcome unit (LC32MachOSlice * LC32LoadCommandState) :=
  _ ← reject_if (negb (is32Bit slice) || (commandSize <? segment_command_size)) tt;
  body ← fetch command 0 segment_command_size;
  sectionCount ← field32 body 48 swap;
  _ ← reject_if (((UINT32_MAX - segment_command_size) / section_size <? sectionCount) ||
                 negb (segment_command_size + sectionCount * section_size =? commandSize)) tt;
  vmAddress ← field32 body 24 swap;
  vmSize ← field32 body 28 swap;
  fileOffset ← field32 body 32 swap;
  fileSize ← field32 body 36 swap;
  segname ← fetch body 8 16;
  record_segment segname commandOffset vmAddress vmSize fileOffset fileSize sliceSize slice st.

Definition segment_command_64_size : Z := 72.
Definition section_64_size : Z := 80.

Definition LC32MachOValidateSegment64 (command : list Z) (commandSize : Z) (swap : bool)
    (sliceSize commandOffset : Z) (slice : LC32MachOSlice) (st : LC32LoadCommandState)
    : outcome unit (LC32MachOSlice * LC32LoadCommandState) :=
  _ ← reject_if (is32Bit slice || (commandSize <? segment_command_64_size)) tt;
  body ← fetch command 0 segment_command_64_size;
  sectionCount ← field32 body 64 swap;
  _ ← reject_if (((UINT32_MAX - segment_command_64_size) / section_64_size <? sectionCount) ||
                 negb (segment_command_64_size + sectionCount * section_64_size =? commandSize)) tt;
  vmAddress ← field64 body 24 swap;
  vmSize ← field64 body 32 swap;
  fileOffset ← field64 body 40 swap;
  fileSize ← field64 body 48 swap;
  segname ← fetch body 8 16;
  record_segment segname commandOffset vmAddress vmSize fileOffset fileSize sliceSize slice st.

Definition encryption_info_command_size : Z := 20.
Definition encryption_info_command_64_size : Z := 24.

Definition LC32MachOValidateEncryption (commandType : Z) (command : list Z) (commandSize : Z)
    (swap : bool) (sliceSize commandsEnd : Z) (slice : LC32MachOSlice)
    (st : LC32LoadCommandState) : outcome unit (LC32MachOSlice * LC32LoadCommandState) :=
  let commandIs64Bit := commandType =? LC_ENCRYPTION_INFO_64 in
  let minimumSize := if commandIs64Bit then encryption_info_command_64_size
                     else encryption_info_command_size in
  _ ← reject_if (eqb commandIs64Bit (is32Bit slice) || (commandSize <? minimumSize)) tt;
  let st := count_encryption st in
  _ ← reject_if (1 <? encryptionCount st) tt;
  body ← fetch command 0 encryption_info_command_size;
  cryptOffset ← field32 body 8 swap;
  cryptSize ← field32 body 12 swap;
  cryptIdentifier ← field32 body 16 swap;
  _ ← reject_if (negb (cryptSize =? 0) && ((cryptOffset <? commandsEnd) ||
                   negb (LC32MachORangeFits cryptOffset cryptSize sliceSize))) tt;
  mret (set_encryption slice cryptOffset cryptSize cryptIdentifier, st).

Definition LC32MachOValidateCodeSignature (command : list Z) (commandSize : Z) (swap : bool)
    (sliceSize commandsEnd commandOffset : Z) (slice : LC32MachOSlice)
    (st : LC32LoadCommandState) : outcome unit (LC32MachOSlice * LC32LoadCommandState) :=
  _ ← reject_if (negb (commandSize =? linkedit_data_command_size)) tt;
  let st := count_signature st in
  _ ← reject_if (1 <? codeSignatureCount st) tt;
  body ← fetch command 0 linkedit_data_command_size;
  signatureOffset ← field32 body 8 swap;
  signatureSize ← field32 body 12 swap;
  _ ← reject_if ((signatureSize =? 0) || (signatureOffset <? commandsEnd) ||
                 negb (LC32MachORangeFits signatureOffset signatureSize sliceSize)) tt;
  mret (set_code_signature slice signatureOffset signatureSize commandOffset, st).

Definition fileset_entry_command_size : Z := 32.

Definition LC32MachOValidateFilesetEntry {E} (command : list Z) (commandSize : Z) (swap : bool)
    (sliceSize commandsEnd : Z) : outcome E bool :=
  if commandSize <? fileset_entry_command_size then mret false
  else
    body ← fetch command 0 fileset_entry_command_size;
    fileOffset ← field64 body 16 swap;
    identifierOffset ← field32 body 24 swap;
    if (commandsEnd <=? fileOffset) && (fileOffset <? sliceSize) then
      LC32MachOCommandHasString command commandSize identifierOffset fileset_entry_command_size
    else mret false.

(** A validator that only answers. *)
Definition keep_if (m : outcome unit bool) (slice : LC32MachOSlice) (st : LC32LoadCommandState)
    : outcome unit (LC32MachOSlice * LC32LoadCommandState) :=
  b ← m; _ ← reject_if (negb b) tt; mret (slice, st).

Fixpoint assoc (k : Z) (l : list (Z * Z)) : option Z :=
  match l with [] => None | (a, b) :: r => if k =? a then Some b else assoc k r end.

Definition LC32MachOValidateLoadCommand (commandType : Z) (command : list Z) (commandSize : Z)
    (swap : bool) (sliceSize commandsEnd commandOffset : Z) (slice : LC32MachOSlice)
    (st : LC32LoadCommandState) : outcome unit (LC32MachOSlice * LC32LoadCommandState) :=
  if commandType =? LC_SEGMENT then
    LC32MachOValidateSegment32 command commandSize swap sliceSize commandOffset slice st
  else if commandType =? LC_SEGMENT_64 then
    LC32MachOValidateSegment64 command commandSize swap sliceSize commandOffset slice st
  else if (commandType =? LC_ENCRYPTION_INFO) || (commandType =? LC_ENCRYPTION_INFO_64) then
    LC32MachOValidateEncryption commandType command commandSize swap sliceSize commandsEnd
      slice st
  else if commandType =? LC_CODE_SIGNATURE then
    LC32MachOValidateCodeSignature command commandSize swap sliceSize commandsEnd commandOffset
      slice st
  else if bool_decide (commandType ∈ dylib_commands) then
    keep_if (LC32MachOValidateStringCommand command commandSize swap 24 8) slice st
  else if commandType =? LC_RPATH then
    keep_if (LC32MachOValidateStringCommand command commandSize swap 12 8) slice st
  else if bool_decide (commandType ∈ name_commands) then
    keep_if (LC32MachOValidateStringCommand command commandSize swap 12 8) slice st
  else if bool_decide (commandType ∈ version_min_commands) then
    LC32MachOValidateVersionMin commandType command commandSize swap slice st
  else if commandType =? LC_BUILD_VERSION then
    LC32MachOValidateBuildVersion command commandSize swap commandOffset slice st
  else if commandType =? LC_LINKER_OPTION then
    _ ← LC32MachOValidateLinkerOptions command commandSize swap; mret (slice, st)
  else if bool_decide (commandType ∈ linkedit_commands) then
    st ← LC32MachOValidateLinkeditDataCommand command commandSize swap sliceSize commandsEnd st;
    mret (slice, st)
  else if commandType =? LC_FILESET_ENTRY then
    keep_if (LC32MachOValidateFilesetEntry command commandSize swap sliceSize commandsEnd)
      slice st
  else match assoc commandType sized_commands with
       | Some minimum => keep_if (mret (minimum <=? commandSize)) slice st
       | None => mret (slice, st)
       end.

(** ** Slices *)

Definition load_command_size : Z := 8.
Definition mach_header_size : Z := 28.
Definition mach_header_64_size : Z := 32.

(** The magic's byte swap, width and header size. *)
Definition header_kind (magic : Z) : option (bool * bool * Z) :=
  if magic =? MH_MAGIC then Some (false, true, mach_header_size)
  else if magic =? MH_CIGAM then Some (true, true, mach_header_size)
  else if magic =? MH_MAGIC_64 then Some (false, false, mach_header_64_size)
  else if magic =? MH_CIGAM_64 then Some (true, false, mach_header_64_size)
  else None.

(** The loop over the load commands: [n] commands are left, [index] were seen. *)
Fixpoint parse_commands (commands : list Z) (swap : bool) (commandBytes commandAlignment
    sliceSize commandsEnd headerSize : Z) (n : nat) (index relativeOffset : Z)
    (slice : LC32MachOSlice) (st : LC32LoadCommandState)
    : outcome MachOError (Z * LC32MachOSlice * LC32LoadCommandState) :=
  match n with
  | O => mret (relativeOffset, slice, st)
  | S m =>
      _ ← reject_if (negb (LC32MachORangeFits relativeOffset load_command_size commandBytes))
            CommandHeaderTruncated;
      let command := drop (Z.to_nat relativeOffset) commands in
      commandType ← field32 command 0 swap;
      commandSize ← field32 command 4 swap;
      _ ← reject_if ((commandSize <? load_command_size) ||
                     (LC32_MACH_O_MAX_LOAD_COMMAND_SIZE <? commandSize) ||
                     has_flag commandSize (commandAlignment - 1) ||
                     negb (LC32MachORangeFits relativeOffset commandSize commandBytes))
            (CommandMalformed index);
      '(slice, st) ← map_error (fun _ => CommandMalformed index)
          (LC32MachOValidateLoadCommand commandType command commandSize swap sliceSize
             commandsEnd (u32 (headerSize + relativeOffset)) slice st);
      parse_commands commands swap commandBytes commandAlignment sliceSize commandsEnd headerSize
        m (index + 1) (u32 (relativeOffset + commandSize)) slice st
  end.

Section parser.
  (** [LC32MachOReadAt] at the given call: offset, size. *)
  Variable readAt : nat -> Z -> Z -> option (list Z).

Definition LC32MachOParseSlice (site : nat) (sliceOffset sliceSize : Z)
    (slice : LC32MachOSlice) : outcome MachOError LC32MachOSlice :=
  _ ← reject_if (sliceSize <? 4) SliceTooShort;
  magicBytes ← or_reject (readAt site sliceOffset 4) SliceTooShort;
  magic ← u32_at magicBytes 0;
  '(swap, is32, headerSize) ← or_reject (header_kind magic) (UnsupportedMagic magic);
  _ ← reject_if (sliceSize <? headerSize) HeaderTruncated;
  header ← or_reject (readAt (site + 1) sliceOffset headerSize) HeaderUnreadable;
  cpu ← field32 header 4 swap;
  subtype ← field32 header 8 swap;
  file ← field32 header 12 swap;
  let slice := set_header slice cpu subtype file is32 swap headerSize in
  _ ← reject_if (eqb (LC32MachOCPUTypeUses64BitHeader (cpuType slice)) is32) CpuWidthMismatch;
  commandCount ← field32 header 16 swap;
  commandBytes ← field32 header 20 swap;
  let commandAlignment := if is32 then 4 else 8 in
  _ ← reject_if ((commandCount =? 0) || (LC32_MACH_O_MAX_LOAD_COMMANDS <? commandCount) ||
                 (LC32_MACH_O_MAX_LOAD_COMMAND_BYTES <? commandBytes) ||
                 (commandBytes / load_command_size <? commandCount) ||
                 has_flag commandBytes (commandAlignment - 1) ||
                 negb (LC32MachORangeFits headerSize commandBytes sliceSize))
        InvalidCommandTable;
  let slice := set_commands slice commandCount commandBytes in
  commands ← or_reject (readAt (site + 2) (u64 (sliceOffset + headerSize)) commandBytes)
        CommandsUnreadable;
  let commandsEnd := headerSize + commandBytes in
  '(relativeOffset, slice, st) ←
     parse_commands commands swap commandBytes commandAlignment sliceSize commandsEnd headerSize
       (Z.to_nat commandCount) 0 0 slice initial_state;
  _ ← reject_if (negb (relativeOffset =? commandBytes)) CommandSizesMismatch;
  _ ← reject_if (hasLinkedit slice && negb (forallb (fun r =>
          LC32MachORangeContains (linkeditFileOffset slice) (linkeditFileSize slice)
            (rangeOffset r) (rangeSize r)) (linkeditDataRanges st))) LinkeditDataOutside;
  _ ← reject_if (hasCodeSignature slice && (negb (hasLinkedit slice) ||
          negb (LC32MachORangeContains (linkeditFileOffset slice) (linkeditFileSize slice)
                  (codeSignatureOffset slice) (codeSignatureSize slice))))
        SignatureOutsideLinkedit;
  _ ← reject_if (encrypted slice && hasCodeSignature slice &&
          LC32MachORangesOverlap (encryptionOffset slice) (encryptionSize slice)
            (codeSignatureOffset slice) (codeSignatureSize slice))
        EncryptionOverlapsSignature;
  mret slice.

Definition fat_header_size : Z := 8.
Definition fat_arch_size : Z := 20.
Definition fat_arch_64_size : Z := 32.

(** One descriptor of the architecture table. *)
Definition read_descriptor (is64 swap : bool) (site : nat) (index : Z)
    : outcome MachOError LC32MachOSlice :=
  let descriptorSize := if is64 then fat_arch_64_size else fat_arch_size in
  let descriptorOffset := fat_header_size + index * descriptorSize in
  arch ← or_reject (readAt site descriptorOffset descriptorSize) FatArchUnreadable;
  cpu ← field32 arch 0 swap;
  subtype ← field32 arch 4 swap;
  if is64 then
    off ← field64 arch 8 swap;
    sz ← field64 arch 16 swap;
    align ← field32 arch 24 swap;
    reserved ← field32 arch 28 swap;
    _ ← reject_if (negb (reserved =? 0)) (FatReservedField index);
    mret (set_range (set_arch zero_slice cpu subtype) off sz align)
  else
    off ← field32 arch 8 swap;
    sz ← field32 arch 12 swap;
    align ← field32 arch 16 swap;
    mret (set_range (set_arch zero_slice cpu subtype) off sz align).

(** The comparison of a descriptor with the slices before it. *)
Fixpoint check_previous (descriptor : LC32MachOSlice) (previous : list LC32MachOSlice)
    : outcome MachOError unit :=
  match previous with
  | [] => mret tt
  | other :: rest =>
      _ ← reject_if ((cpuType descriptor =? cpuType other) &&
                     (cpuSubtype descriptor =? cpuSubtype other)) FatDuplicate;
      _ ← reject_if ((offset descriptor <? u64 (offset other + size other)) &&
                     (offset other <? u64 (offset descriptor + size descriptor))) FatOverlap;
      check_previous descriptor rest
  end.

(** The loop over the architecture table: [n] descriptors are left, [parsed] are
    the slices so far. *)
Fixpoint parse_fat_slices (is64 swap : bool) (fileSize tableSize : Z) (n : nat)
    (parsed : list LC32MachOSlice) : outcome MachOError (list LC32MachOSlice) :=
  match n with
  | O => mret parsed
  | S m =>
      let site := (2 + 4 * length parsed)%nat in
      let index := Z.of_nat (length parsed) in
      descriptor ← read_descriptor is64 swap site index;
      _ ← reject_if ((size descriptor =? 0) || (30 <? alignExponent descriptor) ||
                     (offset descriptor <? tableSize) ||
                     negb (LC32MachORangeFits (offset descriptor) (size descriptor) fileSize))
            (FatSliceRange index);
      let alignment := Z.shiftl 1 (alignExponent descriptor) in
      _ ← reject_if (has_flag (offset descriptor) (alignment - 1)) (FatSliceAlignment index);
      _ ← check_previous descriptor parsed;
      slice ← LC32MachOParseSlice (site + 1) (offset descriptor) (size descriptor) descriptor;
      _ ← reject_if (negb (cpuType slice =? cpuType descriptor) ||
                     negb (cpuSubtype slice =? cpuSubtype descriptor)) (FatHeaderMismatch index);
      let slice := set_range slice (offset descriptor) (size descriptor)
                     (alignExponent descriptor) in
      parse_fat_slices is64 swap fileSize tableSize m (parsed ++ [slice])
  end.

Definition LC32MachOParseFat (fileSize magic : Z) : outcome MachOError LC32MachOImage :=
  _ ← reject_if (fileSize <? fat_header_size) FatHeaderTruncated;
  header ← or_reject (readAt 1 0 fat_header_size) FatHeaderUnreadable;
  let is64 := (magic =? FAT_MAGIC_64) || (magic =? FAT_CIGAM_64) in
  let swap := (magic =? FAT_CIGAM) || (magic =? FAT_CIGAM_64) in
  n ← field32 header 4 swap;
  _ ← reject_if ((n =? 0) || (LC32_MAX_MACH_O_SLICES <? n)) (FatSliceCount n);
  let descriptorSize := if is64 then fat_arch_64_size else fat_arch_size in
  _ ← reject_if ((fileSize <? fat_header_size) ||
                 ((fileSize - fat_header_size) / descriptorSize <? n)) FatTableTruncated;
  let tableSize := fat_header_size + n * descriptorSize in
  slices ← parse_fat_slices is64 swap fileSize tableSize (Z.to_nat n) [];
  mret (mkImage slices fileSize true is64 swap).

(** [valid] is that the arguments are usable, [st_size] the result of fstat.  A
    rejected call leaves the image zeroed. *)
Definition LC32MachOImageParseFD (valid : bool) (st_size : option Z)
    : outcome MachOError LC32MachOImage :=
  _ ← reject_if (negb valid) InvalidArguments;
  fileSize ← or_reject st_size StatFailed;
  _ ← reject_if (fileSize <=? 0) FileEmpty;
  magicBytes ← or_reject (readAt 0 0 4) MagicUnreadable;
  magic ← u32_at magicBytes 0;
  if (magic =? FAT_MAGIC) || (magic =? FAT_CIGAM) || (magic =? FAT_MAGIC_64) ||
     (magic =? FAT_CIGAM_64) then LC32MachOParseFat fileSize magic
  else
    slice ← LC32MachOParseSlice 1 0 fileSize
              (set_range zero_slice 0 fileSize LC32_THIN_MACH_O_ALIGN_EXPONENT);
    mret (mkImage [slice] fileSize false false false).

End parser.

(** ** Lookup *)

Fixpoint find_slice (cpu subtype : Z) (baseMatch : option LC32MachOSlice) (ambiguous : bool)
    (l : list LC32MachOSlice) : option LC32MachOSlice :=
  match l with
  | [] => if ambiguous then None else baseMatch
  | slice :: rest =>
      if negb (cpuType slice =? cpu) then find_slice cpu subtype baseMatch ambiguous rest
      else if cpuSubtype slice =? subtype then Some slice
      else if LC32MachOBaseCPUSubtype (cpuSubtype slice) =? LC32MachOBaseCPUSubtype subtype then
        match baseMatch with
        | None => find_slice cpu subtype (Some slice) ambiguous rest
        | Some _ => find_slice cpu subtype baseMatch true rest
        end
      else find_slice cpu subtype baseMatch ambiguous rest
  end.

Definition LC32MachOImageFindSlice (image : LC32MachOImage) (cpu subtype : Z)
    : option LC32MachOSlice := find_slice cpu subtype None false (slices image).
