(* ===== verification/MachOImageProps.v ===== *)
(** The Mach-O parser never reads outside a buffer, and what it accepts is well
    formed.

    Both are one statement about [LC32MachOImageParseFD] for every reader that
    returns as many bytes as it was asked for, also one under which the file
    changes between two reads.  [slice_wf] collects what the rest of the tweak
    relies on: the ranges of a slice nest in the file, the recorded commands lie
    in the load-command table, and the recorded values are those of the commands
    that were read. *)

From stdpp Require Import base list.
From Stdlib Require Import ZArith Lia.
From S2P Require Import Prelude Bytes MachOImage.

Open Scope Z_scope.

(** What the parser relies on: a successful read returns that many bytes. *)
Class FileReader (readAt : nat -> Z -> Z -> option (list Z)) : Prop := {
  read_length k off n bs : readAt k off n = Some bs -> 0 <= n -> blen bs = n;
  read_bytes k off n bs : readAt k off n = Some bs -> Forall byte_ok bs
}.

(** ** Arithmetic of the range checks *)

Lemma range_fits off sz container :
  LC32MachORangeFits off sz container = true <-> off <= container /\ off + sz <= container.
Proof.
  unfold LC32MachORangeFits. rewrite andb_true_iff, !Z.leb_le. lia.
Qed.

(** [LC32MachORangeFits] on sizes: the first test follows from the second. *)
Lemma range_fits_size off sz container :
  0 <= sz -> LC32MachORangeFits off sz container = true <-> off + sz <= container.
Proof. intros. rewrite range_fits. lia. Qed.

Lemma range_contains o s i n :
  LC32MachORangeContains o s i n = true <-> o <= i /\ i - o <= s /\ i + n <= o + s.
Proof.
  unfold LC32MachORangeContains. rewrite andb_true_iff, range_fits, Z.leb_le. lia.
Qed.

Lemma convert32_range v swap :
  0 <= v < 256 ^ 4 -> 0 <= LC32MachOConvertUInt32 v swap < U32_MOD.
Proof. intros. destruct swap; [apply (swap_range 4)|done]. Qed.

Lemma convert64_range v swap :
  0 <= v < 256 ^ 8 -> 0 <= LC32MachOConvertUInt64 v swap < U64_MOD.
Proof. intros. destruct swap; [apply (swap_range 8)|done]. Qed.

(** The 32-bit field at [off] of a buffer, in the byte order of the file. *)
Definition value32 (swap : bool) (buf : list Z) (off : Z) : Z :=
  LC32MachOConvertUInt32 (le_int (sub buf off 4)) swap.

Section fields.
Context {E : Type} (buf : list Z) (Hbuf : Forall byte_ok buf) (swap : bool).

Lemma safe_field32 off (P : Z -> Prop) :
  0 <= off -> off + 4 <= blen buf ->
  (forall v, v = value32 swap buf off -> 0 <= v < U32_MOD -> P v) ->
  safe (E := E) (field32 buf off swap) P.
Proof.
  intros. apply safe_fmap, safe_le; [done|lia..|]. intros v -> Hv.
  apply H1; [done|]. by apply convert32_range.
Qed.

Lemma safe_field64 off (P : Z -> Prop) :
  0 <= off -> off + 8 <= blen buf ->
  (forall v, 0 <= v < U64_MOD -> P v) ->
  safe (E := E) (field64 buf off swap) P.
Proof.
  intros. apply safe_fmap, safe_le; [done|lia..|]. intros v -> Hv.
  apply H1. by apply convert64_range.
Qed.
End fields.

Lemma value32_sub swap buf off n o :
  0 <= off -> 0 <= o -> o + 4 <= n -> value32 swap (sub buf off n) o = value32 swap buf (off + o).
Proof. intros. unfold value32. by rewrite sub_sub by lia. Qed.

Lemma value32_drop swap buf r o :
  0 <= r -> 0 <= o -> value32 swap (drop (Z.to_nat r) buf) o = value32 swap buf (r + o).
Proof.
  intros. unfold value32, sub. rewrite drop_drop. do 3 f_equal. f_equal. lia.
Qed.

(** ** What the parser records *)

(** The commands the slice refers to lie in the table and hold what was
    recorded; [commands] is the table, [h] its offset in the slice. *)
Record recorded (swap : bool) (commands : list Z) (h : Z) (s : LC32MachOSlice) : Prop := {
  rec_build : hasBuildVersion s = true ->
    let o := buildVersionCommandOffset s - h in
    0 <= o /\ o + build_version_command_size <= blen commands /\
    value32 swap commands o = LC_BUILD_VERSION /\
    build_version_command_size <= value32 swap commands (o + 4) /\
    value32 swap commands (o + 8) = buildVersionPlatform s /\
    value32 swap commands (o + 12) = buildVersionMinOS s /\
    value32 swap commands (o + 16) = buildVersionSDK s;
  rec_signature : hasCodeSignature s = true ->
    let o := codeSignatureCommandOffset s - h in
    0 <= o /\ o + linkedit_data_command_size <= blen commands /\
    value32 swap commands o = LC_CODE_SIGNATURE /\
    value32 swap commands (o + 8) = codeSignatureOffset s /\
    value32 swap commands (o + 12) = codeSignatureSize s
}.

(** The ranges a slice of [sliceSize] bytes with commands up to [e] records. *)
Record ranges_ok (sliceSize e : Z) (s : LC32MachOSlice) : Prop := {
  ro_linkedit : hasLinkedit s = true ->
    0 <= linkeditFileOffset s /\ 0 <= linkeditFileSize s <= linkeditVMSize s /\
    linkeditFileOffset s + linkeditFileSize s <= sliceSize /\
    linkeditVMAddress s + linkeditVMSize s < U64_MOD;
  ro_signature : hasCodeSignature s = true ->
    0 < codeSignatureSize s < U32_MOD /\ e <= codeSignatureOffset s < U32_MOD /\
    codeSignatureOffset s + codeSignatureSize s <= sliceSize;
  ro_encryption : 0 <= encryptionOffset s < U32_MOD /\ 0 <= encryptionSize s < U32_MOD /\
    (encryptionSize s <> 0 ->
     e <= encryptionOffset s /\ encryptionOffset s + encryptionSize s <= sliceSize);
  ro_encrypted : encrypted s = negb (encryptionIdentifier s =? 0)
}.

(** The fields the load commands do not touch. *)
Definition same_frame (s t : LC32MachOSlice) : Prop :=
  cpuType t = cpuType s /\ cpuSubtype t = cpuSubtype s /\ fileType t = fileType s /\
  offset t = offset s /\ size t = size s /\ alignExponent t = alignExponent s /\
  is32Bit t = is32Bit s /\ isByteSwapped t = isByteSwapped s /\ headerSize t = headerSize s /\
  loadCommandCount t = loadCommandCount s /\ loadCommandBytes t = loadCommandBytes s.

(** ** The validators *)

(** Read the next field or structure of the command. *)
Ltac read_step :=
  lazymatch goal with
  | |- safe (field32 _ _ _) _ =>
      apply safe_field32; [by eauto with lc32|try lia..|intros ? ? ?]
  | |- safe (field64 _ _ _) _ =>
      apply safe_field64; [by eauto with lc32|try lia..|intros ? ?]
  | |- safe (fetch _ _ _) _ => apply safe_fetch; [try lia..|]
  end.

Ltac fits :=
  repeat match goal with
  | H : LC32MachORangeFits _ _ _ = true |- _ => apply range_fits in H
  | H : LC32MachORangeContains _ _ _ _ = true |- _ => apply range_contains in H
  end.

Ltac walk := repeat (safe_step || read_step).

Section command.
(** A command of [commandSize] bytes at [r] in the table [commands] of a slice
    of [sliceSize] bytes. *)
Context (commands : list Z) (swap : bool) (sliceSize h r commandSize : Z).
Context (Hbytes : Forall byte_ok commands) (Hh : 0 <= h) (Hr : 0 <= r)
  (Hsize : load_command_size <= commandSize) (Hin : r + commandSize <= blen commands)
  (Hend : h + blen commands < U32_MOD).
Let command := drop (Z.to_nat r) commands.
Let commandsEnd := h + blen commands.

(** The state of the walk: what was recorded so far is right. *)
Definition walk_ok (s0 s : LC32MachOSlice) : Prop :=
  same_frame s0 s /\ recorded swap commands h s /\ ranges_ok sliceSize commandsEnd s.

Lemma command_bytes : Forall byte_ok command.
Proof. by apply Forall_drop. Qed.

Lemma command_length : blen command = blen commands - r.
Proof. unfold command, blen in *. rewrite length_drop. unfold load_command_size in *. lia. Qed.

Lemma body_value n o :
  0 <= o -> o + 4 <= n -> value32 swap (sub command 0 n) o = value32 swap commands (r + o).
Proof. intros. rewrite value32_sub by lia. apply value32_drop; lia. Qed.

Lemma body_length n : 0 <= n <= commandSize -> blen (sub command 0 n) = n.
Proof. intros. apply blen_sub; [lia..|]. rewrite command_length. lia. Qed.

Hint Resolve command_bytes : lc32.

(** The command has a string inside: the search stays in the command. *)
Lemma string_safe stringOffset minimumOffset :
  0 <= stringOffset -> 
  safe (E := unit) (LC32MachOCommandHasString command commandSize stringOffset minimumOffset)
    (fun _ => True).
Proof.
  intros. unfold LC32MachOCommandHasString. walk; try done; rewrite ?command_length; lia.
Qed.

Lemma string_command_safe minimumSize field :
  0 <= field ->
  safe (E := unit) (LC32MachOValidateStringCommand command commandSize swap minimumSize field)
    (fun _ => True).
Proof.
  intros. unfold LC32MachOValidateStringCommand. walk; try done.
  - rewrite command_length. lia.
  - apply string_safe. lia.
Qed.

Lemma keep_if_safe m s0 s st :
  walk_ok s0 s -> safe m (fun _ => True) ->
  safe (keep_if m s st) (fun p => walk_ok s0 p.1).
Proof. intros. unfold keep_if. walk. eapply safe_mono; [done|]. intros. by walk. Qed.

Lemma linkedit_data_safe st :
  safe (LC32MachOValidateLinkeditDataCommand command commandSize swap sliceSize commandsEnd st)
    (fun _ => True).
Proof.
  unfold LC32MachOValidateLinkeditDataCommand, LC32MachORecordLinkeditDataRange,
    linkedit_data_command_size. walk; rewrite ?command_length, ?body_length; try lia; done.
Qed.

Lemma build_version_safe s0 s st :
  walk_ok s0 s -> value32 swap commands r = LC_BUILD_VERSION ->
  value32 swap commands (r + 4) = commandSize ->
  safe (LC32MachOValidateBuildVersion command commandSize swap (h + r) s st)
    (fun p => walk_ok s0 p.1).
Proof.
  intros (F & [Rb Rs] & [L S E Ei]) Ht Hz.
  unfold LC32MachOValidateBuildVersion, build_version_command_size.
  walk; rewrite ?command_length, ?body_length; try lia.
  rewrite body_value in * by lia.
  split_and!; [done| |done]. split; [|done]. cbn. intros _.
  replace (h + r - h) with r by lia. unfold build_version_command_size.
  rewrite Ht, Hz. repeat split; lia.
Qed.

Lemma version_min_safe type s0 s st :
  walk_ok s0 s ->
  safe (LC32MachOValidateVersionMin type command commandSize swap s st)
    (fun p => walk_ok s0 p.1).
Proof.
  intros (F & [Rb Rs] & [L S E Ei]).
  unfold LC32MachOValidateVersionMin, version_min_command_size.
  walk; rewrite ?command_length, ?body_length; try lia; done.
Qed.

Lemma record_segment_safe name off vmaddr vmsize fileoff filesize s0 s st :
  walk_ok s0 s -> 0 <= vmsize < U64_MOD -> 0 <= fileoff -> 0 <= filesize ->
  safe (record_segment name off vmaddr vmsize fileoff filesize sliceSize s st)
    (fun p => walk_ok s0 p.1).
Proof.
  intros (F & [Rb Rs] & [L S E Ei]) ???. unfold record_segment. walk; [|done].
  fits. split_and!; [done|done|]. split; [|done..]. cbn. intros _.
  unfold UINT64_MAX in *. lia.
Qed.

Lemma segment32_safe s0 s st :
  walk_ok s0 s ->
  safe (LC32MachOValidateSegment32 command commandSize swap sliceSize (h + r) s st)
    (fun p => walk_ok s0 p.1).
Proof.
  intros. unfold LC32MachOValidateSegment32, segment_command_size.
  walk; rewrite ?command_length, ?body_length; try lia.
  apply record_segment_safe; unfold U32_MOD, U64_MOD in *; try lia; done.
Qed.

Lemma segment64_safe s0 s st :
  walk_ok s0 s ->
  safe (LC32MachOValidateSegment64 command commandSize swap sliceSize (h + r) s st)
    (fun p => walk_ok s0 p.1).
Proof.
  intros. unfold LC32MachOValidateSegment64, segment_command_64_size.
  walk; rewrite ?command_length, ?body_length; try lia.
  apply record_segment_safe; try lia; done.
Qed.

Lemma encryption_safe type s0 s st :
  walk_ok s0 s ->
  safe (LC32MachOValidateEncryption type command commandSize swap sliceSize commandsEnd s st)
    (fun p => walk_ok s0 p.1).
Proof.
  intros (F & [Rb Rs] & [L S E Ei]).
  unfold LC32MachOValidateEncryption, encryption_info_command_size,
    encryption_info_command_64_size.
  walk; rewrite ?command_length, ?body_length; try (case_match; lia).
  split_and!; [done|done|]. split; cbn; [done|done| |done].
  split_and!; [lia..|]. intros Hne. apply Z.eqb_neq in Hne. rewrite Hne in *. cbn in *. zb.
  fits. lia.
Qed.

Lemma code_signature_safe s0 s st :
  walk_ok s0 s -> value32 swap commands r = LC_CODE_SIGNATURE ->
  safe (LC32MachOValidateCodeSignature command commandSize swap sliceSize commandsEnd (h + r)
          s st) (fun p => walk_ok s0 p.1).
Proof.
  intros (F & [Rb Rs] & [L S E Ei]) Ht.
  unfold LC32MachOValidateCodeSignature, linkedit_data_command_size.
  walk; rewrite ?command_length, ?body_length; try lia.
  rewrite body_value in * by lia.
  split_and!; [done|split; cbn; [done|]|split; cbn; try done].
  - intros _. replace (h + r - h) with r by lia. unfold linkedit_data_command_size.
    repeat split; lia.
  - fits. lia.
Qed.

Lemma fileset_safe :
  safe (E := unit)
    (LC32MachOValidateFilesetEntry command commandSize swap sliceSize commandsEnd)
    (fun _ => True).
Proof.
  unfold LC32MachOValidateFilesetEntry, fileset_entry_command_size.
  walk; rewrite ?command_length, ?body_length; try lia; try done.
  apply string_safe. lia.
Qed.

Lemma linker_options_safe n offset :
  0 <= offset -> safe (linker_options command commandSize offset n) (fun _ => True).
Proof.
  revert offset. induction n as [|n IH]; intros; cbn [linker_options]; walk; try done.
  - rewrite command_length. lia.
  - apply IH. pose proof (u32_range (offset + a + 1)). lia.
Qed.

Lemma linker_option_command_safe :
  safe (LC32MachOValidateLinkerOptions command commandSize swap) (fun _ => True).
Proof.
  unfold LC32MachOValidateLinkerOptions, linker_option_command_size.
  walk; rewrite ?command_length, ?body_length; try lia. by apply linker_options_safe.
Qed.

(** A load command is validated inside its bounds and recorded as it is. *)
Lemma load_command_safe s0 s st :
  walk_ok s0 s -> value32 swap commands (r + 4) = commandSize ->
  safe (LC32MachOValidateLoadCommand (value32 swap commands r) command commandSize swap
          sliceSize commandsEnd (h + r) s st) (fun p => walk_ok s0 p.1).
Proof.
  intros Hw Hz. unfold LC32MachOValidateLoadCommand.
  repeat case_if; zb;
    try (apply keep_if_safe; [done|apply string_command_safe; lia]);
    eauto using segment32_safe, segment64_safe, encryption_safe, code_signature_safe,
      keep_if_safe, version_min_safe, build_version_safe, fileset_safe.
  - walk. eapply safe_mono; [apply linker_option_command_safe|]. by intros; walk.
  - walk. eapply safe_mono; [apply linkedit_data_safe|]. by intros; walk.
  - case_match; [|by walk]. by apply keep_if_safe.
Qed.
End command.

(** More than [commandSize] rounds of the option loop answer alike: a round
    consumes a byte, and the loop fails once the command is used up. *)
Lemma linker_options_bounded command commandSize offset n :
  0 <= offset -> 0 <= commandSize < U32_MOD -> (Z.to_nat (commandSize - offset) < n)%nat ->
  linker_options command commandSize offset n =
  linker_options command commandSize offset (S (Z.to_nat (commandSize - offset))).
Proof.
  revert offset. induction n as [n IH] using lt_wf_ind; intros off Ho Hc Hn.
  destruct n as [|n]; [lia|]. cbn [linker_options].
  destruct (commandSize <=? off) eqn:Hlt; zb; [done|]. cbn.
  destruct (fetch command off (commandSize - off)) as [rest| |] eqn:Ef; cbn; [|done..].
  destruct (find_zero rest) as [t|] eqn:Et; cbn; [|done].
  apply fetch_done in Ef as (? & ? & ? & ->). apply find_zero_spec in Et as (Hr & _).
  rewrite blen_sub in Hr by lia. rewrite u32_small by (unfold U32_MOD in *; lia).
  rewrite IH by lia. symmetry.
  destruct (decide (Z.to_nat (commandSize - off) = S (Z.to_nat (commandSize - (off + t + 1)))))
    as [->|]; [done|]. apply IH; lia.
Qed.

(** ** Slices *)

(** A slice of [sliceSize] bytes at [sliceOffset] as the parser accepts it. *)
Record slice_wf (readAt : nat -> Z -> Z -> option (list Z)) (sliceOffset sliceSize : Z)
    (s : LC32MachOSlice) : Prop := {
  wf_header : headerSize s = if is32Bit s then mach_header_size else mach_header_64_size;
  wf_cpu : LC32MachOCPUTypeUses64BitHeader (cpuType s) = negb (is32Bit s);
  wf_table : 1 <= loadCommandCount s <= LC32_MACH_O_MAX_LOAD_COMMANDS /\
    load_command_size * loadCommandCount s <= loadCommandBytes s /\
    headerSize s + loadCommandBytes s <= sliceSize;
  wf_commands : exists k commands,
    readAt k (sliceOffset + headerSize s) (loadCommandBytes s) = Some commands /\
    recorded (isByteSwapped s) commands (headerSize s) s;
  wf_ranges : ranges_ok sliceSize (headerSize s + loadCommandBytes s) s;
  wf_signature : hasCodeSignature s = true ->
    hasLinkedit s = true /\ linkeditFileOffset s <= codeSignatureOffset s /\
    codeSignatureOffset s + codeSignatureSize s <= linkeditFileOffset s + linkeditFileSize s;
  wf_disjoint : encrypted s = true -> hasCodeSignature s = true -> encryptionSize s <> 0 ->
    encryptionOffset s + encryptionSize s <= codeSignatureOffset s \/
    codeSignatureOffset s + codeSignatureSize s <= encryptionOffset s
}.

(** Nothing is recorded yet. *)
Definition fresh (s : LC32MachOSlice) : Prop :=
  hasBuildVersion s = false /\ hasCodeSignature s = false /\ hasLinkedit s = false /\
  encrypted s = false /\ encryptionOffset s = 0 /\ encryptionSize s = 0 /\
  encryptionIdentifier s = 0.

Lemma fresh_walk_ok commands swap sliceSize h s :
  fresh s -> walk_ok commands swap sliceSize h s s.
Proof.
  intros (Hb & Hc & Hl & He & Ho & Hz & Hi). unfold walk_ok.
  split_and!; [by repeat split|split; congruence|].
  split; rewrite ?Hb, ?Hc, ?Hl, ?He, ?Ho, ?Hz, ?Hi; try done.
Qed.

Lemma parse_commands_safe commands swap commandBytes align sliceSize h n index rel s0 s st :
  Forall byte_ok commands -> blen commands = commandBytes -> 0 <= h ->
  h + commandBytes < U32_MOD -> 0 <= rel ->
  walk_ok commands swap sliceSize h s0 s ->
  safe (parse_commands commands swap commandBytes align sliceSize (h + commandBytes) h n index
          rel s st)
    (fun p => walk_ok commands swap sliceSize h s0 p.1.2).
Proof.
  intros Hb <- Hh He. revert index rel s st.
  induction n as [|n IH]; intros index rel s st Hrel Hw; cbn [parse_commands]; [by walk|].
  safe_step. safe_step. fits. pose proof (blen_nonneg commands).
  assert (blen (drop (Z.to_nat rel) commands) = blen commands - rel) as Hlen.
  { unfold load_command_size, blen in *. rewrite length_drop. lia. }
  assert (Forall byte_ok (drop (Z.to_nat rel) commands)) by by apply Forall_drop.
  unfold load_command_size in *.
  walk; try lia. fits. apply safe_map_error.
  rewrite value32_drop in * by lia. rewrite Z.add_0_r in *. subst v.
  rewrite (u32_small (h + rel)) by lia.
  eapply safe_mono; [apply load_command_safe; unfold load_command_size; eauto; try lia|].
  intros [s' st'] Hw'. cbn in *. apply IH; [apply u32_range|done].
Qed.

Lemma header_kind_spec magic swap is32 h :
  header_kind magic = Some (swap, is32, h) ->
  h = (if is32 then mach_header_size else mach_header_64_size) /\ (28 <= h <= 32).
Proof.
  unfold header_kind. repeat case_if; intros; simplify_eq; repeat split; cbv; congruence.
Qed.

Lemma overlap_false a n b m :
  0 <= a -> 0 <= b -> 0 <= n -> 0 <= m -> a + n < U64_MOD -> b + m < U64_MOD ->
  LC32MachORangesOverlap a n b m = false -> n <> 0 -> m <> 0 -> a + n <= b \/ b + m <= a.
Proof.
  intros. unfold LC32MachORangesOverlap in *. rewrite !u64_small in * by lia.
  destruct (Z.eqb_spec n 0), (Z.eqb_spec m 0); try done. cbn in *.
  apply andb_false_iff in H5. rewrite !Z.ltb_ge in H5. lia.
Qed.

Section slices.
Context (readAt : nat -> Z -> Z -> option (list Z)) `{!FileReader readAt}.

(** The header fields before the walk, and the walk's result behind it. *)
Lemma slice_wf_of_walk k sliceOffset sliceSize commands h swap is32 n bytes s0 s :
  same_frame s0 s -> recorded swap commands h s -> ranges_ok sliceSize (h + bytes) s ->
  headerSize s0 = h -> is32Bit s0 = is32 -> isByteSwapped s0 = swap ->
  loadCommandCount s0 = n -> loadCommandBytes s0 = bytes ->
  h = (if is32 then mach_header_size else mach_header_64_size) ->
  LC32MachOCPUTypeUses64BitHeader (cpuType s0) = negb is32 ->
  1 <= n <= LC32_MACH_O_MAX_LOAD_COMMANDS -> load_command_size * n <= bytes ->
  h + bytes <= sliceSize -> sliceSize < U64_MOD ->
  readAt k (sliceOffset + h) bytes = Some commands ->
  (hasCodeSignature s = true -> hasLinkedit s = true /\
     linkeditFileOffset s <= codeSignatureOffset s /\
     codeSignatureOffset s + codeSignatureSize s <= linkeditFileOffset s + linkeditFileSize s) ->
  (encrypted s && hasCodeSignature s && LC32MachORangesOverlap (encryptionOffset s)
     (encryptionSize s) (codeSignatureOffset s) (codeSignatureSize s) = false) ->
  slice_wf readAt sliceOffset sliceSize s.
Proof.
  intros (F1 & F2 & F3 & F4 & F5 & F6 & F7 & F8 & F9 & F10 & F11) Hrec Hrange.
  intros <- <- <- <- <- Hh Hcpu Hn Hb Ht Hm Hread Hsig Hover.
  rewrite <- F1, <- F7, <- F8, <- F9, <- F10, <- F11 in *.
  split; eauto.
  intros He Hc Hne. rewrite He, Hc in Hover. cbn in Hover.
  destruct Hrange as [_ S [E1 [E2 E3]] _]. specialize (S Hc). specialize (E3 Hne).
  assert (0 <= headerSize s) by (rewrite Hh; by case_match).
  apply overlap_false in Hover; unfold load_command_size, U32_MOD, U64_MOD in *; lia.
Qed.

Lemma parse_slice_safe site sliceOffset sliceSize s0 :
  fresh s0 -> 0 <= sliceOffset -> 0 <= sliceSize -> sliceOffset + sliceSize <= INT64_MAX ->
  safe (LC32MachOParseSlice readAt site sliceOffset sliceSize s0) (fun s =>
    slice_wf readAt sliceOffset sliceSize s /\
    offset s = offset s0 /\ size s = size s0 /\ alignExponent s = alignExponent s0).
Proof.
  intros Hf Ho Hs Hm. unfold LC32MachOParseSlice.
  do 4 safe_step. rename H0 into Hmagic.
  pose proof (read_length _ _ _ _ Hmagic ltac:(lia)). pose proof (read_bytes _ _ _ _ Hmagic).
  safe_step. apply safe_le; [done|lia..|]. intros magic _ _. do 2 safe_step.
  destruct a0 as [[swap is32] h]. apply header_kind_spec in H2 as [Hh Hh'].
  do 4 safe_step. rename a0 into header, H3 into Hheader.
  pose proof (read_length _ _ _ _ Hheader ltac:(lia)). pose proof (read_bytes _ _ _ _ Hheader).
  walk; try lia. rename v2 into n, v3 into bytes, a0 into commands.
  match goal with H : readAt _ _ bytes = _ |- _ => rename H into Hcommands end.
  fits. unfold LC32_MACH_O_MAX_LOAD_COMMANDS, LC32_MACH_O_MAX_LOAD_COMMAND_BYTES in *.
  rewrite u64_small in Hcommands by (unfold INT64_MAX, U64_MOD in *; lia).
  pose proof (read_length _ _ _ _ Hcommands ltac:(lia)).
  pose proof (read_bytes _ _ _ _ Hcommands).
  eapply safe_mono; [eapply parse_commands_safe; try done; try lia;
    [unfold U32_MOD; lia|by apply fresh_walk_ok; destruct Hf as (?&?&?&?&?&?&?)]|].
  intros [[rel s] st] (F & Rec & Rng). cbn in F, Rec, Rng |- *. walk.
  split; [|by destruct F as (?&?&?&?&?&?&?)].
  rewrite <- H22 in Hcommands.
  eapply slice_wf_of_walk; try done; try (cbn; lia).
  - cbn in H11 |- *. destruct (LC32MachOCPUTypeUses64BitHeader v), is32; done.
  - unfold LC32_MACH_O_MAX_LOAD_COMMANDS. lia.
  - pose proof (Z.mul_div_le bytes load_command_size ltac:(done)).
    unfold load_command_size in *. lia.
  - unfold INT64_MAX, U64_MOD in *. lia.
  - intros Hc. rewrite Hc in H26. cbn in H26. zb. fits. split; [done|lia].
Qed.

(** ** Images *)

(** Two slices of one FAT file. *)
Definition slices_apart (s t : LC32MachOSlice) : Prop :=
  (offset s + size s <= offset t \/ offset t + size t <= offset s) /\
  (cpuType s <> cpuType t \/ cpuSubtype s <> cpuSubtype t).

Definition pairwise {A} (R : A -> A -> Prop) (l : list A) : Prop :=
  forall i j a b, (i < j)%nat -> l !! i = Some a -> l !! j = Some b -> R a b.

(** A slice in its place: [start] is the end of the architecture table. *)
Definition placed (start fileSize : Z) (s : LC32MachOSlice) : Prop :=
  start <= offset s /\ 0 < size s /\ offset s + size s <= fileSize /\
  0 <= alignExponent s <= 30 /\ offset s mod 2 ^ alignExponent s = 0.

Definition table_end (image : LC32MachOImage) : Z :=
  if isFat image then
    fat_header_size + count image * (if isFat64 image then fat_arch_64_size else fat_arch_size)
  else 0.

Record image_wf (image : LC32MachOImage) : Prop := {
  im_count : 1 <= count image <= LC32_MAX_MACH_O_SLICES /\
    (isFat image = false -> count image = 1);
  im_slices : Forall (fun s => placed (table_end image) (fileSize image) s /\
    slice_wf readAt (offset s) (size s) s) (slices image);
  im_apart : pairwise slices_apart (slices image)
}.

Lemma pairwise_snoc {A} (R : A -> A -> Prop) l x :
  pairwise R l -> Forall (fun a => R a x) l -> pairwise R (l ++ [x]).
Proof.
  intros Hp Hx i j a b Hij Ha Hb.
  pose proof (lookup_lt_Some _ _ _ Hb) as Hj. rewrite length_app in Hj. cbn in Hj.
  rewrite lookup_app_l in Ha by lia.
  apply lookup_app_Some in Hb as [Hb|[Hge Hb]]; [exact (Hp i j a b Hij Ha Hb)|].
  apply list_lookup_singleton_Some in Hb as [_ ->].
  rewrite Forall_lookup in Hx. eauto.
Qed.

Lemma has_flag_align x e :
  0 <= e -> has_flag x (Z.shiftl 1 e - 1) = false -> x mod 2 ^ e = 0.
Proof.
  intros. unfold has_flag in *. zb. rewrite Z.shiftl_1_l in *.
  rewrite <- Z.land_ones by done. by rewrite Z.ones_equiv.
Qed.

Lemma check_previous_safe d l :
  0 <= offset d -> 0 <= size d -> offset d + size d < U64_MOD ->
  Forall (fun s => 0 <= offset s /\ 0 <= size s /\ offset s + size s < U64_MOD) l ->
  safe (check_previous d l) (fun _ => Forall (fun s => slices_apart s d) l).
Proof.
  intros Ho Hs Hm. induction 1 as [|s l (?&?&?) ? IH]; cbn [check_previous]; [by constructor|].
  walk. eapply safe_mono; [exact IH|]. intros ? Hl. constructor; [|done].
  rewrite !u64_small in * by lia. split.
  - apply andb_false_iff in H4. rewrite !Z.ltb_ge in H4. lia.
  - apply andb_false_iff in H3. rewrite !Z.eqb_neq in H3. naive_solver.
Qed.

Lemma read_descriptor_safe is64 swap site index :
  safe (read_descriptor readAt is64 swap site index) (fun d =>
    fresh d /\ 0 <= offset d /\ 0 <= size d /\ 0 <= alignExponent d).
Proof.
  unfold read_descriptor, fat_arch_64_size, fat_arch_size. do 2 safe_step.
  pose proof (read_length _ _ _ _ H ltac:(by destruct is64)).
  pose proof (read_bytes _ _ _ _ H).
  destruct is64; walk; try lia; cbn; repeat split; lia.
Qed.

Lemma parse_fat_safe is64 swap fileSize start n parsed :
  0 <= start -> fileSize <= INT64_MAX ->
  Forall (fun s => placed start fileSize s /\ slice_wf readAt (offset s) (size s) s) parsed ->
  pairwise slices_apart parsed ->
  safe (parse_fat_slices readAt is64 swap fileSize start n parsed) (fun l =>
    length l = (length parsed + n)%nat /\
    Forall (fun s => placed start fileSize s /\ slice_wf readAt (offset s) (size s) s) l /\
    pairwise slices_apart l).
Proof.
  intros Hst Hf. revert parsed. induction n as [|n IH]; intros parsed Hp Hpair;
    cbn [parse_fat_slices]; [by walk|].
  safe_step. eapply safe_mono; [apply read_descriptor_safe|].
  intros d (Hfresh & Ho & Hs & Ha). cbv zeta. do 4 safe_step. fits.
  match goal with H : has_flag _ _ = false |- _ => apply has_flag_align in H; [|done] end.
  safe_step. eapply safe_mono; [apply check_previous_safe; try done|].
  { unfold INT64_MAX, U64_MOD in *. lia. }
  { eapply Forall_impl; [exact Hp|]. intros s [(?&?&?&?) _]. unfold INT64_MAX, U64_MOD in *. lia. }
  intros ? Hprev. safe_step.
  eapply safe_mono; [apply parse_slice_safe; try done; lia|].
  intros s (Hwf & Eo & Es & Ea). walk.
  eapply safe_mono; [apply IH|].
  - apply Forall_app; split; [done|]. constructor; [|done]. cbn. split.
    + repeat split; cbn; try lia; done.
    + destruct Hwf as [? ? ? (k & commands & Hr & [Rb Rs]) [] ? ?]. split; try done.
      exists k, commands. done.
  - apply pairwise_snoc; [done|]. eapply Forall_impl; [exact Hprev|].
    intros t [Hr Hc]. split; [done|]. cbn. lia.
  - intros l (Hl & ? & ?). rewrite length_app in Hl. cbn in Hl. split; [lia|done].
Qed.

(** C19: what the Mach-O parser returns is a well-formed image.  On any file, with
    reads that may fail at every point, the parser never reads outside a buffer;
    an image it returns has between one and the maximal number of slices, each
    inside the file and behind the table, pairwise apart and for different
    processors, and every range a slice records lies in that slice. *)
Theorem parse_image_safe valid st_size :
  (forall n, st_size = Some n -> n <= INT64_MAX) ->
  safe (LC32MachOImageParseFD readAt valid st_size) (fun image =>
    image_wf image /\ st_size = Some (fileSize image)).
Proof.
  intros Hsz. unfold LC32MachOImageParseFD. do 6 safe_step.
  specialize (Hsz _ H0). safe_step. safe_step.
  pose proof (read_length _ _ _ _ H2 ltac:(lia)). pose proof (read_bytes _ _ _ _ H2).
  safe_step. apply safe_le; [done|lia..|]. intros magic _ _. case_if.
  - unfold LC32MachOParseFat. do 4 safe_step.
    change fat_header_size with 8 in *. pose proof (read_length _ _ _ _ H6 ltac:(lia)) as Hlen.
    pose proof (read_bytes _ _ _ _ H6). walk; try lia.
    eapply safe_mono; [apply parse_fat_safe; [|done|constructor|]|].
    + unfold fat_arch_64_size, fat_arch_size. case_match; lia.
    + intros i j ? ? ? Hi. by rewrite lookup_nil in Hi.
    + intros l (Hl & Hwf & Hap). cbn in Hl. split; [|done]. unfold LC32_MAX_MACH_O_SLICES in *.
      assert (Z.of_nat (length l) = v) as Ecount by lia.
      split; unfold count, LC32_MAX_MACH_O_SLICES; cbn.
      * split; [lia|done].
      * unfold table_end, count. cbn. rewrite Ecount. done.
      * done.
  - safe_step. eapply safe_mono; [apply parse_slice_safe; try done; lia|].
    intros s (Hwf & Eo & Es & Ea). walk. cbn in Eo, Es, Ea. split; [|done].
    split; unfold count; cbn.
    + unfold LC32_MAX_MACH_O_SLICES. lia.
    + constructor; [|done]. unfold placed. cbn. rewrite Eo, Es, Ea. 
      split; [|done]. unfold LC32_THIN_MACH_O_ALIGN_EXPONENT. repeat split; lia.
    + intros i [|j] ? ? ? _ Hj; [lia|]. by destruct j.
Qed.
End slices.
