(* ===== verification/HostIO.v ===== *)
(** Reading and writing a file at an offset (src/Tweak/MachOImage.c,
    [LC32MachOReadAt]; src/Tweak/FatMachO.c, [LC32ReadAt] and [LC32WriteAt]).

    The loops repeat pread and pwrite until the whole range is transferred.  The
    two system calls are parameters that may return less than was asked for, be
    interrupted or fail, differently at each attempt.  The fuel bounds the number
    of attempts: [IoPending] is a call that has not returned yet, and
    [read_at_total] shows that the loop returns once it is no longer
    interrupted. *)

From stdpp Require Import base list.
From Stdlib Require Import ZArith Lia.
From S2P Require Import Prelude Bytes MachOImage MachOImageProps.

Open Scope Z_scope.

Inductive io_result (A : Type) : Type :=
| IoDone (a : A)
| IoFailed (errno : Z)
| IoPending.
Arguments IoDone {A} a.
Arguments IoFailed {A} errno.
Arguments IoPending {A}.

Inductive pread_result : Type :=
| PreadData (bs : list Z)
| PreadError (errno : Z).

Inductive pwrite_result : Type :=
| PwriteAmount (n : Z)
| PwriteError (errno : Z).

(** [offset > INT64_MAX || size > INT64_MAX - offset]. *)
Definition range_overflows (offset size : Z) : bool :=
  (INT64_MAX <? offset) || (INT64_MAX - offset <? size).

Section read.
  (** pread at the given attempt: size, offset. *)
  Variable pread : nat -> Z -> Z -> pread_result.

Fixpoint read_loop (fuel attempt : nat) (size offset : Z) (buffer : list Z)
    : io_result (list Z) :=
  if size <=? blen buffer then IoDone buffer
  else match fuel with
  | O => IoPending
  | S f =>
      match pread attempt (size - blen buffer) (offset + blen buffer) with
      | PreadError e =>
          if e =? EINTR then read_loop f (S attempt) size offset buffer else IoFailed e
      | PreadData [] => IoFailed EIO
      | PreadData bs => read_loop f (S attempt) size offset (buffer ++ bs)
      end
  end.

(** [LC32MachOReadAt] and [LC32ReadAt] for a buffer of [size] bytes. *)
Definition LC32ReadAt (fuel : nat) (size offset : Z) : io_result (list Z) :=
  if range_overflows offset size then IoFailed EOVERFLOW
  else read_loop fuel 0 size offset [].

End read.

(** A write behind the end extends the file with zeros. *)
Definition overwrite (file : list Z) (offset : Z) (bs : list Z) : list Z :=
  take (Z.to_nat offset) (file ++ zeros (offset - blen file)) ++ bs ++
  drop (Z.to_nat offset + length bs) file.

Section write.
  (** pwrite at the given attempt: size, offset. *)
  Variable pwrite : nat -> Z -> Z -> pwrite_result.

Fixpoint write_loop (fuel attempt : nat) (buffer : list Z) (offset completed : Z)
    (file : list Z) : io_result unit * list Z :=
  if blen buffer <=? completed then (IoDone tt, file)
  else match fuel with
  | O => (IoPending, file)
  | S f =>
      match pwrite attempt (blen buffer - completed) (offset + completed) with
      | PwriteError e =>
          if e =? EINTR then write_loop f (S attempt) buffer offset completed file
          else (IoFailed e, file)
      | PwriteAmount n =>
          if n =? 0 then (IoFailed EIO, file)
          else write_loop f (S attempt) buffer offset (completed + n)
                 (overwrite file (offset + completed) (sub buffer completed n))
      end
  end.

Definition LC32WriteAt (fuel : nat) (buffer : list Z) (offset : Z) (file : list Z)
    : io_result unit * list Z :=
  if range_overflows offset (blen buffer) then (IoFailed EOVERFLOW, file)
  else write_loop fuel 0 buffer offset 0 file.

End write.

(** ** Theorems *)

Section read_theorems.
Context (file : list Z) (pread : nat -> Z -> Z -> pread_result).

(** pread returns bytes of the file, at most as many as asked for; a negative
    offset is an error. *)
Class Pread : Prop := {
  pread_data k n off bs : pread k n off = PreadData bs ->
    0 <= off /\ blen bs <= n /\ off + blen bs <= Z.max off (blen file) /\ bs = sub file off (blen bs)
}.
Context `{!Pread}.

Lemma read_loop_exact fuel k size offset buffer bs :
  0 <= offset \/ buffer = [] -> blen buffer <= size ->
  buffer = sub file offset (blen buffer) ->
  read_loop pread fuel k size offset buffer = IoDone bs ->
  blen bs = size /\ bs = sub file offset size.
Proof.
  revert k buffer. induction fuel as [|f IH]; intros k buffer Ho Hl Hb; cbn;
    destruct (size <=? blen buffer) eqn:Hs; zb; try done;
    try (intros [= <-]; assert (blen buffer = size) as <- by lia; done).
  destruct (pread _ _ _) as [data|e] eqn:Hp.
  - destruct data as [|b data]; [done|].
    apply pread_data in Hp as (H0 & H1 & H2 & H3).
    assert (0 <= offset) by (destruct Ho as [?| ->]; [done|change (blen []) with 0 in *; lia]).
    apply IH; [by left|rewrite blen_app; lia|].
    rewrite blen_app, sub_app_split by auto with lc32. congruence.
  - case_if; [|done]. by apply IH.
Qed.

(** A completed read returns exactly the bytes of the range. *)
Lemma read_at_exact fuel size offset bs :
  0 <= size -> LC32ReadAt pread fuel size offset = IoDone bs ->
  blen bs = size /\ bs = sub file offset size.
Proof.
  intros. unfold LC32ReadAt in *. destruct (range_overflows _ _); [done|].
  eapply read_loop_exact; [| | |done]; auto.
Qed.

Lemma read_loop_total fuel k size offset buffer stop :
  (forall j, (stop <= j)%nat -> forall n off, pread j n off <> PreadError EINTR) ->
  0 <= offset -> 
  (Z.to_nat (size - blen buffer) + (stop - k) <= fuel)%nat ->
  read_loop pread fuel k size offset buffer <> IoPending.
Proof.
  intros Hstop Ho. revert k buffer. induction fuel as [|f IH]; intros k buffer Hf; cbn;
    destruct (size <=? blen buffer) eqn:Hs; zb; try done; [lia|].
  destruct (pread _ _ _) as [data|e] eqn:Hp.
  - destruct data as [|b data]; [done|]. apply IH. rewrite blen_app. unfold blen at 2. cbn.
    lia.
  - destruct (e =? EINTR) eqn:He; zb; [|done]. subst. apply IH.
    destruct (decide (stop <= k)%nat); [by apply Hstop in Hp|lia].
Qed.

(** The call returns when it is interrupted finitely often, and with the bytes
    of the range when pread does not fail and the range lies in the file. *)
Lemma read_at_total size offset stop :
  (forall j, (stop <= j)%nat -> forall n off, pread j n off <> PreadError EINTR) ->
  0 <= offset -> 
  LC32ReadAt pread (Z.to_nat size + stop) size offset <> IoPending.
Proof.
  intros. unfold LC32ReadAt. destruct (range_overflows _ _); [done|].
  apply (read_loop_total _ _ _ _ _ stop); [done..|]. unfold blen. cbn. lia.
Qed.

(** pread transfers something wherever the file has bytes. *)
Definition steady_pread : Prop :=
  forall k n off, 0 < n -> 0 <= off -> off + n <= blen file ->
  exists b bs, pread k n off = PreadData (b :: bs).

Lemma read_loop_complete fuel k size offset buffer :
  steady_pread -> 0 <= offset -> offset + size <= blen file -> blen buffer <= size ->
  (Z.to_nat (size - blen buffer) <= fuel)%nat ->
  exists bs, read_loop pread fuel k size offset buffer = IoDone bs.
Proof.
  intros Hs Ho Hl. revert k buffer. induction fuel as [|f IH]; intros k buffer Hb Hf; cbn;
    destruct (size <=? blen buffer) eqn:E; zb; [by eexists|lia|by eexists|].
  destruct (Hs k (size - blen buffer) (offset + blen buffer)) as (b & bs & Hp);
    [lia|pose proof (blen_nonneg buffer); lia|lia|].
  rewrite Hp. apply pread_data in Hp as (_ & Hn & _).
  assert (0 < blen (b :: bs)) by (unfold blen; cbn; lia).
  apply IH; rewrite blen_app; lia.
Qed.

Lemma read_at_complete fuel size offset :
  steady_pread -> 0 <= size -> 0 <= offset -> offset + size <= blen file -> blen file <= INT64_MAX ->
  size <= Z.of_nat fuel -> exists bs, LC32ReadAt pread fuel size offset = IoDone bs.
Proof.
  intros. unfold LC32ReadAt, range_overflows.
  rewrite (proj2 (Z.ltb_ge _ _)), (proj2 (Z.ltb_ge _ _)) by lia. cbn [orb].
  apply read_loop_complete; try done; change (blen []) with 0; lia.
Qed.
End read_theorems.

(** The reads of a parse of [file] that does not change, each with a pread of
    its own, are a [FileReader]. *)
Definition io_reader (preads : nat -> nat -> Z -> Z -> pread_result) (fuel : nat)
    (call : nat) (offset size : Z) : option (list Z) :=
  match LC32ReadAt (preads call) fuel size offset with
  | IoDone bs => Some bs
  | _ => None
  end.

#[export] Instance io_reader_ok file preads fuel :
  (forall k, Pread file (preads k)) -> Forall byte_ok file ->
  FileReader (io_reader preads fuel).
Proof.
  intros Hp Hb. split; unfold io_reader; intros k off n bs;
    destruct (LC32ReadAt _ _ _ _) eqn:E; try done; intros [= <-].
  - intros Hn. by eapply read_at_exact in E as [? _].
  - destruct (decide (0 <= n)).
    + eapply read_at_exact in E as [_ ->]; [by apply Forall_sub|done..].
    + unfold LC32ReadAt in E. destruct (range_overflows _ _); [done|].
      destruct fuel; cbn in E; destruct (n <=? _) eqn:Hz; zb;
        simplify_eq; try done; change (blen []) with 0 in *; lia.
Qed.

(** ** Writing *)

Lemma overwrite_overwrite file o a b :
  0 <= o -> overwrite (overwrite file o a) (o + blen a) b = overwrite file o (a ++ b).
Proof.
  intros Ho. unfold overwrite at 1 3. set (pre := take (Z.to_nat o) (file ++ _)).
  assert (length pre = Z.to_nat o) as Hp.
  { unfold pre, zeros, blen. rewrite length_take, length_app, length_replicate. lia. }
  assert (overwrite file o a = pre ++ a ++ drop (Z.to_nat o + length a) file) as -> by done.
  replace (Z.to_nat (o + blen a)) with (length (pre ++ a))
    by (rewrite length_app; unfold blen; lia).
  set (rest := drop _ file). rewrite !(app_assoc pre a rest), <- (app_assoc (pre ++ a)).
  rewrite take_app_length, drop_app_ge by lia. unfold rest.
  rewrite drop_drop, <- !app_assoc. do 4 f_equal. rewrite !length_app. lia.
Qed.

Lemma overwrite_inside file o bs :
  0 <= o -> o + blen bs <= blen file -> overwrite file o bs = splice file o bs.
Proof.
  intros. unfold overwrite, splice. f_equal. unfold blen in *. rewrite take_app_le by lia. done.
Qed.

Section write_theorems.
Context (pwrite : nat -> Z -> Z -> pwrite_result).

(** pwrite writes at most as many bytes as it was given. *)
Class Pwrite : Prop := {
  pwrite_amount k n off a : pwrite k n off = PwriteAmount a -> 0 <= a <= n
}.
Context `{!Pwrite}.

(** At any moment the file is the original with a prefix of the buffer at the
    offset: all of it when the call succeeds. *)
Lemma write_loop_prefix fuel k buffer offset completed file0 :
  0 <= offset -> 0 <= completed <= blen buffer ->
  let r := write_loop pwrite fuel k buffer offset completed
             (overwrite file0 offset (sub buffer 0 completed)) in
  exists n, completed <= n <= blen buffer /\ r.2 = overwrite file0 offset (sub buffer 0 n) /\ (r.1 = IoDone tt -> n = blen buffer).
Proof.
  intros Ho. revert k completed. induction fuel as [|f IH]; intros k completed Hc; cbn;
    destruct (blen buffer <=? completed) eqn:Hs; zb; cbn;
    try (exists completed; split_and!; [lia..|done|done || lia]).
  destruct (pwrite _ _ _) as [a|e] eqn:Hp.
  - apply pwrite_amount in Hp. case_if; zb; [by exists completed; split_and!; [lia..|done|]|].
    replace (offset + completed) with (offset + blen (sub buffer 0 completed))
      by (rewrite blen_sub; lia).
    rewrite overwrite_overwrite, <- (sub_app_split buffer 0) by lia.
    destruct (IH (S k) (completed + a)) as (n & ? & ? & ?); [lia|].
    exists n. split_and!; [lia..|done|done].
  - case_if; [by apply IH|]. by exists completed; split_and!; [lia..|done|].
Qed.

(** pwrite transfers something. *)
Definition steady_pwrite : Prop :=
  forall k n off, 0 < n -> exists a, pwrite k n off = PwriteAmount a /\ 0 < a.

Lemma write_loop_complete fuel k buffer offset completed file :
  steady_pwrite -> completed <= blen buffer ->
  blen buffer - completed <= Z.of_nat fuel ->
  exists file', write_loop pwrite fuel k buffer offset completed file = (IoDone tt, file').
Proof.
  intros Hs. revert k completed file. induction fuel as [|f IH]; intros k completed file Hc Hf; cbn;
    destruct (blen buffer <=? completed) eqn:E; zb; [by eexists|lia|by eexists|].
  destruct (Hs k (blen buffer - completed) (offset + completed) ltac:(lia)) as (a & Hp & Ha).
  rewrite Hp. apply pwrite_amount in Hp. rewrite (proj2 (Z.eqb_neq a 0)) by lia.
  apply IH; lia.
Qed.

Lemma write_at_complete fuel buffer offset file :
  steady_pwrite -> 0 <= offset -> offset + blen buffer <= INT64_MAX ->
  blen buffer <= Z.of_nat fuel ->
  exists file', LC32WriteAt pwrite fuel buffer offset file = (IoDone tt, file').
Proof.
  intros. pose proof (blen_nonneg buffer). unfold LC32WriteAt, range_overflows.
  rewrite (proj2 (Z.ltb_ge _ _)), (proj2 (Z.ltb_ge _ _)) by lia. cbn [orb].
  apply write_loop_complete; [done|lia|lia].
Qed.
End write_theorems.
