(* ===== verification/CodeSignature.v ===== *)
(** Embedded code signatures (src/Tweak/FatMachO.c).

    A signature is a "super blob": a big-endian header, an index of typed blobs
    and the blobs themselves.  Code directories hold the hashes of the code pages
    and of the other blobs ("special slots", stored backwards before the code
    hashes).  The tweak parses signatures, takes the requirements and entitlement
    blobs of a freshly signed arm64 shim as a donor, and rewrites the code
    directories of encrypted ARM slices, whose pages it cannot hash, so that they
    carry the donor's blobs and a Team ID while the code hashes stay as they are.

    A view of a blob is the rest of its allocation from the blob on ([bytes]),
    the blob's offset in it ([start]) and the length its header gives.  The
    digest functions of CommonCrypto and the choice of flags that depends on the
    version of iOS are parameters. *)

From stdpp Require Import base list.
From Stdlib Require Import ZArith Lia.
From S2P Require Import Prelude Bytes MachOImage.

Open Scope Z_scope.

(** ** Constants *)

Definition LC32_MAX_CODE_SIGNATURE_BLOBS : Z := 64.
Definition LC32_MAX_CODE_SIGNATURE_SIZE : Z := 16 * 1024 * 1024.
Definition LC32_MAX_SIGNING_STRING_SIZE : Z := 4096.

Definition LC32_CS_MAGIC_CODE_DIRECTORY : Z := 0xfade0c02.
Definition LC32_CS_MAGIC_EMBEDDED_SIGNATURE : Z := 0xfade0cc0.
Definition LC32_CS_MAGIC_EMBEDDED_ENTITLEMENTS : Z := 0xfade7171.
Definition LC32_CS_MAGIC_EMBEDDED_DER_ENTITLEMENTS : Z := 0xfade7172.
Definition LC32_CS_MAGIC_REQUIREMENTS : Z := 0xfade0c01.
Definition LC32_CS_MAGIC_BLOB_WRAPPER : Z := 0xfade0b01.
Definition LC32_CS_SLOT_CODE_DIRECTORY : Z := 0.
Definition LC32_CS_SLOT_REQUIREMENTS : Z := 2.
Definition LC32_CS_SLOT_ENTITLEMENTS : Z := 5.
Definition LC32_CS_SLOT_DER_ENTITLEMENTS : Z := 7.
Definition LC32_CS_SLOT_ALTERNATE_DIRECTORIES : Z := 0x1000.
Definition LC32_CS_SLOT_ALTERNATE_DIRECTORY_LIMIT : Z := 0x1005.
Definition LC32_CS_SLOT_CMS_SIGNATURE : Z := 0x10000.
Definition LC32_CS_ADHOC : Z := 0x2.
Definition LC32_CS_EXECSEG_MAIN_BINARY : Z := 0x1.
Definition LC32_CS_HASH_SHA1 : Z := 1.
Definition LC32_CS_HASH_SHA256 : Z := 2.
Definition LC32_CS_HASH_SHA256_TRUNCATED : Z := 3.
Definition LC32_CS_HASH_SHA384 : Z := 4.
Definition LC32_CS_EARLIEST_CODE_DIRECTORY_VERSION : Z := 0x20001.

(** Sizes of CS_SuperBlob, CS_BlobIndex, CS_GenericBlob and of a digest buffer. *)
Definition super_blob_size : Z := 12.
Definition blob_index_size : Z := 8.
Definition generic_blob_size : Z := 8.
Definition digest_capacity : Z := 48.

(** Offsets of the fields of CS_CodeDirectory. *)
Definition cd_length : Z := 4.
Definition cd_version : Z := 8.
Definition cd_flags : Z := 12.
Definition cd_hashOffset : Z := 16.
Definition cd_identOffset : Z := 20.
Definition cd_nSpecialSlots : Z := 24.
Definition cd_nCodeSlots : Z := 28.
Definition cd_codeLimit : Z := 32.
Definition cd_hashSize : Z := 36.
Definition cd_hashType : Z := 37.
Definition cd_pageSize : Z := 39.
Definition cd_spare2 : Z := 40.
Definition cd_scatterOffset : Z := 44.
Definition cd_teamOffset : Z := 48.
Definition cd_spare3 : Z := 52.
Definition cd_codeLimit64 : Z := 56.
Definition cd_execSegBase : Z := 64.
Definition cd_execSegFlags : Z := 80.
Definition cd_runtime : Z := 88.
Definition cd_preEncryptOffset : Z := 92.
Definition cd_linkageHashType : Z := 96.
Definition cd_linkageOffset : Z := 100.
Definition cd_linkageSize : Z := 104.

(** ** Data *)

Record LC32CodeSignatureBlobView := mkBlob {
  blobType : Z;
  blobMagic : Z;
  blobBytes : list Z;
  blobStart : Z;
  blobLength : Z
}.

Record LC32CodeSignatureView := mkView { viewLength : Z; blobs : list LC32CodeSignatureBlobView }.

Record LC32ParsedCodeDirectory := mkDirectory {
  version : Z;
  cdHeaderSize : Z;
  flags : Z;
  signingLimit : Z;
  hashOffset : Z;
  identifierOffset : Z;
  specialSlotCount : Z;
  codeSlotCount : Z;
  prefixEnd : Z;
  scatterOffset : Z;
  teamOffset : Z;
  preEncryptOffset : Z;
  linkageOffset : Z;
  linkageSize : Z;
  hashSize : Z;
  hashType : Z;
  pageSize : Z
}.

(** A donor without a requirements blob has no view of it. *)
Record LC32CodeSignatureDonor := mkDonor {
  requirements : option LC32CodeSignatureBlobView;
  entitlements : LC32CodeSignatureBlobView;
  derEntitlements : LC32CodeSignatureBlobView;
  cmsSignature : LC32CodeSignatureBlobView
}.

(** One constructor per message. *)
Inductive SignatureError : Type :=
| SigTruncated | SigMalformed | SigBlobOffset (index : Z) | SigBlobLength (index : Z)
| SigDuplicateType (type : Z) | SigOverlap
| CdMalformed | CdVersion | CdTruncated | CdHashFormat | CdPageCoverage | CdInconsistentCoverage
| CdHashVector | CdFixedFields | CdIdentifier | CdScatterOffset | CdScatterVector | CdTeam
| CdPreEncrypt | CdLinkage
| HashUnsupported | HashUnknown | SlotNotCovered (slot : Z) | SlotMismatch (slot : Z)
| SlotInvalid | SlotHashesAbsent (slot : Z)
| DonorIncomplete | NoCodeDirectory | NotAdHoc | WrongTeam | FlagsNotNormalized
| CoversSignature | TeamLength | DirectoryTooLarge | OutOfMemory | TransformUnverified
| TooManyBlobs | NoUsableSignature | SignatureUnreadable | LengthOverflow | AllocationTooSmall.

(** ** Arithmetic *)

Definition LC32AddUInt64 (left right : Z) : option Z :=
  if UINT64_MAX - left <? right then None else Some (u64 (left + right)).

Definition LC32AlignUInt64 (value alignment : Z) : option Z :=
  if (alignment =? 0) || has_flag alignment (alignment - 1) then None
  else
    let mask := alignment - 1 in
    if UINT64_MAX - mask <? value then None
    else Some (Z.land (u64 (value + mask)) (u64_not mask)).

Definition LC32RangeFits (offset size containerSize : Z) : bool :=
  (offset <=? containerSize) && (size <=? containerSize - offset).

(** [ios17]: the process runs on iOS 17 or later. *)
Definition LC32TransformedCodeDirectoryFlags (ios17 : bool) (flags : Z) : Z :=
  if ios17 then Z.land flags (u32_not LC32_CS_ADHOC) else Z.lor flags LC32_CS_ADHOC.

Definition LC32CodeDirectoryRank (hashType : Z) : Z :=
  if hashType =? LC32_CS_HASH_SHA1 then 1
  else if hashType =? LC32_CS_HASH_SHA256_TRUNCATED then 2
  else if hashType =? LC32_CS_HASH_SHA256 then 3
  else if hashType =? LC32_CS_HASH_SHA384 then 4
  else 0.

Definition LC32CodeDirectoryHeaderSize (version : Z) : Z :=
  if 0x20600 <=? version then cd_linkageSize + 4
  else if 0x20500 <=? version then cd_linkageHashType
  else if 0x20400 <=? version then cd_runtime
  else if 0x20300 <=? version then cd_execSegBase
  else if 0x20200 <=? version then cd_spare3
  else if 0x20100 <=? version then cd_teamOffset
  else cd_scatterOffset.

Definition LC32CodeSignatureTypeIsCodeDirectory (type : Z) : bool :=
  (type =? LC32_CS_SLOT_CODE_DIRECTORY) ||
  ((LC32_CS_SLOT_ALTERNATE_DIRECTORIES <=? type) &&
   (type <? LC32_CS_SLOT_ALTERNATE_DIRECTORY_LIMIT)).

Definition LC32ExpectedCodeDirectoryHashSize (hashType : Z) : Z :=
  if hashType =? LC32_CS_HASH_SHA1 then 20
  else if hashType =? LC32_CS_HASH_SHA256 then 32
  else if hashType =? LC32_CS_HASH_SHA256_TRUNCATED then 20
  else if hashType =? LC32_CS_HASH_SHA384 then 48
  else 0.

(** ** The super blob *)

(** A blob against the blobs before it. *)
Fixpoint check_blobs (t off len : Z) (previous : list LC32CodeSignatureBlobView)
    : outcome SignatureError unit :=
  match previous with
  | [] => mret tt
  | other :: rest =>
      _ ← reject_if (t =? blobType other) (SigDuplicateType t);
      _ ← reject_if ((off <? blobStart other + blobLength other) &&
                     (blobStart other <? off + len)) SigOverlap;
      check_blobs t off len rest
  end.

(** The loop over the index: [n] entries are left, [found] are the blobs so far. *)
Fixpoint parse_blobs (signature : list Z) (sigLength indexEnd : Z) (n : nat)
    (found : list LC32CodeSignatureBlobView)
    : outcome SignatureError (list LC32CodeSignatureBlobView) :=
  match n with
  | O => mret found
  | S m =>
      let index := Z.of_nat (length found) in
      let encodedIndex := super_blob_size + index * blob_index_size in
      t ← be32_at signature encodedIndex;
      off ← be32_at signature (encodedIndex + 4);
      _ ← reject_if ((off <? indexEnd) || negb (LC32RangeFits off generic_blob_size sigLength))
            (SigBlobOffset index);
      len ← be32_at signature (off + 4);
      _ ← reject_if ((len <? generic_blob_size) || negb (LC32RangeFits off len sigLength))
            (SigBlobLength index);
      _ ← check_blobs t off len found;
      m' ← be32_at signature off;
      parse_blobs signature sigLength indexEnd m
        (found ++ [mkBlob t m' (drop (Z.to_nat off) signature) off len])
  end.

(** [signature] is the allocation from the signature on. *)
Definition LC32ParseCodeSignature (signature : list Z) (capacity : Z)
    : outcome SignatureError LC32CodeSignatureView :=
  _ ← reject_if (capacity <? super_blob_size) SigTruncated;
  sigMagic ← be32_at signature 0;
  sigLength ← be32_at signature 4;
  sigCount ← be32_at signature 8;
  let indexEnd := LC32AddUInt64 super_blob_size (sigCount * blob_index_size) in
  _ ← reject_if (negb (sigMagic =? LC32_CS_MAGIC_EMBEDDED_SIGNATURE) ||
                 (sigLength <? super_blob_size) || (capacity <? sigLength) ||
                 (sigCount =? 0) || (LC32_MAX_CODE_SIGNATURE_BLOBS <? sigCount)) SigMalformed;
  indexEnd ← or_reject indexEnd SigMalformed;
  _ ← reject_if (sigLength <? indexEnd) SigMalformed;
  found ← parse_blobs signature sigLength indexEnd (Z.to_nat sigCount) [];
  mret (mkView sigLength found).

Definition LC32FindCodeSignatureBlob (view : LC32CodeSignatureView) (t : Z)
    : option LC32CodeSignatureBlobView :=
  snd <$> list_find (fun b => blobType b = t) (blobs view).

(** ** Code directories *)

Definition scatter_entry_size : Z := 24.

(** The search for the terminating scatter entry; a round moves on by one entry,
    so that the fuel is enough for a vector that ends before [prefixEnd]
    ([scatter_fuel_enough]). *)
Fixpoint scatter_terminated {E} (fuel : nat) (bytes : list Z) (prefixEnd offset : Z)
    : outcome E bool :=
  match fuel with
  | O => mret false
  | S f =>
      if LC32RangeFits offset scatter_entry_size prefixEnd then
        v ← be32_at bytes offset;
        if v =? 0 then mret true
        else scatter_terminated f bytes prefixEnd (u32 (offset + scatter_entry_size))
      else mret false
  end.

Definition scatter_fuel (prefixEnd : Z) : nat := Z.to_nat (prefixEnd / scatter_entry_size + 1).

(** A string field of the directory is valid if it lies between the header and
    the hashes, is terminated there and not empty. *)
Definition directory_string {E} (bytes : list Z) (headerSize prefixEnd off : Z)
    : outcome E bool :=
  if (off <? headerSize) || (prefixEnd <=? off) then mret false
  else
    str ← fetch bytes off (prefixEnd - off);
    if bool_decide (find_zero str = None) then mret false
    else
      first ← u8_at bytes off;
      mret (negb (first =? 0)).

Definition optional_string {E} (bytes : list Z) (headerSize prefixEnd off : Z)
    : outcome E bool :=
  if off =? 0 then mret true else directory_string bytes headerSize prefixEnd off.

Definition check_scatter (bytes : list Z) (headerSize prefixEnd off : Z)
    : outcome SignatureError unit :=
  if off =? 0 then mret tt
  else
    _ ← reject_if ((off <? headerSize) || (prefixEnd <=? off)) CdScatterOffset;
    found ← scatter_terminated (scatter_fuel prefixEnd) bytes prefixEnd off;
    reject_if (negb found) CdScatterVector.

Definition LC32ParseCodeDirectory (blob : LC32CodeSignatureBlobView)
    : outcome SignatureError LC32ParsedCodeDirectory :=
  _ ← reject_if (negb (blobMagic blob =? LC32_CS_MAGIC_CODE_DIRECTORY) ||
                 (blobLength blob <? cd_scatterOffset)) CdMalformed;
  let bs := blobBytes blob in
  encodedLength ← be32_at bs cd_length;
  version ← be32_at bs cd_version;
  _ ← reject_if (negb (encodedLength =? blobLength blob) ||
                 (version <? LC32_CS_EARLIEST_CODE_DIRECTORY_VERSION) || (0x20600 <? version))
        CdVersion;
  let headerSize := LC32CodeDirectoryHeaderSize version in
  _ ← reject_if (blobLength blob <? headerSize) CdTruncated;
  hashType ← u8_at bs cd_hashType;
  hashSize ← u8_at bs cd_hashSize;
  _ ← reject_if ((hashSize =? 0) ||
                 negb (hashSize =? LC32ExpectedCodeDirectoryHashSize hashType)) CdHashFormat;
  hashOffset ← be32_at bs cd_hashOffset;
  specialSlotCount ← be32_at bs cd_nSpecialSlots;
  codeSlotCount ← be32_at bs cd_nCodeSlots;
  limit32 ← be32_at bs cd_codeLimit;
  signingLimit ← (if 0x20300 <=? version then
                    limit64 ← be64_at bs cd_codeLimit64;
                    mret (if limit64 =? 0 then limit32 else limit64)
                  else mret limit32);
  pageSize ← u8_at bs cd_pageSize;
  _ ← reject_if (negb (pageSize =? 0) && ((64 <=? pageSize) || (signingLimit =? 0)))
        CdPageCoverage;
  let expectedCodeSlotCount :=
    if pageSize =? 0 then (if signingLimit =? 0 then 0 else 1)
    else u64 (Z.shiftr (signingLimit - 1) pageSize + 1) in
  _ ← reject_if (negb (expectedCodeSlotCount =? codeSlotCount)) CdInconsistentCoverage;
  let specialHashBytes := specialSlotCount * hashSize in
  let codeHashBytes := codeSlotCount * hashSize in
  _ ← reject_if ((hashOffset <? specialHashBytes) || (blobLength blob <? hashOffset) ||
                 negb (codeHashBytes =? blobLength blob - hashOffset)) CdHashVector;
  let prefixEnd := hashOffset - specialHashBytes in
  spare2 ← be32_at bs cd_spare2;
  spare3 ← (if 0x20300 <=? version then be32_at bs cd_spare3 else mret 0);
  _ ← reject_if ((prefixEnd <? headerSize) || negb (spare2 =? 0) || negb (spare3 =? 0))
        CdFixedFields;
  identifierOffset ← be32_at bs cd_identOffset;
  validIdentifier ← directory_string bs headerSize prefixEnd identifierOffset;
  _ ← reject_if (negb validIdentifier) CdIdentifier;
  scatterOffset ← (if 0x20100 <=? version then be32_at bs cd_scatterOffset else mret 0);
  _ ← check_scatter bs headerSize prefixEnd scatterOffset;
  teamOffset ← (if 0x20200 <=? version then be32_at bs cd_teamOffset else mret 0);
  validTeam ← optional_string bs headerSize prefixEnd teamOffset;
  _ ← reject_if (negb validTeam) CdTeam;
  preEncryptOffset ← (if 0x20500 <=? version then be32_at bs cd_preEncryptOffset else mret 0);
  _ ← reject_if (negb (preEncryptOffset =? 0) && ((preEncryptOffset <? headerSize) ||
                   negb (LC32RangeFits preEncryptOffset codeHashBytes prefixEnd))) CdPreEncrypt;
  linkageOffset ← (if 0x20600 <=? version then be32_at bs cd_linkageOffset else mret 0);
  linkageSize ← (if 0x20600 <=? version then be32_at bs cd_linkageSize else mret 0);
  _ ← reject_if (negb (eqb (linkageOffset =? 0) (linkageSize =? 0)) ||
                 (negb (linkageOffset =? 0) && ((linkageOffset <? headerSize) ||
                    negb (LC32RangeFits linkageOffset linkageSize prefixEnd)))) CdLinkage;
  flags ← be32_at bs cd_flags;
  mret (mkDirectory version headerSize flags signingLimit hashOffset identifierOffset
          specialSlotCount codeSlotCount prefixEnd scatterOffset teamOffset preEncryptOffset
          linkageOffset linkageSize hashSize hashType pageSize).
