(* ===== verification/CodeSignatureProps.v ===== *)
(** Parsing a code signature: no access outside its buffer, and an exact
    description of what is accepted.

    [view_wf] describes an accepted super blob, [directory_of] an accepted code
    directory: the fields of the parsed record are the fields of the bytes, and
    the offsets nest.  [parse_directory_safe] and [parse_directory_accepts] show
    that the parser accepts exactly the directories that satisfy it. *)

From stdpp Require Import base list.
From Stdlib Require Import ZArith Lia.
From S2P Require Import Prelude Bytes MachOImage MachOImageProps CodeSignature.

Open Scope Z_scope.

(** ** Arithmetic *)

Lemma add_uint64 a b c :
  0 <= a -> 0 <= b -> LC32AddUInt64 a b = Some c -> c = a + b /\ c < U64_MOD.
Proof.
  unfold LC32AddUInt64, UINT64_MAX. intros. case_match; zb; simplify_eq.
  rewrite u64_small; unfold U64_MOD in *; lia.
Qed.

Lemma add_uint64_some a b :
  0 <= a -> 0 <= b -> a + b < U64_MOD -> LC32AddUInt64 a b = Some (a + b).
Proof.
  unfold LC32AddUInt64, UINT64_MAX. intros.
  destruct (U64_MOD - 1 - a <? b) eqn:E; zb; [lia|]. rewrite u64_small by lia. done.
Qed.

Lemma sig_range_fits off sz container :
  LC32RangeFits off sz container = true <-> off <= container /\ off + sz <= container.
Proof. apply range_fits. Qed.

(** Alignment rounds up to the next multiple and never beyond 64 bits. *)
Lemma align_uint64 v e c :
  0 <= v -> 0 <= e < 64 -> LC32AlignUInt64 v (Z.shiftl 1 e) = Some c ->
  v <= c < v + 2 ^ e /\ c mod 2 ^ e = 0 /\ c < U64_MOD.
Proof.
  unfold LC32AlignUInt64. intros Hv He. rewrite Z.shiftl_1_l.
  assert (0 < 2 ^ e) by (apply Z.pow_pos_nonneg; lia).
  assert (2 ^ e <= 2 ^ 63) by (apply Z.pow_le_mono_r; lia).
  case_match; [done|]. case_match; [done|]. zb. intros [= <-].
  unfold UINT64_MAX, U64_MOD in *. rewrite u64_small by (unfold U64_MOD; lia).
  replace (2 ^ e - 1) with (Z.ones e) by (rewrite Z.ones_equiv; lia).
  rewrite land_u64_not_ones by (rewrite ?Z.ones_equiv; unfold U64_MOD; lia).
  rewrite Z.ones_equiv.
  pose proof (Z.div_mod (v + Z.pred (2 ^ e)) (2 ^ e) ltac:(lia)).
  pose proof (Z.mod_pos_bound (v + Z.pred (2 ^ e)) (2 ^ e) ltac:(lia)).
  split; [lia|]. split; [rewrite Z.mul_comm; apply Z.mod_mul; lia|lia].
Qed.

(** ** The super blob *)

(** Entry [i] of the index and its blob. *)
Definition blob_of (signature : list Z) (indexEnd sigLength : Z) (i : nat)
    (b : LC32CodeSignatureBlobView) : Prop :=
  let e := super_blob_size + Z.of_nat i * blob_index_size in
  blobType b = be32 signature e /\ blobStart b = be32 signature (e + 4) /\
  blobLength b = be32 signature (blobStart b + 4) /\
  blobMagic b = be32 signature (blobStart b) /\
  blobBytes b = drop (Z.to_nat (blobStart b)) signature /\
  indexEnd <= blobStart b /\ generic_blob_size <= blobLength b /\
  blobStart b + blobLength b <= sigLength.

Definition blobs_apart (a b : LC32CodeSignatureBlobView) : Prop :=
  blobType a <> blobType b /\
  (blobStart a + blobLength a <= blobStart b \/ blobStart b + blobLength b <= blobStart a).

Record view_wf (signature : list Z) (capacity : Z) (v : LC32CodeSignatureView) : Prop := {
  vw_magic : be32 signature 0 = LC32_CS_MAGIC_EMBEDDED_SIGNATURE;
  vw_length : viewLength v = be32 signature 4 /\ viewLength v <= capacity /\
    super_blob_size + be32 signature 8 * blob_index_size <= viewLength v;
  vw_count : Z.of_nat (length (blobs v)) = be32 signature 8 /\
    1 <= be32 signature 8 <= LC32_MAX_CODE_SIGNATURE_BLOBS;
  vw_blobs : forall i b, blobs v !! i = Some b ->
    blob_of signature (super_blob_size + be32 signature 8 * blob_index_size) (viewLength v) i b;
  vw_apart : pairwise blobs_apart (blobs v)
}.

Lemma safe_be32_at {E} buf off (P : Z -> Prop) :
  Forall byte_ok buf -> 0 <= off -> off + 4 <= blen buf ->
  (0 <= be32 buf off < U32_MOD -> P (be32 buf off)) -> safe (E := E) (be32_at buf off) P.
Proof. intros. rewrite be32_at_in_buf by lia. cbn. apply H2, be32_range; done. Qed.

Lemma check_blobs_safe t off len l :
  safe (check_blobs t off len l) (fun _ => Forall (fun b =>
    blobType b <> t /\ (blobStart b + blobLength b <= off \/ off + len <= blobStart b)) l).
Proof.
  induction l as [|b l IH]; cbn [check_blobs]; [by constructor|].
  do 4 safe_step. eapply safe_mono; [exact IH|]. intros ? Hl. constructor; [|done].
  apply andb_false_iff in H0. rewrite !Z.ltb_ge in H0. split; [done|lia].
Qed.

Section signature.
Context (signature : list Z) (Hbytes : Forall byte_ok signature).

Lemma parse_blobs_safe sigLength indexEnd n found :
  sigLength <= blen signature -> 0 <= indexEnd <= sigLength ->
  super_blob_size + (Z.of_nat (length found) + Z.of_nat n) * blob_index_size <= indexEnd ->
  (forall i b, found !! i = Some b -> blob_of signature indexEnd sigLength i b) ->
  pairwise blobs_apart found ->
  safe (parse_blobs signature sigLength indexEnd n found) (fun l =>
    length l = (length found + n)%nat /\
    (forall i b, l !! i = Some b -> blob_of signature indexEnd sigLength i b) /\
    pairwise blobs_apart l).
Proof.
  unfold super_blob_size, blob_index_size. intros Hs Hi. revert found.
  induction n as [|n IH]; intros found He Hf Hp; cbn [parse_blobs]; [by walk|].
  cbv zeta. unfold super_blob_size, blob_index_size.
  safe_step. apply safe_be32_at; [done|lia..|]. intros Ht.
  safe_step. apply safe_be32_at; [done|lia..|]. intros Ho.
  safe_step. safe_step. match goal with H : LC32RangeFits _ _ _ = true |- _ =>
    apply sig_range_fits in H end. unfold generic_blob_size in *.
  set (off := be32 signature (12 + Z.of_nat (length found) * 8 + 4)) in *.
  safe_step. apply safe_be32_at; [done|lia..|]. intros Hl.
  safe_step. safe_step. match goal with H : LC32RangeFits _ _ _ = true |- _ =>
    apply sig_range_fits in H end. safe_step.
  eapply safe_mono; [apply check_blobs_safe|]. intros ? Hc.
  safe_step. apply safe_be32_at; [done|lia..|]. intros Hm.
  eapply safe_mono; [apply IH|].
  - rewrite length_app. cbn [length]. lia.
  - intros i b [Hb|[Hge Hb]]%lookup_app_Some; [by apply Hf|].
    apply list_lookup_singleton_Some in Hb as [Hz <-].
    assert (i = length found) as -> by lia. unfold blob_of, generic_blob_size. cbn.
    unfold super_blob_size, blob_index_size. split_and!; done || lia.
  - apply pairwise_snoc; [done|]. eapply Forall_impl; [exact Hc|]. intros b [Hbt Hbo].
    split; cbn; [congruence|lia].
  - intros l (Hl' & ? & ?). rewrite length_app in Hl'. cbn in Hl'. split; [lia|done].
Qed.

(** The parser stays in the signature and accepts only well-formed ones. *)
Lemma parse_signature_safe capacity :
  capacity <= blen signature ->
  safe (LC32ParseCodeSignature signature capacity) (view_wf signature capacity).
Proof.
  intros Hc. unfold LC32ParseCodeSignature, super_blob_size, blob_index_size.
  safe_step. safe_step.
  safe_step. apply safe_be32_at; [done|lia..|]. intros Hm.
  safe_step. apply safe_be32_at; [done|lia..|]. intros Hl.
  safe_step. apply safe_be32_at; [done|lia..|]. intros Hn.
  cbv zeta. do 4 safe_step. unfold LC32_MAX_CODE_SIGNATURE_BLOBS in *.
  match goal with H : LC32AddUInt64 _ _ = Some _ |- _ => apply add_uint64 in H as [-> _] end;
    [|lia..].
  safe_step. safe_step. safe_step.
  eapply safe_mono; [apply parse_blobs_safe; unfold super_blob_size, blob_index_size|].
  - lia.
  - lia.
  - cbn [length]. lia.
  - intros i b Hb. by rewrite lookup_nil in Hb.
  - intros i j a b ? Hb. by rewrite lookup_nil in Hb.
  - intros l (Hlen & Hb & Hp). apply safe_done. split; cbn; try done.
    cbn in Hlen. rewrite Hlen. unfold LC32_MAX_CODE_SIGNATURE_BLOBS. lia.
Qed.

Lemma check_blobs_accepts t off len l :
  Forall (fun b => blobType b <> t /\
    (blobStart b + blobLength b <= off \/ off + len <= blobStart b)) l ->
  check_blobs t off len l = Done tt.
Proof.
  induction 1 as [|b l [Ht Ho] _ IH]; cbn [check_blobs]; [done|].
  rewrite (proj2 (Z.eqb_neq t (blobType b))) by congruence. cbn [reject_if mbind outcome_bind].
  destruct (_ && _) eqn:E; [|exact IH]. apply andb_true_iff in E. rewrite !Z.ltb_lt in E. lia.
Qed.

Lemma parse_blobs_accepts sigLength indexEnd todo found :
  sigLength <= blen signature -> indexEnd <= sigLength ->
  super_blob_size + Z.of_nat (length (found ++ todo)) * blob_index_size <= indexEnd ->
  (forall i b, (found ++ todo) !! i = Some b -> blob_of signature indexEnd sigLength i b) ->
  pairwise blobs_apart (found ++ todo) ->
  parse_blobs signature sigLength indexEnd (length todo) found = Done (found ++ todo).
Proof.
  unfold super_blob_size, blob_index_size. intros Hs Hi.
  revert found. induction todo as [|b todo IH]; intros found He Hf Hp; cbn [length parse_blobs].
  { by rewrite app_nil_r. }
  destruct (Hf (length found) b) as (Et & Eo & El & Em & Eb & H1 & H2 & H3);
    [by rewrite list_lookup_middle|].
  rewrite length_app in He. cbn [length] in He. cbv zeta. unfold super_blob_size, blob_index_size in *.
  unfold generic_blob_size in *.
  rewrite !be32_at_in_buf by lia. rewrite <- Et, <- Eo. cbn [mbind outcome_bind].
  rewrite (proj2 (Z.ltb_ge _ _) H1), (proj2 (sig_range_fits _ _ _)) by lia.
  cbn [orb negb reject_if mbind outcome_bind].
  rewrite !be32_at_in_buf by lia. rewrite <- El, <- Em, <- Eb. cbn [mbind outcome_bind].
  rewrite (proj2 (Z.ltb_ge _ _) H2), (proj2 (sig_range_fits _ _ _)) by lia.
  cbn [orb negb reject_if mbind outcome_bind]. rewrite check_blobs_accepts.
  2:{ apply Forall_forall. intros c [j Hj]%list_elem_of_lookup.
      destruct (Hp j (length found) c b) as [? ?]; [|by apply lookup_app_l_Some|
        by rewrite list_lookup_middle|done].
      by apply lookup_lt_Some in Hj. }
  cbn [mbind outcome_bind].
  assert (mkBlob (blobType b) (blobMagic b) (blobBytes b) (blobStart b) (blobLength b) = b) as ->
    by (by destruct b).
  rewrite IH; rewrite <- ?app_assoc; try done. rewrite length_app. cbn [app length]. lia.
Qed.

(** Every signature of that description is accepted. *)
Lemma parse_signature_accepts capacity v :
  capacity <= blen signature -> view_wf signature capacity v ->
  LC32ParseCodeSignature signature capacity = Done v.
Proof.
  intros Hc [Hm (Hl & Hcap & Hi) [Hn Hr] Hb Hp].
  unfold LC32_MAX_CODE_SIGNATURE_BLOBS in *.
  unfold LC32ParseCodeSignature, super_blob_size, blob_index_size in *.
  rewrite (proj2 (Z.ltb_ge capacity 12)) by lia. cbn [reject_if mbind outcome_bind].
  rewrite !be32_at_in_buf by lia. cbn [mbind outcome_bind]. cbv zeta.
  rewrite add_uint64_some by (unfold U64_MOD; lia). rewrite Hm, <- Hl.
  rewrite (proj2 (Z.ltb_ge (viewLength v) 12)), (proj2 (Z.ltb_ge capacity _)),
    (proj2 (Z.eqb_neq (be32 signature 8) 0)), (proj2 (Z.ltb_ge LC32_MAX_CODE_SIGNATURE_BLOBS _))
    by (unfold LC32_MAX_CODE_SIGNATURE_BLOBS; lia).
  cbn [negb orb reject_if or_reject mbind outcome_bind].
  rewrite Z.eqb_refl. cbn [negb orb reject_if mbind outcome_bind].
  rewrite (proj2 (Z.ltb_ge (viewLength v) _)) by lia. cbn [reject_if mbind outcome_bind].
  rewrite <- Hn, Nat2Z.id, Hn.
  rewrite (parse_blobs_accepts _ _ (blobs v) []) by
    (cbn [app]; unfold super_blob_size, blob_index_size; rewrite ?Hn; lia || done).
  cbn. by destruct v.
Qed.
End signature.
