(* ===== verification/CodeDirectoryProps.v ===== *)
(** Parsing a code directory: no access outside the blob, and the parser accepts
    exactly the directories described by [directory_of]. *)

From stdpp Require Import base list.
From Stdlib Require Import ZArith Lia.
From S2P Require Import Prelude Bytes MachOImage MachOImageProps CodeSignature CodeSignatureProps.

Open Scope Z_scope.

(** ** What a directory says *)

(** A field that exists from some version on. *)
Definition since (v : Z) (version : Z) (value : Z) : Z := if v <=? version then value else 0.

Definition limit_of (version : Z) (bs : list Z) : Z :=
  if 0x20300 <=? version then
    if be64 bs cd_codeLimit64 =? 0 then be32 bs cd_codeLimit else be64 bs cd_codeLimit64
  else be32 bs cd_codeLimit.

Definition slots_for (pageSize limit : Z) : Z :=
  if pageSize =? 0 then (if limit =? 0 then 0 else 1)
  else u64 (Z.shiftr (limit - 1) pageSize + 1).

(** A terminated, non-empty string between [lo] and [hi]. *)
Definition string_at (bs : list Z) (lo hi off : Z) : Prop :=
  lo <= off < hi /\ find_zero (sub bs off (hi - off)) <> None /\ u8 bs off <> 0.

(** A scatter vector that ends before [hi]. *)
Definition scatter_ok (bs : list Z) (lo hi off : Z) : Prop :=
  off <> 0 -> lo <= off < hi /\
    scatter_terminated (E := SignatureError) (scatter_fuel hi) bs hi off = Done true.

Record directory_of (b : LC32CodeSignatureBlobView) (p : LC32ParsedCodeDirectory) : Prop := {
  do_blob : blobMagic b = LC32_CS_MAGIC_CODE_DIRECTORY /\
    be32 (blobBytes b) cd_length = blobLength b;
  do_version : version p = be32 (blobBytes b) cd_version /\
    LC32_CS_EARLIEST_CODE_DIRECTORY_VERSION <= version p <= 0x20600;
  do_header : cdHeaderSize p = LC32CodeDirectoryHeaderSize (version p) /\
    cdHeaderSize p <= prefixEnd p;
  do_flags : flags p = be32 (blobBytes b) cd_flags;
  do_hash : hashType p = u8 (blobBytes b) cd_hashType /\
    hashSize p = u8 (blobBytes b) cd_hashSize /\ hashSize p <> 0 /\
    hashSize p = LC32ExpectedCodeDirectoryHashSize (hashType p);
  do_counts : hashOffset p = be32 (blobBytes b) cd_hashOffset /\
    specialSlotCount p = be32 (blobBytes b) cd_nSpecialSlots /\
    codeSlotCount p = be32 (blobBytes b) cd_nCodeSlots;
  do_limit : signingLimit p = limit_of (version p) (blobBytes b) /\
    pageSize p = u8 (blobBytes b) cd_pageSize /\
    (pageSize p <> 0 -> pageSize p < 64 /\ signingLimit p <> 0) /\
    codeSlotCount p = slots_for (pageSize p) (signingLimit p);
  do_vector : prefixEnd p = hashOffset p - specialSlotCount p * hashSize p /\
    0 <= prefixEnd p <= hashOffset p /\ hashOffset p <= blobLength b /\
    codeSlotCount p * hashSize p = blobLength b - hashOffset p;
  do_spare : be32 (blobBytes b) cd_spare2 = 0 /\
    since 0x20300 (version p) (be32 (blobBytes b) cd_spare3) = 0;
  do_identifier : identifierOffset p = be32 (blobBytes b) cd_identOffset /\
    string_at (blobBytes b) (cdHeaderSize p) (prefixEnd p) (identifierOffset p);
  do_scatter :
    scatterOffset p = since 0x20100 (version p) (be32 (blobBytes b) cd_scatterOffset) /\
    scatter_ok (blobBytes b) (cdHeaderSize p) (prefixEnd p) (scatterOffset p);
  do_team : teamOffset p = since 0x20200 (version p) (be32 (blobBytes b) cd_teamOffset) /\
    (teamOffset p <> 0 ->
       string_at (blobBytes b) (cdHeaderSize p) (prefixEnd p) (teamOffset p));
  do_preEncrypt :
    preEncryptOffset p = since 0x20500 (version p) (be32 (blobBytes b) cd_preEncryptOffset) /\
    (preEncryptOffset p <> 0 -> cdHeaderSize p <= preEncryptOffset p /\
       preEncryptOffset p + codeSlotCount p * hashSize p <= prefixEnd p);
  do_linkage :
    linkageOffset p = since 0x20600 (version p) (be32 (blobBytes b) cd_linkageOffset) /\
    linkageSize p = since 0x20600 (version p) (be32 (blobBytes b) cd_linkageSize) /\
    (linkageOffset p = 0 <-> linkageSize p = 0) /\
    (linkageOffset p <> 0 -> cdHeaderSize p <= linkageOffset p /\
       linkageOffset p + linkageSize p <= prefixEnd p)
}.

(** ** Lemmas *)

(** The offsets of the fields as numbers. *)
Ltac cd_fields :=
  unfold cd_length, cd_version, cd_flags, cd_hashOffset, cd_identOffset, cd_nSpecialSlots,
    cd_nCodeSlots, cd_codeLimit, cd_hashSize, cd_hashType, cd_pageSize, cd_spare2,
    cd_scatterOffset, cd_teamOffset, cd_spare3, cd_codeLimit64, cd_execSegFlags,
    cd_preEncryptOffset, cd_linkageOffset, cd_linkageSize in *.

(** Later versions have longer headers. *)
Lemma header_size_mono v w :
  v <= w -> LC32CodeDirectoryHeaderSize v <= LC32CodeDirectoryHeaderSize w.
Proof. unfold LC32CodeDirectoryHeaderSize. intros. repeat (case_match; zb); cbv; lia || done. Qed.

Lemma header_size_range v : 44 <= LC32CodeDirectoryHeaderSize v <= 108.
Proof. unfold LC32CodeDirectoryHeaderSize. repeat (case_match; zb); cbv; done. Qed.

(** The buffer holds the fixed header of version [v]. *)
Definition covers (bs : list Z) (v : Z) : Prop := LC32CodeDirectoryHeaderSize v <= blen bs.

Section reads.
Context (bs : list Z) (Hbs : Forall byte_ok bs).

(** Fields of all versions: the offset is checked by computation. *)
Lemma read8 {E} v off :
  covers bs v -> (0 <=? off) && (off + 1 <=? 44) = true ->
  u8_at (E := E) bs off = Done (u8 bs off) /\ 0 <= u8 bs off < 256.
Proof.
  unfold covers. intros ? ?%andb_true_iff. rewrite !Z.leb_le in *.
  pose proof (header_size_range v). split; [apply u8_at_in_buf|apply u8_range; [done|..]]; lia.
Qed.

Lemma read32 {E} v off :
  covers bs v -> (0 <=? off) && (off + 4 <=? 44) = true ->
  be32_at (E := E) bs off = Done (be32 bs off) /\ 0 <= be32 bs off < U32_MOD.
Proof.
  unfold covers. intros ? ?%andb_true_iff. rewrite !Z.leb_le in *.
  pose proof (header_size_range v).
  split; [apply be32_at_in_buf|apply be32_range; [done|..]]; lia.
Qed.

(** Fields that exist since version [c]. *)
Lemma since_read {E} c v off :
  covers bs v -> (0 <=? off) && (off + 4 <=? LC32CodeDirectoryHeaderSize c) = true ->
  (if c <=? v then be32_at (E := E) bs off else mret 0) = Done (since c v (be32 bs off)) /\
  0 <= since c v (be32 bs off) < U32_MOD.
Proof.
  unfold covers, since. intros ? ?%andb_true_iff. rewrite !Z.leb_le in *.
  destruct (c <=? v) eqn:Hv; zb; [|by vm_compute].
  pose proof (header_size_mono c v Hv).
  rewrite be32_at_in_buf by lia. split; [done|]. apply be32_range; [done|lia..].
Qed.

Lemma limit_read {E} v :
  covers bs v ->
  (if 0x20300 <=? v then
     limit64 ← be64_at (E := E) bs cd_codeLimit64;
     mret (if limit64 =? 0 then be32 bs cd_codeLimit else limit64)
   else mret (be32 bs cd_codeLimit)) = Done (limit_of v bs).
Proof.
  unfold covers, limit_of. intros H. destruct (0x20300 <=? v) eqn:Hv; zb; [|done].
  pose proof (header_size_mono 0x20300 v Hv) as Hm.
  change (LC32CodeDirectoryHeaderSize 0x20300) with 64 in Hm.
  unfold cd_codeLimit64. rewrite be64_at_in_buf by lia. cbn. by case_match.
Qed.

Lemma directory_string_read {E} lo hi off :
  0 <= lo -> hi <= blen bs -> exists b,
  directory_string (E := E) bs lo hi off = Done b /\ (b = true <-> string_at bs lo hi off).
Proof.
  intros Hlo Hhi. unfold directory_string, string_at.
  destruct ((off <? lo) || (hi <=? off)) eqn:Hr.
  - exists false. split; [done|]. apply orb_true_iff in Hr. rewrite Z.ltb_lt, Z.leb_le in Hr.
    split; [done|]. intros (? & _). lia.
  - zb. rewrite fetch_in_buf by lia. cbn.
    destruct (find_zero (sub bs off (hi - off))) eqn:Hz; cbn.
    + rewrite u8_at_in_buf by lia. cbn. eexists. split; [done|].
      rewrite negb_true_iff, Z.eqb_neq. naive_solver lia.
    + exists false. split; [done|]. naive_solver.
Qed.

Lemma optional_string_read {E} lo hi off :
  0 <= lo -> hi <= blen bs -> exists b, optional_string (E := E) bs lo hi off = Done b /\
    (b = true <-> (off <> 0 -> string_at bs lo hi off)).
Proof.
  intros Hlo Hhi. unfold optional_string. destruct (off =? 0) eqn:Hz; zb.
  - exists true. naive_solver.
  - destruct (directory_string_read (E := E) lo hi off Hlo Hhi) as (b & -> & Hs).
    exists b. naive_solver.
Qed.

Lemma scatter_read {E} fuel hi off :
  0 <= off -> hi <= blen bs -> exists b, scatter_terminated (E := E) fuel bs hi off = Done b.
Proof.
  revert off. induction fuel as [|f IH]; intros off Ho Hh; cbn; [by eexists|].
  destruct (LC32RangeFits _ _ _) eqn:Hf; [|by eexists].
  apply sig_range_fits in Hf. unfold scatter_entry_size in *.
  rewrite be32_at_in_buf by lia. cbn. case_match; [by eexists|].
  apply IH; [|done]. apply u32_range.
Qed.

Lemma check_scatter_safe lo hi off :
  0 <= lo -> hi <= blen bs -> safe (check_scatter bs lo hi off) (fun _ => scatter_ok bs lo hi off).
Proof.
  intros Hlo Hhi. unfold check_scatter, scatter_ok. safe_step; [by apply safe_done|].
  do 3 safe_step.
  destruct (scatter_read (E := SignatureError) (scatter_fuel hi) hi off) as [f Hf]; [lia..|].
  rewrite Hf. cbn. apply safe_check. intros ->%negb_false_iff _. done.
Qed.

Lemma check_scatter_accepts lo hi off :
  scatter_ok bs lo hi off -> check_scatter bs lo hi off = Done tt.
Proof.
  unfold check_scatter, scatter_ok. intros H. destruct (off =? 0) eqn:Hz; zb; [done|].
  destruct (H Hz) as [Hr ->]. cbn.
  assert ((off <? lo) || (hi <=? off) = false) as ->; [|done].
  rewrite orb_false_iff, Z.ltb_ge, Z.leb_gt. lia.
Qed.
End reads.

(** The search of the scatter terminator does not run out of fuel. *)
Lemma scatter_fuel_enough {E} bs hi fuel off :
  0 <= off -> 0 <= hi < U32_MOD -> (scatter_fuel hi <= fuel)%nat ->
  scatter_terminated (E := E) fuel bs hi off =
  scatter_terminated (E := E) (scatter_fuel hi) bs hi off.
Proof.
  intros Ho Hh. unfold scatter_fuel, scatter_entry_size.
  assert (hi / 24 + 1 >= 0) by (pose proof (Z.div_pos hi 24); lia).
  assert (forall f g, off + 24 * Z.of_nat f > hi -> off + 24 * Z.of_nat g > hi ->
    scatter_terminated (E := E) f bs hi off = scatter_terminated (E := E) g bs hi off) as Hany.
  { intros f. revert off Ho. induction f as [|f IH]; intros off Ho g Hf Hg.
    - destruct g as [|g]; [done|]. cbn. destruct (LC32RangeFits _ _ _) eqn:Hr; [|done].
      apply sig_range_fits in Hr. unfold scatter_entry_size in *. lia.
    - destruct g as [|g]; cbn; destruct (LC32RangeFits _ _ _) eqn:Hr; try done;
        apply sig_range_fits in Hr; unfold scatter_entry_size in *; [lia|].
      destruct (be32_at bs off); cbn; [|done..]. case_match; [done|].
      rewrite u32_small by (unfold U32_MOD in *; lia). apply IH; lia. }
  intros Hfuel. apply Hany; pose proof (Z.mul_succ_div_gt hi 24 ltac:(lia)); lia.
Qed.

(** The guards of the optional fields. *)
Lemma optional_range x h n hi :
  0 <= n ->
  negb (x =? 0) && ((x <? h) || negb (LC32RangeFits x n hi)) = false <->
  (x <> 0 -> h <= x /\ x + n <= hi).
Proof.
  intros Hn. destruct (x =? 0) eqn:Hx; zb; cbn; [naive_solver|].
  rewrite orb_false_iff, Z.ltb_ge, negb_false_iff, sig_range_fits. intuition lia.
Qed.

Lemma page_guard p limit :
  negb (p =? 0) && ((64 <=? p) || (limit =? 0)) = false <-> (p <> 0 -> p < 64 /\ limit <> 0).
Proof.
  destruct (p =? 0) eqn:Hp; zb; cbn; [naive_solver|].
  rewrite orb_false_iff, Z.leb_gt, Z.eqb_neq. naive_solver.
Qed.

Lemma linkage_guard x y : eqb (x =? 0) (y =? 0) = true <-> (x = 0 <-> y = 0).
Proof. rewrite eqb_true_iff. destruct (Z.eqb_spec x 0), (Z.eqb_spec y 0); naive_solver. Qed.

Lemma since_nonneg v version x : 0 <= x -> 0 <= since v version x.
Proof. unfold since. case_match; lia. Qed.

(** ** The parser *)

(** The blob lies in its allocation. *)
Definition blob_ok (b : LC32CodeSignatureBlobView) : Prop :=
  Forall byte_ok (blobBytes b) /\ blobLength b <= blen (blobBytes b).

(** Continue with the value of a read. *)
Ltac bind_done :=
  lazymatch goal with
  | |- _ (mbind ?k (Done ?v)) _ => change (mbind k (Done v)) with (k v); cbv beta
  end.

(** The next read of the parser, from a buffer that covers the header. *)
Ltac cd_read :=
  lazymatch goal with
  | Hc : covers ?b ?w |- _ (mbind _ (be32_at ?b ?o)) _ =>
      rewrite (proj1 (read32 b ltac:(eassumption) w o Hc eq_refl))
  | Hc : covers ?b ?w |- _ (mbind _ (if ?c <=? ?v then be32_at ?b ?o else mret 0)) _ =>
      rewrite (proj1 (since_read b ltac:(eassumption) c v o Hc eq_refl))
  | Hc : covers ?b ?w |- _ (mbind _ (u8_at ?b ?o)) _ =>
      rewrite (proj1 (read8 b ltac:(eassumption) w o Hc eq_refl))
  | Hc : covers ?b ?w |- _ (mbind _ (if 0x20300 <=? ?v then _ else _)) _ =>
      rewrite (limit_read b v Hc)
  end; bind_done.

(** Pass a check of the parser. *)
Ltac pass := apply succeeds_bind, succeeds_check;
  [rewrite ?orb_false_iff, ?negb_false_iff, ?Z.ltb_ge, ?Z.leb_gt, ?Z.eqb_eq, ?Z.eqb_neq|].

Section parser.
Context (b : LC32CodeSignatureBlobView) (Hb : blob_ok b).

Lemma parse_directory_safe : safe (LC32ParseCodeDirectory b) (directory_of b).
Proof.
  destruct Hb as [Hbytes Hin]. set (bs := blobBytes b) in *.
  unfold LC32ParseCodeDirectory. fold bs. do 2 safe_step.
  assert (covers bs 0) as Hc by (unfold covers; change (44 <= blen bs); cd_fields; lia).
  do 2 cd_read. do 2 safe_step. set (v := be32 bs cd_version) in *. cbv zeta.
  pose proof (header_size_range v) as Hh. do 2 safe_step. clear Hc.
  assert (covers bs v) as Hc by (unfold covers; lia).
  set (h := LC32CodeDirectoryHeaderSize v) in *. do 2 cd_read. do 2 safe_step.
  do 6 cd_read. do 6 safe_step. do 2 cd_read. do 2 safe_step. cd_read.
  set (hi := be32 bs cd_hashOffset - be32 bs cd_nSpecialSlots * u8 bs cd_hashSize) in *.
  pose proof (proj2 (read8 (E := unit) bs Hbytes v cd_hashSize Hc eq_refl)).
  pose proof (proj2 (read32 (E := unit) bs Hbytes v cd_nSpecialSlots Hc eq_refl)).
  pose proof (proj2 (read32 (E := unit) bs Hbytes v cd_nCodeSlots Hc eq_refl)).
  pose proof (proj2 (since_read (E := unit) bs Hbytes 0x20600 v cd_linkageSize Hc eq_refl)).
  assert (hi <= be32 bs cd_hashOffset) by (unfold hi; lia).
  destruct (directory_string_read (E := SignatureError) bs h hi (be32 bs cd_identOffset))
    as (sb & -> & Hs); [lia..|]. bind_done. do 2 safe_step. cd_read.
  safe_step. eapply safe_mono; [apply check_scatter_safe; lia|]. intros ? Hscatter. cd_read.
  destruct (optional_string_read (E := SignatureError) bs h hi
    (since 0x20200 v (be32 bs cd_teamOffset))) as (tb & -> & Ht); [lia..|].
  bind_done. do 2 safe_step. cd_read. do 2 safe_step. do 2 cd_read. do 2 safe_step. cd_read.
  apply safe_done. rewrite page_guard in *. rewrite linkage_guard in *.
  rewrite !optional_range in * by (lia || (apply Z.mul_nonneg_nonneg; lia)).
  rewrite Hs, Ht in *. cbn in Hscatter.
  split; cbn; fold bs v h hi; split_and?; try done; try (unfold hi; lia).
Qed.

(** Every directory of that description is accepted. *)
Lemma parse_directory_accepts p : directory_of b p -> LC32ParseCodeDirectory b = Done p.
Proof.
  intros [[Hm Hl] [Ev Rv] [Eh Hh] Ef (Et & Es & Hs & Hx) (Eo & Esp & Ecs) (El & Ep & Hp & Hc)
    (Epe & Hpe & Ho & Hch) [Z2 Z3] [Ei Hi] [Esc Hsc] [Ete Hte] [Epr Hpr] (Elo & Els & Hlk & Hlr)].
  destruct Hb as [Hbytes Hin]. destruct p as [v h fl limit off id sp cs hi sc te pre lo ls hs ht pg].
  cbn in *. set (bs := blobBytes b) in *.
  pose proof (header_size_range v) as C0. rewrite <- Eh in C0.
  assert (covers bs v) as Hcov by (unfold covers; rewrite <- Eh; lia).
  pose proof (proj2 (read8 (E := unit) bs Hbytes v cd_hashSize Hcov eq_refl)) as R1.
  pose proof (proj2 (read32 (E := unit) bs Hbytes v cd_nCodeSlots Hcov eq_refl)) as R2.
  pose proof (proj2 (since_read (E := unit) bs Hbytes 0x20600 v cd_linkageSize Hcov eq_refl)) as R3.
  enough (succeeds (LC32ParseCodeDirectory b) (fun q => q =
    mkDirectory v h fl limit off id sp cs hi sc te pre lo ls hs ht pg)) as Hq.
  { by apply succeeds_elim in Hq as (q & -> & ->). }
  unfold LC32ParseCodeDirectory. fold bs. pass; [cd_fields; split; [done|lia]|].
  do 2 cd_read. rewrite <- Ev. pass; [lia|]. cbv zeta. rewrite <- Eh. pass; [lia|].
  do 2 cd_read. rewrite <- Et, <- Es. pass; [done|].
  do 6 cd_read. rewrite <- Eo, <- Esp, <- Ecs, <- El, <- Ep.
  pass; [by apply page_guard|]. pass; [done|]. rewrite <- Epe.
  pass; [lia|]. do 2 cd_read. pass; [done|].
  cd_read. rewrite <- Ei.
  destruct (directory_string_read (E := SignatureError) bs h hi id) as (sb & -> & Hsb);
    [lia..|]. bind_done. pass; [by apply Hsb|]. cd_read. rewrite <- Esc.
  rewrite check_scatter_accepts by done. bind_done. cd_read. rewrite <- Ete.
  destruct (optional_string_read (E := SignatureError) bs h hi te) as (tb & -> & Htb);
    [lia..|]. bind_done. pass; [by apply Htb|]. cd_read. rewrite <- Epr.
  pass; [apply optional_range; [apply Z.mul_nonneg_nonneg; lia|done]|].
  do 2 cd_read. rewrite <- Elo, <- Els.
  pass; [split; [by apply linkage_guard|apply optional_range; [lia|done]]|].
  cd_read. rewrite <- Ef. done.
Qed.
End parser.
