(* ===== verification/CodeTransform.v ===== *)
(** Rewriting code signatures (src/Tweak/FatMachO.c): the donor blobs of the
    signed shim, the flags of its directories, the transformed code directories
    of an encrypted ARM slice and the repacked signature.

    The digests of CommonCrypto are parameters ([Digests] states their lengths),
    and so are the calls of malloc and calloc: [allocates] says which succeed. *)

From stdpp Require Import base list sorting.
From Stdlib Require Import ZArith Lia.
From S2P Require Import Prelude Bytes MachOImage CodeSignature.

Open Scope Z_scope.

Section digests.
  Variables CC_SHA1 CC_SHA256 CC_SHA384 : list Z -> list Z.

(** The digest is computed into a zeroed buffer of 48 bytes. *)
Definition digest_buffer (digest : list Z) : list Z := splice (zeros digest_capacity) 0 digest.

Definition LC32HashCodeSignatureBlob (blob : LC32CodeSignatureBlobView) (hashType hashSize : Z)
    : outcome SignatureError (list Z) :=
  _ ← reject_if (negb (hashSize =? LC32ExpectedCodeDirectoryHashSize hashType)) HashUnsupported;
  if hashType =? LC32_CS_HASH_SHA1 then
    bs ← fetch (blobBytes blob) 0 (blobLength blob);
    fetch (digest_buffer (CC_SHA1 bs)) 0 hashSize
  else if (hashType =? LC32_CS_HASH_SHA256) || (hashType =? LC32_CS_HASH_SHA256_TRUNCATED) then
    bs ← fetch (blobBytes blob) 0 (blobLength blob);
    fetch (digest_buffer (CC_SHA256 bs)) 0 hashSize
  else if hashType =? LC32_CS_HASH_SHA384 then
    bs ← fetch (blobBytes blob) 0 (blobLength blob);
    fetch (digest_buffer (CC_SHA384 bs)) 0 hashSize
  else Reject HashUnknown.

Definition LC32CodeDirectorySlotMatchesBlob (codeDirectory : LC32CodeSignatureBlobView)
    (slot : Z) (component : LC32CodeSignatureBlobView) : outcome SignatureError unit :=
  parsed ← LC32ParseCodeDirectory codeDirectory;
  _ ← reject_if ((slot =? 0) || (specialSlotCount parsed <? slot)) (SlotNotCovered slot);
  expected ← LC32HashCodeSignatureBlob component (hashType parsed) (hashSize parsed);
  actual ← fetch (blobBytes codeDirectory) (hashOffset parsed - slot * hashSize parsed)
             (hashSize parsed);
  reject_if (bool_decide (actual <> expected)) (SlotMismatch slot).

Definition LC32CodeDirectorySlotIsEmpty (codeDirectory : LC32CodeSignatureBlobView) (slot : Z)
    : outcome SignatureError unit :=
  parsed ← LC32ParseCodeDirectory codeDirectory;
  _ ← reject_if (slot =? 0) SlotInvalid;
  if specialSlotCount parsed <? slot then mret tt
  else
    digest ← fetch (blobBytes codeDirectory) (hashOffset parsed - slot * hashSize parsed)
               (hashSize parsed);
    reject_if (negb (forallb (fun b => b =? 0) digest)) (SlotHashesAbsent slot).

(** A present blob must be hashed by its slot, an absent one must not be. *)
Definition slot_agrees (codeDirectory : LC32CodeSignatureBlobView) (slot : Z)
    (component : option LC32CodeSignatureBlobView) : outcome SignatureError unit :=
  match component with
  | Some blob => LC32CodeDirectorySlotMatchesBlob codeDirectory slot blob
  | None => LC32CodeDirectorySlotIsEmpty codeDirectory slot
  end.

(** ** The donor *)

(** LC32EmptyCMSSignature. *)
Definition LC32EmptyCMSSignature : list Z := [0xfa; 0xde; 0x0b; 0x01; 0x00; 0x00; 0x00; 0x08].

Definition blob_is (b : LC32CodeSignatureBlobView) (m : Z) (lengthOk : bool) : bool :=
  (blobMagic b =? m) && lengthOk.

(** The loop over the directories of the donor; answers how many there are. *)
Fixpoint check_directories (req : option LC32CodeSignatureBlobView)
    (ent der : LC32CodeSignatureBlobView) (bs : list LC32CodeSignatureBlobView) (seen : Z)
    : outcome SignatureError Z :=
  match bs with
  | [] => mret seen
  | b :: rest =>
      if negb (LC32CodeSignatureTypeIsCodeDirectory (blobType b)) then
        check_directories req ent der rest seen
      else
        _ ← slot_agrees b LC32_CS_SLOT_REQUIREMENTS req;
        _ ← LC32CodeDirectorySlotMatchesBlob b LC32_CS_SLOT_ENTITLEMENTS ent;
        _ ← LC32CodeDirectorySlotMatchesBlob b LC32_CS_SLOT_DER_ENTITLEMENTS der;
        check_directories req ent der rest (seen + 1)
  end.

Definition LC32CreateCodeSignatureDonor (signature : list Z) (capacity : Z)
    : outcome SignatureError LC32CodeSignatureDonor :=
  view ← LC32ParseCodeSignature signature capacity;
  let req := LC32FindCodeSignatureBlob view LC32_CS_SLOT_REQUIREMENTS in
  let ent := LC32FindCodeSignatureBlob view LC32_CS_SLOT_ENTITLEMENTS in
  let der := LC32FindCodeSignatureBlob view LC32_CS_SLOT_DER_ENTITLEMENTS in
  let cms := LC32FindCodeSignatureBlob view LC32_CS_SLOT_CMS_SIGNATURE in
  let requirementsAreValid := match req with
    | None => true
    | Some b => blob_is b LC32_CS_MAGIC_REQUIREMENTS (super_blob_size <=? blobLength b)
    end in
  let cmsSignatureIsValid := match cms with
    | None => true
    | Some b => blob_is b LC32_CS_MAGIC_BLOB_WRAPPER (blobLength b =? generic_blob_size)
    end in
  _ ← reject_if (negb requirementsAreValid || negb cmsSignatureIsValid) DonorIncomplete;
  ent ← or_reject ent DonorIncomplete;
  der ← or_reject der DonorIncomplete;
  _ ← reject_if (negb (blob_is ent LC32_CS_MAGIC_EMBEDDED_ENTITLEMENTS
                         (generic_blob_size <? blobLength ent)) ||
                 negb (blob_is der LC32_CS_MAGIC_EMBEDDED_DER_ENTITLEMENTS
                         (generic_blob_size <? blobLength der))) DonorIncomplete;
  codeDirectoryCount ← check_directories req ent der (blobs view) 0;
  _ ← reject_if (codeDirectoryCount =? 0) NoCodeDirectory;
  mret (mkDonor req ent der
          (mkBlob LC32_CS_SLOT_CMS_SIGNATURE LC32_CS_MAGIC_BLOB_WRAPPER LC32EmptyCMSSignature 0
             (blen LC32EmptyCMSSignature))).

(** ** Flags of the signed shim *)

(** The loop over the directories: the flags are written into [signature], in
    which the views lie. *)
Fixpoint normalize_directories (ios17 : bool) (teamIdentifier : list Z)
    (bs : list LC32CodeSignatureBlobView) (signature : list Z) (seen : Z)
    : outcome SignatureError (list Z * Z) :=
  match bs with
  | [] => mret (signature, seen)
  | b :: rest =>
      if negb (LC32CodeSignatureTypeIsCodeDirectory (blobType b)) then
        normalize_directories ios17 teamIdentifier rest signature seen
      else
        let b := mkBlob (blobType b) (blobMagic b) (drop (Z.to_nat (blobStart b)) signature)
                   (blobStart b) (blobLength b) in
        parsed ← LC32ParseCodeDirectory b;
        _ ← reject_if ((teamOffset parsed =? 0) ||
                       bool_decide (c_string (drop (Z.to_nat (teamOffset parsed)) (blobBytes b))
                                    <> teamIdentifier)) WrongTeam;
        let normalizedFlags := LC32TransformedCodeDirectoryFlags ios17 (flags parsed) in
        signature ← store signature (blobStart b + cd_flags) (be_bytes 4 normalizedFlags);
        written ← be32_at signature (blobStart b + cd_flags);
        _ ← reject_if (negb (written =? normalizedFlags)) FlagsNotNormalized;
        normalize_directories ios17 teamIdentifier rest signature (seen + 1)
  end.

Definition LC32NormalizeSignedShimCodeDirectoryFlags (ios17 : bool) (signature : list Z)
    (capacity : Z) (teamIdentifier : list Z) : outcome SignatureError (list Z) :=
  view ← LC32ParseCodeSignature signature capacity;
  _ ← reject_if (match LC32FindCodeSignatureBlob view LC32_CS_SLOT_CMS_SIGNATURE with
                 | None => false
                 | Some b => negb (blob_is b LC32_CS_MAGIC_BLOB_WRAPPER
                                     (blobLength b =? generic_blob_size))
                 end) NotAdHoc;
  '(signature, codeDirectoryCount) ←
     normalize_directories ios17 teamIdentifier (blobs view) signature 0;
  _ ← reject_if (codeDirectoryCount =? 0) NoCodeDirectory;
  mret signature.

(** ** Transformed code directories *)

Definition LC32RelocateCodeDirectoryOffset (codeDirectory : list Z)
    (fieldOffset oldOffset adjustment : Z) : outcome SignatureError (list Z) :=
  if oldOffset =? 0 then mret codeDirectory
  else store codeDirectory fieldOffset (be_bytes 4 (u32 (oldOffset + adjustment))).

(** The slots that are replaced and the blobs that replace them. *)
Definition replacements (donor : LC32CodeSignatureDonor)
    : list (Z * option LC32CodeSignatureBlobView) :=
  [(LC32_CS_SLOT_REQUIREMENTS, requirements donor);
   (LC32_CS_SLOT_ENTITLEMENTS, Some (entitlements donor));
   (LC32_CS_SLOT_DER_ENTITLEMENTS, Some (derEntitlements donor))].

Fixpoint write_slots (parsed : LC32ParsedCodeDirectory) (newHashOffset : Z)
    (rs : list (Z * option LC32CodeSignatureBlobView)) (result : list Z)
    : outcome SignatureError (list Z) :=
  match rs with
  | [] => mret result
  | (slot, blob) :: rest =>
      digest ← (match blob with
                | None => mret (zeros (hashSize parsed))
                | Some b => LC32HashCodeSignatureBlob b (hashType parsed) (hashSize parsed)
                end);
      result ← store result (newHashOffset - slot * hashSize parsed) digest;
      write_slots parsed newHashOffset rest result
  end.

Fixpoint verify_slots (resultView : LC32CodeSignatureBlobView)
    (rs : list (Z * option LC32CodeSignatureBlobView)) : outcome SignatureError unit :=
  match rs with
  | [] => mret tt
  | (slot, blob) :: rest => _ ← slot_agrees resultView slot blob; verify_slots resultView rest
  end.

(** The lengths and offsets of the transformed directory. *)
Record growth := mkGrowth {
  newVersion : Z;
  newHeaderSize : Z;
  headerGrowth : Z;
  newSpecialSlotCount : Z;
  specialSlotGrowth : Z;
  totalGrowth : Z
}.

Definition plan_growth (parsed : LC32ParsedCodeDirectory) (teamIdentifierLength sourceLength : Z)
    : outcome SignatureError growth :=
  let newVersion := if version parsed <? 0x20200 then 0x20200 else version parsed in
  let newHeaderSize := LC32CodeDirectoryHeaderSize newVersion in
  let headerGrowth := u32 (newHeaderSize - cdHeaderSize parsed) in
  let newSpecialSlotCount :=
    if specialSlotCount parsed <? LC32_CS_SLOT_DER_ENTITLEMENTS
    then LC32_CS_SLOT_DER_ENTITLEMENTS else specialSlotCount parsed in
  let specialSlotGrowth :=
    (newSpecialSlotCount - specialSlotCount parsed) * hashSize parsed in
  total ← or_reject (LC32AddUInt64 headerGrowth teamIdentifierLength) DirectoryTooLarge;
  total ← or_reject (LC32AddUInt64 total specialSlotGrowth) DirectoryTooLarge;
  _ ← reject_if ((UINT32_MAX <? total) || (UINT32_MAX - total <? sourceLength))
        DirectoryTooLarge;
  mret (mkGrowth newVersion newHeaderSize headerGrowth newSpecialSlotCount specialSlotGrowth
          total).

(** The copies of the header, of the strings and tables behind it, of the Team ID
    and of the hashes into a zeroed buffer. *)
Definition copy_directory (source : LC32CodeSignatureBlobView)
    (parsed : LC32ParsedCodeDirectory) (g : growth) (team : list Z)
    : outcome SignatureError (list Z) :=
  let bs := blobBytes source in
  let newLength := u32 (blobLength source + totalGrowth g) in
  let newTeamOffset := u32 (prefixEnd parsed + headerGrowth g) in
  let copiedHashVectorOffset :=
    u32 (newTeamOffset + (blen team + 1) + specialSlotGrowth g) in
  let result := zeros newLength in
  header ← fetch bs 0 (cdHeaderSize parsed);
  result ← store result 0 header;
  body ← fetch bs (cdHeaderSize parsed) (prefixEnd parsed - cdHeaderSize parsed);
  result ← store result (newHeaderSize g) body;
  result ← store result newTeamOffset (team ++ [0]);
  hashes ← fetch bs (prefixEnd parsed) (blobLength source - prefixEnd parsed);
  store result copiedHashVectorOffset hashes.

(** The fields of the header that change. *)
Definition patch_directory (ios17 : bool) (source : LC32CodeSignatureBlobView)
    (parsed : LC32ParsedCodeDirectory) (g : growth) (result : list Z)
    : outcome SignatureError (list Z) :=
  let newLength := u32 (blobLength source + totalGrowth g) in
  let newTeamOffset := u32 (prefixEnd parsed + headerGrowth g) in
  let newHashOffset := u32 (hashOffset parsed + totalGrowth g) in
  result ← store result cd_length (be_bytes 4 newLength);
  result ← store result cd_version (be_bytes 4 (newVersion g));
  result ← store result cd_flags
             (be_bytes 4 (LC32TransformedCodeDirectoryFlags ios17 (flags parsed)));
  result ← store result cd_hashOffset (be_bytes 4 newHashOffset);
  result ← store result cd_nSpecialSlots (be_bytes 4 (newSpecialSlotCount g));
  result ← LC32RelocateCodeDirectoryOffset result cd_identOffset (identifierOffset parsed)
             (headerGrowth g);
  result ← LC32RelocateCodeDirectoryOffset result cd_scatterOffset (scatterOffset parsed)
             (headerGrowth g);
  result ← store result cd_teamOffset (be_bytes 4 newTeamOffset);
  result ← (if 0x20500 <=? newVersion g then
              LC32RelocateCodeDirectoryOffset result cd_preEncryptOffset
                (preEncryptOffset parsed) (headerGrowth g)
            else mret result);
  result ← (if 0x20600 <=? newVersion g then
              LC32RelocateCodeDirectoryOffset result cd_linkageOffset
                (linkageOffset parsed) (headerGrowth g)
            else mret result);
  if 0x20400 <=? newVersion g then
    execSegFlags ← be64_at result cd_execSegFlags;
    store result cd_execSegFlags
      (be_bytes 8 (Z.land execSegFlags (u64_not LC32_CS_EXECSEG_MAIN_BINARY)))
  else mret result.

(** The comparison of the result with what was intended. *)
Definition verify_directory (ios17 : bool) (source : LC32CodeSignatureBlobView)
    (parsed : LC32ParsedCodeDirectory) (newTeamOffset : Z) (team result : list Z)
    (resultView : LC32CodeSignatureBlobView) : outcome SignatureError unit :=
  resultParsed ← LC32ParseCodeDirectory resultView;
  let codeHashBytes := codeSlotCount parsed * hashSize parsed in
  execSegFlags ← (if 0x20400 <=? version resultParsed then be64_at result cd_execSegFlags
                  else mret 0);
  sourceHashes ← fetch (blobBytes source) (hashOffset parsed) codeHashBytes;
  resultHashes ← fetch result (hashOffset resultParsed) codeHashBytes;
  reject_if ((version resultParsed <? 0x20200) ||
             negb (flags resultParsed =? LC32TransformedCodeDirectoryFlags ios17 (flags parsed)) ||
             negb (teamOffset resultParsed =? newTeamOffset) ||
             bool_decide (c_string (drop (Z.to_nat (teamOffset resultParsed)) result) <> team) ||
             has_flag execSegFlags LC32_CS_EXECSEG_MAIN_BINARY ||
             bool_decide (sourceHashes <> resultHashes)) TransformUnverified.

(** [allocated]: calloc returns the buffer of the result. *)
Definition LC32CreateTransformedCodeDirectory (ios17 allocated : bool)
    (source : LC32CodeSignatureBlobView) (donor : LC32CodeSignatureDonor) (team : list Z)
    (sliceSize codeSignatureOffset : Z) : outcome SignatureError (list Z) :=
  parsed ← LC32ParseCodeDirectory source;
  _ ← reject_if (negb (scatterOffset parsed =? 0) ||
                 (codeSignatureOffset <? signingLimit parsed) ||
                 (sliceSize <? signingLimit parsed)) CoversSignature;
  let teamIdentifierLength := blen team + 1 in
  _ ← reject_if ((teamIdentifierLength <? 2) ||
                 (LC32_MAX_SIGNING_STRING_SIZE <? teamIdentifierLength)) TeamLength;
  g ← plan_growth parsed teamIdentifierLength (blobLength source);
  let newTeamOffset := u32 (prefixEnd parsed + headerGrowth g) in
  let newHashOffset := u32 (hashOffset parsed + totalGrowth g) in
  _ ← reject_if (negb allocated) OutOfMemory;
  result ← copy_directory source parsed g team;
  result ← patch_directory ios17 source parsed g result;
  result ← write_slots parsed newHashOffset (replacements donor) result;
  let resultView := mkBlob (blobType source) LC32_CS_MAGIC_CODE_DIRECTORY result 0 (blen result) in
  _ ← verify_directory ios17 source parsed newTeamOffset team result resultView;
  _ ← verify_slots resultView (replacements donor);
  mret result.

End digests.
