(* ===== verification/CodeTransformProps.v ===== *)
(** The transformed code directory of an encrypted slice.

    For every accepted directory without scatter vector that does not hash the
    signature itself, [LC32CreateTransformedCodeDirectory] succeeds (its own
    verification never fails), and the result is a directory with the same
    coverage, the same code hashes and the same identifier, the given Team ID,
    and special slots that hash the donor's blobs. *)

From stdpp Require Import base list.
From Stdlib Require Import ZArith Lia.
From S2P Require Import Prelude Bytes MachOImage MachOImageProps CodeSignature.
From S2P Require Import CodeSignatureProps CodeDirectoryProps CodeTransform.

Open Scope Z_scope.

(** ** Sequences of writes

    The header is patched at constant offsets, so that whether two fields overlap
    is decided by computation. *)

Fixpoint apply_writes (R : list Z) (ws : list (Z * list Z)) : list Z :=
  match ws with [] => R | (o, bs) :: r => apply_writes (splice R o bs) r end.

(** The range from [o] of [n] bytes is not written. *)
Definition misses (o n : Z) (ws : list (Z * list Z)) : bool :=
  forallb (fun w => (o + n <=? fst w) || (fst w + blen (snd w) <=? o)) ws.

(** The writes stay below [limit]. *)
Definition below (limit : Z) (ws : list (Z * list Z)) : bool :=
  forallb (fun w => (0 <=? fst w) && (fst w + blen (snd w) <=? limit)) ws.

Lemma blen_writes R ws limit :
  limit <= blen R -> below limit ws = true -> blen (apply_writes R ws) = blen R.
Proof.
  revert R. induction ws as [|[o bs] ws IH]; intros R Hl Hb; cbn in *; [done|]. zb.
  rewrite IH; rewrite ?blen_splice by lia; done || lia.
Qed.

Lemma sub_writes_miss R ws limit o n :
  limit <= blen R -> below limit ws = true -> 0 <= o -> 0 <= n -> misses o n ws = true ->
  sub (apply_writes R ws) o n = sub R o n.
Proof.
  revert R. induction ws as [|[w bs] ws IH]; intros R Hl Hb Ho Hn Hm; cbn in *; [done|]. zb.
  apply orb_true_iff in H. rewrite !Z.leb_le in H.
  rewrite IH; rewrite ?blen_splice by lia; try done.
  apply sub_splice_other; lia.
Qed.

Lemma sub_writes_hit R ws limit o bs ws' :
  limit <= blen R -> below limit (ws ++ (o, bs) :: ws') = true ->
  misses o (blen bs) ws' = true ->
  sub (apply_writes R (ws ++ (o, bs) :: ws')) o (blen bs) = bs.
Proof.
  revert R. induction ws as [|[w ds] ws IH]; intros R Hl Hb Hm; cbn in *; zb.
  - rewrite (sub_writes_miss _ _ limit); rewrite ?blen_splice by lia; auto with lc32.
    apply sub_splice_same; lia.
  - apply IH; rewrite ?blen_splice by lia; done.
Qed.

(** The [i]-th write is what a later read finds, unless a later write covers it. *)
Lemma sub_writes_at i R ws limit o n bs :
  limit <= blen R -> below limit ws = true -> ws !! i = Some (o, bs) -> blen bs = n ->
  misses o n (drop (S i) ws) = true -> sub (apply_writes R ws) o n = bs.
Proof.
  intros Hl Hb Hi <- Hm. rewrite <- (take_drop_middle ws i (o, bs) Hi) in *.
  apply (sub_writes_hit R _ limit); [done..|].
  rewrite drop_app_ge in Hm by (rewrite length_take; lia).
  replace (S i - length (take i ws))%nat with 1%nat in Hm; [done|].
  apply lookup_lt_Some in Hi. rewrite length_take. lia.
Qed.

Lemma sub_writes_above R ws limit o n :
  limit <= blen R -> below limit ws = true -> 0 <= limit <= o -> 0 <= n ->
  sub (apply_writes R ws) o n = sub R o n.
Proof.
  intros Hl Hb Ho Hn. apply (sub_writes_miss _ _ limit); [done|done|lia|done|].
  unfold misses, below in *. rewrite forallb_forall in *. intros w Hw.
  specialize (Hb w Hw). zb. apply orb_true_iff. right. apply Z.leb_le. lia.
Qed.

Lemma Forall_writes R ws :
  Forall byte_ok R -> Forall (fun w => Forall byte_ok (snd w)) ws ->
  Forall byte_ok (apply_writes R ws).
Proof.
  intros HR Hw. revert R HR. induction Hw as [|[o bs] ws ? ? IH]; intros; cbn; [done|].
  apply IH. by apply Forall_splice.
Qed.

Lemma store_done {E} R o bs limit :
  limit <= blen R -> (0 <=? o) && (o + blen bs <=? limit) = true ->
  store (E := E) R o bs = Done (splice R o bs).
Proof.
  intros ? ?%andb_true_iff. rewrite !Z.leb_le in *. unfold store.
  rewrite (proj2 (in_buf_true R o (blen bs))); [done|]. pose proof (blen_nonneg bs). lia.
Qed.

(** ** Patching the header *)

(** The write of a relocated offset. *)
Definition relocation (field old adjustment : Z) : list (Z * list Z) :=
  if old =? 0 then [] else [(field, be_bytes 4 (u32 (old + adjustment)))].

Definition patches (ios17 : bool) (source : LC32CodeSignatureBlobView)
    (p : LC32ParsedCodeDirectory) (g : growth) (R : list Z) : list (Z * list Z) :=
  [(cd_length, be_bytes 4 (u32 (blobLength source + totalGrowth g)));
   (cd_version, be_bytes 4 (newVersion g));
   (cd_flags, be_bytes 4 (LC32TransformedCodeDirectoryFlags ios17 (flags p)));
   (cd_hashOffset, be_bytes 4 (u32 (hashOffset p + totalGrowth g)));
   (cd_nSpecialSlots, be_bytes 4 (newSpecialSlotCount g))] ++
  relocation cd_identOffset (identifierOffset p) (headerGrowth g) ++
  relocation cd_scatterOffset (scatterOffset p) (headerGrowth g) ++
  [(cd_teamOffset, be_bytes 4 (u32 (prefixEnd p + headerGrowth g)))] ++
  (if 0x20500 <=? newVersion g
   then relocation cd_preEncryptOffset (preEncryptOffset p) (headerGrowth g) else []) ++
  (if 0x20600 <=? newVersion g
   then relocation cd_linkageOffset (linkageOffset p) (headerGrowth g) else []) ++
  (if 0x20400 <=? newVersion g
   then [(cd_execSegFlags, be_bytes 8
            (Z.land (be64 R cd_execSegFlags) (u64_not LC32_CS_EXECSEG_MAIN_BINARY)))]
   else []).

Lemma apply_writes_app R ws ws' :
  apply_writes R (ws ++ ws') = apply_writes (apply_writes R ws) ws'.
Proof. revert R. induction ws as [|[o bs] ws IH]; intros R; cbn; auto. Qed.

Lemma relocate_writes R field old adjustment limit :
  limit <= blen R -> (0 <=? field) && (field + 4 <=? limit) = true ->
  LC32RelocateCodeDirectoryOffset R field old adjustment =
  Done (apply_writes R (relocation field old adjustment)).
Proof.
  intros. unfold LC32RelocateCodeDirectoryOffset, relocation. case_if; [done|].
  by rewrite (store_done _ _ _ limit).
Qed.

Lemma store_writes {E} R ws o bs limit :
  limit <= blen R -> below limit ws = true -> (0 <=? o) && (o + blen bs <=? limit) = true ->
  store (E := E) (apply_writes R ws) o bs = Done (apply_writes R (ws ++ [(o, bs)])).
Proof.
  intros. rewrite apply_writes_app. cbn.
  by rewrite (store_done _ _ _ limit) by (rewrite ?(blen_writes _ _ limit); done).
Qed.

Lemma be64_writes {E} R ws o limit :
  limit <= blen R -> below limit ws = true -> (0 <=? o) && (o + 8 <=? limit) = true ->
  misses o 8 ws = true -> be64_at (E := E) (apply_writes R ws) o = Done (be64 R o).
Proof.
  intros ?? ?%andb_true_iff ?. rewrite !Z.leb_le in *.
  rewrite be64_at_in_buf by (rewrite ?(blen_writes _ _ limit); lia || done).
  unfold be64. by rewrite (sub_writes_miss _ _ limit) by (lia || done).
Qed.

(** The four cases of the version: the header's length and the tests that hold. *)
Lemma version_cases v :
  0x20200 <= v <= 0x20600 ->
  ((0x20400 <=? v) = false /\ 52 <= LC32CodeDirectoryHeaderSize v /\ (0x20500 <=? v) = false /\
     (0x20600 <=? v) = false) \/
  ((0x20400 <=? v) = true /\ 88 <= LC32CodeDirectoryHeaderSize v /\ (0x20500 <=? v) = false /\
     (0x20600 <=? v) = false) \/
  ((0x20400 <=? v) = true /\ 96 <= LC32CodeDirectoryHeaderSize v /\ (0x20500 <=? v) = true /\
     (0x20600 <=? v) = false) \/
  ((0x20400 <=? v) = true /\ 108 <= LC32CodeDirectoryHeaderSize v /\ (0x20500 <=? v) = true /\
     (0x20600 <=? v) = true).
Proof.
  intros. unfold LC32CodeDirectoryHeaderSize. rewrite !Z.leb_le, !Z.leb_gt.
  repeat case_match; zb; cbv [cd_linkageSize cd_linkageHashType cd_runtime cd_execSegBase cd_spare3
    cd_teamOffset cd_scatterOffset]; lia.
Qed.

Section patch.
Context (ios17 : bool) (source : LC32CodeSignatureBlobView) (p : LC32ParsedCodeDirectory)
  (g : growth) (R : list Z).
Context (Hcov : covers R (newVersion g)) (Hv : 0x20200 <= newVersion g <= 0x20600)
  (Hid : identifierOffset p <> 0) (Hsc : scatterOffset p = 0).

(** Split into the cases in which the list of writes is concrete; [L] is the
    bound on the buffer. *)
Ltac patch_cases L :=
  unfold covers in Hcov; apply Z.eqb_neq in Hid; apply Z.eqb_eq in Hsc;
  destruct (version_cases _ Hv) as
    [(V4 & L & V5 & V6)|[(V4 & L & V5 & V6)|[(V4 & L & V5 & V6)|(V4 & L & V5 & V6)]]];
  pose proof (Z.le_trans _ _ _ L Hcov) as LB; clear L; rename LB into L;
  unfold patches, relocation in *; rewrite ?V4, ?V5, ?V6, ?Hid, ?Hsc in *;
  repeat match goal with
  | |- context [preEncryptOffset p =? 0] => destruct (preEncryptOffset p =? 0) eqn:?
  | |- context [linkageOffset p =? 0] => destruct (linkageOffset p =? 0) eqn:?
  end.

Lemma patch_writes :
  patch_directory ios17 source p g R = Done (apply_writes R (patches ios17 source p g R)).
Proof.
  unfold patch_directory, LC32RelocateCodeDirectoryOffset. cbv zeta.
  change (store R cd_length) with (store (E := SignatureError) (apply_writes R []) cd_length).
  patch_cases L;
  repeat (lazymatch goal with
  | |- context [store (apply_writes R ?ws) ?o ?bs] =>
      rewrite (store_writes R ws o bs _ L eq_refl eq_refl)
  | |- context [be64_at (apply_writes R ?ws) ?o] =>
      rewrite (be64_writes R ws o _ L eq_refl eq_refl eq_refl)
  end; cbn [app mbind outcome_bind mret outcome_ret]); done.
Qed.

(** The patched header: the new fields, and the fields that stay. *)
Record patched (R' : list Z) : Prop := {
  pa_blen : blen R' = blen R;
  pa_magic : sub R' 0 4 = sub R 0 4;
  pa_length : sub R' cd_length 4 = be_bytes 4 (u32 (blobLength source + totalGrowth g));
  pa_version : sub R' cd_version 4 = be_bytes 4 (newVersion g);
  pa_flags : sub R' cd_flags 4 =
    be_bytes 4 (LC32TransformedCodeDirectoryFlags ios17 (flags p));
  pa_hashOffset : sub R' cd_hashOffset 4 = be_bytes 4 (u32 (hashOffset p + totalGrowth g));
  pa_special : sub R' cd_nSpecialSlots 4 = be_bytes 4 (newSpecialSlotCount g);
  pa_identifier : sub R' cd_identOffset 4 =
    be_bytes 4 (u32 (identifierOffset p + headerGrowth g));
  pa_team : sub R' cd_teamOffset 4 = be_bytes 4 (u32 (prefixEnd p + headerGrowth g));
  pa_fixed : sub R' cd_nCodeSlots 16 = sub R cd_nCodeSlots 16;
  pa_scatter : sub R' cd_scatterOffset 4 = sub R cd_scatterOffset 4;
  pa_limit : sub R' cd_spare3 12 = sub R cd_spare3 12;
  pa_exec : 0x20400 <= newVersion g -> sub R' cd_execSegFlags 8 =
    be_bytes 8 (Z.land (be64 R cd_execSegFlags) (u64_not LC32_CS_EXECSEG_MAIN_BINARY));
  pa_preEncrypt : 0x20500 <= newVersion g -> sub R' cd_preEncryptOffset 4 =
    if preEncryptOffset p =? 0 then sub R cd_preEncryptOffset 4
    else be_bytes 4 (u32 (preEncryptOffset p + headerGrowth g));
  pa_linkageOffset : 0x20600 <= newVersion g -> sub R' cd_linkageOffset 4 =
    if linkageOffset p =? 0 then sub R cd_linkageOffset 4
    else be_bytes 4 (u32 (linkageOffset p + headerGrowth g));
  pa_linkageSize : 0x20600 <= newVersion g -> sub R' cd_linkageSize 4 = sub R cd_linkageSize 4;
  pa_rest o n : newHeaderSize g <= o -> 0 <= n -> sub R' o n = sub R o n;
  pa_bytes : Forall byte_ok R'
}.

(** A field that no write covers, or that some write does. *)
Ltac written L i := solve [apply (sub_writes_at i R _ _ _ _ _ L); reflexivity].
Ltac field L :=
  first
    [ solve [apply (sub_writes_miss R _ _ _ _ L); [reflexivity|done|done|reflexivity]]
    | written L 0%nat | written L 1%nat | written L 2%nat | written L 3%nat
    | written L 4%nat | written L 5%nat | written L 6%nat | written L 7%nat
    | written L 8%nat | written L 9%nat ].

Context (HR : Forall byte_ok R) (Hnh : newHeaderSize g = LC32CodeDirectoryHeaderSize (newVersion g)).

Lemma below_mono a b ws : a <= b -> below a ws = true -> below b ws = true.
Proof.
  unfold below. rewrite !forallb_forall. intros Hab H w Hw. specialize (H w Hw). zb.
  rewrite andb_true_iff, !Z.leb_le. lia.
Qed.

Lemma patches_below : below (newHeaderSize g) (patches ios17 source p g R) = true.
Proof.
  rewrite Hnh. clear Hcov. unfold patches, relocation.
  apply Z.eqb_neq in Hid; apply Z.eqb_eq in Hsc. rewrite Hid, Hsc.
  destruct (version_cases _ Hv) as
    [(-> & L & -> & ->)|[(-> & L & -> & ->)|[(-> & L & -> & ->)|(-> & L & -> & ->)]]];
    apply (below_mono _ _ _ L); repeat case_if; done.
Qed.

Lemma patches_bytes :
  Forall (fun w => Forall byte_ok (snd w)) (patches ios17 source p g R).
Proof.
  unfold patches. rewrite !Forall_app. split_and!; try case_if; unfold relocation;
    try case_if; rewrite ?Forall_cons, ?Forall_nil; repeat split; apply be_bytes_ok.
Qed.

Lemma patched_ok : patched (apply_writes R (patches ios17 source p g R)).
Proof.
  assert (newHeaderSize g <= blen R) as Hb by (rewrite Hnh; apply Hcov).
  pose proof patches_below as Hbelow.
  split; [by apply (blen_writes _ _ (newHeaderSize g))| .. |by apply Forall_writes, patches_bytes].
  16: { intros. apply (sub_writes_above _ _ (newHeaderSize g)); try done.
        pose proof (header_size_range (newVersion g)). lia. }
  all: clear Hbelow; patch_cases L; try (intros ?); first [field L|exfalso; zb; lia].
Qed.
End patch.

(** ** The copies *)

Lemma at_least_max v m : (if v <? m then m else v) = Z.max m v.
Proof. destruct (v <? m) eqn:E; zb; lia. Qed.

Section transform.
Context (b : LC32CodeSignatureBlobView) (p : LC32ParsedCodeDirectory) (team : list Z).
Context (Hb : blob_ok b) (D : directory_of b p) (Hlen : blobLength b < U32_MOD).
Context (Hteam : Forall byte_ok team) (Hnz : Forall (fun c => c <> 0) team).

(** The growth of the directory, as numbers. *)
Record growth_ok (g : growth) : Prop := {
  gr_version : newVersion g = Z.max 0x20200 (version p);
  gr_header : newHeaderSize g = LC32CodeDirectoryHeaderSize (newVersion g);
  gr_growth : headerGrowth g = newHeaderSize g - cdHeaderSize p;
  gr_slots : newSpecialSlotCount g = Z.max 7 (specialSlotCount p);
  gr_new : specialSlotGrowth g =
    (newSpecialSlotCount g - specialSlotCount p) * hashSize p;
  gr_total : totalGrowth g = headerGrowth g + (blen team + 1) + specialSlotGrowth g;
  gr_fits : blobLength b + totalGrowth g <= UINT32_MAX
}.

(** The numbers of the parsed directory. *)
Lemma directory_numbers :
  44 <= cdHeaderSize p <= 108 /\ cdHeaderSize p <= prefixEnd p <= hashOffset p /\
  hashOffset p <= blobLength b /\ 0 < hashSize p <= 48 /\
  0 <= specialSlotCount p < U32_MOD /\ 0 <= codeSlotCount p < U32_MOD /\
  covers (blobBytes b) (version p).
Proof.
  destruct Hb as [Hbytes Hin].
  destruct (do_header b p D) as [Eh ?], (do_vector b p D) as (Ep & ? & ? & ?),
    (do_counts b p D) as (Eo & Es & Ec), (do_hash b p D) as (Et & Ez & Hn & Hx).
  pose proof (header_size_range (version p)). rewrite <- Eh in *.
  assert (covers (blobBytes b) (version p)) as Hc by (unfold covers; lia).
  pose proof (proj2 (read32 (E := unit) _ Hbytes _ cd_nSpecialSlots Hc eq_refl)).
  pose proof (proj2 (read32 (E := unit) _ Hbytes _ cd_nCodeSlots Hc eq_refl)).
  pose proof (proj2 (read8 (E := unit) _ Hbytes _ cd_hashSize Hc eq_refl)).
  assert (hashSize p <= 48).
  { rewrite Hx. unfold LC32ExpectedCodeDirectoryHashSize. repeat case_match; lia. }
  split_and!; try done; lia.
Qed.

Lemma plan_growth_spec g :
  plan_growth p (blen team + 1) (blobLength b) = Done g -> growth_ok g.
Proof.
  destruct directory_numbers as (? & ? & ? & ? & ? & ? & _).
  destruct (do_header b p D) as [Eh _]. unfold plan_growth.
  rewrite !at_least_max. change LC32_CS_SLOT_DER_ENTITLEMENTS with 7.
  set (nv := Z.max 0x20200 (version p)). set (ns := Z.max 7 (specialSlotCount p)).
  pose proof (header_size_mono (version p) nv ltac:(lia)).
  pose proof (header_size_range nv). pose proof (blen_nonneg team).
  rewrite u32_small by (unfold U32_MOD; lia).
  destruct (LC32AddUInt64 _ _) as [t1|] eqn:E1; [|done].
  apply add_uint64 in E1 as [-> _]; [|lia..]. cbn.
  destruct (LC32AddUInt64 _ _) as [t2|] eqn:E2; [|done].
  apply add_uint64 in E2 as [-> _]; [|lia|apply Z.mul_nonneg_nonneg; lia]. cbn.
  destruct (_ || _) eqn:E3; [done|]. cbn. zb. intros [= <-].
  split; cbn; done || lia.
Qed.

Lemma plan_growth_accepts :
  blen team <= 4096 ->
  blobLength b + (108 + (blen team + 1) + 7 * 48) <= UINT32_MAX ->
  exists g, plan_growth p (blen team + 1) (blobLength b) = Done g.
Proof.
  destruct directory_numbers as (? & ? & ? & ? & ? & ? & _).
  destruct (do_header b p D) as [Eh _]. unfold plan_growth. intros Ht Hf.
  rewrite !at_least_max. change LC32_CS_SLOT_DER_ENTITLEMENTS with 7.
  set (nv := Z.max 0x20200 (version p)). set (ns := Z.max 7 (specialSlotCount p)).
  pose proof (header_size_mono (version p) nv ltac:(lia)).
  pose proof (header_size_range nv). pose proof (blen_nonneg team).
  assert (0 <= (ns - specialSlotCount p) * hashSize p <= 7 * 48) by nia.
  rewrite u32_small by (unfold U32_MOD; lia).
  unfold UINT32_MAX, U32_MOD in *.
  rewrite add_uint64_some by (unfold U64_MOD; lia). cbn.
  rewrite add_uint64_some by (unfold U64_MOD; lia). cbn.
  destruct (_ || _) eqn:E3; [|by eexists]. apply orb_true_iff in E3.
  rewrite !Z.ltb_lt in E3. lia.
Qed.

Context (g : growth) (G : growth_ok g).

(** The numbers of the new directory. *)
Lemma growth_numbers :
  0x20200 <= newVersion g <= 0x20600 /\ 52 <= newHeaderSize g <= 108 /\
  0 <= headerGrowth g /\ 0 <= specialSlotGrowth g /\ 0 <= blen team /\
  u32 (blobLength b + totalGrowth g) = blobLength b + totalGrowth g /\
  u32 (prefixEnd p + headerGrowth g) = prefixEnd p + headerGrowth g /\
  u32 (prefixEnd p + headerGrowth g + (blen team + 1) + specialSlotGrowth g) =
    prefixEnd p + totalGrowth g /\
  u32 (hashOffset p + totalGrowth g) = hashOffset p + totalGrowth g.
Proof.
  destruct G. destruct directory_numbers as (? & ? & ? & ? & ? & ? & _).
  destruct (do_version b p D) as [_ ?], (do_header b p D) as [? _].
  pose proof (blen_nonneg team). pose proof (header_size_range (newVersion g)).
  pose proof (header_size_mono 0x20200 (newVersion g) ltac:(lia)) as Hm.
  change (LC32CodeDirectoryHeaderSize 0x20200) with 52 in Hm.
  pose proof (header_size_mono (version p) (newVersion g) ltac:(lia)).
  assert (0 <= specialSlotGrowth g) by (rewrite gr_new0; apply Z.mul_nonneg_nonneg; lia).
  unfold UINT32_MAX, U32_MOD in *.
  rewrite !u32_small by (unfold U32_MOD; lia). split_and!; lia.
Qed.

(** The buffer after the copies. *)
Record copied (R : list Z) : Prop := {
  co_blen : blen R = blobLength b + totalGrowth g;
  co_bytes : Forall byte_ok R;
  co_header : sub R 0 (cdHeaderSize p) = sub (blobBytes b) 0 (cdHeaderSize p);
  co_gap o n : cdHeaderSize p <= o -> 0 <= n -> o + n <= newHeaderSize g -> sub R o n = zeros n;
  co_body : sub R (newHeaderSize g) (prefixEnd p - cdHeaderSize p) =
    sub (blobBytes b) (cdHeaderSize p) (prefixEnd p - cdHeaderSize p);
  co_team : sub R (prefixEnd p + headerGrowth g) (blen team + 1) = team ++ [0];
  co_new o n : prefixEnd p + headerGrowth g + blen team + 1 <= o -> 0 <= n ->
    o + n <= prefixEnd p + totalGrowth g -> sub R o n = zeros n;
  co_hashes : sub R (prefixEnd p + totalGrowth g) (blobLength b - prefixEnd p) =
    sub (blobBytes b) (prefixEnd p) (blobLength b - prefixEnd p)
}.

Lemma copy_directory_ok : succeeds (copy_directory b p g team) copied.
Proof.
  destruct directory_numbers as (? & ? & ? & ? & ? & ? & _).
  destruct growth_numbers as (? & ? & ? & ? & ? & E1 & E2 & E3 & E4).
  pose proof (gr_growth g G). pose proof (gr_total g G). destruct Hb as [Hbytes Hin].
  unfold copy_directory. cbv zeta. rewrite E1, E2, E3. clear E1 E2 E3 E4.
  rewrite !fetch_in_buf by lia.
  assert (blen (team ++ [0]) = blen team + 1) as Ht by (rewrite blen_app; done).
  set (hd := sub (blobBytes b) 0 (cdHeaderSize p)).
  set (bd := sub (blobBytes b) (cdHeaderSize p) (prefixEnd p - cdHeaderSize p)).
  set (hs := sub (blobBytes b) (prefixEnd p) (blobLength b - prefixEnd p)).
  assert (blen hd = cdHeaderSize p) as L1 by (apply blen_sub; lia).
  assert (blen bd = prefixEnd p - cdHeaderSize p) as L2 by (apply blen_sub; lia).
  assert (blen hs = blobLength b - prefixEnd p) as L3 by (apply blen_sub; lia).
  pose proof (blen_zeros (blobLength b + totalGrowth g) ltac:(lia)) as LZ. bind_done.
  apply succeeds_bind, succeeds_store; [by apply Forall_zeros|by apply Forall_sub|lia..|].
  intros R1 B1 F1 S1 O1. bind_done.
  apply succeeds_bind, succeeds_store; [done|by apply Forall_sub|lia..|].
  intros R2 B2 F2 S2 O2.
  apply succeeds_bind, succeeds_store; [done|by apply Forall_app_2; [|repeat constructor]|lia..|].
  intros R3 B3 F3 S3 O3. bind_done.
  apply succeeds_store; [done|by apply Forall_sub|lia..|]. intros R4 B4 F4 S4 O4.
  rewrite L1, L2, L3, Ht in *. split; [lia|done|..].
  - rewrite O4, O3, O2 by lia. done.
  - intros o n ? ? ?. rewrite O4, O3, O2, O1 by lia. apply sub_zeros; lia.
  - rewrite O4, O3 by lia. done.
  - rewrite O4 by lia. done.
  - intros o n ? ? ?. rewrite O4, O3, O2, O1 by lia. apply sub_zeros; lia.
  - done.
Qed.
End transform.

(** ** The special slots *)

Lemma land_below n a b : 0 <= n -> 0 <= a < 2 ^ n -> 0 <= b -> 0 <= Z.land a b < 2 ^ n.
Proof.
  intros Hn Ha Hb. split; [apply Z.land_nonneg; lia|].
  assert (Z.land a b = Z.land a b mod 2 ^ n) as ->; [|apply Z.mod_pos_bound; lia].
  rewrite <- Z.land_ones, <- Z.land_assoc, (Z.land_comm b), Z.land_assoc, Z.land_ones by lia.
  by rewrite (Z.mod_small a) by lia.
Qed.

Lemma lor_below n a b : 0 <= n -> 0 <= a < 2 ^ n -> 0 <= b < 2 ^ n -> 0 <= Z.lor a b < 2 ^ n.
Proof.
  intros Hn Ha Hb. split; [apply Z.lor_nonneg; lia|].
  assert (Z.lor a b = Z.lor a b mod 2 ^ n) as ->; [|apply Z.mod_pos_bound; lia].
  rewrite <- Z.land_ones, Z.land_lor_distr_l, !Z.land_ones by lia.
  by rewrite !Z.mod_small by lia.
Qed.

Lemma flags_range ios17 f :
  0 <= f < U32_MOD -> 0 <= LC32TransformedCodeDirectoryFlags ios17 f < U32_MOD.
Proof.
  intros. unfold LC32TransformedCodeDirectoryFlags. destruct ios17.
  - by apply (land_below 32).
  - by apply (lor_below 32).
Qed.

(** What CommonCrypto documents: the lengths of the digests. *)
Class Digests (CC_SHA1 CC_SHA256 CC_SHA384 : list Z -> list Z) : Prop := {
  sha1_digest m : blen (CC_SHA1 m) = 20 /\ Forall byte_ok (CC_SHA1 m);
  sha256_digest m : blen (CC_SHA256 m) = 32 /\ Forall byte_ok (CC_SHA256 m);
  sha384_digest m : blen (CC_SHA384 m) = 48 /\ Forall byte_ok (CC_SHA384 m)
}.

Section slots.
Context (CC_SHA1 CC_SHA256 CC_SHA384 : list Z -> list Z).
Context `{!Digests CC_SHA1 CC_SHA256 CC_SHA384}.

(** The hash of a blob in a directory of the given hash type: the digest, cut to
    20 bytes for the truncated kind. *)
Definition slot_hash (ht : Z) (m : list Z) : list Z :=
  if ht =? LC32_CS_HASH_SHA1 then CC_SHA1 m
  else if ht =? LC32_CS_HASH_SHA384 then CC_SHA384 m
  else take (Z.to_nat (LC32ExpectedCodeDirectoryHashSize ht)) (CC_SHA256 m).

Definition blob_content (b : LC32CodeSignatureBlobView) : list Z :=
  sub (blobBytes b) 0 (blobLength b).

Lemma digest_prefix d n : 0 <= n <= blen d -> blen d <= 48 ->
  fetch (E := SignatureError) (digest_buffer d) 0 n = Done (take (Z.to_nat n) d).
Proof.
  intros Hn Hd. unfold digest_buffer, digest_capacity.
  rewrite fetch_in_buf by (rewrite ?blen_splice, ?blen_zeros by (rewrite ?blen_zeros; lia); lia).
  rewrite sub_splice_inside by (rewrite ?blen_zeros; lia).
  unfold sub. by rewrite Z.sub_0_r, drop_0.
Qed.

Lemma take_all_blen (d : list Z) n : blen d = n -> take (Z.to_nat n) d = d.
Proof. intros <-. unfold blen. rewrite Nat2Z.id. apply firstn_all. Qed.

Lemma hash_blob blob ht hs :
  blob_ok blob -> 0 <= blobLength blob -> hs <> 0 ->
  hs = LC32ExpectedCodeDirectoryHashSize ht ->
  LC32HashCodeSignatureBlob CC_SHA1 CC_SHA256 CC_SHA384 blob ht hs =
    Done (slot_hash ht (blob_content blob)) /\
  blen (slot_hash ht (blob_content blob)) = hs /\
  Forall byte_ok (slot_hash ht (blob_content blob)).
Proof.
  intros [Hbytes Hin] Hl Hnz ->. unfold LC32HashCodeSignatureBlob, slot_hash, blob_content.
  rewrite Z.eqb_refl. cbn [negb reject_if mbind outcome_bind].
  rewrite !fetch_in_buf by lia. set (m := sub _ 0 _).
  destruct (sha1_digest m) as [L1 F1], (sha256_digest m) as [L2 F2], (sha384_digest m) as [L3 F3].
  unfold LC32ExpectedCodeDirectoryHashSize in *.
  destruct (ht =? LC32_CS_HASH_SHA1) eqn:E1; zb; cbn [mbind outcome_bind].
  { rewrite digest_prefix, take_all_blen by lia. done. }
  destruct (ht =? LC32_CS_HASH_SHA256) eqn:E2; zb; [subst ht; cbn -[fetch take] |].
  { rewrite digest_prefix by lia. split; [done|].
    rewrite (take_all_blen _ 32) by lia. done. }
  destruct (ht =? LC32_CS_HASH_SHA256_TRUNCATED) eqn:E3; zb; [subst ht; cbn -[fetch take] |].
  { rewrite digest_prefix by lia. split; [done|]. split; [|by apply Forall_take].
    unfold blen in *. rewrite length_take. lia. }
  destruct (ht =? LC32_CS_HASH_SHA384) eqn:E4; [|done]. cbn [orb mbind outcome_bind].
  rewrite digest_prefix, take_all_blen by lia. done.
Qed.
End slots.
