(* ===== verification/DirectoryRewrite.v ===== *)
(** Rewriting a code directory succeeds and is faithful: the theorem behind the
    signatures of encrypted slices. *)

From stdpp Require Import base list.
From Stdlib Require Import ZArith Lia.
From S2P Require Import Prelude Bytes MachOImage MachOImageProps CodeSignature.
From S2P Require Import CodeSignatureProps CodeDirectoryProps CodeTransform CodeTransformProps.

Open Scope Z_scope.

(** A blob the donor supplies. *)
Definition donor_blob (b : LC32CodeSignatureBlobView) : Prop := blob_ok b /\ 0 <= blobLength b.

Definition donor_ok (d : LC32CodeSignatureDonor) : Prop :=
  (forall b, requirements d = Some b -> donor_blob b) /\ donor_blob (entitlements d) /\
  donor_blob (derEntitlements d).

(** The strings, the code hashes and the special slots of a parsed directory. *)
Definition identifier_of (bs : list Z) (p : LC32ParsedCodeDirectory) : list Z :=
  c_string (drop (Z.to_nat (identifierOffset p)) bs).

Definition team_of (bs : list Z) (p : LC32ParsedCodeDirectory) : list Z :=
  c_string (drop (Z.to_nat (teamOffset p)) bs).

Definition code_hashes (bs : list Z) (p : LC32ParsedCodeDirectory) : list Z :=
  sub bs (hashOffset p) (codeSlotCount p * hashSize p).

Definition special_slot (bs : list Z) (p : LC32ParsedCodeDirectory) (s : Z) : list Z :=
  sub bs (hashOffset p - s * hashSize p) (hashSize p).

(** Both directories cover the same pages with the same kind of hash. *)
Definition same_coverage (p q : LC32ParsedCodeDirectory) : Prop :=
  signingLimit q = signingLimit p /\ pageSize q = pageSize p /\
  codeSlotCount q = codeSlotCount p /\ hashType q = hashType p /\ hashSize q = hashSize p.

Lemma first_nonzero t r : Forall (fun c => c <> 0) t -> 1 <= blen t -> le_int (sub (t ++ r) 0 1) <> 0.
Proof. intros [|c s Hc _] Hl; [done|]. change (c + 256 * 0 <> 0). lia. Qed.

Section rewrite.
Context (CC_SHA1 CC_SHA256 CC_SHA384 : list Z -> list Z).
Context `{!Digests CC_SHA1 CC_SHA256 CC_SHA384}.
Context (ios17 : bool) (b : LC32CodeSignatureBlobView) (p : LC32ParsedCodeDirectory)
  (team : list Z) (d : LC32CodeSignatureDonor).
Context (Hb : blob_ok b) (D : directory_of b p) (Hd : donor_ok d).
Context (Hteam : Forall byte_ok team) (Hnz : Forall (fun c => c <> 0) team).

(** What a replaced slot holds. *)
Definition slot_value (blob : option LC32CodeSignatureBlobView) : list Z :=
  match blob with
  | None => zeros (hashSize p)
  | Some x => slot_hash CC_SHA1 CC_SHA256 CC_SHA384 (hashType p) (blob_content x)
  end.

Lemma slot_value_ok blob :
  (forall x, blob = Some x -> donor_blob x) ->
  match blob with
  | None => mret (zeros (hashSize p))
  | Some x => LC32HashCodeSignatureBlob CC_SHA1 CC_SHA256 CC_SHA384 x (hashType p) (hashSize p)
  end = Done (slot_value blob) /\
  blen (slot_value blob) = hashSize p /\ Forall byte_ok (slot_value blob).
Proof.
  destruct (do_hash b p D) as (_ & _ & Hn & Hx).
  destruct (directory_numbers b p Hb D) as (_ & _ & _ & ? & _).
  intros Hblob. destruct blob as [x|]; cbn [slot_value].
  - destruct (Hblob x eq_refl). by apply hash_blob.
  - split; [done|]. split; [apply blen_zeros; lia|by apply Forall_zeros].
Qed.

(** The offset of special slot [s] when the code hashes start at [o]. *)
Definition slot_at (o s : Z) : Z := o - s * hashSize p.

(** The buffer after the slots were written. *)
Record slotted (o : Z) (R R' : list Z) : Prop := {
  sl_blen : blen R' = blen R;
  sl_bytes : Forall byte_ok R';
  sl_2 : sub R' (slot_at o 2) (hashSize p) = slot_value (requirements d);
  sl_5 : sub R' (slot_at o 5) (hashSize p) = slot_value (Some (entitlements d));
  sl_7 : sub R' (slot_at o 7) (hashSize p) = slot_value (Some (derEntitlements d));
  sl_other x n : 0 <= x -> 0 <= n ->
    (forall s, s = 2 \/ s = 5 \/ s = 7 ->
       x + n <= slot_at o s \/ slot_at o s + hashSize p <= x) -> sub R' x n = sub R x n
}.

Lemma write_slots_ok o R :
  Forall byte_ok R -> 7 * hashSize p <= o -> o <= blen R ->
  succeeds (write_slots CC_SHA1 CC_SHA256 CC_SHA384 p o (replacements d) R) (slotted o R).
Proof.
  intros HR Ho Hl. destruct Hd as (Hr & He & Hder).
  destruct (directory_numbers b p Hb D) as (_ & _ & _ & ? & _).
  destruct (slot_value_ok (requirements d) Hr) as (E2 & L2 & F2).
  destruct (slot_value_ok (Some (entitlements d))) as (E5 & L5 & F5); [by intros ? [= <-]|].
  destruct (slot_value_ok (Some (derEntitlements d))) as (E7 & L7 & F7); [by intros ? [= <-]|].
  unfold replacements. cbn [write_slots].
  change LC32_CS_SLOT_REQUIREMENTS with 2. change LC32_CS_SLOT_ENTITLEMENTS with 5.
  change LC32_CS_SLOT_DER_ENTITLEMENTS with 7. rewrite E2. bind_done.
  apply succeeds_bind, succeeds_store; [done|done|lia..|]. intros R1 B1 G1 S1 O1.
  rewrite E5. bind_done.
  apply succeeds_bind, succeeds_store; [done|done|lia..|]. intros R2 B2 G2 S2 O2.
  rewrite E7. bind_done.
  apply succeeds_bind, succeeds_store; [done|done|lia..|]. intros R3 B3 G3 S3 O3.
  rewrite L2, L5, L7 in *. cbn. unfold slot_at. split; unfold slot_at; [lia|done|..|done|].
  - rewrite O3, O2 by lia. done.
  - rewrite O3 by lia. done.
  - intros x n Hx Hn Hs.
    pose proof (Hs 2 ltac:(auto)). pose proof (Hs 5 ltac:(auto)). pose proof (Hs 7 ltac:(auto)).
    unfold slot_at in *. rewrite O3, O2, O1 by lia. done.
Qed.

(** What the result [R] of transforming the directory [p] of [b] is. *)
Record transformed (R : list Z) (q : LC32ParsedCodeDirectory) : Prop := {
  tr_bytes : Forall byte_ok R;
  tr_blob : be32 R 0 = be32 (blobBytes b) 0 /\ be32 R 4 = blen R;
  tr_parses : LC32ParseCodeDirectory
    (mkBlob (blobType b) LC32_CS_MAGIC_CODE_DIRECTORY R 0 (blen R)) = Done q;
  tr_coverage : same_coverage p q;
  tr_code : code_hashes R q = code_hashes (blobBytes b) p;
  tr_identifier : identifier_of R q = identifier_of (blobBytes b) p;
  tr_team : teamOffset q <> 0 /\ team_of R q = team;
  tr_flags : flags q = LC32TransformedCodeDirectoryFlags ios17 (flags p);
  tr_count : specialSlotCount q = Z.max 7 (specialSlotCount p);
  tr_requirements : special_slot R q 2 = slot_value (requirements d);
  tr_entitlements : special_slot R q 5 = slot_value (Some (entitlements d));
  tr_der : special_slot R q 7 = slot_value (Some (derEntitlements d));
  tr_kept s : 1 <= s <= specialSlotCount p -> s <> 2 -> s <> 5 -> s <> 7 ->
    special_slot R q s = special_slot (blobBytes b) p s;
  tr_added s : specialSlotCount p < s <= specialSlotCount q -> s <> 2 -> s <> 5 -> s <> 7 ->
    special_slot R q s = zeros (hashSize p)
}.

Context (g : growth) (G : growth_ok b p team g).
Context (Hteam1 : 1 <= blen team) (Hscatter : scatterOffset p = 0).
Context (R0 R1 R2 : list Z) (C : copied b p team g R0) (P : patched ios17 b p g R0 R1)
  (S : slotted (hashOffset p + totalGrowth g) R1 R2).

Local Abbreviation bs := (blobBytes b).
Local Abbreviation newTeam := (prefixEnd p + headerGrowth g).
Local Abbreviation newPrefix := (prefixEnd p + headerGrowth g + blen team + 1).
Local Abbreviation newHash := (hashOffset p + totalGrowth g).

(** The arithmetic of the new layout. *)
Lemma layout_numbers :
  newHeaderSize g = cdHeaderSize p + headerGrowth g /\
  newPrefix = newHash - newSpecialSlotCount g * hashSize p /\
  newPrefix <= slot_at newHash 7 /\ newHash <= blen R2 /\
  blen R2 = blobLength b + totalGrowth g /\ blen R2 <= UINT32_MAX /\
  7 <= newSpecialSlotCount g < U32_MOD /\ newSpecialSlotCount g >= specialSlotCount p /\
  totalGrowth g = headerGrowth g + (blen team + 1) + specialSlotGrowth g.
Proof.
  destruct G. destruct (directory_numbers b p Hb D) as (? & ? & ? & ? & ? & ? & _).
  destruct (do_vector b p D) as (? & ? & ? & ?).
  rewrite (sl_blen _ _ _ S), (pa_blen _ _ _ _ _ _ P), (co_blen _ _ _ _ _ C).
  unfold slot_at, U32_MOD, UINT32_MAX in *.
  assert (7 * hashSize p <= newSpecialSlotCount g * hashSize p)
    by (apply Z.mul_le_mono_nonneg_r; lia).
  split_and!; lia.
Qed.

(** The parts of the new directory. *)
Lemma new_header x n : 0 <= x -> 0 <= n -> x + n <= newHeaderSize g -> sub R2 x n = sub R1 x n.
Proof.
  intros. destruct layout_numbers as (? & ? & ? & _).
  destruct (directory_numbers b p Hb D) as (? & ? & ? & ? & _).
  apply (sl_other _ _ _ S); [lia..|]. unfold slot_at in *.
  intros s [-> |[-> | ->]]; nia.
Qed.

Lemma old_header x n : 0 <= x -> 0 <= n -> x + n <= cdHeaderSize p -> sub R0 x n = sub bs x n.
Proof.
  intros. rewrite <- (Z.add_0_l x), <- (sub_sub R0 0 (cdHeaderSize p)) by lia.
  rewrite (co_header _ _ _ _ _ C), sub_sub by lia. done.
Qed.

Lemma new_middle x n :
  newHeaderSize g <= x -> 0 <= n -> x + n <= newPrefix -> sub R2 x n = sub R0 x n.
Proof.
  intros. destruct layout_numbers as (? & ? & ? & _).
  destruct (directory_numbers b p Hb D) as (? & ? & ? & ? & _).
  destruct (growth_numbers b p team Hb D g G) as (_ & ? & _).
  rewrite (sl_other _ _ _ S); [apply (pa_rest _ _ _ _ _ _ P); lia|lia..|].
  unfold slot_at in *. intros s [-> |[-> | ->]]; nia.
Qed.

Lemma new_body x n :
  cdHeaderSize p <= x -> 0 <= n -> x + n <= prefixEnd p ->
  sub R2 (x + headerGrowth g) n = sub bs x n.
Proof.
  intros. destruct layout_numbers as (? & ? & ? & _).
  destruct (directory_numbers b p Hb D) as (? & ? & ? & ? & _). pose proof (blen_nonneg team).
  rewrite new_middle by lia.
  replace (x + headerGrowth g) with (newHeaderSize g + (x - cdHeaderSize p)) by lia.
  destruct (growth_numbers b p team Hb D g G) as (_ & ? & _).
  rewrite <- (sub_sub _ _ (prefixEnd p - cdHeaderSize p)) by lia.
  rewrite (co_body _ _ _ _ _ C), sub_sub by lia. f_equal. lia.
Qed.

Lemma new_code x n :
  prefixEnd p <= x -> 0 <= n -> x + n <= blobLength b ->
  (forall s, s = 2 \/ s = 5 \/ s = 7 -> x + totalGrowth g + n <= slot_at newHash s \/
     slot_at newHash s + hashSize p <= x + totalGrowth g) ->
  sub R2 (x + totalGrowth g) n = sub bs x n.
Proof.
  intros Hx Hn Hl Hs. destruct layout_numbers as (? & ? & ? & ? & ? & ? & ? & ? & ?).
  destruct (directory_numbers b p Hb D) as (? & ? & ? & ? & _).
  destruct (growth_numbers b p team Hb D g G) as (_ & ? & ? & ? & ? & _).
  rewrite (sl_other _ _ _ S); [|lia|lia|done].
  rewrite (pa_rest _ _ _ _ _ _ P) by lia.
  replace (x + totalGrowth g) with ((prefixEnd p + totalGrowth g) + (x - prefixEnd p)) by lia.
  rewrite <- (sub_sub _ _ (blobLength b - prefixEnd p)) by lia.
  rewrite (co_hashes _ _ _ _ _ C), sub_sub by lia. f_equal. lia.
Qed.

(** The fields of the new header. *)
Lemma new_field x v :
  sub R1 x 4 = be_bytes 4 v -> 0 <= v < U32_MOD -> 0 <= x -> x + 4 <= newHeaderSize g ->
  be32 R2 x = v.
Proof. intros E Hv ? ?. unfold be32. rewrite new_header, E by lia. by apply be_int_be_bytes. Qed.

Lemma kept_field x n :
  sub R1 x n = sub R0 x n -> 0 <= x -> 0 <= n -> x + n <= cdHeaderSize p ->
  sub R2 x n = sub bs x n.
Proof.
  intros E ? ? ?. destruct layout_numbers as (? & _).
  destruct (growth_numbers b p team Hb D g G) as (_ & _ & ? & _).
  rewrite new_header, E, old_header by lia. done.
Qed.

(** The fields behind nSpecialSlots and before the optional ones. *)
Lemma kept_fixed x n :
  28 <= x -> 0 <= n -> x + n <= 44 -> sub R2 x n = sub bs x n.
Proof.
  intros. destruct (directory_numbers b p Hb D) as (? & _). apply kept_field; try lia.
  pose proof (pa_fixed _ _ _ _ _ _ P) as E. unfold cd_nCodeSlots in E.
  replace x with (28 + (x - 28)) by lia. rewrite <- !(sub_sub _ 28 16) by lia. by rewrite E.
Qed.

(** From version 0x20300 on nothing moves, and the wide limit is kept. *)
Lemma kept_version : 0x20200 <= version p ->
  newVersion g = version p /\ headerGrowth g = 0.
Proof.
  intros. destruct G as [Ev Ehd Eg _ _ _ _], (do_header b p D) as [Eh _]. split; [lia|].
  rewrite Eg, Ehd, Eh. replace (newVersion g) with (version p) by lia. lia.
Qed.

Lemma kept_since c x : 0x20200 < c ->
  (c <= newVersion g -> sub R1 x 4 = sub R0 x 4) ->
  0 <= x -> x + 4 <= LC32CodeDirectoryHeaderSize c ->
  since c (newVersion g) (be32 R2 x) = since c (version p) (be32 bs x).
Proof.
  intros Hc E ? ?. unfold since. destruct G. destruct (do_header b p D) as [Eh _].
  destruct (c <=? newVersion g) eqn:E1, (c <=? version p) eqn:E2; zb; try done; try lia.
  pose proof (header_size_mono c (version p) E2). unfold be32.
  rewrite kept_field; [done|by apply E; lia|lia..].
Qed.

Lemma kept_limit : limit_of (newVersion g) R2 = limit_of (version p) bs.
Proof.
  unfold limit_of. destruct G. destruct (do_header b p D) as [Eh _].
  assert (be32 R2 cd_codeLimit = be32 bs cd_codeLimit) as ->
    by (unfold be32, cd_codeLimit; by rewrite kept_fixed by lia).
  destruct (0x20300 <=? newVersion g) eqn:E1, (0x20300 <=? version p) eqn:E2; zb; try done;
    try lia.
  pose proof (header_size_mono 0x20300 (version p) E2) as Hm.
  change (LC32CodeDirectoryHeaderSize 0x20300) with 64 in Hm.
  assert (sub R1 cd_codeLimit64 8 = sub R0 cd_codeLimit64 8) as E.
  { pose proof (pa_limit _ _ _ _ _ _ P) as L. unfold cd_codeLimit64, cd_spare3 in *.
    change 56 with (52 + 4). rewrite <- !(sub_sub _ 52 12) by lia. by rewrite L. }
  assert (be64 R2 cd_codeLimit64 = be64 bs cd_codeLimit64) as ->; [|done].
  unfold be64, cd_codeLimit64 in *. rewrite kept_field; [done|done|lia..].
Qed.

Lemma find_zero_more A B : find_zero A <> None -> find_zero (A ++ B) <> None.
Proof.
  rewrite !find_zero_none. intros H HF. apply H. by apply Forall_app in HF as [? _].
Qed.

(** A terminated string is the same in all buffers that agree up to its end. *)
Lemma c_string_prefix A B : find_zero A <> None -> c_string (A ++ B) = c_string A.
Proof.
  induction A as [|a A IH]; cbn; [done|]. destruct (a =? 0); [done|].
  destruct (find_zero A); cbn; [|done]. intros _. by rewrite IH.
Qed.

Lemma drop_sub_split (buf : list Z) x n :
  0 <= x -> 0 <= n -> x + n <= blen buf ->
  drop (Z.to_nat x) buf = sub buf x n ++ drop (Z.to_nat (x + n)) buf.
Proof.
  intros. unfold sub. rewrite <- (take_drop (Z.to_nat n) (drop (Z.to_nat x) buf)) at 1.
  rewrite drop_drop. do 2 f_equal. lia.
Qed.

Lemma u8_sub (buf buf' : list Z) x y n :
  0 <= x -> 0 <= y -> 0 < n -> sub buf x n = sub buf' y n -> u8 buf x = u8 buf' y.
Proof.
  intros. unfold u8. rewrite <- (Z.add_0_r x), <- (Z.add_0_r y).
  rewrite <- (sub_sub buf x n), <- (sub_sub buf' y n) by lia. congruence.
Qed.

(** A string of the old directory is the same string of the new one. *)
Lemma kept_string x :
  string_at bs (cdHeaderSize p) (prefixEnd p) x ->
  string_at R2 (newHeaderSize g) newPrefix (x + headerGrowth g) /\
  c_string (drop (Z.to_nat (x + headerGrowth g)) R2) = c_string (drop (Z.to_nat x) bs).
Proof.
  intros (Hr & Hz & H1). destruct layout_numbers as (? & ? & ? & ? & _). unfold slot_at in *.
  destruct (directory_numbers b p Hb D) as (? & ? & ? & ? & _). pose proof (blen_nonneg team).
  destruct (growth_numbers b p team Hb D g G) as (_ & ? & ? & _). destruct Hb as [_ Hin].
  pose proof (new_body x (prefixEnd p - x) ltac:(lia) ltac:(lia) ltac:(lia)) as E.
  split; [split; [lia|split]|].
  - replace (newPrefix - (x + headerGrowth g)) with ((prefixEnd p - x) + (blen team + 1)) by lia.
    rewrite sub_app_split, E by lia. by apply find_zero_more.
  - rewrite (u8_sub _ bs _ x (prefixEnd p - x)) by (done || lia). done.
  - rewrite (drop_sub_split R2 _ (prefixEnd p - x)), (drop_sub_split bs x (prefixEnd p - x))
      by lia.
    rewrite E, !c_string_prefix by done. done.
Qed.

(** The new Team ID. *)
Lemma new_team :
  string_at R2 (newHeaderSize g) newPrefix newTeam /\
  c_string (drop (Z.to_nat newTeam) R2) = team.
Proof.
  destruct layout_numbers as (? & ? & ? & ? & _). unfold slot_at in *.
  destruct (directory_numbers b p Hb D) as (? & ? & ? & ? & _).
  destruct (growth_numbers b p team Hb D g G) as (_ & ? & ? & _).
  pose proof (new_middle newTeam (blen team + 1) ltac:(lia) ltac:(lia) ltac:(lia)) as E.
  rewrite (co_team _ _ _ _ _ C) in E.
  pose proof (find_zero_app team [] Hnz) as Hz. pose proof (c_string_app team [] Hnz) as Hs.
  split; [split; [lia|split]|].
  - replace (newPrefix - newTeam) with (blen team + 1) by lia. rewrite E, Hz. done.
  - unfold u8. pose proof (sub_sub R2 newTeam (blen team + 1) 0 1 ltac:(lia) ltac:(lia) ltac:(lia)
      ltac:(lia)) as E1. rewrite Z.add_0_r, E in E1. rewrite <- E1.
    by apply first_nonzero.
  - rewrite (drop_sub_split R2 _ (blen team + 1)), E by lia.
    rewrite c_string_prefix by (rewrite Hz; done). done.
Qed.

(** An optional offset is relocated; where it exists the header does not grow. *)
Lemma kept_offset c x old : 0x20200 < c -> old = since c (version p) (be32 bs x) ->
  (c <= newVersion g -> sub R1 x 4 =
     if old =? 0 then sub R0 x 4 else be_bytes 4 (u32 (old + headerGrowth g))) ->
  0 <= x -> x + 4 <= LC32CodeDirectoryHeaderSize c ->
  since c (newVersion g) (be32 R2 x) = old.
Proof.
  intros Hc Eo E ? ?. destruct G. destruct (do_header b p D) as [Eh _].
  destruct (old =? 0) eqn:Hz.
  { rewrite kept_since by done. done. }
  unfold since in *. zb.
  destruct (c <=? newVersion g) eqn:E1, (c <=? version p) eqn:E2; zb; try lia.
  pose proof (header_size_mono c (version p) E2).
  destruct (kept_version ltac:(lia)) as [_ Hg]. rewrite Hg, Z.add_0_r in *.
  destruct Hb as [Hbytes Hin]. destruct (directory_numbers b p (conj Hbytes Hin) D) as (? & ? & ? & _).
  pose proof (be32_range bs x Hbytes ltac:(lia) ltac:(lia)).
  rewrite u32_small in E by lia. apply new_field; try done; [by apply E|lia..].
Qed.

(** The transformed directory has no scatter vector. *)
Lemma new_scatter : be32 R2 cd_scatterOffset = 0.
Proof.
  destruct (growth_numbers b p team Hb D g G) as (_ & ? & ? & _).
  destruct (do_header b p D) as [Eh _], (do_scatter b p D) as [Es _].
  unfold be32. rewrite new_header by (unfold cd_scatterOffset; lia).
  rewrite (pa_scatter _ _ _ _ _ _ P). unfold since in Es.
  destruct (0x20100 <=? version p) eqn:E; zb.
  - pose proof (header_size_mono 0x20100 (version p) E) as Hm.
    change (LC32CodeDirectoryHeaderSize 0x20100) with 48 in Hm. unfold cd_scatterOffset in *.
    rewrite old_header by lia. unfold be32 in Es. congruence.
  - assert (cdHeaderSize p = 44) as H44.
    { rewrite Eh. unfold LC32CodeDirectoryHeaderSize.
      repeat (case_match; zb; try lia); done. }
    unfold cd_scatterOffset. rewrite (co_gap _ _ _ _ _ C) by lia. done.
Qed.

Definition new_directory : LC32ParsedCodeDirectory :=
  mkDirectory (newVersion g) (newHeaderSize g)
    (LC32TransformedCodeDirectoryFlags ios17 (flags p)) (signingLimit p) newHash
    (identifierOffset p + headerGrowth g) (newSpecialSlotCount g) (codeSlotCount p) newPrefix 0
    newTeam (preEncryptOffset p) (linkageOffset p) (linkageSize p) (hashSize p) (hashType p)
    (pageSize p).

Definition new_view : LC32CodeSignatureBlobView :=
  mkBlob (blobType b) LC32_CS_MAGIC_CODE_DIRECTORY R2 0 (blen R2).

Lemma source_length : blobLength b < U32_MOD /\ 0 <= flags p < U32_MOD.
Proof.
  destruct (directory_numbers b p Hb D) as (? & _ & _ & _ & _ & _ & Hc). destruct Hb as [Hbytes _].
  destruct (do_blob b p D) as [_ <-]. rewrite (do_flags b p D).
  split; by apply (read32 (E := unit) bs Hbytes _ _ Hc).
Qed.

(** What the transformed bytes say. *)
Lemma new_directory_of : directory_of new_view new_directory.
Proof.
  destruct layout_numbers as (? & Hp & ? & ? & Hl & ? & ? & ? & Ht). unfold slot_at in *.
  destruct source_length as [? Hf].
  destruct (directory_numbers b p Hb D) as (? & ? & ? & ? & ? & ? & _).
  destruct (growth_numbers b p team Hb D g G) as (? & ? & ? & ? & ? & El & Et & _ & Eo).
  destruct (do_identifier b p D) as [_ Hi], new_team as [Hn _]. pose proof (proj1 Hi).
  pose proof (flags_range ios17 _ Hf). destruct (do_vector b p D) as (_ & _ & _ & Ev).
  assert (u32 (identifierOffset p + headerGrowth g) = identifierOffset p + headerGrowth g) as Ei
    by (apply u32_small; unfold UINT32_MAX, U32_MOD in *; lia).
  assert (forall x, 28 <= x <= 40 -> be32 R2 x = be32 bs x) as K4
    by (intros; unfold be32; by rewrite kept_fixed by lia).
  assert (forall x, 28 <= x <= 43 -> u8 R2 x = u8 bs x) as K1
    by (intros; unfold u8; by rewrite kept_fixed by lia).
  pose proof (pa_length _ _ _ _ _ _ P) as PL. pose proof (pa_hashOffset _ _ _ _ _ _ P) as PH.
  pose proof (pa_identifier _ _ _ _ _ _ P) as PI. pose proof (pa_team _ _ _ _ _ _ P) as PT.
  pose proof (pa_special _ _ _ _ _ _ P) as PS. pose proof (pa_version _ _ _ _ _ _ P) as PV.
  pose proof (pa_flags _ _ _ _ _ _ P) as PF. rewrite El in PL. rewrite Et in PT.
  rewrite Eo in PH. rewrite Ei in PI. unfold UINT32_MAX, U32_MOD in *.
  assert (forall x v, sub R1 x 4 = be_bytes 4 v -> 0 <= v < U32_MOD ->
    (0 <=? x) && (x + 4 <=? 52) = true -> be32 R2 x = v) as NF.
  { intros x v ? ? Hx. zb. apply new_field; [done|done|lia..]. }
  destruct (do_hash b p D) as (? & ? & ? & ?), (do_counts b p D) as (_ & _ & ?).
  destruct (do_limit b p D) as (? & ? & ? & ?), (do_spare b p D) as [? Hs3].
  destruct (do_preEncrypt b p D) as [Epe Hpe], (do_linkage b p D) as (Elo & Els & ? & Hlk).
  split; cbn [new_view new_directory blobMagic blobBytes blobLength blobType version cdHeaderSize
    flags signingLimit hashOffset identifierOffset specialSlotCount codeSlotCount prefixEnd
    scatterOffset teamOffset preEncryptOffset linkageOffset linkageSize hashSize hashType pageSize].
  - split; [done|]. apply NF; [by rewrite Hl|unfold U32_MOD; lia|done].
  - split; [symmetry; apply NF; [done|unfold U32_MOD; lia|done]|].
    unfold LC32_CS_EARLIEST_CODE_DIRECTORY_VERSION. lia.
  - split; [apply (gr_header _ _ _ _ G)|lia].
  - symmetry. apply NF; done.
  - rewrite !K1 by (unfold cd_hashType, cd_hashSize; lia). done.
  - rewrite (K4 cd_nCodeSlots) by (unfold cd_nCodeSlots; lia). split_and!; [symmetry; apply NF..|done];
      done || (unfold U32_MOD; lia).
  - rewrite kept_limit, K1 by (unfold cd_pageSize; lia). done.
  - split_and!; lia.
  - rewrite K4 by (unfold cd_spare2; lia). split; [done|].
    rewrite kept_since; [done|lia| |done|done]. intros _.
    pose proof (pa_limit _ _ _ _ _ _ P) as L. unfold cd_spare3 in *.
    change 52 with (52 + 0). rewrite <- !(sub_sub _ 52 12) by lia. by rewrite L.
  - split; [symmetry; apply NF; done || (unfold U32_MOD; lia)|]. by apply kept_string.
  - split; [|done]. rewrite new_scatter. unfold since. by case_match.
  - split; [|done]. symmetry. unfold since.
    rewrite (proj2 (Z.leb_le 0x20200 (newVersion g))) by lia.
    apply NF; done || (unfold U32_MOD; lia).
  - split; [symmetry; apply kept_offset; [done|done| |done|done]; apply (pa_preEncrypt _ _ _ _ _ _ P)|].
    intros Hz. destruct (Hpe Hz). destruct (0x20500 <=? version p) eqn:E; zb.
    + destruct (kept_version ltac:(lia)). lia.
    + unfold since in Epe. rewrite (proj2 (Z.leb_gt _ _) E) in Epe. lia.
  - split_and!; [symmetry; apply kept_offset; [done|done| |done|done];
      apply (pa_linkageOffset _ _ _ _ _ _ P)| |done..|].
    + symmetry. rewrite Els. apply kept_since; [done| |done|done].
      apply (pa_linkageSize _ _ _ _ _ _ P).
    + intros Hz. destruct (Hlk Hz). destruct (0x20600 <=? version p) eqn:E; zb.
      * destruct (kept_version ltac:(lia)). lia.
      * unfold since in Elo. rewrite (proj2 (Z.leb_gt _ _) E) in Elo. lia.
Qed.

Lemma new_view_ok : blob_ok new_view.
Proof. split; [apply (sl_bytes _ _ _ S)|done]. Qed.

Lemma new_parse : LC32ParseCodeDirectory new_view = Done new_directory.
Proof. apply parse_directory_accepts; [apply new_view_ok|apply new_directory_of]. Qed.

(** The code hashes, and every special slot that is not replaced. *)
Lemma new_code_hashes n : 0 <= n -> hashOffset p + n <= blobLength b ->
  sub R2 newHash n = sub bs (hashOffset p) n.
Proof.
  intros. destruct (directory_numbers b p Hb D) as (? & ? & ? & ? & _).
  apply new_code; [lia..|]. unfold slot_at. intros s [-> |[-> | ->]]; lia.
Qed.

Lemma kept_slot s : 1 <= s <= specialSlotCount p -> s <> 2 -> s <> 5 -> s <> 7 ->
  sub R2 (slot_at newHash s) (hashSize p) = sub bs (slot_at (hashOffset p) s) (hashSize p).
Proof.
  intros. destruct (directory_numbers b p Hb D) as (? & ? & ? & ? & _).
  destruct (do_vector b p D) as (Ep & _).
  assert (s * hashSize p <= specialSlotCount p * hashSize p)
    by (apply Z.mul_le_mono_nonneg_r; lia).
  assert (1 * hashSize p <= s * hashSize p) by (apply Z.mul_le_mono_nonneg_r; lia).
  replace (slot_at newHash s) with (slot_at (hashOffset p) s + totalGrowth g)
    by (unfold slot_at; lia).
  apply new_code; unfold slot_at; [lia..|].
  intros r Hr. assert (s <= r - 1 \/ r + 1 <= s) as [Hs|Hs] by lia.
  - right. assert (s * hashSize p <= (r - 1) * hashSize p)
      by (apply Z.mul_le_mono_nonneg_r; lia). lia.
  - left. assert ((r + 1) * hashSize p <= s * hashSize p)
      by (apply Z.mul_le_mono_nonneg_r; lia). lia.
Qed.

Lemma added_slot s : specialSlotCount p < s <= newSpecialSlotCount g ->
  s <> 2 -> s <> 5 -> s <> 7 -> sub R2 (slot_at newHash s) (hashSize p) = zeros (hashSize p).
Proof.
  intros. destruct (directory_numbers b p Hb D) as (? & ? & ? & ? & ? & _).
  destruct layout_numbers as (? & ? & _ & _ & _ & _ & _ & _ & ?).
  destruct (growth_numbers b p team Hb D g G) as (_ & ? & ? & _).
  destruct (do_vector b p D) as (Ep & _).
  assert (s * hashSize p <= newSpecialSlotCount g * hashSize p)
    by (apply Z.mul_le_mono_nonneg_r; lia).
  assert ((specialSlotCount p + 1) * hashSize p <= s * hashSize p)
    by (apply Z.mul_le_mono_nonneg_r; lia).
  rewrite (sl_other _ _ _ S); unfold slot_at; [|lia..|].
  - rewrite (pa_rest _ _ _ _ _ _ P) by lia. apply (co_new _ _ _ _ _ C); lia.
  - intros r Hr. assert (s <= r - 1 \/ r + 1 <= s) as [Hs|Hs] by lia.
    + right. assert (s * hashSize p <= (r - 1) * hashSize p)
        by (apply Z.mul_le_mono_nonneg_r; lia). lia.
    + left. assert ((r + 1) * hashSize p <= s * hashSize p)
        by (apply Z.mul_le_mono_nonneg_r; lia). lia.
Qed.

(** The transformed executable is no main binary any more. *)
Lemma new_exec :
  exists f, (if 0x20400 <=? newVersion g then be64_at (E := SignatureError) R2 cd_execSegFlags
             else mret 0) = Done f /\ has_flag f LC32_CS_EXECSEG_MAIN_BINARY = false.
Proof.
  destruct (0x20400 <=? newVersion g) eqn:E; zb; [|by exists 0].
  destruct layout_numbers as (? & ? & ? & ? & ? & _). unfold slot_at in *.
  destruct (directory_numbers b p Hb D) as (? & ? & ? & ? & _).
  pose proof (header_size_mono 0x20400 _ E) as Hm. rewrite <- (gr_header _ _ _ _ G) in Hm.
  change (LC32CodeDirectoryHeaderSize 0x20400) with 88 in Hm.
  destruct (growth_numbers b p team Hb D g G) as (_ & ? & ? & ? & ? & _).
  eexists. split; [apply be64_at_in_buf; unfold cd_execSegFlags; lia|].
  unfold be64. rewrite new_header by (unfold cd_execSegFlags; lia).
  rewrite (pa_exec _ _ _ _ _ _ P) by done. rewrite be_int_be_bytes.
  - unfold has_flag. rewrite <- Z.land_assoc.
    change (Z.land (u64_not LC32_CS_EXECSEG_MAIN_BINARY) LC32_CS_EXECSEG_MAIN_BINARY) with 0.
    by rewrite Z.land_0_r.
  - apply (land_below 64); [lia| |done]. apply (be64_range R0); [apply (co_bytes _ _ _ _ _ C)|..];
      rewrite ?(co_blen _ _ _ _ _ C); unfold cd_execSegFlags; lia.
Qed.

Lemma verify_directory_ok :
  verify_directory ios17 b p newTeam team R2 new_view = Done tt.
Proof.
  destruct layout_numbers as (? & ? & ? & ? & Hl & _). unfold slot_at in *.
  destruct (directory_numbers b p Hb D) as (? & ? & ? & ? & ? & ? & _).
  destruct (do_vector b p D) as (_ & _ & _ & Ev). destruct new_exec as (f & Ef & Hf).
  destruct (growth_numbers b p team Hb D g G) as (? & ? & ? & _).
  assert (0 <= codeSlotCount p * hashSize p) by lia. destruct Hb as [_ Hin].
  unfold verify_directory. rewrite new_parse. cbn [mbind outcome_bind]. cbv zeta.
  cbn [new_directory version hashOffset flags teamOffset]. rewrite Ef.
  cbn [mbind outcome_bind]. rewrite !fetch_in_buf by lia. cbn [mbind outcome_bind].
  rewrite new_code_hashes by lia. rewrite (proj2 new_team), Hf.
  rewrite (proj2 (Z.ltb_ge (newVersion g) _)) by lia.
  rewrite !Z.eqb_refl, !bool_decide_eq_false_2 by (by intros []). done.
Qed.

Lemma slot_agrees_ok s blob :
  (forall x, blob = Some x -> donor_blob x) -> 1 <= s <= 7 ->
  sub R2 (slot_at newHash s) (hashSize p) = slot_value blob ->
  slot_agrees CC_SHA1 CC_SHA256 CC_SHA384 new_view s blob = Done tt.
Proof.
  intros Hx Hs E. destruct layout_numbers as (? & ? & ? & ? & Hl & ? & ? & _).
  destruct (directory_numbers b p Hb D) as (? & ? & ? & ? & ? & ? & _).
  destruct (slot_value_ok blob Hx) as (Ev & _ & _). unfold slot_at in *.
  assert (7 * hashSize p <= newSpecialSlotCount g * hashSize p)
    by (apply Z.mul_le_mono_nonneg_r; lia).
  assert (1 * hashSize p <= s * hashSize p <= 7 * hashSize p)
    by (split; apply Z.mul_le_mono_nonneg_r; lia).
  destruct (growth_numbers b p team Hb D g G) as (_ & _ & ? & _ & ? & _).
  assert (fetch (E := SignatureError) R2 (newHash - s * hashSize p) (hashSize p) =
    Done (slot_value blob)) as Ed.
  { rewrite fetch_in_buf, E; [done|lia..]. }
  destruct blob as [x|]; cbn [slot_agrees];
    unfold LC32CodeDirectorySlotMatchesBlob, LC32CodeDirectorySlotIsEmpty;
    rewrite new_parse; cbn [mbind outcome_bind];
    cbn [new_directory specialSlotCount hashType hashSize hashOffset new_view blobBytes];
    rewrite (proj2 (Z.ltb_ge _ s)) by lia; rewrite (proj2 (Z.eqb_neq s 0)) by lia;
    cbn [orb reject_if mbind outcome_bind].
  - rewrite Ev. cbn [mbind outcome_bind]. rewrite Ed. cbn [mbind outcome_bind].
    rewrite bool_decide_eq_false_2 by (by intros []). done.
  - rewrite Ed. cbn [mbind outcome_bind]. cbn [slot_value]. unfold zeros.
    rewrite (proj2 (forallb_forall _ _)); [done|]. intros z Hz%list_elem_of_In.
    by apply elem_of_replicate in Hz as [-> _].
Qed.

Lemma verify_slots_ok :
  verify_slots CC_SHA1 CC_SHA256 CC_SHA384 new_view (replacements d) = Done tt.
Proof.
  destruct Hd as (Hr & He & Hder). unfold replacements. cbn [verify_slots].
  rewrite (slot_agrees_ok _ (requirements d)); [|done|done|apply (sl_2 _ _ _ S)].
  cbn [mbind outcome_bind].
  rewrite (slot_agrees_ok _ (Some (entitlements d)));
    [|by intros ? [= <-]|done|apply (sl_5 _ _ _ S)].
  cbn [mbind outcome_bind].
  by rewrite (slot_agrees_ok _ (Some (derEntitlements d)));
    [|by intros ? [= <-]|done|apply (sl_7 _ _ _ S)].
Qed.
Lemma new_transformed : transformed R2 new_directory.
Proof.
  destruct (directory_numbers b p Hb D) as (? & ? & ? & ? & ? & ? & _).
  destruct (do_vector b p D) as (_ & _ & _ & Ev). pose proof (do_identifier b p D) as [_ Hi].
  destruct (growth_numbers b p team Hb D g G) as (? & ? & ? & _).
  pose proof new_directory_of as N. destruct (do_blob _ _ N) as [_ Nl].
  split; unfold special_slot, code_hashes, identifier_of, team_of;
    cbn [new_directory flags signingLimit hashOffset identifierOffset specialSlotCount
      codeSlotCount teamOffset hashSize hashType pageSize].
  - apply (sl_bytes _ _ _ S).
  - split; [|apply Nl]. unfold be32.
    rewrite (kept_field 0 4); [done|apply (pa_magic _ _ _ _ _ _ P)|lia..].
  - apply new_parse.
  - done.
  - apply new_code_hashes; lia.
  - apply (kept_string _ Hi).
  - split; [lia|apply new_team].
  - done.
  - apply (gr_slots _ _ _ _ G).
  - apply (sl_2 _ _ _ S).
  - apply (sl_5 _ _ _ S).
  - apply (sl_7 _ _ _ S).
  - intros. by apply kept_slot.
  - intros. by apply added_slot.
Qed.
End rewrite.

(** ** The whole routine *)

Section routine.
Context (CC_SHA1 CC_SHA256 CC_SHA384 : list Z -> list Z).
Context `{!Digests CC_SHA1 CC_SHA256 CC_SHA384}.

(** Creating the transformed directory succeeds whenever the sizes fit. *)
Lemma create_transformed_ok ios17 b p d team sliceSize codeSignatureOffset :
  blob_ok b -> LC32ParseCodeDirectory b = Done p -> donor_ok d ->
  Forall byte_ok team -> Forall (fun c => c <> 0) team -> 1 <= blen team < 4096 ->
  scatterOffset p = 0 -> signingLimit p <= codeSignatureOffset -> signingLimit p <= sliceSize ->
  blobLength b + (108 + (blen team + 1) + 7 * 48) <= UINT32_MAX ->
  exists R q,
    LC32CreateTransformedCodeDirectory CC_SHA1 CC_SHA256 CC_SHA384 ios17 true b d team
      sliceSize codeSignatureOffset = Done R /\ transformed CC_SHA1 CC_SHA256 CC_SHA384 ios17 b p team d R q.
Proof.
  intros Hb Ep Hd Ht Hnz Hlen Hsc Ho Hs Hfit.
  pose proof (parse_directory_safe b Hb) as D. rewrite Ep in D. cbn in D.
  unfold LC32CreateTransformedCodeDirectory. rewrite Ep. cbn [mbind outcome_bind].
  rewrite Hsc, Z.eqb_refl, (proj2 (Z.ltb_ge codeSignatureOffset _)),
    (proj2 (Z.ltb_ge sliceSize _)) by lia.
  cbn [negb orb reject_if mbind outcome_bind].
  rewrite (proj2 (Z.ltb_ge (blen team + 1) 2)), (proj2 (Z.ltb_ge LC32_MAX_SIGNING_STRING_SIZE _))
    by (unfold LC32_MAX_SIGNING_STRING_SIZE; lia).
  cbn [orb reject_if mbind outcome_bind].
  destruct (plan_growth_accepts b p team Hb D ltac:(lia) Hfit) as [g Eg].
  rewrite Eg. cbn [mbind outcome_bind negb reject_if].
  pose proof (plan_growth_spec b p team Hb D g Eg) as G.
  destruct (growth_numbers b p team Hb D g G) as (Hv & Hh & ? & ? & ? & _ & Et & _ & Eo).
  rewrite Et, Eo.
  destruct (succeeds_elim _ _ (copy_directory_ok b p team Hb D Ht g G)) as (R0 & E0 & C).
  rewrite E0. cbn [mbind outcome_bind].
  destruct (directory_numbers b p Hb D) as (? & ? & ? & ? & _).
  assert (identifierOffset p <> 0) as Hid by (destruct (do_identifier b p D) as [_ [? _]]; lia).
  assert (covers R0 (newVersion g)) as Hcov.
  { unfold covers. rewrite <- (gr_header _ _ _ _ G), (co_blen _ _ _ _ _ C). destruct G. lia. }
  pose proof (patched_ok ios17 b p g R0 Hcov Hv Hid Hsc (co_bytes _ _ _ _ _ C) (gr_header _ _ _ _ G)) as P.
  rewrite (patch_writes ios17 b p g R0 Hcov Hv Hid Hsc). cbn [mbind outcome_bind].
  set (R1 := apply_writes R0 _) in *.
  assert (7 * hashSize p <= hashOffset p + totalGrowth g <= blen R1) as [Hlo Hhi].
  { rewrite (pa_blen _ _ _ _ _ _ P), (co_blen _ _ _ _ _ C). destruct G.
    destruct (do_vector b p D) as (Epe & _).
    assert (7 * hashSize p <= newSpecialSlotCount g * hashSize p)
      by (apply Z.mul_le_mono_nonneg_r; lia). lia. }
  destruct (succeeds_elim _ _ (write_slots_ok CC_SHA1 CC_SHA256 CC_SHA384 b p d Hb D Hd _ R1
    (pa_bytes _ _ _ _ _ _ P) Hlo Hhi)) as (R2 & E2 & S).
  rewrite E2. cbn [mbind outcome_bind].
  change (mkBlob (blobType b) _ R2 0 _) with (new_view b R2).
  rewrite (verify_directory_ok CC_SHA1 CC_SHA256 CC_SHA384 ios17 b p team d Hb D Hnz g G
    ltac:(lia) Hsc R0 R1 R2 C P S). cbn [mbind outcome_bind].
  rewrite (verify_slots_ok CC_SHA1 CC_SHA256 CC_SHA384 ios17 b p team d Hb D Hd Hnz g G
    ltac:(lia) Hsc R0 R1 R2 C P S). cbn [mbind outcome_bind].
  exists R2, (new_directory ios17 p team g). split; [done|].
  by apply (new_transformed _ _ _ _ _ _ _ _ Hb D Hnz g G ltac:(lia) Hsc R0 R1 R2 C P S).
Qed.
End routine.
