(* ===== verification/SignatureRepack.v ===== *)
(** Repacking the signature of an encrypted ARM slice (src/Tweak/FatMachO.c,
    [LC32CreateTransformedEncryptedSignature]).

    The pages of an encrypted slice cannot be changed, so the new signature must
    fit into the allocation of the old one: the code directories are
    transformed, the donor's blobs replace the old entitlements, requirements and
    CMS signature, all other blobs are copied, and the blobs are packed behind a
    new index in the order of their types. *)

From stdpp Require Import base list sorting.
From Stdlib Require Import ZArith Lia.
From S2P Require Import Prelude Bytes MachOImage MachOImageProps CodeSignature.
From S2P Require Import CodeSignatureProps CodeDirectoryProps CodeTransform CodeTransformProps.
From S2P Require Import DirectoryRewrite.

Open Scope Z_scope.

(** A blob of the output; who frees its bytes is left out. *)
Record LC32MutableCodeSignatureBlob := mkMutable {
  outType : Z;
  outBytes : list Z;
  outLength : Z
}.

(** [LC32CompareMutableCodeSignatureBlobs] orders by type. *)
Definition LC32CompareMutableCodeSignatureBlobs
    (left right : LC32MutableCodeSignatureBlob) : Z :=
  if outType left <? outType right then -1
  else if outType right <? outType left then 1
  else 0.

Definition blob_le (left right : LC32MutableCodeSignatureBlob) : Prop :=
  LC32CompareMutableCodeSignatureBlobs left right <= 0.

#[export] Instance blob_le_dec : RelDecision blob_le.
Proof. intros a b. apply Z_le_dec. Defined.

Definition LC32AppendMutableCodeSignatureBlob (out : list LC32MutableCodeSignatureBlob)
    (t : Z) (bytes : list Z) (len : Z)
    : outcome SignatureError (list LC32MutableCodeSignatureBlob) :=
  _ ← reject_if (LC32_MAX_CODE_SIGNATURE_BLOBS <=? Z.of_nat (length out)) TooManyBlobs;
  mret (out ++ [mkMutable t bytes len]).

(** The type belongs to a blob the donor replaces. *)
Definition donor_slot (t : Z) : bool :=
  (t =? LC32_CS_SLOT_REQUIREMENTS) || (t =? LC32_CS_SLOT_ENTITLEMENTS) ||
  (t =? LC32_CS_SLOT_DER_ENTITLEMENTS) || (t =? LC32_CS_SLOT_CMS_SIGNATURE).

(** The donor's blobs in the order in which they are appended. *)
Definition donor_blobs (donor : LC32CodeSignatureDonor) : list LC32CodeSignatureBlobView :=
  match requirements donor with Some b => [b] | None => [] end ++
  [entitlements donor; derEntitlements donor; cmsSignature donor].

Fixpoint append_donor (bs : list LC32CodeSignatureBlobView)
    (out : list LC32MutableCodeSignatureBlob)
    : outcome SignatureError (list LC32MutableCodeSignatureBlob) :=
  match bs with
  | [] => mret out
  | b :: rest =>
      out ← LC32AppendMutableCodeSignatureBlob out (blobType b) (blobBytes b) (blobLength b);
      append_donor rest out
  end.

(** The sum of the lengths, with the check of the addition. *)
Fixpoint packed_length (out : list LC32MutableCodeSignatureBlob) (len : Z) : option Z :=
  match out with
  | [] => Some len
  | b :: rest => len' ← LC32AddUInt64 len (outLength b); packed_length rest len'
  end.

(** The loop that writes the index and copies the blobs. *)
Fixpoint pack_blobs (index blobOffset : Z) (out : list LC32MutableCodeSignatureBlob)
    (signature : list Z) : outcome SignatureError (list Z) :=
  match out with
  | [] => mret signature
  | b :: rest =>
      let encodedIndex := super_blob_size + index * blob_index_size in
      signature ← store signature encodedIndex (be_bytes 4 (outType b));
      signature ← store signature (encodedIndex + 4) (be_bytes 4 blobOffset);
      content ← fetch (outBytes b) 0 (outLength b);
      signature ← store signature blobOffset content;
      pack_blobs (index + 1) (u32 (blobOffset + outLength b)) rest signature
  end.

(** The output: lengths, header, index, blobs, and the parse that verifies it. *)
Definition pack_signature (allocated : bool) (capacity : Z)
    (out : list LC32MutableCodeSignatureBlob) : outcome SignatureError (list Z) :=
  let outputCount := Z.of_nat (length out) in
  packedLength ← or_reject
    (packed_length out (super_blob_size + outputCount * blob_index_size)) LengthOverflow;
  _ ← reject_if ((capacity <? packedLength) || (UINT32_MAX <? packedLength)) AllocationTooSmall;
  _ ← reject_if (negb allocated) OutOfMemory;
  let signature := zeros capacity in
  signature ← store signature 0 (be_bytes 4 LC32_CS_MAGIC_EMBEDDED_SIGNATURE);
  signature ← store signature 4 (be_bytes 4 (u32 packedLength));
  signature ← store signature 8 (be_bytes 4 outputCount);
  signature ← pack_blobs 0 (u32 (super_blob_size + outputCount * blob_index_size)) out signature;
  _ ← LC32ParseCodeSignature signature capacity;
  mret signature.

Section digests.
  Variables CC_SHA1 CC_SHA256 CC_SHA384 : list Z -> list Z.
  (** Whether the n-th allocation succeeds. *)
  Variable allocates : nat -> bool.

(** The loop over the blobs of the source; also counts the directories. *)
Fixpoint append_sources (ios17 : bool) (slice : LC32MachOSlice) (donor : LC32CodeSignatureDonor)
    (team : list Z) (index : nat) (bs : list LC32CodeSignatureBlobView)
    (out : list LC32MutableCodeSignatureBlob) (seen : Z)
    : outcome SignatureError (list LC32MutableCodeSignatureBlob * Z) :=
  match bs with
  | [] => mret (out, seen)
  | b :: rest =>
      if LC32CodeSignatureTypeIsCodeDirectory (blobType b) then
        bytes ← LC32CreateTransformedCodeDirectory CC_SHA1 CC_SHA256 CC_SHA384 ios17
                  (allocates index) b donor team (size slice) (codeSignatureOffset slice);
        out ← LC32AppendMutableCodeSignatureBlob out (blobType b) bytes (blen bytes);
        append_sources ios17 slice donor team (S index) rest out (seen + 1)
      else if negb (donor_slot (blobType b)) then
        out ← LC32AppendMutableCodeSignatureBlob out (blobType b) (blobBytes b) (blobLength b);
        append_sources ios17 slice donor team (S index) rest out seen
      else append_sources ios17 slice donor team (S index) rest out seen
  end.

Definition usable_signature (slice : LC32MachOSlice) : bool :=
  encrypted slice && is32Bit slice && (cpuType slice =? CPU_TYPE_ARM) && hasCodeSignature slice &&
  (super_blob_size <=? codeSignatureSize slice) &&
  (codeSignatureSize slice <=? LC32_MAX_CODE_SIGNATURE_SIZE) &&
  LC32RangeFits (codeSignatureOffset slice) (codeSignatureSize slice) (size slice).

(** [readAt offset size] reads from the target. *)
Definition LC32CreateTransformedEncryptedSignature (readAt : Z -> Z -> option (list Z))
    (ios17 : bool) (slice : LC32MachOSlice) (donor : LC32CodeSignatureDonor) (team : list Z)
    : outcome SignatureError (list Z) :=
  _ ← reject_if (negb (usable_signature slice)) NoUsableSignature;
  _ ← reject_if (negb (allocates 0)) SignatureUnreadable;
  signatureFileOffset ← or_reject (LC32AddUInt64 (offset slice) (codeSignatureOffset slice))
                          SignatureUnreadable;
  sourceSignature ← or_reject (readAt signatureFileOffset (codeSignatureSize slice))
                      SignatureUnreadable;
  sourceView ← LC32ParseCodeSignature sourceSignature (codeSignatureSize slice);
  '(out, codeDirectoryCount) ← append_sources ios17 slice donor team 1 (blobs sourceView) [] 0;
  _ ← reject_if (codeDirectoryCount =? 0) NoCodeDirectory;
  out ← append_donor (donor_blobs donor) out;
  pack_signature (allocates (S (length (blobs sourceView)))) (codeSignatureSize slice)
    (merge_sort blob_le out).

End digests.
