(* ===== verification/SignatureRepackProps.v ===== *)
(** The repacked signature: packing and parsing are inverse, and the signature of
    an encrypted slice keeps exactly the blobs it should. *)

From stdpp Require Import base list sorting.
From Stdlib Require Import ZArith Lia.
From S2P Require Import Prelude Bytes MachOImage MachOImageProps CodeSignature.
From S2P Require Import CodeSignatureProps CodeDirectoryProps CodeTransform CodeTransformProps.
From S2P Require Import DirectoryRewrite SignatureRepack.

Open Scope Z_scope.

(** ** Lengths *)

Fixpoint total (out : list LC32MutableCodeSignatureBlob) : Z :=
  match out with [] => 0 | b :: r => outLength b + total r end.

Definition out_content (b : LC32MutableCodeSignatureBlob) : list Z :=
  sub (outBytes b) 0 (outLength b).

(** An output blob whose header gives its length. *)
Record out_ok (b : LC32MutableCodeSignatureBlob) : Prop := {
  oo_bytes : Forall byte_ok (outBytes b);
  oo_length : generic_blob_size <= outLength b <= blen (outBytes b);
  oo_header : be32 (outBytes b) 4 = outLength b;
  oo_type : 0 <= outType b < U32_MOD
}.

Lemma total_length_nonneg out : Forall out_ok out -> 0 <= total out.
Proof.
  induction 1 as [|b r Hb _ IH]; cbn; [lia|]. destruct (oo_length b Hb).
  unfold generic_blob_size in *. lia.
Qed.

Lemma packed_length_total out len :
  Forall out_ok out -> 0 <= len ->
  packed_length out len = if decide (len + total out < U64_MOD) then Some (len + total out)
                          else packed_length out len.
Proof.
  intros Hout. revert len. induction Hout as [|b r Hb Hr IH]; intros len Hl; cbn.
  { case_decide; [f_equal; lia|done]. }
  destruct (oo_length b Hb). unfold generic_blob_size in *. pose proof (total_length_nonneg r Hr).
  case_decide; [|done]. rewrite add_uint64_some by lia. cbn.
  rewrite IH by lia. rewrite decide_True by lia. f_equal. lia.
Qed.

Lemma packed_length_bound out len n :
  Forall out_ok out -> 0 <= len -> packed_length out len = Some n -> n = len + total out.
Proof.
  intros Hout. revert len. induction Hout as [|b r Hb Hr IH]; intros len Hl; cbn.
  { intros [= <-]. lia. }
  destruct (oo_length b Hb). unfold generic_blob_size in *.
  destruct (LC32AddUInt64 len (outLength b)) eqn:E; [|done]. cbn.
  apply add_uint64 in E as [-> _]; [|lia..]. intros ->%IH; lia.
Qed.

(** ** Packing *)

(** The packed blobs: entry [index + i] of the index and the blob it points to. *)
Record packed (index base : Z) (out : list LC32MutableCodeSignatureBlob) (R : list Z) : Prop := {
  pk_type i b : out !! i = Some b ->
    be32 R (super_blob_size + (index + Z.of_nat i) * blob_index_size) = outType b;
  pk_start i b : out !! i = Some b ->
    be32 R (super_blob_size + (index + Z.of_nat i) * blob_index_size + 4) =
    base + total (take i out);
  pk_content i b : out !! i = Some b ->
    sub R (base + total (take i out)) (outLength b) = out_content b
}.

Lemma be32_eq (R R' : list Z) x : sub R' x 4 = sub R x 4 -> be32 R' x = be32 R x.
Proof. unfold be32. by intros ->. Qed.

Lemma pack_blobs_ok out index base R :
  Forall byte_ok R -> Forall out_ok out -> 0 <= index ->
  super_blob_size + (index + Z.of_nat (length out)) * blob_index_size <= base ->
  base + total out <= blen R -> base + total out < U32_MOD ->
  succeeds (pack_blobs index base out R) (fun R' =>
    blen R' = blen R /\ Forall byte_ok R' /\ packed index base out R' /\
    (forall x n, 0 <= x -> 0 <= n ->
       x + n <= super_blob_size + index * blob_index_size \/
       (super_blob_size + (index + Z.of_nat (length out)) * blob_index_size <= x /\ x + n <= base) \/
       base + total out <= x -> sub R' x n = sub R x n)).
Proof.
  unfold super_blob_size, blob_index_size. intros HR Hout. revert index base R HR.
  induction Hout as [|b out [Hbytes Hlen Hhead Htype] Hout IH];
    intros index base R HR Hi Hb Hl Hu; cbn [pack_blobs].
  { split; [done|]. split; [done|]. split; [|done]. split; intros i b Hb'; by rewrite lookup_nil in Hb'. }
  cbn [total length] in *. pose proof (total_length_nonneg out Hout). unfold generic_blob_size in *.
  cbv zeta. unfold super_blob_size, blob_index_size.
  apply succeeds_bind, succeeds_store; [done|apply be_bytes_ok|lia|rewrite blen_be_bytes; lia|].
  intros R1 L1 F1 S1 O1. rewrite blen_be_bytes in *. change (Z.of_nat 4) with 4 in *.
  apply succeeds_bind, succeeds_store; [done|apply be_bytes_ok|lia|rewrite blen_be_bytes; lia|].
  intros R2 L2 F2 S2 O2. rewrite blen_be_bytes in *. change (Z.of_nat 4) with 4 in *.
  rewrite fetch_in_buf by lia. bind_done.
  assert (blen (sub (outBytes b) 0 (outLength b)) = outLength b) as Lc by (apply blen_sub; lia).
  apply succeeds_bind, succeeds_store; [done|by apply Forall_sub|lia|lia|].
  intros R3 L3 F3 S3 O3. rewrite Lc in *.
  rewrite u32_small by lia.
  eapply succeeds_mono; [apply IH; [done|lia..]|].
  intros R4 (L4 & F4 & [K1 K2 K3] & O4). cbn [total].
  assert (forall i c, (b :: out) !! i = Some c -> i = 0%nat /\ c = b \/
    exists j, i = S j /\ out !! j = Some c) as Hcase.
  { intros [|j] c Hc; cbn in Hc; [left; naive_solver|right; eauto]. }
  split; [lia|]. split; [done|].
  split; [split|]; unfold super_blob_size, blob_index_size in *.
  - intros i c [[-> ->]|(j & -> & Hj)]%Hcase.
    + rewrite (be32_eq R1) by (rewrite O4, O3, O2 by lia; done). unfold be32. cbn [Z.of_nat].
      rewrite Z.add_0_r, S1. by apply be_int_be_bytes.
    + rewrite <- (K1 j c Hj). f_equal. lia.
  - intros i c [[-> ->]|(j & -> & Hj)]%Hcase; cbn [take total].
    + rewrite (be32_eq R2) by (rewrite O4, O3 by lia; done). unfold be32. cbn [Z.of_nat].
      rewrite !Z.add_0_r, S2. apply be_int_be_bytes. unfold U32_MOD in *. lia.
    + pose proof (K2 j c Hj) as E.
      replace (12 + (index + Z.of_nat (S j)) * 8 + 4) with (12 + (index + 1 + Z.of_nat j) * 8 + 4)
        by lia. lia.
  - intros i c [[-> ->]|(j & -> & Hj)]%Hcase; cbn [take total].
    + rewrite Z.add_0_r, O4 by lia. exact S3.
    + rewrite <- (K3 j c Hj). f_equal. lia.
  - intros x n ? ? Hx. rewrite O4, O3, O2, O1 by lia. done.
Qed.

(** ** Parsing what was packed *)

(** The view of the packed signature. *)
Definition packed_blob (R : list Z) (base : Z) (out : list LC32MutableCodeSignatureBlob) (i : nat)
    (b : LC32MutableCodeSignatureBlob) : LC32CodeSignatureBlobView :=
  let start := base + total (take i out) in
  mkBlob (outType b) (be32 R start) (drop (Z.to_nat start) R) start (outLength b).

Definition packed_view (R : list Z) (base : Z) (out : list LC32MutableCodeSignatureBlob)
    : LC32CodeSignatureView :=
  mkView (base + total out) (imap (packed_blob R base out) out).

Lemma total_take_mono out i j b :
  Forall out_ok out -> out !! i = Some b -> (i < j)%nat ->
  total (take i out) + outLength b <= total (take j out).
Proof.
  intros Hout. revert i j. induction Hout as [|c out Hc Hout IH]; intros i j Hi Hij; [done|].
  destruct j as [|j]; [lia|]. destruct i as [|i]; cbn in *.
  - simplify_eq. pose proof (total_length_nonneg (take j out) (Forall_take _ _ _ Hout)). lia.
  - pose proof (IH i j Hi ltac:(lia)). lia.
Qed.

Lemma total_take_le out i b :
  Forall out_ok out -> out !! i = Some b ->
  0 <= total (take i out) /\ total (take i out) + outLength b <= total out.
Proof.
  intros Hout Hi. split; [by apply total_length_nonneg, Forall_take|].
  pose proof (total_take_mono out i (length out) b Hout Hi (lookup_lt_Some _ _ _ Hi)) as H.
  by rewrite firstn_all in H.
Qed.

Lemma drop_be32 (R : list Z) a x : 0 <= a -> 0 <= x -> be32 (drop (Z.to_nat a) R) x = be32 R (a + x).
Proof. intros. unfold be32, sub. rewrite drop_drop. do 3 f_equal. lia. Qed.

Lemma drop_sub (R : list Z) a n : 0 <= a -> sub (drop (Z.to_nat a) R) 0 n = sub R a n.
Proof. intros. unfold sub. by rewrite drop_drop, Nat.add_0_r. Qed.

Lemma be32_sub (R : list Z) a n x :
  0 <= a -> 0 <= x -> x + 4 <= n -> be32 (sub R a n) x = be32 R (a + x).
Proof. intros. unfold be32. by rewrite sub_sub by lia. Qed.

Section packed.
Context (out : list LC32MutableCodeSignatureBlob) (R : list Z) (capacity : Z).
Local Abbreviation base := (super_blob_size + Z.of_nat (length out) * blob_index_size).
Context (Hout : Forall out_ok out) (Hdup : NoDup (outType <$> out)).
Context (Hcount : (1 <= length out <= 64)%nat) (Hfit : base + total out <= capacity).
Context (Hlen : blen R = capacity).
Context (Hmagic : be32 R 0 = LC32_CS_MAGIC_EMBEDDED_SIGNATURE)
  (Hlength : be32 R 4 = base + total out) (Hn : be32 R 8 = Z.of_nat (length out))
  (P : packed 0 base out R).

Lemma packed_content i b :
  out !! i = Some b -> blob_content (packed_blob R base out i b) = out_content b.
Proof.
  intros Hi. destruct (total_take_le out i b Hout Hi). unfold blob_content, packed_blob.
  cbn [blobBytes blobLength]. rewrite drop_sub by (unfold super_blob_size, blob_index_size; lia).
  by apply (pk_content _ _ _ _ P).
Qed.

(** The packed bytes are a well-formed signature. *)
Lemma packed_wf : view_wf R capacity (packed_view R base out).
Proof.
  unfold packed_view. pose proof (total_length_nonneg out Hout).
  split; cbn [viewLength blobs]; rewrite ?Hn, ?length_imap.
  - done.
  - split; [lia|]. split; [done|lia].
  - unfold LC32_MAX_CODE_SIGNATURE_BLOBS. lia.
  - intros i c Hc. apply list_lookup_imap_Some in Hc as (b & Hi & ->).
    destruct (total_take_le out i b Hout Hi).
    destruct (proj1 (Forall_lookup _ _) Hout i b Hi) as [Hbytes [L1 L2] Hh Ht].
    pose proof (packed_content i b Hi) as E. unfold packed_blob, blob_content, out_content in *.
    cbn [blobBytes blobLength] in E. unfold blob_of. cbn [blobType blobStart blobLength blobMagic blobBytes].
    pose proof (pk_type _ _ _ _ P i b Hi) as ET. pose proof (pk_start _ _ _ _ P i b Hi) as ES.
    rewrite Z.add_0_l in ET, ES. unfold super_blob_size, blob_index_size, generic_blob_size in *.
    split_and!; try done; try lia.
    rewrite <- drop_be32 by lia. transitivity (be32 (sub (outBytes b) 0 (outLength b)) 4).
    + rewrite be32_sub by lia. done.
    + rewrite <- E, be32_sub by lia. done.
  - intros i j c c' Hij Hc Hc'.
    apply list_lookup_imap_Some in Hc as (b & Hi & ->), Hc' as (b' & Hj & ->).
    pose proof (total_take_mono out i j b Hout Hi Hij). split; cbn; [|lia].
    intros E. assert (i = j) as ->; [|lia].
    eapply (proj1 (NoDup_alt _) Hdup); rewrite list_lookup_fmap; [by rewrite Hi|by rewrite Hj, E].
Qed.

Lemma packed_contents :
  (fun b => (blobType b, blob_content b)) <$> blobs (packed_view R base out) =
  (fun b => (outType b, out_content b)) <$> out.
Proof.
  apply list_eq. intros i. unfold packed_view. cbn [blobs].
  rewrite !list_lookup_fmap, list_lookup_imap. destruct (out !! i) as [b|] eqn:Hi; [|done].
  cbn. f_equal. f_equal. by apply packed_content.
Qed.
End packed.

(** Packing produces a signature from which the parser reads the blobs back. *)
Lemma pack_signature_ok capacity out :
  Forall out_ok out -> NoDup (outType <$> out) -> (1 <= length out <= 64)%nat ->
  super_blob_size + Z.of_nat (length out) * blob_index_size + total out <= capacity ->
  capacity <= LC32_MAX_CODE_SIGNATURE_SIZE ->
  exists R v, pack_signature true capacity out = Done R /\ blen R = capacity /\ Forall byte_ok R /\
    LC32ParseCodeSignature R capacity = Done v /\
    (fun b => (blobType b, blob_content b)) <$> blobs v =
    (fun b => (outType b, out_content b)) <$> out /\
    (forall x n, viewLength v <= x -> 0 <= n -> x + n <= capacity -> sub R x n = zeros n).
Proof.
  intros Hout Hdup Hc Hfit Hcap. pose proof (total_length_nonneg out Hout).
  set (base := super_blob_size + Z.of_nat (length out) * blob_index_size) in *.
  assert (12 + 8 * 1 <= base <= 12 + 8 * 64) by (unfold base, super_blob_size, blob_index_size; lia).
  unfold LC32_MAX_CODE_SIGNATURE_SIZE in *.
  assert (packed_length out base = Some (base + total out)) as Ep.
  { rewrite packed_length_total by (done || lia).
    rewrite decide_True by (unfold U64_MOD; lia). done. }
  assert (succeeds (pack_signature true capacity out) (fun R => blen R = capacity /\
    Forall byte_ok R /\ LC32ParseCodeSignature R capacity = Done (packed_view R base out) /\
    (fun b => (blobType b, blob_content b)) <$> blobs (packed_view R base out) =
    (fun b => (outType b, out_content b)) <$> out /\
    (forall x n, base + total out <= x -> 0 <= n -> x + n <= capacity -> sub R x n = zeros n))) as Hs.
  { unfold pack_signature. cbv zeta. fold base. rewrite Ep. cbn [or_reject]. bind_done.
    apply succeeds_bind, succeeds_check.
    { rewrite orb_false_iff, !Z.ltb_ge. unfold UINT32_MAX, U32_MOD. lia. }
    apply succeeds_bind, succeeds_check; [done|].
    pose proof (blen_zeros capacity ltac:(lia)) as L0.
    apply succeeds_bind, succeeds_store;
      [by apply Forall_zeros|apply be_bytes_ok|lia|rewrite blen_be_bytes; lia|].
    intros R1 L1 F1 S1 O1. rewrite blen_be_bytes in *. change (Z.of_nat 4) with 4 in *.
    apply succeeds_bind, succeeds_store; [done|apply be_bytes_ok|lia|rewrite blen_be_bytes; lia|].
    intros R2 L2 F2 S2 O2. rewrite blen_be_bytes in *. change (Z.of_nat 4) with 4 in *.
    apply succeeds_bind, succeeds_store; [done|apply be_bytes_ok|lia|rewrite blen_be_bytes; lia|].
    intros R3 L3 F3 S3 O3. rewrite blen_be_bytes in *. change (Z.of_nat 4) with 4 in *.
    rewrite !u32_small in * by (unfold U32_MOD; lia).
    apply succeeds_bind. eapply succeeds_mono;
      [apply pack_blobs_ok; [done|done|done|lia|lia|unfold U32_MOD; lia]|].
    intros R4 (L4 & F4 & P & O4). unfold super_blob_size in O4.
    assert (be32 R4 0 = LC32_CS_MAGIC_EMBEDDED_SIGNATURE) as M1.
    { unfold be32. rewrite O4, O3, O2 by lia. rewrite S1. by apply be_int_be_bytes. }
    assert (be32 R4 4 = base + total out) as M2.
    { unfold be32. rewrite O4, O3 by lia. rewrite S2. apply be_int_be_bytes. lia. }
    assert (be32 R4 8 = Z.of_nat (length out)) as M3.
    { unfold be32. rewrite O4 by lia. rewrite S3. apply be_int_be_bytes. lia. }
    assert (LC32ParseCodeSignature R4 capacity = Done (packed_view R4 base out)) as EP.
    { apply parse_signature_accepts; [lia|]. by apply packed_wf; try done; lia. }
    rewrite EP. bind_done. split; [lia|]. split; [done|]. split; [done|].
    split; [by apply packed_contents|]. intros x n ? ? ?.
    rewrite O4, O3, O2, O1 by (unfold blob_index_size; lia). apply sub_zeros; lia. }
  apply succeeds_elim in Hs as (R & E & ? & ? & ? & ? & ?). by exists R, (packed_view R base out).
Qed.

(** What does not fit is refused. *)
Lemma pack_signature_small allocated capacity out :
  Forall out_ok out -> (length out <= 64)%nat ->
  capacity < super_blob_size + Z.of_nat (length out) * blob_index_size + total out < U64_MOD ->
  pack_signature allocated capacity out = Reject AllocationTooSmall.
Proof.
  intros Hout Hc Hfit. unfold pack_signature. cbv zeta.
  rewrite packed_length_total by (done || (unfold super_blob_size, blob_index_size; lia)).
  rewrite decide_True by lia. cbn [or_reject mbind outcome_bind].
  rewrite (proj2 (Z.ltb_lt capacity _)) by lia. done.
Qed.

(** ** The signature of an encrypted slice *)

(** A blob of the donor: a complete blob of the given type. *)
Definition donor_blob_wf (t : Z) (b : LC32CodeSignatureBlobView) : Prop :=
  blobType b = t /\ blob_ok b /\ generic_blob_size <= blobLength b /\
  be32 (blobBytes b) 4 = blobLength b.

Record donor_wf (d : LC32CodeSignatureDonor) : Prop := {
  dw_requirements b : requirements d = Some b -> donor_blob_wf LC32_CS_SLOT_REQUIREMENTS b;
  dw_entitlements : donor_blob_wf LC32_CS_SLOT_ENTITLEMENTS (entitlements d);
  dw_der : donor_blob_wf LC32_CS_SLOT_DER_ENTITLEMENTS (derEntitlements d);
  dw_cms : donor_blob_wf LC32_CS_SLOT_CMS_SIGNATURE (cmsSignature d)
}.

Lemma donor_wf_ok d : donor_wf d -> donor_ok d.
Proof.
  unfold generic_blob_size. intros [Hr (_ & He1 & He2 & _) (_ & Hd1 & Hd2 & _) _].
  unfold generic_blob_size in *. split; [|split]; [|split; [done|lia]..].
  intros b (_ & ? & ? & _)%Hr. split; [done|]. unfold generic_blob_size in *. lia.
Qed.

(** A parsed blob in its buffer. *)
Lemma view_blob_ok signature capacity v b :
  Forall byte_ok signature -> capacity <= blen signature -> view_wf signature capacity v ->
  b ∈ blobs v ->
  blob_ok b /\ generic_blob_size <= blobLength b <= capacity /\
  be32 (blobBytes b) 4 = blobLength b /\ 0 <= blobType b < U32_MOD.
Proof.
  intros Hb Hc [_ (Hl & Hcap & Hi) [Hn Hr] Hbl _] [i Hlook]%list_elem_of_lookup.
  pose proof (lookup_lt_Some _ _ _ Hlook).
  destruct (Hbl i b Hlook) as (Et & Es & El & _ & Eb & H1 & H2 & H3).
  unfold super_blob_size, blob_index_size, generic_blob_size in *.
  unfold blob_ok. rewrite Eb. split; [split; [by apply Forall_drop|]|].
  - unfold blen in *. rewrite length_drop. lia.
  - split; [lia|]. split; [rewrite drop_be32 by lia; done|].
    rewrite Et. apply be32_range; [done|lia..].
Qed.

Lemma find_blob signature capacity v t b :
  Forall byte_ok signature -> capacity <= blen signature -> view_wf signature capacity v ->
  LC32FindCodeSignatureBlob v t = Some b -> donor_blob_wf t b.
Proof.
  unfold LC32FindCodeSignatureBlob. intros Hb Hc Hv ([i c] & Hf & ->)%fmap_Some.
  apply list_find_Some in Hf as (Hi & Ht & _).
  destruct (view_blob_ok _ _ _ c Hb Hc Hv) as (? & [? _] & ? & _); [by eapply list_elem_of_lookup_2|].
  done.
Qed.

Section donor.
Context (CC_SHA1 CC_SHA256 CC_SHA384 : list Z -> list Z).
Context `{!Digests CC_SHA1 CC_SHA256 CC_SHA384}.

Lemma hash_blob_safe blob ht hs :
  blob_ok blob -> 0 <= blobLength blob -> 0 <= hs -> safe (LC32HashCodeSignatureBlob CC_SHA1 CC_SHA256 CC_SHA384 blob ht hs)
    (fun _ => True).
Proof.
  intros Hb Hl Hh. destruct (decide (hs = 0)) as [-> |Hz].
  - unfold LC32HashCodeSignatureBlob. safe_step. apply safe_check. intros E. zb.
    unfold LC32ExpectedCodeDirectoryHashSize in E.
    destruct (ht =? LC32_CS_HASH_SHA1); [done|]. destruct (ht =? LC32_CS_HASH_SHA256); [done|].
    destruct (ht =? LC32_CS_HASH_SHA256_TRUNCATED); [done|].
    by destruct (ht =? LC32_CS_HASH_SHA384).
  - destruct (decide (hs = LC32ExpectedCodeDirectoryHashSize ht)) as [E|E].
    + by rewrite (proj1 (hash_blob _ _ _ blob ht hs Hb Hl Hz E)).
    + unfold LC32HashCodeSignatureBlob. rewrite (proj2 (Z.eqb_neq _ _) E). done.
Qed.

Lemma slot_fetch_safe b p s :
  blob_ok b -> directory_of b p -> 1 <= s <= specialSlotCount p ->
  0 <= hashOffset p - s * hashSize p /\ 0 < hashSize p /\
  hashOffset p - s * hashSize p + hashSize p <= blen (blobBytes b).
Proof.
  intros Hb D Hs. destruct (directory_numbers b p Hb D) as (? & ? & ? & ? & ? & ? & _).
  destruct (do_vector b p D) as (Ep & _). destruct Hb as [_ Hl].
  assert (1 * hashSize p <= s * hashSize p <= specialSlotCount p * hashSize p)
    by (split; apply Z.mul_le_mono_nonneg_r; lia). lia.
Qed.

Lemma slot_matches_safe b s c : blob_ok b -> blob_ok c -> 0 <= blobLength c -> 0 <= s ->
  safe (LC32CodeDirectorySlotMatchesBlob CC_SHA1 CC_SHA256 CC_SHA384 b s c) (fun _ => True).
Proof.
  intros Hb Hc Hl Hs. unfold LC32CodeDirectorySlotMatchesBlob. safe_step.
  eapply safe_mono; [by apply parse_directory_safe|]. intros p D. do 2 safe_step.
  destruct (slot_fetch_safe b p s Hb D ltac:(lia)) as (? & ? & ?).
  safe_step. eapply safe_mono; [apply hash_blob_safe; done || lia|]. intros h _.
  safe_step. apply safe_fetch; [lia..|]. by safe_step.
Qed.

Lemma slot_empty_safe b s : blob_ok b -> 0 <= s ->
  safe (LC32CodeDirectorySlotIsEmpty b s) (fun _ => True).
Proof.
  intros Hb Hs. unfold LC32CodeDirectorySlotIsEmpty. safe_step.
  eapply safe_mono; [by apply parse_directory_safe|]. intros p D. do 2 safe_step.
  safe_step; [done|]. destruct (slot_fetch_safe b p s Hb D ltac:(lia)) as (? & ? & ?).
  safe_step. apply safe_fetch; [lia..|]. by safe_step.
Qed.

Lemma check_directories_safe req ent der bs n :
  Forall blob_ok bs -> (forall b, req = Some b -> donor_blob b) -> donor_blob ent ->
  donor_blob der ->
  safe (check_directories CC_SHA1 CC_SHA256 CC_SHA384 req ent der bs n) (fun _ => True).
Proof.
  intros Hbs Hr [He1 He2] [Hd1 Hd2]. revert n.
  induction Hbs as [|b bs Hb _ IH]; intros n; cbn [check_directories]; [done|].
  safe_step; [apply IH|]. safe_step. eapply safe_mono.
  { destruct req as [r|]; cbn [slot_agrees].
    - destruct (Hr r eq_refl). by apply slot_matches_safe.
    - by apply slot_empty_safe. }
  intros _ _. safe_step. eapply safe_mono; [by apply slot_matches_safe|]. intros _ _.
  safe_step. eapply safe_mono; [by apply slot_matches_safe|]. intros _ _. apply IH.
Qed.

(** Taking the donor's blobs stays in the signature and yields complete blobs. *)
Lemma create_donor_safe signature capacity :
  Forall byte_ok signature -> capacity <= blen signature ->
  safe (LC32CreateCodeSignatureDonor CC_SHA1 CC_SHA256 CC_SHA384 signature capacity) donor_wf.
Proof.
  intros Hb Hc. unfold LC32CreateCodeSignatureDonor. safe_step.
  eapply safe_mono; [by apply parse_signature_safe|]. intros v Hv. cbv zeta.
  assert (forall t b, LC32FindCodeSignatureBlob v t = Some b -> donor_blob_wf t b) as Hf
    by (intros; by eapply find_blob).
  do 4 safe_step. safe_step. safe_step. safe_step. safe_step.
  pose proof (Hf _ _ H1) as He. pose proof (Hf _ _ H2) as Hd.
  assert (forall t b, donor_blob_wf t b -> donor_blob b) as Hdb.
  { intros t b (_ & ? & ? & _). unfold generic_blob_size in *. split; [done|lia]. }
  safe_step. eapply safe_mono; [apply check_directories_safe|].
  - apply Forall_forall. intros b Hin. by eapply view_blob_ok.
  - intros b E%Hf. by eapply Hdb.
  - by eapply Hdb.
  - by eapply Hdb.
  - intros n _. do 3 safe_step. split; cbn [requirements entitlements derEntitlements cmsSignature];
      try done; [intros b; apply Hf|].
    split; [done|]. split; [|done]. split; [|done]. by repeat constructor.
Qed.
End donor.
