(* ===== verification/EncryptedSignature.v ===== *)
(** The signature of an encrypted slice: what
    [LC32CreateTransformedEncryptedSignature] produces. *)

From stdpp Require Import base list sorting.
From Stdlib Require Import ZArith Lia.
From S2P Require Import Prelude Bytes MachOImage MachOImageProps CodeSignature.
From S2P Require Import CodeSignatureProps CodeDirectoryProps CodeTransform CodeTransformProps.
From S2P Require Import DirectoryRewrite SignatureRepack SignatureRepackProps.

Open Scope Z_scope.

(** Blobs of the source that stay: all but those the donor replaces. *)
Definition stays (b : LC32CodeSignatureBlobView) : Prop := donor_slot (blobType b) = false.

#[export] Instance stays_dec b : Decision (stays b).
Proof. unfold stays. apply _. Defined.

Definition to_mutable (b : LC32CodeSignatureBlobView) : LC32MutableCodeSignatureBlob :=
  mkMutable (blobType b) (blobBytes b) (blobLength b).

(** A directory the tweak can rewrite for this slice. *)
Definition rewritable (slice : LC32MachOSlice) (b : LC32CodeSignatureBlobView) : Prop :=
  exists p, LC32ParseCodeDirectory b = Done p /\ scatterOffset p = 0 /\
    signingLimit p <= codeSignatureOffset slice /\ signingLimit p <= size slice.

Lemma directory_not_donor t :
  LC32CodeSignatureTypeIsCodeDirectory t = true -> donor_slot t = false.
Proof.
  unfold LC32CodeSignatureTypeIsCodeDirectory, donor_slot, LC32_CS_SLOT_CODE_DIRECTORY,
    LC32_CS_SLOT_ALTERNATE_DIRECTORIES, LC32_CS_SLOT_ALTERNATE_DIRECTORY_LIMIT,
    LC32_CS_SLOT_REQUIREMENTS, LC32_CS_SLOT_ENTITLEMENTS, LC32_CS_SLOT_DER_ENTITLEMENTS,
    LC32_CS_SLOT_CMS_SIGNATURE.
  intros Ht. apply orb_true_iff in Ht. rewrite andb_true_iff, Z.eqb_eq, Z.leb_le, Z.ltb_lt in Ht.
  rewrite !orb_false_iff, !Z.eqb_neq. lia.
Qed.

Section encrypted.
Context (CC_SHA1 CC_SHA256 CC_SHA384 : list Z -> list Z).
Context `{!Digests CC_SHA1 CC_SHA256 CC_SHA384}.
Context (ios17 : bool) (slice : LC32MachOSlice) (d : LC32CodeSignatureDonor) (team : list Z).
Context (Hd : donor_wf d) (Ht : Forall byte_ok team) (Hnz : Forall (fun c => c <> 0) team)
  (Hteam : 1 <= blen team < 4096).

(** The output blob made of a blob of the source. *)
Definition repacked (b : LC32CodeSignatureBlobView) (o : LC32MutableCodeSignatureBlob) : Prop :=
  outType o = blobType b /\
  if LC32CodeSignatureTypeIsCodeDirectory (blobType b) then
    outLength o = blen (outBytes o) /\
    exists p q, LC32ParseCodeDirectory b = Done p /\
      transformed CC_SHA1 CC_SHA256 CC_SHA384 ios17 b p team d (outBytes o) q
  else o = to_mutable b.

Definition directories (bs : list LC32CodeSignatureBlobView) : list LC32CodeSignatureBlobView :=
  filter (fun b => LC32CodeSignatureTypeIsCodeDirectory (blobType b) = true) bs.

(** A source blob in a signature of at most 16 MB. *)
Definition source_ok (b : LC32CodeSignatureBlobView) : Prop :=
  blob_ok b /\ generic_blob_size <= blobLength b <= LC32_MAX_CODE_SIGNATURE_SIZE /\
  be32 (blobBytes b) 4 = blobLength b /\ 0 <= blobType b < U32_MOD.

Lemma repacked_ok b o : source_ok b -> repacked b o -> out_ok o.
Proof.
  intros ([Hb Hin] & [H1 H2] & H3 & H4) [Et Ho].
  destruct (LC32CodeSignatureTypeIsCodeDirectory _).
  - destruct Ho as (El & p & q & Ep & T).
    assert (blob_ok (mkBlob (blobType b) LC32_CS_MAGIC_CODE_DIRECTORY (outBytes o) 0
      (blen (outBytes o)))) as Hok by (split; [apply (tr_bytes _ _ _ _ _ _ _ _ _ _ T)|done]).
    pose proof (parse_directory_safe _ Hok) as D.
    rewrite (tr_parses _ _ _ _ _ _ _ _ _ _ T) in D. cbn in D.
    destruct (directory_numbers _ _ Hok D) as (? & ? & ? & _). cbn [blobLength] in *.
    split; [apply (tr_bytes _ _ _ _ _ _ _ _ _ _ T)|unfold generic_blob_size; lia|
      rewrite El; apply (tr_blob _ _ _ _ _ _ _ _ _ _ T)|by rewrite Et].
  - subst o. by split.
Qed.

Lemma append_ok out t bytes len :
  (length out < 64)%nat ->
  LC32AppendMutableCodeSignatureBlob out t bytes len = Done (out ++ [mkMutable t bytes len]).
Proof.
  intros. unfold LC32AppendMutableCodeSignatureBlob.
  rewrite (proj2 (Z.leb_gt LC32_MAX_CODE_SIGNATURE_BLOBS _))
    by (unfold LC32_MAX_CODE_SIGNATURE_BLOBS; lia). done.
Qed.

Lemma append_sources_ok allocates index bs out seen :
  (forall k, allocates k = true) -> Forall source_ok bs ->
  Forall (fun b => LC32CodeSignatureTypeIsCodeDirectory (blobType b) = true -> rewritable slice b) bs ->
  (length out + length (filter stays bs) <= 64)%nat ->
  exists new,
    append_sources CC_SHA1 CC_SHA256 CC_SHA384 allocates ios17 slice d team index bs out seen =
      Done (out ++ new, seen + Z.of_nat (length (directories bs))) /\
    Forall2 repacked (filter stays bs) new.
Proof.
  intros Hall Hbs Hcd. revert index out seen Hcd.
  induction Hbs as [|b bs Hb Hbs IH]; intros index out seen Hcd Hlen; cbn [append_sources].
  { exists []. rewrite app_nil_r, Z.add_0_r. by split; [|constructor]. }
  apply Forall_cons in Hcd as [Hb' Hcd]. unfold directories.
  destruct (LC32CodeSignatureTypeIsCodeDirectory (blobType b)) eqn:Et.
  - rewrite (filter_cons_True _ b) in Hlen by (by apply directory_not_donor).
    rewrite !filter_cons_True by (done || by apply directory_not_donor). cbn [length] in *.
    destruct (Hb' eq_refl) as (p & Ep & Hsc & Ho & Hs). pose proof Hb as (Hok & [_ Hmax] & _).
    destruct (create_transformed_ok CC_SHA1 CC_SHA256 CC_SHA384 ios17 b p d team (size slice)
      (codeSignatureOffset slice)) as (R & q & E & T); try done; [by apply donor_wf_ok| |].
    { unfold LC32_MAX_CODE_SIGNATURE_SIZE, UINT32_MAX, U32_MOD in *. lia. }
    rewrite Hall, E. cbn [mbind outcome_bind]. rewrite append_ok by lia. cbn [mbind outcome_bind].
    destruct (IH (S index) (out ++ [mkMutable (blobType b) R (blen R)]) (seen + 1) Hcd)
      as (new & -> & H2); [rewrite length_app; cbn; lia|].
    exists (mkMutable (blobType b) R (blen R) :: new). rewrite <- app_assoc. cbn [app].
    split; [do 2 f_equal; unfold directories; lia|]. constructor; [|done].
    split; [done|]. rewrite Et. split; [done|]. by exists p, q.
  - rewrite (filter_cons_False (fun c => LC32CodeSignatureTypeIsCodeDirectory (blobType c) = true))
      by (by rewrite Et).
    destruct (donor_slot (blobType b)) eqn:Es; cbn [negb].
    + rewrite (filter_cons_False stays) in * by (unfold stays; by rewrite Es). by apply IH.
    + rewrite (filter_cons_True stays) in * by done. cbn [length] in *.
      rewrite append_ok by lia. cbn [mbind outcome_bind].
      change (mkMutable _ _ _) with (to_mutable b).
      destruct (IH (S index) (out ++ [to_mutable b]) seen Hcd)
        as (new & -> & H2); [rewrite length_app; cbn; lia|].
      exists (to_mutable b :: new). rewrite <- app_assoc. split; [done|]. constructor; [|done].
      split; [done|]. by rewrite Et.
Qed.

Lemma append_donor_ok bs out :
  (length out + length bs <= 64)%nat -> append_donor bs out = Done (out ++ (to_mutable <$> bs)).
Proof.
  revert out. induction bs as [|b bs IH]; intros out Hl; cbn [append_donor fmap list_fmap].
  - by rewrite app_nil_r.
  - cbn [length] in Hl. rewrite append_ok by lia. cbn [mbind outcome_bind].
    rewrite IH by (rewrite length_app; cbn; lia). by rewrite <- app_assoc.
Qed.

(** The donor's blobs are complete, and their types are those of its slots. *)
Lemma donor_blobs_ok :
  Forall out_ok (to_mutable <$> donor_blobs d) /\
  NoDup (blobType <$> donor_blobs d) /\ (length (donor_blobs d) <= 4)%nat /\
  Forall (fun b => donor_slot (blobType b) = true) (donor_blobs d).
Proof.
  destruct Hd as [Hr He Hder Hc].
  assert (forall b t, donor_blob_wf t b -> 0 <= t < U32_MOD -> out_ok (to_mutable b)) as Hok.
  { intros b t (<- & [? ?] & ? & ?) ?. by split. }
  assert (Forall out_ok (to_mutable <$> [entitlements d; derEntitlements d; cmsSignature d])) as H3.
  { cbn. repeat constructor; by eapply Hok. }
  pose proof (proj1 He) as T1. pose proof (proj1 Hder) as T2. pose proof (proj1 Hc) as T3.
  unfold donor_blobs. destruct (requirements d) as [r|].
  - pose proof (Hr r eq_refl) as Hq. pose proof (proj1 Hq) as T0. split.
    { constructor; [|done]. by eapply Hok. }
    cbn [app fmap list_fmap length]. rewrite !Forall_cons, Forall_nil, T0, T1, T2, T3.
    split; [by apply (bool_decide_unpack _)|]. by split; [lia|].
  - split; [done|]. cbn [app fmap list_fmap length].
    rewrite !Forall_cons, Forall_nil, T1, T2, T3.
    split; [by apply (bool_decide_unpack _)|]. by split; [lia|].
Qed.

Context (readAt : Z -> Z -> option (list Z)) (allocates : nat -> bool) (src : list Z)
  (v : LC32CodeSignatureView).
Context (Hall : forall k, allocates k = true) (Huse : usable_signature slice = true)
  (Hoff : 0 <= offset slice /\ 0 <= codeSignatureOffset slice /\
     offset slice + codeSignatureOffset slice < U64_MOD)
  (Hread : readAt (offset slice + codeSignatureOffset slice) (codeSignatureSize slice) = Some src)
  (Hsrc : Forall byte_ok src) (Hlen : blen src = codeSignatureSize slice)
  (Hv : LC32ParseCodeSignature src (codeSignatureSize slice) = Done v)
  (Hcd : Forall (fun b => LC32CodeSignatureTypeIsCodeDirectory (blobType b) = true ->
     rewritable slice b) (blobs v))
  (Hone : directories (blobs v) <> [])
  (Hcount : (length (filter stays (blobs v)) + length (donor_blobs d) <= 64)%nat).

Lemma source_wf : view_wf src (codeSignatureSize slice) v.
Proof.
  pose proof (parse_signature_safe src Hsrc (codeSignatureSize slice) ltac:(lia)) as H.
  by rewrite Hv in H.
Qed.

Lemma capacity_ok : super_blob_size <= codeSignatureSize slice <= LC32_MAX_CODE_SIGNATURE_SIZE.
Proof. unfold usable_signature in Huse. zb. lia. Qed.

Lemma sources_ok : Forall source_ok (blobs v).
Proof.
  apply Forall_forall. intros b Hin. pose proof capacity_ok.
  destruct (view_blob_ok src (codeSignatureSize slice) v b Hsrc ltac:(lia) source_wf Hin)
    as (? & ? & ? & ?).
  split; [done|]. split; [lia|done].
Qed.

Lemma types_distinct : NoDup (blobType <$> blobs v).
Proof.
  apply NoDup_alt. intros i j t Hi Hj.
  rewrite list_lookup_fmap in Hi, Hj.
  apply fmap_Some in Hi as (a & Ha & ->), Hj as (b & Hb & E).
  destruct (Nat.lt_trichotomy i j) as [Hij|[Hij|Hij]]; [|done|].
  - by destruct (vw_apart _ _ _ source_wf i j a b Hij Ha Hb).
  - destruct (vw_apart _ _ _ source_wf j i b a Hij Hb Ha) as [Hne _]. congruence.
Qed.

(** All output blobs. *)
Definition all_out (new : list LC32MutableCodeSignatureBlob) : list LC32MutableCodeSignatureBlob :=
  new ++ (to_mutable <$> donor_blobs d).

Definition out_size (out : list LC32MutableCodeSignatureBlob) : Z :=
  super_blob_size + Z.of_nat (length out) * blob_index_size + total out.

Lemma repacked_types bs new : Forall2 repacked bs new -> outType <$> new = blobType <$> bs.
Proof. induction 1 as [|b o bs new [E _] _ IH]; cbn; [done|]. by rewrite E, IH. Qed.

Lemma all_out_ok new :
  Forall2 repacked (filter stays (blobs v)) new ->
  Forall out_ok (all_out new) /\ NoDup (outType <$> all_out new) /\
  (length (all_out new) <= 64)%nat.
Proof.
  intros Hnew. destruct donor_blobs_ok as (D1 & D2 & D3 & D4).
  assert (Forall source_ok (filter stays (blobs v))) as Hs.
  { apply Forall_forall. intros b Hb. apply list_elem_of_filter in Hb as [_ Hb].
    by apply (proj1 (Forall_forall _ _) sources_ok). }
  unfold all_out. split; [|split].
  - apply Forall_app. split; [|done]. clear -Hnew Hs.
    induction Hnew as [|b o bs new Hb _ IH]; [constructor|]. apply Forall_cons in Hs as [? ?].
    constructor; [by eapply repacked_ok|by apply IH].
  - rewrite fmap_app, (repacked_types _ _ Hnew).
    assert (outType <$> (to_mutable <$> donor_blobs d) = blobType <$> donor_blobs d) as ->
      by (by rewrite <- list_fmap_compose).
    apply NoDup_app. split; [|split; [|done]].
    + pose proof types_distinct as Hn. clear -Hn. induction (blobs v) as [|b l IH]; [constructor|].
      cbn in Hn. apply NoDup_cons in Hn as [H1 H2]. rewrite filter_cons. case_decide; [|by apply IH].
      cbn. constructor; [|by apply IH]. intros Hin. apply H1.
      apply list_elem_of_fmap in Hin as (c & -> & Hc). apply list_elem_of_filter in Hc as [_ Hc].
      by apply list_elem_of_fmap_2.
    + intros t Hin Hin'. apply list_elem_of_fmap in Hin as (b & -> & Hb), Hin' as (c & E & Hc).
      apply list_elem_of_filter in Hb as [Hb _]. unfold stays in Hb.
      apply (proj1 (Forall_forall _ _) D4) in Hc. congruence.
  - rewrite length_app, length_fmap. apply Forall2_length in Hnew. lia.
Qed.

Lemma total_bound out : Forall out_ok out -> total out <= Z.of_nat (length out) * U32_MOD.
Proof.
  induction 1 as [|b out [Hb [H1 H2] H3 _] _ IH]; cbn [total length]; [lia|].
  unfold generic_blob_size in *.
  pose proof (be32_range (outBytes b) 4 Hb ltac:(lia) ltac:(lia)). lia.
Qed.

Lemma total_permutation out out' : out ≡ₚ out' -> total out = total out'.
Proof. induction 1; cbn; lia. Qed.

#[local] Instance blob_le_total : Total blob_le.
Proof.
  intros a b. unfold blob_le, LC32CompareMutableCodeSignatureBlobs.
  destruct (Z.lt_trichotomy (outType a) (outType b)) as [H|[H|H]].
  - left. rewrite (proj2 (Z.ltb_lt _ _) H). lia.
  - left. rewrite H, Z.ltb_irrefl. lia.
  - right. rewrite (proj2 (Z.ltb_lt _ _) H). lia.
Qed.

Lemma sorted_types out :
  Sorted blob_le out -> Sorted Z.le (outType <$> out).
Proof.
  induction 1 as [|b out _ IH Hb]; cbn; constructor; [done|].
  destruct Hb as [|c out Hc]; cbn; constructor. unfold blob_le in Hc.
  unfold LC32CompareMutableCodeSignatureBlobs in Hc.
  destruct (outType b <? outType c) eqn:E1, (outType c <? outType b) eqn:E2; zb; lia.
Qed.

Local Abbreviation create := (LC32CreateTransformedEncryptedSignature CC_SHA1 CC_SHA256 CC_SHA384
  allocates readAt ios17 slice d team).

(** Up to the packing nothing fails. *)
Lemma create_packs :
  exists new, Forall2 repacked (filter stays (blobs v)) new /\
    create = pack_signature true (codeSignatureSize slice) (merge_sort blob_le (all_out new)).
Proof.
  destruct (append_sources_ok allocates 1 (blobs v) [] 0 Hall sources_ok Hcd) as (new & E & H2);
    [cbn; lia|].
  exists new. split; [done|]. unfold LC32CreateTransformedEncryptedSignature.
  rewrite Huse, Hall. cbn [negb reject_if mbind outcome_bind].
  rewrite add_uint64_some by lia. cbn [or_reject mbind outcome_bind].
  rewrite Hread. cbn [or_reject mbind outcome_bind].
  rewrite Hv. cbn [mbind outcome_bind]. rewrite E. cbn [mbind outcome_bind app].
  rewrite (proj2 (Z.eqb_neq _ 0)).
  2:{ destruct (directories (blobs v)); [done|]. cbn [length]. lia. }
  cbn [reject_if mbind outcome_bind].
  rewrite append_donor_ok by (apply Forall2_length in H2; lia). cbn [mbind outcome_bind].
  by rewrite Hall.
Qed.

(** C22: re-signing an encrypted slice.  For a readable, well-formed signature whose
    directories can be rewritten, the outcome depends only on the space: if the
    blobs fit into the space of the old signature the result is a signature of
    exactly that size that the parser accepts, whose blobs are, ordered by type,
    the rewritten directories, the other blobs of the source as they were and the
    blobs of the donor, with zeros behind; otherwise it is refused as too small. *)
Theorem create_encrypted_signature :
  exists new, Forall2 repacked (filter stays (blobs v)) new /\
    (out_size (all_out new) <= codeSignatureSize slice -> exists R w,
       create = Done R /\ blen R = codeSignatureSize slice /\ Forall byte_ok R /\
       LC32ParseCodeSignature R (codeSignatureSize slice) = Done w /\
       Sorted Z.le (blobType <$> blobs w) /\
       (fun b => (blobType b, blob_content b)) <$> blobs w ≡ₚ
       (fun b => (outType b, out_content b)) <$> all_out new /\
       (forall x n, viewLength w <= x -> 0 <= n -> x + n <= codeSignatureSize slice ->
          sub R x n = zeros n)) /\
    (codeSignatureSize slice < out_size (all_out new) -> create = Reject AllocationTooSmall).
Proof.
  destruct create_packs as (new & H2 & E). exists new. split; [done|].
  destruct (all_out_ok new H2) as (O1 & O2 & O3). pose proof capacity_ok as [_ Hcap].
  pose proof (merge_sort_Permutation blob_le (all_out new)) as Hp.
  set (out := merge_sort blob_le (all_out new)) in *.
  assert (Forall out_ok out) as O1' by (by rewrite Hp).
  assert (length out = length (all_out new)) as Hl by (by rewrite Hp).
  pose proof (total_permutation _ _ Hp) as Htot. unfold out_size. rewrite <- Htot, <- Hl, E.
  pose proof (total_bound out O1') as Hb. split.
  - intros Hfit.
    assert (1 <= length out)%nat.
    { rewrite Hl. unfold all_out. rewrite length_app, length_fmap. unfold donor_blobs.
      rewrite length_app. cbn [length]. lia. }
    assert (NoDup (outType <$> out)) as O2' by (by rewrite Hp).
    destruct (pack_signature_ok (codeSignatureSize slice) out O1' O2' ltac:(lia) Hfit Hcap)
      as (R & w & P1 & P2 & P3 & P4 & P5 & P6).
    exists R, w. split_and!; try done.
    + assert (blobType <$> blobs w = outType <$> out) as ->.
      { apply (f_equal (fmap fst)) in P5. by rewrite <- !list_fmap_compose in P5. }
      apply sorted_types, Sorted_merge_sort, _.
    + rewrite P5. by rewrite Hp.
  - intros Hbig. apply pack_signature_small; [done|lia|].
    unfold super_blob_size, blob_index_size, U32_MOD, U64_MOD in *. lia.
Qed.
End encrypted.
