(* ===== verification/FatOutput.v ===== *)
(** Writing the FAT executable (src/Tweak/FatMachO.c,
    [LC32InjectArm64ExecutableSlice] and its helpers).

    The injector copies the ARM slices of the target unchanged, except that an
    encrypted slice gets its transformed signature, and adds the signed arm64
    shim behind them.  It lays the slices out at aligned offsets, writes a FAT
    header that names the shim first, copies the slices through a buffer, and
    reads everything back.  Here are the selection of slices, the layout, the
    header, the copy and the comparison; opening, staging, signing and renaming
    files are calls of the operating system and are left out. *)

From stdpp Require Import base list.
From Stdlib Require Import ZArith Lia.
From S2P Require Import Prelude Bytes MachOImage HostIO CodeSignature.

Open Scope Z_scope.

Definition LC32_OUTPUT_MIN_ALIGN_EXPONENT : Z := 14.
Definition LC32_COPY_BUFFER_SIZE : Z := 256 * 1024.
Definition LC32_IOS_11_VERSION : Z := Z.shiftl 11 16.
Definition PLATFORM_IOS : Z := 2.
Definition CPU_SUBTYPE_ARM64_ALL : Z := 0.
Definition MH_EXECUTE : Z := 2.

Inductive InjectError : Type :=
| TooManySlices | SwappedSlice | ConflictingSDK
| ShimNotExecutable | ShimSwapped | ShimNoArm64 | ShimNoBuildVersion
| BuildVersionUnusable | BuildVersionChanged
| OffsetsExceedFat | SizeExceedsFat.

(** ** The SDK version *)

(** [preserve] is the build option LC32_PRESERVE_GUEST_SDK. *)
Definition LC32EffectiveShimSDK (preserve : bool) (guestSlice : LC32MachOSlice) : Z :=
  let sdk :=
    if hasVersionMinIPhoneOS guestSlice then versionMinIPhoneOSSDK guestSlice
    else if hasBuildVersion guestSlice && (buildVersionPlatform guestSlice =? PLATFORM_IOS)
         then buildVersionSDK guestSlice
    else 0 in
  if preserve then sdk
  else if sdk <? LC32_IOS_11_VERSION then LC32_IOS_11_VERSION else sdk.

Definition LC32PatchShimBuildVersion (shimBytes : list Z) (shimSize : Z)
    (shimSlice : LC32MachOSlice) (requestedSDK : Z) : outcome InjectError (list Z) :=
  let at_ := buildVersionCommandOffset shimSlice in
  _ ← reject_if (isByteSwapped shimSlice || negb (hasBuildVersion shimSlice) ||
                 (shimSize <? at_) || (shimSize - at_ <? build_version_command_size))
        BuildVersionUnusable;
  command ← fetch shimBytes at_ build_version_command_size;
  cmd ← u32_at command 0;
  cmdsize ← u32_at command 4;
  platform ← u32_at command 8;
  minos ← u32_at command 12;
  sdk ← u32_at command 16;
  _ ← reject_if (negb (cmd =? LC_BUILD_VERSION) || (cmdsize <? build_version_command_size) ||
                 negb (platform =? buildVersionPlatform shimSlice) ||
                 negb (minos =? buildVersionMinOS shimSlice) ||
                 negb (sdk =? buildVersionSDK shimSlice)) BuildVersionChanged;
  command ← store command 12 (le_bytes 4 LC32_IOS_11_VERSION);
  command ← store command 16 (le_bytes 4 requestedSDK);
  store shimBytes at_ command.

(** ** Choosing the slices *)

(** What the loop over the target's slices decides. *)
Inductive target_scan : Type :=
| NotApplicable
| TargetFailed (e : InjectError)
| TargetSlices (sdk : option Z) (hasEncrypted : bool).

Fixpoint scan_target (preserve : bool) (l : list LC32MachOSlice) (sdk : option Z)
    (hasEncrypted : bool) : target_scan :=
  match l with
  | [] => match sdk with None => NotApplicable | Some _ => TargetSlices sdk hasEncrypted end
  | slice :: rest =>
      if cpuType slice =? CPU_TYPE_ARM64 then NotApplicable
      else if negb (cpuType slice =? CPU_TYPE_ARM) || negb (fileType slice =? MH_EXECUTE) then
        NotApplicable
      else if isByteSwapped slice then TargetFailed SwappedSlice
      else
        let sliceSDK := LC32EffectiveShimSDK preserve slice in
        match sdk with
        | Some targetSDK =>
            if negb (targetSDK =? sliceSDK) then TargetFailed ConflictingSDK
            else scan_target preserve rest (Some sliceSDK) (hasEncrypted || encrypted slice)
        | None => scan_target preserve rest (Some sliceSDK) (hasEncrypted || encrypted slice)
        end
  end.

Definition check_target (preserve : bool) (image : LC32MachOImage) : target_scan :=
  if LC32_MAX_MACH_O_SLICES <=? count image then TargetFailed TooManySlices
  else scan_target preserve (slices image) None false.

Definition LC32BaseCPUSubtype (subtype : Z) : Z := Z.land subtype (u32_not CPU_SUBTYPE_MASK).

(** The loop over the shim's slices. *)
Fixpoint select_shim (l : list LC32MachOSlice) (shimSlice : option LC32MachOSlice)
    : outcome InjectError (option LC32MachOSlice) :=
  match l with
  | [] => mret shimSlice
  | candidate :: rest =>
      _ ← reject_if (negb (fileType candidate =? MH_EXECUTE)) ShimNotExecutable;
      _ ← reject_if (isByteSwapped candidate) ShimSwapped;
      let suitable := (cpuType candidate =? CPU_TYPE_ARM64) &&
        (LC32BaseCPUSubtype (cpuSubtype candidate) =? CPU_SUBTYPE_ARM64_ALL) &&
        negb (encrypted candidate) in
      select_shim rest
        (match shimSlice with
         | None => if suitable then Some candidate else None
         | Some s => Some s
         end)
  end.

Definition find_shim (image : LC32MachOImage) : outcome InjectError LC32MachOSlice :=
  found ← select_shim (slices image) None;
  shimSlice ← or_reject found ShimNoArm64;
  _ ← reject_if (negb (hasBuildVersion shimSlice)) ShimNoBuildVersion;
  mret shimSlice.

(** ** Output slices *)

Record LC32OutputSlice := mkOutput {
  os_sourceOffset : Z;
  os_sourceBytes : option (list Z);
  os_replacementBytes : option (list Z);
  os_replacementOffset : Z;
  os_replacementSize : Z;
  os_size : Z;
  os_cpuType : Z;
  os_cpuSubtype : Z;
  os_fileType : Z;
  os_sourceAlign : Z;
  os_is64Bit : bool;
  os_encrypted : bool;
  os_outputOffset : Z;
  os_outputAlign : Z
}.

Definition set_output (s : LC32OutputSlice) (off align : Z) : LC32OutputSlice :=
  mkOutput (os_sourceOffset s) (os_sourceBytes s) (os_replacementBytes s)
    (os_replacementOffset s) (os_replacementSize s) (os_size s) (os_cpuType s) (os_cpuSubtype s)
    (os_fileType s) (os_sourceAlign s) (os_is64Bit s) (os_encrypted s) off align.

(** The slice of the target; an encrypted one has its transformed signature. *)
Definition target_output (source : LC32MachOSlice) (transformed : option (list Z))
    : LC32OutputSlice :=
  mkOutput (offset source) None transformed
    (if encrypted source then codeSignatureOffset source else 0)
    (if encrypted source then codeSignatureSize source else 0)
    (size source) (cpuType source) (cpuSubtype source) (fileType source) (alignExponent source)
    (negb (is32Bit source)) (encrypted source) 0 0.

Definition shim_output (shimSlice : LC32MachOSlice) (signedShimBytes : list Z)
    : LC32OutputSlice :=
  mkOutput 0 (Some signedShimBytes) None 0 0 (blen signedShimBytes) (cpuType shimSlice)
    (cpuSubtype shimSlice) (fileType shimSlice) (alignExponent shimSlice)
    (negb (is32Bit shimSlice)) false 0 0.

Definition make_outputs (target : list (LC32MachOSlice * option (list Z)))
    (shimSlice : LC32MachOSlice) (signedShimBytes : list Z) : list LC32OutputSlice :=
  (uncurry target_output <$> target) ++ [shim_output shimSlice signedShimBytes].

(** ** Layout *)

Definition header_bytes (n : nat) : Z := fat_header_size + Z.of_nat n * fat_arch_size.

Fixpoint lay_out (l : list LC32OutputSlice) (outputSize : Z)
    : outcome InjectError (list LC32OutputSlice * Z) :=
  match l with
  | [] => mret ([], outputSize)
  | output :: rest =>
      let align := if os_sourceAlign output <? LC32_OUTPUT_MIN_ALIGN_EXPONENT
                   then LC32_OUTPUT_MIN_ALIGN_EXPONENT else os_sourceAlign output in
      _ ← reject_if (30 <? align) OffsetsExceedFat;
      outputSize ← or_reject (LC32AlignUInt64 outputSize (Z.shiftl 1 align)) OffsetsExceedFat;
      _ ← reject_if ((UINT32_MAX <? outputSize) || (UINT32_MAX <? os_size output))
            OffsetsExceedFat;
      let output := set_output output (u32 outputSize) align in
      outputSize ← or_reject (LC32AddUInt64 outputSize (os_size output)) SizeExceedsFat;
      _ ← reject_if (UINT32_MAX <? outputSize) SizeExceedsFat;
      '(rest, outputSize) ← lay_out rest outputSize;
      mret (output :: rest, outputSize)
  end.

Definition plan_output (l : list LC32OutputSlice) : outcome InjectError (list LC32OutputSlice * Z) :=
  lay_out l (header_bytes (length l)).

Definition LC32OutputIndexForFatDescriptor (descriptorIndex targetSliceCount : nat) : nat :=
  match descriptorIndex with O => targetSliceCount | S i => i end.

(** A descriptor; the swapped fields are stored in the host's byte order. *)
Definition fat_arch (o : LC32OutputSlice) : list Z :=
  le_bytes 4 (OSSwapInt32 (os_cpuType o)) ++ le_bytes 4 (OSSwapInt32 (os_cpuSubtype o)) ++
  le_bytes 4 (OSSwapInt32 (os_outputOffset o)) ++ le_bytes 4 (OSSwapInt32 (u32 (os_size o))) ++
  le_bytes 4 (OSSwapInt32 (os_outputAlign o)).

(** The outputs in the order of their descriptors. *)
Definition descriptor_order (outs : list LC32OutputSlice) : list LC32OutputSlice :=
  omap (fun i => outs !! LC32OutputIndexForFatDescriptor i (length outs - 1))
    (seq 0 (length outs)).

Definition fat_header (outs : list LC32OutputSlice) : list Z :=
  le_bytes 4 (OSSwapInt32 FAT_MAGIC) ++ le_bytes 4 (OSSwapInt32 (Z.of_nat (length outs))) ++
  concat (fat_arch <$> descriptor_order outs).

(** ** Copying a slice *)

(** The replacement of a slice is usable. *)
Definition replacement_ok (s : LC32OutputSlice) : bool :=
  match os_replacementBytes s with
  | None => os_replacementSize s =? 0
  | Some _ => LC32RangeFits (os_replacementOffset s) (os_replacementSize s) (os_size s)
  end.

Section copy.
  (** The system calls at each call of LC32ReadAt and LC32WriteAt, and the bound
      on their attempts. *)
  Variables (preads : nat -> nat -> Z -> Z -> pread_result)
    (pwrites : nat -> nat -> Z -> Z -> pwrite_result) (io_fuel : nat).

(** The bytes of a chunk: from memory, or read from the source file. *)
Definition chunk_bytes (call : nat) (s : LC32OutputSlice) (completed amount : Z)
    : io_result (list Z) :=
  match os_sourceBytes s with
  | Some bs => IoDone (sub bs completed amount)
  | None => LC32ReadAt (preads call) io_fuel amount (os_sourceOffset s + completed)
  end.

Fixpoint copy_chunks (fuel : nat) (s : LC32OutputSlice) (destinationOffset bufferSize : Z)
    (call : nat) (completed : Z) (file : list Z) : io_result unit * list Z :=
  if os_size s <=? completed then (IoDone tt, file)
  else match fuel with
  | O => (IoPending, file)
  | S f =>
      let remaining := os_size s - completed in
      let amount := if remaining <? bufferSize then remaining else bufferSize in
      match chunk_bytes call s completed amount with
      | IoDone bytes =>
          match LC32WriteAt (pwrites call) io_fuel bytes (destinationOffset + completed) file with
          | (IoDone _, file) =>
              copy_chunks f s destinationOffset bufferSize (S call) (completed + amount) file
          | r => r
          end
      | IoFailed e => (IoFailed e, file)
      | IoPending => (IoPending, file)
      end
  end.

Definition chunk_fuel (size bufferSize : Z) : nat := S (Z.to_nat (size / bufferSize)).

Definition LC32CopyOutputSliceToFD (s : LC32OutputSlice) (destinationOffset bufferSize : Z)
    (file : list Z) : io_result unit * list Z :=
  if negb (replacement_ok s) then (IoFailed EINVAL, file)
  else
    match copy_chunks (chunk_fuel (os_size s) bufferSize) s destinationOffset bufferSize 0 0 file with
    | (IoDone _, file) =>
        match os_replacementBytes s with
        | Some bs =>
            LC32WriteAt (pwrites (chunk_fuel (os_size s) bufferSize)) io_fuel
              (sub bs 0 (os_replacementSize s)) (destinationOffset + os_replacementOffset s) file
        | None => (IoDone tt, file)
        end
    | r => r
    end.

(** ** Comparing a slice with the file *)

(** The reads of the file that is compared. *)
Variable checks : nat -> nat -> Z -> Z -> pread_result.

(** The chunk with the replacement laid over it. *)
Definition overlay (s : LC32OutputSlice) (completed amount : Z) (bytes : list Z) : list Z :=
  let chunkEnd := completed + amount in
  let replacementEnd := os_replacementOffset s + os_replacementSize s in
  let overlapStart := if os_replacementOffset s <? completed then completed
                      else os_replacementOffset s in
  let overlapEnd := if chunkEnd <? replacementEnd then chunkEnd else replacementEnd in
  match os_replacementBytes s with
  | Some bs =>
      if overlapStart <? overlapEnd then
        splice bytes (overlapStart - completed)
          (sub bs (overlapStart - os_replacementOffset s) (overlapEnd - overlapStart))
      else bytes
  | None => bytes
  end.

Fixpoint match_chunks (fuel : nat) (s : LC32OutputSlice) (fdOffset bufferSize : Z)
    (call : nat) (completed : Z) : io_result bool :=
  if os_size s <=? completed then IoDone true
  else match fuel with
  | O => IoPending
  | S f =>
      let remaining := os_size s - completed in
      let amount := if remaining <? bufferSize then remaining else bufferSize in
      match chunk_bytes call s completed amount with
      | IoDone bytes =>
          match LC32ReadAt (checks call) io_fuel amount (fdOffset + completed) with
          | IoDone bytes' =>
              if bool_decide (overlay s completed amount bytes = bytes') then
                match_chunks f s fdOffset bufferSize (S call) (completed + amount)
              else IoDone false
          | IoFailed _ => IoDone false
          | IoPending => IoPending
          end
      | IoFailed _ => IoDone false
      | IoPending => IoPending
      end
  end.

Definition LC32OutputSliceMatchesFD (s : LC32OutputSlice) (fdOffset bufferSize : Z)
    : io_result bool :=
  if negb (replacement_ok s) then IoDone false
  else match_chunks (chunk_fuel (os_size s) bufferSize) s fdOffset bufferSize 0 0.

End copy.

(** ** Writing the file *)

Section write.
  (** The system calls for each slice; those of slice 0 come after the header. *)
  Variables (preads : nat -> nat -> nat -> Z -> Z -> pread_result)
    (header_pwrite : nat -> Z -> Z -> pwrite_result)
    (pwrites : nat -> nat -> nat -> Z -> Z -> pwrite_result) (io_fuel : nat).

Fixpoint copy_outputs (index : nat) (outs : list LC32OutputSlice) (file : list Z)
    : io_result unit * list Z :=
  match outs with
  | [] => (IoDone tt, file)
  | o :: rest =>
      match LC32CopyOutputSliceToFD (preads index) (pwrites index) io_fuel o (os_outputOffset o)
              LC32_COPY_BUFFER_SIZE file with
      | (IoDone _, file) => copy_outputs (S index) rest file
      | r => r
      end
  end.

(** ftruncate has made a file of [outputSize] zeros. *)
Definition write_output (outs : list LC32OutputSlice) (outputSize : Z) : io_result unit * list Z :=
  match LC32WriteAt header_pwrite io_fuel (fat_header outs) 0 (zeros outputSize) with
  | (IoDone _, file) => copy_outputs 0 outs file
  | r => r
  end.

End write.

(** The comparison of a parsed slice with what was intended. *)
Definition descriptor_matches (actual : LC32MachOSlice) (expected : LC32OutputSlice) : bool :=
  (cpuType actual =? os_cpuType expected) && (cpuSubtype actual =? os_cpuSubtype expected) &&
  (size actual =? os_size expected) && (offset actual =? os_outputOffset expected) &&
  (alignExponent actual =? os_outputAlign expected) &&
  (fileType actual =? os_fileType expected) &&
  negb (eqb (is32Bit actual) (os_is64Bit expected)) &&
  eqb (encrypted actual) (os_encrypted expected).
