(* ===== verification/FatCopyProps.v ===== *)
(** Copying slices and comparing them: a completed copy puts exactly the slice,
    with its replaced signature, at its place and changes nothing else; the
    comparison accepts exactly the files that hold the slice there. *)

From stdpp Require Import base list.
From Stdlib Require Import ZArith Lia.
From S2P Require Import Prelude Bytes MachOImage MachOImageProps HostIO CodeSignature.
From S2P Require Import CodeSignatureProps FatOutput.

Open Scope Z_scope.

(** ** Bytes of parts *)

Lemma sub_lookup (buf : list Z) o n i :
  0 <= o -> 0 <= n -> o + n <= blen buf ->
  sub buf o n !! i = if decide (Z.of_nat i < n) then buf !! (Z.to_nat o + i)%nat else None.
Proof.
  intros. unfold sub. case_decide.
  - rewrite lookup_take_lt, lookup_drop by lia. done.
  - apply lookup_ge_None. rewrite length_take. lia.
Qed.

Lemma splice_lookup (buf : list Z) o bs i :
  0 <= o -> o + blen bs <= blen buf ->
  splice buf o bs !! i =
    if decide (o <= Z.of_nat i < o + blen bs) then bs !! (i - Z.to_nat o)%nat else buf !! i.
Proof.
  unfold blen. intros. unfold splice. case_decide.
  - rewrite lookup_app_r by (rewrite length_take; lia). rewrite length_take.
    rewrite lookup_app_l by lia. f_equal. lia.
  - destruct (decide (Z.of_nat i < o)).
    + rewrite lookup_app_l by (rewrite length_take; lia). by rewrite lookup_take_lt by lia.
    + rewrite lookup_app_r by (rewrite length_take; lia). rewrite length_take.
      rewrite lookup_app_r by lia. rewrite lookup_drop. f_equal. lia.
Qed.

Lemma splice_nothing (buf : list Z) o : 0 <= o -> splice buf o [] = buf.
Proof. intros. unfold splice. cbn. by rewrite Nat.add_0_r, take_drop. Qed.

(** A part of a buffer with a splice is the part of the buffer with the part of
    the splice that it overlaps. *)
Lemma sub_splice_overlap (buf : list Z) o bs c n :
  0 <= o -> o + blen bs <= blen buf -> 0 <= c -> 0 <= n -> c + n <= blen buf ->
  sub (splice buf o bs) c n =
    if Z.max o c <? Z.min (c + n) (o + blen bs)
    then splice (sub buf c n) (Z.max o c - c)
           (sub bs (Z.max o c - o) (Z.min (c + n) (o + blen bs) - Z.max o c))
    else sub buf c n.
Proof.
  intros. pose proof (blen_nonneg bs). destruct (_ <? _) eqn:E; zb.
  - apply list_eq. intros i.
    rewrite sub_lookup by (rewrite ?blen_splice; lia).
    assert (blen (sub bs (Z.max o c - o) (Z.min (c + n) (o + blen bs) - Z.max o c)) =
      Z.min (c + n) (o + blen bs) - Z.max o c) as Hl by (apply blen_sub; lia).
    rewrite (splice_lookup (sub buf c n)) by (rewrite ?Hl, ?(blen_sub buf); lia). rewrite Hl.
    rewrite splice_lookup by lia.
    repeat case_decide; try lia; rewrite ?sub_lookup by lia; repeat case_decide; try lia; try done;
      f_equal; lia.
  - destruct (decide (n = 0)) as [-> |]; [done|]. destruct bs as [|b bs]; [by rewrite splice_nothing|].
    assert (0 < blen (b :: bs)) by (unfold blen; cbn [length]; lia). apply sub_splice_other; lia.
Qed.

(** A splice into a part is a splice into the whole. *)
Lemma splice_splice_inside (buf : list Z) o bs p cs :
  0 <= o -> o + blen bs <= blen buf -> 0 <= p -> p + blen cs <= blen bs ->
  splice (splice buf o bs) (o + p) cs = splice buf o (splice bs p cs).
Proof.
  intros. pose proof (blen_nonneg cs). apply list_eq. intros i.
  rewrite !splice_lookup by (rewrite ?blen_splice; lia). rewrite (blen_splice bs) by lia.
  repeat case_decide; try lia; try done; f_equal; lia.
Qed.

(** Splicing the next part behind a part. *)
Lemma splice_extend (buf : list Z) o bs c n :
  0 <= o -> 0 <= c -> 0 <= n -> c + n <= blen bs -> o + blen bs <= blen buf ->
  splice (splice buf o (sub bs 0 c)) (o + c) (sub bs c n) = splice buf o (sub bs 0 (c + n)).
Proof.
  intros. assert (blen (sub bs 0 c) = c) as L1 by (apply blen_sub; lia).
  assert (blen (sub bs c n) = n) as L2 by (apply blen_sub; lia).
  assert (blen (sub bs 0 (c + n)) = c + n) as L3 by (apply blen_sub; lia).
  apply list_eq. intros i.
  rewrite !splice_lookup by (rewrite ?blen_splice; lia). rewrite L1, L2, L3.
  repeat case_decide; try lia; rewrite ?sub_lookup by lia; repeat case_decide; try lia;
    try done; f_equal; lia.
Qed.

(** ** The content of a slice *)

Section copy.
Context (src : list Z) (s : LC32OutputSlice).

Definition slice_base : list Z :=
  match os_sourceBytes s with
  | Some bs => sub bs 0 (os_size s)
  | None => sub src (os_sourceOffset s) (os_size s)
  end.

Definition slice_content : list Z :=
  match os_replacementBytes s with
  | Some r => splice slice_base (os_replacementOffset s) (sub r 0 (os_replacementSize s))
  | None => slice_base
  end.

(** The slice lies in its source, and the replacement is as long as it says. *)
Record output_ok : Prop := {
  ok_size : 0 <= os_size s;
  ok_bytes bs : os_sourceBytes s = Some bs -> blen bs = os_size s;
  ok_file : os_sourceBytes s = None ->
    0 <= os_sourceOffset s /\ os_sourceOffset s + os_size s <= blen src;
  ok_replacement r : os_replacementBytes s = Some r ->
    blen r = os_replacementSize s /\ 0 <= os_replacementOffset s
}.
Context (Hok : output_ok).

Lemma base_length : blen slice_base = os_size s.
Proof.
  destruct Hok as [H0 Hb Hf _]. unfold slice_base. destruct (os_sourceBytes s) as [bs|].
  - pose proof (Hb bs eq_refl). apply blen_sub; lia.
  - destruct (Hf eq_refl). apply blen_sub; lia.
Qed.

Context (preads : nat -> nat -> Z -> Z -> pread_result)
  (pwrites : nat -> nat -> Z -> Z -> pwrite_result) (io_fuel : nat).
Context `{!forall k, Pread src (preads k), !forall k, Pwrite (pwrites k)}.

Lemma chunk_bytes_ok k c n bs :
  0 <= c -> 0 <= n -> c + n <= os_size s ->
  chunk_bytes preads io_fuel k s c n = IoDone bs -> bs = sub slice_base c n.
Proof.
  intros. unfold chunk_bytes, slice_base in *. destruct (os_sourceBytes s) as [b|] eqn:Eb.
  - simplify_eq. by rewrite sub_sub by lia.
  - destruct (read_at_exact src (preads k) _ _ _ _ H2 H4) as [_ ->].
    destruct (ok_file Hok Eb). by rewrite sub_sub by lia.
Qed.

Lemma write_at_done k bytes off file file' :
  0 <= off -> off + blen bytes <= blen file ->
  LC32WriteAt (pwrites k) io_fuel bytes off file = (IoDone tt, file') ->
  file' = splice file off bytes.
Proof.
  intros Ho Hl. unfold LC32WriteAt. destruct (range_overflows _ _); [done|]. intros E.
  pose proof (blen_nonneg bytes).
  destruct (write_loop_prefix (pwrites k) io_fuel 0 bytes off 0 file Ho ltac:(lia))
    as (n & Hn & Hf & Hd).
  replace (overwrite file off (sub bytes 0 0)) with file in Hf, Hd.
  2:{ change (sub bytes 0 0) with (@nil Z). rewrite overwrite_inside, splice_nothing; [done|lia..|].
      change (blen []) with 0. lia. }
  rewrite E in Hf, Hd. cbn in Hf, Hd. rewrite (Hd eq_refl), sub_full in Hf.
  by rewrite Hf, overwrite_inside.
Qed.

(** ** The copy *)

Lemma copy_chunks_ok dest bufferSize fuel k c file file' :
  0 < bufferSize -> 0 <= dest -> dest + os_size s <= blen file -> 0 <= c <= os_size s ->
  copy_chunks preads pwrites io_fuel fuel s dest bufferSize k c
    (splice file dest (sub slice_base 0 c)) = (IoDone tt, file') ->
  file' = splice file dest slice_base.
Proof.
  intros Hb Hd Hl. pose proof base_length as HL. revert k c.
  induction fuel as [|f IH]; intros k c Hc; cbn [copy_chunks];
    destruct (os_size s <=? c) eqn:E; zb; try done;
    try (intros [= <-]; replace c with (blen slice_base) by lia; by rewrite sub_full).
  set (n := if os_size s - c <? bufferSize then os_size s - c else bufferSize).
  assert (0 < n /\ c + n <= os_size s) as [Hn Hcn]
    by (unfold n; destruct (_ <? _) eqn:E'; zb; lia).
  destruct (chunk_bytes _ _ _ _ _ _) as [bytes| |] eqn:Eb; [|done..].
  apply chunk_bytes_ok in Eb as ->; [|lia..].
  assert (blen (sub slice_base 0 c) = c) as L0 by (apply blen_sub; lia).
  assert (blen (sub slice_base c n) = n) as L1 by (apply blen_sub; lia).
  destruct (LC32WriteAt _ _ _ _ _) as [[[]|e|] file1] eqn:Ew; [|done..].
  apply write_at_done in Ew as ->; [|lia|rewrite blen_splice; lia].
  rewrite splice_extend by lia. apply IH. lia.
Qed.

(** A completed copy. *)
Lemma copy_slice_ok dest bufferSize file file' :
  0 < bufferSize -> 0 <= dest -> dest + os_size s <= blen file ->
  LC32CopyOutputSliceToFD preads pwrites io_fuel s dest bufferSize file = (IoDone tt, file') ->
  file' = splice file dest slice_content.
Proof.
  intros Hb Hd Hl. unfold LC32CopyOutputSliceToFD, replacement_ok, slice_content.
  pose proof base_length as HL. destruct (negb _) eqn:Er; [done|]. zb.
  destruct (copy_chunks _ _ _ _ _ _ _ _ _ _) as [[[]|e|] file1] eqn:Ec; [|done..].
  rewrite <- (splice_nothing file dest Hd) in Ec. change [] with (sub slice_base 0 0) in Ec.
  apply copy_chunks_ok in Ec as ->; [|done|done|lia|pose proof (ok_size Hok); lia].
  destruct (os_replacementBytes s) as [r|] eqn:Es; [|by intros [= <-]].
  destruct (ok_replacement Hok r Es) as [Lr Ho]. apply sig_range_fits in Er.
  rewrite <- Lr, sub_full. pose proof (blen_nonneg r).
  intros Ew. apply write_at_done in Ew as ->; [|lia|rewrite blen_splice; lia].
  rewrite splice_splice_inside by lia. done.
Qed.

Lemma chunk_step c bufferSize :
  0 < bufferSize -> c < os_size s ->
  let n := if os_size s - c <? bufferSize then os_size s - c else bufferSize in
  0 < n <= bufferSize /\ c + n <= os_size s /\ (c + n < os_size s -> n = bufferSize).
Proof. intros. unfold n. destruct (_ <? _) eqn:E; zb; lia. Qed.

Lemma chunk_fuel_enough bufferSize :
  0 < bufferSize -> os_size s <= Z.of_nat (chunk_fuel (os_size s) bufferSize) * bufferSize.
Proof.
  intros Hb. unfold chunk_fuel. pose proof (ok_size Hok).
  pose proof (Z.mul_succ_div_gt (os_size s) bufferSize Hb).
  pose proof (Z.div_pos (os_size s) bufferSize ltac:(lia) Hb). lia.
Qed.

(** No call fails, and the fuel covers a buffer and the replacement. *)
Record steady (bufferSize : Z) : Prop := {
  st_read k : steady_pread src (preads k);
  st_write k : steady_pwrite (pwrites k);
  st_source : blen src <= INT64_MAX;
  st_buffer : bufferSize <= Z.of_nat io_fuel;
  st_replacement r : os_replacementBytes s = Some r -> blen r <= Z.of_nat io_fuel
}.

Lemma chunk_bytes_complete bufferSize k c n :
  steady bufferSize -> 0 <= c -> 0 <= n <= bufferSize -> c + n <= os_size s ->
  chunk_bytes preads io_fuel k s c n = IoDone (sub slice_base c n).
Proof.
  intros S Hc Hn Hl.
  assert (exists bytes, chunk_bytes preads io_fuel k s c n = IoDone bytes) as [bytes E].
  { unfold chunk_bytes. destruct (os_sourceBytes s) eqn:Eb; [by eexists|].
    destruct (ok_file Hok Eb), S.
    apply (read_at_complete src (preads k)); done || lia. }
  rewrite E. f_equal. by apply chunk_bytes_ok in E; [|lia..].
Qed.

Lemma copy_chunks_complete dest bufferSize fuel k c file :
  steady bufferSize -> 0 < bufferSize -> 0 <= dest -> dest + os_size s <= INT64_MAX ->
  0 <= c <= os_size s -> os_size s - c <= Z.of_nat fuel * bufferSize ->
  exists file', copy_chunks preads pwrites io_fuel fuel s dest bufferSize k c file = (IoDone tt, file').
Proof.
  intros S Hb Hd Hl. revert k c file. induction fuel as [|f IH]; intros k c file Hc Hf; cbn [copy_chunks];
    destruct (os_size s <=? c) eqn:E; zb; [by eexists|lia|by eexists|].
  destruct (chunk_step c bufferSize Hb E) as (Hn & Hcn & Hfull).
  set (n := if _ <? _ then _ else _) in *.
  rewrite (chunk_bytes_complete bufferSize) by (done || lia).
  pose proof base_length.
  assert (blen (sub slice_base c n) = n) as L by (apply blen_sub; lia).
  destruct (write_at_complete (pwrites k) io_fuel (sub slice_base c n) (dest + c) file)
    as [file1 ->]; [apply S|lia|lia|pose proof (st_buffer _ S); lia|].
  apply IH; [lia|].
  assert (0 <= Z.of_nat f * bufferSize) by (apply Z.mul_nonneg_nonneg; lia).
  destruct (decide (c + n = os_size s)); [lia|]. pose proof (Hfull ltac:(lia)). lia.
Qed.

(** The copy completes when no call fails. *)
Lemma copy_slice_complete dest bufferSize file :
  steady bufferSize -> replacement_ok s = true ->
  0 < bufferSize -> 0 <= dest -> dest + os_size s <= INT64_MAX ->
  exists file', LC32CopyOutputSliceToFD preads pwrites io_fuel s dest bufferSize file =
                (IoDone tt, file').
Proof.
  intros S Hr Hb Hd Hl. pose proof (ok_size Hok). unfold LC32CopyOutputSliceToFD. rewrite Hr. cbn [negb].
  destruct (copy_chunks_complete dest bufferSize (chunk_fuel (os_size s) bufferSize) 0 0 file)
    as [file1 ->]; [done..|lia|rewrite Z.sub_0_r; by apply chunk_fuel_enough|].
  unfold replacement_ok in Hr. destruct (os_replacementBytes s) as [r|] eqn:Es; [|by eexists].
  destruct (ok_replacement Hok r Es) as [Lr Ho]. apply sig_range_fits in Hr.
  pose proof (blen_nonneg r). rewrite <- Lr, sub_full in *.
  apply (write_at_complete (pwrites _)); [apply (st_write _ S)|lia|lia|by apply (st_replacement _ S)].
Qed.

(** ** The comparison *)

Context (file : list Z) (checks : nat -> nat -> Z -> Z -> pread_result).
Context `{!forall k, Pread file (checks k)}.

Lemma overlay_ok c n :
  replacement_ok s = true -> 0 <= c -> 0 <= n -> c + n <= os_size s ->
  overlay s c n (sub slice_base c n) = sub slice_content c n.
Proof.
  intros Hr Hc Hn Hl. pose proof base_length as HL. unfold overlay, slice_content, replacement_ok in *.
  destruct (os_replacementBytes s) as [r|] eqn:Es; [|done].
  destruct (ok_replacement Hok r Es) as [Lr Ho]. apply sig_range_fits in Hr.
  pose proof (blen_nonneg r). rewrite <- Lr, sub_full in *.
  rewrite sub_splice_overlap by lia.
  assert ((if os_replacementOffset s <? c then c else os_replacementOffset s) =
    Z.max (os_replacementOffset s) c) as -> by (destruct (_ <? _) eqn:?; zb; lia).
  assert ((if c + n <? os_replacementOffset s + blen r then c + n
    else os_replacementOffset s + blen r) = Z.min (c + n) (os_replacementOffset s + blen r)) as ->
    by (destruct (_ <? _) eqn:?; zb; lia).
  done.
Qed.

Lemma content_length : replacement_ok s = true -> blen slice_content = os_size s.
Proof.
  intros Hr. pose proof base_length as HL. unfold slice_content, replacement_ok in *.
  destruct (os_replacementBytes s) as [r|] eqn:Es; [|done].
  destruct (ok_replacement Hok r Es) as [Lr Ho]. apply sig_range_fits in Hr.
  rewrite <- Lr, sub_full in *. rewrite blen_splice; lia.
Qed.

(** No read of the file fails either. *)
Record steady_checks (fdOffset bufferSize : Z) : Prop := {
  sc_copy : steady bufferSize;
  sc_check k : steady_pread file (checks k);
  sc_file : fdOffset + os_size s <= blen file <= INT64_MAX
}.

(** A true answer means that the file holds the slice. *)
Lemma match_chunks_sound fd bufferSize fuel k c :
  replacement_ok s = true -> 0 < bufferSize -> 0 <= fd -> 0 <= c <= os_size s ->
  match_chunks preads io_fuel checks fuel s fd bufferSize k c = IoDone true ->
  sub file (fd + c) (os_size s - c) = sub slice_content c (os_size s - c).
Proof.
  intros Hr Hb Hf. pose proof (content_length Hr) as HL. revert k c.
  induction fuel as [|f IH]; intros k c Hc; cbn [match_chunks];
    destruct (os_size s <=? c) eqn:E; zb; try done;
    try (intros _; replace (os_size s - c) with 0 by lia; done).
  destruct (chunk_step c bufferSize Hb E) as (Hn & Hcn & _).
  set (n := if _ <? _ then _ else _) in *.
  destruct (chunk_bytes _ _ _ _ _ _) as [bytes| |] eqn:Eb; [|done..].
  apply chunk_bytes_ok in Eb as ->; [|lia..]. rewrite overlay_ok by (done || lia).
  destruct (LC32ReadAt _ _ _ _) as [bytes'| |] eqn:Er; [|done..].
  destruct (read_at_exact file (checks k) _ n _ _ ltac:(lia) Er) as [_ ->].
  destruct (bool_decide _) eqn:Ed; [|done]. apply bool_decide_eq_true in Ed. intros Hm.
  apply IH in Hm; [|lia].
  replace (os_size s - c) with (n + (os_size s - (c + n))) by lia.
  rewrite !sub_app_split by lia. rewrite Ed, <- Hm. do 2 f_equal. lia.
Qed.

(** When all reads complete the answer is the comparison. *)
Lemma match_chunks_complete fd bufferSize fuel k c :
  replacement_ok s = true -> 0 < bufferSize -> 0 <= fd -> 0 <= c <= os_size s ->
  steady_checks fd bufferSize -> os_size s - c <= Z.of_nat fuel * bufferSize ->
  sub file fd (os_size s) = slice_content ->
  match_chunks preads io_fuel checks fuel s fd bufferSize k c = IoDone true.
Proof.
  intros Hr Hb Hf Hc [S R [Hl Hm]] Hfuel Heq. pose proof (content_length Hr) as HL.
  revert k c Hc Hfuel. induction fuel as [|f IH]; intros k c Hc Hfuel; cbn [match_chunks];
    destruct (os_size s <=? c) eqn:E; zb; try done; [lia|].
  destruct (chunk_step c bufferSize Hb E) as (Hn & Hcn & Hfull).
  set (n := if _ <? _ then _ else _) in *.
  rewrite (chunk_bytes_complete bufferSize) by (done || lia). rewrite overlay_ok by (done || lia).
  destruct (read_at_complete file (checks k) io_fuel n (fd + c)) as [bytes' Er];
    [apply R|lia|lia|lia|lia|pose proof (st_buffer _ S); lia|]. rewrite Er.
  destruct (read_at_exact file (checks k) _ n _ _ ltac:(lia) Er) as [_ ->].
  rewrite bool_decide_eq_true_2.
  2:{ rewrite <- Heq. by rewrite sub_sub by lia. }
  apply IH; [lia|].
  assert (0 <= Z.of_nat f * bufferSize) by (apply Z.mul_nonneg_nonneg; lia).
  destruct (decide (c + n = os_size s)); [lia|]. pose proof (Hfull ltac:(lia)). lia.
Qed.

(** The comparison decides whether the file holds the slice. *)
Lemma matches_iff fd bufferSize :
  replacement_ok s = true -> 0 < bufferSize -> 0 <= fd ->
  (LC32OutputSliceMatchesFD preads io_fuel checks s fd bufferSize = IoDone true ->
     sub file fd (os_size s) = slice_content) /\
  (steady_checks fd bufferSize -> sub file fd (os_size s) = slice_content ->
     LC32OutputSliceMatchesFD preads io_fuel checks s fd bufferSize = IoDone true).
Proof.
  intros Hr Hb Hf. pose proof (ok_size Hok) as Hsz. unfold LC32OutputSliceMatchesFD. rewrite Hr.
  cbn [negb]. split.
  - intros Hm. pose proof (match_chunks_sound fd bufferSize _ 0 0 Hr Hb Hf ltac:(lia) Hm) as E.
    rewrite Z.add_0_r, Z.sub_0_r in E. rewrite E, <- (content_length Hr). apply sub_full.
  - intros Hc Heq. apply match_chunks_complete; try done.
    rewrite Z.sub_0_r. by apply chunk_fuel_enough.
Qed.
End copy.
