(* ===== verification/FatLayoutProps.v ===== *)
(** The layout of the output and its FAT header: the slices do not overlap, they
    are aligned and fit into 32 bits, and the parser reads the written header and
    slices back. *)

From stdpp Require Import base list.
From Stdlib Require Import ZArith Lia.
From S2P Require Import Prelude Bytes MachOImage MachOImageProps HostIO CodeSignature CodeSignatureProps.
From S2P Require Import FatOutput FatCopyProps.

Open Scope Z_scope.


(** ** Layout *)

(** [out] is [o] at some place. *)
Definition same_slice (o out : LC32OutputSlice) : Prop :=
  out = set_output o (os_outputOffset out) (os_outputAlign out).

(** An output behind [start], as the layout places it. *)
Record laid (start : Z) (out : LC32OutputSlice) : Prop := {
  la_start : start <= os_outputOffset out;
  la_align : 14 <= os_outputAlign out <= 30 /\ os_sourceAlign out <= os_outputAlign out;
  la_aligned : os_outputOffset out mod 2 ^ os_outputAlign out = 0;
  la_size : 0 <= os_size out <= UINT32_MAX
}.

(** Each slice starts behind the end of the one before. *)
Fixpoint chained (start : Z) (outs : list LC32OutputSlice) (end_ : Z) : Prop :=
  match outs with
  | [] => start = end_
  | o :: rest => laid start o /\ chained (os_outputOffset o + os_size o) rest end_
  end.

Lemma lay_out_chained l start outs end_ :
  0 <= start <= UINT32_MAX -> Forall (fun o => 0 <= os_size o) l ->
  lay_out l start = Done (outs, end_) ->
  Forall2 same_slice l outs /\ chained start outs end_ /\ start <= end_ <= UINT32_MAX.
Proof.
  intros Hs Hl. revert start outs Hs. induction Hl as [|o l Ho Hl IH]; intros start outs Hs; cbn [lay_out].
  { intros [= <- <-]. split; [constructor|]. cbn. lia. }
  cbv zeta. set (a := if os_sourceAlign o <? LC32_OUTPUT_MIN_ALIGN_EXPONENT then _ else _).
  assert (14 <= a /\ os_sourceAlign o <= a) as [Ha Ha'].
  { unfold a, LC32_OUTPUT_MIN_ALIGN_EXPONENT.
    destruct (os_sourceAlign o <? 14) eqn:E; zb; lia. }
  destruct (30 <? a) eqn:E30; [done|]. zb. cbn [reject_if mbind outcome_bind].
  destruct (LC32AlignUInt64 start (Z.shiftl 1 a)) as [off|] eqn:Eal; [|done].
  apply align_uint64 in Eal as (Hoff & Hmod & _); [|lia..]. cbn [or_reject mbind outcome_bind].
  destruct (_ || _) eqn:E32; [done|]. zb. cbn [reject_if mbind outcome_bind].
  rewrite u32_small by (unfold UINT32_MAX in *; lia). cbn [os_size set_output].
  destruct (LC32AddUInt64 off (os_size o)) as [next|] eqn:Ead; [|done].
  apply add_uint64 in Ead as [-> _]; [|lia..]. cbn [or_reject mbind outcome_bind].
  destruct (UINT32_MAX <? off + os_size o) eqn:Em; [done|]. zb. cbn [reject_if mbind outcome_bind].
  destruct (lay_out l (off + os_size o)) as [[rest e]| |] eqn:El; [|done..].
  cbn. intros [= <- <-]. apply IH in El as (H1 & H2 & H3); [|lia].
  split; [constructor; [done|exact H1]|]. split; [|lia]. split; [|exact H2].
  split; cbn; [lia|lia|done|lia].
Qed.

(** Layout succeeds when the slices and their padding fit. *)
Lemma align_fits v e : 0 <= v -> 0 <= e < 64 -> v + 2 ^ e <= U64_MOD ->
  exists c, LC32AlignUInt64 v (Z.shiftl 1 e) = Some c.
Proof.
  intros Hv He Hf. unfold LC32AlignUInt64. rewrite Z.shiftl_1_l.
  assert (0 < 2 ^ e) by (apply Z.pow_pos_nonneg; lia).
  assert (has_flag (2 ^ e) (2 ^ e - 1) = false) as ->.
  { unfold has_flag. replace (2 ^ e - 1) with (Z.ones e) by (rewrite Z.ones_equiv; lia).
    rewrite Z.land_ones, Z.mod_same by lia. done. }
  rewrite (proj2 (Z.eqb_neq (2 ^ e) 0)) by lia. cbn [orb].
  rewrite (proj2 (Z.ltb_ge _ _)) by (unfold UINT64_MAX; lia). by eexists.
Qed.

(** The space a slice may need: its size and its padding. *)
Definition room (o : LC32OutputSlice) : Z := os_size o + 2 ^ Z.max 14 (os_sourceAlign o).

Lemma lay_out_accepts l start :
  0 <= start -> Forall (fun o => 0 <= os_size o /\ os_sourceAlign o <= 30) l ->
  start + foldr (fun o n => room o + n) 0 l <= UINT32_MAX ->
  exists r, lay_out l start = Done r.
Proof.
  intros Hs Hl. revert start Hs. induction Hl as [|o l [Ho Ha] Hl IH]; intros start Hs Hf;
    cbn [lay_out foldr] in *; [by eexists|].
  assert (0 <= foldr (fun o n => room o + n) 0 l) as H0.
  { clear -Hl. induction Hl as [|o l [Ho _] _ IH]; cbn [foldr]; [lia|].
    assert (0 <= room o); [|lia]. unfold room.
    pose proof (Z.pow_nonneg 2 (Z.max 14 (os_sourceAlign o)) ltac:(lia)). lia. }
  unfold room in Hf at 1. unfold LC32_OUTPUT_MIN_ALIGN_EXPONENT.
  assert ((if os_sourceAlign o <? 14 then 14 else os_sourceAlign o) = Z.max 14 (os_sourceAlign o)) as ->
    by (destruct (_ <? _) eqn:E; zb; lia).
  set (a := Z.max 14 (os_sourceAlign o)) in *.
  rewrite (proj2 (Z.ltb_ge 30 a)) by lia. cbn [reject_if mbind outcome_bind].
  assert (0 < 2 ^ a) by (apply Z.pow_pos_nonneg; lia). unfold UINT32_MAX, U32_MOD in Hf.
  destruct (align_fits start a) as [c Ec]; [lia|lia|unfold U64_MOD; lia|]. rewrite Ec.
  apply align_uint64 in Ec as (Hc & _ & _); [|lia..]. cbn [or_reject mbind outcome_bind].
  rewrite (proj2 (Z.ltb_ge UINT32_MAX c)), (proj2 (Z.ltb_ge UINT32_MAX (os_size o)))
    by (unfold UINT32_MAX, U32_MOD; lia). cbn [orb reject_if mbind outcome_bind].
  cbn [os_size set_output]. rewrite add_uint64_some by (unfold U64_MOD; lia).
  cbn [or_reject mbind outcome_bind].
  rewrite (proj2 (Z.ltb_ge UINT32_MAX _)) by (unfold UINT32_MAX, U32_MOD; lia).
  cbn [reject_if mbind outcome_bind].
  destruct (IH (c + os_size o)) as [[rest e] ->]; [lia|unfold UINT32_MAX, U32_MOD; lia|].
  by eexists.
Qed.

Lemma chained_ends start outs end_ i o :
  chained start outs end_ -> outs !! i = Some o ->
  laid start o /\ os_outputOffset o + os_size o <= end_.
Proof.
  revert start i. induction outs as [|a outs IH]; intros start i Hc Hi; [done|].
  destruct Hc as [La Hc]. assert (forall s outs e, chained s outs e -> s <= e) as Hle.
  { clear. intros s outs. revert s. induction outs as [|a outs IH]; intros s e; cbn; [lia|].
    intros [[] ?%IH]. lia. }
  destruct i as [|i]; cbn in Hi.
  - simplify_eq. apply Hle in Hc. done.
  - destruct (IH _ i Hc Hi) as [[] ?], La. split; [split; [lia|done..]|lia].
Qed.

(** Slices of the layout are apart. *)
Lemma chained_apart start outs end_ i j a b :
  chained start outs end_ -> (i < j)%nat -> outs !! i = Some a -> outs !! j = Some b ->
  os_outputOffset a + os_size a <= os_outputOffset b.
Proof.
  revert start i j. induction outs as [|o outs IH]; intros start i j Hc Hij Hi Hj; [done|].
  destruct Hc as [_ Hc], j as [|j]; [lia|]. destruct i as [|i]; cbn in *.
  - simplify_eq. by destruct (chained_ends _ _ _ _ _ Hc Hj) as [[] _].
  - apply (IH _ i j Hc); [lia|done..].
Qed.

(** ** Order of the descriptors *)

Lemma descriptor_order_cons outs shim :
  descriptor_order (outs ++ [shim]) = shim :: outs.
Proof.
  unfold descriptor_order. rewrite length_app. cbn [length].
  replace (length outs + 1)%nat with (S (length outs)) by lia. cbn [seq omap list_omap].
  replace (S (length outs) - 1)%nat with (length outs) by lia.
  unfold LC32OutputIndexForFatDescriptor at 1. rewrite lookup_app_r, Nat.sub_diag by lia. cbn.
  f_equal. rewrite <- fmap_S_seq. 
  assert (forall l k, omap (fun i => (outs ++ [shim]) !! LC32OutputIndexForFatDescriptor i (length outs))
    (S <$> seq k l) = omap (fun i => (outs ++ [shim]) !! i) (seq k l)) as ->.
  { induction l as [|l IH]; intros k; cbn; [done|]. by rewrite IH. }
  assert (forall (pre suf : list LC32OutputSlice), suf ++ [shim] = suf ++ [shim] ->
    omap (fun i => (pre ++ suf ++ [shim]) !! i) (seq (length pre) (length suf)) = suf) as H.
  { intros pre suf _. revert pre. induction suf as [|x suf IH]; intros pre; [done|].
    cbn [length seq omap list_omap app]. rewrite list_lookup_middle by done. f_equal.
    specialize (IH (pre ++ [x])). rewrite length_app, <- app_assoc in IH. cbn in IH.
    by rewrite Nat.add_1_r in IH. }
  exact (H [] outs eq_refl).
Qed.

(** ** The header *)

(** A swapped field reads back. *)
Lemma swapped_field {E} (buf : list Z) x v :
  0 <= x -> x + 4 <= blen buf -> 0 <= v < U32_MOD -> sub buf x 4 = le_bytes 4 (OSSwapInt32 v) ->
  field32 (E := E) buf x true = Done v.
Proof.
  intros Hx Hl Hv Es. unfold field32, u32_at. rewrite fetch_in_buf, Es by lia. cbn [fmap outcome_fmap].
  f_equal. unfold LC32MachOConvertUInt32. rewrite le_int_le_bytes by apply (swap_range 4).
  by apply (swap_involutive 4).
Qed.

(** An output whose fields have the widths of the descriptor. *)
Record output_fields (o : LC32OutputSlice) : Prop := {
  of_cpu : 0 <= os_cpuType o < U32_MOD;
  of_subtype : 0 <= os_cpuSubtype o < U32_MOD;
  of_offset : 0 <= os_outputOffset o < U32_MOD;
  of_size : 0 <= os_size o < U32_MOD;
  of_align : 0 <= os_outputAlign o < U32_MOD
}.

Definition descriptor_of (o : LC32OutputSlice) : LC32MachOSlice :=
  set_range (set_arch zero_slice (os_cpuType o) (os_cpuSubtype o)) (os_outputOffset o) (os_size o)
    (os_outputAlign o).

Lemma blen_fat_arch o : blen (fat_arch o) = fat_arch_size.
Proof. unfold fat_arch. rewrite !blen_app, !blen_le_bytes. done. Qed.

Lemma descriptor_reads readAt site i o :
  output_fields o -> readAt site (fat_header_size + i * fat_arch_size) fat_arch_size = Some (fat_arch o) ->
  read_descriptor readAt false true site i = Done (descriptor_of o).
Proof.
  intros [H1 H2 H3 H4 H5] Hr. unfold read_descriptor. cbv zeta iota. rewrite Hr.
  cbn [or_reject mbind outcome_bind]. pose proof (blen_fat_arch o) as HL. unfold fat_arch_size in HL.
  rewrite (swapped_field _ 0 (os_cpuType o)) by (done || lia). cbn [mbind outcome_bind].
  rewrite (swapped_field _ 4 (os_cpuSubtype o)) by (done || lia). cbn [mbind outcome_bind].
  rewrite (swapped_field _ 8 (os_outputOffset o)) by (done || lia). cbn [mbind outcome_bind].
  rewrite (swapped_field _ 12 (os_size o)); [|lia..|].
  2:{ transitivity (le_bytes 4 (OSSwapInt32 (u32 (os_size o)))); [done|]. by rewrite u32_small. }
  cbn [mbind outcome_bind].
  by rewrite (swapped_field _ 16 (os_outputAlign o)) by (done || lia).
Qed.

Lemma concat_arch l i o :
  l !! i = Some o ->
  sub (concat (fat_arch <$> l)) (Z.of_nat i * fat_arch_size) fat_arch_size = fat_arch o.
Proof.
  unfold fat_arch_size. revert i. induction l as [|a l IH]; intros i Hi; [done|].
  pose proof (blen_fat_arch a) as HL. unfold blen, fat_arch_size in HL. cbn [fmap list_fmap concat].
  destruct i as [|i]; cbn in Hi.
  - simplify_eq. unfold sub. change (Z.to_nat (Z.of_nat 0 * 20)) with 0%nat. rewrite drop_0.
    apply take_app_length'. lia.
  - rewrite <- (IH i Hi). unfold sub. rewrite drop_app_ge by lia. do 2 f_equal. lia.
Qed.

Lemma blen_concat_arch l : blen (concat (fat_arch <$> l)) = Z.of_nat (length l) * fat_arch_size.
Proof.
  induction l as [|a l IH]; cbn [fmap list_fmap concat length]; [done|].
  rewrite blen_app, blen_fat_arch. unfold fat_arch_size in *. 
  rewrite IH. lia.
Qed.

Lemma sub_app_right (a b : list Z) x n :
  blen a <= x -> sub (a ++ b) x n = sub b (x - blen a) n.
Proof. intros. unfold sub, blen in *. rewrite drop_app_ge by lia. do 2 f_equal. lia. Qed.

(** The whole header. *)
Lemma header_parts outs shim :
  let h := fat_header (outs ++ [shim]) in
  blen h = header_bytes (S (length outs)) /\
  sub h 0 4 = le_bytes 4 (OSSwapInt32 FAT_MAGIC) /\
  sub h 4 4 = le_bytes 4 (OSSwapInt32 (Z.of_nat (S (length outs)))) /\
  forall i o, (shim :: outs) !! i = Some o ->
    sub h (fat_header_size + Z.of_nat i * fat_arch_size) fat_arch_size = fat_arch o.
Proof.
  unfold fat_header. rewrite descriptor_order_cons, length_app. cbn [length].
  replace (length outs + 1)%nat with (S (length outs)) by lia.
  set (c := concat _). assert (blen c = Z.of_nat (S (length outs)) * fat_arch_size) as Hc
    by (apply (blen_concat_arch (shim :: outs))).
  split_and!; [|done|done|].
  - rewrite !blen_app, !blen_le_bytes, Hc. unfold header_bytes, fat_header_size. lia.
  - intros i o Hi. rewrite app_assoc, sub_app_right; rewrite blen_app, !blen_le_bytes;
      unfold fat_header_size, fat_arch_size; [|lia].
    rewrite <- (concat_arch _ _ _ Hi). unfold fat_arch_size. f_equal. lia.
Qed.

(** ** Reading the output back *)

(** A file that does not change, whose reads succeed inside it. *)
Definition file_reader (file : list Z) (call : nat) (off n : Z) : option (list Z) :=
  if in_buf file off n then Some (sub file off n) else None.

Lemma file_reader_in file k off n :
  0 <= off -> 0 <= n -> off + n <= blen file -> file_reader file k off n = Some (sub file off n).
Proof. intros. unfold file_reader. by rewrite (proj2 (in_buf_true file off n)). Qed.

(** Parsing a slice in a file is parsing its bytes. *)
Lemma parse_slice_moved file site site' o n d :
  Forall byte_ok file -> 0 <= o -> 0 <= n -> o + n <= blen file -> blen file <= INT64_MAX ->
  LC32MachOParseSlice (file_reader file) site o n d =
  LC32MachOParseSlice (file_reader (sub file o n)) site' 0 n d.
Proof.
  intros Hb Ho Hn Hl Hm. assert (blen (sub file o n) = n) as HL by (by apply blen_sub).
  assert (forall k k' x m, 0 <= x -> 0 <= m -> x + m <= n ->
    file_reader file k (o + x) m = file_reader (sub file o n) k' x m) as Hr.
  { intros. rewrite !file_reader_in by lia. by rewrite sub_sub by lia. }
  unfold LC32MachOParseSlice. destruct (n <? 4) eqn:E4; [done|]. zb.
  cbn [reject_if mbind outcome_bind]. rewrite <- (Z.add_0_r o) at 1.
  rewrite (Hr site site' 0 4) by lia.
  destruct (or_reject _ _) as [mb| |]; [|done..]. cbn [mbind outcome_bind].
  destruct (u32_at mb 0) as [magic| |]; [|done..]. cbn [mbind outcome_bind].
  destruct (header_kind magic) as [[[sw is32] h]|] eqn:Ek; [|done]. cbn [or_reject mbind outcome_bind].
  assert (28 <= h <= 32) as Hh.
  { unfold header_kind, mach_header_size, mach_header_64_size in Ek.
    repeat case_match; simplify_eq; lia. }
  destruct (n <? h) eqn:Eh; [done|]. zb. cbn [reject_if mbind outcome_bind].
  rewrite <- (Z.add_0_r o) at 1. rewrite (Hr (site + 1)%nat (site' + 1)%nat 0 h) by lia.
  rewrite file_reader_in by lia. cbn [or_reject mbind outcome_bind].
  set (header := sub (sub file o n) 0 h).
  destruct (field32 header 4 sw) as [cpu| |]; [|done..]. cbn [mbind outcome_bind].
  destruct (field32 header 8 sw) as [subtype| |]; [|done..]. cbn [mbind outcome_bind].
  destruct (field32 header 12 sw) as [ft| |]; [|done..]. cbn [mbind outcome_bind]. cbv zeta.
  destruct (reject_if _ CpuWidthMismatch); [|done..]. cbn [mbind outcome_bind].
  destruct (field32 header 16 sw) as [cc| |]; [|done..]. cbn [mbind outcome_bind].
  assert (safe (E := MachOError) (field32 header 20 sw) (fun v => 0 <= v < U32_MOD)) as Hcb.
  { apply safe_field32; [by apply Forall_sub, Forall_sub|lia| |by intros].
    unfold header. rewrite blen_sub; lia. }
  destruct (field32 header 20 sw) as [cb| |]; [|done..]. cbn in Hcb. cbn [mbind outcome_bind].
  destruct (_ || _) eqn:Et; [done|]. cbn [reject_if mbind outcome_bind]. zb.
  match goal with H : LC32MachORangeFits h cb n = true |- _ => apply range_fits in H end.
  unfold INT64_MAX, U32_MOD in *. rewrite !u64_small by (unfold U64_MOD; lia).
  rewrite (Hr (site + 2)%nat (site' + 2)%nat h cb) by lia. done.
Qed.

Definition outputs_apart (a b : LC32OutputSlice) : Prop :=
  (os_cpuType a <> os_cpuType b \/ os_cpuSubtype a <> os_cpuSubtype b) /\
  (os_outputOffset a + os_size a <= os_outputOffset b \/
   os_outputOffset b + os_size b <= os_outputOffset a).

Lemma pairwise_sym_middle {A} (R : A -> A -> Prop) (l : list A) i j a b :
  (forall x y, R x y -> R y x) -> pairwise R l -> i <> j ->
  l !! i = Some a -> l !! j = Some b -> R a b.
Proof.
  intros Hs Hp Hij Hi Hj. destruct (Nat.lt_trichotomy i j) as [H|[H|H]]; [by eapply Hp|done|].
  by eapply Hs, Hp.
Qed.

Section readback.
Context (file : list Z) (Hbytes : Forall byte_ok file) (start : Z).
Context (Hmax : blen file <= UINT32_MAX) (Hstart : 0 <= start).

(** The slice [s] is what the parser finds at the place of [o]. *)
Record reads_as (o : LC32OutputSlice) (s : LC32MachOSlice) : Prop := {
  ra_fields : output_fields o;
  ra_laid : laid start o;
  ra_inside : os_outputOffset o + os_size o <= blen file;
  ra_nonempty : 0 < os_size o;
  ra_parse : LC32MachOParseSlice
    (file_reader (sub file (os_outputOffset o) (os_size o))) 0 0 (os_size o) (descriptor_of o) = Done s;
  ra_arch : cpuType s = os_cpuType o /\ cpuSubtype s = os_cpuSubtype o
}.

Definition finished (o : LC32OutputSlice) (s : LC32MachOSlice) : LC32MachOSlice :=
  set_range s (os_outputOffset o) (os_size o) (os_outputAlign o).

Lemma check_previous_accepts o done_ ss :
  Forall2 reads_as done_ ss -> Forall (fun a => outputs_apart a o) done_ ->
  reads_as o (descriptor_of o) \/ (output_fields o /\ os_outputOffset o + os_size o <= blen file) ->
  check_previous (descriptor_of o) (zip_with finished done_ ss) = Done tt.
Proof.
  intros Hd Ha Ho. assert (output_fields o /\ os_outputOffset o + os_size o <= blen file) as [Hf Hi].
  { destruct Ho as [[]|?]; done. }
  clear Ho. induction Hd as [|a s done_ ss Hs Hd IH]; cbn [zip_with check_previous]; [done|].
  apply Forall_cons in Ha as [[Hc Hr] Ha]. destruct Hs as [[] ? ? ? _ [E1 E2]], Hf.
  cbn [finished descriptor_of set_range set_arch cpuType cpuSubtype offset size zero_slice].
  rewrite E1, E2. unfold UINT32_MAX, U32_MOD in *. rewrite !u64_small by (unfold U64_MOD; lia).
  destruct ((os_cpuType o =? os_cpuType a) && _) eqn:D1; cbn [reject_if mbind outcome_bind].
  { apply andb_true_iff in D1. rewrite !Z.eqb_eq in D1. destruct Hc; lia. }
  destruct ((_ <? _) && _) eqn:D2; cbn [reject_if mbind outcome_bind].
  { apply andb_true_iff in D2. rewrite !Z.ltb_lt in D2. lia. }
  by apply IH.
Qed.

Lemma aligned_flag x e : 0 <= e -> x mod 2 ^ e = 0 -> has_flag x (Z.shiftl 1 e - 1) = false.
Proof.
  intros He Hx. unfold has_flag. rewrite Z.shiftl_1_l.
  replace (2 ^ e - 1) with (Z.ones e) by (rewrite Z.ones_equiv; lia).
  by rewrite Z.land_ones, Hx by lia.
Qed.

Lemma parse_fat_slices_reads todo ts done_ ss :
  Forall2 reads_as done_ ss -> Forall2 reads_as todo ts ->
  pairwise outputs_apart (done_ ++ todo) ->
  (forall i o, (done_ ++ todo) !! i = Some o ->
     sub file (fat_header_size + Z.of_nat i * fat_arch_size) fat_arch_size = fat_arch o /\
     fat_header_size + Z.of_nat i * fat_arch_size + fat_arch_size <= blen file) ->
  parse_fat_slices (file_reader file) false true (blen file) start (length todo)
    (zip_with finished done_ ss) = Done (zip_with finished done_ ss ++ zip_with finished todo ts).
Proof.
  intros Hd Ht. revert done_ ss Hd. induction Ht as [|o s todo ts Ho Ht IH]; intros done_ ss Hd Hp Hh;
    cbn [length parse_fat_slices zip_with].
  { by rewrite app_nil_r. }
  pose proof Ho as [Hf [L1 [L2 _] L3 _] Hi Hn Hs [E1 E2]].
  assert (length (zip_with finished done_ ss) = length done_) as HL.
  { rewrite length_zip_with. apply Forall2_length in Hd. lia. }
  destruct (Hh (length done_) o) as [Hsub Hin]; [by rewrite list_lookup_middle|].
  cbv zeta. rewrite HL.
  rewrite (descriptor_reads _ _ _ o); [|done|rewrite file_reader_in, Hsub;
    unfold fat_header_size, fat_arch_size in *; (done || lia)].
  cbn [mbind outcome_bind].
  cbn [descriptor_of set_range set_arch cpuType cpuSubtype offset size alignExponent zero_slice].
  fold (descriptor_of o). unfold UINT32_MAX, U32_MOD in *.
  rewrite (proj2 (Z.eqb_neq (os_size o) 0)), (proj2 (Z.ltb_ge 30 _)), (proj2 (Z.ltb_ge _ start)),
    (proj2 (range_fits _ _ _)) by lia.
  cbn [orb negb reject_if mbind outcome_bind]. rewrite aligned_flag by (done || lia).
  cbn [reject_if mbind outcome_bind]. rewrite check_previous_accepts; [|done| |by right; split].
  2:{ apply Forall_forall. intros a [j Hj]%list_elem_of_lookup.
      apply (Hp j (length done_)); [by eapply lookup_lt_Some|by apply lookup_app_l_Some|].
      by rewrite list_lookup_middle. }
  cbn [mbind outcome_bind].
  rewrite (parse_slice_moved file _ 0) by (done || unfold INT64_MAX; lia || apply Hf).
  rewrite Hs. cbn [mbind outcome_bind]. rewrite E1, E2, !Z.eqb_refl.
  cbn [negb orb reject_if mbind outcome_bind].
  change (set_range s _ _ _) with (finished o s).
  specialize (IH (done_ ++ [o]) (ss ++ [s])).
  rewrite zip_with_app in IH by (by apply Forall2_length in Hd). cbn [zip_with] in IH.
  rewrite <- !app_assoc in IH. apply IH.
  - apply Forall2_app; [done|by constructor].
  - done.
  - done.
Qed.
End readback.

(** The written executable parses back into its slices, the shim first. *)
Lemma output_parses_back file outs shim end_ ss :
  Forall byte_ok file -> blen file = end_ -> end_ <= UINT32_MAX ->
  Z.of_nat (length outs) < LC32_MAX_MACH_O_SLICES ->
  chained (header_bytes (S (length outs))) (outs ++ [shim]) end_ ->
  sub file 0 (header_bytes (S (length outs))) = fat_header (outs ++ [shim]) ->
  Forall2 (reads_as file (header_bytes (S (length outs)))) (shim :: outs) ss ->
  (forall i j a b, (i < j)%nat -> (shim :: outs) !! i = Some a -> (shim :: outs) !! j = Some b ->
     os_cpuType a <> os_cpuType b \/ os_cpuSubtype a <> os_cpuSubtype b) ->
  LC32MachOImageParseFD (file_reader file) true (Some (blen file)) =
  Done (mkImage (zip_with finished (shim :: outs) ss) (blen file) true false true).
Proof.
  intros Hb Hl Hmax Hn Hc Hh Hr Hd. destruct (header_parts outs shim) as (P1 & P2 & P3 & P4).
  set (n := S (length outs)) in *. unfold LC32_MAX_MACH_O_SLICES in *.
  assert (header_bytes n = 8 + Z.of_nat n * 20) as Hhb by done.
  assert (header_bytes n <= blen file) as Hle.
  { destruct (chained_ends _ _ _ (length outs) shim Hc) as [[] ?];
      [by rewrite list_lookup_middle|]. lia. }
  assert (forall x m, 0 <= x -> 0 <= m -> x + m <= header_bytes n ->
    sub file x m = sub (fat_header (outs ++ [shim])) x m) as Hsub.
  { intros. rewrite <- Hh, sub_sub by lia. done. }
  unfold LC32MachOImageParseFD. cbn [negb reject_if or_reject mbind outcome_bind].
  rewrite (proj2 (Z.leb_gt (blen file) 0)) by lia. cbn [reject_if mbind outcome_bind].
  rewrite file_reader_in by lia. cbn [or_reject mbind outcome_bind].
  rewrite Hsub, P2 by lia. 
  change (u32_at (le_bytes 4 (OSSwapInt32 FAT_MAGIC)) 0) with (Done (E := MachOError) FAT_CIGAM).
  cbn [mbind outcome_bind]. change ((FAT_CIGAM =? FAT_MAGIC) || _ || _ || _) with true. cbv iota.
  unfold LC32MachOParseFat. change fat_header_size with 8.
  rewrite (proj2 (Z.ltb_ge (blen file) 8)) by lia. cbn [reject_if mbind outcome_bind].
  rewrite file_reader_in by lia. cbn [or_reject mbind outcome_bind].
  change ((FAT_CIGAM =? FAT_MAGIC_64) || (FAT_CIGAM =? FAT_CIGAM_64)) with false.
  change ((FAT_CIGAM =? FAT_CIGAM) || _) with true. cbv zeta iota.
  rewrite (swapped_field _ 4 (Z.of_nat n)).
  2-3: rewrite ?blen_sub; lia. 2: unfold U32_MOD; lia.
  2:{ rewrite sub_sub by lia. by rewrite Hsub by lia. }
  cbn [mbind outcome_bind].
  rewrite (proj2 (Z.eqb_neq (Z.of_nat n) 0)), (proj2 (Z.ltb_ge LC32_MAX_MACH_O_SLICES _))
    by (unfold LC32_MAX_MACH_O_SLICES; lia).
  cbn [orb reject_if mbind outcome_bind]. change fat_arch_size with 20.
  rewrite (proj2 (Z.ltb_ge ((blen file - 8) / 20) _)) by (apply Z.div_le_lower_bound; lia).
  cbn [orb reject_if mbind outcome_bind]. rewrite Nat2Z.id, <- Hhb.
  pose proof (parse_fat_slices_reads file Hb (header_bytes n) ltac:(lia) ltac:(lia)
    (shim :: outs) ss [] []) as HP.
  cbn [zip_with app length] in HP. fold n in HP. unfold n at 2 in HP.
  change (S (length outs)) with n in HP. rewrite HP; [done|constructor|done| |].
  - intros i j a b Hij Hi Hj. split; [by apply (Hd i j)|].
    destruct j as [|j]; [lia|]. cbn in Hj. destruct i as [|i]; cbn in Hi.
    + simplify_eq. right. eapply (chained_apart _ _ _ j (length outs)); [exact Hc|
        by apply lookup_lt_Some in Hj|by apply lookup_app_l_Some|by rewrite list_lookup_middle].
    + left. eapply (chained_apart _ _ _ i j); [exact Hc|lia|by apply lookup_app_l_Some..].
  - intros i o Hi. pose proof (lookup_lt_Some _ _ _ Hi) as Hlt. cbn [length] in Hlt.
    unfold fat_header_size, fat_arch_size in *. rewrite Hsub by lia. split; [by apply P4|lia].
Qed.



Section write.
Context (src : list Z) (preads : nat -> nat -> nat -> Z -> Z -> pread_result)
  (header_pwrite : nat -> Z -> Z -> pwrite_result)
  (pwrites : nat -> nat -> nat -> Z -> Z -> pwrite_result) (io_fuel : nat).
Context `{!forall i k, Pread src (preads i k), !forall i k, Pwrite (pwrites i k),
  !Pwrite header_pwrite}.
Context (Hsrc : Forall byte_ok src).

(** A slice whose source and replacement consist of bytes. *)
Record source_bytes (o : LC32OutputSlice) : Prop := {
  sb_ok : output_ok src o;
  sb_source bs : os_sourceBytes o = Some bs -> Forall byte_ok bs;
  sb_replacement r : os_replacementBytes o = Some r -> Forall byte_ok r
}.

Lemma content_bytes o : source_bytes o -> Forall byte_ok (slice_content src o).
Proof.
  intros [_ H1 H2]. unfold slice_content, slice_base.
  assert (Forall byte_ok (match os_sourceBytes o with
    | Some bs => sub bs 0 (os_size o) | None => sub src (os_sourceOffset o) (os_size o) end)).
  { destruct (os_sourceBytes o) as [bs|]; apply Forall_sub; [by apply H1|done]. }
  destruct (os_replacementBytes o) as [r|]; [|done].
  apply Forall_splice; [done|]. by apply Forall_sub, H2.
Qed.

Lemma copy_done_ok o dest file k file' :
  LC32CopyOutputSliceToFD (preads k) (pwrites k) io_fuel o dest LC32_COPY_BUFFER_SIZE file =
    (IoDone tt, file') -> replacement_ok o = true.
Proof. unfold LC32CopyOutputSliceToFD. by destruct (replacement_ok o). Qed.

(** Copying the chained slices fills their places and nothing else. *)
Lemma copy_outputs_ok outs index start end_ file file' :
  Forall source_bytes outs -> chained start outs end_ -> 0 <= start -> end_ <= blen file ->
  Forall byte_ok file ->
  copy_outputs preads pwrites io_fuel index outs file = (IoDone tt, file') ->
  blen file' = blen file /\ Forall byte_ok file' /\
  (forall x n, 0 <= x -> 0 <= n -> x + n <= start -> sub file' x n = sub file x n) /\
  Forall (fun o => replacement_ok o = true /\
    sub file' (os_outputOffset o) (os_size o) = slice_content src o) outs.
Proof.
  intros Ho. revert index start file. induction Ho as [|o outs Hb Ho IH];
    intros index start file Hc Hs Hl HB; cbn [copy_outputs].
  { intros [= <-]. split; [done|]. split; [done|]. by split. }
  destruct (chained_ends start (o :: outs) end_ 0 o Hc eq_refl) as [[L1 _ _ [L2 _]] Hend].
  destruct Hc as [_ Hc].
  destruct (LC32CopyOutputSliceToFD _ _ _ _ _ _ _) as [[[]|e|] file1] eqn:E; [|done..].
  pose proof (copy_done_ok _ _ _ _ _ E) as Hr.
  assert (file1 = splice file (os_outputOffset o) (slice_content src o)) as ->.
  { eapply (copy_slice_ok src o (sb_ok o Hb)); [..|exact E]; done || lia. }
  pose proof (content_length src o (sb_ok o Hb) Hr) as HL. intros Hcopy.
  assert (blen (splice file (os_outputOffset o) (slice_content src o)) = blen file) as HF
    by (apply blen_splice; lia).
  assert (Forall byte_ok (splice file (os_outputOffset o) (slice_content src o))) as HB'
    by (apply Forall_splice; [done|by apply content_bytes]).
  rewrite <- HF in Hl.
  destruct (IH (S index) (os_outputOffset o + os_size o) _ Hc ltac:(lia) Hl HB' Hcopy)
    as (I1 & I2 & I3 & I4).
  split; [lia|]. split; [done|]. split.
  - intros x n ? ? ?. rewrite I3 by lia. apply sub_splice_before; lia.
  - constructor; [|done]. split; [done|]. rewrite I3 by lia. rewrite <- HL.
    apply sub_splice_same; lia.
Qed.

(** What a completed write leaves in the file. *)
Lemma write_output_ok outs shim end_ file :
  Forall source_bytes (outs ++ [shim]) ->
  chained (header_bytes (S (length outs))) (outs ++ [shim]) end_ ->
  write_output preads header_pwrite pwrites io_fuel (outs ++ [shim]) end_ = (IoDone tt, file) ->
  blen file = end_ /\ Forall byte_ok file /\
  sub file 0 (header_bytes (S (length outs))) = fat_header (outs ++ [shim]) /\
  Forall (fun o => replacement_ok o = true /\
    sub file (os_outputOffset o) (os_size o) = slice_content src o) (outs ++ [shim]).
Proof.
  intros Ho Hc. unfold write_output. destruct (header_parts outs shim) as (P1 & _).
  assert (0 <= header_bytes (S (length outs)))
    by (unfold header_bytes, fat_header_size, fat_arch_size; lia).
  assert (header_bytes (S (length outs)) <= end_) as Hle.
  { destruct (chained_ends _ _ _ (length outs) shim Hc) as [[? _ _ [? _]] ?];
      [by rewrite list_lookup_middle|]. lia. }
  pose proof (blen_zeros end_ ltac:(lia)) as LZ.
  destruct (LC32WriteAt _ _ _ _ _) as [[[]|e|] file1] eqn:E; [|done..].
  assert (file1 = splice (zeros end_) 0 (fat_header (outs ++ [shim]))) as ->.
  { eapply (write_at_done (fun _ => header_pwrite) io_fuel 0%nat); [..|exact E]; lia. }
  intros Hcopy. rewrite <- P1 in *.
  assert (Forall byte_ok (fat_header (outs ++ [shim]))) as HB.
  { unfold fat_header. apply Forall_app_2; [apply le_bytes_ok|].
    apply Forall_app_2; [apply le_bytes_ok|]. apply Forall_concat, Forall_fmap, Forall_true.
    intros o. unfold fat_arch. cbn beta. repeat apply Forall_app_2; apply le_bytes_ok. }
  apply (copy_outputs_ok _ _ (blen (fat_header (outs ++ [shim]))) end_) in Hcopy
    as (C1 & C2 & C3 & C4); try done.
  - rewrite blen_splice in C1 by lia. split; [lia|]. split; [done|]. split; [|done].
    rewrite C3 by lia. apply sub_splice_same; lia.
  - rewrite blen_splice; lia.
  - apply Forall_splice; [by apply Forall_zeros|done].
Qed.

(** ** Completion *)

(** No call fails and the fuel covers the header and every buffer. *)
Record steady_write (outs : list LC32OutputSlice) : Prop := {
  sw_header : steady_pwrite header_pwrite;
  sw_fuel : blen (fat_header outs) <= Z.of_nat io_fuel;
  sw_slices o i : o ∈ outs -> replacement_ok o = true /\
    steady src o (preads i) (pwrites i) io_fuel LC32_COPY_BUFFER_SIZE
}.

Lemma copy_outputs_complete outs index start end_ file :
  Forall source_bytes outs -> chained start outs end_ -> 0 <= start -> end_ <= INT64_MAX ->
  (forall o i, o ∈ outs -> replacement_ok o = true /\
     steady src o (preads i) (pwrites i) io_fuel LC32_COPY_BUFFER_SIZE) ->
  exists file', copy_outputs preads pwrites io_fuel index outs file = (IoDone tt, file').
Proof.
  intros Ho. revert index start file. induction Ho as [|o outs Hb Ho IH];
    intros index start file Hc Hs Hl Hst; cbn [copy_outputs]; [by eexists|].
  destruct (chained_ends start (o :: outs) end_ 0 o Hc eq_refl) as [[L1 _ _ [L2 _]] Hend].
  destruct Hc as [_ Hc]. destruct (Hst o index) as [Hr S]; [constructor|].
  destruct (copy_slice_complete src o (sb_ok o Hb) (preads index) (pwrites index) io_fuel
    (os_outputOffset o) LC32_COPY_BUFFER_SIZE file S Hr) as [file1 ->]; [done|lia|lia|].
  eapply IH; [done|lia|done|]. intros o' i Hin. apply Hst. by constructor.
Qed.

Lemma write_output_complete outs shim end_ :
  Forall source_bytes (outs ++ [shim]) ->
  chained (header_bytes (S (length outs))) (outs ++ [shim]) end_ -> end_ <= INT64_MAX ->
  steady_write (outs ++ [shim]) ->
  exists file, write_output preads header_pwrite pwrites io_fuel (outs ++ [shim]) end_ =
               (IoDone tt, file).
Proof.
  intros Ho Hc He [S1 S2 S3]. unfold write_output. destruct (header_parts outs shim) as (P1 & _).
  destruct (chained_ends _ _ _ (length outs) shim Hc) as [[? _ _ [? _]] ?];
    [by rewrite list_lookup_middle|].
  destruct (write_at_complete header_pwrite io_fuel (fat_header (outs ++ [shim])) 0 (zeros end_) S1)
    as [file ->]; [lia|lia|done|].
  eapply copy_outputs_complete; [done|done| |done|done].
  unfold header_bytes, fat_header_size, fat_arch_size. lia.
Qed.
End write.

(** ** The build version of the shim *)

(** Patching succeeds on the bytes that were parsed, and changes the two version
    fields only. *)
Lemma patch_build_version_ok shimBytes s requestedSDK :
  Forall byte_ok shimBytes -> isByteSwapped s = false -> hasBuildVersion s = true ->
  0 <= requestedSDK < U32_MOD ->
  let a := buildVersionCommandOffset s in
  0 <= a -> a + build_version_command_size <= blen shimBytes ->
  value32 false shimBytes a = LC_BUILD_VERSION ->
  build_version_command_size <= value32 false shimBytes (a + 4) ->
  value32 false shimBytes (a + 8) = buildVersionPlatform s ->
  value32 false shimBytes (a + 12) = buildVersionMinOS s ->
  value32 false shimBytes (a + 16) = buildVersionSDK s ->
  exists R, LC32PatchShimBuildVersion shimBytes (blen shimBytes) s requestedSDK = Done R /\
    blen R = blen shimBytes /\
    value32 false R (a + 12) = LC32_IOS_11_VERSION /\ value32 false R (a + 16) = requestedSDK /\
    (forall x n, 0 <= x -> 0 <= n -> x + n <= a + 12 \/ a + 20 <= x -> sub R x n = sub shimBytes x n).
Proof.
  intros HB Hsw Hbv Hq a Ha Hl V0 V4 V8 V12 V16. unfold build_version_command_size in *.
  unfold LC32PatchShimBuildVersion. fold a. cbv zeta. rewrite Hsw, Hbv. unfold build_version_command_size.
  rewrite (proj2 (Z.ltb_ge (blen shimBytes) a)), (proj2 (Z.ltb_ge (blen shimBytes - a) 24)) by lia.
  cbn [negb orb reject_if mbind outcome_bind].
  rewrite fetch_in_buf by lia. cbn [mbind outcome_bind].
  assert (blen (sub shimBytes a 24) = 24) as L0 by (apply blen_sub; lia).
  assert (forall E x, 0 <= x -> x + 4 <= 24 ->
    u32_at (E := E) (sub shimBytes a 24) x = Done (value32 false shimBytes (a + x))) as HR.
  { intros. unfold u32_at. rewrite fetch_in_buf by lia. cbn. unfold value32, LC32MachOConvertUInt32.
    by rewrite sub_sub by lia. }
  rewrite !HR by lia. cbn [mbind outcome_bind]. rewrite Z.add_0_r.
  rewrite V0, V8, V12, V16, !Z.eqb_refl, (proj2 (Z.ltb_ge _ 24)) by lia.
  cbn [negb orb reject_if mbind outcome_bind].
  apply succeeds_elim.
  apply succeeds_bind, (succeeds_store _ 12);
    [by apply Forall_sub|apply le_bytes_ok|lia|rewrite blen_le_bytes; lia|].
  intros C1 L1 F1 S1 O1. rewrite blen_le_bytes in *. change (Z.of_nat 4) with 4 in *.
  apply succeeds_bind, (succeeds_store _ 16); [done|apply le_bytes_ok|lia|rewrite blen_le_bytes; lia|].
  intros C2 L2 F2 S2 O2. rewrite blen_le_bytes in *. change (Z.of_nat 4) with 4 in *.
  apply succeeds_store; [done|done|lia|lia|]. intros R LR FR SR OR.
  assert (blen C2 = 24) as L24 by lia. rewrite L24 in *.
  assert (forall x n, 0 <= x -> 0 <= n -> x + n <= 24 -> sub R (a + x) n = sub C2 x n) as HC.
  { intros. rewrite <- SR, sub_sub by lia. done. }
  split; [done|]. unfold value32, LC32MachOConvertUInt32. split; [|split].
  - rewrite HC, O2, S1 by lia. by apply le_int_le_bytes.
  - rewrite HC, S2 by lia. by apply le_int_le_bytes.
  - assert (forall i, ~ (a + 12 <= Z.of_nat i < a + 20) -> R !! i = shimBytes !! i) as Hlook.
    { intros i Hi. destruct (decide (a <= Z.of_nat i < a + 24)) as [Hin|Hout].
      - assert (sub R (Z.of_nat i) 1 = sub shimBytes (Z.of_nat i) 1) as E1.
        { replace (Z.of_nat i) with (a + (Z.of_nat i - a)) by lia.
          rewrite HC, O2, O1, sub_sub by lia. done. }
        pose proof (f_equal (lookup 0%nat) E1) as E2. rewrite !sub_lookup in E2 by lia.
        rewrite Nat2Z.id, Nat.add_0_r in E2. done.
      - destruct (decide (Z.of_nat i < blen shimBytes)) as [Hlt|Hge].
        + assert (sub R (Z.of_nat i) 1 = sub shimBytes (Z.of_nat i) 1) as E1 by (apply OR; lia).
          pose proof (f_equal (lookup 0%nat) E1) as E2. rewrite !sub_lookup in E2 by lia.
          rewrite Nat2Z.id, Nat.add_0_r in E2. done.
        + rewrite !lookup_ge_None_2; unfold blen in *; [done|lia..]. }
    intros x n ? ? Hx. apply list_eq. intros i. unfold sub.
    destruct (decide (Z.of_nat i < n)).
    + rewrite !lookup_take_lt, !lookup_drop by lia. apply Hlook. lia.
    + rewrite !lookup_ge_None_2; [done|rewrite length_take; lia..].
Qed.
