(* ===== verification/SigningMetadata.v ===== *)
(** The identity with which the shim is signed (src/Tweak/FatMachO.c,
    [LC32ReadCodeSignatureMetadata] and [LC32CreateSigningMetadata]).

    The tweak reads the identifier, the Team ID and the XML entitlements out of
    the signatures of the shim and of every ARM slice, and merges them.
    CoreFoundation is a parameter: [parsePlist] parses a property list,
    [maximumSize] bounds the UTF-8 size of a string, and a string is given by its
    length in UTF-16 units and its UTF-8 encoding, if it has one.  A dictionary
    is a finite map from keys, as UTF-8 bytes, to values.  Allocations succeed. *)

From stdpp Require Import base list gmap.
From Stdlib Require Import ZArith Lia.
From S2P Require Import Prelude Bytes MachOImage CodeSignature.

Open Scope Z_scope.

(** ** CoreFoundation values *)

Record cf_string := mkString { cf_length : Z; cf_utf8 : option (list Z) }.

#[export] Instance cf_string_eq_dec : EqDecision cf_string.
Proof. solve_decision. Defined.

(** Values other than strings are told apart by a number. *)
Inductive cf_value : Type :=
| CFString (s : cf_string)
| CFOther (n : Z).

#[export] Instance cf_value_eq_dec : EqDecision cf_value.
Proof. solve_decision. Defined.

Abbreviation dictionary := (gmap (list Z) cf_value).

(** ASCII keys. *)
Definition team_key : list Z := (* com.apple.developer.team-identifier *)
  [99;111;109;46;97;112;112;108;101;46;100;101;118;101;108;111;112;101;114;46;116;101;97;109;45;
   105;100;101;110;116;105;102;105;101;114].
Definition application_key : list Z := (* application-identifier *)
  [97;112;112;108;105;99;97;116;105;111;110;45;105;100;101;110;116;105;102;105;101;114].
Definition container_key : list Z := (* com.apple.private.security.container-required *)
  [99;111;109;46;97;112;112;108;101;46;112;114;105;118;97;116;101;46;115;101;99;117;114;105;116;
   121;46;99;111;110;116;97;105;110;101;114;45;114;101;113;117;105;114;101;100].
(** T8ALTGMVXN. *)
Definition fallback_team : list Z := [84;56;65;76;84;71;77;86;88;78].

(** A string of ASCII characters. *)
Definition ascii_string (s : list Z) : cf_string := mkString (blen s) (Some s).

Inductive MetadataError : Type :=
| MetaSignatureRange | MetaOffsetOverflow | MetaUnreadable | MetaMalformed
| MetaBlobOffset (index : Z) | MetaBlobLength (index : Z) | MetaOverlap
| MetaBadDirectory | MetaBadVersion | MetaTruncatedDirectory | MetaHashType
| MetaIdentifierOffset | MetaIdentifierLength | MetaIdentifierConflict
| MetaTeamOffset | MetaTeamLength | MetaTeamConflict
| MetaBadEntitlements | MetaNotADictionary | MetaNoDirectory
| SignBundleIdentifier | SignBundleEncoding | SignNoSignature | SignEntitlementConflict
| SignIdentifierConflict | SignNotAString | SignStringLength | SignEncoding | SignPrefixEncoding
| SignIdentifierTooLong.

Record LC32CodeSignatureMetadata := mkMetadata {
  md_hasCodeSignature : bool;
  md_identifier : option (list Z);
  md_teamIdentifier : option (list Z);
  md_entitlements : dictionary
}.

(** The state of the loop over the blobs. *)
Record metadata_state := mkMetaState {
  ms_ranges : list (Z * Z);
  ms_directories : Z;
  ms_foundEntitlements : bool;
  ms_rank : Z;
  ms_identifier : option (list Z);
  ms_team : option (list Z);
  ms_entitlements : dictionary
}.

Definition initial_metadata : metadata_state := mkMetaState [] 0 false 0 None None ∅.

Section metadata.
  Variable parsePlist : list Z -> option dictionary.
  Variable maximumSize : Z -> Z.

(** ** Reading a signature *)

(** A string of a directory at [off]: the bytes before its terminator. *)
Definition directory_text (blob : list Z) (headerSize blobLength off : Z)
    (badOffset badLength : MetadataError) : outcome MetadataError (list Z) :=
  _ ← reject_if ((off <? headerSize) || (blobLength <=? off)) badOffset;
  text ← fetch blob off (blobLength - off);
  n ← or_reject (find_zero text) badLength;
  _ ← reject_if ((n =? 0) || (LC32_MAX_SIGNING_STRING_SIZE <=? n)) badLength;
  mret (sub text 0 n).

(** [metadata->x != NULL && strcmp(metadata->x, y) != 0]. *)
Definition conflicts (old : option (list Z)) (new : list Z) : bool :=
  match old with Some s => bool_decide (s <> new) | None => false end.

Definition read_directory (blob : list Z) (blobMagic blobLength : Z) (st : metadata_state)
    : outcome MetadataError metadata_state :=
  _ ← reject_if (negb (blobMagic =? LC32_CS_MAGIC_CODE_DIRECTORY) ||
                 (blobLength <? cd_spare2 + 4)) MetaBadDirectory;
  hashType ← u8_at blob cd_hashType;
  version ← be32_at blob cd_version;
  _ ← reject_if ((version <? LC32_CS_EARLIEST_CODE_DIRECTORY_VERSION) || (0x20600 <? version))
        MetaBadVersion;
  let headerSize := LC32CodeDirectoryHeaderSize version in
  _ ← reject_if (blobLength <? headerSize) MetaTruncatedDirectory;
  let rank := LC32CodeDirectoryRank hashType in
  _ ← reject_if (rank =? 0) MetaHashType;
  identifierOffset ← be32_at blob cd_identOffset;
  '(identifier, best) ←
     (if identifierOffset =? 0 then mret (ms_identifier st, ms_rank st)
      else
        text ← directory_text blob headerSize blobLength identifierOffset MetaIdentifierOffset
                 MetaIdentifierLength;
        _ ← reject_if (conflicts (ms_identifier st) text) MetaIdentifierConflict;
        mret (if bool_decide (ms_identifier st = None) || (ms_rank st <? rank)
              then (Some text, rank) else (ms_identifier st, ms_rank st)));
  teamOffset ← (if version <? 0x20200 then mret 0 else be32_at blob cd_teamOffset);
  team ←
     (if teamOffset =? 0 then mret (ms_team st)
      else
        text ← directory_text blob headerSize blobLength teamOffset MetaTeamOffset MetaTeamLength;
        _ ← reject_if (conflicts (ms_team st) text) MetaTeamConflict;
        mret (match ms_team st with None => Some text | Some t => Some t end));
  mret (mkMetaState (ms_ranges st) (ms_directories st + 1) (ms_foundEntitlements st) best
          identifier team (ms_entitlements st)).

Definition read_entitlements (blob : list Z) (blobMagic blobLength : Z) (st : metadata_state)
    : outcome MetadataError metadata_state :=
  _ ← reject_if (ms_foundEntitlements st ||
                 negb (blobMagic =? LC32_CS_MAGIC_EMBEDDED_ENTITLEMENTS) ||
                 (blobLength =? generic_blob_size)) MetaBadEntitlements;
  bytes ← fetch blob generic_blob_size (blobLength - generic_blob_size);
  entitlements ← or_reject (parsePlist bytes) MetaNotADictionary;
  mret (mkMetaState (ms_ranges st) (ms_directories st) true (ms_rank st) (ms_identifier st)
          (ms_team st) entitlements).

(** The blob overlaps one of the blobs before it. *)
Definition overlaps (off len : Z) (ranges : list (Z * Z)) : bool :=
  existsb (fun '(o, n) => (off <? u32 (o + n)) && (o <? u32 (off + len))) ranges.

Fixpoint read_blobs (signature : list Z) (signatureLength indexBytes : Z) (n : nat)
    (st : metadata_state) : outcome MetadataError metadata_state :=
  match n with
  | O => mret st
  | S m =>
      let index := Z.of_nat (length (ms_ranges st)) in
      let encodedIndex := super_blob_size + index * blob_index_size in
      t ← be32_at signature encodedIndex;
      blobOffset ← be32_at signature (encodedIndex + 4);
      _ ← reject_if ((blobOffset <? indexBytes) ||
                     negb (LC32RangeFits blobOffset generic_blob_size signatureLength))
            (MetaBlobOffset index);
      blobMagic ← be32_at signature blobOffset;
      blobLength ← be32_at signature (blobOffset + 4);
      _ ← reject_if ((blobLength <? generic_blob_size) ||
                     negb (LC32RangeFits blobOffset blobLength signatureLength))
            (MetaBlobLength index);
      _ ← reject_if (overlaps blobOffset blobLength (ms_ranges st)) MetaOverlap;
      let blob := drop (Z.to_nat blobOffset) signature in
      let st := mkMetaState (ms_ranges st ++ [(blobOffset, blobLength)]) (ms_directories st)
                  (ms_foundEntitlements st) (ms_rank st) (ms_identifier st) (ms_team st)
                  (ms_entitlements st) in
      st ← (if LC32CodeSignatureTypeIsCodeDirectory t then read_directory blob blobMagic blobLength st
            else if t =? LC32_CS_SLOT_ENTITLEMENTS then
              read_entitlements blob blobMagic blobLength st
            else mret st);
      read_blobs signature signatureLength indexBytes m st
  end.

(** [readAt offset size] reads the file of the slice. *)
Definition LC32ReadCodeSignatureMetadata (readAt : Z -> Z -> option (list Z))
    (slice : LC32MachOSlice) : outcome MetadataError LC32CodeSignatureMetadata :=
  if negb (hasCodeSignature slice) then mret (mkMetadata false None None ∅)
  else
    let capacity := codeSignatureSize slice in
    _ ← reject_if ((size slice <? codeSignatureOffset slice) ||
                   (size slice - codeSignatureOffset slice <? capacity) ||
                   (capacity <? super_blob_size) || (LC32_MAX_CODE_SIGNATURE_SIZE <? capacity))
          MetaSignatureRange;
    signatureFileOffset ← or_reject (LC32AddUInt64 (offset slice) (codeSignatureOffset slice))
                            MetaOffsetOverflow;
    signature ← or_reject (readAt signatureFileOffset capacity) MetaUnreadable;
    magic ← be32_at signature 0;
    signatureLength ← be32_at signature 4;
    blobCount ← be32_at signature 8;
    _ ← reject_if (negb (magic =? LC32_CS_MAGIC_EMBEDDED_SIGNATURE) ||
                   (signatureLength <? super_blob_size) || (capacity <? signatureLength) ||
                   (blobCount =? 0) || (LC32_MAX_CODE_SIGNATURE_BLOBS <? blobCount)) MetaMalformed;
    indexBytes ← or_reject (LC32AddUInt64 super_blob_size (blobCount * blob_index_size))
                   MetaMalformed;
    _ ← reject_if (signatureLength <? indexBytes) MetaMalformed;
    st ← read_blobs signature signatureLength indexBytes (Z.to_nat blobCount) initial_metadata;
    _ ← reject_if (ms_directories st =? 0) MetaNoDirectory;
    mret (mkMetadata true (ms_identifier st) (ms_team st) (ms_entitlements st)).

(** ** Strings *)

(** The bytes CFStringGetBytes writes: all of them, or fewer characters than the
    string has when it has no encoding. *)
Definition encode (s : cf_string) : option (list Z) :=
  match cf_utf8 s with
  | Some bs => if (blen bs <=? 0) || bool_decide (0 ∈ bs) then None else Some bs
  | None => None
  end.

Definition string_size_ok (s : cf_string) : bool :=
  negb (cf_length s =? 0) && (0 <=? maximumSize (cf_length s)) &&
  (maximumSize (cf_length s) + 1 <=? LC32_MAX_SIGNING_STRING_SIZE).

Definition LC32CopyCFStringUTF8 (value : option cf_value) : outcome MetadataError (list Z) :=
  match value with
  | Some (CFString s) =>
      _ ← reject_if (negb (string_size_ok s)) SignStringLength;
      or_reject (encode s) SignEncoding
  | _ => Reject SignNotAString
  end.

(** The prefix of the application identifier before ".bundle identifier". *)
Definition LC32CopyTeamIdentifierFromApplicationIdentifier (entitlements : dictionary)
    (bundleIdentifier : list Z) : option (list Z) :=
  match entitlements !! application_key with
  | Some (CFString s) =>
      if string_size_ok s then
        match encode s with
        | Some app =>
            if blen bundleIdentifier + 1 <? blen app then
              let separatorIndex := blen app - blen bundleIdentifier - 1 in
              if bool_decide (sub app separatorIndex 1 = [46]) &&
                 bool_decide (sub app (separatorIndex + 1) (blen bundleIdentifier) =
                              bundleIdentifier)
              then Some (sub app 0 separatorIndex) else None
            else None
        | None => None
        end
      else None
  | _ => None
  end.

(** [LC32OverlayEntitlements]: the entries of [source] replace those of
    [destination]. *)
Definition LC32OverlayEntitlements (destination source : dictionary) : dictionary :=
  source ∪ destination.

(** The loop over the target's slices. *)
Fixpoint read_targets (l : list (outcome MetadataError LC32CodeSignatureMetadata))
    (first : option dictionary) (identifier : option (list Z))
    : outcome MetadataError (option dictionary * option (list Z)) :=
  match l with
  | [] => mret (first, identifier)
  | m :: rest =>
      md ← m;
      first ← (match first with
               | None => mret (md_entitlements md)
               | Some d =>
                   _ ← reject_if (bool_decide (d <> md_entitlements md)) SignEntitlementConflict;
                   mret d
               end);
      identifier ←
        (match md_identifier md with
         | None => mret identifier
         | Some i =>
             _ ← reject_if (conflicts identifier i) SignIdentifierConflict;
             mret (match identifier with None => Some i | Some j => Some j end)
         end);
      read_targets rest (Some first) identifier
  end.

(** [bundleString]: the bundle identifier as a string, if it is valid UTF-8;
    [textString] makes a string of bytes.  The results of the reads are given by
    [shim] and [targets]. *)
Definition LC32CreateSigningMetadata (bundleIdentifier : list Z)
    (textString : list Z -> option cf_string)
    (shim : outcome MetadataError LC32CodeSignatureMetadata)
    (targets : list (outcome MetadataError LC32CodeSignatureMetadata))
    : outcome MetadataError (dictionary * list Z * list Z) :=
  _ ← reject_if ((blen bundleIdentifier =? 0) ||
                 (LC32_MAX_SIGNING_STRING_SIZE <=? blen bundleIdentifier)) SignBundleIdentifier;
  bundleIdentifierString ← or_reject (textString bundleIdentifier) SignBundleEncoding;
  shimMetadata ← shim;
  _ ← reject_if (negb (md_hasCodeSignature shimMetadata)) SignNoSignature;
  let merged := md_entitlements shimMetadata in
  '(first, targetIdentifier) ← read_targets targets None None;
  let merged := match first with
                | Some d => LC32OverlayEntitlements merged d | None => merged end in
  teamValue ←
    (match first ≫= (fun d => d !! team_key) with
     | Some v => mret v
     | None =>
         match first ≫= (fun d => LC32CopyTeamIdentifierFromApplicationIdentifier d bundleIdentifier) with
         | Some derived => s ← or_reject (textString derived) SignPrefixEncoding; mret (CFString s)
         | None => mret (CFString (ascii_string fallback_team))
         end
     end);
  let merged := <[team_key := teamValue]> merged in
  teamIdentifier ← LC32CopyCFStringUTF8 (Some teamValue);
  let merged := <[container_key := CFString bundleIdentifierString]> merged in
  finalIdentifier ←
    (match targetIdentifier with
     | Some i => mret i
     | None =>
         _ ← reject_if (LC32_MAX_SIGNING_STRING_SIZE <?
                          blen teamIdentifier + blen bundleIdentifier + 2) SignIdentifierTooLong;
         mret (teamIdentifier ++ [46] ++ bundleIdentifier)
     end);
  mret (merged, finalIdentifier, teamIdentifier).

End metadata.
