(* ===== verification/SigningMetadataProps.v ===== *)
(** Reading the signing metadata is memory safe, and the metadata for the shim is
    merged by the intended precedence and is fit for the signature rewriter. *)

From stdpp Require Import base list gmap.
From Stdlib Require Import ZArith Lia.
From S2P Require Import Prelude Bytes MachOImage MachOImageProps CodeSignature.
From S2P Require Import CodeSignatureProps CodeDirectoryProps SigningMetadata.

Open Scope Z_scope.

(** A string of a signature: not empty, no terminator inside, bounded. *)
Record signing_string (s : list Z) : Prop := {
  ss_bytes : Forall byte_ok s;
  ss_nonzero : Forall (fun c => c <> 0) s;
  ss_length : 1 <= blen s < LC32_MAX_SIGNING_STRING_SIZE
}.

Definition all_strings (o : option (list Z)) : Prop := forall s, o = Some s -> signing_string s.

Lemma find_zero_prefix bs i : find_zero bs = Some i -> Forall (fun c => c <> 0) (sub bs 0 i).
Proof.
  intros H. apply find_zero_spec in H as (_ & _ & <-).
  clear i. induction bs as [|b bs IH]; cbn; [done|]. destruct (b =? 0) eqn:E; zb; [done|].
  by constructor.
Qed.

Section reading.
Context (parsePlist : list Z -> option dictionary).
Context (blob : list Z) (Hblob : Forall byte_ok blob) (blobLength : Z)
  (Hlen : 0 <= blobLength <= blen blob).

Lemma directory_text_safe h off e1 e2 :
  0 <= h -> safe (directory_text blob h blobLength off e1 e2) signing_string.
Proof.
  intros Hh. unfold directory_text. do 2 safe_step. safe_step. apply safe_fetch; [lia..|].
  set (text := sub blob off (blobLength - off)).
  assert (blen text = blobLength - off) as HL by (apply blen_sub; lia).
  do 2 safe_step. match goal with H : find_zero _ = _ |- _ => pose proof H as Hz end.
  apply find_zero_prefix in Hz. match goal with H : find_zero _ = _ |- _ =>
    apply find_zero_spec in H as (Hr & _ & _) end.
  do 2 safe_step. safe_step. unfold LC32_MAX_SIGNING_STRING_SIZE in *.
  split; [by apply Forall_sub, Forall_sub|done|].
  rewrite blen_sub by lia. unfold LC32_MAX_SIGNING_STRING_SIZE. lia.
Qed.

(** What the loop keeps: the strings found so far are well formed. *)
Definition state_ok (st : metadata_state) : Prop :=
  all_strings (ms_identifier st) /\ all_strings (ms_team st).

Lemma read_directory_safe m st :
  state_ok st -> safe (read_directory blob m blobLength st) (fun st' =>
    state_ok st' /\ ms_ranges st' = ms_ranges st /\
    (ms_identifier st = ms_identifier st' \/ ms_identifier st = None) /\
    (ms_team st = ms_team st' \/ ms_team st = None) /\ ms_entitlements st' = ms_entitlements st).
Proof.
  intros [Hi Ht]. unfold read_directory. do 2 safe_step. unfold cd_spare2 in *.
  assert (covers blob 0) as Hc by (unfold covers; change (44 <= blen blob); lia).
  do 2 cd_read. do 2 safe_step. set (v := be32 blob cd_version) in *. cbv zeta.
  pose proof (header_size_range v) as Hh. do 2 safe_step. clear Hc.
  assert (covers blob v) as Hc by (unfold covers; lia). do 2 safe_step. cd_read. safe_step.
  eapply (safe_mono _ (fun r => all_strings r.1 /\
    (ms_identifier st = r.1 \/ ms_identifier st = None))).
  { safe_step; [split; [done|by left]|]. safe_step.
    eapply safe_mono; [apply directory_text_safe; lia|].
    intros text Htext. do 2 safe_step. safe_step. case_match; cbn; [|by split; [|left]].
    split; [by intros ? [= <-]|].
    destruct (ms_identifier st) as [i|] eqn:Ei; [left|by right].
    cbn in *. by destruct (decide (i = text)) as [-> |]; [|
      rewrite bool_decide_eq_true_2 in *]. }
  intros [identifier best] [Hid Hor]. cbn in Hid, Hor.
  assert ((if v <? 0x20200 then mret 0 else be32_at (E := MetadataError) blob cd_teamOffset) =
    Done (since 0x20200 v (be32 blob cd_teamOffset))) as ->.
  { unfold since. destruct (v <? 0x20200) eqn:E1, (0x20200 <=? v) eqn:E2; zb; try lia; [done|].
    pose proof (header_size_mono 0x20200 v E2) as Hm.
    change (LC32CodeDirectoryHeaderSize 0x20200) with 52 in Hm. unfold cd_teamOffset.
    apply be32_at_in_buf; lia. }
  bind_done. safe_step.
  eapply (safe_mono _ (fun r => all_strings r /\ (ms_team st = r \/ ms_team st = None))).
  { safe_step; [split; [done|by left]|]. safe_step.
    eapply safe_mono; [apply directory_text_safe; lia|].
    intros text Htext. do 2 safe_step. safe_step. destruct (ms_team st); cbn; [by split; [|left]|].
    split; [by intros ? [= <-]|by right]. }
  intros team [Hteam Hor']. safe_step. by split.
Qed.

Lemma read_entitlements_safe m st :
  8 <= blobLength ->
  state_ok st -> safe (read_entitlements parsePlist blob m blobLength st) (fun st' =>
    state_ok st' /\ ms_ranges st' = ms_ranges st /\
    (ms_identifier st = ms_identifier st' \/ ms_identifier st = None) /\
    (ms_team st = ms_team st' \/ ms_team st = None)).
Proof.
  intros Hl Hs. unfold read_entitlements, generic_blob_size. do 2 safe_step. safe_step.
  apply safe_fetch; [lia..|]. do 3 safe_step. split; [done|]. split; [done|]. by split; left.
Qed.
End reading.

Section metadata.
Context (parsePlist : list Z -> option dictionary).

Lemma read_blobs_safe signature signatureLength indexBytes n st :
  Forall byte_ok signature -> signatureLength <= blen signature ->
  0 <= indexBytes <= signatureLength ->
  super_blob_size + (Z.of_nat (length (ms_ranges st)) + Z.of_nat n) * blob_index_size <= indexBytes ->
  state_ok st ->
  safe (read_blobs parsePlist signature signatureLength indexBytes n st) state_ok.
Proof.
  unfold super_blob_size, blob_index_size. intros Hb Hs Hi. revert st.
  induction n as [|n IH]; intros st He Hst; cbn [read_blobs]; [done|].
  cbv zeta. unfold super_blob_size, blob_index_size.
  safe_step. apply safe_be32_at; [done|lia..|]. intros _.
  safe_step. apply safe_be32_at; [done|lia..|]. intros Ho.
  safe_step. safe_step. match goal with H : LC32RangeFits _ _ _ = true |- _ =>
    apply sig_range_fits in H end. unfold generic_blob_size in *.
  set (off := be32 signature (12 + Z.of_nat (length (ms_ranges st)) * 8 + 4)) in *.
  safe_step. apply safe_be32_at; [done|lia..|]. intros _.
  safe_step. apply safe_be32_at; [done|lia..|]. intros Hl.
  safe_step. safe_step. match goal with H : LC32RangeFits _ _ _ = true |- _ =>
    apply sig_range_fits in H end. safe_step. safe_step. safe_step.
  set (blob := drop (Z.to_nat off) signature). set (st1 := mkMetaState _ _ _ _ _ _ _).
  assert (Forall byte_ok blob) as Hbb by (by apply Forall_drop).
  assert (0 <= be32 signature (off + 4) <= blen blob) as Hbl.
  { unfold blob, blen in *. rewrite length_drop. lia. }
  assert (state_ok st1) as Hst1 by done.
  eapply (safe_mono _ (fun st' => state_ok st' /\ ms_ranges st' = ms_ranges st1)).
  { destruct (LC32CodeSignatureTypeIsCodeDirectory _).
    - eapply safe_mono; [by apply read_directory_safe|]. naive_solver.
    - destruct (_ =? LC32_CS_SLOT_ENTITLEMENTS); [|done].
      eapply safe_mono; [apply read_entitlements_safe; done || lia|]. naive_solver. }
  intros st2 [Hst2 Er]. apply IH; [|done]. rewrite Er. cbn [ms_ranges st1].
  rewrite length_app. cbn [length]. lia.
Qed.

(** Reading the metadata stays inside the signature, and the strings it returns
    are well formed. *)
Lemma read_metadata_safe readAt slice :
  (forall off n bs, readAt off n = Some bs -> blen bs = n /\ Forall byte_ok bs) ->
  safe (LC32ReadCodeSignatureMetadata parsePlist readAt slice) (fun md =>
    md_hasCodeSignature md = hasCodeSignature slice /\
    all_strings (md_identifier md) /\ all_strings (md_teamIdentifier md)).
Proof.
  intros Hr. unfold LC32ReadCodeSignatureMetadata. safe_step; [by safe_step|]. cbv zeta.
  unfold super_blob_size, blob_index_size. do 6 safe_step.
  match goal with H : readAt _ _ = Some _ |- _ => apply Hr in H as [HL HB] end.
  safe_step. apply safe_be32_at; [done|lia..|]. intros _.
  safe_step. apply safe_be32_at; [done|lia..|]. intros _.
  safe_step. apply safe_be32_at; [done|lia..|]. intros Hn.
  do 4 safe_step. unfold LC32_MAX_CODE_SIGNATURE_BLOBS in *.
  match goal with H : LC32AddUInt64 12 _ = Some _ |- _ => apply add_uint64 in H as [-> _] end;
    [|lia..].
  do 3 safe_step. eapply safe_mono; [apply read_blobs_safe; unfold super_blob_size, blob_index_size|].
  - done.
  - lia.
  - lia.
  - cbn [length ms_ranges initial_metadata]. lia.
  - by split.
  - intros st [? ?]. do 3 safe_step. by split_and!.
Qed.
End metadata.

(** ** Merging *)

(** The entitlements of the targets, which all agree; [None] without target. *)
Definition target_entitlements (mds : list LC32CodeSignatureMetadata) : option dictionary :=
  md_entitlements <$> head mds.

(** The identifier the targets agree on. *)
Definition target_identifier (mds : list LC32CodeSignatureMetadata) : option (list Z) :=
  head (omap md_identifier mds).

(** The slices agree on entitlements and identifier. *)
Definition targets_agree (mds : list LC32CodeSignatureMetadata) : Prop :=
  (forall md, md ∈ mds -> target_entitlements mds = Some (md_entitlements md)) /\
  (forall md i, md ∈ mds -> md_identifier md = Some i -> target_identifier mds = Some i).

Definition or_first {A} (a b : option A) : option A :=
  match a with Some x => Some x | None => b end.

Lemma read_targets_spec l first identifier r :
  read_targets l first identifier = Done r ->
  exists mds, l = Done <$> mds /\
    r = (or_first first (target_entitlements mds), or_first identifier (target_identifier mds)) /\
    (forall md, md ∈ mds -> or_first first (target_entitlements mds) = Some (md_entitlements md)) /\
    (forall md i, md ∈ mds -> md_identifier md = Some i ->
       or_first identifier (target_identifier mds) = Some i).
Proof.
  revert first identifier. induction l as [|m l IH]; intros first identifier; cbn [read_targets].
  { intros [= <-]. exists []. split; [done|]. split; [by destruct first, identifier|].
    split; intros; by match goal with H : _ ∈ [] |- _ => inversion H end. }
  destruct m as [md| |]; [|done..]. cbn [mbind outcome_bind].
  destruct (match first with None => _ | Some d => _ end) as [d| |] eqn:Ef; [|done..].
  cbn [mbind outcome_bind].
  assert (d = md_entitlements md /\ or_first first (Some (md_entitlements md)) = Some d) as [Ed Ef'].
  { destruct first as [d'|]; [|by injection Ef as <-].
    destruct (bool_decide _) eqn:E; [done|]. injection Ef as <-.
    apply bool_decide_eq_false in E. split; [by apply dec_stable|done]. }
  destruct (match md_identifier md with None => _ | Some i => _ end) as [j| |] eqn:Ej; [|done..].
  cbn [mbind outcome_bind].
  assert (j = or_first identifier (md_identifier md) /\
    forall i, md_identifier md = Some i -> j = Some i) as [Ej' Hj].
  { destruct (md_identifier md) as [i|]; [|injection Ej as <-; by destruct identifier].
    destruct identifier as [i'|]; [|injection Ej as <-; naive_solver].
    unfold conflicts in Ej. destruct (bool_decide _) eqn:E; [done|]. injection Ej as <-.
    apply bool_decide_eq_false, dec_stable in E. naive_solver. }
  intros (mds & -> & -> & H1 & H2)%IH. exists (md :: mds). cbn in H1.
  assert (or_first first (target_entitlements (md :: mds)) = Some d) as E1 by done.
  assert (or_first identifier (target_identifier (md :: mds)) = or_first j (target_identifier mds)) as E2.
  { rewrite Ej'. unfold target_identifier. cbn. by destruct identifier, (md_identifier md). }
  split; [done|]. rewrite E1, E2. split; [done|]. split.
  - intros md' [-> |Hin]%elem_of_cons; [by rewrite Ed|by apply H1].
  - intros md' i [-> |Hin]%elem_of_cons Hi; [by rewrite (Hj i Hi)|by apply (H2 md')].
Qed.

Section signing.
Context (maximumSize : Z -> Z) (textString : list Z -> option cf_string).

(** The UTF-8 encoding of a string has the documented maximal size. *)
Definition string_wf (s : cf_string) : Prop :=
  forall bs, cf_utf8 s = Some bs -> Forall byte_ok bs /\ blen bs <= maximumSize (cf_length s).

Definition dictionary_wf (d : dictionary) : Prop :=
  forall k s, d !! k = Some (CFString s) -> string_wf s.

(** What CoreFoundation documents. *)
Class CoreFoundation : Prop := {
  maximum_size n : 0 <= n -> n <= maximumSize n;
  text_string t s : textString t = Some s -> string_wf s /\ cf_utf8 s = Some t
}.
Context `{!CoreFoundation}.

Lemma copy_string_spec s t :
  string_wf s -> LC32CopyCFStringUTF8 maximumSize (Some (CFString s)) = Done t ->
  signing_string t /\ cf_utf8 s = Some t.
Proof.
  intros Hs. cbn [LC32CopyCFStringUTF8]. destruct (string_size_ok _ s) eqn:E; [|done].
  cbn [negb reject_if mbind outcome_bind]. unfold encode. destruct (cf_utf8 s) as [bs|] eqn:Eu; [|done].
  destruct (_ || _) eqn:E2; [done|]. cbn. intros [= <-]. destruct (Hs bs Eu) as [Hb Hl].
  apply orb_false_iff in E2 as [E3 E4]. apply bool_decide_eq_false in E4. zb.
  unfold string_size_ok in E. zb. split; [|done]. split; [done| |].
  - apply Forall_forall. intros c Hc ->. done.
  - unfold LC32_MAX_SIGNING_STRING_SIZE in *. lia.
Qed.

(** The merged entitlements, the identifier and the Team ID. *)
Record signing_ok (bundle : list Z) (smd : LC32CodeSignatureMetadata)
    (mds : list LC32CodeSignatureMetadata) (merged : dictionary) (identifier team : list Z) : Prop := {
  so_targets : targets_agree mds;
  so_team : signing_string team /\
    exists s, merged !! team_key = Some (CFString s) /\ cf_utf8 s = Some team;
  so_source : match target_entitlements mds ≫= (fun d : dictionary => d !! team_key) with
    | Some v => exists s, v = CFString s /\ cf_utf8 s = Some team
    | None => team = default fallback_team (target_entitlements mds ≫= fun d =>
        LC32CopyTeamIdentifierFromApplicationIdentifier maximumSize d bundle)
    end;
  so_container : exists s, merged !! container_key = Some (CFString s) /\ cf_utf8 s = Some bundle;
  so_rest k : k <> team_key -> k <> container_key ->
    merged !! k = or_first (target_entitlements mds ≫= (fun d : dictionary => d !! k)) (md_entitlements smd !! k);
  so_identifier : identifier = default (team ++ [46] ++ bundle) (target_identifier mds)
}.

Lemma overlay_lookup (a : dictionary) (first : option dictionary) k :
  (match first with Some d => LC32OverlayEntitlements a d | None => a end) !! k =
  or_first (first ≫= (fun d : dictionary => d !! k)) (a !! k).
Proof.
  destruct first as [d|]; cbn; [|done]. unfold LC32OverlayEntitlements.
  rewrite lookup_union. by destruct (d !! k), (a !! k).
Qed.

(** The metadata the new slice is signed with.  Metadata is returned only if the
    shim is signed and all slices of the target agree on entitlements and
    identifier; then the Team ID is the target's, or derived from its application
    identifier, or the fallback, and always a valid signing string; the container
    is the bundle; every other entitlement is the target's if it has it and the
    shim's otherwise; the identifier is the target's or Team ID and bundle. *)
Theorem create_signing_metadata_ok bundle shim targets merged identifier team :
  (forall md, Done md ∈ targets -> dictionary_wf (md_entitlements md)) ->
  LC32CreateSigningMetadata maximumSize bundle textString shim targets =
    Done (merged, identifier, team) ->
  exists smd mds, shim = Done smd /\ targets = Done <$> mds /\
    md_hasCodeSignature smd = true /\ signing_ok bundle smd mds merged identifier team.
Proof.
  intros Hwf. unfold LC32CreateSigningMetadata.
  destruct (_ || _); [done|]. cbn [reject_if mbind outcome_bind].
  destruct (textString bundle) as [bstr|] eqn:Eb; [|done]. cbn [or_reject mbind outcome_bind].
  destruct shim as [smd| |]; [|done..]. cbn [mbind outcome_bind].
  destruct (md_hasCodeSignature smd) eqn:Eh; [|done]. cbn [negb reject_if mbind outcome_bind].
  destruct (read_targets targets None None) as [r| |] eqn:Er; [|done..]. cbn [mbind outcome_bind].
  apply read_targets_spec in Er as (mds & -> & -> & H1 & H2). cbn [or_first] in *.
  set (first := target_entitlements mds) in *. cbv zeta.
  destruct (match first ≫= _ with Some v => _ | None => _ end) as [tv| |] eqn:Et; [|done..].
  cbn [mbind outcome_bind].
  destruct (LC32CopyCFStringUTF8 _ _) as [t| |] eqn:Ec; [|done..]. cbn [mbind outcome_bind].
  destruct tv as [ts|]; [|done].
  destruct (match target_identifier mds with Some i => _ | None => _ end) as [fi| |] eqn:Ei; [|done..].
  cbn. intros [= <- <- <-].
  assert (string_wf ts /\ match first ≫= (fun d : dictionary => d !! team_key) with
    | Some v => v = CFString ts
    | None => match first ≫= fun d =>
                LC32CopyTeamIdentifierFromApplicationIdentifier maximumSize d bundle with
              | Some derived => cf_utf8 ts = Some derived
              | None => cf_utf8 ts = Some fallback_team end end) as [Hts Hsrc].
  { destruct (first ≫= (fun d : dictionary => d !! team_key)) as [v|] eqn:Ev.
    - injection Et as ->. split; [|done].
      apply bind_Some in Ev as (d & Ed & Ev). unfold first, target_entitlements in Ed.
      apply fmap_Some in Ed as (md & Emd & ->). apply (Hwf md) with team_key; [|done].
      destruct mds; [done|]. cbn in Emd. simplify_eq. cbn. by left.
    - clear Ev. destruct (first ≫= _) as [derived|].
      + destruct (textString derived) as [s|] eqn:Es; [|done]. injection Et as <-.
        by apply text_string.
      + injection Et as <-. split; [|done]. intros bs [= <-]. split; [by repeat constructor|].
        cbn [cf_length ascii_string]. by apply maximum_size. }
  destruct (copy_string_spec ts t Hts Ec) as [Ht Eu].
  exists smd, mds. split; [done|]. split; [done|]. split; [done|]. split.
  - done.
  - split; [done|]. exists ts. split; [|done]. rewrite lookup_insert_ne by done. by rewrite lookup_insert_eq.
  - fold first. destruct (first ≫= (fun d : dictionary => d !! team_key)) as [v|]; [by exists ts|].
    destruct (first ≫= (fun d => LC32CopyTeamIdentifierFromApplicationIdentifier _ d bundle));
      cbn; congruence.
  - exists bstr. rewrite lookup_insert_eq. split; [done|]. by apply text_string.
  - intros k Hk1 Hk2. rewrite !lookup_insert_ne by done. apply overlay_lookup.
  - destruct (target_identifier mds); [by injection Ei as <-|].
    destruct (_ <? _); [done|]. by injection Ei as <-.
Qed.
End signing.
