(* ===== verification/FunctionStarts.v ===== *)
(** Function starts for the debugger (src/HostFrameworks/LC32/debugger_server.cpp,
    [ReadULEB128], [AppendULEB128], [NormalizeARMFunctionStartsInSlice] and
    [NormalizeDebuggerMachO]).

    LC_FUNCTION_STARTS lists the functions of an image as ULEB128 differences of
    addresses whose low bit is the Thumb state.  The debugger rewrites its copies
    of images so that a reader that drops the low bit from its running address
    still finds the right boundaries.  The file is the mapped copy; [Reject tt]
    is the return of false, after which the caller discards the copy. *)

From stdpp Require Import base list gmap.
From Stdlib Require Import ZArith Lia.
From S2P Require Import Prelude Bytes MachOImage.

Open Scope Z_scope.

Definition RangeIsInside (containerSize offset size : Z) : bool :=
  (offset <=? containerSize) && (size <=? containerSize - offset).

(** ** ULEB128 *)

(** The loop at [shift]: the result and the bytes read.  A byte moves the shift on
    by 7 and the loop ends at 64, so that ten rounds are enough. *)
Fixpoint read_uleb (fuel : nat) (data : list Z) (size offset result shift : Z)
    : option (Z * Z) :=
  match fuel with
  | O => None
  | S f =>
      if (size <=? offset) || (64 <=? shift) then None
      else
        match data !! Z.to_nat offset with
        | None => None
        | Some byte =>
            let payload := Z.land byte 0x7f in
            if Z.shiftr UINT64_MAX shift <? payload then None
            else
              let result := Z.lor result (u64 (Z.shiftl payload shift)) in
              if Z.land byte 0x80 =? 0 then Some (result, offset + 1)
              else read_uleb f data size (offset + 1) result (shift + 7)
        end
  end.

(** The value and the new offset, or [None] for false. *)
Definition ReadULEB128 (data : list Z) (size offset : Z) : option (Z * Z) :=
  read_uleb 11 data size offset 0 0.

Fixpoint uleb_bytes (fuel : nat) (value : Z) : list Z :=
  match fuel with
  | O => []
  | S f =>
      let byte := Z.land value 0x7f in
      let value := Z.shiftr value 7 in
      if value =? 0 then [byte] else Z.lor byte 0x80 :: uleb_bytes f value
  end.

Definition AppendULEB128 (output : list Z) (value : Z) : list Z := output ++ uleb_bytes 10 value.

(** ** Normalising the stream *)

Record starts_state := mkStarts {
  st_inputOffset : Z;
  st_tagged : Z;
  st_previous : Z;
  st_thumb : bool;
  st_unsafe : bool;
  st_first : bool;
  st_output : list Z
}.

(** The loop over the stream: ends at the terminator or at the end of the data.
    Every round reads at least one byte. *)
Fixpoint normalize_starts (fuel : nat) (data : list Z) (textVMAddress textVMSize : Z)
    (named : gset Z) (st : starts_state) : option (starts_state * bool) :=
  if blen data <=? st_inputOffset st then Some (st, false)
  else match fuel with
  | O => None
  | S f =>
      match ReadULEB128 data (blen data) (st_inputOffset st) with
      | None => None
      | Some (delta, inputOffset) =>
          if delta =? 0 then
            Some (mkStarts inputOffset (st_tagged st) (st_previous st) (st_thumb st)
                    (st_unsafe st) (st_first st) (st_output st), true)
          else if UINT32_MAX - st_tagged st <? delta then None
          else
            let tagged := st_tagged st + delta in
            let codeAddress := Z.land tagged (u64_not 1) in
            if (codeAddress <? textVMAddress) || (textVMAddress + textVMSize <=? codeAddress) ||
               (codeAddress <=? Z.land (st_previous st) (u64_not 1)) then None
            else
              let isThumb := negb (Z.land tagged 1 =? 0) in
              let thumb := isThumb || st_thumb st in
              let unsafe := st_unsafe st ||
                (negb isThumb && st_thumb st && bool_decide (codeAddress ∉ named)) in
              let normalizedAddress := codeAddress + (if thumb then 1 else 0) in
              let normalizedDelta := u64 (normalizedAddress - st_previous st) in
              normalize_starts f data textVMAddress textVMSize named
                (mkStarts inputOffset tagged normalizedAddress thumb unsafe false
                   (AppendULEB128 (st_output st) normalizedDelta))
      end
  end.

(** ** Load commands *)

Definition dbg_segment_size : Z := 56.
Definition dbg_section_size : Z := 68.
Definition dbg_symtab_size : Z := 24.
Definition dbg_nlist_size : Z := 12.
Definition instruction_flags : Z := Z.lor 0x80000000 0x00000400.
Definition N_STAB : Z := 0xe0.
Definition N_TYPE : Z := 0x0e.
Definition N_SECT : Z := 0xe.
Definition N_ARM_THUMB_DEF : Z := 0x8.
Definition DBG_LC_SEGMENT : Z := 1.
Definition DBG_LC_SYMTAB : Z := 2.
Definition DBG_LC_FUNCTION_STARTS : Z := 0x26.

(** __TEXT and __LINKEDIT. *)
Definition SEG_TEXT : list Z := [95;95;84;69;88;84].
Definition SEG_LINKEDIT : list Z := [95;95;76;73;78;75;69;68;73;84].

(** What the walk over the load commands collects. *)
Record dbg_image := mkDbg {
  di_text : option (Z * Z);
  di_linkedit : option (Z * Z);
  di_starts : option (Z * Z * Z);
  di_symbols : option (Z * Z * Z * Z);
  di_sections : list bool
}.

Definition initial_dbg : dbg_image := mkDbg None None None None [false].

(** The flags of [n] sections at [offset]. *)
Fixpoint read_sections (n : nat) (file : list Z) (offset : Z) : outcome unit (list bool) :=
  match n with
  | O => mret []
  | S m =>
      flags ← u32_at file (offset + 56);
      rest ← read_sections m file (offset + dbg_section_size);
      mret (has_flag flags instruction_flags :: rest)
  end.

Definition read_segment (file : list Z) (commandOffset cmdsize : Z) (d : dbg_image)
    : outcome unit dbg_image :=
  segment ← fetch file commandOffset dbg_segment_size;
  nsects ← u32_at segment 48;
  _ ← reject_if ((cmdsize - dbg_segment_size) / dbg_section_size <? nsects) tt;
  vmaddr ← u32_at segment 24;
  vmsize ← u32_at segment 28;
  fileoff ← u32_at segment 32;
  filesize ← u32_at segment 36;
  let segname := c_string (sub segment 8 16) in
  sections ← read_sections (Z.to_nat nsects) file (commandOffset + dbg_segment_size);
  mret (mkDbg
    (if bool_decide (segname = SEG_TEXT) then Some (vmaddr, vmsize) else di_text d)
    (if negb (bool_decide (segname = SEG_TEXT)) && bool_decide (segname = SEG_LINKEDIT)
     then Some (fileoff, filesize) else di_linkedit d)
    (di_starts d) (di_symbols d) (di_sections d ++ sections)).

Fixpoint walk_commands (n : nat) (file : list Z) (commandsEnd commandOffset : Z) (d : dbg_image)
    : outcome unit dbg_image :=
  match n with
  | O => mret d
  | S m =>
      _ ← reject_if (negb (RangeIsInside commandsEnd commandOffset load_command_size)) tt;
      cmd ← u32_at file commandOffset;
      cmdsize ← u32_at file (commandOffset + 4);
      _ ← reject_if ((cmdsize <? load_command_size) ||
                     negb (RangeIsInside commandsEnd commandOffset cmdsize)) tt;
      d ← (if (cmd =? DBG_LC_SEGMENT) && (dbg_segment_size <=? cmdsize) then
             read_segment file commandOffset cmdsize d
           else if (cmd =? DBG_LC_FUNCTION_STARTS) && (linkedit_data_command_size <=? cmdsize) then
             dataoff ← u32_at file (commandOffset + 8);
             datasize ← u32_at file (commandOffset + 12);
             mret (mkDbg (di_text d) (di_linkedit d) (Some (commandOffset, dataoff, datasize))
                     (di_symbols d) (di_sections d))
           else if (cmd =? DBG_LC_SYMTAB) && (dbg_symtab_size <=? cmdsize) then
             symoff ← u32_at file (commandOffset + 8);
             nsyms ← u32_at file (commandOffset + 12);
             stroff ← u32_at file (commandOffset + 16);
             strsize ← u32_at file (commandOffset + 20);
             mret (mkDbg (di_text d) (di_linkedit d) (di_starts d)
                     (Some (symoff, nsyms, stroff, strsize)) (di_sections d))
           else mret d);
      walk_commands m file commandsEnd (commandOffset + cmdsize) d
  end.

(** The symbol at [symbol] names an ARM function. *)
Definition is_named_arm (file : list Z) (symbol strings strsize : Z) (sections : list bool)
    : outcome unit bool :=
  n_strx ← u32_at file symbol;
  n_type ← u8_at file (symbol + 4);
  n_sect ← u8_at file (symbol + 5);
  n_desc ← u8_at file (symbol + 6);
  if has_flag n_type N_STAB || negb (Z.land n_type N_TYPE =? N_SECT) || (n_sect =? 0) ||
     negb (default false (sections !! Z.to_nat n_sect)) ||
     has_flag n_desc N_ARM_THUMB_DEF || (n_strx =? 0) || (strsize <=? n_strx)
  then mret false
  else
    first ← u8_at file (strings + n_strx);
    name ← fetch file (strings + n_strx) (strsize - n_strx);
    mret (negb (first =? 0) && negb (bool_decide (find_zero name = None))).

(** The addresses of the named ARM functions among [n] symbols at [symbol]. *)
Fixpoint named_arm (n : nat) (file : list Z) (symbol strings strsize : Z) (sections : list bool)
    : outcome unit (gset Z) :=
  match n with
  | O => mret ∅
  | S m =>
      keep ← is_named_arm file symbol strings strsize sections;
      n_value ← u32_at file (symbol + 8);
      rest ← named_arm m file (symbol + dbg_nlist_size) strings strsize sections;
      mret (if (keep : bool) then {[ n_value ]} ∪ rest else rest)
  end.

(** The file and whether it was changed. *)
Definition NormalizeARMFunctionStartsInSlice (file : list Z) (fileSize sliceOffset sliceSize : Z)
    (changed : bool) : outcome unit (list Z * bool) :=
  _ ← reject_if (negb (RangeIsInside fileSize sliceOffset sliceSize) ||
                 (sliceSize <? mach_header_size)) tt;
  header ← fetch file sliceOffset mach_header_size;
  magic ← u32_at header 0;
  _ ← reject_if (negb (magic =? MH_MAGIC)) tt;
  cputype ← u32_at header 4;
  if negb (cputype =? CPU_TYPE_ARM) then mret (file, changed)
  else
  ncmds ← u32_at header 16;
  sizeofcmds ← u32_at header 20;
  _ ← reject_if (negb (RangeIsInside sliceSize mach_header_size sizeofcmds)) tt;
  let commandOffset := sliceOffset + mach_header_size in
  d ← walk_commands (Z.to_nat ncmds) file (commandOffset + sizeofcmds) commandOffset initial_dbg;
  match di_text d, di_linkedit d, di_starts d with
  | Some (textVMAddress, textVMSize), Some (linkeditFileOffset, linkeditFileSize),
    Some (startsCommandOffset, dataoff, datasize) =>
      if (textVMSize =? 0) || (UINT32_MAX - textVMAddress <? textVMSize) || (datasize =? 0) then
        mret (file, changed)
      else
      _ ← reject_if (negb (RangeIsInside sliceSize dataoff datasize) ||
                     (dataoff <? linkeditFileOffset) ||
                     negb (RangeIsInside linkeditFileSize (dataoff - linkeditFileOffset) datasize)) tt;
      named ←
        (match di_symbols d with
         | None => mret (∅ : gset Z)
         | Some (symoff, nsyms, stroff, strsize) =>
             _ ← reject_if ((sliceSize / dbg_nlist_size <? nsyms) ||
                            negb (RangeIsInside sliceSize symoff (nsyms * dbg_nlist_size)) ||
                            negb (RangeIsInside sliceSize stroff strsize)) tt;
             named_arm (Z.to_nat nsyms) file (sliceOffset + symoff) (sliceOffset + stroff) strsize
               (di_sections d)
         end);
      functionData ← fetch file (sliceOffset + dataoff) datasize;
      '(st, foundTerminator) ← or_reject
         (normalize_starts (length functionData) functionData textVMAddress textVMSize named
            (mkStarts 0 textVMAddress textVMAddress false false true [])) tt;
      _ ← reject_if (negb foundTerminator || st_first st) tt;
      let normalized := st_output st ++ [0] in
      if st_unsafe st || (datasize <? blen normalized) then
        file ← store file (startsCommandOffset + 12) (le_bytes 4 0);
        mret (file, true)
      else if negb (blen normalized =? datasize) || bool_decide (sub functionData 0 (blen normalized) <> normalized) then
        file ← store file (sliceOffset + dataoff) (zeros datasize);
        file ← store file (sliceOffset + dataoff) normalized;
        mret (file, true)
      else mret (file, changed)
  | _, _, _ => mret (file, changed)
  end.

(** A slice that is refused has not been written to: the stores are the last
    steps of [NormalizeARMFunctionStartsInSlice]. *)
Definition slice_result (file : list Z) (changed : bool) (m : outcome unit (list Z * bool))
    : outcome Empty_set (bool * (list Z * bool)) :=
  match m with
  | Done r => Done (true, r)
  | Reject _ => Done (false, (file, changed))
  | Fault => Fault
  end.

(** The loop over the architectures of a FAT file: whether all were valid, the
    file and whether it was changed. *)
Fixpoint normalize_archs (n : nat) (index : Z) (swap : bool) (file : list Z) (changed : bool)
    : outcome Empty_set (bool * (list Z * bool)) :=
  match n with
  | O => mret (true, (file, changed))
  | S m =>
      arch ← fetch file (fat_header_size + index * fat_arch_size) fat_arch_size;
      sliceOffset ← field32 arch 8 swap;
      sliceSize ← field32 arch 12 swap;
      cpuType ← field32 arch 0 swap;
      if negb (cpuType =? CPU_TYPE_ARM) then normalize_archs m (index + 1) swap file changed
      else
        r ← slice_result file changed
              (NormalizeARMFunctionStartsInSlice file (blen file) sliceOffset sliceSize changed);
        let '(valid, (file, changed)) := (r : bool * (list Z * bool)) in
        if valid then normalize_archs m (index + 1) swap file changed
        else mret (false, (file, changed))
  end.

(** The mapped file.  The result is what the routine returns, the file and
    whether it was changed; a failure to open or map the file is outside. *)
Definition NormalizeDebuggerMachO (file : list Z) : outcome Empty_set (bool * (list Z * bool)) :=
  if blen file <? 4 then mret (false, (file, false))
  else
    magic ← u32_at file 0;
    if magic =? MH_MAGIC then
      slice_result file false (NormalizeARMFunctionStartsInSlice file (blen file) 0 (blen file) false)
    else if (magic =? FAT_CIGAM) || (magic =? FAT_MAGIC) then
      if negb (RangeIsInside (blen file) 0 fat_header_size) then mret (false, (file, false))
      else
        let swap := magic =? FAT_CIGAM in
        architectureCount ← field32 file 4 swap;
        if (64 <? architectureCount) ||
           negb (RangeIsInside (blen file) fat_header_size (architectureCount * fat_arch_size))
        then mret (false, (file, false))
        else normalize_archs (Z.to_nat architectureCount) 0 swap file false
    else mret (true, (file, false)).
