(* ===== verification/FunctionStartsProps.v ===== *)
(** Function starts: ULEB128 round trips, the rewritten stream gives a reader that
    drops the low bit the boundaries of the original, and the rewriting never
    leaves the mapped file. *)

From stdpp Require Import base list gmap.
From Stdlib Require Import ZArith Lia.
From S2P Require Import Prelude Bytes MachOImage MachOImageProps FunctionStarts.

Open Scope Z_scope.

(** ** Bits *)

Lemma land_shiftl_0 r p s : 0 <= s -> 0 <= r < 2 ^ s -> Z.land r (Z.shiftl p s) = 0.
Proof.
  intros Hs Hr. apply Z.bits_inj'. intros n Hn. rewrite Z.land_spec, Z.bits_0.
  destruct (decide (n < s)).
  - rewrite Z.shiftl_spec_low by lia. apply andb_false_r.
  - destruct (decide (r = 0)) as [-> |]; [by rewrite Z.bits_0|].
    rewrite (Z.bits_above_log2 r n); [done|lia|].
    assert (Z.log2 r < s) by (apply Z.log2_lt_pow2; lia). lia.
Qed.

Lemma lor_shiftl r p s : 0 <= s -> 0 <= r < 2 ^ s -> Z.lor r (Z.shiftl p s) = r + p * 2 ^ s.
Proof.
  intros Hs Hr. rewrite <- Z.shiftl_mul_pow2 by lia.
  pose proof (land_shiftl_0 r p s Hs Hr) as E.
  rewrite <- Z.lxor_lor by done. symmetry. by apply Z.add_nocarry_lxor.
Qed.

Lemma uleb_byte b :
  0 <= b < 128 ->
  Z.land b 127 = b /\ Z.land b 128 = 0 /\ Z.land (Z.lor b 128) 127 = b /\
  Z.land (Z.lor b 128) 128 <> 0 /\ 0 <= Z.lor b 128 < 256.
Proof.
  intros Hb. assert (Forall (fun b => Z.land b 127 = b /\ Z.land b 128 = 0 /\
    Z.land (Z.lor b 128) 127 = b /\ Z.land (Z.lor b 128) 128 <> 0 /\ 0 <= Z.lor b 128 < 256)
    (seqZ 0 128)) as H.
  { apply (bool_decide_unpack _). by vm_compute. }
  rewrite Forall_forall in H. apply H, elem_of_seqZ. lia.
Qed.

(** ** ULEB128 *)

Lemma uleb_bytes_ok fuel v : 0 <= v -> Forall byte_ok (uleb_bytes fuel v).
Proof.
  revert v. induction fuel as [|f IH]; intros v Hv; cbn [uleb_bytes]; [constructor|].
  assert (0 <= Z.land v 0x7f < 128) as Hb
    by (change 0x7f with (Z.ones 7); rewrite Z.land_ones by lia; apply Z.mod_pos_bound; lia).
  destruct (uleb_byte _ Hb) as (_ & _ & _ & _ & Hr).
  assert (0 <= Z.shiftr v 7) by (apply Z.shiftr_nonneg; lia).
  case_match; constructor; try constructor; unfold byte_ok; try lia. by apply IH.
Qed.

Lemma read_uleb_append fuel n pre v post size r shift :
  0 <= v < 2 ^ (7 * Z.of_nat n) -> (0 < n <= fuel)%nat -> 0 <= shift < 64 -> 0 <= r < 2 ^ shift ->
  v * 2 ^ shift < U64_MOD -> blen pre + blen (uleb_bytes n v) <= size ->
  read_uleb fuel (pre ++ uleb_bytes n v ++ post) size (blen pre) r shift =
  Some (r + v * 2 ^ shift, blen pre + blen (uleb_bytes n v)).
Proof.
  revert fuel pre v r shift. induction n as [|n IH]; intros fuel pre v r shift Hv Hn Hs Hr Hm Hsz; [lia|].
  destruct fuel as [|f]; [lia|]. cbn [read_uleb uleb_bytes] in *.
  set (b := Z.land v 0x7f) in *. set (w := Z.shiftr v 7) in *.
  assert (b = v mod 128) as Eb by (unfold b; change 0x7f with (Z.ones 7); by rewrite Z.land_ones by lia).
  assert (w = v / 128) as Ew by (unfold w; by rewrite Z.shiftr_div_pow2 by lia).
  clearbody b w.
  pose proof (Z.div_mod v 128 ltac:(lia)) as Hdm. pose proof (Z.mod_pos_bound v 128 ltac:(lia)) as Hmb.
  rewrite <- Eb, <- Ew in Hdm. rewrite <- Eb in Hmb.
  assert (0 <= w) by (rewrite Ew; apply Z.div_pos; lia).
  assert (0 < 2 ^ shift) by (apply Z.pow_pos_nonneg; lia).
  destruct (uleb_byte b Hmb) as (B1 & B2 & B3 & B4 & _).
  assert (forall c rest, (pre ++ (c :: rest) ++ post) !! Z.to_nat (blen pre) = Some c) as Hlook.
  { intros. unfold blen. rewrite Nat2Z.id. cbn [app]. by apply list_lookup_middle. }
  assert (b * 2 ^ shift <= v * 2 ^ shift) by (apply Z.mul_le_mono_nonneg_r; lia).
  assert ((Z.shiftr UINT64_MAX shift <? b) = false) as Hpay.
  { apply Z.ltb_ge. rewrite Z.shiftr_div_pow2 by lia. apply Z.div_le_lower_bound; [lia|].
    unfold UINT64_MAX. lia. }
  assert (Z.lor r (u64 (Z.shiftl b shift)) = r + b * 2 ^ shift) as Hlor.
  { rewrite u64_small by (rewrite Z.shiftl_mul_pow2 by lia; lia). apply lor_shiftl; lia. }
  assert (0 <= blen pre) by apply blen_nonneg.
  destruct (w =? 0) eqn:Ez; [apply Z.eqb_eq in Ez|apply Z.eqb_neq in Ez].
  - unfold blen in Hsz at 2. cbn [length] in Hsz.
    rewrite (proj2 (Z.leb_gt size _)), (proj2 (Z.leb_gt 64 _)) by lia. cbn [orb].
    rewrite Hlook. cbv zeta. rewrite B1, Hpay, B2, Hlor. cbn [Z.eqb]. do 2 f_equal. nia.
  - assert (blen (Z.lor b 128 :: uleb_bytes n w) = 1 + blen (uleb_bytes n w)) as Hl.
    { unfold blen. cbn [length]. lia. }
    rewrite Hl in *. pose proof (blen_nonneg (uleb_bytes n w)).
    rewrite (proj2 (Z.leb_gt size _)), (proj2 (Z.leb_gt 64 _)) by lia. cbn [orb].
    rewrite Hlook. cbv zeta. rewrite B3, Hpay, Hlor, (proj2 (Z.eqb_neq _ 0) B4).
    assert (2 ^ (shift + 7) = 2 ^ shift * 128) as E7 by (rewrite Z.pow_add_r by lia; done).
    assert (w * 2 ^ (shift + 7) <= v * 2 ^ shift) by (rewrite E7; nia).
    assert (shift + 7 < 64).
    { destruct (decide (64 <= shift + 7)); [|lia].
      assert (2 ^ 64 <= 2 ^ (shift + 7)) by (apply Z.pow_le_mono_r; lia). unfold U64_MOD in *. nia. }
    replace (7 * Z.of_nat (S n)) with (7 * Z.of_nat n + 7) in Hv by lia.
    rewrite Z.pow_add_r in Hv by lia. change (2 ^ 7) with 128 in Hv.
    assert (w < 2 ^ (7 * Z.of_nat n)) by (rewrite Ew; apply Z.div_lt_upper_bound; lia).
    destruct n as [|n']; [change (2 ^ (7 * Z.of_nat 0)) with 1 in *; lia|].
    pose proof (IH f (pre ++ [Z.lor b 128]) w (r + b * 2 ^ shift) (shift + 7)) as E.
    rewrite blen_app in E. change (blen [Z.lor b 128]) with 1 in E. rewrite <- app_assoc in E.
    cbn [app] in E. cbn [app]. rewrite E by (rewrite ?E7; (lia || nia)). do 2 f_equal; [|lia].
    rewrite E7. nia.
Qed.

(** Reading back what was appended, wherever it was put. *)
Lemma uleb_roundtrip pre v post :
  0 <= v < U64_MOD ->
  ReadULEB128 (AppendULEB128 pre v ++ post) (blen (AppendULEB128 pre v ++ post)) (blen pre) =
  Some (v, blen (AppendULEB128 pre v)).
Proof.
  intros Hv. unfold ReadULEB128, AppendULEB128. rewrite <- app_assoc.
  rewrite (read_uleb_append 11 10 pre v post _ 0 0); rewrite ?blen_app.
  - do 2 f_equal. lia.
  - change (2 ^ (7 * Z.of_nat 10)) with (2 ^ 70). unfold U64_MOD in Hv.
    pose proof (Z.pow_lt_mono_r 2 64 70). lia.
  - lia.
  - lia.
  - done.
  - lia.
  - pose proof (blen_nonneg post). lia.
Qed.

(** A successful read moves on inside the data and returns 64 bits. *)
Lemma read_uleb_progress fuel data size offset r shift v o :
  Forall byte_ok data -> 0 <= offset -> 0 <= shift -> 0 <= r < 2 ^ Z.min shift 64 ->
  read_uleb fuel data size offset r shift = Some (v, o) ->
  offset < o <= size /\ 0 <= v < U64_MOD.
Proof.
  intros Hd. revert offset r shift. induction fuel as [|f IH]; intros offset r shift Ho Hs Hr; cbn [read_uleb];
    [done|].
  destruct (_ || _) eqn:E; [done|]. zb. destruct (data !! Z.to_nat offset) as [b|] eqn:Eb; [|done].
  set (p := Z.land b 0x7f). assert (0 <= p < 128) as Hp.
  { unfold p. change 0x7f with (Z.ones 7). rewrite Z.land_ones by lia. apply Z.mod_pos_bound. lia. }
  destruct (Z.shiftr UINT64_MAX shift <? p) eqn:Em; [done|]. zb.
  rewrite Z.shiftr_div_pow2 in Em by lia. assert (0 < 2 ^ shift) by (apply Z.pow_pos_nonneg; lia).
  assert (p * 2 ^ shift <= UINT64_MAX) as Hpm.
  { pose proof (Z.mul_div_le UINT64_MAX (2 ^ shift) ltac:(lia)). nia. }
  rewrite Z.min_l in Hr by lia. unfold UINT64_MAX in Hpm.
  rewrite u64_small by (rewrite Z.shiftl_mul_pow2 by lia; lia).
  rewrite lor_shiftl by lia.
  assert (r + p * 2 ^ shift < U64_MOD) as Hb.
  { replace U64_MOD with (2 ^ (64 - shift) * 2 ^ shift) in *
      by (rewrite <- Z.pow_add_r by lia; unfold U64_MOD; f_equal; lia).
    assert (p <= 2 ^ (64 - shift) - 1); [|nia].
    assert (p * 2 ^ shift < 2 ^ (64 - shift) * 2 ^ shift) as Hlt by lia.
    apply Z.mul_lt_mono_pos_r in Hlt; lia. }
  case_if.
  - intros [= <- <-]. split; [lia|]. split; [nia|done].
  - intros Hrec. apply IH in Hrec; [lia|lia|lia|]. split; [nia|].
    destruct (decide (shift + 7 <= 64)).
    + rewrite Z.min_l, Z.pow_add_r by lia. change (2 ^ 7) with 128. nia.
    + rewrite Z.min_r by lia. done.
Qed.

(** ** Readers of the stream *)

(** The differences up to the terminator. *)
Fixpoint decode_deltas (fuel : nat) (data : list Z) (offset : Z) : option (list Z) :=
  match fuel with
  | O => None
  | S f =>
      match ReadULEB128 data (blen data) offset with
      | None => None
      | Some (delta, offset) =>
          if delta =? 0 then Some []
          else match decode_deltas f data offset with
               | Some ds => Some (delta :: ds)
               | None => None
               end
      end
  end.

Lemma decode_step f data offset o delta ds :
  ReadULEB128 data (blen data) offset = Some (delta, o) -> delta <> 0 ->
  decode_deltas f data o = Some ds -> decode_deltas (S f) data offset = Some (delta :: ds).
Proof. intros E1 E2 E3. cbn [decode_deltas]. by rewrite E1, (proj2 (Z.eqb_neq _ _) E2), E3. Qed.

(** The linker's meaning: sums of the differences, with the Thumb state in the low
    bit. *)
Fixpoint tagged_addresses (address : Z) (ds : list Z) : list Z :=
  match ds with [] => [] | d :: r => (address + d) :: tagged_addresses (address + d) r end.

Definition code_address (a : Z) : Z := Z.land a (u64_not 1).

(** A reader that drops the low bit of its running address. *)
Fixpoint untagged_addresses (address : Z) (ds : list Z) : list Z :=
  match ds with
  | [] => []
  | d :: r => code_address (address + d) :: untagged_addresses (code_address (address + d)) r
  end.

Lemma code_address_spec a : 0 <= a < U64_MOD -> code_address a = 2 * (a / 2).
Proof. intros. exact (land_u64_not_ones a 1 ltac:(lia) H). Qed.

Lemma code_address_tag a : 0 <= a < U64_MOD -> a = code_address a + a mod 2.
Proof. intros. rewrite code_address_spec by done. pose proof (Z.div_mod a 2 ltac:(lia)). lia. Qed.

Lemma thumb_bit a : negb (Z.land a 1 =? 0) = (a mod 2 =? 1).
Proof.
  change 1 with (Z.ones 1) at 1. rewrite Z.land_ones by lia. change (2 ^ 1) with 2.
  pose proof (Z.mod_pos_bound a 2 ltac:(lia)).
  destruct (Z.eqb_spec (a mod 2) 0), (Z.eqb_spec (a mod 2) 1); cbn; lia.
Qed.

Definition uleb_stream (ns : list Z) : list Z := concat (uleb_bytes 10 <$> ns).

(** Reading a stream of appended values up to its terminator. *)
Lemma decode_stream pre ns rest fuel :
  Forall (fun n => 0 < n < U64_MOD) ns -> (length ns < fuel)%nat ->
  decode_deltas fuel (pre ++ uleb_stream ns ++ 0 :: rest) (blen pre) = Some ns.
Proof.
  intros Hn. revert pre fuel. induction Hn as [|n ns Hn Hns IH]; intros pre fuel Hf;
    (destruct fuel as [|f]; [cbn in Hf; lia|]); cbn [decode_deltas].
  - pose proof (uleb_roundtrip pre 0 rest ltac:(done)) as E. unfold AppendULEB128 in E.
    change (uleb_bytes 10 0) with [0] in E. rewrite <- app_assoc in E. cbn [app] in E.
    unfold uleb_stream. cbn [fmap list_fmap concat app]. by rewrite E.
  - unfold uleb_stream in *. cbn [fmap list_fmap concat].
    pose proof (uleb_roundtrip pre n (concat (uleb_bytes 10 <$> ns) ++ 0 :: rest) ltac:(lia)) as E.
    unfold AppendULEB128 in E. rewrite <- app_assoc in E. rewrite <- app_assoc. rewrite E.
    rewrite (proj2 (Z.eqb_neq n 0)) by lia. rewrite (app_assoc pre). rewrite IH; [done|].
    cbn in Hf. lia.
Qed.

(** ** The rewritten stream *)

(** The addresses of the functions that are found, with their Thumb state made
    sticky. *)
Fixpoint sticky (thumb : bool) (tagged : list Z) : list Z :=
  match tagged with
  | [] => []
  | a :: r =>
      let thumb := (a mod 2 =? 1) || thumb in
      (code_address a + (if thumb then 1 else 0)) :: sticky thumb r
  end.

Fixpoint differences (previous : Z) (l : list Z) : list Z :=
  match l with [] => [] | a :: r => (a - previous) :: differences a r end.

(** An ARM function after a Thumb one that has no symbol. *)
Fixpoint unnamed_arm (thumb : bool) (named : gset Z) (tagged : list Z) : bool :=
  match tagged with
  | [] => false
  | a :: r =>
      (negb (a mod 2 =? 1) && thumb && bool_decide (code_address a ∉ named)) ||
      unnamed_arm ((a mod 2 =? 1) || thumb) named r
  end.

Section normalize.
Context (data : list Z) (Hdata : Forall byte_ok data) (text textSize : Z) (named : gset Z).
Context (Htext : 0 <= text) (Hsize : 0 <= textSize) (Hfit : text + textSize <= UINT32_MAX).

(** What a finished loop has read and written. *)
Lemma normalize_starts_spec fuel st st' found :
  0 <= st_tagged st <= UINT32_MAX -> 0 <= st_previous st <= UINT32_MAX ->
  0 <= st_inputOffset st ->
  (st_thumb st = true -> st_previous st mod 2 = 1) ->
  normalize_starts fuel data text textSize named st = Some (st', found) ->
  found = true ->
  exists ds, decode_deltas (S fuel) data (st_inputOffset st) = Some ds /\
    let tagged := tagged_addresses (st_tagged st) ds in
    let out := sticky (st_thumb st) tagged in
    st_output st' = st_output st ++ uleb_stream (differences (st_previous st) out) /\
    st_unsafe st' = st_unsafe st || unnamed_arm (st_thumb st) named tagged /\
    (st_first st' = false -> st_first st = false \/ ds <> []) /\
    Forall (fun a => text <= code_address a < text + textSize) tagged /\
    Forall (fun n => 0 < n < U64_MOD) (differences (st_previous st) out).
Proof.
  revert st. induction fuel as [|f IH]; intros st Htag Hprev Hin Hth; cbn [normalize_starts];
    destruct (blen data <=? st_inputOffset st) eqn:El; zb; try (by intros [= <- <-]).
  destruct (ReadULEB128 _ _ _) as [[delta o]|] eqn:Er; [|done].
  pose proof Er as Hp. unfold ReadULEB128 in Hp.
  apply read_uleb_progress in Hp as [Ho Hd]; [|done|done|done|by vm_compute].
  destruct (delta =? 0) eqn:E0; zb.
  { intros [= <- <-] _. exists []. cbn [decode_deltas]. rewrite Er, E0. cbn.
    rewrite app_nil_r, orb_false_r. split; [done|]. split_and!; try done. by left. }
  destruct (UINT32_MAX - st_tagged st <? delta) eqn:E1; [done|]. zb.
  set (a := st_tagged st + delta). fold (code_address a). cbv zeta.
  unfold UINT32_MAX, U32_MOD in *.
  assert (0 <= a < U64_MOD) as Ha by (unfold a, U64_MOD in *; lia).
  fold (code_address (st_previous st)).
  destruct (_ || _) eqn:E2; [done|]. zb. rewrite thumb_bit.
  set (th := (a mod 2 =? 1) || st_thumb st). set (n := code_address a + (if th then 1 else 0)).
  pose proof (code_address_tag a Ha) as Hca.
  assert (0 <= st_previous st < U64_MOD) as Hpv by (unfold U64_MOD; lia).
  pose proof (code_address_tag _ Hpv) as Hcp.
  pose proof (code_address_spec a Ha) as Ea. pose proof (code_address_spec _ Hpv) as Ep.
  pose proof (Z.mod_pos_bound a 2 ltac:(lia)). pose proof (Z.mod_pos_bound (st_previous st) 2 ltac:(lia)).
  assert (0 < n - st_previous st < U64_MOD) as Hn.
  { unfold n, U64_MOD. destruct th; lia. }
  rewrite u64_small by lia. intros Hrec ->.
  apply IH in Hrec as (ds & Edec & R1 & R2 & R3 & R4 & R5);
    cbn [st_tagged st_previous st_inputOffset st_thumb st_output st_unsafe st_first] in *.
  - exists (delta :: ds). split.
    { by apply (decode_step _ _ _ o). }
    cbn [tagged_addresses sticky differences unnamed_arm]. fold a. fold th. fold n.
    split; [|split; [|split; [|split]]].
    + rewrite R1. unfold AppendULEB128, uleb_stream. cbn [fmap list_fmap concat].
      by rewrite <- app_assoc.
    + rewrite R2. by rewrite orb_assoc.
    + intros _. by right.
    + constructor; [|done]. lia.
    + constructor; done.
  - unfold a in *. lia.
  - unfold n. destruct th; lia.
  - lia.
  - intros Et. unfold n. rewrite Et, Ea. rewrite Z.add_comm, Z.mul_comm, Z.mod_add by lia. done.
  - done.
Qed.
End normalize.

Lemma tagged_differences p l : tagged_addresses p (differences p l) = l.
Proof.
  revert p. induction l as [|a l IH]; intros p; cbn; [done|].
  replace (p + (a - p)) with a by lia. by rewrite IH.
Qed.

Lemma code_address_add a t :
  0 <= a < UINT32_MAX -> a mod 2 = 0 -> 0 <= t <= 1 -> code_address (a + t) = a /\ (a + t) mod 2 = t.
Proof.
  unfold UINT32_MAX, U32_MOD. intros Ha Hm Ht. rewrite code_address_spec by (unfold U64_MOD; lia).
  pose proof (Z.div_mod a 2 ltac:(lia)) as Hd. rewrite Hm, Z.add_0_r in Hd.
  replace (a + t) with (t + a / 2 * 2) by lia.
  rewrite Z.div_add, Z.mod_add, (Z.div_small t), (Z.mod_small t) by lia. lia.
Qed.

Lemma sticky_code thumb tagged :
  Forall (fun a => 0 <= code_address a < UINT32_MAX /\ code_address a mod 2 = 0) tagged ->
  code_address <$> sticky thumb tagged = code_address <$> tagged.
Proof.
  intros H. revert thumb. induction H as [|a l [Ha Hm] _ IH]; intros thumb; cbn; [done|].
  rewrite IH. f_equal. apply code_address_add; [done|done|]. destruct (_ || thumb); lia.
Qed.

(** The reader that drops the low bit finds the same functions. *)
Lemma untagged_sticky tagged (thumb : bool) p q :
  Forall (fun a => 0 <= code_address a < UINT32_MAX /\ code_address a mod 2 = 0) tagged ->
  q = p \/ (p = q + if thumb then 1 else 0) ->
  untagged_addresses q (differences p (sticky thumb tagged)) = code_address <$> tagged.
Proof.
  intros H. revert thumb p q. induction H as [|a l [Ha Hm] _ IH]; intros thumb p q Hq; cbn; [done|].
  set (th := (a mod 2 =? 1) || thumb). set (c := code_address a) in *.
  assert (code_address (q + (c + (if th then 1 else 0) - p)) = c) as E.
  { destruct Hq as [-> | ->].
    - replace (p + (c + (if th then 1 else 0) - p)) with (c + (if th then 1 else 0)) by lia.
      apply code_address_add; [done|done|]. destruct th; lia.
    - assert (exists t, 0 <= t <= 1 /\ q + (c + (if th then 1 else 0) - (q + (if thumb then 1 else 0))) = c + t)
        as (t & Ht & ->); [|by apply code_address_add].
      destruct thumb; unfold th; [rewrite orb_true_r|rewrite orb_false_r].
      + exists 0. lia.
      + exists (if a mod 2 =? 1 then 1 else 0). destruct (a mod 2 =? 1); lia. }
  rewrite E. f_equal. apply IH. by right.
Qed.

(** ** Fuel *)

(** The loop needs no more rounds than there are bytes left. *)
Lemma normalize_fuel data text textSize named fuel fuel' st :
  Forall byte_ok data -> 0 <= st_inputOffset st ->
  blen data - st_inputOffset st <= Z.of_nat fuel -> (fuel <= fuel')%nat ->
  normalize_starts fuel' data text textSize named st = normalize_starts fuel data text textSize named st.
Proof.
  intros Hd. revert fuel' st. induction fuel as [|f IH]; intros fuel' st Ho Hl Hf.
  - destruct fuel' as [|f']; [done|]. cbn [normalize_starts].
    by rewrite (proj2 (Z.leb_le _ _)) by lia.
  - destruct fuel' as [|f']; [lia|]. cbn [normalize_starts].
    destruct (blen data <=? st_inputOffset st) eqn:El; zb; [done|].
    destruct (ReadULEB128 _ _ _) as [[delta o]|] eqn:Er; [|done].
    unfold ReadULEB128 in Er. apply read_uleb_progress in Er as [Hp _]; [|done|done|done|by vm_compute].
    destruct (delta =? 0); [done|]. destruct (_ <? delta); [done|]. cbv zeta.
    destruct (_ || _); [done|]. apply IH; cbn [st_inputOffset]; lia.
Qed.

(** The rewritten data: what was found, the terminator and zeros. *)
Lemma rewritten_starts data text textSize named st rest :
  Forall byte_ok data -> 0 <= text -> 0 <= textSize -> text + textSize <= UINT32_MAX ->
  normalize_starts (length data) data text textSize named
    (mkStarts 0 text text false false true []) = Some (st, true) ->
  st_first st = false ->
  exists ds ns, decode_deltas (S (length data)) data 0 = Some ds /\
    decode_deltas (S (length ns)) (st_output st ++ 0 :: rest) 0 = Some ns /\
    ds <> [] /\
    untagged_addresses text ns = code_address <$> tagged_addresses text ds /\
    tagged_addresses text ns = sticky false (tagged_addresses text ds) /\
    st_unsafe st = unnamed_arm false named (tagged_addresses text ds).
Proof.
  intros Hd Ht Hs Hf Hn Hfirst. unfold UINT32_MAX, U32_MOD in Hf.
  apply normalize_starts_spec in Hn as (ds & E & H1 & H2 & H3 & H4 & H5);
    cbn [st_tagged st_previous st_inputOffset st_thumb st_output st_unsafe st_first orb app] in *; try done;
    try (unfold UINT32_MAX, U32_MOD; lia).
  exists ds. eexists. split; [exact E|]. rewrite H1, H2.
  assert (Forall (fun a => 0 <= code_address a < UINT32_MAX /\ code_address a mod 2 = 0)
    (tagged_addresses text ds)) as Hc.
  { eapply Forall_impl; [exact H4|]. intros a [Hr1 Hr2]. split; [unfold UINT32_MAX, U32_MOD; lia|].
    unfold code_address. change (u64_not 1) with (u64_not (Z.ones 1)).
    assert (Z.land a (u64_not (Z.ones 1)) mod 2 = Z.land (Z.land a (u64_not (Z.ones 1))) (Z.ones 1)) as ->
      by (by rewrite Z.land_ones by lia).
    rewrite <- Z.land_assoc. change (Z.land (u64_not (Z.ones 1)) (Z.ones 1)) with 0. by rewrite Z.land_0_r. }
  split; [|split; [|split; [|split]]].
  - apply (decode_stream []); [exact H5|lia].
  - destruct (H3 Hfirst); done.
  - apply untagged_sticky; [done|by left].
  - apply tagged_differences.
  - done.
Qed.
