(* ===== verification/DebuggerImage.v ===== *)
(** Rewriting a debugger's copy of an image: no access outside the mapped file, and
    what is changed is the function-starts data or the size that disables it. *)

From stdpp Require Import base list gmap.
From Stdlib Require Import ZArith Lia.
From S2P Require Import Prelude Bytes MachOImage MachOImageProps HostIO FatCopyProps.
From S2P Require Import FunctionStarts FunctionStartsProps.

Open Scope Z_scope.

Lemma range_inside c o n : RangeIsInside c o n = true <-> o <= c /\ o + n <= c.
Proof. apply range_fits. Qed.

(** Reads of the host's byte order. *)
Lemma safe_u32_at {E} buf off (P : Z -> Prop) :
  Forall byte_ok buf -> 0 <= off -> off + 4 <= blen buf ->
  (forall v, 0 <= v < U32_MOD -> P v) -> safe (E := E) (u32_at buf off) P.
Proof. intros. apply safe_le; [done|lia..|]. intros v _ Hv. apply H2. done. Qed.

Lemma safe_u8_at {E} buf off (P : Z -> Prop) :
  Forall byte_ok buf -> 0 <= off -> off + 1 <= blen buf ->
  (forall v, 0 <= v < 256 -> P v) -> safe (E := E) (u8_at buf off) P.
Proof. intros. apply safe_le; [done|lia..|]. intros v _ Hv. apply H2. done. Qed.

Ltac u_step :=
  lazymatch goal with
  | |- safe (u32_at _ _) _ => apply safe_u32_at; [by eauto with lc32|try lia..|intros ? ?]
  | |- safe (u8_at _ _) _ => apply safe_u8_at; [by eauto with lc32|try lia..|intros ? ?]
  | |- safe (fetch _ _ _) _ => apply safe_fetch; [try lia..|]
  end.

Ltac inside :=
  repeat match goal with
  | H : RangeIsInside _ _ _ = true |- _ => apply range_inside in H
  end.

Section walk.
Context (file : list Z) (Hbytes : Forall byte_ok file).

Lemma read_sections_safe n offset :
  0 <= offset -> offset + Z.of_nat n * dbg_section_size <= blen file ->
  safe (read_sections n file offset) (fun _ => True).
Proof.
  unfold dbg_section_size. revert offset. induction n as [|n IH]; intros offset Ho Hl;
    cbn [read_sections]; [done|].
  safe_step. u_step. safe_step. eapply safe_mono; [apply IH; unfold dbg_section_size; lia|]. done.
Qed.

(** The numbers of the collected commands. *)
Definition dbg_ok (commandsEnd : Z) (d : dbg_image) : Prop :=
  (forall a n, di_text d = Some (a, n) -> 0 <= a < U32_MOD /\ 0 <= n < U32_MOD) /\
  (forall a n, di_linkedit d = Some (a, n) -> 0 <= a /\ 0 <= n) /\
  (forall o a n, di_starts d = Some (o, a, n) ->
     0 <= o /\ o + linkedit_data_command_size <= commandsEnd /\ 0 <= a /\ 0 <= n) /\
  (forall a n b m, di_symbols d = Some (a, n, b, m) -> 0 <= a /\ 0 <= n /\ 0 <= b /\ 0 <= m).

Lemma read_segment_safe commandsEnd commandOffset cmdsize d :
  0 <= commandOffset -> dbg_segment_size <= cmdsize -> commandOffset + cmdsize <= blen file ->
  dbg_ok commandsEnd d ->
  safe (read_segment file commandOffset cmdsize d) (dbg_ok commandsEnd).
Proof.
  unfold dbg_segment_size. intros Ho Hc Hl (D1 & D2 & D3 & D4). unfold read_segment, dbg_segment_size.
  safe_step. u_step. set (segment := sub file commandOffset 56).
  assert (blen segment = 56) as HL by (apply blen_sub; lia).
  assert (Forall byte_ok segment) as HS by (by apply Forall_sub).
  safe_step. u_step. do 2 safe_step. do 4 (safe_step; u_step). safe_step.
  match goal with H : _ <= (cmdsize - 56) / dbg_section_size |- _ => rename H into Hn end.
  assert (dbg_section_size * v <= cmdsize - 56) as Hn'.
  { pose proof (Z.mul_div_le (cmdsize - 56) dbg_section_size ltac:(done)).
    unfold dbg_section_size in *. lia. }
  eapply safe_mono; [apply read_sections_safe; unfold dbg_section_size in *; lia|].
  intros sections _. apply safe_done. split; [|split; [|split]]; cbn.
  - intros a n. case_match; [|apply D1]. intros [= <- <-]. done.
  - intros a n. case_match; [|apply D2]. intros [= <- <-]. lia.
  - apply D3.
  - apply D4.
Qed.

Lemma walk_commands_safe n commandsEnd commandOffset d :
  commandsEnd <= blen file -> 0 <= commandOffset -> dbg_ok commandsEnd d ->
  safe (walk_commands n file commandsEnd commandOffset d) (dbg_ok commandsEnd).
Proof.
  intros He. revert commandOffset d. induction n as [|n IH]; intros commandOffset d Ho Hd;
    cbn [walk_commands]; [done|].
  unfold load_command_size. do 2 safe_step. inside.
  safe_step. u_step. safe_step. u_step. do 2 safe_step. inside. safe_step.
  eapply (safe_mono _ (dbg_ok commandsEnd)); [|intros d' Hd'; apply IH; (exact Hd' || lia)].
  safe_step; [apply read_segment_safe; done || lia|].
  safe_step; [|safe_step; [|by apply safe_done]];
    unfold linkedit_data_command_size, dbg_symtab_size in *.
  - do 2 (safe_step; u_step). apply safe_done. destruct Hd as (D1 & D2 & D3 & D4).
    split; [done|split; [done|split; [|done]]]. cbn. intros ? ? ? [= <- <- <-].
    unfold linkedit_data_command_size. lia.
  - do 4 (safe_step; u_step). apply safe_done. destruct Hd as (D1 & D2 & D3 & D4).
    split; [done|split; [done|split; [done|]]]. cbn. intros ? ? ? ? [= <- <- <- <-]. lia.
Qed.

Lemma named_arm_safe n symbol strings strsize sections :
  0 <= symbol -> symbol + Z.of_nat n * dbg_nlist_size <= blen file ->
  0 <= strings -> 0 <= strsize -> strings + strsize <= blen file ->
  safe (named_arm n file symbol strings strsize sections) (fun _ => True).
Proof.
  unfold dbg_nlist_size. revert symbol. induction n as [|n IH]; intros symbol Hs Hl H1 H2 H3;
    cbn [named_arm]; [done|].
  safe_step. eapply (safe_mono _ (fun _ => True)).
  { unfold is_named_arm. do 4 (safe_step; u_step). safe_step; [done|].
    safe_step. u_step. safe_step. u_step. done. }
  intros keep _. safe_step. u_step. safe_step.
  eapply safe_mono; [apply IH; unfold dbg_nlist_size; lia|]. done.
Qed.
End walk.

(** ** What may change *)

(** The data describe the same functions to a reader that drops the low bit. *)
Definition boundaries_kept (text : Z) (data data' : list Z) : Prop :=
  exists ds ns fuel, decode_deltas (S (length data)) data 0 = Some ds /\
    decode_deltas fuel data' 0 = Some ns /\ ds <> [] /\
    untagged_addresses text ns = code_address <$> tagged_addresses text ds /\
    tagged_addresses text ns = sticky false (tagged_addresses text ds).

Inductive starts_rewrite (file : list Z) : list Z -> Prop :=
| StartsKept : starts_rewrite file file
| StartsDisabled o :
    0 <= o -> o + linkedit_data_command_size <= blen file ->
    starts_rewrite file (splice file (o + 12) (le_bytes 4 0))
| StartsRewritten text off data' :
    0 <= off -> off + blen data' <= blen file -> Forall byte_ok data' ->
    boundaries_kept text (sub file off (blen data')) data' ->
    starts_rewrite file (splice file off data').

Lemma starts_rewrite_length file file' :
  Forall byte_ok file -> starts_rewrite file file' ->
  blen file' = blen file /\ Forall byte_ok file'.
Proof.
  intros Hb [|o Ho Hl|text off data' Ho Hl Hd _]; [done|..].
  - unfold linkedit_data_command_size in Hl. split; [apply blen_splice; rewrite ?blen_le_bytes; lia|].
    apply Forall_splice; [done|apply le_bytes_ok].
  - split; [by apply blen_splice|by apply Forall_splice].
Qed.

Lemma splice_zeros n bs : blen bs <= n -> splice (zeros n) 0 bs = bs ++ zeros (n - blen bs).
Proof.
  intros. unfold splice, zeros, blen in *. change (Z.to_nat 0) with 0%nat.
  rewrite take_0, drop_replicate. cbn [app Nat.add]. f_equal. f_equal. lia.
Qed.

Lemma normalize_output_bytes fuel data text textSize named st st' found :
  Forall byte_ok (st_output st) ->
  normalize_starts fuel data text textSize named st = Some (st', found) -> Forall byte_ok (st_output st').
Proof.
  revert st. induction fuel as [|f IH]; intros st Ho; cbn [normalize_starts];
    destruct (_ <=? st_inputOffset st); try done; try (by intros [= <- <-]).
  destruct (ReadULEB128 _ _ _) as [[delta o]|]; [|done]. destruct (delta =? 0); [by intros [= <- <-]|].
  destruct (_ <? delta); [done|]. cbv zeta. destruct (_ || _); [done|]. apply IH. cbn [st_output].
  unfold AppendULEB128. apply Forall_app_2; [done|]. apply uleb_bytes_ok. apply u64_range.
Qed.

Section slice.
Context (file : list Z) (Hbytes : Forall byte_ok file).

(** Rewriting the data of the found command. *)
Lemma rewrite_data text textSize off n named st :
  0 <= text -> 0 <= textSize -> text + textSize <= UINT32_MAX ->
  0 <= off -> 0 <= n -> off + n <= blen file ->
  normalize_starts (length (sub file off n)) (sub file off n) text textSize named
    (mkStarts 0 text text false false true []) = Some (st, true) ->
  st_first st = false -> blen (st_output st ++ [0]) <= n ->
  starts_rewrite file (splice file off (splice (zeros n) 0 (st_output st ++ [0]))).
Proof.
  intros Ht Hs Hf Ho Hn Hl Hnorm Hfirst Hsz.
  assert (Forall byte_ok (sub file off n)) as Hsub by (by apply Forall_sub).
  destruct (rewritten_starts _ _ _ _ _ (zeros (n - blen (st_output st ++ [0]))) Hsub Ht Hs Hf Hnorm
    Hfirst) as (ds & ns & E1 & E2 & E3 & E4 & E5 & _).
  assert (blen (splice (zeros n) 0 (st_output st ++ [0])) = n) as HL.
  { rewrite blen_splice; rewrite ?blen_zeros; lia. }
  apply (StartsRewritten _ text); rewrite ?HL; [done|done| |].
  - apply Forall_splice; [by apply Forall_zeros|]. apply Forall_app_2; [|by repeat constructor].
    eapply normalize_output_bytes; [|exact Hnorm]. constructor.
  - exists ds, ns, (S (length ns)). split; [done|]. split; [|done].
    rewrite splice_zeros by done. rewrite <- app_assoc. exact E2.
Qed.

Lemma normalize_slice_safe sliceOffset sliceSize changed :
  0 <= sliceOffset -> 0 <= sliceSize ->
  safe (NormalizeARMFunctionStartsInSlice file (blen file) sliceOffset sliceSize changed)
    (fun r => starts_rewrite file r.1 /\ (r.2 = changed \/ r.2 = true)).
Proof.
  intros Ho Hs. unfold NormalizeARMFunctionStartsInSlice, mach_header_size.
  do 2 safe_step. inside. safe_step. u_step. set (header := sub file sliceOffset 28).
  assert (blen header = 28) as HL by (apply blen_sub; lia).
  assert (Forall byte_ok header) as HH by (by apply Forall_sub).
  safe_step. u_step. do 2 safe_step. safe_step. u_step.
  safe_step; [apply safe_done; split; [apply StartsKept|by left]|].
  do 2 (safe_step; u_step). do 2 safe_step. inside. cbv zeta. safe_step.
  eapply safe_mono; [apply walk_commands_safe; [done|lia|lia|]|]; [by repeat split|].
  intros d (D1 & D2 & D3 & D4).
  assert (forall P, P (file, changed) -> safe (E := unit) (mret (file, changed)) P) as Hkeep by done.
  assert (starts_rewrite file (file, changed).1 /\ ((file, changed).2 = changed \/ (file, changed).2 = true))
    as Hk by (split; [apply StartsKept|by left]).
  destruct (di_text d) as [[text textSize]|]; [|by apply Hkeep].
  destruct (di_linkedit d) as [[lo ls]|]; [|by apply Hkeep].
  destruct (di_starts d) as [[[so dataoff] datasize]|]; [|by apply Hkeep].
  specialize (D1 _ _ eq_refl). specialize (D2 _ _ eq_refl). specialize (D3 _ _ _ eq_refl).
  safe_step; [by apply Hkeep|]. do 2 safe_step. inside. safe_step.
  eapply (safe_mono _ (fun _ => True)).
  { destruct (di_symbols d) as [[[[symoff nsyms] stroff] strsize]|]; [|done].
    specialize (D4 _ _ _ _ eq_refl). do 2 safe_step. inside. unfold dbg_nlist_size in *.
    apply named_arm_safe; [done|unfold dbg_nlist_size; lia..]. }
  intros named _. safe_step. u_step. safe_step.
  match goal with |- safe (or_reject ?o _) _ => destruct o as [[st found]|] eqn:En; [|done] end.
  cbn [or_reject]. apply safe_done. do 2 safe_step. cbv zeta. subst found.
  unfold linkedit_data_command_size in *.
  safe_step.
  - safe_step. apply safe_store; [lia|rewrite blen_le_bytes; lia|]. apply safe_done.
    split; [|by right]. apply StartsDisabled; unfold linkedit_data_command_size; lia.
  - pose proof (blen_nonneg (st_output st ++ [0])).
    safe_step; [|by apply Hkeep]. safe_step.
    apply safe_store; [lia|rewrite blen_zeros; lia|]. safe_step.
    apply safe_store; [lia|rewrite blen_splice; rewrite ?blen_zeros; lia|]. apply safe_done.
    split; [|by right]. cbn [fst].
    rewrite <- (Z.add_0_r (sliceOffset + dataoff)) at 2.
    rewrite splice_splice_inside by (rewrite ?blen_zeros; lia).
    eapply rewrite_data; [..|exact En|done|done]; unfold UINT32_MAX, U32_MOD in *; lia.
Qed.
End slice.

(** ** The whole file *)

Lemma rewrites_length file file' :
  Forall byte_ok file -> rtc starts_rewrite file file' ->
  blen file' = blen file /\ Forall byte_ok file'.
Proof.
  intros Hb H. induction H as [|x y z Hxy _ IH]; [done|].
  destruct (starts_rewrite_length _ _ Hb Hxy) as [E Hy]. rewrite <- E. by apply IH.
Qed.

Lemma slice_result_safe file changed sliceOffset sliceSize :
  Forall byte_ok file -> 0 <= sliceOffset -> 0 <= sliceSize ->
  safe (slice_result file changed
    (NormalizeARMFunctionStartsInSlice file (blen file) sliceOffset sliceSize changed))
    (fun r => starts_rewrite file r.2.1).
Proof.
  intros Hb Ho Hs. pose proof (normalize_slice_safe file Hb sliceOffset sliceSize changed Ho Hs) as H.
  destruct (NormalizeARMFunctionStartsInSlice _ _ _ _ _) as [r| |]; cbn in *;
    [apply H|constructor|done].
Qed.

Lemma normalize_archs_safe n index swap file changed :
  Forall byte_ok file -> 0 <= index ->
  fat_header_size + (index + Z.of_nat n) * fat_arch_size <= blen file ->
  safe (normalize_archs n index swap file changed) (fun r => rtc starts_rewrite file r.2.1).
Proof.
  unfold fat_header_size, fat_arch_size. revert index file changed.
  induction n as [|n IH]; intros index file changed Hb Hi Hl; cbn [normalize_archs];
    [apply rtc_refl|].
  unfold fat_header_size, fat_arch_size. safe_step. u_step. set (arch := sub file _ 20).
  assert (blen arch = 20) as HL by (apply blen_sub; lia).
  assert (Forall byte_ok arch) as HA by (by apply Forall_sub).
  do 3 (safe_step; apply safe_field32; [done|lia|lia|]; intros ? _ ?).
  safe_step; [apply IH; [done|lia|unfold fat_header_size, fat_arch_size; lia]|].
  apply safe_bind. eapply safe_mono; [apply slice_result_safe; done || lia|].
  intros [valid [file' changed']] Hr. cbn [fst snd] in Hr.
  destruct valid; [|by apply rtc_once].
  destruct (starts_rewrite_length _ _ Hb Hr) as [El Hb'].
  eapply safe_mono; [apply IH; [done|lia|unfold fat_header_size, fat_arch_size; lia]|].
  intros r Hr'. by eapply rtc_l.
Qed.

(** Normalising a debugger's copy of an image is safe.  On any mapped file the
    routine returns without an access outside the mapping; whatever it answers,
    the file keeps its length, and the only changes are rewritten function-starts
    data naming the same functions and sizes set to zero that disable it. *)
Theorem normalize_macho_safe file :
  Forall byte_ok file -> blen file <= INT64_MAX ->
  succeeds (NormalizeDebuggerMachO file) (fun r =>
    rtc starts_rewrite file r.2.1 /\ blen r.2.1 = blen file /\ Forall byte_ok r.2.1).
Proof.
  intros Hb Hm.
  assert (safe (NormalizeDebuggerMachO file) (fun r => rtc starts_rewrite file r.2.1)) as H.
  { unfold NormalizeDebuggerMachO. safe_step; [apply rtc_refl|]. safe_step. u_step.
    safe_step.
    { eapply safe_mono; [apply slice_result_safe; [done|lia|apply blen_nonneg]|].
      intros r Hr. by apply rtc_once. }
    safe_step; [|apply rtc_refl]. safe_step; [apply rtc_refl|].
    inside. unfold fat_header_size in *. cbv zeta. safe_step.
    apply safe_field32; [done|lia|lia|]. intros n _ Hn. safe_step; [apply rtc_refl|]. inside.
    apply normalize_archs_safe; [done|lia|]. unfold fat_header_size, fat_arch_size in *. lia. }
  destruct (NormalizeDebuggerMachO file) as [r|[]|]; [|done]. cbn in *.
  split; [done|]. by apply rewrites_length.
Qed.
