(* ===== verification/GuestPaths.v ===== *)
(** Guest paths (src/HostFrameworks/LC32/filesystem.cpp).

    A guest path is normalised lexically, clamped at the guest's root, and then
    the first mount point that contains it is replaced by its host directory.
    Strings are lists of bytes without their terminator; [Reject e] is a return of
    false with errno [e], and [Fault] a write outside one of the two arrays of
    [NormalizeGuestAbsolutePath]. *)

From stdpp Require Import base list.
From Stdlib Require Import ZArith Lia.
From S2P Require Import Prelude Bytes.

Open Scope Z_scope.

Definition PATH_MAX : Z := 1024.
Definition ENAMETOOLONG : Z := 63.
Definition slash : Z := 47.
Definition dot : Z := 46.

(** ** Scanning *)

Fixpoint skip_slashes (s : list Z) : list Z :=
  match s with
  | c :: r => if c =? slash then skip_slashes r else s
  | [] => []
  end.

(** The component at the start and the rest from its slash on. *)
Fixpoint component (s : list Z) : list Z * list Z :=
  match s with
  | c :: r => if c =? slash then ([], s) else (let '(a, b) := component r in (c :: a, b))
  | [] => ([], [])
  end.

Definition is_dot (c : list Z) : bool := bool_decide (c = [dot]).
Definition is_dotdot (c : list Z) : bool := bool_decide (c = [dot; dot]).

(** [terminalEnd]: strip trailing slashes, but keep the first byte.  The argument
    is the reversed input. *)
Fixpoint strip_trailing (r : list Z) : list Z :=
  match r with
  | c :: ((_ :: _) as t) => if c =? slash then strip_trailing t else r
  | _ => r
  end.

(** The bytes from [terminalStart] to [terminalEnd]. *)
Definition terminal (input : list Z) : list Z := rev (fst (component (strip_trailing (rev input)))).

(** ** Normalisation *)

(** PATH_MAX / 2 + 1. *)
Definition rewind_capacity : Z := PATH_MAX / 2 + 1.

(** The loop: [output] is what was written so far and [rewinds] the lengths in
    [componentRewind], the last one first.  Every round consumes a byte. *)
Fixpoint normalize_loop (fuel : nat) (input : list Z) (rewinds : list Z) (output : list Z)
    : outcome Z (list Z) :=
  match input with
  | [] => mret output
  | _ =>
    match fuel with
    | O => Fault
    | S f =>
        let '(c, rest) := component (skip_slashes input) in
        if bool_decide (c = []) || is_dot c then normalize_loop f rest rewinds output
        else if is_dotdot c then
          match rewinds with
          | [] => normalize_loop f rest [] output
          | n :: rewinds => normalize_loop f rest rewinds (take (Z.to_nat n) output)
          end
        else
          let separatorLength := if blen output =? 1 then 0 else 1 in
          _ ← reject_if (PATH_MAX - blen output - separatorLength <=? blen c) ENAMETOOLONG;
          if rewind_capacity <=? Z.of_nat (length rewinds) then Fault
          else
            let output' := output ++ (if separatorLength =? 0 then [] else [slash]) ++ c in
            if PATH_MAX <? blen output' then Fault
            else normalize_loop f rest (blen output :: rewinds) output'
    end
  end.

Definition NormalizeGuestAbsolutePath (input : list Z) : outcome Z (list Z) :=
  _ ← reject_if (negb (bool_decide (head input = Some slash))) EINVAL;
  _ ← reject_if (PATH_MAX <=? blen input) ENAMETOOLONG;
  let preserveTerminalDirectoryComponent := is_dot (terminal input) || is_dotdot (terminal input) in
  output ← normalize_loop (length input) input [] [slash];
  output ←
    (if preserveTerminalDirectoryComponent then
       let suffixLength := if blen output =? 1 then 1 else 2 in
       _ ← reject_if (PATH_MAX <=? blen output + suffixLength) ENAMETOOLONG;
       mret (output ++ (if blen output =? 1 then [] else [slash]) ++ [dot])
     else if (1 <? blen input) && bool_decide (last input = Some slash) && (1 <? blen output) then
       _ ← reject_if (PATH_MAX <=? blen output + 1) ENAMETOOLONG;
       mret (output ++ [slash])
     else mret output);
  if PATH_MAX <=? blen output then Fault else mret output.

(** ** Mount points *)

(** The string from an offset on; its first byte is the terminator when it is
    empty. *)
Definition isSubpath (target base : list Z) : bool :=
  if blen target <? blen base then false
  else bool_decide (sub target 0 (blen base) = base) &&
       match target !! length base with None => true | Some c => c =? slash end.

(** snprintf into an array of PATH_MAX bytes. *)
Definition print_path (s : list Z) : outcome Z (list Z) :=
  _ ← reject_if (PATH_MAX <=? blen s) ENAMETOOLONG; mret s.

Fixpoint left_to_right (mounts : list (list Z * list Z)) (input rootfs : list Z)
    : outcome Z (list Z) :=
  match mounts with
  | [] => print_path (rootfs ++ input)
  | (lmp, rmp) :: rest =>
      if bool_decide (lmp = [slash]) then left_to_right rest input rmp
      else if isSubpath input lmp then
        let input := drop (length lmp) input in
        print_path ((if bool_decide (rmp = [slash]) && negb (bool_decide (input = []))
                     then [] else rmp) ++ input)
      else left_to_right rest input rootfs
  end.

Definition pathLeftToRight (mounts : list (list Z * list Z)) (input : list Z)
    : outcome Z (list Z) :=
  _ ← reject_if (negb (bool_decide (head input = Some slash))) EINVAL;
  left_to_right mounts input [].

(** The mount points: guest directory and host directory. *)
Record LC32Filesystem := mkFilesystem { mountpoints : list (list Z * list Z) }.

Definition swap_mounts (m : list (list Z * list Z)) : list (list Z * list Z) :=
  (fun '(a, b) => (b, a)) <$> m.

(** [realpath] resolves the host directory. *)
Definition addMountpoint (realpath : list Z -> option (list Z)) (fs : LC32Filesystem)
    (guest host : list Z) : LC32Filesystem :=
  match realpath host with
  | Some real => mkFilesystem (mountpoints fs ++ [(guest, real)])
  | None => fs
  end.

Definition pathHostToGuest (fs : LC32Filesystem) (input : list Z) : outcome Z (list Z) :=
  pathLeftToRight (swap_mounts (mountpoints fs)) input.

(** [cwd]: the result of getcwd, or its errno. *)
Definition pathGuestToHost (fs : LC32Filesystem) (cwd : Z + list Z) (input : list Z)
    : outcome Z (list Z) :=
  _ ← reject_if (bool_decide (input = [])) ENOENT;
  normalizedPath ←
    (if bool_decide (head input = Some slash) then NormalizeGuestAbsolutePath input
     else
       hostCWD ← (match cwd with inl e => Reject e | inr s => Done s end);
       guestCWD ← pathHostToGuest fs hostCWD;
       guestPath ← print_path (guestCWD ++ [slash] ++ input);
       NormalizeGuestAbsolutePath guestPath);
  pathLeftToRight (mountpoints fs) normalizedPath.
