(* ===== verification/GuestPathsProps.v ===== *)
(** Path normalisation against a reference definition, and containment.

    The reference splits a path at its slashes, resolves the components on a stack
    whose bottom is the guest's root, and prints the result; the code works on two
    fixed arrays and one pass over the bytes. *)

From stdpp Require Import base list.
From Stdlib Require Import ZArith Lia.
From S2P Require Import Prelude Bytes GuestPaths.

Open Scope Z_scope.

(** ** The reference *)

(** The strings between the slashes. *)
Fixpoint split (s : list Z) : list (list Z) :=
  match s with
  | [] => [[]]
  | c :: r =>
      if c =? slash then [] :: split r
      else match split r with h :: t => (c :: h) :: t | [] => [[c]] end
  end.

(** The components of a path. *)
Definition parts (s : list Z) : list (list Z) := filter (fun c => c <> []) (split s).

(** One component on the stack of names; [..] at the root stays there. *)
Definition enter (stack : list (list Z)) (c : list Z) : list (list Z) :=
  if is_dot c then stack else if is_dotdot c then tail stack else c :: stack.

(** The names a path leads through from the root. *)
Definition resolve (cs : list (list Z)) : list (list Z) := rev (foldl enter [] cs).

Definition print (cs : list (list Z)) : list Z := mjoin ((fun c => slash :: c) <$> cs).
Definition render (cs : list (list Z)) : list Z := match cs with [] => [slash] | _ => print cs end.

(** Whether the last component is [.] or [..]. *)
Definition ends_in_dots (cs : list (list Z)) : bool :=
  match last cs with Some c => is_dot c || is_dotdot c | None => false end.

(** A path that names a directory through its last component or a final slash
    keeps saying so. *)
Definition normal_suffix (input : list Z) : list Z :=
  let out := resolve (parts input) in
  if ends_in_dots (parts input) then (match out with [] => [] | _ => [slash] end) ++ [dot]
  else match out with
       | [] => []
       | _ => if bool_decide (last input = Some slash) then [slash] else []
       end.

Definition normal_path (input : list Z) : list Z :=
  render (resolve (parts input)) ++ normal_suffix input.

(** A name: not empty, without slash, and neither [.] nor [..]. *)
Definition is_name (c : list Z) : Prop :=
  c <> [] /\ Forall (fun b => b <> slash) c /\ c <> [dot] /\ c <> [dot; dot].

(** ** Splitting *)

Lemma split_cons s : exists h t, split s = h :: t.
Proof.
  induction s as [|c s (h & t & IH)]; cbn; [by eexists _, _|].
  rewrite IH. destruct (c =? slash); by eexists _, _.
Qed.

Lemma split_app a b : split (a ++ slash :: b) = split a ++ split b.
Proof.
  induction a as [|c a IH]; [done|]. cbn. rewrite IH.
  destruct (c =? slash); [done|]. by destruct (split_cons a) as (h & t & ->).
Qed.

Lemma split_plain c : Forall (fun b => b <> slash) c -> split c = [c].
Proof.
  induction 1 as [|b c Hb _ IH]; [done|]. cbn. rewrite IH.
  by rewrite (proj2 (Z.eqb_neq b slash) Hb).
Qed.

Lemma split_no_slash s : Forall (Forall (fun b => b <> slash)) (split s).
Proof.
  induction s as [|c s IH]; cbn; [by repeat constructor|].
  destruct (Z.eqb_spec c slash); [by constructor|].
  destruct (split_cons s) as (h & t & E). rewrite E in *.
  inversion_clear IH. by repeat constructor.
Qed.

Lemma parts_app a b : parts (a ++ slash :: b) = parts a ++ parts b.
Proof. unfold parts. by rewrite split_app, filter_app. Qed.

Lemma parts_slash b : parts (slash :: b) = parts b.
Proof. apply (parts_app [] b). Qed.

Lemma parts_plain c : c <> [] -> Forall (fun b => b <> slash) c -> parts c = [c].
Proof. intros Hc H. unfold parts. rewrite split_plain by done. by rewrite filter_cons_True. Qed.

Lemma parts_ok s : Forall (fun c => c <> [] /\ Forall (fun b => b <> slash) c) (parts s).
Proof.
  apply Forall_forall. intros c Hc. unfold parts in Hc.
  apply list_elem_of_filter in Hc as [Hc Hin].
  split; [done|]. pose proof (split_no_slash s) as H. rewrite Forall_forall in H. by apply H.
Qed.

(** The bytes a list of components takes, a slash before each. *)
Definition size (cs : list (list Z)) : Z := blen (print cs).

Lemma blen_nil : blen [] = 0.
Proof. done. Qed.

Lemma blen_cons b s : blen (b :: s) = 1 + blen s.
Proof. unfold blen. cbn [length]. lia. Qed.

Lemma size_cons c cs : size (c :: cs) = 1 + blen c + size cs.
Proof.
  unfold size. change (print (c :: cs)) with ((slash :: c) ++ print cs).
  unfold blen. rewrite length_app. cbn [length]. lia.
Qed.

Lemma size_app a b : size (a ++ b) = size a + size b.
Proof. unfold size, print. rewrite fmap_app, join_app. unfold blen. rewrite length_app. lia. Qed.

Lemma size_rev a : size (rev a) = size a.
Proof.
  induction a as [|c a IH]; [done|]. cbn [rev]. rewrite size_app, IH, !size_cons.
  unfold size. cbn. unfold blen. cbn. lia.
Qed.

Lemma size_nonneg cs : 0 <= size cs.
Proof. apply blen_nonneg. Qed.

Lemma size_split s : size (split s) = 1 + blen s.
Proof.
  induction s as [|c s IH]; [done|]. cbn. destruct (c =? slash).
  - rewrite size_cons, IH, blen_cons, blen_nil. lia.
  - destruct (split_cons s) as (h & t & E). rewrite E in *.
    rewrite size_cons in *. rewrite !blen_cons. lia.
Qed.

Lemma size_parts cs : size (filter (fun c => c <> []) cs) <= size cs.
Proof.
  induction cs as [|c cs IH]; [done|]. rewrite filter_cons. pose proof (blen_nonneg c).
  destruct (decide _); rewrite !size_cons in *; lia.
Qed.

(** ** The loop *)

Lemma skip_slashes_spec s :
  exists k, s = replicate k slash ++ skip_slashes s /\ head (skip_slashes s) <> Some slash.
Proof.
  induction s as [|c s (k & E & H)]; [by exists O|]. cbn.
  destruct (Z.eqb_spec c slash) as [-> | Hc].
  - exists (S k). cbn. by rewrite <- E.
  - exists O. split; [done|]. cbn. by intros [=].
Qed.

Lemma component_spec s :
  let '(c, rest) := component s in
  s = c ++ rest /\ Forall (fun b => b <> slash) c /\ (rest = [] \/ exists r, rest = slash :: r).
Proof.
  induction s as [|b s IH]; cbn; [by auto|].
  destruct (Z.eqb_spec b slash) as [-> | Hb]; [eauto 6|].
  destruct (component s) as [c rest]. destruct IH as (-> & Hc & Hr). auto.
Qed.

Lemma parts_replicate k s : parts (replicate k slash ++ s) = parts s.
Proof. induction k as [|k IH]; [done|]. cbn [replicate app]. by rewrite parts_slash. Qed.

(** What one round of the loop finds at the cursor. *)
Lemma next_component s c rest :
  (exists r, s = slash :: r) -> component (skip_slashes s) = (c, rest) ->
  parts s = (if bool_decide (c = []) then [] else [c]) ++ parts rest /\
  blen c + blen rest < blen s /\ (rest = [] \/ exists r, rest = slash :: r).
Proof.
  intros [r ->] E. destruct (skip_slashes_spec (slash :: r)) as (k & Ek & _).
  pose proof (component_spec (skip_slashes (slash :: r))) as H. rewrite E in H.
  destruct H as (Es & Hc & Hr). rewrite Es in Ek.
  assert (Hk : k <> O).
  { intros ->. cbn in Ek. destruct c as [|b c]; [|inversion_clear Hc; by injection Ek].
    destruct (skip_slashes_spec (slash :: r)) as (_ & _ & Hh). rewrite Es in Hh.
    destruct Hr as [-> | [r' ->]]; done. }
  rewrite Ek, parts_replicate. split_and!; [|rewrite !blen_app|done].
  - case_bool_decide as Hn; [by subst c|]. destruct Hr as [-> | [r' ->]].
    + by rewrite !app_nil_r, parts_plain.
    + rewrite parts_slash, parts_app, parts_plain by done. done.
  - destruct k; [done|]. cbn [replicate]. rewrite blen_cons. pose proof (blen_nonneg (replicate k slash)). lia.
Qed.

(** The lengths in [componentRewind]: what was written below each name. *)
Fixpoint lengths (stack : list (list Z)) : list Z :=
  match stack with [] => [] | _ :: t => blen (render (rev t)) :: lengths t end.

Lemma print_snoc cs c : print (cs ++ [c]) = print cs ++ slash :: c.
Proof. unfold print. rewrite fmap_app, join_app. cbn. by rewrite app_nil_r. Qed.

Lemma render_print cs : cs <> [] -> render cs = print cs.
Proof. by destruct cs. Qed.

(** A name takes a slash and at least one byte. *)
Lemma size_names cs : Forall is_name cs -> 2 * Z.of_nat (length cs) <= size cs.
Proof.
  induction 1 as [|c cs (Hc & _) _ IH]; [done|]. rewrite size_cons. cbn [length].
  destruct c; [done|]. rewrite blen_cons. pose proof (blen_nonneg c). lia.
Qed.

Lemma blen_render cs :
  Forall is_name cs -> blen (render cs) = if decide (cs = []) then 1 else size cs.
Proof. intros _. destruct (decide _) as [-> | H]; [done|]. by rewrite render_print. Qed.

Lemma render_length_one cs :
  Forall is_name cs -> (blen (render cs) =? 1) = bool_decide (cs = []).
Proof.
  intros H. rewrite blen_render by done. destruct (decide _) as [E|E].
  - by rewrite bool_decide_true.
  - rewrite bool_decide_false by done. pose proof (size_names cs H).
    destruct cs; [done|]. cbn [length] in *. apply Z.eqb_neq. lia.
Qed.

(** Writing a name behind the output. *)
Lemma render_snoc cs c :
  Forall is_name cs ->
  render (cs ++ [c]) = render cs ++ (if blen (render cs) =? 1 then [] else [slash]) ++ c.
Proof.
  intros H. rewrite render_length_one by done.
  case_bool_decide as E; [subst; cbn; by rewrite app_nil_r|].
  rewrite !render_print; [by rewrite print_snoc|done|by destruct cs].
Qed.

(** Cutting the output back to a recorded length drops the last name. *)
Lemma render_rewind cs c :
  Forall is_name cs -> take (Z.to_nat (blen (render cs))) (render (cs ++ [c])) = render cs.
Proof.
  intros H. rewrite render_snoc by done. unfold blen at 1. rewrite Nat2Z.id. by rewrite take_app_length.
Qed.

Lemma length_lengths stack : length (lengths stack) = length stack.
Proof. induction stack; cbn; auto. Qed.

Lemma enter_names stack c :
  Forall is_name stack -> c <> [] -> Forall (fun b => b <> slash) c -> Forall is_name (enter stack c).
Proof.
  intros H Hc Hs. unfold enter, is_dot, is_dotdot.
  repeat case_bool_decide; [done|by destruct H|]. by constructor.
Qed.

Lemma foldl_enter_names cs stack :
  Forall is_name stack -> Forall (fun c => c <> [] /\ Forall (fun b => b <> slash) c) cs ->
  Forall is_name (foldl enter stack cs).
Proof.
  intros H Hcs. revert stack H. induction Hcs as [|c cs [Hc Hs] _ IH]; intros stack H; [done|].
  cbn. by apply IH, enter_names.
Qed.

Lemma resolve_names s : Forall is_name (resolve (parts s)).
Proof. apply Forall_rev, foldl_enter_names; [constructor|apply parts_ok]. Qed.

(** The loop computes the reference, within both arrays, as long as what is written
    and what is to be read together fit. *)
Lemma normalize_loop_ok fuel input stack :
  Forall is_name stack -> (input = [] \/ exists r, input = slash :: r) ->
  blen input <= Z.of_nat fuel -> size stack + blen input < PATH_MAX ->
  normalize_loop fuel input (lengths stack) (render (rev stack)) =
  Done (render (rev (foldl enter stack (parts input)))).
Proof.
  revert input stack. induction fuel as [|fuel IH]; intros input stack Hn Hi Hf Hs.
  { destruct input; [done|]. rewrite blen_cons in Hf. pose proof (blen_nonneg input). lia. }
  destruct Hi as [-> | Hi]; [done|].
  destruct (component (skip_slashes input)) as [c rest] eqn:E.
  destruct (next_component _ _ _ Hi E) as (Hp & Hl & Hr).
  assert (Hc : Forall (fun b => b <> slash) c).
  { pose proof (component_spec (skip_slashes input)) as H. rewrite E in H. apply H. }
  pose proof (blen_nonneg c). pose proof (blen_nonneg rest). pose proof (size_nonneg stack).
  destruct Hi as [r ->]. cbn [normalize_loop]. cbv zeta. rewrite E, Hp, foldl_app.
  case_bool_decide as Hz; [rewrite orb_true_l; cbn [foldl]; apply IH; auto; lia|].
  rewrite orb_false_l. cbn [foldl]. unfold enter at 2.
  destruct (is_dot c) eqn:Hd; [apply IH; auto; lia|].
  destruct (is_dotdot c) eqn:Hdd.
  { destruct stack as [|x stack]; cbn [lengths tail].
    - apply (IH rest []); auto; lia.
    - inversion_clear Hn. cbn [rev]. rewrite render_rewind by (by apply Forall_rev).
      rewrite size_cons in *. pose proof (blen_nonneg x). apply IH; auto; lia. }
  assert (Hname : is_name c).
  { unfold is_dot, is_dotdot in *. apply bool_decide_eq_false in Hd, Hdd. by split_and!. }
  assert (Hrev : Forall is_name (rev stack)) by (by apply Forall_rev).
  rewrite (render_length_one _ Hrev).
  pose proof (blen_render _ Hrev) as Hout. pose proof (render_snoc _ c Hrev) as Hsn.
  rewrite (render_length_one _ Hrev) in Hsn. rewrite size_rev in Hout.
  assert (Hfit : blen (render (rev stack)) + (if bool_decide (rev stack = []) then 0 else 1) + blen c
                 < PATH_MAX).
  { rewrite Hout. destruct (decide (rev stack = [])) as [E0|E0].
    - rewrite bool_decide_true by done. unfold PATH_MAX in *. lia.
    - rewrite bool_decide_false by done. unfold PATH_MAX in *. lia. }
  assert (Hcount : 2 * Z.of_nat (length stack) <= size stack) by (by apply size_names).
  set (sep := if bool_decide (rev stack = []) then 0 else 1) in *.
  assert (Esep : (if sep =? 0 then [] else [slash]) = if bool_decide (rev stack = []) then [] else [slash])
    by (unfold sep; by destruct (bool_decide _)).
  unfold reject_if. rewrite (proj2 (Z.leb_gt (PATH_MAX - _ - sep) (blen c))) by lia. cbn [mbind outcome_bind].
  assert (Hcap : (rewind_capacity <=? Z.of_nat (length stack)) = false).
  { apply Z.leb_gt. change rewind_capacity with 513. unfold PATH_MAX in Hs. lia. }
  rewrite length_lengths, Hcap.
  rewrite Esep, <- Hsn.
  assert (Hlen : blen (render (rev stack ++ [c])) <= PATH_MAX).
  { rewrite Hsn, !blen_app. unfold sep in Hfit.
    destruct (bool_decide (rev stack = [])); rewrite ?blen_cons, ?blen_nil; lia. }
  rewrite (proj2 (Z.ltb_ge _ _)) by lia.
  apply (IH rest (c :: stack)); [by constructor|done|lia|]. rewrite size_cons. lia.
Qed.

(** ** The last component *)

Lemma split_snoc s c :
  c <> slash -> exists pre l, split s = pre ++ [l] /\ split (s ++ [c]) = pre ++ [l ++ [c]].
Proof.
  intros Hc. induction s as [|b s (pre & l & E & E')].
  - exists [], []. cbn. by rewrite (proj2 (Z.eqb_neq c slash) Hc).
  - cbn. rewrite E, E'. destruct (b =? slash); [by exists ([] :: pre), l|].
    destruct pre as [|h pre]; [by exists [], (b :: l)|by exists ((b :: h) :: pre), l].
Qed.

Lemma last_split s : last (split s) = Some (rev (fst (component (rev s)))).
Proof.
  induction s as [|c s IH] using rev_ind; [done|]. rewrite rev_app_distr. cbn.
  destruct (Z.eqb_spec c slash) as [-> | Hc].
  - rewrite split_app, last_app. done.
  - destruct (split_snoc s c Hc) as (pre & l & E & ->). rewrite E, last_snoc in IH.
    destruct (component (rev s)) as [a b]. cbn in *. rewrite last_snoc. by injection IH as ->.
Qed.

Lemma last_parts s : default [] (last (parts s)) = rev (fst (component (skip_slashes (rev s)))).
Proof.
  induction s as [|c s IH] using rev_ind; [done|]. rewrite rev_app_distr. cbn [rev app skip_slashes].
  destruct (Z.eqb_spec c slash) as [-> | Hc].
  - rewrite parts_app. change (parts []) with (@nil (list Z)). by rewrite app_nil_r.
  - pose proof (last_split (s ++ [c])) as H. rewrite rev_app_distr in H.
    destruct (split_snoc s c Hc) as (pre & l & _ & E). rewrite E, last_snoc in H. injection H as H. cbn [rev app] in H.
    cbn [component]. rewrite <- H.
    unfold parts. rewrite E, filter_app, filter_cons_True by (by destruct l). cbn.
    by rewrite last_snoc.
Qed.

Lemma strip_trailing_skip r :
  fst (component (strip_trailing (r ++ [slash]))) = fst (component (skip_slashes r)).
Proof.
  induction r as [|c r IH]; [done|]. cbn [app strip_trailing skip_slashes].
  destruct (r ++ [slash]) as [|x y] eqn:E; [by destruct r|]. rewrite <- E in *.
  destruct (Z.eqb_spec c slash) as [-> | Hc]; [done|]. cbn [component].
  rewrite (proj2 (Z.eqb_neq c slash) Hc).
  assert (H : fst (component (r ++ [slash])) = fst (component r)).
  { clear. induction r as [|b r IH]; [done|]. cbn. destruct (b =? slash); [done|].
    destruct (component (r ++ [slash])), (component r). cbn in *. by rewrite IH. }
  destruct (component (r ++ [slash])), (component r). cbn in *. by rewrite H.
Qed.

Lemma terminal_parts r : terminal (slash :: r) = default [] (last (parts (slash :: r))).
Proof.
  unfold terminal. cbn [rev]. by rewrite strip_trailing_skip, parts_slash, last_parts.
Qed.

Lemma ends_in_dots_terminal r :
  is_dot (terminal (slash :: r)) || is_dotdot (terminal (slash :: r)) =
  ends_in_dots (parts (slash :: r)).
Proof. rewrite terminal_parts. unfold ends_in_dots. by destruct (last _). Qed.

(** ** The result fits *)

Lemma size_enter stack c : size (enter stack c) <= size stack + 1 + blen c.
Proof.
  pose proof (blen_nonneg c). unfold enter. destruct (is_dot c); [lia|].
  destruct (is_dotdot c); [|rewrite size_cons; lia].
  destruct stack as [|x stack]; cbn [tail]; [lia|]. rewrite size_cons. pose proof (blen_nonneg x). lia.
Qed.

Lemma size_foldl cs stack : size (foldl enter stack cs) <= size stack + size cs.
Proof.
  revert stack. induction cs as [|c cs IH]; intros stack; [cbn [foldl]; change (size []) with 0; lia|].
  cbn [foldl]. rewrite size_cons. specialize (IH (enter stack c)). pose proof (size_enter stack c). lia.
Qed.

(** A final [.] or [..] adds nothing. *)
Lemma size_resolve_dots cs : ends_in_dots cs = true -> size (resolve cs) + 2 <= size cs.
Proof.
  unfold ends_in_dots, resolve. rewrite size_rev. destruct (last cs) as [c|] eqn:E; [|done].
  intros Hd. apply last_Some in E as [l ->]. rewrite foldl_snoc, size_app, size_cons.
  pose proof (size_foldl l []) as H. change (size []) with 0 in *.
  assert (1 <= blen c) by (destruct c; [done|]; rewrite blen_cons; pose proof (blen_nonneg c); lia).
  set (stack := foldl enter [] l) in *. clearbody stack.
  unfold enter. destruct (is_dot c); [lia|]. cbn in Hd. rewrite Hd.
  destruct stack as [|x t]; cbn [tail]; [lia|].
  rewrite size_cons in H. pose proof (blen_nonneg x). lia.
Qed.

Lemma size_parts_slash r : size (parts (slash :: r)) <= blen (slash :: r).
Proof.
  rewrite parts_slash, blen_cons. unfold parts. rewrite <- size_split. apply size_parts.
Qed.

Lemma size_parts_trailing r :
  last (slash :: r) = Some slash -> r <> [] -> size (parts (slash :: r)) < blen (slash :: r).
Proof.
  intros Hl Hr. destruct r as [|b r'] using rev_ind; [done|clear IHr'].
  rewrite app_comm_cons, last_snoc in Hl. injection Hl as ->.
  rewrite app_comm_cons, parts_app. change (parts []) with (@nil (list Z)). rewrite app_nil_r.
  pose proof (size_parts_slash r'). rewrite blen_app. change (blen [slash]) with 1. lia.
Qed.

(** [NormalizeGuestAbsolutePath] computes the reference. *)
Lemma normalize_reference input :
  head input = Some slash -> blen input < PATH_MAX ->
  NormalizeGuestAbsolutePath input = Done (normal_path input) /\
  blen (normal_path input) <= blen input.
Proof.
  intros Hh Hlen. destruct input as [|b r]; [done|]. injection Hh as ->.
  unfold NormalizeGuestAbsolutePath. cbv zeta.
  rewrite (bool_decide_true (head (slash :: r) = Some slash)) by done. unfold reject_if at 1 2. cbn [negb mbind outcome_bind].
   rewrite (proj2 (Z.leb_gt PATH_MAX (blen (slash :: r))) Hlen). cbn [mbind outcome_bind].
  rewrite ends_in_dots_terminal.
  rewrite (normalize_loop_ok _ _ []); [|constructor|eauto|unfold blen; lia|change (size []) with 0; lia]. cbn [mbind outcome_bind].
  fold (resolve (parts (slash :: r))).
  pose proof (resolve_names (slash :: r)) as Hn. pose proof (blen_render _ Hn) as Hb.
  rewrite (render_length_one _ Hn). unfold normal_path, normal_suffix.
  pose proof (size_parts_slash r) as Hs. pose proof (size_resolve_dots (parts (slash :: r))) as Hdots.
  pose proof (size_foldl (parts (slash :: r)) []) as Hf. change (size []) with 0 in Hf.
  rewrite <- size_rev in Hf. fold (resolve (parts (slash :: r))) in Hf.
  pose proof (size_parts_trailing r) as Htr. pose proof (size_names _ Hn) as Hsz.
  set (out := resolve (parts (slash :: r))) in *. set (n := blen (slash :: r)) in *.
  destruct (ends_in_dots (parts (slash :: r))).
  - specialize (Hdots eq_refl). unfold reject_if.
    assert (Hres : blen (render out ++ (if bool_decide (out = []) then [] else [slash]) ++ [dot]) <= n /\
                   blen (render out) + (if bool_decide (out = []) then 1 else 2) < PATH_MAX).
    { rewrite !blen_app, Hb. pose proof (size_nonneg out).
      destruct (decide (out = [])) as [E|E].
      - rewrite !bool_decide_true by done. change (blen [dot]) with 1. change (blen []) with 0. lia.
      - rewrite !bool_decide_false by done. change (blen [dot]) with 1. change (blen [slash]) with 1. lia. }
    destruct Hres as [Hres Hfit]. rewrite (proj2 (Z.leb_gt _ _) Hfit). cbn [mbind outcome_bind mret outcome_ret].
    rewrite (proj2 (Z.leb_gt PATH_MAX _)) by lia.
    assert (E : (if bool_decide (out = []) then [] else [slash]) = match out with [] => [] | _ => [slash] end)
      by (by destruct out).
    rewrite E in *. done.
  - destruct (decide (out = [])) as [E|E].
    { assert (1 <= n) by (unfold n; rewrite blen_cons; pose proof (blen_nonneg r); lia).
      rewrite E. change (1 <? blen (render [])) with false. rewrite andb_false_r. done. }
    assert (2 <= size out) by (destruct out; [done|]; cbn [length] in Hsz; lia).
    rewrite Hb, (proj2 (Z.ltb_lt 1 n)), (proj2 (Z.ltb_lt 1 (size out))), andb_true_l, andb_true_r by lia.
    assert (Em : forall X : list Z, match out with [] => [] | _ => X end = X) by (by destruct out).
    rewrite Em. case_bool_decide as El.
    + assert (size out + 1 <= n).
      { specialize (Htr El). enough (r <> []) by (specialize (Htr ltac:(done)); lia).
        intros ->. assert (n = 1) by done. lia. }
      unfold reject_if. rewrite (proj2 (Z.leb_gt PATH_MAX _)) by lia.
      cbn [mbind outcome_bind mret outcome_ret]. rewrite blen_app, Hb. change (blen [slash]) with 1.
      rewrite (proj2 (Z.leb_gt PATH_MAX _)) by lia. split; [done|lia].
    + cbn [mbind outcome_bind mret outcome_ret]. rewrite app_nil_r, Hb.
      rewrite (proj2 (Z.leb_gt PATH_MAX _)) by lia. split; [done|lia].
Qed.

(** ** What a normal path leads through *)

Lemma parts_snoc_slash s : parts (s ++ [slash]) = parts s.
Proof. rewrite parts_app. change (parts []) with (@nil (list Z)). apply app_nil_r. Qed.

Lemma parts_print cs s :
  Forall is_name cs -> (s = [] \/ exists r, s = slash :: r) -> parts (print cs ++ s) = cs ++ parts s.
Proof.
  intros H Hs. induction H as [|c cs (Hc & Hn & _) _ IH]; [done|].
  change (print (c :: cs)) with (slash :: c ++ print cs).
  cbn [app]. rewrite parts_slash, <- app_assoc.
  assert (Ht : print cs ++ s = [] \/ exists r, print cs ++ s = slash :: r).
  { destruct cs; [done|]. right. by eexists. }
  rewrite <- IH. destruct Ht as [-> | [r ->]].
  - rewrite app_nil_r, parts_plain by done. done.
  - rewrite parts_app, parts_slash, parts_plain by done. done.
Qed.

Lemma parts_render cs : Forall is_name cs -> parts (render cs) = cs.
Proof.
  intros H. destruct cs as [|c cs]; [done|]. unfold render.
  rewrite <- (app_nil_r (print _)), parts_print by auto.
  change (parts []) with (@nil (list Z)). apply app_nil_r.
Qed.

(** The components of the result: the names, and a final [.] where it was kept. *)
Lemma parts_normal input :
  parts (normal_path input) =
  resolve (parts input) ++ (if ends_in_dots (parts input) then [[dot]] else []).
Proof.
  unfold normal_path, normal_suffix. pose proof (resolve_names input) as H.
  destruct (resolve (parts input)) as [|c cs]; [by destruct (ends_in_dots _)|].
  destruct (ends_in_dots _).
  - unfold render. rewrite parts_print; [done|done|right; by eexists].
  - case_bool_decide; rewrite ?parts_snoc_slash, ?app_nil_r; by apply parts_render.
Qed.

Lemma foldl_enter_self cs stack : Forall is_name cs -> foldl enter stack cs = rev cs ++ stack.
Proof.
  intros H. revert stack. induction H as [|c cs (_ & _ & Hd & Hdd) _ IH]; intros stack; [done|].
  cbn [foldl rev]. unfold enter at 2, is_dot, is_dotdot. rewrite !bool_decide_false by done.
  rewrite IH, <- app_assoc. done.
Qed.

Lemma resolve_normal input : resolve (parts (normal_path input)) = resolve (parts input).
Proof.
  rewrite parts_normal. unfold resolve at 1. rewrite foldl_app.
  rewrite (foldl_enter_self (resolve (parts input))) by apply resolve_names. rewrite app_nil_r.
  destruct (ends_in_dots _); cbn [foldl]; [unfold enter; cbn|]; apply rev_involutive.
Qed.

Lemma ends_normal input : ends_in_dots (parts (normal_path input)) = ends_in_dots (parts input).
Proof.
  rewrite parts_normal. destruct (ends_in_dots (parts input)) eqn:E.
  - unfold ends_in_dots. by rewrite last_snoc.
  - rewrite app_nil_r. pose proof (resolve_names input) as H. unfold ends_in_dots.
    destruct (last (resolve (parts input))) as [c|] eqn:El; [|done].
    apply last_Some in El as [l El]. rewrite El in H. apply Forall_app in H as [_ H].
    inversion_clear H as [|? ? (_ & _ & Hd & Hdd)].
    unfold is_dot, is_dotdot. by rewrite !bool_decide_false.
Qed.

Lemma last_normal input :
  ends_in_dots (parts input) = false -> resolve (parts input) <> [] ->
  (last (normal_path input) = Some slash <-> last input = Some slash).
Proof.
  intros Hd Hn. unfold normal_path, normal_suffix. rewrite Hd.
  pose proof (resolve_names input) as H. destruct (resolve (parts input)) as [|c cs]; [done|].
  case_bool_decide as El; [by rewrite last_snoc|]. rewrite app_nil_r. unfold render.
  split; [|done]. destruct (last (c :: cs)) as [x|] eqn:Ex; [|by apply last_None in Ex].
  apply last_Some in Ex as [l Ex]. rewrite Ex in *. rewrite print_snoc.
  apply Forall_app in H as [_ H]. inversion_clear H as [|? ? (Hx & Hs & _)].
  rewrite last_app, last_cons. destruct (last x) as [b|] eqn:Eb; [|by apply last_None in Eb].
  intros [= ->]. apply last_Some in Eb as [k ->]. apply Forall_app in Hs as [_ Hs]. by inversion_clear Hs.
Qed.

(** Normalising twice changes nothing. *)
Lemma normal_path_idem input : normal_path (normal_path input) = normal_path input.
Proof.
  unfold normal_path at 1. rewrite resolve_normal. unfold normal_path at 2. f_equal.
  unfold normal_suffix. rewrite resolve_normal, ends_normal.
  destruct (ends_in_dots (parts input)) eqn:Ed; [done|].
  destruct (resolve (parts input)) eqn:Er; [done|].
  assert (H := last_normal input Ed). rewrite Er in H. specialize (H ltac:(done)).
  by rewrite (bool_decide_ext _ _ H).
Qed.

Lemma normal_path_no_dotdot input : [dot; dot] ∉ parts (normal_path input).
Proof.
  rewrite parts_normal. rewrite elem_of_app. intros [H|H].
  - pose proof (resolve_names input) as Hn. rewrite Forall_forall in Hn. by destruct (Hn _ H) as (_ & _ & _ & Hd).
  - destruct (ends_in_dots _); [|by apply elem_of_nil in H]. by apply list_elem_of_singleton in H.
Qed.

Lemma head_normal input : head (normal_path input) = Some slash.
Proof. unfold normal_path. by destruct (resolve (parts input)). Qed.

(** ** Mount points *)

(** What follows a directory in a path below it. *)
Definition below (rest : list Z) : Prop := rest = [] \/ exists r, rest = slash :: r.

Lemma isSubpath_spec target base :
  isSubpath target base = true <-> exists rest, target = base ++ rest /\ below rest.
Proof.
  unfold isSubpath, sub, blen, below. rewrite Nat2Z.id, Z2Nat.inj_0, drop_0. split.
  - destruct (Z.ltb_spec (Z.of_nat (length target)) (Z.of_nat (length base))); [done|].
    intros Hb. apply andb_true_iff in Hb as [Hp Hl]. apply bool_decide_eq_true in Hp.
    exists (drop (length base) target). split; [by rewrite <- Hp at 1; rewrite take_drop|].
    destruct (target !! length base) as [c|] eqn:E.
    + right. apply Z.eqb_eq in Hl as ->. exists (drop (S (length base)) target). by apply drop_S.
    + left. apply lookup_ge_None in E. by apply drop_ge.
  - intros (rest & -> & Hr). rewrite length_app.
    destruct (Z.ltb_spec (Z.of_nat (length base + length rest)) (Z.of_nat (length base))); [lia|].
    rewrite take_app_length, bool_decide_true by done. cbn [andb].
    rewrite lookup_app_r by lia. rewrite Nat.sub_diag. by destruct Hr as [-> | [r ->]].
Qed.

Lemma parts_below a rest : below rest -> parts (a ++ rest) = parts a ++ parts rest.
Proof.
  intros [-> | [r ->]]; [|by rewrite parts_app, parts_slash].
  change (parts []) with (@nil (list Z)). by rewrite !app_nil_r.
Qed.

(** The mount that translates a path: the first one, the root apart, that contains
    it, or else the last root. *)
Definition contains (input : list Z) (m : list Z * list Z) : bool :=
  negb (bool_decide (m.1 = [slash])) && isSubpath input m.1.

Fixpoint first_mount (mounts : list (list Z * list Z)) (input : list Z) : option (list Z * list Z) :=
  match mounts with
  | [] => None
  | m :: rest => if contains input m then Some m else first_mount rest input
  end.

Definition root_host (mounts : list (list Z * list Z)) : list Z :=
  default [] (snd <$> last (filter (fun m => m.1 = [slash]) mounts)).

(** The host directory as it is printed before a non-empty rest. *)
Definition host_prefix (dir rest : list Z) : list Z :=
  if bool_decide (dir = [slash]) && negb (bool_decide (rest = [])) then [] else dir.

Definition translate (mounts : list (list Z * list Z)) (input : list Z) : list Z :=
  match first_mount mounts input with
  | Some (g, h) => let rest := drop (length g) input in host_prefix h rest ++ rest
  | None => root_host mounts ++ input
  end.

Lemma left_to_right_spec mounts pre input :
  left_to_right mounts input (root_host pre) =
  print_path (match first_mount mounts input with
              | Some (g, h) => let rest := drop (length g) input in host_prefix h rest ++ rest
              | None => root_host (pre ++ mounts) ++ input
              end).
Proof.
  revert pre. induction mounts as [|[g h] mounts IH]; intros pre; [by rewrite app_nil_r|].
  cbn [left_to_right first_mount]. unfold contains. cbn [fst].
  replace (pre ++ (g, h) :: mounts) with ((pre ++ [(g, h)]) ++ mounts) by (by rewrite <- app_assoc).
  case_bool_decide as Hg; cbn [negb andb].
  - rewrite <- IH. f_equal. unfold root_host.
    rewrite filter_app, filter_cons_True by done. cbn. by rewrite last_snoc.
  - destruct (isSubpath input g); [done|]. rewrite <- IH. f_equal. unfold root_host.
    rewrite filter_app, filter_cons_False by done. cbn. by rewrite app_nil_r.
Qed.

Lemma path_left_to_right mounts input :
  head input = Some slash -> pathLeftToRight mounts input = print_path (translate mounts input).
Proof.
  intros H. unfold pathLeftToRight. rewrite bool_decide_true by done. cbn [negb reject_if mbind outcome_bind].
  apply (left_to_right_spec mounts []).
Qed.

Lemma first_mount_some mounts input g h :
  first_mount mounts input = Some (g, h) ->
  (g, h) ∈ mounts /\ g <> [slash] /\ exists rest, input = g ++ rest /\ below rest.
Proof.
  induction mounts as [|m mounts IH]; [done|]. cbn. destruct (contains input m) eqn:E.
  - intros [= ->]. unfold contains in E. apply andb_true_iff in E as [Hg Hs].
    apply negb_true_iff, bool_decide_eq_false in Hg. apply isSubpath_spec in Hs.
    split_and!; [constructor|done|done].
  - intros H. destruct (IH H) as (? & ? & ?). split_and!; [by constructor|done|done].
Qed.

Lemma root_host_cases mounts :
  ([slash], root_host mounts) ∈ mounts \/ root_host mounts = [] /\ [slash] ∉ mounts.*1.
Proof.
  unfold root_host. destruct (last _) as [[g h]|] eqn:E.
  - left. apply last_Some_elem_of, list_elem_of_filter in E as [Hg Hin]. cbn in *. by subst g.
  - right. split; [done|]. apply last_None in E. intros Hin.
    apply list_elem_of_fmap in Hin as ([g h] & Hg & Hin). cbn in Hg. subst g.
    assert (H : ([slash], h) ∈ filter (fun m : list Z * list Z => m.1 = [slash]) mounts)
      by (by apply list_elem_of_filter).
    rewrite E in H. by apply elem_of_nil in H.
Qed.

(** Where a translated path lies: below the host directory of a mount of the
    table, or, without a root mount, where the guest path says. *)
Definition lies_below (mounts : list (list Z * list Z)) (guest dir rest : list Z) : Prop :=
  (exists g h, (g, h) ∈ mounts /\ g <> [slash] /\ guest = g ++ rest /\ dir = host_prefix h rest) \/
  (([slash], dir) ∈ mounts /\ rest = guest) \/
  (([slash] ∉ mounts.*1) /\ dir = [] /\ rest = guest).

Lemma translate_below mounts input :
  head input = Some slash ->
  exists dir rest, translate mounts input = dir ++ rest /\ below rest /\
    (exists pre, input = pre ++ rest) /\ lies_below mounts input dir rest.
Proof.
  intros H. unfold translate. destruct (first_mount mounts input) as [[g h]|] eqn:E.
  - apply first_mount_some in E as (Hin & Hg & rest & -> & Hr). rewrite drop_app_length.
    exists (host_prefix h rest), rest. split_and!; [done|done|by eexists|left; eauto 7].
  - exists (root_host mounts), input. split_and!; [done| |by exists []|].
    + destruct input; [done|]. injection H as ->. right. by eexists.
    + destruct (root_host_cases mounts) as [Hin|[-> Hn]]; unfold lies_below; auto.
Qed.

(** ** The whole translation *)

(** The absolute guest path an argument denotes. *)
Definition absolute (fs : LC32Filesystem) (cwd : Z + list Z) (input : list Z) : outcome Z (list Z) :=
  if bool_decide (head input = Some slash) then Done input
  else
    hostCWD ← (match cwd with inl e => Reject e | inr s => Done s end);
    guestCWD ← pathHostToGuest fs hostCWD;
    print_path (guestCWD ++ [slash] ++ input).

Lemma normalize_total input :
  NormalizeGuestAbsolutePath input =
  if bool_decide (head input = Some slash) then
    if blen input <? PATH_MAX then Done (normal_path input) else Reject ENAMETOOLONG
  else Reject EINVAL.
Proof.
  case_bool_decide as Hh.
  - destruct (Z.ltb_spec (blen input) PATH_MAX) as [Hl|Hl].
    + by apply normalize_reference.
    + unfold NormalizeGuestAbsolutePath.
      rewrite (bool_decide_true (head input = Some slash)) by done. unfold reject_if.
      by rewrite (proj2 (Z.leb_le PATH_MAX (blen input)) Hl).
  - unfold NormalizeGuestAbsolutePath. by rewrite (bool_decide_false (head input = Some slash)).
Qed.

Lemma guest_to_host_spec fs cwd input :
  input <> [] ->
  pathGuestToHost fs cwd input =
  (path ← absolute fs cwd input;
   normalizedPath ← NormalizeGuestAbsolutePath path;
   print_path (translate (mountpoints fs) normalizedPath)).
Proof.
  intros Hi. unfold pathGuestToHost, absolute. rewrite (bool_decide_false (input = [])) by done.
  cbn [reject_if mbind outcome_bind].
  assert (H : forall s, (NormalizeGuestAbsolutePath s ≫= pathLeftToRight (mountpoints fs)) =
    (NormalizeGuestAbsolutePath s ≫= fun n => print_path (translate (mountpoints fs) n))).
  { intros s. rewrite normalize_total. repeat case_match; [|done..].
    cbn [mbind outcome_bind]. by rewrite path_left_to_right by apply head_normal. }
  destruct (bool_decide (head input = Some slash)); [apply H|].
  destruct cwd as [e|s]; [done|]. cbn [mbind outcome_bind].
  destruct (pathHostToGuest fs s) as [g|e|]; [|done..]. cbn [mbind outcome_bind].
  destruct (print_path _) as [p|e|]; [apply H|done..].
Qed.

Lemma print_path_safe s (P : list Z -> Prop) : P s -> safe (print_path s) P.
Proof. unfold print_path, reject_if. by destruct (_ <=? _). Qed.

Lemma path_left_to_right_safe mounts input :
  safe (pathLeftToRight mounts input) (fun _ => True).
Proof.
  destruct (decide (head input = Some slash)) as [H|H].
  - rewrite path_left_to_right by done. by apply print_path_safe.
  - unfold pathLeftToRight. by rewrite bool_decide_false.
Qed.

Lemma absolute_safe fs cwd input : safe (absolute fs cwd input) (fun _ => True).
Proof.
  unfold absolute. case_bool_decide; [exact I|]. destruct cwd as [e|s]; [exact I|].
  apply safe_bind. cbn [safe]. apply safe_bind. unfold pathHostToGuest.
  eapply safe_mono; [apply path_left_to_right_safe|]. intros g _. by apply print_path_safe.
Qed.

(** A normalised path lands below a mount, and never climbs out of it. *)
Lemma translate_contained mounts path :
  exists dir rest, translate mounts (normal_path path) = dir ++ rest /\ below rest /\
    lies_below mounts (normal_path path) dir rest /\ [dot; dot] ∉ parts rest.
Proof.
  destruct (translate_below mounts (normal_path path) (head_normal _))
    as (dir & rest & -> & Hr & (pre & Hpre) & Hb).
  exists dir, rest. split_and!; [done..|]. intros Hin.
  apply (normal_path_no_dotdot path). rewrite Hpre, parts_below by done.
  apply elem_of_app. by right.
Qed.

(** A guest path does not leave its mount.  For any argument, relative or
    absolute, the translation stays within its arrays; a host path it returns is
    the host directory of a mount of the table followed by a rest of the normalised
    guest path (the guest path itself if nothing is mounted at the root), and no
    component of that rest is [..]. *)
Theorem guest_to_host_contained fs cwd input :
  safe (pathGuestToHost fs cwd input) (fun host =>
    exists path dir rest,
      absolute fs cwd input = Done path /\ host = dir ++ rest /\ below rest /\
      lies_below (mountpoints fs) (normal_path path) dir rest /\ [dot; dot] ∉ parts rest).
Proof.
  destruct (decide (input = [])) as [-> | Hi]; [exact I|]. rewrite guest_to_host_spec by done.
  apply safe_bind. pose proof (absolute_safe fs cwd input) as Ha.
  destruct (absolute fs cwd input) as [path|e|]; [|done..]. cbn [safe].
  apply safe_bind. rewrite normalize_total. repeat case_match; [|done..]. cbn [safe].
  apply print_path_safe.
  destruct (translate_contained (mountpoints fs) path) as (dir & rest & -> & Hr & Hb & Hd).
  by exists path, dir, rest.
Qed.

(** C24: normalising a guest path is resolving its components.  The routine, one
    pass over the bytes with a rewind array, agrees with the reference that splits
    the path, resolves [.] and [..] on a stack clamped at the root and prints the
    stack; its only errors are a relative path and one of PATH_MAX bytes or more.
    The result is no longer than the input, has no component [..], and normalising
    it again changes nothing. *)
Theorem normalize_path_correct input :
  NormalizeGuestAbsolutePath input =
    (if bool_decide (head input = Some slash) then
       if blen input <? PATH_MAX then Done (normal_path input) else Reject ENAMETOOLONG
     else Reject EINVAL) /\
  safe (NormalizeGuestAbsolutePath input) (fun path =>
    NormalizeGuestAbsolutePath path = Done path /\ blen path <= blen input /\
    ([dot; dot] ∉ parts path)).
Proof.
  split; [apply normalize_total|]. rewrite normalize_total. case_bool_decide as Hh; [|done].
  destruct (Z.ltb_spec (blen input) PATH_MAX) as [Hl|]; [|done]. cbn [safe].
  destruct (normalize_reference input Hh Hl) as [_ Hlen].
  split; [|split; [done|apply normal_path_no_dotdot]].
  destruct (normalize_reference (normal_path input) (head_normal input)) as [-> _]; [lia|].
  by rewrite normal_path_idem.
Qed.

(** "/a/./b//../c/" is "/a/c/", and "/../.." is "/.". *)
Example normalize_sample :
  NormalizeGuestAbsolutePath [47; 97; 47; 46; 47; 98; 47; 47; 46; 46; 47; 99; 47] =
    Done [47; 97; 47; 99; 47] /\
  NormalizeGuestAbsolutePath [47; 46; 46; 47; 46; 46] = Done [47; 46].
Proof. by vm_compute. Qed.

(** With the host's root mounted at the guest's root, "/a" becomes "//a". *)
Example root_mount_doubles_slash :
  pathGuestToHost (mkFilesystem [([slash], [slash])]) (inl ENOENT) [slash; 97] =
  Done [slash; slash; 97].
Proof. by vm_compute. Qed.
