(* ===== verification/InjectTheorems.v ===== *)
(** Adding a slice to an executable, end to end (src/Tweak/FatMachO.c).

    The layout, the copies, the header and the parser composed: the file that is
    written holds the slices it was planned with, and both the comparison that
    verifies it and the parser accept it.  A concrete executable of two slices
    shows that the hypotheses hold. *)

From stdpp Require Import base list.
From Stdlib Require Import ZArith Lia.
From S2P Require Import Prelude Bytes MachOImage MachOImageProps HostIO CodeSignature CodeSignatureProps.
From S2P Require Import FatOutput FatCopyProps FatLayoutProps.

Open Scope Z_scope.

(** A slice whose content the parser accepts on its own, as the slice it is
    declared to be. *)
Record parses_as (src : list Z) (o : LC32OutputSlice) (s : LC32MachOSlice) : Prop := {
  pa_fields : 0 <= os_cpuType o < U32_MOD /\ 0 <= os_cpuSubtype o < U32_MOD;
  pa_nonempty : 0 < os_size o;
  pa_parse : LC32MachOParseSlice (file_reader (slice_content src o)) 0 0 (os_size o)
    (descriptor_of o) = Done s;
  pa_arch : cpuType s = os_cpuType o /\ cpuSubtype s = os_cpuSubtype o
}.

(** No two slices for the same processor. *)
Definition distinct_archs (l : list LC32OutputSlice) : Prop :=
  forall i j a b, (i < j)%nat -> l !! i = Some a -> l !! j = Some b ->
  os_cpuType a <> os_cpuType b \/ os_cpuSubtype a <> os_cpuSubtype b.

Lemma plan_output_chained l outs shim end_ :
  Forall (fun o => 0 <= os_size o) l -> Z.of_nat (length outs) < LC32_MAX_MACH_O_SLICES ->
  plan_output l = Done (outs ++ [shim], end_) ->
  Forall2 same_slice l (outs ++ [shim]) /\
  chained (header_bytes (S (length outs))) (outs ++ [shim]) end_ /\ end_ <= UINT32_MAX.
Proof.
  intros Hl Hn Hp. unfold plan_output in Hp.
  assert (length l = S (length outs)) as HL.
  { assert (forall l start outs e, lay_out l start = Done (outs, e) -> length l = length outs) as H.
    { clear. induction l as [|o l IH]; intros start outs e; cbn [lay_out]; [by intros [= <- <-]|].
      cbv zeta. destruct (reject_if _ _); [|done..]. cbn [mbind outcome_bind].
      destruct (or_reject _ _); [|done..]. cbn [mbind outcome_bind].
      destruct (reject_if _ _); [|done..]. cbn [mbind outcome_bind].
      destruct (or_reject _ _); [|done..]. cbn [mbind outcome_bind].
      destruct (reject_if _ _); [|done..]. cbn [mbind outcome_bind].
      destruct (lay_out l _) as [[rest e']| |] eqn:E; [|done..].
      cbn. intros [= <- <-]. cbn. by rewrite (IH _ _ _ E). }
    rewrite (H _ _ _ _ Hp), length_app. cbn. lia. }
  rewrite HL in Hp.
  assert (0 <= header_bytes (S (length outs)) <= UINT32_MAX) as Hh.
  { unfold header_bytes, fat_header_size, fat_arch_size, LC32_MAX_MACH_O_SLICES, UINT32_MAX, U32_MOD in *.
    lia. }
  destruct (lay_out_chained _ _ _ _ Hh Hl Hp) as (H1 & H2 & [_ H3]). done.
Qed.

Section inject.
Context (src : list Z) (preads : nat -> nat -> nat -> Z -> Z -> pread_result)
  (header_pwrite : nat -> Z -> Z -> pwrite_result)
  (pwrites : nat -> nat -> nat -> Z -> Z -> pwrite_result) (io_fuel : nat).
Context `{!forall i k, Pread src (preads i k), !forall i k, Pwrite (pwrites i k),
  !Pwrite header_pwrite}.

(** What was written reads as what was planned. *)
Lemma written_reads_as outs shim end_ file ss :
  chained (header_bytes (S (length outs))) (outs ++ [shim]) end_ -> end_ <= UINT32_MAX ->
  blen file = end_ ->
  Forall (fun o => replacement_ok o = true /\
    sub file (os_outputOffset o) (os_size o) = slice_content src o) (outs ++ [shim]) ->
  Forall2 (parses_as src) (shim :: outs) ss ->
  Forall2 (reads_as file (header_bytes (S (length outs)))) (shim :: outs) ss.
Proof.
  intros Hc He Hl Hf Hp. rewrite Forall_forall in Hf. rewrite Forall2_same_length_lookup in Hp |- *.
  destruct Hp as [HL Hp]. split; [done|]. intros i o s Hi Hs. destruct (Hp i o s Hi Hs) as [F N P A].
  assert (exists j, (outs ++ [shim]) !! j = Some o) as [j Hj].
  { destruct i as [|i]; cbn in Hi; [simplify_eq; exists (length outs); by rewrite list_lookup_middle|].
    exists i. by apply lookup_app_l_Some. }
  destruct (chained_ends _ _ _ j o Hc Hj) as [Hlaid Hend]. pose proof Hlaid as [H1 [H2 _] _ H3].
  assert (0 <= header_bytes (S (length outs)))
    by (unfold header_bytes, fat_header_size, fat_arch_size; lia).
  destruct (Hf o) as [_ Hsub]; [by eapply list_elem_of_lookup_2|].
  split; [|done|lia|done|by rewrite Hsub|done].
  split; unfold UINT32_MAX, U32_MOD in *; lia.
Qed.

(** C23: the injected executable is read back as it was planned.  For any slices
    the layout accepts, if no read or write fails, writing them succeeds; the file
    has the planned size, every slice is in its place with its replacement, and
    the Mach-O parser finds exactly the planned slices in it, the added one
    first. *)
Theorem injected_file_parses_back l outs shim end_ ss :
  Forall byte_ok src -> Forall (fun o => 0 <= os_size o) l ->
  Z.of_nat (length outs) < LC32_MAX_MACH_O_SLICES ->
  plan_output l = Done (outs ++ [shim], end_) ->
  Forall (source_bytes src) (outs ++ [shim]) ->
  steady_write src preads header_pwrite pwrites io_fuel (outs ++ [shim]) ->
  Forall2 (parses_as src) (shim :: outs) ss -> distinct_archs (shim :: outs) ->
  exists file,
    write_output preads header_pwrite pwrites io_fuel (outs ++ [shim]) end_ = (IoDone tt, file) /\
    blen file = end_ /\
    Forall (fun o => sub file (os_outputOffset o) (os_size o) = slice_content src o) (outs ++ [shim]) /\
    LC32MachOImageParseFD (file_reader file) true (Some end_) =
    Done (mkImage (zip_with finished (shim :: outs) ss) end_ true false true).
Proof.
  intros Hb Hl Hn Hp Hs Hst Hps Hd. destruct (plan_output_chained _ _ _ _ Hl Hn Hp) as (_ & Hc & He).
  destruct (write_output_complete src preads header_pwrite pwrites io_fuel outs shim end_ Hs Hc)
    as [file Hw]; [unfold UINT32_MAX, U32_MOD, INT64_MAX in *; lia|done|].
  destruct (write_output_ok src preads header_pwrite pwrites io_fuel Hb outs shim end_ file Hs Hc Hw)
    as (W1 & W2 & W3 & W4).
  exists file. split_and!; [done|done|by eapply Forall_impl; [exact W4|intros o []]|].
  rewrite <- W1. eapply output_parses_back; [done|done|done|done|done|done| |done].
  by eapply written_reads_as.
Qed.

(** Copying and verifying agree.  If no call fails the copy succeeds and
    leaves exactly the slice's content, its replacement laid over its source, at
    the destination and nothing else changed; comparing the slice with a file
    answers true only if the file holds that content there, and does answer true
    for the copy. *)
Theorem copy_then_verify o dest bufferSize file i :
  output_ok src o -> replacement_ok o = true -> 0 < bufferSize -> 0 <= dest ->
  dest + os_size o <= blen file <= INT64_MAX ->
  steady src o (preads i) (pwrites i) io_fuel bufferSize ->
  exists file',
    LC32CopyOutputSliceToFD (preads i) (pwrites i) io_fuel o dest bufferSize file = (IoDone tt, file') /\
    file' = splice file dest (slice_content src o) /\
    (forall checks, (forall k, Pread file' (checks k)) -> (forall k, steady_pread file' (checks k)) ->
       LC32OutputSliceMatchesFD (preads i) io_fuel checks o dest bufferSize = IoDone true) /\
    (forall other checks fd, (forall k, Pread other (checks k)) -> 0 <= fd ->
       LC32OutputSliceMatchesFD (preads i) io_fuel checks o fd bufferSize = IoDone true ->
       sub other fd (os_size o) = slice_content src o).
Proof.
  intros Ho Hr Hb Hd [Hl Hm] Hst. pose proof (content_length src o Ho Hr) as HL.
  destruct (copy_slice_complete src o Ho (preads i) (pwrites i) io_fuel dest bufferSize file Hst Hr)
    as [file' E]; [done|done|lia|].
  assert (file' = splice file dest (slice_content src o)) as Hf
    by (eapply (copy_slice_ok src o Ho); [..|exact E]; done).
  assert (blen file' = blen file) as HF by (rewrite Hf, blen_splice; lia).
  exists file'. split_and!; [done|done| |].
  - intros checks Hc1 Hc2.
    apply (matches_iff src o Ho (preads i) (pwrites i) io_fuel file' checks); [done..|split; try done; lia|].
    rewrite Hf, <- HL. apply sub_splice_same; lia.
  - intros other checks fd Hc Hfd.
    apply (matches_iff src o Ho (preads i) (pwrites i) io_fuel other checks fd bufferSize Hr Hb Hfd).
Qed.
End inject.



(** ** Host calls *)

Definition whole_pread (file : list Z) (attempt : nat) (n off : Z) : pread_result :=
  if (off <? 0) || (n <? 0) then PreadError EINVAL else PreadData (sub file off n).

Definition whole_pwrite (attempt : nat) (n off : Z) : pwrite_result :=
  if n <? 0 then PwriteError EINVAL else PwriteAmount n.

#[export] Instance whole_pread_ok file : Pread file (whole_pread file).
Proof.
  split. intros k n off bs. unfold whole_pread. destruct (_ || _) eqn:E; [done|]. zb. intros [= <-].
  unfold sub, blen. rewrite length_take, length_drop. split; [lia|]. split; [lia|]. split; [lia|].
  destruct (decide (Z.to_nat n <= length file - Z.to_nat off)%nat).
  - f_equal. lia.
  - rewrite !take_ge; [done|rewrite length_drop; lia|rewrite length_drop; lia].
Qed.

Lemma whole_pread_steady file : steady_pread file (whole_pread file).
Proof.
  intros k n off Hn Ho Hl. unfold whole_pread.
  rewrite (proj2 (Z.ltb_ge off 0)), (proj2 (Z.ltb_ge n 0)) by lia. cbn [orb].
  assert (blen (sub file off n) = n) as E by (apply blen_sub; lia).
  destruct (sub file off n) as [|b bs]; [change (blen []) with 0 in E; lia|by eexists _, _].
Qed.

#[export] Instance whole_pwrite_ok : Pwrite whole_pwrite.
Proof. split. intros k n off a. unfold whole_pwrite. destruct (n <? 0) eqn:E; [done|]. zb. intros [= <-]. lia. Qed.

Lemma whole_pwrite_steady : steady_pwrite whole_pwrite.
Proof. intros k n off Hn. exists n. unfold whole_pwrite. by rewrite (proj2 (Z.ltb_ge n 0)) by lia. Qed.

(** ** The slices *)

Definition words (l : list Z) : list Z := concat (le_bytes 4 <$> l).

(** A header and one load command of eight bytes. *)
Definition arm_slice : list Z := words [4277009102; 12; 9; 2; 1; 8; 0; 0; 8].
Definition arm64_slice : list Z := words [4277009103; 16777228; 0; 6; 1; 8; 0; 0; 0; 8].

(** The target keeps its bytes but for four that are replaced. *)
Definition target_slice : LC32OutputSlice :=
  mkOutput 0 None (Some [1; 2; 3; 4]) 24 4 36 12 9 2 0 false false 0 0.
Definition shim_slice : LC32OutputSlice :=
  mkOutput 0 (Some arm64_slice) None 0 0 40 16777228 0 6 0 true false 0 0.

Definition placed_target : LC32OutputSlice := set_output target_slice 16384 14.
Definition placed_shim : LC32OutputSlice := set_output shim_slice 32768 14.

Definition parsed (src : list Z) (o : LC32OutputSlice) : LC32MachOSlice :=
  match LC32MachOParseSlice (file_reader (slice_content src o)) 0 0 (os_size o) (descriptor_of o) with
  | Done s => s
  | _ => zero_slice
  end.

Ltac evaluate := match goal with
  | |- Forall byte_ok _ => apply (bool_decide_unpack _); vm_compute; exact I
  | |- _ = _ => vm_compute; reflexivity
  | |- _ => vm_compute; (done || lia || intuition (done || lia))
  end.

#[export] Instance byte_ok_dec b : Decision (byte_ok b).
Proof. unfold byte_ok. apply _. Defined.

Lemma target_bytes : source_bytes arm_slice placed_target.
Proof.
  split; [split|..].
  - by cbn.
  - done.
  - intros _. by vm_compute.
  - intros r [= <-]. by vm_compute.
  - done.
  - intros r [= <-]. evaluate.
Qed.

Lemma shim_bytes : source_bytes arm_slice placed_shim.
Proof.
  split; [split|..].
  - by cbn.
  - intros bs [= <-]. by vm_compute.
  - done.
  - done.
  - intros bs [= <-]. evaluate.
  - done.
Qed.

Lemma whole_steady o :
  (forall r, os_replacementBytes o = Some r -> blen r <= 300000) ->
  steady arm_slice o (fun _ => whole_pread arm_slice) (fun _ => whole_pwrite)
    (Z.to_nat 300000) LC32_COPY_BUFFER_SIZE.
Proof.
  intros Hr. split.
  - intros k. apply whole_pread_steady.
  - intros k. apply whole_pwrite_steady.
  - by vm_compute.
  - unfold LC32_COPY_BUFFER_SIZE. lia.
  - intros r E. apply Hr in E. lia.
Qed.

Lemma pair_archs : distinct_archs [placed_shim; placed_target].
Proof.
  intros [|[|i]] [|[|j]] a b Hij Ha Hb; try lia; cbn in Ha, Hb; try done.
  injection Ha as <-. injection Hb as <-. left. by vm_compute.
Qed.

Lemma target_parses : parses_as arm_slice placed_target (parsed arm_slice placed_target).
Proof. split; [by vm_compute|done|by vm_compute|by vm_compute]. Qed.

Lemma shim_parses : parses_as arm_slice placed_shim (parsed arm_slice placed_shim).
Proof. split; [by vm_compute|done|by vm_compute|by vm_compute]. Qed.

Lemma injected_file_parses_back_witness :
  exists file, LC32MachOImageParseFD (file_reader file) true (Some 32808) =
    Done (mkImage (zip_with finished [placed_shim; placed_target]
      [parsed arm_slice placed_shim; parsed arm_slice placed_target]) 32808 true false true) /\
    sub file 16384 36 = slice_content arm_slice placed_target.
Proof.
  destruct (injected_file_parses_back arm_slice (fun _ _ => whole_pread arm_slice) whole_pwrite
    (fun _ _ => whole_pwrite) (Z.to_nat 300000) [target_slice; shim_slice] [placed_target] placed_shim 32808
    [parsed arm_slice placed_shim; parsed arm_slice placed_target]) as (file & _ & _ & Hf & Hp).
  - evaluate.
  - by repeat constructor.
  - done.
  - by vm_compute.
  - constructor; [apply target_bytes|]. constructor; [apply shim_bytes|constructor].
  - split; [apply whole_pwrite_steady|vm_compute fat_header; unfold blen; cbn [length]; lia|].
    intros o i Ho. cbn [app] in Ho.
    apply elem_of_cons in Ho as [-> | Ho]; [|apply list_elem_of_singleton in Ho as ->];
      (split; [done|apply whole_steady; intros r [= <-]; by vm_compute]).
  - constructor; [apply shim_parses|]. constructor; [apply target_parses|constructor].
  - apply pair_archs.
  - exists file. split; [exact Hp|]. by apply Forall_cons_1 in Hf as [Hf _].
Defined.

Lemma copy_then_verify_witness :
  LC32OutputSliceMatchesFD (fun _ => whole_pread arm_slice) (Z.to_nat 300000)
    (fun _ => whole_pread (splice (zeros 40) 2 (slice_content arm_slice placed_target)))
    placed_target 2 LC32_COPY_BUFFER_SIZE = IoDone true.
Proof.
  destruct (copy_then_verify arm_slice (fun _ _ => whole_pread arm_slice)
    (fun _ _ => whole_pwrite) (Z.to_nat 300000) placed_target 2 LC32_COPY_BUFFER_SIZE (zeros 40) 0)
    as (file & _ & -> & H & _).
  - apply target_bytes.
  - done.
  - done.
  - done.
  - by vm_compute.
  - apply whole_steady. intros r [= <-]. by vm_compute.
  - apply H; intros k; [apply whole_pread_ok|apply whole_pread_steady].
Defined.
