(* ===== verification/SignatureTheorems.v ===== *)
(** Code signatures: what the parsers accept and how a directory is rewritten
    (src/Tweak/FatMachO.c), with concrete files and signatures for the hypotheses,
    those of the image parser and of the function starts included. *)

From stdpp Require Import base list gmap.
From Stdlib Require Import ZArith Lia Sorted.
From S2P Require Import Prelude Bytes MachOImage MachOImageProps HostIO CodeSignature CodeSignatureProps.
From S2P Require Import CodeDirectoryProps CodeTransform CodeTransformProps DirectoryRewrite SignatureRepack.
From S2P Require Import SignatureRepackProps EncryptedSignature FatCopyProps FatLayoutProps SigningMetadata.
From S2P Require Import SigningMetadataProps FunctionStarts FunctionStartsProps DebuggerImage InjectTheorems.

Open Scope Z_scope.


(** C20: the signature parser accepts exactly the well-formed super blobs.  On any
    bytes it stays inside the buffer, and it returns a view if and only if that
    view is the well-formed reading of the bytes: magic and length of the super
    blob, an index that fits, and every blob inside the signature with the length
    it declares, types distinct and blobs apart. *)
Theorem signature_parser_exact signature capacity :
  Forall byte_ok signature -> capacity <= blen signature ->
  LC32ParseCodeSignature signature capacity <> Fault /\
  forall v, LC32ParseCodeSignature signature capacity = Done v <-> view_wf signature capacity v.
Proof.
  intros Hb Hc. pose proof (parse_signature_safe signature Hb capacity Hc) as Hs.
  split; [by eapply safe_not_fault|]. intros v. split; [by apply safe_elim|].
  by apply parse_signature_accepts.
Qed.

(** The directory parser accepts exactly the well-formed directories.  It never
    reads outside the blob, its scan of the scatter vector ends, and it returns the
    fields of the directory if and only if they describe a well-formed one. *)
Theorem directory_parser_exact b :
  blob_ok b ->
  LC32ParseCodeDirectory b <> Fault /\
  forall p, LC32ParseCodeDirectory b = Done p <-> directory_of b p.
Proof.
  intros Hb. pose proof (parse_directory_safe b Hb) as Hs.
  split; [by eapply safe_not_fault|]. intros p. split; [by apply safe_elim|].
  by apply parse_directory_accepts.
Qed.

(** C21: rewriting a directory.  For a directory without a scatter vector whose
    signing limit lies before the signature, and a Team ID shorter than 4096
    bytes, the rewrite always succeeds.  The result is a directory that the parser
    accepts, with the same code hashes, coverage and identifier, the new Team ID,
    the special slots of the donor's blobs and all other special slots kept. *)
Theorem directory_rewritten CC_SHA1 CC_SHA256 CC_SHA384
    `{!Digests CC_SHA1 CC_SHA256 CC_SHA384} ios17 b p d team sliceSize codeSignatureOffset :
  blob_ok b -> LC32ParseCodeDirectory b = Done p -> donor_ok d ->
  Forall byte_ok team -> Forall (fun c => c <> 0) team -> 1 <= blen team < 4096 ->
  scatterOffset p = 0 -> signingLimit p <= codeSignatureOffset -> signingLimit p <= sliceSize ->
  blobLength b + (108 + (blen team + 1) + 7 * 48) <= UINT32_MAX ->
  exists R q,
    LC32CreateTransformedCodeDirectory CC_SHA1 CC_SHA256 CC_SHA384 ios17 true b d team
      sliceSize codeSignatureOffset = Done R /\
    transformed CC_SHA1 CC_SHA256 CC_SHA384 ios17 b p team d R q.
Proof. intros. by apply create_transformed_ok. Qed.

(** ** A concrete signature *)

Module Sample.

Definition be_words (l : list Z) : list Z := concat (be_bytes 4 <$> l).

(** A directory of one page with the identifier "a". *)
Definition directory : list Z :=
  be_words [LC32_CS_MAGIC_CODE_DIRECTORY; 78; 0x20001; 0; 46; 44; 0; 1; 1] ++
  [32; 2; 0; 12] ++ be_words [0] ++ [97; 0] ++ zeros 32.

Definition signature : list Z :=
  be_words [LC32_CS_MAGIC_EMBEDDED_SIGNATURE; 98; 1; LC32_CS_SLOT_CODE_DIRECTORY; 20] ++
  directory ++ zeros 902.

Definition directory_blob : LC32CodeSignatureBlobView :=
  mkBlob LC32_CS_SLOT_CODE_DIRECTORY LC32_CS_MAGIC_CODE_DIRECTORY directory 0 78.

Definition value {E A} (o : outcome E A) (default : A) : A :=
  match o with Done a => a | _ => default end.

Definition view : LC32CodeSignatureView :=
  value (LC32ParseCodeSignature signature 1000) (mkView 0 []).

Definition donor_part (slot magic : Z) : LC32CodeSignatureBlobView :=
  mkBlob slot magic (be_words [magic; 9] ++ [7]) 0 9.

Definition donor : LC32CodeSignatureDonor :=
  mkDonor None (donor_part LC32_CS_SLOT_ENTITLEMENTS LC32_CS_MAGIC_EMBEDDED_ENTITLEMENTS)
    (donor_part LC32_CS_SLOT_DER_ENTITLEMENTS LC32_CS_MAGIC_EMBEDDED_DER_ENTITLEMENTS)
    (donor_part LC32_CS_SLOT_CMS_SIGNATURE LC32_CS_MAGIC_BLOB_WRAPPER).

(** A digest of the right length. *)
Definition digest (n : Z) (message : list Z) : list Z := zeros n.

#[export] Instance digests : Digests (digest 20) (digest 32) (digest 48).
Proof. split; intros m; (split; [done|evaluate]). Qed.

Lemma donor_is_wf : donor_wf donor.
Proof. split; [done|..]; (split; [done|]; split; [split; [evaluate|by vm_compute]|]; by vm_compute). Qed.

(** An encrypted 32-bit slice with the signature behind 4096 bytes. *)
Definition slice : LC32MachOSlice :=
  mkSlice CPU_TYPE_ARM 9 2 0 5096 14 true false true true true false false 28 1 8
    4096 1000 0 0 0 1 0 0 0 0 0 0 0 0 4096 1000.

End Sample.
Import Sample.

Lemma signature_parser_exact_witness :
  LC32ParseCodeSignature signature 1000 = Done view /\ view_wf signature 1000 view.
Proof.
  split; [by vm_compute|].
  apply (signature_parser_exact signature 1000); [evaluate|by vm_compute|by vm_compute].
Defined.

Lemma directory_parser_exact_witness :
  exists p, LC32ParseCodeDirectory directory_blob = Done p /\ directory_of directory_blob p.
Proof.
  eexists. split; [by vm_compute|].
  apply (directory_parser_exact directory_blob); [split; [evaluate|by vm_compute]|by vm_compute].
Defined.

Lemma directory_rewritten_witness :
  exists R, LC32CreateTransformedCodeDirectory (digest 20) (digest 32) (digest 48) true true
    directory_blob donor [84; 49] 5096 4096 = Done R /\ be32 R 4 = blen R.
Proof.
  destruct (LC32ParseCodeDirectory directory_blob) as [p| |] eqn:Ep; [|by vm_compute in Ep..].
  assert (scatterOffset p = 0 /\ signingLimit p = 1) as [Hs Hl]
    by (vm_compute in Ep; by injection Ep as <-).
  destruct (directory_rewritten (digest 20) (digest 32) (digest 48) true directory_blob p donor
    [84; 49] 5096 4096) as (R & q & E & T).
  - split; [evaluate|by vm_compute].
  - done.
  - apply donor_wf_ok, donor_is_wf.
  - evaluate.
  - by repeat constructor.
  - by vm_compute.
  - done.
  - by rewrite Hl.
  - by rewrite Hl.
  - by vm_compute.
  - exists R. split; [exact E|]. apply (tr_blob _ _ _ _ _ _ _ _ _ _ T).
Defined.

Lemma create_encrypted_signature_witness :
  exists R w, LC32CreateTransformedEncryptedSignature (digest 20) (digest 32) (digest 48)
    (fun _ => true) (fun _ _ => Some signature) true slice donor [84; 49] = Done R /\
    LC32ParseCodeSignature R 1000 = Done w /\ Sorted Z.le (blobType <$> blobs w).
Proof.
  destruct (create_encrypted_signature (digest 20) (digest 32) (digest 48) true slice donor [84; 49]
    donor_is_wf ltac:(evaluate) ltac:(by repeat constructor) ltac:(by vm_compute)
    (fun _ _ => Some signature) (fun _ => true) signature view) as (new & _ & Hfit & Hbig).
  - done.
  - by vm_compute.
  - by vm_compute.
  - done.
  - evaluate.
  - by vm_compute.
  - by vm_compute.
  - change (blobs view) with (take 1 (blobs view)).
    constructor; [|constructor]. intros _. eexists. split; [by vm_compute|]. by vm_compute.
  - by vm_compute.
  - vm_compute. lia.
  - destruct (Z.le_gt_cases (out_size (all_out donor new)) (codeSignatureSize slice)) as [H|H].
    + destruct (Hfit H) as (R & w & E & _ & _ & Ep & Hs & _). exists R, w.
      split; [exact E|]. split; [exact Ep|exact Hs].
    + apply Hbig in H. by vm_compute in H.
Defined.



(** The rewritten function starts name the same functions.  When the
    normalisation of a function-starts stream succeeds, a reader of the written
    stream that drops the low bit finds exactly the code addresses of the original
    one; a reader of the tags finds the original addresses with the Thumb bit set
    from the first Thumb function on; and the stream is marked unsafe exactly when
    that turns an unnamed ARM function into a Thumb one.  Encoding and decoding a
    delta are inverse. *)
Theorem function_starts_preserved data text textSize named st rest :
  Forall byte_ok data -> 0 <= text -> 0 <= textSize -> text + textSize <= UINT32_MAX ->
  normalize_starts (length data) data text textSize named
    (mkStarts 0 text text false false true []) = Some (st, true) ->
  st_first st = false ->
  (exists ds ns, decode_deltas (S (length data)) data 0 = Some ds /\
    decode_deltas (S (length ns)) (st_output st ++ 0 :: rest) 0 = Some ns /\
    ds <> [] /\
    untagged_addresses text ns = code_address <$> tagged_addresses text ds /\
    tagged_addresses text ns = sticky false (tagged_addresses text ds) /\
    st_unsafe st = unnamed_arm false named (tagged_addresses text ds)) /\
  (forall pre v post, 0 <= v < U64_MOD ->
    ReadULEB128 (AppendULEB128 pre v ++ post) (blen (AppendULEB128 pre v ++ post)) (blen pre) =
    Some (v, blen (AppendULEB128 pre v))).
Proof. intros. split; [by eapply rewritten_starts|]. intros. by apply uleb_roundtrip. Qed.

Lemma function_starts_preserved_witness :
  exists ds, decode_deltas 5 [16; 5; 4; 0] 0 = Some ds /\
    code_address <$> tagged_addresses 4096 ds = [4112; 4116; 4120].
Proof.
  destruct (function_starts_preserved [16; 5; 4; 0] 4096 256 ∅
    (mkStarts 4 4121 4121 true false false [16; 5; 4]) []) as [(ds & ns & Hd & _) _].
  - evaluate.
  - done.
  - done.
  - done.
  - by vm_compute.
  - done.
  - exists ds. split; [exact Hd|]. vm_compute in Hd. by injection Hd as <-.
Defined.

(** ** Images *)

#[export] Instance file_reader_ok file :
  Forall byte_ok file -> FileReader (file_reader file).
Proof.
  intros Hb. split; unfold file_reader; intros k off n bs; destruct (in_buf file off n) eqn:E; try done;
    intros [= <-].
  - intros Hn. apply in_buf_true in E. apply blen_sub; lia.
  - by apply Forall_sub.
Qed.

Lemma parse_image_safe_witness :
  exists image, LC32MachOImageParseFD (file_reader arm_slice) true (Some 36) = Done image /\
    image_wf (file_reader arm_slice) image.
Proof.
  destruct (LC32MachOImageParseFD (file_reader arm_slice) true (Some 36)) as [image| |] eqn:E;
    [|by vm_compute in E..].
  assert (Hr : FileReader (file_reader arm_slice)) by (apply file_reader_ok; evaluate).
  pose proof (parse_image_safe (file_reader arm_slice) true (Some 36)) as Hs. rewrite E in Hs.
  exists image. split; [done|]. apply Hs. intros n [= <-]. by vm_compute.
Defined.

Lemma normalize_macho_safe_witness : succeeds (NormalizeDebuggerMachO arm_slice) (fun r =>
  rtc starts_rewrite arm_slice r.2.1 /\ blen r.2.1 = blen arm_slice /\ Forall byte_ok r.2.1).
Proof. apply (normalize_macho_safe arm_slice); [evaluate|by vm_compute]. Defined.

(** ** Signing metadata *)

Definition utf8_maximum (n : Z) : Z := 3 * n.
Definition latin_string (t : list Z) : option cf_string :=
  if bool_decide (Forall byte_ok t) then Some (ascii_string t) else None.

#[export] Instance sample_foundation : CoreFoundation utf8_maximum latin_string.
Proof.
  split; unfold utf8_maximum; [lia|]. intros t s. unfold latin_string.
  case_bool_decide as Hb; [|done]. intros [= <-]. split; [|done].
  intros bs [= <-]. split; [done|]. cbn [cf_length ascii_string]. pose proof (blen_nonneg t). lia.
Qed.

(** The shim is signed; the target has an identifier and no entitlements. *)
Definition shim_metadata : LC32CodeSignatureMetadata := mkMetadata true None None ∅.
Definition target_metadata : LC32CodeSignatureMetadata := mkMetadata true (Some [105]) None ∅.

Lemma create_signing_metadata_ok_witness :
  exists merged, LC32CreateSigningMetadata utf8_maximum [98] latin_string (Done shim_metadata)
    [Done target_metadata] = Done (merged, [105], fallback_team) /\
    signing_ok utf8_maximum [98] shim_metadata [target_metadata] merged [105] fallback_team.
Proof.
  assert (exists merged, LC32CreateSigningMetadata utf8_maximum [98] latin_string (Done shim_metadata)
    [Done target_metadata] = Done (merged, [105], fallback_team)) as [merged E]
    by (eexists; reflexivity).
  exists merged. split; [exact E|].
  destruct (create_signing_metadata_ok utf8_maximum latin_string [98] (Done shim_metadata)
    [Done target_metadata] merged [105] fallback_team) as (smd & mds & Es & Et & _ & H); [|exact E|].
  - intros md Hmd. apply list_elem_of_singleton in Hmd. injection Hmd as ->.
    intros k s. cbn [md_entitlements target_metadata]. by rewrite lookup_empty.
  - injection Es as <-. destruct mds as [|md [|? ?]]; [done| |done]. injection Et as <-. exact H.
Defined.
