(* ===== verification/GuestBootstrap.v ===== *)
(** Launching a guest program (src/HostFrameworks/LC32/guest_bootstrap.cpp and
    the part of src/HostFrameworks/LC32/LiveExec32Shared.cpp that writes the first
    stack).

    The launcher forwards the variables of its own environment that carry a
    prefix, sets a few itself, and lays argc, argv, envp and the apple strings
    out on the stack the way Darwin's dyld expects them.  Strings are lists of
    bytes without their terminator. *)

From stdpp Require Import base list strings.
From Stdlib Require Import ZArith Lia.
From S2P Require Import Prelude Bytes GuestMemory GuestRawMemory.

Open Scope list_scope.
Open Scope Z_scope.

(** A string literal. *)
Definition text (s : String.string) : list Z :=
  (fun c => Z.of_N (Ascii.N_of_ascii c)) <$> String.list_ascii_of_string s.

(** ** Environment names *)

Definition isalpha (c : Z) : bool := ((65 <=? c) && (c <=? 90)) || ((97 <=? c) && (c <=? 122)).
Definition isdigit (c : Z) : bool := (48 <=? c) && (c <=? 57).
Definition isalnum (c : Z) : bool := isalpha c || isdigit c.

Definition underscore : Z := 95.
Definition equals_sign : Z := 61.

Definition IsEnvironmentName (name : list Z) : bool :=
  match name with
  | [] => false
  | first :: _ =>
      if negb (first =? underscore) && negb (isalpha first) then false
      else forallb (fun value => (value =? underscore) || isalnum value) name
  end.

(** ** std::map<std::string, std::string>

    The entries in the order of their names, bytes compared as unsigned. *)

Fixpoint string_less (a b : list Z) : bool :=
  match a, b with
  | _, [] => false
  | [], _ :: _ => true
  | x :: a, y :: b => (x <? y) || (x =? y) && string_less a b
  end.

Definition string_map : Type := list (list Z * list Z).

(** [values[name] = value]. *)
Fixpoint map_set (name value : list Z) (m : string_map) : string_map :=
  match m with
  | [] => [(name, value)]
  | (k, v) :: r =>
      if string_less name k then (name, value) :: m
      else if string_less k name then (k, v) :: map_set name value r
      else (k, value) :: r
  end.

Fixpoint map_find (name : list Z) (m : string_map) : option (list Z) :=
  match m with
  | [] => None
  | (k, v) :: r => if bool_decide (k = name) then Some v else map_find name r
  end.

(** ** The environment *)

Definition EnvironmentPrefix : list Z := text "LC32_GUEST_ENV_"%string.

Record EnvironmentSelection := mkSelection {
  values : string_map;
  rejectedSourceNames : list (list Z)
}.

(** [entry.find('=')], npos being [None]. *)
Fixpoint find_equals (entry : list Z) : option nat :=
  match entry with
  | [] => None
  | c :: r => if c =? equals_sign then Some O else S <$> find_equals r
  end.

Definition collect_entry (selection : EnvironmentSelection) (entry : list Z)
    : EnvironmentSelection :=
  let equals := find_equals entry in
  let sourceName := match equals with Some n => take n entry | None => entry end in
  if negb (bool_decide (take (length EnvironmentPrefix) sourceName = EnvironmentPrefix))
  then selection
  else
    let guestName := drop (length EnvironmentPrefix) sourceName in
    match equals with
    | Some n =>
        if negb (IsEnvironmentName guestName)
        then mkSelection (values selection) (rejectedSourceNames selection ++ [sourceName])
        else mkSelection (map_set guestName (drop (n + 1) entry) (values selection))
               (rejectedSourceNames selection)
    | None => mkSelection (values selection) (rejectedSourceNames selection ++ [sourceName])
    end.

(** [None] is a null environment. *)
Definition CollectEnvironment (environment : option (list (list Z))) : EnvironmentSelection :=
  match environment with
  | None => mkSelection [] []
  | Some entries => foldl collect_entry (mkSelection [] []) entries
  end.

(** [setLauncherValue]: the names it overrode come with the selection. *)
Definition setLauncherValue (st : string_map * list (list Z)) (name value : list Z)
    : string_map * list (list Z) :=
  let '(m, overridden) := st in
  (map_set name value m,
   match map_find name m with Some _ => overridden ++ [name] | None => overridden end).

Definition HOME : list Z := text "HOME"%string.
Definition NATIVE_GUEST_THREADS : list Z := text "NATIVE_GUEST_THREADS"%string.
Definition DYLD_SHARED_REGION : list Z := text "DYLD_SHARED_REGION"%string.
Definition private_region : list Z := text "private"%string.

(** The environment and [overriddenNames]. *)
Definition FinalizeEnvironment (selection : EnvironmentSelection)
    (guestHome nativeGuestThreads : list Z) : list (list Z) * list (list Z) :=
  let st := setLauncherValue (values selection, []) HOME guestHome in
  let st := setLauncherValue st NATIVE_GUEST_THREADS nativeGuestThreads in
  let '(m, overridden) := setLauncherValue st DYLD_SHARED_REGION private_region in
  ((fun '(name, value) => name ++ equals_sign :: value) <$> m, overridden).

(** ** The home directory

    [None] is a null pointer; [realpath] is the host's. *)
Definition SelectConfiguredHomeDirectory (realpath : list Z -> option (list Z))
    (explicitGuestHome liveContainerHome processHome : option (list Z)) (resolveSymlinks : bool)
    : list Z :=
  let rooted (p : option (list Z)) := bool_decide (p ≫= head = Some 47) in
  let selected :=
    if rooted explicitGuestHome then default [] explicitGuestHome
    else if bool_decide (is_Some liveContainerHome) && rooted processHome then default [] processHome
    else [] in
  if resolveSymlinks && negb (bool_decide (selected = [])) then
    match realpath selected with Some resolved => resolved | None => selected end
  else selected.

(** ** The initial stack *)

Definition InitialStackGap : Z := 0x1000.
Definition SIZE_MAX : Z := UINT64_MAX.

Record InitialStackString := mkString { address : Z; value : list Z }.

Record InitialStackImage := mkImage {
  stackPointer : Z;
  strings : list InitialStackString;
  words : list Z
}.

Inductive stack_error : Type :=
| MissingOutput
| RangeExceedsAddressSpace
| ArgumentCountExceeds
| StringsDoNotFit
| StringAlignmentDoesNotFit
| GapDoesNotFit
| TableSizeOverflow
| TableDoesNotFit
| AlignmentDoesNotFit
| TableCountMismatch.

Definition AddSize (left right : Z) : option Z :=
  if SIZE_MAX - left <? right then None else Some (left + right).

(** [placeStrings]: from the last string to the first, downwards from the
    cursor.  Its argument is the reversed vector; the result is the cursor, the
    strings of the candidate and the addresses. *)
Fixpoint place_strings (stackBase : Z) (reversed : list (list Z)) (cursor : Z)
    (placed : list InitialStackString) (addresses : list Z)
    : option (Z * list InitialStackString * list Z) :=
  match reversed with
  | [] => Some (cursor, placed, addresses)
  | value :: rest =>
      if blen value =? SIZE_MAX then None
      else
        let byteCount := blen value + 1 in
        if u64 (cursor - stackBase) <? byteCount then None
        else
          let cursor := cursor - byteCount in
          if UINT32_MAX <? cursor then None
          else place_strings stackBase rest cursor (placed ++ [mkString (u32 cursor) value])
                 (u32 cursor :: addresses)
  end.

Definition placeStrings (stackBase : Z) (vs : list (list Z))
    (st : Z * list InitialStackString) : option (Z * list InitialStackString * list Z) :=
  place_strings stackBase (rev vs) (fst st) (snd st) [].

Definition count {A} (l : list A) : Z := Z.of_nat (length l).

(** The candidate, built before anything is stored through [image]. *)
Definition stack_candidate (stackBase stackSize executableAddress : Z)
    (arguments environment apple : list (list Z)) (reservedGap : Z)
    : outcome stack_error InitialStackImage :=
  let stackTop := stackBase + stackSize in
  _ ← reject_if ((stackSize =? 0) || (0x100000000 <? stackTop)) RangeExceedsAddressSpace;
  _ ← reject_if (UINT32_MAX <? count arguments) ArgumentCountExceeds;
  '(cursor, placed, argumentAddresses) ←
    or_reject (placeStrings stackBase arguments (stackTop, [])) StringsDoNotFit;
  '(cursor, placed, environmentAddresses) ←
    or_reject (placeStrings stackBase environment (cursor, placed)) StringsDoNotFit;
  '(cursor, placed, appleAddresses) ←
    or_reject (placeStrings stackBase apple (cursor, placed)) StringsDoNotFit;
  let cursor := Z.land cursor (u64_not 3) in
  _ ← reject_if (cursor <? stackBase) StringAlignmentDoesNotFit;
  _ ← reject_if (u64 (cursor - stackBase) <? reservedGap) GapDoesNotFit;
  let cursor := cursor - reservedGap in
  wordCount ← or_reject (AddSize 2 (count argumentAddresses)) TableSizeOverflow;
  wordCount ← or_reject (AddSize wordCount (count environmentAddresses)) TableSizeOverflow;
  wordCount ← or_reject (AddSize wordCount (count appleAddresses)) TableSizeOverflow;
  wordCount ← or_reject (AddSize wordCount 3) TableSizeOverflow;
  _ ← reject_if (SIZE_MAX / 4 <? wordCount) TableSizeOverflow;
  let tableBytes := wordCount * 4 in
  _ ← reject_if (u64 (cursor - stackBase) <? tableBytes) TableDoesNotFit;
  let stackPointer := Z.land (cursor - tableBytes) (u64_not 15) in
  _ ← reject_if ((stackPointer <? stackBase) || (UINT32_MAX <? stackPointer)) AlignmentDoesNotFit;
  let words := [executableAddress; u32 (count arguments)] ++ argumentAddresses ++ [0] ++
               environmentAddresses ++ [0] ++ appleAddresses ++ [0] in
  _ ← reject_if (negb (count words =? wordCount)) TableCountMismatch;
  mret (mkImage (u32 stackPointer) placed words).

(** The result, the object [image] points to and the message; [None] is a null
    [image]. *)
Definition BuildInitialStackImage (stackBase stackSize executableAddress : Z)
    (arguments environment apple : list (list Z)) (image : option InitialStackImage)
    (reservedGap : Z) : bool * option InitialStackImage * option stack_error :=
  match image with
  | None => (false, None, Some MissingOutput)
  | Some old =>
      match stack_candidate stackBase stackSize executableAddress arguments environment apple
              reservedGap with
      | Done candidate => (true, Some candidate, None)
      | Reject e => (false, Some old, Some e)
      | Fault => (false, Some old, None)
      end
  end.

(** ** Writing it to guest memory ([LC32RunGuest]) *)

Fixpoint write_strings (s : vm) (l : list InitialStackString) : bool * vm :=
  match l with
  | [] => (true, s)
  | string :: rest =>
      let '(r, s) := Dynarmic_mem_1write s (address string) (blen (value string) + 1)
                       (Some (value string ++ [0])) in
      if negb (r =? 0) then (false, s) else write_strings s rest
  end.

(** The words as they are in host memory. *)
Definition word_bytes (ws : list Z) : list Z := mjoin (le_bytes 4 <$> ws).

Definition write_stack_image (s : vm) (image : InitialStackImage) : bool * vm :=
  let '(ok, s) := write_strings s (strings image) in
  if negb ok then (false, s) else
  let '(r, s) := Dynarmic_mem_1write s (stackPointer image) (count (words image) * 4)
                   (Some (word_bytes (words image))) in
  (r =? 0, s).
