(* ===== verification/GuestBootstrapProps.v ===== *)
(** The initial stack is laid out exactly when it fits, and a program that
    follows Darwin's convention reads back from guest memory the arguments, the
    environment and the apple strings it was launched with. *)

From stdpp Require Import base list list_numbers strings.
From Stdlib Require Import ZArith Lia.
From S2P Require Import Prelude Bytes GuestMemory GuestRawMemory GuestBootstrap.

Open Scope list_scope.
Open Scope Z_scope.

(** ** Layout *)

(** The bytes that strings take with their terminators. *)
Fixpoint total (vs : list (list Z)) : Z :=
  match vs with [] => 0 | v :: r => blen v + 1 + total r end.

(** Strings one below the other, the first one ending at [hi]. *)
Fixpoint stack_down (hi : Z) (vs : list (list Z)) : list InitialStackString :=
  match vs with
  | [] => []
  | v :: r => mkString (hi - (blen v + 1)) v :: stack_down (hi - (blen v + 1)) r
  end.

(** A vector of strings below [hi], in its own order. *)
Definition laid (hi : Z) (vs : list (list Z)) : list InitialStackString := rev (stack_down hi (rev vs)).

Lemma total_app a b : total (a ++ b) = total a + total b.
Proof. induction a as [|v a IH]; cbn; lia. Qed.

Lemma total_rev a : total (rev a) = total a.
Proof. induction a as [|v a IH]; cbn; [done|]. rewrite total_app. cbn. lia. Qed.

Lemma total_count a : count a <= total a.
Proof.
  unfold count. induction a as [|v a IH]; cbn -[Z.of_nat]; [lia|].
  pose proof (blen_nonneg v). lia.
Qed.

Lemma strings_total_nonneg a : 0 <= total a.
Proof. pose proof (total_count a). unfold count in *. lia. Qed.

Lemma stack_down_app hi a b : stack_down hi (a ++ b) = stack_down hi a ++ stack_down (hi - total a) b.
Proof.
  revert hi. induction a as [|v a IH]; intros hi; cbn; [by rewrite Z.sub_0_r|].
  rewrite IH. do 3 f_equal. lia.
Qed.

Lemma stack_down_values hi vs : value <$> stack_down hi vs = vs.
Proof. revert hi. induction vs as [|v vs IH]; intros hi; cbn; [done|]. by rewrite IH. Qed.

Lemma stack_down_length hi vs : length (stack_down hi vs) = length vs.
Proof. rewrite <- (stack_down_values hi vs) at 2. by rewrite length_fmap. Qed.

Lemma fmap_rev {A B} (f : A -> B) l : f <$> rev l = rev (f <$> l).
Proof. induction l as [|x l IH]; cbn; [done|]. by rewrite fmap_app, IH. Qed.

Lemma laid_values hi vs : value <$> laid hi vs = vs.
Proof. unfold laid. by rewrite fmap_rev, stack_down_values, rev_involutive. Qed.

Lemma laid_length hi vs : length (laid hi vs) = length vs.
Proof. rewrite <- (laid_values hi vs) at 2. by rewrite length_fmap. Qed.

Lemma stack_down_range hi vs x :
  x ∈ stack_down hi vs -> hi - total vs <= address x /\ address x + blen (value x) + 1 <= hi.
Proof.
  revert hi. induction vs as [|v vs IH]; intros hi; cbn; [by intros ?%elem_of_nil|].
  pose proof (strings_total_nonneg vs). pose proof (blen_nonneg v).
  intros [-> | Hx%IH]%elem_of_cons; cbn; lia.
Qed.

Lemma place_strings_spec stackBase vs cursor placed addresses :
  0 <= stackBase <= cursor -> cursor <= U32_MOD ->
  place_strings stackBase vs cursor placed addresses =
  if total vs <=? cursor - stackBase
  then Some (cursor - total vs, placed ++ stack_down cursor vs,
             rev (address <$> stack_down cursor vs) ++ addresses)
  else None.
Proof.
  revert cursor placed addresses. induction vs as [|v vs IH]; intros cursor placed addresses Hc Hu.
  { cbn. rewrite Z.sub_0_r, app_nil_r. destruct (0 <=? _) eqn:?; zb; [done|lia]. }
  cbn [place_strings total stack_down]. pose proof (strings_total_nonneg vs). pose proof (blen_nonneg v).
  assert (U32_MOD + 2 < SIZE_MAX) by done.
  rewrite (u64_small (cursor - stackBase)) by (unfold U32_MOD, U64_MOD in *; lia).
  destruct (blen v =? SIZE_MAX) eqn:?; zb.
  { destruct (_ <=? _) eqn:?; zb; [lia|done]. }
  destruct (cursor - stackBase <? blen v + 1) eqn:?; zb.
  { destruct (_ <=? cursor - stackBase) eqn:?; zb; [lia|done]. }
  destruct (UINT32_MAX <? _) eqn:?; zb; [unfold UINT32_MAX in *; lia|].
  rewrite u32_small by (unfold UINT32_MAX, U32_MOD in *; lia).
  rewrite IH by lia.
  destruct (total vs <=? _) eqn:?, (blen v + 1 + total vs <=? _) eqn:?; zb; try lia; [|done].
  rewrite fmap_cons. cbn [rev address]. rewrite <- !app_assoc. do 3 f_equal. lia.
Qed.

Lemma placeStrings_spec stackBase vs cursor placed :
  0 <= stackBase <= cursor -> cursor <= U32_MOD ->
  placeStrings stackBase vs (cursor, placed) =
  if total vs <=? cursor - stackBase
  then Some (cursor - total vs, placed ++ stack_down cursor (rev vs), address <$> laid cursor vs)
  else None.
Proof.
  intros. unfold placeStrings. cbn [fst snd]. rewrite place_strings_spec, total_rev by done.
  unfold laid. by rewrite fmap_rev, app_nil_r.
Qed.


Lemma count_addresses hi vs : count (address <$> laid hi vs) = count vs.
Proof. unfold count. by rewrite length_fmap, laid_length. Qed.

Lemma AddSize_small a b : a + b <= SIZE_MAX -> AddSize a b = Some (a + b).
Proof. intros. unfold AddSize. destruct (_ <? _) eqn:?; zb; [lia|done]. Qed.

(** ** When the image fits *)

(** A check that fails, or the next statement. *)
Ltac check_fails := right; split; [eexists; reflexivity|apply not_true_iff_false; intros F;
  match goal with HF : _ -> _ |- _ => apply HF in F; lia end].
Ltac check_step :=
  lazymatch goal with
  | |- context [reject_if ?b _ ≫= _] =>
      let H := fresh "H" in
      destruct b eqn:H; cbn [reject_if mbind outcome_bind];
      [try (apply orb_true_iff in H as [H|H]); zb; try check_fails|zb]
  end.
Ltac place_step :=
  lazymatch goal with
  | |- context [or_reject (if ?b then _ else _) _ ≫= _] =>
      destruct b eqn:?; cbn [or_reject mbind outcome_bind]; zb
  end.

Section layout.
Context (stackBase stackSize reservedGap : Z) (arguments environment apple : list (list Z)).

(** Where the strings end, where the table ends, and the stack pointer. *)
Definition stack_top : Z := stackBase + stackSize.
Definition environment_top : Z := stack_top - total arguments.
Definition apple_top : Z := environment_top - total environment.
Definition strings_end : Z := apple_top - total apple.
Definition table_end : Z := 4 * (strings_end / 4) - reservedGap.
Definition table_words : Z := 5 + count arguments + count environment + count apple.
Definition initial_stack_pointer : Z := 16 * ((table_end - 4 * table_words) / 16).

Definition stack_fits : bool :=
  (0 <? stackSize) && (stack_top <=? U32_MOD) && (stackBase <=? initial_stack_pointer).

Definition initial_words (executableAddress : Z) : list Z :=
  [executableAddress; count arguments] ++ (address <$> laid stack_top arguments) ++ [0] ++
  (address <$> laid environment_top environment) ++ [0] ++
  (address <$> laid apple_top apple) ++ [0].

Definition initial_strings : list InitialStackString :=
  stack_down stack_top (rev arguments ++ rev environment ++ rev apple).

Definition initial_image (executableAddress : Z) : InitialStackImage :=
  mkImage initial_stack_pointer initial_strings (initial_words executableAddress).

Context (Hbase : 0 <= stackBase < U32_MOD) (Hsize : 0 <= stackSize < U32_MOD)
  (Hgap : 0 <= reservedGap < U64_MOD).

(** The order of the regions of the stack. *)
Lemma layout_order :
  initial_stack_pointer <= table_end - 4 * table_words /\ table_end - 4 * table_words < initial_stack_pointer + 16 /\
  table_end <= strings_end /\ strings_end < table_end + reservedGap + 4 /\
  strings_end <= apple_top <= environment_top /\ environment_top <= stack_top /\ 5 <= table_words.
Proof.
  unfold initial_stack_pointer, table_end.
  pose proof (Z.div_mod (4 * (strings_end / 4) - reservedGap - 4 * table_words) 16 ltac:(lia)).
  pose proof (Z.mod_pos_bound (4 * (strings_end / 4) - reservedGap - 4 * table_words) 16 ltac:(lia)).
  pose proof (Z.div_mod strings_end 4 ltac:(lia)). pose proof (Z.mod_pos_bound strings_end 4 ltac:(lia)).
  unfold strings_end, apple_top, environment_top, table_words, count in *.
  pose proof (strings_total_nonneg arguments). pose proof (strings_total_nonneg environment).
  pose proof (strings_total_nonneg apple). lia.
Qed.

Lemma initial_words_count executableAddress : count (initial_words executableAddress) = table_words.
Proof.
  unfold initial_words, table_words, count.
  rewrite !length_app, !length_fmap, !laid_length. cbn [length]. lia.
Qed.

Lemma initial_strings_app :
  initial_strings = stack_down stack_top (rev arguments) ++
    stack_down environment_top (rev environment) ++ stack_down apple_top (rev apple).
Proof.
  unfold initial_strings. rewrite !stack_down_app, !total_rev. done.
Qed.

(** The candidate is this image, exactly when it fits. *)
Lemma stack_candidate_spec executableAddress :
  stack_candidate stackBase stackSize executableAddress arguments environment apple reservedGap =
    Done (initial_image executableAddress) /\ stack_fits = true \/
  (exists e, stack_candidate stackBase stackSize executableAddress arguments environment apple
    reservedGap = Reject e) /\ stack_fits = false.
Proof.
  destruct layout_order as (H1 & H2 & H3 & H4 & H5 & H6 & H7).
  pose proof (total_count arguments). pose proof (total_count environment). pose proof (total_count apple).
  assert (U32_MOD = 4294967296) as HM by done. assert (U64_MOD = 18446744073709551616) as HM' by done.
  unfold stack_candidate. fold stack_top. change 0x100000000 with U32_MOD.
  assert (stack_fits = true -> 0 < stackSize /\ stack_top <= U32_MOD /\ stackBase <= initial_stack_pointer) as HF
    by (unfold stack_fits; intros; zb; done).
  check_step. check_step; [unfold UINT32_MAX, environment_top in *; check_fails|].
  assert (0 < stackSize) by lia.
  assert (stackBase <= stack_top) by (unfold stack_top; lia).
  rewrite placeStrings_spec by lia.
  place_step; [fold environment_top|unfold environment_top in *; check_fails].
  rewrite placeStrings_spec by (unfold environment_top in *; lia).
  place_step; [fold apple_top|unfold apple_top in *; check_fails].
  rewrite placeStrings_spec by (unfold apple_top in *; lia).
  place_step; [fold strings_end|unfold strings_end in *; check_fails].
  assert (stackBase <= strings_end <= U32_MOD) by (unfold strings_end in *; lia).
  assert (Z.land strings_end (u64_not 3) = 4 * (strings_end / 4)) as ->
    by (apply (land_u64_not_ones strings_end 2); lia).
  check_step; [unfold table_end in *; check_fails|].
  pose proof (Z.mul_div_le strings_end 4 ltac:(lia)).
  rewrite (u64_small (4 * _ - stackBase)) by lia.
  check_step; [unfold table_end in *; check_fails|]. fold table_end.
  assert (stackBase <= table_end) by (unfold table_end; lia).
  assert (total arguments + total environment + total apple <= U32_MOD)
    by (unfold strings_end, apple_top, environment_top in *; lia).
  assert (0 <= count arguments /\ 0 <= count environment /\ 0 <= count apple) by (unfold count; lia).
  assert (U32_MOD * 4 + 100 <= SIZE_MAX) by done.
  rewrite !count_addresses. do 4 (rewrite AddSize_small by lia; cbn [or_reject mbind outcome_bind]).
  replace (2 + count arguments + count environment + count apple + 3) with table_words
    by (unfold table_words; lia).
  assert (table_words <= U32_MOD + 5) by (unfold table_words; lia).
  check_step; [pose proof (Z.div_le_lower_bound SIZE_MAX 4 (U32_MOD + 5) ltac:(lia)); lia|].
  rewrite (u64_small (table_end - stackBase)) by lia. check_step.
  assert (Z.land (table_end - table_words * 4) (u64_not 15) = initial_stack_pointer) as ->.
  { unfold initial_stack_pointer. rewrite (Z.mul_comm 4).
    apply (land_u64_not_ones (table_end - table_words * 4) 4); lia. }
  check_step; [unfold UINT32_MAX in *; check_fails|].
  unfold UINT32_MAX in *. rewrite (u32_small (count arguments)) by lia. fold (initial_words executableAddress).
  rewrite initial_words_count, Z.eqb_refl. cbn [negb reject_if mbind outcome_bind].
  left. rewrite u32_small by lia. split.
  - unfold initial_image. rewrite initial_strings_app. cbn [app]. by rewrite <- app_assoc.
  - unfold stack_fits. rewrite !andb_true_iff, !Z.leb_le, Z.ltb_lt. lia.
Qed.
End layout.

(** ** The stack as a buffer

    The bytes of a range of guest memory whose addresses have distinct host
    locations: a raw write is a splice, a raw read a part of it. *)

Section view.
Context (base n : Z) (hs : list Z) (Hb : 0 <= base) (Hn : base + n <= U32_MOD) (Hnd : NoDup hs).

Definition view (s : vm) (buf : list Z) : Prop :=
  mapM (raw_translate s) (seqZ base n) = Some hs /\ host_bytes (host s) hs = buf.

Lemma view_length s buf : 0 <= n -> view s buf -> blen buf = n.
Proof.
  intros Hn0 [H <-]. apply length_mapM in H. rewrite length_seqZ in H.
  unfold blen, host_bytes. rewrite length_fmap. lia.
Qed.

Lemma seqZ_part a k : base <= a -> 0 <= k -> a + k <= base + n ->
  seqZ base n = seqZ base (a - base) ++ seqZ a k ++ seqZ (a + k) (base + n - (a + k)).
Proof.
  intros. replace n with ((a - base) + (k + (base + n - (a + k)))) at 1 by lia.
  rewrite !seqZ_app by lia. do 2 f_equal; f_equal; lia.
Qed.

Lemma view_part s buf a k :
  view s buf -> base <= a -> 0 <= k -> a + k <= base + n ->
  exists h1 h2 h3, hs = h1 ++ h2 ++ h3 /\ blen h1 = a - base /\ blen h2 = k /\
    mapM (raw_translate s) (seqZ a k) = Some h2.
Proof.
  intros [H _] Ha Hk He. rewrite (seqZ_part a k Ha Hk He), !mapM_app_opt in H.
  destruct (mapM _ (seqZ base _)) as [h1|] eqn:E1; [|done].
  destruct (mapM _ (seqZ a k)) as [h2|] eqn:E2; [|done].
  destruct (mapM _ (seqZ (a + k) _)) as [h3|] eqn:E3; [|done]. injection H as <-.
  exists h1, h2, h3. apply length_mapM in E1, E2. rewrite !length_seqZ in *. unfold blen.
  split; [done|]. split; [lia|]. split; [lia|done].
Qed.

Lemma range_valid a k : 0 < k -> a + k <= U32_MOD -> GuestAddressRangeIsValid32 a k = true.
Proof.
  intros. unfold GuestAddressRangeIsValid32. change (2 ^ 32) with U32_MOD.
  rewrite andb_true_iff, Z.ltb_lt, Z.leb_le. lia.
Qed.

Lemma host_bytes_app h a b : host_bytes h (a ++ b) = host_bytes h a ++ host_bytes h b.
Proof. apply fmap_app. Qed.

Lemma host_bytes_frame h kvs l :
  (forall x, x ∈ l -> x ∉ kvs.*1) -> host_bytes (store_bytes h kvs) l = host_bytes h l.
Proof.
  intros H. unfold host_bytes. apply list_fmap_ext. intros i x Hx.
  apply store_bytes_frame, H. by eapply list_elem_of_lookup_2.
Qed.

Lemma view_read s buf a k :
  view s buf -> base <= a -> 0 < k -> a + k <= base + n ->
  Dynarmic_mem_1read s a k true = Some (sub buf (a - base) k).
Proof.
  intros HV Ha Hk He. destruct (view_part s buf a k HV Ha ltac:(lia) He) as (h1 & h2 & h3 & E & L1 & L2 & T).
  destruct (raw_access_bytes s a k (zeros k) ltac:(lia) Hk (range_valid a k Hk ltac:(lia))) as [-> _].
  { apply blen_zeros. lia. }
  rewrite raw_bytes_translate, T. destruct HV as [_ <-]. rewrite E. cbn. f_equal.
  unfold host_bytes, sub. rewrite !fmap_app. unfold blen in *.
  rewrite drop_app_length' by (rewrite length_fmap; lia).
  by rewrite take_app_length' by (rewrite length_fmap; lia).
Qed.

Lemma view_write s buf a bs :
  view s buf -> base <= a -> 0 < blen bs -> a + blen bs <= base + n ->
  exists s', Dynarmic_mem_1write s a (blen bs) (Some bs) = (0, s') /\ view s' (splice buf (a - base) bs).
Proof.
  intros HV Ha Hk He.
  destruct (view_part s buf a (blen bs) HV Ha ltac:(lia) He) as (h1 & h2 & h3 & E & L1 & L2 & T).
  destruct (raw_access_bytes s a (blen bs) bs ltac:(lia) Hk (range_valid a (blen bs) Hk ltac:(lia)) eq_refl) as [_ W].
  rewrite (W _ T). eexists. split; [done|]. destruct HV as [HT <-]. split; [exact HT|]. cbn [host with_host].
  rewrite E. rewrite E in Hnd. rewrite !host_bytes_app.
  apply NoDup_app in Hnd as (N1 & N12 & (N2 & N23 & N3)%NoDup_app).
  assert (length h2 = length bs) as L by (unfold blen in L2; lia).
  assert ((zip h2 bs).*1 = h2) as Hz by (apply fst_zip; lia).
  rewrite store_bytes_read, (host_bytes_frame _ _ h1), (host_bytes_frame _ _ h3); try done.
  - unfold splice, blen in *. rewrite take_app_length' by (unfold host_bytes; rewrite length_fmap; lia).
    do 2 f_equal. rewrite app_assoc, drop_app_length'; [done|].
    unfold host_bytes. rewrite length_app, !length_fmap. lia.
  - intros x Hx. rewrite Hz. intros Hx2. by apply (N23 x).
  - intros x Hx. rewrite Hz. intros Hx2. apply (N12 x Hx), elem_of_app. by left.
Qed.

(** ** Writing the image *)

Definition has_string (buf : list Z) (x : InitialStackString) : Prop :=
  sub buf (address x - base) (blen (value x) + 1) = value x ++ [0].

(** The strings are where they were placed, and everything above them is as it
    was. *)
Lemma write_strings_ok vs hi s buf :
  0 <= n -> view s buf -> base <= hi - total vs -> hi <= base + n ->
  exists s' buf', write_strings s (stack_down hi vs) = (true, s') /\ view s' buf' /\
    (forall x, x ∈ stack_down hi vs -> has_string buf' x) /\
    (forall o k, hi - base <= o -> 0 <= k -> sub buf' o k = sub buf o k).
Proof.
  intros Hn0. revert hi s buf. induction vs as [|v vs IH]; intros hi s buf HV Hlo Hhi; cbn [stack_down write_strings].
  { exists s, buf. split; [done|]. split; [done|]. split; [by intros x ?%elem_of_nil|done]. }
  cbn [total address value] in *. pose proof (strings_total_nonneg vs). pose proof (blen_nonneg v).
  assert (blen (v ++ [0]) = blen v + 1) as L by (rewrite blen_app; done).
  pose proof (view_length s buf Hn0 HV) as Lb.
  destruct (view_write s buf (hi - (blen v + 1)) (v ++ [0]) HV) as (s1 & W & V1); [lia..|].
  rewrite L in W. rewrite W. cbn [Z.eqb negb].
  destruct (IH (hi - (blen v + 1)) s1 _ V1) as (s2 & buf2 & W2 & V2 & S2 & K2); [lia..|].
  exists s2, buf2. split; [done|]. split; [done|]. split.
  - intros x [-> |Hx]%elem_of_cons; [|by apply S2]. unfold has_string. cbn [address value].
    rewrite K2 by lia. rewrite <- L. apply sub_splice_same; lia.
  - intros o k Ho Hk. rewrite K2 by lia. apply sub_splice_after; lia.
Qed.

Lemma word_bytes_cons w ws : word_bytes (w :: ws) = le_bytes 4 w ++ word_bytes ws.
Proof. done. Qed.

Lemma blen_word_bytes ws : blen (word_bytes ws) = count ws * 4.
Proof.
  unfold count. induction ws as [|w ws IH]; [done|].
  rewrite word_bytes_cons, blen_app, blen_le_bytes, IH. cbn [length]. lia.
Qed.

(** ** Reading it back: the start of a program

    At the stack pointer are the address of the Mach header and argc, then three
    vectors of string pointers that end in a null pointer. *)

Definition guest_word (s : vm) (a : Z) : option Z := le_int <$> Dynarmic_mem_1read s a 4 true.

Fixpoint guest_string (fuel : nat) (s : vm) (a : Z) : option (list Z) :=
  match fuel with
  | O => None
  | S f =>
      bs ← Dynarmic_mem_1read s a 1 true;
      let b := le_int bs in
      if b =? 0 then Some [] else cons b <$> guest_string f s (a + 1)
  end.

Fixpoint guest_vector (fuel : nat) (s : vm) (cursor : Z) : option (list (list Z) * Z) :=
  match fuel with
  | O => None
  | S f =>
      pointer ← guest_word s cursor;
      if pointer =? 0 then Some ([], cursor + 4)
      else v ← guest_string (Z.to_nat n) s pointer;
           '(rest, cursor) ← guest_vector f s (cursor + 4);
           Some (v :: rest, cursor)
  end.

Definition guest_start (s : vm) (sp : Z) : option (Z * Z * list (list Z) * list (list Z) * list (list Z)) :=
  header ← guest_word s sp;
  argc ← guest_word s (sp + 4);
  '(argv, cursor) ← guest_vector (Z.to_nat n) s (sp + 8);
  '(envp, cursor) ← guest_vector (Z.to_nat n) s cursor;
  '(apple, cursor) ← guest_vector (Z.to_nat n) s cursor;
  Some (header, argc, argv, envp, apple).

Definition terminable (v : list Z) : Prop := Forall (fun b => b <> 0 /\ byte_ok b) v.

Lemma guest_string_ok fuel s buf a v :
  0 <= n -> view s buf -> base <= a -> a + blen v + 1 <= base + n -> terminable v ->
  sub buf (a - base) (blen v + 1) = v ++ [0] -> blen v + 1 <= Z.of_nat fuel ->
  guest_string fuel s a = Some v.
Proof.
  intros Hn0 HV. revert a fuel. induction v as [|b v IH]; intros a fuel Ha He Hv Hs Hf;
    (destruct fuel as [|fuel]; [unfold blen in Hf; lia|]); cbn [guest_string].
  - rewrite (view_read s buf a 1) by (change (blen []) with 0 in *; lia || done).
    change (blen [] + 1) with 1 in Hs. rewrite Hs. done.
  - apply Forall_cons in Hv as [[Hb0 Hb1] Hv].
    assert (blen (b :: v) = 1 + blen v) as L by (unfold blen; cbn [length]; lia).
    rewrite L in *. pose proof (blen_nonneg v).
    rewrite (view_read s buf a 1) by (lia || done).
    replace (1 + blen v + 1) with (1 + (blen v + 1)) in Hs by lia.
    rewrite sub_app_split in Hs by lia.
    assert (sub buf (a - base) 1 = [b] /\ sub buf (a - base + 1) (blen v + 1) = v ++ [0]) as [S1 S2].
    { pose proof (view_length s buf Hn0 HV).
      apply (app_inj_1 _ [b] _ (v ++ [0])) in Hs; [done|].
      assert (blen (sub buf (a - base) 1) = 1) as E by (rewrite blen_sub; lia).
      unfold blen in E. cbn. lia. }
    rewrite S1. cbn [mbind option_bind le_int]. replace (b + 256 * 0) with b by lia.
    destruct (b =? 0) eqn:?; zb; [done|]. rewrite (IH (a + 1)); [done|lia|lia|done| |lia].
    rewrite <- S2. f_equal. lia.
Qed.

(** A table of words at an address. *)
Definition has_words (buf : list Z) (a : Z) (ws : list Z) : Prop :=
  base <= a /\ a + count ws * 4 <= base + n /\ sub buf (a - base) (count ws * 4) = word_bytes ws.

Lemma count_app {A} (l k : list A) : count (l ++ k) = count l + count k.
Proof. unfold count. rewrite length_app. lia. Qed.

Lemma count_nonneg {A} (l : list A) : 0 <= count l.
Proof. unfold count. lia. Qed.

Lemma word_bytes_app l k : word_bytes (l ++ k) = word_bytes l ++ word_bytes k.
Proof. induction l as [|w l IH]; [done|]. cbn [app]. by rewrite !word_bytes_cons, IH, app_assoc. Qed.

Lemma has_words_app buf a l k :
  blen buf = n -> has_words buf a (l ++ k) -> has_words buf a l /\ has_words buf (a + count l * 4) k.
Proof.
  intros Hl (Ha & He & Hs). rewrite count_app in *.
  pose proof (count_nonneg l). pose proof (count_nonneg k).
  replace ((count l + count k) * 4) with (count l * 4 + count k * 4) in Hs by lia.
  rewrite sub_app_split, word_bytes_app in Hs by lia.
  apply app_inj_1 in Hs as [H1 H2].
  - split; (split; [lia|]; split; [lia|]); [done|]. rewrite <- H2. f_equal. lia.
  - pose proof (blen_word_bytes l) as E. rewrite <- (blen_sub buf (a - base) (count l * 4)) in E by lia.
    unfold blen in E. lia.
Qed.

Lemma guest_word_ok s buf a w : view s buf -> has_words buf a [w] -> 0 <= w < U32_MOD -> guest_word s a = Some w.
Proof.
  intros HV (Ha & He & Hs) Hw. change (count [w] * 4) with 4 in *. unfold guest_word.
  rewrite (view_read s buf a 4), Hs by (done || lia). cbn [fmap option_fmap option_map].
  f_equal. unfold word_bytes. cbn [fmap list_fmap mjoin list_join]. rewrite app_nil_r. by apply le_int_le_bytes.
Qed.

Definition string_ok (buf : list Z) (x : InitialStackString) : Prop :=
  base <= address x /\ 0 < address x /\ address x + blen (value x) + 1 <= base + n /\
  has_string buf x /\ terminable (value x).

Lemma guest_vector_ok fuel s buf cursor xs :
  0 <= n -> view s buf -> has_words buf cursor ((address <$> xs) ++ [0]) -> Forall (string_ok buf) xs ->
  count xs < Z.of_nat fuel ->
  guest_vector fuel s cursor = Some (value <$> xs, cursor + count ((address <$> xs) ++ [0]) * 4).
Proof.
  intros Hn0 HV. pose proof (view_length s buf Hn0 HV) as Hl.
  revert fuel cursor. induction xs as [|x xs IH]; intros fuel cursor Hw Hx Hf;
    (destruct fuel as [|fuel]; [unfold count in Hf; lia|]); cbn [guest_vector].
  - rewrite (guest_word_ok s buf cursor 0) by (done || lia). done.
  - apply Forall_cons in Hx as [(B1 & B2 & B3 & B4 & B5) Hx].
    change ((address <$> x :: xs) ++ [0]) with ([address x] ++ ((address <$> xs) ++ [0])) in Hw.
    apply has_words_app in Hw as [W1 W2]; [|done]. change (count [address x] * 4) with 4 in W2.
    pose proof (blen_nonneg (value x)).
    rewrite (guest_word_ok s buf cursor (address x)) by (done || lia). cbn [mbind option_bind].
    destruct (address x =? 0) eqn:?; zb; [lia|].
    rewrite (guest_string_ok _ s buf _ (value x) Hn0 HV B1 B3 B5 B4) by lia. cbn [mbind option_bind].
    rewrite IH; [|done|done|unfold count in *; cbn [length] in Hf; lia]. cbn [mbind option_bind].
    rewrite fmap_cons. do 2 f_equal. unfold count. rewrite !length_app, !length_fmap. cbn [length]. lia.
Qed.
End view.

(** ** The launched program finds what it was launched with *)

Section launch.
Context (stackBase stackSize reservedGap executableAddress : Z).
Context (arguments environment apple : list (list Z)) (s : vm) (hs : list Z).
Context (Hbase : 0 <= stackBase < U32_MOD) (Hsize : 0 <= stackSize < U32_MOD).
Context (Hgap : 0 <= reservedGap < U64_MOD) (Hexe : 0 <= executableAddress < U32_MOD).
Context (Hargs : Forall terminable arguments) (Henv : Forall terminable environment).
Context (Happle : Forall terminable apple).
Context (Htr : mapM (raw_translate s) (seqZ stackBase stackSize) = Some hs) (Hnd : NoDup hs).

#[local] Abbreviation fits := (stack_fits stackBase stackSize reservedGap arguments environment apple).
#[local] Abbreviation image := (initial_image stackBase stackSize reservedGap arguments environment apple executableAddress).
#[local] Abbreviation all_strings := (initial_strings stackBase stackSize arguments environment apple).
#[local] Abbreviation all_words := (initial_words stackBase stackSize arguments environment apple executableAddress).
#[local] Abbreviation sp := (initial_stack_pointer stackBase stackSize reservedGap arguments environment apple).

Lemma laid_strings vs hi x : x ∈ laid hi vs -> x ∈ stack_down hi (rev vs).
Proof. unfold laid. by rewrite !list_elem_of_In, <- in_rev. Qed.

Lemma laid_terminable vs hi x : Forall terminable vs -> x ∈ laid hi vs -> terminable (value x).
Proof.
  intros Hv Hx. rewrite Forall_forall in Hv. apply Hv.
  rewrite <- (laid_values hi vs). by apply list_elem_of_fmap_2.
Qed.

Lemma write_image_ok :
  fits = true -> exists s' buf, write_stack_image s image = (true, s') /\
    view stackBase stackSize hs s' buf /\ has_words stackBase stackSize buf sp all_words /\
    (forall x, x ∈ all_strings -> has_string stackBase buf x).
Proof.
  intros Hf. destruct (layout_order stackBase stackSize reservedGap arguments environment apple)
    as (H1 & H2 & H3 & H4 & H5 & H6 & H7); try done.
  unfold stack_fits in Hf. zb.
  assert (total (rev arguments ++ rev environment ++ rev apple) =
    stack_top stackBase stackSize - strings_end stackBase stackSize arguments environment apple) as HT.
  { rewrite !total_app, !total_rev. unfold strings_end, apple_top, environment_top. lia. }
  assert (stack_top stackBase stackSize = stackBase + stackSize) as HST by done.
  unfold write_stack_image. cbn [strings initial_image stackPointer words].
  destruct (write_strings_ok stackBase stackSize hs ltac:(lia) ltac:(unfold stack_top in *; lia) Hnd
    (rev arguments ++ rev environment ++ rev apple) (stack_top stackBase stackSize) s
    (host_bytes (host s) hs)) as (s1 & buf1 & W1 & V1 & S1 & _);
    [lia|done|lia|unfold stack_top; lia|].
  unfold initial_strings in *. rewrite W1. cbn [negb].
  pose proof (view_length stackBase stackSize hs s1 buf1 ltac:(lia) V1) as Hl.
  destruct (view_write stackBase stackSize hs ltac:(lia) ltac:(unfold stack_top in *; lia) Hnd s1 buf1 sp
    (word_bytes all_words) V1) as (s2 & W2 & V2); rewrite ?blen_word_bytes, ?initial_words_count; [lia..|].
  rewrite blen_word_bytes, initial_words_count in W2. rewrite W2.
  exists s2. eexists. split; [done|]. split; [exact V2|].
  assert (blen (word_bytes all_words) = 4 * table_words arguments environment apple) as Lw
    by (rewrite blen_word_bytes, initial_words_count; lia).
  split.
  - unfold has_words. rewrite <- blen_word_bytes, Lw. split; [lia|]. split; [lia|]. rewrite <- Lw.
    apply sub_splice_same; lia.
  - intros x Hx. pose proof (stack_down_range _ _ _ Hx). pose proof (S1 x Hx) as Hs.
    unfold has_string in *. pose proof (blen_nonneg (value x)).
    rewrite <- Hs. apply sub_splice_after; lia.
Qed.

Lemma strings_ok hi vs buf :
  Forall terminable vs -> fits = true ->
  strings_end stackBase stackSize arguments environment apple <= hi - total vs ->
  hi <= stack_top stackBase stackSize ->
  (forall x, x ∈ stack_down hi (rev vs) -> has_string stackBase buf x) ->
  Forall (string_ok stackBase stackSize buf) (laid hi vs).
Proof.
  intros Hv Hf Hlo Hhi Hs. apply Forall_forall. intros x Hx.
  pose proof (laid_terminable _ _ _ Hv Hx). apply laid_strings in Hx. pose proof (stack_down_range _ _ _ Hx) as R.
  rewrite total_rev in R.
  destruct (layout_order stackBase stackSize reservedGap arguments environment apple)
    as (H1 & H2 & H3 & H4 & H5 & H6 & H7); try done.
  unfold stack_fits in Hf. zb. unfold stack_top in *.
  split; [lia|]. split; [lia|]. split; [lia|]. split; [by apply Hs|done].
Qed.

Lemma initial_words_split buf :
  blen buf = stackSize -> has_words stackBase stackSize buf sp all_words ->
  let arguments_words := (address <$> laid (stack_top stackBase stackSize) arguments) ++ [0] in
  let environment_words :=
    (address <$> laid (environment_top stackBase stackSize arguments) environment) ++ [0] in
  let c := sp + 4 + 4 in let c' := c + count arguments_words * 4 in
  has_words stackBase stackSize buf sp [executableAddress] /\
  has_words stackBase stackSize buf (sp + 4) [count arguments] /\
  has_words stackBase stackSize buf c arguments_words /\
  has_words stackBase stackSize buf c' environment_words /\
  has_words stackBase stackSize buf (c' + count environment_words * 4)
    ((address <$> laid (apple_top stackBase stackSize arguments environment) apple) ++ [0]).
Proof.
  intros Hl HW. unfold initial_words in HW. rewrite !app_assoc, <- (app_assoc _ _ [0]), <- !app_assoc in HW.
  change ([executableAddress; count arguments] ++ ?r) with ([executableAddress] ++ [count arguments] ++ r) in HW.
  apply has_words_app in HW as [W1 HW]; [|done]. apply has_words_app in HW as [W2 HW]; [|done].
  rewrite (app_assoc _ [0]), (app_assoc (address <$> laid (environment_top _ _ _) _) [0]) in HW.
  apply has_words_app in HW as [W3 HW]; [|done]. apply has_words_app in HW as [W4 W5]; [|done].
  exact (conj W1 (conj W2 (conj W3 (conj W4 W5)))).
Qed.

Lemma counts_small : fits = true -> count arguments < U32_MOD /\ count arguments < stackSize /\
  count environment < stackSize /\ count apple < stackSize.
Proof.
  intros Hf. destruct (layout_order stackBase stackSize reservedGap arguments environment apple)
    as (H1 & H2 & H3 & H4 & H5 & H6 & H7); try done.
  pose proof (total_count arguments). pose proof (total_count environment). pose proof (total_count apple).
  pose proof (strings_total_nonneg arguments). pose proof (strings_total_nonneg environment). pose proof (strings_total_nonneg apple).
  unfold stack_fits in Hf. zb. unfold strings_end, apple_top, environment_top, stack_top in *. lia.
Qed.

Lemma guest_start_ok s' buf :
  fits = true -> view stackBase stackSize hs s' buf -> has_words stackBase stackSize buf sp all_words ->
  (forall x, x ∈ all_strings -> has_string stackBase buf x) ->
  guest_start stackSize s' sp = Some (executableAddress, count arguments, arguments, environment, apple).
Proof.
  intros Hf HV HW HS. rewrite initial_strings_app in HS.
  pose proof (view_length stackBase stackSize hs s' buf ltac:(lia) HV) as Hl.
  destruct (layout_order stackBase stackSize reservedGap arguments environment apple)
    as (H1 & H2 & H3 & H4 & H5 & H6 & H7); try done.
  assert (forall x, x ∈ stack_down (stack_top stackBase stackSize) (rev arguments) -> has_string stackBase buf x)
    as S1 by (intros; apply HS; rewrite elem_of_app; by left).
  assert (forall x, x ∈ stack_down (environment_top stackBase stackSize arguments) (rev environment) ->
    has_string stackBase buf x) as S2 by (intros; apply HS; rewrite !elem_of_app; tauto).
  assert (forall x, x ∈ stack_down (apple_top stackBase stackSize arguments environment) (rev apple) ->
    has_string stackBase buf x) as S3 by (intros; apply HS; rewrite !elem_of_app; tauto).
  apply (strings_ok _ _ _ Hargs Hf) in S1; [|unfold environment_top in *; lia|lia].
  apply (strings_ok _ _ _ Henv Hf) in S2; [|unfold apple_top in *; lia|lia].
  apply (strings_ok _ _ _ Happle Hf) in S3; [|unfold strings_end in *; lia|lia].
  destruct (initial_words_split buf Hl HW) as (W1 & W2 & W3 & W4 & W5).
  destruct (counts_small Hf) as (C0 & C1 & C2 & C3). pose proof (count_nonneg arguments).
  assert (stackBase + stackSize <= U32_MOD) as Htop by (unfold stack_fits, stack_top in *; zb; lia).
  pose proof (guest_word_ok stackBase stackSize hs ltac:(lia) Htop Hnd s' buf) as GW.
  pose proof (guest_vector_ok stackBase stackSize hs ltac:(lia) Htop Hnd (Z.to_nat stackSize) s' buf) as GV.
  unfold guest_start. rewrite (GW _ _ HV W1) by done. cbn [mbind option_bind].
  rewrite (GW _ _ HV W2) by lia. cbn [mbind option_bind].
  replace (sp + 8) with (sp + 4 + 4) by lia.
  rewrite (GV _ _ ltac:(lia) HV W3 S1) by (unfold count in *; rewrite laid_length; lia). cbn [mbind option_bind].
  rewrite (GV _ _ ltac:(lia) HV W4 S2) by (unfold count in *; rewrite laid_length; lia). cbn [mbind option_bind].
  rewrite (GV _ _ ltac:(lia) HV W5 S3) by (unfold count in *; rewrite laid_length; lia). cbn [mbind option_bind].
  by rewrite !laid_values.
Qed.
End launch.

(** C27: the initial stack of a guest program.  [BuildInitialStackImage] succeeds
    exactly when the strings, the gap and the table fit between the base of the
    stack and its top, and otherwise leaves the caller's image alone.  When it
    succeeds, the stack pointer is 16-byte aligned and inside the stack, writing
    the image to a mapped stack succeeds, and a program that starts at that stack
    pointer finds its Mach header, argc and the three vectors it was launched
    with, string by string. *)
Theorem initial_stack_roundtrip stackBase stackSize reservedGap executableAddress
    arguments environment apple s hs old :
  0 <= stackBase < U32_MOD -> 0 <= stackSize < U32_MOD -> 0 <= reservedGap < U64_MOD ->
  0 <= executableAddress < U32_MOD ->
  Forall terminable arguments -> Forall terminable environment -> Forall terminable apple ->
  mapM (raw_translate s) (seqZ stackBase stackSize) = Some hs -> NoDup hs ->
  let result := BuildInitialStackImage stackBase stackSize executableAddress arguments environment
                  apple (Some old) reservedGap in
  if stack_fits stackBase stackSize reservedGap arguments environment apple then
    exists image s', result = (true, Some image, None) /\
      write_stack_image s image = (true, s') /\
      stackPointer image mod 16 = 0 /\ stackBase <= stackPointer image < stackBase + stackSize /\
      guest_start stackSize s' (stackPointer image) =
        Some (executableAddress, count arguments, arguments, environment, apple)
  else exists e, result = (false, Some old, Some e).
Proof.
  intros Hb Hs Hg He Ha Hen Hap Htr Hnd. unfold BuildInitialStackImage.
  destruct (stack_candidate_spec stackBase stackSize reservedGap arguments environment apple Hb Hs Hg
    executableAddress) as [[-> Hf]|[[e ->] ->]]; [|by exists e].
  rewrite Hf. eexists. destruct (write_image_ok stackBase stackSize reservedGap executableAddress
    arguments environment apple s hs Hb Hs Hg Htr Hnd Hf) as (s' & buf & W & V & HW & HS).
  exists s'. split; [done|]. split; [exact W|]. cbn [stackPointer initial_image].
  split; [unfold initial_stack_pointer; rewrite Z.mul_comm; by apply Z.mod_mul|].
  split; [|by eapply guest_start_ok].
  destruct (layout_order stackBase stackSize reservedGap arguments environment apple)
    as (H1 & H2 & H3 & H4 & H5 & H6 & H7); try done.
  unfold stack_fits in Hf. zb. unfold stack_top in *. lia.
Qed.
