(* ===== verification/GuestEnvironment.v ===== *)
(** The environment of a guest program: which variables of the launcher's
    environment reach it, and what [getenv] answers there. *)

From stdpp Require Import base list strings sorting.
From Stdlib Require Import ZArith Lia.
From S2P Require Import Prelude Bytes GuestBootstrap.

Open Scope list_scope.
Open Scope Z_scope.

(** ** Reference *)

(** [s] starts with [name=]: what follows. *)
Definition assigned (name s : list Z) : option (list Z) :=
  if bool_decide (take (length name + 1) s = name ++ [equals_sign])
  then Some (drop (length name + 1) s) else None.

(** The C library's [getenv]. *)
Definition getenv (environment : list (list Z)) (name : list Z) : option (list Z) :=
  head (omap (assigned name) environment).

(** The last assignment to the prefixed name. *)
Definition forwarded (environment : list (list Z)) (name : list Z) : option (list Z) :=
  if IsEnvironmentName name then last (omap (assigned (EnvironmentPrefix ++ name)) environment)
  else None.

Definition launcher_names : list (list Z) := [HOME; NATIVE_GUEST_THREADS; DYLD_SHARED_REGION].

Definition guest_value (environment : list (list Z)) (guestHome nativeGuestThreads name : list Z)
    : option (list Z) :=
  if bool_decide (name = HOME) then Some guestHome
  else if bool_decide (name = NATIVE_GUEST_THREADS) then Some nativeGuestThreads
  else if bool_decide (name = DYLD_SHARED_REGION) then Some private_region
  else forwarded environment name.

(** ** Assignments *)

Lemma assigned_app name k v :
  equals_sign ∉ name -> equals_sign ∉ k ->
  assigned name (k ++ equals_sign :: v) = if bool_decide (k = name) then Some v else None.
Proof.
  revert k. induction name as [|c name IH]; intros [|d k] Hn Hk.
  - done.
  - unfold assigned. cbn. apply not_elem_of_cons in Hk as [Hd _].
    rewrite bool_decide_eq_false_2 by congruence. done.
  - unfold assigned. cbn. apply not_elem_of_cons in Hn as [Hc _].
    rewrite bool_decide_eq_false_2 by congruence. done.
  - apply not_elem_of_cons in Hn as [_ Hn], Hk as [_ Hk]. specialize (IH k Hn Hk).
    unfold assigned in *. cbn [length app take drop Nat.add].
    repeat case_bool_decide; simplify_eq; congruence.
Qed.

Lemma assigned_none name s : equals_sign ∉ s -> assigned name s = None.
Proof.
  intros Hs. unfold assigned. rewrite bool_decide_eq_false_2; [done|]. intros H. apply Hs.
  rewrite <- (take_drop (length name + 1) s), H, !elem_of_app. left. right. by apply list_elem_of_singleton.
Qed.

Lemma find_equals_spec e :
  match find_equals e with
  | Some n => exists b, e = take n e ++ equals_sign :: b /\ drop (n + 1) e = b /\ equals_sign ∉ take n e
  | None => equals_sign ∉ e
  end.
Proof.
  induction e as [|c e IH]; cbn [find_equals]; [by apply not_elem_of_nil|].
  destruct (c =? equals_sign) eqn:Hc; zb.
  - subst. exists e. cbn. split; [done|]. split; [done|]. by apply not_elem_of_nil.
  - destruct (find_equals e) as [n|]; cbn.
    + destruct IH as (b & E1 & E2 & E3). exists b. split; [by rewrite <- E1|]. split; [done|].
      apply not_elem_of_cons. auto.
    + apply not_elem_of_cons. auto.
Qed.

Lemma environment_name_plain name : IsEnvironmentName name = true -> equals_sign ∉ name.
Proof.
  destruct name as [|c r]; [done|]. cbn [IsEnvironmentName]. destruct (_ && _); [done|].
  intros H Hin. rewrite forallb_forall in H. apply list_elem_of_In, H in Hin. done.
Qed.

Lemma prefix_plain : equals_sign ∉ EnvironmentPrefix.
Proof. apply (bool_decide_unpack _). by vm_compute. Qed.

(** ** The map *)

Lemma string_less_irrefl a : string_less a a = false.
Proof. induction a as [|x a IH]; cbn; [done|]. by rewrite Z.ltb_irrefl, Z.eqb_refl, IH. Qed.

Lemma string_less_total a b : string_less a b = false -> string_less b a = false -> a = b.
Proof.
  revert b. induction a as [|x a IH]; intros [|y b]; cbn; try done.
  intros H1 H2. zb. destruct (x =? y) eqn:?, (y =? x) eqn:?; zb; try lia. subst. f_equal. by apply IH.
Qed.

Lemma string_less_trans a b c :
  string_less a b = true -> string_less b c = true -> string_less a c = true.
Proof.
  revert b c. induction a as [|x a IH]; intros [|y b] [|z c]; cbn; try done.
  rewrite !orb_true_iff, !andb_true_iff, !Z.ltb_lt, !Z.eqb_eq.
  intros [?|[? H1]] [?|[? H2]]; [lia..|]. right. split; [lia|]. by eapply IH.
Qed.

Lemma map_find_set n v m k :
  map_find k (map_set n v m) = if bool_decide (k = n) then Some v else map_find k m.
Proof.
  induction m as [|[k' v'] m IH]; cbn.
  - repeat case_bool_decide; congruence.
  - destruct (string_less n k') eqn:L1; cbn; [repeat case_bool_decide; congruence|].
    destruct (string_less k' n) eqn:L2; cbn.
    + rewrite IH. repeat case_bool_decide; subst; try done. by rewrite string_less_irrefl in L2.
    + apply string_less_total in L1; [|done]. subst. repeat case_bool_decide; congruence.
Qed.

Definition names_sorted (m : string_map) : Prop := StronglySorted (fun a b => string_less a b = true) (m.*1).

Lemma map_set_names n v m k : k ∈ (map_set n v m).*1 -> k = n \/ k ∈ m.*1.
Proof.
  induction m as [|[k' v'] m IH]; cbn; [rewrite list_elem_of_singleton; auto|].
  destruct (string_less n k'); [|destruct (string_less k' n)]; cbn; rewrite !elem_of_cons; naive_solver.
Qed.

Lemma map_set_sorted n v m : names_sorted m -> names_sorted (map_set n v m).
Proof.
  unfold names_sorted. induction m as [|[k' v'] m IH]; cbn; [by repeat constructor|].
  intros [Hs Hf]%StronglySorted_inv.
  destruct (string_less n k') eqn:L1; [|destruct (string_less k' n) eqn:L2]; cbn.
  - constructor; [by constructor|]. constructor; [done|]. eapply Forall_impl; [exact Hf|].
    intros x Hx. by eapply string_less_trans.
  - constructor; [by apply IH|]. apply Forall_forall. intros x [-> |Hx]%map_set_names; [done|].
    rewrite Forall_forall in Hf. auto.
  - by constructor.
Qed.

(** ** Collecting *)

Lemma collect_entry_find sel e n :
  map_find n (values (collect_entry sel e)) =
  match (if IsEnvironmentName n then assigned (EnvironmentPrefix ++ n) e else None) with
  | Some v => Some v
  | None => map_find n (values sel)
  end.
Proof.
  unfold collect_entry. pose proof (find_equals_spec e) as Hfe.
  destruct (find_equals e) as [i|].
  2:{ rewrite assigned_none by done. destruct (negb _); cbn; by destruct (IsEnvironmentName n). }
  destruct Hfe as (b & He & Hb & Ha). rewrite Hb.
  assert (IsEnvironmentName n = true -> assigned (EnvironmentPrefix ++ n) e =
    if bool_decide (take i e = EnvironmentPrefix ++ n) then Some b else None) as Has.
  { intros Hn. rewrite He at 1. apply assigned_app; [|done].
    apply not_elem_of_app. split; [apply prefix_plain|by apply environment_name_plain]. }
  destruct (decide (take (length EnvironmentPrefix) (take i e) = EnvironmentPrefix)) as [Hp|Hp];
    [rewrite (bool_decide_eq_true_2 _ Hp)|rewrite (bool_decide_eq_false_2 _ Hp)]; cbn [negb].
  - assert (take i e = EnvironmentPrefix ++ drop (length EnvironmentPrefix) (take i e)) as Hsplit
      by (rewrite <- Hp at 1; by rewrite take_drop).
    revert Hsplit. generalize (drop (length EnvironmentPrefix) (take i e)). intros g Hsplit.
    rewrite Hsplit in Has.
    destruct (IsEnvironmentName g) eqn:Hg; cbn [negb values]; rewrite ?map_find_set;
      (destruct (IsEnvironmentName n) eqn:Hn; [rewrite Has by done|]); repeat case_bool_decide;
      simplify_eq; congruence.
  - destruct (IsEnvironmentName n) eqn:Hn; [|done]. rewrite Has by done.
    rewrite bool_decide_eq_false_2; [done|]. intros E. apply Hp. rewrite E. apply take_app_length.
Qed.

(** The invariant of the map: its names are valid and in order. *)
Definition selection_ok (m : string_map) : Prop :=
  names_sorted m /\ Forall (fun k => IsEnvironmentName k = true) (m.*1).

Lemma map_set_ok n v m : IsEnvironmentName n = true -> selection_ok m -> selection_ok (map_set n v m).
Proof.
  intros Hn [Hs Hf]. split; [by apply map_set_sorted|]. rewrite Forall_forall in *.
  intros k [-> |Hk]%map_set_names; auto.
Qed.

Lemma collect_entry_ok sel e : selection_ok (values sel) -> selection_ok (values (collect_entry sel e)).
Proof.
  intros H. unfold collect_entry. destruct (negb (bool_decide _)); [done|].
  destruct (find_equals e); [|done]. destruct (IsEnvironmentName _) eqn:?; [by apply map_set_ok|done].
Qed.

Lemma forwarded_snoc es e n :
  forwarded (es ++ [e]) n =
  match (if IsEnvironmentName n then assigned (EnvironmentPrefix ++ n) e else None) with
  | Some v => Some v
  | None => forwarded es n
  end.
Proof.
  unfold forwarded. destruct (IsEnvironmentName n); [|done]. rewrite omap_app. cbn.
  destruct (assigned _ e); [by rewrite last_snoc|by rewrite app_nil_r].
Qed.

Lemma collect_entries_spec es :
  let m := values (CollectEnvironment (Some es)) in
  selection_ok m /\ forall n, map_find n m = forwarded es n.
Proof.
  cbn. induction es as [|e es [IH1 IH2]] using rev_ind.
  - split; [split; constructor|]. intros n. unfold forwarded. by destruct (IsEnvironmentName n).
  - rewrite foldl_app. cbn [foldl]. split; [by apply collect_entry_ok|].
    intros n. by rewrite collect_entry_find, forwarded_snoc, IH2.
Qed.

Lemma getenv_map m n :
  Forall (fun k => IsEnvironmentName k = true) (m.*1) -> equals_sign ∉ n ->
  getenv ((fun '(name, value) => name ++ equals_sign :: value) <$> m) n = map_find n m.
Proof.
  intros Hm Hn. unfold getenv. induction m as [|[k v] m IH]; [done|].
  cbn in Hm. apply Forall_cons in Hm as [Hk Hm]. cbn [fmap list_fmap omap list_omap map_find].
  rewrite assigned_app by (done || by apply environment_name_plain).
  case_bool_decide; [done|]. by apply IH.
Qed.

(** The names of the entries, up to their first equals sign. *)
Definition entry_name (entry : list Z) : list Z :=
  match find_equals entry with Some i => take i entry | None => entry end.

Lemma entry_name_app k v : equals_sign ∉ k -> entry_name (k ++ equals_sign :: v) = k.
Proof.
  intros Hk. unfold entry_name.
  assert (find_equals (k ++ equals_sign :: v) = Some (length k)) as ->; [|by rewrite take_app_length].
  induction k as [|c k IH]; [done|]. apply not_elem_of_cons in Hk as [Hc Hk]. cbn.
  destruct (c =? equals_sign) eqn:?; zb; [congruence|]. by rewrite IH.
Qed.

Lemma entry_names m :
  Forall (fun k => IsEnvironmentName k = true) (m.*1) ->
  entry_name <$> ((fun '(name, value) => name ++ equals_sign :: value) <$> m) = m.*1.
Proof.
  induction m as [|[k v] m IH]; [done|]. cbn. intros [Hk Hm]%Forall_cons.
  rewrite entry_name_app by (by apply environment_name_plain). f_equal. by apply IH.
Qed.

(** The environment of a guest program.  Every name is answered by getenv
    with the launcher's own value for HOME, NATIVE_GUEST_THREADS and
    DYLD_SHARED_REGION, and otherwise with the last value the launcher's
    environment gave the prefixed name; nothing else crosses.  The entries have
    valid names, each once and in order, and the overridden names are the
    launcher's names that the environment had tried to set. *)
Theorem environment_exact es guestHome nativeGuestThreads :
  let '(environment, overridden) :=
    FinalizeEnvironment (CollectEnvironment (Some es)) guestHome nativeGuestThreads in
  (forall n, equals_sign ∉ n ->
     getenv environment n = guest_value es guestHome nativeGuestThreads n) /\
  Forall (fun n => IsEnvironmentName n = true) (entry_name <$> environment) /\
  StronglySorted (fun a b => string_less a b = true) (entry_name <$> environment) /\
  overridden = filter (fun n => is_Some (forwarded es n)) launcher_names.
Proof.
  destruct (collect_entries_spec es) as [Hok Hfind]. unfold FinalizeEnvironment, setLauncherValue.
  set (m := values _) in *. clearbody m.
  apply (map_set_ok HOME guestHome) in Hok; [|done].
  apply (map_set_ok NATIVE_GUEST_THREADS nativeGuestThreads) in Hok; [|done].
  apply (map_set_ok DYLD_SHARED_REGION private_region) in Hok as [Hs Hf]; [|done].
  split; [|split; [|split]].
  - intros n Hn. rewrite getenv_map, !map_find_set, Hfind by done. unfold guest_value.
    assert (HOME <> NATIVE_GUEST_THREADS /\ HOME <> DYLD_SHARED_REGION /\
      NATIVE_GUEST_THREADS <> DYLD_SHARED_REGION) as (? & ? & ?) by done.
    repeat case_bool_decide; congruence.
  - by rewrite entry_names.
  - by rewrite entry_names.
  - rewrite !map_find_set, !Hfind. unfold launcher_names.
    rewrite !bool_decide_eq_false_2 by done. rewrite !filter_cons, filter_nil.
    destruct (forwarded es HOME), (forwarded es NATIVE_GUEST_THREADS), (forwarded es DYLD_SHARED_REGION);
      repeat case_decide; try done; exfalso; eauto using is_Some_None.
Qed.
