(* ===== verification/LegacyLayout.v ===== *)
(** The legacy bundle alias: [EnsureLegacyBundleLayout]
    (src/HostFrameworks/LC32/guest_bootstrap.cpp), which keeps the alias of the
    running application, and [LC32CreateLegacyBundleOuterLink]
    (src/Tweak/LegacyBundleLayout.c), with which the installer publishes it.

    Both are sequences of system calls whose answers other processes influence,
    so they are programs over a type of calls: [Invoke c k] issues [c] and goes on
    with the host's answer, whatever it is.  A failing call answers with its
    errno, on the left of a sum or as [Some]. *)

From stdpp Require Import base list strings.
From Stdlib Require Import ZArith Lia.
From S2P Require Import Prelude Bytes GuestPaths GuestPathsProps GuestBootstrap.

Open Scope list_scope.
Open Scope Z_scope.

(** ** The relative target of the alias ([RelativeBundleTarget]) *)

(** The first loop: just behind the last slash up to which the two agree. *)
Fixpoint common_loop (home bundle : list Z) (index common : nat) : nat :=
  match home, bundle with
  | h :: home, b :: bundle =>
      if h =? b then common_loop home bundle (S index) (if h =? slash then S index else common)
      else common
  | _, _ => common
  end.

(** The second loop: [../] for every slash. *)
Fixpoint parents (home : list Z) : list Z :=
  match home with
  | [] => []
  | c :: home => (if c =? slash then [dot; dot; slash] else []) ++ parents home
  end.

Definition RelativeBundleTarget (resolvedHome resolvedBundle : list Z) : list Z :=
  let home := resolvedHome ++ [slash] in
  let bundle := resolvedBundle ++ [slash] in
  let common := common_loop home bundle 0 0 in
  let target := parents (drop common home) ++ drop common bundle in
  match target with [] => [dot] | _ => removelast target end.

(** ** Components with a slash behind each *)

Definition enc (cs : list (list Z)) : list Z := mjoin ((fun c => c ++ [slash]) <$> cs).

Definition plain (c : list Z) : Prop := c <> [] /\ Forall (fun b => b <> slash) c.

Fixpoint common_parts (a b : list (list Z)) : list (list Z) * list (list Z) * list (list Z) :=
  match a, b with
  | x :: a', y :: b' =>
      if decide (x = y) then let '(l, ra, rb) := common_parts a' b' in (x :: l, ra, rb) else ([], a, b)
  | _, _ => ([], a, b)
  end.

Lemma common_parts_split a b :
  let '(l, ra, rb) := common_parts a b in a = l ++ ra /\ b = l ++ rb.
Proof.
  revert b. induction a as [|x a IH]; intros [|y b]; cbn; try done.
  destruct (decide (x = y)) as [-> |]; [|done]. specialize (IH b).
  destruct (common_parts a b) as [[l ra] rb]. destruct IH as [-> ->]. done.
Qed.

Lemma enc_cons c cs : enc (c :: cs) = c ++ slash :: enc cs.
Proof. unfold enc. cbn. by rewrite <- app_assoc. Qed.

Lemma enc_app a b : enc (a ++ b) = enc a ++ enc b.
Proof. unfold enc. by rewrite fmap_app, join_app. Qed.

Lemma common_loop_same c h b i k :
  Forall (fun x => x <> slash) c ->
  common_loop (c ++ slash :: h) (c ++ slash :: b) i k =
  common_loop h b (i + length c + 1) (i + length c + 1).
Proof.
  intros Hc. revert i. induction Hc as [|x c Hx _ IH]; intros i; cbn [common_loop app length].
  - rewrite Z.eqb_refl. by replace (i + 0 + 1)%nat with (S i) by lia.
  - rewrite Z.eqb_refl. destruct (x =? slash) eqn:?; zb; [done|]. rewrite IH. f_equal; lia.
Qed.

Lemma common_loop_differ c d h b i k :
  Forall (fun x => x <> slash) c -> Forall (fun x => x <> slash) d -> c <> d ->
  common_loop (c ++ slash :: h) (d ++ slash :: b) i k = k.
Proof.
  intros Hc. revert d i. induction Hc as [|x c Hx Hc IH]; intros [|y d] i Hd Hne;
    cbn [common_loop app]; try done.
  - apply Forall_cons in Hd as [Hy _]. destruct (slash =? y) eqn:?; zb; [congruence|done].
  - destruct (x =? slash) eqn:?; zb; [done|done].
  - apply Forall_cons in Hd as [Hy Hd]. destruct (x =? y) eqn:?; zb; [|done]. subst.
    destruct (y =? slash) eqn:?; zb; [done|]. apply IH; [done|congruence].
Qed.

Lemma common_loop_enc a b i :
  Forall plain a -> Forall plain b ->
  common_loop (enc a) (enc b) i i =
  let '(l, _, _) := common_parts a b in (i + length (enc l))%nat.
Proof.
  intros Ha. revert b i. induction Ha as [|x a [_ Hx] _ IH]; intros b i Hb; cbn [common_parts].
  { symmetry. apply Nat.add_0_r. }
  destruct b as [|y b].
  { rewrite enc_cons. change (enc []) with (@nil Z). cbn [length]. rewrite Nat.add_0_r. by destruct x. }
  apply Forall_cons in Hb as [[_ Hy] Hb]. rewrite !enc_cons.
  destruct (decide (x = y)) as [-> |Hne].
  - rewrite common_loop_same by done. rewrite IH by done.
    destruct (common_parts a b) as [[l ra] rb]. rewrite enc_cons, length_app. cbn [length]. lia.
  - rewrite common_loop_differ by done. symmetry. apply Nat.add_0_r.
Qed.

Lemma parents_enc cs : Forall plain cs -> parents (enc cs) = enc (replicate (length cs) [dot; dot]).
Proof.
  induction 1 as [|c cs [_ Hc] _ IH]; [done|]. cbn [length replicate]. rewrite !enc_cons, <- IH.
  clear IH. induction Hc as [|x c Hx _ IH]; [done|].
  cbn [parents app]. destruct (x =? slash) eqn:?; zb; done.
Qed.

Lemma parts_enc cs : Forall plain cs -> parts (enc cs) = cs.
Proof.
  induction 1 as [|c cs [Hn Hc] _ IH]; [done|].
  by rewrite enc_cons, parts_app, parts_plain, IH by done.
Qed.

Lemma home_enc cs : cs <> [] -> render cs ++ [slash] = slash :: enc cs.
Proof.
  intros Hne. rewrite render_print by done. clear Hne. induction cs as [|c cs IH]; [done|].
  change (print (c :: cs)) with (slash :: c ++ print cs). cbn [app].
  by rewrite <- app_assoc, IH, enc_cons.
Qed.

Lemma pop_parents (stack rest : list (list Z)) k :
  length rest = k -> foldl enter (rest ++ stack) (replicate k [dot; dot]) = stack.
Proof. revert rest. induction k as [|k IH]; intros [|c rest] Hl; try done. cbn. apply IH. by injection Hl. Qed.

Lemma target_enc hs bs :
  Forall is_name hs -> Forall is_name bs -> hs <> [] -> bs <> [] ->
  let '(_, rh, rb) := common_parts hs bs in
  RelativeBundleTarget (render hs) (render bs) =
  match replicate (length rh) [dot; dot] ++ rb with [] => [dot] | cs => removelast (enc cs) end.
Proof.
  intros Hh Hb Hhne Hbne. unfold RelativeBundleTarget. rewrite !home_enc by done.
  assert (forall cs, Forall is_name cs -> Forall plain cs) as Hpl
    by (intros cs H; eapply Forall_impl; [exact H|]; unfold is_name, plain; tauto).
  assert (common_loop (slash :: enc hs) (slash :: enc bs) 0 0 = common_loop (enc hs) (enc bs) 1 1) as -> by done.
  rewrite common_loop_enc by auto. pose proof (common_parts_split hs bs) as Hs.
  destruct (common_parts hs bs) as [[l rh] rb]. destruct Hs as [-> ->].
  rewrite !enc_app. cbn [drop Nat.add]. rewrite !drop_app_length.
  rewrite parents_enc by (apply Hpl; by apply Forall_app in Hh as [_ ?]).
  rewrite <- enc_app. destruct (replicate (length rh) [dot; dot] ++ rb) as [|c cs]; [done|].
  destruct (enc (c :: cs)) eqn:E; [|done]. rewrite enc_cons in E. by destruct c.
Qed.

Lemma removelast_enc cs : cs <> [] -> enc cs = removelast (enc cs) ++ [slash].
Proof.
  intros Hne. destruct (exists_last Hne) as (front & c & ->). rewrite enc_app, enc_cons.
  change (enc []) with (@nil Z). by rewrite app_assoc, removelast_last.
Qed.

(** The relative target leads from the home directory to the bundle.  For
    canonical paths as realpath returns them, the target is relative, and its
    components, walked from the home directory, end at the bundle. *)
Theorem relative_target_resolves hs bs :
  Forall is_name hs -> Forall is_name bs -> hs <> [] -> bs <> [] ->
  let target := RelativeBundleTarget (render hs) (render bs) in
  head target <> Some slash /\ target <> [] /\ resolve (parts (render hs ++ slash :: target)) = bs.
Proof.
  intros Hh Hb Hhne Hbne. cbn zeta. pose proof (target_enc hs bs Hh Hb Hhne Hbne) as Ht.
  pose proof (common_parts_split hs bs) as Hs.
  destruct (common_parts hs bs) as [[l rh] rb]. destruct Hs as [-> ->]. rewrite Ht.
  rewrite Forall_app in Hh, Hb. destruct Hh as [Hl Hrh], Hb as [_ Hrb].
  rewrite parts_app, parts_render by (by apply Forall_app).
  assert (Forall plain (replicate (length rh) [dot; dot] ++ rb)) as Hp.
  { apply Forall_app. split; [apply Forall_replicate; split; [done|by repeat constructor]|].
    eapply Forall_impl; [exact Hrb|]. unfold is_name, plain. tauto. }
  assert (foldl enter [] (l ++ rh) = rev rh ++ rev l) as Hfold
    by (rewrite foldl_enter_self, app_nil_r, rev_app_distr by (by apply Forall_app); done).
  unfold resolve. rewrite foldl_app, Hfold.
  destruct (replicate (length rh) [dot; dot] ++ rb) as [|c cs] eqn:E.
  - apply app_nil in E as [E ->]. destruct rh; [|done].
    split; [done|]. split; [done|]. change (rev (rev l) = l ++ []). by rewrite rev_involutive, app_nil_r.
  - apply Forall_cons in Hp as [[Hc1 Hc2] Hp]. assert (c :: cs <> []) as Hne by done.
    pose proof (removelast_enc _ Hne) as Hrl.
    assert (parts (removelast (enc (c :: cs))) = c :: cs) as ->.
    { rewrite <- parts_snoc_slash, <- Hrl. apply parts_enc. by constructor. }
    set (t := removelast (enc (c :: cs))) in *. clearbody t.
    rewrite enc_cons in Hrl. destruct c as [|x c]; [done|].
    apply Forall_cons in Hc2 as [Hx _]. destruct t as [|y r]; [by destruct c|].
    split; [injection Hrl as <-; cbn; congruence|]. split; [done|].
    rewrite <- E, foldl_app, pop_parents by apply length_rev.
    rewrite foldl_enter_self, rev_app_distr, !rev_involutive by done. done.
Qed.



(** ** System calls *)

Inductive file_kind : Type := Regular | Directory | SymbolicLink | OtherFile.

#[export] Instance file_kind_eq_dec : EqDecision file_kind.
Proof. solve_decision. Defined.

Record file_status := mkStatus { st_dev : Z; st_ino : Z; st_kind : file_kind }.

Definition is_link (st : file_status) : bool := bool_decide (st_kind st = SymbolicLink).
Definition is_regular (st : file_status) : bool := bool_decide (st_kind st = Regular).
Definition same_file (a b : file_status) : bool := (st_dev a =? st_dev b) && (st_ino a =? st_ino b).

Inductive call : Type -> Type :=
| realpath (path : list Z) : call (Z + list Z)
| open_directory (path : list Z) : call (Z + Z)
| openat_directory (directory : Z) (name : list Z) : call (Z + Z)
| close (fd : Z) : call unit
| fstat (fd : Z) : call (Z + file_status)
| fstatat (directory : Z) (name : list Z) (follow : bool) : call (Z + file_status)
| readlinkat (directory : Z) (name : list Z) (size : Z) : call (Z + list Z)
| symlinkat (target : list Z) (directory : Z) (name : list Z) : call (option Z)
| renameat (from : Z) (old : list Z) (to : Z) (new : list Z) : call (option Z)
| unlinkat (directory : Z) (name : list Z) : call (option Z)
| arc4random : call Z.

Inductive program (A : Type) : Type :=
| Return (a : A)
| Invoke {X : Type} (c : call X) (k : X -> program A).
Arguments Return {A} a.
Arguments Invoke {A X} c k.

#[export] Instance program_ret : MRet program := fun A a => Return a.
#[export] Instance program_bind : MBind program := fun A B f =>
  fix bind (p : program A) : program B :=
    match p with
    | Return a => f a
    | Invoke c k => Invoke c (fun x => bind (k x))
    end.

Definition invoke {X} (c : call X) : program X := Invoke c Return.

(** A descriptor with a destructor that closes it. *)
Definition with_descriptor {A} (fd : Z) (body : program A) : program A :=
  r ← body; _ ← invoke (close fd); mret r.

(** ** Names *)

Definition LegacyBundleAliasName : list Z := text "LiveExec32.app"%string.
Definition LegacyBundleManagedTarget : list Z := text "Documents/.LiveExec32.app"%string.
Definition LegacyBundleInnerAliasName : list Z := text ".LiveExec32.app"%string.
Definition Documents : list Z := text "Documents"%string.
Definition InfoPlist : list Z := text "Info.plist"%string.
Definition dot_app : list Z := text ".app"%string.

Definition hex_digit (d : Z) : Z := if d <? 10 then 48 + d else 87 + d.

(** [%016llx]. *)
Fixpoint hex (digits : nat) (v : Z) : list Z :=
  match digits with O => [] | S n => hex n (v / 16) ++ [hex_digit (v mod 16)] end.

Definition temporary_name (nonce : Z) : list Z :=
  text ".LiveExec32.app."%string ++ hex 16 nonce ++ text ".tmp"%string.

(** ** Replacing an alias *)

(** The loop that creates the temporary link: an error or its name. *)
Fixpoint stage_alias (attempts : nat) (directory : Z) (target : list Z) : program (Z + list Z) :=
  match attempts with
  | O => mret (inl EEXIST)
  | S n =>
      nonce ← invoke arc4random;
      let temporaryName := temporary_name nonce in
      r ← invoke (symlinkat target directory temporaryName);
      match r with
      | None => mret (inr temporaryName)
      | Some errno => if errno =? EEXIST then stage_alias n directory target else mret (inl errno)
      end
  end.

Definition ReplaceExistingAlias (directory : Z) (name target : list Z) (expected : file_status)
    : program Z :=
  staged ← stage_alias 8 directory target;
  match staged with
  | inl e => mret e
  | inr temporaryName =>
      r ← invoke (fstatat directory name false);
      error ←
        match r with
        | inl errno => mret errno
        | inr existing =>
            if negb (is_link existing) || negb (same_file existing expected) then mret EEXIST
            else
              r ← invoke (renameat directory temporaryName directory name);
              mret (default 0 r)
        end;
      if negb (error =? 0) then _ ← invoke (unlinkat directory temporaryName); mret error
      else mret error
  end.

Definition IsManagedOuterAlias (home : Z) : program bool :=
  r ← invoke (readlinkat home LegacyBundleAliasName (blen LegacyBundleManagedTarget + 1));
  mret (match r with
        | inl _ => false
        | inr target => bool_decide (target = LegacyBundleManagedTarget)
        end).

Definition UpdateManagedInnerAlias (home : Z) (resolvedBundle : list Z)
    (bundleMetadata : file_status) : program Z :=
  r ← invoke (openat_directory home Documents);
  match r with
  | inl errno => mret errno
  | inr documents =>
      with_descriptor documents (
        r ← invoke (fstatat documents LegacyBundleInnerAliasName false);
        (* the entry to check, or the result *)
        existing ←
          match r with
          | inr existing => mret (inr existing)
          | inl errno =>
              if negb (errno =? ENOENT) then mret (inl errno)
              else
                r ← invoke (symlinkat resolvedBundle documents LegacyBundleInnerAliasName);
                match r with
                | None => mret (inl 0)
                | Some errno =>
                    if negb (errno =? EEXIST) then mret (inl errno)
                    else invoke (fstatat documents LegacyBundleInnerAliasName false)
                end
          end;
        match existing with
        | inl result => mret result
        | inr existing =>
            if negb (is_link existing) then mret EEXIST
            else
              r ← invoke (fstatat documents LegacyBundleInnerAliasName true);
              if match r with inr target => same_file target bundleMetadata | inl _ => false end
              then mret 0
              else ReplaceExistingAlias documents LegacyBundleInnerAliasName resolvedBundle existing
        end)
  end.

(** [checkExistingAlias]; [unset] is the first character when the link is
    empty and the array stays as it was. *)
Definition checkExistingAlias (unset home : Z) (relativeTarget : list Z)
    (bundleMetadata : file_status) : program Z :=
  r ← invoke (fstatat home LegacyBundleAliasName false);
  match r with
  | inl errno => mret errno
  | inr entry =>
      if negb (is_link entry) then mret EEXIST
      else
        r ← invoke (fstatat home LegacyBundleAliasName true);
        if match r with inr target => same_file target bundleMetadata | inl _ => false end
        then
          r ← invoke (readlinkat home LegacyBundleAliasName 1);
          match r with
          | inl errno => mret errno
          | inr bytes =>
              if default unset (head bytes) =? slash
              then ReplaceExistingAlias home LegacyBundleAliasName relativeTarget entry
              else mret 0
          end
        else mret EEXIST
  end.

(** ** Keeping the alias *)

(** Where the executable's last slash is: its directory and its name. *)
Definition split_executable (executablePath : list Z) : list Z * list Z :=
  let '(name, rest) := component (rev executablePath) in
  (rev (drop 1 rest), rev name).

Definition ends_with (suffix s : list Z) : bool :=
  bool_decide (drop (length s - length suffix) s = suffix).

(** With the home directory open: from the comparison with the bundle's parent on. *)
Definition install_alias (unset home bundle : Z) (resolvedHome resolvedBundle : list Z) : program Z :=
  r ← invoke (fstat home);
  match r with
  | inl errno => mret errno
  | inr homeMetadata =>
      r ← invoke (fstatat bundle [dot; dot] true);
      match r with
      | inl errno => mret errno
      | inr parentMetadata =>
          if same_file homeMetadata parentMetadata then mret 0
          else
            r ← invoke (fstat bundle);
            match r with
            | inl errno => mret errno
            | inr bundleMetadata =>
                managed ← IsManagedOuterAlias home;
                if (managed : bool) then UpdateManagedInnerAlias home resolvedBundle bundleMetadata
                else
                  let relativeTarget := RelativeBundleTarget resolvedHome resolvedBundle in
                  existingError ← checkExistingAlias unset home relativeTarget bundleMetadata;
                  if negb (existingError =? ENOENT) then mret existingError
                  else
                    r ← invoke (symlinkat relativeTarget home LegacyBundleAliasName);
                    match r with
                    | None => mret 0
                    | Some errno =>
                        if errno =? EEXIST
                        then checkExistingAlias unset home relativeTarget bundleMetadata
                        else mret errno
                    end
            end
      end
  end.

(** [fstatat] of an entry of the bundle that must be a regular file. *)
Definition bundle_has (bundle : Z) (name : list Z) : program bool :=
  r ← invoke (fstatat bundle name false);
  mret (match r with inr metadata => is_regular metadata | inl _ => false end).

(** With the bundle open. *)
Definition layout_in_bundle (unset : Z) (configuredHome : list Z) (bundle : Z)
    (executableName resolvedHome resolvedBundle : list Z) : program Z :=
  plist ← bundle_has bundle InfoPlist;
  if negb plist then mret 0
  else
    executable ← bundle_has bundle executableName;
    if negb executable then mret 0
    else
      r ← invoke (open_directory configuredHome);
      match r with
      | inl errno => mret errno
      | inr home =>
          with_descriptor home (install_alias unset home bundle resolvedHome resolvedBundle)
      end.

Definition EnsureLegacyBundleLayout (unset : Z) (configuredHome executablePath : list Z)
    (sdkVersion : Z) : program Z :=
  if (0x00080000 <=? sdkVersion) || negb (bool_decide (head configuredHome = Some slash)) ||
     bool_decide (configuredHome = [slash]) || negb (bool_decide (head executablePath = Some slash))
  then mret 0
  else
    r ← invoke (realpath configuredHome);
    match r with
    | inl errno => mret errno
    | inr resolvedHome =>
        if bool_decide (drop 1 resolvedHome = []) then mret 0
        else
          let '(bundlePath, executableName) := split_executable executablePath in
          if (blen bundlePath <=? 4) || negb (ends_with dot_app bundlePath) ||
             bool_decide (executableName = []) || is_dot executableName || is_dotdot executableName
          then mret 0
          else
            r ← invoke (realpath bundlePath);
            match r with
            | inl errno => mret errno
            | inr resolvedBundle =>
                r ← invoke (open_directory resolvedBundle);
                match r with
                | inl errno => mret errno
                | inr bundle =>
                    with_descriptor bundle
                      (layout_in_bundle unset configuredHome bundle executableName
                         resolvedHome resolvedBundle)
                end
            end
    end.

(** ** Publishing the alias (the installer) *)

Definition CheckOuterLink (homeFD : Z) : program Z :=
  r ← invoke (fstatat homeFD LegacyBundleAliasName false);
  match r with
  | inl errno => mret errno
  | inr metadata =>
      if negb (is_link metadata) then mret EEXIST
      else
        r ← invoke (readlinkat homeFD LegacyBundleAliasName (blen LegacyBundleManagedTarget + 1));
        match r with
        | inl errno => mret errno
        | inr target => mret (if bool_decide (target = LegacyBundleManagedTarget) then 0 else EEXIST)
        end
  end.

(** The components behind the first slash of the loop over [part]: whether one
    of them is [.] or [..]. *)
Fixpoint has_dot_component (fuel : nat) (part : list Z) : bool :=
  match part, fuel with
  | [], _ | _, O => false
  | _, S f =>
      let '(c, rest) := component part in
      is_dot c || is_dotdot c ||
      match rest with [] => false | _ :: rest => has_dot_component f rest end
  end.

Definition publish_outer_link (homeFD documentsFD : Z) : program Z :=
  result ← CheckOuterLink homeFD;
  if negb (result =? ENOENT) then mret result
  else
    r ← invoke (fstatat documentsFD LegacyBundleInnerAliasName false);
    match r with
    | inr _ => mret EEXIST
    | inl errno =>
        if negb (errno =? ENOENT) then mret errno
        else
          r ← invoke (symlinkat LegacyBundleManagedTarget homeFD LegacyBundleAliasName);
          match r with
          | None => mret 0
          | Some errno => if errno =? EEXIST then CheckOuterLink homeFD else mret errno
          end
    end.

(** [None] is a null path. *)
Definition LC32CreateLegacyBundleOuterLink (homePath : option (list Z)) : program Z :=
  match homePath with
  | None => mret EINVAL
  | Some homePath =>
      if negb (bool_decide (head homePath = Some slash)) || bool_decide (drop 1 homePath = [])
      then mret EINVAL
      else if PATH_MAX <=? blen homePath then mret ENAMETOOLONG
      else
        let home := rev (strip_trailing (rev homePath)) in
        if has_dot_component (length home) (drop 1 home) then mret EINVAL
        else
          r ← invoke (realpath home);
          match r with
          | inl errno => mret errno
          | inr resolved =>
              if bool_decide (drop 1 resolved = []) then mret EINVAL
              else
                r ← invoke (open_directory home);
                match r with
                | inl errno => mret errno
                | inr homeFD =>
                    with_descriptor homeFD (
                      r ← invoke (openat_directory homeFD Documents);
                      match r with
                      | inl errno => mret errno
                      | inr documentsFD =>
                          with_descriptor documentsFD (publish_outer_link homeFD documentsFD)
                      end)
                end
          end
  end.
