(* ===== verification/LegacyLayoutProps.v ===== *)
(** Whatever the host answers, the programs that keep the legacy bundle alias
    close what they open, replace nothing but a symbolic link they have just
    looked at, and leave behind what their result says.  The end of the file holds
    concrete stacks, environments and paths of a launch. *)

From stdpp Require Import base gmap list strings list_numbers.
From Stdlib Require Import ZArith Lia.
From S2P Require Import Prelude GuestMemory GuestRawMemory MemoryWitness Bytes GuestPaths GuestPathsProps.
From S2P Require Import GuestBootstrap GuestBootstrapProps LegacyLayout.

Open Scope list_scope.
Open Scope Z_scope.


(** ** Histories *)

(** A call with its answer; a history has the newest event first. *)
Inductive event : Type :=
| Ev {X : Type} (c : call X) (answer : X).

Definition history : Type := list event.

(** errno is positive. *)
Definition sane {X} (c : call X) : X -> Prop :=
  match c with
  | realpath _ | readlinkat _ _ _ => fun a => match a with inl e => 0 < e | inr _ => True end
  | open_directory _ | openat_directory _ _ => fun a => match a with inl e => 0 < e | inr _ => True end
  | fstat _ | fstatat _ _ _ => fun a => match a with inl e => 0 < e | inr _ => True end
  | symlinkat _ _ _ | renameat _ _ _ _ | unlinkat _ _ => fun a =>
      match a with Some e => 0 < e | None => True end
  | _ => fun _ => True
  end.

(** The descriptors that are open, the last one first. *)
Definition event_fds (e : event) (l : list Z) : list Z :=
  match e with
  | Ev c a =>
      match c in call X return X -> list Z with
      | open_directory _ | openat_directory _ _ => fun a => match a with inr fd => fd :: l | inl _ => l end
      | close _ => fun _ => tail l
      | _ => fun _ => l
      end a
  end.

Definition open_fds (past : history) : list Z := foldr event_fds [] past.

(** The links the run has made and that are still there under its names. *)
Definition event_links (e : event) (m : gmap (Z * list Z) (list Z)) : gmap (Z * list Z) (list Z) :=
  match e with
  | Ev c a =>
      match c in call X return X -> gmap (Z * list Z) (list Z) with
      | symlinkat target d name => fun a => match a with None => <[(d, name) := target]> m | _ => m end
      | renameat d old d' new => fun a =>
          match a with
          | None => match m !! (d, old) with
                    | Some target => <[(d', new) := target]> (delete (d, old) m)
                    | None => delete (d', new) m
                    end
          | _ => m
          end
      | unlinkat d name => fun a => match a with None => delete (d, name) m | _ => m end
      | _ => fun _ => m
      end a
  end.

Definition links (past : history) : gmap (Z * list Z) (list Z) := foldr event_links ∅ past.

(** ** A logic for programs

    [spec G p past Q]: every call of [p] is allowed by [G] when it is made, and
    every run from the history [past] ends in [Q], for all sane answers. *)

Definition guard : Type := history -> forall X : Type, call X -> Prop.

Fixpoint spec {A} (G : guard) (p : program A) (past : history) (Q : history -> A -> Prop) : Prop :=
  match p with
  | Return a => Q past a
  | Invoke c k => G past _ c /\ forall x, sane c x -> spec G (k x) (Ev c x :: past) Q
  end.

Lemma spec_bind {A B} G (p : program A) (f : A -> program B) past Q :
  spec G p past (fun past a => spec G (f a) past Q) -> spec G (p ≫= f) past Q.
Proof.
  revert past. induction p as [a|X c k IH]; intros past; [done|].
  intros [H1 H2]. split; [exact H1|]. intros x Hx. apply IH, H2, Hx.
Qed.

Lemma spec_mono {A} G (p : program A) past (Q Q' : history -> A -> Prop) :
  spec G p past Q -> (forall past a, Q past a -> Q' past a) -> spec G p past Q'.
Proof.
  intros H HQ. revert past H. induction p as [a|X c k IH]; intros past; [apply HQ|].
  intros [H1 H2]. split; [exact H1|]. intros x Hx. apply IH, H2, Hx.
Qed.

Lemma spec_invoke {X} G (c : call X) past Q :
  G past X c -> (forall x, sane c x -> Q (Ev c x :: past) x) -> spec G (invoke c) past Q.
Proof. done. Qed.

Lemma spec_return {A} G (a : A) past (Q : history -> A -> Prop) : Q past a -> spec G (mret a) past Q.
Proof. done. Qed.

(** A descriptor is closed again. *)
Lemma spec_with_descriptor {A} G fd (body : program A) past (Q : history -> A -> Prop) :
  spec G body past (fun past' a => G past' unit (close fd) /\ Q (Ev (close fd) tt :: past') a) ->
  spec G (with_descriptor fd body) past Q.
Proof.
  intros H. unfold with_descriptor. apply spec_bind. eapply spec_mono; [exact H|].
  intros past' a [H1 H2]. apply spec_bind, spec_invoke; [done|]. by intros [].
Qed.

(** ** What is allowed *)

Definition alias_name (name : list Z) : Prop :=
  name = LegacyBundleAliasName \/ name = LegacyBundleInnerAliasName.

(** Why a link at an alias name may be replaced: the alias in the home
    directory was seen to lead to the bundle; the inner alias belongs to the
    runtime because the outer one has exactly the managed target. *)
Definition owned (past : history) (d : Z) (name : list Z) : Prop :=
  (name = LegacyBundleAliasName /\ exists fd st st', Ev (fstatat d name true) (inr st) ∈ past /\
     Ev (fstat fd) (inr st') ∈ past /\ same_file st st' = true) \/
  (name = LegacyBundleInnerAliasName /\ exists home size,
     Ev (readlinkat home LegacyBundleAliasName size) (inr LegacyBundleManagedTarget) ∈ past).

Definition allowed : guard := fun past X c =>
  match c with
  | close fd => head (open_fds past) = Some fd
  | symlinkat _ _ name => alias_name name \/ exists nonce, name = temporary_name nonce
  | renameat d old d' new =>
      d = d' /\ owned past d new /\ (exists nonce, old = temporary_name nonce) /\
      is_Some (links past !! (d, old)) /\
      exists st st' past', past = Ev (fstatat d new false) (inr st) :: past' /\
        is_link st = true /\ same_file st st' = true /\ Ev (fstatat d new false) (inr st') ∈ past'
  | unlinkat d name => (exists nonce, name = temporary_name nonce) /\
      exists target, Ev (symlinkat target d name) None ∈ past
  | _ => True
  end.

(** ** What a run leaves behind *)

(** The history has grown, the same descriptors are open. *)
Definition grown (past past' : history) : Prop := open_fds past' = open_fds past /\ past `suffix_of` past'.

Lemma grown_refl past : grown past past.
Proof. done. Qed.

Lemma grown_trans a b c : grown a b -> grown b c -> grown a c.
Proof. intros [H1 H2] [H3 H4]. split; [congruence|by etrans]. Qed.

Lemma grown_cons past past' e : grown past past' -> event_fds e (open_fds past') = open_fds past' ->
  grown past (e :: past').
Proof. intros [H1 H2] He. split; [by rewrite <- H1|by apply suffix_cons_r]. Qed.

Lemma grown_elem past past' e : grown past past' -> e ∈ past -> e ∈ past'.
Proof. intros [_ [l ->]] H. apply elem_of_app. by right. Qed.

(** A temporary link that could not be removed. *)
Definition leftover (past : history) (d : Z) (name : list Z) : Prop :=
  exists nonce e, name = temporary_name nonce /\ Ev (unlinkat d name) (Some e) ∈ past.

(** The run has made no link that is still there, or this one, except for those. *)
Definition only (past : history) (P : Z -> list Z -> list Z -> Prop) : Prop :=
  forall d name target, links past !! (d, name) = Some target ->
  P d name target \/ leftover past d name.

Definition clean (past : history) : Prop := only past (fun _ _ _ => False).

Definition made (past : history) (d : Z) (name target : list Z) : Prop :=
  links past !! (d, name) = Some target /\
  only past (fun d' name' target' => d' = d /\ name' = name /\ target' = target).

(** Success, with the link made or not needed; or an error and no link. *)
Definition outcome_of (d : Z) (name target : list Z) (past : history) (r : Z) : Prop :=
  r = 0 /\ (clean past \/ made past d name target) \/ 0 < r /\ clean past.

Create HintDb layout.
#[local] Hint Resolve grown_refl grown_cons : layout.
#[local] Hint Extern 1 (event_fds _ _ = _) => reflexivity : layout.
#[local] Hint Extern 1 (grown _ _) => (eapply grown_trans; [eassumption|]) : layout.

Lemma links_step e past : links (e :: past) = event_links e (links past).
Proof. done. Qed.

Lemma owned_grown past past' d name : grown past past' -> owned past d name -> owned past' d name.
Proof.
  intros Hg [(-> & fd & st & st' & H1 & H2 & H3)|(-> & home & size & H)].
  - left. split; [done|]. exists fd, st, st'. split; [by eapply grown_elem|]. split; [by eapply grown_elem|done].
  - right. split; [done|]. exists home, size. by eapply grown_elem.
Qed.

(** One call of a program: its permission, its answer. *)
Ltac call_step := apply spec_bind, spec_invoke; [try exact I|].

(** Calls that make no link keep what there is. *)
Lemma only_cons e past P : event_links e (links past) = links past -> only past P -> only (e :: past) P.
Proof.
  intros He H d name target. rewrite links_step, He. intros [?|(nonce & x & Hn & Hx)]%H; [by left|].
  right. exists nonce, x. split; [done|]. by right.
Qed.

Lemma clean_cons e past : event_links e (links past) = links past -> clean past -> clean (e :: past).
Proof. apply only_cons. Qed.

Lemma made_cons e past d name target :
  event_links e (links past) = links past -> made past d name target -> made (e :: past) d name target.
Proof. intros He [H1 H2]. split; [by rewrite links_step, He|by apply only_cons]. Qed.

#[local] Hint Resolve clean_cons made_cons : layout.
#[local] Hint Extern 1 (event_links _ _ = _) => reflexivity : layout.

Lemma made_link target d name past :
  clean past -> made (Ev (symlinkat target d name) None :: past) d name target.
Proof.
  intros Hc. split; [rewrite links_step; cbn; apply lookup_insert_eq|].
  intros d' name' target'. rewrite links_step. cbn.
  intros [[[= -> ->] <-]|[_ Hx]]%lookup_insert_Some; [by left|].
  apply Hc in Hx as [[]|(nonce & x & Hn & Hx)]. right. exists nonce, x. split; [done|]. by right.
Qed.

Lemma renamed_link past d old new target :
  made past d old target -> made (Ev (renameat d old d new) None :: past) d new target.
Proof.
  intros [H1 H2]. unfold made, only. rewrite links_step. cbn. rewrite H1. split; [apply lookup_insert_eq|].
  intros d' name' target'. intros [[[= -> ->] <-]|[_ Hx]]%lookup_insert_Some; [by left|].
  apply lookup_delete_Some in Hx as [Hne Hx]. apply H2 in Hx as [(-> & -> & ->)|(nonce & x & Hn & Hx)]; [done|].
  right. exists nonce, x. split; [done|]. by right.
Qed.

Lemma unlinked past d nonce target r :
  made past d (temporary_name nonce) target -> clean (Ev (unlinkat d (temporary_name nonce)) r :: past).
Proof.
  intros [H1 H2] d' name' target'. rewrite links_step. cbn. destruct r as [e|].
  - intros [(-> & -> & ->)|(n & x & Hn & Hx)]%H2.
    + right. exists nonce, e. split; [done|]. by left.
    + right. exists n, x. split; [done|]. by right.
  - intros [Hne Hx]%lookup_delete_Some. apply H2 in Hx as [(-> & -> & ->)|(n & x & Hn & Hx)]; [done|].
    right. exists n, x. split; [done|]. by right.
Qed.

Lemma stage_alias_ok n d target past :
  clean past ->
  spec allowed (stage_alias n d target) past (fun past' r => grown past past' /\
    match r with
    | inl e => 0 < e /\ clean past'
    | inr t => (exists nonce, t = temporary_name nonce) /\ made past' d t target /\
        Ev (symlinkat target d t) None ∈ past'
    end).
Proof.
  revert past. induction n as [|n IH]; intros past Hl; cbn [stage_alias].
  { apply spec_return. split; [apply grown_refl|done]. }
  call_step. intros nonce _. call_step; [right; by eexists|]. intros [e|] He.
  - destruct (e =? EEXIST).
    + eapply spec_mono; [apply IH; auto with layout|]. intros past' r [Hg Hr]. split; [|exact Hr].
      eapply grown_trans; [|exact Hg]. auto with layout.
    + apply spec_return. split; [auto with layout|]. auto with layout.
  - apply spec_return. split; [auto with layout|]. split; [by eexists|].
    split; [apply made_link; auto with layout|]. by left.
Qed.

(** The last step of a replacement that failed. *)
Lemma discard_ok d name target nonce error past past1 :
  grown past past1 -> 0 < error -> made past1 d (temporary_name nonce) target ->
  (exists t, Ev (symlinkat t d (temporary_name nonce)) None ∈ past1) ->
  spec allowed
    (if negb (error =? 0) then _ ← invoke (unlinkat d (temporary_name nonce)); mret error
     else mret error) past1
    (fun past' r => grown past past' /\ outcome_of d name target past' r).
Proof.
  intros Hg He Hl Hs. destruct (error =? 0) eqn:?; zb; [lia|]. cbn [negb].
  call_step; [split; [by eexists|done]|]. intros r _. apply spec_return. split; [auto with layout|]. right.
  split; [done|]. by eapply unlinked.
Qed.

Lemma replace_ok d name target st past :
  clean past -> owned past d name -> Ev (fstatat d name false) (inr st) ∈ past ->
  spec allowed (ReplaceExistingAlias d name target st) past (fun past' r =>
    grown past past' /\ outcome_of d name target past' r).
Proof.
  intros Hl Ho Hst. unfold ReplaceExistingAlias. apply spec_bind.
  eapply spec_mono; [by apply stage_alias_ok|]. intros past1 [e|t] [Hg Hr].
  { apply spec_return. split; [done|]. right. exact Hr. }
  destruct Hr as ([nonce ->] & Hmade & Hsym).
  call_step. intros [e|existing] He; apply spec_bind.
  { apply spec_return, discard_ok; [auto with layout|done|auto with layout|]. exists target. by right. }
  destruct (_ || _) eqn:Hc.
  { apply spec_return, discard_ok; [auto with layout|done|auto with layout|]. exists target. by right. }
  zb. call_step.
  - split; [done|]. split; [eapply owned_grown; [|exact Ho]; auto with layout|]. split; [by eexists|].
    split; [exists target; apply Hmade|]. exists existing, st, past1.
    repeat (split; [done|]). by eapply grown_elem.
  - intros [e|] He'; apply spec_return; cbn [default].
    + apply discard_ok; [auto with layout|done|auto with layout|]. exists target. by do 2 right.
    + apply spec_return. split; [auto with layout|]. left. split; [done|]. right.
      apply renamed_link. auto with layout.
Qed.

(** ** The programs *)

Lemma grown_close fd e past past' :
  event_fds e (open_fds past) = fd :: open_fds past -> grown (e :: past) past' ->
  head (open_fds past') = Some fd /\ grown past (Ev (close fd) tt :: past').
Proof.
  intros He [H1 H2]. change (open_fds (e :: past)) with (event_fds e (open_fds past)) in H1.
  rewrite He in H1. rewrite H1. split; [done|]. split.
  - change (tail (open_fds past') = open_fds past). by rewrite H1.
  - apply suffix_cons_r. etrans; [|exact H2]. by apply suffix_cons_r.
Qed.

Lemma outcome_close d name target past r fd :
  outcome_of d name target past r -> outcome_of d name target (Ev (close fd) tt :: past) r.
Proof.
  intros [[-> [H|H]]|[Hr H]]; [left|left|right]; (split; [done|]); auto with layout.
Qed.

(** The body of a descriptor that the last call opened. *)
Lemma spec_opened {A} (G : guard) fd e (body : program A) past (Q : history -> A -> Prop) :
  (forall past, head (open_fds past) = Some fd -> G past unit (close fd)) ->
  event_fds e (open_fds past) = fd :: open_fds past ->
  spec G body (e :: past) (fun past' a => grown (e :: past) past' /\ Q (Ev (close fd) tt :: past') a) ->
  spec G (with_descriptor fd body) (e :: past) (fun past' a => grown past past' /\ Q past' a).
Proof.
  intros HG He H. apply spec_with_descriptor. eapply spec_mono; [exact H|].
  intros past' a [Hg HQ]. destruct (grown_close fd e past past' He Hg). auto.
Qed.

Lemma outcome_zero d name target past : clean past -> outcome_of d name target past 0.
Proof. left. auto. Qed.

Lemma outcome_error d name target past r : clean past -> 0 < r -> outcome_of d name target past r.
Proof. right. auto. Qed.

Lemma outcome_made d name target past :
  clean past -> outcome_of d name target (Ev (symlinkat target d name) None :: past) 0.
Proof. intros H. left. split; [done|]. right. by apply made_link. Qed.

#[local] Hint Resolve outcome_zero outcome_error outcome_made : layout.
#[local] Hint Extern 1 (0 < EEXIST) => reflexivity : layout.

Ltac finish := apply spec_return; split; [auto with layout|auto with layout].

Lemma update_inner_ok home bundle metadata past :
  clean past ->
  (exists home size, Ev (readlinkat home LegacyBundleAliasName size) (inr LegacyBundleManagedTarget) ∈ past) ->
  spec allowed (UpdateManagedInnerAlias home bundle metadata) past (fun past' r =>
    grown past past' /\ exists d, outcome_of d LegacyBundleInnerAliasName bundle past' r).
Proof.
  intros Hl Hm. unfold UpdateManagedInnerAlias. call_step. intros [e|documents] He.
  { apply spec_return. split; [auto with layout|]. exists 0. auto with layout. }
  apply spec_opened; [done|done|]. set (past1 := Ev _ _ :: past).
  eapply spec_mono with (Q := fun past' r => grown past1 past' /\
    outcome_of documents LegacyBundleInnerAliasName bundle past' r).
  2:{ intros past' r [Hg Ho]. split; [done|]. exists documents. by apply outcome_close. }
  assert (clean past1) as Hl1 by (unfold past1; auto with layout).
  assert (owned past1 documents LegacyBundleInnerAliasName) as Ho.
  { right. split; [done|]. destruct Hm as (h & size & H). exists h, size. by right. }
  clearbody past1. clear past Hl Hm He.
  call_step. intros r Hr. apply spec_bind.
  eapply spec_mono with (Q := fun past' r => grown past1 past' /\ match r with
    | inl r => outcome_of documents LegacyBundleInnerAliasName bundle past' r
    | inr st => clean past' /\ Ev (fstatat documents LegacyBundleInnerAliasName false) (inr st) ∈ past'
    end).
  - destruct r as [e|st]; [|apply spec_return; split; [auto with layout|]; split; [auto with layout|by left]].
    destruct (negb (e =? ENOENT)); [finish|].
    call_step; [left; by right|]. intros [e'|] He'; [|finish].
    destruct (negb (e' =? EEXIST)); [finish|].
    apply spec_invoke; [exact I|]. intros [e''|st] Hs; (split; [auto with layout|]); [auto with layout|].
    split; [auto with layout|by left].
  - intros past' [r'|st] [Hg Hx]; [by apply spec_return|]. destruct Hx as [Hl' Hst].
    destruct (negb (is_link st)); [finish|].
    call_step. intros r' Hr'.
    destruct (match r' with inr target => same_file target metadata | inl _ => false end); [finish|].
    eapply spec_mono; [apply replace_ok; [auto with layout|eapply owned_grown; [|exact Ho]; auto with layout|by right]|].
    intros past2 r2 [Hg2 Ho2]. split; [|done]. eapply grown_trans; [|exact Hg2]. auto with layout.
Qed.

Lemma check_existing_ok unset home relative bundle past :
  clean past -> (exists fd, Ev (fstat fd) (inr bundle) ∈ past) ->
  spec allowed (checkExistingAlias unset home relative bundle) past (fun past' r =>
    grown past past' /\ outcome_of home LegacyBundleAliasName relative past' r).
Proof.
  intros Hl [fd Hb]. unfold checkExistingAlias. call_step. intros [e|entry] He; [finish|].
  destruct (negb (is_link entry)); [finish|]. call_step. intros r Hr.
  destruct r as [e|target]; [finish|]. destruct (same_file target bundle) eqn:Hs; [|finish].
  call_step. intros [e|bytes] He'; [finish|]. destruct (_ =? slash); [|finish].
  eapply spec_mono; [apply replace_ok; [auto with layout| |do 2 right; by left]|].
  - left. split; [done|]. exists fd, target, bundle. split; [right; by left|]. split; [by do 3 right|done].
  - intros past' r [Hg Ho]. split; [|done]. eapply grown_trans; [|exact Hg]. auto with layout.
Qed.

(** Success with the alias in the home directory or the inner alias made, or
    neither needed; or an error and no link. *)
Definition layout_outcome (relative bundle : list Z) (past : history) (r : Z) : Prop :=
  exists d, outcome_of d LegacyBundleAliasName relative past r \/
            outcome_of d LegacyBundleInnerAliasName bundle past r.

Lemma layout_zero relative bundle past : clean past -> layout_outcome relative bundle past 0.
Proof. exists 0. auto with layout. Qed.

Lemma layout_error relative bundle past r : clean past -> 0 < r -> layout_outcome relative bundle past r.
Proof. exists 0. auto with layout. Qed.

#[local] Hint Resolve layout_zero layout_error : layout.

Lemma outcome_clean d name target past r : outcome_of d name target past r -> r <> 0 -> clean past.
Proof. intros [[-> _]|[_ H]]; done. Qed.

(** The part behind the test for a managed alias. *)
Lemma direct_ok unset home relative bundle metadata past past1 :
  grown past past1 -> clean past1 -> (exists fd, Ev (fstat fd) (inr metadata) ∈ past1) ->
  spec allowed
    (existingError ← checkExistingAlias unset home relative metadata;
     if negb (existingError =? ENOENT) then mret existingError
     else
       r ← invoke (symlinkat relative home LegacyBundleAliasName);
       match r with
       | None => mret 0
       | Some errno =>
           if errno =? EEXIST then checkExistingAlias unset home relative metadata else mret errno
       end) past1
    (fun past' r => grown past past' /\ layout_outcome relative bundle past' r).
Proof.
  intros Hg1 Hl1 [fd Hb1]. apply spec_bind. eapply spec_mono; [apply check_existing_ok; [done|by exists fd]|].
  intros past2 r [Hg2 Ho2]. assert (grown past past2) as Hg by (by eapply grown_trans).
  destruct (r =? ENOENT) eqn:Hr; zb; cbn [negb]; [|apply spec_return; split; [done|]; exists home; by left].
  assert (clean past2) as Hl2 by (eapply outcome_clean; [exact Ho2|rewrite Hr; discriminate]).
  call_step; [left; by left|]. intros [e'|] He2.
  2:{ apply spec_return. split; [auto with layout|]. exists home. left. auto with layout. }
  destruct (e' =? EEXIST); [|finish].
  eapply spec_mono; [apply check_existing_ok; [auto with layout|exists fd; right; exact (grown_elem _ _ _ Hg2 Hb1)]|].
  intros past3 r3 [Hg3 Ho3]. split; [|exists home; by left]. eapply grown_trans; [|exact Hg3]. auto with layout.
Qed.

Lemma install_ok unset home bundle resolvedHome resolvedBundle past :
  clean past ->
  spec allowed (install_alias unset home bundle resolvedHome resolvedBundle) past (fun past' r =>
    grown past past' /\ layout_outcome (RelativeBundleTarget resolvedHome resolvedBundle) resolvedBundle past' r).
Proof.
  intros Hl. unfold install_alias. call_step. intros [e|homeMetadata] He; [finish|].
  call_step. intros [e|parent] He'; [finish|]. destruct (same_file homeMetadata parent); [finish|].
  call_step. intros [e|metadata] Hm; [finish|]. apply spec_bind. unfold IsManagedOuterAlias.
  call_step. intros answer Ha. apply spec_return. set (past1 := Ev _ answer :: _).
  assert (grown past past1 /\ clean past1 /\ exists fd, Ev (fstat fd) (inr metadata) ∈ past1) as (Hg1 & Hl1 & Hb1).
  { unfold past1. split; [auto with layout|]. split; [auto 6 with layout|]. exists bundle. right. by left. }
  destruct answer as [e|target]; [by apply direct_ok|]. case_bool_decide as Ht; [|by apply direct_ok].
  eapply spec_mono; [apply update_inner_ok; [done|]|].
  - subst target. exists home. eexists. by left.
  - intros past' r [Hg [d Ho]]. split; [by eapply grown_trans|]. exists d. by right.
Qed.

(** The two paths the host resolved. *)
Definition resolved_paths (past : history) (configuredHome bundlePath home bundle : list Z) : Prop :=
  Ev (realpath configuredHome) (inr home) ∈ past /\ Ev (realpath bundlePath) (inr bundle) ∈ past.

Definition ensure_post (configuredHome bundlePath : list Z) (past : history) (r : Z) : Prop :=
  r = 0 /\ (clean past \/ exists home bundle d,
    resolved_paths past configuredHome bundlePath home bundle /\
    (made past d LegacyBundleAliasName (RelativeBundleTarget home bundle) \/
     made past d LegacyBundleInnerAliasName bundle)) \/
  0 < r /\ clean past.

Lemma ensure_zero h b past : clean past -> ensure_post h b past 0.
Proof. left. auto. Qed.

Lemma ensure_error h b past r : clean past -> 0 < r -> ensure_post h b past r.
Proof. right. auto. Qed.

Lemma ensure_close h b past r fd : ensure_post h b past r -> ensure_post h b (Ev (close fd) tt :: past) r.
Proof.
  intros [[-> [H|(home & bundle & d & [Hr1 Hr2] & Hm)]]|[Hr H]]; [left; auto with layout| |right; auto with layout].
  left. split; [done|]. right. exists home, bundle, d. split; [split; by right|].
  destruct Hm; [left|right]; auto with layout.
Qed.

Lemma ensure_layout h b home bundle past r :
  resolved_paths past h b home bundle -> layout_outcome (RelativeBundleTarget home bundle) bundle past r ->
  ensure_post h b past r.
Proof.
  intros Hr [d [[[-> [H|H]]|[Hp H]]|[[-> [H|H]]|[Hp H]]]]; try (right; auto; fail); left; (split; [done|]);
    first [by left|right; exists home, bundle, d; auto].
Qed.

#[local] Hint Resolve ensure_zero ensure_error : layout.

Lemma in_bundle_ok unset configuredHome bundlePath bundle executableName home' bundle' past :
  clean past -> resolved_paths past configuredHome bundlePath home' bundle' ->
  spec allowed (layout_in_bundle unset configuredHome bundle executableName home' bundle') past
    (fun past' r => grown past past' /\ ensure_post configuredHome bundlePath past' r).
Proof.
  intros Hl Hr. unfold layout_in_bundle, bundle_has.
  apply spec_bind. call_step. intros plist Hp. apply spec_return. destruct plist as [e|st]; [finish|].
  destruct (is_regular st); [|finish]. cbn [negb].
  apply spec_bind. call_step. intros exe Hx. apply spec_return. destruct exe as [e|st']; [finish|].
  destruct (is_regular st'); [|finish]. cbn [negb].
  call_step. intros [e|home] Hh; [finish|].
  set (past1 := Ev (fstatat _ executableName _) _ :: _).
  assert (grown past past1 /\ clean past1) as [Hg1 Hl1]
    by (unfold past1; split; [auto with layout|auto 6 with layout]).
  clearbody past1.
  eapply spec_mono with (Q := fun past' r => grown past1 past' /\ ensure_post configuredHome bundlePath past' r);
    [|intros past' r [Hg Hq]; split; [by eapply grown_trans|exact Hq]].
  apply spec_opened; [done|done|]. eapply spec_mono; [apply install_ok; auto with layout|].
  intros past' r [Hg Ho]. split; [done|]. apply ensure_close. eapply ensure_layout; [|exact Ho].
  assert (past `suffix_of` past') as [l ->].
  { etrans; [apply Hg1|]. etrans; [|apply Hg]. by apply suffix_cons_r. }
  destruct Hr. split; apply elem_of_app; by right.
Qed.

(** C28: keeping the legacy bundle alias is safe, whatever the host answers and
    other processes do.  Every descriptor that was opened is closed, in the
    opposite order.  Links are made under the two alias names and under fresh
    temporary names only; an existing entry is replaced only if the call just
    before saw a symbolic link there, with the identity seen earlier, that either
    leads to the bundle or is the inner alias of an outer alias with the managed
    target; only temporary links of the run itself are removed.  On success
    either no link was needed, or the alias in the home directory has the relative
    target from the resolved home to the resolved bundle, or the inner alias has
    the resolved bundle; on an error no link of the run is left, but for a
    temporary one whose removal failed. *)
Theorem legacy_layout_safe unset configuredHome executablePath sdkVersion :
  spec allowed (EnsureLegacyBundleLayout unset configuredHome executablePath sdkVersion) []
    (fun past r => open_fds past = [] /\
       ensure_post configuredHome (fst (split_executable executablePath)) past r).
Proof.
  assert (clean []) as Hl by (intros d name target H; done).
  eapply spec_mono with (Q := fun past r => grown [] past /\
    ensure_post configuredHome (fst (split_executable executablePath)) past r);
    [|intros past r [[H _] ?]; done].
  unfold EnsureLegacyBundleLayout. destruct (split_executable executablePath) as [bundlePath executableName].
  cbn [fst]. destruct (_ || _); [finish|]. call_step. intros [e|resolvedHome] He; [finish|].
  case_bool_decide; [finish|]. destruct (_ || _); [finish|].
  call_step. intros [e|resolvedBundle] He'; [finish|]. call_step. intros [e|bundle] Hb; [finish|].
  set (past0 := Ev (realpath bundlePath) _ :: _).
  assert (grown [] past0 /\ clean past0 /\ resolved_paths past0 configuredHome bundlePath resolvedHome resolvedBundle)
    as (Hg0 & Hl0 & [Hr1 Hr2]).
  { unfold past0. split; [auto with layout|]. split; [auto with layout|]. split; [right; by left|by left]. }
  clearbody past0.
  eapply spec_mono with (Q := fun past' r => grown past0 past' /\ ensure_post configuredHome bundlePath past' r);
    [|intros past' r [Hg Hq]; split; [by eapply grown_trans|exact Hq]].
  apply spec_opened; [done|done|].
  eapply spec_mono; [apply in_bundle_ok; [auto with layout|split; by right]|].
  intros past' r [Hg Ho]. split; [done|by apply ensure_close].
Qed.

(** ** The installer *)

(** A lookup of the alias found nothing. *)
Definition alias_absent (home : Z) (past : history) : Prop :=
  Ev (fstatat home LegacyBundleAliasName false) (inl ENOENT) ∈ past \/
  exists size, Ev (readlinkat home LegacyBundleAliasName size) (inl ENOENT) ∈ past.

(** The outer alias is made only after both names were found to be free, and
    nothing is replaced or removed. *)
Definition publish_allowed : guard := fun past X c =>
  match c with
  | close fd => head (open_fds past) = Some fd
  | symlinkat target d name =>
      target = LegacyBundleManagedTarget /\ name = LegacyBundleAliasName /\
      exists documents past', past = Ev (fstatat documents LegacyBundleInnerAliasName false) (inl ENOENT) :: past' /\
        alias_absent d past'
  | renameat _ _ _ _ | unlinkat _ _ => False
  | _ => True
  end.

(** The outer alias has the managed target: it was made or found. *)
Definition published (past : history) : Prop :=
  (exists d, links past = {[(d, LegacyBundleAliasName) := LegacyBundleManagedTarget]}) \/
  links past = ∅ /\ exists d size,
    Ev (readlinkat d LegacyBundleAliasName size) (inr LegacyBundleManagedTarget) ∈ past.

Definition publish_post (past : history) (r : Z) : Prop :=
  r = 0 /\ published past \/ 0 < r /\ links past = ∅.

Lemma publish_close past r fd : publish_post past r -> publish_post (Ev (close fd) tt :: past) r.
Proof.
  intros [[-> [H|(H & d & size & Hr)]]|H]; [by left; split; [|left]| |by right].
  left. split; [done|]. right. split; [done|]. exists d, size. by right.
Qed.

Lemma publish_error past r : links past = ∅ -> 0 < r -> publish_post past r.
Proof. right. auto. Qed.

#[local] Hint Resolve publish_error : layout.
#[local] Hint Extern 1 (links (_ :: _) = ∅) => assumption : layout.
#[local] Hint Extern 1 (0 < EINVAL) => reflexivity : layout.
#[local] Hint Extern 1 (0 < ENAMETOOLONG) => reflexivity : layout.

(** An answer ENOENT is that of the lookup of the alias. *)
Lemma check_outer_ok home past :
  links past = ∅ ->
  spec publish_allowed (CheckOuterLink home) past (fun past' r => grown past past' /\ publish_post past' r /\
    (r = ENOENT -> alias_absent home past' /\ links past' = ∅)).
Proof.
  intros Hl. unfold CheckOuterLink. call_step. intros [e|st] He.
  { apply spec_return. split; [auto with layout|]. split; [auto with layout|]. intros ->. split; [left; by left|done]. }
  destruct (negb (is_link st)).
  { apply spec_return. split; [auto with layout|]. split; [auto with layout|]. done. }
  call_step. intros [e|target] He'.
  { apply spec_return. split; [auto with layout|]. split; [auto with layout|]. intros ->.
    split; [right; eexists; by left|done]. }
  apply spec_return. split; [auto with layout|]. case_bool_decide as Ht; (split; [|done]); [|auto with layout].
  left. split; [done|]. right. split; [done|]. subst. do 2 eexists. by left.
Qed.

Lemma publish_ok home documents past :
  links past = ∅ ->
  spec publish_allowed (publish_outer_link home documents) past
    (fun past' r => grown past past' /\ publish_post past' r).
Proof.
  intros Hl. unfold publish_outer_link. apply spec_bind. eapply spec_mono; [by apply check_outer_ok|].
  intros past1 r (Hg & Hp & Hr). destruct (r =? ENOENT) eqn:E; zb; cbn [negb]; [|by apply spec_return].
  destruct (Hr E) as [Ha Hl1].
  call_step. intros [e|st] He; [|finish]. destruct (e =? ENOENT) eqn:E'; zb; cbn [negb]; [|finish]. subst e.
  call_step; [split; [done|]; split; [done|]; by exists documents, past1|]. intros [e|] He'.
  - destruct (e =? EEXIST); [|finish]. eapply spec_mono; [by apply check_outer_ok|].
    intros past2 r2 (Hg2 & Hp2 & _). split; [|done]. eapply grown_trans; [|exact Hg2]. auto with layout.
  - apply spec_return. split; [auto with layout|]. left. split; [done|]. left. exists home.
    rewrite !links_step. cbn [event_links]. by rewrite Hl1.
Qed.

(** Publishing the alias is safe, whatever the host answers.  The installer
    replaces and removes nothing, makes the outer alias only after it found that
    neither the alias nor the inner entry exists, and closes what it opens.  It
    succeeds only if the outer alias has exactly the managed target, the one from
    which the runtime concludes that the inner alias is its own; on an error it
    has made no link. *)
Theorem publish_layout_safe homePath :
  spec publish_allowed (LC32CreateLegacyBundleOuterLink homePath) []
    (fun past r => open_fds past = [] /\ publish_post past r).
Proof.
  assert (links [] = ∅) as Hl by done.
  eapply spec_mono with (Q := fun past r => grown [] past /\ publish_post past r);
    [|intros past r [[H _] ?]; done].
  unfold LC32CreateLegacyBundleOuterLink. destruct homePath as [homePath|]; [|finish].
  destruct (_ || _); [finish|]. destruct (_ <=? _); [finish|]. destruct (has_dot_component _ _); [finish|].
  call_step. intros [e|resolved] He; [finish|]. case_bool_decide; [finish|].
  call_step. intros [e|home] Hh; [finish|]. set (past0 := Ev (realpath _) _ :: _).
  assert (grown [] past0 /\ links past0 = ∅) as [Hg0 Hl0] by (unfold past0; split; [auto with layout|done]).
  clearbody past0.
  eapply spec_mono with (Q := fun past' r => grown past0 past' /\ publish_post past' r);
    [|intros past' r [Hg Hq]; split; [by eapply grown_trans|exact Hq]].
  apply spec_opened; [done|done|]. set (past1 := Ev (open_directory _) _ :: _).
  assert (links past1 = ∅) as Hl1 by done. clearbody past1.
  eapply spec_mono with (Q := fun past' r => grown past1 past' /\ publish_post past' r);
    [|intros past' r [Hg Hq]; split; [done|by apply publish_close]].
  call_step. intros [e|documents] Hd; [finish|]. apply spec_opened; [done|done|].
  eapply spec_mono; [by apply publish_ok|]. intros past' r [Hg Hq]. split; [done|by apply publish_close].
Qed.



(** A stack of 160 bytes at the start of a mapped page, two arguments, one
    variable and one apple string. *)
Definition launch_arguments : list (list Z) := [text "app"%string; text "-v"%string].
Definition launch_environment : list (list Z) := [text "HOME=/var/mobile"%string].
Definition launch_apple : list (list Z) := [text "/app"%string].

Lemma terminable_decide vs :
  forallb (forallb (fun b => negb (b =? 0) && (0 <=? b) && (b <? 256))) vs = true -> Forall terminable vs.
Proof.
  intros H. apply Forall_forall. intros v Hv. apply Forall_forall. intros b Hb.
  rewrite forallb_forall in H. apply list_elem_of_In, H in Hv. rewrite forallb_forall in Hv.
  apply list_elem_of_In, Hv in Hb. zb. done.
Qed.

Lemma initial_stack_roundtrip_witness :
  exists image s', BuildInitialStackImage 0x20000000 160 0x11000000 launch_arguments launch_environment
      launch_apple (Some (mkImage 0 [] [])) 16 = (true, Some image, None) /\
    write_stack_image demo image = (true, s') /\
    guest_start 160 s' (stackPointer image) =
      Some (0x11000000, 2, launch_arguments, launch_environment, launch_apple).
Proof.
  pose proof (initial_stack_roundtrip 0x20000000 160 16 0x11000000 launch_arguments launch_environment
    launch_apple demo (seqZ 0x5000 160) (mkImage 0 [] [])) as H.
  specialize (H ltac:(by split) ltac:(by split) ltac:(by split) ltac:(by split)
    ltac:(by apply terminable_decide) ltac:(by apply terminable_decide) ltac:(by apply terminable_decide)
    ltac:(vm_compute; reflexivity) (NoDup_seqZ _ _)).
  cbn zeta in H. assert (stack_fits 0x20000000 160 16 launch_arguments launch_environment launch_apple = true)
    as E by (vm_compute; reflexivity).
  rewrite E in H. destruct H as (image & s' & H1 & H2 & _ & _ & H3). exists image, s'. auto.
Defined.

Definition witness_home : list (list Z) := [text "var"%string; text "mobile"%string].
Definition witness_bundle : list (list Z) := [text "var"%string; text "Game.app"%string].

Lemma relative_target_resolves_witness :
  RelativeBundleTarget (render witness_home) (render witness_bundle) = text "../Game.app"%string /\
  resolve (parts (render witness_home ++
    slash :: RelativeBundleTarget (render witness_home) (render witness_bundle))) = witness_bundle.
Proof.
  split; [vm_compute; reflexivity|].
  apply (relative_target_resolves witness_home witness_bundle); [| |done|done].
  all: repeat constructor; done.
Defined.
