(* ===== verification/Syscalls.v ===== *)
(** What system-call handlers work with: guest memory, the carry flag, the host
    kernel, and the tables the handlers keep
    (src/HostFrameworks/LC32/dynarmic.cpp, [return_with_carry_direct] and
    [syscallRetCarry]; src/HostFrameworks/LC32/dynarmic_internal.h,
    [debugger_aware_host_wait]).

    A handler is a function on a [world] in a small state monad.  The host kernel
    is a parameter: its answer to a request may depend on everything that was
    asked before.  A handler runs without interference from other guest threads
    on the memory it uses. *)

From stdpp Require Import base gmap list strings.
From Stdlib Require Import ZArith Lia.
From S2P Require Import Prelude Bytes GuestMemory GuestRawMemory GuestPaths.

Open Scope list_scope.
Open Scope Z_scope.

(** ** Requests to the host *)

Inductive host_arg : Type :=
| Int (v : Z)
| CString (s : list Z)
| InBuf (bs : list Z)      (* a buffer the kernel reads *)
| OutBuf (n : Z)           (* a buffer of [n] bytes the kernel writes *)
| InOutBuf (bs : list Z)
| Null.

Inductive host_request : Type :=
| Syscall (nr : Z) (args : list host_arg)
| Fcntl_GETFL (fd : Z)
| Fstat (fd : Z)
| Stat (follow : bool) (path : list Z)
| Pread (fd size offset : Z)
| Close (fd : Z)
| PollIn (fd : Z)       (* poll for one descriptor without waiting *)
| SocketType (fd : Z)   (* getsockopt of SO_TYPE *)
| Lseek (fd offset whence : Z)
| Pipe.

(** The answer to a request: the value, whether it failed (the host's carry
    flag, or -1 from the C library), errno, and what the kernel put into the
    output buffers. *)
Record host_answer := mkAnswer {
  answer_value : Z;
  answer_failed : bool;
  answer_errno : Z;
  answer_data : list (list Z)
}.

Inductive host_event : Type :=
| Asked (r : host_request)
| BlockEnter
| BlockExit.

Record kernel := mkKernel {
  host_answers : list host_event -> host_request -> host_answer;
  (* whether a stop is requested when a blocking call is about to start *)
  host_stops : list host_event -> bool;
  (* [GuestThreadCanYieldBeforeBlocking] and [GuestThreadYieldBeforeBlocking] *)
  host_can_yield : list host_event -> bool;
  host_yields : list host_event -> bool;
  host_cwd : list host_event -> Z + list Z;
  (* whether a vector of so many bytes can be allocated *)
  vector_ok : Z -> bool;
  (* what malloc returns: bytes that were never written *)
  malloc_bytes : Z -> list Z;
  native_threads : bool;
  workqueue_current : bool;
  host_fs : LC32Filesystem;
  host_thread : Z
}.

(** ** The state of a handler *)

Record GuestAioCompletion := mkCompletion { aio_error : Z; aio_result : Z }.

Record world := mkWorld {
  guest : vm;
  carry : bool;
  guestAioOperations : gmap Z GuestAioCompletion;
  guestAesFileDescriptors : gset Z;
  journal : list host_event
}.

Definition set_guest s w :=
  mkWorld s (carry w) (guestAioOperations w) (guestAesFileDescriptors w) (journal w).
Definition set_carry c w :=
  mkWorld (guest w) c (guestAioOperations w) (guestAesFileDescriptors w) (journal w).
Definition set_aio a w := mkWorld (guest w) (carry w) a (guestAesFileDescriptors w) (journal w).
Definition set_aes a w := mkWorld (guest w) (carry w) (guestAioOperations w) a (journal w).
Definition log e w :=
  mkWorld (guest w) (carry w) (guestAioOperations w) (guestAesFileDescriptors w) (e :: journal w).

Definition sys (A : Type) : Type := world -> A * world.

#[export] Instance sys_ret : MRet sys := fun A a w => (a, w).
#[export] Instance sys_bind : MBind sys := fun A B f m w => let '(a, w') := m w in f a w'.

Definition gets {A} (f : world -> A) : sys A := fun w => (f w, w).
Definition update (f : world -> world) : sys unit := fun w => (tt, f w).

Section handlers.
Context (h : kernel).

(** ** Results *)

Definition return_with_carry_direct (result : Z) (c : bool) : sys Z :=
  _ ← update (set_carry c); mret result.

(** [return_with_carry]: errno when the carry flag is set. *)
Definition return_with_carry (result : Z) (errno : Z) (c : bool) : sys Z :=
  return_with_carry_direct (if c then errno else result) c.

(** [return return_with_carry_direct(e, true)]. *)
Definition fail (e : Z) : sys Z := return_with_carry_direct e true.

(** ** The host *)

(** A result of type [int]. *)
Definition i32 (v : Z) : Z := let m := u32 v in if m <? 2 ^ 31 then m else m - U32_MOD.

(** An output buffer keeps its size. *)
Definition fill (n : Z) (bs : list Z) : list Z := take (Z.to_nat n) (bs ++ zeros n).

Fixpoint outputs (args : list host_arg) (data : list (list Z)) : list (list Z) :=
  match args with
  | [] => []
  | OutBuf n :: args => fill n (default [] (head data)) :: outputs args (tail data)
  | InOutBuf bs :: args => fill (blen bs) (default bs (head data)) :: outputs args (tail data)
  | _ :: args => outputs args data
  end.

Definition ask (r : host_request) : sys host_answer := fun w =>
  (host_answers h (journal w) r, log (Asked r) w).

(** [syscallRetCarry]: the host's result, its carry flag in the guest's, and the
    contents of the output buffers. *)
Definition syscallRetCarry (nr : Z) (args : list host_arg) : sys (Z * list (list Z)) :=
  a ← ask (Syscall nr args);
  r ← return_with_carry_direct (i32 (answer_value a)) (answer_failed a);
  mret (r, outputs args (answer_data a)).

(** A call without output buffers. *)
Definition syscall_value (nr : Z) (args : list host_arg) : sys Z :=
  r ← syscallRetCarry nr args; mret (fst r).

(** [debugger_aware_host_wait], for its caller: the call, or the second argument
    when a stop is requested. *)
Definition debugger_aware_host_wait {A} (f : sys A) (interruptedResult : A) : sys A :=
  stop ← gets (fun w => host_stops h (journal w));
  if (stop : bool) then mret interruptedResult else f.

(** [debugger_aware_host_wait(f, return_with_carry_direct(EINTR, true))]: the
    second argument is evaluated first. *)
Definition host_wait {A} (interrupted : Z -> A) (f : sys A) : sys A :=
  e ← return_with_carry_direct EINTR true; debugger_aware_host_wait f (interrupted e).

(** A call that can block a workqueue thread. *)
Definition blocking {A} (may_block : bool) (m : sys A) : sys A :=
  _ ← (if may_block && workqueue_current h then update (log BlockEnter) else mret tt);
  r ← m;
  _ ← (if may_block && workqueue_current h then update (log BlockExit) else mret tt);
  mret r.

(** ** Guest memory *)

Definition read_guest (address size permissions : Z) : sys (option (list Z)) := fun w =>
  let '(r, s) := read_guest_memory_with_permissions (host_thread h) (guest w) address size permissions in
  (r, set_guest s w).

Definition write_guest (address : Z) (bs : list Z) (permissions : Z) : sys bool := fun w =>
  let '(r, s) := write_guest_memory_with_permissions (host_thread h) (guest w) address bs permissions in
  (r, set_guest s w).

Definition check_guest (address size permissions : Z) : sys bool := fun w =>
  let '(r, s) := guest_memory_range_has_permissions (host_thread h) (guest w) address size permissions in
  (r, set_guest s w).

Definition raw_read (address size : Z) : sys (option (list Z)) :=
  gets (fun w => Dynarmic_mem_1read (guest w) address size true).

Definition raw_write (address : Z) (bs : list Z) : sys Z := fun w =>
  let '(r, s) := Dynarmic_mem_1write (guest w) address (blen bs) (Some bs) in (r, set_guest s w).

(** ** Strings and paths from the guest
    (src/HostFrameworks/LC32/darwin_file_syscalls.cpp) *)

(** The loop of [LC32CopyGuestCString]; every round copies at least one byte. *)
Fixpoint copy_cstring (fuel : nat) (guest_string : Z) (copied : list Z) : sys (Z + list Z) :=
  if negb (blen copied <? PATH_MAX) then mret (inl ENAMETOOLONG)
  else match fuel with
  | O => mret (inl ENAMETOOLONG)
  | S f =>
      let address := guest_string + blen copied in
      if UINT32_MAX <? address then mret (inl EFAULT)
      else
        let page_remaining := DYN_PAGE_SIZE - page_offset address in
        let chunk_length := Z.min (PATH_MAX - blen copied) page_remaining in
        r ← read_guest address chunk_length PROT_READ;
        match r with
        | None => mret (inl EFAULT)
        | Some chunk =>
            match find_zero chunk with
            | Some content_length => mret (inr (copied ++ take (Z.to_nat content_length) chunk))
            | None => copy_cstring f guest_string (copied ++ chunk)
            end
        end
  end.

Definition LC32CopyGuestCString (guest_string : Z) : sys (Z + list Z) :=
  if guest_string =? 0 then mret (inl EFAULT) else copy_cstring (Z.to_nat PATH_MAX) guest_string [].

(** The file system's answer as the callers report it. *)
Definition path_result (r : outcome Z (list Z)) : Z + list Z :=
  match r with
  | Done p => inr p
  | Reject e => inl (if negb (e =? 0) then e else EINVAL)
  | Fault => inl EINVAL
  end.

Definition to_host (path : list Z) : sys (Z + list Z) :=
  gets (fun w => path_result (pathGuestToHost (host_fs h) (host_cwd h (journal w)) path)).

Definition LC32GuestPathToHost (guest_path : Z) : sys (Z + list Z) :=
  r ← LC32CopyGuestCString guest_path;
  match r with
  | inl e => mret (inl e)
  | inr copied_path => if bool_decide (copied_path = []) then mret (inl ENOENT) else to_host copied_path
  end.

(** [if (error != 0) return return_with_carry_direct(error, true);] *)
Definition or_fail {A} (r : Z + A) (k : A -> sys Z) : sys Z :=
  match r with inl e => fail e | inr a => k a end.

Definition with_host_path (guest_path : Z) (k : list Z -> sys Z) : sys Z :=
  r ← LC32GuestPathToHost guest_path; or_fail r k.

Definition with_name (guest_name : Z) (k : list Z -> sys Z) : sys Z :=
  r ← LC32CopyGuestCString guest_name; or_fail r k.

End handlers.
