(* ===== verification/FileCalls.v ===== *)
(** The file system calls (src/HostFrameworks/LC32/darwin_file_syscalls.cpp). *)

From stdpp Require Import base gmap list strings.
From Stdlib Require Import ZArith Lia.
From S2P Require Import Prelude Bytes GuestMemory GuestRawMemory GuestPaths Syscalls.

Open Scope list_scope.
Open Scope Z_scope.

Definition SYS_link : Z := 9.
Definition SYS_chflags : Z := 34.
Definition SYS_getlogin : Z := 49.
Definition SYS_symlink : Z := 57.
Definition SYS_getgroups : Z := 79.
Definition SYS_readv : Z := 120.
Definition SYS_mkfifo : Z := 132.
Definition SYS_rmdir : Z := 137.
Definition SYS_utimes : Z := 138.
Definition SYS_futimes : Z := 139.
Definition SYS_pwrite : Z := 154.
Definition SYS_pathconf : Z := 191.
Definition SYS_truncate : Z := 200.
Definition SYS_poll : Z := 230.
Definition SYS_getxattr : Z := 234.
Definition SYS_fgetxattr : Z := 235.
Definition SYS_fsetxattr : Z := 237.
Definition SYS_removexattr : Z := 238.
Definition SYS_fremovexattr : Z := 239.
Definition SYS_listxattr : Z := 240.
Definition SYS_flistxattr : Z := 241.
Definition SYS_shm_unlink : Z := 267.
Definition SYS_lchown : Z := 364.

Definition EBADF : Z := 9.
Definition EAGAIN : Z := 35.
Definition ESPIPE : Z := 29.
Definition EINPROGRESS : Z := 36.
Definition INT32_MAX : Z := 2 ^ 31 - 1.
Definition IOV_MAX : Z := 1024.
Definition OPEN_MAX : Z := 10240.
Definition MAXLOGNAME : Z := 255.
Definition O_ACCMODE : Z := 3.
Definition O_WRONLY : Z := 1.
Definition SIGEV_NONE : Z := 0.

Definition LC32MaximumStagedIOBytes : Z := 64 * 1024 * 1024.

(** ** Symbolic links *)

Definition HostPathIsWithin (path root : list Z) : bool :=
  if bool_decide (root = [slash]) then bool_decide (head path = Some slash)
  else bool_decide (take (length root) path = root) &&
       match path !! length root with None => true | Some c => c =? slash end.

(** The longest host directory of a mount point that contains the link; the
    first one among equals. *)
Definition longer (host_link_path : list Z) (best : option (list Z)) (candidate : list Z)
    : option (list Z) :=
  if HostPathIsWithin host_link_path candidate &&
     match best with None => true | Some b => blen b <? blen candidate end
  then Some candidate else best.

(** The directory of a path with a slash. *)
Definition parent_of (host_link_path : list Z) : option (list Z) :=
  let '(_, rest) := component (rev host_link_path) in
  match rest with
  | [] => None
  | [_] => Some (take 1 host_link_path)
  | _ :: r => Some (rev r)
  end.

(** The first loop: the number of components; every round consumes a byte. *)
Fixpoint count_depth (fuel : nat) (suffix : list Z) (depth : Z) : Z :=
  match fuel, skip_slashes suffix with
  | _, [] => depth
  | O, _ => depth
  | S f, s => count_depth f (snd (component s)) (depth + 1)
  end.

(** The second loop. *)
Fixpoint walk_target (fuel : nat) (target : list Z) (depth : Z) (saw_named_component : bool) : bool :=
  match fuel, target with
  | _, [] => true
  | O, _ => true
  | S f, _ =>
      let '(c, rest) := component (skip_slashes target) in
      if is_dotdot c then
        if saw_named_component || (depth =? 0) then false
        else walk_target f rest (depth - 1) saw_named_component
      else if negb (bool_decide (c = [])) && negb (is_dot c) then walk_target f rest (depth + 1) true
      else walk_target f rest depth saw_named_component
  end.

Definition RelativeSymlinkTargetStaysInMount (hostmpVec : list (list Z)) (target host_link_path : list Z)
    : bool :=
  match foldl (longer host_link_path) None hostmpVec with
  | None => false
  | Some mount_root =>
      match parent_of host_link_path with
      | None => false
      | Some parent =>
          if negb (HostPathIsWithin parent mount_root) then false
          else
            let suffix := drop (length mount_root) parent in
            walk_target (length target) target (count_depth (length suffix) suffix 0) false
      end
  end.

Section handlers.
Context (h : kernel).

#[local] Abbreviation syscall := (syscall_value h).

Definition hostmpVec : list (list Z) := snd <$> mountpoints (host_fs h).

Definition guest_link (guest_source guest_destination : Z) : sys Z :=
  with_host_path h guest_source (fun host_source =>
  with_host_path h guest_destination (fun host_destination =>
  syscall SYS_link [CString host_source; CString host_destination])).

Definition guest_chflags (guest_path flags : Z) : sys Z :=
  with_host_path h guest_path (fun host_path => syscall SYS_chflags [CString host_path; Int flags]).

Definition guest_symlink (guest_target guest_link_path : Z) : sys Z :=
  with_name h guest_target (fun copied_target =>
  with_host_path h guest_link_path (fun host_link_path =>
  if bool_decide (head copied_target = Some slash) then
    r ← to_host h copied_target;
    or_fail r (fun translated_target =>
    syscall SYS_symlink [CString translated_target; CString host_link_path])
  else if negb (RelativeSymlinkTargetStaysInMount hostmpVec copied_target host_link_path) then fail EPERM
  else syscall SYS_symlink [CString copied_target; CString host_link_path])).

Definition guest_mkfifo (guest_path mode : Z) : sys Z :=
  with_host_path h guest_path (fun host_path => syscall SYS_mkfifo [CString host_path; Int mode]).

Definition guest_rmdir (guest_path : Z) : sys Z :=
  with_host_path h guest_path (fun host_path => syscall SYS_rmdir [CString host_path]).

(** ** Times *)

(** Two [timeval_32], or a null pointer. *)
Definition timeval_args (bs : list Z) : host_arg :=
  InBuf (mjoin ((fun o => le_bytes 8 (i32 (le_int (sub bs o 4)))) <$> [0; 4; 8; 12])).

Definition PrepareGuestTimevals (guest_times : Z) : sys (Z + host_arg) :=
  if guest_times =? 0 then mret (inr Null)
  else
    r ← read_guest h guest_times 16 PROT_READ;
    mret (match r with None => inl EFAULT | Some bs => inr (timeval_args bs) end).

Definition guest_utimes (guest_path guest_times : Z) : sys Z :=
  with_host_path h guest_path (fun host_path =>
  r ← PrepareGuestTimevals guest_times;
  or_fail r (fun times => syscall SYS_utimes [CString host_path; times])).

Definition guest_futimes (fildes guest_times : Z) : sys Z :=
  r ← PrepareGuestTimevals guest_times;
  or_fail r (fun times => syscall SYS_futimes [Int fildes; times]).

Definition guest_lchown (guest_path owner group : Z) : sys Z :=
  with_host_path h guest_path (fun host_path =>
  syscall SYS_lchown [CString host_path; Int owner; Int group]).

Definition guest_pathconf (guest_path name : Z) : sys Z :=
  with_host_path h guest_path (fun host_path => syscall SYS_pathconf [CString host_path; Int name]).

Definition guest_truncate (guest_path length : Z) : sys Z :=
  with_host_path h guest_path (fun host_path => syscall SYS_truncate [CString host_path; Int length]).

Definition guest_shm_unlink (guest_name : Z) : sys Z :=
  with_name h guest_name (fun name => syscall SYS_shm_unlink [CString name]).

(** ** Extended attributes *)

Definition GuestXattrRead (guest_value size : Z) (invoke : host_arg -> Z -> sys (Z * list (list Z))) : sys Z :=
  let has_guest_buffer := negb (guest_value =? 0) in
  if has_guest_buffer && (LC32MaximumStagedIOBytes <? size) then fail ENOMEM
  else if has_guest_buffer && negb (size =? 0) && negb (vector_ok h size) then fail ENOMEM
  else
    let host_value :=
      if negb has_guest_buffer then Null else if size =? 0 then OutBuf 1 else OutBuf size in
    r ← invoke host_value size;
    let '(result, data) := (r : Z * list (list Z)) in
    c ← gets carry;
    if (c : bool) || (result <=? 0) then mret result
    else if negb has_guest_buffer || (size =? 0) then mret result
    else
      let value := default [] (head data) in
      if blen value <? result then fail EFAULT
      else
        ok ← write_guest h guest_value (take (Z.to_nat result) value) PROT_WRITE;
        if negb ok then fail EFAULT else mret result.

Definition GuestXattrWrite (guest_value size : Z) (invoke : host_arg -> Z -> sys Z) : sys Z :=
  if (guest_value =? 0) && negb (size =? 0) then fail EINVAL
  else if LC32MaximumStagedIOBytes <? size then fail ENOMEM
  else if negb (size =? 0) && negb (vector_ok h size) then fail ENOMEM
  else if size =? 0 then invoke Null size
  else
    r ← read_guest h guest_value size PROT_READ;
    match r with
    | None => fail EFAULT
    | Some value => invoke (InBuf value) size
    end.

Definition guest_getxattr (guest_path guest_name guest_value size position options : Z) : sys Z :=
  with_host_path h guest_path (fun host_path =>
  with_name h guest_name (fun name =>
  let invoke value length := syscallRetCarry h SYS_getxattr
    [CString host_path; CString name; value; Int length; Int position; Int options] in
  if size =? UINT32_MAX then GuestXattrRead 0 0 invoke else GuestXattrRead guest_value size invoke)).

Definition guest_fgetxattr (fildes guest_name guest_value size position options : Z) : sys Z :=
  with_name h guest_name (fun name =>
  GuestXattrRead guest_value size (fun value length => syscallRetCarry h SYS_fgetxattr
    [Int fildes; CString name; value; Int length; Int position; Int options])).

Definition guest_fsetxattr (fildes guest_name guest_value size position options : Z) : sys Z :=
  with_name h guest_name (fun name =>
  GuestXattrWrite guest_value size (fun value length =>
    syscall SYS_fsetxattr [Int fildes; CString name; value; Int length; Int position; Int options])).

Definition guest_removexattr (guest_path guest_name options : Z) : sys Z :=
  with_host_path h guest_path (fun host_path =>
  with_name h guest_name (fun name =>
  syscall SYS_removexattr [CString host_path; CString name; Int options])).

Definition guest_fremovexattr (fildes guest_name options : Z) : sys Z :=
  with_name h guest_name (fun name => syscall SYS_fremovexattr [Int fildes; CString name; Int options]).

Definition guest_listxattr (guest_path guest_name_buffer size options : Z) : sys Z :=
  with_host_path h guest_path (fun host_path =>
  GuestXattrRead guest_name_buffer size (fun value length =>
    syscallRetCarry h SYS_listxattr [CString host_path; value; Int length; Int options])).

Definition guest_flistxattr (fildes guest_name_buffer size options : Z) : sys Z :=
  GuestXattrRead guest_name_buffer size (fun value length =>
    syscallRetCarry h SYS_flistxattr [Int fildes; value; Int length; Int options]).

(** ** Groups and login name

    A negative count without the carry flag is no answer of the kernel. *)

Definition guest_getgroups (count guest_groups : Z) : sys Z :=
  if count <? 0 then fail EINVAL
  else
    actual_count ← syscall SYS_getgroups [Int 0; Null];
    c ← gets carry;
    if (c : bool) || (count =? 0) then mret actual_count
    else if count <? actual_count then fail EINVAL
    else if actual_count =? 0 then return_with_carry_direct 0 false
    else if guest_groups =? 0 then fail EFAULT
    else if negb (vector_ok h (actual_count * 4)) then fail ENOMEM
    else
      r ← syscallRetCarry h SYS_getgroups [Int actual_count; OutBuf (actual_count * 4)];
      let '(result, data) := (r : Z * list (list Z)) in
      c ← gets carry;
      if (c : bool) || (result <=? 0) then mret result
      else if actual_count <? result then fail EFAULT
      else
        ok ← write_guest h guest_groups (take (Z.to_nat (result * 4)) (default [] (head data))) PROT_WRITE;
        if negb ok then fail EFAULT else mret result.

Definition guest_getlogin (guest_name name_size : Z) : sys Z :=
  let capacity := Z.min name_size MAXLOGNAME in
  if (guest_name =? 0) && negb (capacity =? 0) then fail EFAULT
  else
    r ← syscallRetCarry h SYS_getlogin [OutBuf capacity; Int capacity];
    let '(result, data) := (r : Z * list (list Z)) in
    c ← gets carry;
    if (c : bool) then mret result
    else if capacity =? 0 then mret result
    else
      ok ← write_guest h guest_name (default [] (head data)) PROT_WRITE;
      if negb ok then fail EFAULT else mret result.
End handlers.
