(* ===== verification/ScatterCalls.v ===== *)
(** System calls that move data (src/HostFrameworks/LC32/darwin_file_syscalls.cpp,
    [guest_poll] to [ClearGuestAioOperations]). *)

From stdpp Require Import base gmap list strings.
From Stdlib Require Import ZArith Lia.
From S2P Require Import Prelude Bytes GuestMemory GuestRawMemory GuestPaths Syscalls FileCalls.

Open Scope list_scope.
Open Scope Z_scope.

Section handlers.
Context (h : kernel).

(** The number of a call that is not a cancellation point of the host. *)
Definition host_number (nr syscall_number : Z) : Z := if native_threads h then nr else syscall_number.

(** A blocking call with the contents of its output buffers. *)
Definition wait_syscall (nr : Z) (args : list host_arg) : sys (Z * list (list Z)) :=
  host_wait h (fun e => (e, [])) (syscallRetCarry h nr args).

Definition guest_poll (syscall_number guest_descriptors descriptor_count timeout : Z) : sys Z :=
  if OPEN_MAX <? descriptor_count then fail EINVAL
  else if negb (descriptor_count =? 0) && (guest_descriptors =? 0) then fail EFAULT
  else
    let byte_count := descriptor_count * 8 in
    if negb (vector_ok h byte_count) then fail ENOMEM
    else
      descriptors ←
        (if byte_count =? 0 then mret (Some [])
         else
           r ← read_guest h guest_descriptors byte_count PROT_READ;
           match r with
           | None => mret None
           | Some bs =>
               ok ← check_guest h guest_descriptors byte_count PROT_WRITE;
               mret (if (ok : bool) then Some bs else None)
           end);
      match descriptors with
      | None => fail EFAULT
      | Some descriptors =>
          r ← blocking h (negb (timeout =? 0))
                (wait_syscall (host_number SYS_poll syscall_number)
                   [InOutBuf descriptors; Int descriptor_count; Int timeout]);
          let '(result, data) := (r : Z * list (list Z)) in
          c ← gets carry;
          if negb c && negb (byte_count =? 0) then
            ok ← write_guest h guest_descriptors (default [] (head data)) PROT_WRITE;
            if negb ok then fail EFAULT else mret result
          else mret result
      end.

(** ** readv *)

Record iovec_32 := mkIovec { guest_iov_base : Z; iov_len : Z }.

Fixpoint decode_iovecs (n : nat) (bs : list Z) : list iovec_32 :=
  match n with
  | O => []
  | S n => mkIovec (le_int (sub bs 0 4)) (le_int (sub bs 4 4)) :: decode_iovecs n (drop 8 bs)
  end.

(** The loop that checks the vectors and allocates their buffers. *)
Fixpoint check_vectors (vectors : list iovec_32) (total_length : Z) : sys (option Z) :=
  match vectors with
  | [] => mret None
  | v :: rest =>
      let length := iov_len v in
      if negb (length =? 0) && (guest_iov_base v =? 0) then mret (Some EFAULT)
      else if INT32_MAX - total_length <? length then mret (Some EINVAL)
      else
        let total_length := total_length + length in
        if LC32MaximumStagedIOBytes <? total_length then mret (Some ENOMEM)
        else
          ok ← (if length =? 0 then mret true
                else check_guest h (guest_iov_base v) length PROT_WRITE);
          if negb ok then mret (Some EFAULT)
          else if negb (vector_ok h length) then mret (Some ENOMEM)
          else check_vectors rest total_length
  end.

(** The loop that copies the buffers out; [false] is a failed write. *)
Fixpoint scatter (vectors : list iovec_32) (buffers : list (list Z)) (remaining : Z) : sys bool :=
  match vectors, buffers with
  | v :: vectors, b :: buffers =>
      if remaining =? 0 then mret true
      else
        let copied := Z.min remaining (blen b) in
        ok ← (if copied =? 0 then mret true
              else write_guest h (guest_iov_base v) (take (Z.to_nat copied) b) PROT_WRITE);
        if negb ok then mret false else scatter vectors buffers (remaining - copied)
  | _, _ => mret true
  end.

Definition guest_readv (syscall_number fildes guest_iov iov_count : Z) : sys Z :=
  if (iov_count <? 0) || (IOV_MAX <? iov_count) then fail EINVAL
  else if negb (iov_count =? 0) && (guest_iov =? 0) then fail EFAULT
  else if negb (vector_ok h (iov_count * 8)) then fail ENOMEM
  else
    r ← (if iov_count =? 0 then mret (Some []) else read_guest h guest_iov (iov_count * 8) PROT_READ);
    match r with
    | None => fail EFAULT
    | Some bs =>
        let guest_vectors := decode_iovecs (Z.to_nat iov_count) bs in
        error ← check_vectors guest_vectors 0;
        match error with
        | Some e => fail e
        | None =>
            r ← blocking h true
                  (wait_syscall (host_number SYS_readv syscall_number)
                     (Int fildes :: ((fun v => OutBuf (iov_len v)) <$> guest_vectors) ++ [Int iov_count]));
            let '(result, buffers) := (r : Z * list (list Z)) in
            c ← gets carry;
            if (c : bool) || (result <=? 0) then mret result
            else
              ok ← scatter guest_vectors buffers result;
              if negb ok then fail EFAULT else mret result
        end
    end.

(** ** pwrite *)

Definition guest_pwrite (syscall_number fildes guest_buffer byte_count offset : Z) : sys Z :=
  if (guest_buffer =? 0) && negb (byte_count =? 0) then fail EFAULT
  else if INT32_MAX <? byte_count then fail EINVAL
  else if LC32MaximumStagedIOBytes <? byte_count then fail ENOMEM
  else if negb (vector_ok h byte_count) then fail ENOMEM
  else
    buffer ← (if byte_count =? 0 then mret (Some Null)
              else r ← read_guest h guest_buffer byte_count PROT_READ; mret (InBuf <$> r));
    match buffer with
    | None => fail EFAULT
    | Some buffer =>
        r ← blocking h true
              (wait_syscall (host_number SYS_pwrite syscall_number)
                 [Int fildes; buffer; Int byte_count; Int offset]);
        mret (fst r)
    end.

(** ** Asynchronous reads *)

Record GuestAiocb := mkAiocb {
  fileDescriptor : Z;
  offsetLow : Z;
  offsetHigh : Z;
  buffer : Z;
  byteCount : Z;
  notificationType : Z
}.

(** The fields of the armv7 structure that are used. *)
Definition decode_aiocb (bs : list Z) : GuestAiocb :=
  mkAiocb (i32 (le_int (sub bs 0 4))) (le_int (sub bs 4 4)) (le_int (sub bs 8 4))
    (le_int (sub bs 12 4)) (le_int (sub bs 16 4)) (i32 (le_int (sub bs 24 4))).

Definition GuestAiocbOffset (c : GuestAiocb) : Z :=
  i64 (Z.lor (offsetLow c) (Z.shiftl (offsetHigh c) 32)).

Definition or_default (e d : Z) : Z := if negb (e =? 0) then e else d.

(** [st_mode] of a host [struct stat]. *)
Definition status_mode (a : host_answer) : Z :=
  le_int (sub (fill 144 (default [] (head (answer_data a)))) 4 2).

Definition S_ISFIFO (mode : Z) : bool := Z.land mode 0xf000 =? 0x1000.
Definition S_ISSOCK (mode : Z) : bool := Z.land mode 0xf000 =? 0xc000.

(** The checks in front of the read: an error or nothing. *)
Definition aio_checks (c : GuestAiocb) : sys (option Z) :=
  if negb (notificationType c =? SIGEV_NONE) then mret (Some EINVAL)
  else if (buffer c =? 0) || (GuestAiocbOffset c <? 0) then mret (Some EINVAL)
  else if INT32_MAX <? byteCount c then mret (Some EINVAL)
  else if LC32MaximumStagedIOBytes <? byteCount c then mret (Some EAGAIN)
  else
    flags ← ask h (Fcntl_GETFL (fileDescriptor c));
    if answer_value flags =? -1 then mret (Some (or_default (answer_errno flags) EBADF))
    else if Z.land (answer_value flags) O_ACCMODE =? O_WRONLY then mret (Some EBADF)
    else
      status ← ask h (Fstat (fileDescriptor c));
      if negb (answer_value status =? 0) then mret (Some (or_default (answer_errno status) EBADF))
      else if S_ISFIFO (status_mode status) || S_ISSOCK (status_mode status) then mret (Some ESPIPE)
      else if negb (vector_ok h (byteCount c)) then mret (Some EAGAIN)
      else mret None.

(** [emplace]: whether the operation is new. *)
Definition aio_begin (guest_control_block : Z) : sys bool := fun w =>
  match guestAioOperations w !! guest_control_block with
  | Some _ => (false, w)
  | None => (true, set_aio (<[guest_control_block := mkCompletion EINPROGRESS (-1)]> (guestAioOperations w)) w)
  end.

Definition aio_complete (guest_control_block error result : Z) : sys unit := fun w =>
  match guestAioOperations w !! guest_control_block with
  | Some _ => (tt, set_aio (<[guest_control_block := mkCompletion error result]> (guestAioOperations w)) w)
  | None => (tt, w)
  end.

(** The host's read: its value, its error and the buffer. *)
Definition aio_pread (c : GuestAiocb) : sys (Z * Z * list Z) :=
  debugger_aware_host_wait h
    (a ← ask h (Pread (fileDescriptor c) (byteCount c) (GuestAiocbOffset c));
     mret (answer_value a,
           (if answer_value a <? 0 then or_default (answer_errno a) EIO else 0),
           fill (byteCount c) (default [] (head (answer_data a)))))
    (-1, EINTR, []).

Definition guest_aio_read (guest_control_block : Z) : sys Z :=
  r ← read_guest h guest_control_block 48 PROT_READ;
  match r with
  | None => fail EFAULT
  | Some bs =>
      let controlBlock := decode_aiocb bs in
      error ← aio_checks controlBlock;
      match error with
      | Some e => fail e
      | None =>
          inserted ← aio_begin guest_control_block;
          if negb inserted then fail EAGAIN
          else
            r ← blocking h true (aio_pread controlBlock);
            let '(value, error, data) := (r : Z * Z * list Z) in
            completion ←
              (if negb (error =? 0) then mret (error, -1)
               else if (value <? 0) || (INT32_MAX <? value) then mret (EIO, -1)
               else if value =? 0 then mret (0, value)
               else
                 ok ← write_guest h (buffer controlBlock) (take (Z.to_nat value) data) PROT_WRITE;
                 mret (if (ok : bool) then (0, value) else (EFAULT, -1)));
            let '(completionError, completionResult) := (completion : Z * Z) in
            _ ← aio_complete guest_control_block completionError completionResult;
            return_with_carry_direct 0 false
      end
  end.

Definition guest_aio_error (guest_control_block : Z) : sys Z :=
  operations ← gets guestAioOperations;
  match operations !! guest_control_block with
  | None => fail EINVAL
  | Some operation => return_with_carry_direct (aio_error operation) false
  end.

Definition guest_aio_return (guest_control_block : Z) : sys Z :=
  operations ← gets guestAioOperations;
  match operations !! guest_control_block with
  | None => fail EINVAL
  | Some operation =>
      if aio_error operation =? EINPROGRESS then fail EINPROGRESS
      else
        _ ← update (set_aio (delete guest_control_block operations));
        return_with_carry_direct (aio_result operation) false
  end.

Definition ClearGuestAioOperations : sys unit := update (set_aio ∅).
End handlers.
