(* ===== verification/DescriptorCalls.v ===== *)
(** The file system calls of src/HostFrameworks/LC32/dynarmic_syscalls.cpp. *)

From stdpp Require Import base gmap list strings.
From Stdlib Require Import ZArith Lia.
From S2P Require Import Prelude Bytes GuestMemory GuestRawMemory GuestPaths GuestBootstrap.
From S2P Require Import Syscalls FileCalls ScatterCalls.

Open Scope list_scope.
Open Scope Z_scope.

Definition SYS_write : Z := 4.
Definition SYS_unlink : Z := 10.
Definition SYS_chdir : Z := 12.
Definition SYS_fchdir : Z := 13.
Definition SYS_chmod : Z := 15.
Definition SYS_chown : Z := 16.
Definition SYS_access : Z := 33.
Definition SYS_dup : Z := 41.
Definition SYS_readlink : Z := 58.
Definition SYS_dup2 : Z := 90.
Definition SYS_gettimeofday : Z := 116.
Definition SYS_writev : Z := 121.
Definition SYS_rename : Z := 128.
Definition SYS_mkdir : Z := 136.
Definition SYS_setxattr : Z := 236.
Definition SYS_shm_open : Z := 266.
Definition SYS_getdirentries64 : Z := 344.
Definition SYS_statfs64 : Z := 345.
Definition SYS_fstatfs64 : Z := 346.
Definition SYS___pthread_chdir : Z := 348.
Definition SYS___pthread_fchdir : Z := 349.
Definition SYS_write_nocancel : Z := 397.

(** sizeof(struct statfs) of the host. *)
Definition statfs_size : Z := 2168.

Section handlers.
Context (h : kernel).

#[local] Abbreviation syscall := (syscall_value h).

(** ** Reading and writing *)

(** [guest_read] and [guest_pread], whose call has the offset behind the size. *)
Definition read_into (NR fildes guest_buf nbyte : Z) (offset : list host_arg) : sys Z :=
  r ← wait_syscall h NR (Int fildes :: OutBuf nbyte :: Int nbyte :: offset);
  let '(result, data) := (r : Z * list (list Z)) in
  c ← gets carry;
  _ ← (if negb c && (0 <? result)
       then raw_write guest_buf (take (Z.to_nat (Z.min result nbyte)) (default [] (head data)))
       else mret 0);
  mret result.

Definition guest_pread (NR fildes guest_buf nbyte offset : Z) : sys Z :=
  read_into NR fildes guest_buf nbyte [Int offset].

Definition guest_read (NR fildes guest_buf nbyte : Z) : sys Z := read_into NR fildes guest_buf nbyte [].

(** What [Dynarmic_mem_1read] copies before it stops at a missing page. *)
Fixpoint copied_prefix (s : vm) (addresses : list Z) : list Z :=
  match addresses with
  | [] => []
  | a :: rest => match raw_byte s a with Some b => b :: copied_prefix s rest | None => [] end
  end.

(** [malloc] and [Dynarmic_mem_1read] into it, whose result is ignored: what was
    not copied is what malloc returned.  The allocation itself succeeds. *)
Definition malloc_read (address size : Z) : sys (list Z) := fun w =>
  let prefix :=
    if GuestAddressRangeIsValid32 address size then copied_prefix (guest w) (seqZ address size) else [] in
  (prefix ++ drop (length prefix) (fill size (malloc_bytes h size)), w).

Definition guest_write (NR fildes guest_buf nbyte : Z) : sys Z :=
  host_buf ← malloc_read guest_buf nbyte;
  r ← wait_syscall h NR [Int fildes; InBuf host_buf; Int nbyte];
  mret (fst r).

(** The loop of [guest_writev]. *)
Fixpoint write_vectors (nr fildes : Z) (vectors : list iovec_32) (result : Z) : sys Z :=
  match vectors with
  | [] => mret result
  | v :: rest =>
      r ← guest_write nr fildes (guest_iov_base v) (iov_len v);
      write_vectors nr fildes rest (result + r)
  end.

Definition guest_writev (NR fildes guest_iov iovcnt : Z) : sys Z :=
  if iovcnt <=? 0 then mret 0
  else
    host_iov ← malloc_read guest_iov (iovcnt * 8);
    write_vectors (if NR =? SYS_writev then SYS_write else SYS_write_nocancel) fildes
      (decode_iovecs (Z.to_nat iovcnt) host_iov) 0.

(** ** Descriptors

    A descriptor of the emulated AES device is one of /dev/null on the host. *)

Definition IsGuestAesFileDescriptor (fildes : Z) : sys bool :=
  gets (fun w => bool_decide (fildes ∈ guestAesFileDescriptors w)).

Definition update_aes (f : gset Z -> gset Z) : sys unit :=
  update (fun w => set_aes (f (guestAesFileDescriptors w)) w).

Definition RegisterGuestAesFileDescriptor (fildes : Z) : sys unit := update_aes (union {[fildes]}).

Definition guest_close (NR fildes : Z) : sys Z :=
  result ← syscall NR [Int fildes];
  c ← gets carry;
  _ ← (if negb c && (result =? 0) then update_aes (fun s => s ∖ {[fildes]}) else mret tt);
  mret result.

Definition guest_dup (fildes : Z) : sys Z :=
  duplicateIsAes ← IsGuestAesFileDescriptor fildes;
  result ← syscall SYS_dup [Int fildes];
  c ← gets carry;
  _ ← (if negb c && (0 <=? result) && duplicateIsAes then RegisterGuestAesFileDescriptor result
       else mret tt);
  mret result.

Definition guest_dup2 (source destination : Z) : sys Z :=
  duplicateIsAes ← IsGuestAesFileDescriptor source;
  result ← syscall SYS_dup2 [Int source; Int destination];
  c ← gets carry;
  _ ← (if negb c && (0 <=? result) then
         _ ← update_aes (fun s => s ∖ {[result]});
         if (duplicateIsAes : bool) then RegisterGuestAesFileDescriptor result else mret tt
       else mret tt);
  mret result.

Definition CloseAllGuestAesFileDescriptors : sys unit :=
  fds ← gets guestAesFileDescriptors;
  _ ← foldr (fun fd m => _ ← ask h (Close fd); m) (mret tt) (elements fds);
  update_aes (fun _ => ∅).

Definition aes_device : list Z := text "/dev/aes_0"%string.
Definition null_device : list Z := text "/dev/null"%string.

Definition guest_open (NR guest_path oflag mode : Z) : sys Z :=
  with_name h guest_path (fun copied_path =>
  r ← (if bool_decide (copied_path = []) then mret (inl ENOENT) else to_host h copied_path);
  or_fail r (fun host_path =>
  let openGuestAesDevice := bool_decide (copied_path = aes_device) in
  let openedHostPath := if openGuestAesDevice then null_device else host_path in
  r ← wait_syscall h NR [CString openedHostPath; Int oflag; Int mode];
  let result := fst r in
  c ← gets carry;
  _ ← (if openGuestAesDevice && (0 <=? result) && negb c then RegisterGuestAesFileDescriptor result
       else mret tt);
  mret result)).

(** ** Directories and names *)

Definition guest_chdir_with_syscall (syscall_number guest_path : Z) : sys Z :=
  with_host_path h guest_path (fun host_path => syscall syscall_number [CString host_path]).

Definition guest_chdir (guest_path : Z) : sys Z := guest_chdir_with_syscall SYS_chdir guest_path.
Definition guest_fchdir (fildes : Z) : sys Z := syscall SYS_fchdir [Int fildes].
Definition guest_pthread_chdir (guest_path : Z) : sys Z :=
  guest_chdir_with_syscall SYS___pthread_chdir guest_path.
Definition guest_pthread_fchdir (fildes : Z) : sys Z := syscall SYS___pthread_fchdir [Int fildes].

Definition guest_unlink (guest_path : Z) : sys Z :=
  with_host_path h guest_path (fun host_path => syscall SYS_unlink [CString host_path]).

Definition guest_chmod (guest_path mode : Z) : sys Z :=
  with_host_path h guest_path (fun host_path => syscall SYS_chmod [CString host_path; Int mode]).

Definition guest_chown (guest_path owner group : Z) : sys Z :=
  with_host_path h guest_path (fun host_path =>
  syscall SYS_chown [CString host_path; Int owner; Int group]).

Definition guest_access (guest_path mode : Z) : sys Z :=
  with_host_path h guest_path (fun host_path => syscall SYS_access [CString host_path; Int mode]).

Definition guest_mkdir (guest_path mode : Z) : sys Z :=
  with_host_path h guest_path (fun host_path => syscall SYS_mkdir [CString host_path; Int mode]).

Definition guest_rename (guest_old guest_new : Z) : sys Z :=
  with_host_path h guest_old (fun host_old =>
  with_host_path h guest_new (fun host_new => syscall SYS_rename [CString host_old; CString host_new])).

Definition guest_shm_open (guest_name oflag mode : Z) : sys Z :=
  with_name h guest_name (fun host_name => syscall SYS_shm_open [CString host_name; Int oflag; Int mode]).

Definition guest_setxattr (guest_path guest_name guest_value size position options : Z) : sys Z :=
  with_host_path h guest_path (fun host_path =>
  with_name h guest_name (fun name =>
  if (guest_value =? 0) && negb (size =? 0) then fail EINVAL
  else if LC32MaximumStagedIOBytes <? size then fail ENOMEM
  else
    let invoke value :=
      syscall SYS_setxattr [CString host_path; CString name; value; Int size; Int position; Int options] in
    if size =? 0 then invoke Null
    else
      ok ← check_guest h guest_value size PROT_READ;
      if negb ok then fail EFAULT
      else if negb (vector_ok h size) then fail ENOMEM
      else
        r ← read_guest h guest_value size PROT_READ;
        match r with None => fail EFAULT | Some value => invoke (InBuf value) end)).

(** A link's target as the guest sees it. *)
Definition guest_readlink (guest_pathname guest_buf bufsiz : Z) : sys Z :=
  with_host_path h guest_pathname (fun host_pathname =>
  r ← syscallRetCarry h SYS_readlink [CString host_pathname; OutBuf PATH_MAX; Int PATH_MAX];
  let '(hostResult, data) := (r : Z * list (list Z)) in
  c ← gets carry;
  if (c : bool) then mret hostResult
  else if (hostResult <? 0) || (PATH_MAX <? hostResult) then fail EIO
  else
    let hostTarget := c_string (take (Z.to_nat hostResult) (default [] (head data))) in
    let visible :=
      if bool_decide (head hostTarget = Some slash)
      then path_result (pathHostToGuest (host_fs h) hostTarget) else inr hostTarget in
    or_fail visible (fun visibleTarget =>
    let copyLength := Z.min bufsiz (blen visibleTarget) in
    ok ← (if copyLength =? 0 then mret true
          else write_guest h guest_buf (take (Z.to_nat copyLength) visibleTarget) PROT_WRITE);
    if negb ok then fail EFAULT else return_with_carry_direct copyLength false)).

Definition maximumBufferSize : Z := 128 * 1024 * 1024.

Definition guest_getdirentries64 (fd guest_buf nbytes guest_basep : Z) : sys Z :=
  let bufferSize := Z.min nbytes maximumBufferSize in
  if negb (vector_ok h bufferSize) then fail ENOMEM
  else
    r ← syscallRetCarry h SYS_getdirentries64
          [Int fd; OutBuf bufferSize; Int bufferSize; InOutBuf (zeros 8)];
    let '(result, data) := (r : Z * list (list Z)) in
    c ← gets carry;
    if (c : bool) then mret result
    else if (result <? 0) || (bufferSize <? result) then fail EIO
    else
      ok ← (if result =? 0 then mret true
            else write_guest h guest_buf (take (Z.to_nat result) (default [] (head data))) PROT_WRITE);
      ok ← (if (ok : bool) then write_guest h guest_basep (default [] (head (tail data))) PROT_WRITE
            else mret false);
      if negb ok then fail EFAULT else return_with_carry_direct result false.

(** ** Status *)

(** [guest_stat_copy] on the bytes of the two structures: the times lose the
    upper half of each field. *)
Definition guest_stat_copy (host_buf : list Z) : list Z :=
  sub host_buf 0 28 ++
  mjoin ((fun o => sub host_buf o 4 ++ sub host_buf (o + 8) 4) <$> [32; 48; 64; 80]) ++
  sub host_buf 96 48.

Definition stat_result (guest_buf : Z) (a : host_answer) : sys Z :=
  _ ← (if answer_value a =? 0
       then raw_write guest_buf (guest_stat_copy (fill 144 (default [] (head (answer_data a)))))
       else mret 0);
  return_with_carry (answer_value a) (answer_errno a) (negb (answer_value a =? 0)).

Definition guest_stat64 (guest_path guest_buf : Z) : sys Z :=
  with_host_path h guest_path (fun host_path =>
  a ← ask h (Stat true host_path); stat_result guest_buf a).

Definition guest_fstat (fildes guest_buf : Z) : sys Z :=
  a ← ask h (Fstat fildes); stat_result guest_buf a.

Definition guest_lstat (guest_path guest_buf : Z) : sys Z :=
  with_host_path h guest_path (fun host_path =>
  a ← ask h (Stat false host_path); stat_result guest_buf a).

Definition statfs_result (guest_buf : Z) (r : Z * list (list Z)) : sys Z :=
  let '(result, data) := r in
  _ ← (if result =? 0 then raw_write guest_buf (default [] (head data)) else mret 0);
  mret result.

Definition guest_statfs64 (guest_path guest_buf : Z) : sys Z :=
  with_host_path h guest_path (fun host_path =>
  r ← syscallRetCarry h SYS_statfs64 [CString host_path; OutBuf statfs_size]; statfs_result guest_buf r).

Definition guest_fstatfs64 (fildes guest_buf : Z) : sys Z :=
  r ← syscallRetCarry h SYS_fstatfs64 [Int fildes; OutBuf statfs_size]; statfs_result guest_buf r.

(** The host's timeval has two fields of eight bytes. *)
Definition guest_gettimeofday (guest_tp guest_tzp : Z) : sys Z :=
  r ← syscallRetCarry h SYS_gettimeofday [OutBuf 16; Null];
  let '(result, data) := (r : Z * list (list Z)) in
  let host_tp := default [] (head data) in
  _ ← (if (result =? 0) && negb (guest_tp =? 0)
       then raw_write guest_tp (sub host_tp 0 4 ++ sub host_tp 8 4) else mret 0);
  mret result.
End handlers.
