(* ===== verification/SocketCalls.v ===== *)
(** The socket calls of src/HostFrameworks/LC32/dynarmic_syscalls.cpp. *)

From stdpp Require Import base gmap list strings.
From Stdlib Require Import ZArith Lia.
From S2P Require Import Prelude Bytes GuestMemory GuestRawMemory GuestPaths.
From S2P Require Import Syscalls FileCalls ScatterCalls.

Open Scope list_scope.
Open Scope Z_scope.

Definition SYS_sendmsg : Z := 28.
Definition SYS_accept : Z := 30.
Definition SYS_getpeername : Z := 31.
Definition SYS_getsockname : Z := 32.
Definition SYS_select : Z := 93.
Definition SYS_connect : Z := 98.
Definition SYS_bind : Z := 104.
Definition SYS_setsockopt : Z := 105.
Definition SYS_getsockopt : Z := 118.
Definition SYS_sendto : Z := 133.
Definition SYS_socketpair : Z := 135.

Definition EDESTADDRREQ : Z := 39.
Definition EMSGSIZE : Z := 40.
Definition SOCK_MAXADDRLEN : Z := 255.
Definition MCLBYTES : Z := 2048.
Definition AF_UNIX : Z := 1.
Definition SOL_SOCKET : Z := 0xffff.
Definition SO_SNDTIMEO : Z := 0x1005.
Definition SO_RCVTIMEO : Z := 0x1006.
Definition SOCK_DGRAM : Z := 2.
Definition MSG_DONTWAIT : Z := 0x80.
Definition O_NONBLOCK : Z := 4.
Definition FD_SETSIZE : Z := 1024.

(** offsetof(sockaddr_un, sun_path), and the size of the header in front of it. *)
Definition path_offset : Z := 2.

Section handlers.
Context (h : kernel).

#[local] Abbreviation syscall := (syscall_value h).

(** ** Addresses *)

Definition sa_family (address : list Z) : Z := default 0 (address !! 1%nat).

(** A Unix-domain address with its path translated; the list is the first
    [address_len] bytes of the array, all the kernel looks at. *)
Definition host_sockaddr (address : list Z) : sys (Z + list Z) :=
  if (path_offset <? blen address) && (sa_family address =? AF_UNIX) &&
     negb (default 0 (address !! 2%nat) =? 0)
  then
    r ← to_host h (c_string (drop 2 address));
    mret (match r with
          | inl e => inl e
          | inr host_path =>
              if SOCK_MAXADDRLEN - path_offset <? blen host_path then inl ENAMETOOLONG
              else inr ([path_offset + blen host_path; sa_family address] ++ host_path)
          end)
  else mret (inr address).

(** The checks on the length of an address. *)
Definition sockaddr_length_error (address_len : Z) : option Z :=
  if SOCK_MAXADDRLEN <? address_len then Some ENAMETOOLONG
  else if address_len <? path_offset then Some EINVAL
  else None.

Definition guest_bind (socket guest_address address_len : Z) : sys Z :=
  if guest_address =? 0 then fail EDESTADDRREQ
  else match sockaddr_length_error address_len with
  | Some e => fail e
  | None =>
      r ← raw_read guest_address address_len;
      match r with
      | None => fail EFAULT
      | Some address =>
          r ← host_sockaddr address;
          or_fail r (fun address => syscall SYS_bind [Int socket; InBuf address; Int (blen address)])
      end
  end.

Definition guest_connect (NR socket guest_address address_len : Z) : sys Z :=
  match sockaddr_length_error address_len with
  | Some e => fail e
  | None =>
      r ← (if guest_address =? 0 then mret None else raw_read guest_address address_len);
      match r with
      | None => fail EFAULT
      | Some address =>
          r ← host_sockaddr address;
          or_fail r (fun address =>
          r ← blocking h true (wait_syscall h (host_number h SYS_connect NR)
                [Int socket; InBuf address; Int (blen address)]);
          mret (fst r))
      end
  end.

(** ** Socket options *)

Definition is_timeval_option (level option : Z) : bool :=
  (level =? SOL_SOCKET) && ((option =? SO_SNDTIMEO) || (option =? SO_RCVTIMEO)).

(** The host's timeval of two fields of eight bytes. *)
Definition host_timeval (bs : list Z) : list Z :=
  mjoin ((fun o => le_bytes 8 (i32 (le_int (sub bs o 4)))) <$> [0; 4]).

Definition guest_setsockopt (socket level option guest_value value_len : Z) : sys Z :=
  if (guest_value =? 0) && negb (value_len =? 0) then fail EFAULT
  else if MCLBYTES <? value_len then fail EINVAL
  else
    value ←
      (if value_len =? 0 then mret (inr [])
       else if negb (vector_ok h value_len) then mret (inl ENOMEM)
       else r ← raw_read guest_value value_len; mret (match r with Some v => inr v | None => inl EFAULT end));
    or_fail value (fun value =>
    let '(host_value, host_value_len) :=
      if is_timeval_option level option && (8 <=? value_len) then (InBuf (host_timeval value), 16)
      else if value_len =? 0 then (Null, value_len) else (InBuf value, value_len) in
    syscall SYS_setsockopt [Int socket; Int level; Int option; host_value; Int host_value_len]).

(** [socklen_t] through a pointer. *)
Definition socklen (n : Z) : host_arg := InOutBuf (le_bytes 4 n).
Definition returned_socklen (bs : list Z) : Z := le_int (take 4 bs).

Definition guest_getsockopt (socket level option guest_value guest_value_len : Z) : sys Z :=
  requested ←
    (if guest_value =? 0 then mret (Some 0)
     else if guest_value_len =? 0 then mret None
     else r ← raw_read guest_value_len 4; mret (le_int <$> r));
  match requested with
  | None => fail EFAULT
  | Some requested_len =>
      let is_timeval := is_timeval_option level option in
      let host_capacity := Z.min requested_len MCLBYTES in
      let storage := Z.max host_capacity 1 in
      let host_value :=
        if guest_value =? 0 then Null else if is_timeval then OutBuf 16 else OutBuf storage in
      let host_value_len := if guest_value =? 0 then 0 else if is_timeval then 16 else host_capacity in
      r ← syscallRetCarry h SYS_getsockopt
            [Int socket; Int level; Int option; host_value; socklen host_value_len];
      let '(result, data) := (r : Z * list (list Z)) in
      c ← gets carry;
      if (c : bool) then mret result
      else
        let value := default [] (head data) in
        let returned :=
          if guest_value =? 0 then []
          else if is_timeval then take (Z.to_nat (Z.min requested_len 8)) (sub value 0 4 ++ sub value 8 4)
          else take (Z.to_nat (Z.min (Z.min requested_len (returned_socklen (default [] (head (tail data)))))
                                 storage)) value in
        w ← (if bool_decide (returned = []) then mret 0 else raw_write guest_value returned);
        if negb (w =? 0) then fail EFAULT
        else
          w ← raw_write guest_value_len (le_bytes 4 (blen returned));
          if negb (w =? 0) then fail EFAULT else return_with_carry_direct 0 false
  end.

(** ** Addresses from the host *)

(** The address as the guest sees it and its length; the list is the whole
    array after the call. *)
Definition guest_sockaddr (host_address : list Z) (host_address_len : Z) : (Z + list Z * Z) :=
  let stored_len := Z.min host_address_len SOCK_MAXADDRLEN in
  if (host_address_len <=? SOCK_MAXADDRLEN) && (path_offset <=? stored_len) &&
     (sa_family host_address =? AF_UNIX) && (path_offset <? stored_len) &&
     (default 0 (host_address !! 2%nat) =? slash)
  then
    match path_result (pathHostToGuest (host_fs h) (c_string (sub host_address 2 (stored_len - path_offset)))) with
    | inl e => inl e
    | inr guest_path =>
        if SOCK_MAXADDRLEN - path_offset <? blen guest_path then inl ENAMETOOLONG
        else inr ([path_offset + blen guest_path; sa_family host_address] ++ guest_path,
                  path_offset + blen guest_path)
    end
  else inr (take (Z.to_nat stored_len) host_address, host_address_len).

Definition ReadGuestSocketAddressLength (guest_address_len : Z) : sys (Z + Z) :=
  if guest_address_len =? 0 then mret (inl EFAULT)
  else
    r ← read_guest h guest_address_len 4 PROT_READ;
    mret (match r with None => inl EFAULT | Some bs => inr (le_int bs) end).

Definition CopyOutGuestSocketAddress (guest_address guest_address_len requested_len : Z)
    (host_address : list Z) (host_address_len : Z) : sys Z :=
  or_fail (guest_sockaddr host_address host_address_len) (fun '(stored, returned_len) =>
  let copy_len := Z.min requested_len (blen stored) in
  ok ← (if copy_len =? 0 then mret true
        else if guest_address =? 0 then mret false
        else write_guest h guest_address (take (Z.to_nat copy_len) stored) PROT_WRITE);
  if negb ok then fail EFAULT
  else
    ok ← write_guest h guest_address_len (le_bytes 4 returned_len) PROT_WRITE;
    if negb ok then fail EFAULT else return_with_carry_direct 0 false).

(** The two output buffers of a call that returns an address. *)
Definition returned_address (data : list (list Z)) : list Z * Z :=
  (default [] (head data), returned_socklen (default [] (head (tail data)))).

Definition GuestSocketName (syscall_number socket guest_address guest_address_len : Z) : sys Z :=
  requested ← ReadGuestSocketAddressLength guest_address_len;
  or_fail requested (fun requested_len =>
  r ← syscallRetCarry h syscall_number [Int socket; OutBuf SOCK_MAXADDRLEN; socklen SOCK_MAXADDRLEN];
  let '(result, data) := (r : Z * list (list Z)) in
  c ← gets carry;
  if (c : bool) then mret result
  else
    let '(host_address, host_address_len) := returned_address data in
    CopyOutGuestSocketAddress guest_address guest_address_len requested_len host_address host_address_len).

Definition guest_getsockname (socket guest_address guest_address_len : Z) : sys Z :=
  GuestSocketName SYS_getsockname socket guest_address guest_address_len.

Definition guest_getpeername (socket guest_address guest_address_len : Z) : sys Z :=
  GuestSocketName SYS_getpeername socket guest_address guest_address_len.

(** Whether a guest thread yields instead of blocking on a socket without data. *)
Definition accept_yields (socket : Z) : sys bool :=
  can ← gets (fun w => host_can_yield h (journal w));
  if negb can then mret false
  else
    flags ← ask h (Fcntl_GETFL socket);
    if (answer_value flags <? 0) || negb (Z.land (answer_value flags) O_NONBLOCK =? 0) then mret false
    else
      ready ← ask h (PollIn socket);
      if negb (answer_value ready =? 0) then mret false else gets (fun w => host_yields h (journal w)).

Definition guest_accept (syscall_number socket guest_address guest_address_len : Z) : sys Z :=
  let wants_address := negb (guest_address =? 0) in
  requested ← (if wants_address then ReadGuestSocketAddressLength guest_address_len else mret (inr 0));
  or_fail requested (fun requested_len =>
  yields ← accept_yields socket;
  if (yields : bool) then fail EINTR
  else
    r ← blocking h true (wait_syscall h (host_number h SYS_accept syscall_number)
          (Int socket :: if wants_address then [OutBuf SOCK_MAXADDRLEN; socklen SOCK_MAXADDRLEN]
                         else [Null; Null]));
    let '(accepted, data) := (r : Z * list (list Z)) in
    c ← gets carry;
    if (c : bool) then mret accepted
    else if wants_address then
      let '(host_address, host_address_len) := returned_address data in
      copyout_result ← CopyOutGuestSocketAddress guest_address guest_address_len requested_len
                         host_address host_address_len;
      if negb (copyout_result =? 0) then _ ← ask h (Close accepted); mret copyout_result
      else return_with_carry_direct accepted false
    else return_with_carry_direct accepted false).

(** ** Sending *)

(** An optional destination; [Null] without one. *)
Definition read_destination (read : sys (option (list Z))) (guest_dest_addr dest_len : Z)
    : sys (Z + (host_arg * Z)) :=
  if guest_dest_addr =? 0 then mret (inr (Null, dest_len))
  else match sockaddr_length_error dest_len with
  | Some e => mret (inl e)
  | None =>
      r ← read;
      match r with
      | None => mret (inl EFAULT)
      | Some address =>
          r ← host_sockaddr address;
          mret (match r with inl e => inl e | inr address => inr (InBuf address, blen address) end)
      end
  end.

Definition guest_sendto (NR socket guest_buffer length flags guest_dest_addr dest_len : Z) : sys Z :=
  if INT32_MAX <? length then fail EINVAL
  else if negb (vector_ok h length) then fail ENOMEM
  else
    buffer ← (if length =? 0 then mret (Some Null)
              else if guest_buffer =? 0 then mret None
              else r ← raw_read guest_buffer length; mret (InBuf <$> r));
    match buffer with
    | None => fail EFAULT
    | Some buffer =>
        destination ← read_destination (raw_read guest_dest_addr dest_len) guest_dest_addr dest_len;
        or_fail destination (fun '(host_dest, dest_len) =>
        r ← blocking h true (wait_syscall h (host_number h SYS_sendto NR)
              [Int socket; buffer; Int length; Int flags; host_dest; Int dest_len]);
        mret (fst r))
    end.

Definition maximum_iov_count : Z := 1024.
Definition maximum_control_length : Z := 2 ^ 20.

(** The loop over the vectors of a message. *)
Fixpoint read_payloads (vectors : list iovec_32) (total : Z) : sys (Z + list host_arg) :=
  match vectors with
  | [] => mret (inr [])
  | v :: rest =>
      let total := total + iov_len v in
      if INT32_MAX <? total then mret (inl EINVAL)
      else if negb (vector_ok h (iov_len v)) then mret (inl ENOMEM)
      else
        payload ← (if iov_len v =? 0 then mret (Some Null)
                   else if guest_iov_base v =? 0 then mret None
                   else r ← read_guest h (guest_iov_base v) (iov_len v) PROT_READ; mret (InBuf <$> r));
        match payload with
        | None => mret (inl EFAULT)
        | Some payload =>
            more ← read_payloads rest total;
            mret (match more with inl e => inl e | inr more => inr (payload :: more) end)
        end
  end.

(** The control data of a message. *)
Definition read_control (control controlLength : Z) : sys (Z + host_arg) :=
  if control =? 0 then mret (inr Null)
  else if controlLength <? 12 then mret (inl EINVAL)
  else if maximum_control_length <? controlLength then mret (inl EMSGSIZE)
  else if negb (vector_ok h controlLength) then mret (inl ENOMEM)
  else
    r ← read_guest h control controlLength PROT_READ;
    mret (match r with None => inl EFAULT | Some bs => inr (InBuf bs) end).

Definition guest_sendmsg (NR socket guest_message_address flags : Z) : sys Z :=
  r ← (if guest_message_address =? 0 then mret None else read_guest h guest_message_address 28 PROT_READ);
  match r with
  | None => fail EFAULT
  | Some message =>
      let word o := le_int (sub message o 4) in
      let iovCount := i32 (word 12) in
      if (iovCount <=? 0) || (maximum_iov_count <? iovCount) then fail EMSGSIZE
      else if negb (vector_ok h (iovCount * 8)) then fail ENOMEM
      else
        r ← (if word 8 =? 0 then mret None else read_guest h (word 8) (iovCount * 8) PROT_READ);
        match r with
        | None => fail EFAULT
        | Some bs =>
            payloads ← read_payloads (decode_iovecs (Z.to_nat iovCount) bs) 0;
            or_fail payloads (fun payloads =>
            name ← read_destination (read_guest h (word 0) (word 4) PROT_READ) (word 0) (word 4);
            or_fail name (fun '(host_name, host_name_length) =>
            control ← read_control (word 16) (word 20);
            or_fail control (fun control =>
            r ← blocking h true (wait_syscall h (host_number h SYS_sendmsg NR)
                  ([Int socket; host_name; Int (if word 0 =? 0 then 0 else host_name_length)] ++ payloads ++
                   [control; Int (i32 (word 24)); Int flags]));
            mret (fst r))))
        end
  end.

Definition guest_socketpair (domain type protocol guest_sockets : Z) : sys Z :=
  r ← syscallRetCarry h SYS_socketpair [Int domain; Int type; Int protocol; OutBuf 8];
  let '(result, data) := (r : Z * list (list Z)) in
  c ← gets carry;
  if (c : bool) then mret result
  else
    let host_sockets := default [] (head data) in
    ok ← (if guest_sockets =? 0 then mret false else write_guest h guest_sockets host_sockets PROT_WRITE);
    if negb ok then
      _ ← ask h (Close (i32 (le_int (sub host_sockets 0 4))));
      _ ← ask h (Close (i32 (le_int (sub host_sockets 4 4))));
      fail EFAULT
    else mret result.

(** ** Receiving *)

(** Whether the receive is first tried without blocking. *)
Definition can_probe (socket flags : Z) : sys bool :=
  can ← (if Z.land flags MSG_DONTWAIT =? 0 then gets (fun w => host_can_yield h (journal w)) else mret false);
  if negb can then mret false
  else
    socket_flags ← ask h (Fcntl_GETFL socket);
    if (0 <=? answer_value socket_flags) && negb (Z.land (answer_value socket_flags) O_NONBLOCK =? 0)
    then mret false
    else
      type ← ask h (SocketType socket);
      mret ((answer_value type =? 0) &&
            (le_int (fill 4 (default [] (head (answer_data type)))) =? SOCK_DGRAM)).

Definition receive (NR socket length flags : Z) : sys (Z * list (list Z)) :=
  wait_syscall h NR [Int socket; if length =? 0 then Null else OutBuf length; Int length; Int flags;
                     OutBuf SOCK_MAXADDRLEN; socklen SOCK_MAXADDRLEN].

(** The call with its probe; [None] when the guest thread yields instead. *)
Definition receive_yielding (NR socket length flags : Z) : sys (option (Z * list (list Z))) :=
  probe ← can_probe socket flags;
  if negb probe then r ← receive NR socket length flags; mret (Some r)
  else
    r ← receive NR socket length (Z.lor flags MSG_DONTWAIT);
    c ← gets carry;
    if negb (c && (fst r =? EAGAIN)) then mret (Some r)
    else
      yields ← gets (fun w => host_yields h (journal w));
      if (yields : bool) then mret None
      else r ← receive NR socket length flags; mret (Some r).

(** The sender's address for the guest and the length reported.  A translation
    that does not fit its array leaves a string that is too long here. *)
Definition returned_sender (requested_from_len : Z) (host_from : list Z) (host_from_len : Z)
    : (Z + list Z * Z) :=
  let stored := take (Z.to_nat (Z.min host_from_len SOCK_MAXADDRLEN)) host_from in
  if requested_from_len =? 0 then inr (stored, 0)
  else match guest_sockaddr host_from host_from_len with
  | inl _ => inl ENAMETOOLONG
  | inr r => inr r
  end.

Definition guest_recvfrom (NR socket guest_buffer length flags guest_from guest_from_len : Z) : sys Z :=
  requested ← (if guest_from_len =? 0 then mret (Some 0)
               else r ← raw_read guest_from_len 4; mret (le_int <$> r));
  match requested with
  | None => fail EFAULT
  | Some requested_from_len =>
      if INT32_MAX <? length then fail EINVAL
      else if negb (length =? 0) && negb (vector_ok h length) then fail ENOMEM
      else
        r ← receive_yielding NR socket length flags;
        match r with
        | None => fail EINTR
        | Some (result, data) =>
            c ← gets carry;
            if (c : bool) then mret result
            else
              let '(host_buffer, data) :=
                if length =? 0 then ([], data) else (default [] (head data), tail data) in
              w ← (if 0 <? result then
                     if guest_buffer =? 0 then mret (-1)
                     else raw_write guest_buffer (take (Z.to_nat (Z.min result length)) host_buffer)
                   else mret 0);
              if negb (w =? 0) then fail EFAULT
              else if (guest_from =? 0) || (guest_from_len =? 0) then return_with_carry_direct result false
              else
                let '(host_from, host_from_len) := returned_address data in
                or_fail (returned_sender requested_from_len host_from host_from_len)
                  (fun '(stored, returned_from_len) =>
                  let copy_from_len := Z.min requested_from_len (blen stored) in
                  w ← (if copy_from_len =? 0 then mret 0
                       else raw_write guest_from (take (Z.to_nat copy_from_len) stored));
                  if negb (w =? 0) then fail EFAULT
                  else
                    w ← raw_write guest_from_len (le_bytes 4 returned_from_len);
                    if negb (w =? 0) then fail EFAULT else return_with_carry_direct result false)
        end
  end.

(** ** Waiting for descriptors *)

(** sizeof(fd_set). *)
Definition fd_set_size : Z := FD_SETSIZE / 8.

Definition copy_in_set (guest_set fd_bytes : Z) : sys (option (list Z)) :=
  if (guest_set =? 0) || (fd_bytes =? 0) then mret (Some (zeros fd_set_size))
  else
    r ← raw_read guest_set fd_bytes;
    mret ((fun bs => bs ++ zeros (fd_set_size - fd_bytes)) <$> r).

(** The sets in turn, to the first that cannot be read. *)
Fixpoint copy_in_sets (guest_sets : list Z) (fd_bytes : Z) : sys (option (list (list Z))) :=
  match guest_sets with
  | [] => mret (Some [])
  | g :: rest =>
      r ← copy_in_set g fd_bytes;
      match r with
      | None => mret None
      | Some s => more ← copy_in_sets rest fd_bytes; mret (cons s <$> more)
      end
  end.

Definition set_arg (guest_set : Z) (s : list Z) : host_arg :=
  if guest_set =? 0 then Null else InOutBuf s.

(** The buffers of the call belong to the sets that were passed, in their order. *)
Fixpoint copy_out_sets (guest_sets : list Z) (fd_bytes : Z) (data : list (list Z)) : sys bool :=
  match guest_sets with
  | [] => mret true
  | g :: rest =>
      if g =? 0 then copy_out_sets rest fd_bytes data
      else if fd_bytes =? 0 then copy_out_sets rest fd_bytes (tail data)
      else
        w ← raw_write g (take (Z.to_nat fd_bytes) (default [] (head data)));
        if negb (w =? 0) then mret false else copy_out_sets rest fd_bytes (tail data)
  end.

(** A timeout that is given, or an error. *)
Definition select_timeout (guest_timeout : Z) : sys (Z + option (list Z)) :=
  if guest_timeout =? 0 then mret (inr None)
  else
    r ← raw_read guest_timeout 8;
    mret (match r with
          | None => inl EFAULT
          | Some bs =>
              let sec := i32 (le_int (sub bs 0 4)) in
              let usec := i32 (le_int (sub bs 4 4)) in
              if (sec <? 0) || (usec <? 0) || (1000000 <=? usec) then inl EINVAL else inr (Some bs)
          end).

Definition guest_select (NR descriptor_count guest_read_set guest_write_set guest_except_set guest_timeout : Z)
    : sys Z :=
  if (descriptor_count <? 0) || (FD_SETSIZE <? descriptor_count) then fail EINVAL
  else
    timeout ← select_timeout guest_timeout;
    or_fail timeout (fun timeout =>
    let guest_sets := [guest_read_set; guest_write_set; guest_except_set] in
    let fd_bytes := (descriptor_count + 31) / 32 * 4 in
    sets ← copy_in_sets guest_sets fd_bytes;
    match sets with
    | None => fail EFAULT
    | Some sets =>
        let potentially_blocking :=
          match timeout with None => true | Some bs => negb (bool_decide (bs = zeros 8)) end in
        let timeout_arg := match timeout with None => Null | Some bs => InBuf (host_timeval bs) end in
        r ← blocking h potentially_blocking
              (wait_syscall h (host_number h SYS_select NR)
                 (Int descriptor_count :: zip_with set_arg guest_sets sets ++ [timeout_arg]));
        let '(result, data) := (r : Z * list (list Z)) in
        c ← gets carry;
        if (c : bool) then mret result
        else
          ok ← copy_out_sets guest_sets fd_bytes data;
          if negb ok then fail EFAULT else mret result
    end).
End handlers.
