(* ===== verification/Dispatcher.v ===== *)
(** The system-call dispatcher
    (src/HostFrameworks/LC32/dynarmic_callbacks.cpp, [CallSVC]).

    The registers of the calling thread are a list; r13 is the stack pointer.
    The cases of the switch that belong to other parts of the program (mappings,
    signals, threads, synchronisation, workqueues, Mach calls, the private calls
    from 1001 on) are listed by number and have no result here. *)

From stdpp Require Import base gmap list strings.
From Stdlib Require Import ZArith Lia.
From S2P Require Import Prelude Bytes GuestMemory GuestRawMemory GuestPaths.
From S2P Require Import Syscalls FileCalls ScatterCalls DescriptorCalls SocketCalls.

Open Scope list_scope.
Open Scope Z_scope.

Abbreviation regs := (list Z).
Definition reg (r : regs) (i : nat) : Z := default 0 (r !! i).

(** Two registers that hold one 64-bit value. *)
Definition r64 (lo hi : Z) : Z := Z.lor lo (Z.shiftl hi 32).

(** [mode_t]. *)
Definition u16 (v : Z) : Z := v mod 2 ^ 16.

Definition ENOSYS : Z := 78.
Definition SYS_flock : Z := 131.
Definition SYS_fsync : Z := 95.
Definition SYS_fdatasync : Z := 187.
Definition SYS_ftruncate : Z := 201.
Definition SYS_kqueue : Z := 362.
Definition SYS_abort_with_payload : Z := 521.
Definition LOCK_SH : Z := 1.
Definition LOCK_EX : Z := 2.
Definition LOCK_NB : Z := 4.

(** fork, vfork, execve, posix_spawn, ptrace, kill, setlogin, setuid, revoke,
    setgroups, setpgid, setpriority, setreuid, setregid, setsid, setprivexec,
    setgid, setegid, seteuid, setrlimit, mknod, reboot, chroot, swapon, acct,
    settimeofday, adjtime, nfssvc, unmount, quotactl, mount, initgroups, audit,
    auditon, getauid, setauid, getaudit_addr, setaudit_addr, auditctl,
    __mac_execve, __mac_mount, __mac_set_file, __mac_set_link, __mac_set_proc,
    __mac_set_fd. *)
Definition denied_calls : list Z :=
  [2; 66; 59; 244; 26; 37; 50; 23; 56; 80; 82; 96; 126; 127; 147; 152; 181; 182; 183; 195; 14; 55;
   61; 85; 51; 122; 140; 155; 159; 165; 167; 243; 350; 351; 353; 354; 357; 358; 359; 380; 424; 383;
   385; 387; 389].

(** umask, getdtablesize, getpgrp, getpgid, getsid, getpriority, fchown, fchmod,
    fchflags, socket, listen, shutdown, fpathconf. *)
Definition scalar_calls : list Z := [60; 89; 81; 151; 310; 100; 123; 124; 35; 97; 106; 134; 192].

(** mk_timer_create, host_self_trap, task_self_trap, mach_reply_port, two port
    traps, getpid, getuid, geteuid, getppid, getegid, getgid, issetugid. *)
Definition identity_calls : list Z := [-91; -29; -28; -26; -21; -19; 20; 24; 25; 39; 43; 47; 327].

(** The calls between 0 and 1000 with a case that is not below: exit, sigaction,
    sigprocmask, sigaltstack, ioctl, munmap, mprotect, fcntl, csops, getrlimit,
    mmap, sysctl, getattrlist, gettid, the psynch calls, pthread_kill,
    pthread_sigmask, proc_info, the bsdthread calls, kevent, the workqueue calls,
    thread_selfid, mac_syscall, mremap_encrypted, getentropy, the ulock calls and
    abort_with_payload. *)
Definition elsewhere : list Z :=
  [1; 46; 48; 53; 54; 73; 74; 92; 406; 169; 170; 194; 197; 202; 220; 274; 286; 300; 306; 307; 308; 309;
   301; 302; 303; 304; 305; 328; 329; 336; 360; 361; 363; 366; 367; 368; 372; 374; 478; 381; 489; 500;
   515; 516; 521].

Section dispatcher.
Context (h : kernel).

#[local] Abbreviation syscall := (syscall_value h).

(** A blocking call of the dispatcher itself. *)
Definition wait_value (nr : Z) (args : list host_arg) : sys Z :=
  host_wait h (fun e => e) (syscall nr args).

(** ** Cases with code of their own *)

Definition pthread_canceled (action : Z) : sys Z :=
  if (action =? 1) || (action =? 2) then return_with_carry_direct 0 false else fail EINVAL.

Definition semwait_signal (NR : Z) (r : regs) : sys Z :=
  yields ← (if (reg r 1 =? 0) && (reg r 2 =? 0) then gets (fun w => host_yields h (journal w))
            else mret false);
  if (yields : bool) then fail EINTR
  else wait_value NR [Int (reg r 0); Int (reg r 1); Int (reg r 2); Int (reg r 3);
                      Int (r64 (reg r 4) (reg r 5)); Int (reg r 6)].

Definition dispatch_fsync (NR fildes : Z) : sys Z :=
  wait_value (if NR =? SYS_fdatasync then SYS_fdatasync else host_number h SYS_fsync NR) [Int fildes].

Definition dispatch_flock (fildes operation : Z) : sys Z :=
  let mayBlock :=
    negb (Z.land operation (Z.lor LOCK_SH LOCK_EX) =? 0) && (Z.land operation LOCK_NB =? 0) in
  yields ← (if mayBlock then gets (fun w => host_yields h (journal w)) else mret false);
  if (yields : bool) then fail EINTR
  else blocking h mayBlock (wait_value SYS_flock [Int fildes; Int operation]).

(** The carry flag of these calls is cleared whatever the host says. *)
Definition identity_call (NR : Z) (r : regs) : sys Z :=
  v ← syscall NR [Int (reg r 0); Int (reg r 1); Int (reg r 2); Int (reg r 3)];
  return_with_carry_direct v false.

(** ** The switch: the cases that set r0 *)

Definition control_cases (NR : Z) (r : regs) : list (list Z * sys Z) :=
  let r0 := reg r 0 in let r1 := reg r 1 in let r2 := reg r 2 in
  [(identity_calls, identity_call NR r);
   ([333], pthread_canceled r0);
   ([334; 423], semwait_signal NR r);
   ([95; 408; 187], dispatch_fsync NR r0);
   (scalar_calls, syscall NR [Int r0; Int r1; Int r2]);
   ([131], dispatch_flock r0 (i32 r1));
   ([75], mret 0);                                   (* madvise *)
   ([201], syscall SYS_ftruncate [Int r0; Int (i64 (r64 r1 r2))]);
   ([294], fail EINVAL);                             (* shared_region_check_np *)
   ([312], return_with_carry_direct 0 false);        (* psynch_cvclrprepost *)
   ([331], return_with_carry_direct 0 false);        (* __disable_threadsignal *)
   ([362], syscall SYS_kqueue []);
   (denied_calls, fail EPERM)].

Definition file_cases (NR : Z) (r : regs) : list (list Z * sys Z) :=
  let r0 := reg r 0 in let r1 := reg r 1 in let r2 := reg r 2 in
  let r3 := reg r 3 in let r4 := reg r 4 in let r5 := reg r 5 in
  [([3; 396], guest_read h (host_number h 3 396) (i32 r0) r1 r2);
   ([4; 397], guest_write h (host_number h SYS_write NR) (i32 r0) r1 r2);
   ([5; 398], guest_open h (host_number h 5 398) r0 (i32 r1) (i32 r2));
   ([6; 399], guest_close h NR (i32 r0));
   ([9], guest_link h r0 r1);
   ([12], guest_chdir h r0);
   ([13], guest_fchdir h (i32 r0));
   ([41], guest_dup h (i32 r0));
   ([90], guest_dup2 h (i32 r0) (i32 r1));
   ([10], guest_unlink h r0);
   ([15], guest_chmod h r0 (u16 r1));
   ([16], guest_chown h r0 r1 r2);
   ([33], guest_access h r0 (i32 r1));
   ([34], guest_chflags h r0 r1);
   ([58], guest_readlink h r0 r1 r2);
   ([57], guest_symlink h r0 r1);
   ([314], guest_aio_return r0);
   ([317], guest_aio_error r0);
   ([318], guest_aio_read h r0);
   ([116], guest_gettimeofday h r0 r1);
   ([79], guest_getgroups h (i32 r0) r1);
   ([49], guest_getlogin h r0 r1);
   ([120; 411], guest_readv h (host_number h SYS_readv NR) (i32 r0) r1 (i32 r2));
   ([121; 412], guest_writev h (host_number h SYS_writev NR) (i32 r0) r1 (i32 r2));
   ([128], guest_rename h r0 r1);
   ([132], guest_mkfifo h r0 (u16 r1));
   ([136], guest_mkdir h r0 (u16 r1));
   ([137], guest_rmdir h r0);
   ([138], guest_utimes h r0 r1);
   ([139], guest_futimes h (i32 r0) r1);
   ([236], guest_setxattr h r0 r1 r2 r3 r4 (i32 r5));
   ([234], guest_getxattr h r0 r1 r2 r3 r4 (i32 r5));
   ([235], guest_fgetxattr h (i32 r0) r1 r2 r3 r4 (i32 r5));
   ([237], guest_fsetxattr h (i32 r0) r1 r2 r3 r4 (i32 r5));
   ([238], guest_removexattr h r0 r1 (i32 r2));
   ([239], guest_fremovexattr h (i32 r0) r1 (i32 r2));
   ([240], guest_listxattr h r0 r1 r2 (i32 r3));
   ([241], guest_flistxattr h (i32 r0) r1 r2 (i32 r3));
   ([153; 414], guest_pread h (host_number h 153 NR) (i32 r0) r1 r2 (i64 (r64 r3 r4)));
   ([154; 415], guest_pwrite h (host_number h SYS_pwrite NR) (i32 r0) r1 r2 (i64 (r64 r3 r4)));
   ([191], guest_pathconf h r0 (i32 r1));
   ([200], guest_truncate h r0 (i64 (r64 r1 r2)));
   ([266], guest_shm_open h r0 (i32 r1) (i32 r2));
   ([267], guest_shm_unlink h r0);
   ([230; 417], guest_poll h NR r0 r1 (i32 r2));
   ([338], guest_stat64 h r0 r1);
   ([339], guest_fstat h (i32 r0) r1);
   ([340], guest_lstat h r0 r1);
   ([344], guest_getdirentries64 h (i32 r0) r1 r2 r3);
   ([345], guest_statfs64 h r0 r1);
   ([346], guest_fstatfs64 h (i32 r0) r1);
   ([348], guest_pthread_chdir h r0);
   ([349], guest_pthread_fchdir h (i32 r0));
   ([364], guest_lchown h r0 r1 r2)].

Definition socket_cases (NR : Z) (r : regs) : list (list Z * sys Z) :=
  let r0 := reg r 0 in let r1 := reg r 1 in let r2 := reg r 2 in
  let r3 := reg r 3 in let r4 := reg r 4 in let r5 := reg r 5 in
  [([29; 403], guest_recvfrom h (host_number h 29 403) (i32 r0) r1 r2 (i32 r3) r4 r5);
   ([32], guest_getsockname h (i32 r0) r1 r2);
   ([31], guest_getpeername h (i32 r0) r1 r2);
   ([30; 404], guest_accept h NR (i32 r0) r1 r2);
   ([98; 409], guest_connect h NR (i32 r0) r1 r2);
   ([93; 407], guest_select h NR (i32 r0) r1 r2 r3 r4);
   ([104], guest_bind h (i32 r0) r1 r2);
   ([105], guest_setsockopt h (i32 r0) (i32 r1) (i32 r2) r3 r4);
   ([118], guest_getsockopt h (i32 r0) (i32 r1) (i32 r2) r3 r4);
   ([133; 413], guest_sendto h NR (i32 r0) r1 r2 (i32 r3) r4 r5);
   ([135], guest_socketpair h (i32 r0) (i32 r1) (i32 r2) r3);
   ([28; 402], guest_sendmsg h NR (i32 r0) r1 (i32 r2))].

Definition find_case (NR : Z) (cases : list (list Z * sys Z)) : option (sys Z) :=
  snd <$> head (filter (fun c => NR ∈ c.1) cases).

(** ** The cases that set r0 and r1 *)

(** _kernelrpc_mach_port_deallocate_trap: an [int] widened to 64 bits. *)
Definition port_deallocate (NR : Z) (r : regs) : sys (Z * Z) :=
  v ← syscall NR [Int (reg r 0); Int (reg r 1)]; mret (v, Z.shiftr v 32).

Definition dispatch_lseek (r : regs) : sys (Z * Z) :=
  a ← ask h (Lseek (i32 (reg r 0)) (i64 (r64 (reg r 1) (reg r 2))) (i32 (reg r 3)));
  if answer_value a =? -1 then e ← fail (answer_errno a); mret (e, 0)
  else
    _ ← return_with_carry_direct 0 false;
    mret (answer_value a, Z.shiftr (answer_value a) 32).

(** A failed pipe sets no descriptor. *)
Definition dispatch_pipe : sys (Z * Z) :=
  a ← ask h Pipe;
  if answer_value a =? -1 then e ← fail (answer_errno a); mret (e, 0)
  else
    let descriptors := fill 8 (default [] (head (answer_data a))) in
    _ ← return_with_carry_direct 0 false;
    mret (le_int (sub descriptors 0 4), le_int (sub descriptors 4 4)).

Definition pair_case (NR : Z) (r : regs) : option (sys (Z * Z)) :=
  if NR =? -18 then Some (port_deallocate NR r)
  else if NR =? 199 then Some (dispatch_lseek r)
  else if NR =? 42 then Some dispatch_pipe
  else None.

(** ** A direct call *)

Definition dispatch (r : regs) : sys (option regs) :=
  let NR := i32 (reg r 12) in
  _ ← update (set_carry false);
  match find_case NR (control_cases NR r ++ file_cases NR r ++ socket_cases NR r), pair_case NR r with
  | Some m, _ => v ← m; mret (Some (<[0%nat := u32 v]> r))
  | None, Some m => v ← m; mret (Some (<[0%nat := u32 (fst v)]> (<[1%nat := u32 (snd v)]> r)))
  | None, None =>
      if bool_decide (NR ∈ elsewhere) then mret None
      else if (0 <? NR) && (NR <? 1000) then v ← fail ENOSYS; mret (Some (<[0%nat := u32 v]> r))
      else mret None
  end.

(** ** The indirect call *)

(** semwait_signal, mmap, proc_info and bsdthread_register take a seventh word,
    kevent_qos and abort_with_payload an eighth. *)
Definition spilled_words (target : Z) : Z :=
  if bool_decide (target ∈ [334; 423; 197; 336; 366]) then 1
  else if bool_decide (target ∈ [374; 521]) then 2
  else 0.

(** The registers of the direct call. *)
Definition shifted (r : regs) (target : Z) (spilled : option Z) : regs :=
  let moved := foldl (fun acc i => <[i := reg r (S i)]> acc) r (seq 0 6) in
  let moved := match spilled with Some v => <[6%nat := v]> moved | None => moved end in
  <[13%nat := u32 (reg r 13 + 4)]> (<[12%nat := target]> moved).

Definition restore_stack (original directStack : Z) (r : regs) : regs :=
  if reg r 13 =? directStack then <[13%nat := original]> r else r.

Definition indirect (r : regs) : sys (option regs) :=
  let target := u16 (reg r 0) in
  if (target =? 0) || (SYS_abort_with_payload <? target)
  then v ← fail ENOSYS; mret (Some (<[0%nat := u32 v]> r))
  else
    let n := spilled_words target in
    spilled ← (if n =? 0 then mret (Some None)
               else
                 b ← read_guest h (reg r 13 + 28) (n * 4) PROT_READ;
                 mret ((fun bs => Some (le_int (take 4 bs))) <$> b));
    match spilled with
    | None => v ← fail EFAULT; mret (Some (<[0%nat := u32 v]> r))
    | Some spilled =>
        o ← dispatch (shifted r target spilled);
        mret (restore_stack (reg r 13) (u32 (reg r 13 + 4)) <$> o)
    end.

Definition CallSVC (r : regs) : sys (option regs) :=
  if i32 (reg r 12) =? 0 then _ ← update (set_carry false); indirect r else dispatch r.
End dispatcher.
