(* ===== verification/SyscallLogic.v ===== *)
(** A program logic for system-call handlers.

    [runs ok m Q]: from any world whose lookup caches are sound, [m] asks the host
    only for what [ok] allows, changes of the guest's address space nothing but
    bytes and lookup caches, and returns a value that satisfies [Q].  The rules
    follow the operations of [Syscalls]; the tactic [handler] applies them. *)

From stdpp Require Import base gmap list strings.
From Stdlib Require Import ZArith Lia.
From S2P Require Import Prelude Bytes GuestMemory GuestRawMemory GuestPaths.
From S2P Require Import Syscalls FileCalls ScatterCalls.

Open Scope list_scope.
Open Scope Z_scope.

(** ** What memory accesses leave alone *)

(** The same pages, backings and tables: only bytes and caches differ. *)
Definition same_layout (s s' : vm) : Prop := exists c b, s' = with_caches c (with_host b s).

Definition settled (s s' : vm) : Prop := cache_ok s' /\ same_layout s s'.

Lemma settled_refl s : cache_ok s -> settled s s.
Proof. intros H. split; [done|]. exists (caches s), (host s). by destruct s. Qed.

Lemma settled_trans a b c : settled a b -> settled b c -> settled a c.
Proof. intros [_ (c1 & b1 & ->)] [H (c2 & b2 & ->)]. split; [done|]. by exists c2, b2. Qed.

Lemma settled_caches s c : cache_ok (with_caches c s) -> settled s (with_caches c s).
Proof. split; [done|]. exists c, (host s). by destruct s. Qed.

Lemma settled_host s b : cache_ok s -> settled s (with_host b s).
Proof. split; [by apply cache_ok_host|]. exists (caches s), b. by destruct s. Qed.

Lemma get_page_settled tid s v req :
  cache_ok s -> settled s (get_memory_page_with_permissions tid s v req).2.
Proof. intros H. destruct (get_page_spec tid s v req H) as (c & -> & Hc). by apply settled_caches. Qed.

Lemma range_check_settled tid req cs s :
  cache_ok s -> settled s (range_check tid s req cs).2.
Proof. intros H. destruct (range_check_spec tid req cs s H) as (c & -> & Hc). by apply settled_caches. Qed.

Lemma read_loop_settled tid req cs s : cache_ok s -> settled s (read_loop tid s req cs).2.
Proof.
  revert s. induction cs as [|[a n] cs IH]; intros s H; cbn [read_loop]; [by apply settled_refl|].
  pose proof (get_page_settled tid s a req H) as Hg. destruct (get_memory_page_with_permissions _ _ _ _) as [p s1].
  destruct (p =? 0); [done|]. specialize (IH s1 (proj1 Hg)).
  destruct (read_loop tid s1 req cs). by eapply settled_trans.
Qed.

Lemma write_loop_settled tid req cs s input : cache_ok s -> settled s (write_loop tid s req cs input).2.
Proof.
  revert s input. induction cs as [|[a n] cs IH]; intros s input H; cbn [write_loop]; [by apply settled_refl|].
  pose proof (get_page_settled tid s a req H) as Hg. destruct (get_memory_page_with_permissions _ _ _ _) as [p s1].
  destruct (p =? 0); [done|]. cbn [snd] in Hg. destruct Hg as [Hok Hg].
  eapply settled_trans; [by split|].
  eapply settled_trans; [by apply settled_host|]. by apply IH, cache_ok_host.
Qed.

Lemma read_settled tid s a n req :
  cache_ok s -> settled s (read_guest_memory_with_permissions tid s a n req).2.
Proof.
  intros H. unfold read_guest_memory_with_permissions.
  destruct (negb (GuestAddressRangeIsValid32 _ _)); [by apply settled_refl|].
  pose proof (range_check_settled tid req (chunks a n) s H) as Hr.
  destruct (range_check _ _ _ _) as [ok s1]. destruct (negb ok); [done|].
  eapply settled_trans; [done|]. apply read_loop_settled, Hr.
Qed.

Lemma write_settled tid s a bs req :
  cache_ok s -> settled s (write_guest_memory_with_permissions tid s a bs req).2.
Proof.
  intros H. unfold write_guest_memory_with_permissions.
  destruct (negb (GuestAddressRangeIsValid32 _ _)); [by apply settled_refl|].
  pose proof (range_check_settled tid req (chunks a (Z.of_nat (length bs))) s H) as Hr.
  destruct (range_check _ _ _ _) as [ok s1]. destruct (negb ok); [done|].
  eapply settled_trans; [done|]. apply write_loop_settled, Hr.
Qed.

Lemma check_settled tid s a n req :
  cache_ok s -> settled s (guest_memory_range_has_permissions tid s a n req).2.
Proof.
  intros H. unfold guest_memory_range_has_permissions.
  destruct (negb _); [by apply settled_refl|by apply range_check_settled].
Qed.

Lemma raw_loop_settled s a e vs src : cache_ok s -> settled s (mem_write_loop s a e vs src).2.
Proof.
  revert s src. induction vs as [|v vs IH]; intros s src H; cbn [mem_write_loop]; [by apply settled_refl|].
  destruct (raw_chunk a e v) as [f l]. destruct (_ =? 0); [by apply settled_refl|].
  eapply settled_trans; [by apply settled_host|]. by apply IH, cache_ok_host.
Qed.

Lemma raw_write_settled s a n src : cache_ok s -> settled s (Dynarmic_mem_1write s a n src).2.
Proof.
  intros H. unfold Dynarmic_mem_1write. destruct (n =? 0); [by apply settled_refl|].
  destruct src; [|by apply settled_refl]. destruct (negb _); [by apply settled_refl|by apply raw_loop_settled].
Qed.

(** ** The logic *)

Section logic.
Context (h : kernel) (ok : host_request -> Prop).

Definition event_ok (e : host_event) : Prop := match e with Asked r => ok r | _ => True end.

Definition runs {A} (m : sys A) (Q : A -> Prop) : Prop := forall w,
  cache_ok (guest w) ->
  Q (m w).1 /\ settled (guest w) (guest (m w).2) /\
  exists evs, journal (m w).2 = evs ++ journal w /\ Forall event_ok evs.

Lemma runs_ret {A} (a : A) (Q : A -> Prop) : Q a -> runs (mret a) Q.
Proof. intros H w Hw. split_and!; [done|by apply settled_refl|by exists []]. Qed.

Lemma runs_bind {A B} (m : sys A) (k : A -> sys B) (P : A -> Prop) (Q : B -> Prop) :
  runs m P -> (forall a, P a -> runs (k a) Q) -> runs (m ≫= k) Q.
Proof.
  intros Hm Hk w Hw. destruct (Hm w Hw) as (HP & Hs & e1 & E1 & H1).
  unfold mbind, sys_bind. destruct (m w) as [a w1]. cbn [fst snd] in *.
  destruct (Hk a HP w1 (proj1 Hs)) as (HQ & Hs2 & e2 & E2 & H2).
  split_and!; [done|by eapply settled_trans|]. exists (e2 ++ e1). rewrite <- app_assoc, <- E1. split; [done|].
  by apply Forall_app.
Qed.

Lemma runs_mono {A} (m : sys A) (P Q : A -> Prop) : runs m P -> (forall a, P a -> Q a) -> runs m Q.
Proof. intros Hm HPQ w Hw. destruct (Hm w Hw) as (? & ? & ?). auto. Qed.

(** A step whose value does not matter. *)
Lemma runs_seq {A B} (m : sys A) (k : A -> sys B) (Q : B -> Prop) :
  runs m (fun _ => True) -> (forall a, runs (k a) Q) -> runs (m ≫= k) Q.
Proof. intros Hm Hk. eapply runs_bind; [done|auto]. Qed.

Lemma runs_gets {A} (f : world -> A) (Q : A -> Prop) : (forall w, Q (f w)) -> runs (gets f) Q.
Proof. intros H w Hw. split_and!; [apply H|by apply settled_refl|by exists []]. Qed.

Lemma runs_update f (Q : unit -> Prop) :
  (forall w, guest (f w) = guest w) -> (forall w, journal (f w) = journal w) -> Q tt -> runs (update f) Q.
Proof.
  intros Hg Hj HQ w Hw. cbn. rewrite Hg, Hj. split_and!; [done|by apply settled_refl|by exists []].
Qed.

Lemma runs_ask r (Q : host_answer -> Prop) : ok r -> (forall a, Q a) -> runs (ask h r) Q.
Proof.
  intros Hr HQ w Hw. cbn. split_and!; [done|by apply settled_refl|].
  exists [Asked r]. split; [done|]. by repeat constructor.
Qed.

Lemma runs_direct v c : runs (return_with_carry_direct v c) (fun _ => True).
Proof. apply runs_seq; [by apply runs_update|]. intros _. by apply runs_ret. Qed.

Lemma runs_syscall nr args : ok (Syscall nr args) -> runs (syscallRetCarry h nr args) (fun _ => True).
Proof.
  intros H. apply runs_seq; [by apply runs_ask|]. intros a.
  apply runs_seq; [apply runs_direct|]. intros r. by apply runs_ret.
Qed.

Lemma runs_value nr args : ok (Syscall nr args) -> runs (syscall_value h nr args) (fun _ => True).
Proof. intros H. apply runs_seq; [by apply runs_syscall|]. intros r. by apply runs_ret. Qed.

Lemma runs_aware {A} (m : sys A) x :
  runs m (fun _ => True) -> runs (debugger_aware_host_wait h m x) (fun _ => True).
Proof.
  intros H. apply runs_seq; [by apply runs_gets|]. intros []; [by apply runs_ret|done].
Qed.

Lemma runs_wait {A} (f : Z -> A) (m : sys A) :
  runs m (fun _ => True) -> runs (host_wait h f m) (fun _ => True).
Proof. intros H. apply runs_seq; [apply runs_direct|]. intros e. by apply runs_aware. Qed.

Lemma runs_log e : event_ok e -> runs (update (log e)) (fun _ => True).
Proof.
  intros He w Hw. cbn. split_and!; [done|by apply settled_refl|].
  exists [e]. split; [done|]. by repeat constructor.
Qed.

Lemma runs_blocking {A} b (m : sys A) (Q : A -> Prop) : runs m Q -> runs (blocking h b m) Q.
Proof.
  intros H. apply runs_seq; [destruct (_ && _); [by apply runs_log|by apply runs_ret]|]. intros _.
  eapply runs_bind; [done|]. intros r Hr.
  apply runs_seq; [destruct (_ && _); [by apply runs_log|by apply runs_ret]|]. intros _. by apply runs_ret.
Qed.

(** An operation on guest memory. *)
Lemma runs_memory {A} (f : vm -> A * vm) :
  (forall s, cache_ok s -> settled s (f s).2) ->
  runs (fun w => let '(r, s) := f (guest w) in (r, set_guest s w)) (fun _ => True).
Proof.
  intros H w Hw. specialize (H (guest w) Hw). destruct (f (guest w)) as [r s].
  split_and!; [done|done|by exists []].
Qed.

Lemma runs_read a n p : runs (read_guest h a n p) (fun _ => True).
Proof. apply (runs_memory (fun s => read_guest_memory_with_permissions _ s a n p)). intros. by apply read_settled. Qed.

Lemma runs_write a bs p : runs (write_guest h a bs p) (fun _ => True).
Proof. apply (runs_memory (fun s => write_guest_memory_with_permissions _ s a bs p)). intros. by apply write_settled. Qed.

Lemma runs_check a n p : runs (check_guest h a n p) (fun _ => True).
Proof. apply (runs_memory (fun s => guest_memory_range_has_permissions _ s a n p)). intros. by apply check_settled. Qed.

Lemma runs_raw_read a n : runs (raw_read a n) (fun _ => True).
Proof. by apply runs_gets. Qed.

Lemma runs_raw_write a bs : runs (raw_write a bs) (fun _ => True).
Proof. apply (runs_memory (fun s => Dynarmic_mem_1write s a (blen bs) (Some bs))). intros. by apply raw_write_settled. Qed.

Lemma runs_copy_cstring fuel a copied : runs (copy_cstring h fuel a copied) (fun _ => True).
Proof.
  revert copied. induction fuel as [|fuel IH]; intros copied; cbn [copy_cstring].
  { destruct (negb _); by apply runs_ret. }
  destruct (negb _); [by apply runs_ret|]. destruct (_ <? _); [by apply runs_ret|].
  apply runs_seq; [apply runs_read|]. intros [chunk|]; [|by apply runs_ret].
  destruct (find_zero chunk); [by apply runs_ret|apply IH].
Qed.

Lemma runs_cstring a : runs (LC32CopyGuestCString h a) (fun _ => True).
Proof. unfold LC32CopyGuestCString. destruct (_ =? 0); [by apply runs_ret|apply runs_copy_cstring]. Qed.

(** ** Paths *)

(** What the translation of a guest path returns. *)
Definition translated (p : list Z) : Prop :=
  exists cwd path, pathGuestToHost (host_fs h) cwd path = Done p.

Definition inr_and {A} (P : A -> Prop) (r : Z + A) : Prop := match r with inl _ => True | inr a => P a end.

Lemma runs_to_host p : runs (to_host h p) (inr_and translated).
Proof.
  apply runs_gets. intros w. unfold path_result.
  destruct (pathGuestToHost _ _ _) eqn:E; try done. by eexists _, _.
Qed.

Lemma runs_guest_path a : runs (LC32GuestPathToHost h a) (inr_and translated).
Proof.
  apply runs_seq; [apply runs_cstring|]. intros [e|p]; [by apply runs_ret|].
  case_bool_decide; [by apply runs_ret|apply runs_to_host].
Qed.

Lemma runs_or_fail {A} (r : Z + A) (k : A -> sys Z) (P : A -> Prop) :
  inr_and P r -> (forall a, P a -> runs (k a) (fun _ => True)) -> runs (or_fail r k) (fun _ => True).
Proof. intros Hr Hk. destruct r as [e|a]; [apply runs_direct|by apply Hk]. Qed.

Lemma runs_host_path a k :
  (forall p, translated p -> runs (k p) (fun _ => True)) -> runs (with_host_path h a k) (fun _ => True).
Proof. intros Hk. eapply runs_bind; [apply runs_guest_path|]. intros r Hr. by eapply runs_or_fail. Qed.

Lemma runs_name a k :
  (forall p, runs (k p) (fun _ => True)) -> runs (with_name h a k) (fun _ => True).
Proof.
  intros Hk. apply runs_seq; [apply runs_cstring|]. intros r.
  apply (runs_or_fail _ _ (fun _ => True)); [by destruct r|auto].
Qed.

Lemma runs_wait_syscall nr args :
  ok (Syscall nr args) -> runs (wait_syscall h nr args) (fun _ => True).
Proof. intros H. by apply runs_wait, runs_syscall. Qed.
End logic.
