(* ===== verification/Mediation.v ===== *)
(** Every path a system call hands to the host lies in a mount.

    [request_ok] says what the host may be asked for: no call of the list that is
    denied; a path only below the host directory of a mount, or /dev/null for the
    emulated AES device; a symbolic link only to such a path or to a relative target
    that stays in the link's mount; a Unix-domain address only with such a path. *)

From stdpp Require Import base gmap list strings.
From Stdlib Require Import ZArith Lia.
From S2P Require Import Prelude GuestMemory GuestRawMemory Bytes GuestPaths GuestPathsProps Syscalls.
From S2P Require Import FileCalls ScatterCalls DescriptorCalls SocketCalls Dispatcher SyscallLogic.

Open Scope list_scope.
Open Scope Z_scope.

(** ** What is allowed *)

Definition confined (fs : LC32Filesystem) (p : list Z) : Prop :=
  exists guest dir rest, p = dir ++ rest /\ below rest /\
    lies_below (mountpoints fs) guest dir rest /\ [dot; dot] ∉ parts rest.

Definition string_args (args : list host_arg) : list (list Z) :=
  omap (fun a => match a with CString s => Some s | _ => None end) args.

(** Calls whose strings are names of shared memory or attributes, and calls whose
    first string is a path and the second the name of an attribute. *)
Definition name_calls : list Z := [SYS_shm_open; SYS_shm_unlink; SYS_fgetxattr; SYS_fsetxattr; SYS_fremovexattr].
Definition path_name_calls : list Z := [SYS_getxattr; SYS_setxattr; SYS_removexattr].
Definition open_calls : list Z := [5; 398].

(** The strings that the kernel takes as paths. *)
Definition path_arguments (nr : Z) (args : list host_arg) : list (list Z) :=
  if bool_decide (nr ∈ name_calls) then []
  else if bool_decide (nr ∈ path_name_calls) then take 1 (string_args args)
  else if bool_decide (nr = SYS_symlink) then drop 1 (string_args args)
  else string_args args.

(** Where a call has a socket address: bind, connect, sendmsg and sendto. *)
Definition address_position (nr : Z) : option nat :=
  if bool_decide (nr ∈ [SYS_bind; SYS_connect; 409; SYS_sendmsg; 402]) then Some 1%nat
  else if bool_decide (nr ∈ [SYS_sendto; 413]) then Some 4%nat
  else None.

Section mediation.
Context (h : kernel).

#[local] Abbreviation safe_path := (confined (host_fs h)).

Definition address_ok (a : host_arg) : Prop :=
  match a with
  | InBuf address =>
      path_offset < blen address -> sa_family address = AF_UNIX -> default 0 (address !! 2%nat) <> 0 ->
      safe_path (drop 2 address)
  | _ => True
  end.

Definition target_ok (args : list host_arg) : Prop :=
  match args with
  | [CString target; CString link] =>
      safe_path target \/
      head target <> Some slash /\
      RelativeSymlinkTargetStaysInMount (hostmpVec h) target link = true
  | _ => False
  end.

Definition request_ok (r : host_request) : Prop :=
  match r with
  | Syscall nr args =>
      (nr ∉ denied_calls) /\
      Forall (fun p => safe_path p \/ nr ∈ open_calls /\ p = null_device) (path_arguments nr args) /\
      (nr = SYS_symlink -> target_ok args) /\
      (forall i a, address_position nr = Some i -> args !! i = Some a -> address_ok a)
  | Stat _ p => safe_path p
  | _ => True
  end.

#[local] Abbreviation safely m := (runs request_ok m (fun _ => True)).

(** ** Rules *)

Lemma translated_confined p : translated h p -> safe_path p.
Proof.
  intros (cwd & input & E). destruct (decide (input = [])) as [-> | Hi]; [done|].
  rewrite guest_to_host_spec in E by done.
  destruct (absolute _ _ _) as [path|e|]; [|done..]. cbn [mbind outcome_bind] in E.
  rewrite normalize_total in E. destruct (bool_decide _); [|done]. destruct (_ <? _); [|done].
  cbn [mbind outcome_bind] in E. destruct (translate_contained (mountpoints (host_fs h)) path) as (dir & rest & Et & H).
  rewrite Et in E. unfold print_path, reject_if in E. destruct (_ <=? _); [done|]. injection E as <-.
  by exists (normal_path path), dir, rest.
Qed.

(** A number without paths of its own: not denied, no link, no address. *)
Definition plain (nr : Z) : bool :=
  bool_decide (nr ∉ denied_calls) && bool_decide (nr <> SYS_symlink) &&
  bool_decide (address_position nr = None).

Lemma plain_ok nr args :
  plain nr = true -> Forall safe_path (path_arguments nr args) -> request_ok (Syscall nr args).
Proof.
  unfold plain. rewrite !andb_true_iff, !bool_decide_eq_true. intros [[Hd Hs] Ha] Hp.
  split_and!; [done| |done|intros i a; by rewrite Ha].
  eapply Forall_impl; [done|]. auto.
Qed.

(** A call without strings. *)
Lemma silent_ok nr args : plain nr = true -> string_args args = [] -> request_ok (Syscall nr args).
Proof.
  intros Hn Hs. apply plain_ok; [done|]. unfold path_arguments. rewrite Hs. repeat case_bool_decide; constructor.
Qed.

Lemma string_args_app a b : string_args (a ++ b) = string_args a ++ string_args b.
Proof. apply omap_app. Qed.

Lemma string_args_bufs (l : list iovec_32) : string_args ((fun v => OutBuf (iov_len v)) <$> l) = [].
Proof. by induction l. Qed.
End mediation.

(** ** Handlers *)

(** What the host is asked for. *)
Ltac request :=
  first
    [ done
    | apply silent_ok; [first [done | vm_compute; done]|done]
    | apply plain_ok; [first [done | vm_compute; done]
                      |repeat constructor; by apply translated_confined]
    | by apply translated_confined ].

(** One rule. *)
Ltac handler_step :=
  lazymatch goal with
  | |- runs _ (mret _) _ => by apply runs_ret
  | |- runs _ (fail _) _ => apply runs_direct
  | |- runs _ (return_with_carry_direct _ _) _ => apply runs_direct
  | |- runs _ (return_with_carry _ _ _) _ => apply runs_direct
  | |- runs _ (with_host_path _ _ _) _ => apply runs_host_path; intros ? ?
  | |- runs _ (with_name _ _ _) _ => apply runs_name; intros ?
  | |- runs _ (syscall_value _ _ _) _ => apply runs_value
  | |- runs _ (syscallRetCarry _ _ _) _ => apply runs_syscall
  | |- runs _ (wait_syscall _ _ _) _ => apply runs_wait_syscall
  | |- runs _ (host_wait _ _ _) _ => apply runs_wait
  | |- runs _ (debugger_aware_host_wait _ _ _) _ => apply runs_aware
  | |- runs _ (blocking _ _ _) _ => apply runs_blocking
  | |- runs _ (read_guest _ _ _ _) _ => apply runs_read
  | |- runs _ (write_guest _ _ _ _) _ => apply runs_write
  | |- runs _ (check_guest _ _ _ _) _ => apply runs_check
  | |- runs _ (raw_read _ _) _ => apply runs_raw_read
  | |- runs _ (raw_write _ _) _ => apply runs_raw_write
  | |- runs _ (ask _ _) _ => apply runs_ask; [|done]
  | |- runs _ (gets _) _ => by apply runs_gets
  | |- runs _ (update _) _ => by apply runs_update
  | |- runs _ (or_fail ?r _) _ => apply (runs_or_fail _ _ _ (fun _ => True)); [by destruct r|intros ? _]
  | |- runs _ (mbind _ _) _ => apply runs_seq; [|intros ?]
  | |- runs _ (if ?b then _ else _) _ => destruct b
  | |- runs _ (match ?x with _ => _ end) _ => destruct x
  | |- request_ok _ _ => request
  end.

Ltac handler := intros; cbv zeta; repeat (handler_step; cbv zeta; try done).

Section handlers.
Context (h : kernel).

#[local] Abbreviation safely m := (runs (request_ok h) m (fun _ => True)).

(** *** darwin_file_syscalls.cpp *)

Lemma link_safe a b : safely (guest_link h a b).
Proof. unfold guest_link. handler. Qed.

Lemma chflags_safe a b : safely (guest_chflags h a b).
Proof. unfold guest_chflags. handler. Qed.

Lemma symlink_safe a b : safely (guest_symlink h a b).
Proof.
  unfold guest_symlink. apply runs_name. intros target. apply runs_host_path. intros link Hlink.
  apply translated_confined in Hlink.
  assert (Hok : forall t, target_ok h [CString t; CString link] ->
                request_ok h (Syscall SYS_symlink [CString t; CString link])).
  { intros t Ht. split_and!; [by apply (bool_decide_eq_true_1 _)|apply Forall_singleton; by left|done|by intros]. }
  case_bool_decide as Hs.
  - eapply runs_bind; [apply runs_to_host|]. intros r Hr. eapply runs_or_fail; [done|]. intros t Ht.
    apply runs_value, Hok. left. by apply translated_confined.
  - destruct (RelativeSymlinkTargetStaysInMount _ _ _) eqn:E; cbn [negb]; [|handler].
    apply runs_value, Hok. by right.
Qed.

Lemma mkfifo_safe a b : safely (guest_mkfifo h a b).
Proof. unfold guest_mkfifo. handler. Qed.

Lemma rmdir_safe a : safely (guest_rmdir h a).
Proof. unfold guest_rmdir. handler. Qed.

Lemma timevals_safe a :
  runs (request_ok h) (PrepareGuestTimevals h a) (inr_and (fun x => string_args [x] = [])).
Proof.
  unfold PrepareGuestTimevals. destruct (_ =? 0); [by apply runs_ret|].
  apply runs_seq; [apply runs_read|]. intros r. apply runs_ret. by destruct r.
Qed.

Lemma utimes_safe a b : safely (guest_utimes h a b).
Proof.
  unfold guest_utimes. apply runs_host_path. intros p Hp. eapply runs_bind; [apply timevals_safe|].
  intros r Hr. eapply runs_or_fail; [done|]. intros x Hx. apply runs_value. destruct x; try done; request.
Qed.

Lemma futimes_safe a b : safely (guest_futimes h a b).
Proof.
  unfold guest_futimes. eapply runs_bind; [apply timevals_safe|].
  intros r Hr. eapply runs_or_fail; [done|]. intros x Hx. apply runs_value. destruct x; try done; request.
Qed.

Lemma lchown_safe a b c : safely (guest_lchown h a b c).
Proof. unfold guest_lchown. handler. Qed.

Lemma pathconf_safe a b : safely (guest_pathconf h a b).
Proof. unfold guest_pathconf. handler. Qed.

Lemma truncate_safe a b : safely (guest_truncate h a b).
Proof. unfold guest_truncate. handler. Qed.

Lemma shm_unlink_safe a : safely (guest_shm_unlink h a).
Proof. unfold guest_shm_unlink. handler. Qed.

Lemma xattr_read_safe a n invoke :
  (forall x k, string_args [x] = [] -> safely (invoke x k)) -> safely (GuestXattrRead h a n invoke).
Proof. intros H. unfold GuestXattrRead. handler. all: apply H; by repeat case_match. Qed.

Lemma xattr_write_safe a n invoke :
  (forall x k, string_args [x] = [] -> safely (invoke x k)) -> safely (GuestXattrWrite h a n invoke).
Proof. intros H. unfold GuestXattrWrite. handler. all: by apply H. Qed.

Lemma getxattr_safe a b c d e f : safely (guest_getxattr h a b c d e f).
Proof.
  unfold guest_getxattr. handler. all: apply xattr_read_safe; intros x k Hx; apply runs_syscall.
  all: destruct x; try done; request.
Qed.

Lemma fgetxattr_safe a b c d e f : safely (guest_fgetxattr h a b c d e f).
Proof.
  unfold guest_fgetxattr. handler. apply xattr_read_safe; intros x k Hx; apply runs_syscall.
  request.
Qed.

Lemma fsetxattr_safe a b c d e f : safely (guest_fsetxattr h a b c d e f).
Proof.
  unfold guest_fsetxattr. handler. apply xattr_write_safe; intros x k Hx; apply runs_value. request.
Qed.

Lemma removexattr_safe a b c : safely (guest_removexattr h a b c).
Proof. unfold guest_removexattr. handler. Qed.

Lemma fremovexattr_safe a b c : safely (guest_fremovexattr h a b c).
Proof. unfold guest_fremovexattr. handler. Qed.

Lemma listxattr_safe a b c d : safely (guest_listxattr h a b c d).
Proof.
  unfold guest_listxattr. handler. apply xattr_read_safe; intros x k Hx; apply runs_syscall.
  destruct x; try done; request.
Qed.

Lemma flistxattr_safe a b c d : safely (guest_flistxattr h a b c d).
Proof.
  unfold guest_flistxattr. apply xattr_read_safe; intros x k Hx; apply runs_syscall.
  destruct x; try done; request.
Qed.

Lemma getgroups_safe a b : safely (guest_getgroups h a b).
Proof. unfold guest_getgroups. handler. Qed.

Lemma getlogin_safe a b : safely (guest_getlogin h a b).
Proof. unfold guest_getlogin. handler. Qed.

Lemma poll_safe nr a b c : plain (host_number h SYS_poll nr) = true -> safely (guest_poll h nr a b c).
Proof. intros Hn. unfold guest_poll. handler. Qed.
End handlers.



Section handlers.
Context (h : kernel).

#[local] Abbreviation safely m := (runs (request_ok h) m (fun _ => True)).

(** *** Data *)

Lemma check_vectors_safe vs n : safely (check_vectors h vs n).
Proof. revert n. induction vs as [|v vs IH]; intros n; cbn [check_vectors]; handler. Qed.

Lemma scatter_safe vs bs n : safely (scatter h vs bs n).
Proof.
  revert bs n. induction vs as [|v vs IH]; intros [|b bs] n; cbn [scatter]; handler.
Qed.

Lemma readv_safe nr a b c : plain (host_number h SYS_readv nr) = true -> safely (guest_readv h nr a b c).
Proof.
  intros Hn. unfold guest_readv. handler; [apply check_vectors_safe| |apply scatter_safe].
  apply silent_ok; [done|]. change (string_args (?x :: ?l)) with (string_args l).
  cbn [string_args omap list_omap]. fold (string_args).
  by rewrite string_args_app, string_args_bufs.
Qed.

Lemma pwrite_safe nr a b c d : plain (host_number h SYS_pwrite nr) = true -> safely (guest_pwrite h nr a b c d).
Proof.
  intros Hn. unfold guest_pwrite. do 4 (handler_step; [handler|]).
  eapply (runs_bind _ _ _ (fun x => forall y, x = Some y -> string_args [y] = [])).
  { destruct (_ =? 0); [apply runs_ret; by intros ? [= <-]|].
    apply runs_seq; [apply runs_read|]. intros r. apply runs_ret. destruct r; [by intros ? [= <-]|done]. }
  intros [x|] Hx; [|handler]. specialize (Hx x eq_refl). handler.
Qed.

Lemma aio_begin_safe a : safely (aio_begin a).
Proof.
  intros w Hw. unfold aio_begin.
  case_match; (split_and!; [done|by apply settled_refl|by exists []]).
Qed.

Lemma aio_complete_safe a e v : safely (aio_complete a e v).
Proof.
  intros w Hw. unfold aio_complete.
  case_match; (split_and!; [done|by apply settled_refl|by exists []]).
Qed.

Lemma aio_checks_safe c : safely (aio_checks h c).
Proof. unfold aio_checks. handler. Qed.

Lemma aio_read_safe a : safely (guest_aio_read h a).
Proof.
  unfold guest_aio_read, aio_pread. handler.
  all: first [apply aio_checks_safe | apply aio_begin_safe | apply aio_complete_safe].
Qed.

Lemma aio_error_safe a : safely (guest_aio_error a).
Proof. unfold guest_aio_error. handler. Qed.

Lemma aio_return_safe a : safely (guest_aio_return a).
Proof. unfold guest_aio_return. handler. Qed.

(** *** Descriptors and names *)

Lemma read_into_safe nr a b c offset :
  plain nr = true -> string_args offset = [] -> safely (read_into h nr a b c offset).
Proof. intros Hn Ho. unfold read_into. handler. Qed.

Lemma read_safe nr a b c : plain nr = true -> safely (guest_read h nr a b c).
Proof. intros. by apply read_into_safe. Qed.

Lemma pread_safe nr a b c d : plain nr = true -> safely (guest_pread h nr a b c d).
Proof. intros. by apply read_into_safe. Qed.

Lemma malloc_read_safe a n : safely (malloc_read h a n).
Proof. intros w Hw. split_and!; [done|by apply settled_refl|by exists []]. Qed.

Lemma write_safe nr a b c : plain nr = true -> safely (guest_write h nr a b c).
Proof. intros Hn. unfold guest_write. handler. apply malloc_read_safe. Qed.

Lemma write_vectors_safe nr a vs n : plain nr = true -> safely (write_vectors h nr a vs n).
Proof.
  intros Hn. revert n. induction vs as [|v vs IH]; intros n; cbn [write_vectors]; handler; by apply write_safe.
Qed.

Lemma writev_safe nr a b c : safely (guest_writev h nr a b c).
Proof.
  unfold guest_writev. handler; [apply malloc_read_safe|]. apply write_vectors_safe. by destruct (_ =? _).
Qed.

Lemma close_safe nr a : plain nr = true -> safely (guest_close h nr a).
Proof. intros Hn. unfold guest_close, update_aes. handler. Qed.

Lemma dup_safe a : safely (guest_dup h a).
Proof. unfold guest_dup, IsGuestAesFileDescriptor, RegisterGuestAesFileDescriptor, update_aes. handler. Qed.

Lemma dup2_safe a b : safely (guest_dup2 h a b).
Proof. unfold guest_dup2, IsGuestAesFileDescriptor, RegisterGuestAesFileDescriptor, update_aes. handler. Qed.

Lemma open_safe nr a b c : nr ∈ open_calls -> safely (guest_open h nr a b c).
Proof.
  intros Hn. unfold guest_open. apply runs_name. intros path.
  eapply (runs_bind _ _ _ (inr_and (translated h))).
  { case_bool_decide; [by apply runs_ret|apply runs_to_host]. }
  intros r Hr. eapply runs_or_fail; [done|]. intros p Hp. apply translated_confined in Hp.
  unfold RegisterGuestAesFileDescriptor, update_aes. handler.
  set (opened := if bool_decide (path = aes_device) then null_device else p).
  assert (Ho : confined (host_fs h) opened \/ opened = null_device)
    by (unfold opened; destruct (bool_decide _); auto).
  clearbody opened. unfold open_calls in Hn. set_unfold in Hn.
  destruct Hn as [-> | [-> | []]]; (split_and!; [by apply (bool_decide_eq_true_1 _)| |done|by intros]);
    (apply Forall_singleton; destruct Ho; [by left|right]; split; [unfold open_calls; set_solver|done]).
Qed.

Lemma chdir_safe a : safely (guest_chdir h a).
Proof. unfold guest_chdir, guest_chdir_with_syscall. handler. Qed.

Lemma fchdir_safe a : safely (guest_fchdir h a).
Proof. unfold guest_fchdir. handler. Qed.

Lemma pthread_chdir_safe a : safely (guest_pthread_chdir h a).
Proof. unfold guest_pthread_chdir, guest_chdir_with_syscall. handler. Qed.

Lemma pthread_fchdir_safe a : safely (guest_pthread_fchdir h a).
Proof. unfold guest_pthread_fchdir. handler. Qed.

Lemma unlink_safe a : safely (guest_unlink h a).
Proof. unfold guest_unlink. handler. Qed.

Lemma chmod_safe a b : safely (guest_chmod h a b).
Proof. unfold guest_chmod. handler. Qed.

Lemma chown_safe a b c : safely (guest_chown h a b c).
Proof. unfold guest_chown. handler. Qed.

Lemma access_safe a b : safely (guest_access h a b).
Proof. unfold guest_access. handler. Qed.

Lemma mkdir_safe a b : safely (guest_mkdir h a b).
Proof. unfold guest_mkdir. handler. Qed.

Lemma rename_safe a b : safely (guest_rename h a b).
Proof. unfold guest_rename. handler. Qed.

Lemma shm_open_safe a b c : safely (guest_shm_open h a b c).
Proof. unfold guest_shm_open. handler. Qed.

Lemma setxattr_safe a b c d e f : safely (guest_setxattr h a b c d e f).
Proof. unfold guest_setxattr. handler. Qed.

Lemma readlink_safe a b c : safely (guest_readlink h a b c).
Proof. unfold guest_readlink. handler. Qed.

Lemma getdirentries_safe a b c d : safely (guest_getdirentries64 h a b c d).
Proof. unfold guest_getdirentries64. handler. Qed.

Lemma stat64_safe a b : safely (guest_stat64 h a b).
Proof. unfold guest_stat64, stat_result. handler. Qed.

Lemma fstat_safe a b : safely (guest_fstat h a b).
Proof. unfold guest_fstat, stat_result. handler. Qed.

Lemma lstat_safe a b : safely (guest_lstat h a b).
Proof. unfold guest_lstat, stat_result. handler. Qed.

Lemma statfs64_safe a b : safely (guest_statfs64 h a b).
Proof. unfold guest_statfs64, statfs_result. handler. Qed.

Lemma fstatfs64_safe a b : safely (guest_fstatfs64 h a b).
Proof. unfold guest_fstatfs64, statfs_result. handler. Qed.

Lemma gettimeofday_safe a b : safely (guest_gettimeofday h a b).
Proof. unfold guest_gettimeofday. handler. Qed.
End handlers.



(** A number of a call with an address at a position. *)
Definition addressed (nr : Z) (i : nat) : bool :=
  bool_decide (nr ∉ denied_calls) && bool_decide (nr <> SYS_symlink) &&
  bool_decide (address_position nr = Some i).

Section handlers.
Context (h : kernel).

#[local] Abbreviation safely m := (runs (request_ok h) m (fun _ => True)).

Lemma addressed_ok nr i a args :
  addressed nr i = true -> string_args args = [] -> args !! i = Some a -> address_ok h a ->
  request_ok h (Syscall nr args).
Proof.
  unfold addressed. rewrite !andb_true_iff, !bool_decide_eq_true. intros [[Hd Hs] Hi] Hargs Ha Hok.
  split_and!; [done| |done|].
  - unfold path_arguments. rewrite Hargs. repeat case_bool_decide; constructor.
  - rewrite Hi. intros j b [= <-]. rewrite Ha. by intros [= <-].
Qed.

Lemma host_sockaddr_ok address :
  runs (request_ok h) (host_sockaddr h address) (inr_and (fun a => address_ok h (InBuf a))).
Proof.
  unfold host_sockaddr. destruct (_ && _) eqn:E.
  - eapply runs_bind; [apply runs_to_host|]. intros r Hr. apply runs_ret.
    destruct r as [e|p]; [done|]. clear E. destruct (_ <? _); [done|]. intros _ _ _. by apply translated_confined.
  - apply runs_ret. cbn. intros H1 H2 H3. exfalso. revert E.
    rewrite (proj2 (Z.ltb_lt _ _) H1), (proj2 (Z.eqb_eq _ _) H2), (proj2 (Z.eqb_neq _ _) H3). done.
Qed.

Lemma bind_safe a b c : safely (guest_bind h a b c).
Proof.
  unfold guest_bind. destruct (_ =? 0); [handler|]. destruct (sockaddr_length_error c); [handler|].
  apply runs_seq; [handler|]. intros [address|]; [|handler].
  eapply runs_bind; [apply host_sockaddr_ok|]. intros r Hr.
  eapply runs_or_fail; [done|]. intros host_address Ha. apply runs_value. by eapply (addressed_ok _ 1).
Qed.

Lemma connect_safe nr a b c :
  addressed (host_number h SYS_connect nr) 1 = true -> safely (guest_connect h nr a b c).
Proof.
  intros Hn. unfold guest_connect. destruct (sockaddr_length_error c); [handler|].
  apply runs_seq; [handler|]. intros [address|]; [|handler].
  eapply runs_bind; [apply host_sockaddr_ok|]. intros r Hr.
  eapply runs_or_fail; [done|]. intros host_address Ha. handler. by eapply addressed_ok.
Qed.

Lemma read_destination_ok read a n :
  runs (request_ok h) read (fun _ => True) ->
  runs (request_ok h) (read_destination h read a n)
    (inr_and (fun x => address_ok h x.1 /\ string_args [x.1] = [])).
Proof.
  intros Hread. unfold read_destination. destruct (_ =? 0); [by apply runs_ret|].
  destruct (sockaddr_length_error n); [by apply runs_ret|].
  apply runs_seq; [done|]. intros [address|]; [|by apply runs_ret].
  eapply runs_bind; [apply host_sockaddr_ok|]. intros r Hr. apply runs_ret. by destruct r.
Qed.

(** A buffer read from the guest is no string. *)
Lemma payload_ok (m : sys (option host_arg)) :
  runs (request_ok h) m (fun x => forall y, x = Some y -> string_args [y] = []) ->
  forall (k : option host_arg -> sys Z),
  (forall y, string_args [y] = [] -> safely (k (Some y))) -> safely (k None) -> safely (m ≫= k).
Proof. intros Hm k Hk Hnone. eapply runs_bind; [done|]. intros [y|] Hy; auto. Qed.

Lemma sendto_safe nr a b c d e f :
  addressed (host_number h SYS_sendto nr) 4 = true -> safely (guest_sendto h nr a b c d e f).
Proof.
  intros Hn. unfold guest_sendto. do 2 (handler_step; [handler|]). apply payload_ok; [| |handler].
  { destruct (_ =? 0); [apply runs_ret; by intros ? [= <-]|].
    destruct (_ =? 0); [by apply runs_ret|].
    apply runs_seq; [apply runs_raw_read|]. intros r. apply runs_ret. destruct r; [by intros ? [= <-]|done]. }
  intros y Hy. eapply runs_bind; [apply read_destination_ok, runs_raw_read|]. intros r Hr.
  eapply runs_or_fail; [done|]. intros [dest n] [Hd Hs]. handler.
  eapply addressed_ok; [done| |done|done]. by destruct y, dest.
Qed.

Lemma read_payloads_ok vs n :
  runs (request_ok h) (read_payloads h vs n) (inr_and (fun l => string_args l = [])).
Proof.
  revert n. induction vs as [|v vs IH]; intros n; cbn [read_payloads]; [by apply runs_ret|].
  destruct (_ <? _); [by apply runs_ret|]. destruct (negb _); [by apply runs_ret|].
  eapply (runs_bind _ _ _ (fun x => forall y, x = Some y -> string_args [y] = [])).
  { destruct (_ =? 0); [apply runs_ret; by intros ? [= <-]|].
    destruct (_ =? 0); [by apply runs_ret|].
    apply runs_seq; [apply runs_read|]. intros r. apply runs_ret. destruct r; [by intros ? [= <-]|done]. }
  intros [y|] Hy; [|by apply runs_ret]. specialize (Hy y eq_refl).
  eapply runs_bind; [apply IH|]. intros [e|l] Hl; apply runs_ret; [done|]. by destruct y.
Qed.

Lemma read_control_ok a n :
  runs (request_ok h) (read_control h a n) (inr_and (fun x => string_args [x] = [])).
Proof.
  unfold read_control. destruct (_ =? 0); [by apply runs_ret|]. destruct (_ <? _); [by apply runs_ret|].
  destruct (_ <? _); [by apply runs_ret|]. destruct (negb _); [by apply runs_ret|].
  apply runs_seq; [apply runs_read|]. intros r. apply runs_ret. by destruct r.
Qed.

Lemma sendmsg_safe nr a b c :
  addressed (host_number h SYS_sendmsg nr) 1 = true -> safely (guest_sendmsg h nr a b c).
Proof.
  intros Hn. unfold guest_sendmsg. apply runs_seq; [handler|]. intros [message|]; [|handler].
  cbv zeta. do 2 (handler_step; [handler|]). apply runs_seq; [handler|]. intros [bs|]; [|handler].
  eapply runs_bind; [apply read_payloads_ok|]. intros r Hr. eapply runs_or_fail; [done|]. intros l Hl.
  eapply runs_bind; [apply read_destination_ok, runs_read|]. intros d Hd.
  eapply runs_or_fail; [done|]. intros [name n] [Hname Hs].
  eapply runs_bind; [apply read_control_ok|]. intros x Hx. eapply runs_or_fail; [done|]. intros control Hc.
  handler. eapply addressed_ok; [done| |done|done]. rewrite !string_args_app, Hl. by destruct name, control.
Qed.

Lemma setsockopt_safe a b c d e : safely (guest_setsockopt h a b c d e).
Proof.
  unfold guest_setsockopt. do 2 (handler_step; [handler|]). apply runs_seq; [handler|]. intros v. handler_step.
  destruct (_ && _); [handler|]. destruct (_ =? _); handler.
Qed.

Lemma getsockopt_safe a b c d e : safely (guest_getsockopt h a b c d e).
Proof.
  unfold guest_getsockopt. apply runs_seq; [handler|]. intros [n|]; [|handler]. cbv zeta.
  apply runs_seq; [|handler]. apply runs_syscall, silent_ok; [done|]. by repeat case_match.
Qed.

Lemma copy_out_address_safe a b c d e : safely (CopyOutGuestSocketAddress h a b c d e).
Proof. unfold CopyOutGuestSocketAddress. handler. Qed.

Lemma address_length_safe a : safely (ReadGuestSocketAddressLength h a).
Proof. unfold ReadGuestSocketAddressLength. handler. Qed.

Lemma socket_name_safe nr a b c : plain nr = true -> safely (GuestSocketName h nr a b c).
Proof.
  intros Hn. unfold GuestSocketName. handler; [apply address_length_safe|apply copy_out_address_safe].
Qed.

Lemma accept_safe nr a b c : plain (host_number h SYS_accept nr) = true -> safely (guest_accept h nr a b c).
Proof.
  intros Hn. unfold guest_accept, accept_yields. handler.
  all: first [apply address_length_safe | apply copy_out_address_safe | idtac].
  all: apply silent_ok; [done|]. all: by case_match.
Qed.

Lemma recvfrom_safe nr a b c d e f : plain nr = true -> safely (guest_recvfrom h nr a b c d e f).
Proof.
  intros Hn. unfold guest_recvfrom, receive_yielding, can_probe, receive. handler.
  all: apply silent_ok; [done|]. all: by repeat case_match.
Qed.

Lemma socketpair_safe a b c d : safely (guest_socketpair h a b c d).
Proof. unfold guest_socketpair. handler. Qed.
End handlers.
