(* ===== verification/SymlinkProps.v ===== *)
(** Strings a guest hands over: which relative targets a symbolic link may have,
    and how a C string is copied.

    The reference for links walks the components of the target from the link's
    directory, as a stack of names below the root of the link's mount; [..] at that
    root leaves the mount.  The reference for strings reads byte by byte. *)

From stdpp Require Import base sets list gmap.
From Stdlib Require Import ZArith Lia.
From S2P Require Import Prelude GuestMemory Bytes GuestPaths GuestPathsProps Syscalls FileCalls.

Open Scope list_scope.
Open Scope Z_scope.

(** ** The reference *)

Fixpoint walk (stack cs : list (list Z)) : option (list (list Z)) :=
  match cs with
  | [] => Some stack
  | c :: cs =>
      if is_dot c then walk stack cs
      else if is_dotdot c then match stack with [] => None | _ :: t => walk t cs end
      else walk (c :: stack) cs
  end.

(** [..] only in front of every name: what a name leads to may be a link. *)
Definition dots_lead (cs : list (list Z)) : Prop :=
  forall pre post, cs = pre ++ [dot; dot] :: post -> Forall (fun c => c = [dot] \/ c = [dot; dot]) pre.

(** A path in a directory; every path with a first slash is in the root. *)
Definition within (path root : list Z) : Prop :=
  if decide (root = [slash]) then head path = Some slash
  else exists rest, path = root ++ rest /\ below rest.

(** ** Components *)

Lemma next_part s c rest :
  component (skip_slashes s) = (c, rest) ->
  parts s = (if bool_decide (c = []) then [] else [c]) ++ parts rest /\
  (s <> [] -> (length rest < length s)%nat) /\ Forall (fun b => b <> slash) c /\ (c = [] -> rest = []).
Proof.
  intros E. destruct (skip_slashes_spec s) as (k & Ek & Hh).
  pose proof (component_spec (skip_slashes s)) as H. rewrite E in H. destruct H as (Es & Hc & Hr).
  rewrite Es in Ek, Hh. 
  assert (Hnil : c = [] -> rest = []).
  { intros ->. destruct Hr as [-> | [r ->]]; [done|]. by cbn in Hh. }
  split_and!; [| |done|done].
  - rewrite Ek, parts_replicate. case_bool_decide as Hn; [by subst c|]. destruct Hr as [-> | [r ->]].
    + by rewrite !app_nil_r, parts_plain.
    + by rewrite parts_slash, parts_app, parts_plain.
  - intros Hs. rewrite Ek, !length_app, length_replicate. destruct c as [|b c]; [|cbn [length]; lia].
    rewrite (Hnil eq_refl) in *. cbn [length app] in *. destruct k; [done|lia].
Qed.

Lemma count_depth_parts fuel s d :
  (length s <= fuel)%nat -> count_depth fuel s d = d + Z.of_nat (length (parts s)).
Proof.
  revert s d. induction fuel as [|fuel IH]; intros s d Hf.
  { destruct s; [|cbn in Hf; lia]. change (d = d + 0). lia. }
  destruct (component (skip_slashes s)) as [c rest] eqn:E.
  destruct (next_part s c rest E) as (Hp & Hl & _ & Hnil).
  pose proof (component_spec (skip_slashes s)) as H. rewrite E in H. destruct H as (Es & _).
  cbn [count_depth]. destruct (skip_slashes s) as [|b t] eqn:Esk.
  - assert (c = [] /\ rest = []) as [-> ->] by (by destruct c, rest). rewrite Hp. change (d = d + 0). lia.
  - rewrite E. cbn [snd]. rewrite IH.
    + rewrite Hp. case_bool_decide as Hc; [|rewrite length_app; cbn [length]; lia]. subst c. by rewrite (Hnil eq_refl) in Es.
    + destruct s; [done|]. specialize (Hl ltac:(done)). cbn in *. lia.
Qed.

Lemma dots_lead_cons c cs :
  dots_lead (c :: cs) <->
  (if is_dot c || is_dotdot c then dots_lead cs else [dot; dot] ∉ cs).
Proof.
  unfold dots_lead, is_dot, is_dotdot.
  destruct (bool_decide (c = [dot]) || bool_decide (c = [dot; dot])) eqn:Hb.
  - rewrite orb_true_iff, !bool_decide_eq_true in Hb. split.
    + intros H pre post ->. specialize (H (c :: pre) post eq_refl). by inversion H.
    + intros H [|x pre] post E; [constructor|]. injection E as -> ->. constructor; [done|by eapply H].
  - rewrite orb_false_iff, !bool_decide_eq_false in Hb. destruct Hb as [Hd Hdd]. split.
    + intros H (pre & post & ->)%list_elem_of_split. specialize (H (c :: pre) post eq_refl).
      inversion H as [|? ? [? | ?]]; done.
    + intros H [|x pre] post E; [constructor|]. injection E as -> ->.
      exfalso. apply H, elem_of_app. right. constructor.
Qed.

Lemma no_dots_walk stack cs : [dot; dot] ∉ cs -> is_Some (walk stack cs).
Proof.
  revert stack. induction cs as [|c cs IH]; intros stack H; [by eexists|].
  apply not_elem_of_cons in H as [Hc H]. cbn. destruct (is_dot c); [by apply IH|].
  unfold is_dotdot. rewrite bool_decide_false by done. by apply IH.
Qed.

Lemma walk_target_spec fuel s stack saw :
  (length s <= fuel)%nat ->
  walk_target fuel s (Z.of_nat (length stack)) saw = true <->
  (if saw : bool then [dot; dot] ∉ parts s else dots_lead (parts s)) /\ is_Some (walk stack (parts s)).
Proof.
  revert s stack saw. induction fuel as [|fuel IH]; intros s stack saw Hf.
  { destruct s; [|cbn in Hf; lia]. cbn. split; [|done]. intros _. split; [|by eexists].
    destruct saw; [by apply not_elem_of_nil|]. by intros [|??] ? [=]. }
  destruct s as [|b s'] eqn:Es.
  { cbn. split; [|done]. intros _. split; [|by eexists].
    destruct saw; [by apply not_elem_of_nil|]. by intros [|??] ? [=]. }
  rewrite <- Es in *. assert (Hne : s <> []) by (by rewrite Es).
  destruct (component (skip_slashes s)) as [c rest] eqn:E.
  destruct (next_part s c rest E) as (Hp & Hl & _ & _). specialize (Hl Hne).
  assert (Hstep : walk_target (S fuel) s (Z.of_nat (length stack)) saw =
    (if is_dotdot c then
       if saw || (Z.of_nat (length stack) =? 0) then false
       else walk_target fuel rest (Z.of_nat (length stack) - 1) saw
     else if negb (bool_decide (c = [])) && negb (is_dot c)
          then walk_target fuel rest (Z.of_nat (length stack) + 1) true
          else walk_target fuel rest (Z.of_nat (length stack)) saw)).
  { rewrite Es in E |- *. cbn [walk_target]. by rewrite E. }
  rewrite Hstep, Hp. clear Hstep.
  destruct (is_dotdot c) eqn:Hdd; [|destruct (is_dot c) eqn:Hd; [|destruct (bool_decide (c = [])) eqn:Hz]].
  - assert (c = [dot; dot]) as -> by (by apply bool_decide_eq_true in Hdd).
    rewrite (bool_decide_false ([dot; dot] = [])) by done. cbn [app walk]. rewrite Hdd.
    assert (is_dot [dot; dot] = false) as -> by done.
    destruct saw; cbn [orb]; [split; [done|intros [H _]; exfalso; apply H; constructor]|].
    rewrite dots_lead_cons, Hdd, orb_true_r.
    destruct stack as [|x stack]; [cbn; split; [done|by intros [_ []]]|].
    cbn [length]. destruct (Z.eqb_spec (Z.of_nat (S (length stack))) 0); [lia|].
    replace (Z.of_nat (S (length stack)) - 1) with (Z.of_nat (length stack)) by lia. apply IH. lia.
  - assert (c = [dot]) as -> by (by apply bool_decide_eq_true in Hd). rewrite andb_false_r.
    rewrite (bool_decide_false ([dot] = [])) by done. cbn [app walk]. rewrite Hd, IH by lia.
    destruct saw; [rewrite not_elem_of_cons; naive_solver|]. by rewrite dots_lead_cons, Hd.
  - apply bool_decide_eq_true in Hz as ->. cbn [negb andb app]. apply IH. lia.
  - cbn [negb andb app walk]. rewrite Hd, Hdd.
    replace (Z.of_nat (length stack) + 1) with (Z.of_nat (length (c :: stack))) by (cbn; lia).
    rewrite IH by lia. destruct saw; [|by rewrite dots_lead_cons, Hd, Hdd]. rewrite not_elem_of_cons.
    apply bool_decide_eq_false in Hdd. naive_solver.
Qed.

(** ** The link's mount and directory *)

Lemma within_spec path root : HostPathIsWithin path root = true <-> within path root.
Proof.
  unfold HostPathIsWithin, within. case_bool_decide as Hr; case_decide; try done.
  { apply bool_decide_eq_true. }
  rewrite andb_true_iff, bool_decide_eq_true. split.
  - intros [Hp Hl]. exists (drop (length root) path). rewrite <- Hp at 1. rewrite take_drop. split; [done|].
    destruct (path !! length root) as [c|] eqn:E.
    + right. apply Z.eqb_eq in Hl as ->. exists (drop (S (length root)) path). by apply drop_S.
    + left. apply lookup_ge_None in E. by apply drop_ge.
  - intros (rest & -> & Hb). rewrite take_app_length, lookup_app_r, Nat.sub_diag by lia. split; [done|].
    by destruct Hb as [-> | [r ->]].
Qed.

(** A directory is a prefix of what is in it. *)
Lemma within_prefix path root : within path root -> exists rest, path = root ++ rest.
Proof.
  unfold within. case_decide as H; [|naive_solver]. subst root. destruct path as [|b p]; [done|].
  intros [= ->]. by exists p.
Qed.

(** The longest directory that contains the link; two of one length are equal. *)
Lemma longest_spec mounts link best :
  (forall b, best = Some b -> within link b) ->
  match foldl (longer link) best mounts with
  | Some root =>
      (root ∈ mounts \/ best = Some root) /\ within link root /\
      (forall r, r ∈ mounts \/ best = Some r -> within link r -> blen r <= blen root)
  | None => best = None /\ forall r, r ∈ mounts -> ~ within link r
  end.
Proof.
  revert best. induction mounts as [|m mounts IH]; intros best Hb; cbn [foldl].
  { destruct best as [b|]; [|split; [done|by intros r ?%elem_of_nil]].
    split_and!; [by right|by apply Hb|]. intros r [?%elem_of_nil | [= ->]]; [done|lia]. }
  assert (Hb' : forall b, longer link best m = Some b -> within link b).
  { unfold longer. intros b. destruct (_ && _) eqn:E; [|apply Hb]. intros [= <-].
    apply andb_true_iff in E as [E _]. by apply within_spec. }
  specialize (IH _ Hb').
  assert (Hcase : longer link best m = Some m /\ within link m /\
            (forall b, best = Some b -> blen b < blen m) \/
            longer link best m = best /\ (within link m -> exists b, best = Some b /\ blen m <= blen b)).
  { unfold longer. destruct (HostPathIsWithin link m) eqn:Hw; cbn [andb].
    - apply within_spec in Hw. destruct best as [b|]; [|by left].
      destruct (Z.ltb_spec (blen b) (blen m)); [left|right]; split_and!; try done.
      + by intros ? [= <-].
      + intros _. eauto.
    - right. split; [done|]. intros Hm. apply within_spec in Hm. congruence. }
  destruct (foldl _ _ mounts) as [root|].
  - destruct IH as (Hin & Hw & Hmax). destruct Hcase as [(E & Hm & Hlt)|[E Hm]]; rewrite E in *.
    + split_and!; [set_solver|done|]. intros r [[-> | Hr]%elem_of_cons | Hr] Hwr; [by apply Hmax; auto..|].
      specialize (Hlt r Hr). specialize (Hmax m (or_intror eq_refl) Hm). lia.
    + split_and!; [set_solver|done|]. intros r [[-> | Hr]%elem_of_cons | Hr] Hwr; [|by apply Hmax; auto..].
      destruct (Hm Hwr) as (b & -> & Hle). specialize (Hmax b (or_intror eq_refl) (Hb b eq_refl)). lia.
  - destruct IH as [E' Hn]. destruct Hcase as [(E & _)|[E Hm]]; rewrite E in E'; [done|].
    split; [done|]. intros r [-> | Hr]%elem_of_cons; [|by apply Hn].
    intros Hw. destruct (Hm Hw) as (b & ? & _). congruence.
Qed.

Lemma within_unique path a b : within path a -> within path b -> blen a = blen b -> a = b.
Proof.
  intros Ha Hb E. destruct (within_prefix _ _ Ha) as [x ->], (within_prefix _ _ Hb) as [y Ey].
  apply app_inj_1 in Ey as [-> _]; [done|]. unfold blen in *. lia.
Qed.

(** What is in front of the last slash, or the root. *)
Definition is_parent (link parent : list Z) : Prop :=
  exists pre name, link = pre ++ slash :: name /\ Forall (fun b => b <> slash) name /\
    parent = if decide (pre = []) then [slash] else pre.

Lemma parent_of_spec link parent : parent_of link = Some parent <-> is_parent link parent.
Proof.
  unfold parent_of, is_parent. pose proof (component_spec (rev link)) as H.
  destruct (component (rev link)) as [c rest]. destruct H as (E & Hc & Hr).
  apply (f_equal (@rev Z)) in E. rewrite rev_involutive, rev_app_distr in E. subst link.
  destruct Hr as [-> | [r ->]].
  - split; [done|]. intros (pre & name & E & _). exfalso. rewrite app_nil_l in E.
    apply Forall_rev in Hc. rewrite E, Forall_app, Forall_cons in Hc. naive_solver.
  - cbn [rev]. rewrite <- app_assoc. cbn [app].
    assert (Hu : forall pre name, rev r ++ slash :: rev c = pre ++ slash :: name ->
              Forall (fun b => b <> slash) name -> pre = rev r).
    { intros pre name E Hn. apply (f_equal (@rev Z)) in E. rewrite !rev_app_distr in E. cbn [rev] in E.
      rewrite !rev_involutive, <- !app_assoc in E. cbn [app] in E.
      pose proof (f_equal component E) as Ec. clear E.
      assert (Hcomp : forall l t, Forall (fun b => b <> slash) l -> component (l ++ slash :: t) = (l, slash :: t)).
      { clear. induction 1 as [|b l Hb _ IH]; [done|]. cbn. rewrite IH. by rewrite (proj2 (Z.eqb_neq _ _) Hb). }
      rewrite !Hcomp in Ec by (done || by apply Forall_rev). injection Ec as _ ->. by rewrite rev_involutive. }
    split.
    + intros Hp. exists (rev r), (rev c). split_and!; [done|by apply Forall_rev|].
      destruct r as [|x r]; [by injection Hp as <-|]. injection Hp as <-. rewrite decide_False; [done|].
      cbn. by destruct (rev r).
    + intros (pre & name & E & Hn & ->). rewrite (Hu pre name E Hn).
      destruct r as [|x r]; [done|]. rewrite decide_False; [done|]. cbn. by destruct (rev r).
Qed.

(** C25: a relative symbolic link stays in its mount.  The check accepts a target
    exactly if the link lies in a mounted host directory, its own directory lies in
    the longest such one, no [..] of the target follows a name, and walking the
    target's components from the link's directory never leaves that root. *)
Theorem symlink_target_exact mounts target link :
  RelativeSymlinkTargetStaysInMount mounts target link = true <->
  exists root parent rest,
    root ∈ mounts /\ within link root /\ (forall r, r ∈ mounts -> within link r -> blen r <= blen root) /\
    is_parent link parent /\ within parent root /\ parent = root ++ rest /\
    dots_lead (parts target) /\ is_Some (walk (rev (parts rest)) (parts target)).
Proof.
  unfold RelativeSymlinkTargetStaysInMount.
  pose proof (longest_spec mounts link None ltac:(done)) as Hm.
  destruct (foldl _ _ mounts) as [root|].
  2: { destruct Hm as [_ Hm]. split; [done|]. intros (root & ? & ? & Hin & Hw & _). by destruct (Hm root Hin). }
  destruct Hm as ([Hin|?] & Hw & Hmax); [|done]. cbv zeta.
  assert (Hwalk : forall parent rest, parent = root ++ rest ->
    walk_target (length target) target
      (count_depth (length (drop (length root) parent)) (drop (length root) parent) 0) false = true <->
    dots_lead (parts target) /\ is_Some (walk (rev (parts rest)) (parts target))).
  { intros parent rest ->. rewrite drop_app_length, count_depth_parts by lia.
    rewrite Z.add_0_l, <- (length_rev (parts rest)). apply (walk_target_spec _ _ _ false). lia. }
  assert (Huniq : forall r, r ∈ mounts -> within link r ->
    (forall r', r' ∈ mounts -> within link r' -> blen r' <= blen r) -> r = root).
  { intros r Hr Hwr Hmr. apply (within_unique link); [done..|].
    pose proof (Hmax r (or_introl Hr) Hwr). pose proof (Hmr root Hin Hw). lia. }
  setoid_rewrite <- parent_of_spec. destruct (parent_of link) as [parent|]; [|naive_solver].
  destruct (HostPathIsWithin parent root) eqn:Hp; cbn [negb].
  - apply within_spec in Hp. destruct (within_prefix _ _ Hp) as [rest Hrest].
    rewrite (Hwalk parent rest Hrest). split.
    + intros [? ?]. exists root, parent, rest. split_and!; try done. intros r Hr. by apply Hmax; auto.
    + intros (root' & parent' & rest' & Hin' & Hw' & Hmax' & [= <-] & Hp' & Hrest' & Hd & Hk).
      assert (root' = root) as ->; [by apply Huniq|by simplify_list_eq].
  - split; [done|]. intros (root' & parent' & rest' & Hin' & Hw' & Hmax' & [= <-] & Hp' & _).
    assert (root' = root) as -> by (by apply Huniq). apply within_spec in Hp'. congruence.
Qed.



(** ** C strings *)

Definition prepend (bs : list Z) (r : Z + list Z) : Z + list Z :=
  match r with inl e => inl e | inr t => inr (bs ++ t) end.

(** At most [n] bytes, the terminator included. *)
Fixpoint guest_cstring (s : vm) (n : nat) (a : Z) : Z + list Z :=
  match n with
  | O => inl ENAMETOOLONG
  | S n =>
      if UINT32_MAX <? a then inl EFAULT
      else match guest_byte s PROT_READ a with
      | None => inl EFAULT
      | Some b => if b =? 0 then inr [] else prepend [b] (guest_cstring s n (a + 1))
      end
  end.

(** ** A chunk *)

Lemma prepend_app a b r : prepend a (prepend b r) = prepend (a ++ b) r.
Proof. destruct r; [done|]. cbn. by rewrite app_assoc. Qed.

Lemma guest_cstring_chunk s n bytes a :
  a + blen bytes <= UINT32_MAX + 1 ->
  mapM (guest_byte s PROT_READ) (seqZ a (blen bytes)) = Some bytes ->
  guest_cstring s (length bytes + n) a =
  match find_zero bytes with
  | Some z => inr (take (Z.to_nat z) bytes)
  | None => prepend bytes (guest_cstring s n (a + blen bytes))
  end.
Proof.
  revert a. induction bytes as [|b bytes IH]; intros a Ha Hm.
  { cbn [find_zero length Nat.add]. change (blen []) with 0. rewrite Z.add_0_r. by destruct (guest_cstring s n a). }
  assert (Hl : blen (b :: bytes) = 1 + blen bytes) by (unfold blen; cbn [length]; lia).
  rewrite Hl in *. pose proof (blen_nonneg bytes).
  rewrite seqZ_cons in Hm by lia. cbn [mapM] in Hm.
  replace (Z.pred (1 + blen bytes)) with (blen bytes) in Hm by lia.
  apply bind_Some in Hm as (b' & Hb & Hm). apply bind_Some in Hm as (bs & Hbs & E). injection E as -> ->.
  replace (Z.succ a) with (a + 1) in Hbs by lia.
  cbn [length Nat.add guest_cstring find_zero]. rewrite (proj2 (Z.ltb_ge _ _)) by lia. rewrite Hb.
  destruct (Z.eqb_spec b 0); [done|]. rewrite (IH (a + 1)) by (done || lia).
  destruct (find_zero bytes) as [z|] eqn:Ez; cbn [prepend].
  - destruct (find_zero_spec bytes z Ez) as [Hz _]. cbn [fmap option_fmap option_map].
    by replace (Z.to_nat (Z.succ z)) with (S (Z.to_nat z)) by lia.
  - cbn [fmap option_fmap option_map]. rewrite prepend_app. cbn [app].
    by replace (a + 1 + blen bytes) with (a + (1 + blen bytes)) by lia.
Qed.

(** A byte that cannot be read. *)
Lemma guest_cstring_fault s n a : guest_byte s PROT_READ a = None -> guest_cstring s (S n) a = inl EFAULT.
Proof. intros H. cbn. rewrite H. by destruct (_ <? _). Qed.

Lemma guest_byte_caches c s req a : guest_byte (with_caches c s) req a = guest_byte s req a.
Proof. unfold guest_byte, GuestMemory.translate. by rewrite page_lookup_caches. Qed.

Lemma guest_cstring_caches c s n a : guest_cstring (with_caches c s) n a = guest_cstring s n a.
Proof. revert a. induction n as [|n IH]; intros a; [done|]. cbn. by rewrite guest_byte_caches, IH. Qed.

(** The range of a chunk is valid, and a chunk that cannot be read fails at its
    first byte: it lies in one page. *)
Lemma chunk_first_byte s a c :
  0 <= a <= UINT32_MAX -> 0 < c <= DYN_PAGE_SIZE - page_offset a ->
  mapM (guest_byte s PROT_READ) (seqZ a c) = None -> guest_byte s PROT_READ a = None.
Proof.
  intros Ha Hc. assert (Hu : 0 <= a < U64_MOD) by (unfold UINT32_MAX, U32_MOD, U64_MOD in *; lia).
  rewrite guest_bytes_translate, chunk_translate by done. unfold guest_byte, GuestMemory.translate.
  by destruct (page_lookup s PROT_READ a).
Qed.

Lemma chunk_valid a c :
  0 <= a <= UINT32_MAX -> 0 < c <= DYN_PAGE_SIZE - page_offset a ->
  GuestAddressRangeIsValid32 a c = true /\ a + c <= UINT32_MAX + 1.
Proof.
  intros Ha Hc. assert (a + c <= 2 ^ 32).
  { assert (Hu : 0 <= a < U64_MOD) by (unfold UINT32_MAX, U32_MOD, U64_MOD in *; lia).
    pose proof (page_split a Hu) as Hs. rewrite page_base_div in Hs by done.
    change UINT32_MAX with (DYN_PAGE_SIZE * 2 ^ 20 - 1) in Ha. change (2 ^ 32) with (DYN_PAGE_SIZE * 2 ^ 20).
    pose proof (page_offset_range a). assert (a / DYN_PAGE_SIZE < 2 ^ 20); [|unfold DYN_PAGE_SIZE in *; lia].
    apply Z.div_lt_upper_bound; [done|]. lia. }
  unfold GuestAddressRangeIsValid32. unfold UINT32_MAX, U32_MOD in *.
  rewrite andb_true_iff, Z.ltb_lt, Z.leb_le. lia.
Qed.

(** ** The loop *)

Lemma copy_cstring_spec h fuel a copied w :
  cache_ok (guest w) -> 0 <= a -> blen copied <= PATH_MAX -> (Z.to_nat (PATH_MAX - blen copied) <= fuel)%nat ->
  exists c, copy_cstring h fuel a copied w =
    (prepend copied (guest_cstring (guest w) (Z.to_nat (PATH_MAX - blen copied)) (a + blen copied)),
     set_guest (with_caches c (guest w)) w) /\ cache_ok (with_caches c (guest w)).
Proof.
  revert copied w. induction fuel as [|fuel IH]; intros copied w Hw Ha Hc Hf.
  { assert (Hz : Z.to_nat (PATH_MAX - blen copied) = O) by lia. rewrite Hz. exists (caches (guest w)).
    rewrite with_caches_id. split; [|done]. cbn. destruct w; by destruct (_ <? _). }
  cbn [copy_cstring]. destruct (Z.ltb_spec (blen copied) PATH_MAX) as [Hlt|Hge]; cbn [negb].
  2: { assert (Hz : Z.to_nat (PATH_MAX - blen copied) = O) by lia. rewrite Hz. exists (caches (guest w)).
       rewrite with_caches_id. split; [|done]. by destruct w. }
  assert (Hn : Z.to_nat (PATH_MAX - blen copied) = S (Z.to_nat (PATH_MAX - blen copied - 1))) by lia.
  pose proof (blen_nonneg copied). set (addr := a + blen copied).
  destruct (Z.ltb_spec UINT32_MAX addr) as [Hbig|Hsmall].
  { exists (caches (guest w)). rewrite with_caches_id, Hn. split; [|done]. cbn [guest_cstring].
    rewrite (proj2 (Z.ltb_lt _ _) Hbig). by destruct w. }
  pose proof (page_offset_range addr). set (len := Z.min (PATH_MAX - blen copied) (DYN_PAGE_SIZE - page_offset addr)).
  destruct (chunk_valid addr len) as [Hv Hend]; [lia|lia|].
  destruct (read_spec (host_thread h) (guest w) addr len PROT_READ Hw) as (c & Hr & Hc'); [lia|lia|].
  unfold mbind, sys_bind, read_guest. rewrite Hr, Hv.
  destruct (mapM (guest_byte (guest w) PROT_READ) (seqZ addr len)) as [chunk|] eqn:Em.
  2: { exists c. rewrite Hn, guest_cstring_fault; [done|]. eapply chunk_first_byte; [| |done]; lia. }
  assert (Hlen : blen chunk = len).
  { apply length_mapM in Em. rewrite length_seqZ in Em. unfold blen. lia. }
  assert (Hsplit : Z.to_nat (PATH_MAX - blen copied) =
                   (length chunk + Z.to_nat (PATH_MAX - blen (copied ++ chunk)))%nat).
  { rewrite blen_app. unfold blen in *. lia. }
  rewrite Hsplit, guest_cstring_chunk by (by rewrite Hlen).
  destruct (find_zero chunk) as [z|]; [by exists c|].
  destruct (IH (copied ++ chunk) (set_guest (with_caches c (guest w)) w)) as (c' & -> & Hc''); [done|done|..].
  { rewrite blen_app. lia. }
  { rewrite blen_app. lia. }
  exists c'. split; [|done]. cbn [guest set_guest]. rewrite guest_cstring_caches, with_caches_twice, prepend_app.
  rewrite blen_app, Hlen. by replace (a + (blen copied + len)) with (addr + len) by lia.
Qed.

(** A C string is copied from the guest byte by byte.  For any address, the
    routine, which reads up to the end of a page at a time, returns what looking at
    one byte after the other returns: the bytes in front of the first zero byte,
    EFAULT at the first byte that is not readable or beyond the address space, or
    ENAMETOOLONG if there is no zero among the first PATH_MAX bytes; and it changes
    nothing but a sound lookup cache. *)
Theorem copy_cstring_exact h a w :
  cache_ok (guest w) -> 0 <= a ->
  exists c, LC32CopyGuestCString h a w =
    (if a =? 0 then inl EFAULT else guest_cstring (guest w) (Z.to_nat PATH_MAX) a,
     set_guest (with_caches c (guest w)) w) /\ cache_ok (with_caches c (guest w)).
Proof.
  intros Hw Ha. unfold LC32CopyGuestCString. destruct (a =? 0).
  { exists (caches (guest w)). rewrite with_caches_id. split; [|done]. by destruct w. }
  destruct (copy_cstring_spec h (Z.to_nat PATH_MAX) a [] w) as (c & E & Hc); [done|done|done|by apply Nat.eq_le_incl|].
  rewrite E. exists c. split; [|done]. change (blen []) with 0. rewrite Z.sub_0_r, Z.add_0_r.
  assert (Hp : forall r, prepend [] r = r) by (by intros []). by rewrite Hp.
Qed.
