(* ===== verification/ReadvProps.v ===== *)
(** Scattered and asynchronous reads: what a guest finds in its vectors after
    readv, and how an asynchronous read is delivered. *)

From stdpp Require Import base gmap list.
From Stdlib Require Import ZArith Lia.
From S2P Require Import Prelude GuestMemory Bytes GuestPaths Syscalls FileCalls ScatterCalls SyscallLogic.

Open Scope list_scope.
Open Scope Z_scope.

(** ** Memory operations of handlers *)

(** Nothing but the lookup caches changed, and they are sound. *)
Definition quiet (w w' : world) : Prop :=
  exists c, w' = set_guest (with_caches c (guest w)) w /\ cache_ok (with_caches c (guest w)).

Lemma quiet_refl w : cache_ok (guest w) -> quiet w w.
Proof. intros H. exists (caches (guest w)). rewrite with_caches_id. by destruct w. Qed.

Lemma quiet_trans a b c : quiet a b -> quiet b c -> quiet a c.
Proof. intros (c1 & -> & _) (c2 & -> & H). by exists c2. Qed.

Lemma quiet_ok w w' : quiet w w' -> cache_ok (guest w').
Proof. by intros (c & -> & H). Qed.

Lemma quiet_translate w w' req l :
  quiet w w' -> mapM (translate (guest w') req) l = mapM (translate (guest w) req) l.
Proof. by intros (c & -> & _). Qed.

Lemma read_guest_quiet h a n req w :
  cache_ok (guest w) -> 0 <= a -> 0 <= n ->
  exists w', quiet w w' /\ read_guest h a n req w =
    (if GuestAddressRangeIsValid32 a n then mapM (guest_byte (guest w) req) (seqZ a n) else None, w').
Proof.
  intros Hw Ha Hn. destruct (read_spec (host_thread h) (guest w) a n req Hw Ha Hn) as (c & E & Hc).
  exists (set_guest (with_caches c (guest w)) w). split; [by exists c|]. unfold read_guest. by rewrite E.
Qed.

Lemma check_guest_quiet h a n req w :
  cache_ok (guest w) -> 0 <= a -> 0 <= n ->
  exists w' b, quiet w w' /\ check_guest h a n req w = (b, w') /\
    (b = true -> GuestAddressRangeIsValid32 a n = true /\ is_Some (mapM (translate (guest w) req) (seqZ a n))).
Proof.
  intros Hw Ha Hn. unfold check_guest, guest_memory_range_has_permissions.
  destruct (GuestAddressRangeIsValid32 a n) eqn:Hv; cbn [negb].
  - destruct (range_check_spec (host_thread h) req (chunks a n) (guest w) Hw) as (c & E & Hc). rewrite E.
    eexists _, _. split; [by exists c|]. split; [done|].
    rewrite range_check_translate by (by apply chunks_fit_range). rewrite bool_decide_eq_true.
    by rewrite translate_total.
  - exists w, false. split; [by apply quiet_refl|]. split; [|done]. by destruct w.
Qed.

(** ** The blocking call *)

Definition requests (j : list host_event) : list host_request :=
  omap (fun e => match e with Asked r => Some r | _ => None end) j.

(** The journal when the call starts. *)
Definition entered (h : kernel) (w : world) : list host_event :=
  if workqueue_current h then BlockEnter :: journal w else journal w.

Lemma blocking_wait h nr args w :
  let j := entered h w in
  let a := host_answers h j (Syscall nr args) in
  exists w', blocking h true (wait_syscall h nr args) w =
    (if host_stops h j then (EINTR, []) else (i32 (answer_value a), outputs args (answer_data a)), w') /\
  guest w' = guest w /\
  carry w' = (if host_stops h j then true else answer_failed a) /\
  requests (journal w') =
    (if host_stops h j then requests (journal w) else Syscall nr args :: requests (journal w)).
Proof.
  cbv zeta. unfold blocking, wait_syscall, host_wait, debugger_aware_host_wait, entered.
  unfold return_with_carry_direct, syscallRetCarry, ask, update, gets, mret, sys_ret, mbind, sys_bind.
  destruct (workqueue_current h); cbn.
  - destruct (host_stops h (BlockEnter :: journal w)); eexists; split_and!; reflexivity.
  - destruct (host_stops h (journal w)); eexists; split_and!; reflexivity.
Qed.

(** ** The vectors *)

(** The guest addresses of the bytes of the vectors, in order. *)
Definition vector_bytes (vs : list iovec_32) : list Z :=
  mjoin ((fun v => seqZ (guest_iov_base v) (iov_len v)) <$> vs).

Definition vector_ok32 (v : iovec_32) : Prop := 0 <= guest_iov_base v /\ 0 <= iov_len v.

Lemma check_vectors_spec h vs n w :
  cache_ok (guest w) -> Forall vector_ok32 vs ->
  exists w' e, quiet w w' /\ check_vectors h vs n w = (e, w') /\
    (forall x, e = Some x -> x ∈ [EINVAL; EFAULT; ENOMEM]) /\
    (e = None -> is_Some (mapM (translate (guest w) PROT_WRITE) (vector_bytes vs)) /\
       Forall (fun v => iov_len v <> 0 -> GuestAddressRangeIsValid32 (guest_iov_base v) (iov_len v) = true) vs).
Proof.
  intros Hw Hvs. revert n w Hw. induction Hvs as [|v vs [Hb Hl] _ IH]; intros n w Hw; cbn [check_vectors].
  { exists w, None. split_and!; [by apply quiet_refl|done|done|]. intros _. split; [by eexists|done]. }
  assert (Hrej : forall w1 e, quiet w w1 -> e ∈ [EINVAL; EFAULT; ENOMEM] -> exists w' e', quiet w w' /\
            (mret (Some e) : sys (option Z)) w1 = (e', w') /\ (forall x, e' = Some x -> x ∈ [EINVAL; EFAULT; ENOMEM]) /\
            (e' = None -> is_Some (mapM (translate (guest w) PROT_WRITE) (vector_bytes (v :: vs))) /\
               Forall (fun v => iov_len v <> 0 ->
                 GuestAddressRangeIsValid32 (guest_iov_base v) (iov_len v) = true) (v :: vs))).
  { intros w1 e Hq He. exists w1, (Some e). split_and!; [done|done|by intros ? [= <-]|done]. }
  pose proof (quiet_refl w Hw) as Hq0.
  destruct (_ && _); [apply Hrej; [done|set_solver]|].
  destruct (_ <? iov_len v); [apply Hrej; [done|set_solver]|]. cbv zeta.
  destruct (_ <? _); [apply Hrej; [done|set_solver]|].
  set (m := if iov_len v =? 0 then _ else _).
  assert (Hm : exists w1 b, quiet w w1 /\ m w = (b, w1) /\ (b = true ->
            (iov_len v <> 0 -> GuestAddressRangeIsValid32 (guest_iov_base v) (iov_len v) = true) /\
            is_Some (mapM (translate (guest w) PROT_WRITE) (seqZ (guest_iov_base v) (iov_len v))))).
  { unfold m. destruct (Z.eqb_spec (iov_len v) 0) as [E|E].
    - exists w, true. split; [done|]. split; [done|]. intros _. rewrite E. split; [done|by eexists].
    - destruct (check_guest_quiet h (guest_iov_base v) (iov_len v) PROT_WRITE w Hw Hb Hl)
        as (w1 & b & Hq & -> & Hok). exists w1, b. split_and!; [done..|]. naive_solver. }
  destruct Hm as (w1 & b & Hq & Hm & Hok). unfold mbind, sys_bind. rewrite Hm.
  destruct b; cbn [negb]; [|apply Hrej; [done|set_solver]].
  destruct (negb _); [apply Hrej; [done|set_solver]|]. destruct (Hok eq_refl) as [Hv Ht].
  destruct (IH (n + iov_len v) w1 (quiet_ok _ _ Hq)) as (w2 & e & Hq2 & -> & Herr & He).
  exists w2, e. split_and!; [by eapply quiet_trans|done|done|]. intros ->. destruct (He eq_refl) as [Hrest Hvs].
  split; [|by constructor]. rewrite (quiet_translate _ _ _ _ Hq) in Hrest.
  change (vector_bytes (v :: vs)) with (seqZ (guest_iov_base v) (iov_len v) ++ vector_bytes vs).
  rewrite mapM_app_opt. destruct Ht as [x ->], Hrest as [y ->]. by eexists.
Qed.

(** What a list of buffers delivered: the stores of the first bytes at the
    addresses of the vectors, one after the other. *)
Definition delivered (w w' : world) (hs data : list Z) : Prop :=
  exists c, w' = set_guest (with_host (store_bytes (host (guest w)) (zip hs data)) (with_caches c (guest w))) w /\
            cache_ok (with_caches c (guest w)).

Lemma delivered_none w : cache_ok (guest w) -> delivered w w [] [].
Proof. intros H. exists (caches (guest w)). split; [by destruct w as [[] ? ? ? ?]|by rewrite with_caches_id]. Qed.

Lemma delivered_trans a b c h1 h2 d1 d2 :
  length h1 = length d1 -> delivered a b h1 d1 -> delivered b c h2 d2 ->
  delivered a c (h1 ++ h2) (d1 ++ d2).
Proof.
  intros Hl (c1 & -> & _) (c2 & -> & H). exists c2. split; [|exact (proj1 (cache_ok_host _ (with_caches c2 (guest a))) H)].
  rewrite zip_with_app by done. by rewrite store_bytes_app.
Qed.

Lemma delivered_ok w w' hs data : delivered w w' hs data -> cache_ok (guest w').
Proof. intros (c & -> & H). by apply cache_ok_host. Qed.

Lemma delivered_translate w w' hs data req l :
  delivered w w' hs data -> mapM (translate (guest w') req) l = mapM (translate (guest w) req) l.
Proof. by intros (c & -> & _). Qed.

Lemma take_min {A} (n : Z) (l k : list A) :
  0 <= n ->
  take (Z.to_nat n) (l ++ k) =
  take (Z.to_nat (Z.min n (Z.of_nat (length l)))) l ++
  take (Z.to_nat (n - Z.min n (Z.of_nat (length l)))) k.
Proof.
  intros Hn. rewrite take_app. f_equal; [|f_equal; lia].
  destruct (Z.min_spec n (Z.of_nat (length l))) as [[? ->] | [? ->]]; [done|].
  by rewrite Nat2Z.id, !take_ge by lia.
Qed.

Lemma mapM_take {A B} (f : A -> option B) n l r : mapM f l = Some r -> mapM f (take n l) = Some (take n r).
Proof.
  intros H. rewrite <- (take_drop n l), mapM_app_opt in H.
  apply bind_Some in H as (x & Hx & H). apply bind_Some in H as (y & Hy & [= <-]). rewrite Hx. f_equal.
  apply length_mapM in Hx, Hy. rewrite length_take in Hx. rewrite length_drop in Hy.
  destruct (decide (n <= length l)%nat).
  - by rewrite take_app_length' by lia.
  - destruct y; [|cbn in Hy; lia]. rewrite app_nil_r. by rewrite take_ge by lia.
Qed.

Lemma take_iov_seqZ n a len : 0 <= n <= len -> take (Z.to_nat n) (seqZ a len) = seqZ a n.
Proof.
  intros H. replace len with (n + (len - n)) by lia. rewrite seqZ_app by lia.
  rewrite take_app_length'; [done|]. rewrite length_seqZ. done.
Qed.

(** Writing the first bytes of a buffer. *)
Lemma write_guest_delivers h a bs w hs :
  cache_ok (guest w) -> 0 <= a -> GuestAddressRangeIsValid32 a (blen bs) = true ->
  mapM (translate (guest w) PROT_WRITE) (seqZ a (blen bs)) = Some hs ->
  exists w', write_guest h a bs PROT_WRITE w = (true, w') /\ delivered w w' hs bs.
Proof.
  intros Hw Ha Hv Ht. destruct (write_spec (host_thread h) (guest w) a bs PROT_WRITE Hw Ha) as (c & Hc & E).
  unfold blen in *. rewrite Hv, Ht in E. unfold write_guest. rewrite E. eexists. split; [done|]. by exists c.
Qed.

Lemma scatter_spec h vs buffers n w hs :
  cache_ok (guest w) -> Forall vector_ok32 vs ->
  Forall2 (fun v b => blen b = iov_len v) vs buffers -> 0 <= n ->
  Forall (fun v => iov_len v <> 0 -> GuestAddressRangeIsValid32 (guest_iov_base v) (iov_len v) = true) vs ->
  mapM (translate (guest w) PROT_WRITE) (vector_bytes vs) = Some hs ->
  exists w', scatter h vs buffers n w = (true, w') /\
    delivered w w' (take (Z.to_nat n) hs) (take (Z.to_nat n) (mjoin buffers)).
Proof.
  intros Hw Hvs Hbs. revert n w hs Hw. induction Hbs as [|v b vs buffers Hl Hbs IH]; intros n w hs Hw Hn Hv Ht.
  { injection Ht as <-. exists w. split; [done|]. rewrite !take_nil. by apply delivered_none. }
  inversion_clear Hvs as [|? ? [Hb0 Hl0] Hvs']. inversion_clear Hv as [|? ? Hv1 Hv'].
  change (vector_bytes (v :: vs)) with (seqZ (guest_iov_base v) (iov_len v) ++ vector_bytes vs) in Ht.
  rewrite mapM_app_opt in Ht. apply bind_Some in Ht as (h1 & H1 & Ht). apply bind_Some in Ht as (h2 & H2 & [= <-]).
  assert (Hlen : Z.of_nat (length h1) = blen b).
  { apply length_mapM in H1. rewrite length_seqZ in H1. rewrite Hl. lia. }
  cbn [scatter]. destruct (Z.eqb_spec n 0) as [-> | Hn0].
  { exists w. split; [done|]. cbn [Z.to_nat take]. by apply delivered_none. }
  cbv zeta. set (k := Z.min n (blen b)). pose proof (blen_nonneg b).
  set (m := if k =? 0 then _ else _).
  assert (Hm : exists w1, m w = (true, w1) /\ delivered w w1 (take (Z.to_nat k) h1) (take (Z.to_nat k) b)).
  { unfold m. destruct (Z.eqb_spec k 0) as [-> | Hk]; [exists w; by split; [|apply delivered_none]|].
    assert (Hkl : blen (take (Z.to_nat k) b) = k) by (unfold blen in *; rewrite length_take; lia).
    apply write_guest_delivers; [done|done| |]; rewrite Hkl.
    - specialize (Hv1 ltac:(lia)). unfold GuestAddressRangeIsValid32 in *.
      rewrite andb_true_iff, Z.ltb_lt, Z.leb_le in *. lia.
    - rewrite <- (take_iov_seqZ k _ (iov_len v)) by lia. by apply mapM_take. }
  destruct Hm as (w1 & Em & Hd). unfold mbind, sys_bind. rewrite Em. cbn [negb].
  destruct (IH Hvs' (n - k) w1 h2) as (w2 & -> & Hd2); [by eapply delivered_ok|lia|done| |].
  { by rewrite (delivered_translate _ _ _ _ _ _ Hd). }
  exists w2. split; [done|]. change (mjoin (b :: buffers)) with (b ++ mjoin buffers).
  rewrite !take_min by done. unfold blen in k. fold k. rewrite Hlen. fold (blen b). unfold blen. fold k.
  eapply delivered_trans; [|done..]. rewrite !length_take. unfold blen in *. lia.
Qed.

(** ** The call *)

Lemma blen_fill n bs : 0 <= n -> blen (fill n bs) = n.
Proof.
  intros H. unfold fill, blen, zeros. rewrite length_take, length_app, length_replicate. lia.
Qed.

Lemma outputs_vectors vs data last :
  Forall vector_ok32 vs -> (forall d, outputs last d = []) ->
  Forall2 (fun v b => blen b = iov_len v) vs (outputs (((fun v => OutBuf (iov_len v)) <$> vs) ++ last) data).
Proof.
  intros Hvs Hlast. revert data. induction Hvs as [|v vs [_ Hl] _ IH]; intros data; cbn [fmap list_fmap app outputs].
  - rewrite Hlast. constructor.
  - constructor; [by apply blen_fill|apply IH].
Qed.

Lemma decode_iovecs_ok n bs : Forall (fun b => 0 <= b) bs -> Forall vector_ok32 (decode_iovecs n bs).
Proof.
  revert bs. induction n as [|n IH]; intros bs H; cbn; [constructor|].
  constructor; [|by apply IH, Forall_drop].
  assert (Hle : forall o l, 0 <= le_int (sub bs o l)).
  { intros o l. assert (Hs : Forall (fun b => 0 <= b) (sub bs o l)) by (by apply Forall_take, Forall_drop).
    induction Hs as [|b s Hb _ IHs]; cbn; lia. }
  split; apply Hle.
Qed.

Lemma fail_quiet w w1 e r w' :
  quiet w w1 -> fail e w1 = (r, w') -> quiet (set_carry true w) w' /\ r = e.
Proof. intros (c & -> & H) [= <- <-]. split; [by exists c|done]. Qed.

(** The arguments of the request. *)
Definition readv_args (fd n : Z) (vs : list iovec_32) : list host_arg :=
  Int fd :: ((fun v => OutBuf (iov_len v)) <$> vs) ++ [Int n].

(** The host call and the copy-out. *)
Lemma readv_deliver h nr fd n vs w w1 r w' hs :
  quiet w w1 -> Forall vector_ok32 vs ->
  Forall (fun v => iov_len v <> 0 -> GuestAddressRangeIsValid32 (guest_iov_base v) (iov_len v) = true) vs ->
  mapM (translate (guest w) PROT_WRITE) (vector_bytes vs) = Some hs ->
  (rr ← blocking h true (wait_syscall h nr (readv_args fd n vs));
   let '(result, buffers) := (rr : Z * list (list Z)) in
   c ← gets carry;
   if (c : bool) || (result <=? 0) then mret result
   else ok ← scatter h vs buffers result; if negb ok then fail EFAULT else mret result) w1 = (r, w') ->
  let req := Syscall nr (readv_args fd n vs) in
  let stop := host_stops h (entered h w) in
  let a := host_answers h (entered h w) req in
  let k := if stop || answer_failed a then 0 else Z.max 0 (i32 (answer_value a)) in
  r = (if stop then EINTR else i32 (answer_value a)) /\ carry w' = stop || answer_failed a /\
  requests (journal w') = (if stop then [] else [req]) ++ requests (journal w) /\
  exists c, guest w' = with_host (store_bytes (host (guest w))
                 (zip (take (Z.to_nat k) hs)
                      (take (Z.to_nat k) (mjoin (outputs (readv_args fd n vs) (answer_data a))))))
               (with_caches c (guest w)) /\ cache_ok (guest w').
Proof.
  intros Hq Hvs Hv Ht E. cbv zeta.
  assert (He : entered h w1 = entered h w) by (by destruct Hq as (c & -> & _)).
  assert (Hj : journal w1 = journal w) by (by destruct Hq as (c & -> & _)).
  destruct (blocking_wait h nr (readv_args fd n vs) w1) as (w2 & Eb & Hg & Hc & Hr).
  rewrite He, Hj in *. unfold mbind, sys_bind in E. rewrite Eb in E. cbn [fst snd] in E.
  destruct Hq as (c & -> & Hok). cbn in Hg.
  assert (Hnone : guest w2 = with_host (store_bytes (host (guest w)) (zip [] [])) (with_caches c (guest w)))
    by (rewrite Hg; by destruct (guest w)).
  assert (Hok2 : cache_ok (guest w2)) by (by rewrite Hg).
  destruct (host_stops h (entered h w)); cbn [orb] in *.
  { unfold gets in E. rewrite Hc in E. injection E as <- <-. split_and!; [done..|]. by exists c. }
  set (a := host_answers _ _ _) in *. unfold gets in E. rewrite Hc in E.
  destruct (answer_failed a); cbn [orb] in *; [injection E as <- <-; split_and!; [done..|]; by exists c|].
  destruct (Z.leb_spec (i32 (answer_value a)) 0) as [Hneg|Hpos].
  { injection E as <- <-. split_and!; [done..|]. rewrite Z.max_l by lia. by exists c. }
  rewrite Z.max_r by lia.
  destruct (scatter_spec h vs (outputs (readv_args fd n vs) (answer_data a)) (i32 (answer_value a)) w2 hs)
    as (w3 & Es & c' & -> & Hok3); [done|done| |lia|done|by rewrite Hg|].
  { unfold readv_args. cbn [outputs]. by apply outputs_vectors. }
  rewrite Es in E. injection E as <- <-. cbn [negb].
  split_and!; [done|by cbn|by cbn|]. rewrite Hg. exists c'. split; [done|].
  cbn. apply cache_ok_host. by rewrite Hg in Hok3.
Qed.


(** C26: readv delivers exactly what the host read.  A call is rejected without a
    request and without a change, or the vectors are read from the guest and the
    host is asked once, with buffers of their lengths; then the result and the carry
    flag are the host's (EINTR if a stop is requested instead of the call), and
    memory changes by storing the first [result] bytes the host delivered, in order,
    at the guest addresses of the vectors: a copy-out never fails half way. *)
Theorem readv_exact h nr fd iov n w r w' :
  cache_ok (guest w) -> 0 <= iov -> (forall a, 0 <= host_byte (host (guest w)) a) ->
  guest_readv h nr fd iov n w = (r, w') ->
  (quiet (set_carry true w) w' /\ r ∈ [EINVAL; EFAULT; ENOMEM]) \/
  exists bs hs c,
    mapM (guest_byte (guest w) PROT_READ) (seqZ iov (n * 8)) = Some bs /\
    let vs := decode_iovecs (Z.to_nat n) bs in
    let req := Syscall (host_number h SYS_readv nr) (readv_args fd n vs) in
    let stop := host_stops h (entered h w) in
    let a := host_answers h (entered h w) req in
    let k := if stop || answer_failed a then 0 else Z.max 0 (i32 (answer_value a)) in
    r = (if stop then EINTR else i32 (answer_value a)) /\ carry w' = stop || answer_failed a /\
    requests (journal w') = (if stop then [] else [req]) ++ requests (journal w) /\
    mapM (translate (guest w) PROT_WRITE) (vector_bytes vs) = Some hs /\
    guest w' = with_host (store_bytes (host (guest w))
                  (zip (take (Z.to_nat k) hs)
                       (take (Z.to_nat k) (mjoin (outputs (readv_args fd n vs) (answer_data a))))))
                (with_caches c (guest w)) /\ cache_ok (guest w').
Proof.
  intros Hw Hiov Hbytes E. unfold guest_readv in E.
  assert (Hrej : forall w1 e, quiet w w1 -> fail e w1 = (r, w') -> e ∈ [EINVAL; EFAULT; ENOMEM] ->
            quiet (set_carry true w) w' /\ r ∈ [EINVAL; EFAULT; ENOMEM]).
  { intros w1 e Hq Hf He. by destruct (fail_quiet w w1 e r w' Hq Hf) as [? ->]. }
  pose proof (quiet_refl w Hw) as Hq0.
  destruct (Z.ltb_spec n 0) as [Hneg|Hn]; cbn [orb] in E; [left; eapply Hrej; [done..|set_solver]|].
  destruct (IOV_MAX <? n); [left; eapply Hrej; [done..|set_solver]|].
  destruct (_ && _); [left; eapply Hrej; [done..|set_solver]|].
  destruct (negb _); [left; eapply Hrej; [done..|set_solver]|]. clear Hq0.
  assert (Hread : exists w1 o, quiet w w1 /\
    (if n =? 0 then (mret (Some []) : sys (option (list Z))) else read_guest h iov (n * 8) PROT_READ) w = (o, w1) /\
    (forall bs, o = Some bs -> mapM (guest_byte (guest w) PROT_READ) (seqZ iov (n * 8)) = Some bs)).
  { destruct (Z.eqb_spec n 0) as [-> | Hn0].
    - exists w, (Some []). split_and!; [by apply quiet_refl|done|]. by intros ? [= <-].
    - destruct (read_guest_quiet h iov (n * 8) PROT_READ w Hw Hiov) as (w1 & Hq & ->); [lia|].
      eexists _, _. split_and!; [done|done|]. by destruct (GuestAddressRangeIsValid32 _ _). }
  destruct Hread as (w1 & o & Hq & Er & Hbs). unfold mbind at 1, sys_bind at 1 in E. rewrite Er in E.
  destruct o as [bs|]; [|left; eapply Hrej; [done..|set_solver]]. specialize (Hbs bs eq_refl).
  assert (Hvs : Forall vector_ok32 (decode_iovecs (Z.to_nat n) bs)).
  { apply decode_iovecs_ok. rewrite guest_bytes_translate in Hbs. apply fmap_Some in Hbs as (hs & _ & ->).
    apply Forall_fmap, Forall_forall. intros x _. apply Hbytes. }
  destruct (check_vectors_spec h _ 0 w1 (quiet_ok _ _ Hq) Hvs) as (w2 & e & Hq2 & Ec & Herr & Hok).
  unfold mbind at 1, sys_bind at 1 in E. rewrite Ec in E.
  destruct e as [e|].
  { left. eapply Hrej; [by eapply quiet_trans|done|by apply Herr]. }
  destruct (Hok eq_refl) as [[hs Hhs] Hv]. rewrite (quiet_translate _ _ _ _ Hq) in Hhs.
  right. exists bs, hs.
  destruct (readv_deliver h _ fd n _ w w2 r w' hs (quiet_trans _ _ _ Hq Hq2) Hvs Hv Hhs E)
    as (? & ? & ? & c & ? & ?). by exists c.
Qed.



(** ** Asynchronous reads: what a completion holds and how often it is delivered *)

(** What only the host calls leave alone. *)
Definition kept (w w' : world) : Prop :=
  guest w' = guest w /\ guestAioOperations w' = guestAioOperations w.

Lemma kept_refl w : kept w w.
Proof. done. Qed.

Lemma kept_trans a b c : kept a b -> kept b c -> kept a c.
Proof. intros [] []. split; congruence. Qed.

Lemma aio_checks_kept h c w : kept w (aio_checks h c w).2.
Proof.
  unfold aio_checks, ask, mbind, sys_bind, mret, sys_ret.
  repeat (case_match; simplify_eq; try done).
Qed.

Lemma blocking_kept {A} h b (m : sys A) w :
  (forall w0, kept w w0 -> kept w (m w0).2) -> kept w (blocking h b m w).2.
Proof.
  intros Hm. unfold blocking, update, mbind, sys_bind, mret, sys_ret.
  destruct (b && workqueue_current h).
  - specialize (Hm (log BlockEnter w) ltac:(done)). by destruct (m _).
  - specialize (Hm w ltac:(done)). by destruct (m w).
Qed.

Lemma blocking_value {A} h b (m : sys A) w : exists w0, (blocking h b m w).1 = (m w0).1.
Proof.
  unfold blocking, update, mbind, sys_bind, mret, sys_ret.
  destruct (b && workqueue_current h); [exists (log BlockEnter w)|exists w]; by destruct (m _).
Qed.

(** The host's read without an error. *)
Definition pread_answer (h : kernel) (c : GuestAiocb) (v : Z) (data : list Z) : Prop :=
  exists j, let a := host_answers h j (Pread (fileDescriptor c) (byteCount c) (GuestAiocbOffset c)) in
    v = answer_value a /\ data = fill (byteCount c) (default [] (head (answer_data a))).

Lemma or_default_nonzero e d : d <> 0 -> or_default e d <> 0.
Proof. intros. unfold or_default. by destruct (Z.eqb_spec e 0). Qed.

Lemma aio_pread_spec h c w :
  let '(v, e, data) := (aio_pread h c w).1 in
  kept w (aio_pread h c w).2 /\ (e = 0 -> 0 <= v /\ pread_answer h c v data).
Proof.
  unfold aio_pread, debugger_aware_host_wait, ask, gets, mbind, sys_bind, mret, sys_ret.
  destruct (host_stops h (journal w)); cbn; [done|]. split; [done|].
  destruct (Z.ltb_spec (answer_value (host_answers h (journal w)
    (Pread (fileDescriptor c) (byteCount c) (GuestAiocbOffset c)))) 0).
  - intros E. by apply or_default_nonzero in E.
  - intros _. split; [done|]. by exists (journal w).
Qed.

(** What the read leaves behind: the completion, and memory. *)
Definition completed (h : kernel) (c : GuestAiocb) (w : world) (e v : Z) (s : vm) : Prop :=
  (e <> 0 /\ v = -1 /\ exists ca, s = with_caches ca (guest w)) \/
  (e = 0 /\ 0 <= v <= INT32_MAX /\ exists data hs ca,
     pread_answer h c v data /\
     mapM (translate (guest w) PROT_WRITE) (seqZ (buffer c) (blen (take (Z.to_nat v) data))) = Some hs /\
     s = with_host (store_bytes (host (guest w)) (zip hs (take (Z.to_nat v) data))) (with_caches ca (guest w))).

Lemma aio_finish h c w v e data :
  cache_ok (guest w) -> 0 <= buffer c -> (e = 0 -> 0 <= v /\ pread_answer h c v data) ->
  exists e' v' w',
    (if negb (e =? 0) then mret (e, -1)
     else if (v <? 0) || (INT32_MAX <? v) then mret (EIO, -1)
     else if v =? 0 then mret (0, v)
     else ok ← write_guest h (buffer c) (take (Z.to_nat v) data) PROT_WRITE;
          mret (if (ok : bool) then (0, v) else (EFAULT, -1)) : sys (Z * Z)) w = ((e', v'), w') /\
    guestAioOperations w' = guestAioOperations w /\ completed h c w e' v' (guest w').
Proof.
  intros Hw Hb Hok.
  assert (Hsame : exists ca, guest w = with_caches ca (guest w)) by (exists (caches (guest w)); by rewrite with_caches_id).
  destruct (Z.eqb_spec e 0) as [-> | He]; cbn [negb].
  2: { exists e, (-1), w. split_and!; [done|done|]. left. done. }
  destruct (Hok eq_refl) as [Hv Hans].
  rewrite (proj2 (Z.ltb_ge v 0)) by lia. cbn [orb].
  destruct (Z.ltb_spec INT32_MAX v) as [Hbig|Hsmall]; [exists EIO, (-1), w; split_and!; [done|done|by left]|].
  destruct (Z.eqb_spec v 0) as [-> | Hv0].
  { exists 0, 0, w. split_and!; [done|done|]. right. split_and!; [done|done|done|].
    exists data, [], (caches (guest w)). split_and!; [done|done|]. cbn. by destruct (guest w). }
  destruct (write_spec (host_thread h) (guest w) (buffer c) (take (Z.to_nat v) data) PROT_WRITE Hw Hb) as (ca & Hc & E).
  unfold write_guest, mbind, sys_bind, mret, sys_ret. rewrite E. fold (blen (take (Z.to_nat v) data)).
  destruct (GuestAddressRangeIsValid32 _ _); [|eexists _, _, _; split_and!; [done|done|left; by eauto]].
  destruct (mapM _ _) as [hs|] eqn:Ehs; [|eexists _, _, _; split_and!; [done|done|left; by eauto]].
  eexists _, _, _. split_and!; [done|done|]. right. split_and!; [done|done|done|]. by exists data, hs, ca.
Qed.

Lemma le_int_nonneg bs : Forall (fun b => 0 <= b) bs -> 0 <= le_int bs.
Proof. induction 1; cbn; lia. Qed.

Lemma decode_aiocb_buffer bs : Forall (fun b => 0 <= b) bs -> 0 <= buffer (decode_aiocb bs).
Proof. intros H. apply le_int_nonneg. by apply Forall_take, Forall_drop. Qed.

Lemma fail_carry e x r w1 : fail e x = (r, w1) -> carry w1 = false -> False.
Proof. by intros [= _ <-]. Qed.

(** An accepted request. *)
Lemma aio_accepted h cb w w1 :
  cache_ok (guest w) -> 0 <= cb -> (forall a, 0 <= host_byte (host (guest w)) a) ->
  guest_aio_read h cb w = (0, w1) -> carry w1 = false ->
  exists bs e v, mapM (guest_byte (guest w) PROT_READ) (seqZ cb 48) = Some bs /\
    completed h (decode_aiocb bs) w e v (guest w1) /\ guestAioOperations w !! cb = None /\
    guestAioOperations w1 = <[cb := mkCompletion e v]> (guestAioOperations w).
Proof.
  intros Hw Hcb Hbytes E Hc. unfold guest_aio_read in E.
  destruct (read_guest_quiet h cb 48 PROT_READ w Hw Hcb) as (wr & (ca & -> & Hca) & Er); [lia|].
  unfold mbind at 1, sys_bind at 1 in E. rewrite Er in E. clear Er.
  destruct (GuestAddressRangeIsValid32 cb 48); [|by apply fail_carry in E].
  destruct (mapM _ _) as [bs|] eqn:Ebs; [|by apply fail_carry in E]. set (c := decode_aiocb bs) in *.
  assert (Hb : 0 <= buffer c).
  { apply decode_aiocb_buffer. rewrite guest_bytes_translate in Ebs. apply fmap_Some in Ebs as (hs & _ & ->).
    apply Forall_fmap, Forall_forall. intros x _. apply Hbytes. }
  set (w0 := set_guest _ w) in *. cbv zeta in E. unfold mbind at 1, sys_bind at 1 in E.
  pose proof (aio_checks_kept h c w0) as [Hg2 Ha2]. destruct (aio_checks h c w0) as [[e|] w2]; [by apply fail_carry in E|].
  cbn [snd] in Hg2, Ha2. unfold mbind at 1, sys_bind at 1 in E. unfold aio_begin in E. rewrite Ha2 in E.
  change (guestAioOperations w0) with (guestAioOperations w) in *.
  destruct (guestAioOperations w !! cb) eqn:Enone; [by apply fail_carry in E|]. cbn [negb] in E.
  set (w3 := set_aio _ w2) in *. unfold mbind at 1, sys_bind at 1 in E.
  pose proof (blocking_kept h true (aio_pread h c) w3) as Hk.
  destruct (blocking_value h true (aio_pread h c) w3) as [wb Hbv].
  destruct (blocking h true (aio_pread h c) w3) as [[[v e] data] w4]. cbn [fst snd] in *.
  assert (H4 : kept w3 w4).
  { apply Hk. intros x Hx. eapply kept_trans; [done|]. pose proof (aio_pread_spec h c x) as Hp.
    destruct (aio_pread h c x) as [[[? ?] ?] ?]. apply Hp. }
  assert (Hans : e = 0 -> 0 <= v /\ pread_answer h c v data).
  { pose proof (aio_pread_spec h c wb) as Hp. rewrite <- Hbv in Hp. apply Hp. }
  destruct H4 as [Hg4 Ha4]. assert (Hg : guest w4 = with_caches ca (guest w)) by (by rewrite Hg4; cbn; rewrite Hg2).
  unfold mbind at 1, sys_bind at 1 in E.
  destruct (aio_finish h c w4 v e data) as (e' & v' & w5 & Ef & Ha5 & Hdone); [by rewrite Hg|done|done|].
  rewrite Ef in E. clear Ef. unfold mbind at 1, sys_bind at 1, aio_complete in E.
  assert (Hin : guestAioOperations w5 = <[cb := mkCompletion EINPROGRESS (-1)]> (guestAioOperations w)).
  { rewrite Ha5, Ha4. by cbn. }
  rewrite Hin, lookup_insert_eq in E. injection E as <-.
  exists bs, e', v'. split_and!; [done| |done|by cbn; rewrite insert_insert_eq].
  cbn. destruct Hdone as [(? & ? & x & Hx)|(? & ? & d & hs & x & ? & Ht & Hx)]; [left|right].
  - split_and!; [done|done|]. exists x. by rewrite Hx, Hg.
  - split_and!; [done|lia|lia|]. exists d, hs, x. rewrite Hg in Ht, Hx. done.
Qed.

(** An asynchronous read is delivered once.  After an accepted request the
    control block has a completion that [aio_error] reports, an error with result -1
    and memory as it was, or the host's byte count with exactly those bytes of the
    host's buffer at the guest's buffer; [aio_return] hands the result out and
    forgets the operation, so that the table is what it was before the request and
    both calls answer EINVAL from then on. *)
Theorem aio_delivered_once h cb w w1 :
  cache_ok (guest w) -> 0 <= cb -> (forall a, 0 <= host_byte (host (guest w)) a) ->
  guest_aio_read h cb w = (0, w1) -> carry w1 = false ->
  exists bs e v,
    mapM (guest_byte (guest w) PROT_READ) (seqZ cb 48) = Some bs /\
    completed h (decode_aiocb bs) w e v (guest w1) /\
    guest_aio_error cb w1 = (e, set_carry false w1) /\
    (e <> EINPROGRESS ->
     exists w2, guest_aio_return cb w1 = (v, w2) /\ carry w2 = false /\ guest w2 = guest w1 /\
       guestAioOperations w2 = guestAioOperations w /\
       guest_aio_error cb w2 = (EINVAL, set_carry true w2) /\
       guest_aio_return cb w2 = (EINVAL, set_carry true w2)).
Proof.
  intros Hw Hcb Hbytes E Hc. destruct (aio_accepted h cb w w1 Hw Hcb Hbytes E Hc) as (bs & e & v & Hbs & Hd & Hn & Ha).
  exists bs, e, v. split_and!; [done|done| |].
  - unfold guest_aio_error, gets, mbind, sys_bind. by rewrite Ha, lookup_insert_eq.
  - intros He. unfold guest_aio_return, guest_aio_error, gets, update, mbind, sys_bind.
    rewrite Ha, lookup_insert_eq. cbn [aio_error aio_result]. rewrite (proj2 (Z.eqb_neq _ _) He).
    eexists. split_and!; [done|done|done| | |]; cbn; rewrite delete_insert_eq, delete_id by done; [done|..];
      by rewrite Hn.
Qed.
