(* ===== verification/MediationTheorem.v ===== *)
(** The dispatcher asks the host only for what is allowed, and which handler it
    picks; concrete calls for the theorems about system calls. *)

From stdpp Require Import base gmap list strings list_numbers.
From Stdlib Require Import ZArith Lia.
From S2P Require Import Prelude GuestMemory GuestRawMemory MemoryWitness Bytes GuestPaths GuestPathsProps.
From S2P Require Import GuestBootstrap Syscalls FileCalls ScatterCalls DescriptorCalls SocketCalls Dispatcher.
From S2P Require Import SyscallLogic Mediation SymlinkProps ReadvProps.

Open Scope list_scope.
Open Scope Z_scope.


(** ** The handlers as hints

    Goals are matched by the handler's name alone. *)

Create HintDb calls discriminated.
#[export] Hint Constants Opaque : calls.
#[export] Hint Resolve link_safe chflags_safe symlink_safe mkfifo_safe rmdir_safe utimes_safe futimes_safe
  lchown_safe pathconf_safe truncate_safe shm_unlink_safe getxattr_safe fgetxattr_safe fsetxattr_safe
  removexattr_safe fremovexattr_safe listxattr_safe flistxattr_safe getgroups_safe getlogin_safe
  chdir_safe fchdir_safe pthread_chdir_safe pthread_fchdir_safe read_safe pread_safe
  poll_safe readv_safe pwrite_safe aio_read_safe aio_error_safe aio_return_safe write_safe writev_safe
  close_safe dup_safe dup2_safe open_safe unlink_safe chmod_safe chown_safe access_safe mkdir_safe
  rename_safe shm_open_safe setxattr_safe readlink_safe getdirentries_safe stat64_safe fstat_safe
  lstat_safe statfs64_safe fstatfs64_safe gettimeofday_safe bind_safe connect_safe sendto_safe
  sendmsg_safe setsockopt_safe getsockopt_safe socket_name_safe accept_safe recvfrom_safe
  socketpair_safe : calls.
#[export] Hint Extern 1 (plain _ = true) =>
  unfold host_number; try (destruct (native_threads _)); reflexivity : calls.
#[export] Hint Extern 1 (addressed _ _ = true) =>
  unfold host_number; try (destruct (native_threads _)); reflexivity : calls.
#[export] Hint Extern 1 (_ ∈ open_calls) => apply (bool_decide_eq_true_1 _); reflexivity : calls.

Section handlers.
Context (h : kernel).

#[local] Abbreviation safely m := (runs (request_ok h) m (fun _ => True)).

Lemma copy_in_sets_safe gs n : safely (copy_in_sets gs n).
Proof. induction gs as [|g gs IH]; cbn [copy_in_sets]; unfold copy_in_set; handler. Qed.

Lemma copy_out_sets_safe gs n data : safely (copy_out_sets gs n data).
Proof. revert data. induction gs as [|g gs IH]; intros data; cbn [copy_out_sets]; handler. Qed.

Lemma string_args_sets gs sets : string_args (zip_with set_arg gs sets) = [].
Proof.
  revert sets. induction gs as [|g gs IH]; intros [|s sets]; try done. cbn [zip_with].
  unfold set_arg at 1. destruct (_ =? 0); apply IH.
Qed.

Lemma select_safe nr a b c d e : plain (host_number h SYS_select nr) = true -> safely (guest_select h nr a b c d e).
Proof.
  intros Hn. unfold guest_select. handler_step; [handler|]. apply runs_seq; [unfold select_timeout; handler|].
  intros t. handler_step. apply runs_seq; [apply copy_in_sets_safe|]. intros [sets|]; [|handler].
  handler; [|apply copy_out_sets_safe]. apply silent_ok; [done|].
  change (string_args (Int a :: ?l)) with (string_args l).
  rewrite string_args_app, string_args_sets. by case_match.
Qed.

(** ** The switch *)

(** The handler of a number. *)
Definition case_safe (NR : Z) (c : list Z * sys Z) : Prop := NR ∈ c.1 -> safely c.2.

Lemma find_case_safe NR cases m :
  Forall (case_safe NR) cases -> find_case NR cases = Some m -> safely m.
Proof.
  unfold find_case. intros H E. apply fmap_Some in E as (c & E & ->). apply head_Some_elem_of in E.
  apply list_elem_of_filter in E as [Hin Hc]. rewrite Forall_forall in H. by apply H.
Qed.

(** Fix the number, and whether native threads are enabled. *)
Ltac concrete :=
  intros Hn; cbn [fst snd] in *; unfold identity_calls, scalar_calls in Hn;
  rewrite ?elem_of_cons, ?elem_of_nil in Hn; repeat destruct Hn as [-> | Hn]; try done;
  unfold host_number; try (destruct (native_threads h)).

Lemma control_safe NR r : Forall (case_safe NR) (control_cases h NR r).
Proof.
  unfold control_cases, identity_call, pthread_canceled, semwait_signal, dispatch_fsync, dispatch_flock, wait_value.
  repeat apply Forall_cons_2; try apply Forall_nil_2.
  13: intros _; apply runs_direct.
  all: concrete; handler.
Qed.

Lemma file_safe NR r : Forall (case_safe NR) (file_cases h NR r).
Proof.
  unfold file_cases. repeat apply Forall_cons_2; try apply Forall_nil_2.
  all: concrete; auto with calls.
Qed.

Lemma getsockname_safe a b c : safely (guest_getsockname h a b c).
Proof. by apply socket_name_safe. Qed.

Lemma getpeername_safe a b c : safely (guest_getpeername h a b c).
Proof. by apply socket_name_safe. Qed.

#[local] Hint Resolve select_safe getsockname_safe getpeername_safe : calls.

Lemma socket_safe NR r : Forall (case_safe NR) (socket_cases h NR r).
Proof.
  unfold socket_cases. repeat apply Forall_cons_2; try apply Forall_nil_2.
  all: concrete; auto with calls.
Qed.

Lemma pair_case_safe NR r m : pair_case h NR r = Some m -> safely m.
Proof.
  unfold pair_case. destruct (Z.eqb_spec NR (-18)) as [-> | _].
  { intros [= <-]. unfold port_deallocate. handler. }
  destruct (_ =? 199); [intros [= <-]; unfold dispatch_lseek; handler|].
  destruct (_ =? 42); [intros [= <-]; unfold dispatch_pipe; handler|done].
Qed.

Lemma dispatch_safe r : safely (dispatch h r).
Proof.
  unfold dispatch. apply runs_seq; [by apply runs_update|]. intros _. set (NR := i32 (reg r 12)).
  pose proof (fun m => find_case_safe NR (control_cases h NR r ++ file_cases h NR r ++ socket_cases h NR r) m) as Hf.
  destruct (find_case NR _) as [m|].
  { apply runs_seq; [|handler]. apply Hf; [|done].
    rewrite !Forall_app. split_and!; [apply control_safe|apply file_safe|apply socket_safe]. }
  clear Hf. destruct (pair_case h NR r) as [m|] eqn:E; [|handler].
  apply runs_seq; [by eapply pair_case_safe|handler].
Qed.

Lemma CallSVC_safe r : safely (CallSVC h r).
Proof.
  unfold CallSVC, indirect. handler; apply dispatch_safe.
Qed.
End handlers.

(** C2: the guest cannot name a file outside its mounts.  Whatever the registers,
    the guest's memory and the host's answers, a system call that the dispatcher
    handles here, directly or through the indirect call, asks the host only for what
    [request_ok] allows; and it changes nothing of the guest's address space but
    bytes and sound lookup caches. *)
Theorem system_calls_mediated h r w :
  cache_ok (guest w) ->
  exists events, journal (CallSVC h r w).2 = events ++ journal w /\
    Forall (event_ok (request_ok h)) events /\
    cache_ok (guest (CallSVC h r w).2) /\ same_layout (guest w) (guest (CallSVC h r w).2).
Proof.
  intros Hw. destruct (CallSVC_safe h r w Hw) as (_ & [Hc Hl] & evs & E & Hevs). by exists evs.
Qed.



(** ** Calls that are refused *)

Lemma reg_insert_eq (r : list Z) i v : (i < length r)%nat -> reg (<[i := v]> r) i = v.
Proof. intros H. unfold reg. by rewrite list_lookup_insert_eq. Qed.

Lemma reg_insert_ne (r : list Z) i j v : i <> j -> reg (<[i := v]> r) j = reg r j.
Proof. intros H. unfold reg. by rewrite list_lookup_insert_ne. Qed.

(** No other case has one of the numbers, they fit 16 bits and take no word from
    the stack. *)
Lemma denied_case h r NR :
  NR ∈ denied_calls ->
  find_case NR (control_cases h NR r ++ file_cases h NR r ++ socket_cases h NR r) = Some (fail EPERM) /\
  i32 NR = NR /\ NR <> 0 /\ NR <= SYS_abort_with_payload /\ spilled_words NR = 0.
Proof.
  unfold denied_calls. rewrite !elem_of_cons, elem_of_nil. intros Hn.
  repeat destruct Hn as [-> | Hn]; try done; (split; [reflexivity|by vm_compute]).
Qed.

Lemma dispatch_denied h r w NR :
  NR ∈ denied_calls -> reg r 12 = NR ->
  dispatch h r w = (Some (<[0%nat := EPERM]> r), set_carry true w).
Proof.
  intros Hn Hr. destruct (denied_case h r NR Hn) as (Hf & Hi & _). unfold dispatch. rewrite Hr, Hi.
  unfold mbind, sys_bind, update. by rewrite Hf.
Qed.

Lemma length_shifted r target s : length (shifted r target s) = length r.
Proof. unfold shifted. destruct s; cbn [foldl seq]; by rewrite !length_insert. Qed.

(** Calls that would act on the host process are refused.  Each of the numbers
    for processes, privileges, mounts, clocks and audit, made directly or through the
    indirect call, returns EPERM with the carry flag and has no other effect: no
    request to the host, no change of memory or tables, the stack pointer as it was. *)
Theorem refused_calls h r w NR :
  length r = 16%nat -> NR ∈ denied_calls -> reg r 12 = NR \/ reg r 12 = 0 /\ u16 (reg r 0) = NR ->
  exists r', CallSVC h r w = (Some r', set_carry true w) /\ reg r' 0 = EPERM /\ reg r' 13 = reg r 13.
Proof.
  intros Hlen Hn Hr. destruct (denied_case h r NR Hn) as (_ & Hi & Hz & Hmax & Hsp).
  unfold CallSVC. destruct Hr as [Hr | [Hr Ht]].
  - rewrite Hr, Hi, (proj2 (Z.eqb_neq _ _) Hz). rewrite (dispatch_denied h r w NR Hn Hr).
    eexists. split_and!; [done|apply reg_insert_eq; lia|by apply reg_insert_ne].
  - rewrite Hr. cbn [i32 Z.eqb]. unfold mbind at 1, sys_bind at 1, update, indirect. cbv zeta.
    rewrite Ht, (proj2 (Z.eqb_neq _ _) Hz), (proj2 (Z.ltb_ge _ _) Hmax). cbn [orb].
    rewrite Hsp. unfold mbind, sys_bind, mret, sys_ret. cbn [Z.eqb].
    set (s := shifted r NR None).
    assert (Hs : reg s 12 = NR).
    { unfold s, shifted. rewrite reg_insert_ne by done. apply reg_insert_eq. cbn [foldl seq].
      rewrite !length_insert. lia. }
    change (i32 0 =? 0) with true. cbv iota beta. rewrite (dispatch_denied h s (set_carry false w) NR Hn Hs).
    assert (H13 : reg s 13 = u32 (reg r 13 + 4)).
    { unfold s, shifted. apply reg_insert_eq. cbn [foldl seq]. rewrite !length_insert. lia. }
    eexists. split; [done|]. unfold restore_stack. rewrite reg_insert_ne, H13, Z.eqb_refl by done.
    assert (Hls : length s = 16%nat) by (unfold s; by rewrite length_shifted).
    rewrite reg_insert_ne by done. split; [apply reg_insert_eq; lia|].
    apply reg_insert_eq. rewrite length_insert. lia.
Qed.



(** ** The guest *)

Definition words (ws : list Z) : list Z := mjoin (le_bytes 4 <$> ws).

(** "/tmp/a", two vectors of two bytes, and a control block for four bytes. *)
Definition demo_memory : gmap Z Z :=
  foldl (fun m '(a, bs) => host_write m (0x5000 + a) bs) (host demo)
    [(0x100, text "/tmp/a"%string ++ [0]);
     (0x200, words [0x20000300; 2; 0x20000310; 2]);
     (0x400, words [5; 0; 0; 0x20000500; 4; 0; 0; 0; 0; 0; 0; 0])].

Definition demo_world : world := mkWorld (with_host demo_memory demo) false ∅ ∅ [].

Definition demo_kernel : kernel := {|
  host_answers := fun _ r =>
    match r with
    | Syscall 120 _ => mkAnswer 3 false 0 [[65; 66]; [67; 68]]
    | Syscall 5 _ => mkAnswer 9 false 0 []
    | Syscall 4 [_; InBuf bs; _] => if blen bs =? 2 then mkAnswer 2 false 0 [] else mkAnswer 35 true 0 []
    | Pread _ _ _ => mkAnswer 2 false 0 [[70; 71]]
    | _ => mkAnswer 0 false 0 []
    end;
  host_stops := fun _ => false; host_can_yield := fun _ => false; host_yields := fun _ => false;
  host_cwd := fun _ => inl ENOENT; vector_ok := fun _ => true; malloc_bytes := zeros;
  native_threads := true; workqueue_current := false;
  host_fs := mkFilesystem [([slash], text "/sandbox"%string)]; host_thread := 7 |}.

Lemma demo_world_ok : cache_ok (guest demo_world).
Proof. apply cache_ok_host, demo_cache_ok. Qed.

Lemma demo_bytes a : 0 <= host_byte (host (guest demo_world)) a.
Proof.
  assert (H : map_Forall (fun _ b : Z => 0 <= b) demo_memory)
    by (apply (bool_decide_eq_true_1 _); vm_compute; reflexivity).
  unfold host_byte. change (host (guest demo_world)) with demo_memory. destruct (demo_memory !! a) as [b|] eqn:E; [|cbn; lia]. exact (H a b E).
Qed.

(** open("/tmp/a", 0). *)
Definition open_registers : regs := [0x20000100; 0; 0; 0; 0; 0; 0; 0; 0; 0; 0; 0; 5; 0; 0; 0].

Lemma system_calls_mediated_witness :
  Forall (event_ok (request_ok demo_kernel))
    [Asked (Syscall 5 [CString (text "/sandbox/tmp/a"%string); Int 0; Int 0])] /\
  same_layout (guest demo_world) (guest (CallSVC demo_kernel open_registers demo_world).2).
Proof.
  destruct (system_calls_mediated demo_kernel open_registers demo_world demo_world_ok)
    as (events & E & Hev & _ & Hl).
  assert (Ev : events = [Asked (Syscall 5 [CString (text "/sandbox/tmp/a"%string); Int 0; Int 0])]).
  { assert (Ej : journal (CallSVC demo_kernel open_registers demo_world).2 =
                 [Asked (Syscall 5 [CString (text "/sandbox/tmp/a"%string); Int 0; Int 0])])
      by (vm_compute; reflexivity).
    rewrite Ej in E. cbn [journal demo_world] in E. by rewrite app_nil_r in E. }
  rewrite Ev in Hev. exact (conj Hev Hl).
Defined.

Lemma copy_cstring_exact_witness :
  (LC32CopyGuestCString demo_kernel 0x20000100 demo_world).1 = inr (text "/tmp/a"%string).
Proof.
  destruct (copy_cstring_exact demo_kernel 0x20000100 demo_world demo_world_ok) as (c & -> & _); [lia|].
  vm_compute. reflexivity.
Defined.

(** Three bytes into two vectors of two. *)
Lemma readv_exact_witness :
  exists w', guest_readv demo_kernel 120 8 0x20000200 2 demo_world = (3, w') /\ carry w' = false /\
    requests (journal w') = [Syscall 120 [Int 8; OutBuf 2; OutBuf 2; Int 2]].
Proof.
  destruct (guest_readv demo_kernel 120 8 0x20000200 2 demo_world) as [r w'] eqn:E.
  assert (Hr : r = 3).
  { apply (f_equal fst) in E. cbn [fst] in E. rewrite <- E. vm_compute. reflexivity. }
  destruct (readv_exact demo_kernel 120 8 0x20000200 2 demo_world r w' demo_world_ok ltac:(lia) demo_bytes E)
    as [[_ H]|(bs & hs & c & Hbs & H)].
  { rewrite Hr in H. exfalso. revert H. apply (bool_decide_eq_true_1 (3 ∉ _)). reflexivity. }
  cbv zeta in H. destruct H as (_ & Hc & Hq & _). exists w'. rewrite Hr. split_and!; [done|exact Hc|].
  rewrite Hq. assert (Ebs : bs = words [0x20000300; 2; 0x20000310; 2]).
  { assert (Hs : mapM (guest_byte (guest demo_world) PROT_READ) (seqZ 0x20000200 (2 * 8)) =
                 Some (words [0x20000300; 2; 0x20000310; 2])) by (vm_compute; reflexivity).
    rewrite Hs in Hbs. by injection Hbs. }
  rewrite Ebs. vm_compute. reflexivity.
Defined.

(** Two bytes of four. *)
Lemma aio_delivered_once_witness :
  exists w1 w2, guest_aio_read demo_kernel 0x20000400 demo_world = (0, w1) /\
    guest_aio_error 0x20000400 w1 = (0, set_carry false w1) /\
    guest_aio_return 0x20000400 w1 = (2, w2) /\
    guest_aio_return 0x20000400 w2 = (EINVAL, set_carry true w2).
Proof.
  destruct (guest_aio_read demo_kernel 0x20000400 demo_world) as [r w1] eqn:E.
  assert (Hr : r = 0) by (apply (f_equal fst) in E; cbn [fst] in E; rewrite <- E; vm_compute; reflexivity).
  assert (Hc : carry w1 = false) by (apply (f_equal snd) in E; cbn [snd] in E; rewrite <- E; vm_compute; reflexivity).
  assert (Ho : guestAioOperations w1 !! 0x20000400 = Some (mkCompletion 0 2))
    by (apply (f_equal snd) in E; cbn [snd] in E; rewrite <- E; vm_compute; reflexivity).
  subst r.
  destruct (aio_delivered_once demo_kernel 0x20000400 demo_world w1 demo_world_ok ltac:(lia) demo_bytes E Hc)
    as (bs & e & v & _ & _ & He & Hret).
  assert (e = 0) as ->.
  { unfold guest_aio_error, gets, mbind, sys_bind in He. rewrite Ho in He. by injection He. }
  destruct (Hret ltac:(done)) as (w2 & H2 & _ & _ & _ & _ & H3).
  exists w1, w2. split_and!; [done|done| |done]. rewrite H2. f_equal.
  unfold guest_aio_return, gets, mbind, sys_bind in H2. rewrite Ho in H2. by injection H2.
Defined.

(** kill through the indirect call. *)
Definition kill_registers : regs := [37; 1; 9; 0; 0; 0; 0; 0; 0; 0; 0; 0; 0; 0x20000f00; 0; 0].

Lemma refused_calls_witness :
  exists r', CallSVC demo_kernel kill_registers demo_world = (Some r', set_carry true demo_world) /\
    reg r' 0 = EPERM /\ reg r' 13 = 0x20000f00.
Proof.
  apply (refused_calls demo_kernel kill_registers demo_world 37); [reflexivity| |right; by split].
  apply (bool_decide_eq_true_1 _). reflexivity.
Defined.

(** ** A vectored write that fails half way

    The first vector is written, the second fails with EAGAIN (35): the guest gets
    the carry flag and 37, the sum of the two bytes written and the error. *)
Definition two_vectors : world :=
  mkWorld (with_host (host_write (host (guest demo_world)) 0x5600 (words [0x20000300; 2; 0x20000310; 3]))
             (guest demo_world)) false ∅ ∅ [].

Example writev_adds_errno :
  (guest_writev demo_kernel 121 8 0x20000600 2 two_vectors).1 = 37 /\
  carry (guest_writev demo_kernel 121 8 0x20000600 2 two_vectors).2 = true.
Proof. split; vm_compute; reflexivity. Qed.
