(* ===== verification/HostCalls.v ===== *)
(** Interruptible host calls
    (src/HostFrameworks/LC32/dynarmic_internal.h, [debugger_aware_host_wait];
    src/HostFrameworks/LC32/dynarmic_syscalls.cpp, [debugger_aware_mach_msg],
    [InterruptDebuggerMachCalls], [InterruptNativeThreadStateHostCalls],
    [DrainDebuggerMachCalls]).

    A thread that may block in the host publishes a record of the call; a thread
    that wants the guest to stop marks the records and aborts the host threads.
    The two meet in atomic variables and one mutex, so the model is a step relation:
    every load and store of an atomic variable is a step, and a critical section of
    a call is one step that waits for the mutex.

    A call publishes nothing when it starts with neither the debugger nor native
    guest threads enabled, and a [mach_msg] that neither sends nor receives never
    does: it goes straight to the host, and no interruption sees it ([Unpublished]). *)

From stdpp Require Import base gmap list sorting.
From Stdlib Require Import ZArith Lia.
From S2P Require Import Prelude.

Open Scope list_scope.
Open Scope Z_scope.

Inductive DebuggerMachCallPhase := Idle | Arming | InCall | Completing.

#[export] Instance phase_eq_dec : EqDecision DebuggerMachCallPhase.
Proof. solve_decision. Defined.

(** Where the thread of a call is.  [stopRequested] loads six variables in turn;
    the number is the next one. *)
Inductive point :=
| Start                         (* before the load of [guestDebuggerEnabled] *)
| Unpublished                   (* in the host without a record *)
| Register                      (* before the record is in the list *)
| FirstCheck (source : nat)
| Publish                       (* before [InCall] is stored *)
| SecondCheck (source : nat)
| Enter                         (* before the kernel is entered *)
| InHost
| Finish                        (* [finishCall] *)
| Erase
| Clear
| Return.                       (* pauses if needed, and returns *)

(** What the thread calls: a function of [debugger_aware_host_wait], or [mach_msg]
    with its options. *)
Inductive host_call :=
| HostWait
| MachMsg (option : Z).

Definition MACH_SEND_MSG : Z := 1.
Definition MACH_RCV_MSG : Z := 2.

(** A message call that is asked neither to send nor to receive. *)
Definition no_message (w : host_call) : bool :=
  match w with
  | HostWait => false
  | MachMsg option => Z.land option (Z.lor MACH_SEND_MSG MACH_RCV_MSG) =? 0
  end.

Record DebuggerMachCall := mkMachCall {
  wait : host_call;
  phase : DebuggerMachCallPhase;
  interruptRequested : bool;
  threadStateInterruptRequested : bool;
  thread : Z;
  guestThreadId : Z;
  forceAbort : bool;
  at_point : point
}.

Definition set_phase p c := mkMachCall (wait c) p (interruptRequested c) (threadStateInterruptRequested c)
  (thread c) (guestThreadId c) (forceAbort c) (at_point c).
Definition move p c := mkMachCall (wait c) (phase c) (interruptRequested c) (threadStateInterruptRequested c)
  (thread c) (guestThreadId c) (forceAbort c) p.
(** [interruptRequested.store(true)], and the other flag if wanted. *)
Definition mark (threadStatePause : bool) c := mkMachCall (wait c) (phase c) true
  (threadStatePause || threadStateInterruptRequested c) (thread c) (guestThreadId c) (forceAbort c) (at_point c).

(** Whether the debugger is on; and who asks to stop: each guest thread's pause
    request, and the process. *)
Record stop_flags := mkFlags {
  guestDebuggerEnabled : bool;
  threadStatePauseRequested : Z -> bool;
  debuggerInterruptRequested : bool;
  debuggerAllStopRequested : bool;
  nativeShutdownRequested : bool;
  guestProcessExitRequested : bool
}.

(** ** The interrupting thread *)

(** [InterruptDebuggerMachCalls] is for every guest thread;
    [InterruptNativeThreadStateHostCalls] for one; [DrainDebuggerMachCalls] repeats
    the first until it finds no active call. *)
Inductive interrupter :=
| DebuggerCalls
| Drain
| ThreadCalls (threadId : Z) (threadStatePause : bool).

(** Its position: the head of an attempt, in the list under the mutex, between the
    load of a phase and the stores, at the aborts, after an attempt, and the second
    scan of [DrainDebuggerMachCalls]. *)
Inductive scanner :=
| Head (attempt : Z)
| Scan (attempt : Z) (rest : list Z) (activeCalls : Z) (threads : list (Z * bool))
| Mark (attempt : Z) (call : Z) (seen : DebuggerMachCallPhase) (rest : list Z) (activeCalls : Z)
    (threads : list (Z * bool))
| Aborting (attempt : Z) (threads : list (Z * bool)) (activeCalls : Z)
| Attempted (attempt : Z) (activeCalls : Z)
| Returned (activeCalls : option Z)
| Rescan (rest : list Z)
| Drained.

Record state := mkState {
  calls : gmap Z DebuggerMachCall;
  next_call : Z;
  debuggerMachCalls : list Z;
  flags : stop_flags;
  scan : scanner
}.

Definition set_call id c s := mkState (<[id := c]> (calls s)) (next_call s) (debuggerMachCalls s) (flags s) (scan s).
Definition set_list l s := mkState (calls s) (next_call s) l (flags s) (scan s).
Definition set_scan x s := mkState (calls s) (next_call s) (debuggerMachCalls s) (flags s) x.
Definition set_flags f s := mkState (calls s) (next_call s) (debuggerMachCalls s) f (scan s).

(** [debuggerMachCallsMutex] held by the interrupting thread. *)
Definition locked (s : state) : bool :=
  match scan s with Scan _ _ _ _ | Mark _ _ _ _ _ _ | Rescan _ => true | _ => false end.

(** ** A call *)

Definition sources : nat := 6.

(** The variables of [stopRequested], in the order of the loads. *)
Definition stop_source (f : stop_flags) (c : DebuggerMachCall) (k : nat) : bool :=
  match k with
  | 0%nat => interruptRequested c
  | 1%nat => threadStatePauseRequested f (guestThreadId c)
  | 2%nat => debuggerInterruptRequested f
  | 3%nat => debuggerAllStopRequested f
  | 4%nat => nativeShutdownRequested f
  | 5%nat => guestProcessExitRequested f
  | _ => false
  end.

(** The test at the head of a call: no record is published.  [native] is
    [NativeGuestThreadsEnabled()], which is the same for the whole run. *)
Definition goes_unpublished (native : bool) (f : stop_flags) (w : host_call) : bool :=
  no_message w || (negb (guestDebuggerEnabled f) && negb native).

(** One step of [debugger_aware_host_wait] or [debugger_aware_mach_msg]; [None] when
    the thread has to wait for the mutex or has returned.  The steps from [InHost]
    and [Unpublished] are the host's. *)
Definition call_step (native : bool) (s : state) (id : Z) : option state :=
  c ← calls s !! id;
  match at_point c with
  | Start =>
      Some (set_call id (move (if goes_unpublished native (flags s) (wait c) then Unpublished else Register) c) s)
  | Unpublished => Some (set_call id (move Return c) s)
  | Register =>
      if locked s then None
      else Some (set_list (debuggerMachCalls s ++ [id]) (set_call id (move (FirstCheck 0) c) s))
  | FirstCheck k =>
      Some (set_call id
        (move (if bool_decide (k = sources) then Publish
               else if stop_source (flags s) c k then Finish else FirstCheck (S k)) c) s)
  | Publish => Some (set_call id (move (SecondCheck 0) (set_phase InCall c)) s)
  | SecondCheck k =>
      Some (set_call id
        (move (if bool_decide (k = sources) then Enter
               else if stop_source (flags s) c k then Finish else SecondCheck (S k)) c) s)
  | Enter => Some (set_call id (move InHost c) s)
  | InHost => Some (set_call id (move Finish c) s)
  | Finish => Some (set_call id (move Erase (set_phase Completing c)) s)
  | Erase =>
      if locked s then None
      else Some (set_list (filter (fun x => x <> id) (debuggerMachCalls s)) (set_call id (move Clear c) s))
  | Clear => Some (set_call id (move Return (set_phase Idle c)) s)
  | Return => None
  end.

(** A new call on a host thread with a port; the fields are those that its record
    will have.  Only [debugger_aware_host_wait] sets [forceAbort]. *)
Definition begin_call (native : bool) (s : state) (port guestThread : Z) (w : host_call) : state :=
  mkState (<[next_call s := mkMachCall w Arming false false port (if native then guestThread else 0)
                              (match w with HostWait => true | MachMsg _ => false end) Start]> (calls s))
    (next_call s + 1) (debuggerMachCalls s) (flags s) (scan s).

(** ** The scans *)

Definition retryCount : Z := 100.

Definition interruptionStillRequested (f : stop_flags) : bool :=
  debuggerInterruptRequested f || debuggerAllStopRequested f || nativeShutdownRequested f ||
  guestProcessExitRequested f.

Definition continues (i : interrupter) (f : stop_flags) (attempt : Z) : bool :=
  (attempt <? retryCount) &&
  match i with ThreadCalls _ _ => true | _ => interruptionStillRequested f end.

(** Not MACH_PORT_NULL and not MACH_PORT_DEAD. *)
Definition MACH_PORT_VALID (port : Z) : bool := negb (port =? 0) && negb (port =? UINT32_MAX).

(** [MACH_PORT_VALID] and the thread, if one is given. *)
Definition selected (i : interrupter) (c : DebuggerMachCall) : bool :=
  MACH_PORT_VALID (thread c) &&
  match i with ThreadCalls t _ => guestThreadId c =? t | _ => true end.

Definition active (p : DebuggerMachCallPhase) : bool := bool_decide (p = Arming) || bool_decide (p = InCall).

Definition with_pause (i : interrupter) : bool := match i with ThreadCalls _ p => p | _ => false end.

(** The threads to abort: one entry for a port, forced if one of its calls is;
    [retain] is whether a send right could be added. *)
Fixpoint add_thread (port : Z) (force : bool) (threads : list (Z * bool)) : list (Z * bool) :=
  match threads with
  | [] => [(port, force)]
  | (p, f) :: rest => if p =? port then (p, f || force) :: rest else (p, f) :: add_thread port force rest
  end.

Fixpoint insert_port (e : Z * bool) (l : list (Z * bool)) : list (Z * bool) :=
  match l with
  | [] => [e]
  | x :: r =>
      if (fst e <? fst x) || ((fst e =? fst x) && implb (snd e) (snd x)) then e :: l else x :: insert_port e r
  end.

(** [std::sort] and the loop that merges the entries of a port. *)
Definition merge_threads (retain : Z -> bool) (threads : list (Z * bool)) : list (Z * bool) :=
  filter (fun e => retain (fst e) = true)
    (foldl (fun acc '(p, f) => add_thread p f acc) [] (foldr insert_port [] threads)).

(** A thread is added at its first record that can be retained. *)
Definition collect_thread (i : interrupter) (retain : Z -> bool) (c : DebuggerMachCall)
    (threads : list (Z * bool)) : list (Z * bool) :=
  match i with
  | ThreadCalls _ _ =>
      if bool_decide (thread c ∈ threads.*1) || retain (thread c)
      then add_thread (thread c) (forceAbort c) threads else threads
  | _ => threads ++ [(thread c, forceAbort c)]
  end.

Definition to_abort (i : interrupter) (retain : Z -> bool) (threads : list (Z * bool)) : list (Z * bool) :=
  match i with ThreadCalls _ _ => threads | _ => merge_threads retain threads end.

(** [thread_abort]: the calls of the thread that are in the kernel return. *)
Definition abort_thread (port : Z) (cs : gmap Z DebuggerMachCall) : gmap Z DebuggerMachCall :=
  (fun c =>
     if thread c =? port
     then match at_point c with InHost => move Finish c | Unpublished => move Return c | _ => c end
     else c) <$> cs.

(** One step of the interrupting thread. *)
Definition scan_step (i : interrupter) (retain : Z -> bool) (s : state) : option state :=
  match scan s with
  | Head n =>
      Some (set_scan (if continues i (flags s) n then Scan n (debuggerMachCalls s) 0 [] else Returned None) s)
  | Scan n [] a threads => Some (set_scan (Aborting n (to_abort i retain threads) a) s)
  | Scan n (id :: rest) a threads =>
      c ← calls s !! id;
      Some (set_scan
        (if selected i c && active (phase c) then Mark n id (phase c) rest (a + 1) threads
         else Scan n rest a threads) s)
  | Mark n id seen rest a threads =>
      c ← calls s !! id;
      Some (set_scan
        (Scan n rest a (if bool_decide (seen = InCall) then collect_thread i retain c threads else threads))
        (set_call id (mark (with_pause i) c) s))
  | Aborting n [] a => Some (set_scan (Attempted n a) s)
  | Aborting n ((port, _) :: threads) a =>
      Some (mkState (abort_thread port (calls s)) (next_call s) (debuggerMachCalls s) (flags s)
              (Aborting n threads a))
  | Attempted n a =>
      Some (set_scan (if (a =? 0) || (n + 1 =? retryCount) then Returned (Some a) else Head (n + 1)) s)
  | Returned _ => match i with Drain => Some (set_scan (Rescan (debuggerMachCalls s)) s) | _ => None end
  | Rescan [] => Some (set_scan Drained s)
  | Rescan (id :: rest) =>
      c ← calls s !! id;
      Some (set_scan (if active (phase c) then Head 0 else Rescan rest) s)
  | Drained => None
  end.

(** ** The system

    Any thread may take a step; the stop requests change at any time; other
    interrupting threads mark calls that are in the list; a safe abort may have no
    effect. *)
Inductive step (native : bool) (i : interrupter) (retain : Z -> bool) (s : state) : state -> Prop :=
| step_begin port t w : MACH_PORT_VALID port = true -> step native i retain s (begin_call native s port t w)
| step_call id s' : call_step native s id = Some s' -> step native i retain s s'
| step_return id c :
    calls s !! id = Some c -> at_point c = Return ->
    step native i retain s (mkState (delete id (calls s)) (next_call s) (debuggerMachCalls s) (flags s) (scan s))
| step_flags f : step native i retain s (set_flags f s)
| step_scan s' : scan_step i retain s = Some s' -> step native i retain s s'
| step_safe_abort n port threads a :
    scan s = Aborting n ((port, false) :: threads) a -> step native i retain s (set_scan (Aborting n threads a) s)
| step_other id c p :
    calls s !! id = Some c -> id ∈ debuggerMachCalls s -> locked s = false ->
    step native i retain s (set_call id (mark p c) s).

Definition initial (f : stop_flags) : state := mkState ∅ 0 [] f (Returned None).

(** A new interruption; the interrupting thread is not under way. *)
Definition restart (s : state) : option state :=
  match scan s with Returned _ | Drained => Some (set_scan (Head 0) s) | _ => None end.

Inductive reachable (native : bool) (i : interrupter) (retain : Z -> bool) : state -> Prop :=
| reach_initial f : reachable native i retain (initial f)
| reach_step s s' : reachable native i retain s -> step native i retain s s' -> reachable native i retain s'
| reach_restart s s' : reachable native i retain s -> restart s = Some s' -> reachable native i retain s'.
