(* ===== verification/HostCallsProps.v ===== *)
(** After an interruption that found no active call, no guest thread is in a host
    call that published a record, or enters one, while the request stands; which
    calls publish none; a concrete interleaving. *)

From stdpp Require Import base gmap list.
From Stdlib Require Import ZArith Lia.
From S2P Require Import Prelude HostCalls.

Open Scope list_scope.
Open Scope Z_scope.

Section protocol.
Context (native : bool) (i : interrupter) (retain : Z -> bool).

#[local] Abbreviation step := (HostCalls.step native i retain).
#[local] Abbreviation reachable := (HostCalls.reachable native i retain).

(** ** The records *)

(** Past the load of source [k] in the second check: nothing but the host itself
    keeps the thread from the call. *)
Definition committed (k : nat) (c : DebuggerMachCall) : Prop :=
  match at_point c with SecondCheck j => (k < j)%nat | Enter | InHost => True | _ => False end.

(** The record is published in the list while the call can be under way, and its
    phase says so. *)
Definition call_ok (s : state) (id : Z) (c : DebuggerMachCall) : Prop :=
  id < next_call s /\ MACH_PORT_VALID (thread c) = true /\
  match at_point c with
  | Start | Register => phase c = Arming
  | Unpublished => no_message (wait c) = true \/ native = false
  | FirstCheck _ | Publish => phase c = Arming /\ id ∈ debuggerMachCalls s
  | SecondCheck _ | Enter | InHost => phase c = InCall /\ id ∈ debuggerMachCalls s
  | Finish | Erase => id ∈ debuggerMachCalls s
  | Clear | Return => True
  end.

Definition calls_ok (s : state) : Prop := map_Forall (call_ok s) (calls s).

Lemma call_ok_ext s s' id c :
  next_call s <= next_call s' -> (id ∈ debuggerMachCalls s -> id ∈ debuggerMachCalls s') ->
  call_ok s id c -> call_ok s' id c.
Proof.
  unfold call_ok. intros Hn Hl (? & ? & H). split_and!; [lia|done|]. destruct (at_point c); naive_solver.
Qed.

(** Marking changes neither position nor phase. *)
Lemma call_ok_mark s id c p : call_ok s id (mark p c) <-> call_ok s id c.
Proof. done. Qed.

(** Why a call publishes nothing. *)
Lemma goes_unpublished_why f w :
  goes_unpublished native f w = true ->
  no_message w = true \/ (native = false /\ guestDebuggerEnabled f = false).
Proof. unfold goes_unpublished. destruct (no_message w), (guestDebuggerEnabled f), native; naive_solver. Qed.

(** One record changes; the others stay in the list. *)
Lemma update_ok s s' id c :
  calls_ok s -> calls s' = <[id := c]> (calls s) -> next_call s' = next_call s ->
  (forall x, x <> id -> x ∈ debuggerMachCalls s -> x ∈ debuggerMachCalls s') ->
  call_ok s' id c -> calls_ok s'.
Proof.
  intros Hs Hcalls Hnext Hlist Hc x y Hx. rewrite Hcalls in Hx. destruct (decide (x = id)) as [-> | Hne].
  - rewrite lookup_insert_eq in Hx. by injection Hx as <-.
  - rewrite lookup_insert_ne in Hx by done. eapply call_ok_ext; [| |exact (Hs x y Hx)]; [lia|by apply Hlist].
Qed.

Lemma abort_ok port s :
  calls_ok s -> forall x : scanner,
  calls_ok (mkState (abort_thread port (calls s)) (next_call s) (debuggerMachCalls s) (flags s) x).
Proof.
  intros Hs x id c Hc. cbn in Hc. unfold abort_thread in Hc. apply lookup_fmap_Some in Hc as (c0 & <- & Hc).
  specialize (Hs id c0 Hc). destruct (thread c0 =? port); [|exact Hs].
  unfold call_ok in *. destruct (at_point c0) eqn:E; cbn; rewrite ?E; naive_solver.
Qed.

Lemma call_step_ok s id s' : calls_ok s -> call_step native s id = Some s' -> calls_ok s'.
Proof.
  intros Hs E. unfold call_step in E. apply bind_Some in E as (c & Hc & E).
  pose proof (Hs id c Hc) as Hok. unfold call_ok in Hok.
  destruct (at_point c) eqn:Hp; try (destruct (locked s)); simplify_eq.
  all: try (destruct (goes_unpublished _ _ _) eqn:Hun).
  all: eapply (update_ok s _ id); [done|reflexivity|reflexivity| |].
  all: cbn; try (intros x Hx Hin; rewrite ?elem_of_app, ?list_elem_of_filter; auto).
  all: unfold call_ok; cbn; split_and!; try apply Hok.
  all: try (case_bool_decide; cbn; [|destruct (stop_source _ _ _); cbn]).
  all: try apply Hok; try done.
  all: try (apply goes_unpublished_why in Hun; naive_solver).
  apply elem_of_app. right. constructor.
Qed.

Lemma scan_step_ok s s' : calls_ok s -> scan_step i retain s = Some s' -> calls_ok s'.
Proof.
  intros Hs E. unfold scan_step in E.
  destruct (scan s) as [|n [|id rest] a th|n id seen rest a th|n [|[port f] th] a| | |[|id rest]|]; simplify_eq; try done.
  - apply bind_Some in E as (c & Hc & E). by simplify_eq.
  - apply bind_Some in E as (c & Hc & E). simplify_eq.
    eapply (update_ok s _ id); [done|reflexivity|done|done|]. exact (Hs id c Hc).
  - by apply abort_ok.
  - destruct i; by simplify_eq.
  - apply bind_Some in E as (c & Hc & E). by simplify_eq.
Qed.

Lemma host_step_ok s s' : calls_ok s -> step s s' -> calls_ok s'.
Proof.
  intros Hs H. destruct H as [port t force Hp|id s' E|id c Hc Hp|f|s' E|n port th a E|id c p Hc Hin Hl].
  - intros x y Hx. cbn in Hx. destruct (decide (x = next_call s)) as [-> | Hne].
    + rewrite lookup_insert_eq in Hx. injection Hx as <-. unfold call_ok. cbn. split_and!; [lia|done|done].
    + rewrite lookup_insert_ne in Hx by done. eapply call_ok_ext; [| |exact (Hs x y Hx)]; cbn; [lia|done].
  - by eapply call_step_ok.
  - intros x y Hx. cbn in Hx. apply lookup_delete_Some in Hx as [_ Hx]. exact (Hs x y Hx).
  - exact Hs.
  - by eapply scan_step_ok.
  - exact Hs.
  - eapply (update_ok s _ id); [done|reflexivity|done|done|]. exact (Hs id c Hc).
Qed.

Lemma reachable_ok s : reachable s -> calls_ok s.
Proof.
  induction 1 as [f|s s' _ IH Hstep|s s' _ IH Hr]; [by apply map_Forall_empty|by eapply host_step_ok|].
  unfold restart in Hr. destruct (scan s); by simplify_eq.
Qed.

(** ** While a request stands *)

(** Source [k] asks every call that the interruption is for to stop. *)
Definition requested (k : nat) (s : state) : Prop :=
  (1 <= k)%nat /\ forall c, selected i c = true -> stop_source (flags s) c k = true.

(** Steps during which it does. *)
Inductive run (k : nat) (s : state) : state -> Prop :=
| run_refl : requested k s -> run k s s
| run_step s' s'' : run k s s' -> step s' s'' -> requested k s'' -> run k s s''
| run_restart s' s'' : run k s s' -> restart s' = Some s'' -> requested k s'' -> run k s s''.

Definition at_risk (k : nat) (s : state) (id : Z) : Prop :=
  exists c, calls s !! id = Some c /\ selected i c = true /\ committed k c.

Lemma source_move f c p k : (1 <= k)%nat -> stop_source f (move p c) k = stop_source f c k.
Proof. by destruct k as [|[|[|[|[|[|]]]]]]; [lia|..]. Qed.

(** No call commits itself while the request stands. *)
Lemma call_step_risk k s id s' x :
  requested k s -> call_step native s id = Some s' -> at_risk k s' x -> at_risk k s x.
Proof.
  intros [Hk Hreq] E (c' & Hx & Hsel & Hcom). unfold call_step in E. apply bind_Some in E as (c & Hc & E).
  destruct (decide (x = id)) as [-> | Hne].
  2: { exists c'. split; [|done]. destruct (at_point c); try (destruct (locked s)); simplify_eq; cbn in Hx;
       by rewrite lookup_insert_ne in Hx by done. }
  assert (Hlast : selected i c = true -> (k < sources)%nat).
  { intros Hc'. specialize (Hreq c Hc'). by destruct k as [|[|[|[|[|[|]]]]]]; try (unfold sources; lia). }
  exists c. split; [done|].
  destruct (at_point c) as [| | |j| |j| | | | | |] eqn:Hp; try (destruct (locked s)); simplify_eq;
    cbn in Hx; rewrite lookup_insert_eq in Hx; injection Hx as <-; split; try exact Hsel;
    unfold committed in *; rewrite ?Hp; cbn in Hcom; try done.
  all: try (by repeat case_match); try lia.
  all: try (destruct (goes_unpublished _ _ _); done).
  all: case_bool_decide as Hj; [subst j; by apply Hlast|].
  all: destruct (stop_source (flags s) c j) eqn:Hsrc; [done|].
  all: destruct (decide (k = j)) as [-> | Hne]; [|lia]; by rewrite Hreq in Hsrc.
Qed.

Lemma abort_risk k port s (x : scanner) id :
  at_risk k (mkState (abort_thread port (calls s)) (next_call s) (debuggerMachCalls s) (flags s) x) id ->
  at_risk k s id.
Proof.
  intros (c & Hc & Hsel & Hcom). cbn in Hc. unfold abort_thread in Hc.
  apply lookup_fmap_Some in Hc as (c0 & <- & Hc). exists c0. split; [done|].
  unfold committed in *. destruct (thread c0 =? port); [|done]. by destruct (at_point c0) eqn:E; cbn in *; rewrite ?E in *.
Qed.

Lemma mark_risk k s id c p x :
  calls s !! id = Some c -> at_risk k (set_call id (mark p c) s) x -> at_risk k s x.
Proof.
  intros Hc (y & Hy & Hsel & Hcom). cbn in Hy. destruct (decide (x = id)) as [-> | Hne].
  - rewrite lookup_insert_eq in Hy. injection Hy as <-. by exists c.
  - rewrite lookup_insert_ne in Hy by done. by exists y.
Qed.

Lemma scan_step_risk k s s' x : scan_step i retain s = Some s' -> at_risk k s' x -> at_risk k s x.
Proof.
  intros E Hx. unfold scan_step in E.
  destruct (scan s) as [|n [|id rest] a th|n id seen rest a th|n [|[port f] th] a| | |[|id rest]|]; simplify_eq; try done.
  - apply bind_Some in E as (c & Hc & E). by simplify_eq.
  - apply bind_Some in E as (c & Hc & E). simplify_eq. eapply mark_risk; [exact Hc|exact Hx].
  - by eapply abort_risk.
  - destruct i; by simplify_eq.
  - apply bind_Some in E as (c & Hc & E). by simplify_eq.
Qed.

Lemma step_risk k s s' x : requested k s -> step s s' -> at_risk k s' x -> at_risk k s x.
Proof.
  intros Hr H Hx. destruct H as [port t force Hp|id s' E|id c Hc Hp|f|s' E|n port th a E|id c p Hc Hin Hl].
  - destruct Hx as (c & Hc & Hsel & Hcom). cbn in Hc. destruct (decide (x = next_call s)) as [-> | Hne].
    + rewrite lookup_insert_eq in Hc. by injection Hc as <-.
    + rewrite lookup_insert_ne in Hc by done. by exists c.
  - by eapply call_step_risk.
  - destruct Hx as (y & Hy & Hsel & Hcom). cbn in Hy. apply lookup_delete_Some in Hy as [_ Hy]. by exists y.
  - exact Hx.
  - by eapply scan_step_risk.
  - exact Hx.
  - eapply mark_risk; [exact Hc|exact Hx].
Qed.

(** ** The scan *)

(** Every call at risk is still to be visited, or was counted. *)
Definition covered (k : nat) (s : state) : Prop :=
  match scan s with
  | Head _ | Returned None => True
  | Scan _ rest a _ => 0 <= a /\ forall id, at_risk k s id -> 0 < a \/ id ∈ rest
  | Mark _ _ _ _ a _ => 0 < a
  | Aborting _ _ a | Attempted _ a | Returned (Some a) => forall id, at_risk k s id -> 0 < a
  | Rescan rest => forall id, at_risk k s id -> id ∈ rest
  | Drained => forall id, ~ at_risk k s id
  end.

(** Steps that leave the scan where it is. *)
Lemma covered_mono k s s' :
  scan s' = scan s -> (forall x, at_risk k s' x -> at_risk k s x) -> covered k s -> covered k s'.
Proof.
  unfold covered. intros -> H. destruct (scan s) as [| | | | |[]| |]; naive_solver.
Qed.

(** A call at risk is in the list, with its phase published. *)
Lemma at_risk_listed k s id :
  calls_ok s -> at_risk k s id ->
  exists c, calls s !! id = Some c /\ selected i c = true /\ active (phase c) = true /\ id ∈ debuggerMachCalls s.
Proof.
  intros Hs (c & Hc & Hsel & Hcom). exists c. pose proof (Hs id c Hc) as (_ & _ & Hok).
  unfold committed in Hcom. destruct (at_point c); try done; destruct Hok as [Hp Hin]; rewrite Hp; done.
Qed.

Lemma scan_step_covered k s s' :
  calls_ok s -> covered k s -> scan_step i retain s = Some s' -> covered k s'.
Proof.
  intros Hs Hc E. pose proof (fun x => scan_step_risk k s s' x E) as Hrisk.
  unfold scan_step in E. unfold covered in Hc.
  destruct (scan s) as [n|n [|id rest] a th|n id seen rest a th|n [|[port f] th] a|n a|a|[|id rest]|] eqn:Es; simplify_eq.
  - unfold covered. destruct (continues _ _ _); cbn; [|done]. split; [done|].
    intros id Hid. right. by destruct (at_risk_listed k s id Hs (Hrisk id Hid)) as (_ & _ & _ & _ & Hin).
  - unfold covered. cbn. intros id Hid. destruct Hc as [_ Hc]. destruct (Hc id (Hrisk id Hid)) as [|?%elem_of_nil]; done.
  - apply bind_Some in E as (c & Hl & E). simplify_eq. unfold covered. cbn. destruct Hc as [Ha Hc].
    destruct (selected i c && active (phase c)) eqn:Hact; cbn; [lia|]. split; [done|].
    intros x Hx. destruct (Hc x (Hrisk x Hx)) as [|[-> | Hin]%elem_of_cons]; [by left| |by right].
    destruct (at_risk_listed k s id Hs (Hrisk id Hx)) as (c' & Hl' & Hsel & Hph & _).
    simplify_eq. by rewrite Hsel, Hph in Hact.
  - apply bind_Some in E as (c & Hl & E). simplify_eq. unfold covered. cbn. split; [lia|]. by left.
  - unfold covered. cbn. intros id Hid. by eapply Hc, Hrisk.
  - unfold covered. cbn. intros id Hid. by eapply Hc, Hrisk.
  - unfold covered. cbn. destruct (_ || _) eqn:Eo; cbn; [|done]. intros id Hid. by eapply Hc, Hrisk.
  - destruct i; try done. simplify_eq. unfold covered. cbn. intros id Hid.
    by destruct (at_risk_listed k s id Hs (Hrisk id Hid)) as (_ & _ & _ & _ & Hin).
  - unfold covered. cbn. intros id Hid. by apply Hrisk, Hc, elem_of_nil in Hid.
  - apply bind_Some in E as (c & Hl & E). simplify_eq. unfold covered. cbn.
    destruct (active (phase c)) eqn:Hact; cbn; [done|]. intros x Hx.
    pose proof (Hc x (Hrisk x Hx)) as [-> | Hin]%elem_of_cons; [|done].
    destruct (at_risk_listed k s id Hs (Hrisk id Hx)) as (c' & Hl' & _ & Hph & _). simplify_eq. congruence.
Qed.

Lemma step_covered k s s' : requested k s -> calls_ok s -> covered k s -> step s s' -> covered k s'.
Proof.
  intros Hr Hs Hc H. pose proof (fun x => step_risk k s s' x Hr H) as Hrisk.
  destruct H as [port t force Hp|id s' E|id c Hl Hp|f|s' E|n port th a E|id c p Hl Hin Hk].
  - by apply (covered_mono k s).
  - apply (covered_mono k s); [|done..]. unfold call_step in E. apply bind_Some in E as (c & Hl & E).
    destruct (at_point c); try (destruct (locked s)); by simplify_eq.
  - by apply (covered_mono k s).
  - by apply (covered_mono k s).
  - by eapply scan_step_covered.
  - unfold covered in *. rewrite E in Hc. cbn. intros id Hid. by eapply Hc, Hrisk.
  - by apply (covered_mono k s).
Qed.

Lemma restart_fields s s' : restart s = Some s' -> calls s' = calls s /\ debuggerMachCalls s' = debuggerMachCalls s /\
  next_call s' = next_call s /\ flags s' = flags s /\ scan s' = Head 0.
Proof. unfold restart. intros E. destruct (scan s); by simplify_eq. Qed.

Lemma run_invariant k s s' :
  run k s s' -> calls_ok s -> covered k s -> requested k s' /\ calls_ok s' /\ covered k s'.
Proof.
  intros H Hs Hc. induction H as [Hr|s' s'' _ IH Hstep Hr|s' s'' _ IH Hre Hr]; [done| |].
  - destruct IH as (? & ? & ?). split_and!; [done|by eapply host_step_ok|by eapply step_covered].
  - destruct IH as (? & Hok & ?). apply restart_fields in Hre as (Hcalls & Hl & Hn & _ & Hsc).
    split_and!; [done| |unfold covered; by rewrite Hsc].
    intros x c Hx. rewrite Hcalls in Hx. eapply call_ok_ext; [| |exact (Hok x c Hx)]; [lia|by rewrite Hl].
Qed.

Lemma run_risk k s s' x : run k s s' -> at_risk k s' x -> at_risk k s x.
Proof.
  intros H. assert (Hreq : forall a b, run k a b -> requested k b) by (by destruct 1).
  induction H as [Hr|s' s'' H IH Hstep Hr|s' s'' H IH Hre Hr]; [done| |].
  - intros Hx. apply IH. eapply step_risk; [by eapply Hreq|done|done].
  - intros (c & Hc & Hx). apply IH. apply restart_fields in Hre as (Hcalls & _). rewrite Hcalls in Hc. by exists c.
Qed.

Lemma run_requested k s s' : run k s s' -> requested k s'.
Proof. by destruct 1. Qed.

Lemma run_trans k s s' s'' : run k s s' -> run k s' s'' -> run k s s''.
Proof. intros H. induction 1; [done|by eapply run_step|by eapply run_restart]. Qed.

Lemma run_reachable k s s' : reachable s -> run k s s' -> reachable s'.
Proof. intros Hs. induction 1; [done|by eapply reach_step|by eapply reach_restart]. Qed.

(** ** Calls without a record *)

Definition unpublished (s : state) (id : Z) : Prop :=
  exists c, calls s !! id = Some c /\ at_point c = Unpublished /\ no_message (wait c) = false.

Lemma call_step_unpublished s x s' id :
  call_step native s x = Some s' -> unpublished s' id ->
  unpublished s id \/ guestDebuggerEnabled (flags s) = false.
Proof.
  intros E (c' & Hl & Hp & Hm). unfold call_step in E. apply bind_Some in E as (c & Hc & E).
  destruct (at_point c) eqn:Hpc; try (destruct (locked s)); simplify_eq;
    cbn in Hl; apply lookup_insert_Some in Hl as [[-> <-] | [_ Hl]]; try (left; by exists c');
    cbn in Hp, Hm; try done; try (by repeat case_match).
  all: destruct (goes_unpublished _ _ _) eqn:Hun; [|done].
  all: apply goes_unpublished_why in Hun as [? | [_ ?]]; [congruence|by right].
Qed.

Lemma abort_unpublished port s (x : scanner) id :
  unpublished (mkState (abort_thread port (calls s)) (next_call s) (debuggerMachCalls s) (flags s) x) id ->
  unpublished s id.
Proof.
  intros (c' & Hl & Hp & Hm). cbn in Hl. unfold abort_thread in Hl. apply lookup_fmap_Some in Hl as (c0 & <- & Hl).
  exists c0. destruct (thread c0 =? port); [|done]. destruct (at_point c0) eqn:Ep; cbn in *; by rewrite ?Ep in Hp.
Qed.

Lemma mark_unpublished s x c p id :
  calls s !! x = Some c -> unpublished (set_call x (mark p c) s) id -> unpublished s id.
Proof.
  intros Hc (c' & Hl & H). cbn in Hl. apply lookup_insert_Some in Hl as [[-> <-] | [_ Hl]]; [by exists c|by exists c'].
Qed.

Lemma scan_step_unpublished s s' id : scan_step i retain s = Some s' -> unpublished s' id -> unpublished s id.
Proof.
  intros E Hx. unfold scan_step in E.
  destruct (scan s) as [|n [|y rest] a th|n y seen rest a th|n [|[port f] th] a| | |[|y rest]|]; simplify_eq; try done.
  - apply bind_Some in E as (c & Hc & E). by simplify_eq.
  - apply bind_Some in E as (c & Hc & E). simplify_eq. eapply mark_unpublished; [exact Hc|exact Hx].
  - by eapply abort_unpublished.
  - destruct i; by simplify_eq.
  - apply bind_Some in E as (c & Hc & E). by simplify_eq.
Qed.

(** A call loses its record only by the load of [guestDebuggerEnabled]. *)
Lemma step_unpublished s s' id :
  step s s' -> unpublished s' id -> unpublished s id \/ guestDebuggerEnabled (flags s) = false.
Proof.
  intros H Hx. destruct H as [port t w Hv|x s' E|x c Hc Hr|f|s' E|n port th a E|x c p Hc Hin Hk].
  - destruct Hx as (c' & Hl & Hp & Hm). cbn in Hl.
    apply lookup_insert_Some in Hl as [[_ <-] | [_ Hl]]; [done|left; by exists c'].
  - by eapply call_step_unpublished.
  - destruct Hx as (c' & Hl & H). cbn in Hl. apply lookup_delete_Some in Hl as [_ Hl]. left. by exists c'.
  - by left.
  - left. by eapply scan_step_unpublished.
  - by left.
  - left. by eapply mark_unpublished.
Qed.

Lemma run_unpublished k s s' id :
  run k s s' -> unpublished s' id ->
  unpublished s id \/ exists u, run k s u /\ run k u s' /\ guestDebuggerEnabled (flags u) = false.
Proof.
  intros H. induction H as [Hr|s' s'' H IH Hstep Hr|s' s'' H IH Hre Hr]; intros Hx; [by left|..].
  - pose proof (run_requested _ _ _ H) as Hr'.
    destruct (step_unpublished _ _ _ Hstep Hx) as [Hx' | Hd].
    + destruct (IH Hx') as [? | (u & ? & ? & ?)]; [by left|right]. exists u. split_and!; [done|by eapply run_step|done].
    + right. exists s'. split_and!; [done|by eapply run_step; [apply run_refl|..]|done].
  - apply restart_fields in Hre as E. destruct E as (Hc & _).
    destruct IH as [? | (u & ? & ? & ?)]; [unfold unpublished; by rewrite <- Hc|by left|right].
    exists u. split_and!; [done|by eapply run_restart|done].
Qed.

(** Where a call without a record comes from. *)
Lemma unpublished_origin k s s' id c :
  run k s s' -> calls_ok s' -> calls s' !! id = Some c -> at_point c = Unpublished ->
  no_message (wait c) = true \/
  native = false /\
  ((exists c0, calls s !! id = Some c0 /\ at_point c0 = Unpublished) \/
   exists u, run k s u /\ run k u s' /\ guestDebuggerEnabled (flags u) = false).
Proof.
  intros H Hok Hl Hp. destruct (no_message (wait c)) eqn:Hm; [by left|right].
  split. { destruct (Hok id c Hl) as (_ & _ & Hw). rewrite Hp, Hm in Hw. by destruct Hw. }
  destruct (run_unpublished k s s' id H) as [(c0 & ? & ? & _) | ?]; [by exists c|left; by exists c0|by right].
Qed.
End protocol.

(** The interrupting thread returned after an attempt without active calls, or
    drained the calls. *)
Definition found_none (s : state) : Prop := scan s = Returned (Some 0) \/ scan s = Drained.

(** C3: an interruption that finds no active call has stopped every call that
    published a record.  Take any reachable state at the start of an attempt, and let a stop request (for the
    thread, or for the process) stand from there on.  When the interrupting thread
    returns after an attempt that counted no active call, or drains the calls, no
    call with a record that it is for is in the host or past the load of the
    request; and none gets there as long as the request stands, whatever the threads
    do in between.  A call without a record, which no interruption sees, is in the
    host only when it is a [mach_msg] that neither sends nor receives, or when
    native guest threads are off and it was there at the start or the debugger was
    off at some moment since. *)
Theorem host_calls_quiesced native i retain k s0 s1 s2 n :
  reachable native i retain s0 -> scan s0 = Head n ->
  run native i retain k s0 s1 -> found_none s1 -> run native i retain k s1 s2 ->
  forall id c, calls s2 !! id = Some c -> selected i c = true ->
    at_point c <> Enter /\ at_point c <> InHost /\ ~ committed k c /\
    (at_point c = Unpublished ->
       no_message (wait c) = true \/
       native = false /\
       ((exists c0, calls s0 !! id = Some c0 /\ at_point c0 = Unpublished) \/
        exists u, run native i retain k s0 u /\ run native i retain k u s2 /\ guestDebuggerEnabled (flags u) = false)).
Proof.
  intros Hre Hhead H1 Hf H2 id c Hc Hsel.
  destruct (run_invariant native i retain k s0 s1 H1) as (Hr1 & Hok1 & Hcov).
  { by eapply reachable_ok. } { unfold covered. by rewrite Hhead. }
  assert (Hno : forall x, ~ at_risk i k s1 x).
  { unfold covered in Hcov. destruct Hf as [E|E]; rewrite E in Hcov; [|done].
    intros x Hx. specialize (Hcov x Hx). lia. }
  assert (Hcom : ~ committed k c).
  { intros Hcom. apply (Hno id). eapply run_risk; [done|]. by exists c. }
  split_and!; [unfold committed in Hcom; by intros E; rewrite E in Hcom..|done|].
  pose proof (run_trans _ _ _ _ _ _ _ H1 H2) as H02.
  intros Hp. eapply unpublished_origin; [exact H02| |done..]. by eapply reachable_ok, run_reachable.
Qed.

(** A schedule: the call that steps, or the interrupting thread. *)
Fixpoint go (native : bool) (i : interrupter) (retain : Z -> bool) (schedule : list (option Z)) (s : state) : option state :=
  match schedule with
  | [] => Some s
  | Some id :: l => s' ← call_step native s id; go native i retain l s'
  | None :: l => s' ← scan_step i retain s; go native i retain l s'
  end.

Lemma call_step_flags native s id s' : call_step native s id = Some s' -> flags s' = flags s.
Proof.
  unfold call_step. intros E. apply bind_Some in E as (c & _ & E).
  destruct (at_point c); try (destruct (locked s)); by simplify_eq.
Qed.

Lemma scan_step_flags i retain s s' : scan_step i retain s = Some s' -> flags s' = flags s.
Proof.
  unfold scan_step. intros E.
  destruct (scan s) as [|n [|id rest] a th|n id seen rest a th|n [|[port f] th] a| | |[|id rest]|]; simplify_eq; try done.
  - apply bind_Some in E as (c & _ & E). by simplify_eq.
  - apply bind_Some in E as (c & _ & E). by simplify_eq.
  - destruct i; by simplify_eq.
  - apply bind_Some in E as (c & _ & E). by simplify_eq.
Qed.

Lemma go_reachable native i retain l s s' : reachable native i retain s -> go native i retain l s = Some s' -> reachable native i retain s'.
Proof.
  revert s. induction l as [|[id|] l IH]; intros s Hs E; cbn in E; [by simplify_eq|..];
    apply bind_Some in E as (s1 & E1 & E); (eapply IH; [|done]); (eapply reach_step; [done|]);
    by econstructor.
Qed.

Lemma go_run native i retain k l s0 s s' :
  run native i retain k s0 s -> go native i retain l s = Some s' -> run native i retain k s0 s'.
Proof.
  revert s. induction l as [|[id|] l IH]; intros s Hs E; cbn in E; [by simplify_eq|..];
    apply bind_Some in E as (s1 & E1 & E); (eapply IH; [|done]).
  all: assert (Hr : requested i k s) by (by destruct Hs).
  - eapply run_step; [done|by econstructor|]. unfold requested. by rewrite (call_step_flags _ _ _ _ E1).
  - eapply run_step; [done|by apply step_scan|]. unfold requested. by rewrite (scan_step_flags _ _ _ _ E1).
Qed.

Definition no_flags : stop_flags := mkFlags true (fun _ => false) false false false false.
Definition all_stop : stop_flags := mkFlags true (fun _ => false) false true false false.

(** A call of host thread 5 that has come to the host. *)
Definition blocked : state :=
  default (initial no_flags) (go false DebuggerCalls (fun _ => true) (replicate 18 (Some 0))
    (begin_call false (initial no_flags) 5 1 HostWait)).
Definition stopping : state := set_scan (Head 0) (set_flags all_stop blocked).
Definition stopped : state :=
  default (initial no_flags)
    (go false DebuggerCalls (fun _ => true) (replicate 7 None ++ [Some 0] ++ replicate 5 None) stopping).

Lemma blocked_in_host : at_point <$> calls blocked !! 0 = Some InHost.
Proof. vm_compute. reflexivity. Qed.

Lemma host_calls_quiesced_witness :
  at_point <$> calls blocked !! 0 = Some InHost /\ found_none stopped /\
  forall c, calls stopped !! 0 = Some c -> at_point c <> InHost.
Proof.
  split; [exact blocked_in_host|].
  assert (Hf : found_none stopped) by (left; vm_compute; reflexivity). split; [exact Hf|].
  assert (Hreq : requested DebuggerCalls 3 stopping) by (split; [lia|done]).
  assert (H0 : reachable false DebuggerCalls (fun _ => true) stopping).
  { apply (reach_restart _ _ _ (set_flags all_stop blocked)); [|vm_compute; reflexivity].
    eapply reach_step; [|apply step_flags].
    eapply (go_reachable _ _ _ (replicate 18 (Some 0)) (begin_call false (initial no_flags) 5 1 HostWait)).
    - eapply reach_step; [apply reach_initial|by apply step_begin].
    - vm_compute. reflexivity. }
  assert (H1 : run false DebuggerCalls (fun _ => true) 3 stopping stopped).
  { eapply go_run; [by apply run_refl|]. unfold stopped.
    instantiate (1 := replicate 7 None ++ [Some 0] ++ replicate 5 None). vm_compute. reflexivity. }
  assert (H2 : run false DebuggerCalls (fun _ => true) 3 stopped stopped) by (apply run_refl; by destruct H1).
  intros c Hc.
  destruct (host_calls_quiesced false DebuggerCalls (fun _ => true) 3 stopping stopped stopped 0 H0 eq_refl H1 Hf H2 0 c Hc)
    as (_ & H & _); [|exact H].
  revert Hc. vm_compute. by intros [= <-].
Defined.

(** The exception is real: a call that began while the debugger was off is in the
    host when an interruption, with the debugger on, finds no active call. *)
Definition debugger_off : stop_flags := mkFlags false (fun _ => false) false false false false.
Definition unseen : state :=
  default (initial no_flags)
    (go false DebuggerCalls (fun _ => true) (replicate 4 None)
       (set_scan (Head 0) (set_flags all_stop
          (default (initial no_flags)
             (go false DebuggerCalls (fun _ => true) [Some 0] (begin_call false (initial debugger_off) 5 1 HostWait)))))).

Lemma unpublished_call_unseen :
  scan unseen = Returned (Some 0) /\ at_point <$> calls unseen !! 0 = Some Unpublished.
Proof. vm_compute. by split. Qed.
