(* ===== verification/VmTraps.v ===== *)
(** The Mach virtual-memory traps and the BSD calls that unmap and protect
    (src/HostFrameworks/LC32/dynarmic_syscalls.cpp): vm_allocate, vm_map,
    vm_deallocate, vm_protect, vm_purgable_control, munmap and mprotect.  They
    compose the checked accesses of GuestMemory.v with the mapping operations of
    GuestMapping.v; [None] is a failed assertion of those operations.
    VmTrapsProps.v proves what they promise. *)

From stdpp Require Import base gmap list.
From Stdlib Require Import ZArith Lia.
From S2P Require Import Prelude Bytes VmEpoch GuestMemory GuestMapping Syscalls.
Open Scope Z_scope.

Definition VM_FLAGS_PURGABLE : Z := 0x2.
Definition MACH_SEND_INVALID_DEST : Z := 0x10000003.
Definition VM_PURGABLE_SET_STATE : Z := 0.
Definition VM_PURGABLE_GET_STATE : Z := 1.
Definition VM_PURGABLE_PURGE_ALL : Z := 2.

(** [x & ~u64(DYN_PAGE_MASK)], and the same after rounding up. *)
Definition page_down (x : Z) : Z := Z.land x (u64_not DYN_PAGE_MASK).
Definition page_up (x : Z) : Z := page_down (u64 (x + DYN_PAGE_MASK)).

(** [GuestVmRangeHasMappingLocked]. *)
Definition GuestVmRangeHasMappingLocked (s : vm) (address size : Z) : bool :=
  if (memory_handle s =? 0) || (size =? 0) || negb (page_offset address =? 0) ||
     negb (page_offset size =? 0) || negb (GuestAddressRangeIsValid32 address size)
  then false
  else existsb (fun v => bool_decide (is_Some (memory s !! v)))
         (page_addrs address (u64 (address + size))).

Section traps.
(** The host: what it answers during the call, the purgeable-memory trap
    (address, control, state: the result and the state it stores), and the
    calling thread. *)
Context (env : host_env) (collect_ok : bool) (mach_task_self : Z)
        (purgable_control : Z -> Z -> Z -> Z * Z) (tid : Z).

(** A trap answers a [kern_return_t] and leaves a state. *)
Definition trap := vm -> option (Z * vm).

(** Storing the in/out address: [KERN_INVALID_ADDRESS] if the guest cannot be
    written. *)
Definition store_address (guest_address value : Z) (s : vm) : bool * vm :=
  write_guest_memory_with_permissions tid s guest_address (le_bytes 8 value) PROT_WRITE.

Definition finish_store (o : bool * vm) : option (Z * vm) :=
  Some (if o.1 then KERN_SUCCESS else KERN_INVALID_ADDRESS, o.2).

(** [guest__kernelrpc_mach_vm_protect_trap]. *)
Definition guest_mach_vm_protect (target address size setMaximum protection : Z) : trap := fun s =>
  if negb (target =? mach_task_self) then Some (KERN_INVALID_ARGUMENT, s) else
  if negb (GuestProtectionIsValid protection) then Some (KERN_INVALID_ARGUMENT, s) else
  if negb (setMaximum =? 0) then Some (KERN_NOT_SUPPORTED, s) else
  if negb (GuestAddressRangeIsValid32 address size) then Some (KERN_INVALID_ADDRESS, s) else
  if size =? 0 then Some (KERN_SUCCESS, s) else
  let start := page_down address in
  let end_ := page_up (u64 (address + size)) in
  '(r, s1) ← Dynarmic_mprotect env collect_ok start (u64 (end_ - start)) protection s;
  Some (match r with
        | Ret _ => KERN_SUCCESS
        | Errno e => if e =? ENOMEM then KERN_INVALID_ADDRESS else KERN_PROTECTION_FAILURE
        end, s1).

(** [guest__kernelrpc_mach_vm_allocate_trap]. *)
Definition guest_mach_vm_allocate (target guest_address size flags : Z) : trap := fun s =>
  if negb (target =? mach_task_self) then Some (KERN_FAILURE, s) else
  let anywhere := has_flag flags VM_FLAGS_ANYWHERE in
  let overwrite := has_flag flags VM_FLAGS_OVERWRITE in
  let '(supplied, s1) := read_guest_memory_with_permissions tid s guest_address 8 PROT_READ in
  match supplied with
  | None => Some (KERN_INVALID_ADDRESS, s1)
  | Some bytes =>
      if size =? 0 then finish_store (store_address guest_address 0 s1) else
      if UINT64_MAX - DYN_PAGE_MASK <? size then Some (KERN_NO_SPACE, s1) else
      let allocationSize := page_up size in
      let requestedAddress := if anywhere then 0 else page_down (le_int bytes) in
      if negb (GuestAddressRangeIsValid32 requestedAddress allocationSize)
      then Some (KERN_NO_SPACE, s1) else
      let map fixed :=
        Dynarmic_mmap env (u32 requestedAddress) allocationSize (Z.lor PROT_READ PROT_WRITE)
          (Z.lor (Z.lor MAP_PRIVATE MAP_ANONYMOUS) (if fixed : bool then MAP_FIXED else 0))
          (-1) 0 DYN_PAGE_MASK (has_flag flags VM_FLAGS_PURGABLE) s1 in
      if negb anywhere && negb overwrite &&
         GuestVmRangeHasMappingLocked s1 (u32 requestedAddress) allocationSize
      then Some (KERN_NO_SPACE, s1) else
      '(r, s2) ← map (negb anywhere);
      match r with
      | Errno _ => Some (KERN_NO_SPACE, s2)
      | Ret result => finish_store (store_address guest_address result s2)
      end
  end.

(** [guest__kernelrpc_mach_vm_map_trap]; only VM_FLAGS_ANYWHERE is supported. *)
Definition guest_mach_vm_map (target guest_address size mask flags cur_protection : Z) : trap := fun s =>
  if negb (target =? mach_task_self) then Some (KERN_FAILURE, s) else
  let '(supplied, s1) := read_guest_memory_with_permissions tid s guest_address 8 PROT_READ in
  match supplied with
  | None => Some (KERN_INVALID_ADDRESS, s1)
  | Some _ =>
      if negb (has_flag flags VM_FLAGS_ANYWHERE) then Some (KERN_FAILURE, s1) else
      '(r, s2) ← Dynarmic_mmap env 0 size cur_protection (Z.lor MAP_PRIVATE MAP_ANONYMOUS) (-1) 0
                   (if mask =? 0 then DYN_PAGE_MASK else mask) (has_flag flags VM_FLAGS_PURGABLE) s1;
      match r with
      | Errno _ => Some (KERN_NO_SPACE, s2)
      | Ret result =>
          let '(stored, s3) := store_address guest_address result s2 in
          if stored then Some (KERN_SUCCESS, s3) else
          '(_, s4) ← Dynarmic_munmap result size s3;
          Some (KERN_INVALID_ADDRESS, s4)
      end
  end.

(** [guest__kernelrpc_mach_vm_deallocate_trap]. *)
Definition guest_mach_vm_deallocate (target address size : Z) : trap := fun s =>
  if negb (target =? mach_task_self) then Some (KERN_FAILURE, s) else
  if size =? 0 then Some (KERN_SUCCESS, s) else
  if UINT64_MAX - address <? size then Some (KERN_INVALID_ARGUMENT, s) else
  let end_ := u64 (address + size) in
  if (2 ^ 32 <? end_) || (UINT64_MAX - DYN_PAGE_MASK <? end_) then Some (KERN_INVALID_ADDRESS, s) else
  let alignedAddress := page_down address in
  let alignedEnd := page_up end_ in
  '(r, s1) ← Dynarmic_munmap alignedAddress (u64 (alignedEnd - alignedAddress)) s;
  Some (match r with Ret _ => KERN_SUCCESS | Errno _ => KERN_FAILURE end, s1).

(** [guest__kernelrpc_mach_vm_purgable_control_trap]: the page's host address is
    what the host operates on; PURGE_ALL ignores the address. *)
Definition guest_mach_vm_purgable_control (target guest_address control guest_state : Z) : trap := fun s =>
  if negb (target =? mach_task_self) then Some (MACH_SEND_INVALID_DEST, s) else
  let '(supplied, s1) := read_guest_memory_with_permissions tid s guest_state 4 PROT_READ in
  match supplied with
  | None => Some (KERN_INVALID_ADDRESS, s1)
  | Some bytes =>
      if negb (control =? VM_PURGABLE_SET_STATE) && negb (control =? VM_PURGABLE_GET_STATE) &&
         negb (control =? VM_PURGABLE_PURGE_ALL)
      then Some (KERN_INVALID_ARGUMENT, s1) else
      let finish o :=
        let '(result, state) := (o : Z * Z) in
        if negb (result =? KERN_SUCCESS) then Some (result, s1) else
        let '(stored, s2) :=
          write_guest_memory_with_permissions tid s1 guest_state (le_bytes 4 state) PROT_WRITE in
        Some (if stored then KERN_SUCCESS else KERN_INVALID_ADDRESS, s2) in
      if control =? VM_PURGABLE_PURGE_ALL
      then finish (purgable_control 0 control (le_int bytes)) else
      if UINT32_MAX <? guest_address then Some (KERN_INVALID_ADDRESS, s1) else
      if memory_handle s1 =? 0 then Some (KERN_INVALID_ADDRESS, s1) else
      match memory s1 !! page_down guest_address with
      | None => Some (KERN_INVALID_ADDRESS, s1)
      | Some page =>
          if addr page =? 0 then Some (KERN_INVALID_ADDRESS, s1) else
          finish (purgable_control (u64 (addr page + page_offset guest_address)) control (le_int bytes))
      end
  end.

(** [guest_munmap] and [guest_mprotect]: the value, and whether carry is set. *)
Definition bsd_result (o : option (result * vm)) : option (Z * bool * vm) :=
  '(r, s) ← o; Some (match r with Ret v => (v, false) | Errno e => (e, true) end, s).

Definition guest_munmap (guest_addr len : Z) (s : vm) := bsd_result (Dynarmic_munmap guest_addr len s).

Definition guest_mprotect (guest_addr len prot : Z) (s : vm) :=
  bsd_result (Dynarmic_mprotect env collect_ok guest_addr len prot s).
End traps.
