(* ===== verification/VmTrapsProps.v ===== *)
(** What the virtual-memory traps promise: vm_allocate and vm_map keep the
    address-space invariant, never take a page that is in use without being told
    to, and report the address they chose; deallocate and protect act on exactly
    the pages a byte range touches.  Concrete traps show that the hypotheses hold. *)

From stdpp Require Import base gmap list list_numbers.
From Stdlib Require Import ZArith Lia.
From S2P Require Import Prelude VmEpoch GuestMemory GuestRawMemory GuestMapping GuestReserve VmInvariant.
From S2P Require Import MappingProps ProtectProps MemoryWitness Bytes Syscalls SyscallLogic VmTraps.

Open Scope Z_scope.

(** ** Accesses keep the invariant *)

Lemma settled_fields s s' : settled s s' ->
  memory s' = memory s /\ backings s' = backings s /\ epochs s' = epochs s /\
  memory_handle s' = memory_handle s /\ guestMemoryLookupGeneration s' = guestMemoryLookupGeneration s.
Proof. by intros [_ (c & b & ->)]. Qed.

Lemma settled_vm_ok s s' : vm_ok s -> settled s s' -> vm_ok s'.
Proof.
  intros [[K P B] T C] [Hc (c & b & ->)]. split; [|exact T|exact Hc].
  split; [exact K|exact P|]. intros x bk Hx. by destruct (B x bk Hx).
Qed.

(** ** Rounding to pages *)

(** The pages a byte range touches. *)
Definition touched (address size w : Z) : Prop :=
  0 < size /\ w mod DYN_PAGE_SIZE = 0 /\ w < address + size /\ address < w + DYN_PAGE_SIZE.

Lemma page_down_spec x : 0 <= x < U64_MOD -> page_down x = DYN_PAGE_SIZE * (x / DYN_PAGE_SIZE).
Proof. intros. unfold page_down. exact (land_u64_not_ones x 12 ltac:(lia) H). Qed.

Lemma page_down_range x : 0 <= page_down x /\ page_down x mod DYN_PAGE_SIZE = 0.
Proof.
  unfold page_down. split; [apply Z.land_nonneg; by right|].
  change DYN_PAGE_SIZE with (2 ^ 12). rewrite <- Z.land_ones, <- Z.land_assoc by done.
  change (Z.land (u64_not DYN_PAGE_MASK) (Z.ones 12)) with 0. apply Z.land_0_r.
Qed.

Lemma page_up_spec x : 0 <= x -> x + DYN_PAGE_MASK < U64_MOD ->
  page_up x = DYN_PAGE_SIZE * ((x + DYN_PAGE_MASK) / DYN_PAGE_SIZE).
Proof.
  intros. unfold page_up. assert (0 <= DYN_PAGE_MASK) by done. rewrite u64_small by lia.
  apply page_down_spec. lia.
Qed.

Lemma touched_pages address size w : 0 <= address -> 0 < size -> address + size <= 2 ^ 32 ->
  w ∈ page_addrs (page_down address) (page_up (address + size)) <-> touched address size w.
Proof.
  intros Ha Hs He. assert (2 ^ 33 < U64_MOD) as H33 by done.
  rewrite page_down_spec, page_up_spec by (unfold DYN_PAGE_MASK; lia).
  rewrite elem_of_page_addrs. unfold touched, DYN_PAGE_SIZE, DYN_PAGE_MASK in *.
  pose proof (Z.div_mod address 4096 ltac:(done)) as Da.
  pose proof (Z.mod_pos_bound address 4096 ltac:(done)) as Ma.
  pose proof (Z.div_mod (address + size + 4095) 4096 ltac:(done)) as De.
  pose proof (Z.mod_pos_bound (address + size + 4095) 4096 ltac:(done)) as Me.
  split; intros (H1 & H2).
  - apply Z.mod_divide in H2 as [k Hk]; [|done].
    split; [done|]. split; [apply Z.mod_divide; [done|]; exists (k + address / 4096); lia|lia].
  - destruct H2 as (H2 & H3 & H4). apply Z.mod_divide in H2 as [k Hk]; [|done]. split; [lia|].
    apply Z.mod_divide; [done|]. exists (k - address / 4096). lia.
Qed.

(** ** The address the guest is told *)

(** The eight bytes at [guest_address] are [value] (if no two of them share a
    host byte). *)
Definition told (s : vm) (guest_address value : Z) : Prop :=
  exists hs, mapM (translate s PROT_WRITE) (seqZ guest_address 8) = Some hs /\
    (NoDup hs -> host_bytes (host s) hs = le_bytes 8 value).

Lemma store_address_spec tid guest_address value s :
  vm_ok s -> 0 <= guest_address ->
  exists o s', store_address tid guest_address value s = (o, s') /\ settled s s' /\
    (if o : bool then told s' guest_address value else host s' = host s).
Proof.
  intros Hok Ha. unfold store_address.
  destruct (write_spec tid s guest_address (le_bytes 8 value) PROT_WRITE (vm_cache _ Hok) Ha) as (c & Hc & ->).
  rewrite length_le_bytes. change (Z.of_nat 8) with 8.
  destruct (if GuestAddressRangeIsValid32 guest_address 8 then _ else _) as [hs|] eqn:E.
  - do 2 eexists. split; [done|]. split.
    + eapply settled_trans; [by apply settled_caches|]. by apply settled_host.
    + destruct (GuestAddressRangeIsValid32 _ _); [|done]. exists hs. split; [exact E|].
      intros Hnd. apply store_bytes_read; [done|].
      apply length_mapM in E. by rewrite <- E, length_seqZ, length_le_bytes.
  - do 2 eexists. split; [done|]. split; [by apply settled_caches|done].
Qed.

(** ** vm_allocate *)

Definition rw : Z := Z.lor PROT_READ PROT_WRITE.
Definition allocate_flags (flags : Z) : Z :=
  Z.lor (Z.lor MAP_PRIVATE MAP_ANONYMOUS) (if negb (has_flag flags VM_FLAGS_ANYWHERE) then MAP_FIXED else 0).

Lemma allocate_fixed flags : has_flag (allocate_flags flags) MAP_FIXED = negb (has_flag flags VM_FLAGS_ANYWHERE).
Proof. unfold allocate_flags. by destruct (has_flag flags VM_FLAGS_ANYWHERE). Qed.

(** A change confined to free pages keeps every page. *)
Lemma kept_outside (m m' : gmap Z memory_page) (vs : list Z) :
  (forall v, v ∈ vs -> m !! v = None) -> (forall w, w ∉ vs -> m' !! w = m !! w) -> m ⊆ m'.
Proof.
  intros Hfree Hout. apply map_subseteq_spec. intros w p Hw. rewrite Hout; [done|].
  intros Hin. by rewrite Hfree in Hw.
Qed.

Lemma no_mapping_free s a sz :
  memory_handle s <> 0 -> 0 < sz -> a mod DYN_PAGE_SIZE = 0 -> sz mod DYN_PAGE_SIZE = 0 ->
  0 <= a -> a + sz <= 2 ^ 32 -> GuestVmRangeHasMappingLocked s a sz = false ->
  forall v, v ∈ page_addrs a (a + sz) -> memory s !! v = None.
Proof.
  intros Hh Hs Ha Hm H0 He. unfold GuestVmRangeHasMappingLocked. assert (2 ^ 33 < U64_MOD) by done.
  rewrite !page_offset_mod, Ha, Hm, u64_small by lia.
  assert (GuestAddressRangeIsValid32 a sz = true) as ->.
  { unfold GuestAddressRangeIsValid32. apply andb_true_intro. split; [apply Z.ltb_lt|apply Z.leb_le]; lia. }
  rewrite (proj2 (Z.eqb_neq _ _) Hh), (proj2 (Z.eqb_neq sz 0)) by lia. cbn. intros Hex v Hv.
  apply eq_None_not_Some. intros Hin. rewrite <- not_true_iff_false in Hex. apply Hex, existsb_exists.
  exists v. split; [by apply list_elem_of_In|by apply bool_decide_eq_true_2].
Qed.

(** What a successful allocation at [a] leaves behind: exactly its range is
    mapped readable and writable, and the guest is told the address. *)
Definition allocated (s s' : vm) (guest_address a sz : Z) : Prop :=
  DYN_PAGE_SIZE <= a /\ a + sz <= 2 ^ 32 /\ a mod DYN_PAGE_SIZE = 0 /\
  (forall w, w ∈ page_addrs a (a + sz) -> exists p, memory s' !! w = Some p /\ perms p = rw) /\
  (forall w, w ∉ page_addrs a (a + sz) -> memory s' !! w = memory s !! w) /\
  told s' guest_address a.

Section traps.
Context (env : host_env) (mach_task_self tid : Z).
#[local] Abbreviation allocate := (guest_mach_vm_allocate env mach_task_self tid).

(** What every exit of a trap that maps at a fresh place has to say. *)
Definition trap_post (s : vm) (kept : Prop) (success : vm -> Prop) (o : option (Z * vm)) : Prop :=
  exists r s', o = Some (r, s') /\ vm_ok s' /\ (kept -> memory s ⊆ memory s') /\
    (r <> KERN_SUCCESS -> r <> KERN_INVALID_ADDRESS -> memory s' = memory s) /\
    (r = KERN_SUCCESS -> success s').

(** An exit that mapped nothing. *)
Lemma trap_post_settled s s1 kept success r :
  vm_ok s -> settled s s1 -> (r = KERN_SUCCESS -> success s1) -> trap_post s kept success (Some (r, s1)).
Proof.
  intros Hok Hs Hr. destruct (settled_fields _ _ Hs) as (E & _).
  exists r, s1. rewrite E. split_and!; [done|by eapply settled_vm_ok|intros _; reflexivity|done|done].
Qed.

Section allocate.
Context (target guest_address size flags : Z) (s : vm).
#[local] Abbreviation anywhere := (has_flag flags VM_FLAGS_ANYWHERE).
#[local] Abbreviation overwrite := (has_flag flags VM_FLAGS_OVERWRITE).

Definition allocate_success (s' : vm) : Prop :=
  0 < size -> exists a, allocated s s' guest_address a (page_up size) /\
    (anywhere = false -> exists bytes,
       (read_guest_memory_with_permissions tid s guest_address 8 PROT_READ).1 = Some bytes /\
       a = page_down (le_int bytes)).

Context (Hok : vm_ok s) (Hhandle : memory_handle s <> 0) (Hgen : guestMemoryLookupGeneration s < UINT64_MAX)
  (Haddr : 0 <= guest_address) (Hsize : 0 <= size < U64_MOD)
  (Hhost : mmap_host_ok env s rw (page_up size) (allocate_flags flags) (-1) 0 (has_flag flags VM_FLAGS_PURGABLE)).

(** The mapping and the store, after the arguments were accepted. *)
Lemma allocate_mapping s1 requested :
  settled s s1 -> 0 <= requested < 2 ^ 32 -> requested mod DYN_PAGE_SIZE = 0 ->
  (anywhere = false -> exists bytes,
     (read_guest_memory_with_permissions tid s guest_address 8 PROT_READ).1 = Some bytes /\
     requested = page_down (le_int bytes)) ->
  (anywhere = false -> overwrite = false ->
     forall v, v ∈ page_addrs requested (requested + page_up size) -> memory s !! v = None) ->
  0 <= page_up size ->
  trap_post s (overwrite = false \/ anywhere = true) allocate_success
    ('(r, s2) ← Dynarmic_mmap env requested (page_up size) rw (allocate_flags flags) (-1) 0 DYN_PAGE_MASK
        (has_flag flags VM_FLAGS_PURGABLE) s1;
     match r with
     | Errno _ => Some (KERN_NO_SPACE, s2)
     | Ret result => finish_store (store_address tid guest_address result s2)
     end).
Proof.
  intros Hs1 Hreq Hal Hasked Hfree Hup. destruct (settled_fields _ _ Hs1) as (Em & Eb & Ee & _ & Eg).
  destruct (mmap_spec env requested (page_up size) rw (allocate_flags flags) (-1) 0 DYN_PAGE_MASK
    (has_flag flags VM_FLAGS_PURGABLE) s1) as (r & s2 & -> & Hok2 & Hr); try lia;
    [by eapply settled_vm_ok|done|by destruct Hhost; split; rewrite ?Eb, ?Ee|]. cbn.
  destruct r as [a|e]; [|subst s2; by apply trap_post_settled].
  destruct Hr as (_ & Hpos & Hm & first & b & _ & Hlo & Hhi & Haal & Hnew & Hfix & Hin & Hout).
  rewrite allocate_fixed, Em in *.
  destruct (store_address_spec tid guest_address a s2 Hok2 Haddr) as (o & s3 & -> & Hs3 & Ho).
  destruct (settled_fields _ _ Hs3) as (E3 & _). unfold finish_store. cbn [fst snd].
  assert (anywhere = false -> a = requested) as Hat by (intros E; rewrite E in Hfix; by apply Hfix).
  do 2 eexists. split; [done|]. rewrite E3. split_and!.
  - by eapply settled_vm_ok.
  - intros Hkeep. apply (kept_outside _ _ (page_addrs a (a + page_up size))); [|done].
    destruct anywhere; [by apply Hnew|]. destruct Hkeep as [Hkeep|]; [|done]. rewrite Hat by done. by apply Hfree.
  - by destruct o.
  - intros Hr _. destruct o; [|done]. exists a. split.
    + unfold allocated. rewrite E3. split_and!; try done. intros w Hw.
      destruct (Hin w Hw) as (p & Hp & _ & Hperm & _). eauto.
    + intros E. rewrite (Hat E). by apply Hasked.
Qed.

Lemma allocate_spec :
  trap_post s (overwrite = false \/ anywhere = true) allocate_success
    (allocate target guest_address size flags s).
Proof.
  unfold guest_mach_vm_allocate.
  destruct (target =? mach_task_self); cbn [negb];
    [|apply trap_post_settled; [done|by apply settled_refl, Hok|done]].
  pose proof (read_settled tid s guest_address 8 PROT_READ (vm_cache _ Hok)) as Hs1.
  destruct (read_guest_memory_with_permissions _ _ _ _ _) as [[bytes|] s1] eqn:Eread; cbn [snd fst] in *;
    [|by apply trap_post_settled].
  pose proof (settled_vm_ok _ _ Hok Hs1) as Hok1. destruct (settled_fields _ _ Hs1) as (Em & _ & _ & Eh & _).
  destruct (size =? 0) eqn:E0; zb.
  { destruct (store_address_spec tid guest_address 0 s1 Hok1 Haddr) as (o & s2 & -> & Hs2 & _).
    apply trap_post_settled; [done|by eapply settled_trans|intros _ ?; lia]. }
  destruct (_ <? size) eqn:Ebig; zb; [by apply trap_post_settled|].
  set (requested := if anywhere then 0 else page_down (le_int bytes)).
  destruct (GuestAddressRangeIsValid32 requested (page_up size)) eqn:Ev; cbn [negb]; [|by apply trap_post_settled].
  assert (0 <= requested /\ requested mod DYN_PAGE_SIZE = 0) as [Hlo Hal]
    by (unfold requested; destruct anywhere; [done|apply page_down_range]).
  destruct (page_down_range (u64 (size + DYN_PAGE_MASK))) as [Hup Hupm]. fold (page_up size) in Hup, Hupm.
  unfold GuestAddressRangeIsValid32 in Ev. zb. rewrite (u32_small requested) by (unfold U32_MOD; lia).
  assert (0 < page_up size) as Hpos.
  { rewrite page_up_spec by (unfold UINT64_MAX, DYN_PAGE_MASK in *; lia).
    unfold DYN_PAGE_SIZE, DYN_PAGE_MASK. assert (1 <= (size + 4095) / 4096) by (apply Z.div_le_lower_bound; lia). lia. }
  destruct (negb anywhere && negb overwrite && _)%bool eqn:Ehit; [by apply trap_post_settled|].
  apply allocate_mapping; [done|lia|done| | |lia].
  - intros E. exists bytes. rewrite Eread. unfold requested. by rewrite E.
  - intros Ea Eo. rewrite Ea, Eo in Ehit. rewrite <- Em.
    apply no_mapping_free; [by rewrite Eh|lia|done|done|lia|lia|done].
Qed.
End allocate.

(** C13: vm_allocate keeps the address space consistent and takes no page that
    is in use.  For any host behaviour the trap ends without a failed assertion
    and with the invariant intact.  Unless the caller asked for a fixed address
    with VM_FLAGS_OVERWRITE, every page mapped before stays exactly as it was.
    When it succeeds for a non-empty size, exactly the page-rounded range at a
    page-aligned address off the null page is mapped readable and writable (at
    the requested address rounded down, if one was requested) and the guest's
    address variable holds it.  Any error but a failure to store that address
    leaves the map alone. *)
Theorem vm_allocate_correct target guest_address size flags s :
  vm_ok s -> memory_handle s <> 0 -> guestMemoryLookupGeneration s < UINT64_MAX ->
  0 <= guest_address -> 0 <= size < U64_MOD ->
  mmap_host_ok env s rw (page_up size) (allocate_flags flags) (-1) 0 (has_flag flags VM_FLAGS_PURGABLE) ->
  exists r s', allocate target guest_address size flags s = Some (r, s') /\ vm_ok s' /\
    (has_flag flags VM_FLAGS_OVERWRITE = false \/ has_flag flags VM_FLAGS_ANYWHERE = true ->
       memory s ⊆ memory s') /\
    (r <> KERN_SUCCESS -> r <> KERN_INVALID_ADDRESS -> memory s' = memory s) /\
    (r = KERN_SUCCESS -> 0 < size -> exists a, allocated s s' guest_address a (page_up size) /\
       (has_flag flags VM_FLAGS_ANYWHERE = false -> exists bytes,
          (read_guest_memory_with_permissions tid s guest_address 8 PROT_READ).1 = Some bytes /\
          a = page_down (le_int bytes))).
Proof.
  intros. by apply allocate_spec.
Qed.

(** ** vm_map *)

(** A range whose pages are all mapped can be unmapped. *)
Lemma munmap_mapped a sz s :
  vm_ok s -> guestMemoryLookupGeneration s < UINT64_MAX ->
  0 <= a -> 0 < sz -> a + sz <= 2 ^ 32 -> a mod DYN_PAGE_SIZE = 0 -> sz mod DYN_PAGE_SIZE = 0 ->
  (forall w, w ∈ page_addrs a (a + sz) -> is_Some (memory s !! w)) ->
  exists s', Dynarmic_munmap a sz s = Some (Ret 0, s') /\ vm_ok s' /\
    forall w, memory s' !! w = if decide (w ∈ page_addrs a (a + sz)) then None else memory s !! w.
Proof.
  intros Hok Hg Ha Hs He Ham Hsm Hmap. assert (2 ^ 33 < U64_MOD) by done.
  destruct (munmap_correct a sz s Hok Hg Ha) as (r & s' & E & Hok' & Hr); [lia|].
  exists s'. assert (ValidateGuestMunmapRangeLocked s a sz = None) as Ev.
  { unfold ValidateGuestMunmapRangeLocked. rewrite !page_offset_mod, Ham, Hsm, u64_small by lia.
    rewrite (proj2 (Z.eqb_neq sz 0)) by lia. unfold GuestAddressRangeIsValid32.
    rewrite (proj2 (Z.ltb_lt _ _)), (proj2 (Z.leb_le _ _)) by lia. cbn.
    rewrite (proj2 (forallb_forall _ _)); [done|]. intros v Hv.
    apply bool_decide_eq_true_2, Hmap. by apply list_elem_of_In. }
  assert (r = Ret 0) as ->; [|by destruct Hr as (_ & Hr & _)].
  unfold Dynarmic_munmap in E. rewrite Ev in E. cbn in E.
  destruct (fold_opt _ _ _); cbn in E; by simplify_eq.
Qed.

(** C14: vm_map is all or nothing.  For any host behaviour the trap ends without
    a failed assertion and with the invariant intact.  On success it mapped
    exactly a free, suitably aligned range with the protection asked for and the
    guest's address variable holds its start; on every error, the failure to
    store the address included, the map is exactly what it was. *)
Theorem vm_map_all_or_nothing target guest_address size mask flags protection s :
  let alignment := (if mask =? 0 then DYN_PAGE_MASK else mask) + 1 in
  vm_ok s -> guestMemoryLookupGeneration s < UINT64_MAX - 1 ->
  0 <= guest_address -> 0 <= size -> 0 <= mask ->
  mmap_host_ok env s protection size (Z.lor MAP_PRIVATE MAP_ANONYMOUS) (-1) 0
    (has_flag flags VM_FLAGS_PURGABLE) ->
  exists r s', guest_mach_vm_map env mach_task_self tid target guest_address size mask flags protection s
      = Some (r, s') /\ vm_ok s' /\
    if r =? KERN_SUCCESS then exists a, 0 < size /\ DYN_PAGE_SIZE <= a /\ a + size <= 2 ^ 32 /\
      a mod alignment = 0 /\ range_free (memory s) a size /\
      (forall w, w ∈ page_addrs a (a + size) -> exists p, memory s' !! w = Some p /\ perms p = protection) /\
      (forall w, w ∉ page_addrs a (a + size) -> memory s' !! w = memory s !! w) /\
      told s' guest_address a
    else memory s' = memory s.
Proof.
  intros alignment Hok Hg Ha Hs Hmask Hhost. unfold guest_mach_vm_map.
  destruct (target =? mach_task_self); cbn [negb]; [|by do 2 eexists].
  pose proof (read_settled tid s guest_address 8 PROT_READ (vm_cache _ Hok)) as Hs1.
  destruct (read_guest_memory_with_permissions _ _ _ _ _) as [[bytes|] s1]; cbn [snd] in *;
    destruct (settled_fields _ _ Hs1) as (Em & Eb & Ee & _ & Eg);
    pose proof (settled_vm_ok _ _ Hok Hs1) as Hok1; [|by do 2 eexists].
  destruct (has_flag flags VM_FLAGS_ANYWHERE); cbn [negb]; [|by do 2 eexists].
  destruct (mmap_spec env 0 size protection (Z.lor MAP_PRIVATE MAP_ANONYMOUS) (-1) 0
    (if mask =? 0 then DYN_PAGE_MASK else mask) (has_flag flags VM_FLAGS_PURGABLE) s1)
    as (r & s2 & -> & Hok2 & Hr); try done; [lia|by case_match|by destruct Hhost; split; rewrite ?Eb, ?Ee|]. cbn.
  destruct r as [a|e]; [|subst s2; by do 2 eexists].
  destruct Hr as (Eg2 & Hpos & Hm & first & b & _ & Hlo & Hhi & Haal & Hnew & _ & Hin & Hout). rewrite Em in *.
  destruct (store_address_spec tid guest_address a s2 Hok2 Ha) as (o & s3 & -> & Hs3 & Ho).
  destruct (settled_fields _ _ Hs3) as (E3 & _ & _ & _ & Eg3). pose proof (settled_vm_ok _ _ Hok2 Hs3) as Hok3.
  destruct o.
  - do 2 eexists. split; [done|]. split; [done|]. cbn. exists a. rewrite E3. split_and!; try done; [by apply Hnew|].
    intros w Hw. destruct (Hin w Hw) as (p & Hp & _ & Hperm & _). eauto.
  - assert (a ∈ page_addrs a (a + size)) as Hself by (apply elem_of_page_addrs; rewrite Z.sub_diag; split; [lia|done]).
    destruct (Hin a Hself) as (p0 & Hp0 & _). destruct (vm_keys _ _ (vm_is_core _ Hok2) a p0 Hp0) as [_ Ham].
    assert (0 <= a) by (unfold DYN_PAGE_SIZE in Hlo; lia).
    destruct (munmap_mapped a size s3 Hok3) as (s4 & -> & Hok4 & Hm4); try done; try lia.
    { intros w Hw. rewrite E3. destruct (Hin w Hw) as (p & Hp & _). eauto. }
    cbn. do 2 eexists. split; [done|]. split; [done|]. cbn. apply map_eq. intros w. rewrite Hm4, E3.
    case_decide as Hw; [|by apply Hout]. symmetry. by apply (Hnew eq_refl).
Qed.

(** ** Byte ranges *)

(** The page range both calls compute. *)
Lemma rounded_range address size : 0 <= address -> 0 < size -> address + size <= 2 ^ 32 ->
  let len := u64 (page_up (address + size) - page_down address) in
  0 <= len < U64_MOD /\ page_down address + len = page_up (address + size).
Proof.
  intros Ha Hs He len. assert (2 ^ 33 < U64_MOD) by done. unfold len.
  rewrite page_down_spec, page_up_spec by (unfold DYN_PAGE_MASK; lia).
  unfold DYN_PAGE_SIZE, DYN_PAGE_MASK.
  assert (address / 4096 <= (address + size + 4095) / 4096) by (apply Z.div_le_mono; lia).
  assert ((address + size + 4095) / 4096 <= (2 ^ 32 + 4095) / 4096) by (apply Z.div_le_mono; lia).
  assert (0 <= address / 4096) by (apply Z.div_pos; lia).
  change ((2 ^ 32 + 4095) / 4096) with 1048576 in *. rewrite u64_small by lia. lia.
Qed.

Lemma deallocate_spec target address size s :
  vm_ok s -> guestMemoryLookupGeneration s < UINT64_MAX -> 0 <= address -> 0 <= size ->
  exists r s', guest_mach_vm_deallocate mach_task_self target address size s = Some (r, s') /\ vm_ok s' /\
    if r =? KERN_SUCCESS then forall w,
      (touched address size w -> is_Some (memory s !! w) /\ memory s' !! w = None) /\
      (~ touched address size w -> memory s' !! w = memory s !! w)
    else s' = s.
Proof.
  intros Hok Hg Ha Hs. unfold guest_mach_vm_deallocate. destruct (target =? _); cbn [negb]; [|by do 2 eexists].
  destruct (size =? 0) eqn:E0; zb.
  { do 2 eexists. split; [done|]. split; [done|]. cbn. intros w. split; [intros [? _]; lia|done]. }
  destruct (_ <? size) eqn:E1; [by do 2 eexists|]. zb.
  rewrite (u64_small (address + size)) by (unfold UINT64_MAX in *; lia).
  destruct ((2 ^ 32 <? _) || _)%bool eqn:E2; [by do 2 eexists|]. zb.
  destruct (rounded_range address size) as [Hlen Hend]; [lia..|]. cbv zeta in *. set (len := u64 _) in *.
  destruct (munmap_correct (page_down address) len s Hok Hg) as (r & s' & -> & Hok' & Hr);
    [apply page_down_range|done|]. cbn.
  destruct r as [v|e]; [|destruct Hr as [-> _]; by do 2 eexists].
  destruct Hr as (_ & Hm & Hmapped). do 2 eexists. split; [done|]. split; [done|]. cbn. intros w.
  rewrite Hm, Hend in *. rewrite <- (touched_pages address size w) by lia.
  case_decide; split; intros; [by auto|done..].
Qed.

Lemma protect_spec collect_ok target address size setMaximum protection s :
  vm_ok s -> guestMemoryLookupGeneration s < UINT64_MAX -> 0 <= address -> 0 <= size ->
  exists r s', guest_mach_vm_protect env collect_ok mach_task_self target address size setMaximum protection s
      = Some (r, s') /\ vm_ok s' /\ host s' = host s /\
    if r =? KERN_SUCCESS then forall w,
      (touched address size w -> exists p, memory s !! w = Some p /\
         memory s' !! w = Some (protected_page protection p)) /\
      (~ touched address size w -> memory s' !! w = memory s !! w)
    else memory s' = memory s.
Proof.
  intros Hok Hg Ha Hs. assert (2 ^ 33 < U64_MOD) by done.
  unfold guest_mach_vm_protect. destruct (target =? _); cbn [negb]; [|by do 2 eexists].
  destruct (GuestProtectionIsValid protection); cbn [negb]; [|by do 2 eexists].
  destruct (setMaximum =? 0); cbn [negb]; [|by do 2 eexists].
  destruct (GuestAddressRangeIsValid32 address size) eqn:Ev; cbn [negb]; [|by do 2 eexists].
  unfold GuestAddressRangeIsValid32 in Ev. zb. destruct (size =? 0) eqn:E0; zb.
  { do 2 eexists. split; [done|]. split; [done|]. split; [done|]. intros w. split; [intros [? _]; lia|done]. }
  rewrite (u64_small (address + size)) by lia.
  destruct (rounded_range address size) as [Hlen Hend]; [lia..|]. cbv zeta in *. set (len := u64 _) in *.
  destruct (mprotect_all_or_nothing env collect_ok (page_down address) len protection s Hok Hg)
    as (r & s' & -> & Hok' & Hhost & _ & _ & Hr); [apply page_down_range|lia|]. cbn.
  do 2 eexists. split; [done|]. split; [done|]. split; [done|].
  destruct r as [v|e]; [|destruct Hr as [Hm _]; by case_match; case_match].
  destruct Hr as (_ & Hmapped & Hm). intros w. rewrite Hm, Hend in *.
  rewrite <- (touched_pages address size w) by lia.
  case_decide as Hw; split; intros; [|done..]. destruct (Hmapped w Hw) as [p Hp]. exists p. by rewrite Hp.
Qed.

(** Vm_deallocate and vm_protect act on exactly the pages their byte range
    touches, however it is aligned.  A successful deallocation unmaps those
    pages, all of which were mapped, and no other; a successful protect gives
    those pages, all of which were mapped, the new permissions and changes no
    other.  A call that fails changes no page, and the invariant holds after
    every outcome. *)
Theorem vm_byte_ranges_rounded collect_ok target address size setMaximum protection s :
  vm_ok s -> guestMemoryLookupGeneration s < UINT64_MAX -> 0 <= address -> 0 <= size ->
  (exists r s', guest_mach_vm_deallocate mach_task_self target address size s = Some (r, s') /\ vm_ok s' /\
     if r =? KERN_SUCCESS then forall w,
       (touched address size w -> is_Some (memory s !! w) /\ memory s' !! w = None) /\
       (~ touched address size w -> memory s' !! w = memory s !! w)
     else s' = s) /\
  (exists r s', guest_mach_vm_protect env collect_ok mach_task_self target address size setMaximum protection s
       = Some (r, s') /\ vm_ok s' /\ host s' = host s /\
     if r =? KERN_SUCCESS then forall w,
       (touched address size w -> exists p, memory s !! w = Some p /\
          memory s' !! w = Some (protected_page protection p)) /\
       (~ touched address size w -> memory s' !! w = memory s !! w)
     else memory s' = memory s).
Proof. intros. split; [by apply deallocate_spec|by apply protect_spec]. Qed.
End traps.



Lemma demo_allocate_ok : mmap_host_ok demo_env demo rw (page_up 0x1801) (allocate_flags 0) (-1) 0 false.
Proof.
  split; [right; split; [reflexivity|set_solver]|done|done|]. intros a bytes [= <- <-].
  vm_compute. by split.
Qed.

(** A fixed allocation of 0x1801 bytes at the variable's address 0x4241: two
    pages at 0x4000, which are free. *)
Lemma vm_allocate_correct_witness :
  fst <$> guest_mach_vm_allocate demo_env 7 0 7 0x20000000 0x1801 0 demo = Some KERN_SUCCESS /\
  exists r s', guest_mach_vm_allocate demo_env 7 0 7 0x20000000 0x1801 0 demo = Some (r, s') /\ vm_ok s' /\
    memory demo ⊆ memory s'.
Proof.
  split; [vm_compute; reflexivity|].
  destruct (vm_allocate_correct demo_env 7 0 7 0x20000000 0x1801 0 demo demo_ok)
    as (r & s' & E & H & Hkept & _); [done|reflexivity|lia|done|exact demo_allocate_ok|].
  exists r, s'. split; [exact E|]. split; [exact H|]. apply Hkept. by left.
Defined.

(** The variable lies in the read-only page: the mapping is taken back. *)
Lemma vm_map_all_or_nothing_witness :
  fst <$> guest_mach_vm_map demo_env 7 0 7 0x20001000 0x2000 0 VM_FLAGS_ANYWHERE 3 demo
    = Some KERN_INVALID_ADDRESS /\
  exists r s', guest_mach_vm_map demo_env 7 0 7 0x20001000 0x2000 0 VM_FLAGS_ANYWHERE 3 demo = Some (r, s') /\
    vm_ok s'.
Proof.
  split; [vm_compute; reflexivity|].
  destruct (vm_map_all_or_nothing demo_env 7 0 7 0x20001000 0x2000 0 VM_FLAGS_ANYWHERE 3 demo demo_ok)
    as (r & s' & E & H & _); [reflexivity|lia|lia|lia|exact demo_host_ok|]. eauto.
Defined.

(** Two bytes across the page boundary touch both pages. *)
Lemma vm_byte_ranges_rounded_witness :
  fst <$> guest_mach_vm_deallocate 7 7 0x20000fff 2 demo = Some KERN_SUCCESS /\
  exists r s', guest_mach_vm_deallocate 7 7 0x20000fff 2 demo = Some (r, s') /\ vm_ok s'.
Proof.
  split; [vm_compute; reflexivity|].
  destruct (vm_byte_ranges_rounded demo_env 7 true 7 0x20000fff 2 0 1 demo demo_ok)
    as [(r & s' & E & H & _) _]; [reflexivity|lia|lia|]. eauto.
Defined.
