(* ===== verification/MachOLoad.v ===== *)
(** Loading a 32-bit ARM image (src/HostFrameworks/LC32/LiveExec32Shared.cpp):
    [LC32SelectARMImage] with its validation of load commands, and the walk of
    [Dynarmic_map_file] over the commands, which maps the segments into the guest
    and sets the initial registers.

    The mapped file is a buffer; [Reject] is the return of false or, in the walk,
    the exit of [LC32MapFileFailure]; [Fault] is a read outside the file or a
    failed assertion of the mapping operations.  MachOLoadProps.v proves that
    neither faults and what is mapped. *)

From stdpp Require Import base gmap list.
From Stdlib Require Import ZArith Lia.
From S2P Require Import Prelude Bytes MachOImage VmEpoch GuestMemory GuestMapping.
Open Scope Z_scope.

Definition LC32MaximumFatSlices : Z := 32.
Definition LC32MaximumLoadCommands : Z := 65536.
Definition LC32EmbeddedSignatureMagic : Z := 0xfade0cc0.
Definition LC_UNIXTHREAD : Z := 0x5.
Definition ARM_THREAD_STATE : Z := 1.
Definition ARM_THREAD_STATE32 : Z := 9.
Definition ARM_THREAD_STATE_COUNT : Z := 17.
Definition arm_thread_state_size : Z := 68.
Definition thread_command_size : Z := 8.
Definition version_min_command_size : Z := 16.
Definition build_version_command_size : Z := 24.
Definition PLATFORM_IOS : Z := 2.
Definition MH_EXECUTE : Z := 2.
Definition MH_PIE : Z := 0x200000.
Definition CPU_SUBTYPE_ARM_ALL : Z := 0.
Definition CPU_SUBTYPE_ARM_V6 : Z := 6.
Definition CPU_SUBTYPE_ARM_V7 : Z := 9.
Definition CPU_SUBTYPE_ARM_V7S : Z := 11.

Definition LC32ConvertUInt32 (value : Z) (swap : bool) : Z := if swap then OSSwapInt32 value else value.
Definition LC32ConvertUInt64 (value : Z) (swap : bool) : Z := if swap then OSSwapInt64 value else value.
Definition LC32BaseCPUSubtype (subtype : Z) : Z := Z.land subtype (u32_not CPU_SUBTYPE_MASK).

Definition LC32RangeFits (offset size containerSize : Z) : bool :=
  (offset <=? containerSize) && (size <=? containerSize - offset).

(** The embedded signature at [dataoff] of the image at [image]. *)
Definition LC32ReadEmbeddedSignatureLength (file : list Z) (image imageSize dataoff datasize : Z)
    : outcome unit Z :=
  _ ← reject_if ((datasize <? 12) || negb (LC32RangeFits dataoff datasize imageSize)) tt;
  let signature := image + dataoff in
  magic ← be32_at file signature;
  length ← be32_at file (signature + 4);
  count ← be32_at file (signature + 8);
  let indexBytes := 12 + count * 8 in
  _ ← reject_if (negb (magic =? LC32EmbeddedSignatureMagic) || (length <? indexBytes) || (datasize <? length)) tt;
  mret length.

Definition LC32RoundUpGuestPage (size : Z) : option Z :=
  let rounded := Z.land (size + DYN_PAGE_MASK) (u64_not DYN_PAGE_MASK) in
  if UINT32_MAX <? rounded then None else Some rounded.

Record segment_command := mkSegment {
  segname : list Z;
  vmaddr : Z;
  vmsize : Z;
  fileoff : Z;
  filesize : Z;
  initprot : Z
}.

(** The segment and its file size rounded up to guest pages. *)
Definition LC32ReadSegmentCommand (file : list Z) (command commandSize imageSize : Z)
    : outcome unit (segment_command * Z) :=
  _ ← reject_if (commandSize <? segment_command_size) tt;
  segname ← fetch file (command + 8) 16;
  vmaddr ← u32_at file (command + 24);
  vmsize ← u32_at file (command + 28);
  fileoff ← u32_at file (command + 32);
  filesize ← u32_at file (command + 36);
  initprot ← u32_at file (command + 44);
  nsects ← u32_at file (command + 48);
  let sectionBytes := nsects * section_size in
  _ ← reject_if (negb (LC32RangeFits segment_command_size sectionBytes commandSize) ||
                 negb (LC32RangeFits fileoff filesize imageSize) ||
                 negb (page_offset vmaddr =? 0) || negb (page_offset vmsize =? 0) ||
                 negb (LC32RangeFits vmaddr vmsize (2 ^ 32))) tt;
  _ ← reject_if (vmsize <? filesize) tt;
  rounded ← or_reject (LC32RoundUpGuestPage filesize) tt;
  _ ← reject_if (vmsize <? rounded) tt;
  mret (mkSegment segname vmaddr vmsize fileoff filesize initprot, rounded).

(** The flavours of LC_UNIXTHREAD from [payloadOffset] on.  Each takes at least
    eight bytes, so that the fuel, one per byte of the command, is enough. *)
Fixpoint thread_states (fuel : nat) (file : list Z) (command commandSize payloadOffset : Z)
    (found : option (list Z)) : outcome unit (list Z) :=
  if negb (payloadOffset <? commandSize) then
    _ ← reject_if (negb (payloadOffset =? commandSize)) tt;
    or_reject found tt
  else match fuel with
  | O => Fault
  | S f =>
      _ ← reject_if (negb (LC32RangeFits payloadOffset 8 commandSize)) tt;
      flavor ← u32_at file (command + payloadOffset);
      count ← u32_at file (command + payloadOffset + 4);
      let payloadOffset := payloadOffset + 8 in
      let stateSize := count * 4 in
      _ ← reject_if (negb (LC32RangeFits payloadOffset stateSize commandSize)) tt;
      found ← (if (flavor =? ARM_THREAD_STATE) || (flavor =? ARM_THREAD_STATE32) then
                 _ ← reject_if (bool_decide (is_Some found) || negb (count =? ARM_THREAD_STATE_COUNT) ||
                                negb (stateSize =? arm_thread_state_size)) tt;
                 Some <$> fetch file (command + payloadOffset) arm_thread_state_size
               else mret found);
      thread_states f file command commandSize (payloadOffset + stateSize) found
  end.

Definition LC32ReadARMThreadState (file : list Z) (command commandSize : Z) : outcome unit (list Z) :=
  _ ← reject_if (commandSize <? thread_command_size) tt;
  thread_states (Z.to_nat commandSize) file command commandSize thread_command_size None.

(** One load command of the image at [offset]; the command lies in the image. *)
Definition validate_command (file : list Z) (commandBytes cmd cmdsize size : Z) : outcome unit unit :=
  if cmd =? LC_SEGMENT then
    _ ← LC32ReadSegmentCommand file commandBytes cmdsize size; mret tt
  else if cmd =? LC_UNIXTHREAD then
    _ ← LC32ReadARMThreadState file commandBytes cmdsize; mret tt
  else if (cmd =? LC_ENCRYPTION_INFO) || (cmd =? LC_ENCRYPTION_INFO_64) then
    reject_if (cmdsize <? (if cmd =? LC_ENCRYPTION_INFO_64 then encryption_info_command_64_size
                           else encryption_info_command_size)) tt
  else if cmd =? LC_CODE_SIGNATURE then
    _ ← reject_if (cmdsize <? linkedit_data_command_size) tt;
    dataoff ← u32_at file (commandBytes + 8);
    datasize ← u32_at file (commandBytes + 12);
    reject_if (negb (LC32RangeFits dataoff datasize size)) tt
  else mret tt.

Fixpoint validate_commands (n : nat) (file : list Z) (offset size commandOffset commandsEnd : Z)
    : outcome unit unit :=
  match n with
  | O => reject_if (negb (commandOffset =? commandsEnd)) tt
  | S m =>
      _ ← reject_if (negb (LC32RangeFits commandOffset load_command_size commandsEnd)) tt;
      cmd ← u32_at file (offset + commandOffset);
      cmdsize ← u32_at file (offset + commandOffset + 4);
      _ ← reject_if ((cmdsize <? load_command_size) || negb (cmdsize mod 4 =? 0) ||
                     negb (LC32RangeFits commandOffset cmdsize commandsEnd)) tt;
      _ ← validate_command file (offset + commandOffset) cmd cmdsize size;
      validate_commands m file offset size (commandOffset + cmdsize) commandsEnd
  end.

Definition LC32ValidateARMImage (file : list Z) (offset size descriptorSubtype : Z) : outcome unit unit :=
  _ ← reject_if (negb (LC32RangeFits offset size (blen file)) || (size <? mach_header_size)) tt;
  magic ← u32_at file offset;
  cputype ← u32_at file (offset + 4);
  cpusubtype ← u32_at file (offset + 8);
  ncmds ← u32_at file (offset + 16);
  sizeofcmds ← u32_at file (offset + 20);
  _ ← reject_if (negb (magic =? MH_MAGIC) || negb (cputype =? CPU_TYPE_ARM) ||
                 negb (LC32BaseCPUSubtype cpusubtype =? LC32BaseCPUSubtype descriptorSubtype) ||
                 (LC32MaximumLoadCommands <? ncmds) || (sizeofcmds / load_command_size <? ncmds) ||
                 (size - mach_header_size <? sizeofcmds)) tt;
  validate_commands (Z.to_nat ncmds) file offset size mach_header_size (mach_header_size + sizeofcmds).

Definition LC32ARMSubtypePriority (subtype : Z) : Z :=
  let base := LC32BaseCPUSubtype subtype in
  if base =? CPU_SUBTYPE_ARM_V7S then 5 else if base =? CPU_SUBTYPE_ARM_V7 then 4
  else if base =? CPU_SUBTYPE_ARM_V6 then 3 else if base =? CPU_SUBTYPE_ARM_ALL then 2 else 1.

(** [struct LC32MappedMachO], relative to the file. *)
Record LC32MappedMachO := mkMapped { image_offset : Z; image_size : Z }.

(** The descriptor at [entryOffset]: type, subtype, offset and size. *)
Definition read_architecture (file : list Z) (fat64 swap : bool) (entryOffset : Z)
    : outcome unit (Z * Z * Z * Z) :=
  cpuType ← u32_at file entryOffset;
  cpuSubtype ← u32_at file (entryOffset + 4);
  if fat64 then
    offset ← u64_at file (entryOffset + 8);
    size ← u64_at file (entryOffset + 16);
    mret (LC32ConvertUInt32 cpuType swap, LC32ConvertUInt32 cpuSubtype swap,
          LC32ConvertUInt64 offset swap, LC32ConvertUInt64 size swap)
  else
    offset ← u32_at file (entryOffset + 8);
    size ← u32_at file (entryOffset + 12);
    mret (LC32ConvertUInt32 cpuType swap, LC32ConvertUInt32 cpuSubtype swap,
          LC32ConvertUInt32 offset swap, LC32ConvertUInt32 size swap).

Fixpoint select_slices (n : nat) (file : list Z) (fat64 swap : bool) (entrySize entryOffset : Z)
    (selectedPriority : Z) (selection : option LC32MappedMachO) : outcome unit LC32MappedMachO :=
  match n with
  | O => or_reject selection tt
  | S m =>
      '(cpuType, cpuSubtype, sliceOffset, sliceSize) ← read_architecture file fat64 swap entryOffset;
      _ ← reject_if (negb (LC32RangeFits sliceOffset sliceSize (blen file))) tt;
      if negb (cpuType =? CPU_TYPE_ARM)
      then select_slices m file fat64 swap entrySize (entryOffset + entrySize) selectedPriority selection
      else
        _ ← LC32ValidateARMImage file sliceOffset sliceSize cpuSubtype;
        let priority := LC32ARMSubtypePriority cpuSubtype in
        if selectedPriority <? priority
        then select_slices m file fat64 swap entrySize (entryOffset + entrySize) priority
               (Some (mkMapped sliceOffset sliceSize))
        else select_slices m file fat64 swap entrySize (entryOffset + entrySize) selectedPriority selection
  end.

Definition LC32SelectARMImage (file : list Z) : outcome unit LC32MappedMachO :=
  _ ← reject_if (blen file <? 4) tt;
  magic ← u32_at file 0;
  if magic =? MH_MAGIC then
    _ ← reject_if (blen file <? mach_header_size) tt;
    cpusubtype ← u32_at file 8;
    _ ← LC32ValidateARMImage file 0 (blen file) cpusubtype;
    mret (mkMapped 0 (blen file))
  else
    let fat64 := (magic =? FAT_MAGIC_64) || (magic =? FAT_CIGAM_64) in
    let fat32 := (magic =? FAT_MAGIC) || (magic =? FAT_CIGAM) in
    _ ← reject_if (negb fat32 && negb fat64) tt;
    let swap := (magic =? FAT_CIGAM) || (magic =? FAT_CIGAM_64) in
    _ ← reject_if (blen file <? fat_header_size) tt;
    nfat_arch ← u32_at file 4;
    let count := LC32ConvertUInt32 nfat_arch swap in
    let entrySize := if fat64 then fat_arch_64_size else fat_arch_size in
    let tableSize := fat_header_size + count * entrySize in
    _ ← reject_if ((count =? 0) || (LC32MaximumFatSlices <? count) || (blen file <? tableSize)) tt;
    select_slices (Z.to_nat count) file fat64 swap entrySize fat_header_size 0 None.

(** ** The walk of [Dynarmic_map_file] *)

(** The messages of [LC32MapFileFailure]. *)
Inductive load_error :=
| InvalidSegment | SegmentOutOfRange | MultipleHeaderSegments | CannotMapFileData | CannotMapZeroFill
| InvalidThread | ProgramCounterOutOfRange | MultipleEncryption | InvalidCodeSignature
| CodeSignatureOutside.

(** The registers of LC_UNIXTHREAD: r0 to r12, sp, lr; pc; cpsr. *)
Record initial_registers := mkRegisters { general : list Z; pc : Z; cpsr : Z }.

Record loader := mkLoader {
  target : Z;
  firstIndex : Z;
  guestExecutableSDKVersion : Z;
  registers : option initial_registers;
  header_segment : option (Z * Z);      (** guest address and file size *)
  encryption : option (Z * Z * Z);      (** cryptoff, cryptsize, cryptid *)
  codeSignature : option (Z * Z);       (** dataoff, datasize *)
  mapping : Z * Z;                      (** start and end of the guest mapping *)
  firstSegmentVMAddr : Z;
  space : vm
}.

Definition with_target t l := mkLoader t (firstIndex l) (guestExecutableSDKVersion l) (registers l)
  (header_segment l) (encryption l) (codeSignature l) (mapping l) (firstSegmentVMAddr l) (space l).
Definition with_firstIndex i l := mkLoader (target l) i (guestExecutableSDKVersion l) (registers l)
  (header_segment l) (encryption l) (codeSignature l) (mapping l) (firstSegmentVMAddr l) (space l).
Definition with_sdk v l := mkLoader (target l) (firstIndex l) v (registers l)
  (header_segment l) (encryption l) (codeSignature l) (mapping l) (firstSegmentVMAddr l) (space l).
Definition with_registers r l := mkLoader (target l) (firstIndex l) (guestExecutableSDKVersion l) (Some r)
  (header_segment l) (encryption l) (codeSignature l) (mapping l) (firstSegmentVMAddr l) (space l).
Definition with_header h l := mkLoader (target l) (firstIndex l) (guestExecutableSDKVersion l) (registers l)
  h (encryption l) (codeSignature l) (mapping l) (firstSegmentVMAddr l) (space l).
Definition with_encryption e l := mkLoader (target l) (firstIndex l) (guestExecutableSDKVersion l) (registers l)
  (header_segment l) (Some e) (codeSignature l) (mapping l) (firstSegmentVMAddr l) (space l).
Definition with_signature c l := mkLoader (target l) (firstIndex l) (guestExecutableSDKVersion l) (registers l)
  (header_segment l) (encryption l) (Some c) (mapping l) (firstSegmentVMAddr l) (space l).
Definition with_mapping m v l := mkLoader (target l) (firstIndex l) (guestExecutableSDKVersion l) (registers l)
  (header_segment l) (encryption l) (codeSignature l) m v (space l).
Definition with_space s l := mkLoader (target l) (firstIndex l) (guestExecutableSDKVersion l) (registers l)
  (header_segment l) (encryption l) (codeSignature l) (mapping l) (firstSegmentVMAddr l) s.

(** "__PAGEZERO" *)
Definition pagezero : list Z := [95; 95; 80; 65; 71; 69; 90; 69; 82; 79].

Section walk.
(** The file as mapped at host address [fileMapping]; the selected image; what the
    host answers in a state. *)
Context (file : list Z) (fileMapping : Z) (selectedImage : LC32MappedMachO) (isDyld : bool)
        (host_in : vm -> host_env).

#[local] Abbreviation map := (fileMapping + image_offset selectedImage).

(** A mapping operation: a failed assertion is [Fault], an errno the failure [e]. *)
Definition mapped (o : option (result * vm)) (e : load_error) : outcome load_error (Z * vm) :=
  match o with
  | None => Fault
  | Some (Errno _, _) => Reject e
  | Some (Ret a, s) => Done (a, s)
  end.

Definition load_flags : Z := Z.lor (Z.lor MAP_FIXED MAP_PRIVATE) MAP_ANONYMOUS.

(** The file part and the zero-fill part of a segment at [guestSegmentAddress]: the
    address of its start. *)
Definition map_segment (segment : segment_command) (fileMappingSize guestSegmentAddress : Z) (s : vm)
    : outcome load_error (Z * vm) :=
  let segmentProtection := Z.lor (Z.lor PROT_READ PROT_WRITE) (Z.land (initprot segment) PROT_EXEC) in
  '(mappedAddr, s1) ←
    (if 0 <? fileMappingSize
     then mapped (Dynarmic_direct_mmap (host_in s) guestSegmentAddress fileMappingSize segmentProtection
                    load_flags (map + fileoff segment) 0 s) CannotMapFileData
     else mret (0, s));
  let zeroFillSize := u32 (vmsize segment - fileMappingSize) in
  if 0 <? zeroFillSize then
    '(vmMappedAddr, s2) ←
      mapped (Dynarmic_mmap (host_in s1) (u32 (guestSegmentAddress + fileMappingSize)) zeroFillSize
                segmentProtection load_flags (-1) 0 DYN_PAGE_MASK false s1) CannotMapZeroFill;
    mret (if fileMappingSize =? 0 then vmMappedAddr else mappedAddr, s2)
  else mret (mappedAddr, s1).

(** LC_SEGMENT. *)
Definition load_segment (i lc cmdsize : Z) (l : loader) : outcome load_error loader :=
  '(segment, fileMappingSize) ←
    map_error (fun _ => InvalidSegment) (LC32ReadSegmentCommand file lc cmdsize (image_size selectedImage));
  if bool_decide (take 10 (segname segment) = pagezero) then mret (with_firstIndex 1 l) else
  let l := if (i =? firstIndex l) && (0x10000000 <=? vmaddr segment) then with_target 0 l else l in
  let guestSegmentAddress64 := target l + vmaddr segment in
  let guestSegmentEnd := guestSegmentAddress64 + vmsize segment in
  _ ← reject_if ((UINT32_MAX <? guestSegmentAddress64) || (UINT32_MAX <? guestSegmentEnd) ||
                 negb (page_offset guestSegmentAddress64 =? 0)) SegmentOutOfRange;
  l ← (if (fileoff segment =? 0) && negb (filesize segment =? 0) then
         _ ← reject_if (bool_decide (is_Some (header_segment l))) MultipleHeaderSegments;
         mret (with_header (Some (guestSegmentAddress64, filesize segment)) l)
       else mret l);
  '(mappedAddr, s) ← map_segment segment fileMappingSize guestSegmentAddress64 (space l);
  let l := with_space s l in
  mret (if i =? firstIndex l then with_mapping (mappedAddr, u32 guestSegmentEnd) (vmaddr segment) l else l).

(** LC_UNIXTHREAD. *)
Definition load_thread (lc cmdsize : Z) (l : loader) : outcome load_error loader :=
  state ← map_error (fun _ => InvalidThread) (LC32ReadARMThreadState file lc cmdsize);
  let word k := le_int (sub state (4 * k) 4) in
  let guestProgramCounter := word 15 + target l in
  _ ← reject_if (UINT32_MAX <? guestProgramCounter) ProgramCounterOutOfRange;
  mret (with_registers (mkRegisters (word <$> seqZ 0 15) guestProgramCounter (word 16)) l).

(** The version commands of the executable. *)
Definition load_version (lc cmd cmdsize : Z) (l : loader) : outcome load_error loader :=
  if negb isDyld && (cmd =? LC_VERSION_MIN_IPHONEOS) && (version_min_command_size <=? cmdsize) then
    sdk ← u32_at file (lc + 12); mret (with_sdk sdk l)
  else if negb isDyld && (cmd =? LC_BUILD_VERSION) && (build_version_command_size <=? cmdsize) then
    platform ← u32_at file (lc + 8);
    sdk ← u32_at file (lc + 16);
    mret (if platform =? PLATFORM_IOS then with_sdk sdk l else l)
  else mret l.

Definition load_command (i lc cmd cmdsize : Z) (l : loader) : outcome load_error loader :=
  l ← load_version lc cmd cmdsize l;
  if cmd =? LC_SEGMENT then load_segment i lc cmdsize l
  else if cmd =? LC_UNIXTHREAD then load_thread lc cmdsize l
  else if negb isDyld && ((cmd =? LC_ENCRYPTION_INFO) || (cmd =? LC_ENCRYPTION_INFO_64)) then
    _ ← reject_if (bool_decide (is_Some (encryption l))) MultipleEncryption;
    cryptoff ← u32_at file (lc + 8);
    cryptsize ← u32_at file (lc + 12);
    cryptid ← u32_at file (lc + 16);
    mret (with_encryption (cryptoff, cryptsize, cryptid) l)
  else if negb isDyld && (cmd =? LC_CODE_SIGNATURE) then
    _ ← reject_if (bool_decide (is_Some (codeSignature l)) || (cmdsize <? linkedit_data_command_size))
          InvalidCodeSignature;
    dataoff ← u32_at file (lc + 8);
    datasize ← u32_at file (lc + 12);
    _ ← reject_if (negb (LC32RangeFits dataoff datasize (image_size selectedImage))) CodeSignatureOutside;
    mret (with_signature (dataoff, datasize) l)
  else mret l.

Fixpoint load_commands (n : nat) (i lc : Z) (l : loader) : outcome load_error loader :=
  match n with
  | O => mret l
  | S m =>
      cmd ← u32_at file lc;
      cmdsize ← u32_at file (lc + 4);
      l ← load_command i lc cmd cmdsize l;
      load_commands m (i + 1) (lc + cmdsize) l
  end.

(** The commands of the image, from the address [requested]; a fixed executable is
    loaded at its preferred addresses. *)
Definition load_image (requested sdk : Z) (s : vm) : outcome load_error loader :=
  let image := image_offset selectedImage in
  magic ← u32_at file image;
  cputype ← u32_at file (image + 4);
  _ ← (if (magic =? MH_MAGIC) && (cputype =? CPU_TYPE_ARM) then mret tt else Fault);
  filetype ← u32_at file (image + 12);
  ncmds ← u32_at file (image + 16);
  flags ← u32_at file (image + 24);
  let requested := if (filetype =? MH_EXECUTE) && negb (has_flag flags MH_PIE) then 0 else requested in
  load_commands (Z.to_nat ncmds) 0 (image + mach_header_size)
    (mkLoader requested 0 sdk None None None None (0, 0) 0 s).
End walk.

(** [ALIGN_SIZE]: the size of the mapping of a file of [len] bytes. *)
Definition ALIGN_SIZE (pageSize len : Z) : Z :=
  if negb (Z.land (pageSize - 1) len =? 0) then Z.land (u64 (len + pageSize)) (u64_not (pageSize - 1)) else len.
