(* ===== verification/MachOLoadProps.v ===== *)
(** What loading an image promises: selection reads only inside the file and
    returns a validated slice, the first of the best ARM slices; the walk over its
    commands maps exactly the segments, keeps the address space consistent and,
    for segments aligned in the file, maps no byte outside the file's mapping. *)

From stdpp Require Import base gmap list list_numbers infinite.
From Stdlib Require Import ZArith Lia.
From S2P Require Import Prelude VmEpoch GuestMemory GuestMapping GuestReserve VmInvariant MappingProps.
From S2P Require Import RemapProps MemoryWitness Bytes MachOImage MachOLoad.

Open Scope Z_scope.

Lemma RangeFits_true o n c : LC32RangeFits o n c = true <-> o <= c /\ n <= c - o.
Proof. unfold LC32RangeFits. rewrite andb_true_iff, !Z.leb_le. done. Qed.

(** ** Selection *)

Section fields.
Context (file : list Z) (Hfile : Forall byte_ok file).

Definition le32 (off : Z) : Z := le_int (sub file off 4).

Lemma u32_at_done {E} off : 0 <= off -> off + 4 <= blen file -> u32_at (E := E) file off = Done (le32 off).
Proof. intros. unfold u32_at. by rewrite fetch_in_buf by lia. Qed.

Lemma le32_range off : 0 <= off -> off + 4 <= blen file -> 0 <= le32 off < U32_MOD.
Proof.
  intros. pose proof (le_int_range (sub file off 4) (Forall_sub _ _ _ _ Hfile)) as R.
  by rewrite blen_sub in R by lia.
Qed.

Lemma safe_u32 {E} off (P : Z -> Prop) :
  0 <= off -> off + 4 <= blen file -> (forall v, 0 <= v < U32_MOD -> P v) -> safe (E := E) (u32_at file off) P.
Proof. intros ?? HP. apply safe_le; [done|done|done|done|]. intros v _ Hv. by apply HP. Qed.

Lemma safe_u64 {E} off (P : Z -> Prop) :
  0 <= off -> off + 8 <= blen file -> (forall v, 0 <= v < U64_MOD -> P v) -> safe (E := E) (u64_at file off) P.
Proof. intros ?? HP. apply safe_le; [done|done|done|done|]. intros v _ Hv. by apply HP. Qed.

End fields.

(** Reads inside the file, checks, and the callees of the goal. *)
Ltac zranges :=
  zb; repeat match goal with
  | H : negb _ = false |- _ => apply negb_false_iff in H
  | H : LC32RangeFits _ _ _ = true |- _ => apply RangeFits_true in H as [? ?]
  end; zb.
Ltac walk_step :=
  first [ progress safe_step; zranges
        | apply safe_u32; [done|lia|lia|intros ? ?]
        | apply safe_u64; [done|lia|lia|intros ? ?]
        | apply safe_fetch; [lia|lia|lia|]
        | apply safe_fmap; apply safe_fetch; [lia|lia|lia|] ].

Section validate.
Context (file : list Z) (Hfile : Forall byte_ok file).
#[local] Abbreviation le32 := (le32 file).

Lemma round_up_page n r : 0 <= n < U32_MOD -> LC32RoundUpGuestPage n = Some r ->
  n <= r < n + DYN_PAGE_SIZE /\ r mod DYN_PAGE_SIZE = 0.
Proof.
  intros Hn. unfold LC32RoundUpGuestPage. assert (2 ^ 33 < U64_MOD) by done.
  change DYN_PAGE_MASK with (Z.ones 12). unfold U32_MOD in Hn.
  rewrite land_u64_not_ones by (change (Z.ones 12) with 4095; lia).
  destruct (_ <? _); [done|]. intros [= <-]. change (Z.ones 12) with 4095. change (2 ^ 12) with DYN_PAGE_SIZE.
  unfold DYN_PAGE_SIZE. pose proof (Z.div_mod (n + 4095) 4096 ltac:(done)).
  pose proof (Z.mod_pos_bound (n + 4095) 4096 ltac:(done)). split; [lia|].
  rewrite Z.mul_comm. by apply Z.mod_mul.
Qed.

(** A segment the loader may map from an image of [size] bytes. *)
Definition segment_ok (size : Z) (g : segment_command) (rounded : Z) : Prop :=
  0 <= vmaddr g /\ 0 <= vmsize g /\ vmaddr g + vmsize g <= 2 ^ 32 /\
  vmaddr g mod DYN_PAGE_SIZE = 0 /\ vmsize g mod DYN_PAGE_SIZE = 0 /\
  0 <= fileoff g /\ 0 <= filesize g /\ fileoff g + filesize g <= size /\
  filesize g <= rounded <= vmsize g /\ rounded < filesize g + DYN_PAGE_SIZE /\ rounded mod DYN_PAGE_SIZE = 0.

Lemma segment_safe lc cmdsize size :
  0 <= lc -> lc + cmdsize <= blen file ->
  safe (LC32ReadSegmentCommand file lc cmdsize size) (fun '(g, rounded) => segment_ok size g rounded).
Proof.
  intros Hlc Hend. unfold LC32ReadSegmentCommand, segment_command_size. repeat walk_step.
  match goal with H : LC32RoundUpGuestPage _ = _ |- _ => apply round_up_page in H; [|done] end.
  rewrite page_offset_mod in *. unfold segment_ok. cbn. lia.
Qed.

Lemma thread_states_safe fuel : forall lc cmdsize off found,
  0 <= lc -> lc + cmdsize <= blen file -> 0 <= off -> cmdsize - off <= Z.of_nat fuel ->
  (forall st, found = Some st -> blen st = arm_thread_state_size) ->
  safe (thread_states fuel file lc cmdsize off found) (fun st => blen st = arm_thread_state_size).
Proof.
  induction fuel as [|f IH]; intros lc cmdsize off found Hlc Hend Hoff Hfuel Hfound; cbn [thread_states].
  - destruct (off <? cmdsize) eqn:E; zb; [lia|]. cbn [negb]. repeat walk_step. by apply Hfound.
  - destruct (off <? cmdsize) eqn:E; zb; cbn [negb]; [|repeat walk_step; by apply Hfound].
    repeat walk_step; (apply IH; [lia|lia|lia|lia|]); [|done].
    intros st [= <-]. apply blen_sub; unfold arm_thread_state_size in *; lia.
Qed.

Lemma thread_safe lc cmdsize :
  0 <= lc -> lc + cmdsize <= blen file ->
  safe (LC32ReadARMThreadState file lc cmdsize) (fun st => blen st = arm_thread_state_size).
Proof.
  intros. unfold LC32ReadARMThreadState, thread_command_size. repeat walk_step.
  apply thread_states_safe; [lia|lia|lia|lia|done].
Qed.

Lemma command_safe lc cmd cmdsize size :
  0 <= lc -> lc + cmdsize <= blen file ->
  safe (validate_command file lc cmd cmdsize size) (fun _ => validate_command file lc cmd cmdsize size = Done tt).
Proof.
  intros Hlc Hend. destruct (validate_command file lc cmd cmdsize size) as [[]| |] eqn:E; [done..|].
  cut (safe (validate_command file lc cmd cmdsize size) (fun _ => True)); [by rewrite E|]. clear E.
  unfold validate_command, linkedit_data_command_size. repeat walk_step; try done.
  - eapply safe_mono; [by apply segment_safe|done].
  - eapply safe_mono; [by apply thread_safe|done].
Qed.

(** The commands of an image tile the command area, and each one is valid. *)
Fixpoint commands_valid (n : nat) (offset size co ce : Z) : Prop :=
  match n with
  | O => co = ce
  | S m =>
      let cmdsize := le32 (offset + co + 4) in
      co + load_command_size <= ce /\ load_command_size <= cmdsize /\ co + cmdsize <= ce /\
      validate_command file (offset + co) (le32 (offset + co)) cmdsize size = Done tt /\
      commands_valid m offset size (co + cmdsize) ce
  end.

Lemma commands_safe n : forall offset size co ce,
  0 <= offset -> offset + ce <= blen file -> 0 <= co ->
  safe (validate_commands n file offset size co ce) (fun _ => commands_valid n offset size co ce).
Proof.
  induction n as [|n IH]; intros offset size co ce Ho He Hc; cbn [validate_commands commands_valid].
  - by repeat walk_step.
  - unfold load_command_size in *. apply safe_bind, safe_check; intros Hb. zranges.
    rewrite !u32_at_done by lia. cbn. pose proof (le32_range file Hfile (offset + co + 4) ltac:(lia) ltac:(lia)).
    apply safe_bind, safe_check; intros Hb. zranges.
    apply safe_bind. eapply safe_mono; [apply command_safe; lia|]. intros [] Hv.
    eapply safe_mono; [apply IH; lia|]. intros [] Hrest. split_and!; try done; lia.
Qed.

(** A slice that is a 32-bit ARM image with valid commands. *)
Definition image_valid (offset size : Z) : Prop :=
  0 <= offset /\ mach_header_size <= size /\ offset + size <= blen file /\
  le32 offset = MH_MAGIC /\ le32 (offset + 4) = CPU_TYPE_ARM /\
  le32 (offset + 16) <= LC32MaximumLoadCommands /\
  mach_header_size + le32 (offset + 20) <= size /\
  commands_valid (Z.to_nat (le32 (offset + 16))) offset size mach_header_size
    (mach_header_size + le32 (offset + 20)).

Lemma image_safe offset size subtype : 0 <= offset ->
  safe (LC32ValidateARMImage file offset size subtype) (fun _ => image_valid offset size).
Proof.
  intros Ho. unfold LC32ValidateARMImage, image_valid, mach_header_size.
  apply safe_bind, safe_check; intros Hb. zranges. rewrite !u32_at_done by lia. cbn.
  apply safe_bind, safe_check; intros Hb. zranges. pose proof (le32_range file Hfile (offset + 20) ltac:(lia) ltac:(lia)).
  eapply safe_mono; [apply commands_safe; lia|]. intros [] Hc. split_and!; try done; lia.
Qed.

(** ** The choice of a slice *)

(** The ARM slices of a descriptor table with their priorities, in order. *)
Fixpoint arm_slices (n : nat) (fat64 swap : bool) (entrySize entryOffset : Z) : list (Z * LC32MappedMachO) :=
  match n with
  | O => []
  | S m =>
      match read_architecture file fat64 swap entryOffset with
      | Done (cpuType, cpuSubtype, offset, size) =>
          if cpuType =? CPU_TYPE_ARM then [(LC32ARMSubtypePriority cpuSubtype, mkMapped offset size)] else []
      | _ => []
      end ++ arm_slices m fat64 swap entrySize (entryOffset + entrySize)
  end.

(** [x] is the first of the best entries. *)
Definition first_best (l : list (Z * LC32MappedMachO)) (x : LC32MappedMachO) : Prop :=
  exists p l1 l2, l = l1 ++ (p, x) :: l2 /\
    Forall (fun e => e.1 < p) l1 /\ Forall (fun e => e.1 <= p) l2.

Lemma fat_field32_range v swap : 0 <= v < U32_MOD -> 0 <= LC32ConvertUInt32 v swap < U32_MOD.
Proof. intros. destruct swap; [|done]. exact (swap_range 4 v). Qed.

Lemma fat_field64_range v swap : 0 <= v < U64_MOD -> 0 <= LC32ConvertUInt64 v swap < U64_MOD.
Proof. intros. destruct swap; [|done]. exact (swap_range 8 v). Qed.

Lemma architecture_safe (fat64 : bool) swap eo :
  0 <= eo -> eo + (if fat64 then fat_arch_64_size else fat_arch_size) <= blen file ->
  exists t st o sz, read_architecture file fat64 swap eo = Done (t, st, o, sz) /\ 0 <= o /\ 0 <= sz.
Proof.
  intros Ho He. unfold fat_arch_64_size, fat_arch_size in He.
  assert (safe (read_architecture file fat64 swap eo) (fun '(t, st, o, sz) => 0 <= o /\ 0 <= sz)) as Hs.
  { unfold read_architecture. destruct fat64; repeat walk_step; cbn.
    - split; apply fat_field64_range; done.
    - split; apply fat_field32_range; done. }
  assert (read_architecture file fat64 swap eo <> Reject tt) as Hr.
  { unfold read_architecture. destruct fat64; rewrite ?u32_at_done by lia; unfold u64_at;
      rewrite ?fetch_in_buf by lia; done. }
  destruct (read_architecture file fat64 swap eo) as [[[[t st] o] sz]|[]|]; [eauto 10|done..].
Qed.

Lemma priority_positive st : 0 < LC32ARMSubtypePriority st.
Proof. unfold LC32ARMSubtypePriority. repeat case_match; lia. Qed.

(** The best entry of the slices seen so far, as the loop keeps it. *)
Definition best_so_far (seen : list (Z * LC32MappedMachO)) (priority : Z) (o : option LC32MappedMachO) : Prop :=
  match o with
  | None => priority = 0 /\ seen = []
  | Some x => 0 < priority /\ exists l1 l2, seen = l1 ++ (priority, x) :: l2 /\
      Forall (fun e => e.1 < priority) l1 /\ Forall (fun e => e.1 <= priority) l2
  end.

Lemma best_step seen priority o p x :
  0 < p -> best_so_far seen priority o ->
  best_so_far (seen ++ [(p, x)]) (if priority <? p then p else priority)
    (if priority <? p then Some x else o).
Proof.
  intros Hp Hb. destruct (priority <? p) eqn:E; zb; destruct o as [y|]; cbn in *.
  - destruct Hb as (H0 & l1 & l2 & -> & H1 & H2). split; [lia|]. exists (l1 ++ (priority, y) :: l2), [].
    split_and!; [done| |constructor]. apply Forall_app. split; [|constructor; [done|]];
      (eapply Forall_impl; [eassumption|]; cbn; intros; lia).
  - destruct Hb as [-> ->]. split; [done|]. exists [], []. split_and!; [done|constructor..].
  - destruct Hb as (H0 & l1 & l2 & -> & H1 & H2). split; [done|]. exists l1, (l2 ++ [(p, x)]).
    split_and!; [by rewrite <- app_assoc|done|]. apply Forall_app. split; [done|]. by constructor.
  - destruct Hb as [-> ->]. lia.
Qed.

Lemma slices_safe (fat64 : bool) swap n : forall eo priority o seen,
  let entrySize := if fat64 then fat_arch_64_size else fat_arch_size in
  0 <= eo -> eo + Z.of_nat n * entrySize <= blen file -> best_so_far seen priority o ->
  (forall x, o = Some x -> image_valid (image_offset x) (image_size x)) ->
  safe (select_slices n file fat64 swap entrySize eo priority o) (fun x =>
    image_valid (image_offset x) (image_size x) /\
    first_best (seen ++ arm_slices n fat64 swap entrySize eo) x).
Proof.
  induction n as [|n IH]; intros eo priority o seen entrySize Ho He Hb Hv; cbn [select_slices arm_slices].
  - apply safe_or_reject. intros x ->. split; [by apply Hv|]. rewrite app_nil_r.
    destruct Hb as (_ & l1 & l2 & ? & ? & ?). by exists priority, l1, l2.
  - assert (0 < entrySize) by (unfold entrySize; by destruct fat64).
    destruct (architecture_safe fat64 swap eo) as (t & st & so & sz & E & Hso & Hsz); [lia|fold entrySize; lia|].
    rewrite E. cbn. apply safe_bind, safe_check; intros Hf. zranges.
    destruct (t =? CPU_TYPE_ARM); cbn [negb]; [|apply IH; [lia|fold entrySize; lia|done|done]].
    apply safe_bind. eapply safe_mono; [by apply image_safe|]. intros [] Hi. cbv zeta.
    pose proof (best_step seen priority o (LC32ARMSubtypePriority st) (mkMapped so sz)
      (priority_positive st) Hb) as Hstep.
    cbn [app]. rewrite cons_middle, app_assoc.
    destruct (priority <? LC32ARMSubtypePriority st); (apply IH; [lia|fold entrySize; lia|done|]); [|done].
    by intros x [= <-].
Qed.

(** The table of descriptors of a FAT file. *)
Definition file_slices : list (Z * LC32MappedMachO) :=
  let magic := le32 0 in
  let fat64 := (magic =? FAT_MAGIC_64) || (magic =? FAT_CIGAM_64) in
  let swap := (magic =? FAT_CIGAM) || (magic =? FAT_CIGAM_64) in
  arm_slices (Z.to_nat (LC32ConvertUInt32 (le32 4) swap)) fat64 swap
    (if fat64 then fat_arch_64_size else fat_arch_size) fat_header_size.

Lemma selection_safe :
  safe (LC32SelectARMImage file) (fun x => image_valid (image_offset x) (image_size x) /\
    if le32 0 =? MH_MAGIC then x = mkMapped 0 (blen file) else first_best file_slices x).
Proof.
  unfold LC32SelectARMImage. apply safe_bind, safe_check; intros Hb. zranges.
  rewrite (u32_at_done file 0) by lia. cbn [mbind outcome_bind].
  destruct (le32 0 =? MH_MAGIC) eqn:Em; zb.
  - unfold mach_header_size. apply safe_bind, safe_check; intros Hb'. zranges.
    apply safe_bind, safe_u32; [done|lia|lia|]. intros st _.
    apply safe_bind. eapply safe_mono; [by apply image_safe|]. by intros [].
  - unfold file_slices. cbv zeta.
    set (fat64 := (le32 0 =? FAT_MAGIC_64) || (le32 0 =? FAT_CIGAM_64)).
    apply safe_bind, safe_check; intros _. unfold fat_header_size.
    apply safe_bind, safe_check; intros Hh. zranges. rewrite (u32_at_done file 4) by lia. cbn [mbind outcome_bind].
    set (swap := (le32 0 =? FAT_CIGAM) || (le32 0 =? FAT_CIGAM_64)).
    pose proof (fat_field32_range (le32 4) swap (le32_range file Hfile 4 ltac:(lia) ltac:(lia))) as Hc.
    apply safe_bind, safe_check; intros Ht. zranges.
    apply (slices_safe fat64 swap _ 8 0 None []); [lia|rewrite Z2Nat.id by lia; lia|done|done].
Qed.
End validate.

(** An image is selected safely.  Whatever the bytes of the file, selection
    reads only inside it; what it returns is a slice inside the file that is a
    32-bit ARM image whose load commands tile the command area and are valid, one by
    one; it is the whole file if the file is thin, and otherwise the first slice of
    the highest priority among the ARM slices of the table. *)
Theorem select_image_safe file : Forall byte_ok file ->
  match LC32SelectARMImage file with
  | Fault => False
  | Reject _ => True
  | Done x => image_valid file (image_offset x) (image_size x) /\
      if le32 file 0 =? MH_MAGIC then x = mkMapped 0 (blen file) else first_best (file_slices file) x
  end.
Proof. exact (selection_safe file). Qed.

(** ** The segments in the guest *)

(** A segment as the walk places it: guest start, bytes from the file (whole
    pages), size, host address of the file part, protection. *)
Record placed := mkPlaced { p_start : Z; p_file : Z; p_size : Z; p_source : Z; p_protection : Z }.

Definition protection_of (g : segment_command) : Z :=
  Z.lor (Z.lor PROT_READ PROT_WRITE) (Z.land (initprot g) PROT_EXEC).

(** The last of the segments that covers [w]. *)
Fixpoint covering (segments : list placed) (w : Z) : option placed :=
  match segments with
  | [] => None
  | g :: rest =>
      match covering rest w with
      | Some x => Some x
      | None => if (p_start g <=? w) && (w <? p_start g + p_size g) then Some g else None
      end
  end.

(** The page at [w] of a segment: a page of the file's mapping, which the address
    space does not own, or a page of a mapping made for the zero fill. *)
Definition shows (g : placed) (w : Z) (o : option memory_page) : Prop :=
  exists p, o = Some p /\ perms p = p_protection g /\
    if w <? p_start g + p_file g then addr p = u64 (p_source g + (w - p_start g)) /\ backing p = 0
    else backing p <> 0.

Definition placed_page (segments : list placed) (before : gmap Z memory_page) (w : Z) (o : option memory_page)
    : Prop :=
  match covering segments w with Some g => shows g w o | None => o = before !! w end.

Lemma covering_app a b w :
  covering (a ++ b) w = match covering b w with Some x => Some x | None => covering a w end.
Proof. induction a as [|g a IH]; cbn; [by destruct (covering b w)|]. rewrite IH. by destruct (covering b w). Qed.

(** One list of segments after another. *)
Lemma placed_app a b m m1 w o :
  placed_page a m w (m1 !! w) -> placed_page b m1 w o -> placed_page (a ++ b) m w o.
Proof. unfold placed_page. rewrite covering_app. by destruct (covering b w); [|intros H ->]. Qed.

Section load.
Context (file : list Z) (fileMapping : Z) (image : LC32MappedMachO) (isDyld : bool) (host_in : vm -> host_env).
Context (Hfile : Forall byte_ok file)
  (Hhost : forall s protection sz, vm_ok s -> 0 <= sz <= 2 ^ 32 ->
     mmap_host_ok (host_in s) s protection sz load_flags (-1) 0 false).
#[local] Abbreviation map := (fileMapping + image_offset image).

Definition place (g : segment_command) (rounded start : Z) : placed :=
  mkPlaced start rounded (vmsize g) (map + fileoff g) (protection_of g).

(** What mapping a part of a segment leaves. *)
Definition part (s s' : vm) (a n : Z) (P : Z -> memory_page -> Prop) : Prop :=
  vm_ok s' /\ guestMemoryLookupGeneration s' <= guestMemoryLookupGeneration s + 1 /\
  forall w, w mod DYN_PAGE_SIZE = 0 ->
    if (a <=? w) && (w <? a + n) then exists p, memory s' !! w = Some p /\ P w p else memory s' !! w = memory s !! w.

Lemma part_range s s' a n (P : Z -> memory_page -> Prop) :
  a mod DYN_PAGE_SIZE = 0 -> vm_ok s' -> guestMemoryLookupGeneration s' <= guestMemoryLookupGeneration s + 1 ->
  (forall w, w ∈ page_addrs a (a + n) -> exists p, memory s' !! w = Some p /\ P w p) ->
  (forall w, w ∉ page_addrs a (a + n) -> memory s' !! w = memory s !! w) -> part s s' a n P.
Proof.
  intros Ha Hok Hg Hin Hout. split_and!; [done|done|]. intros w Hw.
  assert (w ∈ page_addrs a (a + n) <-> a <= w < a + n) as Hiff.
  { rewrite elem_of_page_addrs. split; [by intros [? _]|]. intros Hr. split; [done|].
    rewrite Zminus_mod, Hw, Ha. done. }
  destruct (_ && _)%bool eqn:E; [apply Hin, Hiff; zb; lia|]. apply Hout. rewrite Hiff.
  apply andb_false_iff in E. rewrite Z.leb_gt, Z.ltb_ge in E. lia.
Qed.

(** The file part: a direct mapping. *)
Lemma file_part g rounded a s :
  vm_ok s -> guestMemoryLookupGeneration s < UINT64_MAX -> 0 <= a -> a mod DYN_PAGE_SIZE = 0 -> 0 <= rounded ->
  safe (mapped (Dynarmic_direct_mmap (host_in s) a rounded (protection_of g) load_flags (map + fileoff g) 0 s)
          CannotMapFileData) (fun '(r, s') => r = a /\ part s s' a rounded (fun w p =>
    perms p = protection_of g /\ addr p = u64 (map + fileoff g + (w - a)) /\ backing p = 0)).
Proof.
  intros Hok Hg Ha Ham Hn.
  destruct (direct_mmap_correct (host_in s) a rounded (protection_of g) load_flags (map + fileoff g) 0 s
    Hok Hg Ha Hn) as (r & s' & -> & Hok' & Hr).
  destruct r as [r|e]; [|done]. destruct Hr as (_ & Hgen & Hfix & Hin & Hout).
  assert (r = a) as -> by (by apply Hfix). split; [done|]. apply part_range; [done|done|lia| |done].
  intros w Hw. destruct (Hin w Hw) as (p & Hp & Haddr & Hperm & Hb). exists p. split_and!; try done.
  rewrite Haddr. f_equal. lia.
Qed.

(** The zero-fill part: an anonymous mapping. *)
Lemma zero_part protection a n s :
  vm_ok s -> guestMemoryLookupGeneration s < UINT64_MAX -> 0 <= a -> a mod DYN_PAGE_SIZE = 0 -> 0 <= n <= 2 ^ 32 ->
  safe (mapped (Dynarmic_mmap (host_in s) a n protection load_flags (-1) 0 DYN_PAGE_MASK false s)
          CannotMapZeroFill) (fun '(r, s') => part s s' a n (fun w p => perms p = protection /\ backing p <> 0)).
Proof.
  intros Hok Hg Ha Ham Hn.
  destruct (mmap_spec (host_in s) a n protection load_flags (-1) 0 DYN_PAGE_MASK false s
    Hok Hg Ha ltac:(lia) ltac:(done) (Hhost s protection n Hok Hn)) as (r & s' & -> & Hok' & Hr).
  destruct r as [r|e]; [|done]. destruct Hr as (Hgen & _ & _ & first & b & [Hb _] & _ & _ & _ & _ & Hfix & Hin & Hout).
  assert (r = a) as -> by (by apply Hfix). apply part_range; [done|done|lia| |done].
  intros w Hw. destruct (Hin w Hw) as (p & Hp & _ & Hperm & Hpb). exists p. split_and!; [done|done|congruence].
Qed.

Lemma part_empty s a n P : vm_ok s -> n <= 0 -> part s s a n P.
Proof.
  intros Hok Hn. split_and!; [done|lia|]. intros w _. destruct (_ && _)%bool eqn:E; [zb; lia|done].
Qed.

(** The two parts make up the segment. *)
Lemma parts_show g rounded a s s1 s2 :
  0 <= rounded <= vmsize g ->
  part s s1 a rounded (fun w p =>
    perms p = protection_of g /\ addr p = u64 (map + fileoff g + (w - a)) /\ backing p = 0) ->
  part s1 s2 (a + rounded) (vmsize g - rounded) (fun w p => perms p = protection_of g /\ backing p <> 0) ->
  vm_ok s2 /\ guestMemoryLookupGeneration s2 <= guestMemoryLookupGeneration s + 2 /\
  forall w, w mod DYN_PAGE_SIZE = 0 ->
    if (a <=? w) && (w <? a + vmsize g) then shows (place g rounded a) w (memory s2 !! w)
    else memory s2 !! w = memory s !! w.
Proof.
  intros Hr (Hok1 & Hg1 & H1) (Hok2 & Hg2 & H2). split_and!; [done|lia|]. intros w Hw.
  specialize (H1 w Hw). specialize (H2 w Hw). unfold shows, place. cbn.
  replace (a + rounded + (vmsize g - rounded)) with (a + vmsize g) in H2 by lia.
  destruct (a <=? w) eqn:Ea, (w <? a + vmsize g) eqn:Ev, (w <? a + rounded) eqn:Er, (a + rounded <=? w) eqn:Es;
    zb; try lia; cbn [andb] in *; try congruence.
  rewrite H2. destruct H1 as (p & -> & ? & ? & ?). eauto 10.
Qed.

Lemma map_segment_safe size g rounded a s :
  vm_ok s -> guestMemoryLookupGeneration s < UINT64_MAX - 1 ->
  segment_ok size g rounded -> 0 <= a -> a mod DYN_PAGE_SIZE = 0 -> a + vmsize g <= UINT32_MAX ->
  safe (map_segment fileMapping image host_in g rounded a s) (fun '(_, s') =>
    vm_ok s' /\ guestMemoryLookupGeneration s' <= guestMemoryLookupGeneration s + 2 /\
    forall w, w mod DYN_PAGE_SIZE = 0 ->
      if (a <=? w) && (w <? a + vmsize g) then shows (place g rounded a) w (memory s' !! w)
      else memory s' !! w = memory s !! w).
Proof.
  intros Hok Hg (H1 & H2 & H3 & H4 & H5 & H6 & H7 & H8 & [H9 H10] & H11 & H12) Ha Ham He.
  assert (UINT32_MAX < U32_MOD /\ U32_MOD = 2 ^ 32) as [? ?] by done.
  assert (a mod DYN_PAGE_SIZE = 0 -> (a + rounded) mod DYN_PAGE_SIZE = 0) as Hpm.
  { intros _. by rewrite Zplus_mod, Ham, H12. }
  unfold map_segment. fold (protection_of g). apply safe_bind.
  eapply (safe_mono _ (fun '(_, s1) => part s s1 a rounded (fun w p =>
    perms p = protection_of g /\ addr p = u64 (map + fileoff g + (w - a)) /\ backing p = 0))).
  { destruct (0 <? rounded) eqn:E; zb; [|by apply safe_done, part_empty].
    eapply safe_mono; [by apply file_part; try lia|]. by intros [r s1] [_ ?]. }
  intros [r s1] Hp. pose proof Hp as (Hok1 & Hg1 & _). cbv zeta. rewrite !u32_small by lia.
  destruct (0 <? vmsize g - rounded) eqn:E; zb.
  - apply safe_bind. eapply safe_mono; [apply zero_part; [done|lia|lia|auto|lia]|].
    intros [r' s2] Hz. apply safe_done. eapply parts_show; [lia|done|done].
  - apply safe_done. eapply parts_show; [lia|done|]. apply part_empty; [done|lia].
Qed.

(** The segments of the commands from [lc] on, as they are placed. *)
Fixpoint plan (n : nat) (i lc target firstIndex : Z) : list placed :=
  match n with
  | O => []
  | S m =>
      let cmdsize := le32 file (lc + 4) in
      let next := plan m (i + 1) (lc + cmdsize) in
      if le32 file lc =? LC_SEGMENT then
        match LC32ReadSegmentCommand file lc cmdsize (image_size image) with
        | Done (g, rounded) =>
            if bool_decide (take 10 (segname g) = pagezero) then next target 1
            else
              let target := if (i =? firstIndex) && (0x10000000 <=? vmaddr g) then 0 else target in
              place g rounded (target + vmaddr g) :: next target firstIndex
        | _ => []
        end
      else next target firstIndex
  end.

(** What one command leaves: the state for the rest of the plan. *)
Definition loaded (l l' : loader) (segments : list placed) : Prop :=
  vm_ok (space l') /\ 0 <= target l' /\
  guestMemoryLookupGeneration (space l') <= guestMemoryLookupGeneration (space l) + 2 /\
  forall w, w mod DYN_PAGE_SIZE = 0 ->
    placed_page segments (memory (space l)) w (memory (space l') !! w).

Lemma loaded_none l l' : vm_ok (space l) -> 0 <= target l' -> space l' = space l -> loaded l l' [].
Proof. intros Hok Ht E. unfold loaded. rewrite E. split_and!; [done|done|lia|done]. Qed.

Lemma load_segment_safe i lc cmdsize l :
  vm_ok (space l) -> guestMemoryLookupGeneration (space l) < UINT64_MAX - 1 -> 0 <= target l ->
  0 <= lc -> lc + cmdsize <= blen file ->
  safe (load_segment file fileMapping image host_in i lc cmdsize l) (fun l' =>
    exists g rounded, LC32ReadSegmentCommand file lc cmdsize (image_size image) = Done (g, rounded) /\
      if bool_decide (take 10 (segname g) = pagezero)
      then loaded l l' [] /\ target l' = target l /\ firstIndex l' = 1
      else target l' = (if (i =? firstIndex l) && (0x10000000 <=? vmaddr g) then 0 else target l) /\
        firstIndex l' = firstIndex l /\ loaded l l' [place g rounded (target l' + vmaddr g)]).
Proof.
  intros Hok Hg Ht Hlc Hend. unfold load_segment.
  pose proof (segment_safe file Hfile lc cmdsize (image_size image) Hlc Hend) as Hs.
  destruct (LC32ReadSegmentCommand file lc cmdsize (image_size image)) as [[g rounded]|e|] eqn:E; [|done..].
  cbn [map_error mbind outcome_bind]. cbn in Hs.
  destruct (bool_decide (take 10 (segname g) = pagezero)) eqn:Ez.
  { apply safe_done. exists g, rounded. rewrite Ez. split; [done|]. split; [by apply loaded_none|done]. }
  set (l1 := if ((i =? firstIndex l) && _)%bool then with_target 0 l else l).
  assert (target l1 = (if (i =? firstIndex l) && (0x10000000 <=? vmaddr g) then 0 else target l) /\
    firstIndex l1 = firstIndex l /\ space l1 = space l) as (Et & Ef & Es) by (unfold l1; by destruct (_ && _)%bool).
  assert (0 <= target l1) as Ht1 by (rewrite Et; by destruct (_ && _)%bool).
  clearbody l1. apply safe_bind, safe_check; intros Hb. zb. rewrite page_offset_mod in *.
  apply safe_bind. eapply (safe_mono _ (fun l2 => target l2 = target l1 /\ firstIndex l2 = firstIndex l1 /\
    space l2 = space l1)).
  { destruct ((fileoff g =? 0) && negb (filesize g =? 0))%bool; [|by apply safe_done]. apply safe_bind, safe_check; intros _. by apply safe_done. }
  intros l2 (Et2 & Ef2 & Es2). rewrite Es2, Es. apply safe_bind.
  eapply safe_mono; [apply (map_segment_safe (image_size image)); try done; destruct Hs; lia|].
  intros [a s'] (Hok' & Hg' & Hpages). apply safe_done. exists g, rounded. rewrite Ez. split; [done|].
  set (l3 := if i =? firstIndex (with_space s' l2) then _ else _).
  assert (target l3 = target l1 /\ firstIndex l3 = firstIndex l1 /\ space l3 = s') as (Et3 & Ef3 & Es3)
    by (unfold l3; destruct (i =? firstIndex (with_space s' l2)); split_and!; [exact Et2|exact Ef2|done|exact Et2|exact Ef2|done]).
  clearbody l3. rewrite Et3. split; [done|]. split; [congruence|]. unfold loaded. rewrite Et3, Es3.
  split_and!; [done|done|lia|]. intros w Hw. specialize (Hpages w Hw). unfold placed_page. cbn.
  by destruct ((target l1 + vmaddr g <=? w) && (w <? target l1 + vmaddr g + vmsize g))%bool.
Qed.

(** The other commands leave memory and target alone. *)
Definition undisturbed (l l' : loader) : Prop :=
  space l' = space l /\ target l' = target l /\ firstIndex l' = firstIndex l.

Lemma load_version_safe lc cmd cmdsize l :
  0 <= lc -> lc + cmdsize <= blen file ->
  safe (load_version file isDyld lc cmd cmdsize l) (undisturbed l).
Proof.
  intros. unfold load_version, version_min_command_size, build_version_command_size, undisturbed.
  repeat walk_step; [done|by case_match|done].
Qed.

Lemma encryption_size lc cmd cmdsize size :
  cmd = LC_ENCRYPTION_INFO \/ cmd = LC_ENCRYPTION_INFO_64 ->
  validate_command file lc cmd cmdsize size = Done tt -> encryption_info_command_size <= cmdsize.
Proof.
  unfold encryption_info_command_size. intros [->| ->]; cbn; unfold encryption_info_command_64_size, encryption_info_command_size; unfold reject_if; case_match; zb; try done; lia.
Qed.

Lemma load_thread_safe lc cmdsize l :
  0 <= lc -> lc + cmdsize <= blen file -> safe (load_thread file lc cmdsize l) (undisturbed l).
Proof.
  intros. unfold load_thread. apply safe_bind, safe_map_error.
  eapply safe_mono; [by apply thread_safe|]. intros st _. cbv zeta. by repeat walk_step.
Qed.

Lemma load_other_safe i lc cmd cmdsize size l :
  0 <= lc -> lc + cmdsize <= blen file -> cmd <> LC_SEGMENT ->
  validate_command file lc cmd cmdsize size = Done tt ->
  safe (load_command file fileMapping image isDyld host_in i lc cmd cmdsize l) (undisturbed l).
Proof.
  intros Hlc Hend Hcmd Hv. unfold load_command. apply safe_bind.
  eapply safe_mono; [by apply load_version_safe|]. intros l1 (E1 & E2 & E3).
  apply Z.eqb_neq in Hcmd. rewrite Hcmd.
  destruct (cmd =? LC_UNIXTHREAD).
  { eapply safe_mono; [by apply load_thread_safe|]. intros l2 (F1 & F2 & F3). unfold undisturbed. by rewrite F1, F2, F3. }
  destruct (negb isDyld && (_ || _))%bool eqn:Ee.
  - assert (encryption_info_command_size <= cmdsize) as Hsize.
    { eapply encryption_size; [|exact Hv]. apply andb_true_iff in Ee as [_ Ee].
      apply orb_true_iff in Ee. by rewrite !Z.eqb_eq in Ee. }
    unfold encryption_info_command_size in Hsize. by repeat walk_step.
  - unfold linkedit_data_command_size. by repeat walk_step.
Qed.

Lemma load_commands_safe n : forall i co ce l,
  let size := image_size image in
  let lc := image_offset image + co in
  commands_valid file n (image_offset image) size co ce ->
  0 <= image_offset image -> image_offset image + ce <= blen file -> 0 <= co ->
  vm_ok (space l) -> guestMemoryLookupGeneration (space l) + 2 * Z.of_nat n < UINT64_MAX -> 0 <= target l ->
  safe (load_commands file fileMapping image isDyld host_in n i lc l) (fun l' =>
    vm_ok (space l') /\ forall w, w mod DYN_PAGE_SIZE = 0 ->
      placed_page (plan n i lc (target l) (firstIndex l)) (memory (space l)) w (memory (space l') !! w)).
Proof.
  induction n as [|n IH]; intros i co ce l size lc Hv Hi He Hc Hok Hg Ht; cbn [load_commands plan]; [done|].
  destruct Hv as (Hv1 & Hv2 & Hv3 & Hv4 & Hv5). fold lc in Hv2, Hv3, Hv4, Hv5 |- *.
  unfold load_command_size in *. rewrite !u32_at_done by (unfold lc; lia). cbn [mbind outcome_bind].
  set (cmdsize := le32 file (lc + 4)) in *. apply safe_bind.
  assert (lc + cmdsize = image_offset image + (co + cmdsize)) as Enext by (unfold lc; lia).
  assert (forall l2 segments, loaded l l2 segments ->
    safe (load_commands file fileMapping image isDyld host_in n (i + 1) (lc + cmdsize) l2) (fun l' =>
      vm_ok (space l') /\ forall w, w mod DYN_PAGE_SIZE = 0 ->
        placed_page (segments ++ plan n (i + 1) (lc + cmdsize) (target l2) (firstIndex l2))
          (memory (space l)) w (memory (space l') !! w))) as Hrest.
  { intros l2 segments (Hok2 & Ht2 & Hg2 & Hp2). rewrite Enext.
    eapply safe_mono; [eapply (IH (i + 1) (co + cmdsize) ce l2); try done; lia|].
    intros l' [Hok' Hp']. split; [done|]. intros w Hw. eapply placed_app; [by apply Hp2|by apply Hp']. }
  destruct (le32 file lc =? LC_SEGMENT) eqn:Ecmd; zb.
  - rewrite Ecmd. unfold load_command. apply safe_bind.
    eapply safe_mono; [apply load_version_safe; unfold lc; lia|]. intros l1 (Es1 & Et1 & Ef1).
    cbn [Z.eqb LC_SEGMENT Pos.eqb]. eapply safe_mono; [apply load_segment_safe; rewrite ?Es1, ?Et1; try done; unfold lc; lia|].
    intros l2 (g & rounded & Eread & Hl). rewrite Eread. unfold loaded in Hl. rewrite Es1, Et1, Ef1 in Hl.
    destruct (bool_decide _).
    + destruct Hl as (Hl & Et2 & Ef2). specialize (Hrest l2 [] Hl). by rewrite Et2, Ef2 in Hrest.
    + destruct Hl as (Et2 & Ef2 & Hl). specialize (Hrest l2 _ Hl). by rewrite Et2, Ef2 in Hrest.
  - eapply safe_mono; [by apply (load_other_safe i lc _ cmdsize size); unfold lc; try lia|].
    intros l2 (Es2 & Et2 & Ef2). pose proof (loaded_none l l2 Hok ltac:(lia) Es2) as Hl.
    specialize (Hrest l2 [] Hl). by rewrite Et2, Ef2 in Hrest.
Qed.

(** The segments of an image loaded at [requested]. *)
Definition image_plan (requested : Z) : list placed :=
  let offset := image_offset image in
  let fixed := (le32 file (offset + 12) =? MH_EXECUTE) && negb (has_flag (le32 file (offset + 24)) MH_PIE) in
  plan (Z.to_nat (le32 file (offset + 16))) 0 (offset + mach_header_size) (if fixed then 0 else requested) 0.

Lemma load_image_safe requested sdk s :
  image_valid file (image_offset image) (image_size image) -> vm_ok s ->
  guestMemoryLookupGeneration s + 2 * LC32MaximumLoadCommands < UINT64_MAX -> 0 <= requested ->
  safe (load_image file fileMapping image isDyld host_in requested sdk s) (fun l =>
    vm_ok (space l) /\ forall w, w mod DYN_PAGE_SIZE = 0 ->
      placed_page (image_plan requested) (memory s) w (memory (space l) !! w)).
Proof.
  intros (Ho & Hs & Hin & Hmagic & Hcpu & Hn & Hcmds & Hv) Hok Hg Hr.
  unfold load_image, image_plan, mach_header_size in *. rewrite !u32_at_done by lia. cbn [mbind outcome_bind].
  rewrite Hmagic, Hcpu. cbn [Z.eqb MH_MAGIC CPU_TYPE_ARM Pos.eqb andb mret outcome_ret].
  pose proof (le32_range file Hfile (image_offset image + 16) ltac:(lia) ltac:(lia)).
  set (fixed := ((_ =? MH_EXECUTE) && _)%bool).
  apply (load_commands_safe _ 0 28 _ (mkLoader (if fixed then 0 else requested) 0 sdk None None None None (0, 0) 0 s)
    Hv); cbn; [lia|lia|lia|done|lia|by destruct fixed].
Qed.

End load.

(** ** The file's mapping *)

Lemma align_size_covers k len : 12 <= k <= 32 -> 0 <= len < 2 ^ 63 ->
  len <= ALIGN_SIZE (2 ^ k) len /\ ALIGN_SIZE (2 ^ k) len mod DYN_PAGE_SIZE = 0.
Proof.
  intros Hk Hlen. unfold ALIGN_SIZE. assert (2 ^ 63 + 2 ^ 32 < U64_MOD) by done.
  assert (2 ^ k <= 2 ^ 32) by (apply Z.pow_le_mono_r; lia). assert (0 < 2 ^ k) by (apply Z.pow_pos_nonneg; lia).
  assert (2 ^ k = 2 ^ (k - 12) * DYN_PAGE_SIZE) as Ek
    by (change DYN_PAGE_SIZE with (2 ^ 12); rewrite <- Z.pow_add_r by lia; f_equal; lia).
  assert (forall m, (2 ^ k * m) mod DYN_PAGE_SIZE = 0) as Hmul.
  { intros m. rewrite Ek, (Z.mul_comm _ DYN_PAGE_SIZE), <- Z.mul_assoc, Z.mul_comm. by apply Z.mod_mul. }
  pose proof (Z.div_mod len (2 ^ k) ltac:(lia)). pose proof (Z.mod_pos_bound len (2 ^ k) ltac:(lia)).
  replace (2 ^ k - 1) with (Z.ones k) by (rewrite Z.ones_equiv; lia).
  rewrite Z.land_comm, Z.land_ones by lia. destruct (len mod 2 ^ k =? 0) eqn:E; zb; cbn [negb].
  - split; [lia|]. replace len with (2 ^ k * (len / 2 ^ k)) by lia. apply Hmul.
  - rewrite u64_small, land_u64_not_ones by lia. split; [|apply Hmul].
    replace (len + 2 ^ k) with (len + 1 * 2 ^ k) by lia. rewrite Z.div_add by lia. lia.
Qed.

(** The file pages of a segment lie in the mapping of the file. *)
Definition inside_mapping (fileMapping mappingSize : Z) (g : placed) : Prop :=
  fileMapping <= p_source g /\ p_source g + p_file g <= fileMapping + mappingSize.

Lemma aligned_inside k file fileMapping image g rounded start :
  12 <= k <= 32 -> blen file < 2 ^ 63 -> 0 <= image_offset image ->
  image_offset image + image_size image <= blen file -> segment_ok (image_size image) g rounded ->
  (image_offset image + fileoff g) mod DYN_PAGE_SIZE = 0 ->
  inside_mapping fileMapping (ALIGN_SIZE (2 ^ k) (blen file)) (place fileMapping image g rounded start).
Proof.
  intros Hk Hlen Ho Hi (_ & _ & _ & _ & _ & Hf & Hfs & Hfit & _ & Hr & Hrm) Hal.
  destruct (align_size_covers k (blen file) Hk ltac:(split; [apply blen_nonneg|done])) as [Hc Hcm].
  unfold inside_mapping, place. cbn. split; [lia|].
  apply Z.mod_divide in Hal as [a Ha]; [|done]. apply Z.mod_divide in Hrm as [r Hr']; [|done].
  apply Z.mod_divide in Hcm as [c Hc']; [|done]. unfold DYN_PAGE_SIZE in *. lia.
Qed.

Lemma plan_inside k file fileMapping image (Hfile : Forall byte_ok file) n : forall i co ce target firstIndex,
  12 <= k <= 32 -> blen file < 2 ^ 63 ->
  commands_valid file n (image_offset image) (image_size image) co ce ->
  0 <= image_offset image -> image_offset image + image_size image <= blen file ->
  image_offset image + ce <= blen file -> 0 <= co ->
  Forall (fun g => (p_source g - fileMapping) mod DYN_PAGE_SIZE = 0 ->
    inside_mapping fileMapping (ALIGN_SIZE (2 ^ k) (blen file)) g)
    (plan file fileMapping image n i (image_offset image + co) target firstIndex).
Proof.
  induction n as [|n IH]; intros i co ce target firstIndex Hk Hlen Hv Ho Hi He Hc; cbn [plan]; [constructor|].
  destruct Hv as (Hv1 & Hv2 & Hv3 & _ & Hv5). unfold load_command_size in *.
  set (cmdsize := le32 file (image_offset image + co + 4)) in *.
  assert (forall t f, Forall (fun g => (p_source g - fileMapping) mod DYN_PAGE_SIZE = 0 ->
    inside_mapping fileMapping (ALIGN_SIZE (2 ^ k) (blen file)) g)
    (plan file fileMapping image n (i + 1) (image_offset image + co + cmdsize) t f)) as Hrest.
  { intros t f. rewrite <- Z.add_assoc. eapply IH; try done; lia. }
  destruct (_ =? LC_SEGMENT); [|apply Hrest].
  pose proof (segment_safe file Hfile (image_offset image + co) cmdsize (image_size image) ltac:(lia) ltac:(lia)) as Hs.
  destruct (LC32ReadSegmentCommand _ _ _ _) as [[g rounded]|e|]; [|constructor|constructor].
  destruct (bool_decide _); [apply Hrest|]. constructor; [|apply Hrest]. intros Hal. cbn in Hal.
  eapply aligned_inside; try done. rewrite <- Hal. f_equal. lia.
Qed.

(** C29: loading maps exactly the segments of the image.  For a selected image, any
    host and any address to load at, the walk over the commands reads only inside
    the file, runs into no failed assertion and keeps the address space consistent.
    When it completes, every guest page is the page of the last segment that covers
    it (a page of the file's mapping, or a page of fresh zero-fill memory, with the
    segment's protection) and every other page is as before.  A segment that starts
    at a page boundary of the file shows the guest only bytes of the file's mapping. *)
Theorem image_loaded k file fileMapping isDyld host_in image requested sdk s :
  Forall byte_ok file -> blen file < 2 ^ 63 -> 12 <= k <= 32 ->
  (forall s protection sz, vm_ok s -> 0 <= sz <= 2 ^ 32 ->
     mmap_host_ok (host_in s) s protection sz load_flags (-1) 0 false) ->
  LC32SelectARMImage file = Done image -> vm_ok s ->
  guestMemoryLookupGeneration s + 2 * LC32MaximumLoadCommands < UINT64_MAX -> 0 <= requested ->
  match load_image file fileMapping image isDyld host_in requested sdk s with
  | Fault => False
  | Reject _ => True
  | Done l => vm_ok (space l) /\
      (forall w, w mod DYN_PAGE_SIZE = 0 ->
         placed_page (image_plan file fileMapping image requested) (memory s) w (memory (space l) !! w)) /\
      Forall (fun g => (p_source g - fileMapping) mod DYN_PAGE_SIZE = 0 ->
        inside_mapping fileMapping (ALIGN_SIZE (2 ^ k) (blen file)) g) (image_plan file fileMapping image requested)
  end.
Proof.
  intros Hfile Hlen Hk Hhost Hsel Hok Hg Hr.
  pose proof (safe_elim _ _ _ (selection_safe file Hfile) Hsel) as [Hv _].
  pose proof (load_image_safe file fileMapping image isDyld host_in Hfile Hhost requested sdk s Hv Hok Hg Hr) as Hl.
  destruct (load_image _ _ _ _ _ _ _ _) as [l|e|]; [|done..]. cbn in Hl. destruct Hl as [? ?].
  split_and!; [done|done|]. destruct Hv as (Ho & Hs & Hin & _ & _ & _ & Hc & Hv). unfold image_plan.
  eapply plan_inside; try done; unfold mach_header_size in *; lia.
Qed.



(** A host that grants every request with a fresh backing. *)
Definition fresh_backing (s : vm) : Z := fresh (0 :: (map_to_list (backings s)).*1 ++ elements (given_up (epochs s))).

Definition granting (s : vm) : host_env := {|
  vector_reserve_ok := true; calloc_page := fun v => Z.abs v + 1; push_back_ok := fun _ => true;
  kh_put_ret := fun _ => 1; host_mmap := fun _ _ _ _ _ => inl (0x100000, []);
  host_vm_allocate := fun _ => inl 0x100000; calloc_backing := fresh_backing s;
  host_mprotect := fun _ _ _ => None; host_page_size := 0x4000 |}.

Lemma granting_ok s protection sz :
  vm_ok s -> 0 <= sz <= 2 ^ 32 -> mmap_host_ok (granting s) s protection sz load_flags (-1) 0 false.
Proof.
  intros _ Hsz. split; [right|done|done|].
  - pose proof (infinite_is_fresh (0 :: (map_to_list (backings s)).*1 ++ elements (given_up (epochs s)))) as Hf.
    change (fresh _) with (fresh_backing s) in Hf. cbn [granting calloc_backing]. split.
    + apply eq_None_not_Some. intros [bk Hb]. apply Hf. apply elem_of_cons. right. apply elem_of_app. left.
      apply list_elem_of_fmap. exists (fresh_backing s, bk). split; [done|]. by apply elem_of_map_to_list.
    + intros Hin. apply Hf. apply elem_of_cons. right. apply elem_of_app. right. by apply elem_of_elements.
  - intros a bytes [= <- <-]. change (aligned_off _ _) with 0. assert (2 ^ 33 < U64_MOD) by done. lia.
Qed.

Definition words (ws : list Z) : list Z := mjoin (le_bytes 4 <$> ws).

(** A fixed executable: the header, one segment and a thread. *)
Definition header (sizeofcmds : Z) : list Z := words [MH_MAGIC; CPU_TYPE_ARM; 9; MH_EXECUTE; 2; sizeofcmds; 0].

Definition segment (vmaddr vmsize fileoff filesize : Z) : list Z :=
  words [LC_SEGMENT; 56] ++ [95; 95; 84; 69; 88; 84] ++ zeros 10 ++
  words [vmaddr; vmsize; fileoff; filesize; 7; 5; 0; 0].

Definition thread : list Z := words ([LC_UNIXTHREAD; 84; 1; 17] ++ seqZ 0 15 ++ [0x4010; 0x20]).

(** One file page and one page of zero fill at 0x4000. *)
Definition small_image : list Z := header 140 ++ segment 0x4000 0x2000 0 168 ++ thread.

Lemma small_image_bytes : Forall byte_ok small_image.
Proof.
  assert (forallb (fun b => (0 <=? b) && (b <? 256)) small_image = true) as H by (vm_compute; reflexivity).
  rewrite forallb_forall in H. apply Forall_forall. intros b Hb%list_elem_of_In%H. unfold byte_ok. zb. lia.
Qed.

Lemma select_image_safe_witness :
  LC32SelectARMImage small_image = Done (mkMapped 0 168) /\
  image_valid small_image 0 168.
Proof.
  assert (LC32SelectARMImage small_image = Done (mkMapped 0 168)) as E by (vm_compute; reflexivity).
  split; [exact E|]. pose proof (select_image_safe small_image small_image_bytes) as H.
  rewrite E in H. exact (proj1 H).
Defined.

Definition loaded_small : outcome load_error loader :=
  load_image small_image 0x900000 (mkMapped 0 168) false granting 0x11000000 0 demo.

Definition is_done {E A} (m : outcome E A) : bool := match m with Done _ => true | _ => false end.

Lemma image_loaded_witness :
  ((fun l => (mapping l, pc <$> registers l)) <$> loaded_small) = Done ((0x4000, 0x6000), Some 0x4010) /\
  exists l, loaded_small = Done l /\ vm_ok (space l).
Proof.
  split; [vm_compute; reflexivity|].
  assert (is_done loaded_small = true) as Hd by (vm_compute; reflexivity).
  pose proof (image_loaded 14 small_image 0x900000 false granting (mkMapped 0 168) 0x11000000 0 demo
    small_image_bytes ltac:(reflexivity) ltac:(lia) granting_ok ltac:(vm_compute; reflexivity) demo_ok
    ltac:(reflexivity) ltac:(lia)) as H.
  fold loaded_small in H. revert H Hd. generalize loaded_small. intros [l|e|] H Hd.
  - exists l. split; [reflexivity|exact (proj1 H)].
  - discriminate Hd.
  - destruct H.
Defined.

(** A file of one host page whose segment starts at 0x3800: the last guest page
    ends 0x800 bytes behind the mapping of the file. *)
Definition unaligned_image : list Z :=
  let front := header 140 ++ segment 0x4000 0x1000 0x3800 0x800 ++ thread in
  front ++ zeros (0x4000 - blen front).

Example unaligned_segment_escapes :
  LC32SelectARMImage unaligned_image = Done (mkMapped 0 0x4000) /\
  ALIGN_SIZE 0x4000 (blen unaligned_image) = 0x4000 /\
  ((fun l => addr <$> memory (space l) !! 0x4000) <$>
     load_image unaligned_image 0x900000 (mkMapped 0 0x4000) false granting 0x11000000 0 demo)
    = Done (Some (0x900000 + 0x3800)) /\
  0x900000 + 0x3800 + DYN_PAGE_SIZE = 0x900000 + 0x4000 + 0x800.
Proof. split_and!; vm_compute; reflexivity. Qed.
