(* ===== verification/Workqueue.v ===== *)
(** The guest's workqueue: libdispatch asks for worker threads and registers
    events, and the emulator starts native guest threads for them.

    [workqueue] is the state behind guestWorkqueueMutex (dynarmic_syscalls.cpp,
    dynarmic_thread_state.cpp), with the operations on it: the system calls
    workq_kernreturn and kevent_qos, and [NextGuestWorkqueueEvent].  [native] adds
    the thread registry and guest memory; [StartNativeGuestWorkqueueWorker]
    (dynarmic_native_jit.cpp) works on it.  [PumpGuestWorkqueue]
    (dynarmic_workqueue.cpp) is a loop of four sections, each under its own lock:
    [scan_threads], [select_job], the start, and [requeue] or
    [clear_compensation].  WorkqueueProps.v lets them interleave with everything
    else.  The receive half of mach_msg, kevent64 and thread creation are
    parameters. *)

From stdpp Require Import base gmap list.
From Stdlib Require Import ZArith Lia.
From S2P Require Import Prelude TimerQueue Bytes VmEpoch GuestMemory GuestRawMemory GuestMapping HostCalls.

Open Scope list_scope.
Open Scope Z_scope.

Import TimerQueue (guest_kevent_qos_s, Build_guest_kevent_qos_s, g_ident, g_filter, g_flags, g_qos, g_udata,
  g_fflags, g_xflags, g_data, g_ext, guest_zero, EV_ADD, EV_DELETE, EV_ENABLE, EV_DISABLE, EV_ONESHOT,
  EV_UDATA_SPECIFIC, EVFILT_TIMER, PTHREAD_PRIORITY_EVENT_MANAGER_FLAG, IterationOrder).

Definition EV_DISPATCH : Z := 0x80.
Definition EVFILT_MACHPORT : Z := -8.
Definition EVFILT_USER : Z := -10.
Definition NOTE_TRIGGER : Z := 0x01000000.
Definition MACH_RCV_MSG : Z := 0x2.
Definition MACH_RCV_LARGE : Z := 0x4.
Definition MACH_RCV_LARGE_IDENTITY : Z := 0x8.
Definition MACH_RCV_TIMEOUT : Z := 0x100.
Definition MACH_MSG_SUCCESS : Z := 0.
Definition MACH_RCV_TIMED_OUT : Z := 0x10004003.
Definition MACH_RCV_TOO_LARGE : Z := 0x10004004.
Definition ENOTSUP : Z := 45.
Definition KEVENT_FLAG_WORKQ : Z := 0x20.
Definition KEVENT_FLAG_ERROR_EVENTS : Z := 0x2.

Definition WQOPS_THREAD_RETURN : Z := 0x04.
Definition WQOPS_QUEUE_NEWSPISUPP : Z := 0x10.
Definition WQOPS_QUEUE_REQTHREADS : Z := 0x20.
Definition WQOPS_QUEUE_REQTHREADS2 : Z := 0x30.
Definition WQOPS_THREAD_KEVENT_RETURN : Z := 0x40.
Definition WQOPS_SET_EVENT_MANAGER_PRIORITY : Z := 0x80.

Definition WQ_FLAG_THREAD_OVERCOMMIT : Z := 0x00010000.
Definition WQ_FLAG_THREAD_REUSE : Z := 0x00020000.
Definition WQ_FLAG_THREAD_NEWSPI : Z := 0x00040000.
Definition WQ_FLAG_THREAD_KEVENT : Z := 0x00080000.
Definition WQ_FLAG_THREAD_EVENT_MANAGER : Z := 0x00100000.
Definition WQ_FLAG_THREAD_TSD_BASE_SET : Z := 0x00200000.
Definition PTHREAD_PRIORITY_QOS_CLASS_MASK : Z := 0x003fff00.
Definition PTHREAD_PRIORITY_QOS_CLASS_SHIFT : Z := 8.
Definition PTHREAD_PRIORITY_OVERCOMMIT_FLAG : Z := 0x80000000.

Definition GuestWorkqueueGuardSize : Z := DYN_PAGE_SIZE.
Definition GuestWorkqueueStackSize : Z := 0x80000.
Definition GuestWorkqueueEventCapacity : Z := 16.
Definition GuestWorkqueueMessageCapacity : Z := 32 * 1024.
Definition MaxNativeGuestWorkqueueWorkers : Z := 4.
Definition MaxNativeGuestProcessors : Z := 64.
Definition sizeof_guest_kevent_qos_s : Z := 72.

(** ** Data *)

Record GuestWorkqueueKevent := { event : guest_kevent_qos_s; enabled : bool; triggered : bool }.

Record GuestWorkqueueRequest := { remaining : Z; request_priority : Z }.

Record GuestWorkqueueDelivery := {
  delivered : guest_kevent_qos_s; message : list Z; eventManager : bool;
}.

(** [hasDelivery] is whether there is one. *)
Record GuestWorkqueueJob := { delivery : option GuestWorkqueueDelivery; priority : Z }.

Record workqueue := {
  guest_workqueue_opened : bool;
  guest_workqueue_kevent_enabled : bool;
  guest_workqueue_dispatch_offset : Z;
  guestWorkqueueEventManagerPriority : Z;
  guestWorkqueueKevents : list GuestWorkqueueKevent;
  timerQueue : TimerQueue.front;
  guestWorkqueueRequests : list GuestWorkqueueRequest;
  guestNativeWorkqueuePendingJobs : list GuestWorkqueueJob;
}.

Definition with_opened (b : bool) (w : workqueue) : workqueue :=
  {| guest_workqueue_opened := b; guest_workqueue_kevent_enabled := guest_workqueue_kevent_enabled w;
     guest_workqueue_dispatch_offset := guest_workqueue_dispatch_offset w;
     guestWorkqueueEventManagerPriority := guestWorkqueueEventManagerPriority w;
     guestWorkqueueKevents := guestWorkqueueKevents w; timerQueue := timerQueue w;
     guestWorkqueueRequests := guestWorkqueueRequests w;
     guestNativeWorkqueuePendingJobs := guestNativeWorkqueuePendingJobs w |}.

Definition with_support (offset : Z) (b : bool) (w : workqueue) : workqueue :=
  {| guest_workqueue_opened := guest_workqueue_opened w; guest_workqueue_kevent_enabled := b;
     guest_workqueue_dispatch_offset := offset;
     guestWorkqueueEventManagerPriority := guestWorkqueueEventManagerPriority w;
     guestWorkqueueKevents := guestWorkqueueKevents w; timerQueue := timerQueue w;
     guestWorkqueueRequests := guestWorkqueueRequests w;
     guestNativeWorkqueuePendingJobs := guestNativeWorkqueuePendingJobs w |}.

Definition with_manager_priority (p : Z) (w : workqueue) : workqueue :=
  {| guest_workqueue_opened := guest_workqueue_opened w;
     guest_workqueue_kevent_enabled := guest_workqueue_kevent_enabled w;
     guest_workqueue_dispatch_offset := guest_workqueue_dispatch_offset w;
     guestWorkqueueEventManagerPriority := p;
     guestWorkqueueKevents := guestWorkqueueKevents w; timerQueue := timerQueue w;
     guestWorkqueueRequests := guestWorkqueueRequests w;
     guestNativeWorkqueuePendingJobs := guestNativeWorkqueuePendingJobs w |}.

Definition with_kevents (ks : list GuestWorkqueueKevent) (f : TimerQueue.front) (w : workqueue) : workqueue :=
  {| guest_workqueue_opened := guest_workqueue_opened w;
     guest_workqueue_kevent_enabled := guest_workqueue_kevent_enabled w;
     guest_workqueue_dispatch_offset := guest_workqueue_dispatch_offset w;
     guestWorkqueueEventManagerPriority := guestWorkqueueEventManagerPriority w;
     guestWorkqueueKevents := ks; timerQueue := f;
     guestWorkqueueRequests := guestWorkqueueRequests w;
     guestNativeWorkqueuePendingJobs := guestNativeWorkqueuePendingJobs w |}.

Definition with_queued (rs : list GuestWorkqueueRequest) (js : list GuestWorkqueueJob) (w : workqueue)
    : workqueue :=
  {| guest_workqueue_opened := guest_workqueue_opened w;
     guest_workqueue_kevent_enabled := guest_workqueue_kevent_enabled w;
     guest_workqueue_dispatch_offset := guest_workqueue_dispatch_offset w;
     guestWorkqueueEventManagerPriority := guestWorkqueueEventManagerPriority w;
     guestWorkqueueKevents := guestWorkqueueKevents w; timerQueue := timerQueue w;
     guestWorkqueueRequests := rs; guestNativeWorkqueuePendingJobs := js |}.

(** [GuestWorkqueueQosClass]. *)
Definition GuestWorkqueueQosClass (priority : Z) : Z :=
  let c := Z.shiftr (Z.land priority PTHREAD_PRIORITY_QOS_CLASS_MASK) PTHREAD_PRIORITY_QOS_CLASS_SHIFT in
  if c =? 0x20 then 0x21 else if c =? 0x10 then 0x19 else if c =? 0x04 then 0x11 else
  if c =? 0x02 then 0x09 else if c =? 0x01 then 0x05 else 0x15.

(** ** Registrations *)

(** [GuestKeventMatches]. *)
Definition GuestKeventMatches (registered : GuestWorkqueueKevent) (change : guest_kevent_qos_s) : bool :=
  (g_ident (event registered) =? g_ident change) && (g_filter (event registered) =? g_filter change) &&
  (if has_flag (Z.lor (g_flags (event registered)) (g_flags change)) EV_UDATA_SPECIFIC
   then g_udata (event registered) =? g_udata change else true).

(** What [std::find_if] points to is changed, or erased where [f] gives nothing. *)
Fixpoint on_first {A} (p : A -> bool) (f : A -> option A) (l : list A) : list A :=
  match l with
  | [] => []
  | x :: l => if p x then match f x with Some y => y :: l | None => l end else x :: on_first p f l
  end.

(** One change that is not a timer's. *)
Definition change_kevent (ks : list GuestWorkqueueKevent) (change : guest_kevent_qos_s)
    : list GuestWorkqueueKevent :=
  let matching k := GuestKeventMatches k change in
  let trigger := (g_filter change =? EVFILT_USER) && has_flag (g_fflags change) NOTE_TRIGGER in
  let adds := has_flag (g_flags change) EV_ADD in
  if trigger && negb adds then
    on_first matching (fun k => Some {| event := event k; enabled := enabled k; triggered := true |}) ks
  else if has_flag (g_flags change) EV_DELETE then on_first matching (fun _ => None) ks
  else if adds then
    let on := negb (has_flag (g_flags change) EV_DISABLE) in
    if existsb matching ks
    then on_first matching (fun k => Some {| event := change; enabled := on;
                                             triggered := triggered k || trigger |}) ks
    else ks ++ [{| event := change; enabled := on; triggered := trigger |}]
  else
    on_first matching (fun k => Some {| event := change;
      enabled := if has_flag (g_flags change) EV_DISABLE then false
                 else if has_flag (g_flags change) EV_ENABLE then true else enabled k;
      triggered := triggered k |}) ks.

(** The loop of [ApplyGuestKeventChanges]: it ends at the first timer change that
    fails.  [stop] is [Stopping()], [hosts] what the host answers to the changes. *)
Fixpoint apply_changes `{IterationOrder} (stop : bool)
    (hosts : nat -> TimerQueue.create_host * TimerQueue.apply_host) (i : nat)
    (changes : list guest_kevent_qos_s) (ks : list GuestWorkqueueKevent) (f : TimerQueue.front)
    : Z * list GuestWorkqueueKevent * TimerQueue.front :=
  match changes with
  | [] => (0, ks, f)
  | change :: changes =>
      if g_filter change =? EVFILT_TIMER then
        let '(error, f) :=
          TimerQueue.ApplyGuestWorkqueueTimerChange stop (hosts i).1 (hosts i).2 change f in
        if negb (error =? 0) then (error, ks, f) else apply_changes stop hosts (S i) changes ks f
      else apply_changes stop hosts (S i) changes (change_kevent ks change) f
  end.

(** Two's complement at [n] bytes. *)
Definition signed (n : nat) (v : Z) : Z := if v <? 2 ^ (8 * Z.of_nat n - 1) then v else v - 2 ^ (8 * Z.of_nat n).

(** [guest_kevent_qos_s] in memory; [le_bytes] of a negative number is its two's
    complement. *)
Definition decode_kevent (bs : list Z) : guest_kevent_qos_s :=
  {| g_ident := le_int (sub bs 0 8); g_filter := signed 2 (le_int (sub bs 8 2)); g_flags := le_int (sub bs 10 2);
     g_qos := signed 4 (le_int (sub bs 12 4)); g_udata := le_int (sub bs 16 8);
     g_fflags := le_int (sub bs 24 4); g_xflags := le_int (sub bs 28 4);
     g_data := signed 8 (le_int (sub bs 32 8));
     g_ext := [le_int (sub bs 40 8); le_int (sub bs 48 8); le_int (sub bs 56 8); le_int (sub bs 64 8)] |}.

Definition encode_kevent (e : guest_kevent_qos_s) : list Z :=
  le_bytes 8 (g_ident e) ++ le_bytes 2 (g_filter e) ++ le_bytes 2 (g_flags e) ++
  le_bytes 4 (g_qos e) ++ le_bytes 8 (g_udata e) ++ le_bytes 4 (g_fflags e) ++
  le_bytes 4 (g_xflags e) ++ le_bytes 8 (g_data e) ++
  le_bytes 8 (nth 0 (g_ext e) 0) ++ le_bytes 8 (nth 1 (g_ext e) 0) ++
  le_bytes 8 (nth 2 (g_ext e) 0) ++ le_bytes 8 (nth 3 (g_ext e) 0).

(** The array behind [changes.data()]. *)
Fixpoint decode_kevents (n : nat) (bs : list Z) : list guest_kevent_qos_s :=
  match n with
  | O => []
  | S n => decode_kevent (sub bs 0 sizeof_guest_kevent_qos_s) :: decode_kevents n (drop 72 bs)
  end.

(** [ApplyGuestKeventChanges]: the error, 0 for none. *)
Definition ApplyGuestKeventChanges `{IterationOrder} (stop : bool)
    (hosts : nat -> TimerQueue.create_host * TimerQueue.apply_host) (s : vm) (changelist nchanges : Z)
    (w : workqueue) : Z * workqueue :=
  if (nchanges <? 0) || (4096 <? nchanges) || (negb (nchanges =? 0) && (changelist =? 0))
  then (EINVAL, w) else
  if nchanges =? 0 then (0, w) else
  match Dynarmic_mem_1read s changelist (nchanges * sizeof_guest_kevent_qos_s) true with
  | None => (EFAULT, w)
  | Some bytes =>
      let '(error, ks, f) := apply_changes stop hosts 0 (decode_kevents (Z.to_nat nchanges) bytes)
        (guestWorkqueueKevents w) (timerQueue w) in
      (error, with_kevents ks f w)
  end.

(** ** System calls

    A handler answers the value and the carry flag, and whether it calls
    [PumpGuestWorkqueue] once the locks are gone. *)

Record answer := { value : Z; carry : bool; pumps : bool }.

Definition refuse (e : Z) : answer := {| value := e; carry := true; pumps := false |}.
Definition accept (pump : bool) : answer := {| value := 0; carry := false; pumps := pump |}.

(** [guest_workq_open]. *)
Definition guest_workq_open (wqthread_start : Z) (w : workqueue) : answer * workqueue :=
  if wqthread_start =? 0 then (refuse EINVAL, w) else (accept false, with_opened true w).

(** The answer of the two calls that apply changes. *)
Definition changes_answer (error : Z) : answer :=
  {| value := error; carry := negb (error =? 0); pumps := error =? 0 |}.

(** [guest_workq_kernreturn]. *)
Definition guest_workq_kernreturn `{IterationOrder} (stop : bool)
    (hosts : nat -> TimerQueue.create_host * TimerQueue.apply_host) (s : vm)
    (options item arg2 arg3 : Z) (w : workqueue) : answer * workqueue :=
  if options =? WQOPS_QUEUE_NEWSPISUPP then (accept false, with_support arg2 (has_flag arg3 1) w) else
  if options =? WQOPS_SET_EVENT_MANAGER_PRIORITY then (accept false, with_manager_priority (u32 arg2) w) else
  if options =? WQOPS_QUEUE_REQTHREADS then
    if negb (guest_workqueue_opened w) || (arg2 <=? 0) || (4096 <? arg2) then (refuse EINVAL, w) else
    (accept true, with_queued (guestWorkqueueRequests w ++ [{| remaining := arg2; request_priority := u32 arg3 |}])
                    (guestNativeWorkqueuePendingJobs w) w) else
  if options =? WQOPS_QUEUE_REQTHREADS2 then (refuse ENOTSUP, w) else
  if options =? WQOPS_THREAD_KEVENT_RETURN then
    let '(error, w) := ApplyGuestKeventChanges stop hosts s item arg2 w in (changes_answer error, w) else
  if options =? WQOPS_THREAD_RETURN then (accept false, w) else (refuse EINVAL, w).

(** [guest_kevent_qos]. *)
Definition guest_kevent_qos `{IterationOrder} (stop : bool)
    (hosts : nat -> TimerQueue.create_host * TimerQueue.apply_host) (s : vm)
    (kq changelist nchanges eventlist nevents flags : Z) (w : workqueue) : answer * workqueue :=
  if negb (kq =? -1) || negb (guest_workqueue_opened w) || negb (guest_workqueue_kevent_enabled w) ||
     negb (has_flag flags KEVENT_FLAG_WORKQ)
  then (refuse ENOTSUP, w) else
  if negb (eventlist =? 0) && (0 <? nevents) && negb (has_flag flags KEVENT_FLAG_ERROR_EVENTS)
  then (refuse ENOTSUP, w) else
  let '(error, w) := ApplyGuestKeventChanges stop hosts s changelist nchanges w in (changes_answer error, w).

(** ** Ready events *)

(** A receive through mach_msg: options, receive limit and port. *)
Record mach_receive := { rcv_options : Z; rcv_size : Z; rcv_name : Z }.

(** Fields of [mach_msg_header_t] and of the trailer behind the message. *)
Definition msgh_size (buffer : list Z) : Z := le_int (sub buffer 4 4).
Definition msgh_local_port (buffer : list Z) : Z := le_int (sub buffer 12 4).
Definition sizeof_mach_msg_trailer_t : Z := 8.
Definition msgh_trailer_size (buffer : list Z) (offset : Z) : Z := le_int (sub buffer (offset + 4) 4).

(** How much of the buffer was received. *)
Definition rounded_size (buffer : list Z) : Z := Z.land (msgh_size buffer + 3) (UINT32_MAX - 3).

Definition received_extent (buffer : list Z) : Z :=
  let roundedMessageSize := rounded_size buffer in
  if (roundedMessageSize + sizeof_mach_msg_trailer_t <=? blen buffer) &&
     (msgh_trailer_size buffer roundedMessageSize <=? blen buffer - roundedMessageSize)
  then roundedMessageSize + msgh_trailer_size buffer roundedMessageSize
  else roundedMessageSize.

(** [std::vector::resize]. *)
Definition resize (n : Z) (buffer : list Z) : list Z :=
  take (Z.to_nat n) buffer ++ replicate (Z.to_nat n - length buffer)%nat 0.

Definition is_manager (e : guest_kevent_qos_s) : bool :=
  has_flag (u32 (g_qos e)) PTHREAD_PRIORITY_EVENT_MANAGER_FLAG.

(** The event with new filter flags, data and the first two of its [ext] words. *)
Definition set_event (fflags data ext0 ext1 : Z) (e : guest_kevent_qos_s) : guest_kevent_qos_s :=
  {| g_ident := g_ident e; g_filter := g_filter e; g_flags := g_flags e; g_qos := g_qos e;
     g_udata := g_udata e; g_fflags := fflags; g_xflags := g_xflags e; g_data := data;
     g_ext := ext0 :: ext1 :: drop 2 (g_ext e) |}.

Definition add_flags (f : Z) (e : guest_kevent_qos_s) : guest_kevent_qos_s :=
  {| g_ident := g_ident e; g_filter := g_filter e; g_flags := Z.lor (g_flags e) f; g_qos := g_qos e;
     g_udata := g_udata e; g_fflags := g_fflags e; g_xflags := g_xflags e; g_data := g_data e;
     g_ext := g_ext e |}.

Definition ext (i : nat) (e : guest_kevent_qos_s) : Z := nth i (g_ext e) 0.

Section events.
(** The host's ports, and the receive half of mach_msg: the code, the buffer and
    the ports behind it. *)
Context {P : Type} (mach_msg : mach_receive -> P -> Z * list Z * P).

(** What a ready port gives: nothing yet, a failure, or the event and its message. *)
Inductive port_answer := PortQuiet | PortFailed | PortReady (e : guest_kevent_qos_s) (m : list Z).

(** Asking the port of a registration: a probe that cannot consume the message, or
    the receive. *)
Definition ask_port (e : guest_kevent_qos_s) (p : P) : port_answer * P :=
  if negb (has_flag (g_fflags e) MACH_RCV_MSG) then
    let '(result, probe, p) := mach_msg {|
      rcv_options := Z.lor (Z.lor (Z.lor MACH_RCV_MSG MACH_RCV_TIMEOUT) MACH_RCV_LARGE) MACH_RCV_LARGE_IDENTITY;
      rcv_size := 20; rcv_name := u32 (g_ident e) |} p in
    if result =? MACH_RCV_TIMED_OUT then (PortQuiet, p) else
    if negb (result =? MACH_RCV_TOO_LARGE) then (PortFailed, p) else
    let port := if MACH_PORT_VALID (msgh_local_port probe) then msgh_local_port probe else u32 (g_ident e) in
    (PortReady (set_event (g_fflags e) port 0 0 e) [], p)
  else
    let '(result, buffer, p) := mach_msg {|
      rcv_options := Z.lor (Z.lor (Z.lor (Z.lor (g_fflags e) MACH_RCV_MSG) MACH_RCV_TIMEOUT) MACH_RCV_LARGE)
                       MACH_RCV_LARGE_IDENTITY;
      rcv_size := GuestWorkqueueMessageCapacity; rcv_name := u32 (g_ident e) |} p in
    if result =? MACH_RCV_TIMED_OUT then (PortQuiet, p) else
    if result =? MACH_RCV_TOO_LARGE then
      (PortReady (set_event MACH_RCV_TOO_LARGE (msgh_local_port buffer) 0 (msgh_size buffer) e) [], p) else
    if result =? MACH_MSG_SUCCESS then
      (PortReady (set_event MACH_MSG_SUCCESS 0 (ext 0 e) (ext 1 e) e) (resize (received_extent buffer) buffer), p)
    else (PortFailed, p).

Definition disable (k : GuestWorkqueueKevent) : GuestWorkqueueKevent :=
  {| event := event k; enabled := false; triggered := triggered k |}.

(** The loop over the registrations. *)
Fixpoint next_kevent (allowEventManager allowOrdinary : bool) (ks : list GuestWorkqueueKevent) (p : P)
    : option GuestWorkqueueDelivery * list GuestWorkqueueKevent * P :=
  match ks with
  | [] => (None, [], p)
  | registered :: ks =>
      let manager := is_manager (event registered) in
      let continue (registered : GuestWorkqueueKevent) (p : P) :=
        let '(d, ks, p) := next_kevent allowEventManager allowOrdinary ks p in (d, registered :: ks, p) in
      if negb (enabled registered) || (if manager then negb allowEventManager else negb allowOrdinary)
      then continue registered p else
      if (g_filter (event registered) =? EVFILT_USER) && triggered registered then
        (Some {| delivered := set_event NOTE_TRIGGER (g_data (event registered)) (ext 0 (event registered))
                                (ext 1 (event registered)) (event registered);
                 message := []; eventManager := manager |},
         {| event := event registered;
            enabled := negb (has_flag (g_flags (event registered)) EV_DISPATCH); triggered := false |} :: ks, p)
      else if negb (g_filter (event registered) =? EVFILT_MACHPORT) then continue registered p else
      let '(answer, p) := ask_port (event registered) p in
      match answer with
      | PortQuiet => continue registered p
      | PortFailed => continue (disable registered) p
      | PortReady e m =>
          if has_flag (g_flags (event registered)) EV_ONESHOT
          then (Some {| delivered := add_flags EV_DELETE e; message := m; eventManager := manager |}, ks, p)
          else (Some {| delivered := e; message := m; eventManager := manager |},
                (if has_flag (g_flags (event registered)) EV_DISPATCH then disable registered else registered) :: ks, p)
      end
  end.

(** [NextGuestWorkqueueEvent]: timers first. *)
Definition NextGuestWorkqueueEvent `{IterationOrder} (stop allowEventManager allowOrdinary : bool)
    (w : workqueue) (p : P) : option GuestWorkqueueDelivery * workqueue * P :=
  let '(timer, f) := TimerQueue.NextGuestWorkqueueTimerEvent stop allowEventManager allowOrdinary (timerQueue w) in
  match timer with
  | Some (e, manager) => (Some {| delivered := e; message := []; eventManager := manager |},
                          with_kevents (guestWorkqueueKevents w) f w, p)
  | None =>
      let '(d, ks, p) := next_kevent allowEventManager allowOrdinary (guestWorkqueueKevents w) p in
      (d, with_kevents ks f w, p)
  end.

(** ** Choosing a job *)

(** What the walk over the registry found. *)
Record scan := {
  ordinaryWorkers : Z; blockedOrdinaryWorkers : Z; eventManagerActive : bool;
  compensationPriority : Z; compensationThreadId : Z;
}.

Definition allowOrdinary (sc : scan) : bool := ordinaryWorkers sc <? MaxNativeGuestWorkqueueWorkers.
Definition allowEventManager (sc : scan) : bool := negb (eventManagerActive sc).

(** The predicate given to [std::find_if]. *)
Definition job_allowed (manager ordinary : bool) (j : GuestWorkqueueJob) : bool :=
  match delivery j with
  | Some d => if eventManager d then manager else ordinary
  | None => ordinary
  end.

(** The first element that satisfies [q], and the others. *)
Fixpoint take_first {A} (q : A -> bool) (l : list A) : option (A * list A) :=
  match l with
  | [] => None
  | x :: l => if q x then Some (x, l) else '(y, r) ← take_first q l; Some (y, x :: r)
  end.

(** Requests that are used up are popped. *)
Fixpoint drop_finished (rs : list GuestWorkqueueRequest) : list GuestWorkqueueRequest :=
  match rs with
  | r :: rs' => if remaining r <=? 0 then drop_finished rs' else rs
  | [] => []
  end.

Definition use_request (r : GuestWorkqueueRequest) (rs : list GuestWorkqueueRequest)
    : list GuestWorkqueueRequest :=
  if remaining r - 1 <=? 0 then rs
  else {| remaining := remaining r - 1; request_priority := request_priority r |} :: rs.

(** Where a job comes from: a queue, whose job is kept if no worker starts, or the
    need for one more worker. *)
Inductive choice := NoJob | Job (j : GuestWorkqueueJob) (retryJobOnFailure : bool).

(** The section of [PumpGuestWorkqueue] under guestWorkqueueMutex. *)
Definition select_job `{IterationOrder} (stop : bool) (sc : scan) (w : workqueue) (p : P)
    : choice * workqueue * P :=
  let manager := allowEventManager sc in
  let ordinary := allowOrdinary sc in
  if negb (guest_workqueue_opened w) then (NoJob, w, p) else
  match take_first (job_allowed manager ordinary) (guestNativeWorkqueuePendingJobs w) with
  | Some (j, js) => (Job j true, with_queued (guestWorkqueueRequests w) js w, p)
  | None =>
      let rs := drop_finished (guestWorkqueueRequests w) in
      let w1 := with_queued rs (guestNativeWorkqueuePendingJobs w) w in
      let otherwise :=
        let '(d, w2, p2) := NextGuestWorkqueueEvent stop manager ordinary w1 p in
        match d with
        | Some d =>
            (Job {| delivery := Some d;
                    priority := if eventManager d then guestWorkqueueEventManagerPriority w
                                else u32 (g_qos (delivered d)) |} true, w2, p2)
        | None =>
            if ordinary && negb (ordinaryWorkers sc =? 0) &&
               (blockedOrdinaryWorkers sc =? ordinaryWorkers sc) && negb (compensationThreadId sc =? 0)
            then (Job {| delivery := None; priority := compensationPriority sc |} false, w2, p2)
            else (NoJob, w2, p2)
        end in
      match rs with
      | r :: rs' =>
          if ordinary
          then (Job {| delivery := None; priority := request_priority r |} true,
                with_queued (use_request r rs') (guestNativeWorkqueuePendingJobs w) w, p)
          else otherwise
      | [] => otherwise
      end
  end.

(** A job that could not be started goes back to the front. *)
Definition requeue (j : GuestWorkqueueJob) (w : workqueue) : workqueue :=
  with_queued (guestWorkqueueRequests w) (j :: guestNativeWorkqueuePendingJobs w) w.
End events.

(** ** Threads *)

(** The registers of a guest thread. *)
Record context32 := { regs : list Z; extRegs : list Z; cpsr : Z; fpscr : Z; uro : Z }.

(** [NativeGuestJit], as far as the workqueue looks into it; the depth is
    thread-local to the worker. *)
Record NativeGuestJit := {
  processorId : Z;
  workqueueEventManager : bool;
  workqueueHostBlocked : bool;
  workqueueCompensationPending : bool;
  workqueuePriority : Z;
  nativeGuestWorkqueueHostBlockDepth : Z;
}.

Record GuestThreadContext := {
  debuggerId : Z;
  threadSelfId : Z;
  pthreadAddress : Z;
  threadPort : Z;
  allocationAddress : Z;
  allocationSize : Z;
  retirementFreeAddress : Z;
  retirementFreeSize : Z;
  saved : context32;
  signalMask : Z;
  alive : bool;
  is_workqueue : bool;
  nativeJit : option NativeGuestJit;
}.

(** The walk over the registry, under guestThreadMutex. *)
Definition scan_thread (sc : scan) (t : GuestThreadContext) : scan :=
  match nativeJit t with
  | None => sc
  | Some j =>
      if negb (alive t) || negb (is_workqueue t) then sc else
      if workqueueEventManager j then
        {| ordinaryWorkers := ordinaryWorkers sc; blockedOrdinaryWorkers := blockedOrdinaryWorkers sc;
           eventManagerActive := true; compensationPriority := compensationPriority sc;
           compensationThreadId := compensationThreadId sc |}
      else
        let blocked := workqueueHostBlocked j in
        let chosen := blocked && (compensationThreadId sc =? 0) && workqueueCompensationPending j in
        {| ordinaryWorkers := ordinaryWorkers sc + 1;
           blockedOrdinaryWorkers := blockedOrdinaryWorkers sc + (if blocked then 1 else 0);
           eventManagerActive := eventManagerActive sc;
           compensationPriority := if chosen then workqueuePriority j else compensationPriority sc;
           compensationThreadId := if chosen then debuggerId t else compensationThreadId sc |}
  end.

Definition no_workers : scan :=
  {| ordinaryWorkers := 0; blockedOrdinaryWorkers := 0; eventManagerActive := false;
     compensationPriority := 0; compensationThreadId := 0 |}.

Definition scan_threads (ts : list GuestThreadContext) : scan := foldl scan_thread no_workers ts.

Definition with_nativeJit (j : option NativeGuestJit) (t : GuestThreadContext) : GuestThreadContext :=
  {| debuggerId := debuggerId t; threadSelfId := threadSelfId t; pthreadAddress := pthreadAddress t;
     threadPort := threadPort t; allocationAddress := allocationAddress t;
     allocationSize := allocationSize t; retirementFreeAddress := retirementFreeAddress t;
     retirementFreeSize := retirementFreeSize t; saved := saved t; signalMask := signalMask t;
     alive := alive t; is_workqueue := is_workqueue t; nativeJit := j |}.

Definition with_block (blocked pending : bool) (depth : Z) (j : NativeGuestJit) : NativeGuestJit :=
  {| processorId := processorId j; workqueueEventManager := workqueueEventManager j;
     workqueueHostBlocked := blocked; workqueueCompensationPending := pending;
     workqueuePriority := workqueuePriority j; nativeGuestWorkqueueHostBlockDepth := depth |}.

(** [FindGuestThread(id, true)]: the first living entry. *)
Definition on_living (id : Z) (f : GuestThreadContext -> GuestThreadContext) (ts : list GuestThreadContext)
    : list GuestThreadContext :=
  on_first (fun t => (debuggerId t =? id) && alive t) (fun t => Some (f t)) ts.

(** The last section of a round: a worker was started. *)
Definition clear_compensation (id : Z) (ts : list GuestThreadContext) : list GuestThreadContext :=
  if id =? 0 then ts else
  on_living id (fun t =>
    match nativeJit t with
    | Some j => if is_workqueue t
                then with_nativeJit (Some (with_block (workqueueHostBlocked j) false
                                             (nativeGuestWorkqueueHostBlockDepth j) j)) t else t
    | None => t
    end) ts.

(** ** Starting a worker *)

(** What bsdthread_register left. *)
Record registration := {
  guest_bsdthread_wqthread_start : Z;
  guest_bsdthread_pthread_size : Z;
  guest_bsdthread_tsd_offset : Z;
}.

(** An entry of nativeGuestJits. *)
Record runtime := { runtime_processor : Z; exited : bool }.

Record native := {
  guestThreads : list GuestThreadContext;
  guestNextDebuggerThreadId : Z;
  guestNextThreadSelfId : Z;
  guestProcessorIdsInUse : Z;
  nativeGuestJits : list runtime;
  guest_vm : vm;
  threadPorts : list Z;
}.

Definition with_threads (ts : list GuestThreadContext) (n : native) : native :=
  {| guestThreads := ts; guestNextDebuggerThreadId := guestNextDebuggerThreadId n;
     guestNextThreadSelfId := guestNextThreadSelfId n; guestProcessorIdsInUse := guestProcessorIdsInUse n;
     nativeGuestJits := nativeGuestJits n; guest_vm := guest_vm n; threadPorts := threadPorts n |}.

Definition with_processors (used : Z) (js : list runtime) (n : native) : native :=
  {| guestThreads := guestThreads n; guestNextDebuggerThreadId := guestNextDebuggerThreadId n;
     guestNextThreadSelfId := guestNextThreadSelfId n; guestProcessorIdsInUse := used;
     nativeGuestJits := js; guest_vm := guest_vm n; threadPorts := threadPorts n |}.

Definition with_vm (s : vm) (n : native) : native :=
  {| guestThreads := guestThreads n; guestNextDebuggerThreadId := guestNextDebuggerThreadId n;
     guestNextThreadSelfId := guestNextThreadSelfId n; guestProcessorIdsInUse := guestProcessorIdsInUse n;
     nativeGuestJits := nativeGuestJits n; guest_vm := s; threadPorts := threadPorts n |}.

Definition with_ports (ps : list Z) (n : native) : native :=
  {| guestThreads := guestThreads n; guestNextDebuggerThreadId := guestNextDebuggerThreadId n;
     guestNextThreadSelfId := guestNextThreadSelfId n; guestProcessorIdsInUse := guestProcessorIdsInUse n;
     nativeGuestJits := nativeGuestJits n; guest_vm := guest_vm n; threadPorts := ps |}.

Definition with_ids (debugger self : Z) (n : native) : native :=
  {| guestThreads := guestThreads n; guestNextDebuggerThreadId := debugger;
     guestNextThreadSelfId := self; guestProcessorIdsInUse := guestProcessorIdsInUse n;
     nativeGuestJits := nativeGuestJits n; guest_vm := guest_vm n; threadPorts := threadPorts n |}.

(** Bits of guestProcessorIdsInUse. *)
Definition use_processor (i used : Z) : Z := Z.lor used (Z.shiftl 1 i).
Definition free_processor (i used : Z) : Z := Z.land used (u64_not (Z.shiftl 1 i)).

(** [ReapExitedNativeGuestJits]: an exited runtime gives its processor back. *)
Definition ReapExitedNativeGuestJits (n : native) : native :=
  with_processors
    (foldl (fun used r => free_processor (runtime_processor r) used) (guestProcessorIdsInUse n)
       (filter (fun r => exited r = true) (nativeGuestJits n)))
    (filter (fun r => exited r = false) (nativeGuestJits n)) n.

(** The lowest free processor from 1 on, 0 for none. *)
Definition free_id (used : Z) : Z :=
  from_option id 0 (List.find (fun c => negb (Z.testbit used c)) (seqZ 1 (MaxNativeGuestProcessors - 1))).

(** The host during a start: whether the process is running, the memory calls, the
    new port (null if there is none), and whether the JIT and the host thread can
    be created. *)
Record start_host := {
  running : bool; env : host_env; collect_ok : bool; new_port : Z; create_jit_ok : bool;
  pthread_create_result : Z;
}.

(** Sizes and addresses of a worker, with its allocation at [a]. *)
Definition pthread_bytes (r : registration) : Z :=
  Z.land (guest_bsdthread_pthread_size r + DYN_PAGE_MASK) (u64_not DYN_PAGE_MASK).
Definition worker_bytes (r : registration) : Z :=
  GuestWorkqueueGuardSize + GuestWorkqueueStackSize + pthread_bytes r.
Definition stack_bottom (a : Z) : Z := u32 (a + GuestWorkqueueGuardSize).
Definition pthread_address (a : Z) : Z := u32 (stack_bottom a + GuestWorkqueueStackSize).
Definition event_list (pthread : Z) : Z :=
  u32 (pthread - GuestWorkqueueEventCapacity * sizeof_guest_kevent_qos_s).
Definition message_buffer (pthread : Z) : Z := u32 (event_list pthread - GuestWorkqueueMessageCapacity).
Definition stack_pointer (pthread : Z) : Z := Z.land (u32 (message_buffer pthread - 16)) (UINT32_MAX - 0xf).

(** The message, if there is one, and the event that points to it. *)
Definition store_message (pthread : Z) (d : GuestWorkqueueDelivery) (s : vm) : Z * guest_kevent_qos_s * vm :=
  match message d with
  | [] => (0, delivered d, s)
  | m => let '(r, s) := Dynarmic_mem_1write s (message_buffer pthread) (blen m) (Some m) in
         (r, set_event (g_fflags (delivered d)) (g_data (delivered d)) (message_buffer pthread) (blen m)
               (delivered d), s)
  end.

(** The delivery as the worker finds it: false if it cannot be stored. *)
Definition store_delivery (pthread : Z) (d : GuestWorkqueueDelivery) (s : vm) : bool * vm :=
  if GuestWorkqueueMessageCapacity <? blen (message d) then (false, s) else
  let '(stored, e, s) := store_message pthread d s in
  if negb (stored =? 0) then (false, s) else
  let '(stored, s) := Dynarmic_mem_1write s (event_list pthread) sizeof_guest_kevent_qos_s
                        (Some (encode_kevent e)) in
  (stored =? 0, s).

(** The flags of an upcall. *)
Definition upcall_flags (reuse : bool) (d : option GuestWorkqueueDelivery) (priority : Z) : Z :=
  let flags := Z.lor WQ_FLAG_THREAD_NEWSPI WQ_FLAG_THREAD_TSD_BASE_SET in
  let flags := if reuse then Z.lor flags WQ_FLAG_THREAD_REUSE else flags in
  let flags := match d with
               | Some d => Z.lor (Z.lor flags WQ_FLAG_THREAD_KEVENT)
                             (if eventManager d then WQ_FLAG_THREAD_EVENT_MANAGER else 0)
               | None => flags
               end in
  let flags := if has_flag priority PTHREAD_PRIORITY_OVERCOMMIT_FLAG
               then Z.lor flags WQ_FLAG_THREAD_OVERCOMMIT else flags in
  Z.lor flags (GuestWorkqueueQosClass priority).

Definition zero_context : context32 :=
  {| regs := replicate 16 0; extRegs := replicate 64 0; cpsr := 0; fpscr := 0; uro := 0 |}.

(** The registers with which a worker enters start_wqthread. *)
Definition worker_context (r : registration) (pthread port bottom events flags count sp : Z) : context32 :=
  {| regs := [pthread; port; bottom; events; flags; count; 0; 0; 0; 0; 0; 0; 0; sp; 0;
              Z.land (guest_bsdthread_wqthread_start r) (UINT32_MAX - 1)];
     extRegs := replicate 64 0;
     cpsr := if Z.odd (guest_bsdthread_wqthread_start r) then 0x30 else 0x1d0;
     fpscr := 0; uro := u32 (pthread + guest_bsdthread_tsd_offset r) |}.

Definition can_start (r : registration) : bool :=
  negb (guest_bsdthread_wqthread_start r =? 0) && (0 <? guest_bsdthread_pthread_size r) &&
  (guest_bsdthread_tsd_offset r <? guest_bsdthread_pthread_size r).

(** [StartNativeGuestWorkqueueWorker]; [None] is a failed assertion of the mapping
    operations. *)
Definition StartNativeGuestWorkqueueWorker (h : start_host) (r : registration) (job : GuestWorkqueueJob)
    (n : native) : option (bool * native) :=
  if negb (can_start r) || negb (running h) then Some (false, n) else
  let n := ReapExitedNativeGuestJits n in
  let id := guestNextDebuggerThreadId n in
  let n := with_ids (id + 1) (guestNextThreadSelfId n) n in
  let mask := match List.find (fun t => (debuggerId t =? 1) && alive t) (guestThreads n) with
              | Some t => signalMask t | None => 0 end in
  let processor := free_id (guestProcessorIdsInUse n) in
  if processor =? 0 then Some (false, n) else
  let n := with_processors (use_processor processor (guestProcessorIdsInUse n)) (nativeGuestJits n) n in
  let releaseProcessor n := with_processors (free_processor processor (guestProcessorIdsInUse n)) (nativeGuestJits n) n in
  if (pthread_bytes r =? 0) || (UINT32_MAX - GuestWorkqueueGuardSize - GuestWorkqueueStackSize <? pthread_bytes r)
  then Some (false, releaseProcessor n) else
  '(mapped, s) ← Dynarmic_mmap (env h) 0 (worker_bytes r) (Z.lor PROT_READ PROT_WRITE)
                  (Z.lor MAP_PRIVATE MAP_ANONYMOUS) (-1) 0 DYN_PAGE_MASK false (guest_vm n);
  match mapped with
  | Errno _ => Some (false, releaseProcessor (with_vm s n))
  | Ret a =>
      let releaseAllocation (n : native) :=
        '(_, s) ← Dynarmic_munmap a (worker_bytes r) (guest_vm n); Some (with_vm s n) in
      '(guarded, s) ← Dynarmic_mprotect (env h) (collect_ok h) a GuestWorkqueueGuardSize 0 s;
      let n := with_vm s n in
      match guarded with
      | Errno _ => n ← releaseAllocation n; Some (false, releaseProcessor n)
      | Ret _ =>
          let pthread := pthread_address a in
          let port := new_port h in
          if negb (MACH_PORT_VALID port) then n ← releaseAllocation n; Some (false, releaseProcessor n) else
          let n := with_ports (port :: threadPorts n) n in
          let releasePort n := with_ports (filter (fun p => p <> port) (threadPorts n)) n in
          let abandon n := n ← releaseAllocation (releasePort n); Some (false, releaseProcessor n) in
          let '(stored, s) :=
            match delivery job with
            | Some d => store_delivery pthread d (guest_vm n)
            | None => (true, guest_vm n)
            end in
          let n := with_vm s n in
          if negb stored then abandon n else
          let events := if delivery job is Some _ then event_list pthread else 0 in
          let initial := worker_context r pthread port (stack_bottom a) events
            (upcall_flags false (delivery job) (priority job)) (if delivery job is Some _ then 1 else 0)
            (stack_pointer pthread) in
          if negb (create_jit_ok h) then abandon n else
          let jit := {| processorId := processor;
                        workqueueEventManager := match delivery job with Some d => eventManager d | None => false end;
                        workqueueHostBlocked := false; workqueueCompensationPending := false;
                        workqueuePriority := priority job; nativeGuestWorkqueueHostBlockDepth := 0 |} in
          let n := with_processors (guestProcessorIdsInUse n)
                     (nativeGuestJits n ++ [{| runtime_processor := processor; exited := false |}]) n in
          let self := guestNextThreadSelfId n in
          let n := with_ids (guestNextDebuggerThreadId n) (self + 1) n in
          let thread := {| debuggerId := id; threadSelfId := self; pthreadAddress := pthread; threadPort := port;
            allocationAddress := a; allocationSize := worker_bytes r; retirementFreeAddress := a;
            retirementFreeSize := worker_bytes r; saved := initial; signalMask := mask; alive := true;
            is_workqueue := true; nativeJit := Some jit |} in
          let n := with_threads (guestThreads n ++ [thread]) n in
          if negb (pthread_create_result h =? 0) then
            let n := with_threads (filter (fun t => debuggerId t <> id) (guestThreads n)) n in
            let n := with_processors (free_processor processor (guestProcessorIdsInUse n))
                       (filter (fun r => runtime_processor r <> processor) (nativeGuestJits n)) n in
            n ← releaseAllocation (releasePort n); Some (false, n)
          else Some (true, n)
      end
  end.

(** ** A worker's own operations *)

(** [FindGuestThread(id, false)]. *)
Definition on_thread (id : Z) (f : GuestThreadContext -> GuestThreadContext) (ts : list GuestThreadContext)
    : list GuestThreadContext :=
  on_first (fun t => debuggerId t =? id) (fun t => Some (f t)) ts.

(** The end of [RunNativeGuestThread], under guestThreadMutex; the worker pumps
    afterwards unless the process is stopping. *)
Definition retire_thread (t : GuestThreadContext) : GuestThreadContext :=
  {| debuggerId := debuggerId t; threadSelfId := threadSelfId t; pthreadAddress := pthreadAddress t;
     threadPort := 0; allocationAddress := allocationAddress t;
     allocationSize := allocationSize t; retirementFreeAddress := 0;
     retirementFreeSize := 0; saved := saved t; signalMask := signalMask t;
     alive := false; is_workqueue := is_workqueue t; nativeJit := None |}.

Definition on_jit (f : NativeGuestJit -> NativeGuestJit) (t : GuestThreadContext) : GuestThreadContext :=
  if is_workqueue t then with_nativeJit (f <$> nativeJit t) t else t.

(** [NativeGuestWorkqueueHostBlockEnter]; the outermost one pumps. *)
Definition NativeGuestWorkqueueHostBlockEnter (j : NativeGuestJit) : NativeGuestJit * bool :=
  let depth := nativeGuestWorkqueueHostBlockDepth j in
  if negb (depth =? 0)
  then (with_block (workqueueHostBlocked j) (workqueueCompensationPending j) (depth + 1) j, false)
  else (with_block true true (depth + 1) j, true).

(** [NativeGuestWorkqueueHostBlockExit]. *)
Definition NativeGuestWorkqueueHostBlockExit (j : NativeGuestJit) : NativeGuestJit :=
  let depth := nativeGuestWorkqueueHostBlockDepth j in
  if depth =? 0 then j else
  if depth - 1 =? 0 then with_block false false 0 j
  else with_block (workqueueHostBlocked j) (workqueueCompensationPending j) (depth - 1) j.

(** ** The pump *)

Section pump.
Context {P : Type} (mach_msg : mach_receive -> P -> Z * list Z * P) `{IterationOrder}
        (r : registration) (stop : bool).

Record pool := { work : workqueue; threads : native; ports : P }.

(** How a pump went: it ended, or a round was cut off by the bound. *)
Inductive pumped := PumpDone (startedWorker : bool) | PumpCut.

(** The native half of [PumpGuestWorkqueue], run without interruption: [starts]
    is what the host does in each round. *)
Fixpoint PumpGuestWorkqueue (fuel : nat) (starts : nat -> start_host) (i : nat) (startedWorker : bool)
    (s : pool) : option (pumped * pool) :=
  match fuel with
  | O => Some (PumpCut, s)
  | S fuel =>
      let sc := scan_threads (guestThreads (threads s)) in
      if negb (allowOrdinary sc) && negb (allowEventManager sc) then Some (PumpDone startedWorker, s) else
      let '(c, w, p) := select_job mach_msg stop sc (work s) (ports s) in
      match c with
      | NoJob => Some (PumpDone startedWorker, {| work := w; threads := threads s; ports := p |})
      | Job job retryJobOnFailure =>
          '(ok, n) ← StartNativeGuestWorkqueueWorker (starts i) r job (threads s);
          if negb ok then
            Some (PumpDone startedWorker,
                  {| work := if retryJobOnFailure then requeue job w else w; threads := n; ports := p |})
          else
            PumpGuestWorkqueue fuel starts (S i) true
              {| work := w; ports := p;
                 threads := with_threads (clear_compensation (compensationThreadId sc) (guestThreads n)) n |}
      end
  end.
End pump.
