(* ===== verification/WorkqueueProps.v ===== *)
(** What the workqueue promises, in every interleaving of its pump with system
    calls, timers, worker threads and the host: the pool stays bounded, no
    accepted work is lost or done twice, and no work that could run is left
    behind. *)

From stdpp Require Import base gmap list.
From Stdlib Require Import ZArith Lia.
From S2P Require Import Prelude TimerQueue Bytes VmEpoch GuestMemory GuestRawMemory GuestMapping HostCalls.
From S2P Require Import Workqueue.

Open Scope list_scope.
Open Scope Z_scope.

Import TimerQueue (guest_kevent_qos_s, g_qos, g_filter, IterationOrder).

(** ** Roles *)

(** Whether a thread is a living worker of the queue, and if so whether it is the
    event manager. *)
Definition role (t : GuestThreadContext) : option bool :=
  match nativeJit t with
  | Some j => if alive t && is_workqueue t then Some (workqueueEventManager j) else None
  | None => None
  end.

Definition workers (manager : bool) (ts : list GuestThreadContext) : Z :=
  Z.of_nat (length (filter (fun t => role t = Some manager) ts)).

Lemma workers_app b ts us : workers b (ts ++ us) = workers b ts + workers b us.
Proof. unfold workers. rewrite filter_app, length_app. lia. Qed.

Lemma workers_cons b t ts : workers b (t :: ts) = (if decide (role t = Some b) then 1 else 0) + workers b ts.
Proof. unfold workers. rewrite filter_cons. case_decide; cbn [length]; lia. Qed.

Lemma workers_nonneg b ts : 0 <= workers b ts.
Proof. unfold workers. lia. Qed.

(** The walk counts the roles. *)
Lemma scan_counts_from ts sc :
  let sc' := foldl scan_thread sc ts in
  ordinaryWorkers sc' = ordinaryWorkers sc + workers false ts /\
  eventManagerActive sc' = eventManagerActive sc || (0 <? workers true ts).
Proof.
  revert sc. induction ts as [|t ts IH]; intros sc; cbn [foldl].
  { unfold workers. cbn. rewrite orb_false_r. split; [lia|done]. }
  destruct (IH (scan_thread sc t)) as [-> ->]. rewrite !workers_cons. pose proof (workers_nonneg true ts).
  assert ((0 <? 1 + workers true ts) = true) as E by (apply Z.ltb_lt; lia).
  unfold scan_thread, role. destruct (nativeJit t) as [j|]; [|by rewrite !decide_False by done].
  destruct (alive t), (is_workqueue t), (workqueueEventManager j); cbn [negb orb andb];
    repeat case_decide; simplify_eq; cbn; rewrite ?E, ?orb_true_r; split; done || lia.
Qed.

Lemma scan_counts ts :
  ordinaryWorkers (scan_threads ts) = workers false ts /\
  eventManagerActive (scan_threads ts) = (0 <? workers true ts).
Proof. by destruct (scan_counts_from ts no_workers) as [H1 H2]. Qed.

(** A change of one entry that keeps its role keeps the counts. *)
Lemma workers_on_first p f ts b :
  (forall t, exists t', f t = Some t' /\ role t' = role t) -> workers b (on_first p f ts) = workers b ts.
Proof.
  intros Hf. induction ts as [|t ts IH]; [done|]. cbn [on_first]. destruct (p t).
  - destruct (Hf t) as (t' & -> & Hr). by rewrite !workers_cons, Hr.
  - by rewrite !workers_cons, IH.
Qed.

(** A change that may end a worker only lowers them. *)
Lemma workers_on_first_le p f ts b :
  (forall t, exists t', f t = Some t' /\ (role t' = role t \/ role t' = None)) ->
  workers b (on_first p f ts) <= workers b ts.
Proof.
  intros Hf. induction ts as [|t ts IH]; [done|]. cbn [on_first]. destruct (p t).
  - destruct (Hf t) as (t' & -> & Hr). rewrite !workers_cons. destruct Hr as [->| ->]; repeat case_decide; done || lia.
  - rewrite !workers_cons. lia.
Qed.

Lemma role_on_jit f t : (forall j, workqueueEventManager (f j) = workqueueEventManager j) -> role (on_jit f t) = role t.
Proof.
  intros Hf. unfold on_jit. destruct (is_workqueue t) eqn:E; [|done]. unfold role. cbn.
  destruct (nativeJit t); cbn; [|done]. by rewrite Hf.
Qed.

Lemma workers_clear id ts b : workers b (clear_compensation id ts) = workers b ts.
Proof.
  unfold clear_compensation. destruct (id =? 0); [done|]. apply workers_on_first. intros t. eexists. split; [done|].
  unfold role. destruct (nativeJit t) as [j|] eqn:Ej; [|by rewrite Ej].
  destruct (is_workqueue t) eqn:Ew; cbn; by rewrite ?Ej, Ew.
Qed.

(** ** The system *)

(** Where the pump is between two of its sections. *)
Inductive phase :=
  | Idle
  | Scanning
  | Scanned (sc : scan)
  | Chosen (sc : scan) (j : GuestWorkqueueJob) (retry : bool)
  | Failed (j : GuestWorkqueueJob)
  | Started (compensated : Z).

(** The state with the pump's place, the number of threads that are about to call
    the pump, whether work may have been left behind by a start that failed or a
    list of changes that was given up, whether the process is stopping, and the
    history: the priorities of the threads asked for, the events taken, and the
    jobs from the queues for which a worker was started. *)
Record sys (P : Type) := {
  state : pool (P := P);
  at_phase : phase;
  announced : nat;
  stalled : bool;
  stopping : bool;
  requested : list Z;
  taken : list GuestWorkqueueDelivery;
  begun : list GuestWorkqueueJob;
}.
Arguments state {P}. Arguments at_phase {P}. Arguments announced {P}. Arguments stalled {P}.
Arguments stopping {P}. Arguments requested {P}. Arguments taken {P}. Arguments begun {P}.
Arguments Build_sys {P}.

(** The calls of the guest. *)
Inductive call :=
  | Open (wqthread_start : Z)
  | Kernreturn (hosts : nat -> TimerQueue.create_host * TimerQueue.apply_host) (options item arg2 arg3 : Z)
  | KeventQos (hosts : nat -> TimerQueue.create_host * TimerQueue.apply_host)
      (kq changelist nchanges eventlist nevents flags : Z).

Section system.
Context {P : Type} (mach_msg : mach_receive -> P -> Z * list Z * P) `{IterationOrder} (r : registration).

Definition with_work (w : workqueue) (p : pool (P := P)) : pool := {| work := w; threads := threads p; ports := ports p |}.
Definition with_native (n : native) (p : pool (P := P)) : pool := {| work := work p; threads := n; ports := ports p |}.

Definition run_call (stop : bool) (s : vm) (c : call) (w : workqueue) : answer * workqueue :=
  match c with
  | Open start => guest_workq_open start w
  | Kernreturn hosts options item arg2 arg3 => guest_workq_kernreturn stop hosts s options item arg2 arg3 w
  | KeventQos hosts kq changelist nchanges eventlist nevents flags =>
      guest_kevent_qos stop hosts s kq changelist nchanges eventlist nevents flags w
  end.

(** The priorities of the threads a call asks for. *)
Definition asks (c : call) (a : answer) : list Z :=
  match c with
  | Kernreturn _ options _ arg2 arg3 =>
      if (options =? WQOPS_QUEUE_REQTHREADS) && negb (carry a)
      then replicate (Z.to_nat arg2) (u32 arg3) else []
  | _ => []
  end.

(** Whether a list of changes was refused, perhaps after its beginning was applied. *)
Definition gives_up (c : call) (a : answer) : bool :=
  match c with
  | Open _ => false
  | Kernreturn _ options _ _ _ => (options =? WQOPS_THREAD_KEVENT_RETURN) && carry a
  | KeventQos _ _ _ _ _ _ _ => carry a
  end.

(** The event that a selection takes from its source. *)
Definition fresh_delivery (stop : bool) (sc : scan) (w : workqueue) (p : P) : list GuestWorkqueueDelivery :=
  if negb (guest_workqueue_opened w) then [] else
  match take_first (job_allowed (allowEventManager sc) (allowOrdinary sc)) (guestNativeWorkqueuePendingJobs w),
        drop_finished (guestWorkqueueRequests w), allowOrdinary sc with
  | Some _, _, _ => []
  | None, _ :: _, true => []
  | None, rs, _ =>
      option_list (NextGuestWorkqueueEvent mach_msg stop (allowEventManager sc) (allowOrdinary sc)
        (with_queued rs (guestNativeWorkqueuePendingJobs w) w) p).1.1
  end.

Definition count_if (b : bool) : nat := if b then 1 else 0.

(** The same history with a new state and place of the pump. *)
Definition move (p : pool) (ph : phase) (an : nat) (st : bool) (s : sys P) : sys P :=
  {| state := p; at_phase := ph; announced := an; stalled := st; stopping := stopping s;
     requested := requested s; taken := taken s; begun := begun s |}.

(** A step of another thread. *)
Definition other (p : pool) (an : nat) (s : sys P) : sys P := move p (at_phase s) an (stalled s) s.

Inductive step : sys P -> sys P -> Prop :=
  | st_call s c a w :
      run_call (stopping s) (guest_vm (threads (state s))) c (work (state s)) = (a, w) ->
      step s {| state := with_work w (state s); at_phase := at_phase s;
                announced := count_if (pumps a) + announced s; stalled := stalled s || gives_up c a;
                stopping := stopping s; requested := requested s ++ asks c a; taken := taken s; begun := begun s |}
  | st_timer s q answer next q' :
      timerQueue (work (state s)) = Some q -> TimerQueue.Run answer q = (next, q') ->
      step s (other (with_work (with_kevents (guestWorkqueueKevents (work (state s))) (Some q') (work (state s))) (state s))
                (match next with
                 | TimerQueue.Continue notify => count_if (notify && negb (stopping s))
                 | TimerQueue.Exit => 0
                 end + announced s) s)
  | st_arrival s p :
      step s (other {| work := work (state s); threads := threads (state s); ports := p |} (announced s) s)
  | st_announce s : step s (other (state s) (S (announced s)) s)
  | st_block s id :
      step s (other (with_native (with_threads (on_thread id (on_jit (fun j => (NativeGuestWorkqueueHostBlockEnter j).1))
                                   (guestThreads (threads (state s)))) (threads (state s))) (state s)) (announced s) s)
  | st_unblock s id :
      step s (other (with_native (with_threads (on_thread id (on_jit NativeGuestWorkqueueHostBlockExit)
                                   (guestThreads (threads (state s)))) (threads (state s))) (state s)) (announced s) s)
  | st_retire s id :
      step s (other (with_native (with_threads (on_thread id retire_thread (guestThreads (threads (state s))))
                                   (threads (state s))) (state s))
                (count_if (negb (stopping s)) + announced s) s)
  | st_retire_other s id :
      (forall t, t ∈ guestThreads (threads (state s)) -> debuggerId t = id -> is_workqueue t = false) ->
      step s (other (with_native (with_threads (on_thread id retire_thread (guestThreads (threads (state s))))
                                   (threads (state s))) (state s)) (announced s) s)
  | st_thread s t self :
      is_workqueue t = false -> debuggerId t = guestNextDebuggerThreadId (threads (state s)) ->
      step s (other (with_native (with_ids (debuggerId t + 1) self
                       (with_threads (guestThreads (threads (state s)) ++ [t]) (threads (state s)))) (state s))
                (announced s) s)
  | st_forget s id :
      (forall t, t ∈ guestThreads (threads (state s)) -> debuggerId t = id -> is_workqueue t = false) ->
      step s (other (with_native (with_threads (filter (fun t => debuggerId t <> id) (guestThreads (threads (state s))))
                                   (threads (state s))) (state s)) (announced s) s)
  | st_runtimes s used js :
      step s (other (with_native (with_processors used js (threads (state s))) (state s)) (announced s) s)
  | st_memory s m : step s (other (with_native (with_vm m (threads (state s))) (state s)) (announced s) s)
  | st_stop s :
      step s {| state := with_work (with_kevents (guestWorkqueueKevents (work (state s)))
                           (TimerQueue.RequestGuestWorkqueueTimersStop (timerQueue (work (state s)))) (work (state s)))
                           (state s);
                at_phase := at_phase s; announced := announced s; stalled := stalled s; stopping := true;
                requested := requested s; taken := taken s; begun := begun s |}
  | st_lock s k :
      at_phase s = Idle -> announced s = S k -> step s (move (state s) Scanning k false s)
  | st_scan s :
      at_phase s = Scanning ->
      let sc := scan_threads (guestThreads (threads (state s))) in
      step s (move (state s) (if negb (allowOrdinary sc) && negb (allowEventManager sc) then Idle else Scanned sc)
                (announced s) (stalled s) s)
  | st_select s sc c w p :
      at_phase s = Scanned sc ->
      select_job mach_msg (stopping s) sc (work (state s)) (ports (state s)) = (c, w, p) ->
      step s {| state := {| work := w; threads := threads (state s); ports := p |};
                at_phase := match c with NoJob => Idle | Job j retry => Chosen sc j retry end;
                announced := announced s; stalled := stalled s; stopping := stopping s; requested := requested s;
                taken := taken s ++ fresh_delivery (stopping s) sc (work (state s)) (ports (state s));
                begun := begun s |}
  | st_start s sc j retry h ok n :
      at_phase s = Chosen sc j retry -> (running h = true -> stopping s = false) ->
      StartNativeGuestWorkqueueWorker h r j (threads (state s)) = Some (ok, n) ->
      step s {| state := with_native n (state s);
                at_phase := if ok : bool then Started (compensationThreadId sc)
                            else if retry : bool then Failed j else Idle;
                announced := announced s; stalled := stalled s || negb ok; stopping := stopping s;
                requested := requested s; taken := taken s;
                begun := if ok && retry then begun s ++ [j] else begun s |}
  | st_requeue s j :
      at_phase s = Failed j ->
      step s (move (with_work (requeue j (work (state s))) (state s)) Idle (announced s) (stalled s) s)
  | st_clear s id :
      at_phase s = Started id ->
      step s (move (with_native (with_threads (clear_compensation id (guestThreads (threads (state s))))
                                   (threads (state s))) (state s)) Scanning (announced s) (stalled s) s).

(** After workq_open, before the first request. *)
Record initial (s : sys P) : Prop := {
  init_opened : guest_workqueue_opened (work (state s)) = true;
  init_kevents : guestWorkqueueKevents (work (state s)) = [];
  init_timers : timerQueue (work (state s)) = None;
  init_requests : guestWorkqueueRequests (work (state s)) = [];
  init_pending : guestNativeWorkqueuePendingJobs (work (state s)) = [];
  init_threads : forall t, t ∈ guestThreads (threads (state s)) ->
    is_workqueue t = false /\ debuggerId t < guestNextDebuggerThreadId (threads (state s));
  init_phase : at_phase s = Idle;
  init_announced : announced s = 0%nat;
  init_history : requested s = [] /\ taken s = [] /\ begun s = [];
}.

Inductive reachable : sys P -> Prop :=
  | reach_initial s : initial s -> reachable s
  | reach_step s s' : reachable s -> step s s' -> reachable s'.
End system.

(** ** Starting a worker and the registry *)

Definition ids_ok (n : native) : Prop :=
  Forall (fun t => debuggerId t < guestNextDebuggerThreadId n) (guestThreads n).

Definition job_manager (j : GuestWorkqueueJob) : bool :=
  match delivery j with Some d => eventManager d | None => false end.

Lemma filter_all {A} (Q : A -> Prop) `{!forall x, Decision (Q x)} l : Forall Q l -> filter Q l = l.
Proof. induction 1; [done|]. rewrite filter_cons_True by done. by f_equal. Qed.

(** A successful start adds one worker of the job's kind, a failed one none. *)
Lemma start_registry h r j n ok n' :
  StartNativeGuestWorkqueueWorker h r j n = Some (ok, n') -> ids_ok n ->
  ids_ok n' /\ if ok : bool
               then exists t, guestThreads n' = guestThreads n ++ [t] /\ role t = Some (job_manager j)
               else guestThreads n' = guestThreads n.
Proof.
  unfold StartNativeGuestWorkqueueWorker, ids_ok. intros E Hids.
  assert (Hinc : Forall (fun t => debuggerId t < guestNextDebuggerThreadId n + 1) (guestThreads n))
    by (eapply Forall_impl; [exact Hids|]; cbn; lia).
  assert (Hfil : filter (fun t => debuggerId t <> guestNextDebuggerThreadId n) (guestThreads n) = guestThreads n).
  { apply filter_all. eapply Forall_impl; [exact Hids|]. cbn. lia. }
  repeat match type of E with
  | (if ?b then _ else _) = _ => destruct b eqn:?
  | (let '(_, _) := ?x in _) = _ => destruct x eqn:?
  | match ?x with Ret _ => _ | Errno _ => _ end = _ => destruct x eqn:?
  | (_ ≫= _) = Some _ => let p := fresh "p" in apply bind_Some in E as (p & ? & E)
  end.
  all: repeat match goal with
    | H : match ?d with Some _ => _ | None => _ end = (_, _) |- _ => destruct d eqn:?
    | H : (let '(_, _) := ?x in _) = (_, _) |- _ => destruct x
    | H : (_ ≫= _) = Some _ |- _ => apply bind_Some in H as ([] & _ & H)
    end; simplify_eq; cbn in *; rewrite ?filter_app, ?Hfil, ?filter_cons_False, ?filter_nil, ?app_nil_r by naive_solver.
  all: unfold job_manager; repeat match goal with H : delivery _ = _ |- _ => rewrite H end.
  all: split; [rewrite ?Forall_app; repeat split; try done; repeat constructor; cbn; lia|by eauto].
Qed.

(** ** Choosing a job *)

Lemma take_first_Some {A} (q : A -> bool) l x rest :
  take_first q l = Some (x, rest) -> q x = true /\ l ≡ₚ x :: rest.
Proof.
  revert rest. induction l as [|y l IH]; intros rest; [done|]. cbn. destruct (q y) eqn:E.
  - by intros [= -> ->].
  - intros ([z rest'] & Hz & [= -> <-])%bind_Some. destruct (IH _ Hz) as [? ->]. split; [done|constructor].
Qed.

Lemma take_first_None {A} (q : A -> bool) l : take_first q l = None -> forall x, x ∈ l -> q x = false.
Proof.
  induction l as [|y l IH]; intros E x; [by intros ?%elem_of_nil|]. cbn in E. destruct (q y) eqn:Ey; [done|].
  destruct (take_first q l) as [[]|] eqn:El; [done|]. intros [->|Hx]%elem_of_cons; [done|by apply IH].
Qed.

Section choice.
Context `{IterationOrder}.

Lemma timer_allowed stop m o f e b f' :
  TimerQueue.NextGuestWorkqueueTimerEvent stop m o f = (Some (e, b), f') -> (if b then m else o) = true.
Proof.
  unfold TimerQueue.NextGuestWorkqueueTimerEvent. destruct (negb m && negb o) eqn:Emo; [done|].
  destruct f as [q|]; [|done]. destruct stop; [done|]. unfold TimerQueue.Take.
  destruct (TimerQueue.stopping q); [done|]. destruct (List.find _ _) as [[k t]|] eqn:Ef; [|done].
  cbn. intros [= <- <- <-]. apply List.find_some in Ef as [_ He]. cbn in He.
  unfold TimerQueue.eligible in He. rewrite !andb_true_iff, negb_true_iff in He. cbn.
  destruct He as [[_ He] Hr]. apply Z.eqb_eq in Hr.
  destruct (has_flag (u32 (g_qos (TimerQueue.guest t))) TimerQueue.PTHREAD_PRIORITY_EVENT_MANAGER_FLAG) eqn:Ehf;
    destruct m, o; try done; cbn [negb] in *; try congruence.
  unfold has_flag in Ehf. by rewrite Hr in Ehf.
Qed.

Section ports.
Context {P : Type} (mach_msg : mach_receive -> P -> Z * list Z * P).

Lemma kevent_allowed m o ks p d ks' p' :
  next_kevent mach_msg m o ks p = (Some d, ks', p') -> (if eventManager d then m else o) = true.
Proof.
  revert p ks' p'. induction ks as [|k ks IH]; intros p ks' p'; [done|]. cbn [next_kevent].
  destruct (negb (enabled k) || _) eqn:Ea.
  { destruct (next_kevent _ _ _ _ _) as [[] ?] eqn:E. intros [= -> _ _]. by eapply IH. }
  assert ((if is_manager (event k) then m else o) = true) as Hk.
  { apply orb_false_iff in Ea as [_ Ea]. destruct (is_manager _); by apply negb_false_iff. }
  destruct (_ && triggered k); [by intros [= <- _ _]|].
  destruct (negb (g_filter _ =? _)).
  { destruct (next_kevent _ _ _ _ _) as [[] ?] eqn:E. intros [= -> _ _]. by eapply IH. }
  destruct (ask_port _ _ _) as [[| |e msg] p1].
  1-2: destruct (next_kevent _ _ _ _ _) as [[] ?] eqn:E; intros [= -> _ _]; by eapply IH.
  destruct (has_flag _ _); by intros [= <- _ _].
Qed.

Lemma event_allowed stop m o w p d w' p' :
  NextGuestWorkqueueEvent mach_msg stop m o w p = (Some d, w', p') -> (if eventManager d then m else o) = true.
Proof.
  unfold NextGuestWorkqueueEvent. destruct (TimerQueue.NextGuestWorkqueueTimerEvent _ _ _ _) as [[[e b]|] f] eqn:Et.
  - intros [= <- _ _]. by eapply timer_allowed.
  - destruct (next_kevent _ _ _ _ _) as [[] ?] eqn:E. intros [= -> _ _]. by eapply kevent_allowed.
Qed.

Lemma select_allowed stop sc w p j retry w' p' :
  select_job mach_msg stop sc w p = (Job j retry, w', p') ->
  job_allowed (allowEventManager sc) (allowOrdinary sc) j = true.
Proof.
  unfold select_job. destruct (negb _); [done|].
  destruct (take_first _ _) as [[j' js]|] eqn:Et.
  { intros [= -> _ _ _]. by apply take_first_Some in Et as [? _]. }
  set (w1 := with_queued _ _ _).
  destruct (NextGuestWorkqueueEvent mach_msg stop _ _ w1 p) as [[d w2] p2] eqn:En.
  assert (forall c, match d with
     | Some d => (Job {| delivery := Some d; priority := if eventManager d then guestWorkqueueEventManagerPriority w
                                                          else u32 (g_qos (delivered d)) |} true, w2, p2)
     | None => if allowOrdinary sc && negb (ordinaryWorkers sc =? 0) &&
               (blockedOrdinaryWorkers sc =? ordinaryWorkers sc) && negb (compensationThreadId sc =? 0)
            then (Job {| delivery := None; priority := compensationPriority sc |} false, w2, p2)
            else (NoJob, w2, p2) end = (c, w', p') -> c = Job j retry ->
     job_allowed (allowEventManager sc) (allowOrdinary sc) j = true) as Hother.
  { intros c Hc ->. destruct d as [d|]; [injection Hc as <- _ _ _; by apply event_allowed in En|].
    destruct (allowOrdinary sc) eqn:Eo; cbn in Hc; [|done]. case_match; [|done]. by injection Hc as <- _ _ _. }
  destruct (drop_finished _) as [|rq rs]; [intros E; by eapply Hother|].
  destruct (allowOrdinary sc) eqn:Eo; [by intros [= <- _ _ _]|intros E; by eapply Hother].
Qed.
End ports.
End choice.

(** ** The pool stays bounded *)

Lemma Forall_on_first {A} (Q : A -> Prop) p f l :
  (forall x y, f x = Some y -> Q x -> Q y) -> Forall Q l -> Forall Q (on_first p f l).
Proof.
  intros Hf. induction 1 as [|x l Hx Hl IH]; [constructor|]. cbn. destruct (p x); [|by constructor].
  destruct (f x) eqn:E; [|done]. constructor; [by eapply Hf|done].
Qed.

Lemma role_retire t : role (retire_thread t) = None.
Proof. done. Qed.

Lemma role_other t : is_workqueue t = false -> role t = None.
Proof. unfold role. intros ->. destruct (nativeJit t); by rewrite ?andb_false_r. Qed.

Lemma workers_on_jit id f ts b :
  (forall j, workqueueEventManager (f j) = workqueueEventManager j) ->
  workers b (on_thread id (on_jit f) ts) = workers b ts.
Proof. intros Hf. apply workers_on_first. intros t. eexists. split; [done|by apply role_on_jit]. Qed.

Lemma block_enter_role j : workqueueEventManager (NativeGuestWorkqueueHostBlockEnter j).1 = workqueueEventManager j.
Proof. unfold NativeGuestWorkqueueHostBlockEnter. by case_match. Qed.

Lemma block_exit_role j : workqueueEventManager (NativeGuestWorkqueueHostBlockExit j) = workqueueEventManager j.
Proof. unfold NativeGuestWorkqueueHostBlockExit. by repeat case_match. Qed.

Lemma workers_retire id ts b : workers b (on_thread id retire_thread ts) <= workers b ts.
Proof. apply workers_on_first_le. intros t. eexists. split; [done|by right]. Qed.

Lemma workers_filter (Q : GuestThreadContext -> Prop) `{!forall t, Decision (Q t)} ts b :
  workers b (filter Q ts) <= workers b ts.
Proof.
  induction ts as [|t ts IH]; [done|]. rewrite filter_cons. case_decide; rewrite !workers_cons; [lia|].
  case_decide; lia.
Qed.

Section bounded.
Context {P : Type} (mach_msg : mach_receive -> P -> Z * list Z * P) `{IterationOrder} (r : registration).

#[local] Abbreviation registry s := (guestThreads (threads (state s))).

(** What the pump last saw is still an upper bound. *)
Definition seen (ts : list GuestThreadContext) (ph : phase) : Prop :=
  match ph with
  | Scanned sc =>
      workers false ts <= ordinaryWorkers sc /\ (eventManagerActive sc = false -> workers true ts = 0)
  | Chosen sc j _ =>
      workers false ts <= ordinaryWorkers sc /\ (eventManagerActive sc = false -> workers true ts = 0) /\
      job_allowed (allowEventManager sc) (allowOrdinary sc) j = true
  | _ => True
  end.

Record pool_ok (n : native) (ph : phase) : Prop := {
  pool_ids : ids_ok n;
  pool_ordinary : workers false (guestThreads n) <= MaxNativeGuestWorkqueueWorkers;
  pool_manager : workers true (guestThreads n) <= 1;
  pool_seen : seen (guestThreads n) ph;
}.

Lemma pool_ok_le n n' ph :
  pool_ok n ph -> ids_ok n' ->
  (forall b, workers b (guestThreads n') <= workers b (guestThreads n)) -> pool_ok n' ph.
Proof.
  intros [Hi Ho Hm Hs] Hi' Hle. pose proof (Hle true). pose proof (Hle false).
  pose proof (workers_nonneg true (guestThreads n')).
  constructor; [done|lia|lia|]. destruct ph; cbn in *; intuition lia.
Qed.

(** The entries may change as long as their identifiers do not. *)
Lemma ids_on_first n p f :
  (forall t, debuggerId (f t) = debuggerId t) -> ids_ok n ->
  ids_ok (with_threads (on_first p (fun t => Some (f t)) (guestThreads n)) n).
Proof. intros Hf Hi. apply Forall_on_first; [|done]. intros x y [= <-]. by rewrite Hf. Qed.

Lemma pool_ok_start sc j retry h n ok n' ph :
  pool_ok n (Chosen sc j retry) ->
  StartNativeGuestWorkqueueWorker h r j n = Some (ok, n') -> (forall ts, seen ts ph) ->
  pool_ok n' ph.
Proof.
  intros [Hi Ho Hm (Hs & Hsm & Hj)] Hn Hph. destruct (start_registry _ _ _ _ _ _ Hn Hi) as [Hi' Ht].
  destruct ok; [|constructor; rewrite ?Ht; done].
  destruct Ht as (t & Ht & Hr). constructor; [done| | |done]; rewrite Ht, workers_app, workers_cons, Hr;
    unfold job_allowed, job_manager, allowEventManager, allowOrdinary in *; cbn [workers filter].
  - destruct (delivery j) as [d|]; [destruct (eventManager d)|]; case_decide; try done; unfold workers at 2; cbn;
      rewrite ?Z.ltb_lt in Hj; lia.
  - destruct (delivery j) as [d|]; [destruct (eventManager d)|]; case_decide; try done; unfold workers at 2; cbn;
      rewrite ?negb_true_iff in Hj; rewrite ?Hsm by done; lia.
Qed.

Lemma ids_clear id n : ids_ok n -> ids_ok (with_threads (clear_compensation id (guestThreads n)) n).
Proof.
  intros Hi. unfold clear_compensation. destruct (id =? 0); [done|].
  apply ids_on_first; [|done]. intros t. by repeat case_match.
Qed.

(** Selecting leaves the registry alone and keeps the bound. *)
Lemma pool_ok_phase n ph ph' : pool_ok n ph -> seen (guestThreads n) ph' -> pool_ok n ph'.
Proof. intros [] ?. by constructor. Qed.

Lemma initial_workers (s : sys P) b : initial s -> workers b (registry s) = 0.
Proof.
  intros Hs. pose proof (init_threads _ Hs) as Ht. induction (registry s) as [|t ts IH]; [done|].
  rewrite workers_cons, role_other by (apply (Ht t); by left). rewrite IH by (intros; apply Ht; by right). done.
Qed.

Lemma reachable_pool s : reachable mach_msg r s -> pool_ok (threads (state s)) (at_phase s).
Proof.
  induction 1 as [s Hs|s s' _ IH Hstep].
  { constructor; rewrite ?initial_workers, ?(init_phase _ Hs) by done; try done.
    apply Forall_forall. intros t Ht. by apply (init_threads _ Hs). }
  pose proof (pool_ids _ _ IH) as Hids.
  destruct Hstep; cbn; try exact IH.
  - eapply pool_ok_le; [exact IH|by apply ids_on_first; [by intros; unfold on_jit; case_match|]|].
    intros b. cbn. by rewrite workers_on_jit by apply block_enter_role.
  - eapply pool_ok_le; [exact IH|by apply ids_on_first; [by intros; unfold on_jit; case_match|]|].
    intros b. cbn. by rewrite workers_on_jit by apply block_exit_role.
  - eapply pool_ok_le; [exact IH|by apply ids_on_first|intros b; apply workers_retire].
  - eapply pool_ok_le; [exact IH|by apply ids_on_first|intros b; apply workers_retire].
  - eapply pool_ok_le; [exact IH| |].
    + unfold ids_ok. cbn. rewrite Forall_app, Forall_singleton. split; [|lia].
      eapply Forall_impl; [exact Hids|]. cbn. lia.
    + intros b. cbn. rewrite workers_app, workers_cons, role_other, decide_False by done. unfold workers at 2. cbn. lia.
  - eapply pool_ok_le; [exact IH| |intros b; apply workers_filter]. apply Forall_forall. cbn.
    intros t [_ Ht]%list_elem_of_filter. revert t Ht. by apply Forall_forall.
  - eapply pool_ok_le; [exact IH|exact Hids|done].
  - eapply pool_ok_le; [exact IH|exact Hids|done].
  - by eapply pool_ok_phase.
  - eapply pool_ok_phase; [exact IH|]. case_match; [done|]. subst sc. unfold seen.
    destruct (scan_counts (registry s)) as [-> ->]. split; [done|]. intros E%Z.ltb_ge. pose proof (workers_nonneg true (registry s)). lia.
  - rewrite H0 in IH. eapply pool_ok_phase; [exact IH|]. destruct c as [|j retry]; [done|].
    destruct (pool_seen _ _ IH) as [? ?]. split_and!; [done..|]. by eapply select_allowed.
  - rewrite H0 in IH. eapply pool_ok_start; [exact IH|done|]. intros ts. by repeat case_match.
  - rewrite H0 in IH. by eapply pool_ok_phase.
  - rewrite H0 in IH. eapply pool_ok_le; [by eapply pool_ok_phase|by apply ids_clear|].
    intros b. cbn. by rewrite workers_clear.
Qed.

(** C30: in every interleaving of the pump with system calls, timers, worker threads,
    the host and stopping, at most four ordinary workers are alive and at most one
    event manager, and workers never share a debugger identifier with the next
    thread. *)
Theorem workqueue_bounded s :
  reachable mach_msg r s ->
  workers false (registry s) <= MaxNativeGuestWorkqueueWorkers /\ workers true (registry s) <= 1 /\
  ids_ok (threads (state s)).
Proof. intros Hs. by destruct (reachable_pool s Hs). Qed.
End bounded.

(** ** No work is lost or done twice *)

(** Among jobs: the plain threads, by priority, and the events. *)
Definition roots (js : list GuestWorkqueueJob) : list Z :=
  omap (fun j => match delivery j with None => Some (priority j) | Some _ => None end) js.
Definition events (js : list GuestWorkqueueJob) : list GuestWorkqueueDelivery := omap delivery js.

(** The threads that requests still ask for. *)
Definition owed (rs : list GuestWorkqueueRequest) : list Z :=
  flat_map (fun r => replicate (Z.to_nat (remaining r)) (request_priority r)) rs.

(** A queued job between the selection and the start. *)
Definition phase_jobs (ph : phase) : list GuestWorkqueueJob :=
  match ph with Chosen _ j true => [j] | Failed j => [j] | _ => [] end.

Definition choice_jobs (c : choice) : list GuestWorkqueueJob :=
  match c with Job j true => [j] | _ => [] end.

Lemma roots_app a b : roots (a ++ b) = roots a ++ roots b.
Proof. apply omap_app. Qed.

Lemma events_app a b : events (a ++ b) = events a ++ events b.
Proof. apply omap_app. Qed.

#[global] Instance roots_proper : Proper (Permutation ==> Permutation) roots.
Proof. intros a b E. unfold roots. by rewrite E. Qed.

#[global] Instance events_proper : Proper (Permutation ==> Permutation) events.
Proof. intros a b E. unfold events. by rewrite E. Qed.

Lemma owed_app a b : owed (a ++ b) = owed a ++ owed b.
Proof. apply flat_map_app. Qed.

Lemma owed_finished rs : owed (drop_finished rs) = owed rs.
Proof.
  induction rs as [|q rs IH]; [done|]. cbn [drop_finished]. destruct (Z.leb_spec (remaining q) 0); [|done].
  rewrite IH. unfold owed. cbn [flat_map]. by replace (Z.to_nat (remaining q)) with 0%nat by lia.
Qed.

Lemma finished_head rs q rs' : drop_finished rs = q :: rs' -> 0 < remaining q.
Proof.
  induction rs as [|x rs IH]; [done|]. cbn. destruct (Z.leb_spec (remaining x) 0); [done|].
  by intros [= -> _].
Qed.

Lemma owed_use q rs : 0 < remaining q -> owed (q :: rs) = request_priority q :: owed (use_request q rs).
Proof.
  intros Hq. unfold use_request, owed. cbn [flat_map].
  replace (Z.to_nat (remaining q)) with (S (Z.to_nat (remaining q - 1))) by lia. cbn.
  destruct (Z.leb_spec (remaining q - 1) 0) as [Hl|]; [|done].
  by replace (Z.to_nat (remaining q - 1)) with 0%nat by lia.
Qed.

Section conserved.
Context {P : Type} (mach_msg : mach_receive -> P -> Z * list Z * P) `{IterationOrder} (r : registration).

#[local] Abbreviation requests w := (guestWorkqueueRequests w).
#[local] Abbreviation pending w := (guestNativeWorkqueuePendingJobs w).

Lemma event_queues stop m o w p d w' p' :
  NextGuestWorkqueueEvent mach_msg stop m o w p = (d, w', p') -> requests w' = requests w /\ pending w' = pending w.
Proof.
  unfold NextGuestWorkqueueEvent. destruct (TimerQueue.NextGuestWorkqueueTimerEvent _ _ _ _) as [[[]|] ?].
  - by intros [= _ <- _].
  - destruct (next_kevent _ _ _ _ _) as [[] ?]. by intros [= _ <- _].
Qed.

Lemma select_conserves stop sc w p c w' p' :
  select_job mach_msg stop sc w p = (c, w', p') ->
  owed (requests w) ++ roots (pending w) ≡ₚ owed (requests w') ++ roots (choice_jobs c ++ pending w') /\
  events (pending w) ++ fresh_delivery mach_msg stop sc w p ≡ₚ events (choice_jobs c ++ pending w').
Proof.
  unfold select_job, fresh_delivery. destruct (negb _); [intros [= <- <- _]; by rewrite app_nil_r|].
  destruct (take_first _ _) as [[j js]|] eqn:Et.
  { intros [= <- <- _]. apply take_first_Some in Et as [_ Hp]. cbn. by rewrite Hp, app_nil_r. }
  assert (forall rs, owed rs = owed (requests w) ->
     (let '(d, w2, p2) := NextGuestWorkqueueEvent mach_msg stop (allowEventManager sc) (allowOrdinary sc)
                            (with_queued rs (pending w) w) p in
      match d with
      | Some d => (Job {| delivery := Some d; priority := if eventManager d then guestWorkqueueEventManagerPriority w
                                                          else u32 (g_qos (delivered d)) |} true, w2, p2)
      | None => if allowOrdinary sc && negb (ordinaryWorkers sc =? 0) &&
               (blockedOrdinaryWorkers sc =? ordinaryWorkers sc) && negb (compensationThreadId sc =? 0)
            then (Job {| delivery := None; priority := compensationPriority sc |} false, w2, p2)
            else (NoJob, w2, p2)
      end) = (c, w', p') ->
     owed (requests w) ++ roots (pending w) ≡ₚ owed (requests w') ++ roots (choice_jobs c ++ pending w') /\
     events (pending w) ++ option_list (NextGuestWorkqueueEvent mach_msg stop (allowEventManager sc) (allowOrdinary sc)
                            (with_queued rs (pending w) w) p).1.1 ≡ₚ events (choice_jobs c ++ pending w')) as Hother.
  { intros rs Hrs. destruct (NextGuestWorkqueueEvent _ _ _ _ _ _) as [[d w2] p2] eqn:En. cbn.
    destruct (event_queues _ _ _ _ _ _ _ _ En) as [Hr Hp]. cbn in Hr, Hp.
    destruct d as [d|]; [intros [= <- <- _]|case_match; intros [= <- <- _]];
      rewrite Hr, Hp, Hrs; cbn; rewrite ?app_nil_r; split; try done.
    by rewrite Permutation_app_comm. }
  pose proof (owed_finished (requests w)) as Ho.
  destruct (drop_finished (requests w)) as [|q rs] eqn:Ed; [by apply Hother|].
  destruct (allowOrdinary sc); [|by apply Hother]. intros [= <- <- _]. cbn. rewrite app_nil_r. split; [|done].
  rewrite <- Ho, owed_use by (by eapply finished_head). by rewrite <- Permutation_middle.
Qed.

Lemma changes_same stop hosts s changelist n w e w' :
  ApplyGuestKeventChanges stop hosts s changelist n w = (e, w') ->
  pending w' = pending w /\ requests w' = requests w /\
  (guest_workqueue_opened w = true -> guest_workqueue_opened w' = true).
Proof.
  unfold ApplyGuestKeventChanges. repeat case_match; by intros [= _ <-].
Qed.

Lemma call_queues stop s c w a w' :
  run_call stop s c w = (a, w') ->
  pending w' = pending w /\ requests w' = requests w ++ match asks c a with
    | [] => [] | _ => match c with Kernreturn _ _ _ n prio => [{| remaining := n; request_priority := u32 prio |}] | _ => [] end
    end /\ (guest_workqueue_opened w = true -> guest_workqueue_opened w' = true).
Proof.
  destruct c; cbn [run_call].
  - unfold guest_workq_open. case_match; intros [= <- <-]; by rewrite app_nil_r.
  - unfold guest_workq_kernreturn. cbn [asks]. destruct (options =? WQOPS_QUEUE_REQTHREADS) eqn:Eq.
    + apply Z.eqb_eq in Eq as ->. cbn -[Z.mul]. destruct (_ || (4096 <? arg2)) eqn:Eb; intros [= <- <-]; cbn.
      { by rewrite app_nil_r. }
      rewrite !orb_false_iff in Eb. destruct Eb as [[_ Eb%Z.leb_gt] _].
      by destruct (Z.to_nat arg2) eqn:En; [lia|].
    + cbn [andb]. rewrite app_nil_r. repeat case_match; intros [= <- <-]; first [done|by eapply changes_same].
  - unfold guest_kevent_qos. rewrite app_nil_r. repeat case_match; intros [= <- <-]; first [done|by eapply changes_same].
Qed.

Lemma call_owed stop s c w a w' :
  run_call stop s c w = (a, w') -> owed (requests w') = owed (requests w) ++ asks c a.
Proof.
  intros Hc. destruct (call_queues _ _ _ _ _ _ Hc) as (_ & -> & _). rewrite owed_app. f_equal.
  destruct c as [|? options ? n prio|]; [done| |done]. cbn [asks].
  destruct (_ && _); [|done].
  destruct (replicate _ _) as [|x l] eqn:El; [done|]. cbn. rewrite app_nil_r. exact El.
Qed.

(** What was asked for is what is owed, queued, between selection and start, or
    begun; so are the events taken. *)
Definition conserved (s : sys P) : Prop :=
  let w := work (state s) in
  let jobs := phase_jobs (at_phase s) ++ pending w ++ begun s in
  requested s ≡ₚ owed (requests w) ++ roots jobs /\ taken s ≡ₚ events jobs.

Lemma conserved_same s s' :
  conserved s -> requested s' = requested s -> taken s' = taken s -> begun s' = begun s ->
  phase_jobs (at_phase s') = phase_jobs (at_phase s) ->
  requests (work (state s')) = requests (work (state s)) -> pending (work (state s')) = pending (work (state s)) ->
  conserved s'.
Proof. unfold conserved. intros [] -> -> -> -> -> ->. done. Qed.

(** C31: in every interleaving, every worker thread the guest asked for and every event
    taken from a timer, a port or a trigger is accounted for exactly once: it is
    still queued, in the hands of the pump, or a worker was started for it.  Failed
    starts lose nothing and nothing is run twice. *)
Theorem workqueue_conserves s :
  reachable mach_msg r s -> conserved s.
Proof.
  induction 1 as [s Hs|s s' Hreach IH Hstep].
  { unfold conserved. rewrite (init_phase _ Hs), (init_requests _ Hs), (init_pending _ Hs).
    by destruct (init_history _ Hs) as (-> & -> & ->). }
  destruct Hstep as [s c a w Hc| | | | | | | | | | | | |s k Hp|s Hp sc|s sc c w p Hp Hsel|s sc j retry h ok n Hp|s j Hp|s id Hp];
    try by apply (conserved_same s).
  - destruct IH as [IH1 IH2]. unfold conserved. cbn. destruct (call_queues _ _ _ _ _ _ Hc) as (-> & _ & _).
    rewrite (call_owed _ _ _ _ _ _ Hc), IH1. split; [|done].
    by rewrite <- !app_assoc, (Permutation_app_comm (asks c a)).
  - apply (conserved_same s); rewrite ?Hp; done.
  - apply (conserved_same s); rewrite ?Hp; try done. cbn. by case_match.
  - destruct IH as [IH1 IH2]. rewrite Hp in IH1, IH2.
    destruct (select_conserves _ _ _ _ _ _ _ Hsel) as [Hr He]. unfold conserved. cbn in *.
    replace (phase_jobs _) with (choice_jobs c) by (by destruct c as [|? []]).
    rewrite IH1, IH2, !app_assoc, !(roots_app _ (begun s)), !(events_app _ (begun s)), <- He, app_assoc, Hr.
    split; [by rewrite app_assoc|]. by rewrite <- !app_assoc, (Permutation_app_comm (fresh_delivery _ _ _ _ _)).
  - destruct IH as [IH1 IH2]. rewrite Hp in IH1, IH2. unfold conserved. cbn in *.
    destruct ok, retry; cbn in *; try done. rewrite IH1, IH2, app_assoc, (Permutation_app_comm _ [j]). done.
  - destruct IH as [IH1 IH2]. rewrite Hp in IH1, IH2. done.
  - apply (conserved_same s); rewrite ?Hp; done.
Qed.
End conserved.

(** ** No work is left behind *)

(** Work that could run now: [manager] and [ordinary] are the free slots. *)
Inductive waiting `{IterationOrder} (manager ordinary : bool) (w : workqueue) : Prop :=
  | waiting_job j :
      j ∈ guestNativeWorkqueuePendingJobs w -> job_allowed manager ordinary j = true -> waiting manager ordinary w
  | waiting_request q :
      ordinary = true -> q ∈ guestWorkqueueRequests w -> 0 < remaining q -> waiting manager ordinary w
  | waiting_trigger k :
      k ∈ guestWorkqueueKevents w -> enabled k = true -> triggered k = true -> g_filter (event k) = EVFILT_USER ->
      (if is_manager (event k) then manager else ordinary) = true -> waiting manager ordinary w
  | waiting_timer q i t :
      timerQueue w = Some q -> TimerQueue.stopping q = false -> TimerQueue.timers q !! i = Some t ->
      TimerQueue.deliverable t = true ->
      (if is_manager (TimerQueue.guest t) then manager else ordinary) = true -> waiting manager ordinary w.

(** It depends on the queues alone. *)
Lemma waiting_same `{IterationOrder} m o w w' :
  guestNativeWorkqueuePendingJobs w' = guestNativeWorkqueuePendingJobs w ->
  guestWorkqueueRequests w' = guestWorkqueueRequests w -> guestWorkqueueKevents w' = guestWorkqueueKevents w ->
  (forall q', timerQueue w' = Some q' -> TimerQueue.stopping q' = false ->
     (exists i t, TimerQueue.timers q' !! i = Some t /\ TimerQueue.deliverable t = true) ->
     exists q, timerQueue w = Some q /\ TimerQueue.stopping q = false /\ TimerQueue.timers q' = TimerQueue.timers q) ->
  waiting m o w' -> waiting m o w.
Proof.
  intros Hj Hr Hk Ht [j H1 H2|q H1 H2 H3|k H1 H2 H3 H4 H5|q i t H1 H2 H3 H4 H5].
  - rewrite Hj in H1. by eapply waiting_job.
  - rewrite Hr in H2. by eapply waiting_request.
  - rewrite Hk in H1. by eapply waiting_trigger.
  - destruct (Ht q H1 H2) as (q0 & Hq0 & Hs & E); [by eauto|]. rewrite E in H3. by eapply waiting_timer.
Qed.

Lemma waiting_none `{IterationOrder} w : ~ waiting false false w.
Proof.
  intros [j _ E|q E|k _ _ _ _ E|q i t _ _ _ _ E]; try done.
  - unfold job_allowed in E. destruct (delivery j); by repeat case_match.
  - by case_match.
  - by case_match.
Qed.

Lemma finished_nil rs : drop_finished rs = [] -> forall q, q ∈ rs -> remaining q <= 0.
Proof.
  induction rs as [|x rs IH]; [by intros _ q ?%elem_of_nil|]. cbn. destruct (Z.leb_spec (remaining x) 0); [|done].
  intros E q [->|Hq]%elem_of_cons; [done|by apply IH].
Qed.

Lemma land_bit x n : 0 <= n -> Z.land x (2 ^ n) = if Z.testbit x n then 2 ^ n else 0.
Proof.
  intros Hn. apply Z.bits_inj'. intros i Hi. rewrite Z.land_spec, Z.pow2_bits_eqb by done.
  destruct (Z.eqb_spec n i) as [->|Hni].
  - destruct (Z.testbit x i); [by rewrite Z.pow2_bits_true|by rewrite Z.bits_0].
  - rewrite andb_false_r. destruct (Z.testbit x n); [by rewrite Z.pow2_bits_false|by rewrite Z.bits_0].
Qed.

(** A timer that is deliverable and of an allowed kind is eligible. *)
Lemma timer_eligible t m o :
  TimerQueue.deliverable t = true -> (if is_manager (TimerQueue.guest t) then m else o) = true ->
  TimerQueue.eligible (if m then 0 else TimerQueue.PTHREAD_PRIORITY_EVENT_MANAGER_FLAG)
    (if o then 0 else TimerQueue.PTHREAD_PRIORITY_EVENT_MANAGER_FLAG) t = true.
Proof.
  unfold TimerQueue.deliverable, TimerQueue.eligible, is_manager, has_flag. intros Hd Hc. rewrite Hd.
  change TimerQueue.PTHREAD_PRIORITY_EVENT_MANAGER_FLAG with (2 ^ 25) in *. rewrite land_bit in Hc by done.
  destruct m, o; rewrite ?land_bit, ?Z.land_0_r by done; destruct (Z.testbit _ 25); done.
Qed.

Section left_behind.
Context {P : Type} (mach_msg : mach_receive -> P -> Z * list Z * P) `{IterationOrder} (r : registration).

Lemma next_kevent_none m o ks p ks' p' :
  next_kevent mach_msg m o ks p = (None, ks', p') ->
  forall k, k ∈ ks' -> enabled k = true -> triggered k = true -> g_filter (event k) = EVFILT_USER ->
    (if is_manager (event k) then m else o) = true -> False.
Proof.
  revert p ks' p'. induction ks as [|k ks IH]; intros p ks' p'; cbn [next_kevent].
  { by intros [= <- _] k ?%elem_of_nil. }
  assert (forall k0 p0, (enabled k0 = true -> triggered k0 = true -> g_filter (event k0) = EVFILT_USER ->
      (if is_manager (event k0) then m else o) = true -> False) ->
    (let '(d, l, p1) := next_kevent mach_msg m o ks p0 in (d, k0 :: l, p1)) = (None, ks', p') ->
    forall x, x ∈ ks' -> enabled x = true -> triggered x = true -> g_filter (event x) = EVFILT_USER ->
    (if is_manager (event x) then m else o) = true -> False) as Hcons.
  { intros k0 p0 Hk0. destruct (next_kevent _ _ _ _ _) as [[d l] p1] eqn:E. intros [= -> <- _].
    intros x [->|Hx]%elem_of_cons; [exact Hk0|by eapply IH]. }
  destruct (negb (enabled k) || _) eqn:Ea.
  { apply Hcons. intros He _ _ Hm. rewrite He in Ea. destruct (is_manager _); by rewrite Hm in Ea. }
  destruct (_ && triggered k) eqn:Et; [done|].
  destruct (negb (g_filter _ =? _)).
  { apply Hcons. intros _ Htr Hf _. by rewrite Hf, Htr in Et. }
  destruct (ask_port _ _ _) as [[| |e msg] p1].
  - apply Hcons. intros _ Htr Hf _. by rewrite Hf, Htr in Et.
  - by apply Hcons.
  - by destruct (has_flag (TimerQueue.g_flags _) TimerQueue.EV_ONESHOT).
Qed.

Lemma timer_none m o f f' :
  TimerQueue.NextGuestWorkqueueTimerEvent false m o f = (None, f') ->
  f' = f /\ forall q i t, f = Some q -> TimerQueue.stopping q = false -> TimerQueue.timers q !! i = Some t ->
    TimerQueue.deliverable t = true -> (if is_manager (TimerQueue.guest t) then m else o) = true -> False.
Proof.
  unfold TimerQueue.NextGuestWorkqueueTimerEvent. destruct (negb m && negb o) eqn:Emo.
  { intros [= <-]. split; [done|]. intros q i t _ _ _ _. destruct m, o; try done. by case_match. }
  destruct f as [q|]; [|by intros [= <-]]. unfold TimerQueue.Take.
  destruct (TimerQueue.stopping q) eqn:Es; [intros [= <-]; split; [done|by intros ? ? ? [= <-] ?; congruence]|].
  destruct (List.find _ _) as [[k t]|] eqn:Ef; [done|]. intros [= <-]. split; [done|].
  intros ? i t [= <-] _ Hi Hd Hc. pose proof (timer_eligible _ _ _ Hd Hc) as He.
  eapply List.find_none in Ef; [|apply list_elem_of_In, TimerQueue.iter_elem; exact Hi]. cbn in Ef. congruence.
Qed.

(** When the selection finds nothing, nothing that could run is left. *)
Lemma select_none sc w p w' p' :
  guest_workqueue_opened w = true -> select_job mach_msg false sc w p = (NoJob, w', p') ->
  guest_workqueue_opened w' = true /\ ~ waiting (allowEventManager sc) (allowOrdinary sc) w'.
Proof.
  intros Hopen. unfold select_job. rewrite Hopen. cbn [negb].
  destruct (take_first _ _) as [[j js]|] eqn:Et; [done|].
  set (rs := drop_finished (guestWorkqueueRequests w)). intros E.
  assert ((allowOrdinary sc = true -> rs = []) /\
    exists q2, NextGuestWorkqueueEvent mach_msg false (allowEventManager sc) (allowOrdinary sc)
      (with_queued rs (guestNativeWorkqueuePendingJobs w) w) p = (None, w', q2)) as [Hrs (q2 & En)].
  { destruct (NextGuestWorkqueueEvent _ _ _ _ _ _) as [[d w2] p2].
    destruct rs as [|q rs']; [|destruct (allowOrdinary sc); [done|]]; (destruct d; [done|]); cbn in E.
    - split; [done|]. case_match; [done|]. injection E as -> ->. by eauto.
    - split; [done|]. injection E as -> ->. by eauto. }
  unfold NextGuestWorkqueueEvent in En.
  destruct (TimerQueue.NextGuestWorkqueueTimerEvent _ _ _ _) as [[[]|] f] eqn:Etm; [done|].
  destruct (next_kevent _ _ _ _ _) as [[d ks] p3] eqn:Ek. injection En as -> <- _. split; [done|].
  apply timer_none in Etm as [-> Htm].
  intros [j Hj Ha|q Ho Hq Hr|k H1 H2 H3 H4 H5|q i t H1 H2 H3 H4 H5]; cbn in *.
  - by rewrite (take_first_None _ _ Et j Hj) in Ha.
  - rewrite (Hrs Ho) in Hq. by apply elem_of_nil in Hq.
  - by eapply next_kevent_none.
  - by eapply Htm.
Qed.

(** A call that neither pumps nor gives up changes no queue. *)
Lemma quiet_call s c w a w' m o :
  run_call false s c w = (a, w') -> pumps a = false -> gives_up c a = false -> waiting m o w' -> waiting m o w.
Proof.
  intros E Hp Hg. assert (guestNativeWorkqueuePendingJobs w' = guestNativeWorkqueuePendingJobs w /\
    guestWorkqueueRequests w' = guestWorkqueueRequests w /\ guestWorkqueueKevents w' = guestWorkqueueKevents w /\
    timerQueue w' = timerQueue w) as (H1 & H2 & H3 & H4).
  { destruct c; cbn [run_call gives_up] in *; unfold guest_workq_open, guest_workq_kernreturn, guest_kevent_qos in E;
      repeat case_match; simplify_eq; try done; unfold changes_answer in *; cbn in *; try congruence.
    all: rewrite Hp in Hg; done. }
  apply waiting_same; [done..|]. rewrite H4. intros q' Hq' Hs _. by exists q'.
Qed.

Lemma run_quiet q answer next q' :
  TimerQueue.Run answer q = (next, q') ->
  match next with
  | TimerQueue.Continue true => True
  | TimerQueue.Continue false =>
      TimerQueue.timers q' = TimerQueue.timers q \/
      forall i t, TimerQueue.timers q' !! i = Some t -> TimerQueue.deliverable t = false
  | TimerQueue.Exit => TimerQueue.timers q' = TimerQueue.timers q
  end /\ TimerQueue.stopping q' = TimerQueue.stopping q.
Proof.
  unfold TimerQueue.Run. destruct answer as [e|es]; cbv iota.
  { destruct (e =? EINTR); [intros [= <- <-]; by auto|].
    destruct (TimerQueue.stopping q) eqn:Es; intros [= <- <-]; by rewrite ?Es. }
  destruct (TimerQueue.stopping q) eqn:Es; [intros [= <- <-]; by rewrite ?Es|].
  destruct (foldl _ _ _) as [tm notify] eqn:Ef. intros [= <- <-]. split; [|done].
  destruct notify; [done|]. destruct (existsb _ _) eqn:Ex; [done|]. right. intros i t Hi.
  destruct (TimerQueue.deliverable t) eqn:Ed; [|done]. rewrite <- Ex. symmetry. apply existsb_exists.
  exists (i, t). split; [by apply list_elem_of_In, TimerQueue.iter_elem|done].
Qed.

(** The free slots of a registry. *)
Definition slots (ts : list GuestThreadContext) : bool * bool :=
  (allowEventManager (scan_threads ts), allowOrdinary (scan_threads ts)).

#[global] Arguments slots : simpl never.

Lemma slots_workers ts ts' : (forall b, workers b ts' = workers b ts) -> slots ts' = slots ts.
Proof.
  intros E. unfold slots, allowEventManager, allowOrdinary.
  destruct (scan_counts ts) as [-> ->], (scan_counts ts') as [-> ->]. by rewrite !E.
Qed.

(** While nobody is about to pump, what the pump saw is exact, and an idle pump
    has left nothing behind. *)
Definition settled_at (ph : phase) (stall : bool) (m o : bool) (w : workqueue) : Prop :=
  match ph with
  | Idle => stall = false -> ~ waiting m o w
  | Scanned sc => allowEventManager sc = m /\ allowOrdinary sc = o
  | _ => True
  end.

Record live (s : sys P) : Prop := {
  live_opened : guest_workqueue_opened (work (state s)) = true;
  live_failed : match at_phase s with Failed _ => stalled s = true | _ => True end;
  live_settled : stopping s = false -> announced s = 0%nat ->
    settled_at (at_phase s) (stalled s) (slots (guestThreads (threads (state s)))).1
      (slots (guestThreads (threads (state s)))).2 (work (state s));
}.

Lemma settled_work ph stall m o w w' :
  (waiting m o w' -> waiting m o w) -> settled_at ph stall m o w -> settled_at ph stall m o w'.
Proof. intros Hw. destruct ph; cbn; auto. Qed.

(** Other threads that keep the slots and the queues. *)
Lemma live_other s p an :
  live s -> work p = work (state s) ->
  slots (guestThreads (threads p)) = slots (guestThreads (threads (state s))) -> (announced s <= an)%nat ->
  live (other p an s).
Proof.
  intros [Ho Hf Hs] Hw Hsl Han. constructor; cbn; rewrite ?Hw; [done|done|].
  intros Hst Hz. rewrite Hsl. apply Hs; [done|lia].
Qed.

Lemma workers_retire_other id ts b :
  (forall t, t ∈ ts -> debuggerId t = id -> is_workqueue t = false) ->
  workers b (on_thread id retire_thread ts) = workers b ts.
Proof.
  intros Ht. unfold on_thread. induction ts as [|t ts IH]; [done|]. cbn [on_first].
  destruct (Z.eqb_spec (debuggerId t) id) as [E|].
  - rewrite !workers_cons, role_retire, (role_other t) by (apply Ht; [by left|done]). done.
  - rewrite !workers_cons, IH; [done|]. intros; apply Ht; [by right|done].
Qed.

Lemma workers_forget id ts b :
  (forall t, t ∈ ts -> debuggerId t = id -> is_workqueue t = false) ->
  workers b (filter (fun t => debuggerId t <> id) ts) = workers b ts.
Proof.
  intros Ht. induction ts as [|t ts IH]; [done|]. rewrite filter_cons, workers_cons.
  rewrite <- IH by (intros; apply Ht; [by right|done]). case_decide as E; [by rewrite workers_cons|].
  assert (debuggerId t = id) as Hid by lia.
  rewrite (role_other t) by (apply Ht; [by left|done]). by rewrite decide_False.
Qed.

Lemma live_call s c a w :
  live s -> run_call (stopping s) (guest_vm (threads (state s))) c (work (state s)) = (a, w) ->
  live {| state := with_work w (state s); at_phase := at_phase s; announced := count_if (pumps a) + announced s;
          stalled := stalled s || gives_up c a; stopping := stopping s; requested := requested s ++ asks c a;
          taken := taken s; begun := begun s |}.
Proof.
  intros [Ho Hf Hl] Hc. constructor; cbn.
  - by apply (call_queues _ _ _ _ _ _ Hc).
  - destruct (at_phase s); try done. by rewrite Hf.
  - intros Hst Han. rewrite Hst in Hc. destruct (pumps a) eqn:Ep; [done|].
    specialize (Hl Hst ltac:(cbn in Han; lia)). destruct (at_phase s); cbn in *; try done.
    intros [Hs Hg]%orb_false_iff Hw. apply Hl; [done|]. by eapply quiet_call.
Qed.

Lemma live_timer s q answer next q' :
  live s -> timerQueue (work (state s)) = Some q -> TimerQueue.Run answer q = (next, q') ->
  live (other (with_work (with_kevents (guestWorkqueueKevents (work (state s))) (Some q') (work (state s))) (state s))
          (match next with
           | TimerQueue.Continue notify => count_if (notify && negb (stopping s))
           | TimerQueue.Exit => 0
           end + announced s) s).
Proof.
  intros [Ho Hf Hl] Hq [Hrun Hqs]%run_quiet. constructor; cbn; [done|done|]. intros Hst Han.
  eapply settled_work; [|apply Hl; [done|lia]]. apply waiting_same; [done..|]. cbn. rewrite Hq, Hst in *.
  intros ? [= <-] Hs (i & t & Hi & Hd). exists q. rewrite <- Hqs. split_and!; [done..|].
  destruct next as [[]|]; [done| |done]. destruct Hrun as [->|Hno]; [done|]. by rewrite (Hno i t Hi) in Hd.
Qed.

Lemma select_opened stop sc w p c w' p' :
  select_job mach_msg stop sc w p = (c, w', p') -> guest_workqueue_opened w' = guest_workqueue_opened w.
Proof. unfold select_job, NextGuestWorkqueueEvent. intros E. by repeat case_match; simplify_eq. Qed.

Lemma live_select s sc c w p :
  live s -> at_phase s = Scanned sc ->
  select_job mach_msg (stopping s) sc (work (state s)) (ports (state s)) = (c, w, p) ->
  live {| state := {| work := w; threads := threads (state s); ports := p |};
          at_phase := match c with NoJob => Idle | Job j retry => Chosen sc j retry end;
          announced := announced s; stalled := stalled s; stopping := stopping s; requested := requested s;
          taken := taken s ++ fresh_delivery mach_msg (stopping s) sc (work (state s)) (ports (state s));
          begun := begun s |}.
Proof.
  intros [Ho Hf Hl] Hp Hsel. constructor; cbn.
  - by rewrite (select_opened _ _ _ _ _ _ _ Hsel).
  - by destruct c.
  - intros Hst Han. rewrite Hst in Hsel. specialize (Hl Hst Han). rewrite Hp in Hl. destruct Hl as [<- <-].
    destruct c as [|j retry]; [|done]. intros _. by eapply select_none.
Qed.

Lemma reachable_live s : reachable mach_msg r s -> live s.
Proof.
  induction 1 as [s Hs|s s' _ IH Hstep].
  { constructor; rewrite ?(init_phase _ Hs); [apply (init_opened _ Hs)|done|]. intros _ _ _ Hw.
    destruct Hw as [j Hj|q _ Hq|k Hk|q i t Hq]; revert Hj || revert Hq || revert Hk;
      rewrite ?(init_pending _ Hs), ?(init_requests _ Hs), ?(init_kevents _ Hs), ?(init_timers _ Hs); by intros ?%elem_of_nil || done. }
  destruct Hstep as [s c a w Hc|s q answer next q' Hq Hrun| | | | | | | | | | | |s k Hp|s Hp sc|s sc c w p Hp Hsel
                    |s sc j retry h ok n Hp|s j Hp|s id Hp].
  - by apply live_call.
  - by eapply live_timer.
  - apply live_other; [exact IH|done|done|lia].
  - apply live_other; [exact IH|done|done|lia].
  - apply live_other; [exact IH|done| |lia]. apply slots_workers. intros b. apply workers_on_jit, block_enter_role.
  - apply live_other; [exact IH|done| |lia]. apply slots_workers. intros b. apply workers_on_jit, block_exit_role.
  - destruct IH as [Ho Hf Hl]. constructor; cbn; [done|done|]. by intros ->.
  - apply live_other; [exact IH|done| |lia]. apply slots_workers. intros b. by apply workers_retire_other.
  - apply live_other; [exact IH|done| |lia]. apply slots_workers. intros b. cbn.
    rewrite workers_app, workers_cons, role_other, decide_False by done. unfold workers at 2. cbn. lia.
  - apply live_other; [exact IH|done| |lia]. apply slots_workers. intros b. by apply workers_forget.
  - apply live_other; [exact IH|done|done|lia].
  - apply live_other; [exact IH|done|done|lia].
  - destruct IH as [Ho Hf Hl]. by constructor.
  - destruct IH as [Ho Hf Hl]. by constructor.
  - destruct IH as [Ho Hf Hl]. constructor; cbn; [done|by destruct (_ && _)|]. intros Hst Han. subst sc. unfold slots. cbn.
    destruct (allowOrdinary _) eqn:Eo, (allowEventManager _) eqn:Em; cbn; try done. intros _. apply waiting_none.
  - by eapply live_select.
  - destruct IH as [Ho Hf Hl]. constructor; cbn; [done|by destruct ok, retry; rewrite ?orb_true_r|]. intros _ _.
    destruct ok, retry; cbn; try done. by rewrite orb_true_r.
  - destruct IH as [Ho Hf Hl]. rewrite Hp in Hf. constructor; cbn; [done|done|]. by rewrite Hf.
  - destruct IH as [Ho Hf Hl]. by constructor.
Qed.

(** C32: the pump never sleeps on work: when it is idle, nobody is about to call it and
    the process is not stopping, then no queued job, no requested thread, no
    triggered event and no expired timer for which a slot is free is left, unless
    the last round ended with a failed start or a list of changes was refused. *)
Theorem no_work_left_behind s :
  reachable mach_msg r s ->
  at_phase s = Idle -> announced s = 0%nat -> stalled s = false -> stopping s = false ->
  ~ waiting (allowEventManager (scan_threads (guestThreads (threads (state s)))))
      (allowOrdinary (scan_threads (guestThreads (threads (state s))))) (work (state s)).
Proof.
  intros Hs Hp Han Hst Hsp. pose proof (live_settled _ (reachable_live s Hs) Hsp Han) as Hl.
  rewrite Hp in Hl. by apply Hl.
Qed.
End left_behind.

(** ** The pump ends *)

Section terminates.
Context {P : Type} (mach_msg : mach_receive -> P -> Z * list Z * P) `{IterationOrder} (r : registration).

(** One uninterrupted round leaves a bounded pool with one worker more. *)
Lemma round_grows stop sc (s : pool (P := P)) j retry w p h n :
  pool_ok (threads s) Scanning -> sc = scan_threads (guestThreads (threads s)) ->
  select_job mach_msg stop sc (work s) (ports s) = (Job j retry, w, p) ->
  StartNativeGuestWorkqueueWorker h r j (threads s) = Some (true, n) ->
  let n' := with_threads (clear_compensation (compensationThreadId sc) (guestThreads n)) n in
  pool_ok n' Scanning /\
  workers false (guestThreads n') + workers true (guestThreads n') =
    workers false (guestThreads (threads s)) + workers true (guestThreads (threads s)) + 1.
Proof.
  intros Hok -> Hsel Hst. cbn. pose proof (pool_ids _ _ Hok) as Hids.
  set (ts := guestThreads (threads s)) in *. destruct (scan_counts ts) as [Ho Hm].
  assert (pool_ok (threads s) (Chosen (scan_threads ts) j retry)) as Hch.
  { eapply pool_ok_phase; [exact Hok|]. cbn. fold ts. rewrite Ho, Hm. split_and!; [done| |by eapply select_allowed].
    intros E%Z.ltb_ge. pose proof (workers_nonneg true ts). lia. }
  pose proof (pool_ok_start r _ _ _ _ _ _ _ Scanning Hch Hst ltac:(done)) as Hn.
  destruct (start_registry _ _ _ _ _ _ Hst Hids) as (Hi & t & Ht & Hr). split.
  - eapply pool_ok_le; [exact Hn|by apply ids_clear|]. intros b. cbn. by rewrite workers_clear.
  - rewrite !workers_clear, Ht, !workers_app, !workers_cons, Hr. fold ts.
    change (workers false []) with 0. change (workers true []) with 0.
    destruct (job_manager j); repeat case_decide; simplify_eq; lia.
Qed.

Definition total (n : native) : Z := workers false (guestThreads n) + workers true (guestThreads n).

(** How a pump ends: the pool is bounded, and it says whether it grew.  Without a
    result an assertion failed in a start. *)
Definition pump_ends (starts : nat -> start_host) (started : bool) (before : Z) (res : option (pumped * pool (P := P)))
    : Prop :=
  match res with
  | Some (PumpDone b, s') =>
      pool_ok (threads s') Scanning /\ before <= total (threads s') /\ b = started || (before <? total (threads s'))
  | Some (PumpCut, _) => False
  | None => exists i j n, ids_ok n /\ StartNativeGuestWorkqueueWorker (starts i) r j n = None
  end.

Lemma pump_ends_from stop fuel starts i started (s : pool (P := P)) :
  pool_ok (threads s) Scanning -> 5 < Z.of_nat fuel + total (threads s) ->
  pump_ends starts started (total (threads s)) (PumpGuestWorkqueue mach_msg r stop fuel starts i started s).
Proof.
  revert i started s. induction fuel as [|fuel IH]; intros i started s Hok Hf; cbn [PumpGuestWorkqueue].
  { pose proof (pool_ordinary _ _ Hok). pose proof (pool_manager _ _ Hok).
    unfold MaxNativeGuestWorkqueueWorkers, total in *. lia. }
  assert (forall w n p, pool_ok n Scanning -> total n = total (threads s) ->
    pump_ends starts started (total (threads s)) (Some (PumpDone started, {| work := w; threads := n; ports := p |}))) as Hend.
  { intros w n p Hn E. cbn. by rewrite E, Z.ltb_irrefl, orb_false_r. }
  destruct (_ && _); [by destruct s; apply Hend|].
  destruct (select_job _ _ _ _ _) as [[c w] p] eqn:Esel. destruct c as [|j retry]; [by apply Hend|].
  destruct (StartNativeGuestWorkqueueWorker _ _ _ _) as [[ok n]|] eqn:Est; cbn [mbind option_bind].
  2:{ exists i, j, (threads s). by split; [apply (pool_ids _ _ Hok)|]. }
  destruct ok; cbn [negb].
  2:{ destruct (start_registry _ _ _ _ _ _ Est (pool_ids _ _ Hok)) as [Hi Ht]. apply Hend; [|by unfold total; rewrite Ht].
      destruct Hok. by constructor; rewrite ?Ht. }
  destruct (round_grows _ _ _ _ _ _ _ _ _ Hok eq_refl Esel Est) as [Hok' Hw].
  set (s' := {| work := w; threads := _; ports := p |}).
  assert (total (threads s') = total (threads s) + 1) as Ht by (unfold total, s'; cbn [threads]; lia).
  specialize (IH (S i) true s' Hok' ltac:(lia)).
  destruct (PumpGuestWorkqueue _ _ _ _ _ _ _ s') as [[[b|] s2]|]; [|done..]. destruct IH as (H1 & H2 & H3).
  cbn. split; [done|]. split; [lia|]. rewrite H3. cbn. symmetry. apply orb_true_intro. right. apply Z.ltb_lt. lia.
Qed.

(** C33: an uninterrupted pump ends within six rounds, because the pool has room for
    four ordinary workers and one event manager: whatever the host does, the pool
    is then still bounded, no worker was ended, and the result says exactly whether
    one was started. *)
Theorem pump_terminates stop fuel starts s :
  ids_ok (threads s) -> workers false (guestThreads (threads s)) <= MaxNativeGuestWorkqueueWorkers ->
  workers true (guestThreads (threads s)) <= 1 -> (6 <= fuel)%nat ->
  pump_ends starts false (total (threads s)) (PumpGuestWorkqueue mach_msg r stop fuel starts 0 false s).
Proof.
  intros Hi Ho Hm Hf. pose proof (workers_nonneg false (guestThreads (threads s))).
  pose proof (workers_nonneg true (guestThreads (threads s))).
  apply pump_ends_from; [by constructor|unfold total; lia].
Qed.
End terminates.
