(* ===== verification/WorkqueueStart.v ===== *)
(** What starting a workqueue thread leaves behind: a worker whose stack, guard,
    registers and delivered event are as libpthread expects, or nothing at all. *)

From stdpp Require Import base gmap list list_numbers.
From Stdlib Require Import ZArith Lia.
From S2P Require Import Prelude VmEpoch GuestMemory GuestRawMemory GuestMapping GuestReserve VmInvariant.
From S2P Require Import MappingProps ProtectProps Bytes TimerQueue GuestBootstrapProps SyscallLogic VmTrapsProps.
From S2P Require Import HostCalls MemoryWitness Workqueue WorkqueueProps.

Open Scope list_scope.
Open Scope Z_scope.

Import TimerQueue (guest_kevent_qos_s, g_fflags, g_data, IterationOrder).

(** ** A mapped range as a buffer *)

Lemma mapM_total {A B} (f : A -> option B) (g : A -> B) l :
  (forall x, x ∈ l -> f x = Some (g x)) -> mapM f l = Some (g <$> l).
Proof.
  induction l as [|x l IH]; intros Hf; [done|]. cbn. rewrite (Hf x) by (by left). cbn.
  rewrite IH; [done|]. intros y Hy. apply Hf. by right.
Qed.

Section mapped.
Context (s : vm) (a sz first : Z).
Context (Hok : vm_ok s) (Ha : 0 <= a) (He : a + sz <= 2 ^ 32) (Ham : a mod DYN_PAGE_SIZE = 0) (Hf : 0 < first).
Context (Hpages : forall w, w ∈ page_addrs a (a + sz) -> exists p, memory s !! w = Some p /\ addr p = first + (w - a)).

Lemma mapped_translate x : a <= x < a + sz -> raw_translate s x = Some (first + (x - a)).
Proof.
  intros Hx. assert (2 ^ 33 < U64_MOD) by done. pose proof (page_split x ltac:(lia)) as Hsp.
  pose proof (page_offset_range x) as Hr. pose proof (page_base_aligned x ltac:(lia)) as Hb.
  pose proof (page_base_le x ltac:(lia)) as Hle.
  assert (a <= page_base x) as Hab.
  { rewrite page_base_div by lia. apply Z.mod_divide in Ham as [k ->]; [|done]. unfold DYN_PAGE_SIZE in *.
    rewrite (Z.mul_comm k). apply Z.mul_le_mono_nonneg_l; [done|]. apply Z.div_le_lower_bound; lia. }
  destruct (Hpages (page_base x)) as (p & Hp & Haddr).
  { apply elem_of_page_addrs. split; [lia|]. by rewrite Zminus_mod, Hb, Ham. }
  unfold raw_translate, get_memory_page.
  assert (negb (page_table_slot s (page_index x) =? 0) = true -> page_table_slot s (page_index x) = addr p) as Hslot.
  { intros Hne. assert (page_index x = page_index (page_base x)) as E.
    { rewrite !page_index_div, page_base_div by lia. rewrite (Z.mul_comm DYN_PAGE_SIZE), Z.div_mul by done. done. }
    rewrite E in *. destruct (page_table_present s && (page_index (page_base x) <? num_page_table_entries s))%bool eqn:Et.
    - rewrite (vm_table _ Hok (page_base x) ltac:(lia) Hb Et), Hp in *. unfold GuestPageTablePointer in *.
      by repeat case_match.
    - unfold page_table_slot in Hne. by rewrite Et in Hne. }
  rewrite Hp. destruct (negb _) eqn:En; [rewrite Hslot by done|];
    (rewrite (proj2 (Z.eqb_neq _ _)) by lia); f_equal; lia.
Qed.

Lemma mapped_view b n : a <= b -> b + n <= a + sz ->
  mapM (raw_translate s) (seqZ b n) = Some (seqZ (first + (b - a)) n).
Proof.
  intros Hb Hn. rewrite (mapM_total _ (Z.add (first - a))).
  - f_equal. rewrite fmap_add_seqZ. f_equal. lia.
  - intros x Hx%elem_of_seqZ. rewrite mapped_translate by lia. f_equal. lia.
Qed.
End mapped.

(** ** The delivery in the worker's stack *)

(** The event as it is stored: it points to its message. *)
Definition stored_event (pthread : Z) (d : GuestWorkqueueDelivery) : guest_kevent_qos_s :=
  match message d with
  | [] => delivered d
  | m => set_event (g_fflags (delivered d)) (g_data (delivered d)) (message_buffer pthread) (blen m) (delivered d)
  end.

Lemma blen_encode e : blen (encode_kevent e) = sizeof_guest_kevent_qos_s.
Proof. unfold encode_kevent, blen. rewrite !length_app, !length_le_bytes. done. Qed.

(** What the guest reads: the event, and its message if there is one. *)
Definition delivered_to (s : vm) (pthread : Z) (d : GuestWorkqueueDelivery) : Prop :=
  Dynarmic_mem_1read s (event_list pthread) sizeof_guest_kevent_qos_s true = Some (encode_kevent (stored_event pthread d)) /\
  (message d <> [] -> Dynarmic_mem_1read s (message_buffer pthread) (blen (message d)) true = Some (message d)).

Lemma land_not_fifteen x : 0 <= x < 2 ^ 32 -> Z.land x (UINT32_MAX - 15) = 16 * (x / 16).
Proof.
  intros Hx. change (UINT32_MAX - 15) with (Z.ldiff (Z.ones 32) (Z.ones 4)).
  rewrite Z.ldiff_land, Z.land_assoc, Z.land_ones, Z.mod_small by lia. rewrite <- Z.ldiff_land, Z.ldiff_ones_r by lia.
  rewrite Z.shiftr_div_pow2, Z.shiftl_mul_pow2 by lia. change (2 ^ 4) with 16. lia.
Qed.

(** The addresses below the pthread structure, without the casts. *)
Record below_pthread (pthread : Z) : Prop := {
  below_events : event_list pthread = pthread - 1152;
  below_messages : message_buffer pthread = pthread - 33920;
  below_stack : pthread - 33952 < stack_pointer pthread <= pthread - 33936;
  below_aligned : stack_pointer pthread mod 16 = 0;
}.

Lemma pthread_layout pthread : 2 ^ 16 <= pthread < 2 ^ 32 -> below_pthread pthread.
Proof.
  intros Hp. assert (event_list pthread = pthread - 1152) as E.
  { unfold event_list, GuestWorkqueueEventCapacity, sizeof_guest_kevent_qos_s. rewrite u32_small; [lia|unfold U32_MOD; lia]. }
  assert (message_buffer pthread = pthread - 33920) as M.
  { unfold message_buffer. rewrite E. unfold GuestWorkqueueMessageCapacity. rewrite u32_small; [lia|unfold U32_MOD; lia]. }
  assert (stack_pointer pthread = 16 * ((pthread - 33936) / 16)) as S.
  { unfold stack_pointer. rewrite M, u32_small by (unfold U32_MOD; lia).
    replace (pthread - 33920 - 16) with (pthread - 33936) by lia. apply land_not_fifteen. lia. }
  constructor; try done; rewrite S; [|by rewrite Z.mul_comm, Z.mod_mul].
  pose proof (Z.div_mod (pthread - 33936) 16 ltac:(done)). pose proof (Z.mod_pos_bound (pthread - 33936) 16 ltac:(done)). lia.
Qed.

(** Storing succeeds on a worker's stack unless the message is too long. *)
Lemma store_delivery_ok s a sz first pthread d :
  vm_ok s -> 0 <= a -> a + sz <= 2 ^ 32 -> a mod DYN_PAGE_SIZE = 0 -> 0 < first ->
  (forall w, w ∈ page_addrs a (a + sz) -> exists p, memory s !! w = Some p /\ addr p = first + (w - a)) ->
  a <= pthread - 33920 -> pthread <= a + sz -> 2 ^ 16 <= pthread < 2 ^ 32 ->
  blen (message d) <= GuestWorkqueueMessageCapacity ->
  exists s', store_delivery pthread d s = (true, s') /\ settled s s' /\ delivered_to s' pthread d.
Proof.
  intros Hok Ha He Ham Hf Hpages Hlo Hhi Hp Hlen. destruct (pthread_layout pthread Hp) as [Ev Em _ _].
  set (base := pthread - 33920) in *. assert (base = pthread - 33920) as Hbase by done. clearbody base.
  assert (exists hs, NoDup hs /\ view base 33920 hs s (host_bytes (host s) hs)) as (hs & Hnd & HV).
  { exists (seqZ (first + (base - a)) 33920). split; [apply NoDup_seqZ|]. split; [|done].
    apply (mapped_view s a sz first); try done; lia. }
  pose proof (fun s buf (V : view base 33920 hs s buf) => view_length base 33920 hs s buf ltac:(done) V) as Hl.
  pose proof (view_write base 33920 hs ltac:(lia) ltac:(unfold U32_MOD; lia) Hnd) as Hwrite.
  pose proof (view_read base 33920 hs ltac:(lia) ltac:(unfold U32_MOD; lia) Hnd) as Hread.
  unfold store_delivery. rewrite (proj2 (Z.ltb_ge _ _)) by done. unfold GuestWorkqueueMessageCapacity in Hlen.
  assert (exists s1 buf1, view base 33920 hs s1 buf1 /\ settled s s1 /\
    store_message pthread d s = (0, stored_event pthread d, s1) /\ sub buf1 0 (blen (message d)) = message d) as (s1 & buf1 & V1 & S1 & E1 & B1).
  { unfold store_message, stored_event. destruct (message d) as [|x m] eqn:Emsg.
    - do 2 eexists. split; [exact HV|]. split; [apply settled_refl, Hok|done].
    - rewrite Em. destruct (Hwrite s _ base (x :: m) HV) as (s1 & W & V1); [lia|unfold blen; cbn [length]; lia|lia|].
      pose proof (raw_write_settled s base (blen (x :: m)) (Some (x :: m)) (vm_cache _ Hok)) as Hs. rewrite W in *.
      do 2 eexists. split; [exact V1|]. split; [exact Hs|]. split; [done|]. rewrite Z.sub_diag.
      apply sub_splice_same; [lia|]. rewrite (Hl _ _ HV). lia. }
  rewrite E1. cbn [negb Z.eqb]. rewrite Ev.
  pose proof (blen_encode (stored_event pthread d)) as Le. unfold sizeof_guest_kevent_qos_s in *.
  destruct (Hwrite s1 buf1 (pthread - 1152) (encode_kevent (stored_event pthread d)) V1) as (s2 & W2 & V2); [lia..|].
  pose proof (raw_write_settled s1 (pthread - 1152) 72 (Some (encode_kevent (stored_event pthread d))) (proj1 S1)) as S2.
  rewrite Le in W2. rewrite W2 in *. exists s2. split; [done|]. split; [by eapply settled_trans|].
  pose proof (Hl _ _ V1) as L1. pose proof (blen_nonneg (message d)).
  unfold delivered_to, sizeof_guest_kevent_qos_s. split.
  - rewrite Ev, (Hread _ _ _ _ V2) by lia. f_equal. rewrite <- Le. apply sub_splice_same; lia.
  - intros Hm. assert (0 < blen (message d)) by (destruct (message d); [done|unfold blen; cbn [length]; lia]).
    rewrite Em, (Hread _ _ _ _ V2) by lia. f_equal. rewrite Z.sub_diag, sub_splice_before by lia. exact B1.
Qed.

(** ** Processors *)

Lemma free_id_spec used : free_id used <> 0 -> 0 < free_id used < MaxNativeGuestProcessors /\ Z.testbit used (free_id used) = false.
Proof.
  unfold free_id. destruct (List.find _ _) as [p|] eqn:E; [|done]. intros _. cbn.
  apply List.find_some in E as [Hin Hb]. apply list_elem_of_In, elem_of_seqZ in Hin. cbn in Hb.
  split; [lia|by apply negb_true_iff].
Qed.

Lemma u64_not_bit p : 0 <= p < 64 -> u64_not (Z.shiftl 1 p) = Z.ldiff (Z.ones 64) (2 ^ p).
Proof.
  intros Hp. unfold u64_not, UINT64_MAX. rewrite Z.shiftl_1_l. apply Z.sub_nocarry_ldiff.
  apply Z.ldiff_ones_r_low; [lia|]. rewrite Z.log2_pow2 by lia. lia.
Qed.

Lemma free_use_processor p used :
  0 <= used < 2 ^ 64 -> 0 <= p < 64 -> Z.testbit used p = false -> free_processor p (use_processor p used) = used.
Proof.
  intros Hu Hp Hb. unfold free_processor, use_processor. rewrite u64_not_bit, Z.shiftl_1_l by done.
  apply Z.bits_inj'. intros i Hi. rewrite Z.land_spec, Z.lor_spec, Z.ldiff_spec, Z.pow2_bits_eqb, Z.testbit_ones_nonneg by lia.
  destruct (Z.eqb_spec p i) as [->|_]; [by rewrite Hb, andb_false_r|]. rewrite orb_false_r, andb_true_r.
  destruct (Z.ltb_spec i 64); [by rewrite andb_true_r|].
  rewrite <- (Z.mod_small used (2 ^ 64)) by done. by rewrite Z.mod_pow2_bits_high by lia.
Qed.

(** ** The allocation *)

Section start.
Context (h : start_host) (r : registration) (job : GuestWorkqueueJob) (n : native).

#[local] Abbreviation s0 := (guest_vm n).
#[local] Abbreviation size := (worker_bytes r).
#[local] Abbreviation flags := (Z.lor MAP_PRIVATE MAP_ANONYMOUS).
#[local] Abbreviation rw := (Z.lor PROT_READ PROT_WRITE).
#[local] Abbreviation reaped := (ReapExitedNativeGuestJits n).

(** The state a start begins in, and a host that maps nothing at address null. *)
Record start_ok : Prop := {
  so_vm : vm_ok s0;
  so_generation : guestMemoryLookupGeneration s0 < UINT64_MAX - 2;
  so_ids : ids_ok n;
  so_port : new_port h ∉ threadPorts n;
  so_processors : 0 <= guestProcessorIdsInUse reaped < 2 ^ 64;
  so_runtimes : forall x, x ∈ nativeGuestJits reaped ->
    Z.testbit (guestProcessorIdsInUse reaped) (runtime_processor x) = true;
  so_registration : 0 <= guest_bsdthread_pthread_size r < 2 ^ 31;
  so_mmap : mmap_host_ok (env h) s0 rw size flags (-1) 0 false;
  so_host : forall ma bytes, mmap_host_call (env h) rw size flags (-1) 0 false = inl (ma, bytes) -> 0 < ma;
}.
Context (Hok : start_ok).

Lemma pthread_bytes_range : 0 <= pthread_bytes r <= 2 ^ 31 + DYN_PAGE_MASK.
Proof.
  unfold pthread_bytes. destruct (so_registration Hok). assert (2 ^ 33 < U64_MOD) by done.
  change (Z.land (guest_bsdthread_pthread_size r + DYN_PAGE_MASK) (u64_not DYN_PAGE_MASK))
    with (page_base (guest_bsdthread_pthread_size r + DYN_PAGE_MASK)).
  unfold DYN_PAGE_MASK in *. pose proof (page_base_le (guest_bsdthread_pthread_size r + 4095) ltac:(lia)). lia.
Qed.

(** A worker's memory: its range was free, every page lies in one host mapping, and
    all else is as it was. *)
Record worker_memory (a first : Z) (s : vm) : Prop := {
  wm_ok : vm_ok s;
  wm_generation : guestMemoryLookupGeneration s <= guestMemoryLookupGeneration s0 + 2;
  wm_range : DYN_PAGE_SIZE <= a /\ a + size <= 2 ^ 32 /\ a mod DYN_PAGE_SIZE = 0 /\ size mod DYN_PAGE_SIZE = 0 /\ 0 < size;
  wm_first : 0 < first;
  wm_free : range_free (memory s0) a size;
  wm_pages : forall w, w ∈ page_addrs a (a + size) -> exists p, memory s !! w = Some p /\ addr p = first + (w - a);
  wm_outside : forall w, w ∉ page_addrs a (a + size) -> memory s !! w = memory s0 !! w;
}.

Definition guarded (a : Z) (s : vm) : Prop :=
  (forall w, w ∈ page_addrs a (a + DYN_PAGE_SIZE) -> exists p, memory s !! w = Some p /\ perms p = 0) /\
  (forall w, w ∈ page_addrs (a + DYN_PAGE_SIZE) (a + size) -> exists p, memory s !! w = Some p /\ perms p = rw).

Lemma worker_memory_settled a first s s' : worker_memory a first s -> settled s s' -> worker_memory a first s'.
Proof.
  intros [H1 H2 H3 H4 H5 H6 H7] Hs. pose proof (settled_vm_ok _ _ H1 Hs).
  destruct (settled_fields _ _ Hs) as (Em & _ & _ & _ & Eg). by constructor; rewrite ?Em, ?Eg.
Qed.

Lemma guarded_settled a s s' : guarded a s -> settled s s' -> guarded a s'.
Proof. intros H Hs. destruct (settled_fields _ _ Hs) as (Em & _). unfold guarded. by rewrite Em. Qed.

Lemma allocate_worker : exists mapped s1,
  Dynarmic_mmap (env h) 0 size rw flags (-1) 0 DYN_PAGE_MASK false s0 = Some (mapped, s1) /\
  match mapped with
  | Errno _ => s1 = s0
  | Ret a => exists first g s2,
      Dynarmic_mprotect (env h) (collect_ok h) a GuestWorkqueueGuardSize 0 s1 = Some (g, s2) /\
      worker_memory a first s2 /\ match g with Ret _ => guarded a s2 | Errno _ => True end
  end.
Proof.
  pose proof pthread_bytes_range as Hpb. pose proof (so_generation Hok) as Hg.
  destruct (mmap_spec (env h) 0 size rw flags (-1) 0 DYN_PAGE_MASK false s0 (so_vm Hok)) as (m & s1 & Em & Hok1 & Hm);
    [lia|done|unfold worker_bytes, GuestWorkqueueGuardSize, GuestWorkqueueStackSize, DYN_PAGE_SIZE; lia|done|apply Hok|].
  exists m, s1. split; [done|]. destruct m as [a|e]; [|done].
  destruct Hm as (Hgen & Hpos & Hmul & first & b & (_ & ma & bytes & Hcall & Hfirst) & Hlo & Hhi & Hal & Hfree & _ & Hin & Hout).
  change (DYN_PAGE_MASK + 1) with DYN_PAGE_SIZE in Hal. apply (so_host Hok) in Hcall.
  assert (0 < first) as Hf0.
  { rewrite Hfirst. pose proof (aligned_off_range (env h) 0 (host_page _ _ _ _ _ _ _ _ (so_mmap Hok)) ltac:(lia)). lia. }
  assert (0 <= a) as Ha by (unfold DYN_PAGE_SIZE in Hlo; lia).
  destruct (mprotect_all_or_nothing (env h) (collect_ok h) a GuestWorkqueueGuardSize 0 s1 Hok1)
    as (g & s2 & Ep & Hok2 & _ & _ & Hgen2 & Hg2); [lia|done|done|].
  exists first, g, s2. split; [done|].
  assert (forall w, memory s2 !! w = memory s1 !! w \/ memory s2 !! w = protected_page 0 <$> memory s1 !! w) as Hmem.
  { intros w. destruct g as [v|e]; [|left; by destruct Hg2 as [-> _]].
    destruct Hg2 as (_ & _ & ->). case_decide; auto. }
  assert (forall w, w ∈ page_addrs a (a + size) -> w ∈ page_addrs a (a + GuestWorkqueueGuardSize) \/ a + DYN_PAGE_SIZE <= w) as Hsplit.
  { intros w. rewrite !elem_of_page_addrs. intros [Hw Hwm].
    destruct (Z.lt_ge_cases w (a + GuestWorkqueueGuardSize)); [left|right]; [split; [lia|done]|done]. }
  split.
  - constructor; try done; [lia|by apply Hfree| |].
    + intros w Hw. destruct (Hin w Hw) as (p & Hp & Hpa & _). destruct (Hmem w) as [->| ->]; rewrite Hp; cbn; by eauto.
    + intros w Hw. rewrite <- (Hout w Hw). destruct g as [v|e]; [|by destruct Hg2 as [-> _]].
      destruct Hg2 as (_ & Hall & ->). rewrite decide_False; [done|]. intros Hw2. destruct (Hall w Hw2) as [p Hp].
      apply Hw. rewrite elem_of_page_addrs in *. unfold GuestWorkqueueGuardSize, DYN_PAGE_SIZE in *.
      destruct Hw2 as [Hw2 Hw2m]. split; [|done]. split; [lia|]. 
      assert (4096 <= size); [|lia]. apply Z.mod_divide in Hmul as [k Hk]; [lia|done].
  - destruct g as [v|e]; [|done]. destruct Hg2 as (_ & Hall & Hmem2). split.
    + intros w Hw. rewrite Hmem2, decide_True by done. destruct (Hall w Hw) as [p ->]. cbn. by eauto.
    + intros w Hw. assert (w ∈ page_addrs a (a + size)) as Hwin.
      { rewrite elem_of_page_addrs in *. destruct Hw as [Hw Hwm]. unfold DYN_PAGE_SIZE in *. split; [lia|].
        replace (w - a) with (w - (a + 4096) + 1 * 4096) by lia. by rewrite Z.mod_add. }
      rewrite Hmem2, decide_False.
      * destruct (Hin w Hwin) as (p & Hp & _ & Hperm & _). by eauto.
      * rewrite !elem_of_page_addrs in *. unfold GuestWorkqueueGuardSize. lia.
Qed.

(** Giving the range back restores the map. *)
Lemma release_worker a first s : worker_memory a first s -> exists s',
  Dynarmic_munmap a size s = Some (Ret 0, s') /\ vm_ok s' /\ memory s' = memory s0.
Proof.
  intros [H1 H2 (H3 & H4 & H5 & H6 & H7) H8 H9 H10 H11]. pose proof (so_generation Hok).
  unfold DYN_PAGE_SIZE in H3. destruct (munmap_mapped a size s H1) as (s' & -> & Hok' & Hm); try done; try lia.
  { intros w Hw. destruct (H10 w Hw) as (p & -> & _). by eexists. }
  exists s'. split; [done|]. split; [done|]. apply map_eq. intros w. rewrite Hm.
  case_decide as Hw; [|by apply H11]. symmetry. by apply H9.
Qed.

(** A failed start leaves nothing: exited workers may have been reaped. *)
Record nothing_left (n' : native) : Prop := {
  nl_threads : guestThreads n' = guestThreads n;
  nl_processors : (guestProcessorIdsInUse n', nativeGuestJits n') = (guestProcessorIdsInUse n, nativeGuestJits n) \/
    (guestProcessorIdsInUse n', nativeGuestJits n') = (guestProcessorIdsInUse reaped, nativeGuestJits reaped);
  nl_ports : threadPorts n' = threadPorts n;
  nl_vm : vm_ok (guest_vm n');
  nl_memory : memory (guest_vm n') = memory s0;
}.

(** A successful one: one more thread, on a processor nobody used, in a fresh range
    with a guard page, about to enter start_wqthread with the delivery below its
    pthread structure and the stack below that. *)
Record worker_started (n' : native) (t : GuestThreadContext) : Prop := {
  ws_threads : guestThreads n' = guestThreads n ++ [t];
  ws_role : role t = Some (job_manager job);
  ws_processor : exists jit, nativeJit t = Some jit /\ 0 < processorId jit < MaxNativeGuestProcessors /\
    Z.testbit (guestProcessorIdsInUse reaped) (processorId jit) = false /\
    guestProcessorIdsInUse n' = use_processor (processorId jit) (guestProcessorIdsInUse reaped) /\
    workqueuePriority jit = priority job;
  ws_memory : exists first, worker_memory (allocationAddress t) first (guest_vm n') /\
    guarded (allocationAddress t) (guest_vm n');
  ws_pthread : pthreadAddress t = allocationAddress t + DYN_PAGE_SIZE + GuestWorkqueueStackSize /\
    pthreadAddress t < allocationAddress t + size;
  ws_stack : exists sp, regs (saved t) !! 13%nat = Some sp /\ sp mod 16 = 0 /\
    allocationAddress t + DYN_PAGE_SIZE < sp < message_buffer (pthreadAddress t);
  ws_entry : regs (saved t) !! 0%nat = Some (pthreadAddress t) /\
    regs (saved t) !! 1%nat = Some (threadPort t) /\
    regs (saved t) !! 2%nat = Some (stack_bottom (allocationAddress t)) /\
    regs (saved t) !! 4%nat = Some (upcall_flags false (delivery job) (priority job)) /\
    regs (saved t) !! 15%nat = Some (Z.land (guest_bsdthread_wqthread_start r) (UINT32_MAX - 1)) /\
    cpsr (saved t) = (if Z.odd (guest_bsdthread_wqthread_start r) then 0x30 else 0x1d0) /\
    uro (saved t) = u32 (pthreadAddress t + guest_bsdthread_tsd_offset r);
  ws_delivery : match delivery job with
    | Some d => delivered_to (guest_vm n') (pthreadAddress t) d /\
        regs (saved t) !! 3%nat = Some (event_list (pthreadAddress t)) /\ regs (saved t) !! 5%nat = Some 1
    | None => regs (saved t) !! 3%nat = Some 0 /\ regs (saved t) !! 5%nat = Some 0
    end;
}.

(** The layout of an allocated worker. *)
Lemma worker_layout a first s : worker_memory a first s -> pthread_bytes r <> 0 ->
  pthread_address a = a + DYN_PAGE_SIZE + GuestWorkqueueStackSize /\ pthread_address a < a + size /\
  2 ^ 16 <= pthread_address a < 2 ^ 32.
Proof.
  intros [_ _ (H3 & H4 & _) _ _ _ _] Hb. pose proof pthread_bytes_range.
  unfold worker_bytes, pthread_address, stack_bottom, GuestWorkqueueGuardSize, GuestWorkqueueStackSize, DYN_PAGE_SIZE in *.
  assert (2 ^ 32 = U32_MOD) as E by done. rewrite E in *.
  rewrite (u32_small (a + 4096)), u32_small by lia. change (2 ^ 16) with 65536. lia.
Qed.

Lemma filter_port (p : Z) ps : p ∉ ps -> filter (fun q => q <> p) (p :: ps) = ps.
Proof.
  intros Hp. rewrite filter_cons_False by (intros Hn; by apply Hn). apply filter_all, Forall_forall.
  by intros q Hq ->.
Qed.

(** Storing a delivery: the worker's memory stays, and on success the guest finds
    the event. *)
Lemma store_in_worker a first s d : worker_memory a first s -> pthread_bytes r <> 0 -> guarded a s ->
  exists stored s', store_delivery (pthread_address a) d s = (stored, s') /\ worker_memory a first s' /\ guarded a s' /\
    (stored = true -> delivered_to s' (pthread_address a) d).
Proof.
  intros Hw Hb Hg. destruct (worker_layout a first s Hw Hb) as (Hp & Hpe & Hpr).
  destruct (Z.leb_spec (blen (message d)) GuestWorkqueueMessageCapacity) as [Hl|Hl].
  - pose proof Hw as [H1 H2 (H3 & H4 & H5 & _) H8 H9 H10 H11]. unfold DYN_PAGE_SIZE, GuestWorkqueueStackSize in *.
    destruct (store_delivery_ok s a size first (pthread_address a) d) as (s' & -> & Hs & Hd); try done; try lia.
    exists true, s'. split; [done|]. split; [by eapply worker_memory_settled|]. split; [by eapply guarded_settled|done].
  - exists false, s. unfold store_delivery. rewrite (proj2 (Z.ltb_lt _ _)) by done. done.
Qed.

Lemma store_job a first s : worker_memory a first s -> pthread_bytes r <> 0 -> guarded a s ->
  exists stored s',
    match delivery job with Some d => store_delivery (pthread_address a) d s | None => (true, s) end = (stored, s') /\
    worker_memory a first s' /\ guarded a s' /\
    (stored = true -> match delivery job with Some d => delivered_to s' (pthread_address a) d | None => True end).
Proof. intros Hw Hb Hg. destruct (delivery job) as [d|]; [by eapply store_in_worker|]. by exists true, s. Qed.

#[local] Arguments ReapExitedNativeGuestJits : simpl never.

(** Giving everything back after the allocation. *)
Lemma give_back a first s ids self used js ps ts' :
  worker_memory a first s -> Z.testbit (guestProcessorIdsInUse reaped) (free_id (guestProcessorIdsInUse reaped)) = false ->
  0 < free_id (guestProcessorIdsInUse reaped) < MaxNativeGuestProcessors ->
  ts' = guestThreads n -> js = nativeGuestJits reaped -> ps = threadPorts n ->
  used = use_processor (free_id (guestProcessorIdsInUse reaped)) (guestProcessorIdsInUse reaped) ->
  exists s', Dynarmic_munmap a size s = Some (Ret 0, s') /\
    nothing_left {| guestThreads := ts'; guestNextDebuggerThreadId := ids; guestNextThreadSelfId := self;
      guestProcessorIdsInUse := free_processor (free_id (guestProcessorIdsInUse reaped)) used;
      nativeGuestJits := js; guest_vm := s'; threadPorts := ps |}.
Proof.
  intros Hw Hb Hp -> -> -> ->. destruct (release_worker a first s Hw) as (s' & -> & Hs' & Hm). exists s'. split; [done|].
  constructor; cbn; try done. right. f_equal. unfold MaxNativeGuestProcessors in Hp.
  apply free_use_processor; [apply (so_processors Hok)|lia|done].
Qed.

Lemma filter_last {A} (Q : A -> Prop) `{!forall x, Decision (Q x)} l x :
  Forall Q l -> ~ Q x -> filter Q (l ++ [x]) = l.
Proof. intros Hl Hx. rewrite filter_app, filter_cons_False, filter_nil, app_nil_r by done. by apply filter_all. Qed.

(** The end of a start that gives everything back. *)
#[local] Ltac gives_back a first s :=
  edestruct (give_back a first s) as (? & Eu & Hn);
    [done..| | | | |cbn; rewrite Eu; cbn; do 2 eexists; split; [done|exact Hn]].

(** C34: starting a worker succeeds completely or leaves nothing behind: on success there
    is exactly one more thread, on a processor nobody used, in a fresh range whose
    first page is a guard, with its stack, registers and delivered event in place;
    on any failure (no processor, range, guard, port, JIT or host thread, or a
    message that does not fit) threads, ports, processors and the page map are as
    they were, but for exited workers that were reaped.  No assertion fails. *)
Theorem start_worker_correct : exists ok n', StartNativeGuestWorkqueueWorker h r job n = Some (ok, n') /\
  if ok : bool then exists t, worker_started n' t else nothing_left n'.
Proof.
  unfold StartNativeGuestWorkqueueWorker.
  destruct (negb (can_start r) || negb (running h)).
  { do 2 eexists. split; [done|]. constructor; try done; [by left|apply Hok]. }
  set (used := guestProcessorIdsInUse reaped). cbn [with_ids with_processors guestProcessorIdsInUse]. fold used.
  destruct (Z.eqb_spec (free_id used) 0) as [|Hfree].
  { do 2 eexists. split; [done|]. constructor; cbn; try done; [by right|apply Hok]. }
  destruct (free_id_spec used Hfree) as [Hp Hbit].
  assert (free_processor (free_id used) (use_processor (free_id used) used) = used) as Hfp.
  { apply free_use_processor; [apply (so_processors Hok)|unfold MaxNativeGuestProcessors in Hp; lia|done]. }
  destruct ((pthread_bytes r =? 0) || _) eqn:Esz.
  { do 2 eexists. split; [done|]. constructor; cbn; try done; [|apply Hok]. right. by rewrite Hfp. }
  apply orb_false_iff in Esz as [Epb%Z.eqb_neq _].
  destruct allocate_worker as (m & s1 & Em & Hm). cbn [guest_vm with_processors with_ids].
  change (guest_vm reaped) with s0. rewrite Em. cbn. destruct m as [a|e].
  2:{ subst s1. do 2 eexists. split; [done|]. constructor; cbn; try done; [|apply Hok]. right. f_equal. exact Hfp. }
  destruct Hm as (first & g & s2 & Eg & Hw & Hg). rewrite Eg. cbn. destruct g as [v|e]; [|by gives_back a first s2].
  destruct (MACH_PORT_VALID (new_port h)); cbn [negb]; [|by gives_back a first s2].
  pose proof (filter_port (new_port h) (threadPorts n) (so_port Hok)) as Hport.
  destruct (store_job a first s2 Hw Epb Hg) as (stored & s3 & -> & Hw3 & Hg3 & Hd).
  destruct stored; cbn [negb]; [|by gives_back a first s3].
  destruct (create_jit_ok h); cbn [negb]; [|by gives_back a first s3].
  destruct (worker_layout a first s3 Hw3 Epb) as (Hpt & Hpe & Hpr).
  destruct (pthread_layout _ Hpr) as [_ Emb Esp Eal].
  destruct (Z.eqb_spec (pthread_create_result h) 0) as [|_]; cbn [negb].
  { do 2 eexists. split; [done|]. eexists. constructor; try reflexivity; [|by exists first|done| |done|].
    - eexists. split; [reflexivity|]. cbn. by split.
    - eexists. split; [done|]. split; [exact Eal|]. cbn. rewrite Emb, Hpt.
      rewrite Hpt in Esp. unfold GuestWorkqueueStackSize in *. lia.
    - cbn. destruct (delivery job) as [d|]; [|done]. split; [by apply Hd|done]. }
  gives_back a first s3.
  - apply filter_last; [|by intros Hn]. eapply Forall_impl; [exact (so_ids Hok)|].
    change (guestNextDebuggerThreadId reaped) with (guestNextDebuggerThreadId n). cbn. lia.
  - apply filter_last; [|by intros Hn]. apply Forall_forall. intros x Hx E. apply (so_runtimes Hok) in Hx.
    rewrite E in Hx. fold used in Hx. congruence.
  - rewrite filter_cons_False in Hport by (intros Hn; by apply Hn). by rewrite decide_False by (intros Hn; by apply Hn).
  - done.
Qed.
End start.

(** ** A concrete workqueue *)

(** No port has a message; one guest thread that is no worker; the pages of the
    demonstration address space. *)
Definition quiet_ports (_ : mach_receive) (p : unit) : Z * list Z * unit := (MACH_RCV_TIMED_OUT, [], p).

Definition demo_registration : registration :=
  {| guest_bsdthread_wqthread_start := 0x1001; guest_bsdthread_pthread_size := 0x1000;
     guest_bsdthread_tsd_offset := 0x100 |}.

Definition granting_start (i : nat) : start_host :=
  {| running := true;
     env := {| vector_reserve_ok := true; calloc_page := calloc_page demo_env; push_back_ok := push_back_ok demo_env;
               kh_put_ret := kh_put_ret demo_env;
               host_mmap := fun _ _ _ _ _ => inl (0x100000 * (Z.of_nat i + 1), []);
               host_vm_allocate := host_vm_allocate demo_env; calloc_backing := 31 + Z.of_nat i;
               host_mprotect := host_mprotect demo_env; host_page_size := 0x4000 |};
     collect_ok := true; new_port := 0x1103 + Z.of_nat i; create_jit_ok := true; pthread_create_result := 0 |}.

Definition main_thread : GuestThreadContext :=
  {| debuggerId := 1; threadSelfId := 1; pthreadAddress := 0; threadPort := 0x903; allocationAddress := 0;
     allocationSize := 0; retirementFreeAddress := 0; retirementFreeSize := 0; saved := zero_context;
     signalMask := 0x10; alive := true; is_workqueue := false; nativeJit := None |}.

Definition demo_native : native :=
  {| guestThreads := [main_thread]; guestNextDebuggerThreadId := 3; guestNextThreadSelfId := 7;
     guestProcessorIdsInUse := 1; nativeGuestJits := []; guest_vm := demo; threadPorts := [0x903] |}.

Definition demo_workqueue : workqueue :=
  {| guest_workqueue_opened := true; guest_workqueue_kevent_enabled := true; guest_workqueue_dispatch_offset := 0;
     guestWorkqueueEventManagerPriority := 0; guestWorkqueueKevents := []; timerQueue := None;
     guestWorkqueueRequests := []; guestNativeWorkqueuePendingJobs := [] |}.

(** An event with a message for an ordinary worker. *)
Definition demo_event (q : Z) : guest_kevent_qos_s :=
  {| TimerQueue.g_ident := 9; TimerQueue.g_filter := EVFILT_USER; TimerQueue.g_flags := TimerQueue.EV_ADD; TimerQueue.g_qos := q;
     TimerQueue.g_udata := 0; TimerQueue.g_fflags := NOTE_TRIGGER; TimerQueue.g_xflags := 0; TimerQueue.g_data := 0;
     TimerQueue.g_ext := [0; 0; 0; 0] |}.

Definition demo_job : GuestWorkqueueJob :=
  {| delivery := Some {| delivered := demo_event 0x100; message := [1; 2; 3]; eventManager := false |};
     priority := 0x100 |}.

Lemma demo_start_ok : start_ok (granting_start 0) demo_registration demo_native.
Proof.
  constructor; try done; try exact demo_ok.
  - apply Forall_singleton. done.
  - cbn. rewrite list_elem_of_singleton. done.
  - by intros x ?%elem_of_nil.
  - split; [right; split; [done|set_solver]|done|done|]. intros a bytes [= <- <-]. vm_compute. by split.
  - by intros ma bytes [= <- <-].
Qed.

Lemma start_worker_correct_witness :
  fst <$> StartNativeGuestWorkqueueWorker (granting_start 0) demo_registration demo_job demo_native = Some true /\
  exists ok n', StartNativeGuestWorkqueueWorker (granting_start 0) demo_registration demo_job demo_native = Some (ok, n') /\
    if ok : bool then exists t, worker_started demo_registration demo_job demo_native n' t
    else nothing_left demo_native n'.
Proof.
  split; [vm_compute; reflexivity|]. exact (start_worker_correct (granting_start 0) demo_registration demo_job demo_native demo_start_ok).
Defined.

#[local] Existing Instance TimerQueue.key_order.

Definition demo_pool : pool := {| work := demo_workqueue; threads := demo_native; ports := tt |}.

Definition demo_sys : sys unit :=
  {| state := demo_pool; at_phase := Idle; announced := 0; stalled := false; stopping := false;
     requested := []; taken := []; begun := [] |}.

(** The guest asks for one thread. *)
Definition demo_call : call := Kernreturn (fun _ => (TimerQueue.good_create, TimerQueue.accepting)) WQOPS_QUEUE_REQTHREADS 0 1 0x100.

Definition root_job : GuestWorkqueueJob := {| delivery := None; priority := 0x100 |}.

(** After the pump has started it. *)
Definition started_native : native :=
  from_option snd demo_native (StartNativeGuestWorkqueueWorker (granting_start 0) demo_registration root_job demo_native).

Definition served (n : native) : sys unit :=
  {| state := {| work := demo_workqueue; threads := n; ports := tt |}; at_phase := Idle; announced := 0;
     stalled := false; stopping := false; requested := [0x100]; taken := []; begun := [root_job] |}.

Lemma started_native_eq :
  StartNativeGuestWorkqueueWorker (granting_start 0) demo_registration root_job demo_native = Some (true, started_native).
Proof.
  assert (fst <$> StartNativeGuestWorkqueueWorker (granting_start 0) demo_registration root_job demo_native = Some true) as H
    by (vm_compute; reflexivity).
  unfold started_native. destruct (StartNativeGuestWorkqueueWorker _ _ _ _) as [[]|]; [|done]. by injection H as ->.
Qed.

Lemma started_native_scan :
  scan_threads (guestThreads started_native) =
    {| ordinaryWorkers := 1; blockedOrdinaryWorkers := 0; eventManagerActive := false;
       compensationPriority := 0; compensationThreadId := 0 |}.
Proof. vm_compute. reflexivity. Qed.

Lemma demo_reachable : reachable quiet_ports demo_registration demo_sys.
Proof. apply reach_initial. constructor; try done. intros t ->%list_elem_of_singleton. done. Qed.

Lemma served_from n sc :
  StartNativeGuestWorkqueueWorker (granting_start 0) demo_registration root_job demo_native = Some (true, n) ->
  scan_threads (guestThreads n) = sc -> allowOrdinary sc = true -> compensationThreadId sc = 0 ->
  reachable quiet_ports demo_registration (served n).
Proof.
  intros Hn Hsc Ha Hc. pose proof demo_reachable as H0.
  eapply reach_step in H0; [|eapply (st_call _ _ demo_sys demo_call); reflexivity]. cbn in H0.
  eapply reach_step in H0; [|eapply st_lock; reflexivity]. cbn in H0.
  eapply reach_step in H0; [|eapply st_scan; reflexivity]. cbn in H0.
  eapply reach_step in H0; [|eapply st_select; [reflexivity|reflexivity]]. cbn in H0.
  eapply reach_step in H0; [|eapply st_start; [reflexivity|reflexivity|exact Hn]]. cbn in H0.
  eapply reach_step in H0; [|eapply st_clear; reflexivity]. cbn in H0.
  eapply reach_step in H0; [|eapply st_scan; reflexivity]. cbn -[scan_threads] in H0.
  rewrite Hsc, Ha in H0. cbn in H0.
  assert (select_job quiet_ports false sc demo_workqueue tt = (NoJob, demo_workqueue, tt)) as Hsel.
  { unfold select_job. cbn -[allowOrdinary allowEventManager]. rewrite Ha, Hc, !andb_false_r.
    by destruct (allowEventManager sc). }
  eapply reach_step in H0; [|eapply st_select; [reflexivity|exact Hsel]]. cbn -[allowOrdinary] in H0.
  destruct n. unfold fresh_delivery in H0. cbn -[allowOrdinary allowEventManager] in H0. rewrite Ha in H0.
  destruct (allowEventManager sc); exact H0.
Qed.

Lemma served_reachable : reachable quiet_ports demo_registration (served started_native).
Proof. by eapply served_from; [exact started_native_eq|exact started_native_scan|..]. Qed.

Lemma workqueue_bounded_witness :
  workers false (guestThreads started_native) = 1 /\
  workers false (guestThreads started_native) <= MaxNativeGuestWorkqueueWorkers.
Proof.
  split; [vm_compute; reflexivity|].
  by destruct (workqueue_bounded quiet_ports demo_registration (served started_native) served_reachable) as (H & _).
Defined.

Lemma workqueue_conserves_witness :
  requested (served started_native) = [0x100] /\ conserved (served started_native).
Proof.
  split; [reflexivity|].
  exact (workqueue_conserves quiet_ports demo_registration (served started_native) served_reachable).
Defined.

Lemma no_work_left_behind_witness :
  allowOrdinary (scan_threads (guestThreads started_native)) = true /\ ~ waiting true true demo_workqueue.
Proof.
  split; [by rewrite started_native_scan|].
  pose proof (no_work_left_behind quiet_ports demo_registration (served started_native) served_reachable
    eq_refl eq_refl eq_refl eq_refl) as H. cbn [served state threads work] in H. by rewrite started_native_scan in H.
Defined.

(** ** A run of the pump *)

(** An ordinary worker that sleeps in the host and waits to be compensated for. *)
Definition blocked_worker : GuestThreadContext :=
  {| debuggerId := 2; threadSelfId := 2; pthreadAddress := 0x30081000; threadPort := 0xa03;
     allocationAddress := 0x30000000; allocationSize := 0x82000; retirementFreeAddress := 0x30000000;
     retirementFreeSize := 0x82000; saved := zero_context; signalMask := 0; alive := true; is_workqueue := true;
     nativeJit := Some {| processorId := 1; workqueueEventManager := false; workqueueHostBlocked := true;
       workqueueCompensationPending := true; workqueuePriority := 0x100; nativeGuestWorkqueueHostBlockDepth := 1 |} |}.

(** With the given events registered. *)
Definition blocked_pool (ks : list GuestWorkqueueKevent) : pool :=
  {| work := with_kevents ks None demo_workqueue; ports := tt;
     threads := {| guestThreads := [main_thread; blocked_worker]; guestNextDebuggerThreadId := 3;
                   guestNextThreadSelfId := 7; guestProcessorIdsInUse := 3;
                   nativeGuestJits := [{| runtime_processor := 1; exited := false |}]; guest_vm := demo;
                   threadPorts := [0xa03; 0x903] |} |}.

(** A triggered event for the event manager. *)
Definition manager_trigger : GuestWorkqueueKevent :=
  {| event := demo_event TimerQueue.PTHREAD_PRIORITY_EVENT_MANAGER_FLAG; enabled := true; triggered := true |}.

Definition pumped_blocked (ks : list GuestWorkqueueKevent) : option (pumped * pool) :=
  PumpGuestWorkqueue quiet_ports demo_registration false 6 granting_start 0 false (blocked_pool ks).

Lemma pump_terminates_witness :
  (fun '(res, s) => (res, total (threads s))) <$> pumped_blocked [manager_trigger] = Some (PumpDone true, 2) /\
  pump_ends demo_registration granting_start false (total (threads (blocked_pool [manager_trigger])))
    (pumped_blocked [manager_trigger]).
Proof.
  split; [vm_compute; reflexivity|].
  assert (ids_ok (threads (blocked_pool [manager_trigger]))) as Hi.
  { apply Forall_forall. intros t [->|[->|[]%elem_of_nil]%elem_of_cons]%elem_of_cons; done. }
  assert (workers false (guestThreads (threads (blocked_pool [manager_trigger]))) <= MaxNativeGuestWorkqueueWorkers) as Ho
    by (vm_compute; congruence).
  assert (workers true (guestThreads (threads (blocked_pool [manager_trigger]))) <= 1) as Hm by (vm_compute; congruence).
  exact (pump_terminates quiet_ports demo_registration false 6 granting_start _ Hi Ho Hm (le_n 6)).
Defined.

Definition after (ks : list GuestWorkqueueKevent) : option (Z * Z * scan) :=
  (fun '(_, s) => let ts := guestThreads (threads s) in (workers false ts, workers true ts, scan_threads ts))
  <$> pumped_blocked ks.

(** A worker for the event manager uses up the compensation of the blocked ordinary
    worker: with no event to deliver, a second ordinary worker is started; with an
    event for the event manager, only the manager is, and the only ordinary worker
    stays blocked with nothing left that would replace it. *)
Lemma manager_spends_compensation :
  fst <$> after [] = Some (2, 0) /\
  after [manager_trigger] = Some (1, 1,
    {| ordinaryWorkers := 1; blockedOrdinaryWorkers := 1; eventManagerActive := true;
       compensationPriority := 0; compensationThreadId := 0 |}).
Proof. split; vm_compute; reflexivity. Qed.
