(* ===== verification/WorkqueueUpcall.v ===== *)
(** The workqueue without native threads: a worker borrows the one processor.

    [PumpGuestWorkqueue] prepares an upcall; at the next safe point
    [HandleGuestWorkqueueTransition] saves the context of the thread that runs and
    enters the worker, and when the worker returns the thread goes on where it was
    (dynarmic_workqueue.cpp, dynarmic_thread_state.cpp, dynarmic_callbacks.cpp).
    The queue and its calls are those of Workqueue.v.  The switch between
    cooperative threads is CoopThreads.v's: here the chosen thread is an argument.
    Writes of the debugger into a saved context are left out.

    The theorems say that the interrupted thread notices nothing, and that every
    requested worker is entered once, in the order of the requests, while an event
    is delivered at most once: one whose upcall cannot be prepared is lost. *)

From stdpp Require Import base gmap list list_numbers.
From Stdlib Require Import ZArith Lia.
From S2P Require Import Prelude TimerQueue Bytes VmEpoch GuestMemory GuestRawMemory GuestMapping GuestReserve.
From S2P Require Import MemoryWitness HostCalls VmTraps Workqueue WorkqueueProps WorkqueueStart.

Open Scope list_scope.
Open Scope Z_scope.

Import TimerQueue (guest_kevent_qos_s, g_qos, IterationOrder).

Definition SIG_BLOCK : Z := 1.
Definition SIG_UNBLOCK : Z := 2.
Definition SIG_SETMASK : Z := 3.

(** ** State *)

(** The one worker thread of the queue. *)
Record worker := {
  guestWorkqueueAllocation : Z;
  guestWorkqueueAllocationSize : Z;
  guestWorkqueueStackBottom : Z;
  guestWorkqueuePthread : Z;
  guestWorkqueueThreadPort : Z;
  guestWorkqueueThreadSelfId : Z;
}.

Definition no_worker (self : Z) : worker :=
  {| guestWorkqueueAllocation := 0; guestWorkqueueAllocationSize := 0; guestWorkqueueStackBottom := 0;
     guestWorkqueuePthread := 0; guestWorkqueueThreadPort := 0; guestWorkqueueThreadSelfId := self |}.

Record GuestWorkqueuePendingUpcall := { eventList : Z; eventCount : Z; stackPointer : Z; flags : Z }.

(** What is borrowed, and from whom; a pending upcall that is not [valid] is [None]. *)
Record overlay := {
  guestWorkqueueWorkerInitialized : bool;
  guestWorkqueueSignalMask : Z;
  guestWorkqueuePendingUpcall : option GuestWorkqueuePendingUpcall;
  guestWorkqueueUpcallActive : bool;
  guestWorkqueueRestoreRequested : bool;
  guestWorkqueueOverlayCurrent : bool;
  guestWorkqueueWaitingContext : context32;
  guestWorkqueueWaitingContextValid : bool;
  guestWorkqueueWaitingThreadId : Z;
}.

Definition with_pending (u : option GuestWorkqueuePendingUpcall) (o : overlay) : overlay :=
  {| guestWorkqueueWorkerInitialized := guestWorkqueueWorkerInitialized o;
     guestWorkqueueSignalMask := guestWorkqueueSignalMask o; guestWorkqueuePendingUpcall := u;
     guestWorkqueueUpcallActive := guestWorkqueueUpcallActive o;
     guestWorkqueueRestoreRequested := guestWorkqueueRestoreRequested o;
     guestWorkqueueOverlayCurrent := guestWorkqueueOverlayCurrent o;
     guestWorkqueueWaitingContext := guestWorkqueueWaitingContext o;
     guestWorkqueueWaitingContextValid := guestWorkqueueWaitingContextValid o;
     guestWorkqueueWaitingThreadId := guestWorkqueueWaitingThreadId o |}.

Definition with_restore (b : bool) (o : overlay) : overlay :=
  {| guestWorkqueueWorkerInitialized := guestWorkqueueWorkerInitialized o;
     guestWorkqueueSignalMask := guestWorkqueueSignalMask o;
     guestWorkqueuePendingUpcall := guestWorkqueuePendingUpcall o;
     guestWorkqueueUpcallActive := guestWorkqueueUpcallActive o; guestWorkqueueRestoreRequested := b;
     guestWorkqueueOverlayCurrent := guestWorkqueueOverlayCurrent o;
     guestWorkqueueWaitingContext := guestWorkqueueWaitingContext o;
     guestWorkqueueWaitingContextValid := guestWorkqueueWaitingContextValid o;
     guestWorkqueueWaitingThreadId := guestWorkqueueWaitingThreadId o |}.

Definition with_mask (mask : Z) (o : overlay) : overlay :=
  {| guestWorkqueueWorkerInitialized := guestWorkqueueWorkerInitialized o; guestWorkqueueSignalMask := mask;
     guestWorkqueuePendingUpcall := guestWorkqueuePendingUpcall o;
     guestWorkqueueUpcallActive := guestWorkqueueUpcallActive o;
     guestWorkqueueRestoreRequested := guestWorkqueueRestoreRequested o;
     guestWorkqueueOverlayCurrent := guestWorkqueueOverlayCurrent o;
     guestWorkqueueWaitingContext := guestWorkqueueWaitingContext o;
     guestWorkqueueWaitingContextValid := guestWorkqueueWaitingContextValid o;
     guestWorkqueueWaitingThreadId := guestWorkqueueWaitingThreadId o |}.

(** The queue with threads and memory, the worker, the overlay, and the processor:
    its registers, the thread they belong to, whether a switch of threads is
    requested and whether it was told to stop for a transition.  The rest is
    history: the threads asked for, the events taken from the queue, each with
    whether it became an upcall, the jobs that did, and the upcalls entered. *)
Record machine (P : Type) := {
  base : pool (P := P);
  the_worker : worker;
  the_overlay : overlay;
  jit : context32;
  guestCurrentThreadId : Z;
  guestThreadRotationRequested : bool;
  halted : bool;
  asked : list Z;
  fetched : list (GuestWorkqueueDelivery * bool);
  prepared : list GuestWorkqueueJob;
  entered : list GuestWorkqueuePendingUpcall;
}.
Arguments base {P}. Arguments the_worker {P}. Arguments the_overlay {P}. Arguments jit {P}.
Arguments guestCurrentThreadId {P}. Arguments guestThreadRotationRequested {P}. Arguments halted {P}.
Arguments asked {P}. Arguments fetched {P}. Arguments prepared {P}. Arguments entered {P}. Arguments Build_machine {P}.

(** The living thread [id], as [FindGuestThread(id, true)] finds it. *)
Definition living (id : Z) (ts : list GuestThreadContext) : option GuestThreadContext :=
  List.find (fun t => (debuggerId t =? id) && alive t) ts.

Definition with_signalMask (mask : Z) (t : GuestThreadContext) : GuestThreadContext :=
  {| debuggerId := debuggerId t; threadSelfId := threadSelfId t; pthreadAddress := pthreadAddress t;
     threadPort := threadPort t; allocationAddress := allocationAddress t; allocationSize := allocationSize t;
     retirementFreeAddress := retirementFreeAddress t; retirementFreeSize := retirementFreeSize t; saved := saved t;
     signalMask := mask; alive := alive t; is_workqueue := is_workqueue t; nativeJit := nativeJit t |}.

(** The registers with a system call's result. *)
Definition set_result (value : Z) (carry : bool) (c : context32) : context32 :=
  {| regs := <[0%nat := u32 value]> (regs c); extRegs := extRegs c;
     cpsr := if carry then Z.setbit (cpsr c) 29 else Z.clearbit (cpsr c) 29; fpscr := fpscr c; uro := uro c |}.

Section machine.
Context {P : Type}.

Definition with_base (b : pool (P := P)) (m : machine P) : machine P :=
  {| base := b; the_worker := the_worker m; the_overlay := the_overlay m; jit := jit m;
     guestCurrentThreadId := guestCurrentThreadId m; guestThreadRotationRequested := guestThreadRotationRequested m;
     halted := halted m; asked := asked m; fetched := fetched m; prepared := prepared m; entered := entered m |}.

Definition with_worker (w : worker) (m : machine P) : machine P :=
  {| base := base m; the_worker := w; the_overlay := the_overlay m; jit := jit m;
     guestCurrentThreadId := guestCurrentThreadId m; guestThreadRotationRequested := guestThreadRotationRequested m;
     halted := halted m; asked := asked m; fetched := fetched m; prepared := prepared m; entered := entered m |}.

Definition with_overlay (o : overlay) (m : machine P) : machine P :=
  {| base := base m; the_worker := the_worker m; the_overlay := o; jit := jit m;
     guestCurrentThreadId := guestCurrentThreadId m; guestThreadRotationRequested := guestThreadRotationRequested m;
     halted := halted m; asked := asked m; fetched := fetched m; prepared := prepared m; entered := entered m |}.

(** Another thread, or the same one with other registers. *)
Definition with_processor (c : context32) (id : Z) (rotation stop : bool) (m : machine P) : machine P :=
  {| base := base m; the_worker := the_worker m; the_overlay := the_overlay m; jit := c;
     guestCurrentThreadId := id; guestThreadRotationRequested := rotation; halted := stop;
     asked := asked m; fetched := fetched m; prepared := prepared m; entered := entered m |}.

Definition with_history (a : list Z) (p : list GuestWorkqueueJob) (e : list GuestWorkqueuePendingUpcall)
    (m : machine P) : machine P :=
  {| base := base m; the_worker := the_worker m; the_overlay := the_overlay m; jit := jit m;
     guestCurrentThreadId := guestCurrentThreadId m; guestThreadRotationRequested := guestThreadRotationRequested m;
     halted := halted m; asked := a; fetched := fetched m; prepared := p; entered := e |}.

Definition with_fetched (f : list (GuestWorkqueueDelivery * bool)) (m : machine P) : machine P :=
  {| base := base m; the_worker := the_worker m; the_overlay := the_overlay m; jit := jit m;
     guestCurrentThreadId := guestCurrentThreadId m; guestThreadRotationRequested := guestThreadRotationRequested m;
     halted := halted m; asked := asked m; fetched := f; prepared := prepared m; entered := entered m |}.

Definition on_jit_context (f : context32 -> context32) (m : machine P) : machine P :=
  with_processor (f (jit m)) (guestCurrentThreadId m) (guestThreadRotationRequested m) (halted m) m.

Definition with_rotation (b : bool) (m : machine P) : machine P :=
  with_processor (jit m) (guestCurrentThreadId m) b (halted m) m.

Definition HaltExecution (m : machine P) : machine P :=
  with_processor (jit m) (guestCurrentThreadId m) (guestThreadRotationRequested m) true m.

Definition memory_of (m : machine P) : vm := guest_vm (threads (base m)).
Definition queue_of (m : machine P) : workqueue := work (base m).

Definition put_memory (s : vm) (m : machine P) : machine P :=
  with_base (with_native (with_vm s (threads (base m))) (base m)) m.

Definition put_queue (w : workqueue) (m : machine P) : machine P := with_base (with_work w (base m)) m.

(** ** The worker's identity *)

(** [GuestWorkqueueActiveForCurrentThread], without native threads. *)
Definition GuestWorkqueueActiveForCurrentThread (m : machine P) : bool := guestWorkqueueUpcallActive (the_overlay m).

(** [GuestCurrentThreadSelfId]; [host_id] is the host's own answer. *)
Definition GuestCurrentThreadSelfId (host_id : Z) (m : machine P) : Z :=
  if GuestWorkqueueActiveForCurrentThread m then guestWorkqueueThreadSelfId (the_worker m) else
  from_option threadSelfId host_id (living (guestCurrentThreadId m) (guestThreads (threads (base m)))).

Definition GuestCurrentSyntheticThreadPort (m : machine P) : Z :=
  if GuestWorkqueueActiveForCurrentThread m then guestWorkqueueThreadPort (the_worker m) else
  from_option threadPort 0 (living (guestCurrentThreadId m) (guestThreads (threads (base m)))).

(** The mask that [GuestThreadSigmask] works on. *)
Definition current_mask (m : machine P) : option Z :=
  if GuestWorkqueueActiveForCurrentThread m then Some (guestWorkqueueSignalMask (the_overlay m))
  else signalMask <$> living (guestCurrentThreadId m) (guestThreads (threads (base m))).

Definition put_mask (mask : Z) (m : machine P) : machine P :=
  if GuestWorkqueueActiveForCurrentThread m then with_overlay (with_mask mask (the_overlay m)) m else
  with_base (with_native (with_threads (on_living (guestCurrentThreadId m) (with_signalMask mask)
    (guestThreads (threads (base m)))) (threads (base m))) (base m)) m.

Definition GuestThreadSigmask (how guestSet guestOldSet : Z) (m : machine P) : Z * machine P :=
  match current_mask m with
  | None => (EINVAL, m)
  | Some oldMask =>
      let '(stored, s) := if guestOldSet =? 0 then (0, memory_of m)
                          else Dynarmic_mem_1write (memory_of m) guestOldSet 4 (Some (le_bytes 4 oldMask)) in
      let m := put_memory s m in
      if negb (stored =? 0) then (EFAULT, m) else
      if guestSet =? 0 then (0, m) else
      match Dynarmic_mem_1read (memory_of m) guestSet 4 true with
      | None => (EFAULT, m)
      | Some bytes =>
          let set := le_int bytes in
          if how =? SIG_BLOCK then (0, put_mask (Z.lor oldMask set) m) else
          if how =? SIG_UNBLOCK then (0, put_mask (Z.land oldMask (UINT32_MAX - set)) m) else
          if how =? SIG_SETMASK then (0, put_mask set m) else (EINVAL, m)
      end
  end.

(** ** Preparing an upcall *)

(** The host while the worker is allocated: its memory calls, and what
    mach_port_allocate (with the name it stores) and mach_port_insert_right answer. *)
Record worker_host := { worker_env : host_env; port_allocate : Z * Z; insert_right : Z }.

Definition worker_sizes_ok (r : registration) : bool :=
  negb ((pthread_bytes r =? 0) || (UINT32_MAX - GuestWorkqueueGuardSize - GuestWorkqueueStackSize <? pthread_bytes r)).

(** [EnsureGuestWorkqueueWorker]; [None] is a failed assertion of the mapping
    operations. *)
Definition EnsureGuestWorkqueueWorker (h : worker_host) (r : registration) (m : machine P)
    : option (bool * machine P) :=
  let w := the_worker m in
  if negb (guestWorkqueueAllocation w =? 0) then Some (MACH_PORT_VALID (guestWorkqueueThreadPort w), m) else
  if negb (can_start r) || negb (worker_sizes_ok r) then Some (false, m) else
  '(mapped, s) ← Dynarmic_mmap (worker_env h) 0 (worker_bytes r) (Z.lor PROT_READ PROT_WRITE)
                  (Z.lor MAP_PRIVATE MAP_ANONYMOUS) (-1) 0 DYN_PAGE_MASK false (memory_of m);
  let m := put_memory s m in
  match mapped with
  | Errno _ =>
      Some (false, with_worker {| guestWorkqueueAllocation := 0; guestWorkqueueAllocationSize := 0;
                                  guestWorkqueueStackBottom := guestWorkqueueStackBottom w;
                                  guestWorkqueuePthread := guestWorkqueuePthread w;
                                  guestWorkqueueThreadPort := guestWorkqueueThreadPort w;
                                  guestWorkqueueThreadSelfId := guestWorkqueueThreadSelfId w |} m)
  | Ret a =>
      let port := (port_allocate h).2 in
      let allocated := (port_allocate h).1 =? KERN_SUCCESS in
      let n := threads (base m) in
      if allocated && (insert_right h =? KERN_SUCCESS) then
        let fresh := guestWorkqueueThreadSelfId w =? 0 in
        let self := guestNextThreadSelfId n in
        let n := with_ports (port :: threadPorts n)
                   (if fresh then with_ids (guestNextDebuggerThreadId n) (u64 (self + 1)) n else n) in
        Some (true, with_worker {| guestWorkqueueAllocation := a; guestWorkqueueAllocationSize := worker_bytes r;
                                   guestWorkqueueStackBottom := stack_bottom a;
                                   guestWorkqueuePthread := pthread_address a; guestWorkqueueThreadPort := port;
                                   guestWorkqueueThreadSelfId :=
                                     if fresh then self else guestWorkqueueThreadSelfId w |}
                      (with_base (with_native n (base m)) m))
      else
        let ports := if allocated then port :: threadPorts n else threadPorts n in
        let n := with_ports (if MACH_PORT_VALID port then filter (fun p => p <> port) ports else ports) n in
        '(_, s) ← Dynarmic_munmap a (worker_bytes r) (guest_vm n);
        Some (false, with_worker (no_worker (guestWorkqueueThreadSelfId w))
                       (with_base (with_native (with_vm s n) (base m)) m))
  end.

(** [PrepareGuestWorkqueueUpcall]. *)
Definition PrepareGuestWorkqueueUpcall (h : worker_host) (r : registration)
    (delivery : option GuestWorkqueueDelivery) (priority : Z) (m : machine P) : option (bool * machine P) :=
  '(ok, m) ← EnsureGuestWorkqueueWorker h r m;
  let o := the_overlay m in
  if negb ok || guestWorkqueueUpcallActive o || bool_decide (is_Some (guestWorkqueuePendingUpcall o))
  then Some (false, m) else
  let pthread := guestWorkqueuePthread (the_worker m) in
  let '(stored, s) := match delivery with
                      | Some d => store_delivery pthread d (memory_of m)
                      | None => (true, memory_of m)
                      end in
  let m := put_memory s m in
  if negb stored then Some (false, m) else
  let priority := match delivery with
                  | Some d => if eventManager d then guestWorkqueueEventManagerPriority (queue_of m)
                              else u32 (g_qos (delivered d))
                  | None => priority
                  end in
  let upcall := {| eventList := if delivery is Some _ then event_list pthread else 0;
                   eventCount := if delivery is Some _ then 1 else 0; stackPointer := stack_pointer pthread;
                   flags := upcall_flags (guestWorkqueueWorkerInitialized o) delivery priority |} in
  Some (true, with_history (asked m) (prepared m ++ [{| Workqueue.delivery := delivery; Workqueue.priority := priority |}])
                (entered m) (with_overlay (with_pending (Some upcall) o) m)).
End machine.

(** ** The pump *)

Section cooperative.
Context {P : Type} (mach_msg : mach_receive -> P -> Z * list Z * P) `{IterationOrder} (r : registration).

(** The cooperative half of [PumpGuestWorkqueue]: whether the result is
    [CooperativeTransition]. *)
Definition PumpGuestWorkqueue (stop : bool) (h : worker_host) (m : machine P) : option (bool * machine P) :=
  let o := the_overlay m in
  if guestWorkqueueUpcallActive o || bool_decide (is_Some (guestWorkqueuePendingUpcall o)) ||
     negb (guest_workqueue_opened (queue_of m))
  then Some (false, m) else
  '(ok, m) ← EnsureGuestWorkqueueWorker h r m;
  if negb ok then Some (false, m) else
  let w := queue_of m in
  let requests := drop_finished (guestWorkqueueRequests w) in
  let m := put_queue (with_queued requests (guestNativeWorkqueuePendingJobs w) w) m in
  match requests with
  | q :: rest =>
      '(ok, m) ← PrepareGuestWorkqueueUpcall h r None (request_priority q) m;
      if negb ok then Some (false, m) else
      let used := {| remaining := remaining q - 1; request_priority := request_priority q |} in
      Some (true, put_queue (with_queued (used :: rest) (guestNativeWorkqueuePendingJobs (queue_of m)) (queue_of m)) m)
  | [] =>
      let '(d, w, p) := NextGuestWorkqueueEvent mach_msg stop true true (queue_of m) (ports (base m)) in
      let m := with_base {| work := w; threads := threads (base m); ports := p |} m in
      match d with
      | None => Some (false, m)
      | Some d =>
          '(ok, m) ← PrepareGuestWorkqueueUpcall h r (Some d) 0 m;
          Some (ok, with_fetched (fetched m ++ [(d, ok)]) m)
      end
  end.

(** ** Transitions *)

(** [HandleGuestWorkqueueTransition]: whether something was switched; [attached] is
    whether there is a processor. *)
Definition HandleGuestWorkqueueTransition (stop attached : bool) (h : worker_host) (m : machine P)
    : option (bool * machine P) :=
  let o := the_overlay m in
  if negb attached then Some (false, m) else
  if guestWorkqueueRestoreRequested o then
    if negb (guestWorkqueueUpcallActive o) || negb (guestWorkqueueWaitingContextValid o)
    then Some (false, with_overlay (with_restore false o) m) else
    let m := with_overlay
      {| guestWorkqueueWorkerInitialized := guestWorkqueueWorkerInitialized o;
         guestWorkqueueSignalMask := guestWorkqueueSignalMask o;
         guestWorkqueuePendingUpcall := guestWorkqueuePendingUpcall o; guestWorkqueueUpcallActive := false;
         guestWorkqueueRestoreRequested := false; guestWorkqueueOverlayCurrent := false;
         guestWorkqueueWaitingContext := guestWorkqueueWaitingContext o;
         guestWorkqueueWaitingContextValid := false; guestWorkqueueWaitingThreadId := 0 |}
      (on_jit_context (fun _ => guestWorkqueueWaitingContext o) m) in
    '(transition, m) ← PumpGuestWorkqueue stop h m;
    Some (true, if transition : bool then HaltExecution m else m)
  else
    match guestWorkqueuePendingUpcall o with
    | None => Some (false, m)
    | Some upcall =>
        if guestWorkqueueUpcallActive o then Some (false, m) else
        let w := the_worker m in
        let o' := {| guestWorkqueueWorkerInitialized := true;
                     guestWorkqueueSignalMask := from_option signalMask (guestWorkqueueSignalMask o)
                       (living (guestCurrentThreadId m) (guestThreads (threads (base m))));
                     guestWorkqueuePendingUpcall := None; guestWorkqueueUpcallActive := true;
                     guestWorkqueueRestoreRequested := false; guestWorkqueueOverlayCurrent := true;
                     guestWorkqueueWaitingContext := jit m; guestWorkqueueWaitingContextValid := true;
                     guestWorkqueueWaitingThreadId := guestCurrentThreadId m |} in
        let c := worker_context r (guestWorkqueuePthread w) (guestWorkqueueThreadPort w)
                   (guestWorkqueueStackBottom w) (eventList upcall) (flags upcall) (eventCount upcall)
                   (stackPointer upcall) in
        Some (true, with_history (asked m) (prepared m) (entered m ++ [upcall])
                      (with_overlay o' (on_jit_context (fun _ => c) m)))
    end.

Definition GuestWorkqueueTransitionPending (m : machine P) : bool :=
  bool_decide (is_Some (guestWorkqueuePendingUpcall (the_overlay m))) || guestWorkqueueRestoreRequested (the_overlay m).

(** What [HandleGuestThreadTransition] does to the processor: [next] is the thread
    CoopThreads.v chooses, with the context saved for it. *)
Definition thread_transition (attached : bool) (next : option (context32 * Z)) (m : machine P)
    : bool * machine P :=
  if negb (guestThreadRotationRequested m) || GuestWorkqueueActiveForCurrentThread m || negb attached then (false, m) else
  match next with
  | None => (false, with_rotation false m)
  | Some (c, id) => (true, with_processor c id false (halted m) m)
  end.

Definition GuestContextTransitionPending (m : machine P) : bool :=
  GuestWorkqueueTransitionPending m || guestThreadRotationRequested m.

Definition HandleGuestContextTransition (stop attached : bool) (h : worker_host) (next : option (context32 * Z))
    (m : machine P) : option (bool * machine P) :=
  if GuestWorkqueueTransitionPending m then HandleGuestWorkqueueTransition stop attached h m
  else Some (thread_transition attached next m).

(** The processor stopped for a transition ([Dynarmic_emu_1start],
    [Dynarmic_emu_1resume]): whether it goes on, false being LC32HaltReasonTrap. *)
Definition run_transition (stop attached : bool) (h : worker_host) (next : option (context32 * Z)) (m : machine P)
    : option (bool * machine P) :=
  let m := with_processor (jit m) (guestCurrentThreadId m) (guestThreadRotationRequested m) false m in
  if GuestContextTransitionPending m then HandleGuestContextTransition stop attached h next m else Some (true, m).

(** ** System calls *)

(** [GuestThreadRequestRotation], at the end of most calls: [busy] is retiring,
    single stepping or being alone, [found] whether there is another thread. *)
Definition GuestThreadRequestRotation (busy found : bool) (m : machine P) : machine P :=
  if busy || GuestWorkqueueActiveForCurrentThread m || GuestWorkqueueTransitionPending m then m
  else with_rotation found m.

(** The switch [ParkCurrentGuestThread] asks for once there is another thread. *)
Definition park_rotation (m : machine P) : machine P :=
  if GuestWorkqueueActiveForCurrentThread m then m else with_rotation true m.

(** The worker is done when it returns without an error. *)
Definition returns (c : call) (a : answer) : bool :=
  match c with
  | Kernreturn _ options _ _ _ =>
      (value a =? 0) && ((options =? WQOPS_THREAD_RETURN) || (options =? WQOPS_THREAD_KEVENT_RETURN))
  | _ => false
  end.

(** [CallSVC] on the calls of the workqueue. *)
Definition call_workqueue (stop : bool) (h : worker_host) (c : call) (m : machine P) : option (machine P) :=
  let '(a, w) := run_call stop (memory_of m) c (queue_of m) in
  let m := with_history (asked m ++ asks c a) (prepared m) (entered m) (put_queue w m) in
  '(_, m) ← (if pumps a then PumpGuestWorkqueue stop h m else Some (false, m));
  let m := on_jit_context (set_result (value a) (carry a)) m in
  Some (if GuestWorkqueueActiveForCurrentThread m && returns c a
        then with_overlay (with_restore true (the_overlay m)) m else m).

(** The end of [CallSVC]; [executing] is whether it runs inside the processor. *)
Definition finish_call (executing : bool) (m : machine P) : machine P :=
  if executing && GuestContextTransitionPending m then HaltExecution m else m.

(** [TimerReady], on the waiter thread of the timers. *)
Definition TimerReady (stop : bool) (h : worker_host) (m : machine P) : option (machine P) :=
  if stop then Some m else
  '(transition, m) ← PumpGuestWorkqueue stop h m;
  Some (if transition : bool then HaltExecution m else m).
End cooperative.

(** ** Executions *)

Section system.
Context {P : Type} (mach_msg : mach_receive -> P -> Z * list Z * P) `{IterationOrder} (r : registration).

(** Safe points, system calls, the timers' thread and the ports may come in any
    order.  [ms_guest] is guest code and every call not named here: it changes
    registers, memory and threads as it likes, but under an upcall no thread ends
    ([GuestBsdthreadTerminate] refuses to). *)
Inductive machine_step : machine P -> machine P -> Prop :=
  | ms_guest m c n :
      (guestWorkqueueUpcallActive (the_overlay m) = true ->
       exists ts, guestThreads n = guestThreads (threads (base m)) ++ ts) ->
      machine_step m (on_jit_context (fun _ => c) (with_base (with_native n (base m)) m))
  | ms_call stop h c m m' : call_workqueue mach_msg r stop h c m = Some m' -> machine_step m m'
  | ms_sigmask how set old m : machine_step m (GuestThreadSigmask how set old m).2
  | ms_rotation busy found m : machine_step m (GuestThreadRequestRotation busy found m)
  | ms_park m : machine_step m (park_rotation m)
  | ms_finish executing m : machine_step m (finish_call executing m)
  | ms_timers m q answer next q' :
      timerQueue (queue_of m) = Some q -> TimerQueue.Run answer q = (next, q') ->
      machine_step m (put_queue (with_kevents (guestWorkqueueKevents (queue_of m)) (Some q') (queue_of m)) m)
  | ms_timer_ready stop h m m' : TimerReady mach_msg r stop h m = Some m' -> machine_step m m'
  | ms_arrival m p : machine_step m (with_base {| work := work (base m); threads := threads (base m); ports := p |} m)
  | ms_service stop attached h next m b m' :
      HandleGuestContextTransition mach_msg r stop attached h next m = Some (b, m') -> machine_step m m'
  | ms_run stop attached h next m b m' :
      run_transition mach_msg r stop attached h next m = Some (b, m') -> machine_step m m'.

(** Before the first call. *)
Record machine_initial (m : machine P) : Prop := {
  mi_requests : guestWorkqueueRequests (queue_of m) = [];
  mi_worker : guestWorkqueueAllocation (the_worker m) = 0;
  mi_initialized : guestWorkqueueWorkerInitialized (the_overlay m) = false;
  mi_pending : guestWorkqueuePendingUpcall (the_overlay m) = None;
  mi_idle : guestWorkqueueUpcallActive (the_overlay m) = false /\ guestWorkqueueRestoreRequested (the_overlay m) = false /\
    guestWorkqueueWaitingContextValid (the_overlay m) = false;
  mi_history : asked m = [] /\ fetched m = [] /\ prepared m = [] /\ entered m = [];
}.

Inductive machine_reachable : machine P -> Prop :=
  | mr_initial m : machine_initial m -> machine_reachable m
  | mr_step m m' : machine_reachable m -> machine_step m m' -> machine_reachable m'.

(** The events among jobs, and the fetched events that became upcalls. *)
Definition events_of (js : list GuestWorkqueueJob) : list GuestWorkqueueDelivery := omap delivery js.
Definition kept (f : list (GuestWorkqueueDelivery * bool)) : list GuestWorkqueueDelivery := fst <$> List.filter snd f.

(** The upcall that a job becomes. *)
Definition upcall_of (pthread : Z) (reuse : bool) (j : GuestWorkqueueJob) : GuestWorkqueuePendingUpcall :=
  {| eventList := if delivery j is Some _ then event_list pthread else 0;
     eventCount := if delivery j is Some _ then 1 else 0; stackPointer := stack_pointer pthread;
     flags := upcall_flags reuse (delivery j) (priority j) |}.

#[local] Abbreviation pending m := (guestWorkqueuePendingUpcall (the_overlay m)).
#[local] Abbreviation active m := (guestWorkqueueUpcallActive (the_overlay m)).
#[local] Abbreviation allocation m := (guestWorkqueueAllocation (the_worker m)).
#[local] Abbreviation pthread m := (guestWorkqueuePthread (the_worker m)).
#[local] Abbreviation thread_list m := (guestThreads (threads (base m))).
#[local] Abbreviation requests m := (guestWorkqueueRequests (queue_of m)).

(** ** What the pump changes *)

(** Everything but memory, the queue, the worker, the pending upcall and the jobs
    and events taken. *)
Record framed (m m' : machine P) : Prop := {
  f_jit : jit m' = jit m;
  f_thread : guestCurrentThreadId m' = guestCurrentThreadId m;
  f_rotation : guestThreadRotationRequested m' = guestThreadRotationRequested m;
  f_threads : thread_list m' = thread_list m;
  f_asked : asked m' = asked m;
  f_entered : entered m' = entered m;
  f_worker : allocation m <> 0 -> the_worker m' = the_worker m;
}.

Lemma framed_trans a b c : framed a b -> framed b c -> framed a c.
Proof.
  intros [] []. split; try congruence. intros Ha. rewrite f_worker1; [by apply f_worker0|]. by rewrite f_worker0.
Qed.

Lemma framed_refl m : framed m m.
Proof. by split. Qed.

(** A range of the guest's never begins at 0. *)
Lemma mmap_not_null env sz prot fl s a s' :
  0 <= sz -> Dynarmic_mmap env 0 sz prot fl (-1) 0 DYN_PAGE_MASK false s = Some (Ret a, s') -> a <> 0.
Proof.
  intros Hs. unfold Dynarmic_mmap. destruct (mmap_arguments_valid 0 sz prot); cbn [negb]; [|done].
  destruct (mem_reserve_spec env 0 sz (has_flag fl MAP_FIXED) DYN_PAGE_MASK s) as (o & -> & Ho); [done..|].
  cbn [mbind option_bind]. destruct o as [[e|[b rs]] s1]; [done|].
  destruct (mmap_host_call env prot sz fl (-1) 0 false) as [[ma bytes]|e]; [|done].
  destruct (calloc_backing env =? 0); [done|]. destruct (fold_opt _ _ _); [|done]. cbn [mbind option_bind]. intros [= <- _].
  destruct Ho as [[_ [Hp _] [Hb He] _ _ _ _ _ _] _]. rewrite u32_small; unfold DYN_PAGE_SIZE, U32_MOD in *; lia.
Qed.

Lemma pthread_bytes_nonneg : can_start r = true -> 0 <= worker_bytes r.
Proof.
  unfold can_start, worker_bytes, pthread_bytes. intros Hc. zb.
  assert (0 <= Z.land (guest_bsdthread_pthread_size r + DYN_PAGE_MASK) (u64_not DYN_PAGE_MASK)).
  { apply Z.land_nonneg. left. unfold DYN_PAGE_MASK. lia. }
  unfold GuestWorkqueueGuardSize, GuestWorkqueueStackSize, DYN_PAGE_SIZE. lia.
Qed.

(** [EnsureGuestWorkqueueWorker] touches the worker and memory only. *)
Lemma ensure_frame h m b m' :
  EnsureGuestWorkqueueWorker h r m = Some (b, m') ->
  framed m m' /\ the_overlay m' = the_overlay m /\ prepared m' = prepared m /\ queue_of m' = queue_of m /\
  (b = true -> allocation m' <> 0) /\ fetched m' = fetched m /\ ports (base m') = ports (base m).
Proof.
  unfold EnsureGuestWorkqueueWorker. destruct (Z.eqb_spec (allocation m) 0) as [Ha|Ha]; cbn [negb].
  2:{ intros [= _ <-]. by split_and!; [apply framed_refl|..]. }
  destruct (can_start r) eqn:Hc; [|by intros [= <- <-]; split_and!; [apply framed_refl|..]].
  destruct (worker_sizes_ok r); cbn [negb orb]; [|by intros [= <- <-]; split_and!; [apply framed_refl|..]].
  destruct (Dynarmic_mmap _ _ _ _ _ _ _ _ _ _) as [[mapped s]|] eqn:Em; cbn; [|done].
  destruct mapped as [a|e]; [|by intros [= <- <-]; split_and!; [split|..]].
  apply mmap_not_null in Em; [|by apply pthread_bytes_nonneg].
  destruct (_ && _).
  - intros [= <- <-]. split_and!; try done. split; try done. cbn. by destruct (guestWorkqueueThreadSelfId _ =? 0).
  - destruct (Dynarmic_munmap _ _ _) as [[u s']|]; cbn; [|done]. by intros [= <- <-]; split_and!; [split|..].
Qed.

Lemma prepare_frame h d p m b m' :
  PrepareGuestWorkqueueUpcall h r d p m = Some (b, m') ->
  framed m m' /\ queue_of m' = queue_of m /\ fetched m' = fetched m /\
  if b then exists j, delivery j = d /\ (d = None -> priority j = p) /\ prepared m' = prepared m ++ [j] /\
    active m = false /\ pending m = None /\ allocation m' <> 0 /\
    the_overlay m' =
      with_pending (Some (upcall_of (pthread m') (guestWorkqueueWorkerInitialized (the_overlay m)) j)) (the_overlay m)
  else the_overlay m' = the_overlay m /\ prepared m' = prepared m.
Proof.
  unfold PrepareGuestWorkqueueUpcall. destruct (EnsureGuestWorkqueueWorker h r m) as [[ok m1]|] eqn:Ee; [|done].
  apply ensure_frame in Ee as (Hf & Ho & Hp & Hq & Ha & Hfe & _). cbn. rewrite Ho.
  destruct ok; cbn [negb orb]; [|intros [= <- <-]; by split_and!].
  destruct (active m) eqn:Hac; cbn [orb]; [intros [= <- <-]; by split_and!|].
  case_bool_decide as Hpe; [intros [= <- <-]; by split_and!|].
  assert (pending m = None) as Hnone by (destruct (pending m); [by destruct Hpe|done]).
  set (st := match d with Some _ => _ | None => _ end). destruct st as [stored s] eqn:Es; cbn.
  assert (framed m (put_memory s m1)) as Hf' by (destruct Hf; by split).
  destruct stored; cbn [negb]; [|intros [= <- <-]; by split_and!].
  intros [= <- <-]. split; [destruct Hf'; by split|]. split_and!; [done..|].
  eexists {| Workqueue.delivery := d; Workqueue.priority := _ |}. cbn. split_and!; [done| |by rewrite Hp|done..|by apply Ha|done].
  by intros ->.
Qed.


Lemma with_same_pending (m : machine P) : with_pending (pending m) (the_overlay m) = the_overlay m.
Proof. by destruct (the_overlay m). Qed.

(** The pump prepares at most one job, accounts for the requests, and notes what it
    fetches. *)
Lemma pump_frame stop h m b m' :
  PumpGuestWorkqueue mach_msg r stop h m = Some (b, m') ->
  framed m m' /\ exists js fs, prepared m' = prepared m ++ js /\ fetched m' = fetched m ++ fs /\
  owed (requests m) = roots js ++ owed (requests m') /\ events_of js = kept fs /\
  if b then exists j, js = [j] /\ active m = false /\ pending m = None /\ allocation m' <> 0 /\
    the_overlay m' =
      with_pending (Some (upcall_of (pthread m') (guestWorkqueueWorkerInitialized (the_overlay m)) j)) (the_overlay m)
  else js = [] /\ the_overlay m' = the_overlay m.
Proof.
  unfold PumpGuestWorkqueue. destruct (_ || _ || _).
  { intros [= <- <-]. split; [apply framed_refl|]. exists [], []. by rewrite !app_nil_r. }
  destruct (EnsureGuestWorkqueueWorker h r m) as [[ok m1]|] eqn:Ee; [|done].
  apply ensure_frame in Ee as (Hf & Ho & Hp & Hq & Ha & Hfe & _). cbn.
  destruct ok; cbn [negb]; [|intros [= <- <-]; split; [done|]; exists [], []; by rewrite !app_nil_r, Hp, Hq].
  set (m2 := put_queue _ m1). assert (framed m m2) as Hf2 by (destruct Hf; by split).
  assert (owed (requests m) = owed (drop_finished (requests m1))) as Hr by (by rewrite owed_finished, Hq).
  rewrite Hr. destruct (drop_finished (requests m1)) as [|q rest] eqn:Ed.
  - destruct (NextGuestWorkqueueEvent _ _ _ _ _ _) as [[d w] p] eqn:En.
    set (m3 := with_base _ m2). assert (framed m m3) as Hf3 by (destruct Hf2; by split).
    assert (requests m3 = []) as Hr3.
    { by destruct (event_queues _ _ _ _ _ _ _ _ _ En) as [Hrq _]. }
    destruct d as [d|].
    2:{ intros [= <- <-]. split; [done|]. exists [], []. by rewrite !app_nil_r, Hr3; cbn; rewrite Hp, Hfe, Ho. }
    destruct (PrepareGuestWorkqueueUpcall h r (Some d) 0 m3) as [[ok m4]|] eqn:Eprep; [|done]. cbn. intros [= <- <-].
    apply prepare_frame in Eprep as (Hg & Hgq & Hgf & Hb).
    split; [assert (framed m m4) as [] by (by eapply framed_trans); by split|].
    set (m5 := with_fetched _ m4). change (requests m5) with (requests m4). rewrite Hgq, Hr3.
    change (fetched m5) with (fetched m4 ++ [(d, ok)]). rewrite Hgf. change (fetched m3) with (fetched m1). rewrite Hfe.
    destruct ok.
    2:{ destruct Hb as [Hb1 Hb2]. exists [], [(d, false)]. subst m5. cbn. by rewrite app_nil_r, Hb1, Hb2; cbn; rewrite Hp, Ho. }
    destruct Hb as (j & Hd & _ & Hpj & Hac & Hpe & Hal & Hov). subst m5. cbn in *.
    exists [j], [(d, true)]. rewrite Hpj, Hp, Hov, Ho. cbn. rewrite Hd. split_and!; try done.
    exists j. rewrite Ho in *. by rewrite Hac.
  - destruct (PrepareGuestWorkqueueUpcall h r None _ m2) as [[ok m3]|] eqn:Ep; [|done]. cbn.
    apply prepare_frame in Ep as (Hg & Hgq & Hgf & Hb).
    assert (framed m m3) as Hf3 by (by eapply framed_trans).
    destruct ok; cbn [negb]; intros [= <- <-].
    2:{ split; [done|]. destruct Hb as [Hb1 Hb2]. exists [], []. rewrite !app_nil_r, Hb1, Hb2, Hgq, Hgf. cbn. by rewrite Hp, Hfe, Ho. }
    destruct Hb as (j & Hd & Hpr & Hpj & Hac & Hpe & Hal & Hov). cbn in *. split; [destruct Hf3; by split|].
    exists [j], []. cbn. rewrite app_nil_r, Hpj, Hgf, Hp, Hov, Ho. cbn. rewrite Hd, Hpr by done.
    apply finished_head in Ed.
    split_and!; try done.
    + cbn. by replace (Z.to_nat (remaining q)) with (S (Z.to_nat (remaining q - 1))) by lia.
    + exists j. rewrite Ho in *. by rewrite Hac.
Qed.






(** ** The invariant *)

#[local] Abbreviation waiting_valid m := (guestWorkqueueWaitingContextValid (the_overlay m)).
#[local] Abbreviation waiting m := (guestWorkqueueWaitingContext (the_overlay m)).
#[local] Abbreviation restoring m := (guestWorkqueueRestoreRequested (the_overlay m)).
#[local] Abbreviation initialized m := (guestWorkqueueWorkerInitialized (the_overlay m)).

(** What was asked for was prepared or is owed, in this order; the events among the
    jobs prepared are those fetched that were not lost; the upcalls entered and the
    pending one are the jobs prepared; and an upcall is active exactly while a
    thread waits. *)
Record machine_ok (m : machine P) : Prop := {
  mo_waiting : active m = waiting_valid m;
  mo_pending : is_Some (pending m) -> active m = false;
  mo_restore : restoring m = true -> active m = true;
  mo_asked : asked m = roots (prepared m) ++ owed (requests m);
  mo_fetched : events_of (prepared m) = kept (fetched m);
  mo_entered : entered m ++ option_list (pending m) =
    imap (fun i => upcall_of (pthread m) (negb (i =? 0)%nat)) (prepared m);
  mo_initialized : initialized m = negb (length (entered m) =? 0)%nat;
  mo_worker : prepared m <> [] -> allocation m <> 0;
  mo_active : active m = true -> entered m <> [];
}.

(** Steps that leave the queue's requests, the upcalls and the history alone. *)
Record quiet (m m' : machine P) : Prop := {
  q_overlay : exists mask, the_overlay m' = with_mask mask (the_overlay m);
  q_worker : the_worker m' = the_worker m;
  q_requests : requests m' = requests m;
  q_history : asked m' = asked m /\ fetched m' = fetched m /\ prepared m' = prepared m /\ entered m' = entered m;
  q_active : active m = true -> guestCurrentThreadId m' = guestCurrentThreadId m /\
    exists ts, thread_list m' = thread_list m ++ ts;
}.

Lemma quiet_machine_ok m m' : quiet m m' -> machine_ok m -> machine_ok m'.
Proof. intros [[mask Ho] Hw Hr (Ha & Hf & Hp & He) _] []. by split; rewrite ?Ho, ?Hw, ?Hr, ?Ha, ?Hf, ?Hp, ?He. Qed.

Lemma same_mask o : exists mask, o = with_mask mask o.
Proof. by exists (guestWorkqueueSignalMask o); destruct o. Qed.

Lemma quiet_same m : quiet m m.
Proof. split; try done; [apply same_mask|]. intros _. split; [done|]. exists []. by rewrite app_nil_r. Qed.

(** How a step moves the processor between the guest's threads and the worker. *)
Definition stays (m m' : machine P) : Prop :=
  active m' = active m /\ waiting m' = waiting m /\
  (active m = true -> guestCurrentThreadId m' = guestCurrentThreadId m /\ exists ts, thread_list m' = thread_list m ++ ts).

Lemma stays_intro m m' :
  active m' = active m -> waiting m' = waiting m -> guestCurrentThreadId m' = guestCurrentThreadId m ->
  (exists ts, thread_list m' = thread_list m ++ ts) -> stays m m'.
Proof. intros ????. by split_and!. Qed.

(** The worker of a pending upcall takes the processor. *)
Record enters (m m' : machine P) : Prop := {
  en_active : active m = false /\ active m' = true;
  en_waiting : waiting m' = jit m;
  en_thread : guestCurrentThreadId m' = guestCurrentThreadId m;
  en_threads : thread_list m' = thread_list m;
  en_memory : memory_of m' = memory_of m;
  en_mask : forall mask, current_mask m = Some mask -> current_mask m' = Some mask;
  en_upcall : exists u, pending m = Some u /\ entered m' = entered m ++ [u] /\
    jit m' = worker_context r (pthread m) (guestWorkqueueThreadPort (the_worker m))
      (guestWorkqueueStackBottom (the_worker m)) (eventList u) (flags u) (eventCount u) (stackPointer u);
}.

(** It gives it back. *)
Record leaves (m m' : machine P) : Prop := {
  le_active : active m = true /\ active m' = false;
  le_jit : jit m' = waiting m;
  le_thread : guestCurrentThreadId m' = guestCurrentThreadId m;
  le_threads : thread_list m' = thread_list m;
}.

Definition moves (m m' : machine P) : Prop := stays m m' \/ enters m m' \/ leaves m m'.

Lemma quiet_stays m m' : quiet m m' -> stays m m'.
Proof. intros [[mask Ho] _ _ _ Ha]. by split; rewrite ?Ho. Qed.

Lemma imap_snoc {A B} (f : nat -> A -> B) l x : imap f (l ++ [x]) = imap f l ++ [f (length l) x].
Proof. by rewrite imap_app; cbn; rewrite Nat.add_0_r. Qed.

(** The pump keeps the invariant. *)
Lemma pump_ok stop h m b m' :
  machine_ok m -> PumpGuestWorkqueue mach_msg r stop h m = Some (b, m') ->
  machine_ok m' /\ framed m m' /\ active m' = active m /\ waiting m' = waiting m.
Proof.
  intros Hok Hp. apply pump_frame in Hp as (Hf & js & fs & Hjs & Hfs & Ho & Hev & Hb). destruct Hok.
  assert (events_of (prepared m') = kept (fetched m')) as Hfe.
  { rewrite Hjs, Hfs. unfold events_of, kept in *. rewrite omap_app, List.filter_app, fmap_app. by f_equal. }
  assert (asked m' = roots (prepared m') ++ owed (requests m')) as Hasked.
  { rewrite (f_asked _ _ Hf), mo_asked0, Ho, Hjs, roots_app. by rewrite app_assoc. }
  assert (forall m2 : machine P, prepared m <> [] -> framed m m2 -> the_worker m2 = the_worker m) as Hw
    by (intros m2 Hne [?????? Hw]; by apply Hw, mo_worker0).
  assert (imap (fun i => upcall_of (pthread m') (negb (i =? 0)%nat)) (prepared m) =
          imap (fun i => upcall_of (pthread m) (negb (i =? 0)%nat)) (prepared m)) as Him.
  { destruct (prepared m) as [|j l] eqn:E; [done|]. by rewrite (Hw m') by done. }
  destruct b.
  - destruct Hb as (j & -> & Hac & Hpe & Hal & Hov). split; [|by rewrite Hov].
    rewrite Hpe, app_nil_r in mo_entered0.
    split; rewrite ?Hov, ?(f_entered _ _ Hf); try done. cbn. rewrite Hjs, imap_snoc, Him, <- mo_entered0, mo_initialized0.
    assert (length (entered m) = length (prepared m)) as -> by (by rewrite mo_entered0, length_imap). done.
  - destruct Hb as (-> & Hov). rewrite app_nil_r in Hjs. split; [|by rewrite Hov].
    split; rewrite ?Hov, ?(f_entered _ _ Hf), ?Hjs; try done; [by rewrite <- Hjs|by rewrite <- Hjs|by rewrite Him|].
    intros Hne. rewrite (Hw m') by done. by apply mo_worker0.
Qed.

Lemma framed_threads m m' : framed m m' ->
  guestCurrentThreadId m' = guestCurrentThreadId m /\ exists ts, thread_list m' = thread_list m ++ ts.
Proof. intros [? -> ? -> ? ? ?]. split; [done|]. exists []. by rewrite app_nil_r. Qed.

(** The switch between cooperative threads, which an upcall holds up. *)
Lemma rotation_quiet attached next m : quiet m (thread_transition attached next m).2.
Proof.
  unfold thread_transition, GuestWorkqueueActiveForCurrentThread.
  destruct (_ || _ || _) eqn:E; [apply quiet_same|]. rewrite !orb_false_iff in E. destruct E as [[_ E] _].
  destruct next as [[c id]|]; cbn; (split; try done; [apply same_mask|by rewrite E]).
Qed.

(** The transition at a safe point. *)
Lemma workqueue_transition stop attached h m b m' :
  machine_ok m -> HandleGuestWorkqueueTransition mach_msg r stop attached h m = Some (b, m') ->
  machine_ok m' /\ moves m m' /\ (attached = true -> GuestWorkqueueTransitionPending m = true -> b = true).
Proof.
  intros Hok. unfold HandleGuestWorkqueueTransition, GuestWorkqueueTransitionPending.
  destruct attached; cbn [negb]; [|intros [= _ <-]; split_and!; [done|left; by apply quiet_stays, quiet_same|done]].
  pose proof Hok as [Hw Hpe Hre Ha Hfe He Hi Hwk]. destruct (restoring m) eqn:Er.
  - rewrite <- Hw, Hre by done. cbn [negb orb]. set (m1 := with_overlay _ _).
    assert (pending m = None) as Hn by (destruct (pending m); [by rewrite Hre in Hpe; [discriminate Hpe|]|done]).
    assert (machine_ok m1) as Hok1 by (split; cbn; rewrite ?Hn; try done; by rewrite Hn in He).
    destruct (PumpGuestWorkqueue _ _ _ _ m1) as [[t m2]|] eqn:Ep; [|done]. cbn. intros [= <- <-].
    destruct (pump_ok _ _ _ _ _ Hok1 Ep) as ([] & [] & Hac & Hwt). split_and!; [by destruct t| |done].
    right. right. by destruct t; split; cbn; rewrite ?f_jit0, ?f_threads0, ?Hac, ?Hre.
  - destruct (pending m) as [u|] eqn:Hp; [|intros [= _ <-]; split_and!; [done|left; by apply quiet_stays, quiet_same|done]].
    rewrite Hpe by done. intros [= <- <-]. split_and!; [| |done].
    + split; cbn; try done; [|by rewrite length_app, Nat.add_comm|by destruct (entered m)]. by rewrite app_nil_r.
    + right. left. split; cbn; try done; [by rewrite Hpe| |by exists u].
      intros mask. unfold current_mask, GuestWorkqueueActiveForCurrentThread. cbn. rewrite Hpe by done.
      by destruct (living _ _).
Qed.

Lemma context_transition stop attached h next m b m' :
  machine_ok m -> HandleGuestContextTransition mach_msg r stop attached h next m = Some (b, m') ->
  machine_ok m' /\ moves m m'.
Proof.
  intros Hok. unfold HandleGuestContextTransition. destruct (GuestWorkqueueTransitionPending m).
  - intros Ht. by destruct (workqueue_transition _ _ _ _ _ _ Hok Ht) as (? & ? & _).
  - intros [= Ht]. pose proof (rotation_quiet attached next m) as Hq. rewrite Ht in Hq.
    split; [by eapply quiet_machine_ok|left; by apply quiet_stays].
Qed.

Lemma call_step stop h c m m' :
  machine_ok m -> call_workqueue mach_msg r stop h c m = Some m' -> machine_ok m' /\ moves m m'.
Proof.
  intros Hok. unfold call_workqueue. destruct (run_call _ _ _ _) as [a w] eqn:Er. apply call_owed in Er.
  set (m1 := with_history _ _ _ _). assert (machine_ok m1) as Hok1.
  { destruct Hok. split; cbn; try done. by rewrite Er, mo_asked0, app_assoc. }
  assert (forall o, (if pumps a then PumpGuestWorkqueue mach_msg r stop h m1 else Some (false, m1)) = Some o ->
    machine_ok o.2 /\ framed m1 o.2 /\ active o.2 = active m /\ waiting o.2 = waiting m) as Hpump.
  { intros [b m2]. destruct (pumps a).
    { intros Hp. by destruct (pump_ok _ _ _ _ _ Hok1 Hp) as (? & ? & ? & ?). }
    intros [= _ <-]. split_and!; [done|apply framed_refl|done..]. }
  destruct (if pumps a then _ else _) as [[b m2]|]; [|done]. destruct (Hpump _ eq_refl) as (Hok2 & Hf & Ha & Hw).
  clear Hpump. cbn in Hok2, Hf, Ha, Hw. apply framed_threads in Hf as [Hc Hts].
  set (m3 := on_jit_context (set_result (value a) (carry a)) m2). assert (machine_ok m3) as Hok3 by (by destruct Hok2; split).
  unfold GuestWorkqueueActiveForCurrentThread. cbn [mbind option_bind].
  intros [= <-]. cbn [the_overlay on_jit_context with_processor]. destruct (active m2 && returns c a) eqn:Eb.
  - apply andb_true_iff in Eb as [Eb _]. split; [by destruct Hok3; split|left; by apply stays_intro].
  - split; [done|left; by apply stays_intro].
Qed.

Lemma timer_step stop h m m' :
  machine_ok m -> TimerReady mach_msg r stop h m = Some m' -> machine_ok m' /\ moves m m'.
Proof.
  intros Hok. unfold TimerReady. destruct stop; [intros [= <-]; split; [done|left; by apply quiet_stays, quiet_same]|].
  destruct (PumpGuestWorkqueue _ _ _ _ _) as [[t m1]|] eqn:Ep; [|done]. cbn. intros [= <-].
  destruct (pump_ok _ _ _ _ _ Hok Ep) as (Hok1 & Hf & Ha & Hw). apply framed_threads in Hf as [Hc Hts].
  destruct t; (split; [by destruct Hok1; split|left; by apply stays_intro]).
Qed.

Lemma sigmask_quiet how set old m : quiet m (GuestThreadSigmask how set old m).2.
Proof.
  assert (forall s, quiet m (put_memory s m)) as Hs.
  { intros s. split; try done; [apply same_mask|]. intros _. split; [done|]. exists []. cbn. by rewrite app_nil_r. }
  assert (forall mask s, quiet m (put_mask mask (put_memory s m))) as Hm.
  { intros mask s. unfold put_mask, GuestWorkqueueActiveForCurrentThread. cbn. destruct (active m) eqn:Ha.
    - split; try done; [by exists mask|]. intros _. split; [done|]. exists []. cbn. by rewrite app_nil_r.
    - split; try done; [apply same_mask|by rewrite Ha]. }
  unfold GuestThreadSigmask. destruct (current_mask m) as [o|]; [|apply quiet_same].
  destruct (if old =? 0 then _ else _) as [stored s]. destruct (negb _); [apply Hs|]. destruct (set =? 0); [apply Hs|].
  destruct (Dynarmic_mem_1read _ _ _ _); [|apply Hs].
  repeat (destruct (_ =? _); [apply Hm|]). apply Hs.
Qed.

Lemma machine_moves m m' : machine_ok m -> machine_step m m' -> machine_ok m' /\ moves m m'.
Proof.
  intros Hok Hs.
  assert (quiet m m' -> machine_ok m' /\ moves m m') as Hq.
  { intros Hq. split; [by eapply quiet_machine_ok|left; by apply quiet_stays]. }
  assert (forall c id rot stop, (active m = true -> id = guestCurrentThreadId m) ->
    quiet m (with_processor c id rot stop m)) as Hproc.
  { intros c id rot stop Hid. split; try done; [apply same_mask|]. intros Ha. split; [by apply Hid|].
    exists []. cbn. by rewrite app_nil_r. }
  destruct Hs as [m c n Hn|stop h c m m' Hc|how set old m|busy found m|m|executing m|m q answer next q' Hq1 Hq2
    |stop h m m' Ht|m p|stop attached h next m b m' Ht|stop attached h next m b m' Ht].
  - apply Hq. split; try done; [apply same_mask|]. intros Ha. split; [done|]. by apply Hn.
  - by apply (call_step stop h c).
  - apply Hq, sigmask_quiet.
  - apply Hq. unfold GuestThreadRequestRotation. destruct (_ || _); [apply quiet_same|by apply Hproc].
  - apply Hq. unfold park_rotation. destruct (GuestWorkqueueActiveForCurrentThread m); [apply quiet_same|by apply Hproc].
  - apply Hq. unfold finish_call. destruct (executing && _); [by apply Hproc|apply quiet_same].
  - apply Hq. split; try done; [apply same_mask|]. intros _. split; [done|]. exists []. cbn. by rewrite app_nil_r.
  - by apply (timer_step stop h).
  - apply Hq. split; try done; [apply same_mask|]. intros _. split; [done|]. exists []. cbn. by rewrite app_nil_r.
  - by apply (context_transition stop attached h next _ b).
  - unfold run_transition in Ht. set (m0 := with_processor _ _ _ _ m) in Ht.
    assert (machine_ok m0) as Hok0 by (by destruct Hok; split).
    destruct (GuestContextTransitionPending m0).
    + apply context_transition in Ht as [Hok' Hm]; [|done]. split; [done|].
      destruct Hm as [Hm|[Hm|Hm]]; [by left|right; left|right; right]; by destruct Hm; split.
    + injection Ht as <- <-. apply Hq, Hproc. done.
Qed.

Lemma machine_reachable_ok m : machine_reachable m -> machine_ok m.
Proof.
  induction 1 as [m Hi|m m' _ IH Hs]; [|by apply (machine_moves m)].
  destruct Hi as [Hr Hw Hi Hp (Ha & Hre & Hv) (Hh1 & Hhf & Hh2 & Hh3)].
  split; rewrite ?Ha, ?Hre, ?Hv, ?Hp, ?Hh1, ?Hhf, ?Hh2, ?Hh3, ?Hr, ?Hi; try done.
Qed.

(** ** What an interrupted thread sees *)

(** Steps under an upcall. *)
Definition upcall_step (m m' : machine P) : Prop := machine_step m m' /\ active m' = true.

Lemma upcall_keeps m m' :
  machine_ok m -> active m = true -> rtc upcall_step m m' ->
  machine_ok m' /\ active m' = true /\ waiting m' = waiting m /\
  guestCurrentThreadId m' = guestCurrentThreadId m /\ exists ts, thread_list m' = thread_list m ++ ts.
Proof.
  intros Hok Ha Hr. induction Hr as [m|m m1 m' [Hs Ha1] _ IH]; [split_and!; try done; exists []; by rewrite app_nil_r|].
  apply machine_moves in Hs as [Hok1 Hm]; [|done].
  destruct (IH Hok1 Ha1) as (? & ? & Hw & Hc & ts & Hts).
  destruct Hm as [(_ & Hw1 & Hc1)|[[[? ?]]|[[? ?]]]]; [|congruence..].
  destruct (Hc1 Ha) as (Hc2 & ts1 & Hts1). split_and!; try done; [congruence..|].
  exists (ts1 ++ ts). by rewrite Hts, Hts1, app_assoc.
Qed.

Lemma find_app_Some {A} (q : A -> bool) l k x : List.find q l = Some x -> List.find q (l ++ k) = Some x.
Proof. induction l as [|y l IH]; [done|]. cbn. by destruct (q y). Qed.

(** C35: an upcall is transparent.  Whatever system calls, timers, masks and guest code
    do between the step that enters a worker and the step that ends it, the thread
    that was interrupted goes on with the registers it had, under its own identity
    and signal mask; and the worker starts with the registers libpthread expects,
    the memory as it was and the mask of the thread it interrupts. *)
Theorem upcall_transparent m0 m1 m2 m3 :
  machine_reachable m0 -> machine_step m0 m1 -> active m0 = false -> active m1 = true ->
  rtc upcall_step m1 m2 -> machine_step m2 m3 -> active m3 = false ->
  enters m0 m1 /\ jit m3 = jit m0 /\ guestCurrentThreadId m3 = guestCurrentThreadId m0 /\
  (forall mask, current_mask m0 = Some mask -> current_mask m3 = Some mask) /\
  exists ts, thread_list m3 = thread_list m0 ++ ts.
Proof.
  intros Hr H01 Ha0 Ha1 Hu H23 Ha3. apply machine_reachable_ok in Hr.
  destruct (machine_moves _ _ Hr H01) as [Hok1 [[Hm _]|[He|[[Hm _]]]]]; [congruence| |congruence].
  destruct (upcall_keeps _ _ Hok1 Ha1 Hu) as (Hok2 & Ha2 & Hw & Hc & ts & Hts).
  destruct (machine_moves _ _ Hok2 H23) as [_ [[Hm _]|[[[Hm _]]|[_ Hj Hc3 Ht3]]]]; [congruence..|].
  destruct He as [Hea Hew Het Hth Hem Hek Heu].
  assert (thread_list m3 = thread_list m0 ++ ts) as Ht by congruence.
  assert (guestCurrentThreadId m3 = guestCurrentThreadId m0) as Hcur by congruence.
  split_and!; [by split|congruence|done| |by exists ts].
  intros mask. unfold current_mask, GuestWorkqueueActiveForCurrentThread. rewrite Ha0, Ha3, Ht, Hcur.
  intros (t & Hl & ->)%fmap_Some. unfold living in *. by rewrite (find_app_Some _ _ ts _ Hl).
Qed.


End system.

(** ** A concrete processor *)

#[local] Existing Instance TimerQueue.key_order.

Definition demo_host : worker_host :=
  {| worker_env := env (granting_start 0); port_allocate := (KERN_SUCCESS, 0x1103); insert_right := KERN_SUCCESS |}.

(** No port is left (KERN_NO_SPACE). *)
Definition portless_host : worker_host :=
  {| worker_env := env (granting_start 0); port_allocate := (3, 0); insert_right := KERN_SUCCESS |}.

Definition idle_overlay : overlay :=
  {| guestWorkqueueWorkerInitialized := false; guestWorkqueueSignalMask := 0; guestWorkqueuePendingUpcall := None;
     guestWorkqueueUpcallActive := false; guestWorkqueueRestoreRequested := false;
     guestWorkqueueOverlayCurrent := false; guestWorkqueueWaitingContext := zero_context;
     guestWorkqueueWaitingContextValid := false; guestWorkqueueWaitingThreadId := 0 |}.

Definition demo_machine : machine unit :=
  {| base := demo_pool; the_worker := no_worker 0; the_overlay := idle_overlay;
     jit := {| regs := seqZ 1 16; extRegs := replicate 64 7; cpsr := 0x10; fpscr := 3; uro := 0x2000 |};
     guestCurrentThreadId := 1; guestThreadRotationRequested := false; halted := false;
     asked := []; fetched := []; prepared := []; entered := [] |}.

Definition result (o : option (machine unit)) : machine unit := from_option id demo_machine o.

Lemma result_Some o : match o with Some _ => true | None => false end = true -> o = Some (result o).
Proof. by destruct o. Qed.

Definition demo_hosts (_ : nat) := (TimerQueue.good_create, TimerQueue.accepting).

(** One worker is asked for, entered, and returns. *)
Definition requesting : machine unit :=
  result (call_workqueue quiet_ports demo_registration false demo_host demo_call demo_machine).
Definition working : machine unit :=
  result (snd <$> HandleGuestContextTransition quiet_ports demo_registration false true demo_host None requesting).
Definition returning : machine unit :=
  result (call_workqueue quiet_ports demo_registration false demo_host
            (Kernreturn demo_hosts WQOPS_THREAD_RETURN 0 0 0) working).
Definition resumed : machine unit :=
  result (snd <$> HandleGuestContextTransition quiet_ports demo_registration false true demo_host None returning).

Lemma service_step o m : 
  o = HandleGuestContextTransition quiet_ports demo_registration false true demo_host None m ->
  match snd <$> o with Some _ => true | None => false end = true ->
  machine_step quiet_ports demo_registration m (result (snd <$> o)).
Proof. intros -> Ho. destruct (HandleGuestContextTransition _ _ _ _ _ _ m) as [[b m']|] eqn:E; [|done]. by eapply ms_service. Qed.

Lemma demo_initial : machine_initial demo_machine.
Proof. by split. Qed.

Lemma requesting_step : machine_step quiet_ports demo_registration demo_machine requesting.
Proof. eapply ms_call, result_Some. vm_compute. reflexivity. Qed.

Lemma requesting_reachable : machine_reachable quiet_ports demo_registration requesting.
Proof. eapply mr_step; [apply mr_initial, demo_initial|exact requesting_step]. Qed.

Lemma working_step : machine_step quiet_ports demo_registration requesting working.
Proof. apply service_step; [done|]. vm_compute. reflexivity. Qed.

Lemma returning_step : machine_step quiet_ports demo_registration working returning.
Proof. eapply ms_call, result_Some. vm_compute. reflexivity. Qed.

Lemma resumed_step : machine_step quiet_ports demo_registration returning resumed.
Proof. apply service_step; [done|]. vm_compute. reflexivity. Qed.

Lemma upcall_transparent_witness :
  guestWorkqueueUpcallActive (the_overlay working) = true /\
  regs (jit resumed) = <[0%nat := 0]> (seqZ 1 16) /\ jit resumed = jit requesting.
Proof.
  split; [vm_compute; reflexivity|]. split; [vm_compute; reflexivity|].
  assert (guestWorkqueueUpcallActive (the_overlay requesting) = false) as Ha0 by (vm_compute; reflexivity).
  assert (guestWorkqueueUpcallActive (the_overlay working) = true) as Ha1 by (vm_compute; reflexivity).
  assert (guestWorkqueueUpcallActive (the_overlay returning) = true) as Ha2 by (vm_compute; reflexivity).
  assert (guestWorkqueueUpcallActive (the_overlay resumed) = false) as Ha3 by (vm_compute; reflexivity).
  assert (rtc (upcall_step quiet_ports demo_registration) working returning) as Hr
    by (apply rtc_once; split; [exact returning_step|exact Ha2]).
  destruct (upcall_transparent quiet_ports demo_registration requesting working returning resumed
    requesting_reachable working_step Ha0 Ha1 Hr resumed_step Ha3) as (_ & Hj & _). exact Hj.
Defined.


(** ** A switch of threads that meets an upcall *)

(** The request finds no port; the timers' thread prepares the upcall later, while
    the guest parks its thread; the upcall goes first. *)
Definition refused : machine unit :=
  result (call_workqueue quiet_ports demo_registration false portless_host demo_call demo_machine).
Definition ticked : machine unit := result (TimerReady quiet_ports demo_registration false demo_host refused).
Definition overlaid : machine unit :=
  result (snd <$> run_transition quiet_ports demo_registration false true demo_host None (park_rotation ticked)).

Lemma refused_step : machine_step quiet_ports demo_registration demo_machine refused.
Proof. eapply ms_call, result_Some. vm_compute. reflexivity. Qed.

Lemma ticked_step : machine_step quiet_ports demo_registration refused ticked.
Proof. eapply ms_timer_ready, result_Some. vm_compute. reflexivity. Qed.

Lemma overlaid_step : machine_step quiet_ports demo_registration (park_rotation ticked) overlaid.
Proof.
  assert (match snd <$> run_transition quiet_ports demo_registration false true demo_host None
            (park_rotation ticked) with Some _ => true | None => false end = true) as Hs by (vm_compute; reflexivity).
  unfold overlaid. destruct (run_transition _ _ _ _ _ _ _) as [[b m']|] eqn:E; [|done]. by eapply ms_run.
Qed.

Lemma overlaid_reachable : machine_reachable quiet_ports demo_registration (finish_call true overlaid).
Proof.
  eapply mr_step; [|apply ms_finish]. eapply mr_step; [|exact overlaid_step]. eapply mr_step; [|apply ms_park].
  eapply mr_step; [|exact ticked_step]. eapply mr_step; [|exact refused_step]. apply mr_initial, demo_initial.
Qed.

Lemma rotation_refused {P} (mach_msg : mach_receive -> P -> Z * list Z * P) r (m : machine P) :
  guestWorkqueueUpcallActive (the_overlay m) = true -> guestThreadRotationRequested m = true ->
  GuestWorkqueueTransitionPending m = false ->
  halted (finish_call true m) = true /\ guestWorkqueueUpcallActive (the_overlay (finish_call true m)) = true /\
  forall stop h next, fst <$> run_transition mach_msg r stop true h next (finish_call true m) = Some false.
Proof.
  intros Ha Hr Hp. assert (finish_call true m = HaltExecution m) as ->.
  { unfold finish_call, GuestContextTransitionPending. by rewrite Hr, orb_true_r. }
  split_and!; [done..|]. intros stop h next.
  unfold run_transition, GuestContextTransitionPending, HandleGuestContextTransition.
  set (m1 := with_processor _ _ _ _ _).
  assert (GuestWorkqueueTransitionPending m1 = false) as -> by exact Hp.
  assert (guestThreadRotationRequested m1 = true) as Hr1 by exact Hr.
  assert (GuestWorkqueueActiveForCurrentThread m1 = true) as Ha1 by exact Ha.
  unfold thread_transition. by rewrite Hr1, Ha1.
Qed.

(** A switch of threads that was asked for before an upcall was entered can neither
    be done nor be forgotten under it: at the worker's first system call the
    processor stops for it, the transition is refused, and the guest is stopped with
    a trap although nothing is wrong. *)
Lemma rotation_traps_in_upcall : exists m, machine_reachable quiet_ports demo_registration m /\
  halted m = true /\ guestWorkqueueUpcallActive (the_overlay m) = true /\
  forall stop h next, fst <$> run_transition quiet_ports demo_registration stop true h next m = Some false.
Proof.
  exists (finish_call true overlaid). split; [exact overlaid_reachable|].
  apply rotation_refused; vm_compute; reflexivity.
Qed.

(** ** An event that is lost *)

(** After an upcall, with a triggered event, and the worker's stack unmapped by the
    guest. *)
Definition stackless : machine unit :=
  put_memory demo (put_queue (with_kevents [{| event := demo_event 0x100; enabled := true; triggered := true |}] None
                                (queue_of resumed)) resumed).

(** An event is taken from its registration before its upcall is prepared: when its
    worker's stack cannot be written it is gone, neither prepared nor registered as
    triggered. *)
Lemma failed_upcall_loses_event :
  (fun '(b, m) => (b, triggered <$> guestWorkqueueKevents (queue_of m), snd <$> fetched m,
                   pred (length (prepared m)), guestWorkqueuePendingUpcall (the_overlay m)))
    <$> PumpGuestWorkqueue quiet_ports demo_registration false demo_host stackless
  = Some (false, [false], [false], 0%nat, None).
Proof. vm_compute. reflexivity. Qed.

(** The same event with the stack in place becomes an upcall. *)
Lemma event_becomes_upcall :
  (fun '(b, m) => (b, triggered <$> guestWorkqueueKevents (queue_of m), length (prepared m),
                   eventCount <$> guestWorkqueuePendingUpcall (the_overlay m)))
    <$> PumpGuestWorkqueue quiet_ports demo_registration false demo_host
          (put_memory (memory_of resumed) stackless)
  = Some (true, [false], 2%nat, Some 1).
Proof. vm_compute. reflexivity. Qed.
