(* ===== verification/MachMessages.v ===== *)
(** Mach messages that the emulator answers itself: the request half of
    guest_mach_msg_trap (dynarmic_syscalls.cpp), HandleGuestSimpleMachMessage
    (guest_mach_messages.cpp) and HandleGuestExceptionPortMessage
    (guest_mach_exceptions.cpp).

    A message is a byte buffer in the host, as long as the larger of the two sizes
    the guest gives; an access outside it is [Fault].  The host's port and clock
    calls are a parameter that is asked once per request, and the requests are
    logged.  [Reject] is a failed assertion of vm_remap.  MachMessagesProps.v shows
    what the replies promise. *)

From stdpp Require Import base gmap list list_numbers.
From Stdlib Require Import ZArith Lia.
From S2P Require Import Prelude GuestMemory GuestRawMemory GuestMapping Bytes HostCalls VmTraps Workqueue.

Open Scope list_scope.
Open Scope Z_scope.

Definition MACH_SEND_MSG : Z := 0x1.
Definition MACH_MSGH_BITS_COMPLEX : Z := 0x80000000.
Definition MACH_MSG_TYPE_COPY_SEND : Z := 19.
Definition MACH_MSG_PORT_DESCRIPTOR : Z := 0.
Definition VM_INHERIT_SHARE : Z := 0.
Definition VM_INHERIT_NONE : Z := 2.
Definition MIG_TYPE_ERROR : Z := -300.
Definition MIG_BAD_ARGUMENTS : Z := -304.
Definition MIG_ARRAY_TOO_LARGE : Z := -307.
Definition NDR_record : list Z := [0; 0; 0; 0; 1; 0; 0; 0].

(** [sizeof(mach_msg_header_t)] and [sizeof(mig_reply_error_t)]; offsets in the
    header. *)
Definition sizeof_mach_msg_header_t : Z := 24.
Definition sizeof_mig_reply_error_t : Z := 36.
Definition at_bits : Z := 0.
Definition at_size : Z := 4.
Definition at_remote_port : Z := 8.
Definition at_local_port : Z := 12.
Definition at_id : Z := 20.

(** ** The host *)

(** The calls that requests are turned into; one per case label. *)
Inductive routine :=
  | host_kernel_version | host_page_size | clock_get_attributes | mach_port_rename | mach_port_allocate_name
  | mach_port_allocate | mach_port_destroy | mach_port_deallocate | mach_port_get_refs | mach_port_mod_refs
  | mach_port_set_mscount | mach_port_move_member | mach_port_set_seqno | mach_port_insert_member
  | mach_port_extract_member | mach_port_get_context | mach_port_set_context | clock_get_time.

Record mach_call := { called : routine; target : Z; arguments : list Z }.

(** The code, a scalar (a name, a count, a context, an attribute, a time), how many
    attributes there are, and the text of the version buffer. *)
Record mach_answer := { code : Z; scalar : Z; attributes : Z; version : list Z }.

(** Calls that change nothing in the port name space. *)
Definition is_query (c : mach_call) : bool :=
  match called c with
  | host_kernel_version | host_page_size | clock_get_attributes | mach_port_get_refs | mach_port_get_context
  | clock_get_time => true
  | _ => false
  end.

Record trap_state (P : Type) := { task_memory : vm; port_space : P; calls : list mach_call }.
Arguments task_memory {P}. Arguments port_space {P}. Arguments calls {P}. Arguments Build_trap_state {P}.

(** ** Replies *)

(** The buffer and the result of the trap. *)
Record reply := { text : list Z; result : Z }.

#[global] Abbreviation fallible := (outcome unit).

(** [ReplyWriter::require]. *)
Definition require (capacity size : Z) (r : reply) : fallible (bool * reply) :=
  if size <=? capacity then mret (true, r) else
  text ← store (text r) at_size (le_bytes 4 size);
  mret (false, {| text := text; result := MACH_RCV_TOO_LARGE |}).

(** [ReplyWriter::header]. *)
Definition header (size : Z) (r : reply) : fallible (list Z) :=
  h ← fetch (text r) 0 sizeof_mach_msg_header_t;
  mret (le_bytes 4 (Z.land (le_int (sub h at_bits 4)) (UINT32_MAX - MACH_MSGH_BITS_COMPLEX)) ++ le_bytes 4 size ++
        sub h at_remote_port 16).

(** The header, NDR_record and the rest of a reply, copied over the message. *)
Definition put (size : Z) (body : list Z) (r : reply) : fallible reply :=
  h ← header size r;
  text ← store (text r) 0 (h ++ NDR_record ++ body);
  mret {| text := text; result := result r |}.

(** [ReplyWriter::error]. *)
Definition error (capacity c : Z) (r : reply) : fallible reply :=
  '(fits, r) ← require capacity sizeof_mig_reply_error_t r;
  if negb fits then mret r else put sizeof_mig_reply_error_t (le_bytes 4 c) r.

(** [ReplyWriter::scalar], for a value of [n] bytes. *)
Definition scalar_reply (capacity : Z) (n : nat) (c value : Z) (r : reply) : fallible reply :=
  if negb (c =? KERN_SUCCESS) then error capacity c r else
  let size := sizeof_mig_reply_error_t + Z.of_nat n in
  '(fits, r) ← require capacity size r;
  if negb fits then mret r else put size (le_bytes 4 KERN_SUCCESS ++ le_bytes n value) r.

(** ** HandleGuestSimpleMachMessage *)

Definition routine_of (id : Z) : option routine :=
  match id with
  | 201 => Some host_kernel_version | 202 => Some host_page_size | 1001 => Some clock_get_attributes
  | 3202 => Some mach_port_rename | 3203 => Some mach_port_allocate_name | 3204 => Some mach_port_allocate
  | 3205 => Some mach_port_destroy | 3206 => Some mach_port_deallocate | 3207 => Some mach_port_get_refs
  | 3208 => Some mach_port_mod_refs | 3210 => Some mach_port_set_mscount | 3212 => Some mach_port_move_member
  | 3216 => Some mach_port_set_seqno | 3226 => Some mach_port_insert_member | 3227 => Some mach_port_extract_member
  | 3228 => Some mach_port_get_context | 3229 => Some mach_port_set_context
  | _ => None
  end.

(** [argumentCount] and [replySize]. *)
Definition argument_count (k : routine) : nat :=
  match k with
  | host_kernel_version | host_page_size | clock_get_time => 0
  | mach_port_allocate | mach_port_get_context | mach_port_destroy | mach_port_deallocate => 1
  | mach_port_mod_refs | mach_port_set_context => 3
  | _ => 2
  end.

Definition reply_size (k : routine) : Z :=
  match k with
  | host_page_size | mach_port_allocate | mach_port_get_refs => 40
  | mach_port_get_context => 44
  | _ => sizeof_mig_reply_error_t
  end.

Definition request_size (k : routine) : Z :=
  sizeof_mach_msg_header_t +
  match argument_count k with O => 0 | n => 8 + 4 * Z.of_nat n end.

Fixpoint words (n : nat) (bs : list Z) : list Z :=
  match n with O => [] | S n => le_int (take 4 bs) :: words n (drop 4 bs) end.

(** The arguments, if the data is in the representation of NDR_record. *)
Definition read_arguments (k : routine) (message : list Z) : fallible (option (list Z)) :=
  match argument_count k with
  | O => mret (Some [])
  | n =>
      ndr ← fetch message sizeof_mach_msg_header_t 8;
      if negb (bool_decide (ndr = NDR_record)) then mret None else
      bs ← fetch message (sizeof_mach_msg_header_t + 8) (4 * Z.of_nat n);
      mret (Some (words n bs))
  end.

(** The arguments as the host call takes them. *)
Definition host_arguments (k : routine) (args : list Z) : list Z :=
  match k, args with
  | mach_port_mod_refs, [name; kind; delta] => [name; kind; signed 4 delta]
  | mach_port_set_context, [name; low; high] => [name; Z.lor low (Z.shiftl high 32)]
  | _, _ => args
  end.

Definition clock_capacity (args : list Z) : Z := 40 + 4 * nth 1 args 0.

(** [strnlen(version, 512)] of the buffer. *)
Definition version_length (text : list Z) : Z := from_option id 512 (find_zero (take 512 text)).

Section messages.
Context {P : Type} (mach : mach_call -> P -> mach_answer * P) (mach_task_self : Z).
Context (env : host_env) (resize_ok : bool) (tid : Z).

#[local] Abbreviation state := (trap_state P).

Definition ask (c : mach_call) (s : state) : mach_answer * state :=
  let '(a, p) := mach c (port_space s) in
  (a, {| task_memory := task_memory s; port_space := p; calls := calls s ++ [c] |}).

(** The switch behind the preflight: the call, and its answer as a reply. *)
Definition serve (k : routine) (remote : Z) (args : list Z) (capacity : Z) (r : reply) (s : state)
    : fallible (reply * state) :=
  let call := {| called := k; target := remote; arguments := host_arguments k args |} in
  match k with
  | host_kernel_version =>
      let '(a, s) := ask call s in
      if negb (code a =? KERN_SUCCESS) then r ← error capacity (code a) r; mret (r, s) else
      let length := version_length (version a) in
      if 512 <=? length then r ← error capacity MIG_TYPE_ERROR r; mret (r, s) else
      let count := length + 1 in
      let size := 44 + Z.land (count + 3) (UINT32_MAX - 3) in
      '(fits, r) ← require capacity size r;
      if negb fits then mret (r, s) else
      r ← put size (le_bytes 4 KERN_SUCCESS ++ le_bytes 4 0 ++ le_bytes 4 count ++
                    sub (sub (version a) 0 count ++ zeros (512 - count)) 0 (size - 44)) r;
      mret (r, s)
  | host_page_size =>
      let '(a, s) := ask call s in
      r ← scalar_reply capacity 4 (code a) DYN_PAGE_SIZE r; mret (r, s)
  | clock_get_attributes =>
      if 1 <? nth 1 args 0 then r ← error capacity MIG_ARRAY_TOO_LARGE r; mret (r, s) else
      '(fits, r) ← require capacity (clock_capacity args) r;
      if negb fits then mret (r, s) else
      let '(a, s) := ask call s in
      if negb (code a =? KERN_SUCCESS) then r ← error capacity (code a) r; mret (r, s) else
      if (nth 1 args 0 <? attributes a) || (1 <? attributes a)
      then r ← error capacity MIG_TYPE_ERROR r; mret (r, s) else
      let size := 40 + 4 * attributes a in
      r ← put size (le_bytes 4 KERN_SUCCESS ++ le_bytes 4 (attributes a) ++
                    sub (le_bytes 4 (scalar a)) 0 (4 * attributes a)) r;
      mret (r, s)
  | mach_port_allocate | mach_port_get_refs =>
      let '(a, s) := ask call s in
      r ← scalar_reply capacity 4 (code a) (scalar a) r; mret (r, s)
  | mach_port_get_context =>
      let '(a, s) := ask call s in
      r ← scalar_reply capacity 8 (code a) (scalar a) r; mret (r, s)
  | _ =>
      let '(a, s) := ask call s in
      r ← error capacity (code a) r; mret (r, s)
  end.

(** [None] is the answer false: not a message of this kind. *)
Definition HandleGuestSimpleMachMessage (sendSize receiveSize requestBits : Z) (message : list Z) (s : state)
    : fallible (option (reply * state)) :=
  id ← u32_at message at_id;
  match routine_of id with
  | None => mret None
  | Some k =>
      let r := {| text := message; result := MACH_MSG_SUCCESS |} in
      size ← u32_at message at_size;
      if negb (sendSize =? request_size k) || negb (size =? sendSize) || has_flag requestBits MACH_MSGH_BITS_COMPLEX
      then r ← error receiveSize MIG_BAD_ARGUMENTS r; mret (Some (r, s)) else
      args ← read_arguments k message;
      match args with
      | None => r ← error receiveSize MIG_BAD_ARGUMENTS r; mret (Some (r, s))
      | Some args =>
          '(fits, r) ← require receiveSize (reply_size k) r;
          if negb fits then mret (Some (r, s)) else
          remote ← u32_at (text r) at_remote_port;
          o ← serve k remote args receiveSize r s; mret (Some o)
      end
  end.

(** ** HandleGuestExceptionPortMessage *)

Definition is_thread_request (id : Z) : bool := (3613 <=? id) && (id <=? 3615).
Definition is_exception_query (id : Z) : bool := (id =? 3414) || (id =? 3614).

(** The one descriptor of a request that carries a port: its count, type,
    disposition and the data representation. *)
Definition port_request_ok (count type disposition : Z) (ndr : list Z) : bool :=
  (count =? 1) && (type =? MACH_MSG_PORT_DESCRIPTOR) && (disposition =? MACH_MSG_TYPE_COPY_SEND) &&
  bool_decide (ndr = NDR_record).

Definition read_port_request (message : list Z) : fallible bool :=
  count ← u32_at message 24; disposition ← u8_at message 38; type ← u8_at message 39; ndr ← fetch message 40 8;
  mret (port_request_ok count type disposition ndr).

(** Whether the request is well formed. *)
Definition exception_request_ok (id sendSize requestBits : Z) (message : list Z) : fallible bool :=
  size ← u32_at message at_size;
  if is_exception_query id then
    if negb (size =? sendSize) || negb (sendSize =? 36) || has_flag requestBits MACH_MSGH_BITS_COMPLEX then mret false else
    ndr ← fetch message 24 8; mret (bool_decide (ndr = NDR_record))
  else
    if negb (size =? sendSize) || negb (sendSize =? 60) || negb (has_flag requestBits MACH_MSGH_BITS_COMPLEX)
    then mret false else read_port_request message.

Definition HandleGuestExceptionPortMessage (sendSize receiveSize requestBits : Z) (message : list Z)
    : fallible (option reply) :=
  id ← u32_at message at_id;
  let thread := is_thread_request id in
  if negb thread && negb (is_exception_query id) && negb (id =? 3413) && negb (id =? 3415) then mret None else
  let r := {| text := message; result := MACH_MSG_SUCCESS |} in
  '(fits, r) ← require receiveSize sizeof_mig_reply_error_t r;
  if negb fits then mret (Some r) else
  valid ← exception_request_ok id sendSize requestBits message;
  remote ← u32_at message at_remote_port;
  r ← put sizeof_mig_reply_error_t
        (le_bytes 4 (if negb valid then MIG_BAD_ARGUMENTS else
                     if negb (MACH_PORT_VALID remote) || (negb thread && negb (remote =? mach_task_self))
                     then KERN_INVALID_ARGUMENT else KERN_NOT_SUPPORTED)) r;
  mret (Some r).

(** ** Requests answered in the trap itself *)

(** Fields written in place: the size, and NDR_record with the code. *)
Definition set_size (size : Z) (r : reply) : fallible reply :=
  text ← store (text r) at_size (le_bytes 4 size); mret {| text := text; result := result r |}.

Definition set_code (c : Z) (r : reply) : fallible reply :=
  text ← store (text r) 24 NDR_record; text ← store text 32 (le_bytes 4 c); mret {| text := text; result := result r |}.

Definition set_bytes (off : Z) (bs : list Z) (r : reply) : fallible reply :=
  text ← store (text r) off bs; mret {| text := text; result := result r |}.

(** The branch for a request of the wrong size. *)
Definition write_error (rcv_size c : Z) (r : reply) : fallible reply :=
  '(fits, r) ← require rcv_size sizeof_mig_reply_error_t r;
  if negb fits then mret r else r ← set_size sizeof_mig_reply_error_t r; set_code c r.

Definition with_task_memory (v : vm) (s : state) : state :=
  {| task_memory := v; port_space := port_space s; calls := calls s |}.

Definition copy_memory (source destination size : Z) (s : state) : Z * state :=
  let '(c, v) := CopyGuestVmMemory resize_ok tid (task_memory s) source destination size in (c, with_task_memory v s).

(** mach_ports_register. *)
Definition serve_ports_register (send_size rcv_size : Z) (r : reply) (s : state) : fallible (reply * state) :=
  remote ← u32_at (text r) at_remote_port;
  '(fits, r) ← require rcv_size sizeof_mig_reply_error_t r;
  if negb fits then mret (r, s) else
  r ← put sizeof_mig_reply_error_t
        (le_bytes 4 (if negb (send_size =? 52) then MIG_BAD_ARGUMENTS else
                     if negb (remote =? mach_task_self) then KERN_INVALID_ARGUMENT else KERN_NOT_SUPPORTED)) r;
  mret (r, s).

(** clock_get_time; the time is a value of eight bytes. *)
Definition serve_clock_get_time (send_size rcv_size : Z) (r : reply) (s : state) : fallible (reply * state) :=
  if negb (send_size =? sizeof_mach_msg_header_t) then r ← write_error rcv_size MIG_BAD_ARGUMENTS r; mret (r, s) else
  '(fits, r) ← require rcv_size 44 r;
  if negb fits then mret (r, s) else
  remote ← u32_at (text r) at_remote_port;
  let '(a, s) := ask {| called := clock_get_time; target := remote; arguments := [] |} s in
  r ← set_code (code a) r;
  if code a =? KERN_SUCCESS then r ← set_bytes 36 (le_bytes 8 (scalar a)) r; r ← set_size 44 r; mret (r, s)
  else r ← set_size sizeof_mig_reply_error_t r; mret (r, s).

(** mach_port_type; [type_of] is what the host answers.  The sizes are those of the
    structures that the code lays over the message. *)
Definition serve_port_type (type_of : Z -> Z -> Z * Z) (r : reply) (s : state) : fallible (reply * state) :=
  text ← store (text r) 24 NDR_record;
  remote ← u32_at text at_remote_port; name ← u32_at text 32;
  let '(c, ptype) := type_of remote name in
  text ← (if c =? KERN_SUCCESS then store text 36 (le_bytes 4 ptype) else mret text);
  text ← store text 32 (le_bytes 4 c);
  r ← set_size (if c =? KERN_SUCCESS then 40 else sizeof_mig_reply_error_t) {| text := text; result := result r |};
  mret (r, s).

(** vm_copy. *)
Definition serve_vm_copy (send_size rcv_size : Z) (r : reply) (s : state) : fallible (reply * state) :=
  if negb (send_size =? 44) then r ← write_error rcv_size MIG_BAD_ARGUMENTS r; mret (r, s) else
  '(fits, r) ← require rcv_size sizeof_mig_reply_error_t r;
  if negb fits then mret (r, s) else
  remote ← u32_at (text r) at_remote_port;
  source ← u32_at (text r) 32; size ← u32_at (text r) 36; dest ← u32_at (text r) 40;
  let '(c, s) := if remote =? mach_task_self then copy_memory source dest size s else (KERN_INVALID_ARGUMENT, s) in
  r ← set_size sizeof_mig_reply_error_t r; r ← set_code c r; mret (r, s).

(** vm_read_overwrite. *)
Definition serve_vm_read_overwrite (send_size rcv_size requestBits : Z) (r : reply) (s : state)
    : fallible (reply * state) :=
  if negb (send_size =? 44) || has_flag requestBits MACH_MSGH_BITS_COMPLEX
  then r ← write_error rcv_size MIG_BAD_ARGUMENTS r; mret (r, s) else
  '(fits, r) ← require rcv_size 40 r;
  if negb fits then mret (r, s) else
  remote ← u32_at (text r) at_remote_port;
  address ← u32_at (text r) 32; size ← u32_at (text r) 36; data ← u32_at (text r) 40;
  let '(c, s) := if remote =? mach_task_self then copy_memory address data size s else (KERN_INVALID_ARGUMENT, s) in
  r ← set_code c r;
  if c =? KERN_SUCCESS then r ← set_bytes 36 (le_bytes 4 size) r; r ← set_size 40 r; mret (r, s)
  else r ← set_size sizeof_mig_reply_error_t r; mret (r, s).

Record vm_remap_request := {
  m_address : Z; m_size : Z; m_mask : Z; m_flags : Z; m_source : Z; m_copy : Z; m_inheritance : Z;
}.

(** The request of vm_remap, if it names this task twice: else the error. *)
Definition read_vm_remap (send_size requestBits : Z) (message : list Z) : fallible (Z + vm_remap_request) :=
  if negb (send_size =? 76) || negb (has_flag requestBits MACH_MSGH_BITS_COMPLEX) then mret (inl MIG_BAD_ARGUMENTS) else
  ok ← read_port_request message;
  if negb ok then mret (inl MIG_BAD_ARGUMENTS) else
  remote ← u32_at message at_remote_port; name ← u32_at message 28;
  address ← u32_at message 48; size ← u32_at message 52; mask ← u32_at message 56; flags ← u32_at message 60;
  source ← u32_at message 64; copy ← u32_at message 68; inheritance ← u32_at message 72;
  if negb (remote =? mach_task_self) || negb (name =? mach_task_self) || (inheritance <? VM_INHERIT_SHARE) ||
     (VM_INHERIT_NONE <? inheritance)
  then mret (inl KERN_INVALID_ARGUMENT) else
  mret (inr {| m_address := address; m_size := size; m_mask := mask; m_flags := flags; m_source := source;
               m_copy := copy; m_inheritance := inheritance |}).

(** vm_remap. *)
Definition serve_vm_remap (send_size rcv_size requestBits : Z) (r : reply) (s : state) : fallible (reply * state) :=
  '(fits, r) ← require rcv_size sizeof_mig_reply_error_t r;
  if negb fits then mret (r, s) else
  request ← read_vm_remap send_size requestBits (text r);
  match request with
  | inl c => r ← set_code c r; r ← set_size sizeof_mig_reply_error_t r; mret (r, s)
  | inr m =>
      '(fits, r) ← require rcv_size 48 r;
      if negb fits then mret (r, s) else
      '(c, out, v) ← or_reject (Dynarmic_vm_remap env resize_ok (m_address m) (m_size m) (m_mask m) (m_flags m)
                                  (m_source m) (negb (m_copy m =? 0)) (task_memory s)) tt;
      let s := with_task_memory v s in
      let '(address, protection) := default (m_address m, 0) out in
      r ← set_code c r; r ← set_size sizeof_mig_reply_error_t r;
      if negb (c =? KERN_SUCCESS) then mret (r, s) else
      r ← set_bytes 36 (le_bytes 4 address ++ le_bytes 4 protection ++ le_bytes 4 protection) r;
      r ← set_size 48 r; mret (r, s)
  end.

(** mach_make_memory_entry_64, which is never granted. *)
Definition serve_make_memory_entry (send_size rcv_size requestBits : Z) (r : reply) (s : state)
    : fallible (reply * state) :=
  '(fits, r) ← require rcv_size sizeof_mig_reply_error_t r;
  if negb fits then mret (r, s) else
  c ← (if negb (send_size =? 68) || negb (has_flag requestBits MACH_MSGH_BITS_COMPLEX) then mret MIG_BAD_ARGUMENTS else
       count ← u32_at (text r) 24; type ← u8_at (text r) 39; disposition ← u8_at (text r) 38;
       if negb (count =? 1) || negb (type =? MACH_MSG_PORT_DESCRIPTOR) || negb (disposition =? MACH_MSG_TYPE_COPY_SEND)
       then mret MIG_BAD_ARGUMENTS else
       remote ← u32_at (text r) at_remote_port;
       mret (if remote =? mach_task_self then KERN_NOT_SUPPORTED else KERN_INVALID_ARGUMENT));
  r ← set_size sizeof_mig_reply_error_t r; r ← set_code c r; mret (r, s).

(** ** The trap *)

(** What becomes of a request: an answer, an identifier with a case of its own in
    the trap that is not modelled, or an unknown one. *)
Inductive dispatched := Answered (r : reply) (s : state) | Elsewhere | Unhandled.

(** The other case labels. *)
Definition elsewhere : list Z :=
  [0; 200; 205; 206; 216; 217; 412; 0x1000; 0x2000; 0x3000; 3213; 3217; 3218; 3402; 3405; 3605; 3606; 3603; 3612; 3409; 3410; 3418;
   3419; 3444; 3447; 3617; 3618; 3616; 78945670; 78945679; 78945680; 78945698; 2877; 2804; 78; 79; 0x77303074;
   0x10000000; 0x20000000].

Definition answered (o : fallible (reply * state)) : fallible dispatched :=
  '(r, s) ← o; mret (Answered r s).

Definition dispatch_request (type_of : Z -> Z -> Z * Z) (id send_size rcv_size requestBits : Z) (r : reply) (s : state)
    : fallible dispatched :=
  if id =? 3403 then answered (serve_ports_register send_size rcv_size r s) else
  if id =? 1000 then answered (serve_clock_get_time send_size rcv_size r s) else
  if id =? 3201 then answered (serve_port_type type_of r s) else
  if id =? 3808 then answered (serve_vm_copy send_size rcv_size r s) else
  if id =? 3809 then answered (serve_vm_read_overwrite send_size rcv_size requestBits r s) else
  if id =? 3814 then answered (serve_vm_remap send_size rcv_size requestBits r s) else
  if id =? 3825 then answered (serve_make_memory_entry send_size rcv_size requestBits r s) else
  if bool_decide (id ∈ elsewhere) then mret Elsewhere else
  o ← HandleGuestExceptionPortMessage send_size rcv_size requestBits (text r);
  match o with
  | Some r => mret (Answered r s)
  | None =>
      o ← HandleGuestSimpleMachMessage send_size rcv_size requestBits (text r) s;
      match o with Some (r, s) => mret (Answered r s) | None => mret Unhandled end
  end.

(** The end of the trap: the reply's header, and the copy to the guest. *)
Definition finish_reply (guest_msg rcv_size rcv_name : Z) (r : reply) (s : state) : fallible (Z * state) :=
  text ← store (text r) at_local_port (le_bytes 4 rcv_name);
  text ← store text at_remote_port (le_bytes 4 0);
  id ← u32_at text at_id;
  text ← store text at_id (le_bytes 4 (u32 (id + 100)));
  bytes ← fetch text 0 rcv_size;
  let '(_, v) := Dynarmic_mem_1write (task_memory s) guest_msg rcv_size (Some bytes) in
  mret (result r, with_task_memory v s).

(** What the guest gets back, and whether the processor was told to stop
    ([ExceptionRaised]); or that the request is not modelled. *)
Inductive trap_answer := Returned (c : Z) (s : state) | Stopped (c : Z) (s : state) | NotModelled.

(** The request half of [guest_mach_msg_trap], from where the message is in host
    memory.  An identifier that finds no case stops the guest, and its message goes
    back as the reply. *)
Definition mach_msg_request (type_of : Z -> Z -> Z * Z) (guest_msg option send_size rcv_size rcv_name : Z)
    (message : list Z) (s : state) : fallible trap_answer :=
  remote ← u32_at message at_remote_port;
  if has_flag option MACH_SEND_MSG && (sizeof_mach_msg_header_t <=? send_size) && negb (MACH_PORT_VALID remote)
  then mret (Returned MACH_SEND_INVALID_DEST s) else
  message ← store message at_size (le_bytes 4 send_size);
  requestBits ← u32_at message at_bits;
  message ← store message at_bits (le_bytes 4 (Z.land requestBits 0xff));
  id ← u32_at message at_id;
  let r := {| text := message; result := MACH_MSG_SUCCESS |} in
  d ← dispatch_request type_of id send_size rcv_size requestBits r s;
  match d with
  | Answered r s => '(c, s) ← finish_reply guest_msg rcv_size rcv_name r s; mret (Returned c s)
  | Elsewhere => mret NotModelled
  | Unhandled => '(c, s) ← finish_reply guest_msg rcv_size rcv_name r s; mret (Stopped c s)
  end.

(** The host buffer of a request. *)
Definition buffer_size (send_size rcv_size : Z) : Z := Z.max (Z.max send_size rcv_size) sizeof_mach_msg_header_t.
End messages.

Arguments Answered {P}. Arguments Elsewhere {P}. Arguments Unhandled {P}.
Arguments Returned {P}. Arguments Stopped {P}. Arguments NotModelled {P}.
