(* ===== verification/MachMessagesProps.v ===== *)
(** What the answers to Mach messages promise: no message reaches outside its
    buffer, a reply never claims more than the guest's buffer holds, no right is
    made for a reply that does not fit, and a client reads back exactly what the
    host answered. *)

From stdpp Require Import base gmap list list_numbers.
From Stdlib Require Import ZArith Lia.
From S2P Require Import Prelude GuestMemory GuestRawMemory GuestMapping MemoryWitness Bytes HostCalls VmTraps.
From S2P Require Import Workqueue MachMessages.

Open Scope list_scope.
Open Scope Z_scope.

(** ** Nothing outside the buffer *)

Section safety.
Context {P : Type} (mach : mach_call -> P -> mach_answer * P) (mach_task_self : Z).
Context (env : host_env) (resize_ok : bool) (tid : Z) (rcv L : Z).
Context (Hmach : forall c p, 0 <= attributes (mach c p).1).
Context (Hrcv : 0 <= rcv < 2 ^ 32) (HL : rcv <= L) (Hhead : sizeof_mach_msg_header_t <= L).

#[local] Abbreviation size_field r := (le_int (sub (text r) at_size 4)).

(** A message that no reply has been written to. *)
Definition fresh (r : reply) : Prop := blen (text r) = L /\ result r = MACH_MSG_SUCCESS.

(** A reply that claims [n] bytes. *)
Definition sized (n : Z) (r : reply) : Prop := fresh r /\ size_field r = n.

(** The guest's buffer holds the reply, or the guest is told how much it needs. *)
Definition replied (r : reply) : Prop :=
  blen (text r) = L /\
  ((result r = MACH_MSG_SUCCESS /\ size_field r <= rcv) \/ (result r = MACH_RCV_TOO_LARGE /\ rcv < size_field r)).

Lemma sized_replied n r : n <= rcv -> sized n r -> replied r.
Proof. intros Hn ([H1 H2] & H3). split; [done|]. left. split; [done|]. lia. Qed.

Lemma safe_word (buf : list Z) off (Q : Z -> Prop) :
  0 <= off -> off + 4 <= blen buf -> (forall v, v = le_int (sub buf off 4) -> Q v) -> safe (E := unit) (u32_at buf off) Q.
Proof. intros H1 H2 HQ. unfold u32_at. apply safe_fmap, safe_fetch; [lia..|by apply HQ]. Qed.

Lemma size_written r n : blen (text r) = L -> 0 <= n < 2 ^ 32 ->
  le_int (sub (splice (text r) at_size (le_bytes 4 n)) at_size 4) = n.
Proof.
  intros Hl Hn. unfold at_size, sizeof_mach_msg_header_t in *. change 4 with (blen (le_bytes 4 n)) at 3.
  rewrite sub_splice_same by (rewrite ?blen_le_bytes; lia). apply le_int_le_bytes. exact Hn.
Qed.

Lemma safe_require size r (Q : bool * reply -> Prop) :
  fresh r -> 0 <= size < 2 ^ 32 -> (size <= rcv -> Q (true, r)) -> (forall r', replied r' -> result r' = MACH_RCV_TOO_LARGE -> Q (false, r')) ->
  safe (require rcv size r) Q.
Proof.
  intros [Hl Hr] Hs H1 H2. unfold require. destruct (Z.leb_spec size rcv); [by apply H1|].
  unfold sizeof_mach_msg_header_t in Hhead.
  apply safe_bind, safe_store; [done|rewrite blen_le_bytes; unfold at_size; lia|]. apply H2; [|done]. split; cbn [text result].
  - rewrite blen_splice; [done|done|rewrite blen_le_bytes; unfold at_size; lia].
  - right. rewrite size_written by done. done.
Qed.

Lemma safe_put size body r (Q : reply -> Prop) :
  fresh r -> 32 + blen body = size -> size <= rcv -> (forall r', sized size r' -> Q r') -> safe (put size body r) Q.
Proof.
  intros [Hl Hr] Hb Hs HQ. unfold put, header, sizeof_mach_msg_header_t in *. pose proof (blen_nonneg body).
  apply safe_bind, safe_bind, safe_fetch; [lia..|]. apply safe_done.
  set (h := le_bytes 4 _ ++ _).
  assert (blen h = 24) as Hh.
  { unfold h. rewrite !blen_app, !blen_le_bytes, blen_sub; rewrite ?blen_sub; unfold at_remote_port; lia. }
  assert (blen (h ++ NDR_record ++ body) = size) as Ha by (rewrite !blen_app, Hh; change (blen NDR_record) with 8; lia).
  apply safe_bind, safe_store; [done|lia|]. apply safe_done, HQ. split; [split; cbn [text result]; [|done]|]; cbn [text].
  - rewrite blen_splice; lia.
  - unfold at_size. rewrite sub_splice_inside by lia. rewrite Z.sub_0_r. unfold h. cbn -[le_bytes sub blen].
    change (sub _ 4 4) with (le_bytes 4 size). apply le_int_le_bytes. lia.
Qed.

Lemma safe_error c r (Q : reply -> Prop) : fresh r -> (forall r', replied r' -> Q r') -> safe (error rcv c r) Q.
Proof.
  intros Hr HQ. unfold error. apply safe_bind, safe_require; [done|done|intros Hs; cbn|by intros; apply HQ].
  apply safe_put; [done|done|done|]. intros r' H. by eapply HQ, sized_replied.
Qed.

Lemma safe_scalar n c v r (Q : reply -> Prop) :
  Z.of_nat n <= 8 -> fresh r -> (forall r', replied r' -> Q r') -> safe (scalar_reply rcv n c v r) Q.
Proof.
  intros Hn Hr HQ. unfold scalar_reply. destruct (negb _); [by apply safe_error|].
  apply safe_bind, safe_require; [done|unfold sizeof_mig_reply_error_t; lia| |by intros; apply HQ]. intros Hs. cbn [negb].
  apply safe_put; [done| |done|intros r' H; by eapply HQ, sized_replied].
  rewrite blen_app, !blen_le_bytes. unfold sizeof_mig_reply_error_t. lia.
Qed.

(** ** The effects of a request *)

(** At most one host call is made; nothing but queries, and no change to the
    memory, if the reply does not fit. *)
Definition effects (s : trap_state P) (r : reply) (s' : trap_state P) : Prop :=
  exists cs, calls s' = calls s ++ cs /\ (length cs <= 1)%nat /\
    (result r = MACH_RCV_TOO_LARGE -> task_memory s' = task_memory s /\ Forall (fun c => is_query c = true) cs).

Definition correct (s : trap_state P) (o : reply * trap_state P) : Prop := replied o.1 /\ effects s o.1 o.2.

Lemma effects_none s r : effects s r s.
Proof. exists []. rewrite app_nil_r. split_and!; [done|cbn; lia|done]. Qed.

Lemma ask_one c s r : (result r = MACH_RCV_TOO_LARGE -> is_query c = true) -> effects s r (ask mach c s).2.
Proof.
  intros Hq. unfold ask. destruct (mach c (port_space s)) as [a p]. exists [c]. cbn. split_and!; [done|lia|].
  intros Hr. split; [done|]. by repeat constructor; apply Hq.
Qed.

Lemma ask_effects c s : calls (ask mach c s).2 = calls s ++ [c] /\ task_memory (ask mach c s).2 = task_memory s /\
  0 <= attributes (ask mach c s).1.
Proof. unfold ask. pose proof (Hmach c (port_space s)). by destruct (mach c (port_space s)) as [a p]. Qed.

(** A reply that was known to fit. *)
Lemma safe_error_fits c r (Q : reply -> Prop) :
  fresh r -> sizeof_mig_reply_error_t <= rcv -> (forall r', replied r' -> result r' = MACH_MSG_SUCCESS -> Q r') ->
  safe (error rcv c r) Q.
Proof.
  intros Hr Hs HQ. unfold error, require. rewrite (proj2 (Z.leb_le _ _)) by done.
  apply safe_bind, safe_done. cbn. apply safe_put; [done|done|done|].
  intros r' H. apply HQ; [by eapply sized_replied|apply H].
Qed.

Lemma safe_scalar_fits n c v r (Q : reply -> Prop) :
  Z.of_nat n <= 8 -> fresh r -> sizeof_mig_reply_error_t + Z.of_nat n <= rcv ->
  (forall r', replied r' -> result r' = MACH_MSG_SUCCESS -> Q r') -> safe (scalar_reply rcv n c v r) Q.
Proof.
  intros Hn Hr Hs HQ. unfold scalar_reply. destruct (negb _); [apply safe_error_fits; by try lia|].
  unfold require. rewrite (proj2 (Z.leb_le _ _)) by done. apply safe_bind, safe_done. cbn [negb].
  apply safe_put; [done| |done|intros r' H; apply HQ; [by eapply sized_replied|apply H]].
  rewrite blen_app, !blen_le_bytes. unfold sizeof_mig_reply_error_t. lia.
Qed.

Lemma answered_once c s r : result r = MACH_MSG_SUCCESS -> replied r -> correct s (r, (ask mach c s).2).
Proof. intros Hr H. split; [done|]. apply ask_one. cbn. by rewrite Hr. Qed.

Lemma queried c s r : is_query c = true -> replied r -> correct s (r, (ask mach c s).2).
Proof. intros Hq H. split; [done|]. by apply ask_one. Qed.

Lemma version_length_range bs : 0 <= version_length bs <= 512 /\ (version_length bs < 512 -> version_length bs < blen bs).
Proof.
  unfold version_length. destruct (find_zero _) as [i|] eqn:E; cbn; [|lia].
  apply find_zero_spec in E. unfold blen in *. rewrite length_take in E. lia.
Qed.

Lemma round_up_words n : 0 <= n < 2 ^ 16 -> n <= Z.land (n + 3) (UINT32_MAX - 3) <= n + 3.
Proof.
  intros Hn. change (UINT32_MAX - 3) with (Z.ldiff (Z.ones 32) (Z.ones 2)).
  rewrite Z.ldiff_land, Z.land_assoc, Z.land_ones, Z.mod_small by lia. rewrite <- Z.ldiff_land, Z.ldiff_ones_r by lia.
  rewrite Z.shiftr_div_pow2, Z.shiftl_mul_pow2 by lia. change (2 ^ 2) with 4.
  pose proof (Z.div_mod (n + 3) 4 ltac:(done)). pose proof (Z.mod_pos_bound (n + 3) 4 ltac:(done)). lia.
Qed.

Lemma serve_version_safe remote args r s :
  fresh r -> safe (serve mach host_kernel_version remote args rcv r s) (correct s).
Proof.
  intros Hr. cbn [serve]. set (c := {| called := _; target := _; arguments := _ |}).
  pose proof (fun r => queried c s r eq_refl) as Hq. destruct (ask mach c s) as [a s1]. cbn [snd] in Hq.
  destruct (negb _); [by apply safe_bind, safe_error|]. cbv zeta.
  destruct (version_length_range (version a)) as [Hl Hlt].
  destruct (Z.leb_spec 512 (version_length (version a))); [by apply safe_bind, safe_error|]. specialize (Hlt ltac:(lia)).
  set (count := version_length (version a) + 1). assert (count <= 512) by lia. assert (0 < count <= blen (version a)) by lia.
  pose proof (round_up_words count ltac:(lia)) as Hw.
  apply safe_bind, safe_require; [done|lia|intros Hs; cbn [negb]|intros; by apply Hq].
  apply safe_bind, safe_put; [done| |done|intros r' H'; apply Hq; by eapply sized_replied].
  assert (Z.land (count + 3) (UINT32_MAX - 3) <= 512) as Hw'.
  { destruct (Z.eq_dec count 512) as [->|]; [done|]. destruct (Z.eq_dec count 511) as [->|]; [done|].
    destruct (Z.eq_dec count 510) as [->|]; [done|]. lia. }
  rewrite !blen_app, !blen_le_bytes, blen_sub; [lia|lia|lia|].
  rewrite blen_app, blen_sub, blen_zeros by lia. lia.
Qed.

Lemma serve_clock_safe remote args r s :
  fresh r -> 0 <= nth 1 args 0 -> safe (serve mach clock_get_attributes remote args rcv r s) (correct s).
Proof.
  intros Hr Hn. cbn [serve].
  destruct (Z.ltb_spec 1 (nth 1 args 0)); [apply safe_bind, safe_error; [done|intros; split; [done|apply effects_none]]|].
  unfold clock_capacity.
  apply safe_bind, safe_require; [done|lia|intros Hs; cbn [negb]|intros; split; [done|apply effects_none]].
  set (c := {| called := _; target := _; arguments := _ |}).
  pose proof (fun r => queried c s r eq_refl) as Hq. destruct (ask_effects c s) as (_ & _ & Ha).
  destruct (ask mach c s) as [a s1]. cbn [fst snd] in *.
  destruct (negb _); [by apply safe_bind, safe_error|].
  destruct (_ || _) eqn:Eb; [by apply safe_bind, safe_error|]. apply orb_false_iff in Eb as [E1%Z.ltb_ge E2%Z.ltb_ge]. cbv zeta.
  apply safe_bind, safe_put; [done| |lia|intros r' H'; apply Hq; eapply sized_replied; [|done]; lia].
  rewrite !blen_app, !blen_le_bytes, blen_sub; rewrite ?blen_le_bytes; lia.
Qed.

(** A request of the table, behind the preflight. *)
Lemma serve_safe k remote args r s :
  fresh r -> reply_size k <= rcv -> (forall x, x ∈ args -> 0 <= x) ->
  safe (serve mach k remote args rcv r s) (correct s).
Proof.
  intros Hr Hs Ha. destruct k; try (by apply serve_version_safe);
    try (apply serve_clock_safe; [done|]; destruct (nth_in_or_default 1 args 0) as [Hi| ->]; [by apply Ha, list_elem_of_In|done]);
    cbn [serve reply_size] in *; unfold sizeof_mig_reply_error_t in *;
    match goal with |- safe (let '(_, _) := ask _ ?c _ in _) _ =>
      pose proof (fun r => answered_once c s r) as Hq; destruct (ask mach c s) as [a s1]; cbn [snd] in Hq end.
  all: apply safe_bind; first [apply safe_scalar_fits|apply safe_error_fits]; unfold sizeof_mig_reply_error_t; try lia; try done;
    intros r' H1 H2; by apply Hq.
Qed.

(** ** The two handlers *)

Lemma words_nonneg n bs : Forall byte_ok bs -> forall x, x ∈ words n bs -> 0 <= x.
Proof.
  revert bs. induction n as [|n IH]; intros bs Hb x; cbn [words]; [by intros ?%elem_of_nil|].
  intros [->|Hx]%elem_of_cons.
  - pose proof (le_int_range (take 4 bs) (Forall_take _ _ _ Hb)). lia.
  - by eapply IH, Hx; apply Forall_drop.
Qed.

Lemma routine_bounds k : reply_size k <= 44 /\ 36 <= reply_size k.
Proof. destruct k; cbn; unfold sizeof_mig_reply_error_t; lia. Qed.

(** The request is inside the buffer when its size is the one sent. *)
Lemma read_arguments_safe k message (Q : option (list Z) -> Prop) :
  Forall byte_ok message -> request_size k <= blen message -> Q None ->
  (forall args, (forall x, x ∈ args -> 0 <= x) -> Q (Some args)) -> safe (read_arguments k message) Q.
Proof.
  intros Hb Hl H1 H2. unfold read_arguments, request_size, sizeof_mach_msg_header_t in *.
  destruct (argument_count k) as [|n]; [apply safe_done, H2; by intros x ?%elem_of_nil|].
  apply safe_bind, safe_fetch; [done|done|lia|]. destruct (negb _); [by apply safe_done|].
  apply safe_bind, safe_fetch; [done|lia|lia|]. apply safe_done, H2, words_nonneg. by apply Forall_sub.
Qed.

Definition handled (id : Z) (s : trap_state P) (o : option (reply * trap_state P)) : Prop :=
  match o with Some o => correct s o /\ is_Some (routine_of id) | None => routine_of id = None end.

Lemma simple_safe send bits message s :
  Forall byte_ok message -> blen message = L -> send <= L ->
  safe (HandleGuestSimpleMachMessage mach send rcv bits message s) (handled (le_int (sub message at_id 4)) s).
Proof.
  intros Hb Hl Hs. unfold HandleGuestSimpleMachMessage, sizeof_mach_msg_header_t in *.
  apply safe_bind, safe_word; [done|unfold at_id; lia|]. intros id <-. unfold handled.
  destruct (routine_of id) as [k|]; [|done].
  assert (fresh {| text := message; result := MACH_MSG_SUCCESS |}) as Hf by done.
  apply safe_bind, safe_word; [done|unfold at_size; lia|]. intros size _.
  destruct (_ || _ || _) eqn:Eb.
  { apply safe_bind, safe_error; [done|]. intros r' H. apply safe_done. split; [split; [done|apply effects_none]|done]. }
  rewrite !orb_false_iff, !negb_false_iff, !Z.eqb_eq in Eb. destruct Eb as [[-> _] _].
  apply safe_bind, read_arguments_safe; [done|lia| |].
  { apply safe_bind, safe_error; [done|]. intros r' H. apply safe_done. split; [split; [done|apply effects_none]|done]. }
  intros args Ha. pose proof (routine_bounds k).
  apply safe_bind, safe_require; [done|lia|intros Hk; cbn [negb]|intros; split; [split; [done|apply effects_none]|done]].
  apply safe_bind, safe_word; [done|cbn; unfold at_remote_port; lia|]. intros remote _.
  apply safe_bind. eapply safe_mono; [by apply serve_safe|]. by intros o Ho.
Qed.

Lemma port_request_safe message (Q : bool -> Prop) : 60 <= blen message -> (forall b, Q b) -> safe (read_port_request message) Q.
Proof.
  intros Hl HQ. unfold read_port_request. apply safe_bind, safe_word; [done|lia|]. intros count _.
  unfold u8_at. apply safe_bind, safe_fmap, safe_fetch; [done|done|lia|].
  apply safe_bind, safe_fmap, safe_fetch; [done|done|lia|].
  apply safe_bind, safe_fetch; [done|done|lia|]. by apply safe_done.
Qed.

Lemma exception_ok_safe id send bits message (Q : bool -> Prop) :
  blen message = L -> send <= L -> (forall b, Q b) -> safe (exception_request_ok id send bits message) Q.
Proof.
  intros Hl Hs HQ. unfold exception_request_ok, sizeof_mach_msg_header_t in *.
  apply safe_bind, safe_word; [done|unfold at_size; lia|]. intros size _. destruct (is_exception_query id).
  - destruct (_ || _) eqn:Eb; [by apply safe_done|].
    rewrite !orb_false_iff, !negb_false_iff, !Z.eqb_eq in Eb. destruct Eb as [[_ ->] _].
    apply safe_bind, safe_fetch; [done|done|lia|]. by apply safe_done.
  - destruct (_ || _) eqn:Eb; [by apply safe_done|].
    rewrite !orb_false_iff, !negb_false_iff, !Z.eqb_eq in Eb. destruct Eb as [[_ ->] _].
    apply port_request_safe; [lia|done].
Qed.

(** The requests of HandleGuestExceptionPortMessage. *)
Definition exception_id (id : Z) : bool :=
  is_thread_request id || is_exception_query id || (id =? 3413) || (id =? 3415).

Lemma exception_safe send bits message :
  blen message = L -> send <= L ->
  safe (HandleGuestExceptionPortMessage mach_task_self send rcv bits message)
    (fun o => match o with
              | Some r => replied r /\ exception_id (le_int (sub message at_id 4)) = true
              | None => exception_id (le_int (sub message at_id 4)) = false
              end).
Proof.
  intros Hl Hs. unfold HandleGuestExceptionPortMessage, sizeof_mach_msg_header_t in *.
  apply safe_bind, safe_word; [done|unfold at_id; lia|]. intros id <-. cbv zeta.
  assert (exception_id id = negb (negb (is_thread_request id) && negb (is_exception_query id) && negb (id =? 3413) && negb (id =? 3415)))
    as He by (unfold exception_id; by rewrite !negb_andb, !negb_involutive).
  destruct (_ && _); cbn [negb] in He; [done|].
  apply safe_bind, safe_require; [done|done|intros Hk; cbn [negb]|done].
  apply safe_bind, exception_ok_safe; [done|done|]. intros valid.
  apply safe_bind, safe_word; [done|unfold at_remote_port; lia|]. intros remote _.
  apply safe_bind, safe_put; [done|done|done|]. intros r' H. split; [by eapply sized_replied|done].
Qed.

(** ** Requests answered in place *)

Lemma safe_set_size size r (Q : reply -> Prop) :
  fresh r -> 0 <= size < 2 ^ 32 -> (forall r', sized size r' -> Q r') -> safe (set_size size r) Q.
Proof.
  intros [Hl Hr] Hs HQ. unfold set_size, sizeof_mach_msg_header_t, at_size in *.
  apply safe_bind, safe_store; [done|rewrite blen_le_bytes; lia|]. apply HQ. split; [split; [|done]|]; cbn [text].
  - rewrite blen_splice; rewrite ?blen_le_bytes; lia.
  - by apply size_written.
Qed.

Lemma safe_set_bytes off bs r n (Q : reply -> Prop) :
  sized n r -> 24 <= off -> off + blen bs <= L -> (forall r', sized n r' -> Q r') -> safe (set_bytes off bs r) Q.
Proof.
  intros [[Hl Hr] Hn] Ho Hb HQ. unfold set_bytes. pose proof (blen_nonneg bs).
  apply safe_bind, safe_store; [lia|lia|]. apply HQ. split; [split; [|done]|]; cbn [text].
  - rewrite blen_splice; lia.
  - by rewrite sub_splice_before by (unfold at_size; lia).
Qed.

Lemma safe_set_code c r n (Q : reply -> Prop) :
  sized n r -> 36 <= L -> (forall r', sized n r' -> Q r') -> safe (set_code c r) Q.
Proof.
  intros [[Hl Hr] Hn] Hb HQ. unfold set_code. apply safe_bind, safe_store; [done|change (blen NDR_record) with 8; lia|].
  apply safe_bind, safe_store; [done|rewrite blen_splice, blen_le_bytes; [lia|done|change (blen NDR_record) with 8; lia]|].
  change (blen NDR_record) with 8 in *.
  apply HQ. split; [split; [|done]|]; cbn [text].
  - rewrite !blen_splice; rewrite ?blen_le_bytes, ?blen_splice; try done; change (blen NDR_record) with 8; lia.
  - rewrite !sub_splice_before; rewrite ?blen_le_bytes, ?blen_splice; try done; unfold at_size; change (blen NDR_record) with 8; lia.
Qed.

Lemma fresh_sized r : fresh r -> sized (size_field r) r.
Proof. by split. Qed.

Lemma safe_write_error c r (Q : reply -> Prop) : fresh r -> (forall r', replied r' -> Q r') -> safe (write_error rcv c r) Q.
Proof.
  intros Hr HQ. unfold write_error. apply safe_bind, safe_require; [done|done|intros Hs; cbn [negb]|by intros; apply HQ].
  unfold sizeof_mig_reply_error_t in *.
  apply safe_bind, safe_set_size; [done|done|]. intros r1 H1. eapply safe_set_code; [done|lia|].
  intros r2 H2. eapply HQ, sized_replied; [|done]. done.
Qed.

Lemma correct_none s r : replied r -> correct s (r, s).
Proof. intros H. split; [done|apply effects_none]. Qed.

(** No call, and the reply was known to fit. *)
Lemma correct_memory s v n r : sized n r -> n <= rcv -> correct s (r, with_task_memory v s).
Proof.
  intros H Hn. split; [by eapply sized_replied|]. exists []. cbn. rewrite app_nil_r. split_and!; [done|lia|].
  destruct H as [[_ ->] _]. done.
Qed.

Lemma copy_memory_eq source dest size (s : trap_state P) : exists c v, copy_memory resize_ok tid source dest size s = (c, with_task_memory v s).
Proof. unfold copy_memory. destruct (CopyGuestVmMemory _ _ _ _ _ _) as [c v]. by eauto. Qed.

Lemma with_task_memory_same (s : trap_state P) : with_task_memory (task_memory s) s = s.
Proof. by destruct s. Qed.

Lemma copy_if_task b source dest size (s : trap_state P) :
  exists c v, (if b : bool then copy_memory resize_ok tid source dest size s else (KERN_INVALID_ARGUMENT, s)) = (c, with_task_memory v s).
Proof.
  destruct b; [apply copy_memory_eq|]. exists KERN_INVALID_ARGUMENT, (task_memory s). by rewrite with_task_memory_same.
Qed.

Lemma ports_register_safe send r s :
  fresh r -> safe (serve_ports_register mach_task_self send rcv r s) (correct s).
Proof.
  intros Hr. unfold serve_ports_register, sizeof_mach_msg_header_t in *. destruct Hr as [Hl Hr].
  apply safe_bind, safe_word; [done|unfold at_remote_port; lia|]. intros remote _.
  apply safe_bind, safe_require; [done|done|intros Hs; cbn [negb]|intros; by apply correct_none].
  apply safe_bind, safe_put; [done|done|done|]. intros r' H. by eapply correct_none, sized_replied.
Qed.

Lemma clock_get_time_safe send r s : fresh r -> safe (serve_clock_get_time mach send rcv r s) (correct s).
Proof.
  intros Hr. unfold serve_clock_get_time. destruct (negb _); [apply safe_bind, safe_write_error; [done|]; intros; by apply correct_none|].
  apply safe_bind, safe_require; [done|done|intros Hs; cbn [negb]|intros; by apply correct_none].
  apply safe_bind, safe_word; [done|unfold at_remote_port, sizeof_mach_msg_header_t in *; destruct Hr; lia|]. intros remote _.
  set (c := {| called := _; target := _; arguments := _ |}).
  pose proof (fun r => queried c s r eq_refl) as Hq. destruct (ask mach c s) as [a s1]. cbn [snd] in Hq.
  apply safe_bind. eapply safe_set_code; [by apply fresh_sized|lia|]. intros r1 H1. destruct (_ =? _).
  - apply safe_bind. eapply safe_set_bytes; [exact H1|done|rewrite blen_le_bytes; lia|]. intros r2 [H2 _].
    apply safe_bind, safe_set_size; [done|done|]. intros r3 H3. apply Hq. by eapply sized_replied.
  - apply safe_bind, safe_set_size; [apply H1|done|]. intros r2 H2. apply Hq. eapply sized_replied; [|done].
    unfold sizeof_mig_reply_error_t. lia.
Qed.

Lemma vm_copy_safe send r s :
  fresh r -> send <= L -> safe (serve_vm_copy mach_task_self resize_ok tid send rcv r s) (correct s).
Proof.
  intros Hr Hsend. unfold serve_vm_copy.
  destruct (Z.eqb_spec send 44) as [->|]; cbn [negb]; [|apply safe_bind, safe_write_error; [done|]; intros; by apply correct_none].
  apply safe_bind, safe_require; [done|done|intros Hs; cbn [negb]|intros; by apply correct_none].
  unfold sizeof_mig_reply_error_t in *. pose proof (proj1 Hr) as Hl.
  do 4 (apply safe_bind, safe_word; [unfold at_remote_port; lia|unfold at_remote_port; lia|]; intros ? _).
  edestruct copy_if_task as (c & s' & ->).
  apply safe_bind, safe_set_size; [done|done|]. intros r1 H1.
  apply safe_bind. eapply safe_set_code; [exact H1|lia|]. intros r2 H2. by eapply correct_memory.
Qed.

Lemma vm_read_overwrite_safe send bits r s :
  fresh r -> send <= L -> safe (serve_vm_read_overwrite mach_task_self resize_ok tid send rcv bits r s) (correct s).
Proof.
  intros Hr Hsend. unfold serve_vm_read_overwrite.
  destruct (_ || _) eqn:Eb; [apply safe_bind, safe_write_error; [done|]; intros; by apply correct_none|].
  apply orb_false_iff in Eb as [->%negb_false_iff%Z.eqb_eq _].
  apply safe_bind, safe_require; [done|done|intros Hs; cbn [negb]|intros; by apply correct_none].
  pose proof (proj1 Hr) as Hl.
  do 4 (apply safe_bind, safe_word; [unfold at_remote_port; lia|unfold at_remote_port; lia|]; intros ? _).
  edestruct copy_if_task as (c & s' & ->).
  apply safe_bind. eapply safe_set_code; [by apply fresh_sized|lia|]. intros r1 H1. destruct (_ =? _).
  - apply safe_bind. eapply safe_set_bytes; [exact H1|done|rewrite blen_le_bytes; lia|]. intros r2 [H2 _].
    apply safe_bind, safe_set_size; [done|done|]. intros r3 H3. by eapply correct_memory.
  - apply safe_bind, safe_set_size; [apply H1|done|]. intros r2 H2. eapply correct_memory; [done|].
    unfold sizeof_mig_reply_error_t. lia.
Qed.

Lemma read_vm_remap_safe send bits message (Q : Z + vm_remap_request -> Prop) :
  blen message = L -> send <= L -> (forall x, Q x) -> safe (read_vm_remap mach_task_self send bits message) Q.
Proof.
  intros Hl Hs HQ. unfold read_vm_remap. destruct (_ || _) eqn:Eb; [by apply safe_done|].
  apply orb_false_iff in Eb as [->%negb_false_iff%Z.eqb_eq _].
  apply safe_bind, port_request_safe; [lia|]. intros ok. destruct ok; [|by apply safe_done]. cbn [negb].
  do 9 (apply safe_bind, safe_word; [unfold at_remote_port; lia|unfold at_remote_port; lia|]; intros ? _).
  destruct (_ || _); by apply safe_done.
Qed.

Lemma vm_remap_safe send bits r s :
  fresh r -> send <= L -> safe (serve_vm_remap mach_task_self env resize_ok send rcv bits r s) (correct s).
Proof.
  intros Hr Hsend. unfold serve_vm_remap.
  apply safe_bind, safe_require; [done|done|intros Hs; cbn [negb]|intros; by apply correct_none].
  unfold sizeof_mig_reply_error_t in *. pose proof (proj1 Hr) as Hl.
  apply safe_bind, read_vm_remap_safe; [done|done|]. intros [c|m].
  { apply safe_bind. eapply safe_set_code; [by apply fresh_sized|lia|]. intros r1 H1.
    apply safe_bind, safe_set_size; [apply H1|done|]. intros r2 H2. by eapply correct_none, sized_replied. }
  apply safe_bind, safe_require; [done|done|intros Hs'; cbn [negb]|intros; by apply correct_none].
  apply safe_bind, safe_or_reject. intros [[c out] v] _. destruct (default _ out) as [address protection].
  apply safe_bind. eapply safe_set_code; [by apply fresh_sized|lia|]. intros r1 H1.
  apply safe_bind, safe_set_size; [apply H1|done|]. intros r2 H2. destruct (negb _); [by eapply correct_memory|].
  apply safe_bind. eapply safe_set_bytes; [exact H2|done|rewrite !blen_app, !blen_le_bytes; lia|]. intros r3 [H3 _].
  apply safe_bind, safe_set_size; [done|done|]. intros r4 H4. by eapply correct_memory.
Qed.

(** ** The trap *)

Lemma make_memory_entry_safe send bits r s :
  fresh r -> send <= L -> safe (serve_make_memory_entry mach_task_self send rcv bits r s) (correct s).
Proof.
  intros Hr Hsend. unfold serve_make_memory_entry.
  apply safe_bind, safe_require; [done|done|intros Hs; cbn [negb]|intros; by apply correct_none].
  unfold sizeof_mig_reply_error_t in *. pose proof (proj1 Hr) as Hl.
  assert (forall c, safe (r ← set_size 36 r; r ← set_code c r; mret (r, s)) (correct s)) as Hend.
  { intros c. apply safe_bind, safe_set_size; [done|done|]. intros r1 H1.
    apply safe_bind. eapply safe_set_code; [exact H1|lia|]. intros r2 H2. by eapply correct_none, sized_replied. }
  apply safe_bind. destruct (_ || _) eqn:Eb; [apply safe_done, Hend|].
  apply orb_false_iff in Eb as [->%negb_false_iff%Z.eqb_eq _].
  apply safe_bind, safe_word; [done|lia|]. intros count _. unfold u8_at.
  apply safe_bind, safe_fmap, safe_fetch; [done|done|lia|].
  apply safe_bind, safe_fmap, safe_fetch; [done|done|lia|].
  destruct (_ || _); [apply safe_done, Hend|].
  apply safe_bind, safe_word; [done|unfold at_remote_port; lia|]. intros remote _. apply safe_done, Hend.
Qed.

(** The requests that are answered. *)
Definition served (id : Z) : bool :=
  bool_decide (id ∈ [3403; 1000; 3808; 3809; 3814; 3825]) || exception_id id || bool_decide (is_Some (routine_of id)).

Lemma request_dispatch_safe type_of id send bits r s :
  fresh r -> Forall byte_ok (text r) -> send <= L -> le_int (sub (text r) at_id 4) = id -> id <> 3201 -> id ∉ elsewhere ->
  safe (dispatch_request mach mach_task_self env resize_ok tid type_of id send rcv bits r s)
    (fun d => match d with
              | Answered r s' => correct s (r, s') /\ served id = true
              | Elsewhere => False
              | Unhandled => served id = false
              end).
Proof.
  intros Hr Hb Hs Hid Hne Hnot. unfold dispatch_request, answered, served.
  set (Q := fun d => match d with Answered _ _ => _ | _ => _ end).
  assert (forall o : fallible (reply * trap_state P), safe o (correct s) -> served id = true ->
    safe ('(r, s) ← o; mret (Answered r s)) Q) as Ha.
  { intros o Ho Hin. apply safe_bind. eapply safe_mono; [exact Ho|]. by intros [r' s']. }
  destruct (Z.eqb_spec id 3403) as [E|]; [rewrite E in *; by apply Ha; [apply ports_register_safe|]|].
  destruct (Z.eqb_spec id 1000) as [E|]; [rewrite E in *; by apply Ha; [apply clock_get_time_safe|]|].
  rewrite (proj2 (Z.eqb_neq id 3201)) by done.
  destruct (Z.eqb_spec id 3808) as [E|]; [rewrite E in *; by apply Ha; [apply vm_copy_safe|]|].
  destruct (Z.eqb_spec id 3809) as [E|]; [rewrite E in *; by apply Ha; [apply vm_read_overwrite_safe|]|].
  destruct (Z.eqb_spec id 3814) as [E|]; [rewrite E in *; by apply Ha; [apply vm_remap_safe|]|].
  destruct (Z.eqb_spec id 3825) as [E|]; [rewrite E in *; by apply Ha; [apply make_memory_entry_safe|]|].
  rewrite bool_decide_false by done. destruct Hr as [Hl Hr].
  apply safe_bind. eapply safe_mono; [by apply exception_safe|]. rewrite Hid.
  intros [r'|]; [intros [Hr' He]; apply safe_done; subst Q; split; [by apply correct_none|by rewrite He, orb_true_r]|].
  intros He. apply safe_bind. eapply safe_mono; [by apply simple_safe|]. rewrite Hid.
  intros [[r' s']|]; [intros [Hr' Hk]; apply safe_done; subst Q; split; [done|]|].
  - by rewrite (bool_decide_true _ Hk), orb_true_r.
  - intros Hk. apply safe_done. subst Q. cbn beta iota. rewrite He, Hk, bool_decide_false; [done|].
    rewrite !not_elem_of_cons. split_and!; try done. apply not_elem_of_nil.
Qed.

(** The first [rcv] bytes of a reply written at [guest_msg], which changes nothing
    else. *)
Definition sent_back (guest_msg : Z) (r : reply) (s s' : trap_state P) : Prop :=
  exists bytes, blen bytes = rcv /\
    (8 <= rcv -> le_int (sub bytes at_size 4) = size_field r) /\
    s' = with_task_memory (Dynarmic_mem_1write (task_memory s) guest_msg rcv (Some bytes)).2 s.

(** What the guest is left with: a reply that fits or the size it needs. *)
Definition answered_in (guest_msg c : Z) (s s' : trap_state P) : Prop :=
  exists r s1, c = result r /\ replied r /\ effects s r s1 /\ sent_back guest_msg r s1 s'.

Lemma finish_bytes guest_msg rcv_name r (s : trap_state P) :
  blen (text r) = L -> safe (finish_reply guest_msg rcv rcv_name r s) (fun o => o.1 = result r /\ sent_back guest_msg r s o.2).
Proof.
  intros Hl. unfold finish_reply, sizeof_mach_msg_header_t, at_local_port, at_remote_port, at_id, at_size in *.
  assert (forall buf off v, blen buf = L -> 8 <= off -> off + 4 <= 24 ->
    blen (splice buf off (le_bytes 4 v)) = L /\ sub (splice buf off (le_bytes 4 v)) 4 4 = sub buf 4 4) as Hsp.
  { intros buf off v Hb H1 H2. split; [rewrite blen_splice; rewrite ?blen_le_bytes; lia|].
    rewrite sub_splice_before; rewrite ?blen_le_bytes; lia || done. }
  apply safe_bind, safe_store; [done|rewrite blen_le_bytes; lia|].
  destruct (Hsp (text r) 12 rcv_name Hl) as [L1 S1]; [done|done|].
  apply safe_bind, safe_store; [done|rewrite blen_le_bytes; lia|].
  destruct (Hsp _ 8 0 L1) as [L2 S2]; [done|done|].
  apply safe_bind, safe_word; [done|lia|]. intros id _.
  apply safe_bind, safe_store; [done|rewrite blen_le_bytes; lia|].
  destruct (Hsp _ 20 (u32 (id + 100)) L2) as [L3 S3]; [done|done|]. set (m3 := splice _ 20 _) in *.
  apply safe_bind, safe_fetch; [done|lia|lia|].
  destruct (Dynarmic_mem_1write _ _ _ _) as [w v] eqn:Ew. apply safe_done. split; [done|].
  exists (sub m3 0 rcv). split; [apply blen_sub; lia|]. rewrite Ew. split; [|done].
  intros H8. unfold at_size. rewrite sub_sub, Z.add_0_l by lia. by rewrite S3, S2, S1.
Qed.

Lemma finish_safe guest_msg rcv_name r s s1 :
  correct s (r, s1) -> safe (finish_reply guest_msg rcv rcv_name r s1) (fun o => answered_in guest_msg o.1 s o.2).
Proof.
  intros [[Hl Hr] He]. cbn [fst snd] in *. eapply safe_mono; [by apply finish_bytes|].
  intros o [Hc Hsent]. exists r, s1. by split_and!.
Qed.
End safety.

(** C39: serving a request never reaches outside the copy of the message.  This is
    for the requests that are modelled: those of HandleGuestSimpleMachMessage and
    HandleGuestExceptionPortMessage, mach_ports_register, clock_get_time, vm_copy,
    vm_read_overwrite, vm_remap and mach_make_memory_entry_64 ([served]), and for
    identifiers that have no case; it is not for mach_port_type (3201), which does
    write outside, nor for the identifiers of [elsewhere].  Whatever sizes, ports and
    contents the guest gives, no such request makes the emulator read or write
    outside its copy of the message.  For a request that is served, unless an
    assertion of vm_remap fails, the guest gets a reply no larger than its buffer,
    or MACH_RCV_TOO_LARGE and the size it needs; in that case the memory map is as
    it was and the host was asked for nothing but a query, so no right exists whose
    name the guest was not told.  At most one host call is made for it.  Only an
    identifier without a case stops the guest: no call is made, and the message goes
    back as the reply. *)
Theorem mach_request_safe {P} (mach : mach_call -> P -> mach_answer * P) mach_task_self env resize_ok tid type_of
    guest_msg option send_size rcv_size rcv_name message (s : trap_state P) :
  let L := buffer_size send_size rcv_size in
  let id := le_int (sub message at_id 4) in
  (forall c p, 0 <= attributes (mach c p).1) -> 0 <= send_size < 2 ^ 32 -> 0 <= rcv_size < 2 ^ 32 ->
  Forall byte_ok message -> blen message = L -> id <> 3201 -> id ∉ elsewhere ->
  safe (mach_msg_request mach mach_task_self env resize_ok tid type_of guest_msg option send_size rcv_size rcv_name
          message s)
    (fun t => match t with
              | Returned c s' =>
                  (c = MACH_SEND_INVALID_DEST /\ s' = s) \/ (served id = true /\ answered_in rcv_size L guest_msg c s s')
              | Stopped c s' => served id = false /\ c = MACH_MSG_SUCCESS /\
                  exists r, result r = MACH_MSG_SUCCESS /\ sent_back rcv_size guest_msg r s s'
              | NotModelled => False
              end).
Proof.
  intros L id Hm Hs Hr Hb Hl Hid Hnot.
  assert (send_size <= L /\ rcv_size <= L /\ 24 <= L) as (HsL & HrL & HL)
    by (unfold L, buffer_size, sizeof_mach_msg_header_t; lia). clearbody L.
  unfold mach_msg_request, at_remote_port, at_size, at_bits in *.
  apply safe_bind, safe_word; [done|lia|]. intros remote _. destruct (_ && _); [apply safe_done; by left|].
  apply safe_bind, safe_store; [done|rewrite blen_le_bytes; lia|]. set (m1 := splice message 4 _).
  assert (blen m1 = L) as L1 by (unfold m1; rewrite blen_splice; rewrite ?blen_le_bytes; lia).
  assert (sub m1 20 4 = sub message 20 4) as S1
    by (unfold m1; rewrite sub_splice_after; rewrite ?blen_le_bytes; lia || done).
  apply safe_bind, safe_word; [done|lia|]. intros bits _.
  apply safe_bind, safe_store; [done|rewrite blen_le_bytes; lia|]. set (m2 := splice m1 0 _).
  assert (blen m2 = L) as L2 by (unfold m2; rewrite blen_splice; rewrite ?blen_le_bytes; lia).
  assert (le_int (sub m2 at_id 4) = id) as S2.
  { unfold id, at_id. rewrite <- S1. unfold m2. rewrite sub_splice_after; rewrite ?blen_le_bytes; lia || done. }
  apply safe_bind, safe_word; [done|unfold at_id; lia|]. intros i ->. rewrite S2.
  apply safe_bind. eapply safe_mono.
  - apply (request_dispatch_safe mach mach_task_self env resize_ok tid rcv_size L Hm Hr HrL HL type_of); try done.
    cbn [text]. unfold m2, m1. apply Forall_splice; [apply Forall_splice; [done|]|]; apply le_bytes_ok.
  - intros [r s1| |]; [intros [Hd Hv]|done|intros Hv]; apply safe_bind.
    + eapply safe_mono; [by eapply finish_safe|]. intros [c s2] Hf. apply safe_done. by right.
    + eapply safe_mono; [apply (finish_bytes rcv_size L); [done..|exact L2]|]. intros [c s2] [Hc Hf]. apply safe_done.
      split_and!; [done|exact Hc|]. eexists. split; [|exact Hf]. done.
Qed.

(** ** A client reads back what the host answered *)

(** The stub of a client: the identifier, and the request. *)
Definition id_of (k : routine) : Z :=
  match k with
  | host_kernel_version => 201 | host_page_size => 202 | clock_get_attributes => 1001 | mach_port_rename => 3202
  | mach_port_allocate_name => 3203 | mach_port_allocate => 3204 | mach_port_destroy => 3205
  | mach_port_deallocate => 3206 | mach_port_get_refs => 3207 | mach_port_mod_refs => 3208
  | mach_port_set_mscount => 3210 | mach_port_move_member => 3212 | mach_port_set_seqno => 3216
  | mach_port_insert_member => 3226 | mach_port_extract_member => 3227 | mach_port_get_context => 3228
  | mach_port_set_context => 3229 | clock_get_time => 1000
  end.

Definition mig_request (k : routine) (bits remote local : Z) (args : list Z) : list Z :=
  le_bytes 4 bits ++ le_bytes 4 (request_size k) ++ le_bytes 4 remote ++ le_bytes 4 local ++ le_bytes 4 0 ++
  le_bytes 4 (id_of k) ++ match args with [] => [] | _ => NDR_record ++ flat_map (le_bytes 4) args end.

(** What the stub takes out of the reply: the code and the results. *)
Definition decode_reply (k : routine) (reply : list Z) : Z * list Z :=
  let c := signed 4 (le_int (sub reply 32 4)) in
  if negb (c =? KERN_SUCCESS) then (c, []) else
  (c, match k with
      | host_page_size | mach_port_allocate | mach_port_get_refs => [le_int (sub reply 36 4)]
      | mach_port_get_context => [le_int (sub reply 36 8)]
      | host_kernel_version => c_string (sub reply 44 (le_int (sub reply 40 4)))
      | clock_get_attributes =>
          let count := le_int (sub reply 36 4) in words (Z.to_nat count) (sub reply 40 (4 * count))
      | _ => []
      end).

(** What it should take out of it. *)
Definition client_view (k : routine) (args : list Z) (a : mach_answer) : Z * list Z :=
  if negb (code a =? KERN_SUCCESS) then (code a, []) else
  match k with
  | host_page_size => (KERN_SUCCESS, [DYN_PAGE_SIZE])
  | mach_port_allocate | mach_port_get_refs | mach_port_get_context => (KERN_SUCCESS, [scalar a])
  | host_kernel_version =>
      if 512 <=? version_length (version a) then (MIG_TYPE_ERROR, []) else (KERN_SUCCESS, c_string (version a))
  | clock_get_attributes =>
      if (nth 1 args 0 <? attributes a) || (1 <? attributes a) then (MIG_TYPE_ERROR, [])
      else (KERN_SUCCESS, take (Z.to_nat (attributes a)) [scalar a])
  | _ => (KERN_SUCCESS, [])
  end.

(** Answers in the range of their types. *)
Record answer_ok (k : routine) (a : mach_answer) : Prop := {
  ao_code : - 2 ^ 31 <= code a < 2 ^ 31;
  ao_scalar : 0 <= scalar a < match k with mach_port_get_context => 2 ^ 64 | _ => 2 ^ 32 end;
  ao_attributes : 0 <= attributes a;
}.

Lemma le_int_le_bytes_mod n v : le_int (le_bytes n v) = v mod 256 ^ Z.of_nat n.
Proof.
  revert v. induction n as [|n IH]; intros v; cbn [le_bytes le_int]; [by rewrite Z.mod_1_r|].
  rewrite IH, Nat2Z.inj_succ, Z.pow_succ_r, Z.rem_mul_r by lia. done.
Qed.

Lemma signed_le_bytes c : - 2 ^ 31 <= c < 2 ^ 31 -> signed 4 (le_int (le_bytes 4 c)) = c.
Proof.
  intros Hc. rewrite le_int_le_bytes_mod. change (256 ^ Z.of_nat 4) with (2 ^ 32).
  unfold signed. change (8 * Z.of_nat 4 - 1) with 31. change (8 * Z.of_nat 4) with 32.
  destruct (Z.leb_spec 0 c).
  - rewrite Z.mod_small by lia. by rewrite (proj2 (Z.ltb_lt _ _)) by lia.
  - rewrite <- (Z.mod_unique c (2 ^ 32) (-1) (c + 2 ^ 32)) by lia. rewrite (proj2 (Z.ltb_ge _ _)) by lia. lia.
Qed.

Section roundtrip.
Context {P : Type} (mach : mach_call -> P -> mach_answer * P) (rcv : Z).
Context (Hrcv : 556 <= rcv < 2 ^ 32).

Lemma put_done size body r : 24 <= blen (text r) -> 32 + blen body <= blen (text r) ->
  exists r', put size body r = Done r' /\ result r' = result r /\ sub (text r') 32 (blen body) = body.
Proof.
  intros H24 Hb. unfold put, header, sizeof_mach_msg_header_t. rewrite fetch_in_buf by lia. cbn [mbind mret outcome_bind outcome_ret].
  pose proof (blen_nonneg body). unfold at_remote_port, at_bits.
  match goal with |- context [store _ 0 ((?h) ++ NDR_record ++ body)] => set (h0 := h) end.
  assert (blen h0 = 24) as Hh.
  { unfold h0. rewrite !blen_app, !blen_le_bytes, blen_sub; rewrite ?blen_sub; lia. }
  assert (blen (h0 ++ NDR_record ++ body) = 32 + blen body) as Ha by (rewrite !blen_app, Hh; change (blen NDR_record) with 8; lia).
  unfold store. rewrite (proj2 (in_buf_true _ _ _)) by (rewrite Ha; lia). cbn [mbind mret outcome_bind outcome_ret].
  eexists. split; [done|]. split; [done|]. cbn [text]. rewrite sub_splice_inside by lia.
  unfold sub, blen in *. change (Z.to_nat (32 - 0)) with 32%nat.
  rewrite drop_app_ge by lia. replace (32 - length h0)%nat with 8%nat by lia.
  change (drop 8 (NDR_record ++ body)) with body. by rewrite Nat2Z.id, firstn_all.
Qed.

Lemma put_out size body r : rcv <= blen (text r) -> 32 + blen body <= rcv ->
  exists r', put size body r = Done r' /\ result r' = result r /\
    forall o n, 32 <= o -> 0 <= n -> o + n <= 32 + blen body -> sub (text r') o n = sub body (o - 32) n.
Proof.
  intros Hl Hb. destruct (put_done size body r) as (r' & E & Hr & Hs); [lia|lia|]. exists r'. split; [done|]. split; [done|].
  intros o n Ho Hn Hon. rewrite <- Hs, sub_sub by lia. f_equal. lia.
Qed.

Lemma require_done size r : size <= rcv -> require rcv size r = Done (true, r).
Proof. intros Hs. unfold require. by rewrite (proj2 (Z.leb_le _ _)). Qed.

(** The code comes back, and the results are those of the body. *)
Lemma error_out c r : rcv <= blen (text r) -> - 2 ^ 31 <= c < 2 ^ 31 ->
  exists r', error rcv c r = Done r' /\ result r' = result r /\ signed 4 (le_int (sub (text r') 32 4)) = c.
Proof.
  intros Hl Hc. unfold error. rewrite require_done by (unfold sizeof_mig_reply_error_t; lia).
  cbn [mbind outcome_bind negb]. destruct (put_out sizeof_mig_reply_error_t (le_bytes 4 c) r) as (r' & E & Hr & Hs); [done| |].
  { rewrite blen_le_bytes. lia. }
  exists r'. split; [done|]. split; [done|]. rewrite Hs by (rewrite ?blen_le_bytes; lia). by apply signed_le_bytes.
Qed.

Lemma scalar_out n c v r : rcv <= blen (text r) -> (n <= 8)%nat -> - 2 ^ 31 <= c < 2 ^ 31 -> 0 <= v < 256 ^ Z.of_nat n ->
  exists r', scalar_reply rcv n c v r = Done r' /\ result r' = result r /\ signed 4 (le_int (sub (text r') 32 4)) = c /\
    (c = KERN_SUCCESS -> le_int (sub (text r') 36 (Z.of_nat n)) = v).
Proof.
  intros Hl Hn Hc Hv. unfold scalar_reply. destruct (Z.eqb_spec c KERN_SUCCESS) as [->|Hne]; cbn [negb].
  - rewrite require_done by (unfold sizeof_mig_reply_error_t; lia). cbn [mbind outcome_bind negb].
    edestruct (put_out (sizeof_mig_reply_error_t + Z.of_nat n) (le_bytes 4 KERN_SUCCESS ++ le_bytes n v) r) as (r' & E & Hr & Hs);
      [done|rewrite blen_app, !blen_le_bytes; lia|]. rewrite blen_app, !blen_le_bytes in Hs.
    exists r'. split; [done|]. split; [done|]. split; [by rewrite Hs by lia|]. intros _. rewrite Hs by lia.
    unfold sub. change (Z.to_nat (36 - 32)) with 4%nat. rewrite Nat2Z.id, drop_app_length' by done.
    rewrite take_ge by (rewrite length_le_bytes; done). by apply le_int_le_bytes.
  - destruct (error_out c r Hl Hc) as (r' & E & Hr & Hs). exists r'. split_and!; done.
Qed.

Lemma c_string_take n bs i : find_zero (take n bs) = Some i -> c_string (take (Z.to_nat (i + 1)) bs) = c_string bs.
Proof.
  revert n i. induction bs as [|b bs IH]; intros n i; [by rewrite take_nil|]. destruct n as [|n]; [done|]. cbn [take find_zero].
  destruct (Z.eqb_spec b 0) as [->|Hb].
  - intros [= <-]. done.
  - destruct (find_zero (take n bs)) as [j|] eqn:E; [|done]. intros [= <-].
    pose proof (find_zero_spec _ _ E) as Hj. replace (Z.to_nat (Z.succ j + 1)) with (S (Z.to_nat (j + 1))) by lia.
    cbn [take c_string]. rewrite (proj2 (Z.eqb_neq b 0)) by done. f_equal. by eapply IH.
Qed.

#[local] Abbreviation called_state s p c := {| task_memory := task_memory s; port_space := p; calls := calls s ++ [c] |}.

Definition call_of (k : routine) (remote : Z) (args : list Z) : mach_call :=
  {| called := k; target := remote; arguments := host_arguments k args |}.

Lemma ask_done c (s : trap_state P) a p : mach c (port_space s) = (a, p) -> ask mach c s = (a, called_state s p c).
Proof. unfold ask. by intros ->. Qed.

Lemma decode_error k reply c view :
  signed 4 (le_int (sub reply 32 4)) = c -> c <> KERN_SUCCESS -> view = (c, []) -> decode_reply k reply = view.
Proof. intros H Hc ->. unfold decode_reply. rewrite H. by rewrite (proj2 (Z.eqb_neq _ _)) by done. Qed.

Lemma version_out remote args r s a p :
  rcv <= blen (text r) -> answer_ok host_kernel_version a -> mach (call_of host_kernel_version remote args) (port_space s) = (a, p) ->
  exists r', serve mach host_kernel_version remote args rcv r s = Done (r', called_state s p (call_of host_kernel_version remote args)) /\
    result r' = result r /\ decode_reply host_kernel_version (text r') = client_view host_kernel_version args a.
Proof.
  intros Hl [Hc _ _] Ea. cbn [serve]. fold (call_of host_kernel_version remote args). rewrite (ask_done _ _ _ _ Ea).
  unfold client_view. destruct (Z.eqb_spec (code a) KERN_SUCCESS) as [E0|Hne]; cbn [negb].
  2:{ destruct (error_out (code a) r Hl Hc) as (r' & -> & Hr & Hs). exists r'. split_and!; [done..|].
      by eapply decode_error. }
  cbv zeta. destruct (Z.leb_spec 512 (version_length (version a))) as [Hv|Hv].
  { destruct (error_out MIG_TYPE_ERROR r Hl) as (r' & -> & Hr & Hs); [done|]. exists r'. split_and!; [done..|].
    by eapply decode_error. }
  destruct (version_length_range (version a)) as [Hr0 Hlt]. specialize (Hlt Hv).
  set (count := version_length (version a) + 1). pose proof (round_up_words count ltac:(lia)) as Hw.
  set (size := 44 + _). assert (size <= 556).
  { unfold size. destruct (Z.eq_dec count 512) as [->|]; [done|]. destruct (Z.eq_dec count 511) as [->|]; [done|].
    destruct (Z.eq_dec count 510) as [->|]; [done|]. lia. }
  rewrite require_done by lia. cbn [mbind outcome_bind negb].
  set (padded := sub (version a) 0 count ++ zeros (512 - count)).
  assert (blen padded = 512) as Hp by (unfold padded; rewrite blen_app, blen_sub, blen_zeros by lia; lia).
  edestruct (put_out size (le_bytes 4 KERN_SUCCESS ++ le_bytes 4 0 ++ le_bytes 4 count ++ sub padded 0 (size - 44)) r)
    as (r' & -> & Hr & Hs); [done|rewrite !blen_app, !blen_le_bytes, blen_sub; lia|].
  rewrite !blen_app, !blen_le_bytes, blen_sub in Hs by lia.
  assert (le_int (sub (text r') 32 4) = 0) as E32 by (by rewrite Hs by lia).
  assert (le_int (sub (text r') 40 4) = count) as E40.
  { rewrite Hs by lia. change (sub _ (40 - 32) 4) with (le_bytes 4 count). apply le_int_le_bytes. change (256 ^ Z.of_nat 4) with (2 ^ 32). lia. }
  exists r'. split; [done|]. split; [done|]. unfold decode_reply. rewrite E32, E40. change (signed 4 0 =? KERN_SUCCESS) with true.
  cbn [negb]. f_equal. rewrite Hs by lia. change (sub _ (44 - 32) count) with (sub (sub padded 0 (size - 44)) 0 count).
  rewrite sub_sub by lia. unfold padded, sub at 1. rewrite Z.add_0_l, drop_0, take_app_length'.
  - unfold sub. rewrite drop_0. eapply (c_string_take 512). unfold count, version_length in *.
    destruct (find_zero _) as [i|]; cbn in *; [done|lia].
  - pose proof (blen_sub (version a) 0 count ltac:(lia) ltac:(lia) ltac:(lia)) as Hls. unfold blen in Hls. lia.
Qed.

Lemma clock_out remote args r s a p :
  rcv <= blen (text r) -> 0 <= nth 1 args 0 <= 1 -> answer_ok clock_get_attributes a ->
  mach (call_of clock_get_attributes remote args) (port_space s) = (a, p) ->
  exists r', serve mach clock_get_attributes remote args rcv r s = Done (r', called_state s p (call_of clock_get_attributes remote args)) /\
    result r' = result r /\ decode_reply clock_get_attributes (text r') = client_view clock_get_attributes args a.
Proof.
  intros Hl Ha [Hc Hs Hat] Ea. cbn [serve]. fold (call_of clock_get_attributes remote args). unfold clock_capacity.
  rewrite (proj2 (Z.ltb_ge _ _)) by lia. rewrite require_done by lia. cbn [mbind outcome_bind negb].
  rewrite (ask_done _ _ _ _ Ea). unfold client_view. destruct (Z.eqb_spec (code a) KERN_SUCCESS) as [E0|Hne]; cbn [negb].
  2:{ destruct (error_out (code a) r Hl Hc) as (r' & -> & Hr & Hd). exists r'. split_and!; [done..|]. by eapply decode_error. }
  destruct (_ || _) eqn:Eb.
  { destruct (error_out MIG_TYPE_ERROR r Hl) as (r' & -> & Hr & Hd); [done|]. exists r'. split_and!; [done..|]. by eapply decode_error. }
  apply orb_false_iff in Eb as [_ E2%Z.ltb_ge]. cbv zeta.
  edestruct (put_out (40 + 4 * attributes a) (le_bytes 4 KERN_SUCCESS ++ le_bytes 4 (attributes a) ++ sub (le_bytes 4 (scalar a)) 0 (4 * attributes a)) r)
    as (r' & -> & Hr & Hd); [done|rewrite !blen_app, !blen_le_bytes, blen_sub; rewrite ?blen_le_bytes; lia|].
  rewrite !blen_app, !blen_le_bytes, blen_sub in Hd by (rewrite ?blen_le_bytes; lia).
  exists r'. split; [done|]. split; [done|]. unfold decode_reply.
  assert (attributes a = 0 \/ attributes a = 1) as [E1|E1] by lia; rewrite E1 in *.
  - by rewrite !Hd by lia.
  - rewrite !Hd by lia. change (sub _ (36 - 32) 4) with (le_bytes 4 1).
    change (sub _ (32 - 32) 4) with (le_bytes 4 0). change (le_int (le_bytes 4 1)) with 1. change (le_int (le_bytes 4 0)) with 0.
    change (signed 4 0 =? KERN_SUCCESS) with true. cbn [negb]. change (Z.to_nat 1) with 1%nat. f_equal.
    rewrite Hd by lia. cbn [words take]. f_equal. change (take 4 _) with (le_bytes 4 (scalar a)). by apply le_int_le_bytes.
Qed.

(** A call behind the preflight: exactly one host call, and its answer is what the
    client reads. *)
Lemma serve_out k remote args r s a p :
  k <> clock_get_time -> rcv <= blen (text r) -> (k = clock_get_attributes -> 0 <= nth 1 args 0 <= 1) -> answer_ok k a ->
  mach (call_of k remote args) (port_space s) = (a, p) ->
  exists r', serve mach k remote args rcv r s = Done (r', called_state s p (call_of k remote args)) /\
    result r' = result r /\ decode_reply k (text r') = client_view k args a.
Proof.
  intros Hk Hl Hcl Hok Ea. pose proof (ao_code _ _ Hok) as Hc. pose proof (ao_scalar _ _ Hok) as Hs.
  destruct k; first [done|by apply version_out|apply clock_out; by try apply Hcl|idtac];
    unfold call_of in Ea; cbn [serve]; rewrite (ask_done _ _ _ _ Ea); unfold client_view, decode_reply.
  all: first
    [ destruct (scalar_out 4 (code a) DYN_PAGE_SIZE r) as (r' & -> & Hr & Hd & He); [done|lia|done|done|]
    | destruct (scalar_out 4 (code a) (scalar a) r) as (r' & -> & Hr & Hd & He); [done|lia|done|done|]
    | destruct (scalar_out 8 (code a) (scalar a) r) as (r' & -> & Hr & Hd & He); [done|lia|done|done|]
    | destruct (error_out (code a) r Hl Hc) as (r' & -> & Hr & Hd) ];
    exists r'; (split; [done|]); (split; [done|]); rewrite Hd;
    (destruct (Z.eqb_spec (code a) KERN_SUCCESS) as [E0|]; cbn [negb]; [|done]); rewrite E0; first [done|do 2 f_equal; exact (He E0)].
Qed.

Lemma words_flat_map args : Forall (fun x => 0 <= x < 2 ^ 32) args -> words (length args) (flat_map (le_bytes 4) args) = args.
Proof.
  induction 1 as [|x l Hx Hl IH]; [done|]. cbn [length words flat_map].
  rewrite take_app_length', drop_app_length', IH by done. f_equal. by apply le_int_le_bytes.
Qed.

Lemma blen_flat_map args : blen (flat_map (le_bytes 4) args) = 4 * Z.of_nat (length args).
Proof. induction args as [|x l IH]; [done|]. cbn [flat_map length]. rewrite blen_app, IH, blen_le_bytes. lia. Qed.

Lemma read_arguments_done k bits remote local args rest :
  length args = argument_count k -> Forall (fun x => 0 <= x < 2 ^ 32) args ->
  read_arguments k (mig_request k bits remote local args ++ rest) = Done (Some args).
Proof.
  intros Hn Ha. unfold read_arguments, sizeof_mach_msg_header_t. destruct (argument_count k) as [|n].
  { by destruct args. }
  destruct args as [|x l]; [done|]. set (args := x :: l) in *.
  assert (mig_request k bits remote local args ++ rest = (le_bytes 4 bits ++ le_bytes 4 (request_size k) ++ le_bytes 4 remote ++
    le_bytes 4 local ++ le_bytes 4 0 ++ le_bytes 4 (id_of k)) ++ NDR_record ++ flat_map (le_bytes 4) args ++ rest) as ->
    by (unfold mig_request, args; by rewrite <- !app_assoc).
  match goal with |- context [?x ++ NDR_record ++ _] => set (h := x) end. assert (length h = 24%nat) as Hh by done. clearbody h.
  pose proof (blen_flat_map args) as Hf. rewrite Hn in Hf.
  assert (sub (h ++ NDR_record ++ flat_map (le_bytes 4) args ++ rest) 24 8 = NDR_record) as E1.
  { unfold sub. rewrite drop_app_length' by exact (eq_sym Hh). reflexivity. }
  assert (sub (h ++ NDR_record ++ flat_map (le_bytes 4) args ++ rest) (24 + 8) (4 * Z.of_nat (S n)) = flat_map (le_bytes 4) args) as E2.
  { unfold sub. rewrite (app_assoc h), drop_app_length' by (rewrite length_app, Hh; reflexivity). apply take_app_length'. unfold blen in Hf. lia. }
  assert (blen (h ++ NDR_record ++ flat_map (le_bytes 4) args ++ rest) = 32 + 4 * Z.of_nat (S n) + blen rest) as El.
  { rewrite !blen_app, Hf. unfold blen at 1. rewrite Hh. change (blen NDR_record) with 8. lia. }
  pose proof (blen_nonneg rest). rewrite !fetch_in_buf, E1, E2 by lia. cbn [mbind outcome_bind mret outcome_ret].
  rewrite bool_decide_eq_true_2 by done. cbn [negb]. rewrite <- Hn. by rewrite words_flat_map.
Qed.

Lemma header_fields k bits remote local args rest :
  sub (mig_request k bits remote local args ++ rest) at_id 4 = le_bytes 4 (id_of k) /\
  sub (mig_request k bits remote local args ++ rest) at_size 4 = le_bytes 4 (request_size k) /\
  sub (mig_request k bits remote local args ++ rest) at_remote_port 4 = le_bytes 4 remote.
Proof. done. Qed.
End roundtrip.

(** C40: a client that sends a well-formed request and has room for the reply gets, for
    each of the calls of the table, exactly the host's answer: one host call with
    the request's target and arguments, and a reply from which its stub takes the
    same code and the same results, the size of a guest page in place of a host
    page, and nothing but the code if the call failed. *)
Theorem mach_routine_roundtrip {P} (mach : mach_call -> P -> mach_answer * P) k bits remote local args rest rcv
    (s : trap_state P) a p :
  k <> clock_get_time -> length args = argument_count k -> Forall (fun x => 0 <= x < 2 ^ 32) args ->
  0 <= bits < 2 ^ 31 -> 0 <= remote < 2 ^ 32 -> 556 <= rcv < 2 ^ 32 ->
  rcv <= blen (mig_request k bits remote local args ++ rest) -> (k = clock_get_attributes -> nth 1 args 0 <= 1) ->
  mach {| called := k; target := remote; arguments := host_arguments k args |} (port_space s) = (a, p) -> answer_ok k a ->
  exists r, HandleGuestSimpleMachMessage mach (request_size k) rcv bits (mig_request k bits remote local args ++ rest) s =
      Done (Some (r, {| task_memory := task_memory s; port_space := p;
                        calls := calls s ++ [{| called := k; target := remote; arguments := host_arguments k args |}] |})) /\
    result r = MACH_MSG_SUCCESS /\ decode_reply k (text r) = client_view k args a.
Proof.
  intros Hk Hn Ha Hb Hr Hrcv Hl Hc Ea Hok. unfold HandleGuestSimpleMachMessage.
  set (message := mig_request k bits remote local args ++ rest) in *.
  destruct (header_fields k bits remote local args rest) as (Ei & Es & Et). fold message in Ei, Es, Et.
  unfold u32_at. rewrite !fetch_in_buf by (unfold at_id, at_size; lia). rewrite Ei, Es.
  cbn [fmap outcome_fmap mbind outcome_bind].
  assert (routine_of (le_int (le_bytes 4 (id_of k))) = Some k) as -> by (by destruct k).
  assert (0 <= request_size k < 2 ^ 32) by (by destruct k).
  rewrite (le_int_le_bytes 4 (request_size k)), Z.eqb_refl by done. cbn [negb orb].
  assert (has_flag bits MACH_MSGH_BITS_COMPLEX = false) as ->.
  { unfold has_flag, MACH_MSGH_BITS_COMPLEX. change 0x80000000 with (2 ^ 31). rewrite Z.land_comm, <- (Z.mod_small bits (2 ^ 31)) by done.
    rewrite <- Z.land_ones by done. by rewrite (Z.land_comm bits), Z.land_assoc. }
  rewrite (read_arguments_done k bits remote local args rest Hn Ha : read_arguments k message = _). cbn [mbind outcome_bind].
  rewrite require_done by (destruct (routine_bounds k); lia). cbn [mbind outcome_bind negb text].
  rewrite fetch_in_buf by (unfold at_remote_port; lia). rewrite Et. cbn [fmap outcome_fmap mbind outcome_bind].
  rewrite le_int_le_bytes by done.
  edestruct (serve_out mach rcv Hrcv k remote args {| text := message; result := MACH_MSG_SUCCESS |} s a p) as (r & -> & H1 & H2);
    [done|done| |done|exact Ea|].
  { intros ->. split; [|by apply Hc]. destruct (nth_in_or_default 1 args 0) as [Hi| ->]; [|done].
    apply list_elem_of_In in Hi. rewrite Forall_forall in Ha. by apply Ha. }
  by exists r.
Qed.

(** ** Concrete messages *)

(** A host whose port names are counted up. *)
Definition counting_host (c : mach_call) (p : Z) : mach_answer * Z :=
  ({| code := KERN_SUCCESS; scalar := p; attributes := 0; version := [68; 0] |}, p + 1).

Definition demo_trap : trap_state Z := {| task_memory := demo; port_space := 0x1203; calls := [] |}.

Definition run_request (send_size rcv_size : Z) (message : list Z) : outcome unit (trap_answer (P := Z)) :=
  mach_msg_request counting_host 0x203 demo_env true 0 (fun _ _ => (KERN_SUCCESS, 0)) 0x20000000 3 send_size rcv_size 0x707
    message demo_trap.

(** mach_port_allocate, with a buffer of four bytes less than the reply needs. *)
Definition short_request : list Z := mig_request mach_port_allocate 0x1513 0x203 0x707 [1].

Lemma mach_request_safe_witness :
  match run_request 36 36 short_request with
  | Done (Returned c s) => c = MACH_RCV_TOO_LARGE /\ calls s = []
  | _ => False
  end /\
  safe (run_request 36 36 short_request)
    (fun t => match t with
              | Returned c s' => (c = MACH_SEND_INVALID_DEST /\ s' = demo_trap) \/
                  (served 3204 = true /\ answered_in 36 36 0x20000000 c demo_trap s')
              | _ => False
              end).
Proof.
  split; [vm_compute; by split|].
  eapply safe_mono; [apply (mach_request_safe counting_host 0x203 demo_env true 0 (fun _ _ => (KERN_SUCCESS, 0)) 0x20000000 3
    36 36 0x707 short_request demo_trap); [done|done|done| |reflexivity|vm_compute; congruence|]|].
  - apply Forall_forall. intros b Hb. assert (forallb (fun b => (0 <=? b) && (b <? 256)) short_request = true) as H by reflexivity.
    rewrite forallb_forall in H. apply list_elem_of_In, H, andb_prop in Hb. unfold byte_ok. lia.
  - vm_compute. intros H. repeat (apply elem_of_cons in H as [H|H]; [discriminate H|]). by apply elem_of_nil in H.
  - intros [c s'|c s'|]; [intros H; exact H| |intros H; exact H]. intros (H & _). vm_compute in H. discriminate H.
Defined.

Lemma mach_routine_roundtrip_witness :
  client_view mach_port_get_refs [0x1203; 0] (counting_host {| called := mach_port_get_refs; target := 0x203; arguments := [0x1203; 0] |} 0x1203).1
    = (0, [0x1203]) /\
  exists r s', HandleGuestSimpleMachMessage counting_host 40 556 0x1513
      (mig_request mach_port_get_refs 0x1513 0x203 0x707 [0x1203; 0] ++ zeros 516) demo_trap = Done (Some (r, s')) /\
    decode_reply mach_port_get_refs (text r) = (0, [0x1203]).
Proof.
  split; [reflexivity|].
  destruct (mach_routine_roundtrip counting_host mach_port_get_refs 0x1513 0x203 0x707 [0x1203; 0] (zeros 516) 556 demo_trap
    {| code := KERN_SUCCESS; scalar := 0x1203; attributes := 0; version := [68; 0] |} 0x1204) as (r & E & _ & H);
    [done|reflexivity|by repeat constructor|done|done|done|vm_compute; congruence|done|reflexivity|by constructor|].
  exists r. eexists. split; [exact E|exact H].
Defined.

(** A well-formed request for mach_port_type from a client that offers a header to
    receive: the reply is laid over a buffer that is too small for it. *)
Lemma mach_port_type_overflows :
  run_request 36 24 (mig_request mach_port_destroy 0x1513 0x203 0x707 [0x1203]) <> Fault /\
  run_request 36 24 (splice (mig_request mach_port_destroy 0x1513 0x203 0x707 [0x1203]) at_id (le_bytes 4 3201)) = Fault.
Proof. split; [vm_compute; congruence|vm_compute; reflexivity]. Qed.

(** An identifier without a case stops the guest, and the message comes back with the
    identifier of a reply. *)
Lemma unknown_request_stops :
  match run_request 36 36 (splice short_request at_id (le_bytes 4 9999)) with
  | Done (Stopped c s) => c = MACH_MSG_SUCCESS /\ calls s = []
  | _ => False
  end.
Proof. vm_compute. by split. Qed.
