(* ===== verification/ThreadState.v ===== *)
(** Suspending guest threads and reading their registers: the handshake between the
    host thread that runs a guest thread and those that stop it or look at it
    (dynarmic_thread_state.cpp, [NativeThreadStateSlot]).

    The owner of a slot runs guest code and host calls; the others suspend, resume
    and request snapshots.  Each critical section, under [mutex] or
    [registerAccessMutex], is one definition, and [step] lets them interleave in any
    order.  Waiting is the absence of a step.  The guest debugger, which has its own
    coordinator, is taken to be inactive, and what "runs" means is the
    recompiler's: it may stop at any time, and takes its halt bit or leaves it.

    The theorems: a thread that is suspended and has acknowledged it stays where it
    is until it is resumed, and a snapshot is what the registers were at some moment
    of the request at which the thread did not run. *)

From stdpp Require Import base gmap list list_numbers.
From Stdlib Require Import ZArith Lia.
From S2P Require Import Prelude GuestMemory Bytes HostCalls VmTraps Workqueue.

Open Scope list_scope.
Open Scope Z_scope.

Definition INT_MAX : Z := 2 ^ 31 - 1.
Definition KERN_ABORTED : Z := 14.

(** ** The slot *)

Record NativeThreadStateSlot := {
  nextGeneration : Z;
  requestedGeneration : Z;
  acknowledgedGeneration : Z;
  releasedGeneration : Z;
  snapshot : context32;
  snapshotValid : bool;
  ownerExited : bool;
  suspendCount : Z;
  suspendAcknowledged : bool;
  hostCallDepth : Z;
  hostCallQuiescenceDepth : Z;
  guestCallbackDepth : Z;
  hostRegistersQuiescent : bool;
}.

Definition with_generations (next requested acknowledged released : Z) (s : NativeThreadStateSlot)
    : NativeThreadStateSlot :=
  {| nextGeneration := next; requestedGeneration := requested; acknowledgedGeneration := acknowledged;
     releasedGeneration := released; snapshot := snapshot s; snapshotValid := snapshotValid s;
     ownerExited := ownerExited s; suspendCount := suspendCount s; suspendAcknowledged := suspendAcknowledged s;
     hostCallDepth := hostCallDepth s; hostCallQuiescenceDepth := hostCallQuiescenceDepth s;
     guestCallbackDepth := guestCallbackDepth s; hostRegistersQuiescent := hostRegistersQuiescent s |}.

Definition with_snapshot (c : context32) (valid : bool) (s : NativeThreadStateSlot) : NativeThreadStateSlot :=
  {| nextGeneration := nextGeneration s; requestedGeneration := requestedGeneration s;
     acknowledgedGeneration := acknowledgedGeneration s; releasedGeneration := releasedGeneration s;
     snapshot := c; snapshotValid := valid; ownerExited := ownerExited s; suspendCount := suspendCount s;
     suspendAcknowledged := suspendAcknowledged s; hostCallDepth := hostCallDepth s;
     hostCallQuiescenceDepth := hostCallQuiescenceDepth s; guestCallbackDepth := guestCallbackDepth s;
     hostRegistersQuiescent := hostRegistersQuiescent s |}.

Definition with_suspension (exited : bool) (count : Z) (acknowledged : bool) (s : NativeThreadStateSlot)
    : NativeThreadStateSlot :=
  {| nextGeneration := nextGeneration s; requestedGeneration := requestedGeneration s;
     acknowledgedGeneration := acknowledgedGeneration s; releasedGeneration := releasedGeneration s;
     snapshot := snapshot s; snapshotValid := snapshotValid s; ownerExited := exited; suspendCount := count;
     suspendAcknowledged := acknowledged; hostCallDepth := hostCallDepth s;
     hostCallQuiescenceDepth := hostCallQuiescenceDepth s; guestCallbackDepth := guestCallbackDepth s;
     hostRegistersQuiescent := hostRegistersQuiescent s |}.

Definition with_depths (host quiescence callback : Z) (quiescent : bool) (s : NativeThreadStateSlot)
    : NativeThreadStateSlot :=
  {| nextGeneration := nextGeneration s; requestedGeneration := requestedGeneration s;
     acknowledgedGeneration := acknowledgedGeneration s; releasedGeneration := releasedGeneration s;
     snapshot := snapshot s; snapshotValid := snapshotValid s; ownerExited := ownerExited s;
     suspendCount := suspendCount s; suspendAcknowledged := suspendAcknowledged s; hostCallDepth := host;
     hostCallQuiescenceDepth := quiescence; guestCallbackDepth := callback; hostRegistersQuiescent := quiescent |}.

(** [ResetNativeThreadStateSlot]. *)
Definition ResetNativeThreadStateSlot : NativeThreadStateSlot :=
  {| nextGeneration := 0; requestedGeneration := 0; acknowledgedGeneration := 0; releasedGeneration := 0;
     snapshot := zero_context; snapshotValid := false; ownerExited := false; suspendCount := 0;
     suspendAcknowledged := false; hostCallDepth := 0; hostCallQuiescenceDepth := 0; guestCallbackDepth := 0;
     hostRegistersQuiescent := false |}.

(** [NativeThreadStateOwnerExited]. *)
Definition NativeThreadStateOwnerExited (s : NativeThreadStateSlot) : NativeThreadStateSlot :=
  with_suspension true 0 false
    (with_generations (nextGeneration s) (requestedGeneration s) (acknowledgedGeneration s)
       (Z.max (releasedGeneration s) (requestedGeneration s)) s).

Definition suspended (s : NativeThreadStateSlot) : bool := negb (suspendCount s =? 0).
Definition snapshot_requested (s : NativeThreadStateSlot) : bool := releasedGeneration s <? requestedGeneration s.

(** [NativeThreadStatePauseRequestedForCurrent]. *)
Definition NativeThreadStatePauseRequestedForCurrent (s : NativeThreadStateSlot) : bool :=
  suspended s || snapshot_requested s.

(** The registers are saved for the request that is pending. *)
Definition save (regs : context32) (s : NativeThreadStateSlot) : NativeThreadStateSlot :=
  with_generations (nextGeneration s) (requestedGeneration s) (requestedGeneration s) (releasedGeneration s)
    (with_snapshot regs true s).

Definition acknowledge (b : bool) (s : NativeThreadStateSlot) : NativeThreadStateSlot :=
  with_suspension (ownerExited s) (suspendCount s) b s.

(** ** Sections of the owner *)

(** One round of [PublishNativeThreadStateAndWaitIfNeeded]: the owner waits for
    another round, or ([None]) goes on with its halt bit cleared.  [stop] is the
    owner's retirement, or the end of the process. *)
Definition PublishNativeThreadStateAndWaitIfNeeded (stop : bool) (regs : context32) (s : NativeThreadStateSlot)
    : option NativeThreadStateSlot :=
  if NativeThreadStatePauseRequestedForCurrent s && negb (ownerExited s) && negb stop then
    let s1 := if (acknowledgedGeneration s <? requestedGeneration s) ||
                 (suspended s && negb (suspendAcknowledged s))
              then save regs s else s in
    Some (acknowledge (suspended s) s1)
  else None.

(** [AcknowledgeNestedNativeThreadStateRequest]: a thread that waits for another
    thread's answer gives its own. *)
Definition AcknowledgeNestedNativeThreadStateRequest (regs : context32) (s : NativeThreadStateSlot)
    : NativeThreadStateSlot :=
  let snapshotPending := snapshot_requested s && (acknowledgedGeneration s <? requestedGeneration s) in
  let suspensionPending := suspended s && negb (suspendAcknowledged s) in
  if (negb snapshotPending && negb suspensionPending) || ownerExited s then s
  else acknowledge (suspended s) (save regs s).

(** The calls that cross between guest and host; an exit knows the depth at its entry. *)
Inductive crossing :=
  | HostCallEnter
  | HostCallExit (quiescenceDepth : Z)
  | QuiescenceBegin
  | QuiescenceEnd
  | CallbackBegin.

(** One round of [LockUnsuspendedGuestRegisters]: whether the lock is held. *)
Definition LockUnsuspendedGuestRegisters (stop : bool) (regs : context32) (s : NativeThreadStateSlot)
    : bool * NativeThreadStateSlot :=
  if negb (suspended s) || ownerExited s || stop then (true, s)
  else (false, acknowledge true (save regs s)).

(** What the crossing does under the lock, and whether the owner is then in native
    code that leaves its registers alone; [None] is a failed assertion. *)
Definition cross (op : crossing) (s : NativeThreadStateSlot) : option (NativeThreadStateSlot * bool) :=
  let host := hostCallDepth s in
  let quiescence := hostCallQuiescenceDepth s in
  let callback := guestCallbackDepth s in
  match op with
  | HostCallEnter => Some (with_depths (host + 1) quiescence callback false s, false)
  | HostCallExit q =>
      if (host =? 0) || negb (quiescence =? q) then None
      else Some (with_depths (host - 1) quiescence callback false s, false)
  | QuiescenceBegin =>
      if host =? 0 then Some (s, hostRegistersQuiescent s) else
      Some (with_depths host (quiescence + 1) callback (callback =? 0) s, callback =? 0)
  | QuiescenceEnd =>
      if quiescence =? 0 then None else Some (with_depths host (quiescence - 1) callback false s, false)
  | CallbackBegin => Some (with_depths host quiescence (callback + 1) false s, false)
  end.

(** [NativeGuestCallbackRegisterAccessEnd], which does not wait. *)
Definition NativeGuestCallbackRegisterAccessEnd (s : NativeThreadStateSlot) : option (NativeThreadStateSlot * bool) :=
  let callback := guestCallbackDepth s - 1 in
  let quiescent := negb (hostCallQuiescenceDepth s =? 0) && (callback =? 0) in
  if guestCallbackDepth s =? 0 then None
  else Some (with_depths (hostCallDepth s) (hostCallQuiescenceDepth s) callback quiescent s, quiescent).

(** ** Sections of the others *)

Definition registers_quiescent (s : NativeThreadStateSlot) : bool :=
  hostRegistersQuiescent s && negb (hostCallDepth s =? 0) && negb (hostCallQuiescenceDepth s =? 0) &&
  (guestCallbackDepth s =? 0).

(** [TryCopyQuiescentNativeThreadState]. *)
Definition TryCopyQuiescentNativeThreadState (regs : context32) (s : NativeThreadStateSlot) : option context32 :=
  if registers_quiescent s then Some regs else None.

(** [AcknowledgeQuiescentGuestSuspension]. *)
Definition AcknowledgeQuiescentGuestSuspension (regs : context32) (s : NativeThreadStateSlot) : NativeThreadStateSlot :=
  if negb (registers_quiescent s) then s else
  if negb (suspended s) || suspendAcknowledged s || ownerExited s then s
  else acknowledge true (save regs s).

(** The first section of a suspension: an error, or the thread is told. *)
Definition suspend_section (s : NativeThreadStateSlot) : Z + NativeThreadStateSlot :=
  if ownerExited s then inl KERN_INVALID_ARGUMENT else
  if suspendCount s =? INT_MAX then inl KERN_RESOURCE_SHORTAGE else
  inr (with_suspension (ownerExited s) (suspendCount s + 1)
         (if suspendCount s =? 0 then false else suspendAcknowledged s) s).

(** The end of its wait: [None] as long as it goes on. *)
Definition suspend_result (stop : bool) (s : NativeThreadStateSlot) : option Z :=
  if suspended s && negb (suspendAcknowledged s) && negb (ownerExited s) && negb stop then None else
  Some (if ownerExited s then KERN_INVALID_ARGUMENT else
        if negb (suspended s) || suspendAcknowledged s then KERN_SUCCESS else KERN_ABORTED).

(** A resumption: an error, or the new slot and whether the halt bit is cleared. *)
Definition resume_section (s : NativeThreadStateSlot) : Z + NativeThreadStateSlot * bool :=
  if ownerExited s then inl KERN_INVALID_ARGUMENT else
  if suspendCount s =? 0 then inl KERN_FAILURE else
  let count := suspendCount s - 1 in
  inr (with_suspension (ownerExited s) count (if count =? 0 then false else suspendAcknowledged s) s,
       (count =? 0) && negb (snapshot_requested s)).

(** The thread that thread_suspend and thread_resume mean, or the error: [pinned]
    is whether its runtime still exists. *)
Definition suspend_target (native_threads overlay_active : bool) (workqueue_port : Z) (pinned : Z -> bool)
    (target : Z) (suspend : bool) (ts : list GuestThreadContext) : Z + Z :=
  if negb (MACH_PORT_VALID target) then inl KERN_INVALID_ARGUMENT else
  if overlay_active && (target =? workqueue_port) then inl KERN_NOT_SUPPORTED else
  match List.find (fun t => alive t && (threadPort t =? target)) ts with
  | None => inl KERN_INVALID_ARGUMENT
  | Some t =>
      if negb native_threads || (suspend && (debuggerId t =? 1) && overlay_active) then inl KERN_NOT_SUPPORTED else
      if (debuggerId t =? 1) || pinned (debuggerId t) then inr (debuggerId t) else inl KERN_INVALID_ARGUMENT
  end.

(** A snapshot that needs no request, the first part of
    [RequestNativeThreadStateSnapshot]. *)
Definition snapshot_at_once (regs : context32) (s : NativeThreadStateSlot) : option context32 :=
  if suspended s && suspendAcknowledged s && snapshotValid s then Some (snapshot s)
  else TryCopyQuiescentNativeThreadState regs s.

(** The request is made, once no other one is in flight; its generation is not 0. *)
Definition request_section (s : NativeThreadStateSlot) : option (NativeThreadStateSlot * Z) :=
  if snapshot_requested s then None else
  let next := u64 (nextGeneration s + 1) in
  let generation := if next =? 0 then 1 else next in
  Some (with_generations generation generation (acknowledgedGeneration s) (releasedGeneration s)
          (with_snapshot (snapshot s) false s), generation).

(** How a round of the request ends: [None] is another round, [Some None] a
    failure.  [captured] was copied in this round. *)
Definition request_outcome (stop : bool) (generation : Z) (captured : option context32) (s : NativeThreadStateSlot)
    : option (option context32) :=
  if bool_decide (is_Some captured) && (requestedGeneration s =? generation) && (releasedGeneration s <? generation)
  then Some captured else
  if (generation <=? acknowledgedGeneration s) && snapshotValid s then Some (Some (snapshot s)) else
  if ownerExited s || stop then Some None else None.

Definition release (generation : Z) (s : NativeThreadStateSlot) : NativeThreadStateSlot :=
  with_generations (nextGeneration s) (requestedGeneration s) (acknowledgedGeneration s)
    (Z.max (releasedGeneration s) generation) s.

(** ** Executions *)

(** Where the owner is: it runs guest code, a system call or the marshalling of a
    host call, and may change its registers; the recompiler has returned; it is in
    [PublishNativeThreadStateAndWaitIfNeeded]; it waits for another thread's answer;
    it is in native code inside a quiescence scope; it tries to take, or holds, the
    register lock for a crossing; it is gone. *)
Inductive location :=
  | Executing
  | Returned (has_halt : bool)
  | Publishing
  | Requesting
  | Native
  | Trying (op : crossing)
  | Locked (op : crossing)
  | Exited.

(** A slot with its owner: registers, halt bit, whether the process ends or the
    owner retires, and the request in flight with what it copied in this round. *)
Record thread := {
  slot : NativeThreadStateSlot;
  jit : context32;
  halt : bool;
  at_ : location;
  stopping : bool;
  in_flight : option (Z * option context32);
}.

Definition owner (l : location) (t : thread) : thread :=
  {| slot := slot t; jit := jit t; halt := halt t; at_ := l; stopping := stopping t; in_flight := in_flight t |}.
Definition with_slot (s : NativeThreadStateSlot) (t : thread) : thread :=
  {| slot := s; jit := jit t; halt := halt t; at_ := at_ t; stopping := stopping t; in_flight := in_flight t |}.
Definition with_halt (b : bool) (t : thread) : thread :=
  {| slot := slot t; jit := jit t; halt := b; at_ := at_ t; stopping := stopping t; in_flight := in_flight t |}.
Definition with_jit (c : context32) (t : thread) : thread :=
  {| slot := slot t; jit := c; halt := halt t; at_ := at_ t; stopping := stopping t; in_flight := in_flight t |}.
Definition with_request (q : option (Z * option context32)) (t : thread) : thread :=
  {| slot := slot t; jit := jit t; halt := halt t; at_ := at_ t; stopping := stopping t; in_flight := q |}.
Definition with_stopping (t : thread) : thread :=
  {| slot := slot t; jit := jit t; halt := halt t; at_ := at_ t; stopping := true; in_flight := in_flight t |}.

(** Whether the register lock is free. *)
Definition unlocked (t : thread) : Prop := forall op, at_ t <> Locked op.

(** From native code only a scope or a callback is opened or closed. *)
Definition may_cross (l : location) (op : crossing) : Prop :=
  l = Executing \/ (l = Native /\ match op with HostCallEnter | HostCallExit _ => False | _ => True end).

Definition native_or (b : bool) : location := if b then Native else Executing.

Inductive step : thread -> thread -> Prop :=
  | st_run t c : at_ t = Executing -> step t (with_jit c t)
  | st_return t b : at_ t = Executing -> (b = true -> halt t = true) -> step t (with_halt b (owner (Returned (halt t)) t))
  | st_consume t h :
      at_ t = Returned h ->
      step t (owner (if h || NativeThreadStatePauseRequestedForCurrent (slot t) then Publishing else Executing) t)
  | st_pause t : at_ t = Executing -> step t (owner Publishing t)
  | st_publish_wait t s :
      at_ t = Publishing -> PublishNativeThreadStateAndWaitIfNeeded (stopping t) (jit t) (slot t) = Some s ->
      step t (with_slot s t)
  | st_publish_leave t :
      at_ t = Publishing -> PublishNativeThreadStateAndWaitIfNeeded (stopping t) (jit t) (slot t) = None ->
      step t (with_halt false (owner Executing t))
  | st_ask t : at_ t = Executing -> step t (owner Requesting t)
  | st_nested t :
      at_ t = Requesting -> step t (with_slot (AcknowledgeNestedNativeThreadStateRequest (jit t) (slot t)) t)
  | st_finish t : at_ t = Requesting -> step t (owner Publishing t)
  | st_try t op : may_cross (at_ t) op -> step t (owner (Trying op) t)
  | st_lock t op b s :
      at_ t = Trying op -> LockUnsuspendedGuestRegisters (stopping t) (jit t) (slot t) = (b, s) ->
      step t (owner (if b then Locked op else Trying op) (with_slot s t))
  | st_cross t op s b :
      at_ t = Locked op -> cross op (slot t) = Some (s, b) -> step t (owner (native_or b) (with_slot s t))
  | st_callback_end t s b :
      at_ t = Executing -> NativeGuestCallbackRegisterAccessEnd (slot t) = Some (s, b) ->
      step t (owner (native_or b) (with_slot s t))
  | st_exit t : unlocked t -> step t (owner Exited (with_slot (NativeThreadStateOwnerExited (slot t)) t))
  | st_suspend t s : suspend_section (slot t) = inr s -> step t (with_halt true (with_slot s t))
  | st_resume t s clear :
      resume_section (slot t) = inr (s, clear) -> step t (with_halt (halt t && negb clear) (with_slot s t))
  | st_acknowledge t :
      unlocked t -> step t (with_slot (AcknowledgeQuiescentGuestSuspension (jit t) (slot t)) t)
  | st_request t s g :
      ownerExited (slot t) = false -> stopping t = false -> request_section (slot t) = Some (s, g) ->
      step t (with_request (Some (g, None)) (with_halt true (with_slot s t)))
  | st_copy t g c :
      unlocked t -> in_flight t = Some (g, c) ->
      step t (with_request (Some (g, TryCopyQuiescentNativeThreadState (jit t) (slot t))) t)
  | st_answer t g c o :
      in_flight t = Some (g, c) -> request_outcome (stopping t) g c (slot t) = Some o ->
      step t (with_request None (with_halt (halt t && suspended (slot t)) (with_slot (release g (slot t)) t)))
  | st_stop t : step t (with_stopping t).

Inductive reachable : thread -> Prop :=
  | reach_start c : reachable {| slot := ResetNativeThreadStateSlot; jit := c; halt := false; at_ := Executing;
                                 stopping := false; in_flight := None |}
  | reach_step t t' : reachable t -> step t t' -> reachable t'.

(** ** The invariant *)

(** Where the owner leaves its registers alone and can wait for ever. *)
Definition parked (l : location) : Prop :=
  match l with Publishing | Requesting | Native | Trying _ => True | _ => False end.

(** Where it does not touch its registers. *)
Definition still (l : location) : Prop := l <> Executing.

(** Where native code may hold the registers still. *)
Definition in_native (l : location) : Prop :=
  match l with Native | Trying _ | Locked _ | Exited => True | _ => False end.

Definition held (t : thread) : Prop :=
  suspended (slot t) = true /\ stopping t = false /\ ownerExited (slot t) = false.

Definition acknowledged (t : thread) : Prop := suspendAcknowledged (slot t) = true.

(** While the process runs: an acknowledged suspension finds the owner parked, with
    a snapshot that is its registers if it is valid, and a suspended thread that
    runs has been told to stop. *)
Record thread_ok (t : thread) : Prop := {
  to_native : hostRegistersQuiescent (slot t) = true -> in_native (at_ t);
  to_exited : ownerExited (slot t) = false -> at_ t <> Exited;
  to_acknowledged : suspendAcknowledged (slot t) = true -> suspended (slot t) = true;
  to_parked : held t -> acknowledged t -> parked (at_ t);
  to_snapshot : held t -> acknowledged t -> snapshotValid (slot t) = true -> snapshot (slot t) = jit t;
  to_told : held t -> at_ t = Executing \/ (exists op, at_ t = Locked op) -> halt t = true;
  to_count : 0 <= suspendCount (slot t);
}.

Lemma quiescent_native t : thread_ok t -> registers_quiescent (slot t) = true -> in_native (at_ t).
Proof. intros Hok Hq. apply (to_native _ Hok). unfold registers_quiescent in Hq. by destruct (hostRegistersQuiescent _). Qed.

Lemma suspended_count s : suspended s = true <-> suspendCount s <> 0.
Proof. unfold suspended. by rewrite negb_true_iff, Z.eqb_neq. Qed.

Lemma thread_start_ok c : thread_ok {| slot := ResetNativeThreadStateSlot; jit := c; halt := false; at_ := Executing;
                                 stopping := false; in_flight := None |}.
Proof. split; try done; by intros [? ?]. Qed.

(** A step of the owner that leaves the slot and the registers alone. *)
Lemma moved_ok t l h :
  thread_ok t -> l <> Exited ->
  (hostRegistersQuiescent (slot t) = true -> in_native l) -> (held t -> acknowledged t -> parked l) ->
  (held t -> l = Executing \/ (exists op, l = Locked op) -> h = true) ->
  thread_ok (with_halt h (owner l t)).
Proof. intros [Hn He Ha Hp Hv Ht Hc] Hl H1 H2 H3. by split. Qed.

(** A section that changes the slot only. *)
Lemma section_ok t s :
  thread_ok t -> (hostRegistersQuiescent s = true -> in_native (at_ t)) -> ownerExited s = ownerExited (slot t) ->
  suspendCount s = suspendCount (slot t) ->
  (suspendAcknowledged s = true -> suspended (slot t) = true /\ (held t -> parked (at_ t)) /\
     (held t -> snapshotValid s = true -> snapshot s = jit t)) ->
  thread_ok (with_slot s t).
Proof.
  intros [Hn He Ha Hp Hv Ht Hc] H1 H2 H3 H4.
  assert (held (with_slot s t) <-> held t) as Hh by (unfold held, suspended; cbn; by rewrite H2, H3).
  split; rewrite ?Hh; cbn; unfold acknowledged; cbn.
  - done.
  - by rewrite H2.
  - intros Hs. unfold suspended. rewrite H3. by apply H4.
  - intros Hd Hs. by apply H4.
  - intros Hd Hs. by apply H4.
  - done.
  - by rewrite H3.
Qed.

Lemma publish_round_ok t s :
  thread_ok t -> at_ t = Publishing ->
  PublishNativeThreadStateAndWaitIfNeeded (stopping t) (jit t) (slot t) = Some s -> thread_ok (with_slot s t).
Proof.
  intros Hok Hl. unfold PublishNativeThreadStateAndWaitIfNeeded. destruct (_ && _ && _); [|done]. intros [= <-].
  pose proof Hok as [Hn He Ha Hp Hv Ht Hc].
  destruct ((_ <? _) || _) eqn:E; apply section_ok; try done; cbn; (intros Hs; split; [done|]; split; [by rewrite Hl|]).
  - done.
  - intros Hd. apply Hv; [done|]. unfold acknowledged. rewrite orb_false_iff in E. destruct E as [_ E].
    rewrite Hs in E. by destruct (suspendAcknowledged _).
Qed.

Lemma nested_ok t : thread_ok t -> at_ t = Requesting ->
  thread_ok (with_slot (AcknowledgeNestedNativeThreadStateRequest (jit t) (slot t)) t).
Proof.
  intros Hok Hl. unfold AcknowledgeNestedNativeThreadStateRequest. destruct (_ || _); [by destruct t|].
  apply section_ok; try done; [apply Hok|]. cbn. intros Hs. split; [done|]. by rewrite Hl.
Qed.

Lemma acknowledge_ok t : thread_ok t -> unlocked t ->
  thread_ok (with_slot (AcknowledgeQuiescentGuestSuspension (jit t) (slot t)) t).
Proof.
  intros Hok Hu. unfold AcknowledgeQuiescentGuestSuspension. destruct (registers_quiescent _) eqn:Eq; cbn [negb]; [|by destruct t].
  apply quiescent_native in Eq; [|done]. destruct (suspended (slot t)) eqn:Es; cbn [negb orb]; [|by destruct t].
  destruct (_ || _); [by destruct t|]. apply section_ok; try done. intros _. split; [done|]. split; [|done].
  intros (_ & _ & Hx). pose proof (to_exited _ Hok Hx) as Hne. destruct (at_ t) eqn:El; try done. by destruct (Hu op).
Qed.

Lemma lock_ok t op b s :
  thread_ok t -> at_ t = Trying op -> LockUnsuspendedGuestRegisters (stopping t) (jit t) (slot t) = (b, s) ->
  thread_ok (owner (if b then Locked op else Trying op) (with_slot s t)).
Proof.
  intros Hok Hl. unfold LockUnsuspendedGuestRegisters. destruct (_ || _ || _) eqn:E; intros [= <- <-].
  - assert (~ held t) as Hd.
    { intros (Hs & Hst & Hx). by rewrite Hs, Hst, Hx in E. }
    apply (moved_ok t (Locked op) (halt t)) in Hok; [by destruct t|done|done|tauto|tauto].
  - rewrite !orb_false_iff, negb_false_iff in E. destruct E as [[Es _] _].
    assert (thread_ok (with_slot (acknowledge true (save (jit t) (slot t))) t)) as Hk
      by (apply section_ok; try done; [apply Hok|]; intros _; split; [done|]; split; [by rewrite Hl|done]).
    destruct t; cbn in *. by subst.
Qed.

Lemma crossed_ok t op s b :
  thread_ok t -> at_ t = Locked op -> cross op (slot t) = Some (s, b) -> thread_ok (owner (native_or b) (with_slot s t)).
Proof.
  intros [Hn He Ha Hp Hv Ht Hc] Hl Hs.
  assert (hostRegistersQuiescent s = b /\ ownerExited s = ownerExited (slot t) /\
    suspendCount s = suspendCount (slot t) /\ suspendAcknowledged s = suspendAcknowledged (slot t) /\
    snapshotValid s = snapshotValid (slot t) /\ snapshot s = snapshot (slot t)) as (H1 & H2 & H3 & H4 & H5 & H6).
  { destruct op; cbn in Hs; repeat case_match; by simplify_eq. }
  assert (held (owner (native_or b) (with_slot s t)) <-> held t) as Hh by (unfold held, suspended; cbn; by rewrite H2, H3).
  split; rewrite ?Hh; unfold acknowledged; cbn; rewrite ?H1, ?H2, ?H3, ?H4, ?H5, ?H6; try done.
  - by intros ->.
  - intros _. by destruct b.
  - unfold suspended. by rewrite H3.
  - intros Hd Hac. specialize (Hp Hd Hac). by rewrite Hl in Hp.
  - intros Hd _. apply Ht; [done|]. right. by exists op.
Qed.

Lemma callback_end_ok t s b :
  thread_ok t -> at_ t = Executing -> NativeGuestCallbackRegisterAccessEnd (slot t) = Some (s, b) ->
  thread_ok (owner (native_or b) (with_slot s t)).
Proof.
  intros [Hn He Ha Hp Hv Ht Hc] Hl. unfold NativeGuestCallbackRegisterAccessEnd.
  destruct (guestCallbackDepth (slot t) =? 0); [done|]. intros [= <- Hb]. rewrite Hb.
  split; cbn; rewrite ?Hb; try done.
  - by intros ->.
  - intros _. by destruct b.
  - intros Hd Hac. specialize (Hp Hd Hac). by rewrite Hl in Hp.
  - intros Hd _. apply Ht; [done|]. by left.
Qed.

Lemma suspend_ok t s : thread_ok t -> suspend_section (slot t) = inr s -> thread_ok (with_halt true (with_slot s t)).
Proof.
  intros [Hn He Ha Hp Hv Ht Hc]. unfold suspend_section. destruct (ownerExited (slot t)) eqn:Ex; [done|].
  destruct (_ =? INT_MAX); [done|]. intros [= <-].
  split; cbn; unfold held, acknowledged in *; cbn; rewrite ?Ex; try done; try lia.
  - intros _. apply suspended_count. cbn. lia.
  - intros (_ & Hst & _). destruct (Z.eqb_spec (suspendCount (slot t)) 0) as [|Hne]; [done|]. intros Hac.
    apply Hp; [|done]. split_and!; [by apply suspended_count|done..].
  - intros (_ & Hst & _). destruct (Z.eqb_spec (suspendCount (slot t)) 0) as [|Hne]; [done|]. intros Hac.
    apply Hv; [|done]. split_and!; [by apply suspended_count|done..].
Qed.

Lemma resume_ok t s clear :
  thread_ok t -> resume_section (slot t) = inr (s, clear) -> thread_ok (with_halt (halt t && negb clear) (with_slot s t)).
Proof.
  intros [Hn He Ha Hp Hv Ht Hc]. unfold resume_section. destruct (ownerExited (slot t)) eqn:Ex; [done|].
  destruct (Z.eqb_spec (suspendCount (slot t)) 0) as [|Hne]; [done|]. intros [= <- <-].
  assert (suspended (slot t) = true) as Hsus by (by apply suspended_count).
  unfold held, acknowledged in *. rewrite Hsus, Ex in *.
  split; cbn; rewrite ?Ex; try done; try lia; unfold suspended; cbn;
    destruct (Z.eqb_spec (suspendCount (slot t) - 1) 0) as [|Hne1]; cbn; try done; try (by intros [? _]);
    intros (Hs' & Hst & _); try (by apply Hp); try (by apply Hv).
  - cbn in Hs'. unfold suspended in Hs'. cbn in Hs'. by rewrite e in Hs'.
  - rewrite andb_true_r. by apply Ht.
Qed.

Lemma answer_ok t g o :
  thread_ok t -> request_outcome (stopping t) g o (slot t) <> None ->
  thread_ok (with_request None (with_halt (halt t && suspended (slot t)) (with_slot (release g (slot t)) t))).
Proof.
  intros [Hn He Ha Hp Hv Ht Hc] _. split; try done. intros Hd Hl. cbn.
  rewrite (Ht Hd Hl). cbn. by destruct Hd as (Hs & _).
Qed.

Lemma thread_step_ok t t' : thread_ok t -> step t t' -> thread_ok t'.
Proof.
  intros Hok Hs. pose proof Hok as [Hn He Ha Hp Hv Ht Hc].
  assert (forall l, at_ t = l -> ~ parked l -> held t -> ~ acknowledged t) as Hnp
    by (intros l <- Hl Hd Hac; by apply Hl, Hp).
  destruct Hs as [t c Hl|t b Hl Hb|t h Hl|t Hl|t s Hl Hpub|t Hl Hpub|t Hl|t Hl|t Hl|t op Hl|t op b s Hl Hlock
    |t op s b Hl Hcr|t s b Hl Hcb|t Hu|t s Hsus|t s clear Hres|t Hu|t s g Hex Hst Hreq|t g c Hu Hf|t g c o Hf Ho|t].
  - split; try done. intros Hd Hac. by destruct (Hnp _ Hl id Hd Hac).
  - apply moved_ok; try done.
    + intros Hq. specialize (Hn Hq). by rewrite Hl in Hn.
    + intros Hd Hac. by destruct (Hnp _ Hl id Hd Hac).
    + by intros _ [|[]].
  - destruct (h || _) eqn:E.
    + apply (moved_ok t Publishing (halt t)); try done; [|by intros _ [|[]]].
      intros Hq. specialize (Hn Hq). by rewrite Hl in Hn.
    + apply (moved_ok t Executing (halt t)); try done.
      * intros Hq. specialize (Hn Hq). by rewrite Hl in Hn.
      * intros Hd Hac. by destruct (Hnp _ Hl id Hd Hac).
      * intros (Hsu & _) _. rewrite orb_false_iff in E. destruct E as [_ E].
        unfold NativeThreadStatePauseRequestedForCurrent in E. by rewrite Hsu in E.
  - apply (moved_ok t Publishing (halt t)); try done; [|by intros _ [|[]]].
    intros Hq. specialize (Hn Hq). by rewrite Hl in Hn.
  - by apply publish_round_ok.
  - assert (~ held t) as Hd.
    { intros (Hsu & Hst & Hx). unfold PublishNativeThreadStateAndWaitIfNeeded, NativeThreadStatePauseRequestedForCurrent in Hpub.
      by rewrite Hsu, Hst, Hx in Hpub. }
    apply moved_ok; try done. intros Hq. specialize (Hn Hq). by rewrite Hl in Hn.
  - apply (moved_ok t Requesting (halt t)); try done; [|by intros _ [|[]]].
    intros Hq. specialize (Hn Hq). by rewrite Hl in Hn.
  - by apply nested_ok.
  - apply (moved_ok t Publishing (halt t)); try done; [|by intros _ [|[]]].
    intros Hq. specialize (Hn Hq). by rewrite Hl in Hn.
  - apply (moved_ok t (Trying op) (halt t)); try done. by intros _ [|[]].
  - by apply (lock_ok t op b s).
  - by apply (crossed_ok t op s b).
  - by apply (callback_end_ok t s b).
  - split; try done; by intros (_ & _ & ?).
  - by apply suspend_ok.
  - by apply resume_ok.
  - by apply acknowledge_ok.
  - unfold request_section in Hreq. destruct (snapshot_requested _); [done|]. injection Hreq as <- <-. by split.
  - by split.
  - eapply answer_ok; [done|]. by rewrite Ho.
  - split; try done; by intros (_ & ? & _).
Qed.

Lemma thread_reachable_ok t : reachable t -> thread_ok t.
Proof. induction 1; [apply thread_start_ok|by eapply thread_step_ok]. Qed.

(** ** Suspended threads *)

(** Steps under a suspension. *)
Definition held_step (t t' : thread) : Prop := step t t' /\ held t'.

Lemma held_keeps t t' : thread_ok t -> held t -> acknowledged t -> step t t' -> held t' -> acknowledged t' /\ jit t' = jit t.
Proof.
  intros Hok (Hsu & Hst & Hx) Hac Hs (Hsu' & _). unfold acknowledged in *.
  assert (parked (at_ t)) as Hp by (by apply Hok; [split|]).
  destruct Hs as [t c Hl|t b Hl Hb|t h Hl|t Hl|t s Hl Hpub|t Hl Hpub|t Hl|t Hl|t Hl|t op Hl|t op b s Hl Hlock
    |t op s b Hl Hcr|t s b Hl Hcb|t Hu|t s Hsus|t s clear Hres|t Hu|t s g Hex Hst' Hreq|t g c Hu Hf|t g c o Hf Ho|t];
    try (by rewrite Hl in Hp); try done; (split; [|done]); cbn in *.
  - unfold PublishNativeThreadStateAndWaitIfNeeded in Hpub. destruct (_ && _ && _); [|done]. injection Hpub as <-. exact Hsu.
  - unfold AcknowledgeNestedNativeThreadStateRequest. destruct (_ || _); [done|]. exact Hsu.
  - unfold LockUnsuspendedGuestRegisters in Hlock. rewrite Hsu, Hst, Hx in Hlock. by injection Hlock as <- <-.
  - unfold suspend_section in Hsus. rewrite Hx in Hsus. destruct (_ =? INT_MAX); [done|]. injection Hsus as <-. cbn.
    apply suspended_count, Z.eqb_neq in Hsu. by rewrite Hsu.
  - unfold resume_section in Hres. rewrite Hx in Hres. destruct (_ =? 0); [done|]. injection Hres as <- _. cbn.
    unfold suspended in Hsu'. cbn in Hsu'. by destruct (_ - 1 =? 0).
  - unfold AcknowledgeQuiescentGuestSuspension. by repeat case_match.
  - unfold request_section in Hreq. destruct (snapshot_requested _); [done|]. by injection Hreq as <- <-.
Qed.

Lemma held_frozen t t' :
  thread_ok t -> held t -> acknowledged t -> rtc held_step t t' ->
  thread_ok t' /\ held t' /\ acknowledged t' /\ jit t' = jit t.
Proof.
  intros Hok Hh Ha Hr. induction Hr as [t|t t1 t' [Hs Hh1] _ IH]; [done|].
  destruct (held_keeps t t1) as [Ha1 Hj]; [done..|]. rewrite <- Hj. apply IH; [by eapply thread_step_ok|done..].
Qed.

(** One round of waiting acknowledges. *)
Lemma publishing_acknowledges t : held t -> at_ t = Publishing -> exists t', held_step t t' /\ acknowledged t'.
Proof.
  intros (Hsu & Hst & Hx) Hl.
  destruct (PublishNativeThreadStateAndWaitIfNeeded (stopping t) (jit t) (slot t)) as [s|] eqn:E.
  - exists (with_slot s t). pose proof (st_publish_wait t s Hl E) as Hs. revert E.
    unfold PublishNativeThreadStateAndWaitIfNeeded. destruct (_ && _ && _); [|done]. intros [= <-].
    split; [split; [done|]|exact Hsu]. split_and!; [|done|]; by destruct (_ || _).
  - unfold PublishNativeThreadStateAndWaitIfNeeded, NativeThreadStatePauseRequestedForCurrent in E.
    by rewrite Hsu, Hst, Hx in E.
Qed.

Lemma trying_acknowledges t op : held t -> at_ t = Trying op -> exists t', held_step t t' /\ acknowledged t'.
Proof.
  intros (Hsu & Hst & Hx) Hl.
  assert (LockUnsuspendedGuestRegisters (stopping t) (jit t) (slot t) = (false, acknowledge true (save (jit t) (slot t)))) as E
    by (unfold LockUnsuspendedGuestRegisters; by rewrite Hsu, Hst, Hx).
  eexists. split; [split; [exact (st_lock t op _ _ Hl E)|by split_and!]|done].
Qed.

(** Wherever the owner is, it can acknowledge without being resumed. *)
Lemma can_acknowledge t : thread_ok t -> held t -> unlocked t -> exists t', rtc held_step t t' /\ acknowledged t'.
Proof.
  intros Hok Hh Hu. pose proof Hh as (Hsu & Hst & Hx).
  assert (forall u l, held u -> step u (owner Publishing u) -> at_ u = l -> exists t', rtc held_step u t' /\ acknowledged t')
    as Hpub.
  { intros u l Hhu Hs _. destruct (publishing_acknowledges (owner Publishing u)) as (t' & Hs' & Ha); [done..|].
    exists t'. split; [|done]. apply rtc_l with (owner Publishing u); [by split|by apply rtc_once]. }
  assert (forall u h, held u -> at_ u = Returned h -> exists t', rtc held_step u t' /\ acknowledged t') as Hret.
  { intros u h Hhu Hl. apply (Hpub u (Returned h)); [done| |done]. pose proof (st_consume u h Hl) as Hs.
    unfold NativeThreadStatePauseRequestedForCurrent in Hs. destruct Hhu as (Hsu' & _). by rewrite Hsu', orb_true_r in Hs. }
  destruct (at_ t) as [|h| | | |op|op|] eqn:Hl.
  - destruct (Hret (with_halt (halt t) (owner (Returned (halt t)) t)) (halt t)) as (t' & Hs & Ha); [done..|].
    exists t'. split; [|done]. eapply rtc_l; [|exact Hs]. split; [by apply st_return|done].
  - by apply (Hret t h).
  - destruct (publishing_acknowledges t) as (t' & Hs & Ha); [done..|]. exists t'. split; [by apply rtc_once|done].
  - apply (Hpub t Requesting); [done|by apply st_finish|done].
  - destruct (trying_acknowledges (owner (Trying QuiescenceEnd) t) QuiescenceEnd) as (t' & Hs & Ha); [done..|].
    exists t'. split; [|done]. eapply rtc_l; [|by apply rtc_once]. split; [|done]. apply st_try. right. by rewrite Hl.
  - destruct (trying_acknowledges t op) as (t' & Hs & Ha); [done..|]. exists t'. split; [by apply rtc_once|done].
  - by destruct (Hu op).
  - by destruct (to_exited _ Hok Hx).
Qed.

(** C37: thread_suspend means what it says.  In every interleaving of the thread with
    suspensions, resumptions, snapshot requests and host calls: while it is suspended
    and runs, its halt bit is set; wherever it is, but inside the lock of a crossing,
    it can acknowledge the suspension without being resumed; and once a
    thread_suspend has returned success and nobody has resumed it, the thread has
    acknowledged it, and until its suspend count is 0 again it stays parked with the
    same registers, which are what a valid snapshot says. *)
Theorem suspended_thread_frozen t :
  reachable t -> held t ->
  (at_ t = Executing -> halt t = true) /\
  (unlocked t -> exists t', rtc held_step t t' /\ acknowledged t') /\
  (suspend_result (stopping t) (slot t) = Some KERN_SUCCESS ->
   acknowledged t /\
   forall t', rtc held_step t t' ->
     parked (at_ t') /\ jit t' = jit t /\ (snapshotValid (slot t') = true -> snapshot (slot t') = jit t)).
Proof.
  intros Hr Hh. apply thread_reachable_ok in Hr. split; [intros Hl; apply (to_told _ Hr Hh); by left|].
  split; [by apply can_acknowledge|].
  intros Hres. assert (acknowledged t) as Ha.
  { destruct Hh as (Hsu & Hst & Hx). unfold suspend_result in Hres. rewrite Hsu, Hst, Hx in Hres.
    unfold acknowledged. by destruct (suspendAcknowledged (slot t)). }
  split; [done|]. intros t' Hs. destruct (held_frozen t t' Hr Hh Ha Hs) as (Hok & Hh' & Ha' & Hj).
  split; [by apply Hok|]. split; [done|]. intros Hv. rewrite <- Hj. by apply Hok.
Qed.

(** ** Snapshots *)

(** A section stores nothing but the registers of an owner that is still. *)
Lemma stored t t' :
  thread_ok t -> step t t' -> snapshotValid (slot t') = true ->
  snapshotValid (slot t) = true /\ snapshot (slot t') = snapshot (slot t) \/
  snapshot (slot t') = jit t /\ still (at_ t).
Proof.
  intros Hok Hs. unfold still.
  destruct Hs as [t c Hl|t b Hl Hb|t h Hl|t Hl|t s Hl Hpub|t Hl Hpub|t Hl|t Hl|t Hl|t op Hl|t op b s Hl Hlock
    |t op s b Hl Hcr|t s b Hl Hcb|t Hu|t s Hsus|t s clear Hres|t Hu|t s g Hex Hst' Hreq|t g c Hu Hf|t g c o Hf Ho|t];
    cbn; try by left.
  - unfold PublishNativeThreadStateAndWaitIfNeeded in Hpub. destruct (_ && _ && _); [|done].
    injection Hpub as <-. destruct (_ || _); [|by left]. right. by rewrite Hl.
  - unfold AcknowledgeNestedNativeThreadStateRequest. destruct (_ || _); [by left|]. right. by rewrite Hl.
  - unfold LockUnsuspendedGuestRegisters in Hlock. destruct (_ || _ || _); injection Hlock as <- <-; [by left|].
    right. by rewrite Hl.
  - assert (snapshotValid s = snapshotValid (slot t) /\ snapshot s = snapshot (slot t)) as [-> ->]
      by (destruct op; cbn in Hcr; repeat case_match; by simplify_eq).
    by left.
  - unfold NativeGuestCallbackRegisterAccessEnd in Hcb. destruct (_ =? 0); [done|]. injection Hcb as <- _. by left.
  - unfold suspend_section in Hsus. repeat case_match; simplify_eq; by left.
  - unfold resume_section in Hres. repeat case_match; simplify_eq; by left.
  - unfold AcknowledgeQuiescentGuestSuspension. destruct (registers_quiescent (slot t)) eqn:Eq; cbn [negb]; [|by left].
    destruct (_ || _); [by left|]. right. split; [done|]. apply quiescent_native in Eq; [|done]. by destruct (at_ t).
  - unfold request_section in Hreq. destruct (snapshot_requested _); [done|]. by injection Hreq as <- <-.
Qed.

(** Steps while the request [g] is in flight. *)
Definition flight_step (g : Z) (t t' : thread) : Prop := step t t' /\ exists c, in_flight t' = Some (g, c).

(** The request a step makes has not the number of the one before. *)
Lemma request_number g s s' g' :
  nextGeneration s = g -> 0 <= g < U64_MOD -> request_section s = Some (s', g') ->
  nextGeneration s' = g' /\ 0 <= g' < U64_MOD /\ g' <> g /\ snapshotValid s' = false.
Proof.
  intros <- Hg. unfold request_section. destruct (snapshot_requested s); [done|]. intros [= <- <-]. cbn.
  assert (0 <= u64 (nextGeneration s + 1) < U64_MOD) as Hu by (apply Z.mod_pos_bound; done).
  split; [done|]. split; [by case_match; [|done]|]. split; [|done].
  unfold u64 in *. destruct (decide (nextGeneration s + 1 = U64_MOD)) as [E|E].
  - rewrite E, Z.mod_same by done. cbn. unfold U64_MOD in *. lia.
  - rewrite Z.mod_small by lia. destruct (Z.eqb_spec (nextGeneration s + 1) 0); lia.
Qed.

(** The moment a request sees: during its flight, with the owner still. *)
Definition moment (g : Z) (t1 t2 : thread) (c : context32) : Prop :=
  exists m, rtc (flight_step g) t1 m /\ rtc (flight_step g) m t2 /\ jit m = c /\ still (at_ m).

Lemma moment_later g t1 t t' c : moment g t1 t c -> flight_step g t t' -> moment g t1 t' c.
Proof. intros (m & H1 & H2 & H3) Hs. exists m. split_and!; [done|by eapply rtc_r|apply H3..]. Qed.

(** Generations are given out by requests only. *)
Lemma step_next t t' :
  step t t' -> nextGeneration (slot t') = nextGeneration (slot t) \/
  exists g, request_section (slot t) = Some (slot t', g) /\ in_flight t' = Some (g, None).
Proof.
  intros Hs.
  destruct Hs as [t c Hl|t b Hl Hb|t h Hl|t Hl|t s Hl Hpub|t Hl Hpub|t Hl|t Hl|t Hl|t op Hl|t op b s Hl Hlock
    |t op s b Hl Hcr|t s b Hl Hcb|t Hu|t s Hsus|t s clear Hres|t Hu|t s g Hex Hst Hreq|t g c Hu Hf|t g c o Hf Ho|t];
    cbn; try by left.
  - unfold PublishNativeThreadStateAndWaitIfNeeded in Hpub. left. repeat case_match; by simplify_eq.
  - unfold AcknowledgeNestedNativeThreadStateRequest. left. by repeat case_match.
  - unfold LockUnsuspendedGuestRegisters in Hlock. left. repeat case_match; by simplify_eq.
  - left. destruct op; cbn in Hcr; repeat case_match; by simplify_eq.
  - unfold NativeGuestCallbackRegisterAccessEnd in Hcb. left. repeat case_match; by simplify_eq.
  - unfold suspend_section in Hsus. left. repeat case_match; by simplify_eq.
  - unfold resume_section in Hres. left. repeat case_match; by simplify_eq.
  - unfold AcknowledgeQuiescentGuestSuspension. left. by repeat case_match.
  - right. by exists g.
Qed.

Lemma next_range t : reachable t -> 0 <= nextGeneration (slot t) < U64_MOD.
Proof.
  induction 1 as [c|t t' _ IH Hs]; [done|]. destruct (step_next t t' Hs) as [->|(g & Hreq & _)]; [done|].
  by destruct (request_number _ _ _ _ eq_refl IH Hreq) as (-> & Hg & _).
Qed.

Lemma next_kept t t' g :
  step t t' -> nextGeneration (slot t) = g -> 0 <= g < U64_MOD -> (exists c, in_flight t' = Some (g, c)) ->
  nextGeneration (slot t') = g.
Proof.
  intros Hs Hg Hr [c Hf]. destruct (step_next t t' Hs) as [->|(g' & Hreq & Hf')]; [done|].
  destruct (request_number _ _ _ _ Hg Hr Hreq) as (_ & _ & Hne & _). congruence.
Qed.

(** What the request in flight may answer with is such a moment. *)
Record flight_ok (g : Z) (t1 t : thread) : Prop := {
  fo_ok : thread_ok t;
  fo_next : nextGeneration (slot t) = g;
  fo_snapshot : snapshotValid (slot t) = true -> moment g t1 t (snapshot (slot t));
  fo_captured : forall c, in_flight t = Some (g, Some c) -> moment g t1 t c;
}.

Lemma flight_keeps g t1 t t' :
  0 <= g < U64_MOD -> rtc (flight_step g) t1 t -> flight_ok g t1 t -> flight_step g t t' -> flight_ok g t1 t'.
Proof.
  intros Hg H1 [Hok Hn Hsn Hc] Hf. pose proof Hf as [Hs Hin]. split.
  - by eapply thread_step_ok.
  - by apply (next_kept t t').
  - intros Hv. destruct (stored t t' Hok Hs Hv) as [[Hv0 ->]|[-> Hst]]; [eapply moment_later; [by apply Hsn|done]|].
    exists t. split_and!; [done|by apply rtc_once|done..].
  - intros c Hcap.
    assert (in_flight t = Some (g, Some c) \/ jit t = c /\ still (at_ t)) as [Hold|[<- Hst]].
    { destruct Hs as [| | | | | | | | | | | | | | | | |t s g' _ _ Hreq|t g' c' Hu Hf'| |]; cbn in Hcap; try (by left); try done.
      injection Hcap as <- Hcap. unfold TryCopyQuiescentNativeThreadState in Hcap.
      destruct (registers_quiescent (slot t)) eqn:Eq; [|done]. injection Hcap as <-.
      right. split; [done|]. apply quiescent_native in Eq; [|done]. unfold still. by destruct (at_ t). }
    + eapply moment_later; [by apply Hc|done].
    + exists t. split_and!; [done|by apply rtc_once|done..].
Qed.

Lemma flight_all g t1 t2 :
  0 <= g < U64_MOD -> flight_ok g t1 t1 -> rtc (flight_step g) t1 t2 -> flight_ok g t1 t2.
Proof.
  intros Hg H1 Hr. refine (rtc_ind_r (fun t => flight_ok g t1 t) t1 H1 _ t2 Hr).
  intros t t' Ht Hs Hf. by eapply flight_keeps.
Qed.

(** C38: a thread's state is one it had.  A snapshot taken at once is the registers of a
    thread that is not running; and whatever happens between the request of a
    snapshot and its answer, a successful answer is what the registers were at some
    moment in between at which the thread was not running: no torn and no stale state
    is ever returned. *)
Theorem thread_state_is_a_moment t :
  reachable t -> stopping t = false -> ownerExited (slot t) = false ->
  (forall c, unlocked t -> snapshot_at_once (jit t) (slot t) = Some c -> c = jit t /\ still (at_ t)) /\
  (forall s g t2 k c, request_section (slot t) = Some (s, g) ->
     let t1 := with_request (Some (g, None)) (with_halt true (with_slot s t)) in
     rtc (flight_step g) t1 t2 -> in_flight t2 = Some (g, k) ->
     request_outcome (stopping t2) g k (slot t2) = Some (Some c) -> moment g t1 t2 c).
Proof.
  intros Hr Hst Hx. pose proof (next_range t Hr) as Hn. apply thread_reachable_ok in Hr. split.
  - intros c Hu. unfold snapshot_at_once. destruct (_ && _ && _) eqn:E.
    + intros [= <-]. rewrite !andb_true_iff in E. destruct E as [[Hs Ha] Hv].
      assert (held t) as Hh by (by split_and!).
      split; [by apply Hr|]. pose proof (to_parked _ Hr Hh Ha) as Hp. unfold still. by destruct (at_ t).
    + unfold TryCopyQuiescentNativeThreadState. destruct (registers_quiescent (slot t)) eqn:Eq; [|done].
      intros [= <-]. split; [done|]. apply quiescent_native in Eq; [|done]. unfold still. by destruct (at_ t).
  - intros s g t2 k c Hreq t1 Hfl Hk Ho.
    destruct (request_number _ _ _ _ eq_refl Hn Hreq) as (Hn1 & Hg & _ & Hv1).
    assert (flight_ok g t1 t2) as [_ _ Hsn Hcap].
    { apply (flight_all g t1 t2); [done| |done].
      split; [by eapply thread_step_ok; [exact Hr|apply st_request]|done| |done]. cbn. by rewrite Hv1. }
    unfold request_outcome in Ho. destruct (_ && _ && _).
    + injection Ho as ->. by apply Hcap.
    + destruct (_ && _) eqn:E; [|by repeat case_match]. injection Ho as <-. apply Hsn. by apply andb_true_iff in E as [_ ?].
Qed.

(** ** A concrete thread *)

Definition sample_registers : context32 :=
  {| regs := seqZ 100 16; extRegs := replicate 64 0; cpsr := 0x10; fpscr := 0; uro := 0x2000 |}.

Definition running_thread : thread :=
  {| slot := ResetNativeThreadStateSlot; jit := sample_registers; halt := false; at_ := Executing;
     stopping := false; in_flight := None |}.

Definition told_slot : NativeThreadStateSlot := with_suspension false 1 false ResetNativeThreadStateSlot.

(** It is suspended, leaves the recompiler, and waits. *)
Definition told_thread : thread := with_halt true (with_slot told_slot running_thread).
Definition suspended_thread : thread :=
  with_slot (acknowledge true (save sample_registers told_slot))
    (owner Publishing (with_halt true (owner (Returned true) told_thread))).

Lemma suspended_reachable : reachable suspended_thread.
Proof.
  eapply reach_step; [|by apply st_publish_wait].
  eapply reach_step; [|by apply (st_consume _ true)].
  eapply reach_step; [|by apply st_return].
  eapply reach_step; [|by apply (st_suspend running_thread)]. apply reach_start.
Qed.

Lemma suspended_thread_frozen_witness :
  held suspended_thread /\
  forall t, rtc held_step suspended_thread t -> parked (at_ t) /\ jit t = sample_registers.
Proof.
  assert (held suspended_thread) as Hh by done. split; [exact Hh|].
  destruct (suspended_thread_frozen suspended_thread suspended_reachable Hh) as (_ & _ & H).
  destruct (H eq_refl) as [_ H1]. intros t Ht. destruct (H1 t Ht) as (Hp & Hj & _). split; [exact Hp|exact Hj].
Defined.

(** Its registers are requested while it runs. *)
Definition requested_slot : NativeThreadStateSlot :=
  with_generations 1 1 0 0 (with_snapshot zero_context false ResetNativeThreadStateSlot).
Definition requested_thread : thread :=
  with_request (Some (1, None)) (with_halt true (with_slot requested_slot running_thread)).
Definition answered_thread : thread :=
  with_slot (acknowledge false (save sample_registers requested_slot))
    (owner Publishing (with_halt true (owner (Returned true) requested_thread))).

Lemma answered_flight : rtc (flight_step 1) requested_thread answered_thread.
Proof.
  eapply rtc_l; [split; [by apply st_return|by eexists]|].
  eapply rtc_l; [split; [by apply (st_consume _ true)|by eexists]|].
  eapply rtc_l; [split; [by apply st_publish_wait|by eexists]|]. apply rtc_refl.
Qed.

Lemma thread_state_is_a_moment_witness :
  request_outcome false 1 None (slot answered_thread) = Some (Some sample_registers) /\
  moment 1 requested_thread answered_thread sample_registers.
Proof.
  split; [reflexivity|].
  destruct (thread_state_is_a_moment running_thread (reach_start sample_registers) eq_refl eq_refl) as [_ H].
  exact (H requested_slot 1 answered_thread None sample_registers eq_refl answered_flight eq_refl eq_refl).
Defined.
